(* ===== verification/_CoqProject ===== *)
-Q . S2P
Prelude.v
Outcome.v
Identity.v
TenantLifecycle.v
Routing.v
SourceTime.v
Limits.v
Values.v
Observe.v
Traversal.v
Validation.v
Shape.v
CanonicalEncoding.v
ComparisonOrder.v
Occurrences.v
PolicyModel.v
PolicyCodec.v
PolicyCompile.v
PolicyEvaluation.v
GovernorModel.v
GovernorPools.v
GovernorState.v
GovernorAdmission.v
GovernorRelease.v
GovernorControl.v
GovernorConservation.v
GovernorGrants.v
GovernorSystem.v
GovernorResize.v
GovernorReplace.v
GovernorRuns.v
GovernorScenarios.v
RetentionTime.v
RetentionRuns.v
RetentionSafety.v
LogStore.v
LogCodec.v
LogReads.v
ValueLayout.v
LogRoundtrip.v
LogBlocks.v
LogScenarios.v
TraceModel.v
TraceHeap.v
TraceStructure.v
TraceCycles.v
TracePath.v
TraceAnalysis.v
TraceResults.v
TraceRelationships.v
TraceAggregate.v
TraceConsolidation.v
TraceMerge.v
TraceViews.v
TraceCodec.v
TraceDecode.v
TraceWrites.v
TraceReads.v
TraceSpans.v
TraceSize.v
TraceRoundtrip.v
TraceKeys.v
LedgerFrame.v
LedgerFormat.v
LedgerDisk.v
LedgerStorage.v
LedgerAppend.v
LedgerLogic.v
LedgerDurable.v
LedgerRecovery.v
LedgerCrash.v
LedgerSafety.v
LedgerRestart.v
CatalogCodec.v
CatalogRecords.v
GovernanceObject.v
GovernanceLayout.v
