(* ===== verification/Prelude.v ===== *)
(** * Positron: a verification development

    Positron is a single-node observability store written in Rust. Records arrive through
    protocol adapters, are turned into native values and validated against a profile of limits
    (crate [positron-domain]), pass an ingest policy that may drop, redact or truncate them
    (crate [positron-policy]), and are stored and queried by components that must reserve every
    byte, slot and operation they use from one resource governor (crate [positron-kernel]). A
    retention clock of the same crate dates every record. The log store and the trace store
    (crate [positron-signals]) write dated records into blocks, which the active segment ledger
    (crate [positron-kernel]) encrypts and commits to files that survive crashes; the trace store
    consolidates the observations it reads back into spans and analyses traces. This library
    models those parts as executable Rocq functions and proves what each promises to the others.
    Every definition that translates code is preceded by the file, lines and symbol it
    translates, relative to [src/crates].

    ** Files

    - [Prelude]: results, checked machine arithmetic, byte strings, folds, sums and automation.
    - Domain types ([positron-domain/src]): [Outcome] (outcome.rs), [Identity] (identity.rs),
      [TenantLifecycle] (lifecycle.rs), [Routing] (routing.rs), [SourceTime] (time.rs),
      [Limits] (value/namespace_limits.rs, value/profiles.rs).
    - Native values ([positron-domain/src/value]): [Values] (data of candidates and validated
      values), [Observe] (the observer interface as a typeclass, and the state-and-error monad
      of observed operations), [Traversal] (counting, sizing, comparing and cloning, silent and
      observed), [Validation] (the consuming validation with its memory accounting), [Shape]
      (the allocation-free check and the entry points), [CanonicalEncoding] and
      [ComparisonOrder] (the two byte encodings), [Occurrences] (repeated attributes).
    - Ingest policy ([positron-policy/src]): [PolicyModel] (rules, actions, records),
      [PolicyCodec] (binary form of rules), [PolicyCompile] (budgets, activation),
      [PolicyEvaluation] (running a policy on a record, provenance).
    - Resource governor ([positron-kernel/src/resource_governor]): [GovernorModel] (amounts,
      claims, quotas, disk pressure), [GovernorPools] (pool charges, fair shares),
      [GovernorState] (accounting state, grant slots, drop ledger), [GovernorAdmission],
      [GovernorRelease], [GovernorControl], [GovernorResize] (the handlers),
      [GovernorConservation], [GovernorGrants], [GovernorReplace] (the invariant of each
      handler), [GovernorSystem] (draining, and the step relation of a governor with its
      callers' handles), [GovernorRuns] (every step keeps the invariant, and the theorems on
      every run) and [GovernorScenarios] (runs in which the code departs from what it says).
    - Retention time ([positron-kernel/src]): [RetentionTime] (retention_time.rs and
      lifecycle_clock.rs: the clock, its durable anchor, staged candidates, accepted
      discontinuities), [RetentionRuns] (interleaved threads), [RetentionSafety] (its theorems).
    - Log store ([positron-signals/src/log_store]): [LogStore] (types.rs, types/, failure.rs),
      [LogCodec] (codec.rs, codec/: size pass, encoder, decoder, retention check),
      [LogReads], [LogRoundtrip], [LogBlocks] (decoders read what encoders wrote, from
      primitives to blocks), [LogScenarios] (the value decoder ends; scenarios).
      [ValueLayout] gives the bytes of a value that both stores write.
    - Trace store ([positron-signals/src/trace_store]): [TraceModel] (observations, logical spans,
      and computations that the caller can interrupt), [TraceHeap] (the observed heap sort),
      [TraceStructure] and [TraceAnalysis] (structural.rs and the service edges of
      relationships.rs), [TraceRelationships] (their aggregation), [TraceConsolidation] and
      [TraceKeys] (consolidation.rs and consolidation/entries.rs), [TraceCodec] and [TraceDecode]
      (codec/). Their theorems: [TraceCycles], [TracePath], [TraceResults] (the
      index, cycles, children, the critical path, and the analysis as a whole),
      [TraceAggregate] (service pairs), [TraceMerge] and [TraceViews] (the sort and the groups of
      consolidation), [TraceWrites], [TraceReads], [TraceSpans], [TraceSize], [TraceRoundtrip]
      (the block codec).
    - Active segment ledger ([positron-kernel/src/active_segment_ledger] and
      [positron-kernel/src/data_protection]): [LedgerFrame] (contexts, frames, the interface of
      the ciphers), [LedgerFormat] (identities, receipts, metadata, headers, wrapped keys),
      [LedgerDisk] (files, directories, crashes, and programs over system calls),
      [LedgerStorage] (append, frontier, recovery, sealing, removal, the catalog's segments), [LedgerAppend] (the state behind the
      lock, appending a prepared block, reconstruction). Their theorems: [LedgerLogic] (a program
      logic for files, the phases of a segment and what a crash makes of them),
      [LedgerDurable] (what an append leaves), [LedgerRecovery] (recovery of what was
      committed), [LedgerCrash] (a ledger that serves requests, and its nonces),
      [LedgerSafety] and [LedgerRestart] (the life of a segment).
    - Catalog ([positron-kernel/src/catalog]): [CatalogCodec] (types.rs, codec.rs, budget.rs,
      preparation.rs, storage/marker.rs: commit and audit records, markers, prepared commits)
      with its theorems in [CatalogRecords], and [GovernanceObject] (governance_object.rs and
      its codec: the record of the primary tenant and its successors) with its theorems in
      [GovernanceLayout].

    ** How the code is represented

    A fixed-width integer is a [Z] with the bound of its type; checked, saturating and wrapping
    operations are written out, and [usize] is 64 bits. A byte string is a list of integers. A
    fallible function returns [result]. A function that mutates takes and returns its state: the
    observed operations in the monad of [Observe], the governor's handlers in the monads [Adm]
    and [Rel], where an early return keeps what was written before it, the computations of the
    trace store in a monad whose environment may interrupt each of their observed steps, and
    the programs of the ledger in the monad [Io].

    Recursion over values is structural. Where the code loops or recurses on something else the
    model has fuel: the policy decoder the maximal nesting depth that it checks before
    descending, so that running out of fuel is the code's own depth error; the value decoders
    of the log and trace stores one level more than the bytes that are left
    ([LogScenarios] proves that more never matters); a loop over system calls one turn more
    than the responses of the environment that are left, because each turn uses one.

    Every handler of the governor runs under one lock, hence a run is a sequence of whole
    handlers; what happens without the lock (a dropped handle marks its slot, a contended
    try-lock) is a step of its own. Appends to a ledger run under its lock as well; what
    interleaves with them is the environment, a list of responses to system calls that ends
    when the machine stops. A crash leaves of a file what was synchronised and anything in place
    of what was not, and of a name the old or the new entry.

    Code outside the repository is a parameter with the documented behaviour it needs as a
    hypothesis: the allocator (which requests succeed, and with which capacity), the observer
    of a traversal, the hash function of an index, the table layout of the governor's bootstrap,
    and the ciphers ([CryptoLaws]: what was sealed opens, and the lengths of seals and digests).

    ** What the theorems show

    - Values: an accepted value carries exactly the facts (size, retained bytes) that its content
      has, validation returns every byte it accounted for on success and on failure, and the
      three recursive checks agree for every ceiling on one value, with the one exception of a
      scalar at the top that validation does not compare with a ceiling below eight bytes;
      observation never changes a result, and the canonical encoding is self-delimiting and its
      comparison form orders bytes as values.
    - Policy: activation restores the compiled policy, a compiled policy never runs out of its
      evaluation budget, no action touches the service identity, truncation keeps the longest
      valid prefix, and provenance lists exactly the rules that changed the record and the one that
      decided on it, and reproduces their actions.
    - Governor: in every state of every run every total, pool, tenant usage and counter of the
      books is the sum over the reservations that are held and those that were lost (a refinement
      of the abstract list of reservations); a reservation is lost only when a resize fails
      internally, which fences the governor. Capacities are never exceeded, a refusal counts
      itself and changes nothing else, a resize is exact, leaves everything as it was or fences,
      every held handle can be released and shrunk, and an idle governor that is not fenced is
      empty. The scenario theorems record where the code does not do what its refusal codes say.
    - Retention time: ingest times of a scope never decrease, a prepared acceptance of a
      discontinuity takes effect, an uncertain clock becomes certain exactly when the section
      taken shows a wall clock within the policy, a certain durable record or an audited commit
      of the acceptance, and a restart keeps the safe time; two scenarios show readings and
      candidates that get lost.
    - Log store: records of up to 3072 attribute groups that the size pass accepts are written
      with exactly that many bytes and read back with the same content, past the limit they are
      validated only; wider records are written and never read; blocks are refused
      for other tenants; decoding ends on every input. A scenario shows a block that is malformed
      only when it is returned.
    - Trace store: consolidation groups observations by their meaning, whatever interrupts it
      or else returns the exact groups; the analysis states the facts of every span, the critical
      path tiles the interval of the root, service edges and pairs are exact for every hash
      function; blocks are written when they fit and read back. A scenario shows a value that
      is written and never read.
    - Ledger: for every answer of the environment and every crash, recovery returns the blocks
      that were acknowledged and at most one more; a failure says truthfully what recovery will
      find; recovery can itself be interrupted any number of times; a key never seals two frames
      with one nonce; what a ledger is opened on is consistent, which is what the theorems on its
      life assume of it.
    - Catalog: audit records, commits, markers and prepared commits are read back as they were
      written; the successors that administration derives from a governance record of the
      sixth to eighth version, by editing its bytes, decode to the record with exactly one
      resource replaced. One theorem and a group of scenarios show the exceptions: a
      lifecycle change of the eighth version, and changes of the first five.
    - Domain types: the tenant lifecycle and its irreversible purge, commit positions that do
      not wrap, profiles that only lower limits, and truthful query times.

    ** Not modelled

    Operating-system bindings, ciphers, generated protocol types, listeners and process
    wiring are I/O or third-party code. The files of the catalog, their recovery and publication,
    and with them the compaction, the snapshot leases and the retention evaluation of the ledger, the scans and summaries of the stores,
    schema discovery, the query engine, governance and configuration hold logic of their own
    that is not modelled: they work through the catalog or through SQL plans, whose models would
    come first. The sealing of a segment is modelled without a theorem on crashes in it, because
    it moves a file between directories and the model of a crash here does not order the
    changes of two directories. *)

From Stdlib Require Import Ascii String.
From Stdlib Require Export ZArith Lia List.
Export ListNotations.
From stdpp Require Export base tactics numbers option list.

Declare Scope positron_scope.
#[global] Open Scope positron_scope.
#[global] Open Scope Z_scope.
#[global] Set Default Goal Selector "!".
#[global] Set Warnings "-register-all,-clear-no-such-hyp".

(** ** Results *)

(** Rust's [Result<A, E>], the error type first so that [result E] is a monad. *)
Inductive result (E A : Type) : Type :=
| Ok (a : A)
| Err (e : E).
Arguments Ok {E A} a.
Arguments Err {E A} e.

#[global] Instance result_ret {E} : MRet (result E) := fun A => @Ok E A.
#[global] Instance result_bind {E} : MBind (result E) := fun A B k m =>
  match m with Ok a => k a | Err e => Err e end.
#[global] Instance result_fmap {E} : FMap (result E) := fun A B f m =>
  match m with Ok a => Ok (f a) | Err e => Err e end.

(** [Option::ok_or]. *)
Definition ok_or {E A} (e : E) (o : option A) : result E A :=
  match o with Some a => Ok a | None => Err e end.

(** [Result::map_err]. *)
Definition map_err {E F A} (f : E -> F) (r : result E A) : result F A :=
  match r with Ok a => Ok a | Err e => Err (f e) end.

(** [Result::is_ok]. *)
Definition is_ok {E A} (r : result E A) : bool :=
  match r with Ok _ => true | Err _ => false end.

(** [Result::ok]. *)
Definition to_option {E A} (r : result E A) : option A :=
  match r with Ok a => Some a | Err _ => None end.

(** [Iterator::try_fold] for a fold that can return early with an error. *)
Fixpoint try_fold {E A B} (f : B -> A -> result E B) (acc : B) (l : list A) : result E B :=
  match l with
  | [] => Ok acc
  | a :: l' => match f acc a with Ok acc' => try_fold f acc' l' | Err e => Err e end
  end.

(** [Iterator::try_fold] over [Option]. *)
Fixpoint try_fold_opt {A B} (f : B -> A -> option B) (acc : B) (l : list A) : option B :=
  match l with
  | [] => Some acc
  | a :: l' => match f acc a with Some acc' => try_fold_opt f acc' l' | None => None end
  end.

(** [Iterator::map] followed by [collect::<Result<_, _>>]. *)
Fixpoint try_map {E A B} (f : A -> result E B) (l : list A) : result E (list B) :=
  match l with
  | [] => Ok []
  | a :: l' =>
      match f a with
      | Ok b => match try_map f l' with Ok bs => Ok (b :: bs) | Err e => Err e end
      | Err e => Err e
      end
  end.

(** ** Machine integers

    Every fixed-width integer is a [Z] together with the bound of its Rust type.
    [usize] is 64 bits wide, as on every platform the product supports. *)

Definition u8_max : Z := 255.
Definition u16_max : Z := 65535.
Definition u32_max : Z := 4294967295.
Definition u64_max : Z := 18446744073709551615.
Definition usize_max : Z := 18446744073709551615.
Definition i64_max : Z := 9223372036854775807.
Definition i64_min : Z := -9223372036854775808.
Definition i32_max : Z := 2147483647.
Definition i32_min : Z := -2147483648.
Definition two63 : Z := 9223372036854775808.
Definition two64 : Z := 18446744073709551616.

Definition in_u (max v : Z) : Prop := 0 <= v <= max.

(** [checked_add], [checked_mul] and [checked_sub] of an unsigned type with bound [max]. *)
Definition checked_add (max a b : Z) : option Z := if a + b <=? max then Some (a + b) else None.
Definition checked_mul (max a b : Z) : option Z := if a * b <=? max then Some (a * b) else None.
Definition checked_sub (a b : Z) : option Z := if b <=? a then Some (a - b) else None.

(** [saturating_add], [saturating_mul] and [saturating_sub]. *)
Definition saturating_add (max a b : Z) : Z := Z.min max (a + b).
Definition saturating_mul (max a b : Z) : Z := Z.min max (a * b).
Definition saturating_sub (a b : Z) : Z := Z.max 0 (a - b).

(** [Vec::len] and friends: list lengths as [usize]. *)
Definition zlen {A} (l : list A) : Z := Z.of_nat (length l).
#[global] Arguments zlen : simpl never.

(** [Forall] in a form that nested structural recursion can go through. *)
Definition all_of {A} (P : A -> Prop) : list A -> Prop :=
  fix go l := match l with [] => True | a :: l' => P a /\ go l' end.

(** ** Byte strings *)

Abbreviation bytes := (list Z).

Definition byte_ok (b : Z) : Prop := 0 <= b <= 255.
Definition bytes_ok (l : bytes) : Prop := Forall byte_ok l.

(** The UTF-8 bytes of an ASCII literal. *)
Fixpoint bytes_of_string (s : string) : bytes :=
  match s with
  | EmptyString => []
  | String c s' => Z.of_nat (nat_of_ascii c) :: bytes_of_string s'
  end.

(** [to_be_bytes] at a width of [n] bytes. *)
Fixpoint be_bytes (n : nat) (v : Z) : bytes :=
  match n with
  | O => []
  | S n' => (v / 256 ^ Z.of_nat n') mod 256 :: be_bytes n' v
  end.

(** [from_be_bytes]. *)
Definition be_value (l : bytes) : Z := fold_left (fun acc b => acc * 256 + b) l 0.

(** [u64 as i64]. *)
Definition as_i64 (bits : Z) : Z := if bits <=? i64_max then bits else bits - two64.

(** An exact [i64] result, or [None] when it overflows: [i64::try_from] of an integer, and the
    checked operations of [i64] applied to the mathematical result. *)
Definition i64_of (v : Z) : option Z := if (i64_min <=? v) && (v <=? i64_max) then Some v else None.

(** Byte-wise lexicographic order: [Ord] of [[u8]], of [str] and of [String]. *)
Fixpoint lex_compare (a b : bytes) : comparison :=
  match a, b with
  | [], [] => Eq
  | [], _ :: _ => Lt
  | _ :: _, [] => Gt
  | x :: a', y :: b' => match x ?= y with Eq => lex_compare a' b' | c => c end
  end.

(** [Ordering::then_with]. *)
Definition then_with (c d : comparison) : comparison := match c with Eq => d | _ => c end.

(** [<[A]>::cmp]: lexicographic comparison of two slices by an element order. *)
Definition slice_cmp {A} (cmp : A -> A -> comparison) : list A -> list A -> comparison :=
  fix go l r :=
    match l, r with
    | [], [] => Eq
    | [], _ :: _ => Lt
    | _ :: _, [] => Gt
    | x :: l', y :: r' => match cmp x y with Eq => go l' r' | c => c end
    end.

(** Equality of byte strings, as [==] on [str] or [[u8]]. *)
Definition bytes_eqb (a b : bytes) : bool := bool_decide (a = b).

(** [slice::chunks(n)] for a positive chunk size; [fuel] is the slice length. *)
Fixpoint chunks_fuel {A} (fuel : nat) (n : nat) (l : list A) : list (list A) :=
  match fuel with
  | O => []
  | S fuel' => match l with [] => [] | _ => take n l :: chunks_fuel fuel' n (drop n l) end
  end.
Definition chunks {A} (n : nat) (l : list A) : list (list A) := chunks_fuel (length l) n l.

(** ** Automation *)

Create HintDb positron.
Create Rewrite HintDb positron_len.

(** Destructs the innermost scrutinee of a [match] or [if] in the goal or a hypothesis,
    keeping its equation. *)
Ltac case_once :=
  match goal with
  | H : context [match ?x with _ => _ end] |- _ =>
      lazymatch x with context [match _ with _ => _ end] => fail | _ => destruct x eqn:? end
  | |- context [match ?x with _ => _ end] =>
      lazymatch x with context [match _ with _ => _ end] => fail | _ => destruct x eqn:? end
  end.

(** Turns boolean comparisons in hypotheses into propositions. *)
Ltac bool_to_prop :=
  cbv beta in *;
  repeat match goal with
  | H : (_ <=? _) = true |- _ => apply Z.leb_le in H
  | H : (_ <=? _) = false |- _ => apply Z.leb_gt in H
  | H : (_ <? _) = true |- _ => apply Z.ltb_lt in H
  | H : (_ <? _) = false |- _ => apply Z.ltb_ge in H
  | H : (_ =? _) = true |- _ => apply Z.eqb_eq in H
  | H : (_ =? _) = false |- _ => apply Z.eqb_neq in H
  | H : (_ && _)%bool = true |- _ => apply andb_true_iff in H; destruct H
  | H : (_ || _)%bool = false |- _ => apply orb_false_iff in H; destruct H
  | H : negb _ = true |- _ => apply negb_true_iff in H
  | H : negb _ = false |- _ => apply negb_false_iff in H
  | H : bool_decide _ = true |- _ => apply bool_decide_eq_true in H
  | H : bool_decide _ = false |- _ => apply bool_decide_eq_false in H
  end.

(** One step through a sequence of fallible steps that is known to succeed. *)
Ltac bind_step x H :=
  match goal with
  | |- mbind _ ?m = Ok _ -> _ =>
      destruct m as [x|] eqn:H; [cbn [mbind result_bind]|by intros; discriminate]
  end.

Ltac solve_bounds := unfold in_u, u8_max, u16_max, u32_max, u64_max, usize_max, i64_max, i64_min,
  two63, two64, byte_ok in *; lia.

(** ** Lemmas on checked arithmetic *)

Lemma checked_add_Some max a b c : checked_add max a b = Some c <-> c = a + b /\ a + b <= max.
Proof. unfold checked_add. case_match eqn:H; bool_to_prop; naive_solver lia. Qed.

Lemma checked_add_None max a b : checked_add max a b = None <-> max < a + b.
Proof. unfold checked_add. case_match eqn:H; bool_to_prop; naive_solver lia. Qed.

Lemma checked_mul_Some max a b c : checked_mul max a b = Some c <-> c = a * b /\ a * b <= max.
Proof. unfold checked_mul. case_match eqn:H; bool_to_prop; naive_solver lia. Qed.

Lemma checked_sub_Some a b c : checked_sub a b = Some c <-> c = a - b /\ b <= a.
Proof. unfold checked_sub. case_match eqn:H; bool_to_prop; naive_solver lia. Qed.

Lemma checked_sub_None a b : checked_sub a b = None <-> a < b.
Proof. unfold checked_sub. case_match eqn:H; bool_to_prop; naive_solver lia. Qed.

Lemma checked_add_ok max a b : a + b <= max -> checked_add max a b = Some (a + b).
Proof. by intros; apply checked_add_Some. Qed.

Lemma checked_mul_ok max a b : a * b <= max -> checked_mul max a b = Some (a * b).
Proof. by intros; apply checked_mul_Some. Qed.

Lemma checked_sub_ok a b : b <= a -> checked_sub a b = Some (a - b).
Proof. by intros; apply checked_sub_Some. Qed.

(** Unfolds every successful or failed checked operation among the hypotheses. *)
Ltac inv_checked :=
  repeat match goal with
  | H : checked_add _ _ _ = Some _ |- _ => apply checked_add_Some in H as [? ?]
  | H : checked_add _ _ _ = None |- _ => apply checked_add_None in H
  | H : checked_mul _ _ _ = Some _ |- _ => apply checked_mul_Some in H as [? ?]
  | H : checked_sub _ _ = Some _ |- _ => apply checked_sub_Some in H as [? ?]
  | H : checked_sub _ _ = None |- _ => apply checked_sub_None in H
  end.

Lemma zlen_nonneg {A} (l : list A) : 0 <= zlen l.
Proof. unfold zlen. lia. Qed.

Lemma zlen_cons {A} (a : A) l : zlen (a :: l) = 1 + zlen l.
Proof. unfold zlen. simpl length. lia. Qed.

Lemma zlen_app {A} (l k : list A) : zlen (l ++ k) = zlen l + zlen k.
Proof. unfold zlen. rewrite length_app. lia. Qed.

Lemma zlen_map {A B} (f : A -> B) l : zlen (map f l) = zlen l.
Proof. unfold zlen. by rewrite length_map. Qed.

Lemma zlen_nil_inv {A} (l : list A) : zlen l = 0 -> l = [].
Proof. destruct l; [done|]. rewrite zlen_cons. pose proof (zlen_nonneg l). lia. Qed.

Lemma all_of_Forall {A} (P : A -> Prop) l : all_of P l <-> Forall P l.
Proof. induction l as [|a l IH]; simpl; [done|]. by rewrite IH, Forall_cons. Qed.

(** ** Lemmas on results *)

Lemma ok_or_Ok {E A} (e : E) (o : option A) a : ok_or e o = Ok a -> o = Some a.
Proof. by destruct o; intros [= ->]. Qed.

Lemma map_err_Ok {E F A} (f : E -> F) (r : result E A) a : map_err f r = Ok a -> r = Ok a.
Proof. by destruct r; intros [= ->]. Qed.

(** ** Lemmas on folds *)

Lemma try_fold_app {E A B} (f : B -> A -> result E B) l1 l2 acc :
  try_fold f acc (l1 ++ l2) = (acc' ← try_fold f acc l1; try_fold f acc' l2).
Proof. revert acc. induction l1 as [|a l1 IH]; intros acc; [done|]. simpl. by case_match. Qed.

Lemma try_map_length {E A B} (f : A -> result E B) l bs :
  try_map f l = Ok bs -> length bs = length l.
Proof.
  revert bs. induction l as [|a l IH]; intros bs; simpl; [by intros [= <-]|].
  repeat case_match; intros; simplify_eq. simpl. f_equal. eauto.
Qed.

(** A fallible map that succeeds relates its input and output element by element. *)
Lemma try_map_Forall2 {E A B} (f : A -> result E B) l bs :
  try_map f l = Ok bs <-> Forall2 (fun a b => f a = Ok b) l bs.
Proof.
  revert bs. induction l as [|a l IH]; intros bs; simpl.
  { split; [by intros [= <-]; constructor|]. by intros ->%Forall2_nil_inv_l. }
  destruct (f a) as [b|e] eqn:Hf.
  - destruct (try_map f l) as [bs'|e] eqn:Hl.
    + split; [intros [= <-]; constructor; [done|by apply IH]|].
      intros (b' & bs'' & Hb & Hbs & ->)%Forall2_cons_inv_l. apply IH in Hbs. congruence.
    + split; [done|]. intros (b' & bs'' & Hb & Hbs & ->)%Forall2_cons_inv_l. apply IH in Hbs. congruence.
  - split; [done|]. intros (b' & bs'' & Hb & Hbs & ->)%Forall2_cons_inv_l. congruence.
Qed.

(** An early-exit fold that succeeds satisfies every invariant its steps preserve. *)
Lemma try_fold_ind {E A B} (f : B -> A -> result E B) (P : B -> Prop) l acc r :
  (forall b a b', a ∈ l -> P b -> f b a = Ok b' -> P b') -> P acc -> try_fold f acc l = Ok r -> P r.
Proof.
  revert acc. induction l as [|a l IH]; intros acc Hstep Hacc; simpl; [by intros [= <-]|].
  destruct (f acc a) as [acc'|] eqn:Hf; [|done].
  apply IH; [|eapply Hstep; eauto; left].
  intros b x b' Hx. eapply Hstep. by right.
Qed.

Lemma try_fold_opt_ind {A B} (f : B -> A -> option B) (P : B -> Prop) l acc r :
  (forall b a b', P b -> f b a = Some b' -> P b') -> P acc -> try_fold_opt f acc l = Some r -> P r.
Proof.
  intros Hstep. revert acc. induction l as [|a l IH]; intros acc Hacc; simpl; [by intros [= <-]|].
  destruct (f acc a) as [acc'|] eqn:Hf; [|done]. eauto.
Qed.

(** ** Sums *)

(** The sum of a measure over a list. *)
Definition zsum {A} (f : A -> Z) (l : list A) : Z := foldr (fun a n => f a + n) 0 l.

Lemma zsum_cons {A} (f : A -> Z) a l : zsum f (a :: l) = f a + zsum f l.
Proof. done. Qed.

Lemma zsum_app {A} (f : A -> Z) l k : zsum f (l ++ k) = zsum f l + zsum f k.
Proof. induction l as [|a l IH]; [done|]. rewrite <- app_comm_cons, !zsum_cons, IH. lia. Qed.

Lemma zsum_ext {A} (f g : A -> Z) l : (forall a, a ∈ l -> f a = g a) -> zsum f l = zsum g l.
Proof.
  induction l as [|a l IH]; intros H; [done|]. rewrite !zsum_cons, (H a) by constructor.
  by rewrite IH by (intros b Hb; apply H; by constructor).
Qed.

Lemma zsum_nonneg {A} (f : A -> Z) l : (forall a, a ∈ l -> 0 <= f a) -> 0 <= zsum f l.
Proof.
  induction l as [|a l IH]; intros H; [done|]. rewrite zsum_cons. specialize (H a) as Ha.
  assert (0 <= zsum f l) by (apply IH; intros b Hb; apply H; by constructor).
  assert (0 <= f a) by (apply Ha; constructor). lia.
Qed.

Lemma zsum_le {A} (f g : A -> Z) l : (forall a, a ∈ l -> f a <= g a) -> zsum f l <= zsum g l.
Proof.
  induction l as [|a l IH]; intros H; [done|]. rewrite !zsum_cons.
  assert (f a <= g a) by (apply H; constructor).
  assert (zsum f l <= zsum g l) by (apply IH; intros b Hb; apply H; by constructor). lia.
Qed.

(** Replacing one element moves the sum by the difference of the two measures. *)
Lemma zsum_insert {A} (f : A -> Z) l i x y : l !! i = Some x -> zsum f (<[i:=y]> l) = zsum f l - f x + f y.
Proof.
  revert i. induction l as [|a l IH]; intros [|i] Hi; simplify_eq/=; [lia|]. rewrite (IH i Hi). lia.
Qed.

Lemma zsum_member {A} (f : A -> Z) l i x :
  (forall a, a ∈ l -> 0 <= f a) -> l !! i = Some x -> f x <= zsum f l.
Proof.
  revert i. induction l as [|a l IH]; intros [|i] H Hi; simplify_eq/=.
  - assert (0 <= zsum f l) by (apply zsum_nonneg; intros b Hb; apply H; by constructor). unfold zsum in *. lia.
  - assert (0 <= f a) by (apply H; constructor).
    assert (f x <= zsum f l) by (eapply IH, Hi; intros b Hb; apply H; by constructor). unfold zsum in *. lia.
Qed.

Lemma zsum_replicate {A} (f : A -> Z) n a : zsum f (replicate n a) = Z.of_nat n * f a.
Proof. induction n as [|n IH]; [done|]. cbn [replicate]. rewrite zsum_cons, IH. lia. Qed.

(** ** Lemmas on byte strings *)

Lemma length_be_bytes n v : length (be_bytes n v) = n.
Proof. induction n; simpl; auto. Qed.

Lemma zlen_be_bytes n v : zlen (be_bytes n v) = Z.of_nat n.
Proof. unfold zlen. by rewrite length_be_bytes. Qed.

Lemma be_bytes_ok n v : bytes_ok (be_bytes n v).
Proof.
  induction n as [|n IH]; simpl; constructor; [|done].
  pose proof (Z.mod_pos_bound (v / 256 ^ Z.of_nat n) 256). unfold byte_ok. lia.
Qed.

Lemma be_bytes_mod n v : be_bytes n (v mod 256 ^ Z.of_nat n) = be_bytes n v.
Proof.
  assert (Hgen : forall k, (n <= k)%nat -> be_bytes n (v mod 256 ^ Z.of_nat k) = be_bytes n v).
  { induction n as [|n IH]; intros k Hk; [done|]. simpl. f_equal; [|apply IH; lia].
    replace (256 ^ Z.of_nat k) with (256 ^ Z.of_nat n * (256 * 256 ^ (Z.of_nat k - Z.of_nat n - 1))).
    2:{ rewrite <- (Z.pow_succ_r 256) by lia. rewrite <- Z.pow_add_r by lia. f_equal. lia. }
    set (p := 256 ^ Z.of_nat n). set (q := 256 ^ _).
    assert (0 < p) by (apply Z.pow_pos_nonneg; lia).
    assert (0 < q) by (apply Z.pow_pos_nonneg; lia).
    rewrite (Z.rem_mul_r v p) by lia.
    replace (v mod p + p * ((v / p) mod (256 * q))) with (v mod p + (v / p) mod (256 * q) * p) by ring.
    rewrite Z.div_add by lia. rewrite (Z.div_small (v mod p) p) by (apply Z.mod_pos_bound; lia).
    rewrite Z.add_0_l. rewrite (Z.rem_mul_r (v / p) 256 q) by lia.
    rewrite (Z.mul_comm 256), Z.mod_add by lia. apply Z.mod_mod. lia. }
  apply Hgen. lia.
Qed.

Lemma be_fold_shift l acc :
  fold_left (fun acc b => acc * 256 + b) l acc
  = acc * 256 ^ Z.of_nat (length l) + be_value l.
Proof.
  unfold be_value. revert acc. induction l as [|b l IH]; intros acc.
  { simpl fold_left. rewrite Z.pow_0_r. lia. }
  simpl fold_left. rewrite IH, (IH (0 * 256 + b)). simpl length.
  rewrite Nat2Z.inj_succ, Z.pow_succ_r by lia. ring.
Qed.

Lemma be_value_cons b l : be_value (b :: l) = b * 256 ^ Z.of_nat (length l) + be_value l.
Proof. unfold be_value at 1. simpl fold_left. by rewrite be_fold_shift. Qed.

Lemma be_value_bounds l : bytes_ok l -> 0 <= be_value l < 256 ^ Z.of_nat (length l).
Proof.
  induction 1 as [|b l Hb _ IH]; [by vm_compute|].
  rewrite be_value_cons. simpl length. rewrite Nat2Z.inj_succ, Z.pow_succ_r by lia.
  unfold byte_ok in Hb. nia.
Qed.

Lemma be_value_be_bytes_mod n v : be_value (be_bytes n v) = v mod 256 ^ Z.of_nat n.
Proof.
  induction n as [|n IH]; [by rewrite Z.mod_1_r|].
  change (be_bytes (S n) v) with ((v / 256 ^ Z.of_nat n) mod 256 :: be_bytes n v).
  rewrite be_value_cons, IH, length_be_bytes.
  rewrite Nat2Z.inj_succ, Z.pow_succ_r by lia.
  assert (0 < 256 ^ Z.of_nat n) by (apply Z.pow_pos_nonneg; lia).
  rewrite (Z.mul_comm 256), Z.rem_mul_r by lia. ring.
Qed.

Lemma be_value_be_bytes n v : 0 <= v < 256 ^ Z.of_nat n -> be_value (be_bytes n v) = v.
Proof. intros Hv. rewrite be_value_be_bytes_mod. by apply Z.mod_small. Qed.

Lemma i64_of_Some v w : i64_of v = Some w <-> w = v /\ i64_min <= v <= i64_max.
Proof. unfold i64_of. destruct (Z.leb_spec i64_min v), (Z.leb_spec v i64_max); cbn; naive_solver lia. Qed.

Lemma i64_of_ok v : i64_min <= v <= i64_max -> i64_of v = Some v.
Proof. by rewrite i64_of_Some. Qed.

Lemma as_i64_bounds bits : 0 <= bits < two64 -> i64_min <= as_i64 bits <= i64_max.
Proof. unfold as_i64, two64, i64_min, i64_max. destruct (Z.leb_spec bits 9223372036854775807); lia. Qed.

(** [i64::from_be_bytes] inverts [to_be_bytes]. *)
Lemma as_i64_be_bytes v : i64_min <= v <= i64_max -> as_i64 (be_value (be_bytes 8 v)) = v.
Proof.
  intros Hv. rewrite be_value_be_bytes_mod. change (256 ^ Z.of_nat 8) with two64.
  unfold as_i64, i64_min, i64_max, two64 in *. destruct (Z.leb_spec 0 v).
  - rewrite Z.mod_small by lia. by rewrite (proj2 (Z.leb_le _ _)) by lia.
  - rewrite <- (Z.mod_add v 1), Z.mod_small by lia. rewrite (proj2 (Z.leb_gt _ _)) by lia. lia.
Qed.

Lemma be_bytes_inj n v w :
  0 <= v < 256 ^ Z.of_nat n -> 0 <= w < 256 ^ Z.of_nat n -> be_bytes n v = be_bytes n w -> v = w.
Proof. intros Hv Hw H. rewrite <- (be_value_be_bytes n v), <- (be_value_be_bytes n w), H; done. Qed.

Lemma take_be_bytes n v (rest : bytes) : take n (be_bytes n v ++ rest) = be_bytes n v.
Proof. rewrite take_app_length'; [done|by rewrite length_be_bytes]. Qed.

Lemma drop_be_bytes n v (rest : bytes) : drop n (be_bytes n v ++ rest) = rest.
Proof. rewrite drop_app_length'; [done|by rewrite length_be_bytes]. Qed.

#[export] Hint Resolve zlen_nonneg be_bytes_ok : positron.
#[export] Hint Rewrite @length_be_bytes @zlen_be_bytes @zlen_app @zlen_cons : positron_len.

(** ** Lemmas on lexicographic comparison *)

Lemma lex_compare_refl a : lex_compare a a = Eq.
Proof. induction a as [|x a IH]; simpl; [done|]. by rewrite Z.compare_refl. Qed.

Lemma lex_compare_eq a b : lex_compare a b = Eq <-> a = b.
Proof.
  split; [|intros ->; apply lex_compare_refl].
  revert b. induction a as [|x a IH]; intros [|y b]; simpl; try done.
  destruct (Z.compare_spec x y); try done. intros. f_equal; auto.
Qed.

Lemma lex_compare_antisym a b : lex_compare b a = CompOpp (lex_compare a b).
Proof.
  revert b. induction a as [|x a IH]; intros [|y b]; simpl; try done.
  rewrite (Z.compare_antisym x y). destruct (x ?= y); simpl; auto.
Qed.

Lemma lex_compare_trans_lt a b c :
  lex_compare a b = Lt -> lex_compare b c = Lt -> lex_compare a c = Lt.
Proof.
  revert b c. induction a as [|x a IH]; intros [|y b] [|z c]; simpl; try done.
  destruct (Z.compare_spec x y), (Z.compare_spec y z), (Z.compare_spec x z);
    subst; try done; try lia; eauto.
Qed.

(** Comparing two concatenations whose heads have one length. *)
Lemma lex_compare_app a b r s :
  length a = length b ->
  lex_compare (a ++ r) (b ++ s) = then_with (lex_compare a b) (lex_compare r s).
Proof.
  revert b. induction a as [|x a IH]; intros [|y b]; simpl; try done.
  intros [= Hl]. destruct (x ?= y); simpl; auto.
Qed.

Lemma then_with_assoc a b c : then_with (then_with a b) c = then_with a (then_with b c).
Proof. by destruct a. Qed.

(** Big-endian bytes of equal width compare as the integers they encode. *)
Lemma lex_compare_be_bytes n x y :
  0 <= x < 256 ^ Z.of_nat n -> 0 <= y < 256 ^ Z.of_nat n ->
  lex_compare (be_bytes n x) (be_bytes n y) = (x ?= y).
Proof.
  revert x y. induction n as [|n IH]; intros x y Hx Hy.
  { change (256 ^ Z.of_nat 0) with 1 in *. assert (x = 0) as -> by lia. by assert (y = 0) as -> by lia. }
  rewrite Nat2Z.inj_succ, Z.pow_succ_r in Hx, Hy by lia.
  simpl. set (p := 256 ^ Z.of_nat n) in *.
  assert (0 < p) by (apply Z.pow_pos_nonneg; lia).
  assert (x / p < 256 /\ y / p < 256) as [? ?] by (split; apply Z.div_lt_upper_bound; lia).
  assert (0 <= x / p /\ 0 <= y / p) as [? ?] by (split; apply Z.div_pos; lia).
  rewrite !Z.mod_small by lia.
  rewrite <- (be_bytes_mod n x), <- (be_bytes_mod n y).
  pose proof (Z.mod_pos_bound x p). pose proof (Z.mod_pos_bound y p).
  fold p. rewrite IH by lia.
  pose proof (Z.div_mod x p). pose proof (Z.div_mod y p).
  destruct (Z.compare_spec (x / p) (y / p)) as [He|He|He].
  - destruct (Z.compare_spec (x mod p) (y mod p)); symmetry;
      [apply Z.compare_eq_iff|apply Z.compare_lt_iff|apply Z.compare_gt_iff]; nia.
  - symmetry. apply Z.compare_lt_iff. nia.
  - symmetry. apply Z.compare_gt_iff. nia.
Qed.

(** ** Lemmas on chunking *)

Lemma chunks_fuel_concat {A} fuel n (l : list A) :
  (0 < n)%nat -> (length l <= fuel)%nat -> concat (chunks_fuel fuel n l) = l.
Proof.
  intros Hn. revert l. induction fuel as [|fuel IH]; intros l Hl; simpl.
  - by destruct l; simpl in Hl; [|lia].
  - destruct l as [|a l]; [done|]. simpl concat. rewrite IH.
    + apply take_drop.
    + rewrite length_drop. simpl in *. lia.
Qed.

Lemma chunks_concat {A} n (l : list A) : (0 < n)%nat -> concat (chunks n l) = l.
Proof. intros. unfold chunks. apply chunks_fuel_concat; lia. Qed.

(** ** Sequences of fallible steps *)

Lemma result_bind_Ok {E A B} (r : result E A) (k : A -> result E B) b : r ≫= k = Ok b -> exists a, r = Ok a /\ k a = Ok b.
Proof. destruct r as [a|]; [|done]. by exists a. Qed.

(** ** Exhaustive checks over small ranges *)

(** A boolean predicate checked on [0 .. n-1] holds on that range. *)
Lemma zrange_forall (n : nat) (P : Z -> bool) :
  forallb P (map Z.of_nat (seq 0 n)) = true -> forall z, 0 <= z < Z.of_nat n -> P z = true.
Proof.
  rewrite forallb_forall. intros H z Hz. apply H. apply in_map_iff.
  exists (Z.to_nat z). split; [lia|]. apply in_seq. lia.
Qed.

(** ** Reachability *)

(** Zero or more steps of a transition relation. *)
Inductive star {A} (R : A -> A -> Prop) : A -> A -> Prop :=
| star_refl a : star R a a
| star_step a b c : R a b -> star R b c -> star R a c.
Arguments star_refl {A R} a.
Arguments star_step {A R a b c} _ _.

Lemma star_invariant {A} (R : A -> A -> Prop) (P : A -> Prop) a b :
  (forall x y, P x -> R x y -> P y) -> P a -> star R a b -> P b.
Proof. intros Hstep Ha Hs. revert Ha. induction Hs; eauto. Qed.

#[export] Hint Constructors star : positron.
