(* ===== verification/Outcome.v ===== *)
(** Outcome: the closed typed failures of the Domain Types boundary
    (crates/positron-domain/src/outcome.rs). *)

From S2P Require Import Prelude.

(** [positron-domain/src/outcome.rs:10-30 DomainFailureCode] *)
Inductive DomainFailureCode :=
| InvalidIdentifier
| InvalidAttribution
| InvalidLifecycleTransition
| InvalidTimeAnnotation
| ArithmeticOverflow
| LimitExceedsSystem
| InvalidLimit
| ValueLimitExceeded
| AllocationUnavailable.

(** [positron-domain/src/outcome.rs:36-44 RetryClass] *)
Inductive RetryClass := Never | AfterBackoff | AfterInputCorrection.

(** [positron-domain/src/outcome.rs:49-53 CompletionState] *)
Inductive CompletionState := Rejected.

(** [positron-domain/src/outcome.rs:59-89 FailureSource] *)
Inductive FailureSource :=
| SourceTenantId
| SourceTenantSlug
| SourceExternalTenantAlias
| SourcePrincipalId
| SourceTenantAttribution
| SourceTenantLifecycle
| SourceSourceTime
| SourceVirtualShard
| SourceAssignmentEpoch
| SourceCommitPosition
| SourceRecordOrdinal
| SourceValueLimitProfile
| SourceValueLimit
| SourceAttributeValue.

(** [positron-domain/src/outcome.rs:95-101 DomainFailure] *)
Record DomainFailure := mkDomainFailure {
  code : DomainFailureCode;
  retry_class : RetryClass;
  completion_state : CompletionState;
  source : FailureSource;
}.

#[global] Instance DomainFailureCode_eq_dec : EqDecision DomainFailureCode.
Proof. solve_decision. Defined.
#[global] Instance RetryClass_eq_dec : EqDecision RetryClass.
Proof. solve_decision. Defined.
#[global] Instance CompletionState_eq_dec : EqDecision CompletionState.
Proof. solve_decision. Defined.
#[global] Instance FailureSource_eq_dec : EqDecision FailureSource.
Proof. solve_decision. Defined.
#[global] Instance DomainFailure_eq_dec : EqDecision DomainFailure.
Proof. solve_decision. Defined.

(** [positron-domain/src/outcome.rs:128-135 DomainFailure::invalid_identifier] *)
Definition invalid_identifier (s : FailureSource) : DomainFailure :=
  mkDomainFailure InvalidIdentifier AfterInputCorrection Rejected s.

(** [positron-domain/src/outcome.rs:137-144 DomainFailure::invalid_attribution] *)
Definition invalid_attribution : DomainFailure :=
  mkDomainFailure InvalidAttribution Never Rejected SourceTenantAttribution.

(** [positron-domain/src/outcome.rs:146-153 DomainFailure::invalid_lifecycle_transition] *)
Definition invalid_lifecycle_transition : DomainFailure :=
  mkDomainFailure InvalidLifecycleTransition Never Rejected SourceTenantLifecycle.

(** [positron-domain/src/outcome.rs:155-162 DomainFailure::invalid_time_annotation] *)
Definition invalid_time_annotation : DomainFailure :=
  mkDomainFailure InvalidTimeAnnotation AfterInputCorrection Rejected SourceSourceTime.

(** [positron-domain/src/outcome.rs:164-171 DomainFailure::arithmetic_overflow] *)
Definition arithmetic_overflow (s : FailureSource) : DomainFailure :=
  mkDomainFailure ArithmeticOverflow Never Rejected s.

(** [positron-domain/src/outcome.rs:173-180 DomainFailure::limit_exceeds_system] *)
Definition limit_exceeds_system : DomainFailure :=
  mkDomainFailure LimitExceedsSystem AfterInputCorrection Rejected SourceValueLimitProfile.

(** [positron-domain/src/outcome.rs:182-189 DomainFailure::invalid_limit] *)
Definition invalid_limit (s : FailureSource) : DomainFailure :=
  mkDomainFailure InvalidLimit AfterInputCorrection Rejected s.

(** [positron-domain/src/outcome.rs:191-198 DomainFailure::value_limit_exceeded] *)
Definition value_limit_exceeded : DomainFailure :=
  mkDomainFailure ValueLimitExceeded AfterInputCorrection Rejected SourceAttributeValue.

(** [positron-domain/src/outcome.rs:200-207 DomainFailure::allocation_unavailable] *)
Definition allocation_unavailable : DomainFailure :=
  mkDomainFailure AllocationUnavailable AfterBackoff Rejected SourceAttributeValue.
