(* ===== verification/Identity.v ===== *)
(** Identity: tenant and principal identifiers, their canonical text, slugs, aliases, scopes
    and the tenant attribution (crates/positron-domain/src/identity.rs). *)

From Stdlib Require Import Ascii String.
From S2P Require Import Prelude Outcome.

(** ** Data *)

(** [positron-domain/src/identity.rs:15-16 TenantId] The 16 identity bytes. *)
Record TenantId := mkTenantId { tenant_id_bytes : bytes }.

(** [positron-domain/src/identity.rs:60-61 PrincipalId] *)
Record PrincipalId := mkPrincipalId { principal_id_bytes : bytes }.

#[global] Instance TenantId_eq_dec : EqDecision TenantId.
Proof. solve_decision. Defined.
#[global] Instance PrincipalId_eq_dec : EqDecision PrincipalId.
Proof. solve_decision. Defined.

(** [positron-domain/src/identity.rs:104-105 TenantSlug] *)
Record TenantSlug := mkTenantSlug { slug_text : bytes }.

(** [positron-domain/src/identity.rs:135-136 ExternalTenantAlias] *)
Record ExternalTenantAlias := mkExternalTenantAlias { alias_text : bytes }.

(** [positron-domain/src/identity.rs:168-178 Scope] *)
Inductive Scope := ScopeIngest | ScopeQuery | ScopeTenantAdministration | ScopeSystemAdministration.

#[global] Instance Scope_eq_dec : EqDecision Scope.
Proof. solve_decision. Defined.

(** [positron-domain/src/identity.rs:196-201 TenantAttribution] *)
Record TenantAttribution := mkTenantAttribution {
  attribution_principal_id : PrincipalId;
  attribution_scope : Scope;
  attribution_tenant_id : TenantId;
}.

(** ** Canonical hexadecimal text *)

(** [u8::is_ascii_digit]. *)
Definition is_ascii_digit (c : Z) : bool := (48 <=? c) && (c <=? 57).
(** [u8::is_ascii_lowercase]. *)
Definition is_ascii_lowercase (c : Z) : bool := (97 <=? c) && (c <=? 122).
(** [u8::is_ascii_uppercase]. *)
Definition is_ascii_uppercase (c : Z) : bool := (65 <=? c) && (c <=? 90).
(** [u8::is_ascii_alphanumeric]. *)
Definition is_ascii_alphanumeric (c : Z) : bool :=
  is_ascii_digit c || is_ascii_lowercase c || is_ascii_uppercase c.

(** [positron-domain/src/identity.rs:330-336 hex_character] *)
Definition hex_character (value : Z) : Z :=
  if value <? 10 then saturating_add u8_max 48 value
  else saturating_add u8_max 97 (saturating_sub value 10).

(** [positron-domain/src/identity.rs:338-340 is_canonical_hex] *)
Definition is_canonical_hex (character : Z) : bool :=
  is_ascii_digit character || ((97 <=? character) && (character <=? 102)).

(** [positron-domain/src/identity.rs:346-352 decode_hex_character] *)
Definition decode_hex_character (character : Z) : Z :=
  if is_ascii_digit character then saturating_sub character 48
  else saturating_add u8_max (saturating_sub character 97) 10.

(** [positron-domain/src/identity.rs:342-344 decode_hex_pair] The shift is a [u8] shift. *)
Definition decode_hex_pair (high low : Z) : Z :=
  Z.lor (Z.shiftl (decode_hex_character high) 4 mod 256) (decode_hex_character low).

(** [positron-domain/src/identity.rs:239-249 canonical_identifier_text] *)
Definition canonical_identifier_text (id : bytes) : bytes :=
  concat (imap (fun index byte =>
    (if bool_decide (index ∈ [4; 6; 8; 10]%nat) then [45] else [])
      ++ [hex_character (Z.shiftr byte 4); hex_character (Z.land byte 15)]) id).

(** [positron-domain/src/identity.rs:251-328 parse_identifier] *)
Definition parse_identifier (text : bytes) (failure_source : FailureSource)
  : result DomainFailure bytes :=
  match text with
  | [d00; d01; d02; d03; d04; d05; d06; d07; s0; d08; d09; d10; d11; s1; d12; d13; d14; d15; s2;
     d16; d17; d18; d19; s3; d20; d21; d22; d23; d24; d25; d26; d27; d28; d29; d30; d31] =>
      let separators := [s0; s1; s2; s3] in
      let digits :=
        [d00; d01; d02; d03; d04; d05; d06; d07; d08; d09; d10; d11; d12; d13; d14; d15;
         d16; d17; d18; d19; d20; d21; d22; d23; d24; d25; d26; d27; d28; d29; d30; d31] in
      if existsb (fun separator => negb (separator =? 45)) separators
         || negb (forallb is_canonical_hex digits)
      then Err (invalid_identifier failure_source)
      else Ok [decode_hex_pair d00 d01; decode_hex_pair d02 d03; decode_hex_pair d04 d05;
               decode_hex_pair d06 d07; decode_hex_pair d08 d09; decode_hex_pair d10 d11;
               decode_hex_pair d12 d13; decode_hex_pair d14 d15; decode_hex_pair d16 d17;
               decode_hex_pair d18 d19; decode_hex_pair d20 d21; decode_hex_pair d22 d23;
               decode_hex_pair d24 d25; decode_hex_pair d26 d27; decode_hex_pair d28 d29;
               decode_hex_pair d30 d31]
  | _ => Err (invalid_identifier failure_source)
  end.

(** ** Identifier operations *)

(** [positron-domain/src/identity.rs:23-28 TenantId::from_bytes] *)
Definition TenantId_from_bytes (b : bytes) : result DomainFailure TenantId :=
  if forallb (fun byte => byte =? 0) b then Err (invalid_identifier SourceTenantId)
  else Ok (mkTenantId b).

(** [positron-domain/src/identity.rs:31-33 TenantId::parse_canonical] *)
Definition TenantId_parse_canonical (text : bytes) : result DomainFailure TenantId :=
  parse_identifier text SourceTenantId ≫= TenantId_from_bytes.

(** [positron-domain/src/identity.rs:42-45 TenantId::to_canonical_text] *)
Definition TenantId_to_canonical_text (id : TenantId) : bytes :=
  canonical_identifier_text (tenant_id_bytes id).

(** [positron-domain/src/identity.rs:65-72 PrincipalId::from_bytes] *)
Definition PrincipalId_from_bytes (b : bytes) : result DomainFailure PrincipalId :=
  if forallb (fun byte => byte =? 0) b then Err (invalid_identifier SourcePrincipalId)
  else Ok (mkPrincipalId b).

(** [positron-domain/src/identity.rs:75-77 PrincipalId::parse_canonical] *)
Definition PrincipalId_parse_canonical (text : bytes) : result DomainFailure PrincipalId :=
  parse_identifier text SourcePrincipalId ≫= PrincipalId_from_bytes.

(** [positron-domain/src/identity.rs:86-89 PrincipalId::to_canonical_text] *)
Definition PrincipalId_to_canonical_text (id : PrincipalId) : bytes :=
  canonical_identifier_text (principal_id_bytes id).

(** [positron-domain/src/identity.rs:96-96 MAX_TENANT_SLUG_BYTES] *)
Definition MAX_TENANT_SLUG_BYTES : Z := 63.

(** [positron-domain/src/identity.rs:109-121 TenantSlug::parse_canonical] The [char] test is
    stated on bytes: every byte of a non-ASCII [char] is at least 128 and fails it too. *)
Definition TenantSlug_parse_canonical (text : bytes) : result DomainFailure TenantSlug :=
  if bool_decide (text = []) || (MAX_TENANT_SLUG_BYTES <? zlen text)
  then Err (invalid_identifier SourceTenantSlug)
  else
    let valid_boundaries :=
      negb (bool_decide (head text = Some 45)) && negb (bool_decide (last text = Some 45)) in
    let valid_characters :=
      forallb (fun c => is_ascii_lowercase c || is_ascii_digit c || (c =? 45)) text in
    if negb valid_boundaries || negb valid_characters
    then Err (invalid_identifier SourceTenantSlug)
    else Ok (mkTenantSlug text).

(** [positron-domain/src/identity.rs:140-140 ExternalTenantAlias::MAX_BYTES] *)
Definition ExternalTenantAlias_MAX_BYTES : Z := 128.

(** [positron-domain/src/identity.rs:143-155 ExternalTenantAlias::parse] *)
Definition ExternalTenantAlias_parse (text : bytes) : result DomainFailure ExternalTenantAlias :=
  if bool_decide (text = [])
     || (ExternalTenantAlias_MAX_BYTES <? zlen text)
     || negb (forallb (fun c => is_ascii_alphanumeric c || (c =? 45) || (c =? 95) || (c =? 46)) text)
  then Err (invalid_identifier SourceExternalTenantAlias)
  else Ok (mkExternalTenantAlias text).

(** [positron-domain/src/identity.rs:182-188 Scope::is_tenant_scoped] *)
Definition is_tenant_scoped (s : Scope) : bool :=
  match s with
  | ScopeIngest | ScopeQuery | ScopeTenantAdministration => true
  | ScopeSystemAdministration => false
  end.

(** [positron-domain/src/identity.rs:205-218 TenantAttribution::new] *)
Definition TenantAttribution_new (principal_id : PrincipalId) (scope : Scope) (tenant_id : TenantId)
  : result DomainFailure TenantAttribution :=
  if negb (is_tenant_scoped scope) then Err invalid_attribution
  else Ok (mkTenantAttribution principal_id scope tenant_id).

(** ** Lemmas on hexadecimal digits *)

Lemma hex_character_spec v :
  0 <= v < 16 -> is_canonical_hex (hex_character v) = true /\ decode_hex_character (hex_character v) = v.
Proof.
  intros Hv. apply (zrange_forall 16 (fun v => is_canonical_hex (hex_character v)
    && (decode_hex_character (hex_character v) =? v)) eq_refl) in Hv.
  by bool_to_prop.
Qed.

Lemma decode_hex_character_spec c :
  is_canonical_hex c = true ->
  0 <= decode_hex_character c < 16 /\ hex_character (decode_hex_character c) = c.
Proof.
  intros Hc. assert (0 <= c < 128) as Hr.
  { revert Hc. unfold is_canonical_hex, is_ascii_digit. lia. }
  pose proof (zrange_forall 128 (fun c => negb (is_canonical_hex c)
    || ((0 <=? decode_hex_character c) && (decode_hex_character c <? 16)
        && (hex_character (decode_hex_character c) =? c))) eq_refl c Hr) as H.
  cbv beta in H. rewrite Hc in H. simpl in H. bool_to_prop. lia.
Qed.

Lemma nibbles_bounds b : 0 <= b <= 255 -> 0 <= Z.shiftr b 4 < 16 /\ 0 <= Z.land b 15 < 16.
Proof.
  intros Hb. pose proof (zrange_forall 256 (fun b => (0 <=? Z.shiftr b 4) && (Z.shiftr b 4 <? 16)
    && (0 <=? Z.land b 15) && (Z.land b 15 <? 16)) eq_refl b ltac:(lia)). bool_to_prop. lia.
Qed.

Lemma decode_hex_pair_nibbles b :
  0 <= b <= 255 -> decode_hex_pair (hex_character (Z.shiftr b 4)) (hex_character (Z.land b 15)) = b.
Proof.
  intros Hb. pose proof (zrange_forall 256 (fun b =>
    decode_hex_pair (hex_character (Z.shiftr b 4)) (hex_character (Z.land b 15)) =? b)
    eq_refl b ltac:(lia)). by bool_to_prop.
Qed.

(** The two digits of a pair are recovered from the byte they decode to. *)
Lemma decode_hex_pair_spec h l :
  is_canonical_hex h = true -> is_canonical_hex l = true ->
  byte_ok (decode_hex_pair h l)
  /\ hex_character (Z.shiftr (decode_hex_pair h l) 4) = h
  /\ hex_character (Z.land (decode_hex_pair h l) 15) = l.
Proof.
  intros Hh Hl. destruct (decode_hex_character_spec h Hh) as [Bh Eh].
  destruct (decode_hex_character_spec l Hl) as [Bl El].
  unfold decode_hex_pair. set (x := decode_hex_character h) in *. set (y := decode_hex_character l) in *.
  pose proof (zrange_forall 256 (fun k => let x := k / 16 in let y := k mod 16 in
      let z := Z.lor (Z.shiftl x 4 mod 256) y in
      (0 <=? z) && (z <=? 255) && (Z.shiftr z 4 =? x) && (Z.land z 15 =? y))
      eq_refl (x * 16 + y) ltac:(change (Z.of_nat 256) with 256; lia)) as Hxy.
  cbv zeta beta in Hxy. rewrite Z.div_add_l, (Z.div_small y) in Hxy by lia.
  replace ((x * 16 + y) mod 16) with y in Hxy.
  2:{ rewrite Z.add_comm, Z.mod_add by lia. symmetry. apply Z.mod_small. lia. }
  rewrite Z.add_0_r in Hxy. bool_to_prop. unfold byte_ok. split; [lia|]. split; congruence.
Qed.

(** ** Canonical text *)

Lemma length_16_inv {A} (l : list A) : length l = 16%nat ->
  exists a0 a1 a2 a3 a4 a5 a6 a7 a8 a9 a10 a11 a12 a13 a14 a15,
    l = [a0; a1; a2; a3; a4; a5; a6; a7; a8; a9; a10; a11; a12; a13; a14; a15].
Proof.
  intros Hl. do 16 (destruct l as [|? l]; [done|]). destruct l; [|done].
  repeat eexists.
Qed.

(** Lays out the canonical text of sixteen known bytes as its 36 characters. *)
Ltac compute_text :=
  match goal with
  | |- context [canonical_identifier_text ?l] =>
      let r := eval cbv -[hex_character Z.shiftr Z.land] in (canonical_identifier_text l) in
      change (canonical_identifier_text l) with r
  end.

Lemma parse_canonical_text (b : bytes) fs :
  length b = 16%nat -> bytes_ok b -> parse_identifier (canonical_identifier_text b) fs = Ok b.
Proof.
  intros Hl Hb. destruct (length_16_inv b Hl) as (? & ? & ? & ? & ? & ? & ? & ? & ? & ? & ? & ? & ? & ? & ? & ? & ->).
  unfold bytes_ok in Hb. rewrite !Forall_cons in Hb. destruct_and! Hb.
  repeat match goal with
  | H : byte_ok ?b |- _ =>
      let H1 := fresh in let H2 := fresh in
      destruct (nibbles_bounds b H) as [H1 H2];
      pose proof (proj1 (hex_character_spec _ H1)); pose proof (proj1 (hex_character_spec _ H2));
      pose proof (decode_hex_pair_nibbles b H); clear H H1 H2
  end.
  compute_text. unfold parse_identifier. cbn [existsb forallb].
  change (negb (45 =? 45)) with false. cbn [orb].
  repeat match goal with H : is_canonical_hex _ = true |- _ => rewrite H; clear H end.
  cbn [andb negb].
  repeat match goal with H : decode_hex_pair _ _ = _ |- _ => rewrite H; clear H end. done.
Qed.

Lemma canonical_text_parse (text b : bytes) fs :
  parse_identifier text fs = Ok b ->
  length b = 16%nat /\ bytes_ok b /\ canonical_identifier_text b = text.
Proof.
  intros H. do 36 (destruct text as [|? text]; [done|]). destruct text; [|done].
  unfold parse_identifier in H. cbn [existsb forallb] in H. case_match eqn:Hc; [done|].
  injection H as <-. bool_to_prop.
  repeat match goal with H : (_ =? 45) = true |- _ => apply Z.eqb_eq in H; subst end.
  repeat match goal with
  | |- context [decode_hex_pair ?h ?l] =>
      let B := fresh "B" in let E1 := fresh "E" in let E2 := fresh "E" in
      destruct (decode_hex_pair_spec h l) as (B & E1 & E2); [done|done|];
      generalize dependent (decode_hex_pair h l); intros
  end.
  split; [done|]. split; [repeat (apply List.Forall_cons; [assumption|]); apply List.Forall_nil|].
  compute_text. congruence.
Qed.

(** A well-formed identity: sixteen bytes, not all zero. *)
Definition identity_ok (b : bytes) : Prop :=
  length b = 16%nat /\ bytes_ok b /\ forallb (fun byte => byte =? 0) b = false.

(** ** Properties *)

(** Also (roundtrip). Tenant identities and canonical texts are in bijection: a text parses to an
    identity exactly when that identity is well formed and prints back to that text. *)
Theorem tenant_id_text_bijection (text : bytes) (id : TenantId) :
  TenantId_parse_canonical text = Ok id
  <-> identity_ok (tenant_id_bytes id) /\ TenantId_to_canonical_text id = text.
Proof.
  unfold TenantId_parse_canonical, TenantId_to_canonical_text, identity_ok. split.
  - destruct (parse_identifier _ _) as [b|] eqn:Hp; [|done]. simpl. unfold TenantId_from_bytes.
    case_match eqn:Hz; [done|]. intros [= <-]. simpl.
    by destruct (canonical_text_parse _ _ _ Hp) as (? & ? & ?).
  - intros [(Hl & Hb & Hz) <-]. rewrite parse_canonical_text by done.
    simpl. unfold TenantId_from_bytes. rewrite Hz. by destruct id.
Qed.

(** The same bijection for principal identities. *)
Theorem principal_id_text_bijection (text : bytes) (id : PrincipalId) :
  PrincipalId_parse_canonical text = Ok id
  <-> identity_ok (principal_id_bytes id) /\ PrincipalId_to_canonical_text id = text.
Proof.
  unfold PrincipalId_parse_canonical, PrincipalId_to_canonical_text, identity_ok. split.
  - destruct (parse_identifier _ _) as [b|] eqn:Hp; [|done]. simpl. unfold PrincipalId_from_bytes.
    case_match eqn:Hz; [done|]. intros [= <-]. simpl.
    by destruct (canonical_text_parse _ _ _ Hp) as (? & ? & ?).
  - intros [(Hl & Hb & Hz) <-]. rewrite parse_canonical_text by done.
    simpl. unfold PrincipalId_from_bytes. rewrite Hz. by destruct id.
Qed.

(** Every canonical tenant slug is also acceptable as an external alias text, and is a name
    of bounded length without leading or trailing hyphen. *)
Lemma slug_is_alias (text : bytes) (slug : TenantSlug) :
  TenantSlug_parse_canonical text = Ok slug ->
  ExternalTenantAlias_parse text = Ok (mkExternalTenantAlias text).
Proof.
  unfold TenantSlug_parse_canonical, ExternalTenantAlias_parse.
  destruct (bool_decide (text = [])) eqn:He; [done|]. simpl.
  destruct (MAX_TENANT_SLUG_BYTES <? zlen text) eqn:Hl; [done|].
  case_match eqn:Hv; [done|]. intros _. bool_to_prop.
  replace (ExternalTenantAlias_MAX_BYTES <? zlen text) with false
    by (symmetry; apply Z.ltb_ge; unfold MAX_TENANT_SLUG_BYTES, ExternalTenantAlias_MAX_BYTES in *; lia).
  replace (forallb _ text) with true; [done|]. symmetry. rewrite forallb_forall in *.
  intros c Hc. match goal with H : forall x, In x text -> _ |- _ => specialize (H c Hc) end.
  unfold is_ascii_alphanumeric, is_ascii_lowercase, is_ascii_digit, is_ascii_uppercase in *. lia.
Qed.

(** Also (safety). A tenant attribution exists only for a tenant-scoped capability: no value of
    the type carries system administration into the data plane, and every refusal is the one
    typed attribution failure. *)
Theorem attribution_is_tenant_scoped (p : PrincipalId) (s : Scope) (t : TenantId) :
  match TenantAttribution_new p s t with
  | Ok a => attribution_scope a <> ScopeSystemAdministration
            /\ is_tenant_scoped (attribution_scope a) = true
            /\ a = mkTenantAttribution p s t
  | Err f => s = ScopeSystemAdministration /\ f = invalid_attribution
  end.
Proof. by destruct s. Qed.
