(* ===== verification/TenantLifecycle.v ===== *)
(** TenantLifecycle: the checked tenant state machine
    (crates/positron-domain/src/lifecycle.rs). *)

From S2P Require Import Prelude Outcome.

(** [positron-domain/src/lifecycle.rs:10-22 TenantLifecycleState] *)
Inductive TenantLifecycleState := Active | ReadOnly | Suspended | Purging | Purged.

#[global] Instance TenantLifecycleState_eq_dec : EqDecision TenantLifecycleState.
Proof. solve_decision. Defined.

(** [positron-domain/src/lifecycle.rs:29-32 TenantLifecycle] *)
Record TenantLifecycle := mkTenantLifecycle { lifecycle_state : TenantLifecycleState }.

(** [positron-domain/src/lifecycle.rs:93-128 lifecycle_transition_is_valid] *)
Definition lifecycle_transition_is_valid (current target : TenantLifecycleState) : bool :=
  match current, target with
  | Active, ReadOnly
  | Active, Suspended
  | Active, Purging
  | ReadOnly, Active
  | ReadOnly, Suspended
  | ReadOnly, Purging
  | Suspended, Active
  | Suspended, ReadOnly
  | Suspended, Purging
  | Purging, Purged => true
  | _, _ => false
  end.

(** [positron-domain/src/lifecycle.rs:85-90 TenantLifecycle::transition] *)
Definition transition (self : TenantLifecycle) (target : TenantLifecycleState)
  : result DomainFailure TenantLifecycle :=
  if lifecycle_transition_is_valid (lifecycle_state self) target
  then Ok (mkTenantLifecycle target)
  else Err invalid_lifecycle_transition.

(** [positron-domain/src/lifecycle.rs:36-41 TenantLifecycle::active] *)
Definition active : TenantLifecycle := mkTenantLifecycle Active.

(** [positron-domain/src/lifecycle.rs:50-53 TenantLifecycle::from_durable_state] *)
Definition from_durable_state (s : TenantLifecycleState) : TenantLifecycle := mkTenantLifecycle s.

(** [positron-domain/src/lifecycle.rs:56-58 TenantLifecycle::transition_to] *)
Definition transition_to (self : TenantLifecycle) (target : TenantLifecycleState) :=
  transition self target.

(** The five named transition requests. *)
Inductive LifecycleRequest := ToReadOnly | ToSuspended | ToActive | BeginPurge | CompletePurge.

(** [positron-domain/src/lifecycle.rs:61-83 TenantLifecycle::to_read_only..complete_purge!] *)
Definition request (self : TenantLifecycle) (r : LifecycleRequest)
  : result DomainFailure TenantLifecycle :=
  match r with
  | ToReadOnly => transition self ReadOnly
  | ToSuspended => transition self Suspended
  | ToActive => transition self Active
  | BeginPurge => transition self Purging
  | CompletePurge => transition self Purged
  end.

(** One accepted request. *)
Inductive lifecycle_step : TenantLifecycle -> TenantLifecycle -> Prop :=
| lifecycle_step_request self r next : request self r = Ok next -> lifecycle_step self next.

(** The state kept by a sequence of requests, refused ones leaving it unchanged. *)
Definition run_requests (self : TenantLifecycle) (rs : list LifecycleRequest) : TenantLifecycle :=
  fold_left (fun st r => match request st r with Ok st' => st' | Err _ => st end) rs self.

(** Once purging starts, only purging or purged states follow. *)
Definition irreversible (l : TenantLifecycle) : Prop :=
  lifecycle_state l = Purging \/ lifecycle_state l = Purged.

Lemma irreversible_step l l' : irreversible l -> lifecycle_step l l' -> irreversible l'.
Proof.
  intros Hi Hs. destruct Hs as [[s] r next Hr]. unfold irreversible in *. simpl in *.
  destruct Hi as [-> | ->], r; simpl in Hr; try discriminate; injection Hr as <-; auto.
Qed.

(** The states a lifecycle visits on a path, the last one included. *)
Inductive lifecycle_path : TenantLifecycle -> list TenantLifecycle -> TenantLifecycle -> Prop :=
| path_nil l : lifecycle_path l [] l
| path_cons l m visited l' :
    lifecycle_step l m -> lifecycle_path m visited l' -> lifecycle_path l (m :: visited) l'.

Lemma purged_predecessor l l' : lifecycle_step l l' -> lifecycle_state l' = Purged ->
  lifecycle_state l = Purging.
Proof. intros [[[]] [] next Hr] E; simpl in Hr; try discriminate; injection Hr as <-; done. Qed.

Lemma run_requests_star self rs : star lifecycle_step self (run_requests self rs).
Proof.
  revert self. induction rs as [|r rs IH]; intros self; [constructor|].
  unfold run_requests. simpl. destruct (request self r) as [next|] eqn:Hr; [|apply IH].
  eapply star_step; [by econstructor|apply IH].
Qed.

(** Purge is irreversible: whatever requests follow, a purging or purged tenant
    never returns to a reversible state, and a purged tenant never changes again. *)
Theorem purge_is_irreversible (self : TenantLifecycle) (rs : list LifecycleRequest) :
  irreversible self ->
  irreversible (run_requests self rs)
  /\ (lifecycle_state self = Purged -> run_requests self rs = self).
Proof.
  intros Hi. split.
  - eapply star_invariant; [apply irreversible_step|exact Hi|apply run_requests_star].
  - destruct self as [s]. simpl. intros ->. clear Hi. induction rs as [|[] rs IH]; simpl; auto.
Qed.

Lemma purge_is_irreversible_witness :
  irreversible (run_requests (mkTenantLifecycle Purging) [ToActive; CompletePurge; ToReadOnly]).
Proof. apply (purge_is_irreversible (mkTenantLifecycle Purging)). left. reflexivity. Defined.

(** Also (invariant). A tenant created active is purged only through purging: every path from
    the initial state to [Purged] visits [Purging] first. *)
Theorem purged_only_through_purging (visited : list TenantLifecycle) (l : TenantLifecycle) :
  lifecycle_path active visited l -> lifecycle_state l = Purged ->
  mkTenantLifecycle Purging ∈ visited.
Proof.
  assert (Hgen : forall a, lifecycle_path a visited l -> lifecycle_state l = Purged ->
    a = mkTenantLifecycle Purging \/ lifecycle_state a = Purged
    \/ mkTenantLifecycle Purging ∈ visited).
  { intros a Hp. induction Hp as [a|a m visited l' Hs Hp IH]; intros E; [auto|].
    destruct (IH E) as [-> | [Hm | Hm]].
    - right. right. left.
    - left. apply purged_predecessor in Hs; [|done]. destruct a; simpl in *; congruence.
    - right. right. by right. }
  intros Hp E. destruct (Hgen active Hp E) as [?|[?|?]]; done.
Qed.

Lemma purged_only_through_purging_witness :
  mkTenantLifecycle Purging ∈ [mkTenantLifecycle Purging; mkTenantLifecycle Purged].
Proof.
  apply (purged_only_through_purging _ (mkTenantLifecycle Purged)); [|reflexivity].
  apply (path_cons _ (mkTenantLifecycle Purging)); [by apply (lifecycle_step_request _ BeginPurge)|].
  apply (path_cons _ (mkTenantLifecycle Purged)); [by apply (lifecycle_step_request _ CompletePurge)|].
  apply path_nil.
Defined.
