(* ===== verification/Routing.v ===== *)
(** Routing: virtual shards, assignment epochs, commit positions, record ordinals and signals
    (crates/positron-domain/src/routing.rs). *)

From Stdlib Require Import Ascii String.
From S2P Require Import Prelude Outcome.

(** [positron-domain/src/routing.rs:12-13 VirtualShardId] *)
Record VirtualShardId := mkVirtualShardId { shard_value : Z }.

#[global] Instance VirtualShardId_eq_dec : EqDecision VirtualShardId.
Proof. solve_decision. Defined.

(** [positron-domain/src/routing.rs:17-24 VirtualShardId::new] *)
Definition VirtualShardId_new (value : Z) : result DomainFailure VirtualShardId :=
  if value =? 0 then Err (invalid_identifier SourceVirtualShard) else Ok (mkVirtualShardId value).

(** [positron-domain/src/routing.rs:38-39 AssignmentEpoch] *)
Record AssignmentEpoch := mkAssignmentEpoch { epoch_value : Z }.

(** [positron-domain/src/routing.rs:43-46 AssignmentEpoch::initial] *)
Definition AssignmentEpoch_initial : AssignmentEpoch := mkAssignmentEpoch 0.

(** [positron-domain/src/routing.rs:49-56 AssignmentEpoch::advance_by] *)
Definition AssignmentEpoch_advance_by (self : AssignmentEpoch) (increment : Z)
  : result DomainFailure AssignmentEpoch :=
  match checked_add u64_max (epoch_value self) increment with
  | Some value => Ok (mkAssignmentEpoch value)
  | None => Err (arithmetic_overflow SourceAssignmentEpoch)
  end.

(** [positron-domain/src/routing.rs:59-61 AssignmentEpoch::next] *)
Definition AssignmentEpoch_next (self : AssignmentEpoch) := AssignmentEpoch_advance_by self 1.

(** [positron-domain/src/routing.rs:75-76 CommitPosition] *)
Record CommitPosition := mkCommitPosition { position_value : Z }.

(** [positron-domain/src/routing.rs:80-83 CommitPosition::origin] *)
Definition CommitPosition_origin : CommitPosition := mkCommitPosition 0.

(** [positron-domain/src/routing.rs:86-93 CommitPosition::advance_by] *)
Definition CommitPosition_advance_by (self : CommitPosition) (increment : Z)
  : result DomainFailure CommitPosition :=
  match checked_add u64_max (position_value self) increment with
  | Some value => Ok (mkCommitPosition value)
  | None => Err (arithmetic_overflow SourceCommitPosition)
  end.

(** [positron-domain/src/routing.rs:96-98 CommitPosition::next] *)
Definition CommitPosition_next (self : CommitPosition) := CommitPosition_advance_by self 1.

(** [positron-domain/src/routing.rs:112-113 RecordOrdinal] *)
Record RecordOrdinal := mkRecordOrdinal { ordinal_value : Z }.

(** [positron-domain/src/routing.rs:117-117 RecordOrdinal::MAXIMUM] *)
Definition RecordOrdinal_MAXIMUM : Z := 1023.

(** [positron-domain/src/routing.rs:120-127 RecordOrdinal::new] *)
Definition RecordOrdinal_new (value : Z) : result DomainFailure RecordOrdinal :=
  if RecordOrdinal_MAXIMUM <? value then Err (invalid_identifier SourceRecordOrdinal)
  else Ok (mkRecordOrdinal value).

(** [positron-domain/src/routing.rs:147-153 SignalKind] *)
Inductive SignalKind := Logs | Traces.

#[global] Instance SignalKind_eq_dec : EqDecision SignalKind.
Proof. solve_decision. Defined.

(** [positron-domain/src/routing.rs:157-163 SignalKind::as_str] *)
Definition SignalKind_as_str (s : SignalKind) : bytes :=
  match s with Logs => bytes_of_string "logs" | Traces => bytes_of_string "traces" end.

(** The position after committing a sequence of blocks, each advancing by a positive count. *)
Definition advance_all (start : CommitPosition) (increments : list Z)
  : result DomainFailure CommitPosition :=
  try_fold CommitPosition_advance_by start increments.

Definition zsum (l : list Z) : Z := fold_right Z.add 0 l.

Lemma advance_all_spec increments start :
  Forall (fun i => 1 <= i <= u64_max) increments -> 0 <= position_value start <= u64_max ->
  advance_all start increments
  = if position_value start + zsum increments <=? u64_max
    then Ok (mkCommitPosition (position_value start + zsum increments))
    else Err (arithmetic_overflow SourceCommitPosition).
Proof.
  unfold advance_all. intros Hi. revert start.
  induction Hi as [|i l Hi Hl IH]; intros [p] Hs; cbn [position_value] in *.
  { simpl. rewrite Z.add_0_r. by rewrite (proj2 (Z.leb_le _ _)) by lia. }
  assert (0 <= zsum l) by (clear -Hl; induction Hl; simpl; lia).
  cbn [try_fold]. unfold CommitPosition_advance_by at 1. cbn [position_value].
  change (zsum (i :: l)) with (i + zsum l).
  destruct (checked_add u64_max p i) as [q|] eqn:Hq; inv_checked.
  - rewrite IH by (cbn; lia). cbn [position_value]. subst q. by rewrite Z.add_assoc.
  - by rewrite (proj2 (Z.leb_gt _ _)) by lia.
Qed.

(** Also (bounds). Commit positions count exactly and never wrap: a run of positive block
    advances from the origin ends at their exact sum when that fits in 64 bits and otherwise
    reports the overflow; it never yields an earlier position. *)
Theorem commit_positions_never_wrap (increments : list Z) :
  Forall (fun i => 1 <= i <= u64_max) increments ->
  match advance_all CommitPosition_origin increments with
  | Ok p => position_value p = zsum increments /\ Z.of_nat (length increments) <= position_value p <= u64_max
  | Err f => u64_max < zsum increments /\ f = arithmetic_overflow SourceCommitPosition
  end.
Proof.
  intros Hi. rewrite advance_all_spec; [|done|by vm_compute]. cbn [CommitPosition_origin position_value].
  rewrite Z.add_0_l. destruct (_ <=? _) eqn:Hc; bool_to_prop; cbn [position_value].
  - split; [done|]. split; [|lia]. clear Hc. induction Hi; simpl; lia.
  - split; [lia|done].
Qed.

Lemma commit_positions_never_wrap_witness :
  match advance_all CommitPosition_origin [1; 7; 3] with
  | Ok p => position_value p = 11 /\ 3 <= position_value p <= u64_max
  | Err _ => False
  end.
Proof.
  pose proof (commit_positions_never_wrap [1; 7; 3]
    ltac:(repeat constructor; unfold u64_max; lia)) as H. vm_compute in H |- *. exact H.
Defined.
