(* ===== verification/SourceTime.v ===== *)
(** SourceTime: event, observed, ingest and selected query times
    (crates/positron-domain/src/time.rs). *)

From S2P Require Import Prelude Outcome.

(** [positron-domain/src/time.rs:10-11 UnixNanoseconds] An [i64] count of nanoseconds. *)
Record UnixNanoseconds := mkUnixNanoseconds { nanos : Z }.

#[global] Instance UnixNanoseconds_eq_dec : EqDecision UnixNanoseconds.
Proof. solve_decision. Defined.

(** [positron-domain/src/time.rs:31-43 SourceTimeQuality] *)
Inductive SourceTimeQuality := Usable | Missing | Zero | Outlier | Contradictory.

#[global] Instance SourceTimeQuality_eq_dec : EqDecision SourceTimeQuality.
Proof. solve_decision. Defined.

(** [positron-domain/src/time.rs:51-56 EventTime] *)
Record EventTime := mkEventTime {
  event_instant : option UnixNanoseconds;
  event_quality : SourceTimeQuality;
  event_raw_instant : option Z;
}.

(** [positron-domain/src/time.rs:132-136 ObservedTime] *)
Record ObservedTime := mkObservedTime {
  observed_instant : UnixNanoseconds;
  observed_quality : SourceTimeQuality;
}.

(** [positron-domain/src/time.rs:177-178 IngestTime] *)
Record IngestTime := mkIngestTime { ingest_instant : UnixNanoseconds }.

(** [positron-domain/src/time.rs:196-199 IngestTimeCandidate] *)
Record IngestTimeCandidate := mkIngestTimeCandidate { candidate_instant : UnixNanoseconds }.

(** [positron-domain/src/time.rs:213-221 QueryTimeProvenance] *)
Inductive QueryTimeProvenance := FromEvent | FromObserved | FromIngest.

(** [positron-domain/src/time.rs:228-232 QueryTime] *)
Record QueryTime := mkQueryTime {
  query_instant : UnixNanoseconds;
  query_provenance : QueryTimeProvenance;
}.

(** [positron-domain/src/time.rs:292-305 validate_present_source_time] *)
Definition validate_present_source_time (instant : UnixNanoseconds) (quality : SourceTimeQuality)
  : result DomainFailure unit :=
  let is_zero := nanos instant =? 0 in
  let has_zero_annotation := bool_decide (quality = Zero) in
  let contradictory_zero := is_zero && bool_decide (quality = Contradictory) in
  if bool_decide (quality = Missing)
     || (negb contradictory_zero && negb (Bool.eqb is_zero has_zero_annotation))
  then Err invalid_time_annotation
  else Ok tt.

(** [positron-domain/src/time.rs:60-67 EventTime::missing] *)
Definition EventTime_missing : EventTime := mkEventTime None Missing None.

(** [positron-domain/src/time.rs:70-80 EventTime::received] *)
Definition EventTime_received (instant : UnixNanoseconds) (quality : SourceTimeQuality)
  : result DomainFailure EventTime :=
  _ ← validate_present_source_time instant quality;
  Ok (mkEventTime (Some instant) quality None).

(** [positron-domain/src/time.rs:84-93 EventTime::out_of_range] *)
Definition EventTime_out_of_range (value : Z) : result DomainFailure EventTime :=
  if value <=? i64_max then Err invalid_time_annotation
  else Ok (mkEventTime None Outlier (Some value)).

(** [positron-domain/src/time.rs:109-116 EventTime::source_value] *)
Definition EventTime_source_value (self : EventTime) : option Z :=
  match event_instant self, event_raw_instant self with
  | Some instant, _ => if 0 <=? nanos instant then Some (nanos instant) else None
  | None, raw => raw
  end.

(** [positron-domain/src/time.rs:118-121 EventTime::is_usable] *)
Definition EventTime_is_usable (self : EventTime) : bool :=
  bool_decide (event_quality self = Usable)
  || (bool_decide (event_quality self = Outlier) && bool_decide (event_raw_instant self = None)).

(** [positron-domain/src/time.rs:123-125 EventTime::usable_instant] *)
Definition EventTime_usable_instant (self : EventTime) : option UnixNanoseconds :=
  if EventTime_is_usable self then event_instant self else None.

(** [positron-domain/src/time.rs:140-146 ObservedTime::received] *)
Definition ObservedTime_received (instant : UnixNanoseconds) (quality : SourceTimeQuality)
  : result DomainFailure ObservedTime :=
  _ ← validate_present_source_time instant quality;
  Ok (mkObservedTime instant quality).

(** [positron-domain/src/time.rs:164-170 ObservedTime::usable_instant] *)
Definition ObservedTime_usable_instant (self : ObservedTime) : option UnixNanoseconds :=
  if bool_decide (observed_quality self = Usable) then Some (observed_instant self) else None.

(** [positron-domain/src/time.rs:181-183 IngestTime::from_candidate] *)
Definition IngestTime_from_candidate (c : IngestTimeCandidate) : IngestTime :=
  mkIngestTime (candidate_instant c).

(** [positron-domain/src/time.rs:236-261 QueryTime::for_log] *)
Definition QueryTime_for_log (event_time : EventTime) (observed_time : option ObservedTime)
    (ingest_time : IngestTimeCandidate) : QueryTime :=
  let ingest_time := IngestTime_from_candidate ingest_time in
  match EventTime_usable_instant event_time with
  | Some instant => mkQueryTime instant FromEvent
  | None =>
      match observed_time ≫= ObservedTime_usable_instant with
      | Some instant => mkQueryTime instant FromObserved
      | None => mkQueryTime (ingest_instant ingest_time) FromIngest
      end
  end.

(** [positron-domain/src/time.rs:264-277 QueryTime::for_span] *)
Definition QueryTime_for_span (start_time : EventTime) (ingest_time : IngestTimeCandidate) : QueryTime :=
  let ingest_time := IngestTime_from_candidate ingest_time in
  match EventTime_usable_instant start_time with
  | Some instant => mkQueryTime instant FromEvent
  | None => mkQueryTime (ingest_instant ingest_time) FromIngest
  end.

(** The event times the three public constructors can produce. *)
Inductive event_time_reachable : EventTime -> Prop :=
| reach_missing : event_time_reachable EventTime_missing
| reach_received instant quality e :
    EventTime_received instant quality = Ok e -> event_time_reachable e
| reach_out_of_range value e : EventTime_out_of_range value = Ok e -> event_time_reachable e.

Lemma received_zero instant quality u :
  validate_present_source_time instant quality = Ok u ->
  quality <> Missing
  /\ (nanos instant = 0 <-> quality = Zero \/ (quality = Contradictory /\ nanos instant = 0)).
Proof.
  unfold validate_present_source_time. case_match eqn:H; [done|]. intros _.
  destruct quality; simpl in *; bool_to_prop; try done;
    destruct (nanos instant =? 0) eqn:Hz; bool_to_prop; simpl in *; try done; naive_solver.
Qed.

Lemma usable_event_nonzero e instant :
  event_time_reachable e -> EventTime_usable_instant e = Some instant ->
  nanos instant <> 0 /\ event_instant e = Some instant
  /\ (event_quality e = Usable \/ event_quality e = Outlier).
Proof.
  intros He Hu. destruct He as [|i q e' He|v e' He].
  - done.
  - unfold EventTime_received in He. destruct (validate_present_source_time i q) as [u|] eqn:Hv; [|done].
    apply received_zero in Hv as [_ Hz]. injection He as <-.
    unfold EventTime_usable_instant, EventTime_is_usable in Hu. simpl in *.
    destruct q; simpl in *; simplify_eq; split; try naive_solver.
  - unfold EventTime_out_of_range in He. case_match; [done|]. by injection He as <-.
Qed.

(** Also (functional). Query time never comes from a zero source timestamp: for event and
    observed times built by their checked constructors, the selected instant is the exact
    source instant whenever the provenance claims a source, that instant is not zero, and the
    ingest time is used exactly when no source is usable. *)
Theorem query_time_provenance_is_truthful (e : EventTime) (o : option ObservedTime)
    (ingest : IngestTimeCandidate) :
  event_time_reachable e ->
  (forall x, o = Some x -> ObservedTime_received (observed_instant x) (observed_quality x) = Ok x) ->
  let q := QueryTime_for_log e o ingest in
  match query_provenance q with
  | FromEvent => event_instant e = Some (query_instant q) /\ nanos (query_instant q) <> 0
  | FromObserved =>
      EventTime_usable_instant e = None
      /\ (exists x, o = Some x /\ observed_instant x = query_instant q)
      /\ nanos (query_instant q) <> 0
  | FromIngest =>
      EventTime_usable_instant e = None /\ o ≫= ObservedTime_usable_instant = None
      /\ query_instant q = candidate_instant ingest
  end.
Proof.
  intros He Ho. unfold QueryTime_for_log.
  destruct (EventTime_usable_instant e) as [i|] eqn:Hu; simpl.
  { apply usable_event_nonzero in Hu as (? & ? & _); auto. }
  destruct o as [[oi oq]|]; simpl; [|done].
  unfold ObservedTime_usable_instant. simpl. case_bool_decide as Hq; simpl; [|done].
  split; [done|]. split; [by eexists|].
  specialize (Ho _ eq_refl). unfold ObservedTime_received in Ho. simpl in Ho.
  destruct (validate_present_source_time oi oq) as [u|] eqn:Hv; [|done].
  apply received_zero in Hv as [_ Hz]. subst oq. naive_solver.
Qed.

Lemma query_time_provenance_is_truthful_witness :
  let q := QueryTime_for_log EventTime_missing
             (Some (mkObservedTime (mkUnixNanoseconds 9) Usable))
             (mkIngestTimeCandidate (mkUnixNanoseconds 11)) in
  query_provenance q = FromObserved /\ nanos (query_instant q) <> 0.
Proof.
  split; [reflexivity|].
  apply (query_time_provenance_is_truthful EventTime_missing
           (Some (mkObservedTime (mkUnixNanoseconds 9) Usable))
           (mkIngestTimeCandidate (mkUnixNanoseconds 11))).
  - constructor.
  - intros x [= <-]. reflexivity.
Defined.

(** Source values are kept exactly: a received non-negative timestamp and an out-of-range
    unsigned one are both recovered unchanged. *)
Lemma source_value_exact instant quality value e e' :
  0 <= nanos instant ->
  EventTime_received instant quality = Ok e -> EventTime_out_of_range value = Ok e' ->
  EventTime_source_value e = Some (nanos instant) /\ EventTime_source_value e' = Some value.
Proof.
  unfold EventTime_received, EventTime_out_of_range. intros Hn.
  destruct (validate_present_source_time _ _); simpl; [|done]. intros [= <-].
  case_match; [done|]. intros [= <-]. unfold EventTime_source_value. simpl.
  by rewrite (proj2 (Z.leb_le _ _) Hn).
Qed.
