(* ===== verification/Limits.v ===== *)
(** Limits: value-limit units, groups and the checked profile
    (crates/positron-domain/src/value/namespace_limits.rs and profiles.rs). *)

From Stdlib Require Import Ascii String.
From S2P Require Import Prelude Outcome.

(** ** Units *)

(** [positron-domain/src/value/namespace_limits.rs:8-18 AttributeNamespace] *)
Inductive AttributeNamespace :=
| NsStream | NsResource | NsInstrumentationScope | NsRecord.

#[global] Instance AttributeNamespace_eq_dec : EqDecision AttributeNamespace.
Proof. solve_decision. Defined.

(** [positron-domain/src/value/namespace_limits.rs:21-29 AttributeNamespace::as_str] *)
Definition AttributeNamespace_as_str (n : AttributeNamespace) : bytes :=
  match n with
  | NsStream => bytes_of_string "stream"
  | NsResource => bytes_of_string "resource"
  | NsInstrumentationScope => bytes_of_string "instrumentation-scope"
  | NsRecord => bytes_of_string "record"
  end.

(** [positron-domain/src/value/namespace_limits.rs:37-38 ByteLimit] A [u32] byte bound. *)
Record ByteLimit := mkByteLimit { byte_limit : Z }.

(** [positron-domain/src/value/namespace_limits.rs:42-47 ByteLimit::new] *)
Definition ByteLimit_new (value : Z) : result DomainFailure ByteLimit :=
  if value =? 0 then Err (invalid_limit SourceValueLimit) else Ok (mkByteLimit value).

(** [positron-domain/src/value/namespace_limits.rs:60-61 CollectionLimit] A [u32] entry bound. *)
Record CollectionLimit := mkCollectionLimit { collection_limit : Z }.

(** [positron-domain/src/value/namespace_limits.rs:65-70 CollectionLimit::new] *)
Definition CollectionLimit_new (value : Z) : result DomainFailure CollectionLimit :=
  if value =? 0 then Err (invalid_limit SourceValueLimit) else Ok (mkCollectionLimit value).

(** [positron-domain/src/value/namespace_limits.rs:83-84 NestingLimit] A [u16] depth bound. *)
Record NestingLimit := mkNestingLimit { nesting_limit : Z }.

(** [positron-domain/src/value/namespace_limits.rs:88-93 NestingLimit::new] *)
Definition NestingLimit_new (value : Z) : result DomainFailure NestingLimit :=
  if value =? 0 then Err (invalid_limit SourceValueLimit) else Ok (mkNestingLimit value).

(** ** Limit groups *)

(** [positron-domain/src/value/namespace_limits.rs:108-114 RequestLimits] *)
Record RequestLimits := mkRequestLimits {
  request_compressed_bytes : ByteLimit;
  request_decompressed_bytes : ByteLimit;
  request_records : CollectionLimit;
  request_attributes : CollectionLimit;
}.

(** [positron-domain/src/value/namespace_limits.rs:157-162 RequestLimits::exceeds] *)
Definition RequestLimits_exceeds (self system : RequestLimits) : bool :=
  (byte_limit (request_compressed_bytes system) <? byte_limit (request_compressed_bytes self))
  || (byte_limit (request_decompressed_bytes system) <? byte_limit (request_decompressed_bytes self))
  || (collection_limit (request_records system) <? collection_limit (request_records self))
  || (collection_limit (request_attributes system) <? collection_limit (request_attributes self)).

(** [positron-domain/src/value/namespace_limits.rs:171-176 RecordLimits] *)
Record RecordLimits := mkRecordLimits {
  encoded_record_bytes : ByteLimit;
  decoded_record_bytes : ByteLimit;
  log_body_bytes : ByteLimit;
}.

(** [positron-domain/src/value/namespace_limits.rs:211-215 RecordLimits::exceeds] *)
Definition RecordLimits_exceeds (self system : RecordLimits) : bool :=
  (byte_limit (encoded_record_bytes system) <? byte_limit (encoded_record_bytes self))
  || (byte_limit (decoded_record_bytes system) <? byte_limit (decoded_record_bytes self))
  || (byte_limit (log_body_bytes system) <? byte_limit (log_body_bytes self)).

(** [positron-domain/src/value/profiles.rs:6-14 DynamicValueLimits] *)
Record DynamicValueLimits := mkDynamicValueLimits {
  individual_value_bytes : ByteLimit;
  attributes_per_namespace : CollectionLimit;
  key_path_bytes : ByteLimit;
  nesting_depth : NestingLimit;
  array_entries : CollectionLimit;
  key_value_list_entries : CollectionLimit;
}.

(** [positron-domain/src/value/profiles.rs:73-80 DynamicValueLimits::exceeds] *)
Definition DynamicValueLimits_exceeds (self system : DynamicValueLimits) : bool :=
  (byte_limit (individual_value_bytes system) <? byte_limit (individual_value_bytes self))
  || (collection_limit (attributes_per_namespace system) <? collection_limit (attributes_per_namespace self))
  || (byte_limit (key_path_bytes system) <? byte_limit (key_path_bytes self))
  || (nesting_limit (nesting_depth system) <? nesting_limit (nesting_depth self))
  || (collection_limit (array_entries system) <? collection_limit (array_entries self))
  || (collection_limit (key_value_list_entries system) <? collection_limit (key_value_list_entries self)).

(** [positron-domain/src/value/profiles.rs:88-93 ValueLimitSet] *)
Record ValueLimitSet := mkValueLimitSet {
  request : RequestLimits;
  record : RecordLimits;
  dynamic_value : DynamicValueLimits;
}.

(** [positron-domain/src/value/profiles.rs:128-132 ValueLimitSet::exceeds] *)
Definition ValueLimitSet_exceeds (self system : ValueLimitSet) : bool :=
  RequestLimits_exceeds (request self) (request system)
  || RecordLimits_exceeds (record self) (record system)
  || DynamicValueLimits_exceeds (dynamic_value self) (dynamic_value system).

(** ** Profiles *)

(** [positron-domain/src/value/profiles.rs:140-144 ValueLimitProfileCandidate] *)
Record ValueLimitProfileCandidate := mkValueLimitProfileCandidate {
  candidate_system : ValueLimitSet;
  candidate_tenant : option ValueLimitSet;
}.

(** [positron-domain/src/value/profiles.rs:176-180 ValueLimitProfile] *)
Record ValueLimitProfile := mkValueLimitProfile {
  system_limits : ValueLimitSet;
  tenant_limits : option ValueLimitSet;
}.

(** [positron-domain/src/value/profiles.rs:184-209 ValueLimitProfile::release_1_system_maximum] *)
Definition release_1_system_maximum : ValueLimitProfile :=
  let request := mkRequestLimits (mkByteLimit 1048576) (mkByteLimit 1048576)
                   (mkCollectionLimit 1024) (mkCollectionLimit 4096) in
  let record := mkRecordLimits (mkByteLimit 1048576) (mkByteLimit 1048576) (mkByteLimit 262144) in
  let dynamic_value :=
    mkDynamicValueLimits (mkByteLimit 65536) (mkCollectionLimit 1024) (mkByteLimit 65536)
      (mkNestingLimit 128) (mkCollectionLimit 1024) (mkCollectionLimit 1024) in
  mkValueLimitProfile (mkValueLimitSet request record dynamic_value) None.

(** [positron-domain/src/value/profiles.rs:154-168 ValueLimitProfileCandidate::validate] *)
Definition ValueLimitProfileCandidate_validate (self : ValueLimitProfileCandidate)
  : result DomainFailure ValueLimitProfile :=
  if ValueLimitSet_exceeds (candidate_system self) (system_limits release_1_system_maximum)
     || match candidate_tenant self with
        | Some tenant => ValueLimitSet_exceeds tenant (candidate_system self)
        | None => false
        end
  then Err limit_exceeds_system
  else Ok (mkValueLimitProfile (candidate_system self) (candidate_tenant self)).

(** [positron-domain/src/value/profiles.rs:224-230 ValueLimitProfile::effective_limits] *)
Definition effective_limits (self : ValueLimitProfile) : ValueLimitSet :=
  match tenant_limits self with Some tenant => tenant | None => system_limits self end.

(** ** Limit comparisons used by every validation *)

(** [positron-domain/src/value/observed_validation.rs:416-418 exceeds_byte_limit] A [u32] limit
    always fits a 64-bit [usize]. *)
Definition exceeds_byte_limit (actual : Z) (limit : ByteLimit) : bool := byte_limit limit <? actual.

(** [positron-domain/src/value/observed_validation.rs:420-422 exceeds_collection_limit] *)
Definition exceeds_collection_limit (actual : Z) (limit : CollectionLimit) : bool :=
  collection_limit limit <? actual.

(** ** The order on limit sets *)

(** Every dimension of a limit set as one list, request then record then dynamic value. *)
Definition dimensions (s : ValueLimitSet) : list Z :=
  [ byte_limit (request_compressed_bytes (request s));
    byte_limit (request_decompressed_bytes (request s));
    collection_limit (request_records (request s));
    collection_limit (request_attributes (request s));
    byte_limit (encoded_record_bytes (record s));
    byte_limit (decoded_record_bytes (record s));
    byte_limit (log_body_bytes (record s));
    byte_limit (individual_value_bytes (dynamic_value s));
    collection_limit (attributes_per_namespace (dynamic_value s));
    byte_limit (key_path_bytes (dynamic_value s));
    nesting_limit (nesting_depth (dynamic_value s));
    collection_limit (array_entries (dynamic_value s));
    collection_limit (key_value_list_entries (dynamic_value s)) ].

(** [s] allows no more than [t] in every dimension. *)
Definition limits_le (s t : ValueLimitSet) : Prop := Forall2 Z.le (dimensions s) (dimensions t).

Lemma exceeds_false_iff s t : ValueLimitSet_exceeds s t = false <-> limits_le s t.
Proof.
  unfold ValueLimitSet_exceeds, RequestLimits_exceeds, RecordLimits_exceeds,
    DynamicValueLimits_exceeds, limits_le, dimensions.
  rewrite !orb_false_iff, !Z.ltb_ge, !Forall2_cons, Forall2_nil. tauto.
Qed.

#[global] Instance limits_le_preorder : PreOrder limits_le.
Proof.
  split.
  - intros s. unfold limits_le. reflexivity.
  - intros s t u H1 H2. unfold limits_le in *. by transitivity (dimensions t).
Qed.

(** Also (safety). A validated profile never raises a ceiling: it is accepted exactly when the
    system limits stay within the compiled Release 1 maxima and the tenant limits within the
    system limits, and then the effective limits are below both in every dimension. *)
Theorem validated_profile_only_lowers (c : ValueLimitProfileCandidate) :
  match ValueLimitProfileCandidate_validate c with
  | Ok p =>
      limits_le (effective_limits p) (candidate_system c)
      /\ limits_le (candidate_system c) (system_limits release_1_system_maximum)
      /\ effective_limits p = default (candidate_system c) (candidate_tenant c)
  | Err f =>
      f = limit_exceeds_system
      /\ (~ limits_le (candidate_system c) (system_limits release_1_system_maximum)
          \/ exists t, candidate_tenant c = Some t /\ ~ limits_le t (candidate_system c))
  end.
Proof.
  destruct c as [sys ten]. unfold ValueLimitProfileCandidate_validate, effective_limits.
  cbn [candidate_system candidate_tenant].
  destruct (ValueLimitSet_exceeds sys _) eqn:Hs; cbn [orb].
  { split; [done|]. left. rewrite <- exceeds_false_iff. congruence. }
  apply exceeds_false_iff in Hs. destruct ten as [t|]; cbn.
  - destruct (ValueLimitSet_exceeds t sys) eqn:Ht; cbn.
    + split; [done|]. right. exists t. rewrite <- exceeds_false_iff. by rewrite Ht.
    + apply exceeds_false_iff in Ht. done.
  - split; [reflexivity|done].
Qed.
