(* ===== verification/Values.v ===== *)
(** Values: native dynamic attribute values before and after validation
    (crates/positron-domain/src/value/candidates.rs, validated.rs and validated/markers.rs).

    A Rust [String] or [Vec] is its contents and its capacity, because retained-memory
    accounting reads capacities. [NativeValue] is the logical value without capacities:
    Rust's derived equality on values is equality of their logical values. *)

From S2P Require Import Prelude Outcome Limits.

(** ** Data *)

(** [positron-domain/src/value/validated.rs:5-25 AttributeValueKind] *)
Inductive AttributeValueKind :=
| KNull | KBoolean | KSignedInteger | KFloatingPoint | KString | KBytes | KArray
| KKeyValueList | KMarker.

#[global] Instance AttributeValueKind_eq_dec : EqDecision AttributeValueKind.
Proof. solve_decision. Defined.

(** [positron-domain/src/value/candidates.rs:5-11 MarkerAction] *)
Inductive MarkerAction := Removed | Redacted | TruncatedBytes | TruncatedElements.

#[global] Instance MarkerAction_eq_dec : EqDecision MarkerAction.
Proof. solve_decision. Defined.

(** [positron-domain/src/value/candidates.rs:14-18 RedactionMarker] *)
Record RedactionMarker := mkRedactionMarker {
  original_kind : AttributeValueKind;
  action : MarkerAction;
}.

#[global] Instance RedactionMarker_eq_dec : EqDecision RedactionMarker.
Proof. solve_decision. Defined.

(** A Rust [String] or [Vec<u8>]: contents and allocated capacity. *)
Record RString := mkRString { text : bytes; capacity : Z }.

(** [String::len]. *)
Definition rs_len (s : RString) : Z := zlen (text s).

(** [positron-domain/src/value/candidates.rs:52-78 CandidateAttributeValue] A key/value entry
    is a pair of its key and its value. *)
Inductive CandidateAttributeValue :=
| CNull
| CBoolean (value : bool)
| CSignedInteger (value : Z)
| CFloatingPointBits (bits : Z)
| CString (value : RString)
| CBytes (value : RString)
| CArray (values : list CandidateAttributeValue)
| CKeyValueList (entries : list (RString * CandidateAttributeValue))
| CMarker (marker : RedactionMarker)
| CTruncated (value : CandidateAttributeValue) (action : MarkerAction).

(** [positron-domain/src/value/candidates.rs:84-88 CandidateKeyValue] *)
Definition CandidateKeyValue : Type := RString * CandidateAttributeValue.

(** [positron-domain/src/value/validated.rs:40-55 ValidatedAttributeValueInner] Arrays and
    key/value lists carry the capacity of their vector. *)
Inductive ValidatedAttributeValue :=
| VNull
| VBoolean (value : bool)
| VSignedInteger (value : Z)
| VFloatingPointBits (bits : Z)
| VString (value : RString)
| VBytes (value : RString)
| VArray (values : list ValidatedAttributeValue) (cap : Z)
| VKeyValueList (entries : list (RString * ValidatedAttributeValue)) (cap : Z)
| VMarker (marker : RedactionMarker)
| VTruncated (value : ValidatedAttributeValue) (action : MarkerAction).

(** [positron-domain/src/value/validated.rs:81-85 ValidatedKeyValue] *)
Definition ValidatedKeyValue : Type := RString * ValidatedAttributeValue.

(** [positron-domain/src/value/validated.rs:61-75 ValidatedScalar] *)
Inductive ValidatedScalar :=
| SNull
| SBoolean (value : bool)
| SSignedInteger (value : Z)
| SFloatingPointBits (bits : Z)
| SString (value : RString)
| SBytes (value : RString).

(** The logical value: what equality, encoding and comparison observe. *)
Inductive NativeValue :=
| NNull
| NBoolean (value : bool)
| NSignedInteger (value : Z)
| NFloatingPointBits (bits : Z)
| NString (value : bytes)
| NBytes (value : bytes)
| NArray (values : list NativeValue)
| NKeyValueList (entries : list (bytes * NativeValue))
| NMarker (marker : RedactionMarker)
| NTruncated (value : NativeValue) (action : MarkerAction).

(** ** Induction principles *)

Section candidate_induction.
Context (P : CandidateAttributeValue -> Prop).
Hypothesis (Hnull : P CNull) (Hbool : forall b, P (CBoolean b)) (Hint : forall z, P (CSignedInteger z))
  (Hfloat : forall z, P (CFloatingPointBits z)) (Hstr : forall s, P (CString s))
  (Hbytes : forall s, P (CBytes s)) (Harray : forall vs, Forall P vs -> P (CArray vs))
  (Hkvl : forall es, Forall (fun e => P e.2) es -> P (CKeyValueList es))
  (Hmarker : forall m, P (CMarker m)) (Htrunc : forall v a, P v -> P (CTruncated v a)).

Fixpoint candidate_ind' (c : CandidateAttributeValue) : P c :=
  match c with
  | CNull => Hnull
  | CBoolean b => Hbool b
  | CSignedInteger z => Hint z
  | CFloatingPointBits z => Hfloat z
  | CString s => Hstr s
  | CBytes s => Hbytes s
  | CArray vs => Harray vs ((fix go l := match l return Forall P l with
      | [] => List.Forall_nil _ | v :: l' => List.Forall_cons _ _ _ (candidate_ind' v) (go l') end) vs)
  | CKeyValueList es => Hkvl es ((fix go l := match l return Forall (fun e => P e.2) l with
      | [] => List.Forall_nil _
      | (k, v) :: l' => List.Forall_cons (fun e => P e.2) (k, v) _ (candidate_ind' v) (go l') end) es)
  | CMarker m => Hmarker m
  | CTruncated v a => Htrunc v a (candidate_ind' v)
  end.
End candidate_induction.

Section validated_induction.
Context (P : ValidatedAttributeValue -> Prop).
Hypothesis (Hnull : P VNull) (Hbool : forall b, P (VBoolean b)) (Hint : forall z, P (VSignedInteger z))
  (Hfloat : forall z, P (VFloatingPointBits z)) (Hstr : forall s, P (VString s))
  (Hbytes : forall s, P (VBytes s)) (Harray : forall vs cap, Forall P vs -> P (VArray vs cap))
  (Hkvl : forall es cap, Forall (fun e => P e.2) es -> P (VKeyValueList es cap))
  (Hmarker : forall m, P (VMarker m)) (Htrunc : forall v a, P v -> P (VTruncated v a)).

Fixpoint validated_ind' (v : ValidatedAttributeValue) : P v :=
  match v with
  | VNull => Hnull
  | VBoolean b => Hbool b
  | VSignedInteger z => Hint z
  | VFloatingPointBits z => Hfloat z
  | VString s => Hstr s
  | VBytes s => Hbytes s
  | VArray vs cap => Harray vs cap ((fix go l := match l return Forall P l with
      | [] => List.Forall_nil _ | v :: l' => List.Forall_cons _ _ _ (validated_ind' v) (go l') end) vs)
  | VKeyValueList es cap => Hkvl es cap ((fix go l := match l return Forall (fun e => P e.2) l with
      | [] => List.Forall_nil _
      | (k, v) :: l' => List.Forall_cons (fun e => P e.2) (k, v) _ (validated_ind' v) (go l') end) es)
  | VMarker m => Hmarker m
  | VTruncated v a => Htrunc v a (validated_ind' v)
  end.
End validated_induction.

(** ** Logical values *)

Fixpoint candidate_native (c : CandidateAttributeValue) : NativeValue :=
  match c with
  | CNull => NNull
  | CBoolean b => NBoolean b
  | CSignedInteger z => NSignedInteger z
  | CFloatingPointBits z => NFloatingPointBits z
  | CString s => NString (text s)
  | CBytes s => NBytes (text s)
  | CArray vs => NArray (map candidate_native vs)
  | CKeyValueList es =>
      NKeyValueList (map (fun e => match e with (k, v) => (text k, candidate_native v) end) es)
  | CMarker m => NMarker m
  | CTruncated v a => NTruncated (candidate_native v) a
  end.

Fixpoint validated_native (v : ValidatedAttributeValue) : NativeValue :=
  match v with
  | VNull => NNull
  | VBoolean b => NBoolean b
  | VSignedInteger z => NSignedInteger z
  | VFloatingPointBits z => NFloatingPointBits z
  | VString s => NString (text s)
  | VBytes s => NBytes (text s)
  | VArray vs _ => NArray (map validated_native vs)
  | VKeyValueList es _ =>
      NKeyValueList (map (fun e => match e with (k, v) => (text k, validated_native v) end) es)
  | VMarker m => NMarker m
  | VTruncated v a => NTruncated (validated_native v) a
  end.

(** ** Markers *)

(** [positron-domain/src/value/candidates.rs:41-44 RedactionMarker::is_valid] *)
Definition marker_is_valid (m : RedactionMarker) : bool :=
  negb (bool_decide (original_kind m = KMarker))
  && (bool_decide (action m = Removed) || bool_decide (action m = Redacted)).

(** [positron-domain/src/value/candidates.rs:367-380 candidate_native_kind] *)
Fixpoint candidate_native_kind (c : CandidateAttributeValue) : option AttributeValueKind :=
  match c with
  | CNull => Some KNull
  | CBoolean _ => Some KBoolean
  | CSignedInteger _ => Some KSignedInteger
  | CFloatingPointBits _ => Some KFloatingPoint
  | CString _ => Some KString
  | CBytes _ => Some KBytes
  | CArray _ => Some KArray
  | CKeyValueList _ => Some KKeyValueList
  | CMarker marker => Some (original_kind marker)
  | CTruncated value _ => candidate_native_kind value
  end.

(** [positron-domain/src/value/candidates.rs:382-391 truncation_action_valid] *)
Definition truncation_action_valid (a : MarkerAction) (k : AttributeValueKind) : bool :=
  match a, k with
  | TruncatedBytes, KString | TruncatedBytes, KBytes => true
  | TruncatedElements, KArray | TruncatedElements, KKeyValueList => true
  | _, _ => false
  end.

(** [positron-domain/src/value/candidates.rs:280-294 CandidateAttributeValue::contains_policy_marker] *)
Fixpoint contains_policy_marker (c : CandidateAttributeValue) : bool :=
  match c with
  | CMarker _ | CTruncated _ _ => true
  | CArray values => existsb contains_policy_marker values
  | CKeyValueList entries => existsb (fun e => match e with (_, v) => contains_policy_marker v end) entries
  | CNull | CBoolean _ | CSignedInteger _ | CFloatingPointBits _ | CString _ | CBytes _ => false
  end.

(** [positron-domain/src/value/candidates.rs:212-226 CandidateAttributeValue::marker_action] *)
Definition candidate_marker_action (c : CandidateAttributeValue) : option MarkerAction :=
  match c with CMarker m => Some (action m) | _ => None end.

(** [positron-domain/src/value/candidates.rs:229-243 CandidateAttributeValue::marker_original_kind] *)
Definition candidate_marker_original_kind (c : CandidateAttributeValue) : option AttributeValueKind :=
  match c with CMarker m => Some (original_kind m) | _ => None end.

(** [positron-domain/src/value/candidates.rs:246-260 CandidateAttributeValue::truncation_action] *)
Definition candidate_truncation_action (c : CandidateAttributeValue) : option MarkerAction :=
  match c with CTruncated _ a => Some a | _ => None end.

(** [positron-domain/src/value/candidates.rs:263-277 CandidateAttributeValue::as_str] *)
Fixpoint candidate_as_str (c : CandidateAttributeValue) : option bytes :=
  match c with
  | CString s => Some (text s)
  | CTruncated value _ => candidate_as_str value
  | _ => None
  end.

(** ** Typed access to validated values *)

(** [positron-domain/src/value/validated.rs:180-194 ValidatedAttributeValue::kind] *)
Fixpoint kind (v : ValidatedAttributeValue) : AttributeValueKind :=
  match v with
  | VNull => KNull
  | VBoolean _ => KBoolean
  | VSignedInteger _ => KSignedInteger
  | VFloatingPointBits _ => KFloatingPoint
  | VString _ => KString
  | VBytes _ => KBytes
  | VArray _ _ => KArray
  | VKeyValueList _ _ => KKeyValueList
  | VMarker _ => KMarker
  | VTruncated value _ => kind value
  end.

(** [positron-domain/src/value/validated.rs:103-117 ValidatedAttributeValue::into_scalar] *)
Fixpoint into_scalar (v : ValidatedAttributeValue) : option ValidatedScalar :=
  match v with
  | VNull => Some SNull
  | VBoolean value => Some (SBoolean value)
  | VSignedInteger value => Some (SSignedInteger value)
  | VFloatingPointBits bits => Some (SFloatingPointBits bits)
  | VString value => Some (SString value)
  | VBytes value => Some (SBytes value)
  | VArray _ _ | VKeyValueList _ _ | VMarker _ => None
  | VTruncated value _ => into_scalar value
  end.

(** [positron-domain/src/value/validated.rs:197-211 ValidatedAttributeValue::as_signed_integer] *)
Fixpoint as_signed_integer (v : ValidatedAttributeValue) : option Z :=
  match v with
  | VSignedInteger value => Some value
  | VTruncated value _ => as_signed_integer value
  | _ => None
  end.

(** [positron-domain/src/value/validated.rs:214-217 ValidatedAttributeValue::is_null] *)
Definition is_null (v : ValidatedAttributeValue) : bool := match v with VNull => true | _ => false end.

(** [positron-domain/src/value/validated.rs:220-234 ValidatedAttributeValue::as_boolean] *)
Fixpoint as_boolean (v : ValidatedAttributeValue) : option bool :=
  match v with
  | VBoolean value => Some value
  | VTruncated value _ => as_boolean value
  | _ => None
  end.

(** [positron-domain/src/value/validated.rs:237-251 ValidatedAttributeValue::as_floating_point_bits] *)
Fixpoint as_floating_point_bits (v : ValidatedAttributeValue) : option Z :=
  match v with
  | VFloatingPointBits bits => Some bits
  | VTruncated value _ => as_floating_point_bits value
  | _ => None
  end.

(** [positron-domain/src/value/validated.rs:254-268 ValidatedAttributeValue::as_str] *)
Fixpoint as_str (v : ValidatedAttributeValue) : option bytes :=
  match v with
  | VString value => Some (text value)
  | VTruncated value _ => as_str value
  | _ => None
  end.

(** [positron-domain/src/value/validated.rs:271-285 ValidatedAttributeValue::as_bytes] *)
Fixpoint as_bytes (v : ValidatedAttributeValue) : option bytes :=
  match v with
  | VBytes value => Some (text value)
  | VTruncated value _ => as_bytes value
  | _ => None
  end.

(** [positron-domain/src/value/validated.rs:288-302 ValidatedAttributeValue::array_len] *)
Fixpoint array_len (v : ValidatedAttributeValue) : option Z :=
  match v with
  | VArray values _ => Some (zlen values)
  | VTruncated value _ => array_len value
  | _ => None
  end.

(** [positron-domain/src/value/validated.rs:305-319 ValidatedAttributeValue::array_entry] *)
Fixpoint array_entry (v : ValidatedAttributeValue) (index : nat) : option ValidatedAttributeValue :=
  match v with
  | VArray values _ => values !! index
  | VTruncated value _ => array_entry value index
  | _ => None
  end.

(** [positron-domain/src/value/validated.rs:322-336 ValidatedAttributeValue::key_value_list_len] *)
Fixpoint key_value_list_len (v : ValidatedAttributeValue) : option Z :=
  match v with
  | VKeyValueList entries _ => Some (zlen entries)
  | VTruncated value _ => key_value_list_len value
  | _ => None
  end.

(** [positron-domain/src/value/validated.rs:339-353 ValidatedAttributeValue::key_value_entry] *)
Fixpoint key_value_entry (v : ValidatedAttributeValue) (index : nat) : option ValidatedKeyValue :=
  match v with
  | VKeyValueList entries _ => entries !! index
  | VTruncated value _ => key_value_entry value index
  | _ => None
  end.

(** [positron-domain/src/value/validated/markers.rs:8-22 ValidatedAttributeValue::marker_action] *)
Definition marker_action (v : ValidatedAttributeValue) : option MarkerAction :=
  match v with VMarker m => Some (action m) | _ => None end.

(** [positron-domain/src/value/validated/markers.rs:25-39 ValidatedAttributeValue::marker_original_kind] *)
Definition marker_original_kind (v : ValidatedAttributeValue) : option AttributeValueKind :=
  match v with VMarker m => Some (original_kind m) | _ => None end.

(** [positron-domain/src/value/validated/markers.rs:42-56 ValidatedAttributeValue::truncation_action] *)
Definition truncation_action (v : ValidatedAttributeValue) : option MarkerAction :=
  match v with VTruncated _ a => Some a | _ => None end.

(** [positron-domain/src/value/validated/markers.rs:59-73 ValidatedAttributeValue::truncated_value] *)
Definition truncated_value (v : ValidatedAttributeValue) : option ValidatedAttributeValue :=
  match v with VTruncated value _ => Some value | _ => None end.

(** [positron-domain/src/value/validated/markers.rs:76-79 ValidatedAttributeValue::is_marker] *)
Definition is_marker (v : ValidatedAttributeValue) : bool := match v with VMarker _ => true | _ => false end.

(** [positron-domain/src/value/validated/markers.rs:82-99 ValidatedAttributeValue::contains_marker] *)
Fixpoint contains_marker (v : ValidatedAttributeValue) : bool :=
  match v with
  | VMarker _ => true
  | VTruncated value _ => contains_marker value
  | VArray values _ => existsb contains_marker values
  | VKeyValueList entries _ => existsb (fun e => match e with (_, v) => contains_marker v end) entries
  | VNull | VBoolean _ | VSignedInteger _ | VFloatingPointBits _ | VString _ | VBytes _ => false
  end.
