(* ===== verification/Observe.v ===== *)
(** Observe: the observer interface of native-value traversal and the state-and-error monad
    the observed operations run in (crates/positron-domain/src/value/observed.rs).

    The state [S] is whatever the observer and the allocator mutate; an observed operation is
    a function from a state to a state and a result. *)

From S2P Require Import Prelude Outcome Limits Values.

(** [positron-domain/src/value/observed.rs:6-6 NATIVE_VALUE_PAYLOAD_CHUNK_BYTES] *)
Definition NATIVE_VALUE_PAYLOAD_CHUNK_BYTES : nat := 1024.

(** [positron-domain/src/value/observed.rs:13-29 NativeValueObserver] *)
Class NativeValueObserver (S E : Type) := {
  obs_structure : S -> S * result E unit;
  obs_payload : bytes -> S -> S * result E unit;
  obs_allocation : Z -> S -> S * result E unit;
  obs_release : Z -> S -> S * result E unit;
}.

(** The global allocator as [Vec::try_reserve_exact] uses it on an empty vector: the requested
    number of slots gives the capacity obtained, or nothing when memory is unavailable. A
    success provides at least the requested slots. *)
Class Allocator (S : Type) := {
  try_reserve_exact : Z -> S -> S * option Z;
  reserve_enough : forall n s s' cap, try_reserve_exact n s = (s', Some cap) -> n <= cap;
}.

(** The size of one validated value slot, a constant of the compiled layout that the source
    asserts to be at most 64 bytes (occurrences.rs). *)
Class Layout := {
  size_of_ValidatedAttributeValue : Z;
  size_of_positive : 0 < size_of_ValidatedAttributeValue;
  size_of_within_slot : size_of_ValidatedAttributeValue <= 64;
}.

(** [positron-domain/src/value/observed.rs:56-60 ObservedValueFailure] *)
Inductive ObservedValueFailure (E : Type) :=
| DomainF (failure : DomainFailure)
| ObserverF (e : E).
Arguments DomainF {E} failure.
Arguments ObserverF {E} e.

(** [positron-domain/src/value/observed.rs:65-71 ObservedValueTransfer] *)
Record ObservedValueTransfer := mkTransfer {
  value : ValidatedAttributeValue;
  value_size_bytes : Z;
  retained_heap_bytes : Z;
  allocation_bytes : Z;
}.

(** An observed computation. *)
Definition M (S E A : Type) : Type := S -> S * result (ObservedValueFailure E) A.

#[global] Instance M_ret {S E} : MRet (M S E) := fun A a s => (s, Ok a).
#[global] Instance M_bind {S E} : MBind (M S E) := fun A B k m s =>
  match m s with
  | (s', Ok a) => k a s'
  | (s', Err e) => (s', Err e)
  end.

(** The [?] operator on a domain result, through [From<DomainFailure>]. *)
Definition lift {S E A} (r : result DomainFailure A) : M S E A := fun s =>
  (s, map_err DomainF r).

Definition fail_domain {S E A} (f : DomainFailure) : M S E A := fun s => (s, Err (DomainF f)).

(** [Iterator::try_fold] and a fallible [map] in the monad of observed computations. *)
Definition m_try_fold {S E A B} (f : B -> A -> M S E B) : list A -> B -> M S E B :=
  fix go l acc :=
    match l with
    | [] => mret acc
    | a :: l' => acc' ← f acc a; go l' acc'
    end.

Definition m_map {S E A B} (f : A -> M S E B) : list A -> M S E (list B) :=
  fix go l :=
    match l with
    | [] => mret []
    | a :: l' => b ← f a; bs ← go l'; mret (b :: bs)
    end.

(** The loop [for x in l { if f(x)? { return Ok(true) } } Ok(false)]. *)
Definition m_any {S E A} (f : A -> M S E bool) : list A -> M S E bool :=
  fix go l :=
    match l with
    | [] => mret false
    | a :: l' => found ← f a; if (found : bool) then mret true else go l'
    end.

(** The loop over [left.iter().zip(right)] that stops at the first unequal pair. *)
Definition m_all2 {S E A B} (f : A -> B -> M S E bool) : list A -> list B -> M S E bool :=
  fix go l r :=
    match l, r with
    | a :: l', b :: r' => same ← f a b; if (same : bool) then go l' r' else mret false
    | _, _ => mret true
    end.

Section operations.
Context {S E : Type} {Obs : NativeValueObserver S E}.

(** [positron-domain/src/value/observed.rs:387-393 observe_structure] *)
Definition observe_structure : M S E unit := fun s =>
  match obs_structure s with (s', r) => (s', map_err ObserverF r) end.

Definition observe_chunks (cs : list bytes) : M S E unit :=
  (fix go cs : M S E unit :=
     match cs with
     | [] => mret tt
     | chunk :: cs' => fun s =>
         match obs_payload chunk s with
         | (s', Ok _) => go cs' s'
         | (s', Err e) => (s', Err (ObserverF e))
         end
     end) cs.

(** [positron-domain/src/value/observed.rs:395-405 observe_payload] *)
Definition observe_payload (payload : bytes) : M S E unit :=
  observe_chunks (chunks NATIVE_VALUE_PAYLOAD_CHUNK_BYTES payload).

(** The call of [observer.observe_allocation] with its error mapped. *)
Definition observe_allocation (n : Z) : M S E unit := fun s =>
  match obs_allocation n s with (s', r) => (s', map_err ObserverF r) end.

(** [positron-domain/src/value/observed_validation.rs:401-409 release_output_capacity] *)
Definition release_output_capacity (n : Z) : M S E unit := fun s =>
  match obs_release n s with (s', r) => (s', map_err ObserverF r) end.

End operations.

(** [positron-domain/src/value/observed_validation.rs:411-414 checked_add] *)
Definition checked_size_add (left right : Z) : result DomainFailure Z :=
  ok_or value_limit_exceeded (checked_add usize_max left right).

(** [positron-domain/src/value/observed_validation.rs:395-399 checked_capacity_bytes] *)
Definition checked_capacity_bytes (cap slot_bytes : Z) : result DomainFailure Z :=
  ok_or value_limit_exceeded (checked_mul usize_max cap slot_bytes).

(** ** The silent observer *)

(** [positron-domain/src/value/observed.rs:31-31 UnobservedNativeValue] Its error type is
    uninhabited and every method succeeds without effect. *)
Definition UnobservedNativeValue (S : Type) : NativeValueObserver S Empty_set := {|
  obs_structure := fun s => (s, Ok tt);
  obs_payload := fun _ s => (s, Ok tt);
  obs_allocation := fun _ s => (s, Ok tt);
  obs_release := fun _ s => (s, Ok tt);
|}.

(** [positron-domain/src/value/observed.rs:45-53 remove_observation] *)
Definition remove_observation {A} (r : result (ObservedValueFailure Empty_set) A)
  : result DomainFailure A :=
  match r with
  | Ok a => Ok a
  | Err (DomainF failure) => Err failure
  | Err (ObserverF never) => match never with end
  end.

(** ** What accounting needs from an observer *)

(** An observer that accounts for memory: admissions charge, refusals do not, releases never
    fail and refund, and nothing else moves the balance. The observers of the program fail on a
    release beyond their balance; these laws describe them where validation, which releases only what it
    was charged, uses them. *)
Class LedgerObserver {S E : Type} (Obs : NativeValueObserver S E) (Alloc : Allocator S) := {
  outstanding : S -> Z;
  structure_neutral s s' r : obs_structure s = (s', r) -> outstanding s' = outstanding s;
  payload_neutral p s s' r : obs_payload p s = (s', r) -> outstanding s' = outstanding s;
  allocation_charges n s s' : obs_allocation n s = (s', Ok tt) -> outstanding s' = outstanding s + n;
  allocation_refused n s s' e : obs_allocation n s = (s', Err e) -> outstanding s' = outstanding s;
  release_refunds n s s' r : obs_release n s = (s', r) -> r = Ok tt /\ outstanding s' = outstanding s - n;
  reserve_neutral n s s' r : try_reserve_exact n s = (s', r) -> outstanding s' = outstanding s;
}.

Lemma observe_chunks_neutral {S E} {Obs : NativeValueObserver S E} {Alloc : Allocator S}
  {L : LedgerObserver Obs Alloc} cs s s' r :
  observe_chunks cs s = (s', r) -> outstanding s' = outstanding s.
Proof.
  revert s. induction cs as [|c cs IH]; intros s; simpl; [by intros [= <- <-]|].
  destruct (obs_payload c s) as [s1 [|]] eqn:Hp; apply payload_neutral in Hp.
  - intros ->%IH. done.
  - intros [= <- <-]. done.
Qed.
