(* ===== verification/Traversal.v ===== *)
(** Traversal: the bounded recursive traversals of validated values, each in its silent and in
    its observed form (crates/positron-domain/src/value/observed.rs, validated.rs,
    validated_encoding.rs, validated_profile.rs and validated/markers.rs). *)

From S2P Require Import Prelude Outcome Limits Values Observe.

(** [positron-domain/src/value/observed_validation.rs:1-1 ARRAY_VALUE_SLOT_BYTES] *)
Definition ARRAY_VALUE_SLOT_BYTES : Z := 64.
(** [positron-domain/src/value/observed_validation.rs:2-2 KEY_VALUE_ENTRY_SLOT_BYTES] *)
Definition KEY_VALUE_ENTRY_SLOT_BYTES : Z := 96.

(** [positron-domain/src/value/validated.rs:391-394 checked_decoded_add] *)
Definition checked_decoded_add (left right : Z) : result DomainFailure Z :=
  ok_or value_limit_exceeded (checked_add usize_max left right).

(** ** Silent traversals *)

(** [positron-domain/src/value/validated.rs:356-378 ValidatedAttributeValue::decoded_size_bytes] *)
Fixpoint decoded_size_bytes (v : ValidatedAttributeValue) : result DomainFailure Z :=
  match v with
  | VNull => Ok 0
  | VBoolean _ => Ok 1
  | VSignedInteger _ | VFloatingPointBits _ => Ok 8
  | VString value | VBytes value => Ok (rs_len value)
  | VArray values _ =>
      try_fold (fun total value =>
        size ← decoded_size_bytes value;
        checked_decoded_add total size) 0 values
  | VKeyValueList entries _ =>
      try_fold (fun total '(key, value) =>
        total ← checked_decoded_add total (rs_len key);
        size ← decoded_size_bytes value;
        checked_decoded_add total size) 0 entries
  | VMarker _ => Ok 0
  | VTruncated value _ => decoded_size_bytes value
  end.

(** [positron-domain/src/value/validated_encoding.rs:155-191 ValidatedAttributeValue::retained_heap_bytes] *)
Fixpoint value_retained_heap_bytes `{Layout} (v : ValidatedAttributeValue) : result DomainFailure Z :=
  match v with
  | VNull | VBoolean _ | VSignedInteger _ | VFloatingPointBits _ | VMarker _ => Ok 0
  | VTruncated value _ =>
      retained ← value_retained_heap_bytes value;
      ok_or value_limit_exceeded (checked_add usize_max retained size_of_ValidatedAttributeValue)
  | VString value | VBytes value => Ok (capacity value)
  | VArray values cap =>
      retained ← ok_or value_limit_exceeded (checked_mul usize_max cap ARRAY_VALUE_SLOT_BYTES);
      try_fold (fun total value =>
        child ← value_retained_heap_bytes value;
        checked_decoded_add total child) retained values
  | VKeyValueList entries cap =>
      retained ← ok_or value_limit_exceeded (checked_mul usize_max cap KEY_VALUE_ENTRY_SLOT_BYTES);
      try_fold (fun total '(key, value) =>
        total ← checked_decoded_add total (capacity key);
        child ← value_retained_heap_bytes value;
        checked_decoded_add total child) retained entries
  end.

(** [positron-domain/src/value/validated_profile.rs:83-87 child_depth] *)
Definition child_depth (remaining_depth : Z) : result DomainFailure Z :=
  ok_or value_limit_exceeded (checked_sub remaining_depth 1).

(** [positron-domain/src/value/validated_profile.rs:21-80 ValidatedAttributeValue::validated_size_against] *)
Fixpoint validated_size_against (v : ValidatedAttributeValue) (limits : ValueLimitSet)
    (value_bytes : ByteLimit) (remaining_depth : Z) : result DomainFailure Z :=
  size ← match v with
    | VNull => Ok 0
    | VBoolean _ => Ok 1
    | VSignedInteger _ | VFloatingPointBits _ => Ok 8
    | VMarker _ => Ok 0
    | VTruncated value _ => validated_size_against value limits value_bytes remaining_depth
    | VString value | VBytes value => Ok (rs_len value)
    | VArray values _ =>
        child_depth ← child_depth remaining_depth;
        if exceeds_collection_limit (zlen values) (array_entries (dynamic_value limits))
        then Err value_limit_exceeded
        else try_fold (fun total value =>
               size ← validated_size_against value limits value_bytes child_depth;
               checked_decoded_add total size) 0 values
    | VKeyValueList entries _ =>
        child_depth ← child_depth remaining_depth;
        if exceeds_collection_limit (zlen entries) (key_value_list_entries (dynamic_value limits))
        then Err value_limit_exceeded
        else try_fold (fun total '(key, value) =>
               if bool_decide (text key = [])
                  || exceeds_byte_limit (rs_len key) (key_path_bytes (dynamic_value limits))
               then Err value_limit_exceeded
               else
                 size ← validated_size_against value limits value_bytes child_depth;
                 checked_decoded_add total size) 0 entries
    end;
  if exceeds_byte_limit size value_bytes then Err value_limit_exceeded else Ok size.

(** [positron-domain/src/value/validated_profile.rs:11-19 ValidatedAttributeValue::validate_against] *)
Definition validate_against (v : ValidatedAttributeValue) (limits : ValueLimitSet)
    (value_bytes : ByteLimit) (remaining_depth : Z) : result DomainFailure unit :=
  _ ← validated_size_against v limits value_bytes remaining_depth; Ok tt.

Fixpoint all2 {A B} (f : A -> B -> bool) (l : list A) (r : list B) : bool :=
  match l, r with
  | a :: l', b :: r' => f a b && all2 f l' r'
  | _, _ => true
  end.

(** [positron-domain/src/value/validated/markers.rs:140-176 ValidatedAttributeValue::equals_exact]
    Two scalars are equal when they have one constructor and equal contents. *)
Fixpoint equals_exact (self : ValidatedAttributeValue) : ValidatedAttributeValue -> bool :=
  fix with_other (other : ValidatedAttributeValue) : bool :=
    match self, other with
    | VMarker _, _ | _, VMarker _ => false
    | VTruncated l _, VTruncated r _ => equals_exact l r
    | VTruncated value _, _ => equals_exact value other
    | _, VTruncated value _ => with_other value
    | VArray ls _, VArray rs _ =>
        (zlen ls =? zlen rs) && all2 (fun l r => equals_exact l r) ls rs
    | VKeyValueList ls _, VKeyValueList rs _ =>
        (zlen ls =? zlen rs)
        && all2 (fun '(lk, lv) '(rk, rv) => bytes_eqb (text lk) (text rk) && equals_exact lv rv)
             ls rs
    | VNull, VNull => true
    | VBoolean l, VBoolean r => Bool.eqb l r
    | VSignedInteger l, VSignedInteger r => l =? r
    | VFloatingPointBits l, VFloatingPointBits r => l =? r
    | VString l, VString r => bytes_eqb (text l) (text r)
    | VBytes l, VBytes r => bytes_eqb (text l) (text r)
    | _, _ => false
    end.

(** ** Observed traversals *)

Section observed.
Context {S E : Type} {Obs : NativeValueObserver S E} {Alloc : Allocator S} {Lay : Layout}.

(** [positron-domain/src/value/observed.rs:377-385 observed_bytes_equal] *)
Definition observed_bytes_equal (left right : bytes) : M S E bool :=
  _ ← observe_payload left;
  _ ← observe_payload right;
  mret (bytes_eqb left right).

(** [positron-domain/src/value/observed.rs:341-356 observed_values_equal] *)
Definition observed_values_equal {A} (equals : A -> A -> M S E bool) (left right : list A)
  : M S E bool :=
  if negb (zlen left =? zlen right) then mret false
  else m_all2 (fun l r => _ ← observe_structure; equals l r) left right.

(** [positron-domain/src/value/observed.rs:358-375 observed_entries_equal] *)
Definition observed_entries_equal {A} (equals : A -> A -> M S E bool)
    (left right : list (RString * A)) : M S E bool :=
  if negb (zlen left =? zlen right) then mret false
  else m_all2 (fun '(lk, lv) '(rk, rv) =>
         _ ← observe_structure;
         same_key ← observed_bytes_equal (text lk) (text rk);
         if (same_key : bool) then equals lv rv else mret false) left right.

(** [positron-domain/src/value/observed.rs:125-175 ValidatedAttributeValue::equals_observed] *)
Fixpoint equals_observed (self : ValidatedAttributeValue) : ValidatedAttributeValue -> M S E bool :=
  fix with_other (other : ValidatedAttributeValue) : M S E bool :=
    _ ← observe_structure;
    match self, other with
    | VMarker _, _ | _, VMarker _ => mret false
    | VTruncated l _, VTruncated r _ => equals_observed l r
    | VTruncated value _, _ => equals_observed value other
    | _, VTruncated value _ => with_other value
    | VNull, VNull => mret true
    | VBoolean l, VBoolean r => mret (Bool.eqb l r)
    | VSignedInteger l, VSignedInteger r => mret (l =? r)
    | VFloatingPointBits l, VFloatingPointBits r => mret (l =? r)
    | VString l, VString r => observed_bytes_equal (text l) (text r)
    | VBytes l, VBytes r => observed_bytes_equal (text l) (text r)
    | VArray ls _, VArray rs _ => observed_values_equal (fun l r => equals_observed l r) ls rs
    | VKeyValueList ls _, VKeyValueList rs _ =>
        observed_entries_equal (fun l r => equals_observed l r) ls rs
    | _, _ => mret false
    end.

(** [positron-domain/src/value/observed.rs:178-231 ValidatedAttributeValue::retained_heap_bytes_observed] *)
Fixpoint retained_heap_bytes_observed (v : ValidatedAttributeValue) : M S E Z :=
  _ ← observe_structure;
  match v with
  | VNull | VBoolean _ | VSignedInteger _ | VFloatingPointBits _ | VMarker _ => mret 0
  | VTruncated value _ =>
      retained ← retained_heap_bytes_observed value;
      lift (ok_or value_limit_exceeded (checked_add usize_max retained size_of_ValidatedAttributeValue))
  | VString value | VBytes value => _ ← observe_payload (text value); mret (capacity value)
  | VArray values cap =>
      retained ← lift (ok_or value_limit_exceeded (checked_mul usize_max cap ARRAY_VALUE_SLOT_BYTES));
      m_try_fold (fun total value =>
        _ ← observe_structure;
        child ← retained_heap_bytes_observed value;
        lift (checked_size_add total child)) values retained
  | VKeyValueList entries cap =>
      retained ← lift (ok_or value_limit_exceeded (checked_mul usize_max cap KEY_VALUE_ENTRY_SLOT_BYTES));
      m_try_fold (fun total '(key, value) =>
        _ ← observe_structure;
        _ ← observe_payload (text key);
        total ← lift (checked_size_add total (capacity key));
        child ← retained_heap_bytes_observed value;
        lift (checked_size_add total child)) entries retained
  end.

(** [positron-domain/src/value/observed.rs:234-269 ValidatedAttributeValue::decoded_size_bytes_observed] *)
Fixpoint decoded_size_bytes_observed (v : ValidatedAttributeValue) : M S E Z :=
  _ ← observe_structure;
  match v with
  | VNull | VMarker _ => mret 0
  | VBoolean _ => mret 1
  | VSignedInteger _ | VFloatingPointBits _ => mret 8
  | VString value | VBytes value => _ ← observe_payload (text value); mret (rs_len value)
  | VArray values _ =>
      m_try_fold (fun total value =>
        size ← decoded_size_bytes_observed value;
        lift (checked_size_add total size)) values 0
  | VKeyValueList entries _ =>
      m_try_fold (fun total '(key, value) =>
        _ ← observe_structure;
        _ ← observe_payload (text key);
        total ← lift (checked_size_add total (rs_len key));
        size ← decoded_size_bytes_observed value;
        lift (checked_size_add total size)) entries 0
  | VTruncated value _ => decoded_size_bytes_observed value
  end.

(** A fresh vector reserved for exactly [n] slots. *)
Definition reserve_exact (n : Z) : M S E Z := fun s =>
  match try_reserve_exact n s with
  | (s, Some cap) => (s, Ok cap)
  | (s, None) => (s, Err (DomainF allocation_unavailable))
  end.

(** [positron-domain/src/value/validated.rs:382-389 try_string] *)
Definition try_string (value : bytes) : M S E RString :=
  cap ← reserve_exact (zlen value);
  mret (mkRString value cap).

(** [positron-domain/src/value/observed.rs:272-338 ValidatedAttributeValue::try_clone_observed] *)
Fixpoint try_clone_observed (v : ValidatedAttributeValue) : M S E ValidatedAttributeValue :=
  _ ← observe_structure;
  match v with
  | VNull => mret VNull
  | VBoolean value => mret (VBoolean value)
  | VSignedInteger value => mret (VSignedInteger value)
  | VFloatingPointBits value => mret (VFloatingPointBits value)
  | VString value =>
      _ ← observe_payload (text value);
      cloned ← try_string (text value);
      mret (VString cloned)
  | VBytes value =>
      _ ← observe_payload (text value);
      cap ← reserve_exact (rs_len value);
      mret (VBytes (mkRString (text value) cap))
  | VArray values _ =>
      cap ← reserve_exact (zlen values);
      cloned ← m_map (fun value => _ ← observe_structure; try_clone_observed value) values;
      mret (VArray cloned cap)
  | VKeyValueList entries _ =>
      cap ← reserve_exact (zlen entries);
      cloned ← m_map (fun '(key, value) =>
        _ ← observe_structure;
        _ ← observe_payload (text key);
        key ← try_string (text key);
        value ← try_clone_observed value;
        mret (key, value)) entries;
      mret (VKeyValueList cloned cap)
  | VMarker marker => mret (VMarker marker)
  | VTruncated value a =>
      value ← try_clone_observed value;
      mret (VTruncated value a)
  end.

(** [positron-domain/src/value/validated.rs:120-177 ValidatedAttributeValue::try_clone] *)
Fixpoint try_clone (v : ValidatedAttributeValue) : M S E ValidatedAttributeValue :=
  match v with
  | VNull => mret VNull
  | VBoolean value => mret (VBoolean value)
  | VSignedInteger value => mret (VSignedInteger value)
  | VFloatingPointBits value => mret (VFloatingPointBits value)
  | VString value => cloned ← try_string (text value); mret (VString cloned)
  | VBytes value =>
      cap ← reserve_exact (rs_len value);
      mret (VBytes (mkRString (text value) cap))
  | VArray values _ =>
      cap ← reserve_exact (zlen values);
      cloned ← m_map (fun value => try_clone value) values;
      mret (VArray cloned cap)
  | VKeyValueList entries _ =>
      cap ← reserve_exact (zlen entries);
      cloned ← m_map (fun '(key, value) =>
        key ← try_string (text key);
        value ← try_clone value;
        mret (key, value)) entries;
      mret (VKeyValueList cloned cap)
  | VMarker marker => mret (VMarker marker)
  | VTruncated value a =>
      value ← try_clone value;
      mret (VTruncated value a)
  end.

(** [positron-domain/src/value/validated/markers.rs:103-136 ValidatedAttributeValue::contains_truncation_observed] *)
Fixpoint contains_truncation_observed (v : ValidatedAttributeValue) : M S E bool :=
  _ ← observe_structure;
  match v with
  | VTruncated _ _ => mret true
  | VArray values _ => m_any (fun value => contains_truncation_observed value) values
  | VKeyValueList entries _ => m_any (fun '(_, value) => contains_truncation_observed value) entries
  | VMarker _ | VNull | VBoolean _ | VSignedInteger _ | VFloatingPointBits _ | VString _ | VBytes _ =>
      mret false
  end.
End observed.

(** ** Checked sums *)

(** A size in [usize], or the limit failure. *)
Definition sized (n : Z) : result DomainFailure Z :=
  if n <=? usize_max then Ok n else Err value_limit_exceeded.

Lemma sized_add a b : 0 <= b -> (x ← sized a; checked_size_add x b) = sized (a + b).
Proof.
  intros Hb. unfold sized, checked_size_add, checked_add.
  destruct (Z.leb_spec a usize_max); simpl; [by case_match|].
  by rewrite (proj2 (Z.leb_gt _ _)) by lia.
Qed.

Lemma sized_add_sized a b : 0 <= a -> a <= usize_max -> 0 <= b ->
  (x ← sized b; checked_size_add a x) = sized (a + b).
Proof.
  intros Ha Hm Hb. unfold sized, checked_size_add, checked_add.
  destruct (Z.leb_spec b usize_max); simpl; [by case_match|].
  by rewrite (proj2 (Z.leb_gt _ _)) by lia.
Qed.

Lemma sized_fold {A} (f : Z -> A -> result DomainFailure Z) (len : A -> Z) l acc :
  (forall a, 0 <= len a) ->
  (forall n a, 0 <= n <= usize_max -> a ∈ l -> f n a = sized (n + len a)) ->
  0 <= acc <= usize_max ->
  try_fold f acc l = sized (acc + foldr (fun a n => len a + n) 0 l).
Proof.
  intros Hlen. revert acc. induction l as [|a l IH]; intros acc Hf Hacc; simpl.
  { unfold sized. rewrite Z.add_0_r, (proj2 (Z.leb_le _ _)) by lia. done. }
  rewrite Hf by (done || left). unfold sized at 1. specialize (Hlen a) as Ha.
  assert (Hs : 0 <= foldr (fun a n => len a + n) 0 l) by (clear -Hlen; induction l; simpl; [done|]; specialize (Hlen a); lia).
  destruct (Z.leb_spec (acc + len a) usize_max).
  - rewrite IH; [by rewrite Z.add_assoc|intros; apply Hf; [done|by right]|lia].
  - unfold sized. by rewrite (proj2 (Z.leb_gt _ _)) by lia.
Qed.

Lemma zlen_flat_map {A} (f : A -> bytes) l : zlen (flat_map f l) = foldr (fun a n => zlen (f a) + n) 0 l.
Proof. induction l as [|a l IH]; simpl; [done|]. by rewrite zlen_app, IH. Qed.

Lemma foldr_map_sum {A B} (g : A -> B) (len : B -> Z) l :
  foldr (fun b n => len b + n) 0 (map g l) = foldr (fun a n => len (g a) + n) 0 l.
Proof. induction l as [|a l IH]; simpl; [done|]. by rewrite IH. Qed.

Lemma sized_ok n : n <= usize_max -> sized n = Ok n.
Proof. intros H. unfold sized. by rewrite (proj2 (Z.leb_le _ _) H). Qed.

(** ** Observation never changes an answer *)

Section agreement.
Context {S E : Type} {Obs : NativeValueObserver S E} {Lay : Layout}.

(** An observed computation is stopped by its observer or answers what [r] answers. *)
Definition agrees {A} (m : M S E A) (r : result DomainFailure A) : Prop := forall s,
  match (m s).2 with
  | Ok a => r = Ok a
  | Err (DomainF f) => r = Err f
  | Err (ObserverF _) => True
  end.

Lemma agrees_ret {A} (a : A) : agrees (mret a) (Ok a).
Proof. by intros s. Qed.

Lemma agrees_lift {A} (r : result DomainFailure A) : agrees (lift r) r.
Proof. by intros s; destruct r. Qed.

Lemma agrees_bind {A B} (m : M S E A) (k : A -> M S E B) r (k' : A -> result DomainFailure B) :
  agrees m r -> (forall a, agrees (k a) (k' a)) -> agrees (m ≫= k) (r ≫= k').
Proof.
  intros Hm Hk s. specialize (Hm s). unfold mbind, M_bind. destruct (m s) as [s1 [a|[f|e]]]; simpl in *.
  - rewrite Hm. apply Hk.
  - by rewrite Hm.
  - done.
Qed.

Lemma agrees_seq {B} (m : M S E unit) (k : M S E B) r :
  agrees m (Ok tt) -> agrees k r -> agrees (_ ← m; k) r.
Proof. intros Hm Hk. apply (agrees_bind m (fun _ => k) (Ok tt) (fun _ => r)); auto. Qed.

Lemma agrees_structure : agrees observe_structure (Ok tt).
Proof. intros s. unfold observe_structure. by destruct (obs_structure s) as [s1 [[]|e]]. Qed.

Lemma agrees_chunks cs : agrees (observe_chunks cs) (Ok tt).
Proof.
  induction cs as [|c cs IH]; [apply agrees_ret|]. intros s. simpl.
  destruct (obs_payload c s) as [s1 [u|e]]; [apply IH|done].
Qed.

Lemma agrees_payload p : agrees (observe_payload p) (Ok tt).
Proof. apply agrees_chunks. Qed.

Lemma agrees_fold {A B} (f : B -> A -> M S E B) (f' : B -> A -> result DomainFailure B) l acc :
  Forall (fun a => forall b, agrees (f b a) (f' b a)) l ->
  agrees (m_try_fold f l acc) (try_fold f' acc l).
Proof.
  intros Hl. revert acc. induction Hl as [|a l Ha _ IH]; intros acc; simpl; [apply agrees_ret|].
  apply (agrees_bind _ _ _ (fun b => try_fold f' b l)); auto.
Qed.

Lemma agrees_all2 {A B} (f : A -> B -> M S E bool) (f' : A -> B -> bool) l r :
  Forall (fun a => forall b, agrees (f a b) (Ok (f' a b))) l ->
  agrees (m_all2 f l r) (Ok (all2 f' l r)).
Proof.
  intros Hl. revert r. induction Hl as [|a l Ha _ IH]; intros [|b r]; simpl; try apply agrees_ret.
  apply (agrees_bind _ _ (Ok (f' a b)) (fun same => Ok (same && all2 f' l r))); [done|].
  intros []; [apply IH|apply agrees_ret].
Qed.
End agreement.

#[export] Hint Resolve agrees_ret agrees_lift agrees_structure agrees_payload : positron.

(** Walks through the sequenced steps of an observed traversal. *)
Ltac agrees_steps :=
  repeat first
    [ progress eauto with positron nocore
    | apply agrees_seq; [solve [eauto with positron nocore]|]
    | apply agrees_bind; [solve [eauto with positron nocore]|intros] ].

Section observation_agreement.
Context {S E : Type} {Obs : NativeValueObserver S E} {Lay : Layout}.

Lemma decoded_size_agrees v :
  agrees (decoded_size_bytes_observed v : M S E Z) (decoded_size_bytes v).
Proof.
  induction v as [| | | |p|p|vs cap IH|es cap IH|m|v a IH] using validated_ind'; simpl;
    try solve [agrees_steps].
  - agrees_steps. apply agrees_fold. eapply Forall_impl; [exact IH|]. intros v Hv b. simpl.
    agrees_steps.
  - agrees_steps. apply agrees_fold. eapply Forall_impl; [exact IH|]. intros [k v] Hv b. simpl in *.
    agrees_steps.
Qed.

Lemma retained_heap_agrees v :
  agrees (retained_heap_bytes_observed v : M S E Z) (value_retained_heap_bytes v).
Proof.
  induction v as [| | | |p|p|vs cap IH|es cap IH|m|v a IH] using validated_ind'; simpl;
    try solve [agrees_steps].
  - agrees_steps. apply agrees_fold. eapply Forall_impl; [exact IH|]. intros v Hv b. simpl.
    agrees_steps.
  - agrees_steps. apply agrees_fold. eapply Forall_impl; [exact IH|]. intros [k v] Hv b. simpl in *.
    agrees_steps.
Qed.

Lemma bytes_equal_agrees l r : agrees (observed_bytes_equal l r : M S E bool) (Ok (bytes_eqb l r)).
Proof. unfold observed_bytes_equal. agrees_steps. Qed.

Lemma equals_agrees v w :
  agrees (equals_observed v w : M S E bool) (Ok (equals_exact v w)).
Proof.
  revert w. induction v as [| | | |p|p|vs cap IH|es cap IH|m|v a IH] using validated_ind'; intros w;
    induction w as [| | | |q|q|ws wcap _|fs wcap _|m'|w a' IHw] using validated_ind';
    simpl in *; (apply agrees_seq; [apply agrees_structure|]);
    try apply bytes_equal_agrees; auto using agrees_ret.
  - unfold observed_values_equal. destruct (zlen vs =? zlen ws); simpl; [|apply agrees_ret].
    apply agrees_all2. eapply Forall_impl; [exact IH|]. intros v Hv b. agrees_steps.
  - unfold observed_entries_equal. destruct (zlen es =? zlen fs); simpl; [|apply agrees_ret].
    apply agrees_all2. eapply Forall_impl; [exact IH|]. intros [k v] Hv [k' v']. simpl in Hv.
    agrees_steps.
    apply (agrees_bind _ _ (Ok (bytes_eqb (text k) (text k')))
             (fun same => Ok (same && equals_exact v v'))); [apply bytes_equal_agrees|].
    intros []; [apply Hv|apply agrees_ret].
Qed.
End observation_agreement.

(** ** What exact equality compares *)

(** The payload left when truncation wrappers are dropped. *)
Fixpoint payload (v : ValidatedAttributeValue) : NativeValue :=
  match v with
  | VNull => NNull
  | VBoolean b => NBoolean b
  | VSignedInteger z => NSignedInteger z
  | VFloatingPointBits z => NFloatingPointBits z
  | VString s => NString (text s)
  | VBytes s => NBytes (text s)
  | VArray vs _ => NArray (map payload vs)
  | VKeyValueList es _ => NKeyValueList (map (fun '(k, v) => (text k, payload v)) es)
  | VMarker m => NMarker m
  | VTruncated v _ => payload v
  end.

(** Pairwise tests on lists of one length, for tests that mean "clean and equal". *)
Lemma all2_map_spec {A B} (f : A -> A -> bool) (dirty : A -> bool) (g : A -> B) l r :
  Forall (fun a => forall b, f a b = true <-> dirty a = false /\ dirty b = false /\ g a = g b) l ->
  (zlen l =? zlen r) && all2 f l r = true <->
  existsb dirty l = false /\ existsb dirty r = false /\ map g l = map g r.
Proof.
  intros Hl. revert r. induction Hl as [|a l Ha _ IH]; intros [|b r];
    cbn [all2 existsb map].
  - done.
  - rewrite zlen_cons. pose proof (zlen_nonneg r). split; [|by intros (_ & _ & ?)].
    intros [H1 _]%andb_true_iff. apply Z.eqb_eq in H1. change (zlen []) with 0 in H1. lia.
  - rewrite zlen_cons. pose proof (zlen_nonneg l). split; [|by intros (_ & _ & ?)].
    intros [H1 _]%andb_true_iff. apply Z.eqb_eq in H1. change (zlen []) with 0 in H1. lia.
  - rewrite !zlen_cons, (orb_false_iff (dirty a)), (orb_false_iff (dirty b)).
    replace (1 + zlen l =? 1 + zlen r) with (zlen l =? zlen r)
      by (destruct (Z.eqb_spec (zlen l) (zlen r)); symmetry; [apply Z.eqb_eq|apply Z.eqb_neq]; lia).
    rewrite (andb_comm (f a b)), andb_assoc, andb_true_iff, (IH r), (Ha b).
    split; [intros [(?&?&?) (?&?&?)]; repeat split; try done; congruence|].
    intros ([??]&[??]&[= ??]). done.
Qed.

Lemma bytes_eqb_true a b : bytes_eqb a b = true <-> a = b.
Proof. unfold bytes_eqb. by rewrite bool_decide_eq_true. Qed.

(** Also (equivalence). Exact equality holds of two validated values exactly when neither contains
    a policy marker anywhere and their payloads, with truncation wrappers dropped at every depth,
    are the same native value. *)
Theorem equals_exact_compares_payloads v w :
  equals_exact v w = true <->
  contains_marker v = false /\ contains_marker w = false /\ payload v = payload w.
Proof.
  revert w. induction v as [|b|z|z|p|p|vs cap IH|es cap IH|m|v a IH] using validated_ind'; intros w;
    induction w as [|b'|z'|z'|q|q|ws wcap _|fs wcap _|m'|w a' IHw] using validated_ind';
    try (simpl in *; naive_solver);
    try (simpl; rewrite ?bytes_eqb_true, ?Z.eqb_eq, ?Bool.eqb_true_iff; intuition congruence).
  - simpl. rewrite (all2_map_spec _ contains_marker payload) by exact IH. intuition congruence.
  - simpl. rewrite (all2_map_spec _ (fun e => match e with (_, v) => contains_marker v end)
      (fun '(k, v) => (text k, payload v))); [intuition congruence|].
    eapply Forall_impl; [exact IH|]. intros [k v] Hv [k' v']. simpl in Hv.
    rewrite andb_true_iff, bytes_eqb_true, Hv. intuition congruence.
Qed.

(** Also (equivalence). Observation never changes an answer: for every observer and every value, an
    observed size, retained-heap or equality traversal is either stopped by the observer's own
    error or gives exactly what the corresponding silent traversal gives, errors included. *)
Theorem observation_is_transparent {S E} {Obs : NativeValueObserver S E} {Lay : Layout}
    (v w : ValidatedAttributeValue) :
  agrees (decoded_size_bytes_observed v : M S E Z) (decoded_size_bytes v)
  /\ agrees (retained_heap_bytes_observed v : M S E Z) (value_retained_heap_bytes v)
  /\ agrees (equals_observed v w : M S E bool) (Ok (equals_exact v w)).
Proof.
  split; [apply decoded_size_agrees|]. split; [apply retained_heap_agrees|apply equals_agrees].
Qed.

(** ** Clones *)

(** Every string and vector of the value has room for what it holds. *)
Fixpoint capacities_ok (v : ValidatedAttributeValue) : Prop :=
  match v with
  | VString s | VBytes s => rs_len s <= capacity s
  | VArray vs cap => zlen vs <= cap /\ all_of capacities_ok vs
  | VKeyValueList es cap =>
      zlen es <= cap /\ all_of (fun '(k, v) => rs_len k <= capacity k /\ capacities_ok v) es
  | VTruncated v _ => capacities_ok v
  | _ => True
  end.

Section clones.
Context {S E : Type} {Obs : NativeValueObserver S E} {Alloc : Allocator S}.

(** Partial correctness of an observed computation. *)
Definition returns {A} (m : M S E A) (Q : A -> Prop) : Prop := forall s s' a, m s = (s', Ok a) -> Q a.

Lemma returns_ret {A} (a : A) (Q : A -> Prop) : Q a -> returns (mret a) Q.
Proof. by intros H s s' a' [= <- <-]. Qed.

Lemma returns_bind {A B} (m : M S E A) (k : A -> M S E B) (Q : A -> Prop) (R : B -> Prop) :
  returns m Q -> (forall a, Q a -> returns (k a) R) -> returns (m ≫= k) R.
Proof.
  intros Hm Hk s s' b. unfold mbind, M_bind. destruct (m s) as [s1 [a|e]] eqn:H; [|done].
  eapply Hk. by eapply Hm.
Qed.

Lemma returns_seq {A B} (m : M S E A) (k : M S E B) (R : B -> Prop) :
  returns k R -> returns (_ ← m; k) R.
Proof. intros H. by apply (returns_bind _ _ (fun _ => True)). Qed.

Lemma returns_reserve n : returns (reserve_exact n) (fun cap => n <= cap).
Proof.
  intros s s' cap. unfold reserve_exact. destruct (try_reserve_exact n s) as [s1 [c|]] eqn:H; [|done].
  intros [= _ <-]. by eapply reserve_enough.
Qed.

Lemma returns_string t :
  returns (try_string t) (fun r => text r = t /\ rs_len r <= capacity r).
Proof.
  apply (returns_bind _ _ (fun cap => zlen t <= cap)); [apply returns_reserve|].
  intros cap Hcap. by apply returns_ret.
Qed.

Lemma returns_map {A B} (f : A -> M S E B) (Q : A -> B -> Prop) l :
  Forall (fun a => returns (f a) (Q a)) l -> returns (m_map f l) (Forall2 Q l).
Proof.
  induction 1 as [|a l Ha _ IH]; simpl; [by apply returns_ret|].
  eapply returns_bind; [exact Ha|]. intros b Hb.
  eapply returns_bind; [exact IH|]. intros bs Hbs. apply returns_ret. by constructor.
Qed.

Definition cloned (v w : ValidatedAttributeValue) : Prop :=
  validated_native w = validated_native v /\ capacities_ok w.

Definition entry_cloned (e f : ValidatedKeyValue) : Prop :=
  text f.1 = text e.1 /\ rs_len f.1 <= capacity f.1 /\ cloned e.2 f.2.

Lemma array_cloned vs ws cap cap' :
  zlen vs <= cap' -> Forall2 cloned vs ws -> cloned (VArray vs cap) (VArray ws cap').
Proof.
  intros Hcap H. unfold cloned. cbn [validated_native capacities_ok].
  rewrite all_of_Forall. replace (zlen ws) with (zlen vs) by (unfold zlen; by rewrite (Forall2_length _ _ _ H)).
  split; [f_equal|split; [done|]].
  - clear Hcap. induction H as [|v w vs ws [Hv _] _ IH]; simpl; congruence.
  - clear Hcap. induction H as [|v w vs ws [_ Hv] _ IH]; by constructor.
Qed.

Lemma entries_cloned es fs cap cap' :
  zlen es <= cap' -> Forall2 entry_cloned es fs ->
  cloned (VKeyValueList es cap) (VKeyValueList fs cap').
Proof.
  intros Hcap H. unfold cloned. cbn [validated_native capacities_ok].
  rewrite all_of_Forall. pose proof (Forall2_length _ _ _ H) as Hlen.
  split; [f_equal|split; [unfold zlen, ValidatedKeyValue in *; lia|]]; clear Hlen.
  - clear Hcap. induction H as [|[k v] [k' w] es fs (Hk & _ & Hv & _) _ IH]; simpl in *; congruence.
  - clear Hcap. induction H as [|[k v] [k' w] es fs (Hk & Hl & _ & Hv) _ IH]; by constructor.
Qed.

Lemma try_clone_observed_spec v : returns (try_clone_observed v) (cloned v).
Proof.
  induction v as [|b|z|z|p|p|vs cap IH|es cap IH|m|v a IH] using validated_ind'; simpl;
    apply returns_seq; try (by apply returns_ret).
  - apply returns_seq. eapply returns_bind; [apply returns_string|]. intros r [Hr Hc].
    apply returns_ret. unfold cloned. simpl. by rewrite Hr.
  - apply returns_seq. eapply returns_bind; [apply returns_reserve|]. intros c Hc. by apply returns_ret.
  - eapply returns_bind; [apply returns_reserve|]. intros c Hc.
    eapply returns_bind; [|intros ws Hws; apply returns_ret; by apply array_cloned; [|exact Hws]].
    apply returns_map. eapply Forall_impl; [exact IH|]. intros v Hv. by apply returns_seq.
  - eapply returns_bind; [apply returns_reserve|]. intros c Hc.
    eapply returns_bind; [|intros ws Hws; apply returns_ret; by apply entries_cloned; [|exact Hws]].
    apply returns_map. eapply Forall_impl; [exact IH|]. intros [k v] Hv. do 2 apply returns_seq.
    eapply returns_bind; [apply returns_string|]. intros r [Hr Hrc].
    eapply returns_bind; [exact Hv|]. intros w Hw. by apply returns_ret.
  - eapply returns_bind; [exact IH|]. intros w [Hw Hc]. apply returns_ret. split; simpl; [by rewrite Hw|done].
Qed.

Lemma try_clone_spec v : returns (try_clone v) (cloned v).
Proof.
  induction v as [|b|z|z|p|p|vs cap IH|es cap IH|m|v a IH] using validated_ind'; simpl;
    try (by apply returns_ret).
  - eapply returns_bind; [apply returns_string|]. intros r [Hr Hc].
    apply returns_ret. unfold cloned. simpl. by rewrite Hr.
  - eapply returns_bind; [apply returns_reserve|]. intros c Hc. by apply returns_ret.
  - eapply returns_bind; [apply returns_reserve|]. intros c Hc.
    eapply returns_bind; [|intros ws Hws; apply returns_ret; by apply array_cloned; [|exact Hws]].
    apply returns_map. exact IH.
  - eapply returns_bind; [apply returns_reserve|]. intros c Hc.
    eapply returns_bind; [|intros ws Hws; apply returns_ret; by apply entries_cloned; [|exact Hws]].
    apply returns_map. eapply Forall_impl; [exact IH|]. intros [k v] Hv.
    eapply returns_bind; [apply returns_string|]. intros r [Hr Hrc].
    eapply returns_bind; [exact Hv|]. intros w Hw. by apply returns_ret.
  - eapply returns_bind; [exact IH|]. intros w [Hw Hc]. apply returns_ret. split; simpl; [by rewrite Hw|done].
Qed.

(** A computation that always answers. *)
Definition total {A} (m : M S E A) : Prop := forall s, is_ok (m s).2 = true.

Lemma total_bind {A B} (m : M S E A) (k : A -> M S E B) :
  total m -> (forall a, total (k a)) -> total (m ≫= k).
Proof.
  intros Hm Hk s. specialize (Hm s). unfold mbind, M_bind. destruct (m s) as [s1 [a|e]]; [apply Hk|done].
Qed.

Lemma total_map {A B} (f : A -> M S E B) l : Forall (fun a => total (f a)) l -> total (m_map f l).
Proof.
  induction 1 as [|a l Ha _ IH]; simpl; [done|].
  apply total_bind; [done|]. intros b. by apply total_bind.
Qed.

(** An allocator that never runs out. *)
Definition plentiful : Prop := forall n s, is_Some (try_reserve_exact n s).2.

Lemma total_reserve n : plentiful -> total (reserve_exact n).
Proof.
  intros H s. specialize (H n s). unfold reserve_exact.
  destruct (try_reserve_exact n s) as [s1 [c|]]; [done|]. by destruct H.
Qed.

Lemma try_clone_total v : plentiful -> total (try_clone v).
Proof.
  intros Hp. pose proof (fun n => total_reserve n Hp) as Hr.
  assert (Hs : forall t, total (try_string t)) by (intros; by apply total_bind).
  induction v as [|b|z|z|p|p|vs cap IH|es cap IH|m|v a IH] using validated_ind'; simpl;
    try done; repeat (apply total_bind; [auto|intros]); try done.
  - by apply total_map.
  - apply total_map. eapply Forall_impl; [exact IH|]. intros [k v] Hv.
    by repeat (apply total_bind; [auto|intros]).
Qed.
End clones.

(** Also (roundtrip). A clone, observed or not, holds exactly the native value of its original,
    with every string and vector large enough for its contents, whatever capacities the
    allocator gives; and cloning can only fail by running out of memory. *)
Theorem clone_preserves_value {S E} {Obs : NativeValueObserver S E} {Alloc : Allocator S}
    (v : ValidatedAttributeValue) :
  returns (try_clone v : M S E _) (cloned v)
  /\ returns (try_clone_observed v : M S E _) (cloned v)
  /\ (plentiful (S := S) -> total (try_clone v : M S E _)).
Proof.
  split; [apply try_clone_spec|]. split; [apply try_clone_observed_spec|apply try_clone_total].
Qed.

(** An allocator that gives exactly what is asked for. *)
Definition ExactAllocator : Allocator unit := {|
  try_reserve_exact := fun n s => (s, Some n);
  reserve_enough := fun n s s' cap H => Z.eq_le_incl n cap (f_equal (fun x => default n x.2) H);
|}.

Lemma clone_preserves_value_witness :
  plentiful (S := unit) (Alloc := ExactAllocator)
  /\ total (E := Empty_set) (try_clone (Alloc := ExactAllocator) (VArray [VString (mkRString [104; 105] 9)] 4)).
Proof.
  assert (H : plentiful (S := unit) (Alloc := ExactAllocator)) by (intros n s; by eexists).
  split; [exact H|].
  exact (proj2 (proj2 (clone_preserves_value (Obs := UnobservedNativeValue unit) (Alloc := ExactAllocator) _)) H).
Defined.
