(* ===== verification/Validation.v ===== *)
(** Validation: the consuming validation pass, the allocation-free shape check and the
    revalidation of validated values (crates/positron-domain/src/value/observed_validation.rs,
    candidate_shape.rs and validated_profile.rs). *)

From S2P Require Import Prelude Outcome Limits Values Observe Traversal.

(** [usize::checked_next_power_of_two]. *)
Definition checked_next_power_of_two (n : Z) : option Z :=
  let p := 2 ^ Z.log2_up n in if p <=? usize_max then Some p else None.

(** ** The consuming validation *)

Section validation.
Context {S E : Type} {Obs : NativeValueObserver S E} {Alloc : Allocator S} {Lay : Layout}.

(** [positron-domain/src/value/observed_validation.rs:318-336 reserve_output_capacity] *)
Definition reserve_output_capacity (count slot_bytes : Z) : M S E Z :=
  if count =? 0 then mret 0
  else
    capacity ← lift (ok_or value_limit_exceeded (checked_next_power_of_two count));
    bytes ← lift (ok_or value_limit_exceeded (checked_mul usize_max capacity slot_bytes));
    _ ← observe_allocation bytes;
    mret bytes.

(** [positron-domain/src/value/observed_validation.rs:361-393 reconcile_output_capacity] *)
Definition reconcile_output_capacity (cap slot_bytes admitted_bytes : Z) : M S E Z := fun s =>
  match checked_capacity_bytes cap slot_bytes with
  | Err failure =>
      match release_output_capacity admitted_bytes s with
      | (s, Ok _) => (s, Err (DomainF failure))
      | (s, Err release_failure) => (s, Err release_failure)
      end
  | Ok actual_bytes =>
      if admitted_bytes <? actual_bytes then
        match checked_sub actual_bytes admitted_bytes with
        | None => (s, Err (DomainF value_limit_exceeded))
        | Some additional =>
            match obs_allocation additional s with
            | (s, Err failure) =>
                match release_output_capacity admitted_bytes s with
                | (s, Ok _) => (s, Err (ObserverF failure))
                | (s, Err release_failure) => (s, Err release_failure)
                end
            | (s, Ok _) => (s, Ok actual_bytes)
            end
        end
      else
        let slack := admitted_bytes - actual_bytes in
        (if 0 <? slack then
           _ ← release_output_capacity slack; mret actual_bytes
         else mret actual_bytes) s
  end.

(** [positron-domain/src/value/observed_validation.rs:338-359 reserve_validated_capacity] Gives
    the capacity of the new vector and the bytes admitted for it. *)
Definition reserve_validated_capacity (count slot_bytes : Z) : M S E (Z * Z) :=
  admitted_bytes ← reserve_output_capacity count slot_bytes;
  (fun s =>
    match try_reserve_exact count s with
    | (s, None) =>
        (_ ← release_output_capacity admitted_bytes; fail_domain allocation_unavailable : M S E _) s
    | (s, Some cap) =>
        (actual_bytes ← reconcile_output_capacity cap slot_bytes admitted_bytes;
         mret (cap, actual_bytes) : M S E _) s
    end : S * result (ObservedValueFailure E) (Z * Z)) : M S E (Z * Z).

(** The mutable totals of one collection loop: value size, retained heap and allocation. *)
Record Totals := mkTotals { t_size : Z; t_retained : Z; t_allocation : Z }.

Section collections.
Context (validate : CandidateAttributeValue -> Z -> M S E ObservedValueTransfer).
Context (limits : ValueLimitSet) (value_bytes : ByteLimit).

(** The accounting of one validated element inside a collection loop. The totals at the point
    of return are given back with the result because a failure releases [t_allocation];
    [key] is the capacity of the entry's key, when there is one. *)
Definition account_element (key : option Z) (transfer : ObservedValueTransfer) (totals : Totals)
  : S -> S * (Totals * result (ObservedValueFailure E) unit) := fun s =>
  let child := allocation_bytes transfer in
  match checked_add usize_max (t_allocation totals) child with
  | None =>
      match release_output_capacity child s with
      | (s, Ok _) => (s, (totals, Err (DomainF value_limit_exceeded)))
      | (s, Err f) => (s, (totals, Err f))
      end
  | Some allocation =>
      let totals := mkTotals (t_size totals) (t_retained totals) allocation in
      match checked_size_add (t_size totals) (value_size_bytes transfer) with
      | Err f => (s, (totals, Err (DomainF f)))
      | Ok size =>
          let totals := mkTotals size (t_retained totals) allocation in
          if exceeds_byte_limit size value_bytes
          then (s, (totals, Err (DomainF value_limit_exceeded)))
          else
            match (match key with
                   | Some cap => checked_size_add cap (retained_heap_bytes transfer)
                   | None => Ok (retained_heap_bytes transfer)
                   end) with
            | Err f => (s, (totals, Err (DomainF f)))
            | Ok element_retained =>
                match checked_size_add (t_retained totals) element_retained with
                | Err f => (s, (totals, Err (DomainF f)))
                | Ok retained => (s, (mkTotals size retained allocation, Ok tt))
                end
            end
      end
  end.

Fixpoint array_loop (child_depth : Z) (values : list CandidateAttributeValue)
    (validated : list ValidatedAttributeValue) (totals : Totals) (s : S)
  : S * (Totals * result (ObservedValueFailure E) (list ValidatedAttributeValue)) :=
  match values with
  | [] => (s, (totals, Ok validated))
  | candidate :: values' =>
      match validate candidate child_depth s with
      | (s, Err f) => (s, (totals, Err f))
      | (s, Ok transfer) =>
          match account_element None transfer totals s with
          | (s, (totals, Err f)) => (s, (totals, Err f))
          | (s, (totals, Ok _)) =>
              array_loop child_depth values' (validated ++ [value transfer]) totals s
          end
      end
  end.

Fixpoint entries_loop (child_depth : Z) (entries : list CandidateKeyValue)
    (validated : list ValidatedKeyValue) (totals : Totals) (s : S)
  : S * (Totals * result (ObservedValueFailure E) (list ValidatedKeyValue)) :=
  match entries with
  | [] => (s, (totals, Ok validated))
  | (key, candidate) :: entries' =>
      match (_ ← observe_structure; observe_payload (text key)) s with
      | (s, Err f) => (s, (totals, Err f))
      | (s, Ok _) =>
          if bool_decide (text key = []) || exceeds_byte_limit (rs_len key) (key_path_bytes (dynamic_value limits))
          then (s, (totals, Err (DomainF value_limit_exceeded)))
          else
            match validate candidate child_depth s with
            | (s, Err f) => (s, (totals, Err f))
            | (s, Ok transfer) =>
                match account_element (Some (capacity key)) transfer totals s with
                | (s, (totals, Err f)) => (s, (totals, Err f))
                | (s, (totals, Ok _)) =>
                    entries_loop child_depth entries' (validated ++ [(key, value transfer)]) totals s
                end
            end
      end
  end.

(** The epilogue of both collection functions: a failed loop releases what it had admitted. *)
Definition release_on_failure {A} (r : S * (Totals * result (ObservedValueFailure E) A))
  : S * result (ObservedValueFailure E) (A * Totals) :=
  match r with
  | (s, (totals, Ok a)) => (s, Ok (a, totals))
  | (s, (totals, Err f)) =>
      match release_output_capacity (t_allocation totals) s with
      | (s, Ok _) => (s, Err f)
      | (s, Err release_failure) => (s, Err release_failure)
      end
  end.

(** [positron-domain/src/value/observed_validation.rs:178-239 validate_attribute_array_observed]
    Gives the validated values, the capacity of their vector and the totals. *)
Definition validate_attribute_array_observed (values : list CandidateAttributeValue)
    (remaining_depth : Z) : M S E (list ValidatedAttributeValue * Z * Totals) :=
  match checked_sub remaining_depth 1 with
  | None => fail_domain value_limit_exceeded
  | Some child_depth =>
      if exceeds_collection_limit (zlen values) (array_entries (dynamic_value limits))
      then fail_domain value_limit_exceeded
      else
        '(cap, allocation) ← reserve_validated_capacity (zlen values) ARRAY_VALUE_SLOT_BYTES;
        retained ← lift (checked_capacity_bytes cap ARRAY_VALUE_SLOT_BYTES);
        '(validated, totals) ← ((fun s =>
          release_on_failure (array_loop child_depth values [] (mkTotals 0 retained allocation) s))
          : M S E _);
        mret (validated, cap, totals)
  end.

(** [positron-domain/src/value/observed_validation.rs:241-316 validate_key_value_list_observed] *)
Definition validate_key_value_list_observed (entries : list CandidateKeyValue)
    (remaining_depth : Z) : M S E (list ValidatedKeyValue * Z * Totals) :=
  match checked_sub remaining_depth 1 with
  | None => fail_domain value_limit_exceeded
  | Some child_depth =>
      if exceeds_collection_limit (zlen entries) (key_value_list_entries (dynamic_value limits))
      then fail_domain value_limit_exceeded
      else
        '(cap, allocation) ← reserve_validated_capacity (zlen entries) KEY_VALUE_ENTRY_SLOT_BYTES;
        retained ← lift (checked_capacity_bytes cap KEY_VALUE_ENTRY_SLOT_BYTES);
        '(validated, totals) ← ((fun s =>
          release_on_failure (entries_loop child_depth entries [] (mkTotals 0 retained allocation) s))
          : M S E _);
        mret (validated, cap, totals)
  end.
End collections.

Definition is_marker_candidate (c : CandidateAttributeValue) : bool :=
  match c with CMarker _ => true | _ => false end.
Definition is_truncated_candidate (c : CandidateAttributeValue) : bool :=
  match c with CTruncated _ _ => true | _ => false end.

(** The wrapper accounting of a truncation marker around an already validated value. *)
Definition wrap_truncated (transfer : ObservedValueTransfer) (a : MarkerAction)
  : M S E ObservedValueTransfer := fun s =>
  let wrapper_bytes := size_of_ValidatedAttributeValue in
  match obs_allocation wrapper_bytes s with
  | (s, Err failure) =>
      match release_output_capacity (allocation_bytes transfer) s with
      | (s, Ok _) => (s, Err (ObserverF failure))
      | (s, Err release_failure) => (s, Err release_failure)
      end
  | (s, Ok _) =>
      match checked_add usize_max (retained_heap_bytes transfer) wrapper_bytes,
            checked_add usize_max (allocation_bytes transfer) wrapper_bytes with
      | Some retained, Some allocation =>
          (s, Ok (mkTransfer (VTruncated (value transfer) a) (value_size_bytes transfer)
                    retained allocation))
      | _, _ =>
          (_ ← release_output_capacity wrapper_bytes;
           _ ← release_output_capacity (allocation_bytes transfer);
           fail_domain value_limit_exceeded) s
      end
  end.

(** A string or byte payload: observed, bounded and moved with its capacity. *)
Definition validate_payload (build : RString -> ValidatedAttributeValue) (s : RString)
    (value_bytes : ByteLimit) : M S E ObservedValueTransfer :=
  _ ← observe_payload (text s);
  if exceeds_byte_limit (rs_len s) value_bytes then fail_domain value_limit_exceeded
  else mret (mkTransfer (build s) (rs_len s) (capacity s) 0).

(** [positron-domain/src/value/observed_validation.rs:40-176 validate_attribute_value_observed_with_facts] *)
Fixpoint validate_attribute_value_observed_with_facts (candidate : CandidateAttributeValue)
    (limits : ValueLimitSet) (value_bytes : ByteLimit) (remaining_depth : Z)
    {struct candidate} : M S E ObservedValueTransfer :=
  _ ← observe_structure;
  match candidate with
  | CNull => mret (mkTransfer VNull 0 0 0)
  | CBoolean b => mret (mkTransfer (VBoolean b) 1 0 0)
  | CSignedInteger z => mret (mkTransfer (VSignedInteger z) 8 0 0)
  | CFloatingPointBits z => mret (mkTransfer (VFloatingPointBits z) 8 0 0)
  | CString s => validate_payload VString s value_bytes
  | CBytes s => validate_payload VBytes s value_bytes
  | CArray values =>
      '(validated, cap, totals) ← validate_attribute_array_observed
        (fun c depth => validate_attribute_value_observed_with_facts c limits value_bytes depth)
        limits value_bytes values remaining_depth;
      mret (mkTransfer (VArray validated cap) (t_size totals) (t_retained totals) (t_allocation totals))
  | CKeyValueList entries =>
      '(validated, cap, totals) ← validate_key_value_list_observed
        (fun c depth => validate_attribute_value_observed_with_facts c limits value_bytes depth)
        limits value_bytes entries remaining_depth;
      mret (mkTransfer (VKeyValueList validated cap) (t_size totals) (t_retained totals) (t_allocation totals))
  | CMarker marker =>
      if negb (marker_is_valid marker) then fail_domain value_limit_exceeded
      else mret (mkTransfer (VMarker marker) 0 0 0)
  | CTruncated inner a =>
      match candidate_native_kind inner with
      | None => fail_domain value_limit_exceeded
      | Some native_kind =>
          if negb (truncation_action_valid a native_kind)
             || is_marker_candidate inner || is_truncated_candidate inner
          then fail_domain value_limit_exceeded
          else
            transfer ← validate_attribute_value_observed_with_facts inner limits value_bytes remaining_depth;
            wrap_truncated transfer a
      end
  end.

(** [positron-domain/src/value/observed_validation.rs:23-38 validate_attribute_value_observed] *)
Definition validate_attribute_value_observed (candidate : CandidateAttributeValue)
    (limits : ValueLimitSet) (value_bytes : ByteLimit) (remaining_depth : Z)
  : M S E ValidatedAttributeValue :=
  transfer ← validate_attribute_value_observed_with_facts candidate limits value_bytes remaining_depth;
  mret (value transfer).
End validation.

(** ** What a reservation returns *)

Section reservations.
Context {S E : Type} {Obs : NativeValueObserver S E} {Alloc : Allocator S}.

Lemma reconcile_returns cap slot admitted :
  returns (E := E) (reconcile_output_capacity cap slot admitted) (fun b => checked_capacity_bytes cap slot = Ok b).
Proof.
  intros s s' b. unfold reconcile_output_capacity.
  destruct (checked_capacity_bytes cap slot) as [actual|f].
  2:{ by destruct (release_output_capacity admitted s) as [? [?|?]]. }
  destruct (admitted <? actual).
  - destruct (checked_sub actual admitted) as [x|]; [|done].
    destruct (obs_allocation x s) as [s1 [?|?]]; [by intros [= _ <-]|].
    by destruct (release_output_capacity admitted s1) as [? [?|?]].
  - case_match; [|by intros [= _ <-]].
    unfold mbind, M_bind. destruct (release_output_capacity _ s) as [? [?|?]]; [by intros [= _ <-]|done].
Qed.

Lemma reserve_validated_returns count slot :
  returns (E := E) (reserve_validated_capacity count slot)
    (fun '(cap, b) => checked_capacity_bytes cap slot = Ok b /\ count <= cap).
Proof.
  apply (returns_bind _ _ (fun _ => True)); [done|]. intros admitted _ s s' [cap b].
  destruct (try_reserve_exact count s) as [s1 [c|]] eqn:Hv.
  - apply reserve_enough in Hv. intros H.
    eapply (returns_bind _ _ _ (fun '(cap, b) => checked_capacity_bytes cap slot = Ok b /\ count <= cap))
      in H; [exact H|apply reconcile_returns|]. intros a Ha. by apply returns_ret.
  - unfold mbind, M_bind. by destruct (release_output_capacity admitted s1) as [? [?|?]].
Qed.
End reservations.

(** ** The allocation ledger *)

Section ledger.
Context {S E : Type} {Obs : NativeValueObserver S E} {Alloc : Allocator S} {Lay : Layout}.
Context {L : LedgerObserver Obs Alloc}.

(** A computation that leaves the balance at what its result says is charged. *)
Definition charges {A} (charge : A -> Z) (m : M S E A) : Prop := forall s s' r, m s = (s', r) ->
  outstanding s' = outstanding s + match r with Ok a => charge a | Err _ => 0 end.

Lemma release_refunds_output n s s' r : release_output_capacity n s = (s', r) ->
  r = Ok tt /\ outstanding s' = outstanding s - n.
Proof.
  unfold release_output_capacity. destruct (obs_release n s) as [s1 r1] eqn:H.
  apply release_refunds in H as [-> ?]. intros [= <- <-]. done.
Qed.

Lemma charges_ret {A} (charge : A -> Z) a : charge a = 0 -> charges charge (mret a).
Proof. intros Ha s s' r [= <- <-]. lia. Qed.

Lemma charges_fail {A} (charge : A -> Z) f : charges charge (fail_domain f : M S E A).
Proof. intros s s' r [= <- <-]. lia. Qed.

Lemma charges_lift {A} (charge : A -> Z) (r : result DomainFailure A) :
  (forall a, charge a = 0) -> charges charge (lift r).
Proof. intros H s s' r' [= <- <-]. destruct r; simpl; rewrite ?H; lia. Qed.

Lemma charges_bind_free {A B} (charge : B -> Z) (m : M S E A) (k : A -> M S E B) :
  charges (fun _ => 0) m -> (forall a, charges charge (k a)) -> charges charge (m ≫= k).
Proof.
  intros Hm Hk s s' r. unfold mbind, M_bind. destruct (m s) as [s1 [a|e]] eqn:H; apply Hm in H.
  - intros ?%Hk. lia.
  - intros [= <- <-]. lia.
Qed.

Lemma charges_structure : charges (fun _ => 0) observe_structure.
Proof.
  intros s s' r. unfold observe_structure. destruct (obs_structure s) as [s1 r1] eqn:H.
  apply structure_neutral in H. intros [= <- <-]. case_match; lia.
Qed.

Lemma charges_payload p : charges (fun _ => 0) (observe_payload p).
Proof. intros s s' r H%observe_chunks_neutral. case_match; lia. Qed.

Lemma charges_allocation n : charges (fun _ => n) (observe_allocation n).
Proof.
  intros s s' r. unfold observe_allocation. destruct (obs_allocation n s) as [s1 [[]|e]] eqn:H.
  - apply allocation_charges in H. intros [= <- <-]. done.
  - apply allocation_refused in H. intros [= <- <-]. lia.
Qed.

Lemma charges_reserve_output count slot : charges (fun b => b) (reserve_output_capacity count slot).
Proof.
  unfold reserve_output_capacity. case_match; [by apply charges_ret|].
  apply charges_bind_free; [by apply charges_lift|]. intros cap.
  apply charges_bind_free; [by apply charges_lift|]. intros b s s' r.
  unfold mbind, M_bind. destruct (observe_allocation b s) as [s1 [[]|e]] eqn:Ha;
    apply charges_allocation in Ha; intros [= <- <-]; simpl in *; lia.
Qed.

(** Reconciling turns a charge of [admitted] into a charge of the bytes really held. *)
Lemma reconcile_balance cap slot admitted s s' r :
  reconcile_output_capacity cap slot admitted s = (s', r) ->
  outstanding s' = outstanding s - admitted + match r with Ok b => b | Err _ => 0 end.
Proof.
  unfold reconcile_output_capacity. intros H.
  destruct (checked_capacity_bytes cap slot) as [actual|f] eqn:Hc.
  2:{ destruct (release_output_capacity admitted s) as [s1 r1] eqn:Hr.
      apply release_refunds_output in Hr as [-> ?]. simplify_eq. lia. }
  destruct (admitted <? actual) eqn:Hlt; bool_to_prop.
  - destruct (checked_sub actual admitted) as [extra|] eqn:Hs; inv_checked; [|lia].
    destruct (obs_allocation extra s) as [s1 [[]|e]] eqn:Ha.
    + apply allocation_charges in Ha. simplify_eq. lia.
    + apply allocation_refused in Ha.
      destruct (release_output_capacity admitted s1) as [s2 r2] eqn:Hr.
      apply release_refunds_output in Hr as [-> ?]. simplify_eq. lia.
  - destruct (0 <? admitted - actual) eqn:Hpos; bool_to_prop.
    + unfold mbind, M_bind in H.
      destruct (release_output_capacity (admitted - actual) s) as [s1 r1] eqn:Hr.
      apply release_refunds_output in Hr as [-> ?]. unfold mret, M_ret in H. simplify_eq.
      lia.
    + unfold mret, M_ret in H. simplify_eq. lia.
Qed.

(** Sequencing when the continuation takes over the charge of the first computation. *)
Lemma charges_bind {A B} (charge : A -> Z) (charge' : B -> Z) (m : M S E A) (k : A -> M S E B) :
  charges charge m ->
  (forall a s s' r, k a s = (s', r) ->
     outstanding s' = outstanding s - charge a + match r with Ok b => charge' b | Err _ => 0 end) ->
  charges charge' (m ≫= k).
Proof.
  intros Hm Hk s s' r. unfold mbind, M_bind. destruct (m s) as [s1 [a|e]] eqn:H; apply Hm in H.
  - intros ?%Hk. lia.
  - intros [= <- <-]. lia.
Qed.

Lemma reserve_validated_balance count slot :
  charges snd (reserve_validated_capacity count slot).
Proof.
  eapply (charges_bind (fun b => b)); [apply charges_reserve_output|]. intros admitted s s' r.
  destruct (try_reserve_exact count s) as [s2 [cap|]] eqn:Hv; apply reserve_neutral in Hv.
  - unfold mbind, M_bind. destruct (reconcile_output_capacity cap slot admitted s2) as [s3 [b|e]] eqn:Hr;
      apply reconcile_balance in Hr; intros [= <- <-]; simpl; lia.
  - unfold mbind, M_bind.
    destruct (release_output_capacity admitted s2) as [s3 r3] eqn:Hr.
    apply release_refunds_output in Hr as [-> ?]. intros [= <- <-]. lia.
Qed.

Lemma account_element_balance vb key t tot s s' tot' r :
  account_element vb key t tot s = (s', (tot', r)) ->
  outstanding s' - t_allocation tot'
    = outstanding s - t_allocation tot - allocation_bytes t.
Proof.
  unfold account_element. destruct (checked_add usize_max (t_allocation tot) _) as [a|] eqn:Ha;
    inv_checked.
  - repeat case_match; intros; simplify_eq; simpl in *; lia.
  - destruct (release_output_capacity (allocation_bytes t) s) as [s1 r1] eqn:Hr.
    apply release_refunds_output in Hr as [-> ?]. intros [= <- <- <-]. lia.
Qed.

Lemma array_loop_balance validate vb depth vs acc tot s s' tot' r :
  Forall (fun c => charges allocation_bytes (validate c depth)) vs ->
  array_loop validate vb depth vs acc tot s = (s', (tot', r)) ->
  outstanding s' - t_allocation tot' = outstanding s - t_allocation tot.
Proof.
  intros Hvs. revert acc tot s. induction Hvs as [|c vs Hc _ IH]; intros acc tot s; simpl.
  { by intros [= <- <- <-]. }
  destruct (validate c depth s) as [s1 [t|e]] eqn:Hv; apply Hc in Hv.
  2:{ intros [= <- <- <-]. lia. }
  destruct (account_element vb None t tot s1) as [s2 [tot2 [[]|e]]] eqn:Ha;
    apply account_element_balance in Ha.
  - intros ?%IH. lia.
  - intros [= <- <- <-]. lia.
Qed.

Lemma entries_loop_balance validate limits vb depth es acc tot s s' tot' r :
  Forall (fun e : CandidateKeyValue => charges allocation_bytes (validate e.2 depth)) es ->
  entries_loop validate limits vb depth es acc tot s = (s', (tot', r)) ->
  outstanding s' - t_allocation tot' = outstanding s - t_allocation tot.
Proof.
  intros Hes. revert acc tot s. induction Hes as [|[k c] es Hc _ IH]; intros acc tot s; simpl.
  { by intros [= <- <- <-]. }
  destruct ((_ ← observe_structure; observe_payload (text k)) s) as [s0 r0] eqn:Ho.
  apply (charges_bind_free (fun _ => 0)) in Ho; [|apply charges_structure|intros; apply charges_payload].
  destruct r0 as [?|e]; [|intros [= <- <- <-]; lia].
  case_match; [intros [= <- <- <-]; lia|]. simpl in Hc.
  destruct (validate c depth s0) as [s1 [t|e]] eqn:Hv; apply Hc in Hv.
  2:{ intros [= <- <- <-]. lia. }
  destruct (account_element vb (Some (capacity k)) t tot s1) as [s2 [tot2 [[]|e]]] eqn:Ha;
    apply account_element_balance in Ha.
  - intros ?%IH. lia.
  - intros [= <- <- <-]. lia.
Qed.

(** The shape both collection functions have: reserve, loop, release on failure. *)
Lemma collection_charges {A} count slot
    (loop : Totals -> S -> S * (Totals * result (ObservedValueFailure E) (list A))) :
  (forall tot s s' tot' r, loop tot s = (s', (tot', r)) ->
     outstanding s' - t_allocation tot' = outstanding s - t_allocation tot) ->
  charges (fun x : list A * Z * Totals => t_allocation x.2)
    ('(cap, allocation) ← reserve_validated_capacity count slot;
     retained ← lift (checked_capacity_bytes cap slot);
     '(validated, totals) ← ((fun s => release_on_failure (loop (mkTotals 0 retained allocation) s)) : M S E _);
     mret (validated, cap, totals)).
Proof.
  intros Hloop s s' r. unfold mbind, M_bind.
  destruct (reserve_validated_capacity count slot s) as [s1 [[cap b]|e]] eqn:Hr;
    pose proof (reserve_validated_balance _ _ _ _ _ Hr) as Hb; [|by intros [= <- <-]].
  unfold lift. rewrite (proj1 (reserve_validated_returns _ _ _ _ _ Hr)). simpl in *.
  destruct (loop (mkTotals 0 b b) s1) as [s2 [tot2 [vs|e]]] eqn:Hl; apply Hloop in Hl; simpl in *.
  - intros [= <- <-]. simpl. lia.
  - destruct (release_output_capacity (t_allocation tot2) s2) as [s3 r3] eqn:Hr2.
    apply release_refunds_output in Hr2 as [-> ?]. intros [= <- <-]. lia.
Qed.

Lemma wrap_truncated_balance t a s s' r : wrap_truncated t a s = (s', r) ->
  outstanding s' = outstanding s - allocation_bytes t
                   + match r with Ok t' => allocation_bytes t' | Err _ => 0 end.
Proof.
  unfold wrap_truncated. destruct (obs_allocation _ s) as [s1 [[]|e]] eqn:Ha.
  - apply allocation_charges in Ha.
    destruct (checked_add usize_max (retained_heap_bytes t) size_of_ValidatedAttributeValue) as [x|], (checked_add usize_max (allocation_bytes t) size_of_ValidatedAttributeValue) as [y|] eqn:Hy;
      inv_checked; [intros [= <- <-]; simpl; lia|..];
      unfold mbind, M_bind;
      destruct (release_output_capacity size_of_ValidatedAttributeValue s1) as [s2 r2] eqn:H2;
      apply release_refunds_output in H2 as [-> ?];
      destruct (release_output_capacity (allocation_bytes t) s2) as [s3 r3] eqn:H3;
      apply release_refunds_output in H3 as [-> ?]; intros [= <- <-]; lia.
  - apply allocation_refused in Ha.
    destruct (release_output_capacity (allocation_bytes t) s1) as [s2 r2] eqn:H2.
    apply release_refunds_output in H2 as [-> ?]. intros [= <- <-]. lia.
Qed.

Lemma payload_charges build p vb : charges allocation_bytes (validate_payload build p vb).
Proof.
  apply charges_bind_free; [apply charges_payload|]. intros _.
  case_match; [apply charges_fail|by apply charges_ret].
Qed.

Lemma validation_charges candidate limits vb depth :
  charges allocation_bytes (validate_attribute_value_observed_with_facts candidate limits vb depth).
Proof.
  revert depth. induction candidate as [| | | |p|p|vs IH|es IH|m|c a IH] using candidate_ind';
    intros depth; simpl; (apply charges_bind_free; [apply charges_structure|intros _]);
    try (by apply charges_ret); try apply payload_charges.
  - eapply (charges_bind (fun x : _ * Z * Totals => t_allocation x.2)).
    2:{ intros [[? ?] ?] s s' r [= <- <-]. simpl. lia. }
    unfold validate_attribute_array_observed. repeat case_match; try apply charges_fail.
    apply collection_charges. intros tot s s' tot' r. apply array_loop_balance.
    eapply Forall_impl; [exact IH|]. simpl. auto.
  - eapply (charges_bind (fun x : _ * Z * Totals => t_allocation x.2)).
    2:{ intros [[? ?] ?] s s' r [= <- <-]. simpl. lia. }
    unfold validate_key_value_list_observed. repeat case_match; try apply charges_fail.
    apply collection_charges. intros tot s s' tot' r. apply entries_loop_balance.
    eapply Forall_impl; [exact IH|]. simpl. auto.
  - case_match; [apply charges_fail|by apply charges_ret].
  - repeat case_match; try apply charges_fail.
    eapply charges_bind; [apply IH|]. intros t s s' r. apply wrap_truncated_balance.
Qed.

End ledger.

(** ** The facts returned with a validated value *)

(** Every string of a candidate has room for its contents. *)
Fixpoint candidate_capacities_ok (c : CandidateAttributeValue) : Prop :=
  match c with
  | CString s | CBytes s => rs_len s <= capacity s
  | CArray vs => all_of candidate_capacities_ok vs
  | CKeyValueList es => all_of (fun '(k, v) => rs_len k <= capacity k /\ candidate_capacities_ok v) es
  | CTruncated v _ => candidate_capacities_ok v
  | _ => True
  end.

(** The values whose size validation does not compare with the ceiling for one value. *)
Definition is_scalar (c : CandidateAttributeValue) : bool :=
  match c with CBoolean _ | CSignedInteger _ | CFloatingPointBits _ => true | _ => false end.

Section facts.
Context {S E : Type} {Obs : NativeValueObserver S E} {Alloc : Allocator S} {Lay : Layout}.
Context (limits : ValueLimitSet) (value_bytes : ByteLimit) (limit_nonneg : 0 <= byte_limit value_bytes).

(** What a checked revalidation of a value of [size] bytes answers. *)
Definition size_verdict (size : Z) : result DomainFailure Z :=
  if exceeds_byte_limit size value_bytes then Err value_limit_exceeded else Ok size.

(** What a transfer says about its value, for a candidate validated at [depth]. *)
Record exact_facts (c : CandidateAttributeValue) (depth : Z) (t : ObservedValueTransfer) : Prop := {
  fact_native : validated_native (value t) = candidate_native c;
  fact_size : validated_size_against (value t) limits value_bytes depth = size_verdict (value_size_bytes t);
  fact_retained : value_retained_heap_bytes (value t) = Ok (retained_heap_bytes t);
  fact_nonneg : 0 <= retained_heap_bytes t;
  fact_size_nonneg : 0 <= value_size_bytes t;
  fact_fits : value_size_bytes t <= byte_limit value_bytes \/ is_scalar c = true /\ value_size_bytes t <= 8;
}.

Lemma within_limit n : n <= byte_limit value_bytes -> exceeds_byte_limit n value_bytes = false.
Proof. intros H. unfold exceeds_byte_limit. by apply Z.ltb_ge. Qed.

Lemma verdict_within n : n <= byte_limit value_bytes -> size_verdict n = Ok n.
Proof. intros H. unfold size_verdict. by rewrite within_limit. Qed.

Lemma decoded_add_inv a b c : checked_decoded_add a b = Ok c -> c = a + b.
Proof. intros H%ok_or_Ok. by inv_checked. Qed.

(** A ceiling of eight bytes admits every scalar. *)
Lemma fact_size_wide c depth t : 8 <= byte_limit value_bytes -> exact_facts c depth t ->
  validated_size_against (value t) limits value_bytes depth = Ok (value_size_bytes t).
Proof. intros H8 H. rewrite (fact_size _ _ _ H). apply verdict_within. destruct (fact_fits _ _ _ H); lia. Qed.

Definition size_fold (depth : Z) := try_fold (fun total v =>
  size ← validated_size_against v limits value_bytes depth; checked_decoded_add total size).
Definition retained_fold := try_fold (fun total v =>
  child ← value_retained_heap_bytes v; checked_decoded_add total child).
Definition entry_size_fold (depth : Z) := try_fold (fun total '((key, v) : RString * ValidatedAttributeValue) =>
  if bool_decide (text key = []) || exceeds_byte_limit (rs_len key) (key_path_bytes (dynamic_value limits))
  then Err value_limit_exceeded
  else size ← validated_size_against v limits value_bytes depth; checked_decoded_add total size).
Definition entry_retained_fold := try_fold (fun total '((key, v) : RString * ValidatedAttributeValue) =>
  total ← checked_decoded_add total (capacity key);
  child ← value_retained_heap_bytes v; checked_decoded_add total child).

(** The totals after one accounted element. *)
Lemma account_element_ok key t tot s s' tot' :
  account_element (E := E) value_bytes key t tot s = (s', (tot', Ok tt)) ->
  checked_decoded_add (t_size tot) (value_size_bytes t) = Ok (t_size tot')
  /\ t_size tot' <= byte_limit value_bytes
  /\ t_retained tot' = t_retained tot + (default 0 key + retained_heap_bytes t)
  /\ t_retained tot' <= usize_max.
Proof.
  unfold account_element, checked_size_add, checked_decoded_add. intros H.
  destruct (checked_add usize_max (t_allocation tot) (allocation_bytes t)); simpl in H.
  2:{ by destruct (release_output_capacity (allocation_bytes t) s) as [? [?|?]]. }
  destruct (checked_add usize_max (t_size tot) (value_size_bytes t)) as [size|]; simpl in *; [|done].
  destruct (exceeds_byte_limit size value_bytes) eqn:Hx; [done|].
  destruct key as [k|]; simpl in H.
  - destruct (checked_add usize_max k (retained_heap_bytes t)) as [x|] eqn:H1; simpl in H; [|done].
    destruct (checked_add usize_max (t_retained tot) x) as [y|] eqn:H2; simpl in H; [|done].
    inv_checked. simplify_eq. simpl. unfold exceeds_byte_limit in Hx. bool_to_prop. repeat split; lia.
  - destruct (checked_add usize_max (t_retained tot) (retained_heap_bytes t)) as [y|] eqn:H2; simpl in H; [|done].
    inv_checked. simplify_eq. simpl. unfold exceeds_byte_limit in Hx. bool_to_prop. repeat split; lia.
Qed.

Lemma decoded_add_ok a b : a + b <= usize_max -> checked_decoded_add a b = Ok (a + b).
Proof. intros H. unfold checked_decoded_add. by rewrite (checked_add_ok _ _ _ H). Qed.

Lemma array_loop_facts validate depth vs acc tot s s' tot' ws :
  Forall (fun c => returns (validate c depth) (exact_facts c depth)) vs ->
  0 <= t_retained tot -> 0 <= t_size tot <= byte_limit value_bytes ->
  array_loop (S := S) (E := E) validate value_bytes depth vs acc tot s = (s', (tot', Ok ws)) ->
  exists ws', ws = acc ++ ws' /\ map validated_native ws' = map candidate_native vs
    /\ size_fold depth (t_size tot) ws' = Ok (t_size tot')
    /\ retained_fold (t_retained tot) ws' = Ok (t_retained tot')
    /\ 0 <= t_retained tot' /\ 0 <= t_size tot' <= byte_limit value_bytes.
Proof.
  intros Hvs. revert acc tot s. induction Hvs as [|c vs Hc _ IH]; intros acc tot s Hr Hs; simpl.
  { intros [= <- <- <-]. exists []. rewrite app_nil_r. done. }
  destruct (validate c depth s) as [s1 [t|e]] eqn:Hv; [|done]. apply Hc in Hv as [Hn Hsz Hret Hnn Hnn' _].
  destruct (account_element value_bytes None t tot s1) as [s2 [tot2 [[]|e]]] eqn:Ha; [|done].
  apply account_element_ok in Ha as (H1 & H2 & H3 & H4). simpl in H3. pose proof (decoded_add_inv _ _ _ H1) as H5.
  rewrite verdict_within in Hsz by lia. intros (ws' & -> & Hmap & Hsf & Hrf & ? & ?)%IH; [|lia|lia].
  exists (value t :: ws'). rewrite <- app_assoc. simpl. unfold size_fold, retained_fold in *. simpl.
  rewrite Hn, Hmap, Hsz, Hret. simpl. rewrite H1, decoded_add_ok by lia.
  rewrite H3 in Hrf. done.
Qed.

Lemma entries_loop_facts validate depth es acc tot s s' tot' ws :
  Forall (fun e : CandidateKeyValue => returns (validate e.2 depth) (exact_facts e.2 depth)) es ->
  Forall (fun e : CandidateKeyValue => 0 <= capacity e.1) es ->
  0 <= t_retained tot -> 0 <= t_size tot <= byte_limit value_bytes ->
  entries_loop (S := S) (E := E) validate limits value_bytes depth es acc tot s = (s', (tot', Ok ws)) ->
  exists ws', ws = acc ++ ws'
    /\ map (fun '(k, v) => (text k, validated_native v)) ws' = map (fun '(k, v) => (text k, candidate_native v)) es
    /\ entry_size_fold depth (t_size tot) ws' = Ok (t_size tot')
    /\ entry_retained_fold (t_retained tot) ws' = Ok (t_retained tot')
    /\ 0 <= t_retained tot' /\ 0 <= t_size tot' <= byte_limit value_bytes.
Proof.
  intros Hes. revert acc tot s. induction Hes as [|[k c] es Hc _ IH]; intros acc tot s Hcap Hr Hs; simpl.
  { intros [= <- <- <-]. exists []. rewrite app_nil_r. done. }
  apply Forall_cons in Hcap as [Hk Hcap]. simpl in *.
  destruct ((_ ← observe_structure; observe_payload (text k)) s) as [s0 [[]|e]]; [|done].
  destruct (bool_decide (text k = []) || _) eqn:Hkey; [done|].
  destruct (validate c depth s0) as [s1 [t|e]] eqn:Hv; [|done]. apply Hc in Hv as [Hn Hsz Hret Hnn Hnn' _].
  destruct (account_element value_bytes _ t tot s1) as [s2 [tot2 [[]|e]]] eqn:Ha; [|done].
  apply account_element_ok in Ha as (H1 & H2 & H3 & H4). simpl in H3. pose proof (decoded_add_inv _ _ _ H1) as H5.
  rewrite verdict_within in Hsz by lia. intros (ws' & -> & Hmap & Hsf & Hrf & ? & ?)%IH; [|done|lia|lia].
  exists ((k, value t) :: ws'). rewrite <- app_assoc. simpl. unfold entry_size_fold, entry_retained_fold in *. simpl.
  rewrite Hkey, Hn, Hmap, Hsz, Hret, (decoded_add_ok _ (capacity k)) by lia. simpl.
  rewrite H1, decoded_add_ok by lia. rewrite Z.add_assoc in H3. rewrite H3 in Hrf. done.
Qed.
(** The shape of both collection functions, for partial correctness. *)
Lemma collection_returns {A} count slot
    (loop : Totals -> S -> S * (Totals * result (ObservedValueFailure E) (list A)))
    (Q : list A * Z * Totals -> Prop) :
  (forall cap b s s' tot ws, count <= cap -> checked_capacity_bytes cap slot = Ok b ->
     loop (mkTotals 0 b b) s = (s', (tot, Ok ws)) -> Q (ws, cap, tot)) ->
  returns
    ('(cap, allocation) ← reserve_validated_capacity count slot;
     retained ← lift (checked_capacity_bytes cap slot);
     '(validated, totals) ← ((fun s => release_on_failure (loop (mkTotals 0 retained allocation) s)) : M S E _);
     mret (validated, cap, totals)) Q.
Proof.
  intros Hloop. eapply returns_bind; [apply reserve_validated_returns|]. intros [cap b] [Hb Hcap].
  unfold lift. rewrite Hb. unfold mbind, M_bind, mret, M_ret. simpl. intros s s' x.
  destruct (loop (mkTotals 0 b b) s) as [s1 [tot [ws|e]]] eqn:Hl; simpl.
  - intros [= _ <-]. eauto.
  - by destruct (release_output_capacity (t_allocation tot) s1) as [? [?|?]].
Qed.

Lemma capacity_bytes_fact cap slot b : 0 <= cap -> 0 <= slot -> checked_capacity_bytes cap slot = Ok b ->
  checked_mul usize_max cap slot = Some b /\ 0 <= b.
Proof. intros Hc Hs H%ok_or_Ok. split; [done|]. inv_checked. nia. Qed.

Lemma payload_facts build p depth c :
  (build = VString /\ c = CString p \/ build = VBytes /\ c = CBytes p) ->
  rs_len p <= capacity p ->
  returns (validate_payload build p value_bytes) (exact_facts c depth).
Proof.
  intros Hb Hcap. apply returns_seq. destruct (exceeds_byte_limit (rs_len p) value_bytes) eqn:Hx; [done|].
  apply returns_ret. pose proof (zlen_nonneg (text p)). unfold rs_len in *.
  pose proof Hx as Hle%Z.ltb_ge. unfold rs_len in Hle.
  destruct Hb as [[-> ->]|[-> ->]]; split; simpl; unfold size_verdict; rewrite ?Hx; try done; unfold rs_len; rewrite ?Hx; try done; lia.
Qed.

Lemma array_facts vs depth :
  Forall (fun c => forall d, candidate_capacities_ok c ->
    returns (validate_attribute_value_observed_with_facts c limits value_bytes d) (exact_facts c d)) vs ->
  Forall candidate_capacities_ok vs ->
  returns (validate_attribute_array_observed
      (fun c d => validate_attribute_value_observed_with_facts c limits value_bytes d)
      limits value_bytes vs depth)
    (fun '(ws, cap, tot) => exact_facts (CArray vs) depth
       (mkTransfer (VArray ws cap) (t_size tot) (t_retained tot) (t_allocation tot))).
Proof.
  intros IH Hok. unfold validate_attribute_array_observed.
  destruct (checked_sub depth 1) as [d|] eqn:Hd; [|done].
  destruct (exceeds_collection_limit _ _) eqn:Hlen; [done|].
  apply collection_returns. intros cap b s s' tot ws Hcap Hb Hl.
  pose proof (zlen_nonneg vs). apply capacity_bytes_fact in Hb as [Hb Hb0]; [|lia|done].
  apply array_loop_facts in Hl as (ws' & -> & Hmap & Hsf & Hrf & ? & ?); simpl; try lia.
  - assert (Hzl : zlen ws' = zlen vs).
    { unfold zlen. by rewrite <- (length_map validated_native ws'), Hmap, length_map. }
    split; simpl; [by rewrite Hmap| |by rewrite Hb|done|lia|lia].
    unfold child_depth. rewrite Hd. simpl. rewrite Hzl, Hlen. unfold size_fold in Hsf. simpl in Hsf.
    rewrite Hsf. simpl. rewrite verdict_within, within_limit by lia. done.
  - apply Forall_forall. intros c Hc. rewrite Forall_forall in IH, Hok. eauto.
Qed.

Lemma entries_facts es depth :
  Forall (fun e : CandidateKeyValue => forall d, candidate_capacities_ok e.2 ->
    returns (validate_attribute_value_observed_with_facts e.2 limits value_bytes d) (exact_facts e.2 d)) es ->
  Forall (fun '((k, c) : CandidateKeyValue) => rs_len k <= capacity k /\ candidate_capacities_ok c) es ->
  returns (validate_key_value_list_observed
      (fun c d => validate_attribute_value_observed_with_facts c limits value_bytes d)
      limits value_bytes es depth)
    (fun '(ws, cap, tot) => exact_facts (CKeyValueList es) depth
       (mkTransfer (VKeyValueList ws cap) (t_size tot) (t_retained tot) (t_allocation tot))).
Proof.
  intros IH Hok. unfold validate_key_value_list_observed.
  destruct (checked_sub depth 1) as [d|] eqn:Hd; [|done].
  destruct (exceeds_collection_limit _ _) eqn:Hlen; [done|].
  apply collection_returns. intros cap b s s' tot ws Hcap Hb Hl.
  pose proof (zlen_nonneg es). apply capacity_bytes_fact in Hb as [Hb Hb0]; [|lia|done].
  apply entries_loop_facts in Hl as (ws' & -> & Hmap & Hsf & Hrf & ? & ?); simpl; try lia.
  - assert (Hzl : @zlen (RString * ValidatedAttributeValue) ws' = zlen es).
    { apply (f_equal length) in Hmap. rewrite !length_map in Hmap.
      unfold zlen, ValidatedKeyValue, CandidateKeyValue in *. by rewrite Hmap. }
    split; simpl; [by rewrite Hmap| |by rewrite Hb|done|lia|lia].
    unfold child_depth. rewrite Hd. simpl. rewrite Hzl, Hlen. unfold entry_size_fold in Hsf. simpl in Hsf.
    rewrite Hsf. simpl. rewrite verdict_within, within_limit by lia. done.
  - rewrite Forall_forall in IH, Hok |- *. intros [k c] Hc. destruct (Hok _ Hc) as [_ Hok']. by apply IH.
  - eapply Forall_impl; [exact Hok|]. intros [k c] [Hk _]. simpl.
    pose proof (zlen_nonneg (text k)). unfold rs_len in Hk. lia.
Qed.

Lemma wrap_truncated_facts c depth t a : is_scalar c = false ->
  exact_facts c depth t -> returns (E := E) (wrap_truncated t a) (exact_facts (CTruncated c a) depth).
Proof.
  intros Hsc [Hn Hs Hr H0 H1 [Hle|[? _]]] s s' t'; [|congruence]. unfold wrap_truncated.
  destruct (obs_allocation _ s) as [s1 [?|?]].
  2:{ by destruct (release_output_capacity _ s1) as [? [?|?]]. }
  destruct (checked_add usize_max (retained_heap_bytes t) size_of_ValidatedAttributeValue) as [x|] eqn:Hx,
    (checked_add usize_max (allocation_bytes t) size_of_ValidatedAttributeValue) as [y|];
    try (unfold mbind, M_bind; repeat case_match; done).
  intros [= _ <-]. pose proof size_of_positive.
  split; simpl; [by rewrite Hn| |by rewrite Hr; simpl; rewrite Hx|inv_checked; lia|done|by left].
  rewrite Hs, verdict_within by done. simpl. by rewrite within_limit.
Qed.

(** Only payloads and collections are truncated. *)
Lemma truncated_not_scalar c a k : candidate_native_kind c = Some k -> truncation_action_valid a k = true -> is_scalar c = false.
Proof. destruct c; simpl; intros Hk Ha; try done; simplify_eq; by destruct a. Qed.

Lemma validation_facts c depth :
  candidate_capacities_ok c ->
  returns (validate_attribute_value_observed_with_facts c limits value_bytes depth) (exact_facts c depth).
Proof.
  revert depth. induction c as [|b|z|z|p|p|vs IH|es IH|m|c a IH] using candidate_ind';
    intros depth Hok; simpl; apply returns_seq;
    try (apply returns_ret; split; simpl; unfold size_verdict; done || (right; split; [done|lia]) || lia).
  - apply payload_facts; auto.
  - apply payload_facts; auto.
  - eapply returns_bind; [apply array_facts; [exact IH|by apply all_of_Forall]|].
    intros [[ws cap] tot] H. by apply returns_ret.
  - eapply returns_bind; [apply entries_facts; [exact IH|by apply all_of_Forall]|].
    intros [[ws cap] tot] H. by apply returns_ret.
  - case_match; [done|]. apply returns_ret; split; simpl; unfold size_verdict; done || lia.
  - repeat case_match; try done. eapply returns_bind; [by apply IH|].
    intros t Ht. apply wrap_truncated_facts; [|done]. apply (truncated_not_scalar c a _ H). by destruct (truncation_action_valid a _).
Qed.
End facts.

(** ** The contract of validation *)

(** C7 (invariant). Validation never leaks or double-frees charged memory: for every observer that
    keeps a balance, every candidate and every outcome of the allocator, a failed validation
    leaves the balance exactly where it was and a successful one has charged exactly the
    allocation bytes reported with the value. *)
Theorem validation_balances_allocations {S E} {Obs : NativeValueObserver S E} {Alloc : Allocator S}
    {Lay : Layout} {L : LedgerObserver Obs Alloc} candidate limits value_bytes depth s s' r :
  validate_attribute_value_observed_with_facts candidate limits value_bytes depth s = (s', r) ->
  outstanding s' = outstanding s + match r with Ok t => allocation_bytes t | Err _ => 0 end.
Proof. apply validation_charges. Qed.

(** C28 (functional). A successful validation changes nothing but the representation, for every ceiling on
    the size of one value: the validated value denotes the candidate's native value, the reported
    retained bytes are what a separate traversal of the value counts, and revalidating it under the
    same limits gives the reported size when that is within the ceiling and refuses the value
    otherwise. The size is past the ceiling only for a boolean, an integer or a floating-point
    number at the top, whose one or eight bytes validation does not compare with it. *)
Theorem validation_facts_are_exact {S E} {Obs : NativeValueObserver S E} {Alloc : Allocator S}
    {Lay : Layout} candidate limits value_bytes depth s s' t :
  0 <= byte_limit value_bytes -> candidate_capacities_ok candidate ->
  validate_attribute_value_observed_with_facts candidate limits value_bytes depth s = (s', Ok t) ->
  validated_native (value t) = candidate_native candidate
  /\ value_retained_heap_bytes (value t) = Ok (retained_heap_bytes t)
  /\ validated_size_against (value t) limits value_bytes depth
     = (if exceeds_byte_limit (value_size_bytes t) value_bytes then Err value_limit_exceeded else Ok (value_size_bytes t))
  /\ (value_size_bytes t <= byte_limit value_bytes \/ is_scalar candidate = true /\ value_size_bytes t <= 8).
Proof. intros Hvb Hok H. by destruct (validation_facts limits value_bytes Hvb _ _ Hok _ _ _ H). Qed.

(** A quota observer: the balance and the quota; allocations beyond the quota are refused. *)
Module Quota.
Record state := mk { balance : Z; quota : Z }.

Definition observer : NativeValueObserver state unit := {|
  obs_structure := fun s => (s, Ok tt);
  obs_payload := fun _ s => (s, Ok tt);
  obs_allocation := fun n s =>
    if balance s + n <=? quota s then (mk (balance s + n) (quota s), Ok tt) else (s, Err tt);
  obs_release := fun n s => (mk (balance s - n) (quota s), Ok tt);
|}.

Definition allocator : Allocator state.
Proof. refine {| try_reserve_exact := fun n s => (s, Some n) |}. by intros n s s' cap [= _ <-]. Defined.

Definition ledger : LedgerObserver observer allocator.
Proof.
  refine {| outstanding := balance |}; simpl; intros; repeat case_match; simplify_eq; simpl; try done; lia.
Defined.

Definition layout : Layout.
Proof. by refine {| size_of_ValidatedAttributeValue := 40 |}. Defined.

Definition nested : CandidateAttributeValue :=
  CKeyValueList [(mkRString [107] 8, CArray [CSignedInteger 7; CTruncated (CString (mkRString [97; 98] 4)) TruncatedBytes])].
End Quota.

Lemma validation_balances_allocations_witness :
  let limits := effective_limits release_1_system_maximum in
  let '(s, r) := validate_attribute_value_observed_with_facts (Obs := Quota.observer)
    (Alloc := Quota.allocator) (Lay := Quota.layout) Quota.nested limits (mkByteLimit 64) 4 (Quota.mk 0 250) in
  Quota.balance s = 0 /\ r = Err (ObserverF tt).
Proof.
  pose proof (validation_balances_allocations (Lay := Quota.layout) (L := Quota.ledger) Quota.nested
    (effective_limits release_1_system_maximum) (mkByteLimit 64) 4 (Quota.mk 0 250) _ _ eq_refl) as H.
  vm_compute in H. vm_compute. exact (conj H eq_refl).
Defined.

Lemma validation_facts_are_exact_witness :
  exists s t, validate_attribute_value_observed_with_facts (Obs := Quota.observer)
    (Alloc := Quota.allocator) (Lay := Quota.layout) Quota.nested
    (effective_limits release_1_system_maximum) (mkByteLimit 64) 4 (Quota.mk 0 1000) = (s, Ok t)
  /\ validated_native (value t) = candidate_native Quota.nested
  /\ value_size_bytes t = 10 /\ allocation_bytes t = 264.
Proof.
  eexists _, _. split; [vm_compute; reflexivity|].
  split; [|vm_compute; done].
  eapply (validation_facts_are_exact (Obs := Quota.observer) (Alloc := Quota.allocator) (Lay := Quota.layout)
    Quota.nested (effective_limits release_1_system_maximum) (mkByteLimit 64) 4 (Quota.mk 0 1000)).
  - vm_compute. done.
  - vm_compute. intuition congruence.
  - vm_compute. reflexivity.
Defined.
