(* ===== verification/Shape.v ===== *)
(** Shape: the allocation-free shape check of candidates and the validation entry points
    (crates/positron-domain/src/value/candidate_shape.rs, candidates.rs and
    observed_validation.rs), and the agreement of the three recursive checks. *)

From S2P Require Import Prelude Outcome Limits Values Observe Traversal Validation.

(** [positron-domain/src/value/candidate_shape.rs:7-14 ValueLimitDimension] *)
Inductive ValueLimitDimension :=
| KeyPathBytes | IndividualValueBytes | NestingDepth | ArrayEntries | KeyValueListEntries.

(** [positron-domain/src/value/candidate_shape.rs:17-22 ValueLimitViolation] *)
Record ValueLimitViolation := mkValueLimitViolation {
  dimension : ValueLimitDimension;
  actual : Z;
  allowed : Z;
}.

(** [positron-domain/src/value/candidate_shape.rs:51-55 CandidateShapeFailure] *)
Inductive CandidateShapeFailure :=
| ShapeInvalid
| ShapeLimit (violation : ValueLimitViolation).

(** [positron-domain/src/value/candidate_shape.rs:148-161 limit_failure] A [usize] always fits
    a [u64], so the conversion cannot fail. *)
Definition limit_failure (d : ValueLimitDimension) (actual allowed : Z) : CandidateShapeFailure :=
  if actual <=? u64_max then ShapeLimit (mkValueLimitViolation d actual allowed) else ShapeInvalid.

(** [positron-domain/src/value/candidate_shape.rs:140-146 depth_limit_failure] *)
Definition depth_limit_failure (remaining_depth : Z) : CandidateShapeFailure :=
  limit_failure NestingDepth (remaining_depth + 1) remaining_depth.

(** The wrapped value of a truncation marker must be native and suit the action. *)
Definition truncation_shape_ok (value : CandidateAttributeValue) (a : MarkerAction)
  : result CandidateShapeFailure bool :=
  if is_marker_candidate value || is_truncated_candidate value then Ok false
  else
    kind ← ok_or ShapeInvalid (candidate_native_kind value);
    Ok (truncation_action_valid a kind).

(** [positron-domain/src/value/candidate_shape.rs:57-138 validate] *)
Fixpoint shape_validate (candidate : CandidateAttributeValue) (limits : ValueLimitSet)
    (value_bytes : ByteLimit) (remaining_depth : Z) : result CandidateShapeFailure Z :=
  size ← match candidate with
    | CNull => Ok 0
    | CBoolean _ => Ok 1
    | CSignedInteger _ | CFloatingPointBits _ => Ok 8
    | CString value | CBytes value => Ok (rs_len value)
    | CArray values =>
        child_depth ← ok_or (depth_limit_failure remaining_depth) (checked_sub remaining_depth 1);
        if exceeds_collection_limit (zlen values) (array_entries (dynamic_value limits))
        then Err (limit_failure ArrayEntries (zlen values)
                    (collection_limit (array_entries (dynamic_value limits))))
        else try_fold (fun total value =>
               child_size ← shape_validate value limits value_bytes child_depth;
               map_err (fun _ => ShapeInvalid) (checked_decoded_add total child_size)) 0 values
    | CKeyValueList entries =>
        child_depth ← ok_or (depth_limit_failure remaining_depth) (checked_sub remaining_depth 1);
        if exceeds_collection_limit (zlen entries) (key_value_list_entries (dynamic_value limits))
        then Err (limit_failure KeyValueListEntries (zlen entries)
                    (collection_limit (key_value_list_entries (dynamic_value limits))))
        else try_fold (fun total '(key, value) =>
               if bool_decide (text key = []) then Err ShapeInvalid
               else if exceeds_byte_limit (rs_len key) (key_path_bytes (dynamic_value limits))
               then Err (limit_failure KeyPathBytes (rs_len key)
                           (byte_limit (key_path_bytes (dynamic_value limits))))
               else
                 child_size ← shape_validate value limits value_bytes child_depth;
                 map_err (fun _ => ShapeInvalid) (checked_decoded_add total child_size)) 0 entries
    | CMarker marker => if marker_is_valid marker then Ok 0 else Err ShapeInvalid
    | CTruncated value a =>
        suits ← truncation_shape_ok value a;
        if (suits : bool) then shape_validate value limits value_bytes remaining_depth
        else Err ShapeInvalid
    end;
  if exceeds_byte_limit size value_bytes
  then Err (limit_failure IndividualValueBytes size (byte_limit value_bytes))
  else Ok size.

(** [positron-domain/src/value/candidates.rs:167-179 CandidateAttributeValue::validate_shape_detailed] *)
Definition validate_shape_detailed (c : CandidateAttributeValue) (profile : ValueLimitProfile)
  : result CandidateShapeFailure unit :=
  let limits := effective_limits profile in
  _ ← shape_validate c limits (individual_value_bytes (dynamic_value limits))
        (nesting_limit (nesting_depth (dynamic_value limits)));
  Ok tt.

(** [positron-domain/src/value/candidates.rs:157-160 CandidateAttributeValue::validate_shape] *)
Definition validate_shape (c : CandidateAttributeValue) (profile : ValueLimitProfile)
  : result DomainFailure unit :=
  map_err (fun _ => value_limit_exceeded) (validate_shape_detailed c profile).

(** ** The validation entry points *)

Section entry_points.
Context {S : Type} {Alloc : Allocator S} {Lay : Layout}.

(** [positron-domain/src/value/observed_validation.rs:7-21 validate_attribute_value] The allocator's
    state is threaded; the silent observer adds nothing to it. *)
Definition validate_attribute_value (c : CandidateAttributeValue) (limits : ValueLimitSet)
    (value_bytes : ByteLimit) (remaining_depth : Z) (s : S)
  : S * result DomainFailure ValidatedAttributeValue :=
  match validate_attribute_value_observed (Obs := UnobservedNativeValue S) c limits value_bytes remaining_depth s with
  | (s, r) => (s, remove_observation r)
  end.

(** [positron-domain/src/value/candidates.rs:297-308 CandidateAttributeValue::validate_attribute] *)
Definition validate_attribute (c : CandidateAttributeValue) (profile : ValueLimitProfile) :=
  let limits := effective_limits profile in
  validate_attribute_value c limits (individual_value_bytes (dynamic_value limits))
    (nesting_limit (nesting_depth (dynamic_value limits))).

(** [positron-domain/src/value/candidates.rs:311-322 CandidateAttributeValue::validate_log_body] *)
Definition validate_log_body (c : CandidateAttributeValue) (profile : ValueLimitProfile) :=
  let limits := effective_limits profile in
  validate_attribute_value c limits (log_body_bytes (record limits))
    (nesting_limit (nesting_depth (dynamic_value limits))).

Context {E : Type} {Obs : NativeValueObserver S E}.

(** [positron-domain/src/value/candidates.rs:335-348 CandidateAttributeValue::validate_log_body_observed_with_facts] *)
Definition validate_log_body_observed_with_facts (c : CandidateAttributeValue)
    (profile : ValueLimitProfile) : M S E ObservedValueTransfer :=
  let limits := effective_limits profile in
  validate_attribute_value_observed_with_facts c limits (log_body_bytes (record limits))
    (nesting_limit (nesting_depth (dynamic_value limits))).

(** [positron-domain/src/value/candidates.rs:325-332 CandidateAttributeValue::validate_log_body_observed] *)
Definition validate_log_body_observed (c : CandidateAttributeValue) (profile : ValueLimitProfile)
  : M S E ValidatedAttributeValue :=
  transfer ← validate_log_body_observed_with_facts c profile; mret (value transfer).

(** [positron-domain/src/value/candidates.rs:351-364 CandidateAttributeValue::validate_attribute_observed_with_facts] *)
Definition validate_attribute_observed_with_facts (c : CandidateAttributeValue)
    (profile : ValueLimitProfile) : M S E ObservedValueTransfer :=
  let limits := effective_limits profile in
  validate_attribute_value_observed_with_facts c limits (individual_value_bytes (dynamic_value limits))
    (nesting_limit (nesting_depth (dynamic_value limits))).
End entry_points.

(** ** Agreement of the three recursive checks *)

(** The markers of a candidate are well formed, whatever its limits. *)
Fixpoint markers_ok (c : CandidateAttributeValue) : bool :=
  match c with
  | CArray vs => forallb markers_ok vs
  | CKeyValueList es => forallb (fun '(_, v) => markers_ok v) es
  | CMarker m => marker_is_valid m
  | CTruncated v a =>
      match truncation_shape_ok v a with Ok true => markers_ok v | _ => false end
  | _ => true
  end.

Section agreement.
Context (limits : ValueLimitSet) (value_bytes : ByteLimit).

Lemma to_option_bind {F A B} (r : result F A) (k : A -> result F B) :
  to_option (r ≫= k) = (a ← to_option r; to_option (k a)).
Proof. by destruct r. Qed.

Lemma to_option_ok_or {F A} (e : F) (o : option A) : to_option (ok_or e o) = o.
Proof. by destruct o. Qed.

Lemma to_option_map_err {F G A} (f : F -> G) (r : result F A) : to_option (map_err f r) = to_option r.
Proof. by destruct r. Qed.

(** Two early-exit folds that agree element by element, one of them guarded. *)
Lemma guarded_fold {F G A B} (guard : A -> bool) (f : Z -> A -> result F Z) (g : Z -> B -> result G Z) l r acc :
  Forall2 (fun a b => forall n, to_option (f n a) = if guard a then to_option (g n b) else None) l r ->
  to_option (try_fold f acc l) = if forallb guard l then to_option (try_fold g acc r) else None.
Proof.
  intros H. revert acc. induction H as [|a b l r Hab _ IH]; intros acc; simpl; [done|].
  specialize (Hab acc). destruct (guard a); simpl.
  - destruct (f acc a), (g acc b); simpl in Hab; simplify_eq; [apply IH|simpl; by case_match].
  - destruct (f acc a); simpl in *; done.
Qed.

Lemma guarded_none {A} (b : bool) : (if b then @None A else None) = None.
Proof. by destruct b. Qed.

Lemma map_eq_Forall2 {A B C} (f : A -> C) (g : B -> C) l r :
  map f l = map g r -> Forall2 (fun a b => f a = g b) l r.
Proof.
  revert r. induction l as [|a l IH]; intros [|b r]; simpl; try done. intros [= ? ?]. constructor; auto.
Qed.

Lemma size_guard {F G} (o : option Z) (e : Z -> F) (e' : Z -> G) :
  (n ← o; to_option (if exceeds_byte_limit n value_bytes then Err (e n) else Ok n))
  = (n ← o; to_option (if exceeds_byte_limit n value_bytes then Err (e' n) else Ok n)).
Proof. destruct o; simpl; [|done]. by case_match. Qed.

Lemma shape_agrees c v depth : validated_native v = candidate_native c ->
  to_option (shape_validate c limits value_bytes depth)
  = if markers_ok c then to_option (validated_size_against v limits value_bytes depth) else None.
Proof.
  revert v depth. induction c as [|b|z|z|p|p|vs IH|es IH|m|c a IH] using candidate_ind';
    intros v depth Hv; destruct v as [| | | |q|q|ws cap|fs cap|m'|v a']; try discriminate Hv;
    cbn [validated_native candidate_native] in Hv; cbn [shape_validate validated_size_against markers_ok];
    rewrite ?to_option_bind.
  1-4: simpl; by case_match.
  1-2: injection Hv as Hv; unfold rs_len; rewrite Hv; simpl; by case_match.
  - injection Hv as Hv. unfold child_depth. rewrite ?to_option_bind, ?to_option_ok_or.
    replace (zlen ws) with (zlen vs)
      by (apply (f_equal length) in Hv; rewrite !length_map in Hv; unfold zlen; by rewrite Hv).
    destruct (checked_sub depth 1) as [d|]; cbn [mbind option_bind]; [|by rewrite guarded_none].
    destruct (exceeds_collection_limit _ _); cbn [to_option mbind option_bind]; [by rewrite guarded_none|].
    rewrite (guarded_fold markers_ok _ (fun total value =>
      size ← validated_size_against value limits value_bytes d; checked_decoded_add total size) vs ws).
    { destruct (forallb markers_ok vs); [apply size_guard|done]. }
    symmetry in Hv. apply map_eq_Forall2 in Hv. clear -IH Hv.
    induction Hv as [|c w vs ws Hcw _ IHv]; [constructor|]. apply Forall_cons in IH as [Hc IH].
    constructor; [|by apply IHv]. intros n. rewrite !to_option_bind, (Hc w) by done.
    destruct (markers_ok c); [|done]. destruct (to_option _); simpl; [by rewrite to_option_map_err|done].
  - injection Hv as Hv. unfold child_depth. rewrite ?to_option_bind, ?to_option_ok_or.
    replace (zlen fs) with (zlen es)
      by (apply (f_equal length) in Hv; rewrite !length_map in Hv; unfold zlen; by rewrite Hv).
    destruct (checked_sub depth 1) as [d|]; cbn [mbind option_bind]; [|by rewrite guarded_none].
    destruct (exceeds_collection_limit _ _); cbn [to_option mbind option_bind]; [by rewrite guarded_none|].
    erewrite (guarded_fold (fun '(_, v) => markers_ok v)).
    { destruct (forallb _ es); [apply size_guard|done]. }
    symmetry in Hv. apply map_eq_Forall2 in Hv. clear -IH Hv.
    induction Hv as [|[k c] [k' w] es fs Hcw _ IHv]; [constructor|]. apply Forall_cons in IH as [Hc IH].
    constructor; [|by apply IHv]. intros n. injection Hcw as Hk Hw. unfold rs_len. rewrite Hk.
    destruct (bool_decide (text k' = [])), (exceeds_byte_limit _ _); simpl; rewrite ?guarded_none; try done.
    rewrite !to_option_bind, (Hc w) by done. simpl.
    destruct (markers_ok c); [|done]. destruct (to_option _); simpl; [by rewrite to_option_map_err|done].
  - destruct (marker_is_valid m); [simpl; by case_match|done].
  - injection Hv as Hv _. rewrite ?to_option_bind.
    destruct (truncation_shape_ok c a) as [[]|]; cbn [to_option mbind option_bind]; try done.
    rewrite (IH v depth Hv). destruct (markers_ok c); [|done].
    destruct (to_option _); simpl; [by case_match|done].
Qed.
End agreement.

(** Validation accepts no candidate with a malformed marker. *)
Section validated_markers.
Context {S E : Type} {Obs : NativeValueObserver S E} {Alloc : Allocator S} {Lay : Layout}.
Context (limits : ValueLimitSet) (value_bytes : ByteLimit).

Lemma array_loop_all (validate : CandidateAttributeValue -> Z -> M S E ObservedValueTransfer) (P : CandidateAttributeValue -> Prop) depth vs acc tot s s' tot' ws :
  Forall (fun c => returns (validate c depth) (fun _ => P c)) vs ->
  array_loop validate value_bytes depth vs acc tot s = (s', (tot', Ok ws)) -> Forall P vs.
Proof.
  intros Hvs. revert acc tot s. induction Hvs as [|c vs Hc _ IH]; intros acc tot s; simpl; [by constructor|].
  destruct (validate c depth s) as [s1 [t|e]] eqn:Hv; [|done]. apply Hc in Hv.
  destruct (account_element value_bytes None t tot s1) as [s2 [tot2 [[]|e]]]; [|done].
  intros H%IH. by constructor.
Qed.

Lemma entries_loop_all (validate : CandidateAttributeValue -> Z -> M S E ObservedValueTransfer) (P : CandidateAttributeValue -> Prop) depth es acc tot s s' tot' ws :
  Forall (fun e : CandidateKeyValue => returns (validate e.2 depth) (fun _ => P e.2)) es ->
  entries_loop validate limits value_bytes depth es acc tot s = (s', (tot', Ok ws)) ->
  Forall (fun e => P e.2) es.
Proof.
  intros Hes. revert acc tot s. induction Hes as [|[k c] es Hc _ IH]; intros acc tot s; simpl; [by constructor|].
  destruct ((_ ← observe_structure; observe_payload (text k)) s) as [s0 [[]|e]]; [|done].
  case_match; [done|]. simpl in Hc.
  destruct (validate c depth s0) as [s1 [t|e]] eqn:Hv; [|done]. apply Hc in Hv.
  destruct (account_element value_bytes _ t tot s1) as [s2 [tot2 [[]|e]]]; [|done].
  intros H1%IH. by constructor.
Qed.

Lemma validation_checks_markers c depth :
  returns (E := E) (validate_attribute_value_observed_with_facts c limits value_bytes depth)
    (fun _ => markers_ok c = true).
Proof.
  revert depth. induction c as [|b|z|z|p|p|vs IH|es IH|m|c a IH] using candidate_ind';
    intros depth; simpl; apply returns_seq; try done.
  - eapply (returns_bind _ _ (fun _ => forallb markers_ok vs = true)); [|intros [[??]?] H; by apply returns_ret].
    unfold validate_attribute_array_observed. repeat case_match; try done.
    apply collection_returns. intros cap b s s' tot ws _ _ H1.
    apply array_loop_all with (P := fun c => markers_ok c = true) in H1.
    + apply forallb_forall. by apply List.Forall_forall.
    + eapply Forall_impl; [exact IH|]. simpl. auto.
  - eapply (returns_bind _ _ (fun _ => forallb (fun '(_, v) => markers_ok v) es = true));
      [|intros [[??]?] H; by apply returns_ret].
    unfold validate_key_value_list_observed. repeat case_match; try done.
    apply collection_returns. intros cap b s s' tot ws _ _ H1.
    apply entries_loop_all with (P := fun c => markers_ok c = true) in H1.
    + apply forallb_forall. intros [k c] Hin. rewrite List.Forall_forall in H1. by apply (H1 (k, c)).
    + eapply Forall_impl; [exact IH|]. simpl. auto.
  - destruct (marker_is_valid m); done.
  - unfold truncation_shape_ok. destruct (candidate_native_kind c) as [k|]; [|done].
    destruct (truncation_action_valid a k) eqn:Hta; [|done].
    destruct (is_marker_candidate c), (is_truncated_candidate c); try done. simpl.
    eapply returns_bind; [apply IH|]. intros t Ht s s' t' _. simpl. by rewrite Hta.
Qed.
End validated_markers.

(** ** Completeness *)

Section completeness.
Context {Lay : Layout} (limits : ValueLimitSet) (value_bytes : ByteLimit).

(** The heap bytes a validated form needs when every vector is exact. *)
Fixpoint heap_demand (c : CandidateAttributeValue) : Z :=
  match c with
  | CString s | CBytes s => capacity s
  | CArray vs => ARRAY_VALUE_SLOT_BYTES * zlen vs + foldr (fun v acc => heap_demand v + acc) 0 vs
  | CKeyValueList es =>
      KEY_VALUE_ENTRY_SLOT_BYTES * zlen es
      + foldr (fun '(k, v) acc => capacity k + heap_demand v + acc) 0 es
  | CTruncated v _ => heap_demand v + size_of_ValidatedAttributeValue
  | _ => 0
  end.

Abbreviation silent_validate := (validate_attribute_value_observed_with_facts
  (S := unit) (E := Empty_set) (Obs := UnobservedNativeValue unit) (Alloc := ExactAllocator)).

(** A validated transfer of size [n] whose heap stays within the demand. *)
Definition accepted (c : CandidateAttributeValue) (n : Z) (o : unit * result (ObservedValueFailure Empty_set) ObservedValueTransfer) : Prop :=
  exists t, o = (tt, Ok t) /\ value_size_bytes t = n /\ 0 <= n
    /\ 0 <= retained_heap_bytes t <= heap_demand c /\ 0 <= allocation_bytes t <= heap_demand c.

Lemma silent_chunks cs : observe_chunks (Obs := UnobservedNativeValue unit) cs tt = (tt, Ok tt).
Proof. by induction cs. Qed.

Lemma silent_reserve count slot : 0 <= count -> 0 < slot -> 2 * (slot * count) <= usize_max ->
  reserve_validated_capacity (Obs := UnobservedNativeValue unit) (Alloc := ExactAllocator) count slot tt
  = (tt, Ok (count, count * slot)).
Proof.
  intros Hc Hs Hfit. unfold reserve_validated_capacity, reserve_output_capacity.
  destruct (Z.eqb_spec count 0) as [->|Hne].
  { unfold mbind, M_bind, mret, M_ret, reconcile_output_capacity, checked_capacity_bytes. simpl. done. }
  assert (Hp : 2 ^ Z.log2_up count < 2 * count).
  { destruct (Z.eq_dec count 1) as [->|]; [done|]. pose proof (Z.log2_up_spec count ltac:(lia)) as [Hl _].
    replace (Z.log2_up count) with (Z.succ (Z.pred (Z.log2_up count))) by lia.
    rewrite Z.pow_succ_r by (pose proof (Z.log2_up_pos count ltac:(lia)); lia). lia. }
  assert (Hq : count <= 2 ^ Z.log2_up count).
  { destruct (Z.eq_dec count 1) as [->|]; [done|]. by apply Z.log2_up_spec; lia. }
  unfold checked_next_power_of_two. rewrite (proj2 (Z.leb_le _ _)) by nia.
  assert (Hm : checked_mul usize_max (2 ^ Z.log2_up count) slot = Some (2 ^ Z.log2_up count * slot))
    by (apply checked_mul_Some; split; [done|nia]).
  assert (Hm' : checked_mul usize_max count slot = Some (count * slot))
    by (apply checked_mul_Some; split; [done|nia]).
  unfold mbind, M_bind, lift, observe_allocation. simpl. rewrite Hm. simpl.
  unfold reconcile_output_capacity, checked_capacity_bytes. rewrite Hm'. simpl.
  rewrite (proj2 (Z.ltb_ge _ _)) by nia. unfold mbind, M_bind. by destruct (0 <? _).
Qed.

(** Accounting of one accepted element under the silent observer. *)
Lemma silent_account key t tot : 
  checked_decoded_add (t_size tot) (value_size_bytes t) = Ok (t_size tot + value_size_bytes t) ->
  t_size tot + value_size_bytes t <= byte_limit value_bytes ->
  0 <= t_retained tot -> 0 <= default 0 key ->
  0 <= retained_heap_bytes t ->
  t_retained tot + (default 0 key + retained_heap_bytes t) <= usize_max ->
  t_allocation tot + allocation_bytes t <= usize_max ->
  account_element (Obs := UnobservedNativeValue unit) value_bytes key t tot tt
  = (tt, (mkTotals (t_size tot + value_size_bytes t)
            (t_retained tot + (default 0 key + retained_heap_bytes t))
            (t_allocation tot + allocation_bytes t), Ok tt)).
Proof.
  intros Hs Hb H0 Hk Hr Hret Hal. unfold account_element, checked_size_add.
  apply ok_or_Ok in Hs. rewrite (checked_add_ok _ _ _ Hal). simpl.
  rewrite Hs. simpl. rewrite within_limit by done.
  destruct key as [k|]; simpl in *.
  - rewrite (checked_add_ok _ k) by lia. simpl. by rewrite (checked_add_ok _ _ _ Hret).
  - rewrite Z.add_0_l in *. by rewrite (checked_add_ok _ _ _ Hret).
Qed.

Definition shape_step (depth : Z) (total : Z) (c : CandidateAttributeValue) : result CandidateShapeFailure Z :=
  child_size ← shape_validate c limits value_bytes depth;
  map_err (fun _ => ShapeInvalid) (checked_decoded_add total child_size).

Lemma shape_step_inv depth total c n : shape_step depth total c = Ok n ->
  exists m, shape_validate c limits value_bytes depth = Ok m /\ n = total + m
    /\ checked_decoded_add total m = Ok n.
Proof.
  unfold shape_step, checked_decoded_add. destruct (shape_validate c limits value_bytes depth) as [m|]; [|done].
  simpl. destruct (checked_add usize_max total m) as [x|] eqn:Hx; [|done]. intros [= <-].
  pose proof (proj1 (checked_add_Some _ _ _ _) Hx) as [-> _].
  exists m. by rewrite Hx.
Qed.

Lemma shape_nonneg c : forall depth m, shape_validate c limits value_bytes depth = Ok m -> 0 <= m.
Proof.
  induction c as [|b|z|z|p|p|vs IH|es IH|k|c a IH] using candidate_ind'; intros depth m; simpl;
    unfold mbind, result_bind; try (case_match; intros; simplify_eq; try apply zlen_nonneg; lia).
  - destruct (ok_or _ _) as [d|]; [|done]. destruct (exceeds_collection_limit _ _); [done|].
    destruct (try_fold _ 0 vs) as [x|] eqn:Hf; [|done].
    assert (0 <= x); [|case_match; intros; by simplify_eq].
    revert Hf. apply try_fold_ind; [|lia]. intros n v n' Hin Hn.
    rewrite Forall_forall in IH. destruct (shape_validate v limits value_bytes d) as [y|] eqn:Hy; [|done].
    apply IH in Hy; [|done]. unfold checked_decoded_add. destruct (checked_add usize_max n y) eqn:Hc; [|done].
    intros [= <-]. inv_checked. lia.
  - destruct (ok_or _ _) as [d|]; [|done]. destruct (exceeds_collection_limit _ _); [done|].
    destruct (try_fold _ 0 es) as [x|] eqn:Hf; [|done].
    assert (0 <= x); [|case_match; intros; by simplify_eq].
    revert Hf. apply try_fold_ind; [|lia]. intros n [k v] n' Hin Hn.
    case_match; [done|]. case_match; [done|].
    rewrite Forall_forall in IH. destruct (shape_validate v limits value_bytes d) as [y|] eqn:Hy; [|done].
    apply (IH _ Hin) in Hy. unfold checked_decoded_add. destruct (checked_add usize_max n y) eqn:Hc; [|done].
    intros [= <-]. inv_checked. lia.
  - repeat case_match; intros; simplify_eq; lia.
  - destruct (truncation_shape_ok c a) as [[]|]; try done.
    destruct (shape_validate c limits value_bytes depth) as [y|] eqn:Hy; [|done]. apply IH in Hy.
    case_match; intros; by simplify_eq.
Qed.

Lemma shape_fold_mono depth vs acc n : try_fold (shape_step depth) acc vs = Ok n -> acc <= n.
Proof.
  apply (try_fold_ind _ (fun x => acc <= x)); [|lia].
  intros b c b' _ Hb (m & Hm%shape_nonneg & -> & _)%shape_step_inv. lia.
Qed.

Lemma complete_array_loop depth vs : forall acc tot n,
  Forall (fun c => forall m, candidate_capacities_ok c -> 2 * heap_demand c <= usize_max ->
    shape_validate c limits value_bytes depth = Ok m -> accepted c m (silent_validate c limits value_bytes depth tt)) vs ->
  Forall candidate_capacities_ok vs -> Forall (fun c => 0 <= heap_demand c) vs ->
  let demand := foldr (fun v acc => heap_demand v + acc) 0 vs in
  0 <= t_retained tot -> 0 <= t_allocation tot ->
  2 * (t_retained tot + demand) <= usize_max -> 2 * (t_allocation tot + demand) <= usize_max ->
  try_fold (shape_step depth) (t_size tot) vs = Ok n -> n <= byte_limit value_bytes ->
  exists ws tot', array_loop (Obs := UnobservedNativeValue unit) (fun c d => silent_validate c limits value_bytes d)
      value_bytes depth vs acc tot tt = (tt, (tot', Ok ws))
    /\ t_size tot' = n /\ t_size tot <= n
    /\ t_retained tot <= t_retained tot' <= t_retained tot + demand
    /\ t_allocation tot <= t_allocation tot' <= t_allocation tot + demand.
Proof.
  induction vs as [|c vs IHv]; intros acc tot n IH Hok Hnn demand Hr Ha Hfr Hfa; subst demand; simpl in *.
  { intros [= <-] _. eexists _, _. split; [done|]. lia. }
  apply Forall_cons in IH as [Hc IH]. apply Forall_cons in Hok as [Hcok Hok]. apply Forall_cons in Hnn as [Hcn Hnn].
  assert (Hd : 0 <= foldr (fun v acc => heap_demand v + acc) 0 vs)
    by (clear -Hnn; induction Hnn; simpl; lia).
  destruct (shape_step depth (t_size tot) c) as [x|] eqn:Hx; [|done].
  apply shape_step_inv in Hx as (m & Hm & -> & Hadd). intros Hfold Hn.
  destruct (Hc m Hcok ltac:(lia) Hm) as (t & Heq & Hsz & Hm0 & Hrt & Hat). rewrite Heq.
  pose proof (shape_fold_mono _ _ _ _ Hfold) as Hle.
  subst m. rewrite (silent_account None); simpl; try done; try lia.
  edestruct (IHv (acc ++ [value t]) (mkTotals (t_size tot + value_size_bytes t)
    (t_retained tot + (0 + retained_heap_bytes t)) (t_allocation tot + allocation_bytes t)) n)
    as (ws & tot' & Hloop & Hn' & H1 & H2 & H3); simpl in *; try done; try lia.
  rewrite Hloop. eexists _, _. split; [done|]. lia.
Qed.

Definition entry_shape_step (depth : Z) (total : Z) (e : RString * CandidateAttributeValue)
  : result CandidateShapeFailure Z :=
  let '(key, value) := e in
  if bool_decide (text key = []) then Err ShapeInvalid
  else if exceeds_byte_limit (rs_len key) (key_path_bytes (dynamic_value limits))
  then Err (limit_failure KeyPathBytes (rs_len key) (byte_limit (key_path_bytes (dynamic_value limits))))
  else shape_step depth total value.

Lemma entry_step_inv depth total k c n : entry_shape_step depth total (k, c) = Ok n ->
  bool_decide (text k = []) || exceeds_byte_limit (rs_len k) (key_path_bytes (dynamic_value limits)) = false
  /\ shape_step depth total c = Ok n.
Proof. unfold entry_shape_step. repeat (case_match; [done|]). done. Qed.

Lemma entry_fold_mono depth es acc n : try_fold (entry_shape_step depth) acc es = Ok n -> acc <= n.
Proof.
  apply (try_fold_ind _ (fun x => acc <= x)); [|lia].
  intros b [k c] b' _ Hb [_ (m & Hm%shape_nonneg & -> & _)%shape_step_inv]%entry_step_inv. lia.
Qed.

Lemma complete_entries_loop depth es : forall acc tot n,
  Forall (fun e : RString * CandidateAttributeValue => forall m, candidate_capacities_ok e.2 -> 2 * heap_demand e.2 <= usize_max ->
    shape_validate e.2 limits value_bytes depth = Ok m -> accepted e.2 m (silent_validate e.2 limits value_bytes depth tt)) es ->
  Forall (fun '(k, c) => rs_len k <= capacity k /\ candidate_capacities_ok c) es ->
  Forall (fun '(_, c) => 0 <= heap_demand c) es ->
  let demand := foldr (fun '(k, v) acc => capacity k + heap_demand v + acc) 0 es in
  0 <= t_retained tot -> 0 <= t_allocation tot ->
  2 * (t_retained tot + demand) <= usize_max -> 2 * (t_allocation tot + demand) <= usize_max ->
  try_fold (entry_shape_step depth) (t_size tot) es = Ok n -> n <= byte_limit value_bytes ->
  exists ws tot', entries_loop (Obs := UnobservedNativeValue unit) (fun c d => silent_validate c limits value_bytes d)
      limits value_bytes depth es acc tot tt = (tt, (tot', Ok ws))
    /\ t_size tot' = n /\ t_size tot <= n
    /\ t_retained tot <= t_retained tot' <= t_retained tot + demand
    /\ t_allocation tot <= t_allocation tot' <= t_allocation tot + demand.
Proof.
  induction es as [|[k c] es IHv]; intros acc tot n IH Hok Hnn demand Hr Ha Hfr Hfa; subst demand; cbn [foldr] in *.
  { intros [= <-] _. eexists _, _. split; [done|]. lia. }
  apply Forall_cons in IH as [Hc IH]. apply Forall_cons in Hok as [[Hk Hcok] Hok]. apply Forall_cons in Hnn as [Hcn Hnn].
  simpl in Hc, Hcok, Hcn. pose proof (zlen_nonneg (text k)) as Hk0. unfold rs_len in Hk.
  assert (Hd : 0 <= foldr (fun '(k, v) acc => capacity k + heap_demand v + acc) 0 es).
  { clear -Hnn Hok. induction Hnn as [|[k c] es Hc _ IH]; [done|]. apply Forall_cons in Hok as [[Hk _] Hok].
    pose proof (zlen_nonneg (text k)). unfold rs_len in Hk. simpl in *. specialize (IH Hok). lia. }
  cbn [try_fold]. destruct (entry_shape_step depth (t_size tot) (k, c)) as [x|] eqn:Hx; [|done].
  apply entry_step_inv in Hx as [Hkey (m & Hm & -> & Hadd)%shape_step_inv]. intros Hfold Hn.
  destruct (Hc m Hcok ltac:(lia) Hm) as (t & Heq & Hsz & Hm0 & Hrt & Hat).
  pose proof (entry_fold_mono _ _ _ _ Hfold) as Hle. subst m.
  cbn [entries_loop]. unfold mbind, M_bind, observe_structure, observe_payload. simpl.
  rewrite silent_chunks, Hkey, Heq.
  rewrite (silent_account (Some (capacity k))); simpl; try done; try lia.
  edestruct (IHv (acc ++ [(k, value t)]) (mkTotals (t_size tot + value_size_bytes t)
    (t_retained tot + (capacity k + retained_heap_bytes t)) (t_allocation tot + allocation_bytes t)) n)
    as (ws & tot' & Hloop & Hn' & H1 & H2 & H3); simpl in *; try done; try lia.
  rewrite Hloop. eexists _, _. split; [done|]. lia.
Qed.

Lemma heap_demand_nonneg c : candidate_capacities_ok c -> 0 <= heap_demand c.
Proof.
  pose proof size_of_positive.
  induction c as [|b|z|z|p|p|vs IH|es IH|k|c a IH] using candidate_ind'; cbn [candidate_capacities_ok heap_demand];
    try done; try (pose proof (zlen_nonneg (text p)); unfold rs_len; lia).
  - pose proof (zlen_nonneg vs). intros Hok%all_of_Forall.
    assert (0 <= foldr (fun v acc => heap_demand v + acc) 0 vs); [|unfold ARRAY_VALUE_SLOT_BYTES; lia].
    clear -IH Hok. induction IH as [|v vs Hv _ IH]; [done|]. apply Forall_cons in Hok as [? ?]. simpl.
    specialize (Hv ltac:(done)). specialize (IH ltac:(done)). lia.
  - pose proof (zlen_nonneg es). intros Hok%all_of_Forall.
    assert (0 <= foldr (fun '(k, v) acc => capacity k + heap_demand v + acc) 0 es);
      [|unfold KEY_VALUE_ENTRY_SLOT_BYTES; lia].
    clear -IH Hok. induction IH as [|[k v] vs Hv _ IH]; [done|]. apply Forall_cons in Hok as [[Hk ?] ?]. simpl in *.
    specialize (Hv ltac:(done)). specialize (IH ltac:(done)). pose proof (zlen_nonneg (text k)). unfold rs_len in Hk. lia.
  - intros Hok. specialize (IH Hok). lia.
Qed.

(** The size check at the end of the shape check. *)
Lemma shape_tail (r : result CandidateShapeFailure Z) n :
  (size ← r; if exceeds_byte_limit size value_bytes
             then Err (limit_failure IndividualValueBytes size (byte_limit value_bytes)) else Ok size) = Ok n ->
  r = Ok n /\ n <= byte_limit value_bytes.
Proof.
  destruct r as [x|]; simpl; [|done]. unfold exceeds_byte_limit. case_match; [done|]. intros [= <-].
  bool_to_prop. by split.
Qed.

Lemma complete_payload build p n : rs_len p <= capacity p -> rs_len p = n -> n <= byte_limit value_bytes ->
  exists t, validate_payload (Obs := UnobservedNativeValue unit) build p value_bytes tt = (tt, Ok t)
    /\ value_size_bytes t = n /\ 0 <= n /\ 0 <= retained_heap_bytes t <= capacity p
    /\ 0 <= allocation_bytes t <= capacity p.
Proof.
  intros Hc <- Hn. pose proof (zlen_nonneg (text p)). unfold validate_payload, mbind, M_bind, observe_payload.
  rewrite silent_chunks, within_limit by done. eexists. split; [done|]. simpl. unfold rs_len in *. lia.
Qed.

Lemma complete_array vs depth n :
  Forall (fun c => forall d m, candidate_capacities_ok c -> 2 * heap_demand c <= usize_max ->
    shape_validate c limits value_bytes d = Ok m -> accepted c m (silent_validate c limits value_bytes d tt)) vs ->
  Forall candidate_capacities_ok vs -> 2 * heap_demand (CArray vs) <= usize_max ->
  shape_validate (CArray vs) limits value_bytes depth = Ok n ->
  accepted (CArray vs) n (silent_validate (CArray vs) limits value_bytes depth tt).
Proof.
  intros IH Hok Hfit [Hs Hn]%shape_tail. cbn [heap_demand] in Hfit. unfold ARRAY_VALUE_SLOT_BYTES in Hfit.
  assert (Hnn : Forall (fun c => 0 <= heap_demand c) vs)
    by (eapply Forall_impl; [exact Hok|]; exact heap_demand_nonneg).
  assert (Hd : 0 <= foldr (fun v acc => heap_demand v + acc) 0 vs) by (clear -Hnn; induction Hnn; simpl; lia).
  cbn [validate_attribute_value_observed_with_facts]. unfold validate_attribute_array_observed.
  destruct (checked_sub depth 1) as [d|]; [|done]. cbn [ok_or mbind result_bind] in Hs.
  destruct (exceeds_collection_limit _ _); [done|]. pose proof (zlen_nonneg vs) as Hz.
  unfold mbind, M_bind, observe_structure. simpl. unfold ARRAY_VALUE_SLOT_BYTES.
  rewrite silent_reserve by lia. unfold lift, checked_capacity_bytes.
  rewrite checked_mul_ok by lia. simpl.
  destruct (complete_array_loop d vs [] (mkTotals 0 (zlen vs * 64) (zlen vs * 64)) n)
    as (ws & tot & Hloop & H1 & H2 & H3 & H4); cbn [t_size t_retained t_allocation] in *; try done; try lia.
  { eapply Forall_impl; [exact IH|]. intros c Hc m. apply Hc. }
  rewrite Hloop. simpl. eexists. split; [done|]. simpl. unfold ARRAY_VALUE_SLOT_BYTES. lia.
Qed.

Lemma complete_entries es depth n :
  Forall (fun e : RString * CandidateAttributeValue => forall d m, candidate_capacities_ok e.2 -> 2 * heap_demand e.2 <= usize_max ->
    shape_validate e.2 limits value_bytes d = Ok m -> accepted e.2 m (silent_validate e.2 limits value_bytes d tt)) es ->
  Forall (fun '(k, c) => rs_len k <= capacity k /\ candidate_capacities_ok c) es ->
  2 * heap_demand (CKeyValueList es) <= usize_max ->
  shape_validate (CKeyValueList es) limits value_bytes depth = Ok n ->
  accepted (CKeyValueList es) n (silent_validate (CKeyValueList es) limits value_bytes depth tt).
Proof.
  intros IH Hok Hfit [Hs Hn]%shape_tail. cbn [heap_demand] in Hfit. unfold KEY_VALUE_ENTRY_SLOT_BYTES in Hfit.
  assert (Hnn : Forall (fun '(_, c) => 0 <= heap_demand c) es)
    by (eapply Forall_impl; [exact Hok|]; intros [k c] [_ Hc]; by apply heap_demand_nonneg).
  assert (Hd : 0 <= foldr (fun '(k, v) acc => capacity k + heap_demand v + acc) 0 es).
  { clear -Hnn Hok. induction Hnn as [|[k c] es Hc _ IH]; [done|]. apply Forall_cons in Hok as [[Hk _] Hok].
    pose proof (zlen_nonneg (text k)). unfold rs_len in Hk. simpl in *. specialize (IH Hok). lia. }
  cbn [validate_attribute_value_observed_with_facts]. unfold validate_key_value_list_observed.
  destruct (checked_sub depth 1) as [d|]; [|done]. cbn [ok_or mbind result_bind] in Hs.
  unfold CandidateKeyValue in *.
  destruct (exceeds_collection_limit _ _); [done|]. pose proof (zlen_nonneg es) as Hz.
  unfold mbind, M_bind, observe_structure. simpl. unfold KEY_VALUE_ENTRY_SLOT_BYTES.
  rewrite silent_reserve by lia. unfold lift, checked_capacity_bytes.
  rewrite checked_mul_ok by lia. simpl.
  destruct (complete_entries_loop d es [] (mkTotals 0 (zlen es * 96) (zlen es * 96)) n)
    as (ws & tot & Hloop & H1 & H2 & H3 & H4); cbn [t_size t_retained t_allocation] in *; try done; try lia.
  { eapply Forall_impl; [exact IH|]. intros [k c] Hc m. apply Hc. }
  unfold CandidateKeyValue in Hloop. rewrite Hloop. simpl. eexists. split; [done|]. simpl.
  unfold KEY_VALUE_ENTRY_SLOT_BYTES. lia.
Qed.

Lemma validation_complete c : forall depth n, candidate_capacities_ok c -> 2 * heap_demand c <= usize_max ->
  shape_validate c limits value_bytes depth = Ok n ->
  accepted c n (silent_validate c limits value_bytes depth tt).
Proof.
  induction c as [|b|z|z|p|p|vs IH|es IH|k|c a IH] using candidate_ind'; intros depth n Hok Hfit H.
  1-4: cbn [shape_validate] in H; apply shape_tail in H as [[= <-] _]; eexists; (split; [done|]); simpl; lia.
  1-2: cbn [shape_validate] in H; apply shape_tail in H as [[= Hp] Hn]; by apply complete_payload.
  - apply complete_array; try done. by apply all_of_Forall.
  - apply complete_entries; try done. by apply all_of_Forall.
  - cbn [shape_validate] in H. apply shape_tail in H as [H _]. simpl in *. unfold mbind, M_bind. simpl.
    destruct (marker_is_valid k); [|done]. injection H as <-. eexists. split; [done|]. simpl. lia.
  - cbn [shape_validate] in H. apply shape_tail in H as [H _]. simpl in *. pose proof size_of_positive.
    pose proof (heap_demand_nonneg c Hok) as Hd.
    unfold mbind, result_bind, truncation_shape_ok, ok_or in H. unfold mbind, M_bind. simpl.
    destruct (is_marker_candidate c), (is_truncated_candidate c); try done. simpl in H.
    destruct (candidate_native_kind c) as [kd|]; [|done]. simpl in H.
    destruct (truncation_action_valid a kd); [|done]. simpl.
    destruct (IH depth n Hok ltac:(lia) H) as (t & Heq & Hsz & Hn0 & Hr & Ha). rewrite Heq.
    unfold wrap_truncated. simpl.
    rewrite !checked_add_ok by lia.
    eexists. split; [done|]. simpl. lia.
Qed.
End completeness.

(** An accepted scalar at the top has the size of its type, whatever the ceiling. *)
Lemma scalar_shape {S E} {Obs : NativeValueObserver S E} {Alloc : Allocator S} {Lay : Layout} c limits value_bytes depth s s' t :
  is_scalar c = true -> validate_attribute_value_observed_with_facts c limits value_bytes depth s = (s', Ok t) ->
  shape_validate c limits value_bytes depth
  = (if exceeds_byte_limit (value_size_bytes t) value_bytes
     then Err (limit_failure IndividualValueBytes (value_size_bytes t) (byte_limit value_bytes)) else Ok (value_size_bytes t)).
Proof.
  destruct c; try done; intros _; cbn [validate_attribute_value_observed_with_facts]; unfold mbind, M_bind;
    destruct (observe_structure s) as [s1 [[]|e]]; try done; by intros [= _ <-].
Qed.

(** C29 (equivalence). The allocation-free shape check and the consuming validation agree, for every
    ceiling on the size of one value: whatever the observer and the allocator do, a candidate that
    validation accepts passes the shape check at the size it reports when that size is within the
    ceiling, and is refused by it with that size and the ceiling otherwise, which happens only for a
    boolean, an integer or a floating-point number at the top, never from a ceiling of eight
    bytes on; and a candidate that passes the shape check is accepted at that size when nothing
    stops the observer and the allocator gives exact vectors, provided twice its heap demand fits
    the address space. *)
Theorem shape_check_agrees_with_validation {Lay : Layout} candidate limits value_bytes depth :
  0 <= byte_limit value_bytes -> candidate_capacities_ok candidate ->
  (forall S E (Obs : NativeValueObserver S E) (Alloc : Allocator S) s s' t,
     validate_attribute_value_observed_with_facts candidate limits value_bytes depth s = (s', Ok t) ->
     shape_validate candidate limits value_bytes depth
     = (if exceeds_byte_limit (value_size_bytes t) value_bytes
        then Err (limit_failure IndividualValueBytes (value_size_bytes t) (byte_limit value_bytes)) else Ok (value_size_bytes t))
     /\ (value_size_bytes t <= byte_limit value_bytes \/ is_scalar candidate = true /\ value_size_bytes t <= 8))
  /\ (forall n, 2 * heap_demand candidate <= usize_max ->
     shape_validate candidate limits value_bytes depth = Ok n ->
     exists t, validate_attribute_value_observed_with_facts (Obs := UnobservedNativeValue unit)
       (Alloc := ExactAllocator) candidate limits value_bytes depth tt = (tt, Ok t) /\ value_size_bytes t = n).
Proof.
  intros Hvb Hok. split.
  - intros S E Obs Alloc s s' t H.
    pose proof (validation_checks_markers _ _ _ _ _ _ _ H) as Hm.
    destruct (validation_facts _ _ Hvb _ _ Hok _ _ _ H) as [Hn Hsz _ _ _ Hfits]. split; [|done].
    destruct Hfits as [Hle|[Hsc _]]; [|by eapply scalar_shape].
    pose proof (shape_agrees limits value_bytes _ _ depth Hn) as Ha. rewrite Hm, Hsz, (verdict_within _ _ Hle) in Ha.
    rewrite (within_limit _ _ Hle). by destruct (shape_validate candidate limits value_bytes depth); simplify_eq/=.
  - intros n Hfit Hs. destruct (validation_complete _ _ _ _ _ Hok Hfit Hs) as (t & Ht & Hz & _). eauto.
Qed.

Lemma shape_check_agrees_with_validation_witness :
  shape_validate Quota.nested (effective_limits release_1_system_maximum) (mkByteLimit 64) 4 = Ok 10
  /\ exists t, validate_attribute_value_observed_with_facts (Obs := UnobservedNativeValue unit)
    (Alloc := ExactAllocator) (Lay := Quota.layout) Quota.nested
    (effective_limits release_1_system_maximum) (mkByteLimit 64) 4 tt = (tt, Ok t) /\ value_size_bytes t = 10.
Proof.
  split; [vm_compute; reflexivity|].
  apply (proj2 (shape_check_agrees_with_validation (Lay := Quota.layout) Quota.nested
    (effective_limits release_1_system_maximum) (mkByteLimit 64) 4
    ltac:(vm_compute; discriminate) ltac:(vm_compute; intuition congruence))).
  - vm_compute. discriminate.
  - vm_compute. reflexivity.
Defined.

(** ** A narrower ceiling than eight bytes *)

(** Also (error). The checks part below a ceiling of eight bytes: the consuming validation of a scalar
    does not look at the byte ceiling, while the shape check and revalidation reject it. *)
Theorem scalar_ceiling_is_unchecked_by_validation :
  let limits := effective_limits release_1_system_maximum in
  is_ok (validate_attribute_value_observed (Obs := UnobservedNativeValue unit) (Alloc := ExactAllocator)
    (Lay := Quota.layout) (CSignedInteger 5) limits (mkByteLimit 4) 4 tt).2 = true
  /\ shape_validate (CSignedInteger 5) limits (mkByteLimit 4) 4
     = Err (ShapeLimit (mkValueLimitViolation IndividualValueBytes 8 4))
  /\ validate_against (VSignedInteger 5) limits (mkByteLimit 4) 4 = Err value_limit_exceeded.
Proof. vm_compute. done. Qed.
