(* ===== verification/CanonicalEncoding.v ===== *)
(** CanonicalEncoding: the self-delimiting logical encoding used for output and digests
    (crates/positron-domain/src/value/observed_encoding.rs and validated_encoding.rs).

    A visitor is the list of fragments it has been given; an encoding pass runs in the
    observer's state paired with that list. *)

From S2P Require Import Prelude Outcome Limits Values Observe Traversal.

(** ** Tags and sizes *)

(** [positron-domain/src/value/observed_encoding.rs:128-135 marker_action_tag] *)
Definition marker_action_tag (a : MarkerAction) : Z :=
  match a with Removed => 0 | Redacted => 1 | TruncatedBytes => 2 | TruncatedElements => 3 end.

(** [positron-domain/src/value/observed_encoding.rs:137-154 native_kind_tag] *)
Definition native_kind_tag (k : AttributeValueKind) : result DomainFailure Z :=
  match k with
  | KNull => Ok 0 | KBoolean => Ok 1 | KSignedInteger => Ok 2 | KFloatingPoint => Ok 3
  | KString => Ok 4 | KBytes => Ok 5 | KArray => Ok 6 | KKeyValueList => Ok 7
  | KMarker => Err value_limit_exceeded
  end.

(** [positron-domain/src/value/observed_encoding.rs:233-236 canonical_prefix_size] A [usize] length
    always fits a [u64]. *)
Definition canonical_prefix_size (length : Z) : result DomainFailure Z :=
  if length <=? u64_max then Ok 9 else Err value_limit_exceeded.

(** [positron-domain/src/value/observed_encoding.rs:229-231 canonical_sequence_size] *)
Definition canonical_sequence_size (payload : Z) : result DomainFailure Z :=
  prefix ← canonical_prefix_size payload;
  checked_size_add prefix payload.

Section encoding.
Context {S E : Type} {Obs : NativeValueObserver S E}.

(** [positron-domain/src/value/observed_encoding.rs:10-59 ValidatedAttributeValue::canonical_encoded_size_bytes_observed] *)
Fixpoint canonical_encoded_size_bytes_observed (v : ValidatedAttributeValue) : M S E Z :=
  _ ← observe_structure;
  match v with
  | VNull => mret 1
  | VBoolean _ => mret 2
  | VSignedInteger _ | VFloatingPointBits _ => mret 9
  | VMarker _ => mret 3
  | VTruncated value _ =>
      size ← canonical_encoded_size_bytes_observed value;
      lift (checked_size_add 3 size)
  | VString value | VBytes value =>
      _ ← observe_payload (text value);
      lift (canonical_sequence_size (rs_len value))
  | VArray values _ =>
      prefix ← lift (canonical_prefix_size (zlen values));
      m_try_fold (fun total value =>
        size ← canonical_encoded_size_bytes_observed value;
        lift (checked_size_add total size)) values prefix
  | VKeyValueList entries _ =>
      prefix ← lift (canonical_prefix_size (zlen entries));
      m_try_fold (fun total '(key, value) =>
        _ ← observe_structure;
        _ ← observe_payload (text key);
        total ← lift (checked_size_add total 8);
        total ← lift (checked_size_add total (rs_len key));
        size ← canonical_encoded_size_bytes_observed value;
        lift (checked_size_add total size)) entries prefix
  end.

(** ** Visiting *)

(** One fragment handed to the visitor. *)
Definition visit (fragment : bytes) : M (S * list bytes) E unit := fun '(s, out) =>
  ((s, out ++ [fragment]), Ok tt).

(** An observer step inside a visiting pass. *)
Definition observing {A} (m : M S E A) : M (S * list bytes) E A := fun '(s, out) =>
  match m s with (s', r) => ((s', out), r) end.

(** [positron-domain/src/value/observed_encoding.rs:238-245 visit_length] *)
Definition visit_length (length : Z) : M (S * list bytes) E unit :=
  if length <=? u64_max then visit (be_bytes 8 length) else fail_domain value_limit_exceeded.

Definition visit_chunks : list bytes -> M (S * list bytes) E unit :=
  fix go cs :=
    match cs with
    | [] => mret tt
    | chunk :: cs' =>
        _ ← observing (fun s => match obs_payload chunk s with (s', r) => (s', map_err ObserverF r) end);
        _ ← visit chunk;
        go cs'
    end.

(** [positron-domain/src/value/observed_encoding.rs:247-259 visit_observed_payload] *)
Definition visit_observed_payload (payload : bytes) : M (S * list bytes) E unit :=
  visit_chunks (chunks NATIVE_VALUE_PAYLOAD_CHUNK_BYTES payload).

(** The loop [for x in l { f(x)?; }]. *)
Definition m_iter {T F A} (f : A -> M T F unit) : list A -> M T F unit :=
  fix go l :=
    match l with
    | [] => mret tt
    | a :: l' => _ ← f a; go l'
    end.

(** [positron-domain/src/value/observed_encoding.rs:62-125 ValidatedAttributeValue::visit_canonical_encoding_observed] *)
Fixpoint visit_canonical_encoding_observed (v : ValidatedAttributeValue) : M (S * list bytes) E unit :=
  _ ← observing observe_structure;
  match v with
  | VNull => visit [0]
  | VBoolean value => visit [1; Z.b2z value]
  | VSignedInteger value => _ ← visit [2]; visit (be_bytes 8 value)
  | VFloatingPointBits value => _ ← visit [3]; visit (be_bytes 8 value)
  | VString value =>
      _ ← visit [4];
      _ ← visit_length (rs_len value);
      visit_observed_payload (text value)
  | VBytes value =>
      _ ← visit [5];
      _ ← visit_length (rs_len value);
      visit_observed_payload (text value)
  | VArray values _ =>
      _ ← visit [6];
      _ ← visit_length (zlen values);
      m_iter (fun value => visit_canonical_encoding_observed value) values
  | VKeyValueList entries _ =>
      _ ← visit [7];
      _ ← visit_length (zlen entries);
      m_iter (fun '(key, value) =>
        _ ← observing observe_structure;
        _ ← visit_length (rs_len key);
        _ ← visit_observed_payload (text key);
        visit_canonical_encoding_observed value) entries
  | VMarker marker =>
      kind_tag ← lift (native_kind_tag (original_kind marker));
      visit [8; marker_action_tag (action marker); kind_tag]
  | VTruncated value a =>
      kind_tag ← lift (native_kind_tag (kind value));
      _ ← visit [8; marker_action_tag a; kind_tag];
      visit_canonical_encoding_observed value
  end.
End encoding.

(** [positron-domain/src/value/validated_encoding.rs:24-29 ValidatedAttributeValue::canonical_encoded_size_bytes] *)
Definition canonical_encoded_size_bytes (v : ValidatedAttributeValue) : result DomainFailure Z :=
  remove_observation (canonical_encoded_size_bytes_observed (Obs := UnobservedNativeValue unit) v tt).2.

(** [positron-domain/src/value/validated_encoding.rs:32-43 ValidatedAttributeValue::append_canonical_encoding]
    The reservation of the output buffer may fail; [available] says whether it does. *)
Definition append_canonical_encoding (available : Z -> bool) (v : ValidatedAttributeValue) (output : bytes)
  : bytes * result DomainFailure unit :=
  match canonical_encoded_size_bytes v with
  | Err f => (output, Err f)
  | Ok encoded =>
      if available encoded then
        match visit_canonical_encoding_observed (Obs := UnobservedNativeValue unit) v (tt, []) with
        | ((_, fragments), r) => (output ++ concat fragments, remove_observation r)
        end
      else (output, Err allocation_unavailable)
  end.

(** ** The encoding as a function of the native value *)

Fixpoint native_kind (v : NativeValue) : AttributeValueKind :=
  match v with
  | NNull => KNull | NBoolean _ => KBoolean | NSignedInteger _ => KSignedInteger
  | NFloatingPointBits _ => KFloatingPoint | NString _ => KString | NBytes _ => KBytes
  | NArray _ => KArray | NKeyValueList _ => KKeyValueList | NMarker _ => KMarker
  | NTruncated v _ => native_kind v
  end.

(** The tag of a native kind; the marker kind has none. *)
Definition kind_tag (k : AttributeValueKind) : Z := default 0 (to_option (native_kind_tag k)).

Fixpoint canonical_bytes (v : NativeValue) : bytes :=
  match v with
  | NNull => [0]
  | NBoolean b => [1; Z.b2z b]
  | NSignedInteger z => 2 :: be_bytes 8 z
  | NFloatingPointBits z => 3 :: be_bytes 8 z
  | NString s => 4 :: be_bytes 8 (zlen s) ++ s
  | NBytes s => 5 :: be_bytes 8 (zlen s) ++ s
  | NArray vs => 6 :: be_bytes 8 (zlen vs) ++ flat_map canonical_bytes vs
  | NKeyValueList es =>
      7 :: be_bytes 8 (zlen es)
      ++ flat_map (fun e => match e with (k, v) => be_bytes 8 (zlen k) ++ k ++ canonical_bytes v end) es
  | NMarker m => [8; marker_action_tag (action m); kind_tag (original_kind m)]
  | NTruncated v a => [8; marker_action_tag a; kind_tag (native_kind v)] ++ canonical_bytes v
  end.

(** Native values as validation produces them: machine integers in range, lengths that fit, and
    well-formed markers. *)
Fixpoint native_wf (v : NativeValue) : Prop :=
  match v with
  | NSignedInteger z => i64_min <= z <= i64_max
  | NFloatingPointBits z => 0 <= z <= u64_max
  | NString s | NBytes s => zlen s <= u64_max
  | NArray vs => zlen vs <= u64_max /\ all_of native_wf vs
  | NKeyValueList es => zlen es <= u64_max /\ all_of (fun '(k, v) => zlen k <= u64_max /\ native_wf v) es
  | NMarker m => marker_is_valid m = true
  | NTruncated v a => truncation_action_valid a (native_kind v) = true /\ native_wf v
  | _ => True
  end.

(** ** The size is the length *)

Section sizes.
Context {S E : Type} {Obs : NativeValueObserver S E}.

Definition canonical_length (v : ValidatedAttributeValue) : Z := zlen (canonical_bytes (validated_native v)).

(** The recursion of the size pass, without its observer. *)
Fixpoint canonical_size (v : ValidatedAttributeValue) : result DomainFailure Z :=
  match v with
  | VNull => Ok 1
  | VBoolean _ => Ok 2
  | VSignedInteger _ | VFloatingPointBits _ => Ok 9
  | VMarker _ => Ok 3
  | VTruncated value _ => size ← canonical_size value; checked_size_add 3 size
  | VString value | VBytes value => canonical_sequence_size (rs_len value)
  | VArray values _ =>
      prefix ← canonical_prefix_size (zlen values);
      try_fold (fun total value => size ← canonical_size value; checked_size_add total size) prefix values
  | VKeyValueList entries _ =>
      prefix ← canonical_prefix_size (zlen entries);
      try_fold (fun total '(key, value) =>
        total ← checked_size_add total 8;
        total ← checked_size_add total (rs_len key);
        size ← canonical_size value;
        checked_size_add total size) prefix entries
  end.

Lemma canonical_size_agrees v :
  agrees (canonical_encoded_size_bytes_observed v : M S E Z) (canonical_size v).
Proof.
  induction v as [| | | |p|p|vs cap IH|es cap IH|m|v a IH] using validated_ind'; simpl;
    try solve [agrees_steps].
  - agrees_steps. apply agrees_fold. eapply Forall_impl; [exact IH|]. intros v Hv b. simpl.
    agrees_steps.
  - agrees_steps. apply agrees_fold. eapply Forall_impl; [exact IH|]. intros [k v] Hv b. simpl in *.
    agrees_steps.
Qed.

Lemma prefix_ok n : n <= u64_max -> canonical_prefix_size n = Ok 9.
Proof. intros H. unfold canonical_prefix_size. by rewrite (proj2 (Z.leb_le _ _) H). Qed.

Lemma entry_lengths (es : list (RString * ValidatedAttributeValue)) :
  foldr (fun (a : RString * ValidatedAttributeValue) n => (let '(k, v) := a in 8 + zlen (text k) + zlen (canonical_bytes (validated_native v))) + n) 0 es
  = foldr (fun (a : RString * ValidatedAttributeValue) n => zlen (let (k, v) := let (k, v) := a in (text k, validated_native v) in
                            be_bytes 8 (zlen k) ++ k ++ canonical_bytes v) + n) 0 es.
Proof.
  induction es as [|[k v] es IH]; [done|]. cbn [foldr]. rewrite IH, !zlen_app, zlen_be_bytes. lia.
Qed.

Lemma canonical_size_is_length v :
  native_wf (validated_native v) -> canonical_size v = sized (canonical_length v).
Proof.
  unfold canonical_length.
  induction v as [|b|z|z|p|p|vs cap IH|es cap IH|m|v a IH] using validated_ind'; intros Hwf;
    cbn [canonical_size validated_native canonical_bytes native_wf] in *;
    rewrite ?zlen_cons, ?zlen_app, ?zlen_be_bytes; try done.
  - unfold canonical_sequence_size. rewrite prefix_ok by done.
    pose proof (zlen_nonneg (text p)).
    transitivity (sized (9 + rs_len p)); [by apply (sized_add 9 (rs_len p))|f_equal; unfold rs_len; lia].
  - unfold canonical_sequence_size. rewrite prefix_ok by done.
    pose proof (zlen_nonneg (text p)).
    transitivity (sized (9 + rs_len p)); [by apply (sized_add 9 (rs_len p))|f_equal; unfold rs_len; lia].
  - destruct Hwf as [Hl Hwf]. apply all_of_Forall in Hwf. rewrite zlen_map in Hl.
    rewrite prefix_ok by done. cbn [mbind result_bind].
    rewrite (sized_fold _ (fun v => zlen (canonical_bytes (validated_native v)))).
    + rewrite zlen_flat_map, foldr_map_sum. f_equal. lia.
    + intros; apply zlen_nonneg.
    + intros n v Hn Hv. rewrite Forall_map in Hwf. rewrite Forall_forall in IH, Hwf.
      rewrite IH by eauto. by apply sized_add_sized; [lia|lia|apply zlen_nonneg].
    + by vm_compute.
  - destruct Hwf as [Hl Hwf]. apply all_of_Forall in Hwf. rewrite zlen_map in Hl.
    rewrite prefix_ok by done. cbn [mbind result_bind].
    rewrite (sized_fold _ (fun '(k, v) => 8 + zlen (text k) + zlen (canonical_bytes (validated_native v)))).
    + rewrite zlen_flat_map, foldr_map_sum. rewrite (entry_lengths es). f_equal. lia.
    + intros [k v]. pose proof (zlen_nonneg (text k)). pose proof (zlen_nonneg (canonical_bytes (validated_native v))). lia.
    + intros n [k v] Hn Hv. rewrite Forall_map in Hwf. rewrite Forall_forall in IH, Hwf.
      pose proof (IH _ Hv) as IHv. pose proof (Hwf _ Hv) as [_ Hwv]. cbn [snd] in *. rewrite IHv by done.
      pose proof (zlen_nonneg (text k)). pose proof (zlen_nonneg (canonical_bytes (validated_native v))).
      unfold checked_size_add, sized, checked_add, rs_len, mbind, result_bind.
      repeat (case_match; simpl in *; simplify_eq; bool_to_prop; try done; try lia); f_equal; try lia.
    + by vm_compute.
  - destruct Hwf as [_ Hwf]. rewrite IH by done. pose proof (zlen_nonneg (canonical_bytes (validated_native v))).
    rewrite sized_add_sized by (try done; by vm_compute). f_equal.
Qed.
End sizes.

(** ** The visited bytes are the encoding *)

Section visiting.
Context {S E : Type} {Obs : NativeValueObserver S E}.

(** A visiting pass is stopped by its observer or hands exactly [bs] to the visitor. *)
Definition visits {A} (m : M (S * list bytes) E A) (bs : bytes) : Prop := forall s out,
  match m (s, out) with
  | ((_, out'), Ok _) => concat out' = concat out ++ bs
  | (_, Err (ObserverF _)) => True
  | (_, Err (DomainF _)) => False
  end.

Lemma visits_ret {A} (a : A) : visits (mret a) [].
Proof. intros s out. simpl. by rewrite app_nil_r. Qed.

Lemma visits_visit c : visits (visit c) c.
Proof. intros s out. simpl. rewrite concat_app. simpl. by rewrite app_nil_r. Qed.

Lemma visits_seq {A B} (m : M (S * list bytes) E A) (k : M (S * list bytes) E B) a b :
  visits m a -> visits k b -> visits (_ ← m; k) (a ++ b).
Proof.
  intros Hm Hk s out. specialize (Hm s out). unfold mbind, M_bind.
  destruct (m (s, out)) as [[s1 out1] [x|[f|e]]]; try done.
  specialize (Hk s1 out1). destruct (k (s1, out1)) as [[s2 out2] [y|[f|e]]]; try done.
  by rewrite Hk, Hm, app_assoc.
Qed.

Lemma visits_silent {A B} (m : M (S * list bytes) E A) (k : M (S * list bytes) E B) b :
  visits m [] -> visits k b -> visits (_ ← m; k) b.
Proof. apply (visits_seq m k []). Qed.

Lemma visits_structure : visits (observing observe_structure) [].
Proof.
  intros s out. unfold observing, observe_structure. destruct (obs_structure s) as [s1 [u|e]]; simpl; [|done].
  by rewrite app_nil_r.
Qed.

Lemma visits_length n : n <= u64_max -> visits (visit_length n) (be_bytes 8 n).
Proof. intros H. unfold visit_length. rewrite (proj2 (Z.leb_le _ _) H). apply visits_visit. Qed.

Lemma visits_chunks cs : visits (visit_chunks cs) (concat cs).
Proof.
  induction cs as [|c cs IH]; [apply visits_ret|]. simpl. apply visits_silent.
  - intros s out. unfold observing. destruct (obs_payload c s) as [s1 [u|e]]; simpl; [|done]. by rewrite app_nil_r.
  - apply visits_seq; [apply visits_visit|done].
Qed.

Lemma visits_payload p : visits (visit_observed_payload p) p.
Proof.
  unfold visit_observed_payload. rewrite <- (chunks_concat NATIVE_VALUE_PAYLOAD_CHUNK_BYTES p) at 2 by (unfold NATIVE_VALUE_PAYLOAD_CHUNK_BYTES; lia).
  apply visits_chunks.
Qed.

Lemma visits_lift {A B} (r : result DomainFailure A) (a : A) (k : A -> M (S * list bytes) E B) b :
  r = Ok a -> visits (k a) b -> visits (x ← lift r; k x) b.
Proof. intros -> H. exact H. Qed.

Lemma visits_iter {A} (f : A -> M (S * list bytes) E unit) (g : A -> bytes) l :
  Forall (fun a => visits (f a) (g a)) l -> visits (m_iter f l) (flat_map g l).
Proof. induction 1 as [|a l Ha _ IH]; simpl; [apply visits_ret|]. by apply visits_seq. Qed.

Lemma flat_map_map {A B C} (g : A -> B) (f : B -> list C) l : flat_map f (map g l) = flat_map (fun a => f (g a)) l.
Proof. induction l as [|a l IH]; simpl; [done|]. by rewrite IH. Qed.

Lemma kind_tag_ok k : k <> KMarker -> native_kind_tag k = Ok (kind_tag k).
Proof. by destruct k. Qed.

Lemma validated_kind v : native_kind (validated_native v) = kind v.
Proof. induction v using validated_ind'; simpl; done. Qed.

Lemma visit_encoding v : native_wf (validated_native v) ->
  visits (visit_canonical_encoding_observed v) (canonical_bytes (validated_native v)).
Proof.
  induction v as [|b|z|z|p|p|vs cap IH|es cap IH|m|v a IH] using validated_ind'; intros Hwf;
    cbn [visit_canonical_encoding_observed validated_native canonical_bytes native_wf] in *;
    (apply visits_silent; [apply visits_structure|]); try apply visits_visit.
  - apply (visits_seq _ _ [2]); apply visits_visit.
  - apply (visits_seq _ _ [3]); apply visits_visit.
  - apply (visits_seq _ _ [4]); [apply visits_visit|]. apply visits_seq; [by apply visits_length|apply visits_payload].
  - apply (visits_seq _ _ [5]); [apply visits_visit|]. apply visits_seq; [by apply visits_length|apply visits_payload].
  - apply (visits_seq _ _ [6]); [apply visits_visit|]. destruct Hwf as [Hl Hwf]. apply all_of_Forall in Hwf.
    rewrite zlen_map in *. apply visits_seq; [by apply visits_length|].
    rewrite flat_map_map. apply visits_iter. rewrite Forall_map in Hwf.
    rewrite Forall_forall in IH, Hwf |- *. eauto.
  - apply (visits_seq _ _ [7]); [apply visits_visit|]. destruct Hwf as [Hl Hwf]. apply all_of_Forall in Hwf.
    rewrite zlen_map in *. apply visits_seq; [by apply visits_length|].
    rewrite flat_map_map. apply visits_iter. rewrite Forall_map in Hwf.
    rewrite Forall_forall in IH, Hwf |- *. intros [k v] Hin.
    pose proof (Hwf _ Hin) as [Hk Hv]. pose proof (IH _ Hin Hv). cbn [snd] in *.
    apply visits_silent; [apply visits_structure|].
    apply visits_seq; [by apply visits_length|]. by apply visits_seq; [apply visits_payload|].
  - eapply visits_lift; [|apply visits_visit]. apply kind_tag_ok. intros Hk.
    unfold marker_is_valid in Hwf. by rewrite Hk in Hwf.
  - destruct Hwf as [Ha Hwf]. rewrite validated_kind in *. eapply visits_lift.
    { apply kind_tag_ok. intros Hk. rewrite Hk in Ha. by destruct a. }
    apply visits_seq; [apply visits_visit|by apply IH].
Qed.
End visiting.

(** ** A reference decoder

    Not part of the program: it shows that the encoding is self-delimiting. *)

Section decoder.
Definition read (n : nat) (bs : bytes) : option (bytes * bytes) :=
  if (length bs <? n)%nat then None else Some (take n bs, drop n bs).

Definition read_u64 (bs : bytes) : option (Z * bytes) :=
  '(h, rest) ← read 8 bs; Some (be_value h, rest).

Definition read_sized (bs : bytes) : option (bytes * bytes) :=
  '(n, rest) ← read_u64 bs; read (Z.to_nat n) rest.

Definition repeat_decode {A} (d : bytes -> option (A * bytes)) : nat -> bytes -> option (list A * bytes) :=
  fix go n bs :=
    match n with
    | O => Some ([], bs)
    | S n' => '(a, rest) ← d bs; '(l, rest) ← go n' rest; Some (a :: l, rest)
    end.

Definition decode_kind (tag : Z) : option AttributeValueKind :=
  [KNull; KBoolean; KSignedInteger; KFloatingPoint; KString; KBytes; KArray; KKeyValueList] !! Z.to_nat tag.

(** Nesting depth of a native value, the fuel the decoder needs. *)
Fixpoint native_depth (v : NativeValue) : nat :=
  match v with
  | NArray vs => S (foldr (fun v n => Nat.max (native_depth v) n) O vs)
  | NKeyValueList es => S (foldr (fun e n => match e with (_, v) => Nat.max (native_depth v) n end) O es)
  | NTruncated v _ => S (native_depth v)
  | _ => 1%nat
  end.

Fixpoint decode (fuel : nat) (bs : bytes) : option (NativeValue * bytes) :=
  match fuel with
  | O => None
  | S fuel' =>
      match bs with
      | 0 :: rest => Some (NNull, rest)
      | 1 :: 0 :: rest => Some (NBoolean false, rest)
      | 1 :: 1 :: rest => Some (NBoolean true, rest)
      | 2 :: rest =>
          '(n, rest) ← read_u64 rest;
          Some (NSignedInteger (if n <=? i64_max then n else n - two64), rest)
      | 3 :: rest => '(n, rest) ← read_u64 rest; Some (NFloatingPointBits n, rest)
      | 4 :: rest => '(s, rest) ← read_sized rest; Some (NString s, rest)
      | 5 :: rest => '(s, rest) ← read_sized rest; Some (NBytes s, rest)
      | 6 :: rest =>
          '(n, rest) ← read_u64 rest;
          '(vs, rest) ← repeat_decode (decode fuel') (Z.to_nat n) rest;
          Some (NArray vs, rest)
      | 7 :: rest =>
          '(n, rest) ← read_u64 rest;
          '(es, rest) ← repeat_decode (fun bs =>
             '(k, rest) ← read_sized bs; '(v, rest) ← decode fuel' rest; Some ((k, v), rest)) (Z.to_nat n) rest;
          Some (NKeyValueList es, rest)
      | 8 :: 0 :: k :: rest => k ← decode_kind k; Some (NMarker (mkRedactionMarker k Removed), rest)
      | 8 :: 1 :: k :: rest => k ← decode_kind k; Some (NMarker (mkRedactionMarker k Redacted), rest)
      | 8 :: 2 :: _ :: rest => '(v, rest) ← decode fuel' rest; Some (NTruncated v TruncatedBytes, rest)
      | 8 :: 3 :: _ :: rest => '(v, rest) ← decode fuel' rest; Some (NTruncated v TruncatedElements, rest)
      | _ => None
      end
  end.

Lemma read_app a rest n : n = length a -> read n (a ++ rest) = Some (a, rest).
Proof.
  intros ->. unfold read. rewrite length_app, (proj2 (Nat.ltb_ge _ _)) by lia.
  by rewrite take_app_length, drop_app_length.
Qed.

Lemma read_u64_app z rest : 0 <= z <= u64_max -> read_u64 (be_bytes 8 z ++ rest) = Some (z, rest).
Proof.
  intros Hz. unfold read_u64. rewrite read_app by (by rewrite length_be_bytes). cbn [mbind option_bind].
  rewrite be_value_be_bytes; [done|]. unfold u64_max in Hz. change (256 ^ Z.of_nat 8) with two64. unfold two64. lia.
Qed.

Lemma read_sized_app s rest : zlen s <= u64_max -> read_sized (be_bytes 8 (zlen s) ++ s ++ rest) = Some (s, rest).
Proof.
  intros Hs. pose proof (zlen_nonneg s). unfold read_sized. rewrite read_u64_app by lia.
  cbn [mbind option_bind]. apply read_app. unfold zlen. lia.
Qed.

Lemma repeat_decode_app {A} (d : bytes -> option (A * bytes)) (enc : A -> bytes) l rest :
  Forall (fun a => forall rest, d (enc a ++ rest) = Some (a, rest)) l ->
  repeat_decode d (length l) (flat_map enc l ++ rest) = Some (l, rest).
Proof.
  induction 1 as [|a l Ha _ IH]; simpl; [done|]. rewrite <- app_assoc, Ha. cbn [mbind option_bind]. by rewrite IH.
Qed.

Lemma kind_roundtrip k : k <> KMarker -> decode_kind (kind_tag k) = Some k.
Proof. by destruct k. Qed.

Section native_induction.
Context (P : NativeValue -> Prop).
Hypothesis (Hnull : P NNull) (Hbool : forall b, P (NBoolean b)) (Hint : forall z, P (NSignedInteger z))
  (Hfloat : forall z, P (NFloatingPointBits z)) (Hstr : forall s, P (NString s))
  (Hbytes : forall s, P (NBytes s)) (Harray : forall vs, Forall P vs -> P (NArray vs))
  (Hkvl : forall es, Forall (fun e => P e.2) es -> P (NKeyValueList es))
  (Hmarker : forall m, P (NMarker m)) (Htrunc : forall v a, P v -> P (NTruncated v a)).

Fixpoint native_ind' (v : NativeValue) : P v :=
  match v with
  | NNull => Hnull
  | NBoolean b => Hbool b
  | NSignedInteger z => Hint z
  | NFloatingPointBits z => Hfloat z
  | NString s => Hstr s
  | NBytes s => Hbytes s
  | NArray vs => Harray vs ((fix go l := match l return Forall P l with
      | [] => List.Forall_nil _ | v :: l' => List.Forall_cons _ _ _ (native_ind' v) (go l') end) vs)
  | NKeyValueList es => Hkvl es ((fix go l := match l return Forall (fun e => P e.2) l with
      | [] => List.Forall_nil _
      | (k, v) :: l' => List.Forall_cons (fun e => P e.2) (k, v) _ (native_ind' v) (go l') end) es)
  | NMarker m => Hmarker m
  | NTruncated v a => Htrunc v a (native_ind' v)
  end.
End native_induction.

Lemma be_bytes_8_mod z : be_bytes 8 z = be_bytes 8 (z mod two64).
Proof. change two64 with (256 ^ Z.of_nat 8). by rewrite be_bytes_mod. Qed.

Lemma decode_encoding v fuel rest : native_wf v -> (native_depth v <= fuel)%nat ->
  decode fuel (canonical_bytes v ++ rest) = Some (v, rest).
Proof.
  revert fuel rest. induction v as [|b|z|z|s|s|vs IH|es IH|m|v a IH] using native_ind';
    intros fuel rest Hwf Hfuel; (destruct fuel as [|fuel]; [simpl in Hfuel; lia|]);
    cbn [canonical_bytes native_wf native_depth] in *; rewrite <- ?app_comm_cons, <- ?app_assoc; cbn [decode].
  - done.
  - by destruct b.
  - rewrite be_bytes_8_mod, read_u64_app.
    2:{ pose proof (Z.mod_pos_bound z two64 ltac:(done)). unfold two64, u64_max in *. lia. }
    cbn [mbind option_bind]. unfold i64_min, i64_max, two64 in *.
    destruct (Z.leb_spec 0 z).
    + rewrite Z.mod_small by lia. by rewrite (proj2 (Z.leb_le _ _)) by lia.
    + rewrite <- (Z.mod_add z 1), Z.mod_small by lia. rewrite (proj2 (Z.leb_gt _ _)) by lia.
      f_equal. f_equal. f_equal. lia.
  - by rewrite read_u64_app.
  - by rewrite read_sized_app.
  - by rewrite read_sized_app.
  - destruct Hwf as [Hl Hwf]. apply all_of_Forall in Hwf. pose proof (zlen_nonneg vs).
    rewrite read_u64_app by done. cbn [mbind option_bind].
    replace (Z.to_nat (zlen vs)) with (length vs) by (unfold zlen; lia).
    rewrite repeat_decode_app; [done|]. clear -IH Hwf Hfuel.
    induction IH as [|v vs Hv _ IHl]; [constructor|]. apply Forall_cons in Hwf as [? ?]. simpl in Hfuel.
    constructor; [intros; apply Hv; [done|lia]|apply IHl; [done|lia]].
  - destruct Hwf as [Hl Hwf]. apply all_of_Forall in Hwf. pose proof (zlen_nonneg es).
    rewrite read_u64_app by done. cbn [mbind option_bind].
    replace (Z.to_nat (zlen es)) with (length es) by (unfold zlen; lia).
    rewrite repeat_decode_app; [done|]. clear -IH Hwf Hfuel.
    induction IH as [|[k v] es Hv _ IHl]; [constructor|]. apply Forall_cons in Hwf as [[Hk ?] ?]. simpl in Hfuel.
    constructor; [|apply IHl; [done|lia]].
    intros rest. rewrite <- !app_assoc, read_sized_app by done. cbn [mbind option_bind].
    rewrite Hv by (done || simpl; lia). done.
  - destruct m as [k ac]. unfold marker_is_valid in Hwf. simpl in Hwf.
    assert (k <> KMarker) by (intros ->; done). destruct ac; try (by destruct k); simpl; by rewrite kind_roundtrip.
  - destruct Hwf as [Ha Hwf]. assert (Hd : decode fuel (canonical_bytes v ++ rest) = Some (v, rest)) by (apply IH; [done|lia]).
    destruct a; try (by destruct (native_kind v)); simpl; by rewrite Hd.
Qed.
End decoder.

(** ** The contract of the canonical encoding *)

Lemma canonical_size_silent v : canonical_encoded_size_bytes v = canonical_size v.
Proof.
  pose proof (canonical_size_agrees (Obs := UnobservedNativeValue unit) v tt) as H.
  unfold canonical_encoded_size_bytes. destruct (_.2) as [n|[f|[]]]; by rewrite H.
Qed.

Lemma append_canonical_ok v output : native_wf (validated_native v) -> canonical_length v <= usize_max ->
  append_canonical_encoding (fun _ => true) v output
  = (output ++ canonical_bytes (validated_native v), Ok tt).
Proof.
  intros Hwf Hl. unfold append_canonical_encoding.
  rewrite canonical_size_silent, canonical_size_is_length, sized_ok by done.
  pose proof (visit_encoding (Obs := UnobservedNativeValue unit) v Hwf tt []) as H.
  destruct (visit_canonical_encoding_observed v (tt, [])) as [[s out] [[]|[f|[]]]]; [|done].
  simpl in H. by rewrite H.
Qed.

(** Also (functional). The canonical encoding is one byte string per native value: appending it to an
    output adds exactly those bytes, the size computed beforehand is their number, and an
    observed streaming pass either is stopped by its observer or streams exactly them. *)
Theorem canonical_encoding_is_exact (v : ValidatedAttributeValue) (output : bytes) :
  native_wf (validated_native v) -> canonical_length v <= usize_max ->
  append_canonical_encoding (fun _ => true) v output
    = (output ++ canonical_bytes (validated_native v), Ok tt)
  /\ canonical_encoded_size_bytes v = Ok (zlen (canonical_bytes (validated_native v)))
  /\ (forall S E (Obs : NativeValueObserver S E),
        visits (visit_canonical_encoding_observed v) (canonical_bytes (validated_native v))
        /\ agrees (canonical_encoded_size_bytes_observed v) (canonical_encoded_size_bytes v)).
Proof.
  intros Hwf Hl. split; [by apply append_canonical_ok|]. rewrite canonical_size_silent.
  split; [by rewrite canonical_size_is_length, sized_ok|].
  intros S E Obs. split; [by apply visit_encoding|apply canonical_size_agrees].
Qed.

Lemma canonical_encoding_is_exact_witness :
  append_canonical_encoding (fun _ => true)
    (VArray [VBoolean true; VTruncated (VString (mkRString [104; 105] 2)) TruncatedBytes] 2) [255]
  = ([255; 6; 0; 0; 0; 0; 0; 0; 0; 2; 1; 1; 8; 2; 4; 4; 0; 0; 0; 0; 0; 0; 0; 2; 104; 105], Ok tt).
Proof.
  refine (eq_trans (proj1 (canonical_encoding_is_exact _ _ _ _)) _);
    [vm_compute; intuition congruence|vm_compute; discriminate|vm_compute; reflexivity].
Defined.

(** C33 (roundtrip). The canonical encoding is self-delimiting: when the encodings of two
    well-formed values start one byte string, the values denote one native value and the
    remaining bytes are the same, so digests of concatenated encodings are unambiguous. *)
Theorem canonical_encoding_is_self_delimiting (v w : ValidatedAttributeValue) (b1 b2 r1 r2 : bytes) :
  native_wf (validated_native v) -> native_wf (validated_native w) ->
  canonical_length v <= usize_max -> canonical_length w <= usize_max ->
  append_canonical_encoding (fun _ => true) v [] = (b1, Ok tt) ->
  append_canonical_encoding (fun _ => true) w [] = (b2, Ok tt) ->
  b1 ++ r1 = b2 ++ r2 -> validated_native v = validated_native w /\ r1 = r2.
Proof.
  intros Hv Hw Hlv Hlw. rewrite !append_canonical_ok by done. intros [= <-] [= <-] H.
  set (n := Nat.max (native_depth (validated_native v)) (native_depth (validated_native w))).
  assert (H1 := decode_encoding _ n r1 Hv ltac:(lia)). assert (H2 := decode_encoding _ n r2 Hw ltac:(lia)).
  change ([] ++ ?x) with x in H. rewrite H in H1. rewrite H1 in H2. by simplify_eq.
Qed.

Lemma canonical_encoding_is_self_delimiting_witness :
  validated_native (VString (mkRString [97] 4)) = validated_native (VString (mkRString [97] 1))
  /\ ([7] : bytes) = [7].
Proof.
  apply (canonical_encoding_is_self_delimiting (VString (mkRString [97] 4)) (VString (mkRString [97] 1))
    [4; 0; 0; 0; 0; 0; 0; 0; 1; 97] [4; 0; 0; 0; 0; 0; 0; 0; 1; 97] [7] [7]); vm_compute; congruence.
Defined.
