(* ===== verification/ComparisonOrder.v ===== *)
(** ComparisonOrder: the canonical [Ord] of validated values and the order-preserving
    comparison encoding (crates/positron-domain/src/value/validated_encoding.rs). *)

From S2P Require Import Prelude Outcome Limits Values Observe Traversal.

(** ** The order *)

(** The derived [Ord] of [AttributeValueKind] and [MarkerAction]: declaration order. *)
Definition kind_rank (k : AttributeValueKind) : Z :=
  match k with
  | KNull => 0 | KBoolean => 1 | KSignedInteger => 2 | KFloatingPoint => 3 | KString => 4
  | KBytes => 5 | KArray => 6 | KKeyValueList => 7 | KMarker => 8
  end.
Definition action_rank (a : MarkerAction) : Z :=
  match a with Removed => 0 | Redacted => 1 | TruncatedBytes => 2 | TruncatedElements => 3 end.

(** [f64::total_cmp]: both bit patterns as [i64], with the low bits of negative ones flipped. *)
Definition total_cmp_key (bits : Z) : Z :=
  let l := as_i64 bits in Z.lxor l (if l <? 0 then i64_max else 0).
Definition total_cmp (l r : Z) : comparison := total_cmp_key l ?= total_cmp_key r.

(** [positron-domain/src/value/validated_encoding.rs:9-13 ValidatedKeyValue::cmp] The comparison of
    two entries, given the comparison of their values. *)
Definition entry_cmp {A} (cmp : A -> A -> comparison) (l r : RString * A) : comparison :=
  match l, r with (lk, lv), (rk, rv) => then_with (lex_compare (text lk) (text rk)) (cmp lv rv) end.

(** [positron-domain/src/value/validated_encoding.rs:195-239 ValidatedAttributeValue::cmp] *)
Fixpoint vcmp (self : ValidatedAttributeValue) : ValidatedAttributeValue -> comparison :=
  fix with_other (other : ValidatedAttributeValue) : comparison :=
    match self, other with
    | VNull, VNull => Eq
    | VBoolean l, VBoolean r => Z.b2z l ?= Z.b2z r
    | VSignedInteger l, VSignedInteger r => l ?= r
    | VFloatingPointBits l, VFloatingPointBits r => total_cmp l r
    | VString l, VString r => lex_compare (text l) (text r)
    | VBytes l, VBytes r => lex_compare (text l) (text r)
    | VArray l _, VArray r _ => slice_cmp (fun x y => vcmp x y) l r
    | VKeyValueList l _, VKeyValueList r _ => slice_cmp (fun x y => entry_cmp (fun a b => vcmp a b) x y) l r
    | VMarker l, VMarker r =>
        then_with (kind_rank (original_kind l) ?= kind_rank (original_kind r))
          (action_rank (action l) ?= action_rank (action r))
    | VTruncated value _, _ => vcmp value other
    | _, VTruncated value _ => with_other value
    | _, _ => kind_rank (kind self) ?= kind_rank (kind other)
    end.

(** ** The encoding *)

(** [positron-domain/src/value/validated_encoding.rs:259-266 comparison_marker_action_tag] *)
Definition comparison_marker_action_tag (a : MarkerAction) : Z :=
  match a with Removed => 0 | Redacted => 1 | TruncatedBytes => 2 | TruncatedElements => 3 end.

(** [positron-domain/src/value/validated_encoding.rs:268-280 comparison_native_kind_tag] *)
Definition comparison_native_kind_tag (k : AttributeValueKind) : Z :=
  match k with
  | KNull => 0 | KBoolean => 1 | KSignedInteger => 2 | KFloatingPoint => 3 | KString => 4
  | KBytes => 5 | KArray => 6 | KKeyValueList => 7 | KMarker => 0
  end.

(** [positron-domain/src/value/validated_encoding.rs:252-257 comparison_bare_sequence_size] *)
Definition comparison_bare_sequence_size (length : Z) : result DomainFailure Z :=
  ok_or value_limit_exceeded (bytes ← checked_mul usize_max length 2; checked_add usize_max bytes 1).

(** [positron-domain/src/value/validated_encoding.rs:248-250 comparison_sequence_size] *)
Definition comparison_sequence_size (length : Z) : result DomainFailure Z :=
  bare ← comparison_bare_sequence_size length;
  checked_decoded_add 1 bare.

(** [positron-domain/src/value/validated_encoding.rs:50-79 ValidatedAttributeValue::comparison_encoded_size_bytes] *)
Fixpoint comparison_encoded_size_bytes (v : ValidatedAttributeValue) : result DomainFailure Z :=
  match v with
  | VNull => Ok 1
  | VBoolean _ => Ok 2
  | VSignedInteger _ | VFloatingPointBits _ => Ok 9
  | VMarker _ => Ok 3
  | VTruncated value _ => comparison_encoded_size_bytes value
  | VString value | VBytes value => comparison_sequence_size (rs_len value)
  | VArray values _ =>
      try_fold (fun total value =>
        total ← checked_decoded_add total 1;
        size ← comparison_encoded_size_bytes value;
        checked_decoded_add total size) 2 values
  | VKeyValueList entries _ =>
      try_fold (fun total '(key, value) =>
        total ← checked_decoded_add total 1;
        bare ← comparison_bare_sequence_size (rs_len key);
        total ← checked_decoded_add total bare;
        size ← comparison_encoded_size_bytes value;
        checked_decoded_add total size) 2 entries
  end.

Section visiting.
Context {S E : Type} (visit : bytes -> S -> S * result E unit).

(** Sequencing of visits that can stop with the visitor's error. *)
Definition then_visit (m k : S -> S * result E unit) : S -> S * result E unit := fun s =>
  match m s with (s', Ok _) => k s' | (s', Err e) => (s', Err e) end.

Definition visit_each {A} (f : A -> S -> S * result E unit) (last : S -> S * result E unit)
  : list A -> S -> S * result E unit :=
  fix go l :=
    match l with
    | [] => last
    | a :: l' => then_visit (f a) (go l')
    end.

(** [positron-domain/src/value/validated_encoding.rs:282-290 visit_comparison_sequence] *)
Definition visit_comparison_sequence (bs : bytes) : S -> S * result E unit :=
  visit_each (fun byte => visit [1; byte]) (visit [0]) bs.

(** The [i64] sign flip and the IEEE-754 total-order key. *)
Definition ordered_signed (value : Z) : Z := Z.lxor (value mod two64) two63.
Definition ordered_float (bits : Z) : Z :=
  if Z.land bits two63 =? 0 then Z.lxor bits two63 else Z.lxor bits u64_max.

(** [positron-domain/src/value/validated_encoding.rs:97-152 ValidatedAttributeValue::visit_comparison_encoding] *)
Fixpoint visit_comparison_encoding (v : ValidatedAttributeValue) : S -> S * result E unit :=
  match v with
  | VNull => visit [0]
  | VBoolean value => visit [1; Z.b2z value]
  | VSignedInteger value => then_visit (visit [2]) (visit (be_bytes 8 (ordered_signed value)))
  | VFloatingPointBits bits => then_visit (visit [3]) (visit (be_bytes 8 (ordered_float bits)))
  | VString value => then_visit (visit [4]) (visit_comparison_sequence (text value))
  | VBytes value => then_visit (visit [5]) (visit_comparison_sequence (text value))
  | VArray values _ =>
      then_visit (visit [6])
        (visit_each (fun value => then_visit (visit [1]) (visit_comparison_encoding value)) (visit [0]) values)
  | VKeyValueList entries _ =>
      then_visit (visit [7])
        (visit_each (fun '(key, value) =>
           then_visit (visit [1])
             (then_visit (visit_comparison_sequence (text key)) (visit_comparison_encoding value)))
           (visit [0]) entries)
  | VMarker marker =>
      visit [8; comparison_marker_action_tag (action marker);
             comparison_native_kind_tag (original_kind marker)]
  | VTruncated value _ => visit_comparison_encoding value
  end.
End visiting.

(** The visitor that appends to a growing buffer. *)
Definition appending (fragment output : bytes) : bytes * result DomainFailure unit :=
  (output ++ fragment, Ok tt).

(** [positron-domain/src/value/validated_encoding.rs:82-91 ValidatedAttributeValue::append_comparison_encoding]
    [available] says whether the reservation of the output buffer succeeds. *)
Definition append_comparison_encoding (available : Z -> bool) (v : ValidatedAttributeValue) (output : bytes)
  : bytes * result DomainFailure unit :=
  match comparison_encoded_size_bytes v with
  | Err f => (output, Err f)
  | Ok encoded =>
      if available encoded then visit_comparison_encoding appending v output
      else (output, Err allocation_unavailable)
  end.

(** ** The encoding as a byte string *)

Definition sequence_bytes (bs : bytes) : bytes := flat_map (fun b => [1; b]) bs ++ [0].

(** The encoding with the fragment of a marker left open. *)
Section with_marker_bytes.
Context (marker_bytes : RedactionMarker -> bytes).

Fixpoint encoded_with (v : ValidatedAttributeValue) : bytes :=
  match v with
  | VNull => [0]
  | VBoolean b => [1; Z.b2z b]
  | VSignedInteger z => 2 :: be_bytes 8 (ordered_signed z)
  | VFloatingPointBits z => 3 :: be_bytes 8 (ordered_float z)
  | VString s => 4 :: sequence_bytes (text s)
  | VBytes s => 5 :: sequence_bytes (text s)
  | VArray vs _ => 6 :: flat_map (fun v => 1 :: encoded_with v) vs ++ [0]
  | VKeyValueList es _ =>
      7 :: flat_map (fun '(k, v) => 1 :: sequence_bytes (text k) ++ encoded_with v) es ++ [0]
  | VMarker m => 8 :: marker_bytes m
  | VTruncated v _ => encoded_with v
  end.
End with_marker_bytes.

(** What the program writes, and what would follow the order on markers too. *)
Definition written_marker (m : RedactionMarker) : bytes :=
  [comparison_marker_action_tag (action m); comparison_native_kind_tag (original_kind m)].
Definition ordered_marker (m : RedactionMarker) : bytes :=
  [kind_rank (original_kind m); action_rank (action m)].
Definition comparison_bytes := encoded_with written_marker.
Definition order_key := encoded_with ordered_marker.

(** Machine integers in range; what validation and the wire types guarantee. *)
Fixpoint in_range (v : ValidatedAttributeValue) : Prop :=
  match v with
  | VSignedInteger z => i64_min <= z <= i64_max
  | VFloatingPointBits z => 0 <= z <= u64_max
  | VArray vs _ => all_of in_range vs
  | VKeyValueList es _ => all_of (fun '(_, v) => in_range v) es
  | VTruncated v _ => in_range v
  | _ => True
  end.

(** ** Bit-level keys *)

Lemma land_high_bit x : 0 <= x < two63 -> Z.land x two63 = 0.
Proof.
  intros Hx. change two63 with (2 ^ 63) in *. apply Z.bits_inj'. intros n Hn.
  rewrite Z.land_spec, Z.bits_0, Z.pow2_bits_eqb by lia.
  destruct (Z.eqb_spec 63 n) as [<-|]; [|apply andb_false_r].
  rewrite (Z.bits_above_log2 x 63); [done|lia|].
  destruct (Z.eq_dec x 0) as [->|]; [by vm_compute|]. apply Z.log2_lt_pow2; lia.
Qed.

Lemma lxor_high_bit x : 0 <= x < two63 -> Z.lxor x two63 = x + two63.
Proof. intros Hx. symmetry. apply Z.add_nocarry_lxor. by apply land_high_bit. Qed.

Lemma lxor_high_bit_set x : 0 <= x < two63 -> Z.lxor (x + two63) two63 = x.
Proof.
  intros Hx. rewrite <- (lxor_high_bit x Hx), Z.lxor_assoc, Z.lxor_nilpotent. apply Z.lxor_0_r.
Qed.

(** Flipping all the bits below [2 ^ n]. *)
Lemma lxor_ones n x : 0 <= n -> 0 <= x < 2 ^ n -> Z.lxor x (Z.ones n) = Z.ones n - x.
Proof.
  intros Hn Hx.
  assert (Hm : Z.land x (Z.ones n) = x) by (rewrite Z.land_ones by lia; by apply Z.mod_small).
  assert (Hl : Z.land x (Z.lxor x (Z.ones n)) = 0).
  { apply Z.bits_inj'. intros i Hi. apply (f_equal (fun z => Z.testbit z i)) in Hm.
    rewrite Z.land_spec in Hm. rewrite Z.land_spec, Z.lxor_spec, Z.bits_0.
    destruct (Z.testbit x i), (Z.testbit (Z.ones n) i); done. }
  pose proof (Z.add_nocarry_lxor _ _ Hl) as Ha.
  rewrite <- Z.lxor_assoc, Z.lxor_nilpotent, Z.lxor_0_l in Ha. lia.
Qed.

Lemma ordered_signed_value z : i64_min <= z <= i64_max -> ordered_signed z = z + two63.
Proof.
  intros Hz. unfold ordered_signed, i64_min, i64_max in *. destruct (Z.leb_spec 0 z).
  - rewrite Z.mod_small by (unfold two64; lia). apply lxor_high_bit. unfold two63. lia.
  - rewrite <- (Z.mod_add z 1) by done. rewrite Z.mod_small by (unfold two64; lia).
    replace (z + 1 * two64) with (z + two63 + two63) by (unfold two63, two64; lia).
    apply lxor_high_bit_set. unfold two63. lia.
Qed.

(** The flipped float key is the total-order key, shifted to the unsigned range. *)
Lemma ordered_float_value b : 0 <= b <= u64_max ->
  ordered_float b = total_cmp_key b + two63 /\ 0 <= ordered_float b < two64.
Proof.
  intros Hb. unfold ordered_float, total_cmp_key, as_i64, u64_max, i64_max in *.
  destruct (Z.leb_spec b 9223372036854775807).
  - rewrite land_high_bit by (unfold two63; lia). rewrite Z.eqb_refl, lxor_high_bit by (unfold two63; lia).
    rewrite (proj2 (Z.ltb_ge b 0)), Z.lxor_0_r by lia. unfold two63, two64. lia.
  - rewrite (proj2 (Z.ltb_lt (b - two64) 0)) by (unfold two64; lia).
    assert (Hland : Z.land b two63 = two63).
    { replace b with (b - two63 + two63) by lia. rewrite <- lxor_high_bit by (unfold two63; lia).
      rewrite Z.land_comm. apply Z.bits_inj'. intros i Hi. rewrite Z.land_spec, Z.lxor_spec.
      pose proof (f_equal (fun z => Z.testbit z i) (land_high_bit (b - two63) ltac:(unfold two63; lia))) as Hz.
      cbn beta in Hz. rewrite Z.land_spec, Z.bits_0 in Hz.
      by destruct (Z.testbit (b - two63) i), (Z.testbit two63 i). }
    rewrite Hland. change (two63 =? 0) with false. cbv iota.
    change 18446744073709551615 with (Z.ones 64). rewrite lxor_ones by (change (2 ^ 64) with 18446744073709551616; lia).
    replace (b - two64) with (Z.lnot (two64 - 1 - b)) by (unfold Z.lnot; lia).
    change 9223372036854775807 with (Z.ones 63).
    rewrite <- Z.lnot_lxor_l, lxor_ones by (unfold two64; change (2 ^ 63) with 9223372036854775808; lia).
    unfold Z.lnot, two63, two64. change (Z.ones 64) with 18446744073709551615. change (Z.ones 63) with 9223372036854775807. lia.
Qed.

Lemma signed_compare x y : i64_min <= x <= i64_max -> i64_min <= y <= i64_max ->
  lex_compare (be_bytes 8 (ordered_signed x)) (be_bytes 8 (ordered_signed y)) = (x ?= y).
Proof.
  intros Hx Hy. rewrite !ordered_signed_value by done. unfold i64_min, i64_max, two63 in *.
  rewrite lex_compare_be_bytes by (change (256 ^ Z.of_nat 8) with 18446744073709551616; lia).
  destruct (Z.compare_spec x y); [apply Z.compare_eq_iff|apply Z.compare_lt_iff|apply Z.compare_gt_iff]; lia.
Qed.

Lemma float_compare x y : 0 <= x <= u64_max -> 0 <= y <= u64_max ->
  lex_compare (be_bytes 8 (ordered_float x)) (be_bytes 8 (ordered_float y)) = total_cmp x y.
Proof.
  intros Hx Hy. apply ordered_float_value in Hx as [Hx Hx']. apply ordered_float_value in Hy as [Hy Hy'].
  rewrite lex_compare_be_bytes by (change (256 ^ Z.of_nat 8) with two64; lia). unfold total_cmp.
  destruct (Z.compare_spec (total_cmp_key x) (total_cmp_key y));
    [apply Z.compare_eq_iff|apply Z.compare_lt_iff|apply Z.compare_gt_iff]; lia.
Qed.

(** ** Bytewise order is the canonical order *)

(** [enc] preserves [cmp] in front of any continuation. *)
Definition order_preserving {A} (enc : A -> bytes) (cmp : A -> A -> comparison) (x y : A) : Prop :=
  forall r s, lex_compare (enc x ++ r) (enc y ++ s) = then_with (cmp x y) (lex_compare r s).

Lemma sequence_compare a b r s :
  lex_compare (sequence_bytes a ++ r) (sequence_bytes b ++ s) = then_with (lex_compare a b) (lex_compare r s).
Proof.
  unfold sequence_bytes. revert b. induction a as [|x a IH]; intros [|y b]; simpl; try done.
  destruct (x ?= y); simpl; try done.
Qed.

Lemma slice_compare {A} (enc : A -> bytes) (cmp : A -> A -> comparison) (P : A -> Prop) l l' r s :
  Forall (fun x => forall y, P y -> order_preserving enc cmp x y) l -> Forall P l' ->
  lex_compare (flat_map (fun x => 1 :: enc x) l ++ 0 :: r) (flat_map (fun x => 1 :: enc x) l' ++ 0 :: s)
  = then_with (slice_cmp cmp l l') (lex_compare r s).
Proof.
  intros Hl. revert l'. induction Hl as [|x l Hx _ IH]; intros [|y l'] Hl'; simpl; try done.
  apply Forall_cons in Hl' as [Hy Hl']. rewrite <- !app_assoc. rewrite (Hx y Hy).
  destruct (cmp x y); simpl; try done. by apply IH.
Qed.

Lemma entry_fragments (enc : ValidatedAttributeValue -> bytes) (l : list (RString * ValidatedAttributeValue)) :
  flat_map (fun '(k, v) => 1 :: sequence_bytes (text k) ++ enc v) l
  = flat_map (fun e => 1 :: (fun '(k, v) => sequence_bytes (text k) ++ enc v) e) l.
Proof. apply flat_map_ext. by intros [k v]. Qed.

Lemma order_key_compare v w : in_range v -> in_range w -> order_preserving order_key vcmp v w.
Proof.
  unfold order_key.
  revert w. induction v as [|b|z|z|p|p|vs cap IH|es cap IH|m|v a IH] using validated_ind';
    intros w Hv Hw;
    induction w as [|b'|z'|z'|q|q|ws wcap _|fs wcap _|m'|w a' IHw] using validated_ind';
    intros r s; try (exact (IHw Hw r s)); try (exact (IH _ Hv Hw r s)); try done;
    cbn [encoded_with in_range] in *; rewrite <- ?app_comm_cons; cbn [lex_compare]; rewrite ?Z.compare_refl.
  - destruct b, b'; done.
  - rewrite lex_compare_app by (by rewrite !length_be_bytes). by rewrite signed_compare.
  - rewrite lex_compare_app by (by rewrite !length_be_bytes). by rewrite float_compare.
  - apply sequence_compare.
  - apply sequence_compare.
  - rewrite <- !app_assoc. apply (slice_compare _ _ in_range); [|by apply all_of_Forall].
    apply all_of_Forall in Hv. rewrite Forall_forall in IH, Hv |- *. eauto.
  - apply all_of_Forall in Hv, Hw. rewrite <- !app_assoc.
    rewrite (entry_fragments _ es), (entry_fragments _ fs).
    apply (slice_compare _ (fun x y => entry_cmp (fun a b => vcmp a b) x y) (fun '(_, v) => in_range v)); [|done].
    rewrite Forall_forall in IH, Hv |- *. intros [k v] Hin [k' v'] Hv' r' s'.
    rewrite <- !app_assoc, sequence_compare. rewrite (IH _ Hin); [|by apply (Hv _ Hin)|done].
    simpl. by rewrite then_with_assoc.
  - unfold ordered_marker. cbn [app lex_compare vcmp].
    by destruct (kind_rank (original_kind m) ?= _), (action_rank (action m) ?= _).
Qed.

Lemma vcmp_order_key v w : in_range v -> in_range w -> vcmp v w = lex_compare (order_key v) (order_key w).
Proof.
  intros Hv Hw. pose proof (order_key_compare v w Hv Hw [] []) as H. rewrite !app_nil_r in H.
  rewrite H. simpl. by destruct (vcmp v w).
Qed.

Lemma plain_bytes v : contains_marker v = false -> comparison_bytes v = order_key v.
Proof.
  unfold comparison_bytes, order_key.
  induction v as [|b|z|z|p|p|vs cap IH|es cap IH|m|v a IH] using validated_ind'; try done; simpl.
  - intros Hm. do 2 f_equal. induction IH as [|v vs Hv _ IHl]; [done|]. simpl in *.
    apply orb_false_iff in Hm as [H1 H2]. by rewrite Hv, IHl.
  - intros Hm. do 2 f_equal. induction IH as [|[k v] es Hv _ IHl]; [done|]. simpl in *.
    apply orb_false_iff in Hm as [H1 H2]. by rewrite Hv, IHl.
Qed.

(** ** What is written *)

Lemma then_visit_appending m k (output a b : bytes) :
  m output = (output ++ a, Ok tt) -> k (output ++ a) = (output ++ a ++ b, Ok tt) ->
  then_visit (E := DomainFailure) m k output = (output ++ a ++ b, Ok tt).
Proof. intros Hm Hk. unfold then_visit. by rewrite Hm. Qed.

Lemma visit_each_appending {A} (f : A -> bytes -> bytes * result DomainFailure unit) (g : A -> bytes) l output :
  Forall (fun a => forall out, f a out = (out ++ g a, Ok tt)) l ->
  visit_each f (appending [0]) l output = (output ++ flat_map g l ++ [0], Ok tt).
Proof.
  intros Hl. revert output. induction Hl as [|a l Ha _ IH]; intros output; [done|]. simpl.
  rewrite <- app_assoc. apply then_visit_appending; [apply Ha|]. rewrite IH. by rewrite <- app_assoc.
Qed.

Lemma visit_sequence_appending bs output :
  visit_comparison_sequence appending bs output = (output ++ sequence_bytes bs, Ok tt).
Proof. apply visit_each_appending. by apply Forall_true. Qed.

Lemma visit_comparison_bytes v output :
  visit_comparison_encoding appending v output = (output ++ comparison_bytes v, Ok tt).
Proof.
  unfold comparison_bytes. revert output.
  induction v as [|b|z|z|p|p|vs cap IH|es cap IH|m|v a IH] using validated_ind'; intros output; try done;
    try apply IH; cbn [visit_comparison_encoding encoded_with].
  - by apply (then_visit_appending _ _ _ [2]); [|unfold appending; rewrite <- app_assoc].
  - by apply (then_visit_appending _ _ _ [3]); [|unfold appending; rewrite <- app_assoc].
  - apply (then_visit_appending _ _ _ [4]); [done|]. rewrite visit_sequence_appending. by rewrite <- app_assoc.
  - apply (then_visit_appending _ _ _ [5]); [done|]. rewrite visit_sequence_appending. by rewrite <- app_assoc.
  - apply (then_visit_appending _ _ _ [6]); [done|].
    rewrite (visit_each_appending _ (fun v => 1 :: encoded_with written_marker v)); [by rewrite <- !app_assoc|].
    eapply Forall_impl; [exact IH|]. intros v Hv out.
    apply (then_visit_appending _ _ _ [1]); [done|]. rewrite Hv. by rewrite <- app_assoc.
  - apply (then_visit_appending _ _ _ [7]); [done|].
    rewrite (visit_each_appending _ (fun '(k, v) => 1 :: sequence_bytes (text k) ++ encoded_with written_marker v));
      [by rewrite <- !app_assoc|].
    eapply Forall_impl; [exact IH|]. intros [k v] Hv out. simpl in Hv.
    apply (then_visit_appending _ _ _ [1]); [done|].
    rewrite (app_assoc out [1]). apply then_visit_appending; [apply visit_sequence_appending|].
    rewrite Hv. by rewrite <- !app_assoc.
Qed.

(** ** The size is the length *)

Lemma bare_size_is_length bs : comparison_bare_sequence_size (zlen bs) = sized (zlen (sequence_bytes bs)).
Proof.
  unfold sequence_bytes. rewrite zlen_app, zlen_flat_map.
  assert (H : foldr (fun (a : Z) n => zlen [1; a] + n) 0 bs = zlen bs * 2).
  { induction bs as [|b bs IH]; [done|]. cbn [foldr]. rewrite IH, !zlen_cons. change (zlen []) with 0. lia. }
  rewrite H. change (zlen [0]) with 1. pose proof (zlen_nonneg bs).
  unfold comparison_bare_sequence_size, checked_mul, checked_add, sized.
  destruct (Z.leb_spec (zlen bs * 2) usize_max); cbn [mbind option_bind].
  - by case_match.
  - by rewrite (proj2 (Z.leb_gt _ _)) by lia.
Qed.

Lemma sequence_size_is_length bs : comparison_sequence_size (zlen bs) = sized (1 + zlen (sequence_bytes bs)).
Proof.
  unfold comparison_sequence_size. rewrite bare_size_is_length.
  apply sized_add_sized; [done|done|apply zlen_nonneg].
Qed.

(** Sums of sizes inside the folds. *)
Lemma sized_sum2 n a b : 0 <= n -> 0 <= a -> 0 <= b ->
  (x ← sized (n + a); y ← sized b; checked_decoded_add x y) = sized (n + (a + b)).
Proof.
  intros Hn Ha Hb. unfold sized, checked_decoded_add, checked_add.
  destruct (Z.leb_spec (n + a) usize_max), (Z.leb_spec b usize_max); cbn [mbind result_bind];
    rewrite ?Z.add_assoc; try (by case_match); by rewrite (proj2 (Z.leb_gt _ _)) by lia.
Qed.

Lemma decoded_add_sized n a : checked_decoded_add n a = sized (n + a).
Proof. unfold sized, checked_decoded_add, checked_add. by case_match. Qed.

Lemma comparison_size_is_length v : comparison_encoded_size_bytes v = sized (zlen (comparison_bytes v)).
Proof.
  unfold comparison_bytes.
  induction v as [|b|z|z|p|p|vs cap IH|es cap IH|m|v a IH] using validated_ind'; try done;
    cbn [comparison_encoded_size_bytes encoded_with]; rewrite ?zlen_cons.
  - apply sequence_size_is_length.
  - apply sequence_size_is_length.
  - rewrite (sized_fold _ (fun v => 1 + zlen (encoded_with written_marker v))).
    + rewrite zlen_app, zlen_flat_map. change (zlen [0]) with 1. f_equal.
      induction vs as [|v vs IHl]; [done|]. apply Forall_cons in IH as [_ IH]. specialize (IHl IH).
      cbn [foldr]. rewrite zlen_cons. lia.
    + intros v. pose proof (zlen_nonneg (encoded_with written_marker v)). lia.
    + intros n v Hn Hv. rewrite Forall_forall in IH. rewrite (IH v Hv), decoded_add_sized.
      apply sized_sum2; [lia|done|apply zlen_nonneg].
    + by vm_compute.
  - rewrite (sized_fold _ (fun '(k, v) => 1 + zlen (sequence_bytes (text k)) + zlen (encoded_with written_marker v))).
    + rewrite zlen_app, zlen_flat_map. change (zlen [0]) with 1. f_equal.
      induction es as [|[k v] es IHl]; [done|]. apply Forall_cons in IH as [_ IH]. specialize (IHl IH).
      cbn [foldr]. rewrite zlen_cons, zlen_app. lia.
    + intros [k v]. pose proof (zlen_nonneg (sequence_bytes (text k))).
      pose proof (zlen_nonneg (encoded_with written_marker v)). lia.
    + intros n [k v] Hn Hv. rewrite Forall_forall in IH. pose proof (IH _ Hv) as IHv. cbn [snd] in IHv.
      rewrite IHv, decoded_add_sized. unfold rs_len. rewrite bare_size_is_length.
      pose proof (zlen_nonneg (sequence_bytes (text k))). pose proof (zlen_nonneg (encoded_with written_marker v)).
      transitivity (t ← sized (n + (1 + zlen (sequence_bytes (text k)))); size ← sized (zlen (encoded_with written_marker v));
                    checked_decoded_add t size); [|by apply sized_sum2; lia].
      rewrite <- sized_sum2 by lia. destruct (sized (n + 1)); [|done]. cbn [mbind result_bind].
      by destruct (sized (zlen (sequence_bytes _))).
    + by vm_compute.
Qed.

Lemma append_comparison_ok v output : zlen (comparison_bytes v) <= usize_max ->
  append_comparison_encoding (fun _ => true) v output = (output ++ comparison_bytes v, Ok tt).
Proof.
  intros H. unfold append_comparison_encoding. rewrite comparison_size_is_length, sized_ok by done.
  apply visit_comparison_bytes.
Qed.

(** ** The contract of the comparison encoding *)

(** C8 (equivalence). The comparison encoding is order preserving: for values without policy
    markers, comparing the appended bytes lexicographically gives exactly the canonical order,
    for every nesting of scalars, IEEE-754 bit patterns, strings, arrays and key/value lists. *)
Theorem comparison_encoding_preserves_order (v w : ValidatedAttributeValue) (b1 b2 : bytes) :
  in_range v -> in_range w -> contains_marker v = false -> contains_marker w = false ->
  zlen (comparison_bytes v) <= usize_max -> zlen (comparison_bytes w) <= usize_max ->
  append_comparison_encoding (fun _ => true) v [] = (b1, Ok tt) ->
  append_comparison_encoding (fun _ => true) w [] = (b2, Ok tt) ->
  lex_compare b1 b2 = vcmp v w.
Proof.
  intros Hv Hw Hmv Hmw Hlv Hlw. rewrite !append_comparison_ok by done. intros [= <-] [= <-].
  rewrite (plain_bytes v Hmv), (plain_bytes w Hmw). symmetry. by apply vcmp_order_key.
Qed.

Lemma comparison_encoding_preserves_order_witness :
  lex_compare [6; 1; 2; 127; 255; 255; 255; 255; 255; 255; 251; 0] [6; 1; 2; 128; 0; 0; 0; 0; 0; 0; 3; 0] = Lt
  /\ vcmp (VArray [VSignedInteger (-5)] 1) (VArray [VSignedInteger 3] 1) = Lt.
Proof.
  split; [|reflexivity].
  rewrite (comparison_encoding_preserves_order (VArray [VSignedInteger (-5)] 1) (VArray [VSignedInteger 3] 1));
    vm_compute; intuition congruence.
Defined.

(** Also (bounds). The size computed before a comparison encoding is appended is the exact number of
    bytes written, and it is an error exactly when that number does not fit [usize]. *)
Theorem comparison_size_is_exact (v : ValidatedAttributeValue) (output : bytes) :
  (zlen (comparison_bytes v) <= usize_max ->
     comparison_encoded_size_bytes v = Ok (zlen (comparison_bytes v))
     /\ append_comparison_encoding (fun _ => true) v output = (output ++ comparison_bytes v, Ok tt))
  /\ (usize_max < zlen (comparison_bytes v) ->
     append_comparison_encoding (fun _ => true) v output = (output, Err value_limit_exceeded)).
Proof.
  split; intros H.
  - by rewrite comparison_size_is_length, sized_ok, append_comparison_ok.
  - unfold append_comparison_encoding. rewrite comparison_size_is_length. unfold sized.
    by rewrite (proj2 (Z.leb_gt _ _) H).
Qed.

Lemma comparison_size_is_exact_witness :
  comparison_encoded_size_bytes (VString (mkRString [108; 101] 2)) = Ok 6.
Proof. exact (proj1 (proj1 (comparison_size_is_exact (VString (mkRString [108; 101] 2)) []) ltac:(by vm_compute))). Defined.

(** Also (functional). The canonical order is a total preorder on all values, markers and truncated
    values included: swapping the arguments swaps the answer, and "less" is transitive. *)
Theorem canonical_order_is_total (u v w : ValidatedAttributeValue) :
  in_range u -> in_range v -> in_range w ->
  vcmp u u = Eq /\ vcmp v u = CompOpp (vcmp u v)
  /\ (vcmp u v = Lt -> vcmp v w = Lt -> vcmp u w = Lt).
Proof.
  intros Hu Hv Hw. rewrite !vcmp_order_key by done. split; [apply lex_compare_refl|].
  split; [apply lex_compare_antisym|apply lex_compare_trans_lt].
Qed.

Lemma canonical_order_is_total_witness :
  vcmp (VMarker (mkRedactionMarker KNull Redacted)) (VMarker (mkRedactionMarker KString Removed)) = Lt
  /\ vcmp (VMarker (mkRedactionMarker KString Removed)) (VMarker (mkRedactionMarker KNull Redacted)) = Gt.
Proof.
  split; [reflexivity|].
  exact (proj1 (proj2 (canonical_order_is_total (VMarker (mkRedactionMarker KNull Redacted))
    (VMarker (mkRedactionMarker KString Removed)) VNull I I I))).
Defined.

(** Also (functional). On markers the comparison encoding does not follow the canonical order: the
    encoding puts the action before the original kind, the order compares the kind first. *)
Theorem marker_encoding_reverses_order :
  let removed_string := VMarker (mkRedactionMarker KString Removed) in
  let redacted_null := VMarker (mkRedactionMarker KNull Redacted) in
  vcmp removed_string redacted_null = Gt
  /\ lex_compare (append_comparison_encoding (fun _ => true) removed_string []).1
       (append_comparison_encoding (fun _ => true) redacted_null []).1 = Lt.
Proof. by vm_compute. Qed.
