(* ===== verification/Occurrences.v ===== *)
(** Occurrences: repeated attribute values under one key, from candidate to validated set
    (crates/positron-domain/src/value/occurrences.rs and observed_encoding.rs). *)

From S2P Require Import Prelude Outcome Limits Values Observe Traversal Validation Shape CanonicalEncoding ComparisonOrder.

(** [positron-domain/src/value/occurrences.rs:6-11 AttributeOccurrenceSetCandidate] *)
Record AttributeOccurrenceSetCandidate := mkOccurrenceCandidate {
  candidate_namespace : AttributeNamespace;
  candidate_key : RString;
  candidate_occurrences : list CandidateAttributeValue;
}.

(** [positron-domain/src/value/occurrences.rs:68-73 AttributeOccurrenceSet] The capacity is that of
    the vector of occurrences. *)
Record AttributeOccurrenceSet := mkOccurrenceSet {
  namespace : AttributeNamespace;
  key : RString;
  occurrences : list ValidatedAttributeValue;
  occurrences_capacity : Z;
}.

(** [positron-domain/src/value/occurrences.rs:80-80 PROJECTED_OCCURRENCE_SLOT_BYTES] *)
Definition PROJECTED_OCCURRENCE_SLOT_BYTES : Z := 64.

(** [positron-domain/src/value/occurrences.rs:267-274 namespace_tag] *)
Definition namespace_tag (n : AttributeNamespace) : Z :=
  match n with NsStream => 0 | NsResource => 1 | NsInstrumentationScope => 2 | NsRecord => 3 end.

(** The guard that all constructors of an occurrence set share. *)
Definition set_shape_rejected (key_text : bytes) (count : Z) (limits : ValueLimitSet) : bool :=
  bool_decide (key_text = [])
  || exceeds_byte_limit (zlen key_text) (key_path_bytes (dynamic_value limits))
  || (count =? 0)
  || exceeds_collection_limit count (attributes_per_namespace (dynamic_value limits)).

(** The loop that revalidates every occurrence under a profile's limits. *)
Definition revalidate_all (vs : list ValidatedAttributeValue) (limits : ValueLimitSet)
  : result DomainFailure unit :=
  try_fold (fun _ v => validate_against v limits (individual_value_bytes (dynamic_value limits))
              (nesting_limit (nesting_depth (dynamic_value limits)))) tt vs.

Section construction.
Context {S : Type} {Alloc : Allocator S} {Lay : Layout}.

Fixpoint validate_occurrences (cs : list CandidateAttributeValue) (limits : ValueLimitSet) (s : S)
  : S * result DomainFailure (list ValidatedAttributeValue) :=
  match cs with
  | [] => (s, Ok [])
  | c :: cs' =>
      match validate_attribute_value c limits (individual_value_bytes (dynamic_value limits))
              (nesting_limit (nesting_depth (dynamic_value limits))) s with
      | (s, Err f) => (s, Err f)
      | (s, Ok v) =>
          match validate_occurrences cs' limits s with
          | (s, Ok vs) => (s, Ok (v :: vs))
          | (s, Err f) => (s, Err f)
          end
      end
  end.

(** [positron-domain/src/value/occurrences.rs:28-60 AttributeOccurrenceSetCandidate::validate] *)
Definition candidate_validate (self : AttributeOccurrenceSetCandidate) (profile : ValueLimitProfile) (s : S)
  : S * result DomainFailure AttributeOccurrenceSet :=
  let limits := effective_limits profile in
  if set_shape_rejected (text (candidate_key self)) (zlen (candidate_occurrences self)) limits
  then (s, Err value_limit_exceeded)
  else
    match try_reserve_exact (zlen (candidate_occurrences self)) s with
    | (s, None) => (s, Err allocation_unavailable)
    | (s, Some cap) =>
        match validate_occurrences (candidate_occurrences self) limits s with
        | (s, Err f) => (s, Err f)
        | (s, Ok vs) => (s, Ok (mkOccurrenceSet (candidate_namespace self) (candidate_key self) vs cap))
        end
    end.

(** [positron-domain/src/value/occurrences.rs:83-112 AttributeOccurrenceSet::from_validated] *)
Definition from_validated (ns : AttributeNamespace) (k : RString) (vs : list ValidatedAttributeValue)
    (cap : Z) (profile : ValueLimitProfile) : result DomainFailure AttributeOccurrenceSet :=
  let limits := effective_limits profile in
  if set_shape_rejected (text k) (zlen vs) limits then Err value_limit_exceeded
  else _ ← revalidate_all vs limits; Ok (mkOccurrenceSet ns k vs cap).

(** [positron-domain/src/value/occurrences.rs:115-132 AttributeOccurrenceSet::try_clone] *)
Definition set_try_clone {E} {Obs : NativeValueObserver S E} (self : AttributeOccurrenceSet)
  : M S E AttributeOccurrenceSet :=
  k ← try_string (text (key self));
  cap ← reserve_exact (zlen (occurrences self));
  vs ← m_map (fun v => try_clone v) (occurrences self);
  mret (mkOccurrenceSet (namespace self) k vs cap).
End construction.

(** [positron-domain/src/value/occurrences.rs:147-150 AttributeOccurrenceSet::len] *)
Definition set_len (self : AttributeOccurrenceSet) : Z := zlen (occurrences self).

(** [positron-domain/src/value/occurrences.rs:153-156 AttributeOccurrenceSet::is_empty] *)
Definition set_is_empty (self : AttributeOccurrenceSet) : bool := bool_decide (occurrences self = []).

(** [positron-domain/src/value/occurrences.rs:159-162 AttributeOccurrenceSet::occurrence] *)
Definition occurrence (self : AttributeOccurrenceSet) (index : nat) : option ValidatedAttributeValue :=
  occurrences self !! index.

(** [positron-domain/src/value/occurrences.rs:198-218 AttributeOccurrenceSet::validate_with_profile] *)
Definition validate_with_profile (self : AttributeOccurrenceSet) (profile : ValueLimitProfile)
  : result DomainFailure unit :=
  let limits := effective_limits profile in
  if set_shape_rejected (text (key self)) (zlen (occurrences self)) limits then Err value_limit_exceeded
  else revalidate_all (occurrences self) limits.

(** [positron-domain/src/value/occurrences.rs:165-172 AttributeOccurrenceSet::retained_occurrence_bytes] *)
Definition retained_occurrence_bytes `{Layout} (v : ValidatedAttributeValue) : result DomainFailure Z :=
  retained ← value_retained_heap_bytes v;
  checked_decoded_add size_of_ValidatedAttributeValue retained.

(** [positron-domain/src/value/occurrences.rs:175-191 AttributeOccurrenceSet::retained_heap_bytes] *)
Definition set_retained_heap_bytes `{Layout} (self : AttributeOccurrenceSet) : result DomainFailure Z :=
  slots ← ok_or value_limit_exceeded
    (checked_mul usize_max (occurrences_capacity self) size_of_ValidatedAttributeValue);
  retained ← ok_or value_limit_exceeded (checked_add usize_max (capacity (key self)) slots);
  try_fold (fun total v =>
    child ← value_retained_heap_bytes v;
    ok_or value_limit_exceeded (checked_add usize_max total child)) retained (occurrences self).

(** [positron-domain/src/value/occurrences.rs:221-235 AttributeOccurrenceSet::projected_occurrence_capacity_bytes]
    A [u32] limit always fits a 64-bit [usize]. *)
Definition projected_occurrence_capacity_bytes (profile : ValueLimitProfile) : result DomainFailure Z :=
  ok_or value_limit_exceeded
    (checked_mul usize_max
       (collection_limit (attributes_per_namespace (dynamic_value (effective_limits profile))))
       PROJECTED_OCCURRENCE_SLOT_BYTES).

(** [positron-domain/src/value/occurrences.rs:238-245 AttributeOccurrenceSet::canonical_encoded_size_bytes] *)
Definition set_canonical_encoded_size_bytes (self : AttributeOccurrenceSet) : result DomainFailure Z :=
  prefix ← checked_decoded_add 17 (rs_len (key self));
  try_fold (fun total v =>
    size ← canonical_encoded_size_bytes v;
    checked_decoded_add total size) prefix (occurrences self).

(** [positron-domain/src/value/occurrences.rs:248-259 AttributeOccurrenceSet::visit_comparison_encoding] *)
Definition set_visit_comparison_encoding {S E} (visit : bytes -> S -> S * result E unit)
    (self : AttributeOccurrenceSet) : S -> S * result E unit :=
  then_visit (visit [namespace_tag (namespace self)])
    (then_visit (visit_comparison_sequence visit (text (key self)))
       (visit_each (fun v => then_visit (visit [1]) (visit_comparison_encoding visit v)) (visit [0])
          (occurrences self))).

Section observed.
Context {S E : Type} {Obs : NativeValueObserver S E} {Lay : Layout}.

(** [positron-domain/src/value/observed_encoding.rs:158-174 AttributeOccurrenceSet::retained_heap_bytes_observed] *)
Definition set_retained_heap_bytes_observed (self : AttributeOccurrenceSet) : M S E Z :=
  _ ← observe_structure;
  _ ← observe_payload (text (key self));
  slots ← lift (ok_or value_limit_exceeded
    (checked_mul usize_max (occurrences_capacity self) size_of_ValidatedAttributeValue));
  retained ← lift (checked_size_add (capacity (key self)) slots);
  m_try_fold (fun total v =>
    child ← retained_heap_bytes_observed v;
    lift (checked_size_add total child)) (occurrences self) retained.

(** [positron-domain/src/value/observed_encoding.rs:177-195 AttributeOccurrenceSet::canonical_encoded_size_bytes_observed] *)
Definition set_canonical_encoded_size_bytes_observed (self : AttributeOccurrenceSet) : M S E Z :=
  _ ← observe_structure;
  _ ← observe_payload (text (key self));
  total ← lift (checked_size_add 17 (rs_len (key self)));
  m_try_fold (fun total index =>
    _ ← observe_structure;
    v ← lift (ok_or value_limit_exceeded (occurrence self index));
    size ← canonical_encoded_size_bytes_observed v;
    lift (checked_size_add total size)) (seq 0 (length (occurrences self))) total.

(** [positron-domain/src/value/observed_encoding.rs:198-221 AttributeOccurrenceSet::visit_canonical_encoding_observed] *)
Definition set_visit_canonical_encoding_observed (self : AttributeOccurrenceSet)
  : M (S * list bytes) E unit :=
  _ ← observing observe_structure;
  _ ← visit [namespace_tag (namespace self)];
  _ ← visit_length (rs_len (key self));
  _ ← visit_observed_payload (text (key self));
  _ ← visit_length (set_len self);
  m_iter (fun index =>
    _ ← observing observe_structure;
    v ← lift (ok_or value_limit_exceeded (occurrence self index));
    visit_canonical_encoding_observed v) (seq 0 (length (occurrences self))).
End observed.

(** ** Revalidation is monotone in the limits *)

Lemma try_fold_impl {E A B} (f g : B -> A -> result E B) l acc r :
  (forall b a b', a ∈ l -> f b a = Ok b' -> g b a = Ok b') -> try_fold f acc l = Ok r -> try_fold g acc l = Ok r.
Proof.
  revert acc. induction l as [|a l IH]; intros acc Hfg; simpl; [done|].
  destruct (f acc a) as [b|] eqn:Hf; [|done]. rewrite (Hfg acc a b) by (done || left).
  apply IH. intros. eapply Hfg; [by right|done].
Qed.

Section monotone.
Context (l m : ValueLimitSet) (vb vb' : ByteLimit) (Hlm : limits_le l m) (Hvb : byte_limit vb <= byte_limit vb').

Lemma dynamic_le :
  byte_limit (individual_value_bytes (dynamic_value l)) <= byte_limit (individual_value_bytes (dynamic_value m))
  /\ collection_limit (attributes_per_namespace (dynamic_value l)) <= collection_limit (attributes_per_namespace (dynamic_value m))
  /\ byte_limit (key_path_bytes (dynamic_value l)) <= byte_limit (key_path_bytes (dynamic_value m))
  /\ nesting_limit (nesting_depth (dynamic_value l)) <= nesting_limit (nesting_depth (dynamic_value m))
  /\ collection_limit (array_entries (dynamic_value l)) <= collection_limit (array_entries (dynamic_value m))
  /\ collection_limit (key_value_list_entries (dynamic_value l)) <= collection_limit (key_value_list_entries (dynamic_value m)).
Proof.
  unfold limits_le, dimensions in Hlm.
  repeat match goal with H : Forall2 _ (_ :: _) _ |- _ => inversion H; clear H; subst end. done.
Qed.

Lemma exceeds_byte_mono n a b : byte_limit a <= byte_limit b -> exceeds_byte_limit n a = false -> exceeds_byte_limit n b = false.
Proof. unfold exceeds_byte_limit. rewrite !Z.ltb_ge. lia. Qed.

Lemma exceeds_collection_mono n a b : collection_limit a <= collection_limit b ->
  exceeds_collection_limit n a = false -> exceeds_collection_limit n b = false.
Proof. unfold exceeds_collection_limit. rewrite !Z.ltb_ge. lia. Qed.

Lemma size_against_mono v : forall d d' n, d <= d' ->
  validated_size_against v l vb d = Ok n -> validated_size_against v m vb' d' = Ok n.
Proof.
  destruct dynamic_le as (_ & _ & Hkey & _ & Harr & Hkvl).
  assert (Htail : forall (r r' : result DomainFailure Z) n, (forall x, r = Ok x -> r' = Ok x) ->
    (size ← r; if exceeds_byte_limit size vb then Err value_limit_exceeded else Ok size) = Ok n ->
    (size ← r'; if exceeds_byte_limit size vb' then Err value_limit_exceeded else Ok size) = Ok n).
  { intros [x|] r' n Hr; [|done]. rewrite (Hr x eq_refl). simpl.
    destruct (exceeds_byte_limit x vb) eqn:Hx; [done|]. by rewrite (exceeds_byte_mono _ vb vb'). }
  induction v as [|b|z|z|p|p|vs cap IH|es cap IH|k|v a IH] using validated_ind'; intros d d' n Hd;
    cbn [validated_size_against]; apply Htail; try done; [..|eauto].
  - intros x. unfold child_depth. destruct (checked_sub d 1) as [c|] eqn:Hc; [|done].
    apply checked_sub_Some in Hc as [-> Hc]. rewrite checked_sub_ok by lia. cbn [ok_or mbind result_bind].
    destruct (exceeds_collection_limit _ (array_entries (dynamic_value l))) eqn:Hx; [done|].
    rewrite (exceeds_collection_mono _ _ _ Harr Hx). apply try_fold_impl. intros t v t' Hin.
    rewrite Forall_forall in IH. destruct (validated_size_against v l vb (d - 1)) as [y|] eqn:Hy; [|done].
    by rewrite (IH v Hin (d - 1) (d' - 1) y ltac:(lia) Hy).
  - intros x. unfold child_depth. destruct (checked_sub d 1) as [c|] eqn:Hc; [|done].
    apply checked_sub_Some in Hc as [-> Hc]. rewrite checked_sub_ok by lia. cbn [ok_or mbind result_bind].
    destruct (exceeds_collection_limit _ (key_value_list_entries (dynamic_value l))) eqn:Hx; [done|].
    rewrite (exceeds_collection_mono _ _ _ Hkvl Hx). apply try_fold_impl. intros t [k v] t' Hin.
    destruct (bool_decide (text k = [])); [done|]. cbn [orb].
    destruct (exceeds_byte_limit _ (key_path_bytes (dynamic_value l))) eqn:Hk; [done|].
    rewrite (exceeds_byte_mono _ _ _ Hkey Hk). rewrite Forall_forall in IH. pose proof (IH _ Hin) as IHv. cbn [snd] in IHv.
    destruct (validated_size_against v l vb (d - 1)) as [y|] eqn:Hy; [|done].
    by rewrite (IHv (d - 1) (d' - 1) y ltac:(lia) Hy).
Qed.
End monotone.

(** ** Validated sets *)

Lemma set_shape_mono l m k n : limits_le l m -> set_shape_rejected k n l = false -> set_shape_rejected k n m = false.
Proof.
  intros Hlm. destruct (dynamic_le l m Hlm) as (_ & Hattr & Hkey & _).
  unfold set_shape_rejected. rewrite !orb_false_iff. intros [[[H1 H2] H3] H4].
  by rewrite (exceeds_byte_mono _ _ _ Hkey H2), (exceeds_collection_mono _ _ _ Hattr H4).
Qed.

Lemma validate_against_ok v l vb d n : validated_size_against v l vb d = Ok n -> validate_against v l vb d = Ok tt.
Proof. intros H. unfold validate_against. by rewrite H. Qed.

Lemma revalidate_all_ok vs l m : limits_le l m ->
  Forall (fun v => exists n, validated_size_against v l (individual_value_bytes (dynamic_value l))
                     (nesting_limit (nesting_depth (dynamic_value l))) = Ok n) vs ->
  revalidate_all vs m = Ok tt.
Proof.
  intros Hlm. destruct (dynamic_le l m Hlm) as (Hvb & _ & _ & Hd & _). unfold revalidate_all.
  induction 1 as [|v vs [n Hn] _ IH]; simpl; [done|].
  eapply size_against_mono in Hn; [|done..]. by rewrite (validate_against_ok _ _ _ _ _ Hn).
Qed.

Section validated_sets.
Context {S : Type} {Alloc : Allocator S} {Lay : Layout}.

Lemma validate_attribute_value_ok c l vb d s s' v :
  8 <= byte_limit vb -> candidate_capacities_ok c ->
  validate_attribute_value c l vb d s = (s', Ok v) ->
  validated_native v = candidate_native c /\ exists n, validated_size_against v l vb d = Ok n.
Proof.
  intros Hvb Hok. unfold validate_attribute_value, validate_attribute_value_observed, mbind, M_bind.
  destruct (validate_attribute_value_observed_with_facts c l vb d s) as [s1 [t|[f|[]]]] eqn:H; [|done].
  intros [= <- <-]. pose proof (validation_facts (Obs := UnobservedNativeValue S) l vb ltac:(lia) c d Hok _ _ _ H) as Hf.
  split; [apply Hf|]. eexists. by apply (fact_size_wide l vb c).
Qed.

Lemma validate_occurrences_ok cs l s s' vs :
  8 <= byte_limit (individual_value_bytes (dynamic_value l)) -> Forall candidate_capacities_ok cs ->
  validate_occurrences cs l s = (s', Ok vs) ->
  map validated_native vs = map candidate_native cs
  /\ Forall (fun v => exists n, validated_size_against v l (individual_value_bytes (dynamic_value l))
                        (nesting_limit (nesting_depth (dynamic_value l))) = Ok n) vs.
Proof.
  intros Hvb Hok. revert s vs. induction Hok as [|c cs Hc _ IH]; intros s vs; simpl; [by intros [= <- <-]|].
  destruct (validate_attribute_value _ _ _ _ s) as [s1 [v|f]] eqn:Hv; [|done].
  destruct (validate_occurrences cs l s1) as [s2 [ws|f]] eqn:Hws; [|done]. intros [= <- <-].
  apply validate_attribute_value_ok in Hv as [Hn Hs]; [|done..]. apply IH in Hws as [Hm Hf].
  simpl. split; [congruence|by constructor].
Qed.
End validated_sets.

(** Also (invariant). A validated occurrence set keeps its candidate's namespace, key, multiplicity,
    order and native values, and it revalidates under the profile it was validated with and
    under every profile that is at least as permissive in each dimension. *)
Theorem validated_set_survives_wider_profiles {S} {Alloc : Allocator S} {Lay : Layout}
    (candidate : AttributeOccurrenceSetCandidate) (profile wider : ValueLimitProfile) s s' set :
  8 <= byte_limit (individual_value_bytes (dynamic_value (effective_limits profile))) ->
  Forall candidate_capacities_ok (candidate_occurrences candidate) ->
  limits_le (effective_limits profile) (effective_limits wider) ->
  candidate_validate candidate profile s = (s', Ok set) ->
  namespace set = candidate_namespace candidate /\ key set = candidate_key candidate
  /\ map validated_native (occurrences set) = map candidate_native (candidate_occurrences candidate)
  /\ validate_with_profile set wider = Ok tt.
Proof.
  intros Hvb Hok Hle. unfold candidate_validate.
  destruct (set_shape_rejected _ _ _) eqn:Hshape; [done|].
  destruct (try_reserve_exact _ s) as [s1 [cap|]]; [|done].
  destruct (validate_occurrences _ _ s1) as [s2 [vs|f]] eqn:Hvs; [|done]. intros [= <- <-].
  apply validate_occurrences_ok in Hvs as [Hm Hf]; [|done..]. simpl. do 3 (split; [done|]).
  unfold validate_with_profile. simpl.
  rewrite <- (zlen_map validated_native vs), Hm, zlen_map, (set_shape_mono _ _ _ _ Hle Hshape).
  by eapply revalidate_all_ok.
Qed.

Lemma validated_set_survives_wider_profiles_witness :
  exists set, candidate_validate (Alloc := ExactAllocator) (Lay := Quota.layout)
      (mkOccurrenceCandidate NsRecord (mkRString [107] 1) [CBoolean true; CString (mkRString [97] 3)])
      release_1_system_maximum tt = (tt, Ok set)
    /\ map validated_native (occurrences set) = [NBoolean true; NString [97]]
    /\ validate_with_profile set release_1_system_maximum = Ok tt.
Proof.
  eexists. split; [vm_compute; reflexivity|].
  refine (proj2 (proj2 (validated_set_survives_wider_profiles (Alloc := ExactAllocator) (Lay := Quota.layout)
    (mkOccurrenceCandidate NsRecord (mkRString [107] 1) [CBoolean true; CString (mkRString [97] 3)])
    release_1_system_maximum release_1_system_maximum tt tt _ _ _ _ _))).
  - vm_compute. discriminate.
  - repeat constructor. vm_compute. discriminate.
  - reflexivity.
  - vm_compute. reflexivity.
Defined.

(** ** The canonical encoding of a set *)

Definition set_canonical_bytes (self : AttributeOccurrenceSet) : bytes :=
  [namespace_tag (namespace self)] ++ be_bytes 8 (rs_len (key self)) ++ text (key self)
  ++ be_bytes 8 (set_len self) ++ flat_map (fun v => canonical_bytes (validated_native v)) (occurrences self).

(** The set holds what a validated set can hold: lengths of memory objects and well-formed values. *)
Definition set_wf (self : AttributeOccurrenceSet) : Prop :=
  rs_len (key self) <= u64_max /\ set_len self <= u64_max
  /\ Forall (fun v => native_wf (validated_native v)) (occurrences self).

Lemma indexed_visits {S E} {Obs : NativeValueObserver S E} vs :
  Forall (fun v => native_wf (validated_native v)) vs -> forall pre,
  visits (m_iter (fun index => _ ← observing observe_structure;
      v ← lift (ok_or value_limit_exceeded ((pre ++ vs) !! index)); visit_canonical_encoding_observed v)
      (seq (length pre) (length vs)))
    (flat_map (fun v => canonical_bytes (validated_native v)) vs).
Proof.
  induction 1 as [|v vs Hv _ IH]; intros pre; [apply visits_ret|]. simpl. apply visits_seq.
  - apply visits_silent; [apply visits_structure|]. eapply visits_lift; [|by apply visit_encoding].
    by rewrite list_lookup_middle.
  - specialize (IH (pre ++ [v])). rewrite <- app_assoc, length_app, Nat.add_1_r in IH. exact IH.
Qed.

Lemma set_size_agrees_length self : set_wf self ->
  set_canonical_encoded_size_bytes self = sized (zlen (set_canonical_bytes self)).
Proof.
  intros (_ & _ & Hvs). pose proof (zlen_nonneg (text (key self))) as Hk.
  unfold set_canonical_encoded_size_bytes. rewrite decoded_add_sized.
  unfold set_canonical_bytes. rewrite !zlen_app, !zlen_be_bytes, zlen_flat_map. change (zlen [_]) with 1.
  assert (Hsum : 0 <= foldr (fun v n => zlen (canonical_bytes (validated_native v)) + n) 0 (occurrences self)).
  { clear. induction (occurrences self) as [|v vs IH]; [done|]. simpl.
    pose proof (zlen_nonneg (canonical_bytes (validated_native v))). lia. }
  unfold sized at 1. unfold rs_len. destruct (Z.leb_spec (17 + zlen (text (key self))) usize_max); cbn [mbind result_bind].
  - rewrite (sized_fold _ (fun v => zlen (canonical_bytes (validated_native v)))); [f_equal; lia|..].
    + intros; apply zlen_nonneg.
    + intros n v Hn Hv. rewrite Forall_forall in Hvs.
      rewrite canonical_size_silent, canonical_size_is_length by auto.
      apply sized_add_sized; [lia|lia|apply zlen_nonneg].
    + lia.
  - unfold sized. by rewrite (proj2 (Z.leb_gt _ _)) by lia.
Qed.

(** Also (functional). The canonical encoding of an occurrence set is streamed exactly: for every
    observer the visiting pass is stopped by the observer or hands over the namespace tag, the
    length-prefixed key and the counted encodings of the occurrences in order, and the size
    computed beforehand is the length of that byte string. *)
Theorem set_canonical_encoding_is_exact (self : AttributeOccurrenceSet) :
  set_wf self ->
  (forall S E (Obs : NativeValueObserver S E),
     visits (set_visit_canonical_encoding_observed self) (set_canonical_bytes self))
  /\ set_canonical_encoded_size_bytes self = sized (zlen (set_canonical_bytes self)).
Proof.
  intros Hwf. split; [|by apply set_size_agrees_length]. destruct Hwf as (Hk & Hn & Hvs). intros S E Obs.
  unfold set_visit_canonical_encoding_observed, set_canonical_bytes.
  apply visits_silent; [apply visits_structure|].
  apply visits_seq; [apply visits_visit|]. apply visits_seq; [by apply visits_length|].
  apply visits_seq; [apply visits_payload|]. apply visits_seq; [by apply visits_length|].
  by apply (indexed_visits _ Hvs []).
Qed.

Lemma set_canonical_encoding_is_exact_witness :
  set_canonical_encoded_size_bytes (mkOccurrenceSet NsRecord (mkRString [107] 1) [VBoolean true] 1) = Ok 20.
Proof.
  rewrite (proj2 (set_canonical_encoding_is_exact (mkOccurrenceSet NsRecord (mkRString [107] 1) [VBoolean true] 1)
    ltac:(split; [vm_compute; discriminate|split; [vm_compute; discriminate|repeat constructor]]))).
  vm_compute. reflexivity.
Defined.
