(* ===== verification/PolicyModel.v ===== *)
(** PolicyModel: the data of ingest policies, their checked constructors, provenance and the
    native records policies are evaluated on (crates/positron-policy/src/policy.rs,
    provenance.rs, metadata.rs and candidate.rs).

    A [String] that is only read is its UTF-8 bytes; where the program accounts for its
    allocation it is an [RString]. *)

From S2P Require Import Prelude Outcome Limits Values Routing.

(** [positron-policy/src/policy.rs:10-10 MAX_RULES] *)
Definition MAX_RULES : Z := 64.
(** [positron-policy/src/policy.rs:11-11 MAX_PREDICATES_PER_RULE] *)
Definition MAX_PREDICATES_PER_RULE : Z := 16.
(** [positron-policy/src/policy.rs:12-12 MAX_RULE_ID_BYTES] *)
Definition MAX_RULE_ID_BYTES : Z := 256.
(** [positron-policy/src/policy.rs:13-13 MAX_POLICY_PATH_BYTES] *)
Definition MAX_POLICY_PATH_BYTES : Z := 1024.
(** [positron-policy/src/policy.rs:14-14 MAX_COMPILED_POLICY_BYTES] *)
Definition MAX_COMPILED_POLICY_BYTES : Z := 1048576.
(** [positron-policy/src/policy.rs:15-15 MAX_EVALUATION_STEPS] *)
Definition MAX_EVALUATION_STEPS : Z := 100000000.
(** [positron-policy/src/policy.rs:16-16 MAX_NATIVE_RECORD_BYTES] *)
Definition MAX_NATIVE_RECORD_BYTES : Z := 1048576.

(** ** Rules *)

(** [positron-policy/src/policy.rs:100-104 PolicyOccurrence] *)
Inductive PolicyOccurrence := OccAll | OccIndex (index : Z).

(** [positron-policy/src/policy.rs:106-110 PolicyPathSegment] *)
Inductive PolicyPathSegment := SegKey (key : bytes) | SegArrayIndex (index : Z).

(** [positron-policy/src/policy.rs:92-98 PolicyAttributePath] *)
Record PolicyAttributePath := mkPath {
  path_namespace : AttributeNamespace;
  path_key : bytes;
  path_occurrence : PolicyOccurrence;
  path_segments : list PolicyPathSegment;
}.

(** [positron-policy/src/policy.rs:124-133 PolicyReceiver] *)
Inductive PolicyReceiver :=
| OtlpGrpc | OtlpHttpProtobuf | OtlpHttpJson | LokiPushJson | LokiPushProtobuf
| LokiOtlpProtobuf | LokiOtlpJson.

#[global] Instance PolicyReceiver_eq_dec : EqDecision PolicyReceiver.
Proof. solve_decision. Defined.

(** [positron-policy/src/policy.rs:112-121 PolicyPredicate] *)
Inductive PolicyPredicate :=
| AttributeExists (path : PolicyAttributePath)
| BodyExactText (expected : bytes)
| SignalStore (signal : SignalKind)
| Receiver (receiver : PolicyReceiver)
| AttributeType (path : PolicyAttributePath) (k : AttributeValueKind)
| ServiceIdentity (expected : bytes)
| LogSeverity (severity : Z).

(** [positron-policy/src/policy.rs:145-149 PolicyTarget] *)
Inductive PolicyTarget := TBody | TAttribute (path : PolicyAttributePath).

(** [positron-policy/src/policy.rs:135-143 PolicyAction] *)
Inductive PolicyAction :=
| Accept
| Reject
| Remove (target : PolicyTarget)
| Redact (target : PolicyTarget)
| TruncateBytes (target : PolicyTarget) (limit : Z)
| TruncateElements (target : PolicyTarget) (limit : Z).

(** [positron-policy/src/policy.rs:151-156 PolicyRule] *)
Record PolicyRule := mkRule {
  rule_id : bytes;
  predicates : list PolicyPredicate;
  rule_action : PolicyAction;
}.

(** [positron-policy/src/policy.rs:27-34 PolicyBudget] *)
Record PolicyBudget := mkBudget {
  evaluation_steps : Z;
  retained_bytes : Z;
  scratch_bytes : Z;
  provenance_bytes : Z;
  mutation_bytes : Z;
}.

(** [positron-policy/src/policy.rs:18-24 IngestPolicy] *)
Record IngestPolicy := mkPolicy {
  generation : Z;
  digest : bytes;
  rules : list PolicyRule;
  budget : PolicyBudget;
}.

(** [positron-policy/src/policy.rs:42-50 PolicyAdmissionShape] *)
Record PolicyAdmissionShape := mkShape {
  shape_decoded_bytes : Z;
  shape_retained_bytes : Z;
  shape_value_nodes : Z;
  shape_attribute_entries : Z;
  shape_maximum_nesting_depth : Z;
}.

(** [positron-policy/src/policy.rs:158-169 PolicyCompileFailure] *)
Inductive PolicyCompileFailure :=
| InvalidIdentity | RuleBoundExceeded | PredicateBoundExceeded | InvalidRuleId | InvalidPath
| InvalidPredicate | PolicyBytesExceeded | ProtectedTarget | EvaluationBudgetExceeded.

(** [positron-policy/src/policy.rs:179-184 PolicyEvaluationFailure] *)
Inductive PolicyEvaluationFailure := StepBudgetExhausted | EvidenceBoundExceeded | UntrustedMarker.

(** [positron-policy/src/policy.rs:83-89 PolicyBudget::reserved_memory_bytes] *)
Definition reserved_memory_bytes (b : PolicyBudget) : option Z :=
  bytes ← checked_add u64_max (retained_bytes b) (scratch_bytes b);
  bytes ← checked_add u64_max bytes (provenance_bytes b);
  checked_add u64_max bytes (mutation_bytes b).

(** ** Checked constructors *)

Definition segment_bytes (s : PolicyPathSegment) : Z :=
  match s with SegKey key => zlen key | SegArrayIndex _ => 2 end.

(** [positron-policy/src/policy.rs:257-264 PolicyAttributePath::bounded_bytes] *)
Definition path_bounded_bytes (p : PolicyAttributePath) : Z :=
  fold_left (fun total s => saturating_add usize_max total (segment_bytes s)) (path_segments p)
    (zlen (path_key p)).

(** [positron-policy/src/policy.rs:207-221 PolicyAttributePath::new] *)
Definition path_new (ns : AttributeNamespace) (key : bytes) : result PolicyCompileFailure PolicyAttributePath :=
  if bool_decide (key = []) || (MAX_POLICY_PATH_BYTES <? zlen key) then Err InvalidPath
  else Ok (mkPath ns key OccAll []).

(** [positron-policy/src/policy.rs:223-227 PolicyAttributePath::at_occurrence] *)
Definition at_occurrence (p : PolicyAttributePath) (index : Z) : PolicyAttributePath :=
  mkPath (path_namespace p) (path_key p) (OccIndex index) (path_segments p).

(** [positron-policy/src/policy.rs:239-255 PolicyAttributePath::push_segment] *)
Definition push_segment (p : PolicyAttributePath) (s : PolicyPathSegment)
  : result PolicyCompileFailure PolicyAttributePath :=
  if zlen (path_segments p) =? 16 then Err InvalidPath
  else
    added ← match s with
      | SegKey key => if bool_decide (key = []) then Err InvalidPath else Ok (zlen key)
      | SegArrayIndex _ => Ok 2
      end;
    if MAX_POLICY_PATH_BYTES <? saturating_add usize_max (path_bounded_bytes p) added then Err InvalidPath
    else Ok (mkPath (path_namespace p) (path_key p) (path_occurrence p) (path_segments p ++ [s])).

(** [positron-policy/src/policy.rs:229-232 PolicyAttributePath::key] *)
Definition path_push_key (p : PolicyAttributePath) (key : bytes) := push_segment p (SegKey key).

(** [positron-policy/src/policy.rs:234-237 PolicyAttributePath::array_index] *)
Definition path_push_index (p : PolicyAttributePath) (index : Z) := push_segment p (SegArrayIndex index).

(** [positron-policy/src/policy.rs:285-291 PolicyPredicate::body_exact_text] *)
Definition body_exact_text (value : bytes) : result PolicyCompileFailure PolicyPredicate :=
  if MAX_COMPILED_POLICY_BYTES <? zlen value then Err InvalidPredicate else Ok (BodyExactText value).

(** [positron-policy/src/policy.rs:308-314 PolicyPredicate::service_identity] *)
Definition service_identity (value : bytes) : result PolicyCompileFailure PolicyPredicate :=
  if bool_decide (value = []) || (MAX_POLICY_PATH_BYTES <? zlen value) then Err InvalidPredicate
  else Ok (ServiceIdentity value).

(** [positron-policy/src/policy.rs:323-340 PolicyRule::new] *)
Definition rule_new (id : bytes) (ps : list PolicyPredicate) (a : PolicyAction)
  : result PolicyCompileFailure PolicyRule :=
  if bool_decide (id = []) || (MAX_RULE_ID_BYTES <? zlen id) then Err InvalidRuleId
  else if MAX_PREDICATES_PER_RULE <? zlen ps then Err PredicateBoundExceeded
  else Ok (mkRule id ps a).

(** ** Provenance *)

(** [positron-policy/src/provenance.rs:6-11 PolicyProvenance] *)
Record PolicyProvenance := mkProvenance {
  prov_generation : Z;
  prov_digest : bytes;
  applied_rules : list RString;
  applied_capacity : Z;
}.

(** [positron-policy/src/provenance.rs:129-130 PolicyProvenanceFailure] *)
Inductive PolicyProvenanceFailure := ProvenanceInvalid.

(** [positron-policy/src/provenance.rs:54-73 PolicyProvenance::validate_parts] *)
Definition validate_parts (generation : Z) (digest : bytes) (applied : list bytes)
  : result PolicyProvenanceFailure unit :=
  if (generation =? 0) || forallb (fun b => b =? 0) digest then Err ProvenanceInvalid
  else
    _ ← try_fold (fun count rule =>
      match checked_add usize_max count 1 with
      | None => Err ProvenanceInvalid
      | Some count =>
          if MAX_RULES <? count then Err ProvenanceInvalid
          else if bool_decide (rule = []) || (MAX_RULE_ID_BYTES <? zlen rule) then Err ProvenanceInvalid
          else Ok count
      end) 0 applied;
    Ok tt.

(** [positron-policy/src/provenance.rs:28-39 PolicyProvenance::new] *)
Definition provenance_new (generation : Z) (digest : bytes) (applied : list RString) (cap : Z)
  : result PolicyProvenanceFailure PolicyProvenance :=
  _ ← validate_parts generation digest (map text applied);
  Ok (mkProvenance generation digest applied cap).

(** [positron-policy/src/provenance.rs:41-51 PolicyProvenance::evaluated] *)
Definition provenance_evaluated (generation : Z) (digest : bytes) (applied : list RString) (cap : Z) :=
  mkProvenance generation digest applied cap.

(** The size of a [String] header, a constant of the compiled layout. *)
Class PolicyLayout := {
  size_of_String : Z;
  size_of_evaluated_record : Z;
  size_of_String_bounds : 0 < size_of_String <= 64;
  size_of_evaluated_nonneg : 0 <= size_of_evaluated_record <= u32_max;
}.

(** [positron-policy/src/provenance.rs:113-125 PolicyProvenance::retained_heap_bytes] *)
Definition provenance_retained_heap_bytes `{PolicyLayout} (p : PolicyProvenance)
  : result PolicyProvenanceFailure Z :=
  retained ← ok_or ProvenanceInvalid (checked_mul usize_max (applied_capacity p) size_of_String);
  try_fold (fun total rule => ok_or ProvenanceInvalid (checked_add usize_max total (capacity rule)))
    retained (applied_rules p).

(** [positron-policy/src/provenance.rs:14-18 ObservedPolicyProvenanceFailure] *)
Inductive ObservedPolicyProvenanceFailure (E : Type) :=
| ProvPolicy (f : PolicyProvenanceFailure)
| ProvObserver (e : E).
Arguments ProvPolicy {E} f.
Arguments ProvObserver {E} e.

(** [positron-policy/src/provenance.rs:91-107 PolicyProvenance::retained_heap_bytes_observed] *)
Definition provenance_retained_heap_bytes_observed `{PolicyLayout} {E} (observe_rule : bytes -> result E unit)
    (p : PolicyProvenance) : result (ObservedPolicyProvenanceFailure E) Z :=
  retained ← ok_or (ProvPolicy ProvenanceInvalid) (checked_mul usize_max (applied_capacity p) size_of_String);
  try_fold (fun total rule =>
    _ ← map_err ProvObserver (observe_rule (text rule));
    ok_or (ProvPolicy ProvenanceInvalid) (checked_add usize_max total (capacity rule)))
    retained (applied_rules p).

(** ** Records *)

(** [positron-policy/src/metadata.rs:2-17 LogMetadata] *)
Record LogMetadata := mkLogMetadata {
  severity_number : Z;
  severity_text : bytes;
  event_name : bytes;
  trace_id : option bytes;
  span_id : option bytes;
  flags : Z;
  dropped_attributes_count : Z;
  resource_dropped_attributes_count : Z;
  resource_schema_url : bytes;
  scope_name : bytes;
  scope_version : bytes;
  scope_dropped_attributes_count : Z;
  scope_schema_url : bytes;
}.

(** [positron-policy/src/metadata.rs:87-103 LogMetadata::empty] *)
Definition LogMetadata_empty : LogMetadata := mkLogMetadata 0 [] [] None None 0 0 0 [] [] [] 0 [].

(** [positron-policy/src/metadata.rs:170-181 LogMetadata::decoded_size_bytes] *)
Definition metadata_decoded_size_bytes (m : LogMetadata) : option Z :=
  try_fold_opt (checked_add usize_max) 0
    [ zlen (severity_text m); zlen (event_name m); zlen (resource_schema_url m);
      zlen (scope_name m); zlen (scope_version m); zlen (scope_schema_url m) ].

(** [positron-policy/src/candidate.rs:6-11 NativePolicyAttribute] *)
Record NativePolicyAttribute := mkAttribute {
  attr_namespace : AttributeNamespace;
  attr_key : bytes;
  attr_occurrences : list CandidateAttributeValue;
}.

(** [positron-policy/src/candidate.rs:56-63 NativeLogCandidate] *)
Record NativeLogCandidate := mkLogCandidate {
  event_time_unix_nanos : option Z;
  observed_time_unix_nanos : option Z;
  log_body : option CandidateAttributeValue;
  log_attributes : list NativePolicyAttribute;
  log_metadata : LogMetadata;
}.

(** [positron-policy/src/candidate.rs:118-122 NativeTraceCandidate] *)
Record NativeTraceCandidate := mkTraceCandidate {
  trace_body : option CandidateAttributeValue;
  trace_attributes : list NativePolicyAttribute;
}.

(** [positron-policy/src/candidate.rs:125-131 NativeTraceCandidate::new] *)
Definition NativeTraceCandidate_new (attributes : list NativePolicyAttribute) : NativeTraceCandidate :=
  mkTraceCandidate None attributes.
