(* ===== verification/PolicyCodec.v ===== *)
(** PolicyCodec: the canonical encoding of policy rules and its decoder
    (crates/positron-policy/src/policy/canonical.rs and the reader of activation.rs). *)

From Stdlib Require Import Ascii String.
From S2P Require Import Prelude Outcome Limits Values Routing PolicyModel.

(** [positron-policy/src/policy/canonical.rs:8-8 MAGIC] *)
Definition MAGIC : bytes := bytes_of_string "positron-ingest-policy-v1" ++ [0].

(** ** Encoding

    Every function of the program appends to one buffer that is dropped on an error; here each
    returns the bytes it appends. *)

(** [positron-policy/src/policy/canonical.rs:172-176 push_u16] *)
Definition push_u16 (value : Z) : result PolicyCompileFailure bytes :=
  if value <=? u16_max then Ok (be_bytes 2 value) else Err PolicyBytesExceeded.

(** [positron-policy/src/policy/canonical.rs:164-170 push_text] *)
Definition push_text (value : bytes) : result PolicyCompileFailure bytes :=
  if zlen value <=? u32_max then Ok (be_bytes 4 (zlen value) ++ value) else Err PolicyBytesExceeded.

(** [positron-policy/src/policy/canonical.rs:152-162 receiver_tag] *)
Definition receiver_tag (r : PolicyReceiver) : Z :=
  match r with
  | OtlpGrpc => 1 | OtlpHttpProtobuf => 2 | OtlpHttpJson => 3 | LokiPushJson => 4
  | LokiPushProtobuf => 5 | LokiOtlpProtobuf => 6 | LokiOtlpJson => 7
  end.

Definition namespace_code (n : AttributeNamespace) : Z :=
  match n with NsStream => 1 | NsResource => 2 | NsInstrumentationScope => 3 | NsRecord => 4 end.

Definition encode_segment (s : PolicyPathSegment) : result PolicyCompileFailure bytes :=
  match s with
  | SegKey key => t ← push_text key; Ok ([1] ++ t)
  | SegArrayIndex index => Ok ([2] ++ be_bytes 2 index)
  end.

(** The fragments of a loop over a slice, in order. *)
Definition encode_all {A} (f : A -> result PolicyCompileFailure bytes) (l : list A)
  : result PolicyCompileFailure bytes :=
  parts ← try_map f l; Ok (concat parts).

(** [positron-policy/src/policy/canonical.rs:118-150 encode_path] *)
Definition encode_path (p : PolicyAttributePath) : result PolicyCompileFailure bytes :=
  key ← push_text (path_key p);
  let occurrence := match path_occurrence p with
    | OccAll => [0]
    | OccIndex index => [1] ++ be_bytes 2 index
    end in
  count ← push_u16 (zlen (path_segments p));
  segments ← encode_all encode_segment (path_segments p);
  Ok ([namespace_code (path_namespace p)] ++ key ++ occurrence ++ count ++ segments).

(** [positron-policy/src/policy/canonical.rs:107-116 encode_target] *)
Definition encode_target (t : PolicyTarget) : result PolicyCompileFailure bytes :=
  match t with
  | TBody => Ok [1]
  | TAttribute path => p ← encode_path path; Ok ([2] ++ p)
  end.

(** [positron-policy/src/policy/canonical.rs:81-105 encode_action] *)
Definition encode_action (a : PolicyAction) : result PolicyCompileFailure bytes :=
  match a with
  | Accept => Ok [1]
  | Reject => Ok [2]
  | Remove target => t ← encode_target target; Ok ([3] ++ t)
  | Redact target => t ← encode_target target; Ok ([4] ++ t)
  | TruncateBytes target limit => t ← encode_target target; Ok ([5] ++ t ++ be_bytes 4 limit)
  | TruncateElements target limit => t ← encode_target target; Ok ([6] ++ t ++ be_bytes 2 limit)
  end.

Definition kind_code (k : AttributeValueKind) : result PolicyCompileFailure Z :=
  match k with
  | KNull => Ok 1 | KBoolean => Ok 2 | KSignedInteger => Ok 3 | KFloatingPoint => Ok 4
  | KString => Ok 5 | KBytes => Ok 6 | KArray => Ok 7 | KKeyValueList => Ok 8
  | KMarker => Err InvalidPredicate
  end.

(** [positron-policy/src/policy/canonical.rs:29-79 encode_predicate] *)
Definition encode_predicate (p : PolicyPredicate) : result PolicyCompileFailure bytes :=
  match p with
  | AttributeExists path => b ← encode_path path; Ok ([1] ++ b)
  | BodyExactText value => t ← push_text value; Ok ([2] ++ t)
  | SignalStore signal => Ok [3; match signal with Logs => 1 | Traces => 2 end]
  | Receiver receiver => Ok [4; receiver_tag receiver]
  | AttributeType path k => b ← encode_path path; c ← kind_code k; Ok ([5] ++ b ++ [c])
  | ServiceIdentity value => t ← push_text value; Ok ([6] ++ t)
  | LogSeverity value => Ok ([7] ++ be_bytes 4 value)
  end.

Definition encode_rule (r : PolicyRule) : result PolicyCompileFailure bytes :=
  id ← push_text (rule_id r);
  count ← push_u16 (zlen (predicates r));
  ps ← encode_all encode_predicate (predicates r);
  a ← encode_action (rule_action r);
  Ok (id ++ count ++ ps ++ a).

(** [positron-policy/src/policy/canonical.rs:14-27 encode] *)
Definition encode (rs : list PolicyRule) : result PolicyCompileFailure bytes :=
  count ← push_u16 (zlen rs);
  body ← encode_all encode_rule rs;
  Ok (MAGIC ++ count ++ body).

(** ** UTF-8 *)

Definition continuation (b : Z) : bool := (128 <=? b) && (b <=? 191).

(** [String::from_utf8]: the well-formed byte sequences of the Unicode standard. *)
Fixpoint utf8_valid (s : bytes) : bool :=
  match s with
  | [] => true
  | b :: s1 =>
      if b <=? 127 then utf8_valid s1
      else
        match s1 with
        | [] => false
        | c1 :: s2 =>
            if (194 <=? b) && (b <=? 223) then continuation c1 && utf8_valid s2
            else
              match s2 with
              | [] => false
              | c2 :: s3 =>
                  if (224 <=? b) && (b <=? 239) then
                    (if b =? 224 then (160 <=? c1) && (c1 <=? 191)
                     else if b =? 237 then (128 <=? c1) && (c1 <=? 159)
                     else continuation c1)
                    && continuation c2 && utf8_valid s3
                  else
                    match s3 with
                    | [] => false
                    | c3 :: s4 =>
                        (240 <=? b) && (b <=? 244)
                        && (if b =? 240 then (144 <=? c1) && (c1 <=? 191)
                            else if b =? 244 then (128 <=? c1) && (c1 <=? 143)
                            else continuation c1)
                        && continuation c2 && continuation c3 && utf8_valid s4
                    end
              end
        end
  end.

(** ** Reading *)

(** [positron-policy/src/activation.rs:27-28 PolicyActivationFailure] *)
Inductive PolicyActivationFailure := ActivationInvalid.

(** [positron-policy/src/activation.rs:234-236 Input] A reader is the remaining bytes; a read gives its
    value and what remains, or the activation failure. *)
Definition Input (A : Type) : Type := bytes -> result PolicyActivationFailure (A * bytes).

#[global] Instance Input_ret : MRet Input := fun A a bs => Ok (a, bs).
#[global] Instance Input_bind : MBind Input := fun A B k m bs =>
  match m bs with Ok (a, rest) => k a rest | Err e => Err e end.

Definition invalid {A} : Input A := fun _ => Err ActivationInvalid.

(** A result of a checked constructor with its error replaced. *)
Definition checked {E A} (r : result E A) : Input A := fun bs =>
  match r with Ok a => Ok (a, bs) | Err _ => Err ActivationInvalid end.

(** [positron-policy/src/activation.rs:243-250 Input::take] *)
Definition take_bytes (count : Z) : Input bytes := fun bs =>
  if zlen bs <? count then Err ActivationInvalid
  else Ok (take (Z.to_nat count) bs, drop (Z.to_nat count) bs).

(** [positron-policy/src/activation.rs:252-256 Input::expect] *)
Definition expect (expected : bytes) : Input unit :=
  got ← take_bytes (zlen expected);
  if bytes_eqb got expected then mret tt else invalid.

(** [positron-policy/src/activation.rs:258-263 Input::u8] *)
Definition read_u8 : Input Z := b ← take_bytes 1; mret (be_value b).
(** [positron-policy/src/activation.rs:265-271 Input::u16] *)
Definition read_u16 : Input Z := b ← take_bytes 2; mret (be_value b).
(** [positron-policy/src/activation.rs:273-279 Input::u32] *)
Definition read_u32 : Input Z := b ← take_bytes 4; mret (be_value b).
(** [positron-policy/src/activation.rs:281-287 Input::i32] *)
Definition read_i32 : Input Z :=
  b ← take_bytes 4; mret (let v := be_value b in if v <=? i32_max then v else v - 4294967296).
(** [positron-policy/src/activation.rs:289-295 Input::u64] *)
Definition read_u64 : Input Z := b ← take_bytes 8; mret (be_value b).

(** [positron-policy/src/activation.rs:297-303 Input::text] *)
Definition read_text : Input bytes :=
  count ← read_u32;
  if MAX_COMPILED_POLICY_BYTES <? count then invalid
  else
    t ← take_bytes count;
    if utf8_valid t then mret t else invalid.

(** The loop [for _ in 0..count { out.push(read(input)?) }]. *)
Fixpoint read_many {A} (f : Input A) (count : nat) : Input (list A) :=
  match count with
  | O => mret []
  | S count' => a ← f; l ← read_many f count'; mret (a :: l)
  end.

(** [positron-policy/src/activation.rs:207-218 decode_receiver] *)
Definition decode_receiver (tag : Z) : Input PolicyReceiver :=
  match tag with
  | 1 => mret OtlpGrpc | 2 => mret OtlpHttpProtobuf | 3 => mret OtlpHttpJson | 4 => mret LokiPushJson
  | 5 => mret LokiPushProtobuf | 6 => mret LokiOtlpProtobuf | 7 => mret LokiOtlpJson
  | _ => invalid
  end.

(** [positron-policy/src/activation.rs:220-232 decode_kind] *)
Definition decode_kind (tag : Z) : Input AttributeValueKind :=
  match tag with
  | 1 => mret KNull | 2 => mret KBoolean | 3 => mret KSignedInteger | 4 => mret KFloatingPoint
  | 5 => mret KString | 6 => mret KBytes | 7 => mret KArray | 8 => mret KKeyValueList
  | _ => invalid
  end.

(** The loop that appends decoded segments to a path. *)
Fixpoint decode_segments (count : nat) (path : PolicyAttributePath) : Input PolicyAttributePath :=
  match count with
  | O => mret path
  | S count' =>
      tag ← read_u8;
      path ← match tag with
        | 1 => t ← read_text; checked (path_push_key path t)
        | 2 => i ← read_u16; checked (path_push_index path i)
        | _ => invalid
        end;
      decode_segments count' path
  end.

(** [positron-policy/src/activation.rs:177-205 decode_path] *)
Definition decode_path : Input PolicyAttributePath :=
  tag ← read_u8;
  namespace ← match tag with
    | 1 => mret NsStream | 2 => mret NsResource | 3 => mret NsInstrumentationScope | 4 => mret NsRecord
    | _ => invalid
    end;
  key ← read_text;
  path ← checked (path_new namespace key);
  tag ← read_u8;
  occurrence ← match tag with
    | 0 => mret OccAll
    | 1 => i ← read_u16; mret (OccIndex i)
    | _ => invalid
    end;
  let path := mkPath (path_namespace path) (path_key path) occurrence (path_segments path) in
  count ← read_u16;
  decode_segments (Z.to_nat count) path.

(** [positron-policy/src/activation.rs:169-175 decode_target] *)
Definition decode_target : Input PolicyTarget :=
  tag ← read_u8;
  match tag with
  | 1 => mret TBody
  | 2 => p ← decode_path; mret (TAttribute p)
  | _ => invalid
  end.

(** [positron-policy/src/activation.rs:157-167 decode_action] *)
Definition decode_action : Input PolicyAction :=
  tag ← read_u8;
  match tag with
  | 1 => mret Accept
  | 2 => mret Reject
  | 3 => t ← decode_target; mret (Remove t)
  | 4 => t ← decode_target; mret (Redact t)
  | 5 => t ← decode_target; l ← read_u32; mret (TruncateBytes t l)
  | 6 => t ← decode_target; l ← read_u16; mret (TruncateElements t l)
  | _ => invalid
  end.

(** [positron-policy/src/activation.rs:136-155 decode_predicate] *)
Definition decode_predicate : Input PolicyPredicate :=
  tag ← read_u8;
  match tag with
  | 1 => p ← decode_path; mret (AttributeExists p)
  | 2 => t ← read_text; checked (body_exact_text t)
  | 3 => tag ← read_u8;
         match tag with 1 => mret (SignalStore Logs) | 2 => mret (SignalStore Traces) | _ => invalid end
  | 4 => tag ← read_u8; r ← decode_receiver tag; mret (Receiver r)
  | 5 => p ← decode_path; tag ← read_u8; k ← decode_kind tag; mret (AttributeType p k)
  | 6 => t ← read_text; checked (service_identity t)
  | 7 => v ← read_i32; mret (LogSeverity v)
  | _ => invalid
  end.

(** [Vec::try_reserve_exact] on the way of a reader. *)
Definition reserving (available : Z -> bool) (count : Z) : Input unit :=
  if available count then mret tt else invalid.

(** [positron-policy/src/activation.rs:123-134 decode_rule] [available] says which vector
    reservations succeed. *)
Definition decode_rule (available : Z -> bool) : Input PolicyRule :=
  id ← read_text;
  count ← read_u16;
  _ ← reserving available count;
  ps ← read_many decode_predicate (Z.to_nat count);
  a ← decode_action;
  checked (rule_new id ps a).

(** ** Well-formed policies: what the checked constructors build *)

Definition text_wf (t : bytes) : Prop := utf8_valid t = true /\ zlen t <= MAX_COMPILED_POLICY_BYTES.

Definition segment_wf (s : PolicyPathSegment) : Prop :=
  match s with
  | SegKey key => key <> [] /\ text_wf key
  | SegArrayIndex index => 0 <= index <= u16_max
  end.

Definition segments_bytes (l : list PolicyPathSegment) : Z := foldr (fun s n => segment_bytes s + n) 0 l.

Definition path_wf (p : PolicyAttributePath) : Prop :=
  path_key p <> [] /\ text_wf (path_key p)
  /\ match path_occurrence p with OccAll => True | OccIndex i => 0 <= i <= u16_max end
  /\ zlen (path_segments p) <= 16 /\ Forall segment_wf (path_segments p)
  /\ zlen (path_key p) + segments_bytes (path_segments p) <= MAX_POLICY_PATH_BYTES.

Definition target_wf (t : PolicyTarget) : Prop :=
  match t with TBody => True | TAttribute p => path_wf p end.

Definition action_wf (a : PolicyAction) : Prop :=
  match a with
  | Accept | Reject => True
  | Remove t | Redact t => target_wf t
  | TruncateBytes t limit => target_wf t /\ 0 <= limit <= u32_max
  | TruncateElements t limit => target_wf t /\ 0 <= limit <= u16_max
  end.

Definition predicate_wf (p : PolicyPredicate) : Prop :=
  match p with
  | AttributeExists p | AttributeType p _ => path_wf p
  | BodyExactText t => text_wf t
  | ServiceIdentity t => t <> [] /\ text_wf t /\ zlen t <= MAX_POLICY_PATH_BYTES
  | LogSeverity v => i32_min <= v <= i32_max
  | SignalStore _ | Receiver _ => True
  end.

Definition rule_wf (r : PolicyRule) : Prop :=
  rule_id r <> [] /\ text_wf (rule_id r) /\ zlen (rule_id r) <= MAX_RULE_ID_BYTES
  /\ zlen (predicates r) <= MAX_PREDICATES_PER_RULE
  /\ Forall predicate_wf (predicates r) /\ action_wf (rule_action r).

Lemma segment_bytes_nonneg s : 0 <= segment_bytes s.
Proof. destruct s; simpl; [apply zlen_nonneg|lia]. Qed.

Lemma segments_bytes_nonneg l : 0 <= segments_bytes l.
Proof. induction l as [|s l IH]; simpl; [done|]. pose proof (segment_bytes_nonneg s). lia. Qed.

Lemma segments_bytes_app l k : segments_bytes (l ++ k) = segments_bytes l + segments_bytes k.
Proof. induction l as [|s l IH]; simpl; [done|]. rewrite IH. lia. Qed.

(** The saturating sum of a path is its plain sum while it stays in range. *)
Lemma path_bounded_bytes_sum p : zlen (path_key p) + segments_bytes (path_segments p) <= usize_max ->
  path_bounded_bytes p = zlen (path_key p) + segments_bytes (path_segments p).
Proof.
  unfold path_bounded_bytes. generalize (zlen (path_key p)) as n. induction (path_segments p) as [|s l IH]; intros n H; simpl in *.
  { lia. }
  pose proof (segments_bytes_nonneg l). unfold saturating_add. rewrite Z.min_r by lia. rewrite IH; lia.
Qed.

(** ** Reading back what was written *)

(** [m] reads [a] from exactly [bs], whatever follows. *)
Definition reads {A} (m : Input A) (bs : bytes) (a : A) : Prop := forall rest, m (bs ++ rest) = Ok (a, rest).

Lemma reads_ret {A} (a : A) : reads (mret a) [] a.
Proof. by intros rest. Qed.

Lemma reads_bind {A B} (m : Input A) (k : A -> Input B) b1 b2 a b :
  reads m b1 a -> reads (k a) b2 b -> reads (m ≫= k) (b1 ++ b2) b.
Proof. intros Hm Hk rest. unfold mbind, Input_bind. rewrite <- app_assoc, Hm. apply Hk. Qed.

Lemma reads_map {A B} (m : Input A) (f : A -> B) bs a : reads m bs a -> reads (x ← m; mret (f x)) bs (f a).
Proof. intros H. rewrite <- (app_nil_r bs). eapply reads_bind; [exact H|apply reads_ret]. Qed.

Lemma reads_checked {A B E} (m : Input A) (k : A -> result E B) bs a b :
  reads m bs a -> k a = Ok b -> reads (x ← m; checked (k x)) bs b.
Proof.
  intros H Hk. rewrite <- (app_nil_r bs). eapply reads_bind; [exact H|].
  intros rest. unfold checked. by rewrite Hk.
Qed.

Lemma reads_take bs n : n = zlen bs -> reads (take_bytes n) bs bs.
Proof.
  intros -> rest. unfold take_bytes. rewrite zlen_app. pose proof (zlen_nonneg rest).
  rewrite (proj2 (Z.ltb_ge _ _)) by lia. unfold zlen. rewrite Nat2Z.id.
  by rewrite take_app_length, drop_app_length.
Qed.

Lemma reads_u8 t : reads read_u8 [t] t.
Proof. intros rest. unfold read_u8. unfold mbind, Input_bind. rewrite (reads_take [t] 1) by done. by destruct t. Qed.

Lemma reads_be (n : nat) v : 0 <= v < 256 ^ Z.of_nat n ->
  reads (b ← take_bytes (Z.of_nat n); mret (be_value b)) (be_bytes n v) v.
Proof.
  intros Hv rest. unfold mbind, Input_bind. rewrite reads_take by (by rewrite zlen_be_bytes).
  by rewrite be_value_be_bytes.
Qed.

Lemma reads_u16 v : 0 <= v <= u16_max -> reads read_u16 (be_bytes 2 v) v.
Proof. intros Hv. apply (reads_be 2). change (256 ^ Z.of_nat 2) with 65536. unfold u16_max in Hv. lia. Qed.

Lemma reads_u32 v : 0 <= v <= u32_max -> reads read_u32 (be_bytes 4 v) v.
Proof. intros Hv. apply (reads_be 4). change (256 ^ Z.of_nat 4) with 4294967296. unfold u32_max in Hv. lia. Qed.

Lemma reads_u64 v : 0 <= v <= u64_max -> reads read_u64 (be_bytes 8 v) v.
Proof. intros Hv. apply (reads_be 8). change (256 ^ Z.of_nat 8) with 18446744073709551616. unfold u64_max in Hv. lia. Qed.

Lemma reads_i32 v : i32_min <= v <= i32_max -> reads read_i32 (be_bytes 4 v) v.
Proof.
  intros Hv rest. unfold read_i32, mbind, Input_bind. rewrite reads_take by (by rewrite zlen_be_bytes).
  rewrite be_value_be_bytes_mod. change (256 ^ Z.of_nat 4) with 4294967296. unfold i32_min, i32_max in *.
  destruct (Z.leb_spec 0 v).
  - rewrite Z.mod_small by lia. by rewrite (proj2 (Z.leb_le _ _)) by lia.
  - rewrite <- (Z.mod_add v 1), Z.mod_small by lia. rewrite (proj2 (Z.leb_gt _ _)) by lia.
    unfold mret, Input_ret. do 2 f_equal. lia.
Qed.

Lemma push_text_inv t bs : push_text t = Ok bs -> zlen t <= u32_max /\ bs = be_bytes 4 (zlen t) ++ t.
Proof. unfold push_text. case_match; [|done]. bool_to_prop. by intros [= <-]. Qed.

Lemma push_u16_inv v bs : push_u16 v = Ok bs -> v <= u16_max /\ bs = be_bytes 2 v.
Proof. unfold push_u16. case_match; [|done]. bool_to_prop. by intros [= <-]. Qed.

Lemma reads_text t bs : push_text t = Ok bs -> text_wf t -> reads read_text bs t.
Proof.
  intros [Hl ->]%push_text_inv [Hu Hm]. pose proof (zlen_nonneg t).
  eapply reads_bind; [by apply reads_u32|]. cbv beta.
  rewrite (proj2 (Z.ltb_ge _ _)) by done. rewrite <- (app_nil_r t) at 2.
  eapply reads_bind; [by apply reads_take|]. cbv beta. rewrite Hu. apply reads_ret.
Qed.

Lemma reads_many {A} (f : Input A) l parts :
  Forall2 (fun a b => reads f b a) l parts -> reads (read_many f (length l)) (concat parts) l.
Proof.
  induction 1 as [|a b l parts Ha _ IH]; simpl; [apply reads_ret|].
  eapply reads_bind; [exact Ha|]. by apply (reads_map _ (fun l => a :: l)).
Qed.

Lemma encode_all_reads {A} (f : A -> result PolicyCompileFailure bytes) (d : Input A) (P : A -> Prop) l bs :
  (forall a b, f a = Ok b -> P a -> reads d b a) -> Forall P l -> encode_all f l = Ok bs ->
  reads (read_many d (length l)) bs l.
Proof.
  intros Hfd Hl. unfold encode_all. destruct (try_map f l) as [parts|] eqn:Hp; [|done]. intros [= <-].
  apply reads_many. apply try_map_Forall2 in Hp. induction Hp as [|a b l parts Hab _ IH]; [constructor|].
  apply Forall_cons in Hl as [Ha Hl]. constructor; [by eapply Hfd|by apply IH].
Qed.

Lemma push_segment_ok p s : segment_wf s -> zlen (path_segments p) < 16 ->
  zlen (path_key p) + segments_bytes (path_segments p) + segment_bytes s <= MAX_POLICY_PATH_BYTES ->
  push_segment p s = Ok (mkPath (path_namespace p) (path_key p) (path_occurrence p) (path_segments p ++ [s])).
Proof.
  intros Hs Hn Hb. unfold push_segment. rewrite (proj2 (Z.eqb_neq _ _)) by lia.
  pose proof (segment_bytes_nonneg s). unfold MAX_POLICY_PATH_BYTES in *.
  assert (Hsum : path_bounded_bytes p = zlen (path_key p) + segments_bytes (path_segments p))
    by (apply path_bounded_bytes_sum; unfold usize_max; lia).
  assert (Hsat : saturating_add usize_max (path_bounded_bytes p) (segment_bytes s) <= 1024)
    by (rewrite Hsum; unfold saturating_add; lia).
  destruct s as [k|i]; simpl in *.
  - destruct Hs as [Hne _]. rewrite bool_decide_false by done. cbn [mbind result_bind].
    by rewrite (proj2 (Z.ltb_ge _ _)).
  - by rewrite (proj2 (Z.ltb_ge _ _)).
Qed.

Lemma reads_segments segs : forall parts p,
  Forall2 (fun s b => encode_segment s = Ok b) segs parts -> Forall segment_wf segs ->
  zlen (path_segments p) + zlen segs <= 16 ->
  zlen (path_key p) + segments_bytes (path_segments p ++ segs) <= MAX_POLICY_PATH_BYTES ->
  reads (decode_segments (length segs) p) (concat parts)
    (mkPath (path_namespace p) (path_key p) (path_occurrence p) (path_segments p ++ segs)).
Proof.
  induction segs as [|s segs IH]; intros parts p Hp Hwf Hn Hb.
  { apply Forall2_nil_inv_l in Hp as ->. rewrite app_nil_r. destruct p. apply reads_ret. }
  apply Forall2_cons_inv_l in Hp as (b & parts' & Hs & Hp & ->). apply Forall_cons in Hwf as [Hsw Hwf].
  rewrite zlen_cons in Hn. pose proof (zlen_nonneg segs). rewrite segments_bytes_app in Hb. simpl in Hb.
  pose proof (segments_bytes_nonneg segs).
  assert (Hpush := push_segment_ok p s Hsw ltac:(lia) ltac:(lia)).
  set (p' := mkPath (path_namespace p) (path_key p) (path_occurrence p) (path_segments p ++ [s])) in *.
  assert (Hrest : reads (decode_segments (length segs) p') (concat parts')
    (mkPath (path_namespace p) (path_key p) (path_occurrence p) (path_segments p ++ s :: segs))).
  { specialize (IH parts' p' Hp Hwf). simpl in IH. rewrite <- app_assoc in IH. apply IH.
    - rewrite zlen_app. change (zlen [s]) with 1. lia.
    - rewrite segments_bytes_app. simpl. lia. }
  destruct s as [k|i]; simpl in Hs.
  - destruct (push_text k) as [t|] eqn:Ht; [|done]. injection Hs as <-. simpl concat.
    eapply (reads_bind _ _ [1]); [apply reads_u8|]. eapply (reads_bind _ _ t); [|exact Hrest].
    eapply reads_checked; [by eapply reads_text; [|apply Hsw]|]. exact Hpush.
  - injection Hs as <-. simpl concat.
    eapply (reads_bind _ _ [2]); [apply reads_u8|]. eapply (reads_bind _ _ (be_bytes 2 i)); [|exact Hrest].
    eapply reads_checked; [by apply reads_u16|]. exact Hpush.
Qed.

Lemma reads_path p bs : encode_path p = Ok bs -> path_wf p -> reads decode_path bs p.
Proof.
  intros He (Hne & Ht & Hocc & Hn & Hsegs & Hb). unfold encode_path in He.
  destruct (push_text (path_key p)) as [key|] eqn:Hkey; [|done]. cbn [mbind result_bind] in He.
  destruct (push_u16 _) as [count|] eqn:Hcount; [|done]. cbn [mbind result_bind] in He.
  unfold encode_all in He. destruct (try_map encode_segment _) as [parts|] eqn:Hparts; [|done].
  cbn [mbind result_bind] in He. injection He as <-.
  apply push_u16_inv in Hcount as [_ ->]. apply try_map_Forall2 in Hparts.
  pose proof (zlen_nonneg (path_segments p)). pose proof (segments_bytes_nonneg (path_segments p)).
  eapply (reads_bind _ _ [_]); [apply reads_u8|]. eapply (reads_bind _ _ [] _ (path_namespace p)).
  { destruct (path_namespace p); apply reads_ret. }
  eapply reads_bind with (a := path_key p); [by apply (reads_text _ _ Hkey)|].
  eapply (reads_bind _ _ [] _ (mkPath (path_namespace p) (path_key p) OccAll [])).
  { intros rest. unfold checked, path_new. rewrite bool_decide_false by done. cbn [orb].
    by rewrite (proj2 (Z.ltb_ge _ _)) by lia. }
  assert (Htail : forall occ, occ = path_occurrence p ->
    reads (count ← read_u16; decode_segments (Z.to_nat count) (mkPath (path_namespace p) (path_key p) occ []))
      (be_bytes 2 (zlen (path_segments p)) ++ concat parts) p).
  { intros occ ->. eapply reads_bind; [apply reads_u16; unfold u16_max; lia|].
    replace (Z.to_nat (zlen (path_segments p))) with (length (path_segments p)) by (unfold zlen; lia).
    pose proof (reads_segments (path_segments p) parts (mkPath (path_namespace p) (path_key p) (path_occurrence p) [])
      Hparts Hsegs) as Hr. simpl in Hr. destruct p; apply Hr; unfold zlen in *; simpl in *; lia. }
  destruct (path_occurrence p) as [|i].
  - eapply (reads_bind _ _ [0]); [apply reads_u8|]. eapply (reads_bind _ _ [] _ OccAll); [apply reads_ret|].
    by apply Htail.
  - eapply (reads_bind _ _ [1] (be_bytes 2 i ++ be_bytes 2 (zlen (path_segments p)) ++ concat parts)); [apply reads_u8|].
    cbv beta iota. eapply reads_bind with (a := OccIndex i); [by apply (reads_map _ OccIndex), reads_u16|]. by apply Htail.
Qed.

Lemma reads_target t bs : encode_target t = Ok bs -> target_wf t -> reads decode_target bs t.
Proof.
  destruct t as [|p]; simpl.
  - intros [= <-] _. eapply (reads_bind _ _ [1] []); [apply reads_u8|apply reads_ret].
  - destruct (encode_path p) as [b|] eqn:Hp; [|done]. intros [= <-] Hwf.
    eapply (reads_bind _ _ [2]); [apply reads_u8|]. by apply (reads_map _ TAttribute), reads_path.
Qed.

Lemma reads_action a bs : encode_action a = Ok bs -> action_wf a -> reads decode_action bs a.
Proof.
  destruct a as [| |t|t|t l|t l]; simpl.
  1-2: intros [= <-] _; eapply (reads_bind _ _ [_] []); [apply reads_u8|apply reads_ret].
  1-4: destruct (encode_target t) as [b|] eqn:Ht; [|done]; intros [= <-] Hwf;
    eapply (reads_bind _ _ [_]); [apply reads_u8|].
  - by apply (reads_map _ Remove), reads_target.
  - by apply (reads_map _ Redact), reads_target.
  - destruct Hwf as [Hwf Hl]. eapply reads_bind; [by eapply reads_target|].
    by apply (reads_map _ (TruncateBytes t)), reads_u32.
  - destruct Hwf as [Hwf Hl]. eapply reads_bind; [by eapply reads_target|].
    by apply (reads_map _ (TruncateElements t)), reads_u16.
Qed.

Lemma reads_predicate p bs : encode_predicate p = Ok bs -> predicate_wf p -> reads decode_predicate bs p.
Proof.
  destruct p as [p|t|s|r|p k|t|v]; simpl.
  - destruct (encode_path p) as [b|] eqn:Hp; [|done]. intros [= <-] Hwf.
    eapply (reads_bind _ _ [1]); [apply reads_u8|]. by apply (reads_map _ AttributeExists), reads_path.
  - destruct (push_text t) as [b|] eqn:Ht; [|done]. intros [= <-] Hwf.
    eapply (reads_bind _ _ [2]); [apply reads_u8|]. eapply reads_checked; [by eapply reads_text|].
    unfold body_exact_text. by rewrite (proj2 (Z.ltb_ge _ _)) by apply Hwf.
  - intros [= <-] _. eapply (reads_bind _ _ [3] [_]); [apply reads_u8|].
    eapply (reads_bind _ _ [_] []); [apply reads_u8|]. destruct s; apply reads_ret.
  - intros [= <-] _. eapply (reads_bind _ _ [4] [_]); [apply reads_u8|].
    eapply (reads_bind _ _ [_] []); [apply reads_u8|].
    apply (reads_map _ Receiver). destruct r; apply reads_ret.
  - destruct (encode_path p) as [b|] eqn:Hp; [|done]. destruct (kind_code k) as [c|] eqn:Hk; [|done].
    intros [= <-] Hwf. eapply (reads_bind _ _ [5]); [apply reads_u8|].
    eapply reads_bind; [by eapply reads_path|]. eapply (reads_bind _ _ [c] []); [apply reads_u8|].
    apply (reads_map _ (AttributeType p)). destruct k; simplify_eq/=; apply reads_ret.
  - destruct (push_text t) as [b|] eqn:Ht; [|done]. intros [= <-] (Hne & Hwf & Hl).
    eapply (reads_bind _ _ [6]); [apply reads_u8|]. eapply reads_checked; [by eapply reads_text|].
    unfold service_identity. rewrite bool_decide_false by done. by rewrite (proj2 (Z.ltb_ge _ _)) by apply Hl.
  - intros [= <-] Hwf. eapply (reads_bind _ _ [7]); [apply reads_u8|]. by apply (reads_map _ LogSeverity), reads_i32.
Qed.

Lemma reads_reserving available n : available n = true -> reads (reserving available n) [] tt.
Proof. intros H. unfold reserving. rewrite H. apply reads_ret. Qed.

Lemma reads_rule available r bs : (forall n, n <= u16_max -> available n = true) ->
  encode_rule r = Ok bs -> rule_wf r -> reads (decode_rule available) bs r.
Proof.
  intros Hav He (Hne & Ht & Hl & Hn & Hps & Ha). unfold encode_rule in He.
  destruct (push_text _) as [id|] eqn:Hid; [|done]. cbn [mbind result_bind] in He.
  destruct (push_u16 _) as [count|] eqn:Hc; [|done]. cbn [mbind result_bind] in He.
  destruct (encode_all _ _) as [ps|] eqn:Hp; [|done]. cbn [mbind result_bind] in He.
  destruct (encode_action _) as [a|] eqn:Hact; [|done]. injection He as <-.
  apply push_u16_inv in Hc as [Hc ->]. pose proof (zlen_nonneg (predicates r)).
  eapply reads_bind; [by eapply reads_text|]. eapply reads_bind; [by apply reads_u16|].
  eapply (reads_bind _ _ []); [by apply reads_reserving, Hav|].
  eapply reads_bind.
  { replace (Z.to_nat (zlen (predicates r))) with (length (predicates r)) by (unfold zlen; lia).
    eapply encode_all_reads; [|exact Hps|exact Hp]. apply reads_predicate. }
  eapply reads_checked; [by eapply reads_action|]. destruct r as [i p ac]; simpl in *.
  unfold rule_new. rewrite bool_decide_false by done. cbn [orb].
  by rewrite !(proj2 (Z.ltb_ge _ _)) by done.
Qed.
