(* ===== verification/PolicyCompile.v ===== *)
(** PolicyCompile: compilation of rules into a bounded policy, its activation object and the
    reconstruction of applied actions (crates/positron-policy/src/policy/compile.rs and
    activation.rs).

    SHA-256 is a third-party library: [sha256] is a parameter. [available] says which vector
    reservations of the decoder succeed. *)

From Stdlib Require Import Ascii String.
From S2P Require Import Prelude Outcome Limits Values Identity Routing PolicyModel PolicyCodec.

(** ** Static costs *)

(** [positron-policy/src/policy/compile.rs:310-313 PolicyAttributePath::worst_case_steps] *)
Definition path_worst_case_steps (p : PolicyAttributePath) : Z :=
  let depth := zlen (path_segments p) in
  saturating_mul u64_max MAX_NATIVE_RECORD_BYTES (saturating_add u64_max depth 2).

(** [positron-policy/src/policy/compile.rs:301-306 PolicyTarget::worst_case_steps] *)
Definition target_worst_case_steps (t : PolicyTarget) : Z :=
  match t with TBody => 1 | TAttribute path => path_worst_case_steps path end.

(** [positron-policy/src/policy/compile.rs:289-297 PolicyAction::worst_case_steps] *)
Definition action_worst_case_steps (a : PolicyAction) : Z :=
  match a with
  | Accept | Reject => 1
  | Remove t | Redact t | TruncateBytes t _ | TruncateElements t _ => target_worst_case_steps t
  end.

(** [positron-policy/src/policy/compile.rs:278-285 PolicyPredicate::worst_case_steps] *)
Definition predicate_worst_case_steps (p : PolicyPredicate) : Z :=
  match p with
  | AttributeExists path | AttributeType path _ => path_worst_case_steps path
  | ServiceIdentity _ => MAX_NATIVE_RECORD_BYTES
  | BodyExactText value => Z.max (zlen value) 1
  | SignalStore _ | Receiver _ | LogSeverity _ => 1
  end.

(** [positron-policy/src/policy/compile.rs:239-250 PolicyRule::worst_case_steps] *)
Definition rule_worst_case_steps (r : PolicyRule) : result PolicyCompileFailure Z :=
  ps ← ok_or EvaluationBudgetExceeded
    (try_fold_opt (fun total p => checked_add u64_max total (predicate_worst_case_steps p)) 0 (predicates r));
  ok_or EvaluationBudgetExceeded (checked_add u64_max ps (action_worst_case_steps (rule_action r))).

(** [positron-policy/src/policy/compile.rs:338-343 PolicyTarget::bounded_bytes] *)
Definition target_bounded_bytes (t : PolicyTarget) : Z :=
  match t with TBody => 1 | TAttribute path => path_bounded_bytes path end.

(** [positron-policy/src/policy/compile.rs:345-353 PolicyTarget::is_protected] *)
Definition is_protected (t : PolicyTarget) : bool :=
  match t with
  | TAttribute path =>
      bool_decide (path_namespace path = NsResource)
      && bytes_eqb (path_key path) (bytes_of_string "service.name")
      && (match path_segments path with [] => true | _ => false end)
  | TBody => false
  end.

(** [positron-policy/src/policy/compile.rs:317-324 PolicyAction::bounded_bytes] *)
Definition action_bounded_bytes (a : PolicyAction) : Z :=
  match a with
  | Accept | Reject => 1
  | Remove t | Redact t => target_bounded_bytes t
  | TruncateBytes t _ => saturating_add usize_max (target_bounded_bytes t) 4
  | TruncateElements t _ => saturating_add usize_max (target_bounded_bytes t) 2
  end.

(** [positron-policy/src/policy/compile.rs:326-334 PolicyAction::has_protected_target] *)
Definition has_protected_target (a : PolicyAction) : bool :=
  match a with
  | Accept | Reject => false
  | Remove t | Redact t | TruncateBytes t _ | TruncateElements t _ => is_protected t
  end.

Definition predicate_bounded_bytes (p : PolicyPredicate) : Z :=
  match p with
  | AttributeExists path => path_bounded_bytes path
  | BodyExactText value => zlen value
  | SignalStore _ | Receiver _ | LogSeverity _ => 4
  | AttributeType path _ => saturating_add usize_max (path_bounded_bytes path) 1
  | ServiceIdentity value => zlen value
  end.

(** [positron-policy/src/policy/compile.rs:252-274 PolicyRule::bounded_bytes] *)
Definition rule_bounded_bytes (r : PolicyRule) : result PolicyCompileFailure Z :=
  ps ← ok_or PolicyBytesExceeded
    (try_fold_opt (fun total p => checked_add usize_max total (predicate_bounded_bytes p)) 0 (predicates r));
  ok_or PolicyBytesExceeded
    (b ← checked_add usize_max ps (zlen (rule_id r));
     checked_add usize_max b (action_bounded_bytes (rule_action r))).

(** ** Compilation *)

(** [positron-policy/src/activation.rs:13-13 MAX_ACTIVATED_POLICY_OBJECT_BYTES] *)
Definition MAX_ACTIVATED_POLICY_OBJECT_BYTES : Z := 1048576.

(** The accumulators of the compile loop. *)
Record CompileState := mkCompileState {
  c_ids : list bytes;
  c_policy_bytes : Z;
  c_steps : Z;
  c_provenance : Z;
}.

Section compile.
Context {Lay : PolicyLayout} (sha256 : bytes -> bytes) (available : Z -> bool).

(** One iteration of the compile loop. *)
Definition compile_rule (st : CompileState) (rule : PolicyRule) : result PolicyCompileFailure CompileState :=
  if bool_decide (rule_id rule ∈ c_ids st) then Err InvalidRuleId
  else
    rule_bytes ← rule_bounded_bytes rule;
    policy_bytes ← ok_or PolicyBytesExceeded
      (b ← checked_add usize_max (c_policy_bytes st) rule_bytes;
       if b <=? MAX_COMPILED_POLICY_BYTES then Some b else None);
    if has_protected_target (rule_action rule) then Err ProtectedTarget
    else
      rule_steps ← rule_worst_case_steps rule;
      steps ← ok_or EvaluationBudgetExceeded
        (s ← checked_add u64_max (c_steps st) rule_steps;
         if s <=? MAX_EVALUATION_STEPS then Some s else None);
      provenance ← ok_or PolicyBytesExceeded
        (b ← checked_add u64_max (c_provenance st) (zlen (rule_id rule));
         checked_add u64_max b size_of_String);
      Ok (mkCompileState (rule_id rule :: c_ids st) policy_bytes steps provenance).

(** [positron-policy/src/policy/canonical.rs:10-12 digest_encoded] *)
Definition digest_encoded (encoded : bytes) : bytes := sha256 encoded.

(** [positron-policy/src/policy/compile.rs:21-83 IngestPolicy::compile] *)
Definition compile (generation : Z) (rs : list PolicyRule) : result PolicyCompileFailure IngestPolicy :=
  if generation =? 0 then Err InvalidIdentity
  else if MAX_RULES <? zlen rs then Err RuleBoundExceeded
  else
    st ← try_fold compile_rule (mkCompileState [] 0 0 0) rs;
    encoded ← encode rs;
    _ ← ok_or PolicyBytesExceeded
      (maximum ← checked_sub MAX_ACTIVATED_POLICY_OBJECT_BYTES 32;
       if zlen encoded <=? maximum then Some tt else None);
    scratch ← ok_or PolicyBytesExceeded (checked_mul u64_max (zlen rs) size_of_String);
    Ok (mkPolicy generation (digest_encoded encoded) rs
          (mkBudget (c_steps st) MAX_NATIVE_RECORD_BYTES scratch (c_provenance st) size_of_evaluated_record)).

(** [positron-policy/src/policy/compile.rs:17-19 IngestPolicy::preserving] *)
Definition preserving (generation : Z) := compile generation [].

(** [positron-policy/src/policy/compile.rs:13-15 IngestPolicy::release_1_default] *)
Definition release_1_default := preserving 1.

(** [positron-policy/src/policy/compile.rs:85-98 IngestPolicy::reject_exact_text_body] *)
Definition reject_exact_text_body (generation : Z) (id value : bytes) : result PolicyCompileFailure IngestPolicy :=
  p ← body_exact_text value;
  r ← rule_new id [p] Reject;
  compile generation [r].

(** ** Activation objects *)

(** [positron-policy/src/activation.rs:11-11 ACTIVATION_MAGIC] *)
Definition ACTIVATION_MAGIC : bytes := bytes_of_string "PIPACT01".
(** [positron-policy/src/activation.rs:12-12 ACTIVATION_HEADER_BYTES] *)
Definition ACTIVATION_HEADER_BYTES : Z := 8 + 16 + 8.

(** [positron-policy/src/activation.rs:74-90 IngestPolicy::activated_object] *)
Definition activated_object (self : IngestPolicy) (tenant : TenantId) : result PolicyActivationFailure bytes :=
  definition ← map_err (fun _ => ActivationInvalid) (encode (rules self));
  _ ← ok_or ActivationInvalid
    (capacity ← checked_add usize_max ACTIVATION_HEADER_BYTES (zlen definition);
     if capacity <=? MAX_ACTIVATED_POLICY_OBJECT_BYTES then Some tt else None);
  Ok (ACTIVATION_MAGIC ++ tenant_id_bytes tenant ++ be_bytes 8 (generation self) ++ definition).

(** [slice::starts_with]. *)
Definition starts_with (bs prefix : bytes) : bool := bytes_eqb (take (length prefix) bs) prefix.

(** The reader of an activation object after its magic; [None] is another tenant's object. *)
Definition read_activation (tenant : TenantId) : Input (option (Z * list PolicyRule)) :=
  owner ← take_bytes 16;
  if negb (bytes_eqb owner (tenant_id_bytes tenant)) then mret None
  else
    generation ← read_u64;
    _ ← expect MAGIC;
    count ← read_u16;
    _ ← reserving available count;
    rs ← read_many (decode_rule available) (Z.to_nat count);
    mret (Some (generation, rs)).

(** [positron-policy/src/activation.rs:92-120 IngestPolicy::decode_activated_object] *)
Definition decode_activated_object (tenant : TenantId) (bs : bytes)
  : result PolicyActivationFailure (option IngestPolicy) :=
  if negb (starts_with bs ACTIVATION_MAGIC) then Ok None
  else
    match (_ ← expect ACTIVATION_MAGIC; read_activation tenant) bs with
    | Err e => Err e
    | Ok (None, _) => Ok None
    | Ok (Some (generation, rs), remaining) =>
        if bool_decide (remaining = []) then
          policy ← map_err (fun _ => ActivationInvalid) (compile generation rs); Ok (Some policy)
        else Err ActivationInvalid
    end.

(** ** Applied actions *)

(** The search for one applied rule identity from [offset] on. *)
Definition find_rule (rs : list PolicyRule) (offset : nat) (id : bytes)
  : result PolicyActivationFailure (nat * PolicyRule) :=
  if (length rs <? offset)%nat then Err ActivationInvalid
  else
    match list_find (fun r => rule_id r = id) (drop offset rs) with
    | None => Err ActivationInvalid
    | Some (relative, rule) => Ok ((offset + relative)%nat, rule)
    end.

Fixpoint reconstruct_loop (rs : list PolicyRule) (offset : nat) (ids : list bytes)
  : result PolicyActivationFailure (list (bytes * PolicyAction)) :=
  match ids with
  | [] => Ok []
  | id :: ids' =>
      '(index, rule) ← find_rule rs offset id;
      rest ← reconstruct_loop rs (S index) ids';
      Ok ((id, rule_action rule) :: rest)
  end.

(** [positron-policy/src/activation.rs:39-72 IngestPolicy::reconstruct_actions] *)
Definition reconstruct_actions (self : IngestPolicy) (gen : Z) (dig : bytes) (ids : list bytes)
  : result PolicyActivationFailure (list (bytes * PolicyAction)) :=
  if negb (gen =? generation self) || negb (bytes_eqb dig (digest self)) || (zlen (rules self) <? zlen ids)
  then Err ActivationInvalid
  else if negb (available (zlen ids)) then Err ActivationInvalid
  else reconstruct_loop (rules self) 0 ids.
End compile.

(** ** Admission estimates *)

(** [positron-policy/src/policy/compile.rs:172-172 POLICY_STEPS_PER_CPU_WORK_UNIT] *)
Definition POLICY_STEPS_PER_CPU_WORK_UNIT : Z := 65536.
(** [positron-policy/src/policy/compile.rs:173-173 MARKER_METADATA_STEPS] *)
Definition MARKER_METADATA_STEPS : Z := 2.

(** [positron-policy/src/policy/compile.rs:176-183 PolicyAdmissionShape::scan_work] *)
Definition scan_work (s : PolicyAdmissionShape) : option Z :=
  v ← checked_add u64_max (Z.max (shape_decoded_bytes s) (shape_retained_bytes s)) (shape_value_nodes s);
  v ← checked_add u64_max v (shape_attribute_entries s);
  v ← checked_add u64_max v (shape_maximum_nesting_depth s);
  checked_add u64_max v 1.

(** [positron-policy/src/policy/compile.rs:231-235 PolicyAttributePath::admission_work] *)
Definition path_admission_work (p : PolicyAttributePath) (scan : Z) : option Z :=
  path_steps ← checked_add u64_max (zlen (path_segments p)) 2;
  checked_mul u64_max scan path_steps.

(** [positron-policy/src/policy/compile.rs:222-227 PolicyTarget::admission_work] *)
Definition target_admission_work (t : PolicyTarget) (scan : Z) : option Z :=
  match t with TBody => Some scan | TAttribute path => path_admission_work path scan end.

(** [positron-policy/src/policy/compile.rs:201-218 PolicyAction::admission_work] *)
Definition action_admission_work (a : PolicyAction) (shape : PolicyAdmissionShape) (scan : Z) : option Z :=
  match a with
  | Accept | Reject => Some 1
  | Remove t | Redact t | TruncateElements t _ =>
      w ← target_admission_work t scan;
      w ← checked_add u64_max w scan;
      checked_add u64_max w MARKER_METADATA_STEPS
  | TruncateBytes t limit =>
      w ← target_admission_work t scan;
      w ← checked_add u64_max w scan;
      w ← checked_add u64_max w (Z.min limit (shape_decoded_bytes shape));
      checked_add u64_max w MARKER_METADATA_STEPS
  end.

(** [positron-policy/src/policy/compile.rs:187-197 PolicyPredicate::admission_work] *)
Definition predicate_admission_work (p : PolicyPredicate) (scan : Z) : option Z :=
  match p with
  | AttributeExists path | AttributeType path _ => path_admission_work path scan
  | BodyExactText value | ServiceIdentity value =>
      w ← checked_add u64_max scan (zlen value);
      checked_add u64_max w 1
  | SignalStore _ | Receiver _ | LogSeverity _ => Some 1
  end.

(** [positron-policy/src/policy/compile.rs:154-169 IngestPolicy::admission_steps_for_shape] *)
Definition admission_steps_for_shape (self : IngestPolicy) (shape : PolicyAdmissionShape) : option Z :=
  scan ← scan_work shape;
  work ← try_fold_opt (fun total rule =>
    ps ← try_fold_opt (fun total p => w ← predicate_admission_work p scan; checked_add u64_max total w)
           0 (predicates rule);
    a ← action_admission_work (rule_action rule) shape scan;
    total ← checked_add u64_max total ps;
    total ← checked_add u64_max total a;
    total ← checked_add u64_max total (zlen (rule_id rule));
    checked_add u64_max total 1) 0 (rules self);
  steps ← checked_add u64_max scan work;
  Some (Z.max steps 1).

(** [positron-policy/src/policy/compile.rs:145-152 IngestPolicy::admission_cpu_work_units_for_shape] *)
Definition admission_cpu_work_units_for_shape (self : IngestPolicy) (shape : PolicyAdmissionShape) : option Z :=
  steps ← admission_steps_for_shape self shape;
  n ← checked_add u64_max steps (POLICY_STEPS_PER_CPU_WORK_UNIT - 1);
  Some (Z.max (n / POLICY_STEPS_PER_CPU_WORK_UNIT) 1).

(** [positron-policy/src/policy/compile.rs:130-140 IngestPolicy::admission_cpu_work_units] *)
Definition admission_cpu_work_units (self : IngestPolicy) (shapes : list PolicyAdmissionShape) : option Z :=
  try_fold_opt (fun total shape =>
    steps ← admission_steps_for_shape self shape;
    n ← checked_add u64_max steps (POLICY_STEPS_PER_CPU_WORK_UNIT - 1);
    let units := Z.max (n / POLICY_STEPS_PER_CPU_WORK_UNIT) 1 in
    checked_add u64_max total units) 0 shapes.

(** ** What compilation guarantees *)

Section compiled.
Context {Lay : PolicyLayout} (sha256 : bytes -> bytes).

(** The total of the rules' worst-case steps. *)
Definition rule_steps (r : PolicyRule) : Z :=
  match rule_worst_case_steps r with Ok n => n | Err _ => 0 end.

Lemma rule_steps_nonneg r n : rule_worst_case_steps r = Ok n -> 0 <= n.
Proof.
  assert (Hpath : forall p, 0 <= path_worst_case_steps p).
  { intros p. unfold path_worst_case_steps, saturating_mul, saturating_add, MAX_NATIVE_RECORD_BYTES, u64_max.
    pose proof (zlen_nonneg (path_segments p)). lia. }
  assert (Hpred : forall p, 0 <= predicate_worst_case_steps p)
    by (intros []; simpl; try apply Hpath; unfold MAX_NATIVE_RECORD_BYTES; lia).
  assert (Hact : 0 <= action_worst_case_steps (rule_action r))
    by (destruct (rule_action r) as [| |[|p]|[|p]|[|p] ?|[|p] ?]; simpl; try apply Hpath; lia).
  unfold rule_worst_case_steps. destruct (try_fold_opt _ 0 (predicates r)) as [x|] eqn:Hx; [|done].
  cbn [ok_or mbind result_bind]. destruct (checked_add u64_max x _) as [y|] eqn:Hy; [|done]. intros [= <-]. inv_checked.
  assert (0 <= x); [|lia]. revert Hx. apply (try_fold_opt_ind _ (fun x => 0 <= x)); [|done].
  intros b p b' Hb Hs. inv_checked. specialize (Hpred p). lia.
Qed.

Lemma steps_sum_nonneg rs : 0 <= foldr (fun r n => rule_steps r + n) 0 rs.
Proof.
  induction rs as [|r rs IH]; simpl; [done|]. unfold rule_steps at 1.
  destruct (rule_worst_case_steps r) as [n|] eqn:Hn; [|lia]. apply rule_steps_nonneg in Hn. lia.
Qed.

Record compile_facts (g : Z) (rs : list PolicyRule) (p : IngestPolicy) : Prop := {
  cf_generation : generation p = g /\ g <> 0;
  cf_rules : rules p = rs /\ zlen rs <= MAX_RULES;
  cf_unique : NoDup (map rule_id rs);
  cf_unprotected : Forall (fun r => has_protected_target (rule_action r) = false) rs;
  cf_steps : Forall (fun r => exists n, rule_worst_case_steps r = Ok n) rs
    /\ evaluation_steps (budget p) = foldr (fun r n => rule_steps r + n) 0 rs
    /\ evaluation_steps (budget p) <= MAX_EVALUATION_STEPS;
  cf_encoded : exists e, encode rs = Ok e /\ zlen e <= 1048544 /\ digest p = sha256 e;
}.

Lemma compile_rule_inv st r st' : compile_rule st r = Ok st' ->
  (rule_id r ∉ c_ids st) /\ has_protected_target (rule_action r) = false
  /\ c_ids st' = rule_id r :: c_ids st
  /\ exists n, rule_worst_case_steps r = Ok n /\ c_steps st' = c_steps st + n /\ c_steps st' <= MAX_EVALUATION_STEPS.
Proof.
  unfold compile_rule. destruct (bool_decide _) eqn:Hid; [done|]. bool_to_prop.
  bind_step rb Hrb. bind_step pb Hpb. destruct (has_protected_target _) eqn:Hp; [done|].
  bind_step n Hn. bind_step s Hs. bind_step pv Hpv. intros [= <-].
  destruct (checked_add u64_max (c_steps st) n) as [x|] eqn:Hx; [|done]. simpl in Hs.
  destruct (x <=? MAX_EVALUATION_STEPS) eqn:Hm; [|done]. injection Hs as <-.
  bool_to_prop. inv_checked. subst. simpl. eauto 10.
Qed.

Lemma compile_loop_inv rs : forall st st', try_fold compile_rule st rs = Ok st' -> NoDup (c_ids st) ->
  c_steps st <= MAX_EVALUATION_STEPS ->
  NoDup (map rule_id rs) /\ (forall r, r ∈ rs -> rule_id r ∉ c_ids st)
  /\ Forall (fun r => has_protected_target (rule_action r) = false) rs
  /\ Forall (fun r => exists n, rule_worst_case_steps r = Ok n) rs
  /\ c_steps st' = c_steps st + foldr (fun r n => rule_steps r + n) 0 rs /\ c_steps st' <= MAX_EVALUATION_STEPS.
Proof.
  induction rs as [|r rs IH]; intros st st' H Hnd Hle; simpl in *.
  { injection H as <-. split; [constructor|]. split; [intros r Hr; by apply not_elem_of_nil in Hr|].
    do 2 (split; [constructor|]). split; [lia|done]. }
  destruct (compile_rule st r) as [st1|] eqn:Hr; [|done].
  apply compile_rule_inv in Hr as (Hnin & Hp & Hids & n & Hn & Hs & Hmax).
  destruct (IH st1 st' H) as (H1 & H2 & H3 & H4 & H5 & H6); [rewrite Hids; by constructor|done|].
  rewrite Hids in H2. split.
  { constructor; [|done]. intros (r' & Hr' & Hin)%list_elem_of_fmap. apply (H2 r' Hin). rewrite <- Hr'. left. }
  split.
  { intros r' [->|Hin]%elem_of_cons; [done|]. intros Hc. apply (H2 r' Hin). by right. }
  split; [by constructor|]. split; [constructor; eauto|].
  unfold rule_steps at 1. rewrite Hn. split; [lia|done].
Qed.

Lemma compile_inv g rs p : compile sha256 g rs = Ok p -> compile_facts g rs p.
Proof.
  unfold compile. destruct (g =? 0) eqn:Hg; [done|]. destruct (MAX_RULES <? zlen rs) eqn:Hn; [done|].
  destruct (try_fold compile_rule _ rs) as [st|] eqn:Hst; [|done]. cbn [mbind result_bind].
  destruct (encode rs) as [e|] eqn:He; [|done]. cbn [mbind result_bind].
  destruct (checked_sub MAX_ACTIVATED_POLICY_OBJECT_BYTES 32) as [m|] eqn:Hm; [|done]. cbn [mbind option_bind].
  destruct (zlen e <=? m) eqn:Hl; [|done]. cbn [ok_or mbind result_bind].
  destruct (ok_or PolicyBytesExceeded _); [|done]. intros [= <-]. bool_to_prop. inv_checked.
  apply compile_loop_inv in Hst as (H1 & H2 & H3 & H4 & H5 & H6); [|constructor|by vm_compute].
  simpl in H5. split; simpl; try done.
  exists e. unfold MAX_ACTIVATED_POLICY_OBJECT_BYTES in *. split; [done|]. split; [lia|done].
Qed.
End compiled.

(** ** Activation round trip *)

Lemma encode_inv rs e : encode rs = Ok e -> exists body, encode_all encode_rule rs = Ok body
  /\ zlen rs <= u16_max /\ e = MAGIC ++ be_bytes 2 (zlen rs) ++ body.
Proof.
  unfold encode. destruct (push_u16 _) as [c|] eqn:Hc; [|done]. cbn [mbind result_bind].
  destruct (encode_all _ rs) as [b|] eqn:Hb; [|done]. intros [= <-]. apply push_u16_inv in Hc as [? ->]. eauto.
Qed.

Lemma reads_expect bs : reads (expect bs) bs tt.
Proof.
  unfold expect. rewrite <- (app_nil_r bs) at 2. eapply reads_bind; [by apply reads_take|]. cbv beta.
  unfold bytes_eqb. rewrite bool_decide_true by done. apply reads_ret.
Qed.

Lemma reads_activation available tenant g rs e : (forall n, n <= u16_max -> available n = true) ->
  zlen (tenant_id_bytes tenant) = 16 -> 0 <= g <= u64_max -> Forall rule_wf rs -> encode rs = Ok e ->
  reads (read_activation available tenant) (tenant_id_bytes tenant ++ be_bytes 8 g ++ e) (Some (g, rs)).
Proof.
  intros Hav Ht Hg Hwf (body & Hb & Hn & ->)%encode_inv. pose proof (zlen_nonneg rs).
  eapply reads_bind; [by apply reads_take|]. cbv beta. unfold bytes_eqb. rewrite bool_decide_true by done.
  cbn [negb]. eapply reads_bind; [by apply reads_u64|]. eapply reads_bind; [apply reads_expect|].
  eapply reads_bind; [by apply reads_u16|]. eapply (reads_bind _ _ []); [by apply reads_reserving, Hav|].
  apply (reads_map _ (fun rs => Some (g, rs))).
  replace (Z.to_nat (zlen rs)) with (length rs) by (unfold zlen; lia).
  eapply encode_all_reads; [|exact Hwf|exact Hb]. intros; by apply reads_rule.
Qed.

Lemma starts_with_app a b : starts_with (a ++ b) a = true.
Proof. unfold starts_with, bytes_eqb. rewrite take_app_length. by apply bool_decide_eq_true. Qed.

(** C31 (roundtrip). Activation is lossless and tenant-bound: the object of every compiled policy fits the
    object bound, decodes for its own tenant to exactly the same policy (generation, digest,
    rules and budget), and is not recognised as a policy of any other tenant. *)
Theorem activation_roundtrip {Lay : PolicyLayout} (sha256 : bytes -> bytes) (available : Z -> bool)
    (g : Z) (rs : list PolicyRule) (p : IngestPolicy) (tenant : TenantId) :
  (forall n, n <= u16_max -> available n = true) -> zlen (tenant_id_bytes tenant) = 16 ->
  0 <= g <= u64_max -> Forall rule_wf rs -> compile sha256 g rs = Ok p ->
  exists object, activated_object p tenant = Ok object
    /\ zlen object <= MAX_ACTIVATED_POLICY_OBJECT_BYTES
    /\ decode_activated_object sha256 available tenant object = Ok (Some p)
    /\ (forall other, zlen (tenant_id_bytes other) = 16 -> other <> tenant ->
          decode_activated_object sha256 available other object = Ok None).
Proof.
  intros Hav Ht Hg Hwf Hc. pose proof (compile_inv _ _ _ _ Hc) as [[Hgen _] [Hrs _] _ _ _ (e & He & Hl & _)].
  pose proof (zlen_nonneg e).
  exists (ACTIVATION_MAGIC ++ tenant_id_bytes tenant ++ be_bytes 8 g ++ e).
  unfold activated_object. rewrite Hrs, He, Hgen. cbn [map_err mbind result_bind].
  unfold ACTIVATION_HEADER_BYTES, MAX_ACTIVATED_POLICY_OBJECT_BYTES.
  rewrite checked_add_ok by (unfold usize_max; lia). cbn [mbind option_bind].
  rewrite (proj2 (Z.leb_le _ _)) by lia. split; [done|].
  split; [rewrite !zlen_app, zlen_be_bytes, Ht; change (zlen ACTIVATION_MAGIC) with 8; lia|].
  unfold decode_activated_object. setoid_rewrite starts_with_app. cbn [negb].
  unfold mbind, Input_bind. setoid_rewrite reads_expect. split.
  - pose proof (reads_activation available tenant g rs e Hav Ht Hg Hwf He []) as Hr. rewrite app_nil_r in Hr.
    rewrite Hr. rewrite bool_decide_true by done. by rewrite Hc.
  - intros other Ho Hne. unfold read_activation, mbind, Input_bind. rewrite reads_take by (by rewrite Ht).
    unfold bytes_eqb. rewrite bool_decide_false; [done|]. intros Heq. apply Hne. by destruct other, tenant; simplify_eq/=.
Qed.

(** A concrete layout, digest and policy. *)
Module Sample.
Definition layout : PolicyLayout.
Proof. by refine {| size_of_String := 24; size_of_evaluated_record := 512 |}. Defined.

Definition tenant : TenantId := mkTenantId (repeat 7 16).
Definition other : TenantId := mkTenantId (repeat 9 16).
Definition fingerprint (b : bytes) : bytes := be_bytes 32 (fold_left (fun acc x => acc * 31 + x) b 7).

Definition session : PolicyAttributePath :=
  mkPath NsRecord (bytes_of_string "session") (OccIndex 0) [SegKey (bytes_of_string "token"); SegArrayIndex 3].
Definition redact_session : PolicyRule :=
  mkRule (bytes_of_string "redact-session") [AttributeExists session; SignalStore Logs] (Redact (TAttribute session)).
Definition drop_debug : PolicyRule :=
  mkRule (bytes_of_string "drop-debug") [LogSeverity (-1); Receiver OtlpGrpc] Reject.
Definition rule_list : list PolicyRule := [redact_session; drop_debug].
Definition policy : IngestPolicy :=
  match compile (Lay := layout) fingerprint 3 rule_list with
  | Ok p => p
  | Err _ => mkPolicy 0 [] [] (mkBudget 0 0 0 0 0)
  end.
End Sample.

Lemma activation_roundtrip_witness :
  exists object, activated_object Sample.policy Sample.tenant = Ok object
    /\ decode_activated_object (Lay := Sample.layout) Sample.fingerprint (fun _ => true) Sample.tenant object
       = Ok (Some Sample.policy)
    /\ decode_activated_object (Lay := Sample.layout) Sample.fingerprint (fun _ => true) Sample.other object = Ok None.
Proof.
  destruct (activation_roundtrip (Lay := Sample.layout) Sample.fingerprint (fun _ => true) 3 Sample.rule_list
    Sample.policy Sample.tenant) as (object & H1 & _ & H2 & H3).
  - done.
  - reflexivity.
  - vm_compute. intuition discriminate.
  - repeat constructor; vm_compute; try discriminate; intuition discriminate.
  - vm_compute. reflexivity.
  - exists object. split; [exact H1|]. split; [exact H2|]. apply H3; [reflexivity|discriminate].
Defined.

(** ** Reconstruction of applied actions *)

Lemma find_rule_here pre r suf : find_rule (pre ++ r :: suf) (length pre) (rule_id r) = Ok (length pre, r).
Proof.
  unfold find_rule. rewrite length_app. rewrite (proj2 (Nat.ltb_ge _ _)) by (simpl; lia).
  rewrite drop_app_length. simpl. rewrite decide_True by done. by rewrite Nat.add_0_r.
Qed.

Lemma find_rule_skip pre r suf id : rule_id r <> id -> id ∈ map rule_id suf ->
  find_rule (pre ++ r :: suf) (length pre) id = find_rule (pre ++ r :: suf) (S (length pre)) id.
Proof.
  intros Hne Hin. unfold find_rule. rewrite length_app. simpl length.
  rewrite !(proj2 (Nat.ltb_ge _ _)) by lia.
  rewrite drop_app_length. replace (pre ++ r :: suf) with ((pre ++ [r]) ++ suf) by (by rewrite <- app_assoc).
  rewrite drop_app_length' by (rewrite length_app; simpl; lia).
  simpl. rewrite decide_False by done. destruct (list_find _ suf) as [[i x]|]; simpl; [|done].
  do 2 f_equal. lia.
Qed.

Lemma reconstruct_sublist sub suf : sublist sub suf -> forall pre, NoDup (map rule_id suf) ->
  reconstruct_loop (pre ++ suf) (length pre) (map rule_id sub)
  = Ok (map (fun r => (rule_id r, rule_action r)) sub).
Proof.
  induction 1 as [|r sub suf _ IH|r sub suf Hsub IH]; intros pre Hnd; [done|..];
    simpl in Hnd; apply NoDup_cons in Hnd as [Hnin Hnd];
    specialize (IH (pre ++ [r]) Hnd); rewrite <- app_assoc, length_app, Nat.add_1_r in IH; simpl in IH.
  - cbn [map reconstruct_loop]. rewrite find_rule_here. cbn [mbind result_bind]. by rewrite IH.
  - destruct sub as [|s sub]; [done|]. cbn [map reconstruct_loop] in *.
    assert (Hin : rule_id s ∈ map rule_id suf).
    { apply list_elem_of_fmap. exists s. split; [done|]. eapply elem_of_submseteq; [left|]. by apply sublist_submseteq. }
    rewrite find_rule_skip; [exact IH| |done]. intros Heq. apply Hnin. by rewrite Heq.
Qed.
