(* ===== verification/PolicyEvaluation.v ===== *)
(** PolicyEvaluation: evaluation of a compiled policy on a native log or trace record
    (crates/positron-policy/src/policy/evaluation.rs).

    In-place mutation of a record is a function from the old value to the new one together with
    the program's [bool] answer; an error drops the record, as in the program. The allocator of
    truncated copies is threaded as state. *)

From Stdlib Require Import Ascii String.
From S2P Require Import Prelude Outcome Limits Values Observe Traversal Identity Routing Validation Shape PolicyModel PolicyCodec PolicyCompile.

(** ** Records under policy *)

(** [positron-policy/src/policy/evaluation.rs:135-142 PolicyRecord] The accessors with the laws of the
    mutable ones: writing one part leaves the other parts alone, and writing back what was read
    changes nothing. *)
Class PolicyRecord (C : Type) := {
  attributes : C -> list NativePolicyAttribute;
  set_attributes : list NativePolicyAttribute -> C -> C;
  body : C -> option CandidateAttributeValue;
  set_body : option CandidateAttributeValue -> C -> C;
  signal : C -> SignalKind;
  log_severity : C -> option Z;
  attributes_set a c : attributes (set_attributes a c) = a;
  attributes_set_body b c : attributes (set_body b c) = attributes c;
  body_set b c : body (set_body b c) = b;
  body_set_attributes a c : body (set_attributes a c) = body c;
  set_attributes_same c : set_attributes (attributes c) c = c;
  set_body_same c : set_body (body c) c = c;
}.

(** [positron-policy/src/policy/evaluation.rs:144-168 PolicyRecord!] *)
Definition log_record : PolicyRecord NativeLogCandidate.
Proof.
  refine {|
    attributes := log_attributes;
    set_attributes := fun a r => mkLogCandidate (event_time_unix_nanos r) (observed_time_unix_nanos r) (log_body r) a (log_metadata r);
    body := log_body;
    set_body := fun b r => mkLogCandidate (event_time_unix_nanos r) (observed_time_unix_nanos r) b (log_attributes r) (log_metadata r);
    signal := fun _ => Logs;
    log_severity := fun r => Some (severity_number (log_metadata r));
  |}; by intros; destruct c || done.
Defined.
#[global] Existing Instance log_record.

(** [positron-policy/src/policy/evaluation.rs:170-194 PolicyRecord!] *)
Definition trace_record : PolicyRecord NativeTraceCandidate.
Proof.
  refine {|
    attributes := trace_attributes;
    set_attributes := fun a r => mkTraceCandidate (trace_body r) a;
    body := trace_body;
    set_body := fun b r => mkTraceCandidate b (trace_attributes r);
    signal := fun _ => Traces;
    log_severity := fun _ => None;
  |}; by intros; destruct c || done.
Defined.
#[global] Existing Instance trace_record.

(** ** Predicates *)

(** [positron-policy/src/policy/evaluation.rs:237-243 candidate_text] *)
Fixpoint candidate_text (v : CandidateAttributeValue) : option bytes :=
  match v with
  | CString value => Some (text value)
  | CTruncated value _ => candidate_text value
  | _ => None
  end.

(** [positron-policy/src/policy/evaluation.rs:303-316 candidate_kind] *)
Fixpoint candidate_kind (v : CandidateAttributeValue) : AttributeValueKind :=
  match v with
  | CNull => KNull
  | CBoolean _ => KBoolean
  | CSignedInteger _ => KSignedInteger
  | CFloatingPointBits _ => KFloatingPoint
  | CString _ => KString
  | CBytes _ => KBytes
  | CArray _ => KArray
  | CKeyValueList _ => KKeyValueList
  | CMarker _ => KMarker
  | CTruncated value _ => candidate_kind value
  end.

(** [positron-policy/src/policy/evaluation.rs:281-301 value_path_has_type] *)
Fixpoint value_path_has_type (segments : list PolicyPathSegment) (expected : AttributeValueKind)
  : CandidateAttributeValue -> bool :=
  match segments with
  | [] => fun v => bool_decide (candidate_kind v = expected)
  | first :: rest =>
      fix through (v : CandidateAttributeValue) : bool :=
        match v with
        | CTruncated value _ => through value
        | _ =>
            match first, v with
            | SegKey key, CKeyValueList entries =>
                existsb (fun '(k, value) => bytes_eqb (text k) key && value_path_has_type rest expected value) entries
            | SegArrayIndex index, CArray values =>
                match values !! Z.to_nat index with
                | Some value => value_path_has_type rest expected value
                | None => false
                end
            | _, _ => false
            end
        end
  end.

(** [positron-policy/src/policy/evaluation.rs:318-334 value_path_exists] *)
Fixpoint value_path_exists (segments : list PolicyPathSegment) : CandidateAttributeValue -> bool :=
  match segments with
  | [] => fun _ => true
  | first :: rest =>
      fix through (v : CandidateAttributeValue) : bool :=
        match v with
        | CTruncated value _ => through value
        | _ =>
            match first, v with
            | SegKey key, CKeyValueList entries =>
                existsb (fun '(k, value) => bytes_eqb (text k) key && value_path_exists rest value) entries
            | SegArrayIndex index, CArray values =>
                match values !! Z.to_nat index with
                | Some value => value_path_exists rest value
                | None => false
                end
            | _, _ => false
            end
        end
  end.

(** Whether an occurrence index is selected. *)
Definition is_selected (occurrence : PolicyOccurrence) (index : Z) : bool :=
  match occurrence with OccAll => true | OccIndex expected => index =? expected end.

Fixpoint selected_from (index : Z) (values : list CandidateAttributeValue) (occurrence : PolicyOccurrence)
  : list CandidateAttributeValue :=
  match values with
  | [] => []
  | v :: values' =>
      if is_selected occurrence index then v :: selected_from (index + 1) values' occurrence
      else selected_from (index + 1) values' occurrence
  end.

(** [positron-policy/src/policy/evaluation.rs:336-348 selected] *)
Definition selected (values : list CandidateAttributeValue) (occurrence : PolicyOccurrence) :=
  selected_from 0 values occurrence.

(** The attribute that a path addresses. *)
Definition addresses (path : PolicyAttributePath) (a : NativePolicyAttribute) : bool :=
  bool_decide (attr_namespace a = path_namespace path) && bytes_eqb (attr_key a) (path_key path).

Section evaluation.
Context {S : Type} {Alloc : Allocator S} {C : Type} {R : PolicyRecord C}.

(** [positron-policy/src/policy/evaluation.rs:253-261 find_attribute] *)
Definition find_attribute (record : C) (path : PolicyAttributePath) : option NativePolicyAttribute :=
  List.find (addresses path) (attributes record).

(** [positron-policy/src/policy/evaluation.rs:263-268 path_exists] *)
Definition path_exists (record : C) (path : PolicyAttributePath) : bool :=
  match find_attribute record path with
  | Some a => existsb (value_path_exists (path_segments path)) (selected (attr_occurrences a) (path_occurrence path))
  | None => false
  end.

(** [positron-policy/src/policy/evaluation.rs:270-279 path_has_type] *)
Definition path_has_type (record : C) (path : PolicyAttributePath) (expected : AttributeValueKind) : bool :=
  match find_attribute record path with
  | Some a =>
      existsb (value_path_has_type (path_segments path) expected) (selected (attr_occurrences a) (path_occurrence path))
  | None => false
  end.

Definition predicate_matches (record : C) (receiver : PolicyReceiver) (p : PolicyPredicate) : bool :=
  match p with
  | AttributeExists path => path_exists record path
  | BodyExactText expected =>
      match body record ≫= candidate_text with
      | Some actual => bytes_eqb actual expected
      | None => false
      end
  | SignalStore s => bool_decide (s = signal record)
  | Receiver expected => bool_decide (expected = receiver)
  | AttributeType path expected => path_has_type record path expected
  | ServiceIdentity expected =>
      existsb (fun a =>
        bool_decide (attr_namespace a = NsResource)
        && bytes_eqb (attr_key a) (bytes_of_string "service.name")
        && existsb (fun v => match v with CString actual => bytes_eqb (text actual) expected | _ => false end)
             (attr_occurrences a)) (attributes record)
  | LogSeverity expected =>
      match log_severity record with Some n => n =? expected | None => false end
  end.

(** [positron-policy/src/policy/evaluation.rs:209-234 PolicyRule::matches] *)
Definition rule_matches (rule : PolicyRule) (record : C) (receiver : PolicyReceiver) : bool :=
  forallb (predicate_matches record receiver) (predicates rule).

(** ** Transformations *)

(** [positron-policy/src/policy/evaluation.rs:245-251 Transformation] *)
Inductive Transformation :=
| DoRemove
| DoRedact
| DoTruncateBytes (limit : Z)
| DoTruncateElements (limit : Z).

(** Evaluation with the allocator's state. *)
Definition Eval (A : Type) : Type := S -> S * result PolicyEvaluationFailure A.

#[global] Instance Eval_ret : MRet Eval := fun A a s => (s, Ok a).
#[global] Instance Eval_bind : MBind Eval := fun A B k m s =>
  match m s with (s', Ok a) => k a s' | (s', Err e) => (s', Err e) end.

(** A reservation for sanitized evidence. *)
Definition reserve_evidence (n : Z) : Eval Z := fun s =>
  match try_reserve_exact n s with
  | (s, Some cap) => (s, Ok cap)
  | (s, None) => (s, Err EvidenceBoundExceeded)
  end.

(** [str::is_char_boundary]. *)
Definition is_char_boundary (t : bytes) (index : nat) : bool :=
  (index =? 0)%nat
  || match t !! index with
     | Some b => negb (continuation b)
     | None => (index =? length t)%nat
     end.

(** The loop that walks back to a character boundary. *)
Fixpoint boundary_before (t : bytes) (index : nat) : nat :=
  if is_char_boundary t index then index
  else match index with O => O | Datatypes.S index' => boundary_before t index' end.

(** [positron-policy/src/policy/evaluation.rs:444-482 truncate_bytes] *)
Definition truncate_bytes (v : CandidateAttributeValue) (limit : Z) : Eval (CandidateAttributeValue * bool) :=
  match v with
  | CString t =>
      if limit <? rs_len t then
        let boundary := boundary_before (text t) (Z.to_nat limit) in
        cap ← reserve_evidence (Z.of_nat boundary);
        mret (CTruncated (CString (mkRString (take boundary (text t)) cap)) TruncatedBytes, true)
      else mret (v, false)
  | CBytes b =>
      if limit <? rs_len b then
        cap ← reserve_evidence limit;
        mret (CTruncated (CBytes (mkRString (take (Z.to_nat limit) (text b)) cap)) TruncatedBytes, true)
      else mret (v, false)
  | _ => mret (v, false)
  end.

(** [positron-policy/src/policy/evaluation.rs:484-520 truncate_elements] *)
Definition truncate_elements (v : CandidateAttributeValue) (limit : Z) : Eval (CandidateAttributeValue * bool) :=
  match v with
  | CArray values =>
      if limit <? zlen values then
        let keep := Z.min (zlen values) limit in
        _ ← reserve_evidence keep;
        mret (CTruncated (CArray (take (Z.to_nat keep) values)) TruncatedElements, true)
      else mret (v, false)
  | CKeyValueList entries =>
      if limit <? zlen entries then
        let keep := Z.min (zlen entries) limit in
        _ ← reserve_evidence keep;
        mret (CTruncated (CKeyValueList (take (Z.to_nat keep) entries)) TruncatedElements, true)
      else mret (v, false)
  | _ => mret (v, false)
  end.

(** [positron-policy/src/policy/evaluation.rs:419-442 transform_leaf] *)
Definition transform_leaf (v : CandidateAttributeValue) (t : Transformation) : Eval (CandidateAttributeValue * bool) :=
  match t with
  | DoRemove | DoRedact =>
      let kind := candidate_kind v in
      if bool_decide (kind = KMarker) then mret (v, false)
      else
        let a := match t with DoRemove => Removed | _ => Redacted end in
        mret (CMarker (mkRedactionMarker kind a), true)
  | DoTruncateBytes limit => truncate_bytes v limit
  | DoTruncateElements limit => truncate_elements v limit
  end.

(** A fallible in-place loop over the entries whose key matches. *)
Definition transform_entries (key : bytes) (f : CandidateAttributeValue -> Eval (CandidateAttributeValue * bool))
  : list (RString * CandidateAttributeValue) -> Eval (list (RString * CandidateAttributeValue) * bool) :=
  fix go entries :=
    match entries with
    | [] => mret ([], false)
    | (k, v) :: entries' =>
        '(v, changed) ← (if bytes_eqb (text k) key then f v else mret (v, false));
        '(entries', changed') ← go entries';
        mret ((k, v) :: entries', changed || changed')
    end.

(** [positron-policy/src/policy/evaluation.rs:388-417 transform_value] Every caller passes a transformation. *)
Fixpoint transform_value (segments : list PolicyPathSegment) (t : Transformation)
  : CandidateAttributeValue -> Eval (CandidateAttributeValue * bool) :=
  match segments with
  | [] => fun v => transform_leaf v t
  | first :: rest =>
      fix through (v : CandidateAttributeValue) : Eval (CandidateAttributeValue * bool) :=
        match v with
        | CTruncated inner a => '(inner, changed) ← through inner; mret (CTruncated inner a, changed)
        | _ =>
            match first, v with
            | SegKey key, CKeyValueList entries =>
                '(entries, changed) ← transform_entries key (transform_value rest t) entries;
                mret (CKeyValueList entries, changed)
            | SegArrayIndex index, CArray values =>
                match values !! Z.to_nat index with
                | Some value =>
                    '(value, changed) ← transform_value rest t value;
                    mret (CArray (<[Z.to_nat index := value]> values), changed)
                | None => mret (v, false)
                end
            | _, _ => mret (v, false)
            end
        end
  end.

Fixpoint transform_occurrences (path : PolicyAttributePath) (t : Transformation) (index : Z)
    (values : list CandidateAttributeValue) : Eval (list CandidateAttributeValue * bool) :=
  match values with
  | [] => mret ([], false)
  | v :: values' =>
      '(v, changed) ← (if is_selected (path_occurrence path) index
                       then transform_value (path_segments path) t v else mret (v, false));
      '(values', changed') ← transform_occurrences path t (index + 1) values';
      mret (v :: values', changed || changed')
  end.

(** [positron-policy/src/policy/evaluation.rs:371-386 transform_selected] *)
Definition transform_selected (a : NativePolicyAttribute) (path : PolicyAttributePath) (t : Transformation)
  : Eval (NativePolicyAttribute * bool) :=
  '(values, changed) ← transform_occurrences path t 0 (attr_occurrences a);
  mret (mkAttribute (attr_namespace a) (attr_key a) values, changed).

(** The first attribute that the path addresses, rewritten in place. *)
Fixpoint transform_first (path : PolicyAttributePath) (t : Transformation) (l : list NativePolicyAttribute)
  : Eval (list NativePolicyAttribute * bool) :=
  match l with
  | [] => mret ([], false)
  | a :: l' =>
      if addresses path a then '(a, changed) ← transform_selected a path t; mret (a :: l', changed)
      else '(l', changed) ← transform_first path t l'; mret (a :: l', changed)
  end.

(** [positron-policy/src/policy/evaluation.rs:350-369 transform_target] *)
Definition transform_target (record : C) (target : PolicyTarget) (t : Transformation) : Eval (C * bool) :=
  match target with
  | TBody =>
      match body record with
      | None => mret (record, false)
      | Some b => '(b, changed) ← transform_leaf b t; mret (set_body (Some b) record, changed)
      end
  | TAttribute path =>
      '(l, changed) ← transform_first path t (attributes record);
      mret (set_attributes l record, changed)
  end.

(** ** Evaluation *)

(** [positron-policy/src/policy/evaluation.rs:130-133 EvaluationRecord] *)
Record EvaluationRecord := mkEvaluation {
  evaluated_record : option C;
  evaluated_provenance : PolicyProvenance;
}.

(** [positron-policy/src/policy/evaluation.rs:199-205 StepBudget::consume] *)
Definition consume (steps amount : Z) : result PolicyEvaluationFailure Z :=
  ok_or StepBudgetExhausted (checked_sub steps amount).

(** The transformation of an action that rewrites the record. *)
Definition rewriting (a : PolicyAction) : option (PolicyTarget * Transformation) :=
  match a with
  | Accept | Reject => None
  | Remove target => Some (target, DoRemove)
  | Redact target => Some (target, DoRedact)
  | TruncateBytes target limit => Some (target, DoTruncateBytes limit)
  | TruncateElements target limit => Some (target, DoTruncateElements limit)
  end.

(** [positron-policy/src/policy/evaluation.rs:78-126 IngestPolicy::evaluate_record!] The loop over the rules: the record unless rejected, and the identities applied so far. *)
Fixpoint apply_rules (rs : list PolicyRule) (receiver : PolicyReceiver) (record : C) (steps : Z)
    (applied : list bytes) : Eval (option C * list bytes) :=
  match rs with
  | [] => mret (Some record, applied)
  | rule :: rs' => fun s =>
      match (charge ← map_err (fun _ => StepBudgetExhausted) (rule_worst_case_steps rule); consume steps charge) with
      | Err e => (s, Err e)
      | Ok steps =>
          if negb (rule_matches rule record receiver) then apply_rules rs' receiver record steps applied s
          else
            match rule_action rule, rewriting (rule_action rule) with
            | Reject, _ => (s, Ok (None, applied ++ [rule_id rule]))
            | _, None => (s, Ok (Some record, applied ++ [rule_id rule]))
            | _, Some (target, t) =>
                match transform_target record target t s with
                | (s, Err e) => (s, Err e)
                | (s, Ok (record, changed)) =>
                    apply_rules rs' receiver record steps
                      (if (changed : bool) then applied ++ [rule_id rule] else applied) s
                end
            end
      end
  end.

(** Whether a record carries a marker that no policy put there. *)
Definition has_untrusted_marker (record : C) : bool :=
  match body record with Some b => contains_policy_marker b | None => false end
  || existsb (fun a => existsb contains_policy_marker (attr_occurrences a)) (attributes record).

(** [positron-policy/src/policy/evaluation.rs:61-127 IngestPolicy::evaluate_record] Cloned rule identities
    are exact copies, and the list of them is reserved for all the rules. *)
Definition evaluate_record (self : IngestPolicy) (record : C) (receiver : PolicyReceiver)
  : Eval EvaluationRecord :=
  if has_untrusted_marker record then fun s => (s, Err UntrustedMarker)
  else
    '(record, applied) ← apply_rules (rules self) receiver record (evaluation_steps (budget self)) [];
    mret (mkEvaluation record (provenance_evaluated (generation self) (digest self)
      (map (fun id => mkRString id (zlen id)) applied) (zlen (rules self)))).
End evaluation.
Arguments EvaluationRecord : clear implicits.

(** [positron-policy/src/candidate.rs:155-159 EvaluatedLogRecord] *)
Record EvaluatedLogRecord := mkEvaluatedLog { log_candidate : NativeLogCandidate; log_provenance : PolicyProvenance }.

(** [positron-policy/src/candidate.rs:210-214 EvaluatedTraceRecord] *)
Record EvaluatedTraceRecord := mkEvaluatedTrace { trace_candidate : NativeTraceCandidate; trace_provenance : PolicyProvenance }.

(** [positron-policy/src/policy.rs:194-198 PolicyEvaluation] *)
Inductive PolicyEvaluation := LogAccepted (record : EvaluatedLogRecord) | LogRejected.

(** [positron-policy/src/policy.rs:200-204 TracePolicyEvaluation] *)
Inductive TracePolicyEvaluation := TraceAccepted (record : EvaluatedTraceRecord) | TraceRejected.

Section entry_points.
Context {S : Type} {Alloc : Allocator S}.

(** [positron-policy/src/policy/evaluation.rs:15-27 IngestPolicy::evaluate] *)
Definition evaluate (self : IngestPolicy) (record : NativeLogCandidate) (receiver : PolicyReceiver)
  : Eval (S := S) PolicyEvaluation :=
  ev ← evaluate_record self record receiver;
  mret match evaluated_record ev with
       | None => LogRejected
       | Some r => LogAccepted (mkEvaluatedLog r (evaluated_provenance ev))
       end.

(** [positron-policy/src/policy/evaluation.rs:29-41 IngestPolicy::evaluate_trace] *)
Definition evaluate_trace (self : IngestPolicy) (record : NativeTraceCandidate) (receiver : PolicyReceiver)
  : Eval (S := S) TracePolicyEvaluation :=
  ev ← evaluate_record self record receiver;
  mret match evaluated_record ev with
       | None => TraceRejected
       | Some r => TraceAccepted (mkEvaluatedTrace r (evaluated_provenance ev))
       end.

(** [positron-policy/src/policy/evaluation.rs:43-50 IngestPolicy::preview_log] *)
Definition preview_log (self : IngestPolicy) (record : NativeLogCandidate) (receiver : PolicyReceiver)
  : Eval (S := S) (bool * PolicyProvenance) :=
  ev ← evaluate_record self record receiver;
  mret (match evaluated_record ev with Some _ => true | None => false end, evaluated_provenance ev).

(** [positron-policy/src/policy/evaluation.rs:52-59 IngestPolicy::preview_trace] *)
Definition preview_trace (self : IngestPolicy) (record : NativeTraceCandidate) (receiver : PolicyReceiver)
  : Eval (S := S) (bool * PolicyProvenance) :=
  ev ← evaluate_record self record receiver;
  mret (match evaluated_record ev with Some _ => true | None => false end, evaluated_provenance ev).
End entry_points.

(** ** A program logic for evaluation *)

Section logic.
Context {S : Type} {Alloc : Allocator S}.

(** Every answer satisfies [Q], and the only possible failure is a refused reservation. *)
Definition yields {A} (m : Eval (S := S) A) (Q : A -> Prop) : Prop := forall s,
  match (m s).2 with Ok a => Q a | Err e => e = EvidenceBoundExceeded end.

Lemma yields_ret {A} (a : A) (Q : A -> Prop) : Q a -> yields (mret a) Q.
Proof. by intros H s. Qed.

Lemma yields_bind {A B} (m : Eval A) (k : A -> Eval B) (Q : A -> Prop) (R : B -> Prop) :
  yields m Q -> (forall a, Q a -> yields (k a) R) -> yields (m ≫= k) R.
Proof.
  intros Hm Hk s. specialize (Hm s). unfold mbind, Eval_bind. destruct (m s) as [s1 [a|e]]; simpl in *; [|done].
  by apply Hk.
Qed.

Lemma yields_reserve n : yields (reserve_evidence n) (fun cap => n <= cap).
Proof.
  intros s. unfold reserve_evidence. destruct (try_reserve_exact n s) as [s1 [c|]] eqn:H; [|done].
  by eapply reserve_enough.
Qed.

Lemma yields_impl {A} (m : Eval A) (Q R : A -> Prop) : yields m Q -> (forall a, Q a -> R a) -> yields m R.
Proof. intros Hm H s. specialize (Hm s). destruct ((m s).2); auto. Qed.

(** Two values that a truncation wrapper accepts or refuses alike. *)
Definition same_head (v v' : CandidateAttributeValue) : Prop := forall a,
  truncation_shape_ok v' a = truncation_shape_ok v a.

(** A relation between a value and what a transformation makes of it, closed under the
    structure that paths walk through. *)
Class Compatible (T : CandidateAttributeValue -> CandidateAttributeValue -> Prop) := {
  compat_refl v : T v v;
  compat_array vs vs' : Forall2 T vs vs' -> T (CArray vs) (CArray vs');
  compat_entries es es' : Forall2 (fun e f => e.1 = f.1 /\ T e.2 f.2) es es' -> T (CKeyValueList es) (CKeyValueList es');
  compat_truncated v v' a : same_head v v' -> T v v' -> T (CTruncated v a) (CTruncated v' a);
}.

Context (T : CandidateAttributeValue -> CandidateAttributeValue -> Prop) {Ct : Compatible T}.
Context (t : Transformation) (Hleaf : forall v, yields (transform_leaf v t) (fun p => T v p.1)).

Lemma entries_yield key f es :
  (forall v, yields (f v) (fun p => T v p.1)) ->
  yields (transform_entries (S := S) key f es) (fun p => Forall2 (fun e g => e.1 = g.1 /\ T e.2 g.2) es p.1).
Proof.
  intros Hf. induction es as [|[k v] es IH]; simpl; [apply yields_ret; constructor|].
  eapply (yields_bind _ _ (fun p => T v p.1)).
  { case_match; [apply Hf|]. apply yields_ret. apply compat_refl. }
  intros [v' c] Hv. eapply yields_bind; [exact IH|]. intros [es' c'] Hes. apply yields_ret. by constructor.
Qed.

Lemma array_insert_related vs i v v' : vs !! i = Some v -> T v v' -> Forall2 T vs (<[i:=v']> vs).
Proof.
  revert i. induction vs as [|x vs IH]; intros [|i]; simpl; try done.
  - intros [= ->] Hv. constructor; [done|]. apply Forall_Forall2_diag, Forall_true. intros; apply compat_refl.
  - intros Hi Hv. constructor; [apply compat_refl|eauto].
Qed.

Lemma transform_value_yield segments : forall v, yields (transform_value (S := S) segments t v)
  (fun p => T v p.1 /\ (segments <> [] -> same_head v p.1)).
Proof.
  induction segments as [|first rest IH]; intros v.
  { eapply yields_impl; [apply Hleaf|]. by intros [v' c] Hv. }
  assert (Hrest : forall v, yields (transform_value (S := S) rest t v) (fun p => T v p.1))
    by (intros w; eapply yields_impl; [apply IH|]; by intros a [? _]).
  assert (Hsame : forall w, yields (mret (w, false)) (fun p => T w p.1 /\ (first :: rest <> [] -> same_head w p.1)))
    by (intros w; apply yields_ret; split; [apply compat_refl|done]).
  induction v as [|b|z|z|p|p|vs _|es _|m|v a IHv] using candidate_ind'; cbn [transform_value];
    try (destruct first; apply Hsame).
  - destruct first as [key|i]; [apply Hsame|]. destruct (vs !! Z.to_nat i) as [v|] eqn:Hi; [|apply Hsame].
    eapply yields_bind; [apply Hrest|]. intros [v' c] Hv. apply yields_ret. simpl. split; [|done].
    apply compat_array. by eapply array_insert_related.
  - destruct first as [key|i]; [|apply Hsame].
    eapply yields_bind; [apply entries_yield, Hrest|]. intros [es' c] Hes. apply yields_ret. simpl.
    split; [by apply compat_entries|done].
  - cbn [transform_value] in IHv. destruct first as [key|i].
    1-2: eapply yields_bind; [exact IHv|]; intros [v' c] [Hv Hh]; apply yields_ret; simpl in *;
      split; [apply compat_truncated; [by apply Hh|done]|done].
Qed.

Lemma occurrences_yield path vs index :
  yields (transform_occurrences (S := S) path t index vs) (fun p => Forall2 T vs p.1).
Proof.
  revert index. induction vs as [|v vs IH]; intros index; simpl; [apply yields_ret; constructor|].
  eapply (yields_bind _ _ (fun p => T v p.1)).
  { case_match; [|apply yields_ret, compat_refl].
    eapply yields_impl; [apply transform_value_yield|]. by intros a [? _]. }
  intros [v' c] Hv. eapply yields_bind; [apply IH|]. intros [vs' c'] Hvs. apply yields_ret. by constructor.
Qed.
End logic.

(** Two attribute lists of one shape whose occurrences are related. *)
Definition attributes_related (T : CandidateAttributeValue -> CandidateAttributeValue -> Prop) :=
  Forall2 (fun a a' : NativePolicyAttribute => attr_namespace a' = attr_namespace a /\ attr_key a' = attr_key a
    /\ Forall2 T (attr_occurrences a) (attr_occurrences a')).

Definition body_related (T : CandidateAttributeValue -> CandidateAttributeValue -> Prop)
    (b b' : option CandidateAttributeValue) : Prop :=
  match b, b' with Some v, Some v' => T v v' | None, None => True | _, _ => False end.

Section records.
Context {S : Type} {Alloc : Allocator S} {C : Type} {R : PolicyRecord C}.
Context (T : CandidateAttributeValue -> CandidateAttributeValue -> Prop) {Ct : Compatible T}.

Definition records_related (r r' : C) : Prop :=
  body_related T (body r) (body r') /\ attributes_related T (attributes r) (attributes r').

Lemma attributes_related_refl l : attributes_related T l l.
Proof.
  apply Forall_Forall2_diag, Forall_true. intros a. do 2 (split; [done|]).
  apply Forall_Forall2_diag, Forall_true. intros; apply compat_refl.
Qed.

Lemma body_related_refl b : body_related T b b.
Proof. destruct b; [exact (compat_refl _)|done]. Qed.

Lemma first_yield t path l : (forall v, yields (S := S) (transform_leaf v t) (fun p => T v p.1)) ->
  yields (transform_first (S := S) path t l) (fun p => attributes_related T l p.1).
Proof.
  intros Hleaf. induction l as [|a l IH]; simpl; [apply yields_ret; constructor|]. case_match.
  - eapply (yields_bind _ _ (fun p => attr_namespace p.1 = attr_namespace a /\ attr_key p.1 = attr_key a
      /\ Forall2 T (attr_occurrences a) (attr_occurrences p.1))).
    { eapply yields_bind; [by apply (occurrences_yield T)|]. intros [vs c] Hvs. by apply yields_ret. }
    intros [a' c] Ha. apply yields_ret. constructor; [done|apply attributes_related_refl].
  - eapply yields_bind; [exact IH|]. intros [l' c] Hl. apply yields_ret. constructor; [|done].
    do 2 (split; [done|]). apply Forall_Forall2_diag, Forall_true. intros; apply compat_refl.
Qed.

Lemma target_yield t target r : (forall v, yields (S := S) (transform_leaf v t) (fun p => T v p.1)) ->
  yields (transform_target (S := S) r target t) (fun p => records_related r p.1).
Proof.
  intros Hleaf. destruct target as [|path]; simpl.
  - destruct (body r) as [b|] eqn:Hb.
    + eapply yields_bind; [apply Hleaf|]. intros [b' c] Hv. apply yields_ret.
      unfold records_related. simpl. rewrite Hb, body_set, attributes_set_body.
      split; [done|apply attributes_related_refl].
    + apply yields_ret. split; [apply body_related_refl|apply attributes_related_refl].
  - eapply yields_bind; [by apply first_yield|]. intros [l c] Hl. apply yields_ret.
    unfold records_related. simpl. rewrite body_set_attributes, attributes_set.
    split; [apply body_related_refl|done].
Qed.
End records.

(** ** The rule loop *)

(** Applied rules: every one but the last rewrites, and the last one decides. *)
Fixpoint decided (sub : list PolicyRule) (rejected : bool) : Prop :=
  match sub with
  | [] => rejected = false
  | r :: sub' =>
      match rule_action r with
      | Accept => sub' = [] /\ rejected = false
      | Reject => sub' = [] /\ rejected = true
      | _ => decided sub' rejected
      end
  end.

Definition rejects {C} (o : option C) : bool := match o with Some _ => false | None => true end.

Section loop.
Context {S : Type} {Alloc : Allocator S} {C : Type} {R : PolicyRecord C}.
Context (P : C -> C -> Prop) {Ppre : PreOrder P}.

Lemma apply_rules_spec receiver rs :
  Forall (fun r => exists n, rule_worst_case_steps r = Ok n) rs ->
  Forall (fun r => forall target t, rewriting (rule_action r) = Some (target, t) ->
    forall record, yields (S := S) (transform_target record target t) (fun p => P record p.1)) rs ->
  forall record steps applied s, foldr (fun r n => rule_steps r + n) 0 rs <= steps ->
  match (apply_rules (S := S) rs receiver record steps applied s).2 with
  | Ok (o, ids) => exists sub, sublist sub rs /\ ids = applied ++ map rule_id sub
      /\ decided sub (rejects o) /\ (forall r', o = Some r' -> P record r')
  | Err e => e = EvidenceBoundExceeded
  end.
Proof.
  intros Hcost Htr. induction rs as [|rule rs IH]; intros record steps applied s Hsteps.
  { simpl. exists []. rewrite app_nil_r. split; [constructor|]. repeat split. by intros r' [= <-]. }
  apply Forall_cons in Hcost as [[n Hn] Hcost]. apply Forall_cons in Htr as [Ht Htr]. specialize (IH Hcost Htr).
  simpl in Hsteps. unfold rule_steps in Hsteps at 1. rewrite Hn in Hsteps.
  pose proof (rule_steps_nonneg _ _ Hn) as Hn0. pose proof (steps_sum_nonneg rs) as Hr0.
  cbn [apply_rules]. rewrite Hn. cbn [map_err mbind result_bind]. unfold consume.
  rewrite checked_sub_ok by lia. cbn [ok_or].
  destruct (rule_matches rule record receiver); cbn [negb].
  2:{ specialize (IH record (steps - n) applied s ltac:(lia)).
      destruct (apply_rules rs receiver record (steps - n) applied s).2 as [[o ids]|]; [|done].
      destruct IH as (sub & H1 & H2 & H3 & H4). exists sub. split; [by constructor|done]. }
  destruct (rewriting (rule_action rule)) as [[target t]|] eqn:Hrw.
  2:{ destruct (rule_action rule) eqn:Ha; try discriminate Hrw; simpl;
        (exists [rule]; split; [constructor; apply sublist_nil_l|]; split; [done|]; simpl; rewrite Ha;
         split; [done|]); [by intros r' [= <-]|done]. }
  assert (Hgoal : match (match transform_target record target t s with
      | (s, Err e) => (s, Err e)
      | (s, Ok (record, changed)) => apply_rules rs receiver record (steps - n)
          (if (changed : bool) then applied ++ [rule_id rule] else applied) s end).2 with
    | Ok (o, ids) => exists sub, sublist sub (rule :: rs) /\ ids = applied ++ map rule_id sub
        /\ decided sub (rejects o) /\ (forall r', o = Some r' -> P record r')
    | Err e => e = EvidenceBoundExceeded end).
  { specialize (Ht target t eq_refl record s). destruct (transform_target record target t s) as [s1 [[record' changed]|e]]; [|done].
    simpl in Ht. specialize (IH record' (steps - n) (if changed then applied ++ [rule_id rule] else applied) s1 ltac:(lia)).
    destruct (apply_rules rs receiver record' (steps - n) _ s1).2 as [[o ids]|]; [|done].
    destruct IH as (sub & H1 & -> & H3 & H4).
    assert (Hp : forall r', o = Some r' -> P record r') by (intros r' Hr'; transitivity record'; auto).
    destruct changed.
    - exists (rule :: sub). split; [by constructor|]. split; [by rewrite <- app_assoc|]. split; [|done].
      simpl. by destruct (rule_action rule).
    - exists sub. split; [by constructor|done]. }
  destruct (rule_action rule); try discriminate Hrw; exact Hgoal.
Qed.
End loop.

(** ** What counts as a change *)

(** The answer of a rewriting tells whether the value it returns is another one. *)
Definition Tells {A} (a : A) (p : A * bool) : Prop := if p.2 then p.1 <> a else p.1 = a.

Lemma tells_same {A} (a : A) : Tells a (a, false).
Proof. done. Qed.

Lemma tells_through {A B} (f : A -> B) a p : Inj (=) (=) f -> Tells a p -> Tells (f a) (f p.1, p.2).
Proof. intros Hf. unfold Tells. cbn. destruct p.2; [|by intros ->]. intros Hne He. by apply Hne, Hf. Qed.

Lemma tells_cons {A} (a : A) l p q : Tells a p -> Tells l q -> Tells (a :: l) (p.1 :: q.1, p.2 || q.2).
Proof. unfold Tells. cbn. destruct p.2, q.2; cbn; congruence. Qed.

Section changes.
Context {S : Type} {Alloc : Allocator S} {C : Type} {R : PolicyRecord C}.

Lemma tells_bind {A B} (m : Eval (S := S) (A * bool)) (f : A -> B) a : Inj (=) (=) f -> yields m (Tells a) ->
  yields ('(a', changed) ← m; mret (f a', changed)) (Tells (f a)).
Proof.
  intros Hf Hm. eapply yields_bind; [exact Hm|]. intros [a' ch] Ha. apply yields_ret.
  exact (tells_through f a (a', ch) Hf Ha).
Qed.

Lemma leaf_tells t v : yields (S := S) (transform_leaf v t) (Tells v).
Proof.
  assert (Hsame : yields (S := S) (mret (v, false)) (Tells v)) by (by apply yields_ret).
  destruct t as [| |limit|limit]; simpl.
  1-2: case_bool_decide as Hk; [done|]; apply yields_ret; intros He; apply Hk; by rewrite <- He.
  - destruct v; try exact Hsame; simpl; (case_match; [|exact Hsame]);
      (eapply yields_bind; [apply yields_reserve|]; intros cap _; by apply yields_ret).
  - destruct v; try exact Hsame; simpl; (case_match; [|exact Hsame]);
      (eapply yields_bind; [apply yields_reserve|]; intros cap _; by apply yields_ret).
Qed.

Lemma entries_tell key f es : (forall v, yields (S := S) (f v) (Tells v)) -> yields (transform_entries key f es) (Tells es).
Proof.
  intros Hf. induction es as [|[k v] es IH]; simpl; [by apply yields_ret|].
  eapply (yields_bind _ _ (Tells v)); [case_match; [apply Hf|by apply yields_ret]|]. intros [v' c] Hv.
  eapply yields_bind; [exact IH|]. intros [es' c'] Hes. apply yields_ret.
  apply (tells_cons (k, v) es (k, v', c) (es', c')); [|done]. apply (tells_through (pair k) v (v', c)); [|done]. by intros ? ? [= ->].
Qed.

Lemma array_tells (vs : list CandidateAttributeValue) i v p : vs !! i = Some v -> Tells v p ->
  Tells (CArray vs) (CArray (<[i := p.1]> vs), p.2).
Proof.
  intros Hi. unfold Tells. cbn. destruct p.2.
  - intros Hne [= He]. apply Hne. apply (f_equal (lookup i)) in He. rewrite Hi, list_lookup_insert_eq in He; [by injection He|].
    by eapply lookup_lt_Some.
  - intros ->. by rewrite list_insert_id.
Qed.

Lemma value_tells segments t : forall v, yields (S := S) (transform_value segments t v) (Tells v).
Proof.
  induction segments as [|first rest IH]; intros v; [apply leaf_tells|].
  assert (Hsame : forall w : CandidateAttributeValue, yields (S := S) (mret (w, false)) (Tells w)) by (intros w; by apply yields_ret).
  induction v as [|b|z|z|p|p|vs _|es _|m|v a IHv] using candidate_ind'; cbn [transform_value]; try (destruct first; apply Hsame).
  - destruct first as [key|i]; [apply Hsame|]. destruct (vs !! Z.to_nat i) as [v|] eqn:Hi; [|apply Hsame].
    eapply yields_bind; [apply IH|]. intros [v' c] Hv. apply yields_ret. exact (array_tells vs _ v (v', c) Hi Hv).
  - destruct first as [key|i]; [|apply Hsame]. apply tells_bind; [by intros ? ? [= ->]|]. by apply entries_tell.
  - cbn [transform_value] in IHv. destruct first as [key|i];
      (apply (tells_bind _ (fun inner => CTruncated inner a)); [by intros ? ? [= ->]|exact IHv]).
Qed.

Lemma occurrences_tell path t vs : forall index, yields (S := S) (transform_occurrences path t index vs) (Tells vs).
Proof.
  induction vs as [|v vs IH]; intros index; simpl; [by apply yields_ret|].
  eapply (yields_bind _ _ (Tells v)); [case_match; [apply value_tells|by apply yields_ret]|]. intros [v' c] Hv.
  eapply yields_bind; [apply IH|]. intros [vs' c'] Hvs. apply yields_ret. exact (tells_cons v vs (v', c) (vs', c') Hv Hvs).
Qed.

Lemma first_tells path t l : yields (S := S) (transform_first path t l) (Tells l).
Proof.
  induction l as [|a l IH]; simpl; [by apply yields_ret|]. case_match.
  - apply (tells_bind _ (fun a' => a' :: l)); [by intros ? ? [= ->]|]. destruct a as [ns key vs].
    apply (tells_bind _ (fun vs => mkAttribute ns key vs)); [by intros ? ? [= ->]|]. apply occurrences_tell.
  - apply (tells_bind _ (cons a)); [by intros ? ? [= ->]|exact IH].
Qed.

(** A rewriting answers that it changed the record exactly when it did. *)
Lemma target_tells target t record : yields (S := S) (transform_target record target t) (Tells record).
Proof.
  destruct target as [|path]; simpl.
  - destruct (body record) as [b|] eqn:Hb; [|by apply yields_ret].
    eapply yields_bind; [apply leaf_tells|]. intros [b' c] Hv. apply yields_ret. unfold Tells in *. cbn in *. destruct c.
    + intros He. apply (f_equal body) in He. rewrite body_set, Hb in He. by injection He.
    + by rewrite Hv, <- Hb, set_body_same.
  - eapply yields_bind; [apply first_tells|]. intros [l c] Hl. apply yields_ret. unfold Tells in *. cbn in *. destruct c.
    + intros He. apply (f_equal attributes) in He. by rewrite attributes_set in He.
    + by rewrite Hl, set_attributes_same.
Qed.

(** *** The history of an evaluation *)

(** What happens to a record under a list of rules: the rules that took effect in order, the record
    that remains unless it was rejected, and the allocator after it. A rule takes effect when all of
    its predicates hold of the record at that point, and its action changes the record or decides
    on it; nothing happens after a decision. *)
Inductive history (receiver : PolicyReceiver) : list PolicyRule -> C -> S -> list PolicyRule -> option C -> S -> Prop :=
| hist_end record s : history receiver [] record s [] (Some record) s
| hist_unmatched rule rs record s sub o s' : rule_matches rule record receiver = false ->
    history receiver rs record s sub o s' -> history receiver (rule :: rs) record s sub o s'
| hist_accept rule rs record s : rule_matches rule record receiver = true -> rule_action rule = Accept ->
    history receiver (rule :: rs) record s [rule] (Some record) s
| hist_reject rule rs record s : rule_matches rule record receiver = true -> rule_action rule = Reject ->
    history receiver (rule :: rs) record s [rule] None s
| hist_changed rule rs record s target t record' answer s1 sub o s' : rule_matches rule record receiver = true ->
    rewriting (rule_action rule) = Some (target, t) -> transform_target record target t s = (s1, Ok (record', answer)) ->
    record' <> record -> history receiver rs record' s1 sub o s' -> history receiver (rule :: rs) record s (rule :: sub) o s'
| hist_unchanged rule rs record s target t answer s1 sub o s' : rule_matches rule record receiver = true ->
    rewriting (rule_action rule) = Some (target, t) -> transform_target record target t s = (s1, Ok (record, answer)) ->
    history receiver rs record s1 sub o s' -> history receiver (rule :: rs) record s sub o s'.

Lemma apply_rules_history receiver rs : forall record steps applied s s' o ids,
  apply_rules rs receiver record steps applied s = (s', Ok (o, ids)) ->
  exists sub, history receiver rs record s sub o s' /\ ids = applied ++ map rule_id sub.
Proof.
  induction rs as [|rule rs IH]; intros record steps applied s s' o ids H.
  { injection H as <- <- <-. exists []. rewrite app_nil_r. split; [constructor|done]. }
  cbn [apply_rules] in H. destruct (_ ≫= _) as [steps'|]; [|done].
  destruct (rule_matches rule record receiver) eqn:Hmatch; cbn [negb] in H.
  2:{ apply IH in H as (sub & H & ->). exists sub. split; [by apply hist_unmatched|done]. }
  destruct (rewriting (rule_action rule)) as [[target t]|] eqn:Hrw.
  2:{ destruct (rule_action rule) eqn:Ha; try discriminate Hrw; injection H as <- <- <-; exists [rule];
        (split; [|done]); [by apply hist_accept|by apply hist_reject]. }
  assert (Hgoal : match transform_target record target t s with
    | (s, Err e) => (s, Err e)
    | (s, Ok (record, changed)) => apply_rules rs receiver record steps' (if (changed : bool) then applied ++ [rule_id rule] else applied) s
    end = (s', Ok (o, ids))) by (destruct (rule_action rule); done || discriminate Hrw).
  pose proof (target_tells target t record s) as Ht.
  destruct (transform_target record target t s) as [s1 [[record' changed]|]] eqn:Htr; [|done].
  apply IH in Hgoal as (sub & Hsub & ->). cbn in Ht. destruct changed; cbn in Ht.
  - exists (rule :: sub). split; [by eapply hist_changed|by rewrite <- app_assoc].
  - subst record'. exists sub. split; [by eapply hist_unchanged|done].
Qed.

Lemma evaluate_history {Lay : PolicyLayout} p record receiver s s' ev : evaluate_record p record receiver s = (s', Ok ev) ->
  exists sub, history receiver (rules p) record s sub (evaluated_record ev) s'
    /\ map text (applied_rules (evaluated_provenance ev)) = map rule_id sub
    /\ prov_generation (evaluated_provenance ev) = generation p /\ prov_digest (evaluated_provenance ev) = digest p.
Proof.
  unfold evaluate_record. destruct (has_untrusted_marker record); [done|]. unfold mbind, Eval_bind.
  destruct (apply_rules _ _ _ _ _ s) as [s1 [[o ids]|]] eqn:H; [|done]. intros [= <- <-].
  apply apply_rules_history in H as (sub & Hh & ->). exists sub. cbn. by rewrite !map_map.
Qed.

Lemma history_sublist receiver rs record s sub o s' : history receiver rs record s sub o s' -> sublist sub rs.
Proof. induction 1; try (by constructor); constructor; apply sublist_nil_l. Qed.

Lemma history_decided receiver rs record s sub o s' : history receiver rs record s sub o s' -> decided sub (rejects o).
Proof.
  induction 1 as [| |? ? ? ? _ Ha|? ? ? ? _ Ha|rule ? ? ? ? ? ? ? ? ? ? ? _ Hrw|]; cbn; try done; rewrite ?Ha; try done.
  by destruct (rule_action rule).
Qed.
End changes.

(** ** Markers *)

Definition keeps_markers (v v' : CandidateAttributeValue) : Prop := markers_ok v = true -> markers_ok v' = true.

#[global] Instance keeps_markers_compatible : Compatible keeps_markers.
Proof.
  split.
  - intros v H. exact H.
  - intros vs vs' H. unfold keeps_markers. simpl. induction H as [|v v' vs vs' Hv _ IH]; [done|]. simpl.
    rewrite !andb_true_iff. intros [H1 H2]. split; [by apply Hv|by apply IH].
  - intros es es' H. unfold keeps_markers. simpl. induction H as [|[k v] [k' v'] es es' [_ Hv] _ IH]; [done|]. simpl in *.
    rewrite !andb_true_iff. intros [H1 H2]. split; [by apply Hv|by apply IH].
  - intros v v' a Hh Hv. unfold keeps_markers. simpl. rewrite (Hh a).
    destruct (truncation_shape_ok v a) as [[]|]; [exact Hv|done..].
Qed.

Lemma forallb_take {A} (f : A -> bool) n l : forallb f l = true -> forallb f (take n l) = true.
Proof.
  revert n. induction l as [|a l IH]; intros [|n]; simpl; try done. rewrite !andb_true_iff. intros [? ?]. auto.
Qed.

Section leaf.
Context {S : Type} {Alloc : Allocator S}.

Lemma leaf_keeps_markers t v : yields (S := S) (transform_leaf v t) (fun p => keeps_markers v p.1).
Proof.
  assert (Hsame : yields (S := S) (mret (v, false)) (fun p => keeps_markers v p.1)) by (apply yields_ret; by intros ?).
  assert (Hmark : forall a, (a = Removed \/ a = Redacted) ->
    yields (S := S) (if bool_decide (candidate_kind v = KMarker) then mret (v, false)
      else mret (CMarker (mkRedactionMarker (candidate_kind v) a), true)) (fun p => keeps_markers v p.1)).
  { intros a Ha. case_bool_decide as Hk; [exact Hsame|]. apply yields_ret. intros _. simpl.
    unfold marker_is_valid. simpl. rewrite (bool_decide_false (candidate_kind v = KMarker)) by done.
    destruct Ha as [-> | ->]; done. }
  destruct t as [| |limit|limit]; simpl; [by apply Hmark; left|by apply Hmark; right|..].
  - clear Hmark. destruct v; try exact Hsame; simpl; (case_match; [|exact Hsame]);
      (eapply yields_bind; [apply yields_reserve|]; intros cap _; apply yields_ret; by intros _).
  - clear Hmark. destruct v as [| | | | | |vs|es| |]; try exact Hsame; simpl; (case_match; [|exact Hsame]);
      (eapply yields_bind; [apply yields_reserve|]; intros cap _; apply yields_ret);
      intros Hm; simpl in *; by apply forallb_take.
Qed.
End leaf.

Lemma markers_ok_native c : contains_policy_marker c = false -> markers_ok c = true.
Proof.
  induction c as [|b|z|z|p|p|vs IH|es IH|m|c a IH] using candidate_ind'; simpl; try done.
  - induction IH as [|v vs Hv _ IHl]; [done|]. simpl. rewrite orb_false_iff, andb_true_iff. intros [? ?]. auto.
  - induction IH as [|[k v] es Hv _ IHl]; [done|]. simpl in *. rewrite orb_false_iff, andb_true_iff. intros [? ?]. auto.
Qed.

(** Every marker of a record is well formed. *)
Definition record_markers_ok {C} {R : PolicyRecord C} (r : C) : Prop :=
  match body r with Some b => markers_ok b = true | None => True end
  /\ Forall (fun a => Forall (fun v => markers_ok v = true) (attr_occurrences a)) (attributes r).

Section markers.
Context {C : Type} {R : PolicyRecord C}.

Definition keeps_record_markers (r r' : C) : Prop := record_markers_ok r -> record_markers_ok r'.

#[global] Instance keeps_record_markers_preorder : PreOrder keeps_record_markers.
Proof. split; [intros r H; exact H|]. intros r s t H1 H2 H. auto. Qed.

Lemma related_markers r r' : records_related keeps_markers r r' -> keeps_record_markers r r'.
Proof.
  intros [Hb Ha] [Hbody Hattrs]. split.
  - unfold body_related in Hb. destruct (body r), (body r'); try done. by apply Hb.
  - induction Ha as [|a a' l l' (_ & _ & Hocc) _ IH]; [constructor|]. apply Forall_cons in Hattrs as [Hv Hattrs].
    constructor; [|by apply IH]. clear -Hocc Hv.
    induction Hocc as [|v v' vs vs' H _ IH]; [constructor|]. apply Forall_cons in Hv as [? ?]. constructor; auto.
Qed.

Lemma trusted_record_ok r : has_untrusted_marker r = false -> record_markers_ok r.
Proof.
  unfold has_untrusted_marker, record_markers_ok. intros [Hb Ha]%orb_false_iff. split.
  - destruct (body r); [by apply markers_ok_native|done].
  - induction (attributes r) as [|a l IH]; [constructor|]. simpl in Ha. apply orb_false_iff in Ha as [Hv Ha].
    constructor; [|by apply IH]. clear -Hv. induction (attr_occurrences a) as [|v vs IH]; [constructor|].
    simpl in Hv. apply orb_false_iff in Hv as [? ?]. constructor; [by apply markers_ok_native|auto].
Qed.
End markers.

(** ** The contract of evaluation *)

Section contract.
Context {S : Type} {Alloc : Allocator S} {C : Type} {R : PolicyRecord C} {Lay : PolicyLayout}.
Context (sha256 : bytes -> bytes).

Lemma evaluate_record_spec (P : C -> C -> Prop) {Ppre : PreOrder P} g rs p receiver record s :
  compile sha256 g rs = Ok p ->
  Forall (fun r => forall target t, rewriting (rule_action r) = Some (target, t) ->
    forall record, yields (S := S) (transform_target record target t) (fun q => P record q.1)) rs ->
  match (evaluate_record (S := S) p record receiver s).2 with
  | Ok ev => exists sub, sublist sub rs
      /\ map text (applied_rules (evaluated_provenance ev)) = map rule_id sub
      /\ prov_generation (evaluated_provenance ev) = g
      /\ prov_digest (evaluated_provenance ev) = digest p
      /\ decided sub (rejects (evaluated_record ev))
      /\ has_untrusted_marker record = false
      /\ (forall r', evaluated_record ev = Some r' -> P record r')
  | Err UntrustedMarker => has_untrusted_marker record = true
  | Err EvidenceBoundExceeded => has_untrusted_marker record = false
  | Err StepBudgetExhausted => False
  end.
Proof.
  intros Hc Htr. destruct (compile_inv _ _ _ _ Hc) as [[Hg _] [Hrs _] _ _ (Hcost & Hsteps & _) _].
  unfold evaluate_record. destruct (has_untrusted_marker record) eqn:Hm; [done|].
  pose proof (apply_rules_spec P receiver rs Hcost Htr record (evaluation_steps (budget p)) [] s ltac:(lia)) as H.
  unfold mbind, Eval_bind. rewrite Hrs.
  destruct (apply_rules rs receiver record _ [] s) as [s1 [[o ids]|e]]; simpl in *; [|by subst e].
  destruct H as (sub & H1 & -> & H3 & H4). exists sub. split; [done|].
  split; [rewrite !map_map; done|]. rewrite <- Hg. done.
Qed.
End contract.

Lemma trivial_transforms {S} {Alloc : Allocator S} {C} {R : PolicyRecord C} rs :
  Forall (fun r => forall target t, rewriting (rule_action r) = Some (target, t) ->
    forall record : C, yields (S := S) (transform_target record target t)
      (fun q => keeps_record_markers record q.1)) rs.
Proof.
  apply Forall_true. intros r target t _ record.
  eapply yields_impl; [apply (target_yield keeps_markers), leaf_keeps_markers|].
  intros [r' c] H. by apply related_markers.
Qed.

(** C30 (safety). Evaluation is total within its budget: whatever the record, receiver and allocator do,
    a compiled policy never exhausts its step budget; a record that already carries a policy
    marker is refused and never evaluated; and the only other failure is a refused
    reservation for truncated evidence. *)
Theorem compiled_policy_never_exhausts_budget {S} {Alloc : Allocator S} {C} {R : PolicyRecord C}
    {Lay : PolicyLayout} (sha256 : bytes -> bytes) g rs p (record : C) receiver (s : S) :
  compile sha256 g rs = Ok p ->
  match (evaluate_record p record receiver s).2 with
  | Ok _ | Err EvidenceBoundExceeded => has_untrusted_marker record = false
  | Err UntrustedMarker => has_untrusted_marker record = true
  | Err StepBudgetExhausted => False
  end.
Proof.
  intros Hc. pose proof (evaluate_record_spec sha256 keeps_record_markers g rs p receiver record s Hc (trivial_transforms rs)) as H.
  destruct (evaluate_record p record receiver s).2 as [ev|[]]; try done. by destruct H as (? & ? & ? & ? & ? & ? & ? & _).
Qed.

(** Every marker in an accepted record is one the policy made and is well formed: a
    removal or redaction marker names a native kind, and a truncation marker wraps a sanitized
    native value of a kind its action suits. *)
Theorem accepted_markers_are_well_formed {S} {Alloc : Allocator S} {C} {R : PolicyRecord C}
    {Lay : PolicyLayout} (sha256 : bytes -> bytes) g rs p (record : C) receiver (s s' : S) ev r :
  compile sha256 g rs = Ok p ->
  evaluate_record p record receiver s = (s', Ok ev) -> evaluated_record ev = Some r ->
  record_markers_ok r.
Proof.
  intros Hc He Hr. pose proof (evaluate_record_spec sha256 keeps_record_markers g rs p receiver record s Hc (trivial_transforms rs)) as H.
  rewrite He in H. destruct H as (sub & _ & _ & _ & _ & _ & Hm & Hp). by apply Hp, trusted_record_ok.
Qed.

(** C32 (functional). Provenance tells the truth: the applied identities of an evaluation are exactly
    those of the rules that took effect, in order: each rule whose predicates held when its turn came
    and whose rewriting really made another record of it, and the accepting or rejecting rule that
    ended the evaluation; a rule that did not match, one whose rewriting changed nothing and one after
    the decision are not listed. From the identities alone the policy reconstructs exactly
    the actions of those rules. *)
Theorem provenance_reconstructs_applied_actions {S} {Alloc : Allocator S} {C} {R : PolicyRecord C}
    {Lay : PolicyLayout} (sha256 : bytes -> bytes) g rs p (record : C) receiver (s s' : S) ev :
  compile sha256 g rs = Ok p -> evaluate_record p record receiver s = (s', Ok ev) ->
  let prov := evaluated_provenance ev in
  exists sub, history receiver rs record s sub (evaluated_record ev) s'
    /\ sublist sub rs /\ decided sub (rejects (evaluated_record ev))
    /\ map text (applied_rules prov) = map rule_id sub
    /\ reconstruct_actions (fun _ => true) p (prov_generation prov) (prov_digest prov) (map text (applied_rules prov))
       = Ok (map (fun r => (rule_id r, rule_action r)) sub).
Proof.
  intros Hc He prov. destruct (compile_inv _ _ _ _ Hc) as [[Hgen _] [Hrs _] Hnd _ _ _].
  destruct (evaluate_history p record receiver s s' ev He) as (sub & Hh & Hids & Hg & Hd). rewrite Hrs in Hh. fold prov in Hids, Hg, Hd.
  pose proof (history_sublist _ _ _ _ _ _ _ Hh) as Hs. exists sub. do 2 (split; [done|]).
  split; [by eapply history_decided|]. split; [done|]. unfold reconstruct_actions.
  rewrite Hg, Hd, Hids, Hrs, Z.eqb_refl. unfold bytes_eqb. rewrite bool_decide_true by done. rewrite (proj2 (Z.ltb_ge _ _)).
  2:{ rewrite zlen_map. unfold zlen. apply sublist_length in Hs. lia. }
  cbn [negb orb]. by apply (reconstruct_sublist sub rs Hs []).
Qed.

(** ** A sample record for the witnesses *)

Module SampleRecord.
Definition token : CandidateAttributeValue :=
  CKeyValueList [(mkRString (bytes_of_string "token") 5,
    CArray [CNull; CNull; CNull; CString (mkRString (bytes_of_string "s3cret") 6)])].
Definition service : NativePolicyAttribute :=
  mkAttribute NsResource (bytes_of_string "service.name") [CString (mkRString (bytes_of_string "checkout") 8)].
Definition record : NativeLogCandidate :=
  mkLogCandidate (Some 5) None (Some (CString (mkRString (bytes_of_string "hello") 5)))
    [service; mkAttribute NsRecord (bytes_of_string "session") [token]] LogMetadata_empty.
Definition redacted : NativeLogCandidate :=
  mkLogCandidate (Some 5) None (Some (CString (mkRString (bytes_of_string "hello") 5)))
    [service; mkAttribute NsRecord (bytes_of_string "session")
       [CKeyValueList [(mkRString (bytes_of_string "token") 5,
          CArray [CNull; CNull; CNull; CMarker (mkRedactionMarker KString Redacted)])]]] LogMetadata_empty.
End SampleRecord.

Lemma compiled_policy_never_exhausts_budget_witness :
  has_untrusted_marker SampleRecord.redacted = true.
Proof.
  exact (compiled_policy_never_exhausts_budget (Alloc := ExactAllocator) (Lay := Sample.layout) Sample.fingerprint 3
    Sample.rule_list Sample.policy SampleRecord.redacted OtlpGrpc tt ltac:(vm_compute; reflexivity)).
Defined.

Lemma accepted_markers_are_well_formed_witness : record_markers_ok SampleRecord.redacted.
Proof.
  refine (accepted_markers_are_well_formed (Alloc := ExactAllocator) (Lay := Sample.layout) Sample.fingerprint 3
    Sample.rule_list Sample.policy SampleRecord.record OtlpGrpc tt tt _ SampleRecord.redacted
    ltac:(vm_compute; reflexivity) ltac:(vm_compute; reflexivity) _).
  vm_compute. reflexivity.
Defined.

Lemma provenance_reconstructs_applied_actions_witness :
  exists sub, history (Alloc := ExactAllocator) OtlpGrpc Sample.rule_list SampleRecord.record tt sub (Some SampleRecord.redacted) tt
    /\ map rule_id sub = [bytes_of_string "redact-session"].
Proof.
  destruct (provenance_reconstructs_applied_actions (Alloc := ExactAllocator) (Lay := Sample.layout) Sample.fingerprint 3
    Sample.rule_list Sample.policy SampleRecord.record OtlpGrpc tt tt _
    ltac:(vm_compute; reflexivity) ltac:(vm_compute; reflexivity)) as (sub & Hh & _ & _ & Hids & _).
  exists sub. split; [exact Hh|]. rewrite <- Hids. vm_compute. reflexivity.
Defined.

(** ** Service identity *)

(** The same occurrences are strings, with the same text, before and after. *)
Definition keeps_strings (v v' : CandidateAttributeValue) : Prop := forall s, v = CString s <-> v' = CString s.

Definition is_service_name (a : NativePolicyAttribute) : Prop :=
  attr_namespace a = NsResource /\ attr_key a = bytes_of_string "service.name".

Definition service_related (l l' : list NativePolicyAttribute) : Prop :=
  Forall2 (fun a a' => attr_namespace a' = attr_namespace a /\ attr_key a' = attr_key a
    /\ (is_service_name a -> Forall2 keeps_strings (attr_occurrences a) (attr_occurrences a'))) l l'.

#[global] Instance keeps_strings_preorder : PreOrder keeps_strings.
Proof. split; [by intros v s|]. intros u v w H1 H2 s. rewrite (H1 s). apply H2. Qed.

#[global] Instance service_related_preorder : PreOrder service_related.
Proof.
  split.
  - intros l. apply Forall_Forall2_diag, Forall_true. intros a. do 2 (split; [done|]). by intros _.
  - intros l1 l2 l3 H1. revert l3. induction H1 as [|a b l1 l2 (Hn & Hk & Hs) _ IH]; intros l3 H2.
    { apply Forall2_nil_inv_l in H2 as ->. constructor. }
    apply Forall2_cons_inv_l in H2 as (c & l3' & (Hn' & Hk' & Hs') & H2 & ->). constructor; [|by apply IH].
    split; [congruence|]. split; [congruence|]. intros Hp. transitivity (attr_occurrences b); [by apply Hs|].
    apply Hs'. unfold is_service_name in *. by rewrite Hn, Hk.
Qed.

Section service.
Context {S : Type} {Alloc : Allocator S} {C : Type} {R : PolicyRecord C}.

(** A transformation below the top of an occurrence leaves top-level strings alone. *)
Lemma nested_keeps_strings first rest t v :
  yields (S := S) (transform_value (first :: rest) t v) (fun p => keeps_strings v p.1).
Proof.
  assert (Htrivial : Compatible (fun _ _ => True)) by done.
  assert (Htr : forall seg w, yields (S := S) (transform_value seg t w) (fun _ => True)).
  { intros seg w. eapply yields_impl; [apply (transform_value_yield keeps_markers), leaf_keeps_markers|done]. }
  assert (Hsame : forall w, yields (S := S) (mret (w, false)) (fun p => keeps_strings w p.1)) by (intros w; by apply yields_ret).
  induction v as [|b|z|z|p|p|vs _|es _|m|v a IHv] using candidate_ind'; cbn [transform_value];
    try (destruct first; apply Hsame).
  - destruct first as [key|i]; [apply Hsame|]. destruct (vs !! Z.to_nat i); [|apply Hsame].
    eapply yields_bind; [apply Htr|]. intros [v' ch] _. apply yields_ret. by intros s.
  - destruct first as [key|i]; [|apply Hsame].
    eapply (yields_bind _ _ (fun _ => True)).
    { eapply yields_impl; [apply (entries_yield (fun _ _ => True))|done]. intros w. apply Htr. }
    intros [es' ch] _. apply yields_ret. by intros s.
  - cbn [transform_value] in IHv. destruct first as [key|i].
    1-2: eapply yields_bind; [exact IHv|]; intros [v' ch] _; apply yields_ret; by intros s.
Qed.

Lemma first_keeps_service path t l : is_protected (TAttribute path) = false ->
  yields (S := S) (transform_first path t l) (fun p => service_related l p.1).
Proof.
  intros Hp. induction l as [|a l IH]; simpl; [by apply yields_ret|].
  destruct (addresses path a) eqn:Ha.
  2:{ eapply yields_bind; [exact IH|]. intros [l' ch] Hl. apply yields_ret. constructor; [|exact Hl].
      split; [done|]. split; [done|]. intros _. reflexivity. }
  apply andb_true_iff in Ha as [Hn Hk]. apply bool_decide_eq_true in Hn, Hk.
  eapply (yields_bind _ _ (fun p => attr_namespace p.1 = attr_namespace a /\ attr_key p.1 = attr_key a
    /\ (is_service_name a -> Forall2 keeps_strings (attr_occurrences a) (attr_occurrences p.1)))).
  2:{ intros [a' ch] Ha. apply yields_ret. constructor; [done|]. simpl. reflexivity. }
  assert (Hocc : forall index vs, yields (S := S) (transform_occurrences path t index vs)
    (fun p => is_service_name a -> Forall2 keeps_strings vs p.1)).
  { intros index vs. revert index. induction vs as [|v vs IHv]; intros index; simpl; [apply yields_ret; constructor|].
    eapply (yields_bind _ _ (fun p => is_service_name a -> keeps_strings v p.1)).
    - case_match; [|by apply yields_ret].
      destruct (path_segments path) as [|first rest] eqn:Hsegs.
      + eapply yields_impl; [apply leaf_keeps_markers|]. intros p _ [Hns Hks]. exfalso.
        unfold is_protected in Hp. rewrite Hsegs, <- Hn, <- Hk, Hns, Hks in Hp. by vm_compute in Hp.
      + eapply yields_impl; [apply nested_keeps_strings|]. auto.
    - intros [v' ch] Hv. eapply yields_bind; [apply IHv|]. intros [vs' ch'] Hvs. apply yields_ret.
      intros Hs. constructor; [by apply Hv|by apply Hvs]. }
  eapply yields_bind; [apply Hocc|]. intros [vs ch] Hvs. by apply yields_ret.
Qed.

Definition keeps_service (r r' : C) : Prop := service_related (attributes r) (attributes r').

#[global] Instance keeps_service_preorder : PreOrder keeps_service.
Proof. split; [intros r; unfold keeps_service; reflexivity|]. intros r s t H1 H2. unfold keeps_service in *. by transitivity (attributes s). Qed.

Lemma target_keeps_service target t record : is_protected target = false ->
  yields (S := S) (transform_target record target t) (fun q => keeps_service record q.1).
Proof.
  intros Hp. unfold keeps_service. destruct target as [|path]; simpl.
  - destruct (body record); [|apply yields_ret; reflexivity].
    eapply yields_bind; [apply leaf_keeps_markers|]. intros [b' ch] _. apply yields_ret. simpl.
    rewrite attributes_set_body. reflexivity.
  - eapply yields_bind; [by apply first_keeps_service|]. intros [l ch] Hl. apply yields_ret. simpl.
    by rewrite attributes_set.
Qed.
End service.

(** C9 (safety). No compiled policy can change a service identity: in every accepted record the
    [service.name] resource attribute has, at the same occurrence indices, exactly the string
    values it was received with, no string is added, and no attribute is added, dropped,
    reordered or renamed. *)
Theorem service_identity_is_protected {S} {Alloc : Allocator S} {C} {R : PolicyRecord C}
    {Lay : PolicyLayout} (sha256 : bytes -> bytes) g rs p (record : C) receiver (s s' : S) ev r :
  compile sha256 g rs = Ok p ->
  evaluate_record p record receiver s = (s', Ok ev) -> evaluated_record ev = Some r ->
  service_related (attributes record) (attributes r).
Proof.
  intros Hc He Hr. pose proof (cf_unprotected _ _ _ _ (compile_inv _ _ _ _ Hc)) as Hprot.
  assert (Htr : Forall (fun r => forall target t, rewriting (rule_action r) = Some (target, t) ->
    forall record : C, yields (S := S) (transform_target record target t) (fun q => keeps_service record q.1)) rs).
  { eapply Forall_impl; [exact Hprot|]. intros rule Hrule target t Hrw rec. apply target_keeps_service.
    cbn beta in Hrule. unfold rewriting in Hrw. destruct (rule_action rule); simpl in Hrw; [done|done|..]; injection Hrw as <- _; exact Hrule. }
  pose proof (evaluate_record_spec sha256 keeps_service g rs p receiver record s Hc Htr) as H.
  rewrite He in H. destruct H as (sub & _ & _ & _ & _ & _ & _ & Hp). by apply Hp.
Qed.

Lemma service_identity_is_protected_witness :
  service_related (log_attributes SampleRecord.record) (log_attributes SampleRecord.redacted).
Proof.
  refine (service_identity_is_protected (R := log_record) (Alloc := ExactAllocator) (Lay := Sample.layout) Sample.fingerprint 3
    Sample.rule_list Sample.policy SampleRecord.record OtlpGrpc tt tt _ SampleRecord.redacted
    ltac:(vm_compute; reflexivity) ltac:(vm_compute; reflexivity) _).
  vm_compute. reflexivity.
Defined.

(** ** Truncation of text *)

(** The first character of valid text, with what validity of its prefixes and extensions is. *)
Record first_character (c r : bytes) : Prop := {
  fc_nonempty : (0 < length c <= 4)%nat;
  fc_rest : utf8_valid r = true;
  fc_extend r' : utf8_valid (c ++ r') = utf8_valid r';
  fc_inside n : (0 < n < length c)%nat ->
    utf8_valid (take n c) = false /\ exists b, c !! n = Some b /\ continuation b = true;
}.

Lemma continuation_widen lo hi c :
  128 <= lo -> hi <= 191 -> (lo <=? c) && (c <=? hi) = true -> continuation c = true.
Proof. unfold continuation. intros. lia. Qed.

Lemma utf8_lead b s : utf8_valid (b :: s) = true -> continuation b = false.
Proof.
  unfold continuation. intros H. cbn [utf8_valid] in H. destruct (b <=? 127) eqn:H1; [lia|].
  destruct s as [|c1 s2]; [done|]. destruct ((194 <=? b) && (b <=? 223)) eqn:H2; [lia|].
  destruct s2 as [|c2 s3]; [done|]. destruct ((224 <=? b) && (b <=? 239)) eqn:H3; [lia|].
  destruct s3 as [|c3 s4]; [done|]. lia.
Qed.

Lemma utf8_first_character s : utf8_valid s = true -> s <> [] ->
  exists c r, s = c ++ r /\ first_character c r.
Proof.
  intros H Hs. destruct s as [|b s1]; [done|]. cbn [utf8_valid] in H. destruct (b <=? 127) eqn:H1.
  { exists [b], s1. split; [done|]. split; [simpl; lia|done| |simpl; lia].
    intros r'. cbn [app utf8_valid]. by rewrite H1. }
  destruct s1 as [|c1 s2]; [done|]. destruct ((194 <=? b) && (b <=? 223)) eqn:H2.
  { apply andb_true_iff in H as [Hc1 H]. exists [b; c1], s2. split; [done|]. split; [simpl; lia|done| |].
    - intros r'. cbn [app utf8_valid]. by rewrite H1, H2, Hc1.
    - intros [|[|n]]; simpl; try lia. intros _. rewrite H1. split; [done|]. by exists c1. }
  destruct s2 as [|c2 s3]; [done|]. destruct ((224 <=? b) && (b <=? 239)) eqn:H3.
  { apply andb_true_iff in H as [[Hc1 Hc2]%andb_true_iff H]. exists [b; c1; c2], s3. split; [done|].
    split; [simpl; lia|done| |].
    - intros r'. cbn [app utf8_valid]. by rewrite H1, H2, H3, Hc1, Hc2.
    - intros [|[|[|n]]]; simpl; try lia; intros _; rewrite ?H1, ?H2; (split; [done|]).
      + exists c1. split; [done|]. destruct (b =? 224); [|destruct (b =? 237)]; [eapply continuation_widen, Hc1; lia..|done].
      + by exists c2. }
  destruct s3 as [|c3 s4]; [done|].
  apply andb_true_iff in H as [[[[Hb Hc1]%andb_true_iff Hc2]%andb_true_iff Hc3]%andb_true_iff H].
  exists [b; c1; c2; c3], s4. split; [done|]. split; [simpl; lia|done| |].
  - intros r'. cbn [app utf8_valid]. by rewrite H1, H2, H3, Hb, Hc1, Hc2, Hc3.
  - intros [|[|[|[|n]]]]; simpl; try lia; intros _; rewrite ?H1, ?H2, ?H3; (split; [done|]).
    + exists c1. split; [done|]. destruct (b =? 240); [|destruct (b =? 244)]; [eapply continuation_widen, Hc1; lia..|done].
    + by exists c2.
    + by exists c3.
Qed.

Lemma boundary_in_first c r n : first_character c r -> (n < length c)%nat ->
  is_char_boundary (c ++ r) n = (n =? 0)%nat.
Proof.
  intros Hc Hn. unfold is_char_boundary. destruct n as [|n]; [done|]. simpl orb.
  destruct (fc_inside _ _ Hc (Datatypes.S n)) as (_ & b & Hb & Hk); [lia|].
  by rewrite lookup_app_l, Hb, Hk by lia.
Qed.

Lemma boundary_after_first c r n : first_character c r -> (length c <= n)%nat ->
  is_char_boundary (c ++ r) n = is_char_boundary r (n - length c).
Proof.
  intros Hc Hn. pose proof (fc_nonempty _ _ Hc). unfold is_char_boundary.
  rewrite lookup_app_r, length_app by lia. destruct (r !! (n - length c)%nat) as [b|] eqn:Hb.
  - destruct (n - length c)%nat eqn:Hd; [|destruct n; [lia|done]]. destruct r as [|b' r]; [done|]. simplify_eq/=.
    rewrite (utf8_lead _ _ (fc_rest _ _ Hc)). by destruct n.
  - apply lookup_ge_None in Hb. assert (Hn0 : (n =? 0)%nat = false) by (apply Nat.eqb_neq; lia). rewrite Hn0.
    destruct (Nat.eqb_spec (n - length c) 0); destruct (Nat.eqb_spec n (length c + length r));
      destruct (Nat.eqb_spec (n - length c) (length r)); simpl; (done || lia).
Qed.

(** In valid text the character boundaries are exactly the lengths of the valid prefixes, and
    none is more than three bytes from the next. *)
Lemma utf8_prefix_boundary s n : utf8_valid s = true -> (n <= length s)%nat ->
  utf8_valid (take n s) = is_char_boundary s n
  /\ exists k, (k <= n <= k + 3)%nat /\ is_char_boundary s k = true.
Proof.
  remember (length s) as len eqn:Hlen. revert s n Hlen. induction (lt_wf len) as [len _ IH].
  intros s n -> Hs Hn. destruct s as [|b s'] eqn:Hnil.
  { simpl in Hn. replace n with 0%nat by lia. split; [done|]. exists 0%nat. split; [lia|done]. }
  rewrite <- Hnil in *. destruct (utf8_first_character s Hs) as (c & r & -> & Hc); [by rewrite Hnil|].
  clear Hnil. pose proof (fc_nonempty _ _ Hc) as Hl. rewrite length_app in Hn.
  destruct (decide (n < length c)%nat) as [Hin|Hout].
  - rewrite boundary_in_first, take_app_le by (done || lia). split; [|exists 0%nat; split; [lia|done]].
    destruct n as [|n]; [done|]. by apply (fc_inside _ _ Hc); lia.
  - rewrite boundary_after_first, take_app_ge, (fc_extend _ _ Hc) by (done || lia).
    destruct (IH (length r) ltac:(rewrite length_app; lia) r (n - length c)%nat eq_refl (fc_rest _ _ Hc) ltac:(lia))
      as (-> & k & Hk & Hb). split; [done|]. exists (length c + k)%nat. split; [lia|].
    rewrite boundary_after_first by (done || lia). by replace (length c + k - length c)%nat with k by lia.
Qed.

Lemma boundary_before_spec t n :
  let k := boundary_before t n in
  (k <= n)%nat /\ is_char_boundary t k = true /\ forall m, (k < m <= n)%nat -> is_char_boundary t m = false.
Proof.
  induction n as [|n (Hle & Hb & Hmax)]; cbn [boundary_before].
  { change (is_char_boundary t 0) with true. split; [lia|]. split; [done|]. lia. }
  destruct (is_char_boundary t (Datatypes.S n)) eqn:Hn; [split; [lia|]; split; [done|lia]|].
  split; [lia|]. split; [done|]. intros m Hm. destruct (decide (m = Datatypes.S n)) as [->|]; [done|]. apply Hmax. lia.
Qed.

(** Also (functional). Truncating text that is valid UTF-8 and longer than the limit keeps its
    longest valid prefix of at most [limit] bytes: the result is marked as truncated by bytes,
    is still valid UTF-8, is at most three bytes shorter than the limit, and no longer prefix
    within the limit is valid. The only failure is a refused reservation. *)
Theorem truncated_text_is_longest_valid_prefix {S} {Alloc : Allocator S} (t : RString) (limit : Z) :
  utf8_valid (text t) = true -> 0 <= limit < rs_len t ->
  yields (S := S) (truncate_bytes (CString t) limit) (fun p => exists kept cap,
    p = (CTruncated (CString (mkRString kept cap)) TruncatedBytes, true)
    /\ kept `prefix_of` text t /\ utf8_valid kept = true /\ limit - 3 <= zlen kept <= limit
    /\ forall n, zlen kept < n <= limit -> utf8_valid (take (Z.to_nat n) (text t)) = false).
Proof.
  intros Hv Hl. cbn [truncate_bytes]. unfold rs_len, zlen in *. destruct (Z.ltb_spec limit (Z.of_nat (length (text t)))); [|lia].
  destruct (boundary_before_spec (text t) (Z.to_nat limit)) as (Hle & Hb & Hmax).
  set (k := boundary_before (text t) (Z.to_nat limit)) in *.
  destruct (utf8_prefix_boundary (text t) (Z.to_nat limit) Hv ltac:(lia)) as (_ & j & Hj & Hbj).
  assert (Hjk : (j <= k)%nat). { destruct (decide (j <= k)%nat); [done|]. by rewrite Hmax in Hbj by lia. }
  eapply (yields_bind _ _ (fun _ => True)).
  { intros s. unfold reserve_evidence. by destruct (try_reserve_exact _ s) as [? [?|]]. }
  intros cap _. apply yields_ret. exists (take k (text t)), cap. split; [done|].
  split; [apply prefix_take|]. split; [|rewrite length_take; split; [lia|]].
  - by rewrite (proj1 (utf8_prefix_boundary _ k Hv ltac:(lia))).
  - intros n Hn. rewrite (proj1 (utf8_prefix_boundary _ (Z.to_nat n) Hv ltac:(lia))). apply Hmax. lia.
Qed.

(** The euro sign takes three bytes, so four bytes of two of them keep one. *)
Lemma truncated_text_is_longest_valid_prefix_witness :
  exists cap, (truncate_bytes (Alloc := ExactAllocator) (CString (mkRString [226; 130; 172; 226; 130; 172] 6)) 5 tt).2
    = Ok (CTruncated (CString (mkRString [226; 130; 172] cap)) TruncatedBytes, true).
Proof.
  pose proof (truncated_text_is_longest_valid_prefix (Alloc := ExactAllocator)
    (mkRString [226; 130; 172; 226; 130; 172] 6) 5 eq_refl ltac:(vm_compute; split; congruence) tt) as H.
  vm_compute in H. destruct H as (kept & cap & H & _). injection H as <- <-. exists 3. vm_compute. reflexivity.
Defined.
