(* ===== verification/GovernorModel.v ===== *)
(** Resource governor: resource vectors, work kinds, claims and refusals.

    Models the value types of [positron-kernel/src/resource_governor]: [model.rs], [claim.rs],
    [failure.rs], [decision.rs] and the tenant and principal quotas. A [u64] vector of eleven
    dimensions is a record with a field per dimension, read and written through the same
    per-dimension accessors as the code. *)

From stdpp Require Import sets.
From S2P Require Import Prelude Outcome Identity.

(** ** Resource vectors *)

(** [positron-kernel/src/resource_governor/model.rs:9-23 ResourceDimension] *)
Inductive ResourceDimension :=
| MemoryBytes | QueueSlots | TaskSlots | BufferCacheBytes | BatchItems | LeaseSlots | RetrySlots
| IoPermits | CpuWorkUnits | FileDescriptors | DiskHeadroomBytes.

#[global] Instance ResourceDimension_eq_dec : EqDecision ResourceDimension.
Proof. solve_decision. Defined.

(** [positron-kernel/src/resource_governor/model.rs:27-39 ResourceDimension::ALL] *)
Definition ALL_DIMENSIONS : list ResourceDimension :=
  [MemoryBytes; QueueSlots; TaskSlots; BufferCacheBytes; BatchItems; LeaseSlots; RetrySlots;
   IoPermits; CpuWorkUnits; FileDescriptors; DiskHeadroomBytes].

(** [positron-kernel/src/resource_governor/model.rs:43-44 ResourceAmounts] *)
Record ResourceAmounts := mkAmounts {
  a_memory : Z; a_queue : Z; a_task : Z; a_cache : Z; a_batch : Z; a_lease : Z; a_retry : Z;
  a_io : Z; a_cpu : Z; a_files : Z; a_disk : Z }.

#[global] Instance ResourceAmounts_eq_dec : EqDecision ResourceAmounts.
Proof. solve_decision. Defined.

(** [positron-kernel/src/resource_governor/model.rs:64-79 ResourceAmounts::get] *)
Definition get (a : ResourceAmounts) (d : ResourceDimension) : Z :=
  match d with
  | MemoryBytes => a_memory a | QueueSlots => a_queue a | TaskSlots => a_task a
  | BufferCacheBytes => a_cache a | BatchItems => a_batch a | LeaseSlots => a_lease a
  | RetrySlots => a_retry a | IoPermits => a_io a | CpuWorkUnits => a_cpu a
  | FileDescriptors => a_files a | DiskHeadroomBytes => a_disk a
  end.

(** [positron-kernel/src/resource_governor/model.rs:153-171 set_amount] *)
Definition set_amount (a : ResourceAmounts) (d : ResourceDimension) (v : Z) : ResourceAmounts :=
  let '(mkAmounts m q t c b l r i u f k) := a in
  match d with
  | MemoryBytes => mkAmounts v q t c b l r i u f k
  | QueueSlots => mkAmounts m v t c b l r i u f k
  | TaskSlots => mkAmounts m q v c b l r i u f k
  | BufferCacheBytes => mkAmounts m q t v b l r i u f k
  | BatchItems => mkAmounts m q t c v l r i u f k
  | LeaseSlots => mkAmounts m q t c b v r i u f k
  | RetrySlots => mkAmounts m q t c b l v i u f k
  | IoPermits => mkAmounts m q t c b l r v u f k
  | CpuWorkUnits => mkAmounts m q t c b l r i v f k
  | FileDescriptors => mkAmounts m q t c b l r i u v k
  | DiskHeadroomBytes => mkAmounts m q t c b l r i u f v
  end.

(** Every dimension with the same amount, [ResourceAmounts::new([v; 11])]. *)
Definition uniform (v : Z) : ResourceAmounts := mkAmounts v v v v v v v v v v v.

(** [positron-kernel/src/resource_governor/model.rs:81-83 ResourceAmounts::zero] *)
Definition amounts_zero : ResourceAmounts := uniform 0.

(** [positron-kernel/src/resource_governor/model.rs:122-126 ResourceAmounts::with_amount] *)
Definition with_amount (a : ResourceAmounts) (d : ResourceDimension) (v : Z) : ResourceAmounts :=
  set_amount a d v.

(** [positron-kernel/src/resource_governor/model.rs:85-87 ResourceAmounts::all_positive] *)
Definition all_positive (a : ResourceAmounts) : bool := forallb (fun d => 0 <? get a d) ALL_DIMENSIONS.

(** [positron-kernel/src/resource_governor/model.rs:89-91 ResourceAmounts::is_empty] *)
Definition amounts_is_empty (a : ResourceAmounts) : bool := forallb (fun d => get a d =? 0) ALL_DIMENSIONS.

(** [positron-kernel/src/resource_governor/model.rs:93-97 ResourceAmounts::is_at_most] *)
Definition is_at_most (a b : ResourceAmounts) : bool :=
  forallb (fun d => get a d <=? get b d) ALL_DIMENSIONS.

(** [positron-kernel/src/resource_governor/model.rs:128-138 ResourceAmounts::zip_map] *)
Definition zip_map (operation : Z -> Z -> Z) (a b : ResourceAmounts) : ResourceAmounts :=
  fold_left (fun values d => set_amount values d (operation (get a d) (get b d)))
    ALL_DIMENSIONS amounts_zero.

(** [positron-kernel/src/resource_governor/model.rs:140-150 ResourceAmounts::try_zip_map] *)
Definition try_zip_map (operation : Z -> Z -> option Z) (a b : ResourceAmounts) : option ResourceAmounts :=
  try_fold_opt (fun values d => v ← operation (get a d) (get b d); Some (set_amount values d v))
    amounts_zero ALL_DIMENSIONS.

(** [positron-kernel/src/resource_governor/model.rs:99-101 ResourceAmounts::minimum] *)
Definition minimum : ResourceAmounts -> ResourceAmounts -> ResourceAmounts := zip_map Z.min.

(** [positron-kernel/src/resource_governor/model.rs:103-105 ResourceAmounts::maximum] *)
Definition maximum : ResourceAmounts -> ResourceAmounts -> ResourceAmounts := zip_map Z.max.

(** [positron-kernel/src/resource_governor/model.rs:107-109 ResourceAmounts::checked_add] *)
Definition amounts_add : ResourceAmounts -> ResourceAmounts -> option ResourceAmounts :=
  try_zip_map (checked_add u64_max).

(** [positron-kernel/src/resource_governor/model.rs:111-113 ResourceAmounts::checked_sub] *)
Definition amounts_sub : ResourceAmounts -> ResourceAmounts -> option ResourceAmounts :=
  try_zip_map checked_sub.

(** [positron-kernel/src/resource_governor/model.rs:115-120 ResourceAmounts::excess_over] *)
Definition excess_over : ResourceAmounts -> ResourceAmounts -> ResourceAmounts := zip_map saturating_sub.

(** ** Work kinds *)

(** [positron-kernel/src/resource_governor/claim.rs:12-19 WorkClass] *)
Inductive WorkClass :=
| DurabilityRecovery | SecurityLifecycleClass | IngestClass | InteractiveQueryTailClass
| OrdinaryMaintenanceBackupClass.

(** [positron-kernel/src/resource_governor/claim.rs:22-28 WorkKind] *)
Inductive WorkKind := SecurityLifecycle | Ingest | InteractiveQueryTail | OrdinaryMaintenanceBackup.

(** [positron-kernel/src/resource_governor/claim.rs:151-160 RecoveryWorkKind] *)
Inductive RecoveryWorkKind :=
| DurabilityCompletion | Retention | EmergencyCompaction | Purge | Repair | Fencing | SafeShutdown.

#[global] Instance WorkClass_eq_dec : EqDecision WorkClass.
Proof. solve_decision. Defined.
#[global] Instance WorkKind_eq_dec : EqDecision WorkKind.
Proof. solve_decision. Defined.
#[global] Instance RecoveryWorkKind_eq_dec : EqDecision RecoveryWorkKind.
Proof. solve_decision. Defined.

(** [positron-kernel/src/resource_governor/claim.rs:32-40 WorkKind::class] *)
Definition WorkKind_class (k : WorkKind) : WorkClass :=
  match k with
  | SecurityLifecycle => SecurityLifecycleClass
  | Ingest => IngestClass
  | InteractiveQueryTail => InteractiveQueryTailClass
  | OrdinaryMaintenanceBackup => OrdinaryMaintenanceBackupClass
  end.

(** [positron-kernel/src/resource_governor/claim.rs:170-178 RecoveryWorkKind::ALL] *)
Definition ALL_RECOVERY_KINDS : list RecoveryWorkKind :=
  [DurabilityCompletion; Retention; EmergencyCompaction; Purge; Repair; Fencing; SafeShutdown].

(** [positron-kernel/src/resource_governor/claim.rs:192-195 RecoveryWorkKind::permits_system_scope] *)
Definition permits_system_scope (k : RecoveryWorkKind) : bool :=
  match k with Retention | Purge => false | _ => true end.

(** [positron-kernel/src/resource_governor/claim.rs:198-201 RecoveryWorkKind::permits_tenant_scope] *)
Definition permits_tenant_scope (k : RecoveryWorkKind) : bool :=
  match k with Fencing | SafeShutdown => false | _ => true end.

(** [positron-kernel/src/resource_governor/claim.rs:217-219 RecoveryWorkKind::retains_capacity_on_resize_failure] *)
Definition retains_capacity (k : RecoveryWorkKind) : bool :=
  match k with DurabilityCompletion | SafeShutdown => true | _ => false end.

(** [positron-kernel/src/resource_governor/claim.rs:223-227 RecoveryScope] *)
Inductive RecoveryScope := ScopeSystem | ScopeTenant (tenant : TenantId).

(** ** Failures *)

(** [positron-kernel/src/resource_governor/failure.rs:168-173 DiskPressureState] *)
Inductive DiskPressureState := Healthy | SoftPressure | HardPressure.

#[global] Instance DiskPressureState_eq_dec : EqDecision DiskPressureState.
Proof. solve_decision. Defined.

(** [positron-kernel/src/resource_governor/failure.rs:11-38 GovernorFailure] *)
Inductive GovernorFailure :=
| InvalidConfiguration
| PolicyCardinalityExceeded
| GovernorBootstrapInventoryUnavailable (required : ResourceAmounts)
| InsufficientOutstandingProgress (configured required : Z)
| TenantProgressUnavailable (tenant : TenantId) (class : WorkClass) (dimension : ResourceDimension)
| SystemRecoveryProgressUnavailable (kind : RecoveryWorkKind) (dimension : ResourceDimension)
| InvalidRecoveryScope
| GovernorFailureContended (pressure : DiskPressureState)
| PrimaryVolumeObservationUnavailable
| ObservedVolumeMismatch
| GovernorFailureFenced.

(** [positron-kernel/src/resource_governor/failure.rs:73-89 AdmissionFailureCode] *)
Inductive AdmissionFailureCode :=
| CapacityExhausted | TenantQuotaExceeded | PrincipalQuotaExceeded | UnregisteredTenant
| OutstandingReservationLimit | ProtectedCapacityUnavailable | ClassCapacityUnavailable
| TenantFairShareExceeded | CapacityOccupiedByRecovery | DiskPressureAdmissionRefused
| RecoveryReserveExhausted | ShuttingDownCode | InternalFenced | GovernorContended.

#[global] Instance AdmissionFailureCode_eq_dec : EqDecision AdmissionFailureCode.
Proof. solve_decision. Defined.

(** [positron-kernel/src/resource_governor/failure.rs:94-111 AdmissionFailureCode::index] *)
Definition code_index (c : AdmissionFailureCode) : nat :=
  match c with
  | CapacityExhausted => 0 | TenantQuotaExceeded => 1 | PrincipalQuotaExceeded => 2
  | UnregisteredTenant => 3 | OutstandingReservationLimit => 4 | ProtectedCapacityUnavailable => 5
  | ClassCapacityUnavailable => 6 | TenantFairShareExceeded => 7 | CapacityOccupiedByRecovery => 8
  | DiskPressureAdmissionRefused => 9 | RecoveryReserveExhausted => 10 | ShuttingDownCode => 11
  | InternalFenced => 12 | GovernorContended => 13
  end.

(** [positron-kernel/src/resource_governor/failure.rs:142-148 AdmissionRetry] *)
Inductive AdmissionRetry := AfterCapacityRelease | AfterPressureTransition | AfterExternalCorrection | Never.

(** [positron-kernel/src/resource_governor/failure.rs:151-165 LimitingScope] *)
Inductive LimitingScope :=
| LimitGlobal | LimitTenant | LimitPrincipal | LimitOperation | LimitRecoveryReserve
| LimitProtectedReserve | LimitOutstandingReservations | LimitClassHeadroom | LimitTenantFairShare
| LimitRecoveryOccupancy | LimitPolicy | LimitInternal.

(** [positron-kernel/src/resource_governor/failure.rs:183-195 AdmissionFailure] The completion state
    is constant on every refusal that admission constructs. *)
Record AdmissionFailure := mkAdmissionFailure {
  af_code : AdmissionFailureCode;
  af_retry : AdmissionRetry;
  af_scope : LimitingScope;
  af_class : WorkClass;
  af_pressure : DiskPressureState;
  af_dimension : option ResourceDimension;
  af_allowed : Z;
  af_in_use : Z;
  af_requested : Z;
}.

(** [positron-kernel/src/resource_governor/failure.rs:225-228 AdmissionFailure::at_pressure] *)
Definition at_pressure (f : AdmissionFailure) (p : DiskPressureState) : AdmissionFailure :=
  mkAdmissionFailure (af_code f) (af_retry f) (af_scope f) (af_class f) p (af_dimension f)
    (af_allowed f) (af_in_use f) (af_requested f).

(** [positron-kernel/src/resource_governor/decision.rs:24-29 DecisionLimit] *)
Record DecisionLimit := mkLimit {
  dl_dimension : option ResourceDimension; dl_allowed : Z; dl_in_use : Z; dl_requested : Z }.

(** [positron-kernel/src/resource_governor/decision.rs:40-47 DecisionLimit::none] *)
Definition DecisionLimit_none : DecisionLimit := mkLimit None 0 0 0.

(** [positron-kernel/src/resource_governor/decision.rs:222-241 failure_at_pressure] *)
Definition failure_at_pressure (code : AdmissionFailureCode) (retry : AdmissionRetry)
    (scope : LimitingScope) (class : WorkClass) (pressure : DiskPressureState) (limit : DecisionLimit)
  : AdmissionFailure :=
  mkAdmissionFailure code retry scope class pressure (dl_dimension limit) (dl_allowed limit)
    (dl_in_use limit) (dl_requested limit).

(** [positron-kernel/src/resource_governor/decision.rs:212-220 failure] *)
Definition failure (code : AdmissionFailureCode) (retry : AdmissionRetry) (scope : LimitingScope)
    (class : WorkClass) (limit : DecisionLimit) : AdmissionFailure :=
  failure_at_pressure code retry scope class Healthy limit.

(** [positron-kernel/src/resource_governor/decision.rs:195-203 internal_failure] *)
Definition internal_failure (class : WorkClass) : AdmissionFailure :=
  failure InternalFenced Never LimitInternal class DecisionLimit_none.

(** [positron-kernel/src/resource_governor/decision.rs:205-210 internal_failure_at_pressure] *)
Definition internal_failure_at_pressure (class : WorkClass) (pressure : DiskPressureState) : AdmissionFailure :=
  at_pressure (internal_failure class) pressure.

(** [positron-kernel/src/resource_governor/decision.rs:10-22 contention_failure] *)
Definition contention_failure (class : WorkClass) (pressure : DiskPressureState) : AdmissionFailure :=
  failure_at_pressure GovernorContended AfterCapacityRelease LimitInternal class pressure DecisionLimit_none.

(** [positron-kernel/src/resource_governor/decision.rs:243-258 capacity_failure] *)
Definition capacity_failure (code : AdmissionFailureCode) (scope : LimitingScope) (class : WorkClass)
    (pressure : DiskPressureState) (limit : DecisionLimit) : AdmissionFailure :=
  failure_at_pressure code AfterCapacityRelease scope class pressure limit.

(** [Option::is_none_or] with an upper bound: the candidate overflowed or exceeds the bound. *)
Definition exceeds (candidate : option Z) (bound : Z) : bool :=
  match candidate with None => true | Some v => bound <? v end.

(** A loop over every dimension that may return early with a refusal. *)
Definition for_dimensions {E} (f : ResourceDimension -> result E unit) : result E unit :=
  try_fold (fun _ d => f d) tt ALL_DIMENSIONS.

(** [positron-kernel/src/resource_governor/decision.rs:50-78 refuse_exceeded] *)
Definition refuse_exceeded (code : AdmissionFailureCode) (scope : LimitingScope) (class : WorkClass)
    (in_use requested allowed : ResourceAmounts) (pressure : DiskPressureState)
  : result AdmissionFailure unit :=
  for_dimensions (fun d =>
    if exceeds (checked_add u64_max (get in_use d) (get requested d)) (get allowed d) then
      Err (failure_at_pressure code AfterCapacityRelease scope class pressure
        (mkLimit (Some d) (get allowed d) (get in_use d) (get requested d)))
    else Ok tt).

(** [positron-kernel/src/resource_governor/decision.rs:80-100 refuse_tenant_recovery_shared_fair_share] *)
Definition refuse_tenant_recovery_shared_fair_share (class : WorkClass)
    (ordinary_in_use recovery_shared_in_use requested allowed : ResourceAmounts)
    (pressure : DiskPressureState) : result AdmissionFailure unit :=
  combined_in_use ← ok_or (internal_failure_at_pressure class pressure)
    (amounts_add ordinary_in_use recovery_shared_in_use);
  refuse_exceeded TenantFairShareExceeded LimitTenantFairShare class combined_in_use requested allowed pressure.

(** [positron-kernel/src/resource_governor/decision.rs:102-134 refuse_live_disk_growth] *)
Definition refuse_live_disk_growth (class : WorkClass) (in_use requested : ResourceAmounts)
    (usable_bytes : Z) (pressure : DiskPressureState) : result AdmissionFailure unit :=
  let requested_bytes := get requested DiskHeadroomBytes in
  if requested_bytes =? 0 then Ok tt
  else
    let in_use_bytes := get in_use DiskHeadroomBytes in
    if exceeds (checked_add u64_max in_use_bytes requested_bytes) usable_bytes then
      Err (failure_at_pressure CapacityExhausted AfterPressureTransition LimitGlobal class pressure
        (mkLimit (Some DiskHeadroomBytes) usable_bytes in_use_bytes requested_bytes))
    else Ok tt.

(** [positron-kernel/src/resource_governor/decision.rs:31-37 OrdinaryCapacity] *)
Record OrdinaryCapacity := mkOrdinaryCapacity {
  oc_ordinary_usage : ResourceAmounts;
  oc_recovery_shared_usage : ResourceAmounts;
  oc_ordinary_ceiling : ResourceAmounts;
  oc_total_ceiling : ResourceAmounts;
  oc_pressure : DiskPressureState;
}.

(** [positron-kernel/src/resource_governor/decision.rs:136-193 refuse_ordinary_capacity] *)
Definition refuse_ordinary_capacity (class : WorkClass) (requested : ResourceAmounts)
    (c : OrdinaryCapacity) : result AdmissionFailure unit :=
  for_dimensions (fun d =>
    let ordinary_candidate := checked_add u64_max (get (oc_ordinary_usage c) d) (get requested d) in
    if exceeds ordinary_candidate (get (oc_total_ceiling c) d) then
      Err (capacity_failure CapacityExhausted LimitGlobal class (oc_pressure c)
        (mkLimit (Some d) (get (oc_total_ceiling c) d) (get (oc_ordinary_usage c) d) (get requested d)))
    else
      let shared_recovery := get (oc_recovery_shared_usage c) d in
      match checked_sub (get (oc_ordinary_ceiling c) d) shared_recovery with
      | None => Err (internal_failure_at_pressure class (oc_pressure c))
      | Some ordinary_available =>
          if exceeds ordinary_candidate ordinary_available then
            let recovery_occupied := 0 <? shared_recovery in
            Err (capacity_failure
              (if recovery_occupied then CapacityOccupiedByRecovery else ProtectedCapacityUnavailable)
              (if recovery_occupied then LimitRecoveryOccupancy else LimitProtectedReserve)
              class (oc_pressure c)
              (mkLimit (Some d) ordinary_available (get (oc_ordinary_usage c) d) (get requested d)))
          else Ok tt
      end).

(** ** Claims *)

(** [positron-kernel/src/resource_governor/claim.rs:56-64 OperationToken] The authority is the drop
    ledger that minted the token, named by a number. *)
Record OperationToken := mkToken {
  tok_authority : Z;
  tok_root_slot : nat;
  tok_generation : Z;
  tok_tenant : TenantId;
  tok_principal : PrincipalId;
  tok_kind : WorkKind;
}.

(** [positron-kernel/src/resource_governor/claim.rs:44-51 WorkClaim] *)
Record WorkClaim := mkClaim {
  claim_tenant : TenantId;
  claim_principal : option PrincipalId;
  claim_kind : WorkKind;
  claim_amounts : ResourceAmounts;
  claim_operation : option OperationToken;
}.

(** [positron-kernel/src/resource_governor/claim.rs:86-101 WorkClaim::tenant] *)
Definition WorkClaim_tenant (tenant : TenantId) (kind : WorkKind) (amounts : ResourceAmounts)
  : result GovernorFailure WorkClaim :=
  if amounts_is_empty amounts then Err InvalidConfiguration
  else Ok (mkClaim tenant None kind amounts None).

(** [positron-kernel/src/resource_governor/claim.rs:106-122 WorkClaim::authenticated] *)
Definition WorkClaim_authenticated (tenant : TenantId) (principal : PrincipalId) (kind : WorkKind)
    (amounts : ResourceAmounts) : result GovernorFailure WorkClaim :=
  if amounts_is_empty amounts then Err InvalidConfiguration
  else Ok (mkClaim tenant (Some principal) kind amounts None).

(** [positron-kernel/src/resource_governor/claim.rs:128-143 WorkClaim::authenticated_child] *)
Definition WorkClaim_authenticated_child (operation : OperationToken) (kind : WorkKind)
    (amounts : ResourceAmounts) : result GovernorFailure WorkClaim :=
  if amounts_is_empty amounts || negb (bool_decide (WorkKind_class kind = WorkKind_class (tok_kind operation)))
  then Err InvalidConfiguration
  else Ok (mkClaim (tok_tenant operation) (Some (tok_principal operation)) kind amounts (Some operation)).

(** [positron-kernel/src/resource_governor/claim.rs:230-235 RecoveryWorkClaim] *)
Record RecoveryWorkClaim := mkRecoveryClaim {
  rclaim_scope : RecoveryScope;
  rclaim_kind : RecoveryWorkKind;
  rclaim_amounts : ResourceAmounts;
}.

(** [positron-kernel/src/resource_governor/claim.rs:238-253 RecoveryWorkClaim::system] *)
Definition RecoveryWorkClaim_system (kind : RecoveryWorkKind) (amounts : ResourceAmounts)
  : result GovernorFailure RecoveryWorkClaim :=
  if negb (permits_system_scope kind) then Err InvalidRecoveryScope
  else if amounts_is_empty amounts then Err InvalidConfiguration
  else Ok (mkRecoveryClaim ScopeSystem kind amounts).

(** [positron-kernel/src/resource_governor/claim.rs:255-271 RecoveryWorkClaim::tenant] *)
Definition RecoveryWorkClaim_tenant (tenant : TenantId) (kind : RecoveryWorkKind) (amounts : ResourceAmounts)
  : result GovernorFailure RecoveryWorkClaim :=
  if negb (permits_tenant_scope kind) then Err InvalidRecoveryScope
  else if amounts_is_empty amounts then Err InvalidConfiguration
  else Ok (mkRecoveryClaim (ScopeTenant tenant) kind amounts).

(** [positron-kernel/src/resource_governor/claim.rs:279-290 ReservationIdentity] *)
Inductive ReservationIdentity :=
| IdentityOrdinary (tenant : TenantId) (principal : option PrincipalId) (kind : WorkKind)
| IdentityRecovery (scope : RecoveryScope) (kind : RecoveryWorkKind).

(** [positron-kernel/src/resource_governor/claim.rs:293-298 ReservationIdentity::class] *)
Definition identity_class (i : ReservationIdentity) : WorkClass :=
  match i with IdentityOrdinary _ _ kind => WorkKind_class kind | IdentityRecovery _ _ => DurabilityRecovery end.

(** ** Quotas and thresholds *)

(** [positron-kernel/src/resource_governor/inventory.rs:325-335 require_capacity] *)
Definition require_capacity (a : ResourceAmounts) : result GovernorFailure unit :=
  if all_positive a && forallb (fun d => 0 <? get a d) ALL_DIMENSIONS then Ok tt else Err InvalidConfiguration.

(** [positron-kernel/src/resource_governor/inventory.rs:300-305 TenantQuota] *)
Record TenantQuota := mkQuota { q_tenant : TenantId; q_weight : Z; q_limits : ResourceAmounts }.

(** [positron-kernel/src/resource_governor/inventory.rs:308-322 TenantQuota::new] *)
Definition TenantQuota_new (tenant : TenantId) (weight : Z) (limits : ResourceAmounts)
  : result GovernorFailure TenantQuota :=
  if weight =? 0 then Err InvalidConfiguration
  else _ ← require_capacity limits; Ok (mkQuota tenant weight limits).

(** [positron-kernel/src/resource_governor/policy.rs:117-122 PrincipalQuota] *)
Record PrincipalQuota := mkPrincipalQuota {
  pq_maximum_operations : Z;
  pq_per_operation_limits : ResourceAmounts;
  pq_aggregate_limits : ResourceAmounts;
}.

(** [positron-kernel/src/resource_governor/policy.rs:130-147 PrincipalQuota::new] *)
Definition PrincipalQuota_new (maximum_operations : Z) (per_operation aggregate : ResourceAmounts)
  : result GovernorFailure PrincipalQuota :=
  if (maximum_operations =? 0) || amounts_is_empty per_operation || amounts_is_empty aggregate
     || negb (is_at_most per_operation aggregate)
  then Err InvalidConfiguration
  else Ok (mkPrincipalQuota maximum_operations per_operation aggregate).

(** [positron-kernel/src/resource_governor/inventory.rs:258-264 DiskPressureThresholds] *)
Record DiskPressureThresholds := mkThresholds {
  hard_enter : Z; hard_exit : Z; soft_enter : Z; soft_exit : Z }.

(** [positron-kernel/src/resource_governor/inventory.rs:267-282 DiskPressureThresholds::new] *)
Definition DiskPressureThresholds_new (he hx se sx : Z) : result GovernorFailure DiskPressureThresholds :=
  if (hx <=? he) || (se <? hx) || (sx <=? se) then Err InvalidConfiguration
  else Ok (mkThresholds he hx se sx).

(** [positron-kernel/src/resource_governor/pressure.rs:9-17 DiskPressureThresholds::initial] *)
Definition pressure_initial (t : DiskPressureThresholds) (usable_bytes : Z) : DiskPressureState :=
  if usable_bytes <=? hard_enter t then HardPressure
  else if usable_bytes <=? soft_enter t then SoftPressure
  else Healthy.

(** [positron-kernel/src/resource_governor/pressure.rs:19-45 DiskPressureThresholds::transition] *)
Definition pressure_transition (t : DiskPressureThresholds) (current : DiskPressureState)
    (usable_bytes : Z) : DiskPressureState :=
  match current with
  | Healthy => pressure_initial t usable_bytes
  | SoftPressure =>
      if usable_bytes <=? hard_enter t then HardPressure
      else if soft_exit t <=? usable_bytes then Healthy
      else SoftPressure
  | HardPressure =>
      if soft_exit t <=? usable_bytes then Healthy
      else if hard_exit t <=? usable_bytes then SoftPressure
      else HardPressure
  end.

(** ** Lemmas on resource vectors *)

Definition amounts_ok (a : ResourceAmounts) : Prop := forall d, 0 <= get a d <= u64_max.

(** Componentwise order. *)
Definition amounts_le (a b : ResourceAmounts) : Prop := forall d, get a d <= get b d.
Infix "⊑r" := amounts_le (at level 70) : positron_scope.

Lemma amounts_ext a b : (forall d, get a d = get b d) -> a = b.
Proof.
  intros H. destruct a, b.
  pose proof (H MemoryBytes); pose proof (H QueueSlots); pose proof (H TaskSlots);
  pose proof (H BufferCacheBytes); pose proof (H BatchItems); pose proof (H LeaseSlots);
  pose proof (H RetrySlots); pose proof (H IoPermits); pose proof (H CpuWorkUnits);
  pose proof (H FileDescriptors); pose proof (H DiskHeadroomBytes). simpl in *. by subst.
Qed.

Lemma get_uniform v d : get (uniform v) d = v.
Proof. by destruct d. Qed.

Lemma get_zero d : get amounts_zero d = 0.
Proof. apply get_uniform. Qed.

Lemma get_set_amount a d v d' : get (set_amount a d v) d' = if decide (d = d') then v else get a d'.
Proof. by destruct a, d, d'. Qed.

Lemma get_zip_map op a b d : get (zip_map op a b) d = op (get a d) (get b d).
Proof. by destruct d. Qed.

Lemma all_dimensions d : d ∈ ALL_DIMENSIONS.
Proof. destruct d; unfold ALL_DIMENSIONS; set_solver. Qed.

Lemma nodup_dimensions : NoDup ALL_DIMENSIONS.
Proof. by apply (bool_decide_unpack _). Qed.

Lemma forallb_dimensions f : forallb f ALL_DIMENSIONS = true <-> forall d, f d = true.
Proof.
  rewrite forallb_forall. split; intros H d; [|by intros _]. apply H, list_elem_of_In, all_dimensions.
Qed.

Lemma is_at_most_spec a b : is_at_most a b = true <-> a ⊑r b.
Proof. unfold is_at_most. rewrite forallb_dimensions. unfold amounts_le. by setoid_rewrite Z.leb_le. Qed.

Lemma all_positive_spec a : all_positive a = true <-> forall d, 0 < get a d.
Proof. unfold all_positive. rewrite forallb_dimensions. by setoid_rewrite Z.ltb_lt. Qed.

(** A loop that fills a vector dimension by dimension, each from a fallible computation, returns
    exactly the vector of the computed amounts. *)
Lemma fill_dimensions (f : ResourceDimension -> option Z) r :
  try_fold_opt (fun values d => v ← f d; Some (set_amount values d v)) amounts_zero ALL_DIMENSIONS = Some r
  <-> forall d, f d = Some (get r d).
Proof.
  assert (Hgen : forall l acc, NoDup l ->
    (forall r, try_fold_opt (fun values d => v ← f d; Some (set_amount values d v)) acc l = Some r ->
      forall d, if decide (d ∈ l) then f d = Some (get r d) else get r d = get acc d)
    /\ ((forall d, d ∈ l -> is_Some (f d)) ->
      is_Some (try_fold_opt (fun values d => v ← f d; Some (set_amount values d v)) acc l))).
  { induction l as [|x l IH]; intros acc Hnd; simpl.
    { split; [intros ? [= ->] d; destruct (decide (d ∈ [])) as [?%elem_of_nil|]; done|eauto]. }
    apply NoDup_cons in Hnd as [Hx Hnd]. destruct (f x) as [v|] eqn:Hfx; simpl.
    - destruct (IH (set_amount acc x v) Hnd) as [IH1 IH2]. split.
      + intros r' Hr d. specialize (IH1 r' Hr d). rewrite get_set_amount in IH1.
        destruct (decide (d ∈ x :: l)) as [Hd|Hd]; rewrite elem_of_cons in Hd.
        * destruct (decide (d ∈ l)); [done|]. destruct Hd as [->|]; [|done]. by destruct (decide (x = x)); [congruence|].
        * destruct (decide (d ∈ l)); [tauto|]. destruct (decide (x = d)) as [->|]; [tauto|done].
      + intros H. apply IH2. intros d Hd. apply H. set_solver.
    - split; [done|]. intros H. destruct (H x) as [? ?]; [set_solver|congruence]. }
  destruct (Hgen ALL_DIMENSIONS amounts_zero nodup_dimensions) as [H1 H2]. split.
  - intros Hr d. specialize (H1 r Hr d). by rewrite decide_True in H1 by apply all_dimensions.
  - intros H. destruct H2 as [r' Hr']; [intros d _; rewrite H; eauto|]. rewrite Hr'. f_equal.
    apply amounts_ext. intros d. specialize (H1 r' Hr' d). rewrite decide_True in H1 by apply all_dimensions.
    rewrite H in H1. by injection H1.
Qed.

Lemma try_zip_map_Some op a b r :
  try_zip_map op a b = Some r <-> forall d, op (get a d) (get b d) = Some (get r d).
Proof. apply (fill_dimensions (fun d => op (get a d) (get b d))). Qed.

Lemma amounts_add_Some a b r :
  amounts_add a b = Some r <-> forall d, get r d = get a d + get b d /\ get a d + get b d <= u64_max.
Proof. unfold amounts_add. rewrite try_zip_map_Some. by setoid_rewrite checked_add_Some. Qed.

Lemma amounts_sub_Some a b r :
  amounts_sub a b = Some r <-> forall d, get r d = get a d - get b d /\ get b d <= get a d.
Proof. unfold amounts_sub. rewrite try_zip_map_Some. by setoid_rewrite checked_sub_Some. Qed.

Lemma amounts_add_ok a b : (forall d, get a d + get b d <= u64_max) -> amounts_add a b = Some (zip_map Z.add a b).
Proof. intros H. apply amounts_add_Some. intros d. by rewrite get_zip_map. Qed.

Lemma amounts_sub_ok a b : b ⊑r a -> amounts_sub a b = Some (zip_map Z.sub a b).
Proof. intros H. apply amounts_sub_Some. intros d. by rewrite get_zip_map. Qed.

Lemma for_dimensions_ok {E} (f : ResourceDimension -> result E unit) :
  for_dimensions f = Ok tt <-> forall d, f d = Ok tt.
Proof.
  unfold for_dimensions. assert (H : forall l, try_fold (fun _ d => f d) tt l = Ok tt <-> forall d, d ∈ l -> f d = Ok tt).
  { induction l as [|x l IH]; simpl; [split; [set_solver|done]|]. destruct (f x) as [[]|] eqn:Hx.
    - rewrite IH. split; [|set_solver]. intros H d [->|]%elem_of_cons; auto.
    - split; [done|]. intros H. rewrite <- Hx. apply H. set_solver. }
  rewrite H. split; [|auto]. intros Hf d. apply Hf, all_dimensions.
Qed.

(** The first refusal of a loop over the dimensions is the refusal of some dimension. *)
Lemma for_dimensions_err {E} (f : ResourceDimension -> result E unit) e :
  for_dimensions f = Err e -> exists d, f d = Err e.
Proof.
  unfold for_dimensions. generalize ALL_DIMENSIONS. induction l as [|x l IH]; simpl; [done|].
  destruct (f x) as [[]|e'] eqn:Hx; [apply IH|]. intros [= ->]. eauto.
Qed.

Lemma exceeds_false c b : exceeds c b = false <-> exists v, c = Some v /\ v <= b.
Proof.
  destruct c as [v|]; simpl; [|split; [done|by intros (? & ? & ?)]]. rewrite Z.ltb_ge.
  split; [eauto|by intros (? & [= ->] & ?)].
Qed.

(** A request passes a ceiling check exactly when it fits below the ceiling. *)
Lemma refuse_exceeded_ok code scope class in_use requested allowed pressure :
  refuse_exceeded code scope class in_use requested allowed pressure = Ok tt
  <-> forall d, get in_use d + get requested d <= Z.min u64_max (get allowed d).
Proof.
  unfold refuse_exceeded. rewrite for_dimensions_ok. apply forall_proper. intros d.
  destruct (exceeds _ _) eqn:He.
  - split; [done|]. intros H. exfalso. rewrite (proj2 (exceeds_false _ _)) in He; [done|].
    exists (get in_use d + get requested d). rewrite checked_add_ok by lia. split; [done|lia].
  - apply exceeds_false in He as (v & Hv & Hle). inv_checked. split; [lia|done].
Qed.

Lemma refuse_exceeded_code code scope class in_use requested allowed pressure e :
  refuse_exceeded code scope class in_use requested allowed pressure = Err e -> af_code e = code.
Proof.
  unfold refuse_exceeded. intros [d H]%for_dimensions_err. destruct (exceeds _ _); [|done]. by injection H as <-.
Qed.

(** ** Disk pressure *)

Definition severity (p : DiskPressureState) : Z := match p with Healthy => 0 | SoftPressure => 1 | HardPressure => 2 end.

(** Also (invariant). Disk pressure has hysteresis. With validated thresholds the level after an
    observation is monotone: less usable space or a more severe level never gives a less severe
    one. Observing the same space twice changes nothing, and a run of observations that stays
    strictly between the two soft (or the two hard) thresholds never changes the level it
    settled on, however it fluctuates. *)
Theorem disk_pressure_has_hysteresis he hx se sx t :
  DiskPressureThresholds_new he hx se sx = Ok t ->
  (forall p q u v, severity q <= severity p -> u <= v ->
     severity (pressure_transition t q v) <= severity (pressure_transition t p u))
  /\ (forall p u, pressure_transition t (pressure_transition t p u) u = pressure_transition t p u)
  /\ (forall p us, p <> HardPressure -> Forall (fun u => soft_enter t < u < soft_exit t) us -> fold_left (pressure_transition t) us p = p)
  /\ (forall p us, p <> Healthy -> Forall (fun u => hard_enter t < u < hard_exit t) us -> fold_left (pressure_transition t) us p = p).
Proof.
  unfold DiskPressureThresholds_new. destruct (_ || _) eqn:H; [done|]. intros [= <-]. repeat (apply orb_false_iff in H as [H ?]). bool_to_prop.
  assert (Hcases : forall p u, pressure_transition (mkThresholds he hx se sx) p u =
    match p with
    | Healthy => if decide (u <= he) then HardPressure else if decide (u <= se) then SoftPressure else Healthy
    | SoftPressure => if decide (u <= he) then HardPressure else if decide (sx <= u) then Healthy else SoftPressure
    | HardPressure => if decide (sx <= u) then Healthy else if decide (hx <= u) then SoftPressure else HardPressure
    end).
  { intros p u. destruct p; cbn; unfold pressure_initial; cbn; repeat case_decide; repeat case_match; bool_to_prop; done || lia. }
  split; [|split; [|split]].
  - intros p q u v Hpq Huv. rewrite !Hcases. destruct p, q; cbn in Hpq; repeat case_decide; cbn; lia.
  - intros p u. rewrite (Hcases p). destruct p; repeat case_decide; rewrite Hcases; repeat case_decide; done || lia.
  - intros p us Hp Hus. induction Hus as [|u us Hu _ IH]; [done|]. cbn [fold_left]. rewrite (Hcases p). cbn in Hu.
    destruct p; [..|done]; repeat case_decide; done || lia.
  - intros p us Hp Hus. induction Hus as [|u us Hu _ IH]; [done|]. cbn [fold_left]. rewrite (Hcases p). cbn in Hu.
    destruct p; [done|..]; repeat case_decide; done || lia.
Qed.

Lemma disk_pressure_has_hysteresis_witness :
  fold_left (pressure_transition (mkThresholds 10 20 30 40)) [39; 31; 35] SoftPressure = SoftPressure.
Proof.
  apply (proj1 (proj2 (proj2 (disk_pressure_has_hysteresis 10 20 30 40 (mkThresholds 10 20 30 40) eq_refl)))); [done|].
  repeat constructor; vm_compute; reflexivity.
Defined.
