(* ===== verification/GovernorPools.v ===== *)
(** Resource governor: ordinary and recovery pools, how a request is split over them, and the
    fair shares of the tenants.

    Models [policy.rs], [recovery_policy.rs], [pool_admission.rs] and [fairness.rs] of
    [positron-kernel/src/resource_governor]. *)

From stdpp Require Import sets.
From S2P Require Import Prelude Outcome Identity GovernorModel.

(** ** Ordinary pools *)

(** [positron-kernel/src/resource_governor/policy.rs:12-19 OrdinaryPool] *)
Inductive OrdinaryPool := PoolShared | PoolSecurity | PoolIngest | PoolQuery | PoolMaintenance.

#[global] Instance OrdinaryPool_eq_dec : EqDecision OrdinaryPool.
Proof. solve_decision. Defined.

(** [positron-kernel/src/resource_governor/policy.rs:22-30 OrdinaryPool::for_class] *)
Definition for_class (class : WorkClass) : option OrdinaryPool :=
  match class with
  | DurabilityRecovery => None
  | SecurityLifecycleClass => Some PoolSecurity
  | IngestClass => Some PoolIngest
  | InteractiveQueryTailClass => Some PoolQuery
  | OrdinaryMaintenanceBackupClass => Some PoolMaintenance
  end.

(** [positron-kernel/src/resource_governor/policy.rs:225-232 PoolCapacities] *)
Record PoolCapacities := mkPools {
  pc_shared : ResourceAmounts;
  pc_security : ResourceAmounts;
  pc_ingest : ResourceAmounts;
  pc_query : ResourceAmounts;
  pc_maintenance : ResourceAmounts;
}.

(** [positron-kernel/src/resource_governor/policy.rs:235-243 PoolCapacities::zero] *)
Definition pools_zero : PoolCapacities :=
  mkPools amounts_zero amounts_zero amounts_zero amounts_zero amounts_zero.

(** [positron-kernel/src/resource_governor/policy.rs:245-253 PoolCapacities::get] *)
Definition pool_get (c : PoolCapacities) (p : OrdinaryPool) : ResourceAmounts :=
  match p with
  | PoolShared => pc_shared c | PoolSecurity => pc_security c | PoolIngest => pc_ingest c
  | PoolQuery => pc_query c | PoolMaintenance => pc_maintenance c
  end.

(** [positron-kernel/src/resource_governor/policy.rs:255-265 PoolCapacities::with] *)
Definition pool_with (c : PoolCapacities) (p : OrdinaryPool) (a : ResourceAmounts) : PoolCapacities :=
  let '(mkPools sh se i q m) := c in
  match p with
  | PoolShared => mkPools a se i q m
  | PoolSecurity => mkPools sh a i q m
  | PoolIngest => mkPools sh se a q m
  | PoolQuery => mkPools sh se i a m
  | PoolMaintenance => mkPools sh se i q a
  end.

(** [positron-kernel/src/resource_governor/policy.rs:303-309 ORDINARY_POOLS] *)
Definition ORDINARY_POOLS : list OrdinaryPool :=
  [PoolShared; PoolSecurity; PoolIngest; PoolQuery; PoolMaintenance].

(** The loops of [PoolCapacities] that build a candidate pool by pool. *)
Definition fill_pools (f : OrdinaryPool -> option ResourceAmounts) : option PoolCapacities :=
  try_fold_opt (fun candidate p => a ← f p; Some (pool_with candidate p a)) pools_zero ORDINARY_POOLS.

(** [positron-kernel/src/resource_governor/policy.rs:267-273 PoolCapacities::checked_add] *)
Definition pools_add (a b : PoolCapacities) : option PoolCapacities :=
  fill_pools (fun p => amounts_add (pool_get a p) (pool_get b p)).

(** [positron-kernel/src/resource_governor/policy.rs:275-281 PoolCapacities::checked_sub] *)
Definition pools_sub (a b : PoolCapacities) : option PoolCapacities :=
  fill_pools (fun p => amounts_sub (pool_get a p) (pool_get b p)).

(** [positron-kernel/src/resource_governor/policy.rs:360-364 weighted_floor] *)
Definition weighted_floor (capacity weight total_weight : Z) : option Z :=
  numerator ← checked_mul (2 ^ 128 - 1) capacity weight;
  if total_weight =? 0 then None
  else let result := numerator / total_weight in
       if result <=? u64_max then Some result else None.

(** [positron-kernel/src/resource_governor/fairness.rs:158-171 weighted_amounts] *)
Definition weighted_amounts (total : ResourceAmounts) (weight total_weight : Z) : option ResourceAmounts :=
  try_fold_opt (fun share d => v ← weighted_floor (get total d) weight total_weight; Some (with_amount share d v))
    amounts_zero ALL_DIMENSIONS.

(** [positron-kernel/src/resource_governor/policy.rs:283-300 PoolCapacities::fair_share] *)
Definition fair_share (c : PoolCapacities) (weight total_weight : Z) : option PoolCapacities :=
  if (weight =? 0) || (total_weight =? 0) || (total_weight <? weight) then None
  else fill_pools (fun p => weighted_amounts (pool_get c p) weight total_weight).

(** [positron-kernel/src/resource_governor/policy.rs:36-42 OrdinaryPoolPolicy] *)
Record OrdinaryPoolPolicy := mkPoolPolicy {
  pp_security : ResourceAmounts;
  pp_ingest : ResourceAmounts;
  pp_query : ResourceAmounts;
  pp_maintenance : ResourceAmounts;
}.

(** [positron-kernel/src/resource_governor/policy.rs:45-76 OrdinaryPoolPolicy::new] *)
Definition OrdinaryPoolPolicy_new (security ingest query maintenance : ResourceAmounts)
  : result GovernorFailure OrdinaryPoolPolicy :=
  if negb (all_positive security) || negb (all_positive ingest) || negb (all_positive query)
     || negb (all_positive maintenance)
  then Err InvalidConfiguration
  else
    _ ← for_dimensions (fun d =>
      if (get security d <? get ingest d) || (get ingest d <? get query d)
      then Err InvalidConfiguration else Ok tt);
    if existsb (fun d => get query d <? get ingest d) ALL_DIMENSIONS
    then Ok (mkPoolPolicy security ingest query maintenance)
    else Err InvalidConfiguration.

(** [positron-kernel/src/resource_governor/policy.rs:78-101 OrdinaryPoolPolicy::derive] *)
Definition pool_policy_derive (p : OrdinaryPoolPolicy) (ordinary : ResourceAmounts)
  : result GovernorFailure PoolCapacities :=
  protected ← ok_or InvalidConfiguration
    (a ← amounts_add (pp_security p) (pp_ingest p);
     a ← amounts_add a (pp_query p);
     amounts_add a (pp_maintenance p));
  shared ← ok_or InvalidConfiguration (amounts_sub ordinary protected);
  if negb (all_positive shared) then Err InvalidConfiguration
  else Ok (mkPools shared (pp_security p) (pp_ingest p) (pp_query p) (pp_maintenance p)).

(** [positron-kernel/src/resource_governor/policy.rs:312-317 PoolCharge] *)
Record PoolCharge := mkPoolCharge {
  pch_class_pool : OrdinaryPool;
  pch_shared : ResourceAmounts;
  pch_protected : ResourceAmounts;
}.

(** [positron-kernel/src/resource_governor/policy.rs:335-339 PoolCharge::capacities] *)
Definition charge_capacities (c : PoolCharge) : PoolCapacities :=
  pool_with (pool_with pools_zero PoolShared (pch_shared c)) (pch_class_pool c) (pch_protected c).

(** ** Splitting an ordinary request *)

(** The planning loops fill two vectors dimension by dimension and stop at the first refusal. *)
Definition fill_split {E} (f : ResourceDimension -> result E (Z * Z)) : result E (ResourceAmounts * ResourceAmounts) :=
  try_fold (fun '(left_charge, right_charge) d =>
      '(l, r) ← f d; Ok (with_amount left_charge d l, with_amount right_charge d r))
    (amounts_zero, amounts_zero) ALL_DIMENSIONS.

(** [positron-kernel/src/resource_governor/pool_admission.rs:11-16 PoolAdmission] *)
Record PoolAdmission := mkPoolAdmission {
  pa_global_capacity : PoolCapacities;
  pa_global_usage : PoolCapacities;
  pa_tenant_capacity : PoolCapacities;
  pa_tenant_usage : PoolCapacities;
}.

(** [positron-kernel/src/resource_governor/pool_admission.rs:172-182 available] *)
Definition available (capacity usage : PoolCapacities) (p : OrdinaryPool) (d : ResourceDimension) : option Z :=
  checked_sub (get (pool_get capacity p) d) (get (pool_get usage p) d).

(** [positron-kernel/src/resource_governor/pool_admission.rs:141-150 shutdown_failure] *)
Definition shutdown_failure (class : WorkClass) (pressure : DiskPressureState) : AdmissionFailure :=
  failure_at_pressure ShuttingDownCode Never LimitPolicy class pressure DecisionLimit_none.

(** [positron-kernel/src/resource_governor/pool_admission.rs:152-170 pressure_failure] *)
Definition pressure_failure (pressure : DiskPressureState) (class : WorkClass) (requested : ResourceAmounts)
  : AdmissionFailure :=
  failure_at_pressure DiskPressureAdmissionRefused AfterPressureTransition LimitPolicy class pressure
    (mkLimit (Some DiskHeadroomBytes) 0 0 (get requested DiskHeadroomBytes)).

(** [positron-kernel/src/resource_governor/pool_admission.rs:184-188 PoolLimit] *)
Record PoolLimit := mkPoolLimit {
  pl_capacity : PoolCapacities; pl_usage : PoolCapacities; pl_class_pool : OrdinaryPool }.

(** [positron-kernel/src/resource_governor/pool_admission.rs:190-225 pool_failure] *)
Definition pool_failure (code : AdmissionFailureCode) (scope : LimitingScope) (class : WorkClass)
    (d : ResourceDimension) (limit : PoolLimit) (requested : Z) (pressure : DiskPressureState)
  : AdmissionFailure :=
  let both (c : PoolCapacities) :=
    checked_add u64_max (get (pool_get c PoolShared) d) (get (pool_get c (pl_class_pool limit)) d) in
  match both (pl_capacity limit), both (pl_usage limit) with
  | Some allowed, Some in_use =>
      failure_at_pressure code AfterCapacityRelease scope class pressure (mkLimit (Some d) allowed in_use requested)
  | _, _ => internal_failure_at_pressure class pressure
  end.

(** The body of the loop of [plan_pool_charge]: the amounts charged to the shared pool and to
    the pool of the class for one dimension. *)
Definition plan_pool_dimension (class : WorkClass) (class_pool : OrdinaryPool) (requested : ResourceAmounts)
    (admission : PoolAdmission) (pressure : DiskPressureState) (shared_eligible : bool)
    (d : ResourceDimension) : result AdmissionFailure (Z * Z) :=
  let internal := internal_failure_at_pressure class pressure in
  let '(mkPoolAdmission gc gu tc tu) := admission in
  global_shared ← ok_or internal (available gc gu PoolShared d);
  tenant_shared ← ok_or internal (available tc tu PoolShared d);
  let shared := if shared_eligible then Z.min (Z.min (get requested d) global_shared) tenant_shared else 0 in
  let remainder := get requested d - shared in
  global_class ← ok_or internal (available gc gu class_pool d);
  if global_class <? remainder then
    if negb shared_eligible then Err (pressure_failure pressure class requested)
    else Err (pool_failure ClassCapacityUnavailable LimitClassHeadroom class d
           (mkPoolLimit gc gu class_pool) (get requested d) pressure)
  else
    tenant_class ← ok_or internal (available tc tu class_pool d);
    if tenant_class <? remainder then
      if negb shared_eligible then Err (pressure_failure pressure class requested)
      else Err (pool_failure TenantFairShareExceeded LimitTenantFairShare class d
             (mkPoolLimit tc tu class_pool) (get requested d) pressure)
    else Ok (shared, remainder).

(** [positron-kernel/src/resource_governor/pool_admission.rs:18-108 plan_pool_charge] *)
Definition plan_pool_charge (class : WorkClass) (requested : ResourceAmounts) (admission : PoolAdmission)
    (pressure : DiskPressureState) (shared_eligible : bool) : result AdmissionFailure PoolCharge :=
  match for_class class with
  | None => Err (internal_failure_at_pressure class pressure)
  | Some class_pool =>
      '(shared_charge, class_charge) ←
        fill_split (plan_pool_dimension class class_pool requested admission pressure shared_eligible);
      Ok (mkPoolCharge class_pool shared_charge class_charge)
  end.

(** [positron-kernel/src/resource_governor/pool_admission.rs:110-139 pressure_eligibility] *)
Definition pressure_eligibility (pressure : DiskPressureState) (class : WorkClass) (amounts : ResourceAmounts)
  : result AdmissionFailure bool :=
  let disk_growth := get amounts DiskHeadroomBytes in
  let refuse := Err (pressure_failure pressure class amounts) in
  match pressure with
  | Healthy => Ok true
  | SoftPressure =>
      match class with
      | SecurityLifecycleClass | IngestClass => Ok true
      | InteractiveQueryTailClass => Ok false
      | OrdinaryMaintenanceBackupClass => if disk_growth =? 0 then Ok false else refuse
      | DurabilityRecovery => refuse
      end
  | HardPressure =>
      if bool_decide (class = IngestClass) || (0 <? disk_growth) then refuse
      else match class with
           | SecurityLifecycleClass => Ok true
           | InteractiveQueryTailClass | OrdinaryMaintenanceBackupClass => Ok false
           | IngestClass | DurabilityRecovery => refuse
           end
  end.

(** ** Recovery pools *)

(** [positron-kernel/src/resource_governor/recovery_policy.rs:6-15 RecoveryPoolCapacities] Also
    stands for the arrays of seven vectors the code indexes with [RecoveryWorkKind::index]. *)
Record RecoveryPoolCapacities := mkRecoveryPools {
  rp_durability : ResourceAmounts;
  rp_retention : ResourceAmounts;
  rp_compaction : ResourceAmounts;
  rp_purge : ResourceAmounts;
  rp_repair : ResourceAmounts;
  rp_fencing : ResourceAmounts;
  rp_shutdown : ResourceAmounts;
}.

(** [positron-kernel/src/resource_governor/recovery_policy.rs:69-80 RecoveryPoolCapacities::get] *)
Definition recovery_get (c : RecoveryPoolCapacities) (k : RecoveryWorkKind) : ResourceAmounts :=
  match k with
  | DurabilityCompletion => rp_durability c | Retention => rp_retention c
  | EmergencyCompaction => rp_compaction c | Purge => rp_purge c | Repair => rp_repair c
  | Fencing => rp_fencing c | SafeShutdown => rp_shutdown c
  end.

(** Assignment to the entry of a kind. *)
Definition recovery_with (c : RecoveryPoolCapacities) (k : RecoveryWorkKind) (a : ResourceAmounts)
  : RecoveryPoolCapacities :=
  let '(mkRecoveryPools d r c p i f s) := c in
  match k with
  | DurabilityCompletion => mkRecoveryPools a r c p i f s
  | Retention => mkRecoveryPools d a c p i f s
  | EmergencyCompaction => mkRecoveryPools d r a p i f s
  | Purge => mkRecoveryPools d r c a i f s
  | Repair => mkRecoveryPools d r c p a f s
  | Fencing => mkRecoveryPools d r c p i a s
  | SafeShutdown => mkRecoveryPools d r c p i f a
  end.

Definition recovery_table_zero : RecoveryPoolCapacities :=
  mkRecoveryPools amounts_zero amounts_zero amounts_zero amounts_zero amounts_zero amounts_zero amounts_zero.

(** [positron-kernel/src/resource_governor/recovery_policy.rs:82-88 RecoveryPoolCapacities::protected_sum] *)
Definition protected_sum (c : RecoveryPoolCapacities) : option ResourceAmounts :=
  try_fold_opt (fun total k => amounts_add total (recovery_get c k)) amounts_zero ALL_RECOVERY_KINDS.

(** [positron-kernel/src/resource_governor/recovery_policy.rs:39-67 RecoveryPoolCapacities::new] *)
Definition RecoveryPoolCapacities_new (candidate : RecoveryPoolCapacities)
  : result GovernorFailure RecoveryPoolCapacities :=
  if existsb (fun k => negb (all_positive (recovery_get candidate k))) ALL_RECOVERY_KINDS
  then Err InvalidConfiguration
  else _ ← ok_or InvalidConfiguration (protected_sum candidate); Ok candidate.

(** [positron-kernel/src/resource_governor/recovery_policy.rs:91-95 RecoveryPoolUsage] *)
Record RecoveryPoolUsage := mkRecoveryUsage {
  ru_shared : ResourceAmounts;
  ru_protected : RecoveryPoolCapacities;
}.

(** [positron-kernel/src/resource_governor/recovery_policy.rs:98-103 RecoveryPoolUsage::zero] *)
Definition recovery_usage_zero : RecoveryPoolUsage := mkRecoveryUsage amounts_zero recovery_table_zero.

(** [positron-kernel/src/resource_governor/recovery_policy.rs:109-114 RecoveryPoolUsage::protected] *)
Definition usage_protected (u : RecoveryPoolUsage) (k : RecoveryWorkKind) : ResourceAmounts :=
  recovery_get (ru_protected u) k.

(** [positron-kernel/src/resource_governor/recovery_policy.rs:133-138 RecoveryPoolCharge] *)
Record RecoveryPoolCharge := mkRecoveryCharge {
  rch_kind : RecoveryWorkKind;
  rch_shared : ResourceAmounts;
  rch_protected : ResourceAmounts;
}.

(** [positron-kernel/src/resource_governor/recovery_policy.rs:116-122 RecoveryPoolUsage::checked_add] *)
Definition recovery_usage_add (u : RecoveryPoolUsage) (c : RecoveryPoolCharge) : option RecoveryPoolUsage :=
  shared ← amounts_add (ru_shared u) (rch_shared c);
  protected ← amounts_add (usage_protected u (rch_kind c)) (rch_protected c);
  Some (mkRecoveryUsage shared (recovery_with (ru_protected u) (rch_kind c) protected)).

(** [positron-kernel/src/resource_governor/recovery_policy.rs:124-130 RecoveryPoolUsage::checked_sub] *)
Definition recovery_usage_sub (u : RecoveryPoolUsage) (c : RecoveryPoolCharge) : option RecoveryPoolUsage :=
  shared ← amounts_sub (ru_shared u) (rch_shared c);
  protected ← amounts_sub (usage_protected u (rch_kind c)) (rch_protected c);
  Some (mkRecoveryUsage shared (recovery_with (ru_protected u) (rch_kind c) protected)).

(** [positron-kernel/src/resource_governor/recovery_policy.rs:140-144 RecoveryPoolLimit] *)
Inductive RecoveryPoolLimit :=
| RLGlobal (d : ResourceDimension) | RLScope (d : ResourceDimension) | RLInternal.

(** [positron-kernel/src/resource_governor/recovery_policy.rs:146-152 RecoveryPoolView] *)
Record RecoveryPoolView := mkView {
  rv_shared_capacity : ResourceAmounts;
  rv_protected_capacity : ResourceAmounts;
  rv_usage : RecoveryPoolUsage;
  rv_shared_occupied_by_ordinary : ResourceAmounts;
}.

(** What a view leaves of the capacity shared with ordinary work. *)
Definition view_shared_available (v : RecoveryPoolView) (d : ResourceDimension) : option Z :=
  a ← checked_sub (get (rv_shared_capacity v) d) (get (ru_shared (rv_usage v)) d);
  checked_sub a (get (rv_shared_occupied_by_ordinary v) d).

(** What a view leaves of the protected pool of a kind. *)
Definition view_protected_available (kind : RecoveryWorkKind) (v : RecoveryPoolView) (d : ResourceDimension)
  : option Z :=
  checked_sub (get (rv_protected_capacity v) d) (get (usage_protected (rv_usage v) kind) d).

(** The part of a request that a protected pool cannot hold. *)
Definition required_shared (requested protected_available : Z) : option Z :=
  if protected_available <? requested then checked_sub requested protected_available else Some 0.

(** The body of the loop of [plan_recovery_charge] for one dimension. *)
Definition plan_recovery_dimension (kind : RecoveryWorkKind) (requested : ResourceAmounts)
    (global scope : RecoveryPoolView) (d : ResourceDimension) : result RecoveryPoolLimit (Z * Z) :=
  shared_available ← ok_or RLInternal (view_shared_available global d);
  scope_shared_available ← ok_or RLInternal (view_shared_available scope d);
  protected_available ← ok_or RLInternal (view_protected_available kind global d);
  scope_protected_available ← ok_or RLInternal (view_protected_available kind scope d);
  global_available ← ok_or RLInternal (checked_add u64_max shared_available protected_available);
  scope_available ← ok_or RLInternal (checked_add u64_max scope_shared_available scope_protected_available);
  if global_available <? get requested d then Err (RLGlobal d)
  else if scope_available <? get requested d then Err (RLScope d)
  else
    let requested_amount := get requested d in
    global_required_shared ← ok_or RLInternal (required_shared requested_amount protected_available);
    scope_required_shared ← ok_or RLInternal (required_shared requested_amount scope_protected_available);
    let lower_shared := Z.max global_required_shared scope_required_shared in
    let upper_shared := Z.min (Z.min requested_amount shared_available) scope_shared_available in
    if upper_shared <? lower_shared then
      if upper_shared <? global_required_shared then Err (RLGlobal d) else Err (RLScope d)
    else
      remainder ← ok_or RLInternal (checked_sub requested_amount upper_shared);
      Ok (upper_shared, remainder).

(** [positron-kernel/src/resource_governor/recovery_policy.rs:154-239 plan_recovery_charge] *)
Definition plan_recovery_charge (kind : RecoveryWorkKind) (requested : ResourceAmounts)
    (global scope : RecoveryPoolView) : result RecoveryPoolLimit RecoveryPoolCharge :=
  '(shared, protected) ← fill_split (plan_recovery_dimension kind requested global scope);
  Ok (mkRecoveryCharge kind shared protected).

(** ** Fair shares *)

(** [positron-kernel/src/resource_governor/fairness.rs:11-19 total_weight] *)
Definition total_weight (quotas : list TenantQuota) : result GovernorFailure Z :=
  match try_fold_opt (fun total q => checked_add u64_max total (q_weight q)) 0 quotas with
  | Some w => if 0 <? w then Ok w else Err InvalidConfiguration
  | None => Err InvalidConfiguration
  end.

(** [positron-kernel/src/resource_governor/fairness.rs:21-35 ordinary_capacities] *)
Definition ordinary_capacities (quotas : list TenantQuota) (pools : PoolCapacities) (tw : Z)
  : result GovernorFailure (list PoolCapacities) :=
  try_map (fun q => ok_or InvalidConfiguration (fair_share pools (q_weight q) tw)) quotas.

(** [positron-kernel/src/resource_governor/fairness.rs:37-50 amount_capacities] *)
Definition amount_capacities (quotas : list TenantQuota) (total : ResourceAmounts) (tw : Z)
  : result GovernorFailure (list ResourceAmounts) :=
  try_map (fun q => ok_or InvalidConfiguration (weighted_amounts total (q_weight q) tw)) quotas.

(** The share of one tenant in the pool of one recovery kind. *)
Definition recovery_kind_share (pools : RecoveryPoolCapacities) (tw : Z) (quota : TenantQuota)
    (kind : RecoveryWorkKind) : result GovernorFailure ResourceAmounts :=
  tenant_capacity ←
    (if permits_tenant_scope kind && permits_system_scope kind then
       ok_or (SystemRecoveryProgressUnavailable kind MemoryBytes)
         (amounts_sub (recovery_get pools kind) (uniform 1))
     else if permits_tenant_scope kind then Ok (recovery_get pools kind)
     else Ok amounts_zero);
  share ← ok_or InvalidConfiguration (weighted_amounts tenant_capacity (q_weight quota) tw);
  _ ← (if permits_tenant_scope kind then
         for_dimensions (fun d =>
           if get share d =? 0 then Err (TenantProgressUnavailable (q_tenant quota) DurabilityRecovery d) else Ok tt)
       else Ok tt);
  Ok share.

(** A table filled kind by kind, with the first failure. *)
Definition fill_kinds {E} (f : RecoveryWorkKind -> result E ResourceAmounts) : result E RecoveryPoolCapacities :=
  try_fold (fun values k => a ← f k; Ok (recovery_with values k a)) recovery_table_zero ALL_RECOVERY_KINDS.

(** [positron-kernel/src/resource_governor/fairness.rs:52-95 recovery_pool_capacities] *)
Definition recovery_fair_capacities (quotas : list TenantQuota) (pools : RecoveryPoolCapacities) (tw : Z)
  : result GovernorFailure (list RecoveryPoolCapacities) :=
  try_map (fun quota => fill_kinds (recovery_kind_share pools tw quota)) quotas.

(** [positron-kernel/src/resource_governor/fairness.rs:97-121 validate_system_recovery_progress] *)
Definition validate_system_recovery_progress (quotas : list TenantQuota) (pools : RecoveryPoolCapacities)
  : result GovernorFailure unit :=
  try_fold (fun _ kind =>
    if negb (permits_system_scope kind) then Ok tt
    else
      required ← (if permits_tenant_scope kind
                  then ok_or InvalidConfiguration (checked_add u64_max (zlen quotas) 1) else Ok 1);
      for_dimensions (fun d =>
        if get (recovery_get pools kind) d <? required
        then Err (SystemRecoveryProgressUnavailable kind d) else Ok tt)) tt ALL_RECOVERY_KINDS.

(** What is left to the system scope of the pool of one kind. *)
Definition system_kind_capacity (pools : RecoveryPoolCapacities) (tenant_floors : list RecoveryPoolCapacities)
    (kind : RecoveryWorkKind) : result GovernorFailure ResourceAmounts :=
  reserved ← (if permits_system_scope kind && permits_tenant_scope kind then
                ok_or InvalidConfiguration
                  (try_fold_opt (fun reserved floors => amounts_add reserved (recovery_get floors kind))
                     amounts_zero tenant_floors)
              else Ok amounts_zero);
  slot ← ok_or InvalidConfiguration (amounts_sub (recovery_get pools kind) reserved);
  _ ← (if permits_system_scope kind then
         for_dimensions (fun d =>
           if get slot d =? 0 then Err (SystemRecoveryProgressUnavailable kind d) else Ok tt)
       else Ok tt);
  Ok slot.

(** [positron-kernel/src/resource_governor/fairness.rs:123-156 system_recovery_capacities] *)
Definition system_recovery_capacities (pools : RecoveryPoolCapacities)
    (tenant_floors : list RecoveryPoolCapacities) : result GovernorFailure RecoveryPoolCapacities :=
  fill_kinds (system_kind_capacity pools tenant_floors).

(** [positron-kernel/src/resource_governor/lifecycle.rs:165-165 WORK_CLASS_COUNT] *)
Definition WORK_CLASS_COUNT : Z := 5.

(** The classes that ordinary work belongs to. *)
Definition ORDINARY_CLASSES : list WorkClass :=
  [SecurityLifecycleClass; IngestClass; InteractiveQueryTailClass; OrdinaryMaintenanceBackupClass].

(** The check of [validate_progress] for one tenant. *)
Definition validate_tenant_progress (quota : TenantQuota) (share : PoolCapacities) : result GovernorFailure unit :=
  try_fold (fun _ class =>
    class_pool ← ok_or InvalidConfiguration (for_class class);
    for_dimensions (fun d =>
      accessible ← ok_or InvalidConfiguration
        (checked_add u64_max (get (pool_get share PoolShared) d) (get (pool_get share class_pool) d));
      if accessible =? 0 then Err (TenantProgressUnavailable (q_tenant quota) class d) else Ok tt))
    tt ORDINARY_CLASSES.

(** [positron-kernel/src/resource_governor/fairness.rs:173-219 validate_progress] *)
Definition validate_progress (quotas : list TenantQuota) (fair : list PoolCapacities) (maximum_outstanding : Z)
  : result GovernorFailure unit :=
  if u32_max <? zlen quotas then Err InvalidConfiguration
  else
    required ← ok_or InvalidConfiguration (checked_add u32_max (zlen quotas) WORK_CLASS_COUNT);
    if maximum_outstanding <? required then Err (InsufficientOutstandingProgress maximum_outstanding required)
    else
      try_fold (fun _ '(index, quota) =>
        share ← ok_or InvalidConfiguration (fair !! index);
        validate_tenant_progress quota share) tt (imap pair quotas).

(** ** Lemmas on the loops *)

Lemma fill_split_fold {E} (f : ResourceDimension -> result E (Z * Z)) l a b : NoDup l ->
  match try_fold (fun '(x, y) d => '(s, r) ← f d; Ok (with_amount x d s, with_amount y d r)) (a, b) l with
  | Ok (a', b') => forall d, if decide (d ∈ l) then f d = Ok (get a' d, get b' d)
                             else get a' d = get a d /\ get b' d = get b d
  | Err e => exists d, d ∈ l /\ f d = Err e
  end.
Proof.
  revert a b. induction l as [|x l IH]; intros a b Hnd; simpl.
  { intros d. by destruct (decide (d ∈ [])) as [?%elem_of_nil|]. }
  apply NoDup_cons in Hnd as [Hx Hnd]. destruct (f x) as [[s r]|e] eqn:Hfx; cbn [mbind result_bind].
  - specialize (IH (with_amount a x s) (with_amount b x r) Hnd).
    destruct (try_fold _ _ l) as [[a' b']|e]; [|destruct IH as (d & ? & ?); exists d; set_solver].
    intros d. specialize (IH d). unfold with_amount in IH. rewrite !get_set_amount in IH.
    destruct (decide (d ∈ x :: l)) as [Hd|Hd]; rewrite elem_of_cons in Hd.
    + destruct (decide (d ∈ l)); [done|]. destruct Hd as [->|]; [|done]. rewrite !decide_True in IH by done.
      destruct IH as [-> ->]. done.
    + destruct (decide (d ∈ l)); [tauto|]. destruct (decide (x = d)) as [->|]; [tauto|done].
  - exists x. set_solver.
Qed.

Lemma fill_split_ok {E} (f : ResourceDimension -> result E (Z * Z)) a b :
  fill_split f = Ok (a, b) <-> forall d, f d = Ok (get a d, get b d).
Proof.
  unfold fill_split. pose proof (fill_split_fold f ALL_DIMENSIONS amounts_zero amounts_zero nodup_dimensions) as H.
  destruct (try_fold _ _ _) as [[a' b']|e].
  - assert (H' : forall d, f d = Ok (get a' d, get b' d)).
    { intros d. specialize (H d). by rewrite decide_True in H by apply all_dimensions. }
    split; [by intros [= -> ->]|]. intros Hf.
    assert (Heq : forall d, get a' d = get a d /\ get b' d = get b d).
    { intros d. specialize (H' d). rewrite Hf in H'. by injection H'. }
    do 2 f_equal; apply amounts_ext; intros d; apply Heq.
  - split; [done|]. intros Hf. destruct H as (d & _ & Hd). by rewrite Hf in Hd.
Qed.

Lemma fill_split_err {E} (f : ResourceDimension -> result E (Z * Z)) e :
  fill_split f = Err e -> exists d, f d = Err e.
Proof.
  unfold fill_split. pose proof (fill_split_fold f ALL_DIMENSIONS amounts_zero amounts_zero nodup_dimensions) as H.
  destruct (try_fold _ _ _) as [[a' b']|e']; [done|]. intros [= ->]. destruct H as (d & _ & H). eauto.
Qed.

Lemma pools_ext c c' : (forall p, pool_get c p = pool_get c' p) -> c = c'.
Proof.
  intros H. destruct c, c'. pose proof (H PoolShared); pose proof (H PoolSecurity); pose proof (H PoolIngest);
    pose proof (H PoolQuery); pose proof (H PoolMaintenance). simpl in *. by subst.
Qed.

Lemma pool_get_with c p a p' : pool_get (pool_with c p a) p' = if decide (p = p') then a else pool_get c p'.
Proof. by destruct c, p, p'. Qed.

Lemma fill_pools_Some f c : fill_pools f = Some c <-> forall p, f p = Some (pool_get c p).
Proof.
  unfold fill_pools. cbn. split.
  - destruct (f PoolShared) eqn:?, (f PoolSecurity) eqn:?, (f PoolIngest) eqn:?, (f PoolQuery) eqn:?,
      (f PoolMaintenance) eqn:?; cbn; try done. intros H.
    injection H as <-. intros p. by destruct p.
  - intros H. rewrite !H. cbn. by destruct c.
Qed.

Lemma pools_add_Some a b c : pools_add a b = Some c <->
  forall p d, get (pool_get c p) d = get (pool_get a p) d + get (pool_get b p) d
    /\ get (pool_get a p) d + get (pool_get b p) d <= u64_max.
Proof. unfold pools_add. rewrite fill_pools_Some. by setoid_rewrite amounts_add_Some. Qed.

Lemma pools_add_ok a b : (forall p d, get (pool_get a p) d + get (pool_get b p) d <= u64_max) -> exists c, pools_add a b = Some c.
Proof.
  intros H. exists (mkPools (zip_map Z.add (pc_shared a) (pc_shared b)) (zip_map Z.add (pc_security a) (pc_security b))
    (zip_map Z.add (pc_ingest a) (pc_ingest b)) (zip_map Z.add (pc_query a) (pc_query b)) (zip_map Z.add (pc_maintenance a) (pc_maintenance b))).
  apply pools_add_Some. intros p d. split; [|apply H]. destruct p; cbn [pool_get pc_shared pc_security pc_ingest pc_query pc_maintenance]; by rewrite get_zip_map.
Qed.

Lemma pools_sub_Some a b c : pools_sub a b = Some c <->
  forall p d, get (pool_get c p) d = get (pool_get a p) d - get (pool_get b p) d
    /\ get (pool_get b p) d <= get (pool_get a p) d.
Proof. unfold pools_sub. rewrite fill_pools_Some. by setoid_rewrite amounts_sub_Some. Qed.

Lemma recovery_get_with c k a k' : recovery_get (recovery_with c k a) k' = if decide (k = k') then a else recovery_get c k'.
Proof. by destruct c, k, k'. Qed.

Lemma fill_kinds_ok {E} (f : RecoveryWorkKind -> result E ResourceAmounts) c :
  fill_kinds f = Ok c <-> forall k, f k = Ok (recovery_get c k).
Proof.
  unfold fill_kinds. cbn. split.
  - destruct (f DurabilityCompletion) eqn:?; cbn; [|done]. destruct (f Retention) eqn:?; cbn; [|done].
    destruct (f EmergencyCompaction) eqn:?; cbn; [|done]. destruct (f Purge) eqn:?; cbn; [|done].
    destruct (f Repair) eqn:?; cbn; [|done]. destruct (f Fencing) eqn:?; cbn; [|done].
    destruct (f SafeShutdown) eqn:?; cbn; [|done]. intros H.
    injection H as <-. intros k. by destruct k.
  - intros H. rewrite !H. cbn. by destruct c.
Qed.

Lemma get_charge_capacities c p d : pch_class_pool c <> PoolShared ->
  get (pool_get (charge_capacities c) p) d =
    (if decide (p = PoolShared) then get (pch_shared c) d else 0)
    + (if decide (p = pch_class_pool c) then get (pch_protected c) d else 0).
Proof.
  intros Hne. unfold charge_capacities. rewrite !pool_get_with.
  destruct (decide (pch_class_pool c = p)) as [Heq|].
  - rewrite decide_False, decide_True by congruence. lia.
  - rewrite (decide_False (P := p = pch_class_pool c)) by congruence.
    destruct (decide (PoolShared = p)) as [<-|]; [rewrite decide_True by done; lia|].
    rewrite decide_False by congruence. destruct p; cbn [pool_get pools_zero pc_shared pc_security pc_ingest pc_query pc_maintenance]; apply get_zero.
Qed.

(** ** What an ordinary plan charges *)

(** A plan splits the request over the shared pool and the pool of the class, within what both
    the whole pools and the tenant's share of them have left. *)
Record pool_plan (class : WorkClass) (requested : ResourceAmounts) (adm : PoolAdmission) (c : PoolCharge) : Prop := {
  pp_pool : for_class class = Some (pch_class_pool c);
  pp_split d : get (pch_shared c) d + get (pch_protected c) d = get requested d;
  pp_nonneg d : 0 <= get requested d -> 0 <= get (pch_shared c) d /\ 0 <= get (pch_protected c) d;
  pp_global p d : get (pool_get (charge_capacities c) p) d <=
    Z.max 0 (get (pool_get (pa_global_capacity adm) p) d - get (pool_get (pa_global_usage adm) p) d);
  pp_tenant p d : get (pool_get (charge_capacities c) p) d <=
    Z.max 0 (get (pool_get (pa_tenant_capacity adm) p) d - get (pool_get (pa_tenant_usage adm) p) d);
}.

Lemma for_class_not_shared class p : for_class class = Some p -> p <> PoolShared.
Proof. destruct class; simpl; intros; by simplify_eq. Qed.

(** The amounts of one dimension of a successful plan. *)
Lemma plan_pool_dimension_ok class pool requested adm pressure eligible d s r :
  plan_pool_dimension class pool requested adm pressure eligible d = Ok (s, r) ->
  let gc := get (pool_get (pa_global_capacity adm) PoolShared) d - get (pool_get (pa_global_usage adm) PoolShared) d in
  let tc := get (pool_get (pa_tenant_capacity adm) PoolShared) d - get (pool_get (pa_tenant_usage adm) PoolShared) d in
  let gp := get (pool_get (pa_global_capacity adm) pool) d - get (pool_get (pa_global_usage adm) pool) d in
  let tp := get (pool_get (pa_tenant_capacity adm) pool) d - get (pool_get (pa_tenant_usage adm) pool) d in
  0 <= gc /\ 0 <= tc /\ 0 <= gp /\ 0 <= tp /\ s + r = get requested d /\ r <= gp /\ r <= tp
  /\ s = if eligible then Z.min (Z.min (get requested d) gc) tc else 0.
Proof.
  unfold plan_pool_dimension, available. destruct adm as [gc gu tc tu]. cbn [pa_global_capacity pa_global_usage pa_tenant_capacity pa_tenant_usage].
  destruct (checked_sub (get (pool_get gc PoolShared) d) _) as [x1|] eqn:H1; [|done]. cbn [ok_or mbind result_bind].
  destruct (checked_sub (get (pool_get tc PoolShared) d) _) as [x2|] eqn:H2; [|done]. cbn [ok_or mbind result_bind].
  destruct (checked_sub (get (pool_get gc pool) d) _) as [x3|] eqn:H3; [|done]. cbn [ok_or mbind result_bind].
  destruct (_ <? _) eqn:H4; [by destruct eligible|].
  destruct (checked_sub (get (pool_get tc pool) d) _) as [x4|] eqn:H5; [|done]. cbn [ok_or mbind result_bind].
  destruct (x4 <? _) eqn:H6; [by destruct eligible|]. intros [= <- <-]. inv_checked. bool_to_prop.
  subst. destruct eligible; repeat split; lia.
Qed.

Lemma plan_pool_charge_spec class requested adm pressure eligible c :
  plan_pool_charge class requested adm pressure eligible = Ok c -> pool_plan class requested adm c.
Proof.
  unfold plan_pool_charge. destruct (for_class class) as [pool|] eqn:Hp; [|done].
  destruct (fill_split _) as [[sh pr]|] eqn:Hf; [|done]. intros [= <-]. rewrite fill_split_ok in Hf.
  assert (H : forall d, _) by (intros d; exact (plan_pool_dimension_ok _ _ _ _ _ _ _ _ _ (Hf d))).
  cbv zeta in H. pose proof (for_class_not_shared _ _ Hp) as Hns.
  split; cbn [pch_class_pool pch_shared pch_protected]; [done|intros d; apply H|..].
  - intros d Hr. specialize (H d). destruct eligible; lia.
  - intros p d. specialize (H d). rewrite get_charge_capacities by done. cbn [pch_class_pool pch_shared pch_protected].
    destruct (decide (p = PoolShared)) as [->|].
    + rewrite decide_False by congruence. destruct eligible; lia.
    + destruct (decide (p = pool)) as [->|]; destruct eligible; lia.
  - intros p d. specialize (H d). rewrite get_charge_capacities by done. cbn [pch_class_pool pch_shared pch_protected].
    destruct (decide (p = PoolShared)) as [->|].
    + rewrite decide_False by congruence. destruct eligible; lia.
    + destruct (decide (p = pool)) as [->|]; destruct eligible; lia.
Qed.

(** ** What a recovery plan charges *)

(** The views leave room to subtract what is in use, so that no computation of the plan is
    treated as corrupted accounting. *)
Definition view_ok (kind : RecoveryWorkKind) (v : RecoveryPoolView) (d : ResourceDimension) : Prop :=
  0 <= get (ru_shared (rv_usage v)) d /\ 0 <= get (rv_shared_occupied_by_ordinary v) d
  /\ 0 <= get (usage_protected (rv_usage v) kind) d
  /\ get (ru_shared (rv_usage v)) d + get (rv_shared_occupied_by_ordinary v) d <= get (rv_shared_capacity v) d
  /\ get (usage_protected (rv_usage v) kind) d <= get (rv_protected_capacity v) d
  /\ get (rv_shared_capacity v) d + get (rv_protected_capacity v) d <= u64_max.

Definition shared_room (v : RecoveryPoolView) (d : ResourceDimension) : Z :=
  get (rv_shared_capacity v) d - get (ru_shared (rv_usage v)) d - get (rv_shared_occupied_by_ordinary v) d.
Definition protected_room (kind : RecoveryWorkKind) (v : RecoveryPoolView) (d : ResourceDimension) : Z :=
  get (rv_protected_capacity v) d - get (usage_protected (rv_usage v) kind) d.

(** A charge to the shared and the protected capacity that both views can hold. *)
Definition fits (kind : RecoveryWorkKind) (global scope : RecoveryPoolView) (d : ResourceDimension) (s p : Z) : Prop :=
  0 <= s <= Z.min (shared_room global d) (shared_room scope d)
  /\ 0 <= p <= Z.min (protected_room kind global d) (protected_room kind scope d).

Lemma plan_recovery_dimension_spec kind requested global scope d :
  view_ok kind global d -> view_ok kind scope d -> 0 <= get requested d ->
  match plan_recovery_dimension kind requested global scope d with
  | Ok (s, p) => s + p = get requested d /\ fits kind global scope d s p
      /\ s = Z.min (get requested d) (Z.min (shared_room global d) (shared_room scope d))
  | Err e => (e = RLGlobal d \/ e = RLScope d)
      /\ forall s p, s + p = get requested d -> ~ fits kind global scope d s p
  end.
Proof.
  intros (H1 & H2 & H3 & H4 & H5 & H6) (H1' & H2' & H3' & H4' & H5' & H6') Hr.
  unfold plan_recovery_dimension, view_shared_available, view_protected_available, fits, shared_room, protected_room.
  rewrite !checked_sub_ok by lia. cbn [mbind option_bind]. rewrite !checked_sub_ok by lia. cbn [ok_or mbind result_bind].
  rewrite !checked_add_ok by lia. cbn [ok_or mbind result_bind].
  destruct (Z.ltb_spec (get (rv_shared_capacity global) d - get (ru_shared (rv_usage global)) d - get (rv_shared_occupied_by_ordinary global) d
    + (get (rv_protected_capacity global) d - get (usage_protected (rv_usage global) kind) d)) (get requested d)); [split; [auto|lia]|].
  destruct (Z.ltb_spec (get (rv_shared_capacity scope) d - get (ru_shared (rv_usage scope)) d - get (rv_shared_occupied_by_ordinary scope) d
    + (get (rv_protected_capacity scope) d - get (usage_protected (rv_usage scope) kind) d)) (get requested d)); [split; [auto|lia]|].
  unfold required_shared.
  destruct (Z.ltb_spec (get (rv_protected_capacity global) d - get (usage_protected (rv_usage global) kind) d) (get requested d));
  destruct (Z.ltb_spec (get (rv_protected_capacity scope) d - get (usage_protected (rv_usage scope) kind) d) (get requested d));
  rewrite ?checked_sub_ok by lia; cbn [ok_or mbind result_bind];
  match goal with |- context [if ?a <? ?b then (if _ then _ else _) else _] => destruct (Z.ltb_spec a b) end;
  try (match goal with |- context [if ?a <? ?b then Err _ else Err _] => destruct (Z.ltb_spec a b) end; (split; [by auto|intros s p Hsum [Hs Hp]; lia]));
  rewrite ?checked_sub_ok by lia; cbn [ok_or mbind result_bind]; lia.
Qed.

(** Also (functional). A recovery request is admitted by the pool plan exactly when, in every
    dimension, some split of it fits the shared and the protected capacity left both globally
    and in the scope of the claim. The plan then charges exactly the request, and takes as much
    as possible from the shared capacity, so that the protected pools are spent last. *)
Theorem recovery_plan_is_complete kind requested global scope :
  (forall d, view_ok kind global d) -> (forall d, view_ok kind scope d) -> (forall d, 0 <= get requested d) ->
  (forall c, plan_recovery_charge kind requested global scope = Ok c ->
    rch_kind c = kind /\ forall d, get (rch_shared c) d + get (rch_protected c) d = get requested d
      /\ fits kind global scope d (get (rch_shared c) d) (get (rch_protected c) d)
      /\ forall s p, s + p = get requested d -> fits kind global scope d s p -> s <= get (rch_shared c) d)
  /\ ((exists c, plan_recovery_charge kind requested global scope = Ok c)
      <-> forall d, exists s p, s + p = get requested d /\ fits kind global scope d s p).
Proof.
  intros Hg Hs Hr.
  assert (Hd : forall d, _) by (intros d; exact (plan_recovery_dimension_spec kind requested global scope d (Hg d) (Hs d) (Hr d))).
  unfold plan_recovery_charge. destruct (fill_split _) as [[sh pr]|e] eqn:Hf.
  - rewrite fill_split_ok in Hf. cbn [mbind result_bind].
    assert (Hall : forall d, get sh d + get pr d = get requested d /\ fits kind global scope d (get sh d) (get pr d)
      /\ get sh d = Z.min (get requested d) (Z.min (shared_room global d) (shared_room scope d))).
    { intros d. specialize (Hd d). by rewrite Hf in Hd. }
    split; [|split; [intros _ d; exists (get sh d), (get pr d); destruct (Hall d) as (? & ? & _); auto|eauto]].
    intros c [= <-]. split; [done|]. intros d. cbn [rch_shared rch_protected].
    destruct (Hall d) as (Hsum & Hfit & Hmax). do 2 (split; [done|]). unfold fits in *. intros s p Heq Hsp. lia.
  - apply fill_split_err in Hf as [d He]. specialize (Hd d). rewrite He in Hd. destruct Hd as [_ Hno].
    split; [done|]. split; [by intros [? ?]|]. intros H. destruct (H d) as (s & p & Heq & Hsp). destruct (Hno s p Heq Hsp).
Qed.

(** A tenant with one unit of shared room left and two protected units splits a request of
    three as one shared and two protected. *)
Module SampleViews.
Definition view : RecoveryPoolView :=
  mkView (uniform 5) (uniform 4) (mkRecoveryUsage (uniform 1) (recovery_with recovery_table_zero Repair (uniform 2))) (uniform 3).
End SampleViews.

Lemma recovery_plan_is_complete_witness :
  plan_recovery_charge Repair (uniform 3) SampleViews.view SampleViews.view
    = Ok (mkRecoveryCharge Repair (uniform 1) (uniform 2))
  /\ forall d, get (uniform 1) d + get (uniform 2) d = get (uniform 3) d.
Proof.
  assert (H : plan_recovery_charge Repair (uniform 3) SampleViews.view SampleViews.view
    = Ok (mkRecoveryCharge Repair (uniform 1) (uniform 2))) by (vm_compute; reflexivity).
  split; [exact H|].
  assert (Hv : forall d, view_ok Repair SampleViews.view d).
  { intros d. destruct d; vm_compute; repeat split; congruence. }
  destruct (recovery_plan_is_complete Repair (uniform 3) SampleViews.view SampleViews.view Hv Hv
    ltac:(intros d; destruct d; vm_compute; congruence)) as [Hc _].
  intros d. exact (proj1 (proj2 (Hc _ H) d)).
Defined.

(** ** Fair shares partition the pools *)

(** Weights are positive [u16] values. *)
Definition weights_ok (quotas : list TenantQuota) : Prop := Forall (fun q => 1 <= q_weight q <= u16_max) quotas.

Lemma total_weight_sum quotas tw : total_weight quotas = Ok tw -> tw = zsum q_weight quotas /\ 0 < tw.
Proof.
  unfold total_weight. destruct (try_fold_opt _ _ _) as [w|] eqn:Hf; [|done].
  destruct (0 <? w) eqn:Hw; [|done]. intros [= <-]. bool_to_prop. split; [|done].
  assert (H : forall l acc r, try_fold_opt (fun total q => checked_add u64_max total (q_weight q)) acc l = Some r ->
    r = acc + zsum q_weight l).
  { induction l as [|q l IH]; intros acc r; cbn [try_fold_opt]; [intros [= ->]; cbn; lia|].
    destruct (checked_add _ _ _) eqn:Hc; [|done]. inv_checked. intros Hr%IH. rewrite zsum_cons. lia. }
  apply H in Hf. lia.
Qed.

Lemma weight_bounded quotas q : weights_ok quotas -> q ∈ quotas -> q_weight q <= zsum q_weight quotas.
Proof.
  intros Hw [i Hi]%list_elem_of_lookup. eapply (zsum_member q_weight); [|exact Hi].
  intros a Ha. pose proof (proj1 (Forall_forall _ _) Hw a Ha) as Hq; cbv beta in Hq. lia.
Qed.

(** A weighted share never overflows and is exact. *)
Lemma weighted_floor_exact capacity weight tw :
  0 <= capacity <= u64_max -> 1 <= weight <= u16_max -> weight <= tw ->
  weighted_floor capacity weight tw = Some (capacity * weight / tw) /\ 0 <= capacity * weight / tw <= capacity.
Proof.
  intros Hc Hw Htw. unfold weighted_floor, u16_max, u64_max in *.
  rewrite checked_mul_ok by (transitivity (18446744073709551615 * 65535); [nia|vm_compute; congruence]).
  cbn [mbind option_bind]. destruct (Z.eqb_spec tw 0); [lia|].
  assert (0 <= capacity * weight / tw <= capacity) as Hb.
  { split; [apply Z.div_pos; nia|]. apply Z.div_le_upper_bound; nia. }
  split; [|done]. destruct (Z.leb_spec (capacity * weight / tw) 18446744073709551615); [done|lia].
Qed.

Lemma weighted_amounts_exact total weight tw :
  amounts_ok total -> 1 <= weight <= u16_max -> weight <= tw ->
  exists share, weighted_amounts total weight tw = Some share
    /\ forall d, get share d = get total d * weight / tw /\ 0 <= get share d <= get total d.
Proof.
  intros Ht Hw Htw. set (share := zip_map (fun a _ => a * weight / tw) total total). exists share.
  assert (Hs : forall d, weighted_floor (get total d) weight tw = Some (get share d) /\ 0 <= get share d <= get total d).
  { intros d. unfold share. rewrite get_zip_map. by apply weighted_floor_exact. }
  split; [|intros d; split; [unfold share; by rewrite get_zip_map|apply Hs]].
  apply (fill_dimensions (fun d => weighted_floor (get total d) weight tw)). intros d. apply Hs.
Qed.

(** The floors of weighted shares never add up to more than what is shared. *)
Lemma weighted_sum_le capacity quotas tw : 0 <= capacity -> weights_ok quotas -> tw = zsum q_weight quotas -> 0 < tw ->
  zsum (fun q => capacity * q_weight q / tw) quotas <= capacity.
Proof.
  intros Hc Hw Htw Hpos.
  assert (H : tw * zsum (fun q => capacity * q_weight q / tw) quotas <= capacity * zsum q_weight quotas).
  { clear Htw. induction Hw as [|q l Hq Hw IH]; [cbn; lia|]. rewrite !zsum_cons.
    pose proof (Z.mul_div_le (capacity * q_weight q) tw Hpos). nia. }
  rewrite <- Htw in H. nia.
Qed.

Definition pools_ok (c : PoolCapacities) : Prop := forall p, amounts_ok (pool_get c p).

Lemma fair_share_exact c weight tw : pools_ok c -> 1 <= weight <= u16_max -> weight <= tw ->
  exists share, fair_share c weight tw = Some share
    /\ forall p d, get (pool_get share p) d = get (pool_get c p) d * weight / tw.
Proof.
  intros Hc Hw Htw. unfold fair_share.
  destruct (Z.eqb_spec weight 0); [lia|]. destruct (Z.eqb_spec tw 0); [lia|]. destruct (Z.ltb_spec tw weight); [lia|]. cbn [orb].
  assert (Hex : forall p, exists share, weighted_amounts (pool_get c p) weight tw = Some share
    /\ forall d, get share d = get (pool_get c p) d * weight / tw /\ 0 <= get share d <= get (pool_get c p) d)
    by (intros p; by apply weighted_amounts_exact).
  destruct (Hex PoolShared) as (a & Ha & Ha'), (Hex PoolSecurity) as (b & Hb & Hb'), (Hex PoolIngest) as (i & Hi & Hi'),
    (Hex PoolQuery) as (q & Hq & Hq'), (Hex PoolMaintenance) as (m & Hm & Hm').
  exists (mkPools a b i q m). split; [apply fill_pools_Some; intros p; by destruct p|].
  intros p d. destruct p; cbn [pool_get pc_shared pc_security pc_ingest pc_query pc_maintenance];
    [apply Ha'|apply Hb'|apply Hi'|apply Hq'|apply Hm'].
Qed.

Lemma ordinary_capacities_exact quotas c tw : pools_ok c -> weights_ok quotas ->
  (forall q, q ∈ quotas -> q_weight q <= tw) ->
  exists fair, ordinary_capacities quotas c tw = Ok fair
    /\ Forall2 (fun q share => forall p d, get (pool_get share p) d = get (pool_get c p) d * q_weight q / tw) quotas fair.
Proof.
  intros Hc Hw. unfold ordinary_capacities. induction Hw as [|q l Hq Hw IH]; intros Hle; [exists []; split; [done|constructor]|].
  destruct IH as (fair & Hf & Hrel); [intros q' Hq'; apply Hle; by constructor|].
  destruct (fair_share_exact c (q_weight q) tw Hc Hq ltac:(apply Hle; constructor)) as (share & Hs & Hex).
  exists (share :: fair). cbn [try_map]. rewrite Hs. cbn [ok_or]. rewrite Hf. split; [done|by constructor].
Qed.

(** Deriving the tenants' fair shares of the ordinary pools never fails for
    positive [u16] weights. Each tenant gets exactly the floor of its weighted part of every
    pool in every dimension, and together the shares never exceed the pool, so a tenant that
    stays within its share cannot take capacity another tenant was promised. *)
Theorem fair_shares_partition_pools quotas pools tw :
  weights_ok quotas -> pools_ok pools -> total_weight quotas = Ok tw ->
  exists fair, ordinary_capacities quotas pools tw = Ok fair
    /\ Forall2 (fun q share => forall p d, get (pool_get share p) d = get (pool_get pools p) d * q_weight q / tw) quotas fair
    /\ forall p d, zsum (fun share => get (pool_get share p) d) fair <= get (pool_get pools p) d.
Proof.
  intros Hw Hp Htw. apply total_weight_sum in Htw as [Htw Hpos].
  destruct (ordinary_capacities_exact quotas pools tw Hp Hw) as (fair & Hf & Hrel).
  { intros q Hq. rewrite Htw. by apply weight_bounded. }
  exists fair. do 2 (split; [done|]). intros p d.
  assert (Heq : zsum (fun share => get (pool_get share p) d) fair
    = zsum (fun q => get (pool_get pools p) d * q_weight q / tw) quotas).
  { clear Htw Hf Hw. induction Hrel as [|q share l fair Hq _ IH]; [done|]. by rewrite !zsum_cons, IH, Hq. }
  rewrite Heq. apply weighted_sum_le; [apply Hp|done..].
Qed.

Lemma fair_shares_partition_pools_witness :
  exists fair, ordinary_capacities [mkQuota (mkTenantId []) 1 (uniform 9); mkQuota (mkTenantId []) 2 (uniform 9)]
      (mkPools (uniform 10) (uniform 4) (uniform 3) (uniform 2) (uniform 1)) 3 = Ok fair
    /\ zsum (fun share => get (pool_get share PoolShared) MemoryBytes) fair <= 10.
Proof.
  destruct (fair_shares_partition_pools [mkQuota (mkTenantId []) 1 (uniform 9); mkQuota (mkTenantId []) 2 (uniform 9)]
    (mkPools (uniform 10) (uniform 4) (uniform 3) (uniform 2) (uniform 1)) 3
    ltac:(repeat constructor; vm_compute; congruence) ltac:(intros p d; destruct p, d; vm_compute; split; congruence)
    ltac:(vm_compute; reflexivity)) as (fair & Hf & _ & Hsum).
  exists fair. split; [exact Hf|exact (Hsum PoolShared MemoryBytes)].
Defined.

Definition recovery_ok (c : RecoveryPoolCapacities) : Prop := forall k d, 1 <= get (recovery_get c k) d <= u64_max.

(** The part of a kind's pool that is divided among the tenants. *)
Definition tenant_part (pools : RecoveryPoolCapacities) (k : RecoveryWorkKind) (d : ResourceDimension) : Z :=
  if permits_tenant_scope k && permits_system_scope k then get (recovery_get pools k) d - 1
  else if permits_tenant_scope k then get (recovery_get pools k) d else 0.

Lemma recovery_kind_share_exact pools tw quota k share :
  recovery_ok pools -> 1 <= q_weight quota <= u16_max -> q_weight quota <= tw ->
  recovery_kind_share pools tw quota k = Ok share ->
  forall d, get share d = tenant_part pools k d * q_weight quota / tw
    /\ 0 <= get share d <= get (recovery_get pools k) d /\ (permits_tenant_scope k = true -> 1 <= get share d).
Proof.
  intros Hp Hw Htw. unfold recovery_kind_share.
  set (cap := if permits_tenant_scope k && permits_system_scope k then _ else _).
  destruct cap as [c|] eqn:Hcap; [|done]. cbn [mbind result_bind]. subst cap.
  assert (Hc : forall d, get c d = tenant_part pools k d /\ 0 <= get c d <= get (recovery_get pools k) d).
  { intros d. specialize (Hp k d). unfold tenant_part. destruct (permits_tenant_scope k && permits_system_scope k).
    - destruct (amounts_sub _ _) eqn:Hs; [|done]. injection Hcap as <-. rewrite amounts_sub_Some in Hs.
      specialize (Hs d). rewrite get_uniform in Hs. lia.
    - destruct (permits_tenant_scope k); injection Hcap as <-; rewrite ?get_zero; lia. }
  destruct (weighted_amounts_exact c (q_weight quota) tw) as (s & Hs & Hex); [|done..|].
  { intros d. specialize (Hc d). specialize (Hp k d). lia. }
  rewrite Hs. cbn [ok_or mbind result_bind].
  clear Hcap. destruct (if permits_tenant_scope k then _ else _) as [[]|] eqn:Hpos; [|done]. intros [= <-] d.
  destruct (Hc d) as [Hcd Hcb]. destruct (Hex d) as [Hsd Hsb]. rewrite Hsd at 1. rewrite Hcd. split; [done|]. split; [lia|].
  intros Ht. rewrite Ht in Hpos. rewrite for_dimensions_ok in Hpos. specialize (Hpos d).
  destruct (get s d =? 0) eqn:H0; [done|]. bool_to_prop. lia.
Qed.

Lemma recovery_fair_sum quotas pools tw rf k d :
  recovery_ok pools -> weights_ok quotas -> total_weight quotas = Ok tw ->
  recovery_fair_capacities quotas pools tw = Ok rf ->
  Forall (fun c => 0 <= get (recovery_get c k) d) rf
  /\ zsum (fun c => get (recovery_get c k) d) rf <= tenant_part pools k d.
Proof.
  intros Hp Hw [Htw Hpos]%total_weight_sum Hrf. apply try_map_Forall2 in Hrf.
  assert (Hle : forall q, q ∈ quotas -> 1 <= q_weight q <= u16_max /\ q_weight q <= tw).
  { intros q Hq. split; [by apply (proj1 (Forall_forall _ _) Hw q)|]. rewrite Htw. by apply weight_bounded. }
  assert (Hrel : Forall2 (fun q c => 0 <= get (recovery_get c k) d /\ get (recovery_get c k) d = tenant_part pools k d * q_weight q / tw) quotas rf).
  { clear Htw Hw. induction Hrf as [|q c l rf Hc _ IH]; [constructor|].
    constructor; [|apply IH; intros; apply Hle; by constructor].
    destruct (Hle q ltac:(constructor)) as [Hq1 Hq2]. pose proof (proj1 (fill_kinds_ok _ _) Hc k) as Hk.
    destruct (recovery_kind_share_exact pools tw q k _ Hp Hq1 Hq2 Hk d) as (He & Hb & _). split; [lia|done]. }
  split.
  - clear -Hrel. induction Hrel as [|q c l rf [Hc _] _ IH]; by constructor.
  - assert (Heq : zsum (fun c => get (recovery_get c k) d) rf = zsum (fun q => tenant_part pools k d * q_weight q / tw) quotas).
    { clear -Hrel. induction Hrel as [|q c l rf [_ Hc] _ IH]; [done|]. by rewrite !zsum_cons, IH, Hc. }
    rewrite Heq. apply weighted_sum_le; [|done..]. unfold tenant_part. specialize (Hp k d).
    destruct (permits_tenant_scope k), (permits_system_scope k); cbn [andb]; lia.
Qed.

Lemma reserved_sum k rf : forall acc, (forall d, 0 <= get acc d) ->
  (forall d, Forall (fun c => 0 <= get (recovery_get c k) d) rf) ->
  (forall d, get acc d + zsum (fun c => get (recovery_get c k) d) rf <= u64_max) ->
  exists r, try_fold_opt (fun reserved floors => amounts_add reserved (recovery_get floors k)) acc rf = Some r
    /\ forall d, get r d = get acc d + zsum (fun c => get (recovery_get c k) d) rf.
Proof.
  induction rf as [|c rf IH]; intros acc Ha Hnn Hb; [exists acc; split; [done|intros d; cbn; lia]|].
  assert (Hc : forall d, 0 <= get (recovery_get c k) d /\ 0 <= zsum (fun c => get (recovery_get c k) d) rf).
  { intros d. specialize (Hnn d). apply Forall_cons in Hnn as [H1 H2]. split; [done|].
    apply zsum_nonneg. by apply Forall_forall. }
  cbn [try_fold_opt]. rewrite amounts_add_ok.
  2:{ intros d. specialize (Hb d). specialize (Hc d). rewrite zsum_cons in Hb. lia. }
  destruct (IH (zip_map Z.add acc (recovery_get c k))) as (r & Hr & Hs).
  - intros d. rewrite get_zip_map. specialize (Ha d). specialize (Hc d). lia.
  - intros d. specialize (Hnn d). by apply Forall_cons in Hnn as [_ ?].
  - intros d. rewrite get_zip_map. specialize (Hb d). rewrite zsum_cons in Hb. lia.
  - exists r. split; [done|]. intros d. rewrite Hs, get_zip_map, zsum_cons. lia.
Qed.

Lemma tenant_part_bound pools k d : recovery_ok pools ->
  0 <= tenant_part pools k d <= get (recovery_get pools k) d
  /\ (permits_system_scope k && permits_tenant_scope k = true -> tenant_part pools k d < get (recovery_get pools k) d).
Proof.
  intros Hp. specialize (Hp k d). unfold tenant_part.
  destruct (permits_tenant_scope k), (permits_system_scope k); cbn [andb]; split; lia || done.
Qed.

Lemma system_kind_capacity_ok pools rf k : recovery_ok pools ->
  (forall d, Forall (fun c => 0 <= get (recovery_get c k) d) rf
     /\ zsum (fun c => get (recovery_get c k) d) rf <= tenant_part pools k d) ->
  exists slot, system_kind_capacity pools rf k = Ok slot /\ forall d, 1 <= get slot d
    /\ get slot d = get (recovery_get pools k) d
         - if permits_system_scope k && permits_tenant_scope k then zsum (fun c => get (recovery_get c k) d) rf else 0.
Proof.
  intros Hp Hsum. unfold system_kind_capacity. set (both := permits_system_scope k && permits_tenant_scope k).
  assert (Hr : exists r, (if both then ok_or InvalidConfiguration (try_fold_opt
      (fun reserved floors => amounts_add reserved (recovery_get floors k)) amounts_zero rf) else Ok amounts_zero) = Ok r
    /\ forall d, get r d = (if both then zsum (fun c => get (recovery_get c k) d) rf else 0) /\ get r d < get (recovery_get pools k) d).
  { destruct both eqn:Hb.
    - destruct (reserved_sum k rf amounts_zero) as (r & Hr & Hrd).
      { intros d. by rewrite get_zero. }
      { intros d. apply Hsum. }
      { intros d. rewrite get_zero. destruct (Hsum d) as [_ H]. pose proof (proj1 (tenant_part_bound pools k d Hp)).
        specialize (Hp k d). lia. }
      exists r. rewrite Hr. split; [done|]. intros d. rewrite Hrd, get_zero. split; [lia|].
      destruct (Hsum d) as [_ H]. pose proof (proj2 (tenant_part_bound pools k d Hp) Hb). lia.
    - exists amounts_zero. split; [done|]. intros d. rewrite get_zero. specialize (Hp k d). lia. }
  destruct Hr as (r & -> & Hr). cbn [mbind result_bind].
  rewrite amounts_sub_ok by (intros d; specialize (Hr d); lia). cbn [ok_or mbind result_bind].
  assert (Hslot : forall d, 1 <= get (zip_map Z.sub (recovery_get pools k) r) d).
  { intros d. rewrite get_zip_map. specialize (Hr d). lia. }
  exists (zip_map Z.sub (recovery_get pools k) r). split.
  - destruct (permits_system_scope k); [|done]. rewrite (proj2 (for_dimensions_ok _)); [done|].
    intros d. specialize (Hslot d). destruct (Z.eqb_spec (get (zip_map Z.sub (recovery_get pools k) r) d) 0); [lia|done].
  - intros d. split; [apply Hslot|]. rewrite get_zip_map. specialize (Hr d). lia.
Qed.

(** Also (liveness). Whatever the tenants' weights, dividing the recovery pools among them leaves
    the system scope at least one unit of every dimension of every kind it may use. Where both
    scopes use a kind, the tenants' shares and the system's part add up to the whole pool, and
    in every kind the tenants' shares stay within the pool. *)
Theorem recovery_shares_leave_system_progress quotas pools tw rf :
  weights_ok quotas -> recovery_ok pools -> total_weight quotas = Ok tw ->
  recovery_fair_capacities quotas pools tw = Ok rf ->
  exists sys, system_recovery_capacities pools rf = Ok sys
    /\ forall k d, 1 <= get (recovery_get sys k) d
      /\ (permits_system_scope k && permits_tenant_scope k = true ->
          zsum (fun c => get (recovery_get c k) d) rf + get (recovery_get sys k) d = get (recovery_get pools k) d)
      /\ zsum (fun c => get (recovery_get c k) d) rf <= get (recovery_get pools k) d.
Proof.
  intros Hw Hp Htw Hrf.
  assert (Hsum : forall k d, _) by (intros k d; exact (recovery_fair_sum quotas pools tw rf k d Hp Hw Htw Hrf)).
  assert (Hk : forall k, _) by (intros k; exact (system_kind_capacity_ok pools rf k Hp (Hsum k))).
  destruct (Hk DurabilityCompletion) as (a & Ha & Ha'), (Hk Retention) as (b & Hb & Hb'), (Hk EmergencyCompaction) as (c & Hc & Hc'),
    (Hk Purge) as (e & He & He'), (Hk Repair) as (f & Hf & Hf'), (Hk Fencing) as (g & Hg & Hg'), (Hk SafeShutdown) as (h & Hh & Hh').
  exists (mkRecoveryPools a b c e f g h). split; [apply fill_kinds_ok; intros k; by destruct k|].
  intros k d. destruct (Hsum k d) as [_ Hs]. pose proof (proj1 (tenant_part_bound pools k d Hp)) as Ht.
  assert (Hd : 1 <= get (recovery_get (mkRecoveryPools a b c e f g h) k) d
    /\ get (recovery_get (mkRecoveryPools a b c e f g h) k) d = get (recovery_get pools k) d
         - if permits_system_scope k && permits_tenant_scope k then zsum (fun c => get (recovery_get c k) d) rf else 0)
    by (destruct k; [apply Ha'|apply Hb'|apply Hc'|apply He'|apply Hf'|apply Hg'|apply Hh']).
  destruct Hd as [Hd1 Hd2]. split; [done|]. split; [|lia]. intros Hb2. rewrite Hb2 in Hd2. lia.
Qed.

Lemma recovery_shares_leave_system_progress_witness :
  exists sys, system_recovery_capacities
      (mkRecoveryPools (uniform 3) (uniform 3) (uniform 3) (uniform 3) (uniform 3) (uniform 3) (uniform 3))
      (replicate 2 (mkRecoveryPools (uniform 1) (uniform 1) (uniform 1) (uniform 1) (uniform 1) (uniform 0) (uniform 0))) = Ok sys
    /\ 1 <= get (recovery_get sys Repair) MemoryBytes.
Proof.
  destruct (recovery_shares_leave_system_progress [mkQuota (mkTenantId []) 1 (uniform 9); mkQuota (mkTenantId []) 1 (uniform 9)]
    (mkRecoveryPools (uniform 3) (uniform 3) (uniform 3) (uniform 3) (uniform 3) (uniform 3) (uniform 3)) 2
    (replicate 2 (mkRecoveryPools (uniform 1) (uniform 1) (uniform 1) (uniform 1) (uniform 1) (uniform 0) (uniform 0)))
    ltac:(repeat constructor; vm_compute; congruence) ltac:(intros k d; destruct k, d; vm_compute; split; congruence)
    ltac:(vm_compute; reflexivity) ltac:(vm_compute; reflexivity)) as (sys & Hs & Hk).
  exists sys. split; [exact Hs|exact (proj1 (Hk Repair MemoryBytes))].
Defined.
