(* ===== verification/GovernorState.v ===== *)
(** Resource governor: the accounting state, the grant ledger and the drop ledger.

    Models [accounting.rs] (state and lock discipline), [ledger.rs], [ledger/drop_ledger.rs],
    [lifecycle.rs] and the parts of [accounting/setup.rs] that build the initial state. Every
    handler of the governor runs with the accounting lock held, so a handler is a function from
    state to state; a reservation dropped without the lock only marks its slot, and the next
    handler to take the lock drains the marks. The fields of the code's [AccountingState] are
    grouped in four records. *)

From stdpp Require Import sets.
From S2P Require Import Prelude Outcome Identity GovernorModel GovernorPools.

(** ** Grant records *)

(** [positron-kernel/src/resource_governor/ledger.rs:26-40 GrantKind] *)
Inductive GrantKind :=
| GSecurityLifecycle | GIngest | GInteractiveQueryTail | GOrdinaryMaintenanceBackup
| GDurabilityCompletion | GRetention | GEmergencyCompaction | GPurge | GRepair | GFencing | GSafeShutdown.

#[global] Instance GrantKind_eq_dec : EqDecision GrantKind.
Proof. solve_decision. Defined.

(** [positron-kernel/src/resource_governor/ledger.rs:284-291 GrantKind::from_ordinary] *)
Definition from_ordinary (k : WorkKind) : GrantKind :=
  match k with
  | SecurityLifecycle => GSecurityLifecycle | Ingest => GIngest
  | InteractiveQueryTail => GInteractiveQueryTail | OrdinaryMaintenanceBackup => GOrdinaryMaintenanceBackup
  end.

(** [positron-kernel/src/resource_governor/ledger.rs:293-303 GrantKind::from_recovery] *)
Definition from_recovery (k : RecoveryWorkKind) : GrantKind :=
  match k with
  | DurabilityCompletion => GDurabilityCompletion | Retention => GRetention
  | EmergencyCompaction => GEmergencyCompaction | Purge => GPurge | Repair => GRepair
  | Fencing => GFencing | SafeShutdown => GSafeShutdown
  end.

(** [positron-kernel/src/resource_governor/ledger.rs:305-313 GrantKind::ordinary_kind] *)
Definition ordinary_kind (k : GrantKind) : option WorkKind :=
  match k with
  | GSecurityLifecycle => Some SecurityLifecycle | GIngest => Some Ingest
  | GInteractiveQueryTail => Some InteractiveQueryTail
  | GOrdinaryMaintenanceBackup => Some OrdinaryMaintenanceBackup
  | _ => None
  end.

(** [positron-kernel/src/resource_governor/ledger.rs:315-326 GrantKind::recovery_kind] *)
Definition recovery_kind (k : GrantKind) : option RecoveryWorkKind :=
  match k with
  | GDurabilityCompletion => Some DurabilityCompletion | GRetention => Some Retention
  | GEmergencyCompaction => Some EmergencyCompaction | GPurge => Some Purge | GRepair => Some Repair
  | GFencing => Some Fencing | GSafeShutdown => Some SafeShutdown
  | _ => None
  end.

(** [positron-kernel/src/resource_governor/ledger.rs:56-67 OperationRecord] *)
Inductive OperationRecord :=
| Root (generation : Z) (accepting_children : bool) (child_count : Z)
| Child (root_slot : nat) (generation : Z).

#[global] Instance OperationRecord_eq_dec : EqDecision OperationRecord.
Proof. solve_decision. Defined.

(** [positron-kernel/src/resource_governor/ledger.rs:42-51 GrantRecord] *)
Record GrantRecord := mkGrant {
  gr_amounts : ResourceAmounts;
  gr_shared : ResourceAmounts;
  gr_tenant_index : Z;
  gr_tenant : option TenantId;
  gr_principal : option PrincipalId;
  gr_kind : GrantKind;
  gr_operation : option OperationRecord;
}.

(** [positron-kernel/src/resource_governor/accounting.rs:191-195 ChargeAttribution] *)
Inductive ChargeAttribution :=
| AttrOrdinary (tenant_index : nat)
| AttrRecovery (tenant_index : option nat).

(** [positron-kernel/src/resource_governor/accounting.rs:184-189 ChargeOwner] *)
Record ChargeOwner := mkOwner {
  co_attribution : ChargeAttribution;
  co_pools : option PoolCharge;
  co_recovery_pools : option RecoveryPoolCharge;
}.

(** [positron-kernel/src/resource_governor/ledger.rs:24-24 SYSTEM_TENANT_INDEX] *)
Definition SYSTEM_TENANT_INDEX : Z := u16_max.

(** [u16::try_from] of an index. *)
Definition to_u16 (i : nat) : option Z := if Z.of_nat i <=? u16_max then Some (Z.of_nat i) else None.

(** [positron-kernel/src/resource_governor/ledger.rs:70-116 GrantRecord::new] *)
Definition GrantRecord_new (owner : ChargeOwner) (identity : ReservationIdentity) (amounts : ResourceAmounts)
    (operation : option OperationRecord) : option GrantRecord :=
  match co_attribution owner, identity with
  | AttrOrdinary tenant_index, IdentityOrdinary tenant principal kind =>
      index ← to_u16 tenant_index;
      pools ← co_pools owner;
      Some (mkGrant amounts (pch_shared pools) index (Some tenant) principal (from_ordinary kind) operation)
  | AttrRecovery tenant_index, IdentityRecovery _ kind =>
      index ← (match tenant_index with Some i => to_u16 i | None => Some SYSTEM_TENANT_INDEX end);
      pools ← co_recovery_pools owner;
      Some (mkGrant amounts (rch_shared pools) index None None (from_recovery kind) operation)
  | _, _ => None
  end.

(** [positron-kernel/src/resource_governor/ledger.rs:122-128 GrantRecord::tenant_index] *)
Definition grant_tenant_index (r : GrantRecord) : option nat :=
  if gr_tenant_index r =? SYSTEM_TENANT_INDEX then None else Some (Z.to_nat (gr_tenant_index r)).

(** [positron-kernel/src/resource_governor/ledger.rs:142-144 GrantRecord::is_operation_root] *)
Definition is_operation_root (r : GrantRecord) : bool :=
  match gr_operation r with Some (Root _ _ _) => true | _ => false end.

(** [positron-kernel/src/resource_governor/ledger.rs:146-158 GrantRecord::root_token] The token is
    minted by the authority [authority]. *)
Definition root_token (authority : Z) (r : GrantRecord) (slot : nat) : option OperationToken :=
  match gr_operation r with
  | Some (Root generation _ _) =>
      tenant ← gr_tenant r;
      principal ← gr_principal r;
      kind ← ordinary_kind (gr_kind r);
      Some (mkToken authority slot generation tenant principal kind)
  | _ => None
  end.

(** The record with other operation metadata. *)
Definition with_operation (r : GrantRecord) (o : option OperationRecord) : GrantRecord :=
  mkGrant (gr_amounts r) (gr_shared r) (gr_tenant_index r) (gr_tenant r) (gr_principal r) (gr_kind r) o.

(** [positron-kernel/src/resource_governor/ledger.rs:160-181 GrantRecord::released_root] *)
Definition released_root (r : GrantRecord) : option GrantRecord :=
  match gr_operation r with
  | Some (Root generation _ child_count) =>
      Some (mkGrant amounts_zero amounts_zero (gr_tenant_index r) (gr_tenant r) (gr_principal r) (gr_kind r)
        (Some (Root generation false child_count)))
  | _ => None
  end.

(** [positron-kernel/src/resource_governor/ledger.rs:183-199 GrantRecord::increment_root_child] *)
Definition increment_root_child (r : GrantRecord) : option GrantRecord :=
  match gr_operation r with
  | Some (Root generation true child_count) =>
      count ← checked_add u16_max child_count 1;
      Some (with_operation r (Some (Root generation true count)))
  | _ => None
  end.

(** [positron-kernel/src/resource_governor/ledger.rs:201-224 GrantRecord::decrement_root_child] *)
Definition decrement_root_child (r : GrantRecord) : option (GrantRecord * bool) :=
  match gr_operation r with
  | Some (Root generation accepting child_count) =>
      remaining ← checked_sub child_count 1;
      Some (with_operation r (Some (Root generation accepting remaining)), negb accepting && (remaining =? 0))
  | _ => None
  end.

(** [positron-kernel/src/resource_governor/ledger.rs:226-228 GrantRecord::is_ordinary] *)
Definition grant_is_ordinary (r : GrantRecord) : bool :=
  match ordinary_kind (gr_kind r) with Some _ => true | None => false end.

(** [positron-kernel/src/resource_governor/ledger.rs:230-235 GrantRecord::class] *)
Definition grant_class (r : GrantRecord) : WorkClass :=
  match ordinary_kind (gr_kind r) with Some kind => WorkKind_class kind | None => DurabilityRecovery end.

(** [positron-kernel/src/resource_governor/ledger.rs:237-239 GrantRecord::recovery_kind] *)
Definition grant_recovery_kind (r : GrantRecord) : option RecoveryWorkKind := recovery_kind (gr_kind r).

(** [positron-kernel/src/resource_governor/ledger.rs:241-266 GrantRecord::owner] *)
Definition grant_owner (r : GrantRecord) : option ChargeOwner :=
  protected ← amounts_sub (gr_amounts r) (gr_shared r);
  match ordinary_kind (gr_kind r) with
  | Some kind =>
      class_pool ← for_class (WorkKind_class kind);
      tenant_index ← grant_tenant_index r;
      Some (mkOwner (AttrOrdinary tenant_index) (Some (mkPoolCharge class_pool (gr_shared r) protected)) None)
  | None =>
      kind ← recovery_kind (gr_kind r);
      Some (mkOwner (AttrRecovery (grant_tenant_index r)) None (Some (mkRecoveryCharge kind (gr_shared r) protected)))
  end.

(** ** The accounting state *)

(** [positron-kernel/src/resource_governor/lifecycle.rs:10-15 GovernorLifecycle] *)
Inductive GovernorLifecycle := Open | ShuttingDown | Fenced.

#[global] Instance GovernorLifecycle_eq_dec : EqDecision GovernorLifecycle.
Proof. solve_decision. Defined.

(** [positron-kernel/src/resource_governor/lifecycle.rs:155-163 class_index] *)
Definition class_index (c : WorkClass) : nat :=
  match c with
  | DurabilityRecovery => 0 | SecurityLifecycleClass => 1 | IngestClass => 2
  | InteractiveQueryTailClass => 3 | OrdinaryMaintenanceBackupClass => 4
  end.

(** The tenants and the shares derived from their quotas. *)
Record TenantTopology := mkTopology {
  pending_tenant : option TenantId;
  tenant_quotas : list TenantQuota;
  tenant_fair_capacities : list PoolCapacities;
  recovery_tenant_shared_fair : list ResourceAmounts;
  recovery_tenant_pool_fair : list RecoveryPoolCapacities;
  recovery_system_pool_capacities : RecoveryPoolCapacities;
  tenant_limits : list ResourceAmounts;
}.

(** The grant slots; [free_slots] has the end of the code's vector first. *)
Record GrantLedger := mkLedger {
  grant_records : list (option GrantRecord);
  free_slots : list nat;
  next_operation_generation : Z;
}.

(** What is charged, in total and to each owner. *)
Record UsageTotals := mkUsage {
  total_usage : ResourceAmounts;
  recovery_usage : ResourceAmounts;
  ordinary_tenant_usage : list ResourceAmounts;
  recovery_tenant_usage : list ResourceAmounts;
  recovery_pool_usage : RecoveryPoolUsage;
  recovery_system_pool_usage : RecoveryPoolUsage;
  recovery_tenant_pool_usage : list RecoveryPoolUsage;
  pool_usage : PoolCapacities;
  ordinary_tenant_pool_usage : list PoolCapacities;
}.

(** How many reservations are outstanding. *)
Record OutstandingCounts := mkCounts {
  tenant_outstanding : list Z;
  outstanding : Z;
  outstanding_ordinary : Z;
  outstanding_recovery : Z;
  outstanding_uninterruptible : Z;
  class_counts : list Z;
}.

(** [positron-kernel/src/resource_governor/accounting.rs:93-129 AccountingState] *)
Record AccountingState := mkState {
  topology : TenantTopology;
  grants : GrantLedger;
  usage : UsageTotals;
  counts : OutstandingCounts;
  rejection_counts : list Z;
  disk_pressure : DiskPressureState;
  usable_disk_bytes : Z;
  pressure_transition_count : Z;
  lifecycle : GovernorLifecycle;
}.

Definition set_topology (st : AccountingState) (x : TenantTopology) : AccountingState :=
  mkState x (grants st) (usage st) (counts st) (rejection_counts st) (disk_pressure st)
    (usable_disk_bytes st) (pressure_transition_count st) (lifecycle st).
Definition set_grants (st : AccountingState) (x : GrantLedger) : AccountingState :=
  mkState (topology st) x (usage st) (counts st) (rejection_counts st) (disk_pressure st)
    (usable_disk_bytes st) (pressure_transition_count st) (lifecycle st).
Definition set_usage (st : AccountingState) (x : UsageTotals) : AccountingState :=
  mkState (topology st) (grants st) x (counts st) (rejection_counts st) (disk_pressure st)
    (usable_disk_bytes st) (pressure_transition_count st) (lifecycle st).
Definition set_counts (st : AccountingState) (x : OutstandingCounts) : AccountingState :=
  mkState (topology st) (grants st) (usage st) x (rejection_counts st) (disk_pressure st)
    (usable_disk_bytes st) (pressure_transition_count st) (lifecycle st).
Definition set_rejection_counts (st : AccountingState) (x : list Z) : AccountingState :=
  mkState (topology st) (grants st) (usage st) (counts st) x (disk_pressure st)
    (usable_disk_bytes st) (pressure_transition_count st) (lifecycle st).
Definition set_pressure (st : AccountingState) (p : DiskPressureState) (usable transitions : Z) : AccountingState :=
  mkState (topology st) (grants st) (usage st) (counts st) (rejection_counts st) p usable transitions (lifecycle st).
Definition set_lifecycle (st : AccountingState) (x : GovernorLifecycle) : AccountingState :=
  mkState (topology st) (grants st) (usage st) (counts st) (rejection_counts st) (disk_pressure st)
    (usable_disk_bytes st) (pressure_transition_count st) x.

(** Replacing the record of a slot. *)
Definition set_record (st : AccountingState) (slot : nat) (r : option GrantRecord) : AccountingState :=
  set_grants st (mkLedger (<[slot := r]> (grant_records (grants st))) (free_slots (grants st))
    (next_operation_generation (grants st))).

(** The record a slot holds; [None] for a free slot and past the end. *)
Definition record_at (st : AccountingState) (slot : nat) : option GrantRecord :=
  mjoin (grant_records (grants st) !! slot).

(** ** The drop ledger *)

(** [positron-kernel/src/resource_governor/ledger.rs:21-21 SLOT_FREE] The three values of a slot signal. *)
Inductive SlotSignal := SLOT_FREE | SLOT_ACTIVE | SLOT_RELEASE_PENDING.

#[global] Instance SlotSignal_eq_dec : EqDecision SlotSignal.
Proof. solve_decision. Defined.

(** [positron-kernel/src/resource_governor/ledger/drop_ledger.rs:5-10 DropLedger] *)
Record DropLedger := mkDrop {
  slot_signals : list SlotSignal;
  pending_words : list Z;
  has_pending_releases : bool;
  pending_fence : bool;
}.

(** [positron-kernel/src/resource_governor/ledger/drop_ledger.rs:25-51 DropLedger::mark_drop_pending] *)
Definition mark_drop_pending (d : DropLedger) (slot : nat) : DropLedger :=
  let fence := mkDrop (slot_signals d) (pending_words d) (has_pending_releases d) true in
  match slot_signals d !! slot with
  | None => fence
  | Some signal =>
      if negb (bool_decide (signal = SLOT_ACTIVE)) then fence
      else
        let signals := <[slot := SLOT_RELEASE_PENDING]> (slot_signals d) in
        let word_index := Nat.div slot 64 in
        let bit := Z.shiftl 1 (Z.of_nat (Nat.modulo slot 64)) in
        match pending_words d !! word_index with
        | None => mkDrop signals (pending_words d) (has_pending_releases d) true
        | Some word => mkDrop signals (<[word_index := Z.lor word bit]> (pending_words d)) true (pending_fence d)
        end
  end.

(** [positron-kernel/src/resource_governor/ledger/drop_ledger.rs:53-55 DropLedger::mark_foreign_release] *)
Definition mark_foreign_release (d : DropLedger) : DropLedger :=
  mkDrop (slot_signals d) (pending_words d) (has_pending_releases d) true.

Definition set_signal (d : DropLedger) (slot : nat) (s : SlotSignal) : DropLedger :=
  mkDrop (<[slot := s]> (slot_signals d)) (pending_words d) (has_pending_releases d) (pending_fence d).

(** ** The governor *)

(** [positron-kernel/src/resource_governor/accounting.rs:33-50 GovernorInner] The fields that never
    change. The volume ownership claim is a capability without a run-time effect on
    accounting; [gi_authority] names the drop ledger. *)
Record GovernorInner := mkInner {
  gi_authority : Z;
  raw_effective : ResourceAmounts;
  bootstrap_overhead : ResourceAmounts;
  total_ceiling : ResourceAmounts;
  ordinary_ceiling : ResourceAmounts;
  principal_quota : option PrincipalQuota;
  recovery_reserve : ResourceAmounts;
  maximum_outstanding : Z;
  pool_capacities : PoolCapacities;
  recovery_pool_capacities : RecoveryPoolCapacities;
  recovery_shared_capacity : ResourceAmounts;
  disk_thresholds : DiskPressureThresholds;
}.

(** What a handler holds while it has the lock: the accounting state and the drop ledger. *)
Record Live := mkLive { lv_state : AccountingState; lv_drops : DropLedger }.

Definition set_state (l : Live) (st : AccountingState) : Live := mkLive st (lv_drops l).
Definition set_drops (l : Live) (d : DropLedger) : Live := mkLive (lv_state l) d.

(** [positron-kernel/src/resource_governor/ledger.rs:372-387 activate_slot] *)
Definition activate_slot (l : Live) (record : GrantRecord) : Live * option nat :=
  let st := lv_state l in
  match free_slots (grants st) with
  | [] => (l, None)
  | slot :: rest =>
      let popped := set_grants st (mkLedger (grant_records (grants st)) rest (next_operation_generation (grants st))) in
      match grant_records (grants st) !! slot, slot_signals (lv_drops l) !! slot with
      | Some None, Some SLOT_FREE =>
          (mkLive (set_record popped slot (Some record)) (set_signal (lv_drops l) slot SLOT_ACTIVE), Some slot)
      | _, _ => (set_state l popped, None)
      end
  end.

(** [positron-kernel/src/resource_governor/ledger.rs:440-458 finish_slot] *)
Definition finish_slot (l : Live) (slot : nat) : Live * bool :=
  let st := lv_state l in
  match grant_records (grants st) !! slot, slot_signals (lv_drops l) !! slot with
  | Some record, Some signal =>
      if bool_decide (signal = SLOT_FREE) then (l, false)
      else
        match record with
        | None => (l, false)
        | Some _ =>
            let taken := set_record st slot None in
            if (length (free_slots (grants st)) =? length (grant_records (grants st)))%nat
            then (set_state l taken, false)
            else
              let g := grants taken in
              (mkLive (set_grants taken (mkLedger (grant_records g) (slot :: free_slots g) (next_operation_generation g)))
                 (set_signal (lv_drops l) slot SLOT_FREE), true)
        end
  | _, _ => (l, false)
  end.
