(* ===== verification/GovernorAdmission.v ===== *)
(** Resource governor: atomic admission of ordinary and recovery work.

    Models [admission.rs], [recovery_admission.rs] and the admission helpers of [accounting.rs]
    under [positron-kernel/src/resource_governor]. An admission is a step of a state and error
    monad over what the handler holds under the lock; an early return keeps the state reached so
    far, and [or_fence] is the code's pattern that fences the governor before it returns an
    internal failure. *)

From stdpp Require Import sets.
From S2P Require Import Prelude Outcome Identity GovernorModel GovernorPools GovernorState.

(** ** The admission monad *)

Definition Adm (A : Type) : Type := Live -> Live * result AdmissionFailure A.

#[global] Instance Adm_ret : MRet Adm := fun A a l => (l, Ok a).
#[global] Instance Adm_bind : MBind Adm := fun A B k m l =>
  match m l with (l', Ok a) => k a l' | (l', Err e) => (l', Err e) end.

#[global] Instance Adm_fmap : FMap Adm := fun A B f m l =>
  match m l with (l', Ok a) => (l', Ok (f a)) | (l', Err e) => (l', Err e) end.

(** Reads the accounting state. *)
Definition read_state : Adm AccountingState := fun l => (l, Ok (lv_state l)).
(** Replaces the accounting state. *)
Definition modify (f : AccountingState -> AccountingState) : Adm unit := fun l => (set_state l (f (lv_state l)), Ok tt).
(** A check that does not touch the state. *)
Definition check {A} (r : result AdmissionFailure A) : Adm A := fun l => (l, r).
(** Returns an internal failure without fencing. *)
Definition or_internal {A} (class : WorkClass) (o : option A) : Adm A := fun l =>
  (l, ok_or (internal_failure_at_pressure class (disk_pressure (lv_state l))) o).
(** Fences the governor and returns an internal failure. *)
Definition or_fence {A} (class : WorkClass) (o : option A) : Adm A := fun l =>
  match o with
  | Some a => (l, Ok a)
  | None => (set_state l (set_lifecycle (lv_state l) Fenced),
             Err (internal_failure_at_pressure class (disk_pressure (lv_state l))))
  end.
(** A check whose internal failures fence the governor. *)
Definition check_fencing {A} (r : result AdmissionFailure A) : Adm A := fun l =>
  match r with
  | Ok a => (l, Ok a)
  | Err f => (if bool_decide (af_code f = InternalFenced)
              then set_state l (set_lifecycle (lv_state l) Fenced) else l, Err f)
  end.

(** [get_mut]: the list with one element replaced, if the index is in range. *)
Definition store_at {A} (l : list A) (i : nat) (a : A) : option (list A) :=
  match l !! i with Some _ => Some (<[i := a]> l) | None => None end.

(** ** Helpers *)

(** [Iterator::position]. *)
Fixpoint position {A} (p : A -> bool) (l : list A) : option nat :=
  match l with [] => None | a :: l' => if p a then Some 0%nat else S <$> position p l' end.

(** [positron-kernel/src/resource_governor/accounting.rs:421-439 GovernorInner::tenant_index] *)
Definition tenant_index (st : AccountingState) (tenant : TenantId) (class : WorkClass)
  : result AdmissionFailure nat :=
  ok_or (failure UnregisteredTenant AfterExternalCorrection LimitTenant class DecisionLimit_none)
    (position (fun q => bool_decide (q_tenant q = tenant)
       && negb (bool_decide (pending_tenant (topology st) = Some tenant))) (tenant_quotas (topology st))).

(** How many entries other than the one at [own] are zero. *)
Definition missing (l : list Z) (own : option nat) : Z :=
  zlen (filter (fun '(i, count) => Some i <> own /\ count = 0) (imap pair l)).

(** [positron-kernel/src/resource_governor/accounting.rs:532-583 GovernorInner::require_healthy_and_slot] *)
Definition require_healthy_and_slot (g : GovernorInner) (st : AccountingState) (class : WorkClass)
    (tenant : option nat) : result AdmissionFailure Z :=
  let internal := internal_failure_at_pressure class (disk_pressure st) in
  if bool_decide (lifecycle st = Fenced) then Err internal
  else
    candidate ← ok_or internal (checked_add u32_max (outstanding (counts st)) 1);
    let missing_classes := missing (class_counts (counts st)) (Some (class_index class)) in
    let missing_tenants := missing (tenant_outstanding (counts st)) tenant in
    reserved_progress ← ok_or internal
      (if (missing_classes <=? u32_max) && (missing_tenants <=? u32_max)
       then checked_add u32_max missing_classes missing_tenants else None);
    if exceeds (checked_add u32_max candidate reserved_progress) (maximum_outstanding g) then
      Err (failure_at_pressure OutstandingReservationLimit AfterCapacityRelease LimitOutstandingReservations class
        (disk_pressure st) (mkLimit None (maximum_outstanding g) (outstanding (counts st)) 1))
    else Ok candidate.

(** [positron-kernel/src/resource_governor/accounting.rs:585-596 GovernorInner::next_class_count] *)
Definition next_class_count (st : AccountingState) (class : WorkClass) : option (nat * Z) :=
  count ← class_counts (counts st) !! class_index class;
  candidate ← checked_add u32_max count 1;
  Some (class_index class, candidate).

(** [positron-kernel/src/resource_governor/accounting.rs:503-530 GovernorInner::record_refusal_locked] *)
Definition record_refusal_locked (st : AccountingState) (f : AdmissionFailure) : AccountingState :=
  if bool_decide (af_code f = GovernorContended) then st
  else
    let index := code_index (af_code f) in
    let sum := try_fold_opt (checked_add u64_max) 0 (rejection_counts st) in
    let candidate := rejection_counts st !! index ≫= fun count => checked_add u64_max count 1 in
    match sum ≫= (fun total => checked_add u64_max total 1), candidate with
    | Some _, Some c =>
        match store_at (rejection_counts st) index c with
        | Some counts' => set_rejection_counts st counts'
        | None => set_lifecycle st Fenced
        end
    | _, _ => set_lifecycle st Fenced
    end.

(** A loop over the occupied slots that match, with the slot as a [u16]. *)
Definition over_records {B} (class : WorkClass) (st : AccountingState) (excluded : option nat)
    (f : B -> nat -> GrantRecord -> result AdmissionFailure B) (start : B) : result AdmissionFailure B :=
  try_fold (fun acc '(slot, record) =>
    match to_u16 slot with
    | None => Err (internal_failure_at_pressure class (disk_pressure st))
    | Some _ =>
        if bool_decide (Some slot = excluded) then Ok acc
        else match record with None => Ok acc | Some r => f acc slot r end
    end) start (imap pair (grant_records (grants st))).

(** [positron-kernel/src/resource_governor/admission.rs:399-432 GovernorInner::principal_usage_excluding] *)
Definition principal_usage_excluding (st : AccountingState) (tenant : nat) (principal : PrincipalId)
    (excluded : option nat) (class : WorkClass) : result AdmissionFailure (Z * ResourceAmounts) :=
  let internal := internal_failure_at_pressure class (disk_pressure st) in
  over_records class st excluded (fun '(count, used) _ r =>
    if negb (bool_decide (grant_tenant_index r = Some tenant)) || negb (bool_decide (gr_principal r = Some principal))
    then Ok (count, used)
    else
      count ← (if is_operation_root r then ok_or internal (checked_add u64_max count 1) else Ok count);
      used ← ok_or internal (amounts_add used (gr_amounts r));
      Ok (count, used)) (0, amounts_zero).

(** [positron-kernel/src/resource_governor/admission.rs:389-397 GovernorInner::principal_usage] *)
Definition principal_usage (st : AccountingState) (tenant : nat) (principal : PrincipalId) (class : WorkClass)
  : result AdmissionFailure (Z * ResourceAmounts) := principal_usage_excluding st tenant principal None class.

(** A record of the operation that a token names. *)
Definition belongs (token : OperationToken) (slot : nat) (r : GrantRecord) : bool :=
  match gr_operation r with
  | Some (Root generation _ _) => (slot =? tok_root_slot token)%nat && (generation =? tok_generation token)
  | Some (Child root_slot generation) => (root_slot =? tok_root_slot token)%nat && (generation =? tok_generation token)
  | None => false
  end.

(** [positron-kernel/src/resource_governor/admission.rs:499-532 GovernorInner::operation_usage] *)
Definition operation_usage (st : AccountingState) (token : OperationToken) (excluded : option nat)
    (class : WorkClass) : result AdmissionFailure ResourceAmounts :=
  over_records class st excluded (fun used slot r =>
    if belongs token slot r
    then ok_or (internal_failure_at_pressure class (disk_pressure st)) (amounts_add used (gr_amounts r))
    else Ok used) amounts_zero.

(** [positron-kernel/src/resource_governor/admission.rs:534-552 GovernorInner::invalid_operation_failure] *)
Definition invalid_operation_failure (st : AccountingState) (class : WorkClass) : AdmissionFailure :=
  failure_at_pressure PrincipalQuotaExceeded AfterCapacityRelease LimitOperation class (disk_pressure st)
    (mkLimit None 0 0 1).

(** [positron-kernel/src/resource_governor/admission.rs:434-468 GovernorInner::validate_operation_child] *)
Definition validate_operation_child (g : GovernorInner) (st : AccountingState) (tenant : nat)
    (operation : option OperationToken) (class : WorkClass) : result AdmissionFailure unit :=
  match operation with
  | None => Ok tt
  | Some token =>
      let valid :=
        match record_at st (tok_root_slot token) with
        | None => false
        | Some r =>
            (tok_authority token =? gi_authority g)
            && bool_decide (grant_tenant_index r = Some tenant)
            && bool_decide (gr_tenant r = Some (tok_tenant token))
            && bool_decide (gr_principal r = Some (tok_principal token))
            && bool_decide (grant_class r = class)
            && match gr_operation r with
               | Some (Root generation true _) => generation =? tok_generation token
               | _ => false
               end
        end in
      if valid then Ok tt else Err (invalid_operation_failure st class)
  end.

(** [positron-kernel/src/resource_governor/admission.rs:269-324 GovernorInner::refuse_principal_limit] *)
Definition refuse_principal_limit (g : GovernorInner) (st : AccountingState) (tenant : nat)
    (principal : option PrincipalId) (operation : option OperationToken) (class : WorkClass)
    (requested : ResourceAmounts) : result AdmissionFailure unit :=
  match principal, principal_quota g with
  | Some principal, Some quota =>
      '(in_use, used) ← principal_usage st tenant principal class;
      let allowed := pq_maximum_operations quota in
      match operation with
      | None =>
          if allowed <=? in_use then
            Err (failure_at_pressure PrincipalQuotaExceeded AfterCapacityRelease LimitPrincipal class
              (disk_pressure st) (mkLimit None allowed in_use 1))
          else Ok tt
      | Some _ => Ok tt
      end ≫= fun _ =>
      operation_used ← (match operation with
                        | Some token => operation_usage st token None class
                        | None => Ok amounts_zero
                        end);
      _ ← refuse_exceeded PrincipalQuotaExceeded LimitOperation class operation_used requested
            (pq_per_operation_limits quota) (disk_pressure st);
      refuse_exceeded PrincipalQuotaExceeded LimitPrincipal class used requested
        (pq_aggregate_limits quota) (disk_pressure st)
  | _, _ => Ok tt
  end.

(** [positron-kernel/src/resource_governor/admission.rs:470-497 GovernorInner::operation_record_for_claim] *)
Definition operation_record_for_claim (operation : option OperationToken) (principal : option PrincipalId)
    (class : WorkClass) : Adm (option OperationRecord) :=
  match operation, principal with
  | Some token, _ => mret (Some (Child (tok_root_slot token) (tok_generation token)))
  | None, None => mret None
  | None, Some _ =>
      st ← read_state;
      let generation := next_operation_generation (grants st) in
      next ← or_fence class (checked_add u64_max generation 1);
      _ ← modify (fun st => set_grants st (mkLedger (grant_records (grants st)) (free_slots (grants st)) next));
      mret (Some (Root generation true 0))
  end.

(** [activate_slot] as a step of an admission. *)
Definition activate (record : GrantRecord) : Adm (option nat) := fun l =>
  let '(l', slot) := activate_slot l record in (l', Ok slot).

(** [positron-kernel/src/resource_governor.rs:254-262 ResourceReservation] *)
Record ResourceReservation := mkReservation {
  res_slot : nat;
  res_owner : ChargeOwner;
  res_identity : ReservationIdentity;
  res_amounts : ResourceAmounts;
  res_operation : option OperationToken;
  res_active : bool;
}.

(** ** Ordinary work *)

(** The candidates that the checks of an ordinary admission compute. *)
Record OrdinaryPlan := mkOrdinaryPlan {
  op_tenant_index : nat;
  op_outstanding : Z;
  op_total : ResourceAmounts;
  op_tenant : ResourceAmounts;
  op_pools : PoolCharge;
  op_pool_candidate : PoolCapacities;
  op_tenant_pool_candidate : PoolCapacities;
  op_ordinary_count : Z;
  op_class_index : nat;
  op_class_count : Z;
  op_tenant_count : Z;
}.

(** [positron-kernel/src/resource_governor/admission.rs:31-192 GovernorInner::reserve_ordinary_locked!]
    The checks, in order, up to the commit. *)
Definition plan_ordinary (g : GovernorInner) (claim : WorkClaim) : Adm OrdinaryPlan :=
  let class := WorkKind_class (claim_kind claim) in
  let amounts := claim_amounts claim in
  st ← read_state;
  _ ← check (if bool_decide (lifecycle st = ShuttingDown) then Err (shutdown_failure class (disk_pressure st)) else Ok tt);
  index ← check (map_err (fun f => at_pressure f (disk_pressure st)) (tenant_index st (claim_tenant claim) class));
  outstanding' ← check (require_healthy_and_slot g st class (Some index));
  _ ← check (validate_operation_child g st index (claim_operation claim) class);
  _ ← check (refuse_principal_limit g st index (claim_principal claim) (claim_operation claim) class amounts);
  shared_eligible ← check (pressure_eligibility (disk_pressure st) class amounts);
  _ ← check (refuse_live_disk_growth class (total_usage (usage st)) amounts (usable_disk_bytes st) (disk_pressure st));
  ordinary_usage ← or_fence class (amounts_sub (total_usage (usage st)) (recovery_usage (usage st)));
  _ ← check (refuse_ordinary_capacity class amounts
        (mkOrdinaryCapacity ordinary_usage (ru_shared (recovery_pool_usage (usage st))) (ordinary_ceiling g)
           (total_ceiling g) (disk_pressure st)));
  total_candidate ← or_fence class (amounts_add (total_usage (usage st)) amounts);
  tenant_usage ← or_fence class (ordinary_tenant_usage (usage st) !! index);
  tenant_limit ← or_fence class (tenant_limits (topology st) !! index);
  _ ← check (refuse_exceeded TenantQuotaExceeded LimitTenant class tenant_usage amounts tenant_limit (disk_pressure st));
  recovery_shared ← or_fence class (ru_shared <$> recovery_tenant_pool_usage (usage st) !! index);
  recovery_shared_limit ← or_fence class (recovery_tenant_shared_fair (topology st) !! index);
  _ ← check_fencing (refuse_tenant_recovery_shared_fair_share class tenant_usage recovery_shared amounts
        recovery_shared_limit (disk_pressure st));
  tenant_candidate ← or_fence class (amounts_add tenant_usage amounts);
  tenant_pool_usage ← or_fence class (ordinary_tenant_pool_usage (usage st) !! index);
  tenant_fair_capacity ← or_fence class (tenant_fair_capacities (topology st) !! index);
  pools ← check_fencing (plan_pool_charge class amounts
        (mkPoolAdmission (pool_capacities g) (pool_usage (usage st)) tenant_fair_capacity tenant_pool_usage)
        (disk_pressure st) shared_eligible);
  pool_candidate ← or_fence class (pools_add (pool_usage (usage st)) (charge_capacities pools));
  tenant_pool_candidate ← or_fence class (pools_add tenant_pool_usage (charge_capacities pools));
  ordinary_count ← or_fence class (checked_add u32_max (outstanding_ordinary (counts st)) 1);
  '(class_idx, class_count) ← or_fence class (next_class_count st class);
  tenant_count ← or_fence class (tenant_outstanding (counts st) !! index ≫= fun c => checked_add u32_max c 1);
  _ ← or_fence class (_ ← ordinary_tenant_usage (usage st) !! index;
                      _ ← ordinary_tenant_pool_usage (usage st) !! index;
                      _ ← class_counts (counts st) !! class_idx;
                      tenant_outstanding (counts st) !! index);
  mret (mkOrdinaryPlan index outstanding' total_candidate tenant_candidate pools pool_candidate
    tenant_pool_candidate ordinary_count class_idx class_count tenant_count).

(** A write to a field of the usage totals that the code guards with [get_mut]. *)
Definition store_usage {A} (class : WorkClass) (field : UsageTotals -> list A) (i : nat) (a : A)
    (set : UsageTotals -> list A -> UsageTotals) : Adm unit :=
  st ← read_state;
  stored ← or_fence class (store_at (field (usage st)) i a);
  modify (fun st => set_usage st (set (usage st) stored)).

(** A write to a field of the counts that the code guards with [get_mut]. *)
Definition store_count (class : WorkClass) (field : OutstandingCounts -> list Z) (i : nat) (a : Z)
    (set : OutstandingCounts -> list Z -> OutstandingCounts) : Adm unit :=
  st ← read_state;
  stored ← or_fence class (store_at (field (counts st)) i a);
  modify (fun st => set_counts st (set (counts st) stored)).

Definition with_ordinary_tenant_usage (u : UsageTotals) (x : list ResourceAmounts) : UsageTotals :=
  mkUsage (total_usage u) (recovery_usage u) x (recovery_tenant_usage u) (recovery_pool_usage u)
    (recovery_system_pool_usage u) (recovery_tenant_pool_usage u) (pool_usage u) (ordinary_tenant_pool_usage u).
Definition with_ordinary_tenant_pool_usage (u : UsageTotals) (x : list PoolCapacities) : UsageTotals :=
  mkUsage (total_usage u) (recovery_usage u) (ordinary_tenant_usage u) (recovery_tenant_usage u) (recovery_pool_usage u)
    (recovery_system_pool_usage u) (recovery_tenant_pool_usage u) (pool_usage u) x.
Definition with_recovery_tenant_usage (u : UsageTotals) (x : list ResourceAmounts) : UsageTotals :=
  mkUsage (total_usage u) (recovery_usage u) (ordinary_tenant_usage u) x (recovery_pool_usage u)
    (recovery_system_pool_usage u) (recovery_tenant_pool_usage u) (pool_usage u) (ordinary_tenant_pool_usage u).
Definition with_recovery_tenant_pool_usage (u : UsageTotals) (x : list RecoveryPoolUsage) : UsageTotals :=
  mkUsage (total_usage u) (recovery_usage u) (ordinary_tenant_usage u) (recovery_tenant_usage u) (recovery_pool_usage u)
    (recovery_system_pool_usage u) x (pool_usage u) (ordinary_tenant_pool_usage u).
Definition with_recovery_system_pool_usage (u : UsageTotals) (x : RecoveryPoolUsage) : UsageTotals :=
  mkUsage (total_usage u) (recovery_usage u) (ordinary_tenant_usage u) (recovery_tenant_usage u) (recovery_pool_usage u)
    x (recovery_tenant_pool_usage u) (pool_usage u) (ordinary_tenant_pool_usage u).
Definition with_totals (u : UsageTotals) (total : ResourceAmounts) (pools : PoolCapacities) : UsageTotals :=
  mkUsage total (recovery_usage u) (ordinary_tenant_usage u) (recovery_tenant_usage u) (recovery_pool_usage u)
    (recovery_system_pool_usage u) (recovery_tenant_pool_usage u) pools (ordinary_tenant_pool_usage u).
Definition with_recovery_totals (u : UsageTotals) (total recovery : ResourceAmounts) (pool : RecoveryPoolUsage) : UsageTotals :=
  mkUsage total recovery (ordinary_tenant_usage u) (recovery_tenant_usage u) pool
    (recovery_system_pool_usage u) (recovery_tenant_pool_usage u) (pool_usage u) (ordinary_tenant_pool_usage u).
Definition with_tenant_outstanding (c : OutstandingCounts) (x : list Z) : OutstandingCounts :=
  mkCounts x (outstanding c) (outstanding_ordinary c) (outstanding_recovery c) (outstanding_uninterruptible c) (class_counts c).
Definition with_class_counts (c : OutstandingCounts) (x : list Z) : OutstandingCounts :=
  mkCounts (tenant_outstanding c) (outstanding c) (outstanding_ordinary c) (outstanding_recovery c) (outstanding_uninterruptible c) x.
Definition with_outstanding (c : OutstandingCounts) (total ordinary recovery uninterruptible : Z) : OutstandingCounts :=
  mkCounts (tenant_outstanding c) total ordinary recovery uninterruptible (class_counts c).

(** The root of the operation of a new child counts it. *)
Definition count_child (class : WorkClass) (operation : option OperationToken) : Adm unit :=
  match operation with
  | None => mret tt
  | Some token =>
      st ← read_state;
      root ← or_fence class (record_at st (tok_root_slot token));
      updated ← or_fence class (increment_root_child root);
      modify (fun st => set_record st (tok_root_slot token) (Some updated))
  end.

(** [positron-kernel/src/resource_governor/admission.rs:193-267 GovernorInner::reserve_ordinary_locked!]
    The commit of a planned ordinary admission. *)
Definition commit_ordinary (g : GovernorInner) (claim : WorkClaim) (plan : OrdinaryPlan) : Adm ResourceReservation :=
  let class := WorkKind_class (claim_kind claim) in
  let owner := mkOwner (AttrOrdinary (op_tenant_index plan)) (Some (op_pools plan)) None in
  let identity := IdentityOrdinary (claim_tenant claim) (claim_principal claim) (claim_kind claim) in
  operation_record ← operation_record_for_claim (claim_operation claim) (claim_principal claim) class;
  record ← or_fence class (GrantRecord_new owner identity (claim_amounts claim) operation_record);
  slot ← activate record ≫= or_fence class;
  _ ← count_child class (claim_operation claim);
  st ← read_state;
  let reservation_operation := r ← record_at st slot; root_token (gi_authority g) r slot in
  _ ← store_usage class ordinary_tenant_usage (op_tenant_index plan) (op_tenant plan) with_ordinary_tenant_usage;
  _ ← store_usage class ordinary_tenant_pool_usage (op_tenant_index plan) (op_tenant_pool_candidate plan) with_ordinary_tenant_pool_usage;
  _ ← store_count class class_counts (op_class_index plan) (op_class_count plan) with_class_counts;
  _ ← store_count class tenant_outstanding (op_tenant_index plan) (op_tenant_count plan) with_tenant_outstanding;
  _ ← modify (fun st => set_usage st (with_totals (usage st) (op_total plan) (op_pool_candidate plan)));
  _ ← modify (fun st => set_counts st (with_outstanding (counts st) (op_outstanding plan) (op_ordinary_count plan)
        (outstanding_recovery (counts st)) (outstanding_uninterruptible (counts st))));
  mret (mkReservation slot owner identity (claim_amounts claim) reservation_operation true).

(** [positron-kernel/src/resource_governor/admission.rs:31-35 GovernorInner::reserve_ordinary_locked!] *)
Definition reserve_ordinary_locked (g : GovernorInner) (claim : WorkClaim) : Adm ResourceReservation :=
  plan ← plan_ordinary g claim; commit_ordinary g claim plan.

(** ** Recovery work *)

(** The view of the recovery pools that the scope of a claim has. *)
Record RecoveryScopeView := mkScopeView {
  sv_shared : ResourceAmounts;
  sv_protected : ResourceAmounts;
  sv_usage : RecoveryPoolUsage;
  sv_ordinary : ResourceAmounts;
}.

(** [positron-kernel/src/resource_governor/recovery_admission.rs:286-359 recovery_pool_failure] *)
Definition recovery_pool_failure (limit : RecoveryPoolLimit) (tenant : bool) (kind : RecoveryWorkKind)
    (requested global_shared global_protected : ResourceAmounts) (global_usage : RecoveryPoolUsage)
    (global_occupied : ResourceAmounts) (scope : RecoveryScopeView) (pressure : DiskPressureState)
  : AdmissionFailure :=
  let internal := internal_failure_at_pressure DurabilityRecovery pressure in
  match limit with
  | RLInternal => internal
  | RLGlobal d | RLScope d =>
      let scope_limited := match limit with RLScope _ => true | _ => false end in
      let '(mkScopeView shared protected pool_usage occupied) :=
        if scope_limited then scope else mkScopeView global_shared global_protected global_usage global_occupied in
      let allowed := checked_add u64_max (get shared d) (get protected d) in
      let in_use :=
        u ← checked_add u64_max (get (ru_shared pool_usage) d) (get occupied d);
        checked_add u64_max u (get (usage_protected pool_usage kind) d) in
      match allowed, in_use with
      | Some allowed, Some in_use =>
          failure_at_pressure
            (if scope_limited then (if tenant then TenantFairShareExceeded else ProtectedCapacityUnavailable)
             else RecoveryReserveExhausted)
            AfterCapacityRelease
            (if scope_limited then (if tenant then LimitTenantFairShare else LimitProtectedReserve)
             else LimitRecoveryReserve)
            DurabilityRecovery pressure (mkLimit (Some d) allowed in_use (get requested d))
      | _, _ => internal
      end
  end.

(** The candidates that the checks of a recovery admission compute. *)
Record RecoveryPlan := mkRecoveryPlan {
  rp_tenant_index : option nat;
  rp_outstanding : Z;
  rp_total : ResourceAmounts;
  rp_recovery : ResourceAmounts;
  rp_tenant : option ResourceAmounts;
  rp_pools : RecoveryPoolCharge;
  rp_pool_candidate : RecoveryPoolUsage;
  rp_scope_candidate : RecoveryPoolUsage;
  rp_recovery_count : Z;
  rp_uninterruptible : option Z;
  rp_class_index : nat;
  rp_class_count : Z;
  rp_tenant_count : option Z;
}.

(** The tenant part of the checks: its quota counts ordinary and recovery work together. *)
Definition plan_recovery_tenant (st : AccountingState) (amounts : ResourceAmounts) (tenant : option nat)
  : Adm (option ResourceAmounts) :=
  let class := DurabilityRecovery in
  match tenant with
  | None => mret None
  | Some index =>
      used ← or_fence class (recovery_tenant_usage (usage st) !! index);
      candidate ← or_fence class (amounts_add used amounts);
      ordinary ← or_fence class (ordinary_tenant_usage (usage st) !! index);
      quota ← or_fence class (tenant_quotas (topology st) !! index);
      combined ← or_fence class (amounts_add ordinary used);
      _ ← check (refuse_exceeded TenantQuotaExceeded LimitTenant class combined amounts (q_limits quota) (disk_pressure st));
      mret (Some candidate)
  end.

(** The capacities and usage that the scope of the claim is held to. *)
Definition recovery_scope_view (g : GovernorInner) (st : AccountingState) (kind : RecoveryWorkKind)
    (ordinary_usage : ResourceAmounts) (tenant : option nat) : Adm RecoveryScopeView :=
  match tenant with
  | Some index =>
      shared ← or_internal DurabilityRecovery (recovery_tenant_shared_fair (topology st) !! index);
      protected ← or_internal DurabilityRecovery
        ((fun pools => recovery_get pools kind) <$> recovery_tenant_pool_fair (topology st) !! index);
      used ← or_internal DurabilityRecovery (recovery_tenant_pool_usage (usage st) !! index);
      ordinary ← or_internal DurabilityRecovery (ordinary_tenant_usage (usage st) !! index);
      mret (mkScopeView shared protected used ordinary)
  | None =>
      mret (mkScopeView (recovery_shared_capacity g) (recovery_get (recovery_system_pool_capacities (topology st)) kind)
        (recovery_system_pool_usage (usage st)) ordinary_usage)
  end.

(** [positron-kernel/src/resource_governor/recovery_admission.rs:28-218 GovernorInner::reserve_recovery_locked!]
    The checks, in order, up to the commit. *)
Definition plan_recovery (g : GovernorInner) (claim : RecoveryWorkClaim) : Adm RecoveryPlan :=
  let class := DurabilityRecovery in
  let amounts := rclaim_amounts claim in
  let kind := rclaim_kind claim in
  st ← read_state;
  _ ← check (if bool_decide (lifecycle st = ShuttingDown) && negb (retains_capacity kind)
             then Err (shutdown_failure class (disk_pressure st)) else Ok tt);
  tenant ← check (match rclaim_scope claim with
                  | ScopeSystem => Ok None
                  | ScopeTenant tenant => Some <$> map_err (fun f => at_pressure f (disk_pressure st)) (tenant_index st tenant class)
                  end);
  outstanding' ← check (require_healthy_and_slot g st class tenant);
  _ ← check (refuse_live_disk_growth class (total_usage (usage st)) amounts (usable_disk_bytes st) (disk_pressure st));
  _ ← check (refuse_exceeded RecoveryReserveExhausted LimitRecoveryReserve class (total_usage (usage st)) amounts
        (total_ceiling g) (disk_pressure st));
  total_candidate ← or_fence class (amounts_add (total_usage (usage st)) amounts);
  recovery_candidate ← or_fence class (amounts_add (recovery_usage (usage st)) amounts);
  ordinary_usage ← or_fence class (amounts_sub (total_usage (usage st)) (recovery_usage (usage st)));
  tenant_candidate ← plan_recovery_tenant st amounts tenant;
  scope ← recovery_scope_view g st kind ordinary_usage tenant;
  pools ← check_fencing (map_err (fun limit =>
        recovery_pool_failure limit (bool_decide (is_Some tenant)) kind amounts (recovery_shared_capacity g)
          (recovery_get (recovery_pool_capacities g) kind) (recovery_pool_usage (usage st)) ordinary_usage scope (disk_pressure st))
      (plan_recovery_charge kind amounts
        (mkView (recovery_shared_capacity g) (recovery_get (recovery_pool_capacities g) kind)
           (recovery_pool_usage (usage st)) ordinary_usage)
        (mkView (sv_shared scope) (sv_protected scope) (sv_usage scope) (sv_ordinary scope))));
  pool_candidate ← or_internal class (recovery_usage_add (recovery_pool_usage (usage st)) pools);
  scope_candidate ← or_internal class (recovery_usage_add (sv_usage scope) pools);
  recovery_count ← or_fence class (checked_add u32_max (outstanding_recovery (counts st)) 1);
  uninterruptible ← (if retains_capacity kind
                     then Some <$> or_fence class (checked_add u32_max (outstanding_uninterruptible (counts st)) 1)
                     else mret None);
  '(class_idx, class_count) ← or_fence class (next_class_count st class);
  tenant_count ← (match tenant with
                  | Some index => Some <$> or_fence class (tenant_outstanding (counts st) !! index ≫= fun c => checked_add u32_max c 1)
                  | None => mret None
                  end);
  mret (mkRecoveryPlan tenant outstanding' total_candidate recovery_candidate tenant_candidate pools pool_candidate
    scope_candidate recovery_count uninterruptible class_idx class_count tenant_count).

(** [positron-kernel/src/resource_governor/recovery_admission.rs:219-283 GovernorInner::reserve_recovery_locked!]
    The commit of a planned recovery admission. *)
Definition commit_recovery (claim : RecoveryWorkClaim) (plan : RecoveryPlan) : Adm ResourceReservation :=
  let class := DurabilityRecovery in
  let owner := mkOwner (AttrRecovery (rp_tenant_index plan)) None (Some (rp_pools plan)) in
  let identity := IdentityRecovery (rclaim_scope claim) (rclaim_kind claim) in
  record ← or_fence class (GrantRecord_new owner identity (rclaim_amounts claim) None);
  slot ← activate record ≫= or_fence class;
  _ ← (match rp_tenant_index plan, rp_tenant plan with
       | Some index, Some candidate =>
           _ ← store_usage class recovery_tenant_usage index candidate with_recovery_tenant_usage;
           store_usage class recovery_tenant_pool_usage index (rp_scope_candidate plan) with_recovery_tenant_pool_usage
       | _, _ => modify (fun st => set_usage st (with_recovery_system_pool_usage (usage st) (rp_scope_candidate plan)))
       end);
  st ← read_state;
  _ ← or_fence class (class_counts (counts st) !! rp_class_index plan);
  _ ← modify (fun st => set_usage st (with_recovery_totals (usage st) (rp_total plan) (rp_recovery plan) (rp_pool_candidate plan)));
  _ ← modify (fun st => set_counts st (with_outstanding (counts st) (rp_outstanding plan) (outstanding_ordinary (counts st))
        (rp_recovery_count plan) (outstanding_uninterruptible (counts st))));
  _ ← store_count class class_counts (rp_class_index plan) (rp_class_count plan) with_class_counts;
  _ ← (match rp_tenant_index plan, rp_tenant_count plan with
       | Some index, Some count => store_count class tenant_outstanding index count with_tenant_outstanding
       | _, _ => mret tt
       end);
  _ ← (match rp_uninterruptible plan with
       | Some count => modify (fun st => set_counts st (with_outstanding (counts st) (outstanding (counts st))
             (outstanding_ordinary (counts st)) (outstanding_recovery (counts st)) count))
       | None => mret tt
       end);
  mret (mkReservation slot owner identity (rclaim_amounts claim) None true).

(** [positron-kernel/src/resource_governor/recovery_admission.rs:28-32 GovernorInner::reserve_recovery_locked!] *)
Definition reserve_recovery_locked (g : GovernorInner) (claim : RecoveryWorkClaim) : Adm ResourceReservation :=
  plan ← plan_recovery g claim; commit_recovery claim plan.
