(* ===== verification/GovernorRelease.v ===== *)
(** Resource governor: exact release of reservations and draining of dropped ones.

    Models [release.rs], the draining of [ledger.rs], the lock discipline of [accounting.rs] and
    the reservation handles of [reservation.rs] under [positron-kernel/src/resource_governor]. *)

From stdpp Require Import sets.
From S2P Require Import Prelude Outcome Identity GovernorModel GovernorPools GovernorState GovernorAdmission.

(** ** Release *)

(** [positron-kernel/src/resource_governor/lifecycle.rs:18-22 ReleaseOutcome] *)
Inductive ReleaseOutcome := Released | AlreadyInactive.

(** [positron-kernel/src/resource_governor/release.rs:11-14 ReleaseStatus] *)
Record ReleaseStatus := mkStatus { rs_applied : bool; rs_result : result GovernorFailure ReleaseOutcome }.

(** [positron-kernel/src/resource_governor/release.rs:369-375 fence] *)
Definition fence (st : AccountingState) : AccountingState * ReleaseStatus :=
  (set_lifecycle st Fenced, mkStatus false (Err GovernorFailureFenced)).

(** Steps of a release: [None] where the code returns [fence(state)]. *)
Definition Rel (A : Type) : Type := AccountingState -> AccountingState * option A.

#[global] Instance Rel_ret : MRet Rel := fun A a st => (st, Some a).
#[global] Instance Rel_bind : MBind Rel := fun A B k m st =>
  match m st with (st', Some a) => k a st' | (st', None) => (st', None) end.

(** The value of an option, or a fence. *)
Definition need {A} (o : option A) : Rel A := fun st =>
  match o with Some a => (st, Some a) | None => (set_lifecycle st Fenced, None) end.
Definition read_rel : Rel AccountingState := fun st => (st, Some st).
Definition modify_rel (f : AccountingState -> AccountingState) : Rel unit := fun st => (f st, Some tt).
Definition modify_usage (f : UsageTotals -> UsageTotals) : Rel unit := modify_rel (fun st => set_usage st (f (usage st))).
Definition modify_counts (f : OutstandingCounts -> OutstandingCounts) : Rel unit :=
  modify_rel (fun st => set_counts st (f (counts st))).

(** The candidates of the counters when one reservation is released. *)
Record CountCandidates := mkCountCandidates {
  cc_class_index : nat;
  cc_class : Z;
  cc_ordinary : option Z;
  cc_recovery : option Z;
  cc_uninterruptible : option Z;
  cc_tenant_index : option nat;
  cc_tenant : option Z;
}.

(** [positron-kernel/src/resource_governor/release.rs:211-255 GovernorInner::release_components!] The
    counters; [None] where the code fences. *)
Definition release_counts (st : AccountingState) (owner : ChargeOwner) (class : WorkClass) (ordinary : bool)
    (kind : option RecoveryWorkKind) : option CountCandidates :=
  let c := counts st in
  let index := class_index class in
  class_candidate ← class_counts c !! index ≫= fun count => checked_sub count 1;
  let ordinary_candidate := if ordinary then checked_sub (outstanding_ordinary c) 1 else None in
  let recovery_candidate := if ordinary then None else checked_sub (outstanding_recovery c) 1 in
  let uninterruptible := match kind with Some k => retains_capacity k | None => false end in
  let uninterruptible_candidate := if uninterruptible then checked_sub (outstanding_uninterruptible c) 1 else None in
  if (ordinary && bool_decide (ordinary_candidate = None))
     || (negb ordinary && bool_decide (recovery_candidate = None))
     || (uninterruptible && bool_decide (uninterruptible_candidate = None))
  then None
  else
    let tenant := match co_attribution owner with AttrOrdinary i => Some i | AttrRecovery i => i end in
    tenant_candidate ← (match tenant with
                        | None => Some None
                        | Some i => Some <$> (tenant_outstanding c !! i ≫= fun count => checked_sub count 1)
                        end);
    Some (mkCountCandidates index class_candidate ordinary_candidate recovery_candidate
      uninterruptible_candidate tenant tenant_candidate).

(** [positron-kernel/src/resource_governor/release.rs:258-289 GovernorInner::release_components!] The
    charges of ordinary work. *)
Definition release_ordinary (owner : ChargeOwner) (tenant : nat) (amounts : ResourceAmounts) : Rel unit :=
  st ← read_rel;
  let u := usage st in
  pools ← need (charge_capacities <$> co_pools owner);
  tenant_candidate ← need (ordinary_tenant_usage u !! tenant ≫= fun used => amounts_sub used amounts);
  tenant_pool_candidate ← need (ordinary_tenant_pool_usage u !! tenant ≫= fun used => pools_sub used pools);
  pool_candidate ← need (pools_sub (pool_usage u) pools);
  tenants ← need (store_at (ordinary_tenant_usage u) tenant tenant_candidate);
  _ ← modify_usage (fun u => with_ordinary_tenant_usage u tenants);
  tenant_pools ← need (store_at (ordinary_tenant_pool_usage u) tenant tenant_pool_candidate);
  _ ← modify_usage (fun u => with_ordinary_tenant_pool_usage u tenant_pools);
  modify_usage (fun u => with_totals u (total_usage u) pool_candidate).

(** [positron-kernel/src/resource_governor/release.rs:290-335 GovernorInner::release_components!] The
    charges of recovery work. The tenant's usage is written before its pool usage is checked. *)
Definition release_recovery (owner : ChargeOwner) (tenant : option nat) (amounts : ResourceAmounts) : Rel unit :=
  st ← read_rel;
  let u := usage st in
  charge ← need (co_recovery_pools owner);
  accounting_candidate ← need (amounts_sub (recovery_usage u) amounts);
  pool_candidate ← need (recovery_usage_sub (recovery_pool_usage u) charge);
  _ ← (match tenant with
       | Some index =>
           tenant_candidate ← need (recovery_tenant_usage u !! index ≫= fun used => amounts_sub used amounts);
           tenants ← need (store_at (recovery_tenant_usage u) index tenant_candidate);
           _ ← modify_usage (fun u => with_recovery_tenant_usage u tenants);
           pool_slot ← need (recovery_tenant_pool_usage u !! index);
           tenant_pool_candidate ← need (recovery_usage_sub pool_slot charge);
           modify_usage (fun u => with_recovery_tenant_pool_usage u
             (<[index := tenant_pool_candidate]> (recovery_tenant_pool_usage u)))
       | None =>
           system_candidate ← need (recovery_usage_sub (recovery_system_pool_usage u) charge);
           modify_usage (fun u => with_recovery_system_pool_usage u system_candidate)
       end);
  modify_usage (fun u => with_recovery_totals u (total_usage u) accounting_candidate pool_candidate).

(** [if let Some(candidate)]: an optional write. *)
Definition default_to {A} (a : A) (o : option A) : A := match o with Some x => x | None => a end.

(** [positron-kernel/src/resource_governor/release.rs:336-368 GovernorInner::release_components!] The
    writes of the totals and counters, after the charges. *)
Definition release_commit (poisoned : bool) (total_candidate : ResourceAmounts) (outstanding_candidate : Z)
    (cc : CountCandidates) : Rel ReleaseStatus :=
  _ ← modify_usage (fun u => with_totals u total_candidate (pool_usage u));
  _ ← modify_counts (fun c => with_outstanding c outstanding_candidate (outstanding_ordinary c) (outstanding_recovery c)
        (outstanding_uninterruptible c));
  st ← read_rel;
  classes ← need (store_at (class_counts (counts st)) (cc_class_index cc) (cc_class cc));
  _ ← modify_counts (fun c => with_class_counts c classes);
  _ ← modify_counts (fun c => with_outstanding c (outstanding c) (default_to (outstanding_ordinary c) (cc_ordinary cc))
        (default_to (outstanding_recovery c) (cc_recovery cc))
        (default_to (outstanding_uninterruptible c) (cc_uninterruptible cc)));
  _ ← (match cc_tenant_index cc, cc_tenant cc with
       | Some index, Some candidate =>
           st ← read_rel;
           tenants ← need (store_at (tenant_outstanding (counts st)) index candidate);
           modify_counts (fun c => with_tenant_outstanding c tenants)
       | _, _ => mret tt
       end);
  st ← read_rel;
  mret (mkStatus true (if poisoned || bool_decide (lifecycle st = Fenced)
                       then Err GovernorFailureFenced else Ok Released)).

(** [positron-kernel/src/resource_governor/release.rs:197-366 GovernorInner::release_components] *)
Definition release_components (poisoned : bool) (owner : ChargeOwner) (class : WorkClass)
    (ordinary : bool) (kind : option RecoveryWorkKind) (amounts : ResourceAmounts) : Rel ReleaseStatus :=
  st ← read_rel;
  total_candidate ← need (amounts_sub (total_usage (usage st)) amounts);
  outstanding_candidate ← need (checked_sub (outstanding (counts st)) 1);
  cc ← need (release_counts st owner class ordinary kind);
  _ ← (match co_attribution owner with
       | AttrOrdinary tenant => release_ordinary owner tenant amounts
       | AttrRecovery tenant => release_recovery owner tenant amounts
       end);
  release_commit poisoned total_candidate outstanding_candidate cc.

(** The status a release returns: the one computed, or the one of [fence]. *)
Definition finish_release (m : Rel ReleaseStatus) (st : AccountingState) : AccountingState * ReleaseStatus :=
  match m st with
  | (st', Some status) => (st', status)
  | (st', None) => (st', mkStatus false (Err GovernorFailureFenced))
  end.

(** [positron-kernel/src/resource_governor/release.rs:86-103 GovernorInner::release_record_locked] *)
Definition release_record_locked (poisoned : bool) (r : GrantRecord) : AccountingState -> AccountingState * ReleaseStatus :=
  finish_release (
    owner ← need (grant_owner r);
    release_components poisoned owner (grant_class r) (grant_is_ordinary r) (grant_recovery_kind r) (gr_amounts r)).

(** Fences with what the handler holds. *)
Definition fence_live (l : Live) : Live * ReleaseStatus :=
  let '(st, status) := fence (lv_state l) in (set_state l st, status).

(** [positron-kernel/src/resource_governor/release.rs:108-195 GovernorInner::release_slot_locked] *)
Definition release_slot_locked (l : Live) (poisoned : bool) (slot : nat) : Live * ReleaseStatus :=
  match record_at (lv_state l) slot with
  | None => fence_live l
  | Some record =>
      let '(st, status) := release_record_locked poisoned record (lv_state l) in
      let l := set_state l st in
      if negb (rs_applied status) then (l, status)
      else
        match gr_operation record with
        | None | Some (Root _ _ 0) =>
            let '(l, finished) := finish_slot l slot in
            if finished then (l, status) else fence_live l
        | Some (Root _ _ _) =>
            match released_root record, grant_records (grants st) !! slot with
            | Some released, Some _ => (set_state l (set_record st slot (Some released)), status)
            | _, _ => fence_live l
            end
        | Some (Child root_slot generation) =>
            match record_at st root_slot with
            | None => fence_live l
            | Some root_record =>
                let root_matches := match gr_operation root_record with
                                    | Some (Root root_generation _ _) => root_generation =? generation
                                    | _ => false
                                    end in
                if negb root_matches then fence_live l
                else
                  match decrement_root_child root_record with
                  | None => fence_live l
                  | Some (updated_root, remove_root) =>
                      let '(l, finished) := finish_slot l slot in
                      if negb finished then fence_live l
                      else if remove_root then
                        let '(l, finished) := finish_slot l root_slot in
                        if finished then (l, status) else fence_live l
                      else
                        match grant_records (grants (lv_state l)) !! root_slot with
                        | None => fence_live l
                        | Some _ => (set_state l (set_record (lv_state l) root_slot (Some updated_root)), status)
                        end
                  end
            end
        end
  end.

(** ** Draining dropped reservations *)

(** The set bits of a word in increasing order, as [trailing_zeros] and clearing the lowest set
    bit visit them. *)
Definition set_bits (word : Z) : list nat := filter (fun i => Z.testbit word (Z.of_nat i) = true) (seq 0 64).

Definition fence_state (l : Live) : Live := set_state l (set_lifecycle (lv_state l) Fenced).

(** One marked slot: the body of the inner loop of [drain_pending]. *)
Definition drain_slot (l : Live) (index : nat) : Live :=
  match slot_signals (lv_drops l) !! index with
  | None => fence_state l
  | Some signal =>
      if negb (bool_decide (signal = SLOT_RELEASE_PENDING)) then fence_state l
      else match to_u16 index with
           | None => fence_state l
           | Some _ =>
               let '(l, released) := release_slot_locked l false index in
               if rs_applied released then l else fence_state l
           end
  end.

(** One word: it is cleared first, then its bits are handled. *)
Definition drain_word (l : Live) (word_index : nat) : Live :=
  match pending_words (lv_drops l) !! word_index with
  | None => l
  | Some word =>
      let d := lv_drops l in
      let l := set_drops l (mkDrop (slot_signals d) (<[word_index := 0]> (pending_words d)) (has_pending_releases d) (pending_fence d)) in
      fold_left (fun l bit => drain_slot l (word_index * 64 + bit)%nat) (set_bits word) l
  end.

(** [positron-kernel/src/resource_governor/ledger.rs:330-370 GovernorInner::drain_pending] *)
Definition drain_pending (l : Live) : Live :=
  let d := lv_drops l in
  let must_scan := has_pending_releases d || pending_fence d in
  let l := set_drops l (mkDrop (slot_signals d) (pending_words d) false (pending_fence d)) in
  if negb must_scan then l
  else fold_left drain_word (seq 0 (length (pending_words d))) l.

(** ** The lock *)

(** The governor: what the lock protects, and the values other threads read without it. A lock
    attempt can find the lock held by another thread; a poisoned lock stays poisoned. *)
Record Governor := mkGovernor {
  g_live : Live;
  g_poisoned : bool;
  g_last_pressure : DiskPressureState;
  g_contention_count : Z;
}.

Definition set_live (gov : Governor) (l : Live) : Governor :=
  mkGovernor l (g_poisoned gov) (g_last_pressure gov) (g_contention_count gov).

(** [swap(false)] of the fence mark, which fences the state. *)
Definition absorb_fence (l : Live) : Live :=
  let d := lv_drops l in
  let cleared := set_drops l (mkDrop (slot_signals d) (pending_words d) (has_pending_releases d) false) in
  if pending_fence d then fence_state cleared else cleared.

(** Taking the lock: dropped reservations are drained before anything else happens. *)
Definition enter (l : Live) : Live := absorb_fence (drain_pending l).

(** [positron-kernel/src/resource_governor/accounting.rs:441-467 GovernorInner::lock_for_admission]
    [contended] is whether another thread holds the lock at this moment. *)
Definition lock_for_admission (contended : bool) (class : WorkClass) (gov : Governor)
  : Governor * result AdmissionFailure Live :=
  let l := g_live gov in
  if contended then
    let gov := match checked_add u64_max (g_contention_count gov) 1 with
               | Some n => mkGovernor l (g_poisoned gov) (g_last_pressure gov) n
               | None => set_live gov (set_drops l (mkDrop (slot_signals (lv_drops l)) (pending_words (lv_drops l))
                           (has_pending_releases (lv_drops l)) true))
               end in
    (gov, Err (contention_failure class (g_last_pressure gov)))
  else if g_poisoned gov then
    (set_live gov (fence_state l), Err (internal_failure_at_pressure class (disk_pressure (lv_state l))))
  else let l := enter l in (set_live gov l, Ok l).

(** [positron-kernel/src/resource_governor/accounting.rs:482-501 GovernorInner::try_lock_for_control] *)
Definition try_lock_for_control (contended : bool) (gov : Governor) : Governor * result GovernorFailure Live :=
  if contended then (gov, Err (GovernorFailureContended (g_last_pressure gov)))
  else if g_poisoned gov then (set_live gov (fence_state (g_live gov)), Err GovernorFailureFenced)
  else let l := enter (g_live gov) in (set_live gov l, Ok l).

(** The refusal of a locked admission is counted before the lock is released. *)
Definition finish_admission {A} (r : Live * result AdmissionFailure A) : Live * result AdmissionFailure A :=
  match r with
  | (l, Ok a) => (l, Ok a)
  | (l, Err f) => (set_state l (record_refusal_locked (lv_state l) f), Err f)
  end.

(** [positron-kernel/src/resource_governor/admission.rs:18-29 GovernorInner::reserve_ordinary] *)
Definition reserve_ordinary (g : GovernorInner) (contended : bool) (claim : WorkClaim) (gov : Governor)
  : Governor * result AdmissionFailure ResourceReservation :=
  match lock_for_admission contended (WorkKind_class (claim_kind claim)) gov with
  | (gov, Err f) => (gov, Err f)
  | (gov, Ok l) =>
      let '(l, r) := finish_admission (reserve_ordinary_locked g claim l) in (set_live gov l, r)
  end.

(** [positron-kernel/src/resource_governor/recovery_admission.rs:15-26 GovernorInner::reserve_recovery] *)
Definition reserve_recovery (g : GovernorInner) (contended : bool) (claim : RecoveryWorkClaim) (gov : Governor)
  : Governor * result AdmissionFailure ResourceReservation :=
  match lock_for_admission contended DurabilityRecovery gov with
  | (gov, Err f) => (gov, Err f)
  | (gov, Ok l) =>
      let '(l, r) := finish_admission (reserve_recovery_locked g claim l) in (set_live gov l, r)
  end.

(** ** Reservation handles *)

(** [positron-kernel/src/resource_governor/release.rs:17-84 GovernorInner::try_release] The second
    lock attempt after an internal failure finds the lock poisoned again. *)
Definition try_release (contended : bool) (h : ResourceReservation) (gov : Governor) : Governor * ReleaseStatus :=
  match try_lock_for_control contended gov with
  | (gov, Err f) => (gov, mkStatus false (Err f))
  | (gov, Ok l) =>
      match record_at (lv_state l) (res_slot h) with
      | None =>
          let '(st, status) := finish_release
            (release_components false (res_owner h) (identity_class (res_identity h))
               (match res_identity h with IdentityOrdinary _ _ _ => true | _ => false end)
               (match res_identity h with IdentityRecovery _ kind => Some kind | _ => None end)
               (res_amounts h)) (lv_state l) in
          (set_live gov (set_state l (set_lifecycle st Fenced)), mkStatus (rs_applied status) (Err GovernorFailureFenced))
      | Some record =>
          let handle_valid := bool_decide (gr_amounts record = res_amounts h)
            && match res_identity h with
               | IdentityOrdinary _ _ _ => bool_decide (is_Some (co_pools (res_owner h)))
               | IdentityRecovery _ _ => bool_decide (is_Some (co_recovery_pools (res_owner h)))
               end in
          if negb handle_valid then let '(l, status) := fence_live l in (set_live gov l, status)
          else let '(l, status) := release_slot_locked l false (res_slot h) in (set_live gov l, status)
      end
  end.

Definition set_inactive (h : ResourceReservation) : ResourceReservation :=
  mkReservation (res_slot h) (res_owner h) (res_identity h) (res_amounts h) (res_operation h) false.

(** [positron-kernel/src/resource_governor/reservation.rs:24-35 ResourceReservation::cancel] *)
Definition cancel (contended : bool) (h : ResourceReservation) (gov : Governor)
  : Governor * ResourceReservation * result GovernorFailure ReleaseOutcome :=
  if negb (res_active h) then (gov, h, Ok AlreadyInactive)
  else
    let '(gov, status) := try_release contended h gov in
    (gov, if rs_applied status then set_inactive h else h, rs_result status).

(** [positron-kernel/src/resource_governor/reservation.rs:197-202 ResourceReservation::release] What
    dropping a reservation does. *)
Definition drop_reservation (h : ResourceReservation) (gov : Governor) : Governor :=
  if res_active h then
    set_live gov (set_drops (g_live gov) (mark_drop_pending (lv_drops (g_live gov)) (res_slot h)))
  else gov.
