(* ===== verification/GovernorControl.v ===== *)
(** Resource governor: establishing a governor, and the control operations on a live one.

    Models the configuration in [resource_governor.rs] and [accounting/setup.rs], the tenant
    topology operations of [accounting.rs], the disk observations of [pressure.rs] and shutdown
    ([lifecycle.rs]) under [positron-kernel/src/resource_governor]. Allocation is a parameter:
    whether the allocator provides the exact capacity asked for at each stage, and the byte
    sizes that the layout of the tables sums up. *)

From stdpp Require Import sets.
From S2P Require Import Prelude Outcome Identity GovernorModel GovernorPools GovernorState GovernorAdmission GovernorRelease.

(** ** Inventory *)

(** [positron-kernel/src/resource_governor/inventory.rs:11-11 MAX_TENANT_QUOTAS] *)
Definition MAX_TENANT_QUOTAS : Z := 1024.

(** [positron-kernel/src/resource_governor/inventory.rs:17-17 MAX_OUTSTANDING_RESERVATIONS] *)
Definition MAX_OUTSTANDING_RESERVATIONS : Z := u16_max.

(** [positron-kernel/src/resource_governor/inventory.rs:64-68 InventoryCardinalityLimits] *)
Record InventoryCardinalityLimits := mkCardinality {
  max_tenant_quotas : Z;
  max_outstanding_reservations : Z;
}.

(** [positron-kernel/src/resource_governor/inventory.rs:71-86 InventoryCardinalityLimits::new] *)
Definition InventoryCardinalityLimits_new (tenants outstanding : Z) : result GovernorFailure InventoryCardinalityLimits :=
  if (tenants =? 0) || (MAX_TENANT_QUOTAS <? tenants) || (outstanding =? 0) || (MAX_OUTSTANDING_RESERVATIONS <? outstanding)
  then Err InvalidConfiguration
  else Ok (mkCardinality tenants outstanding).

(** [positron-kernel/src/resource_governor/inventory.rs:133-143 ResourceInventory] The fields that
    establishment reads; the binding to the observed volume is a capability. *)
Record ResourceInventory := mkInventory {
  inv_effective : ResourceAmounts;
  inv_recovery_reserve : ResourceAmounts;
  inv_cardinality : InventoryCardinalityLimits;
  inv_disk_thresholds : DiskPressureThresholds;
  inv_initial_disk : Z;
}.

(** [positron-kernel/src/resource_governor/inventory.rs:187-219 ResourceInventory::from_parts] *)
Definition ResourceInventory_from_parts (detected operator reserve : ResourceAmounts)
    (cardinality : InventoryCardinalityLimits) (thresholds : DiskPressureThresholds) (initial_disk : Z)
  : result GovernorFailure ResourceInventory :=
  let effective := minimum detected operator in
  _ ← require_capacity effective;
  ordinary ← ok_or InvalidConfiguration (amounts_sub effective reserve);
  _ ← require_capacity ordinary;
  let detected_disk := get detected DiskHeadroomBytes in
  if (hard_enter thresholds <? get reserve DiskHeadroomBytes) || (detected_disk <? soft_exit thresholds)
     || (detected_disk <? initial_disk)
  then Err InvalidConfiguration
  else Ok (mkInventory effective reserve cardinality thresholds initial_disk).

(** [positron-kernel/src/resource_governor/policy.rs:105-110 GovernorPolicy] *)
Record GovernorPolicy := mkGovernorPolicy {
  gp_tenant_quotas : list TenantQuota;
  gp_pools : OrdinaryPoolPolicy;
  gp_principal_quota : option PrincipalQuota;
}.

(** ** Establishment *)

(** [positron-kernel/src/resource_governor/bootstrap.rs:18-35 BootstrapAllocationStage] *)
Inductive BootstrapAllocationStage :=
| StagePolicyTenantQuotas | StageOrdinaryTenantFairCapacities | StageRecoveryTenantSharedFair
| StageRecoveryTenantPoolFair | StageTenantLimits | StageOrdinaryTenantUsage | StageRecoveryTenantUsage
| StageRecoveryTenantPoolUsage | StageOrdinaryTenantPoolUsage | StageTenantOutstanding
| StageLedgerSignals | StageLedgerPendingWords | StageLedgerRecords | StageLedgerFreeSlots
| StageActiveSegmentScopes.

Section establishment.
(** Whether the allocator provides exactly the capacity asked for. *)
Context (allocates : BootstrapAllocationStage -> bool).
(** The bytes the tables take for a number of tenants and of slots; [None] when they overflow. *)
Context (layout_bytes : Z -> Z -> option Z).

Definition allocate {E} (failure : E) (stage : BootstrapAllocationStage) : result E unit :=
  if allocates stage then Ok tt else Err failure.

(** [positron-kernel/src/resource_governor/policy.rs:170-203 GovernorPolicy::new_with_failure] The
    duplicate scan compares every quota with the ones after it. *)
Definition GovernorPolicy_new (quotas : list TenantQuota) (pools : OrdinaryPoolPolicy) (required : ResourceAmounts)
  : result GovernorFailure GovernorPolicy :=
  if (zlen quotas =? 0) || (MAX_TENANT_QUOTAS <? zlen quotas) then Err PolicyCardinalityExceeded
  else
    _ ← (if bool_decide (NoDup (map q_tenant quotas)) then Ok tt else Err InvalidConfiguration);
    _ ← allocate (GovernorBootstrapInventoryUnavailable required) StagePolicyTenantQuotas;
    Ok (mkGovernorPolicy quotas pools None).

(** [positron-kernel/src/resource_governor/bootstrap.rs:115-122 BootstrapInventoryLayout::overhead] Two
    file descriptors are retained for the primary data volume. *)
Definition layout_overhead (memory_bytes : Z) : ResourceAmounts :=
  with_amount (with_amount amounts_zero MemoryBytes memory_bytes) FileDescriptors 2.

(** The initial contents of the grant and drop ledgers. *)
Definition initial_ledger (count : nat) : GrantLedger := mkLedger (replicate count None) (seq 0 count) 1.
Definition initial_drops (count : nat) : DropLedger :=
  mkDrop (replicate count SLOT_FREE) (replicate (Nat.div (count + 63) 64) 0) false false.

(** [positron-kernel/src/resource_governor/accounting/setup.rs:7-180 GovernorInner::configure] *)
Definition configure (authority : Z) (raw overhead total ordinary : ResourceAmounts) (quota : option PrincipalQuota)
    (quotas : list TenantQuota) (maximum : Z) (tenants : nat) (pools : PoolCapacities)
    (recovery_pools : RecoveryPoolCapacities) (thresholds : DiskPressureThresholds) (initial_disk : Z)
  : result GovernorFailure (GovernorInner * Governor) :=
  let unavailable := GovernorBootstrapInventoryUnavailable overhead in
  let count := Z.to_nat maximum in
  tw ← total_weight quotas;
  _ ← allocate unavailable StageOrdinaryTenantFairCapacities;
  fair ← ordinary_capacities quotas pools tw;
  protected ← ok_or InvalidConfiguration (protected_sum recovery_pools);
  shared_capacity ← ok_or InvalidConfiguration (amounts_sub total protected);
  _ ← allocate unavailable StageRecoveryTenantSharedFair;
  shared_fair ← amount_capacities quotas shared_capacity tw;
  _ ← validate_system_recovery_progress quotas recovery_pools;
  _ ← allocate unavailable StageRecoveryTenantPoolFair;
  pool_fair ← recovery_fair_capacities quotas recovery_pools tw;
  system_pools ← system_recovery_capacities recovery_pools pool_fair;
  _ ← validate_progress quotas fair maximum;
  reserve ← ok_or InvalidConfiguration (amounts_sub total ordinary);
  _ ← allocate unavailable StageTenantLimits;
  let limits := imap (fun i z => match quotas !! i with Some q => q_limits q | None => z end) (replicate tenants amounts_zero) in
  _ ← allocate unavailable StageOrdinaryTenantUsage;
  _ ← allocate unavailable StageRecoveryTenantUsage;
  _ ← allocate unavailable StageRecoveryTenantPoolUsage;
  _ ← allocate unavailable StageOrdinaryTenantPoolUsage;
  _ ← allocate unavailable StageTenantOutstanding;
  _ ← allocate unavailable StageLedgerSignals;
  _ ← allocate unavailable StageLedgerPendingWords;
  _ ← allocate unavailable StageLedgerRecords;
  _ ← allocate unavailable StageLedgerFreeSlots;
  _ ← (if u16_max + 1 <? maximum then Err InvalidConfiguration else Ok tt);
  let pressure := pressure_initial thresholds initial_disk in
  let st := mkState
    (mkTopology None quotas fair shared_fair pool_fair system_pools limits)
    (initial_ledger count)
    (mkUsage amounts_zero amounts_zero (replicate tenants amounts_zero) (replicate tenants amounts_zero)
       recovery_usage_zero recovery_usage_zero (replicate tenants recovery_usage_zero) pools_zero
       (replicate tenants pools_zero))
    (mkCounts (replicate tenants 0) 0 0 0 0 (replicate 5 0))
    (replicate 14 0) pressure initial_disk 0 Open in
  Ok (mkInner authority raw overhead total ordinary quota reserve maximum pools recovery_pools shared_capacity thresholds,
      mkGovernor (mkLive st (initial_drops count)) false pressure 0).

(** [positron-kernel/src/resource_governor.rs:318-386 ResourceGovernorConfiguration::new_with_failure] *)
Definition establish (authority : Z) (inventory : ResourceInventory) (policy : GovernorPolicy)
    (recovery_pools : RecoveryPoolCapacities) : result GovernorFailure (GovernorInner * Governor) :=
  let quotas := gp_tenant_quotas policy in
  let limits := inv_cardinality inventory in
  if max_tenant_quotas limits <? zlen quotas then Err PolicyCardinalityExceeded
  else
    memory_bytes ← (if (max_tenant_quotas limits =? 0) || (max_outstanding_reservations limits =? 0)
                    then Err InvalidConfiguration
                    else ok_or InvalidConfiguration (layout_bytes (max_tenant_quotas limits) (max_outstanding_reservations limits)));
    let overhead := layout_overhead memory_bytes in
    let unavailable := GovernorBootstrapInventoryUnavailable overhead in
    work_ceiling ← ok_or unavailable (amounts_sub (inv_effective inventory) overhead);
    ordinary ← ok_or unavailable (amounts_sub work_ceiling (inv_recovery_reserve inventory));
    if negb (all_positive ordinary) then Err unavailable
    else if existsb (fun q => negb (is_at_most (q_limits q) ordinary)) quotas then Err InvalidConfiguration
    else
      pools ← pool_policy_derive (gp_pools policy) ordinary;
      protected ← ok_or InvalidConfiguration (protected_sum recovery_pools);
      if negb (is_at_most protected (inv_recovery_reserve inventory)) then Err InvalidConfiguration
      else
        _ ← allocate unavailable StageActiveSegmentScopes;
        configure authority (inv_effective inventory) overhead work_ceiling ordinary (gp_principal_quota policy) quotas
          (max_outstanding_reservations limits) (Z.to_nat (max_tenant_quotas limits)) pools recovery_pools
          (inv_disk_thresholds inventory) (inv_initial_disk inventory).
End establishment.

(** ** Tenant topology *)

(** [positron-kernel/src/resource_governor/accounting.rs:275-285 GovernorInner::validate_tenant_quota] *)
Definition validate_tenant_quota (g : GovernorInner) (weight : Z) (limits : ResourceAmounts) : result GovernorFailure unit :=
  if (weight =? 0) || negb (all_positive limits) || negb (is_at_most limits (ordinary_ceiling g))
  then Err InvalidConfiguration else Ok tt.

(** [positron-kernel/src/resource_governor/accounting.rs:359-389 GovernorInner::derive_tenant_fairness] Here
    [reserves] is whether the allocator provides room for the derived tables. *)
Definition derive_tenant_fairness (g : GovernorInner) (reserves : bool) (quotas : list TenantQuota)
  : result GovernorFailure (list PoolCapacities * list ResourceAmounts * list RecoveryPoolCapacities) :=
  tw ← total_weight quotas;
  _ ← (if reserves then Ok tt else Err (GovernorBootstrapInventoryUnavailable (bootstrap_overhead g)));
  fair ← ordinary_capacities quotas (pool_capacities g) tw;
  _ ← validate_system_recovery_progress quotas (recovery_pool_capacities g);
  shared ← amount_capacities quotas (recovery_shared_capacity g) tw;
  pools ← recovery_fair_capacities quotas (recovery_pool_capacities g) tw;
  _ ← system_recovery_capacities (recovery_pool_capacities g) pools;
  _ ← validate_progress quotas fair (maximum_outstanding g);
  Ok (fair, shared, pools).

(** [positron-kernel/src/resource_governor/accounting.rs:305-357 GovernorInner::enroll_tenant_quota] The
    part after the lock is taken. *)
Definition enroll_locked (g : GovernorInner) (reserves : bool) (tenant : TenantId) (weight : Z) (limits : ResourceAmounts)
    (pending : bool) (st : AccountingState) : result GovernorFailure AccountingState :=
  let t := topology st in
  if pending && bool_decide (is_Some (pending_tenant t)) then Err (GovernorFailureContended (disk_pressure st))
  else if existsb (fun q => bool_decide (q_tenant q = tenant)) (tenant_quotas t) then Err InvalidConfiguration
  else
    let slot := length (tenant_quotas t) in
    if (length (tenant_limits t) <=? slot)%nat then Err InvalidConfiguration
    else
      quota ← TenantQuota_new tenant weight limits;
      let successor := tenant_quotas t ++ [quota] in
      '(fair, shared, pools) ← derive_tenant_fairness g reserves successor;
      system ← system_recovery_capacities (recovery_pool_capacities g) pools;
      _ ← validate_progress successor fair (maximum_outstanding g);
      limits' ← ok_or GovernorFailureFenced (store_at (tenant_limits t) slot limits);
      Ok (set_topology st (mkTopology (if pending then Some tenant else pending_tenant t) successor fair shared pools system limits')).

(** Runs a control step under the lock. *)
Definition with_control (contended : bool) (gov : Governor)
    (f : AccountingState -> result GovernorFailure AccountingState) : Governor * result GovernorFailure unit :=
  match try_lock_for_control contended gov with
  | (gov, Err e) => (gov, Err e)
  | (gov, Ok l) =>
      match f (lv_state l) with
      | Ok st => (set_live gov (set_state l st), Ok tt)
      | Err e => (gov, Err e)
      end
  end.

(** [positron-kernel/src/resource_governor/accounting.rs:305-357 GovernorInner::enroll_tenant_quota] *)
Definition enroll_tenant_quota (g : GovernorInner) (reserves contended : bool) (tenant : TenantId) (weight : Z)
    (limits : ResourceAmounts) (pending : bool) (gov : Governor) : Governor * result GovernorFailure unit :=
  match validate_tenant_quota g weight limits with
  | Err e => (gov, Err e)
  | Ok _ => with_control contended gov (enroll_locked g reserves tenant weight limits pending)
  end.

(** [positron-kernel/src/resource_governor/accounting.rs:138-145 TenantQuotaSuccessor] *)
Record TenantQuotaSuccessor := mkSuccessor {
  su_quotas : list TenantQuota;
  su_fair : list PoolCapacities;
  su_shared : list ResourceAmounts;
  su_pools : list RecoveryPoolCapacities;
  su_system : RecoveryPoolCapacities;
  su_limits : list ResourceAmounts;
}.

(** [positron-kernel/src/resource_governor/accounting.rs:238-273 GovernorInner::stage_tenant_quota_update] *)
Definition stage_tenant_quota_update (g : GovernorInner) (reserves contended : bool) (tenant : TenantId) (weight : Z)
    (limits : ResourceAmounts) (gov : Governor) : Governor * result GovernorFailure TenantQuotaSuccessor :=
  match validate_tenant_quota g weight limits with
  | Err e => (gov, Err e)
  | Ok _ =>
      match try_lock_for_control contended gov with
      | (gov, Err e) => (gov, Err e)
      | (gov, Ok l) =>
          (gov,
           let t := topology (lv_state l) in
           index ← ok_or InvalidConfiguration (position (fun q => bool_decide (q_tenant q = tenant)) (tenant_quotas t));
           quota ← TenantQuota_new tenant weight limits;
           successor ← ok_or GovernorFailureFenced (store_at (tenant_quotas t) index quota);
           '(fair, shared, pools) ← derive_tenant_fairness g reserves successor;
           system ← system_recovery_capacities (recovery_pool_capacities g) pools;
           limits' ← ok_or GovernorFailureFenced (store_at (tenant_limits t) index limits);
           Ok (mkSuccessor successor fair shared pools system limits'))
      end
  end.

(** [positron-kernel/src/resource_governor/accounting.rs:154-181 StagedTenantQuotaUpdate::publish] It waits
    for the lock, so it never finds it contended. *)
Definition publish (s : TenantQuotaSuccessor) (gov : Governor) : Governor :=
  let l := if g_poisoned gov then fence_state (g_live gov) else g_live gov in
  let l := enter l in
  let st := lv_state l in
  set_live gov (set_state l (set_topology st
    (mkTopology (pending_tenant (topology st)) (su_quotas s) (su_fair s) (su_shared s) (su_pools s) (su_system s) (su_limits s)))).

(** [positron-kernel/src/resource_governor/accounting.rs:227-236 GovernorInner::update_tenant_quota] *)
Definition update_tenant_quota (g : GovernorInner) (reserves contended : bool) (tenant : TenantId) (weight : Z)
    (limits : ResourceAmounts) (gov : Governor) : Governor * result GovernorFailure unit :=
  match stage_tenant_quota_update g reserves contended tenant weight limits gov with
  | (gov, Ok s) => (publish s gov, Ok tt)
  | (gov, Err e) => (gov, Err e)
  end.

Definition with_pending (t : TenantTopology) (p : option TenantId) : TenantTopology :=
  mkTopology p (tenant_quotas t) (tenant_fair_capacities t) (recovery_tenant_shared_fair t)
    (recovery_tenant_pool_fair t) (recovery_system_pool_capacities t) (tenant_limits t).

(** [positron-kernel/src/resource_governor/accounting.rs:390-398 GovernorInner::activate_tenant_quota] *)
Definition activate_tenant_quota (tenant : TenantId) (gov : Governor) : Governor :=
  let st := lv_state (g_live gov) in
  if bool_decide (pending_tenant (topology st) = Some tenant)
  then set_live gov (set_state (g_live gov) (set_topology st (with_pending (topology st) None)))
  else gov.

(** [Vec::pop] where the popped element is not used. *)
Definition pop {A} (l : list A) : list A := take (length l - 1) l.

(** [positron-kernel/src/resource_governor/accounting.rs:399-420 GovernorInner::rollback_tenant_quota] *)
Definition rollback_tenant_quota (contended : bool) (tenant : TenantId) (gov : Governor) : Governor :=
  match try_lock_for_control contended gov with
  | (gov, Err _) => gov
  | (gov, Ok l) =>
      let st := lv_state l in
      let t := topology st in
      if negb (bool_decide (pending_tenant t = Some tenant))
         || negb (bool_decide (q_tenant <$> last (tenant_quotas t) = Some tenant))
      then gov
      else
        let quotas := pop (tenant_quotas t) in
        let limits := default_to (tenant_limits t) (store_at (tenant_limits t) (length quotas) amounts_zero) in
        set_live gov (set_state l (set_topology st
          (mkTopology None quotas (pop (tenant_fair_capacities t)) (pop (recovery_tenant_shared_fair t))
             (pop (recovery_tenant_pool_fair t)) (recovery_system_pool_capacities t) limits)))
  end.

(** ** Disk pressure and shutdown *)

(** [positron-kernel/src/resource_governor/pressure.rs:49-73 GovernorInner::apply_disk_observation] *)
Definition apply_disk_observation (g : GovernorInner) (contended : bool) (usable_bytes : Z) (gov : Governor)
  : Governor * result GovernorFailure DiskPressureState :=
  match try_lock_for_control contended gov with
  | (gov, Err e) => (gov, Err e)
  | (gov, Ok l) =>
      let st := lv_state l in
      if bool_decide (lifecycle st = Fenced) then (gov, Err GovernorFailureFenced)
      else
        let pressure := pressure_transition (disk_thresholds g) (disk_pressure st) usable_bytes in
        let observed := set_pressure st (disk_pressure st) usable_bytes (pressure_transition_count st) in
        if bool_decide (pressure = disk_pressure st) then (set_live gov (set_state l observed), Ok pressure)
        else
          match checked_add u64_max (pressure_transition_count st) 1 with
          | None => (set_live gov (set_state l (set_lifecycle observed Fenced)), Err GovernorFailureFenced)
          | Some n =>
              (mkGovernor (set_state l (set_pressure st pressure usable_bytes n)) (g_poisoned gov) pressure (g_contention_count gov),
               Ok pressure)
          end
  end.

(** [positron-kernel/src/resource_governor/lifecycle.rs:144-152 GovernorInner::begin_shutdown] The state
    change; the snapshot it returns is read from the resulting state. *)
Definition begin_shutdown (contended : bool) (gov : Governor) : Governor * result GovernorFailure unit :=
  with_control contended gov (fun st =>
    match lifecycle st with
    | Open => Ok (set_lifecycle st ShuttingDown)
    | ShuttingDown => Ok st
    | Fenced => Err GovernorFailureFenced
    end).
