(* ===== verification/GovernorConservation.v ===== *)
(** Resource governor: conservation of capacity.

    The abstract view of the governor is the multiset of its grant records: every total, every
    per-tenant and per-pool usage and every counter of the accounting state must be the sum, over
    the recorded grants, of what each grant was charged. This file states that invariant and
    proves that admission and release preserve it, that releasing a recorded grant never fails,
    and that a refused admission changes no usage. *)

From stdpp Require Import sets.
From S2P Require Import Prelude Outcome Identity GovernorModel GovernorPools GovernorState GovernorAdmission GovernorRelease.

(** ** What one grant is charged *)

(** A root whose own charge was released stays in its slot until its children are gone. *)
Definition charged (r : GrantRecord) : bool :=
  match gr_operation r with Some (Root _ false _) => false | _ => true end.

Definition when (b : bool) (z : Z) : Z := if b then z else 0.

Definition of_tenant (i : nat) (r : GrantRecord) : bool := bool_decide (grant_tenant_index r = Some i).
Definition in_scope (sc : option nat) (r : GrantRecord) : bool :=
  negb (grant_is_ordinary r) && bool_decide (grant_tenant_index r = sc).

Definition m_total (d : ResourceDimension) (r : GrantRecord) : Z := get (gr_amounts r) d.
Definition m_recovery (d : ResourceDimension) (r : GrantRecord) : Z := when (negb (grant_is_ordinary r)) (m_total d r).
Definition m_tenant (i : nat) (d : ResourceDimension) (r : GrantRecord) : Z :=
  when (grant_is_ordinary r && of_tenant i r) (m_total d r).
Definition m_recovery_tenant (i : nat) (d : ResourceDimension) (r : GrantRecord) : Z :=
  when (in_scope (Some i) r) (m_total d r).

Definition m_shared (d : ResourceDimension) (r : GrantRecord) : Z := get (gr_shared r) d.
Definition m_protected (d : ResourceDimension) (r : GrantRecord) : Z := get (gr_amounts r) d - get (gr_shared r) d.

(** The charge of a grant to one ordinary pool. *)
Definition m_pool (p : OrdinaryPool) (d : ResourceDimension) (r : GrantRecord) : Z :=
  when (grant_is_ordinary r)
    (when (bool_decide (p = PoolShared)) (m_shared d r)
     + when (bool_decide (Some p = for_class (grant_class r))) (m_protected d r)).
Definition m_tenant_pool (i : nat) (p : OrdinaryPool) (d : ResourceDimension) (r : GrantRecord) : Z :=
  when (of_tenant i r) (m_pool p d r).

(** The charge of a recovery grant to the shared capacity and to the pool of a kind. *)
Definition m_rshared (d : ResourceDimension) (r : GrantRecord) : Z := when (negb (grant_is_ordinary r)) (m_shared d r).
Definition m_rprotected (k : RecoveryWorkKind) (d : ResourceDimension) (r : GrantRecord) : Z :=
  when (bool_decide (grant_recovery_kind r = Some k)) (m_protected d r).
Definition m_rshared_at (sc : option nat) (d : ResourceDimension) (r : GrantRecord) : Z :=
  when (in_scope sc r) (m_rshared d r).
Definition m_rprotected_at (sc : option nat) (k : RecoveryWorkKind) (d : ResourceDimension) (r : GrantRecord) : Z :=
  when (in_scope sc r) (m_rprotected k d r).

Definition m_count (r : GrantRecord) : Z := when (charged r) 1.
Definition m_ordinary_count (r : GrantRecord) : Z := when (grant_is_ordinary r) (m_count r).
Definition m_recovery_count (r : GrantRecord) : Z := when (negb (grant_is_ordinary r)) (m_count r).
Definition m_uninterruptible (r : GrantRecord) : Z :=
  when (match grant_recovery_kind r with Some k => retains_capacity k | None => false end) (m_count r).
Definition m_class (c : WorkClass) (r : GrantRecord) : Z := when (bool_decide (grant_class r = c)) (m_count r).
Definition m_tenant_count (i : nat) (r : GrantRecord) : Z := when (of_tenant i r) (m_count r).

(** ** Sums over the grant records *)

Definition opt_measure (f : GrantRecord -> Z) (o : option GrantRecord) : Z := match o with Some r => f r | None => 0 end.
Definition rsum (f : GrantRecord -> Z) (rs : list (option GrantRecord)) : Z := zsum (opt_measure f) rs.

(** Grants of the same work that are charged alike. *)
Definition same_charge (r r' : GrantRecord) : Prop :=
  gr_amounts r = gr_amounts r' /\ gr_shared r = gr_shared r' /\ gr_tenant_index r = gr_tenant_index r'
  /\ gr_kind r = gr_kind r' /\ charged r = charged r' /\ gr_tenant r = gr_tenant r' /\ gr_principal r = gr_principal r'.

(** A measure of what a grant is charged: grants charged alike measure the same, and a released
    root measures nothing. *)
Class Charge (f : GrantRecord -> Z) : Prop := {
  charge_proper r r' : same_charge r r' -> f r = f r';
  charge_released r : charged r = false -> gr_amounts r = amounts_zero -> gr_shared r = amounts_zero -> f r = 0;
}.

Ltac unfold_measures :=
  unfold m_tenant_pool, m_pool, m_tenant, m_recovery_tenant, m_recovery, m_total, m_rshared_at, m_rprotected_at, m_rshared,
    m_rprotected, m_shared, m_protected, m_ordinary_count, m_recovery_count, m_uninterruptible, m_class, m_tenant_count, m_count.

Ltac solve_charge :=
  split;
  [intros ? ? (Ha & Hs & Ht & Hk & Hc & _); unfold_measures;
   unfold in_scope, of_tenant, grant_is_ordinary, grant_class, grant_recovery_kind, grant_tenant_index;
   by rewrite ?Ha, ?Hs, ?Ht, ?Hk, ?Hc
  |intros ? Hc Ha Hs; unfold_measures; rewrite ?Ha, ?Hs, ?Hc, ?get_zero; unfold when; repeat case_match; lia].

#[global] Instance charge_total d : Charge (m_total d). Proof. solve_charge. Qed.
#[global] Instance charge_recovery d : Charge (m_recovery d). Proof. solve_charge. Qed.
#[global] Instance charge_tenant i d : Charge (m_tenant i d). Proof. solve_charge. Qed.
#[global] Instance charge_recovery_tenant i d : Charge (m_recovery_tenant i d). Proof. solve_charge. Qed.
#[global] Instance charge_pool p d : Charge (m_pool p d). Proof. solve_charge. Qed.
#[global] Instance charge_tenant_pool i p d : Charge (m_tenant_pool i p d). Proof. solve_charge. Qed.
#[global] Instance charge_rshared d : Charge (m_rshared d). Proof. solve_charge. Qed.
#[global] Instance charge_rprotected k d : Charge (m_rprotected k d). Proof. solve_charge. Qed.
#[global] Instance charge_rshared_at sc d : Charge (m_rshared_at sc d). Proof. solve_charge. Qed.
#[global] Instance charge_rprotected_at sc k d : Charge (m_rprotected_at sc k d). Proof. solve_charge. Qed.
#[global] Instance charge_count : Charge m_count. Proof. solve_charge. Qed.
#[global] Instance charge_ordinary_count : Charge m_ordinary_count. Proof. solve_charge. Qed.
#[global] Instance charge_recovery_count : Charge m_recovery_count. Proof. solve_charge. Qed.
#[global] Instance charge_uninterruptible : Charge m_uninterruptible. Proof. solve_charge. Qed.
#[global] Instance charge_class c : Charge (m_class c). Proof. solve_charge. Qed.
#[global] Instance charge_tenant_count i : Charge (m_tenant_count i). Proof. solve_charge. Qed.

(** [rs'] has, for every charge, the sum of [rs] changed by [sign] times what [r] is charged. *)
Definition shifts (sign : Z) (r : GrantRecord) (rs rs' : list (option GrantRecord)) : Prop :=
  forall f, Charge f -> rsum f rs' = rsum f rs + sign * f r.

Lemma rsum_insert f rs slot o o' : rs !! slot = Some o ->
  rsum f (<[slot := o']> rs) = rsum f rs - opt_measure f o + opt_measure f o'.
Proof. intros H. unfold rsum. by rewrite (zsum_insert _ _ _ _ _ H). Qed.

Lemma shifts_fill rs slot r : rs !! slot = Some None -> shifts 1 r rs (<[slot := Some r]> rs).
Proof. intros H f Hf. rewrite (rsum_insert _ _ _ _ _ H). cbn [opt_measure]. lia. Qed.

Lemma shifts_clear rs slot r : rs !! slot = Some (Some r) -> shifts (-1) r rs (<[slot := None]> rs).
Proof. intros H f Hf. rewrite (rsum_insert _ _ _ _ _ H). cbn [opt_measure]. lia. Qed.

(** Replacing a record by one charged alike changes no sum. *)
Lemma shifts_retag sign r rs rs' slot r0 r1 : shifts sign r rs rs' -> rs' !! slot = Some (Some r0) -> same_charge r0 r1 ->
  shifts sign r rs (<[slot := Some r1]> rs').
Proof.
  intros H Hs Hc f Hf. rewrite (rsum_insert _ _ _ _ _ Hs), (H f Hf). cbn [opt_measure]. rewrite (charge_proper (f := f) r0 r1 Hc). lia.
Qed.

(** A root that keeps its slot without its charge. *)
Lemma shifts_release rs slot r r' : rs !! slot = Some (Some r) ->
  charged r' = false -> gr_amounts r' = amounts_zero -> gr_shared r' = amounts_zero -> shifts (-1) r rs (<[slot := Some r']> rs).
Proof.
  intros H Hc Ha Hs f Hf. rewrite (rsum_insert _ _ _ _ _ H). cbn [opt_measure]. rewrite (charge_released (f := f) r' Hc Ha Hs). lia.
Qed.

(** Clearing a root that has no charge left changes no sum. *)
Lemma shifts_clear_released sign r rs rs' slot r0 : shifts sign r rs rs' -> rs' !! slot = Some (Some r0) ->
  charged r0 = false -> gr_amounts r0 = amounts_zero -> gr_shared r0 = amounts_zero -> shifts sign r rs (<[slot := None]> rs').
Proof.
  intros H Hs Hc Ha Hsh f Hf. rewrite (rsum_insert _ _ _ _ _ Hs), (H f Hf). cbn [opt_measure]. rewrite (charge_released (f := f) r0 Hc Ha Hsh). lia.
Qed.

(** ** The invariant *)

(** The vectors and counters agree with the recorded grants. *)
Record Conserved (u : UsageTotals) (c : OutstandingCounts) (rs : list (option GrantRecord)) : Prop := {
  cs_total d : get (total_usage u) d = rsum (m_total d) rs;
  cs_recovery d : get (recovery_usage u) d = rsum (m_recovery d) rs;
  cs_tenant i a d : ordinary_tenant_usage u !! i = Some a -> get a d = rsum (m_tenant i d) rs;
  cs_recovery_tenant i a d : recovery_tenant_usage u !! i = Some a -> get a d = rsum (m_recovery_tenant i d) rs;
  cs_pool p d : get (pool_get (pool_usage u) p) d = rsum (m_pool p d) rs;
  cs_tenant_pool i a p d : ordinary_tenant_pool_usage u !! i = Some a -> get (pool_get a p) d = rsum (m_tenant_pool i p d) rs;
  cs_rshared d : get (ru_shared (recovery_pool_usage u)) d = rsum (m_rshared d) rs;
  cs_rprotected k d : get (usage_protected (recovery_pool_usage u) k) d = rsum (m_rprotected k d) rs;
  cs_sshared d : get (ru_shared (recovery_system_pool_usage u)) d = rsum (m_rshared_at None d) rs;
  cs_sprotected k d : get (usage_protected (recovery_system_pool_usage u) k) d = rsum (m_rprotected_at None k d) rs;
  cs_tshared i a d : recovery_tenant_pool_usage u !! i = Some a -> get (ru_shared a) d = rsum (m_rshared_at (Some i) d) rs;
  cs_tprotected i a k d : recovery_tenant_pool_usage u !! i = Some a ->
    get (usage_protected a k) d = rsum (m_rprotected_at (Some i) k d) rs;
  cs_count : outstanding c = rsum m_count rs;
  cs_ordinary_count : outstanding_ordinary c = rsum m_ordinary_count rs;
  cs_recovery_count : outstanding_recovery c = rsum m_recovery_count rs;
  cs_uninterruptible : outstanding_uninterruptible c = rsum m_uninterruptible rs;
  cs_class cl n : class_counts c !! class_index cl = Some n -> n = rsum (m_class cl) rs;
  cs_tenant_count i n : tenant_outstanding c !! i = Some n -> n = rsum (m_tenant_count i) rs;
}.

(** The per-tenant tables have one entry for each of [n] tenants. *)
Record Shaped (n : nat) (u : UsageTotals) (c : OutstandingCounts) : Prop := {
  sh_tenant : length (ordinary_tenant_usage u) = n;
  sh_recovery_tenant : length (recovery_tenant_usage u) = n;
  sh_tenant_pool : length (ordinary_tenant_pool_usage u) = n;
  sh_recovery_tenant_pool : length (recovery_tenant_pool_usage u) = n;
  sh_tenant_count : length (tenant_outstanding c) = n;
  sh_class : length (class_counts c) = 5%nat;
}.

(** A record that an admission can have written. *)
Record wf_record (n : nat) (r : GrantRecord) : Prop := {
  wf_shared d : 0 <= get (gr_shared r) d <= get (gr_amounts r) d;
  wf_tenant : grant_is_ordinary r = true -> is_Some (grant_tenant_index r);
  wf_index i : grant_tenant_index r = Some i -> (i < n)%nat;
  wf_released : charged r = false -> gr_amounts r = amounts_zero;
  wf_recovery : grant_is_ordinary r = false -> gr_operation r = None;
  wf_range : 0 <= gr_tenant_index r <= u16_max;
}.

(** How many children a slot has. *)
Definition m_child (root : nat) (r : GrantRecord) : Z :=
  match gr_operation r with Some (Child root' _) => when (bool_decide (root' = root)) 1 | _ => 0 end.

(** The free list and the slot signals agree with the records. *)
Record SlotsOk (rs : list (option GrantRecord)) (free : list nat) (signals : list SlotSignal) : Prop := {
  so_free slot : slot ∈ free <-> rs !! slot = Some None;
  so_nodup : NoDup free;
  so_signals : length signals = length rs;
  so_signal slot o : rs !! slot = Some o -> (signals !! slot = Some SLOT_FREE <-> o = None);
  so_length : Z.of_nat (length rs) <= u16_max;
}.

(** Records are well formed, roots count their children, and every child has its root. *)
Record OpsOk (n : nat) (rs : list (option GrantRecord)) : Prop := {
  oo_wf slot r : rs !! slot = Some (Some r) -> wf_record n r;
  oo_root slot r g a k : rs !! slot = Some (Some r) -> gr_operation r = Some (Root g a k) ->
    k = rsum (m_child slot) rs /\ (a = false -> 0 < k);
  oo_child slot r root g : rs !! slot = Some (Some r) -> gr_operation r = Some (Child root g) ->
    exists r0 a k, rs !! root = Some (Some r0) /\ gr_operation r0 = Some (Root g a k);
}.

Record Inv (n : nat) (l : Live) : Prop := {
  inv_conserved : Conserved (usage (lv_state l)) (counts (lv_state l)) (grant_records (grants (lv_state l)));
  inv_shaped : Shaped n (usage (lv_state l)) (counts (lv_state l));
  inv_slots : SlotsOk (grant_records (grants (lv_state l))) (free_slots (grants (lv_state l))) (slot_signals (lv_drops l));
  inv_ops : OpsOk n (grant_records (grants (lv_state l)));
}.

(** ** Moving a charge *)

(** The vectors and counters moved by [sign] times what [r] is charged. *)
Record Moved (sign : Z) (r : GrantRecord) (u : UsageTotals) (c : OutstandingCounts) (u' : UsageTotals) (c' : OutstandingCounts) : Prop := {
  mv_total d : get (total_usage u') d = get (total_usage u) d + sign * m_total d r;
  mv_recovery d : get (recovery_usage u') d = get (recovery_usage u) d + sign * m_recovery d r;
  mv_tenant i a' : ordinary_tenant_usage u' !! i = Some a' -> exists a, ordinary_tenant_usage u !! i = Some a
    /\ forall d, get a' d = get a d + sign * m_tenant i d r;
  mv_recovery_tenant i a' : recovery_tenant_usage u' !! i = Some a' -> exists a, recovery_tenant_usage u !! i = Some a
    /\ forall d, get a' d = get a d + sign * m_recovery_tenant i d r;
  mv_pool p d : get (pool_get (pool_usage u') p) d = get (pool_get (pool_usage u) p) d + sign * m_pool p d r;
  mv_tenant_pool i a' : ordinary_tenant_pool_usage u' !! i = Some a' -> exists a, ordinary_tenant_pool_usage u !! i = Some a
    /\ forall p d, get (pool_get a' p) d = get (pool_get a p) d + sign * m_tenant_pool i p d r;
  mv_rshared d : get (ru_shared (recovery_pool_usage u')) d = get (ru_shared (recovery_pool_usage u)) d + sign * m_rshared d r;
  mv_rprotected k d : get (usage_protected (recovery_pool_usage u') k) d
    = get (usage_protected (recovery_pool_usage u) k) d + sign * m_rprotected k d r;
  mv_sshared d : get (ru_shared (recovery_system_pool_usage u')) d
    = get (ru_shared (recovery_system_pool_usage u)) d + sign * m_rshared_at None d r;
  mv_sprotected k d : get (usage_protected (recovery_system_pool_usage u') k) d
    = get (usage_protected (recovery_system_pool_usage u) k) d + sign * m_rprotected_at None k d r;
  mv_tpool i a' : recovery_tenant_pool_usage u' !! i = Some a' -> exists a, recovery_tenant_pool_usage u !! i = Some a
    /\ (forall d, get (ru_shared a') d = get (ru_shared a) d + sign * m_rshared_at (Some i) d r)
    /\ forall k d, get (usage_protected a' k) d = get (usage_protected a k) d + sign * m_rprotected_at (Some i) k d r;
  mv_count : outstanding c' = outstanding c + sign * m_count r;
  mv_ordinary_count : outstanding_ordinary c' = outstanding_ordinary c + sign * m_ordinary_count r;
  mv_recovery_count : outstanding_recovery c' = outstanding_recovery c + sign * m_recovery_count r;
  mv_uninterruptible : outstanding_uninterruptible c' = outstanding_uninterruptible c + sign * m_uninterruptible r;
  mv_class cl n' : class_counts c' !! class_index cl = Some n' ->
    exists n, class_counts c !! class_index cl = Some n /\ n' = n + sign * m_class cl r;
  mv_tenant_count i n' : tenant_outstanding c' !! i = Some n' ->
    exists n, tenant_outstanding c !! i = Some n /\ n' = n + sign * m_tenant_count i r;
}.

Lemma moved_conserved sign r u c u' c' rs rs' :
  Conserved u c rs -> Moved sign r u c u' c' -> shifts sign r rs rs' -> Conserved u' c' rs'.
Proof.
  intros HC HM HS. split.
  - intros d. by rewrite (mv_total _ _ _ _ _ _ HM), (cs_total _ _ _ HC), (HS _ _).
  - intros d. by rewrite (mv_recovery _ _ _ _ _ _ HM), (cs_recovery _ _ _ HC), (HS _ _).
  - intros i a d H. destruct (mv_tenant _ _ _ _ _ _ HM i a H) as (a0 & H0 & Hd).
    by rewrite Hd, (cs_tenant _ _ _ HC i a0 d H0), (HS _ _).
  - intros i a d H. destruct (mv_recovery_tenant _ _ _ _ _ _ HM i a H) as (a0 & H0 & Hd).
    by rewrite Hd, (cs_recovery_tenant _ _ _ HC i a0 d H0), (HS _ _).
  - intros p d. by rewrite (mv_pool _ _ _ _ _ _ HM), (cs_pool _ _ _ HC), (HS _ _).
  - intros i a p d H. destruct (mv_tenant_pool _ _ _ _ _ _ HM i a H) as (a0 & H0 & Hd).
    by rewrite Hd, (cs_tenant_pool _ _ _ HC i a0 p d H0), (HS _ _).
  - intros d. by rewrite (mv_rshared _ _ _ _ _ _ HM), (cs_rshared _ _ _ HC), (HS _ _).
  - intros k d. by rewrite (mv_rprotected _ _ _ _ _ _ HM), (cs_rprotected _ _ _ HC), (HS _ _).
  - intros d. by rewrite (mv_sshared _ _ _ _ _ _ HM), (cs_sshared _ _ _ HC), (HS _ _).
  - intros k d. by rewrite (mv_sprotected _ _ _ _ _ _ HM), (cs_sprotected _ _ _ HC), (HS _ _).
  - intros i a d H. destruct (mv_tpool _ _ _ _ _ _ HM i a H) as (a0 & H0 & Hd & _).
    by rewrite Hd, (cs_tshared _ _ _ HC i a0 d H0), (HS _ _).
  - intros i a k d H. destruct (mv_tpool _ _ _ _ _ _ HM i a H) as (a0 & H0 & _ & Hd).
    by rewrite Hd, (cs_tprotected _ _ _ HC i a0 k d H0), (HS _ _).
  - by rewrite (mv_count _ _ _ _ _ _ HM), (cs_count _ _ _ HC), (HS _ _).
  - by rewrite (mv_ordinary_count _ _ _ _ _ _ HM), (cs_ordinary_count _ _ _ HC), (HS _ _).
  - by rewrite (mv_recovery_count _ _ _ _ _ _ HM), (cs_recovery_count _ _ _ HC), (HS _ _).
  - by rewrite (mv_uninterruptible _ _ _ _ _ _ HM), (cs_uninterruptible _ _ _ HC), (HS _ _).
  - intros cl n H. destruct (mv_class _ _ _ _ _ _ HM cl n H) as (n0 & H0 & ->).
    by rewrite (cs_class _ _ _ HC cl n0 H0), (HS _ _).
  - intros i n H. destruct (mv_tenant_count _ _ _ _ _ _ HM i n H) as (n0 & H0 & ->).
    by rewrite (cs_tenant_count _ _ _ HC i n0 H0), (HS _ _).
Qed.

(** Writing one entry of a table moves that entry only. *)
Lemma insert_moves {A} (l : list A) i a' j b (P : nat -> A -> A -> Prop) :
  (forall a, l !! i = Some a -> P i a a') -> (forall k a, k <> i -> P k a a) ->
  <[i := a']> l !! j = Some b -> exists a, l !! j = Some a /\ P j a b.
Proof.
  intros Hi Hk Hj. destruct (decide (j = i)) as [->|Hne].
  - destruct (l !! i) as [a|] eqn:Ha.
    + rewrite list_lookup_insert_eq in Hj by (by eapply lookup_lt_Some). injection Hj as <-. eauto.
    + rewrite list_insert_ge in Hj by (by apply lookup_ge_None). congruence.
  - rewrite list_lookup_insert_ne in Hj by congruence. eauto.
Qed.

Lemma when_true b z : b = true -> when b z = z.
Proof. by intros ->. Qed.
Lemma when_false b z : b = false -> when b z = 0.
Proof. by intros ->. Qed.

(** The pool charge of an ordinary grant, as its record reconstructs it. *)
Definition record_charge (r : GrantRecord) (cp : OrdinaryPool) : PoolCharge :=
  mkPoolCharge cp (gr_shared r) (zip_map Z.sub (gr_amounts r) (gr_shared r)).

Lemma record_charge_pool r cp p d : grant_is_ordinary r = true -> for_class (grant_class r) = Some cp ->
  get (pool_get (charge_capacities (record_charge r cp)) p) d = m_pool p d r.
Proof.
  intros Ho Hc. rewrite get_charge_capacities by (by eapply for_class_not_shared). cbn [record_charge pch_shared pch_protected pch_class_pool].
  unfold m_pool, m_shared, m_protected. rewrite (when_true _ _ Ho), Hc, get_zip_map. unfold when.
  destruct (decide (p = PoolShared)); destruct (decide (p = cp)) as [->|]; repeat case_bool_decide; simplify_eq; lia.
Qed.

Lemma class_index_inj a b : class_index a = class_index b -> a = b.
Proof. by destruct a, b. Qed.

Lemma ordinary_recovery_kind r : grant_is_ordinary r = true -> grant_recovery_kind r = None.
Proof. unfold grant_is_ordinary, grant_recovery_kind. by destruct (gr_kind r). Qed.

Lemma class_moves sign r (l : list Z) k cl n' : charged r = true -> l !! class_index (grant_class r) = Some k ->
  <[class_index (grant_class r) := k + sign]> l !! class_index cl = Some n' ->
  exists n, l !! class_index cl = Some n /\ n' = n + sign * m_class cl r.
Proof.
  intros Hch Hk Hl. unfold m_class, m_count. rewrite (when_true _ 1 Hch).
  destruct (decide (grant_class r = cl)) as [<-|Hne].
  - rewrite list_lookup_insert_eq in Hl by (by eapply lookup_lt_Some). injection Hl as <-. exists k. split; [done|].
    rewrite when_true by (by apply bool_decide_eq_true). lia.
  - rewrite list_lookup_insert_ne in Hl by (intros He; by apply class_index_inj in He). exists n'. split; [done|].
    rewrite when_false by (by apply bool_decide_eq_false). lia.
Qed.

Lemma tenant_count_moves sign r (l : list Z) i k j n' : charged r = true -> grant_tenant_index r = Some i -> l !! i = Some k ->
  <[i := k + sign]> l !! j = Some n' -> exists n, l !! j = Some n /\ n' = n + sign * m_tenant_count j r.
Proof.
  intros Hch Ht Hk. apply (insert_moves l i (k + sign) j n' (fun j n n' => n' = n + sign * m_tenant_count j r));
    unfold m_tenant_count, m_count, of_tenant; rewrite (when_true _ 1 Hch), Ht.
  - intros a Ha. rewrite when_true by (by apply bool_decide_eq_true). simplify_eq. lia.
  - intros j' a Hne. rewrite when_false by (apply bool_decide_eq_false; congruence). lia.
Qed.

Lemma moved_ordinary sign r i cp u c total' a a' pool' tp tp' k tc :
  grant_is_ordinary r = true -> grant_tenant_index r = Some i -> for_class (grant_class r) = Some cp -> charged r = true ->
  (forall d, get total' d = get (total_usage u) d + sign * get (gr_amounts r) d) ->
  ordinary_tenant_usage u !! i = Some a -> (forall d, get a' d = get a d + sign * get (gr_amounts r) d) ->
  (forall p d, get (pool_get pool' p) d = get (pool_get (pool_usage u) p) d + sign * m_pool p d r) ->
  ordinary_tenant_pool_usage u !! i = Some tp ->
  (forall p d, get (pool_get tp' p) d = get (pool_get tp p) d + sign * m_pool p d r) ->
  class_counts c !! class_index (grant_class r) = Some k -> tenant_outstanding c !! i = Some tc ->
  Moved sign r u c
    (mkUsage total' (recovery_usage u) (<[i := a']> (ordinary_tenant_usage u)) (recovery_tenant_usage u) (recovery_pool_usage u)
       (recovery_system_pool_usage u) (recovery_tenant_pool_usage u) pool' (<[i := tp']> (ordinary_tenant_pool_usage u)))
    (mkCounts (<[i := tc + sign]> (tenant_outstanding c)) (outstanding c + sign) (outstanding_ordinary c + sign)
       (outstanding_recovery c) (outstanding_uninterruptible c) (<[class_index (grant_class r) := k + sign]> (class_counts c))).
Proof.
  intros Ho Ht Hcp Hch Htot Ha Ha' Hpool Htp Htp' Hk Htc.
  assert (Hrk : grant_recovery_kind r = None) by (by apply ordinary_recovery_kind).
  assert (Hscope : forall sc, in_scope sc r = false) by (intros sc; unfold in_scope; by rewrite Ho).
  split; cbn [total_usage recovery_usage ordinary_tenant_usage recovery_tenant_usage recovery_pool_usage recovery_system_pool_usage
    recovery_tenant_pool_usage pool_usage ordinary_tenant_pool_usage tenant_outstanding outstanding outstanding_ordinary
    outstanding_recovery outstanding_uninterruptible class_counts].
  - apply Htot.
  - intros d. unfold m_recovery. rewrite Ho. cbn. lia.
  - intros j b. apply (insert_moves _ _ _ _ _ (fun j a b => forall d, get b d = get a d + sign * m_tenant j d r));
      unfold m_tenant, of_tenant; rewrite Ho, Ht; cbn [andb].
    + intros x Hx d. rewrite when_true by (by apply bool_decide_eq_true). simplify_eq. apply Ha'.
    + intros j' x Hne d. rewrite when_false by (apply bool_decide_eq_false; congruence). lia.
  - intros j b Hb. exists b. split; [done|]. intros d. unfold m_recovery_tenant. rewrite Hscope. cbn. lia.
  - apply Hpool.
  - intros j b. apply (insert_moves _ _ _ _ _ (fun j a b => forall p d, get (pool_get b p) d = get (pool_get a p) d + sign * m_tenant_pool j p d r));
      unfold m_tenant_pool, of_tenant; rewrite Ht.
    + intros x Hx p d. rewrite when_true by (by apply bool_decide_eq_true). simplify_eq. apply Htp'.
    + intros j' x Hne p d. rewrite when_false by (apply bool_decide_eq_false; congruence). lia.
  - intros d. unfold m_rshared. rewrite Ho. cbn. lia.
  - intros k' d. unfold m_rprotected. rewrite Hrk. rewrite when_false by (by apply bool_decide_eq_false). lia.
  - intros d. unfold m_rshared_at. rewrite Hscope. cbn. lia.
  - intros k' d. unfold m_rprotected_at. rewrite Hscope. cbn. lia.
  - intros j b Hb. exists b. split; [done|]. unfold m_rshared_at, m_rprotected_at. rewrite Hscope. cbn. split; intros; lia.
  - unfold m_count. rewrite Hch. cbn. lia.
  - unfold m_ordinary_count, m_count. rewrite Ho, Hch. cbn. lia.
  - unfold m_recovery_count. rewrite Ho. cbn. lia.
  - unfold m_uninterruptible. rewrite Hrk. cbn. lia.
  - intros cl n'. by apply class_moves.
  - intros j n'. by apply tenant_count_moves.
Qed.

(** The recovery charge of a grant, as its record reconstructs it. *)
Definition record_recovery_charge (r : GrantRecord) (k : RecoveryWorkKind) : RecoveryPoolCharge :=
  mkRecoveryCharge k (gr_shared r) (zip_map Z.sub (gr_amounts r) (gr_shared r)).

(** A recovery usage moved by [sign] times the charge of [r]. *)
Definition usage_moved (sign : Z) (r : GrantRecord) (v v' : RecoveryPoolUsage) : Prop :=
  (forall d, get (ru_shared v') d = get (ru_shared v) d + sign * m_rshared d r)
  /\ forall k d, get (usage_protected v' k) d = get (usage_protected v k) d + sign * m_rprotected k d r.

Lemma recovery_usage_add_spec v ch v' : recovery_usage_add v ch = Some v' ->
  (forall d, get (ru_shared v') d = get (ru_shared v) d + get (rch_shared ch) d)
  /\ forall k d, get (usage_protected v' k) d = get (usage_protected v k) d + when (bool_decide (rch_kind ch = k)) (get (rch_protected ch) d).
Proof.
  unfold recovery_usage_add. destruct (amounts_add (ru_shared v) _) as [s|] eqn:Hs; [|done].
  destruct (amounts_add (usage_protected v _) _) as [p|] eqn:Hp; [|done]. cbn. intros [= <-]. cbn [ru_shared ru_protected].
  rewrite amounts_add_Some in Hs, Hp. split; [intros d; apply Hs|]. intros k d. unfold usage_protected. cbn [ru_protected].
  rewrite recovery_get_with. destruct (decide (rch_kind ch = k)) as [<-|].
  - rewrite when_true by (by apply bool_decide_eq_true). apply Hp.
  - rewrite when_false by (by apply bool_decide_eq_false). lia.
Qed.

Lemma recovery_usage_sub_ok v ch : rch_shared ch ⊑r ru_shared v -> rch_protected ch ⊑r usage_protected v (rch_kind ch) ->
  exists v', recovery_usage_sub v ch = Some v'
    /\ (forall d, get (ru_shared v') d = get (ru_shared v) d - get (rch_shared ch) d)
    /\ forall k d, get (usage_protected v' k) d = get (usage_protected v k) d - when (bool_decide (rch_kind ch = k)) (get (rch_protected ch) d).
Proof.
  intros Hs Hp. unfold recovery_usage_sub. rewrite !amounts_sub_ok by done. cbn [mbind option_bind]. eexists. split; [done|].
  cbn [ru_shared ru_protected]. split; [intros d; by rewrite get_zip_map|]. intros k d. unfold usage_protected. cbn [ru_protected].
  rewrite recovery_get_with. destruct (decide (rch_kind ch = k)) as [<-|].
  - rewrite when_true by (by apply bool_decide_eq_true). by rewrite get_zip_map.
  - rewrite when_false by (by apply bool_decide_eq_false). lia.
Qed.

(** The tables of the scope of a recovery grant after its charge moved. *)
Definition scope_moved (sign : Z) (r : GrantRecord) (sc : option nat) (u : UsageTotals) (c : OutstandingCounts)
    (rt' : list ResourceAmounts) (sys' : RecoveryPoolUsage) (rtp' : list RecoveryPoolUsage) (tos' : list Z) : Prop :=
  match sc with
  | Some i => exists a a' v v' tc,
      recovery_tenant_usage u !! i = Some a /\ (forall d, get a' d = get a d + sign * get (gr_amounts r) d)
      /\ recovery_tenant_pool_usage u !! i = Some v /\ usage_moved sign r v v'
      /\ tenant_outstanding c !! i = Some tc
      /\ rt' = <[i := a']> (recovery_tenant_usage u) /\ rtp' = <[i := v']> (recovery_tenant_pool_usage u)
      /\ tos' = <[i := tc + sign]> (tenant_outstanding c) /\ sys' = recovery_system_pool_usage u
  | None => usage_moved sign r (recovery_system_pool_usage u) sys' /\ rt' = recovery_tenant_usage u
      /\ rtp' = recovery_tenant_pool_usage u /\ tos' = tenant_outstanding c
  end.

Lemma moved_recovery sign r u c total' recovery' pool' rt' sys' rtp' tos' k :
  grant_is_ordinary r = false -> charged r = true ->
  (forall d, get total' d = get (total_usage u) d + sign * get (gr_amounts r) d) ->
  (forall d, get recovery' d = get (recovery_usage u) d + sign * get (gr_amounts r) d) ->
  usage_moved sign r (recovery_pool_usage u) pool' ->
  scope_moved sign r (grant_tenant_index r) u c rt' sys' rtp' tos' ->
  class_counts c !! class_index (grant_class r) = Some k ->
  Moved sign r u c
    (mkUsage total' recovery' (ordinary_tenant_usage u) rt' pool' sys' rtp' (pool_usage u) (ordinary_tenant_pool_usage u))
    (mkCounts tos' (outstanding c + sign) (outstanding_ordinary c) (outstanding_recovery c + sign)
       (outstanding_uninterruptible c + sign * m_uninterruptible r) (<[class_index (grant_class r) := k + sign]> (class_counts c))).
Proof.
  intros Ho Hch Htot Hrec [Hps Hpp] Hsc Hk.
  assert (Hin : forall sc, in_scope sc r = bool_decide (grant_tenant_index r = sc)) by (intros sc; unfold in_scope; by rewrite Ho).
  split; cbn [total_usage recovery_usage ordinary_tenant_usage recovery_tenant_usage recovery_pool_usage recovery_system_pool_usage
    recovery_tenant_pool_usage pool_usage ordinary_tenant_pool_usage tenant_outstanding outstanding outstanding_ordinary
    outstanding_recovery outstanding_uninterruptible class_counts].
  - apply Htot.
  - intros d. unfold m_recovery. rewrite Ho. apply Hrec.
  - intros j b Hb. exists b. split; [done|]. intros d. unfold m_tenant. rewrite Ho. cbn. lia.
  - unfold scope_moved in Hsc. destruct (grant_tenant_index r) as [i|] eqn:Ht.
    + destruct Hsc as (a & a' & v & v' & tc & Ha & Ha' & _ & _ & _ & -> & _). intros j b.
      apply (insert_moves _ _ _ _ _ (fun j a b => forall d, get b d = get a d + sign * m_recovery_tenant j d r));
        unfold m_recovery_tenant.
      * intros x Hx d. rewrite Hin, when_true by (by apply bool_decide_eq_true). simplify_eq. apply Ha'.
      * intros j' x Hne d. rewrite Hin, when_false by (apply bool_decide_eq_false; congruence). lia.
    + destruct Hsc as (_ & -> & _). intros j b Hb. exists b. split; [done|]. intros d. unfold m_recovery_tenant.
      rewrite Hin, when_false by (by apply bool_decide_eq_false). lia.
  - intros p d. unfold m_pool. rewrite Ho. cbn. lia.
  - intros j b Hb. exists b. split; [done|]. intros p d. unfold m_tenant_pool, m_pool. rewrite Ho. cbn. unfold when. destruct (of_tenant j r); lia.
  - apply Hps.
  - apply Hpp.
  - intros d. unfold m_rshared_at. rewrite Hin. unfold scope_moved in Hsc. destruct (grant_tenant_index r) as [i|].
    + destruct Hsc as (? & ? & ? & ? & ? & _ & _ & _ & _ & _ & _ & _ & _ & ->). rewrite when_false by (by apply bool_decide_eq_false). lia.
    + destruct Hsc as ([Hs _] & _). rewrite when_true by (by apply bool_decide_eq_true). apply Hs.
  - intros k' d. unfold m_rprotected_at. rewrite Hin. unfold scope_moved in Hsc. destruct (grant_tenant_index r) as [i|].
    + destruct Hsc as (? & ? & ? & ? & ? & _ & _ & _ & _ & _ & _ & _ & _ & ->). rewrite when_false by (by apply bool_decide_eq_false). lia.
    + destruct Hsc as ([_ Hp] & _). rewrite when_true by (by apply bool_decide_eq_true). apply Hp.
  - unfold scope_moved in Hsc. destruct (grant_tenant_index r) as [i|] eqn:Ht.
    + destruct Hsc as (a & a' & v & v' & tc & _ & _ & Hv & [Hvs Hvp] & _ & _ & -> & _). intros j b.
      apply (insert_moves _ _ _ _ _ (fun j a b => (forall d, get (ru_shared b) d = get (ru_shared a) d + sign * m_rshared_at (Some j) d r)
        /\ forall k d, get (usage_protected b k) d = get (usage_protected a k) d + sign * m_rprotected_at (Some j) k d r));
        unfold m_rshared_at, m_rprotected_at.
      * intros x Hx. rewrite Hin. split; intros; rewrite when_true by (by apply bool_decide_eq_true); simplify_eq; [apply Hvs|apply Hvp].
      * intros j' x Hne. rewrite Hin. split; intros; rewrite when_false by (apply bool_decide_eq_false; congruence); lia.
    + destruct Hsc as (_ & _ & -> & _). intros j b Hb. exists b. split; [done|]. unfold m_rshared_at, m_rprotected_at.
      rewrite Hin. split; intros; rewrite when_false by (by apply bool_decide_eq_false); lia.
  - unfold m_count. rewrite Hch. cbn. lia.
  - unfold m_ordinary_count. rewrite Ho. cbn. lia.
  - unfold m_recovery_count, m_count. rewrite Ho, Hch. cbn. lia.
  - done.
  - intros cl n'. by apply class_moves.
  - unfold scope_moved in Hsc. destruct (grant_tenant_index r) as [i|] eqn:Ht.
    + destruct Hsc as (a & a' & v & v' & tc & _ & _ & _ & _ & Htc & _ & _ & -> & _). intros j n'. by apply tenant_count_moves.
    + destruct Hsc as (_ & _ & _ & ->). intros j n' Hn. exists n'. split; [done|]. unfold m_tenant_count, of_tenant. rewrite Ht.
      rewrite when_false by (by apply bool_decide_eq_false). lia.
Qed.

(** ** Releasing a recorded grant *)

(** Measures that no well-formed record makes negative. *)
Class NonNegative (f : GrantRecord -> Z) : Prop := measure_nonneg : forall n r, wf_record n r -> 0 <= f r.

Ltac solve_nonneg :=
  intros n r Hwf; unfold_measures;
  try match goal with d : ResourceDimension |- _ => pose proof (wf_shared _ _ Hwf d) end;
  unfold when; repeat case_match; lia.

#[global] Instance nonneg_total d : NonNegative (m_total d). Proof. solve_nonneg. Qed.
#[global] Instance nonneg_recovery d : NonNegative (m_recovery d). Proof. solve_nonneg. Qed.
#[global] Instance nonneg_tenant i d : NonNegative (m_tenant i d). Proof. solve_nonneg. Qed.
#[global] Instance nonneg_recovery_tenant i d : NonNegative (m_recovery_tenant i d). Proof. solve_nonneg. Qed.
#[global] Instance nonneg_pool p d : NonNegative (m_pool p d). Proof. solve_nonneg. Qed.
#[global] Instance nonneg_tenant_pool i p d : NonNegative (m_tenant_pool i p d). Proof. solve_nonneg. Qed.
#[global] Instance nonneg_rshared d : NonNegative (m_rshared d). Proof. solve_nonneg. Qed.
#[global] Instance nonneg_rprotected k d : NonNegative (m_rprotected k d). Proof. solve_nonneg. Qed.
#[global] Instance nonneg_rshared_at sc d : NonNegative (m_rshared_at sc d). Proof. solve_nonneg. Qed.
#[global] Instance nonneg_rprotected_at sc k d : NonNegative (m_rprotected_at sc k d). Proof. solve_nonneg. Qed.
#[global] Instance nonneg_count : NonNegative m_count. Proof. solve_nonneg. Qed.
#[global] Instance nonneg_ordinary_count : NonNegative m_ordinary_count. Proof. solve_nonneg. Qed.
#[global] Instance nonneg_recovery_count : NonNegative m_recovery_count. Proof. solve_nonneg. Qed.
#[global] Instance nonneg_uninterruptible : NonNegative m_uninterruptible. Proof. solve_nonneg. Qed.
#[global] Instance nonneg_class c : NonNegative (m_class c). Proof. solve_nonneg. Qed.
#[global] Instance nonneg_tenant_count i : NonNegative (m_tenant_count i). Proof. solve_nonneg. Qed.

Definition all_wf (n : nat) (rs : list (option GrantRecord)) : Prop :=
  forall slot r, rs !! slot = Some (Some r) -> wf_record n r.

Lemma rsum_nonneg n f rs : NonNegative f -> all_wf n rs -> 0 <= rsum f rs.
Proof.
  intros Hf Hw. apply zsum_nonneg. intros [r|] [slot Hs]%list_elem_of_lookup; [|done]. by apply (Hf n), (Hw slot).
Qed.

Lemma rsum_member n f rs slot r : NonNegative f -> all_wf n rs -> rs !! slot = Some (Some r) -> f r <= rsum f rs.
Proof.
  intros Hf Hw Hs. apply (zsum_member (opt_measure f) rs slot (Some r)); [|done].
  intros [r'|] [slot' Hs']%list_elem_of_lookup; [|done]. by apply (Hf n), (Hw slot').
Qed.

(** Under the invariant what a recorded grant is charged can always be taken back. *)
Record Releasable (n : nat) (r : GrantRecord) (u : UsageTotals) (c : OutstandingCounts) : Prop := {
  rl_total : gr_amounts r ⊑r total_usage u;
  rl_recovery : grant_is_ordinary r = false -> gr_amounts r ⊑r recovery_usage u;
  rl_tenant i a : grant_is_ordinary r = true -> grant_tenant_index r = Some i -> ordinary_tenant_usage u !! i = Some a -> gr_amounts r ⊑r a;
  rl_pool p d : m_pool p d r <= get (pool_get (pool_usage u) p) d;
  rl_tenant_pool i a p d : grant_tenant_index r = Some i -> ordinary_tenant_pool_usage u !! i = Some a -> m_pool p d r <= get (pool_get a p) d;
  rl_recovery_tenant i a : in_scope (Some i) r = true -> recovery_tenant_usage u !! i = Some a -> gr_amounts r ⊑r a;
  rl_rpool d : grant_is_ordinary r = false -> get (gr_shared r) d <= get (ru_shared (recovery_pool_usage u)) d;
  rl_rprotected k d : grant_recovery_kind r = Some k -> m_protected d r <= get (usage_protected (recovery_pool_usage u) k) d;
  rl_system d : in_scope None r = true -> get (gr_shared r) d <= get (ru_shared (recovery_system_pool_usage u)) d;
  rl_system_protected k d : in_scope None r = true -> grant_recovery_kind r = Some k ->
    m_protected d r <= get (usage_protected (recovery_system_pool_usage u) k) d;
  rl_tpool i a d : in_scope (Some i) r = true -> recovery_tenant_pool_usage u !! i = Some a -> get (gr_shared r) d <= get (ru_shared a) d;
  rl_tprotected i a k d : in_scope (Some i) r = true -> grant_recovery_kind r = Some k -> recovery_tenant_pool_usage u !! i = Some a ->
    m_protected d r <= get (usage_protected a k) d;
  rl_count : 1 <= outstanding c;
  rl_ordinary_count : grant_is_ordinary r = true -> 1 <= outstanding_ordinary c;
  rl_recovery_count : grant_is_ordinary r = false -> 1 <= outstanding_recovery c;
  rl_uninterruptible : m_uninterruptible r <= outstanding_uninterruptible c;
  rl_class k : class_counts c !! class_index (grant_class r) = Some k -> 1 <= k;
  rl_tenant_count i k : grant_tenant_index r = Some i -> tenant_outstanding c !! i = Some k -> 1 <= k;
}.

Lemma in_scope_recovery sc r : in_scope sc r = true -> grant_is_ordinary r = false /\ grant_tenant_index r = sc.
Proof. unfold in_scope. intros [H1%negb_true_iff H2%bool_decide_eq_true]%andb_true_iff. done. Qed.

Lemma conserved_releasable n rs slot r u c :
  Conserved u c rs -> all_wf n rs -> rs !! slot = Some (Some r) -> charged r = true -> Releasable n r u c.
Proof.
  intros HC Hw Hs Hch.
  assert (Hm : forall f, NonNegative f -> f r <= rsum f rs) by (intros f Hf; by eapply rsum_member).
  assert (Hone : m_count r = 1) by (unfold m_count; by rewrite Hch).
  split.
  - intros d. rewrite (cs_total _ _ _ HC). apply (Hm (m_total d) _).
  - intros Ho d. rewrite (cs_recovery _ _ _ HC). rewrite <- (Hm (m_recovery d) _). unfold m_recovery. by rewrite Ho.
  - intros i a Ho Ht Ha d. rewrite (cs_tenant _ _ _ HC i a d Ha), <- (Hm (m_tenant i d) _). unfold m_tenant, of_tenant.
    rewrite Ho, Ht. cbn [andb]. by rewrite when_true by (by apply bool_decide_eq_true).
  - intros p d. rewrite (cs_pool _ _ _ HC). apply (Hm (m_pool p d) _).
  - intros i a p d Ht Ha. rewrite (cs_tenant_pool _ _ _ HC i a p d Ha), <- (Hm (m_tenant_pool i p d) _). unfold m_tenant_pool, of_tenant.
    rewrite Ht. by rewrite when_true by (by apply bool_decide_eq_true).
  - intros i a Hi Ha d. rewrite (cs_recovery_tenant _ _ _ HC i a d Ha), <- (Hm (m_recovery_tenant i d) _). unfold m_recovery_tenant. by rewrite Hi.
  - intros d Ho. rewrite (cs_rshared _ _ _ HC), <- (Hm (m_rshared d) _). unfold m_rshared. by rewrite Ho.
  - intros k d Hk. rewrite (cs_rprotected _ _ _ HC), <- (Hm (m_rprotected k d) _). unfold m_rprotected. rewrite Hk.
    by rewrite when_true by (by apply bool_decide_eq_true).
  - intros d Hi. rewrite (cs_sshared _ _ _ HC), <- (Hm (m_rshared_at None d) _). unfold m_rshared_at, m_rshared.
    rewrite Hi, (proj1 (in_scope_recovery _ _ Hi)). done.
  - intros k d Hi Hk. rewrite (cs_sprotected _ _ _ HC), <- (Hm (m_rprotected_at None k d) _). unfold m_rprotected_at, m_rprotected.
    rewrite Hi, Hk. cbn [when]. by rewrite when_true by (by apply bool_decide_eq_true).
  - intros i a d Hi Ha. rewrite (cs_tshared _ _ _ HC i a d Ha), <- (Hm (m_rshared_at (Some i) d) _). unfold m_rshared_at, m_rshared.
    rewrite Hi, (proj1 (in_scope_recovery _ _ Hi)). done.
  - intros i a k d Hi Hk Ha. rewrite (cs_tprotected _ _ _ HC i a k d Ha), <- (Hm (m_rprotected_at (Some i) k d) _).
    unfold m_rprotected_at, m_rprotected. rewrite Hi, Hk. cbn [when]. by rewrite when_true by (by apply bool_decide_eq_true).
  - rewrite (cs_count _ _ _ HC), <- (Hm m_count _). lia.
  - intros Ho. rewrite (cs_ordinary_count _ _ _ HC), <- (Hm m_ordinary_count _). unfold m_ordinary_count. rewrite Ho. cbn. lia.
  - intros Ho. rewrite (cs_recovery_count _ _ _ HC), <- (Hm m_recovery_count _). unfold m_recovery_count. rewrite Ho. cbn. lia.
  - rewrite (cs_uninterruptible _ _ _ HC). apply (Hm m_uninterruptible _).
  - intros k Hk. rewrite (cs_class _ _ _ HC _ k Hk), <- (Hm (m_class (grant_class r)) _). unfold m_class.
    rewrite when_true by (by apply bool_decide_eq_true). lia.
  - intros i k Ht Hk. rewrite (cs_tenant_count _ _ _ HC i k Hk), <- (Hm (m_tenant_count i) _). unfold m_tenant_count, of_tenant.
    rewrite Ht, when_true by (by apply bool_decide_eq_true). lia.
Qed.

Lemma store_at_ok {A} (l : list A) i a b : l !! i = Some a -> store_at l i b = Some (<[i := b]> l).
Proof. unfold store_at. by intros ->. Qed.

Lemma pools_sub_ok a b : (forall p d, get (pool_get b p) d <= get (pool_get a p) d) ->
  exists c, pools_sub a b = Some c /\ forall p d, get (pool_get c p) d = get (pool_get a p) d - get (pool_get b p) d.
Proof.
  intros H. exists (mkPools (zip_map Z.sub (pc_shared a) (pc_shared b)) (zip_map Z.sub (pc_security a) (pc_security b))
    (zip_map Z.sub (pc_ingest a) (pc_ingest b)) (zip_map Z.sub (pc_query a) (pc_query b)) (zip_map Z.sub (pc_maintenance a) (pc_maintenance b))).
  assert (Hg : forall p d, get (pool_get (mkPools (zip_map Z.sub (pc_shared a) (pc_shared b)) (zip_map Z.sub (pc_security a) (pc_security b))
    (zip_map Z.sub (pc_ingest a) (pc_ingest b)) (zip_map Z.sub (pc_query a) (pc_query b)) (zip_map Z.sub (pc_maintenance a) (pc_maintenance b))) p) d
    = get (pool_get a p) d - get (pool_get b p) d) by (intros p d; destruct p; cbn [pool_get pc_shared pc_security pc_ingest pc_query pc_maintenance]; by rewrite get_zip_map).
  split; [|exact Hg]. apply pools_sub_Some. intros p d. split; [apply Hg|apply H].
Qed.

(** The status of a release that was applied. *)
Definition applied_status (poisoned : bool) (st : AccountingState) : ReleaseStatus :=
  mkStatus true (if poisoned || bool_decide (lifecycle st = Fenced) then Err GovernorFailureFenced else Ok Released).

Lemma rel_bind_ok {A B} (m : Rel A) (k : A -> Rel B) st st' a : m st = (st', Some a) -> (m ≫= k) st = k a st'.
Proof. unfold mbind, Rel_bind. by intros ->. Qed.

(** Runs the first step of a release whose outcome is known by computation. *)
Ltac rel_step :=
  match goal with |- context [@mbind Rel Rel_bind ?A ?B ?k ?m ?st] => rewrite (rel_bind_ok m k st _ _ eq_refl) end.
(** Runs the first step, after rewriting the optional value it needs. *)
Tactic Notation "rel_need" uconstr(H) := rewrite H; rel_step.

Lemma release_commit_ok poisoned total out cc st k tc :
  class_counts (counts st) !! cc_class_index cc = Some k ->
  (forall i n, cc_tenant_index cc = Some i -> cc_tenant cc = Some n -> tenant_outstanding (counts st) !! i = Some (tc i)) ->
  release_commit poisoned total out cc st =
    (set_counts (set_usage st (with_totals (usage st) total (pool_usage (usage st))))
       (mkCounts (match cc_tenant_index cc, cc_tenant cc with Some i, Some n => <[i := n]> (tenant_outstanding (counts st))
                  | _, _ => tenant_outstanding (counts st) end)
          out (default_to (outstanding_ordinary (counts st)) (cc_ordinary cc))
          (default_to (outstanding_recovery (counts st)) (cc_recovery cc))
          (default_to (outstanding_uninterruptible (counts st)) (cc_uninterruptible cc))
          (<[cc_class_index cc := cc_class cc]> (class_counts (counts st)))),
     Some (applied_status poisoned st)).
Proof.
  intros Hk Ht. unfold release_commit. do 3 rel_step.
  cbn [set_usage set_counts counts class_counts with_outstanding]. rel_need (store_at_ok _ _ _ _ Hk). do 2 rel_step.
  destruct (cc_tenant_index cc) as [i|]; [|done]. destruct (cc_tenant cc) as [m|]; [|done].
  unfold mbind, Rel_bind, read_rel. cbn [set_counts set_usage counts usage tenant_outstanding with_class_counts with_outstanding].
  rewrite (store_at_ok _ _ _ _ (Ht i m eq_refl eq_refl)). done.
Qed.

Lemma release_ordinary_ok st r i cp a tp pool' tp' :
  ordinary_tenant_usage (usage st) !! i = Some a -> ordinary_tenant_pool_usage (usage st) !! i = Some tp ->
  gr_amounts r ⊑r a -> pools_sub tp (charge_capacities (record_charge r cp)) = Some tp' ->
  pools_sub (pool_usage (usage st)) (charge_capacities (record_charge r cp)) = Some pool' ->
  release_ordinary (mkOwner (AttrOrdinary i) (Some (record_charge r cp)) None) i (gr_amounts r) st =
    (set_usage st (with_totals (with_ordinary_tenant_pool_usage (with_ordinary_tenant_usage (usage st)
        (<[i := zip_map Z.sub a (gr_amounts r)]> (ordinary_tenant_usage (usage st))))
        (<[i := tp']> (ordinary_tenant_pool_usage (usage st)))) (total_usage (usage st)) pool'), Some tt).
Proof.
  intros Ha Htp Hle Htp' Hp'. unfold release_ordinary. do 2 rel_step. rewrite Ha. cbn [mbind option_bind].
  rel_need (amounts_sub_ok _ _ Hle). rewrite Htp. cbn [mbind option_bind]. rel_need Htp'. rel_need Hp'.
  rel_need (store_at_ok _ _ _ _ Ha). rel_step. rel_need (store_at_ok _ _ _ _ Htp). rel_step. reflexivity.
Qed.

Lemma lookup_below {A} (l : list A) n i : length l = n -> (i < n)%nat -> exists a, l !! i = Some a.
Proof. intros <- Hi. by apply lookup_lt_is_Some_2. Qed.

Lemma grant_class_index_below r : (class_index (grant_class r) < 5)%nat.
Proof. destruct (grant_class r); simpl; lia. Qed.

Lemma release_counts_ordinary st r i cp k tc :
  grant_is_ordinary r = true -> class_counts (counts st) !! class_index (grant_class r) = Some k ->
  tenant_outstanding (counts st) !! i = Some tc -> 1 <= k -> 1 <= outstanding_ordinary (counts st) -> 1 <= tc ->
  release_counts st (mkOwner (AttrOrdinary i) (Some (record_charge r cp)) None) (grant_class r) (grant_is_ordinary r) (grant_recovery_kind r)
  = Some (mkCountCandidates (class_index (grant_class r)) (k - 1) (Some (outstanding_ordinary (counts st) - 1)) None None (Some i) (Some (tc - 1))).
Proof.
  intros Ho Hk Htc Hk1 Hord Htc1. unfold release_counts. rewrite Hk, Ho, (ordinary_recovery_kind _ Ho). cbv beta iota zeta.
  cbn [mbind option_bind]. rewrite !checked_sub_ok by lia. rewrite bool_decide_eq_false_2 by done. cbn [andb orb negb co_attribution mbind option_bind].
  rewrite Htc. cbn [mbind option_bind]. by rewrite checked_sub_ok by lia.
Qed.

(** The entries of the tables that an ordinary grant is charged to, and what is left of them
    without it. *)
Record OrdinaryParts (st : AccountingState) (r : GrantRecord) (i : nat) (cp : OrdinaryPool) (a : ResourceAmounts)
    (tp tp' pool' : PoolCapacities) (k tc : Z) : Prop := {
  op_index : grant_tenant_index r = Some i;
  op_class_pool : for_class (grant_class r) = Some cp;
  op_owner : grant_owner r = Some (mkOwner (AttrOrdinary i) (Some (record_charge r cp)) None);
  op_charge p d : get (pool_get (charge_capacities (record_charge r cp)) p) d = m_pool p d r;
  op_total_le : gr_amounts r ⊑r total_usage (usage st);
  op_usage : ordinary_tenant_usage (usage st) !! i = Some a;
  op_usage_le : gr_amounts r ⊑r a;
  op_pool_usage : ordinary_tenant_pool_usage (usage st) !! i = Some tp;
  op_pool_sub : pools_sub tp (charge_capacities (record_charge r cp)) = Some tp';
  op_pool_left p d : get (pool_get tp' p) d = get (pool_get tp p) d - m_pool p d r;
  op_global_sub : pools_sub (pool_usage (usage st)) (charge_capacities (record_charge r cp)) = Some pool';
  op_global_left p d : get (pool_get pool' p) d = get (pool_get (pool_usage (usage st)) p) d - m_pool p d r;
  op_class_entry : class_counts (counts st) !! class_index (grant_class r) = Some k;
  op_tenant_entry : tenant_outstanding (counts st) !! i = Some tc;
  op_class_positive : 1 <= k;
  op_tenant_positive : 1 <= tc;
  op_outstanding_positive : 1 <= outstanding (counts st);
  op_ordinary_positive : 1 <= outstanding_ordinary (counts st);
}.

Lemma ordinary_parts_ok n st r :
  Shaped n (usage st) (counts st) -> wf_record n r -> Releasable n r (usage st) (counts st) -> grant_is_ordinary r = true ->
  exists i cp a tp tp' pool' k tc, OrdinaryParts st r i cp a tp tp' pool' k tc.
Proof.
  intros Hsh Hwf Hrl Ho. destruct (wf_tenant _ _ Hwf Ho) as [i Hi]. pose proof (wf_index _ _ Hwf i Hi) as Hlt.
  destruct (lookup_below _ _ i (sh_tenant _ _ _ Hsh) Hlt) as [a Ha].
  destruct (lookup_below _ _ i (sh_tenant_pool _ _ _ Hsh) Hlt) as [tp Htp].
  destruct (lookup_below _ _ i (sh_tenant_count _ _ _ Hsh) Hlt) as [tc Htc].
  destruct (lookup_below _ _ _ (sh_class _ _ _ Hsh) (grant_class_index_below r)) as [k Hk].
  assert (Hcp : exists cp, for_class (grant_class r) = Some cp).
  { unfold grant_is_ordinary, grant_class in *. destruct (ordinary_kind (gr_kind r)) as [[]|]; eauto; done. }
  destruct Hcp as [cp Hcp].
  assert (Hpool : forall p d, get (pool_get (charge_capacities (record_charge r cp)) p) d = m_pool p d r)
    by (intros; by apply record_charge_pool).
  destruct (pools_sub_ok tp (charge_capacities (record_charge r cp))) as (tp' & Htp' & Htpd).
  { intros p d. rewrite Hpool. by eapply (rl_tenant_pool _ _ _ _ Hrl). }
  destruct (pools_sub_ok (pool_usage (usage st)) (charge_capacities (record_charge r cp))) as (pool' & Hp' & Hpd).
  { intros p d. rewrite Hpool. apply (rl_pool _ _ _ _ Hrl). }
  exists i, cp, a, tp, tp', pool', k, tc. split; try done; try (by apply Hrl).
  - unfold grant_owner. rewrite amounts_sub_ok by (intros d; apply (wf_shared _ _ Hwf)). cbn [mbind option_bind].
    unfold grant_is_ordinary, grant_class in *. destruct (ordinary_kind (gr_kind r)); [|done]. rewrite Hcp, Hi. done.
  - by apply (rl_tenant _ _ _ _ Hrl i).
  - intros p d. by rewrite Htpd, Hpool.
  - intros p d. by rewrite Hpd, Hpool.
  - by apply (rl_tenant_count _ _ _ _ Hrl i).
Qed.

(** The totals and counters without an ordinary grant. *)
Definition ordinary_usage_without (u : UsageTotals) (r : GrantRecord) (i : nat) (a : ResourceAmounts) (tp' pool' : PoolCapacities) : UsageTotals :=
  mkUsage (zip_map Z.sub (total_usage u) (gr_amounts r)) (recovery_usage u)
    (<[i := zip_map Z.sub a (gr_amounts r)]> (ordinary_tenant_usage u)) (recovery_tenant_usage u) (recovery_pool_usage u)
    (recovery_system_pool_usage u) (recovery_tenant_pool_usage u) pool' (<[i := tp']> (ordinary_tenant_pool_usage u)).
Definition ordinary_counts_without (c : OutstandingCounts) (r : GrantRecord) (i : nat) (k tc : Z) : OutstandingCounts :=
  mkCounts (<[i := tc - 1]> (tenant_outstanding c)) (outstanding c - 1) (outstanding_ordinary c - 1) (outstanding_recovery c)
    (outstanding_uninterruptible c) (<[class_index (grant_class r) := k - 1]> (class_counts c)).

Lemma release_ordinary_exact st poisoned r i cp a tp tp' pool' k tc :
  grant_is_ordinary r = true -> OrdinaryParts st r i cp a tp tp' pool' k tc ->
  release_record_locked poisoned r st =
    (set_counts (set_usage st (ordinary_usage_without (usage st) r i a tp' pool')) (ordinary_counts_without (counts st) r i k tc),
     applied_status poisoned st).
Proof.
  intros Ho [? ? Howner ? Htot Ha Hle Htp Htp' ? Hp' ? Hk Htc Hk1 Htc1 Hout Hord].
  unfold release_record_locked, finish_release. rel_need Howner. unfold release_components. rel_step.
  rel_need (amounts_sub_ok _ _ Htot). rewrite (checked_sub_ok _ 1) by lia. rel_step.
  rewrite (release_counts_ordinary st r i cp k tc Ho Hk Htc Hk1 Hord Htc1). rel_step. cbn [co_attribution].
  rewrite (rel_bind_ok _ _ _ _ _ (release_ordinary_ok st r i cp a tp pool' tp' Ha Htp Hle Htp' Hp')).
  rewrite (release_commit_ok _ _ _ _ _ k (fun _ => tc)); [|exact Hk|by intros ? ? [= <-] _]. reflexivity.
Qed.

Lemma ordinary_without_moved st r i cp a tp tp' pool' k tc : grant_is_ordinary r = true -> charged r = true ->
  OrdinaryParts st r i cp a tp tp' pool' k tc ->
  Moved (-1) r (usage st) (counts st) (ordinary_usage_without (usage st) r i a tp' pool') (ordinary_counts_without (counts st) r i k tc).
Proof.
  intros Ho Hch Hp. refine (moved_ordinary (-1) r i cp (usage st) (counts st) _ a _ pool' tp tp' k tc Ho _ _ Hch _ _ _ _ _ _ _ _); try apply Hp.
  - intros d. rewrite get_zip_map. lia.
  - intros d. rewrite get_zip_map. lia.
Qed.

Lemma release_ordinary_record n st poisoned r :
  Shaped n (usage st) (counts st) -> wf_record n r -> Releasable n r (usage st) (counts st) ->
  grant_is_ordinary r = true -> charged r = true ->
  exists u' c', release_record_locked poisoned r st = (set_counts (set_usage st u') c', applied_status poisoned st)
    /\ Moved (-1) r (usage st) (counts st) u' c' /\ Shaped n u' c'.
Proof.
  intros Hsh Hwf Hrl Ho Hch. destruct (ordinary_parts_ok n st r Hsh Hwf Hrl Ho) as (i & cp & a & tp & tp' & pool' & k & tc & Hp).
  eexists _, _. split; [exact (release_ordinary_exact _ _ _ _ _ _ _ _ _ _ _ Ho Hp)|]. split; [by eapply ordinary_without_moved|].
  destruct Hsh. split; cbn; rewrite ?length_insert; done.
Qed.

Lemma recovery_record_kind r : grant_is_ordinary r = false ->
  ordinary_kind (gr_kind r) = None /\ exists k, grant_recovery_kind r = Some k.
Proof. unfold grant_is_ordinary, grant_recovery_kind. destruct (gr_kind r); cbn; try done; eauto. Qed.

(** Taking a recovery charge back from a usage that holds it. *)
Lemma recovery_sub_record r k v : grant_is_ordinary r = false -> grant_recovery_kind r = Some k ->
  (forall d, get (gr_shared r) d <= get (ru_shared v) d) -> (forall d, m_protected d r <= get (usage_protected v k) d) ->
  exists v', recovery_usage_sub v (record_recovery_charge r k) = Some v' /\ usage_moved (-1) r v v'.
Proof.
  intros Ho Hk Hs Hp. destruct (recovery_usage_sub_ok v (record_recovery_charge r k)) as (v' & Hv & Hs' & Hp').
  - intros d. apply Hs.
  - intros d. cbn [record_recovery_charge rch_protected rch_kind]. rewrite get_zip_map. apply Hp.
  - exists v'. split; [done|]. split.
    + intros d. rewrite Hs'. unfold m_rshared, m_shared. rewrite Ho. cbn. lia.
    + intros k' d. rewrite Hp'. cbn [record_recovery_charge rch_kind rch_protected]. rewrite get_zip_map.
      unfold m_rprotected, m_protected. rewrite Hk. unfold when. repeat case_bool_decide; simplify_eq; lia.
Qed.

Lemma release_counts_recovery st r k kc ti :
  grant_is_ordinary r = false -> grant_recovery_kind r = Some k ->
  class_counts (counts st) !! class_index (grant_class r) = Some kc -> 1 <= kc -> 1 <= outstanding_recovery (counts st) ->
  when (retains_capacity k) 1 <= outstanding_uninterruptible (counts st) ->
  (forall i, ti = Some i -> exists tc, tenant_outstanding (counts st) !! i = Some tc /\ 1 <= tc) ->
  exists tc, release_counts st (mkOwner (AttrRecovery ti) None (Some (record_recovery_charge r k))) (grant_class r) (grant_is_ordinary r) (grant_recovery_kind r)
  = Some (mkCountCandidates (class_index (grant_class r)) (kc - 1) None (Some (outstanding_recovery (counts st) - 1))
      (if retains_capacity k then Some (outstanding_uninterruptible (counts st) - 1) else None) ti ((fun t => t - 1) <$> tc))
  /\ match ti with Some i => exists t, tc = Some t /\ tenant_outstanding (counts st) !! i = Some t | None => tc = None end.
Proof.
  intros Ho Hk Hkc Hk1 Hrec Hun Hti. unfold release_counts. rewrite Hkc, Ho, Hk. cbv beta iota zeta.
  cbn [mbind option_bind]. rewrite !(checked_sub_ok kc), (checked_sub_ok (outstanding_recovery _)) by lia. cbn [mbind option_bind andb orb negb].
  assert (Hu : (if retains_capacity k then checked_sub (outstanding_uninterruptible (counts st)) 1 else None)
    = if retains_capacity k then Some (outstanding_uninterruptible (counts st) - 1) else None).
  { destruct (retains_capacity k); [|done]. cbn in Hun. by rewrite checked_sub_ok by lia. }
  rewrite Hu, (bool_decide_eq_false_2 (Some _ = None)) by done. cbn [orb co_attribution].
  assert (Hn : retains_capacity k && bool_decide ((if retains_capacity k then Some (outstanding_uninterruptible (counts st) - 1) else None) = None) = false)
    by (by destruct (retains_capacity k)). rewrite Hn. destruct ti as [i|].
  - destruct (Hti i eq_refl) as (t & Ht & Ht1). exists (Some t). rewrite Ht. cbn [mbind option_bind fmap option_fmap option_map].
    rewrite checked_sub_ok by lia. cbn. split; [done|eauto].
  - by exists None.
Qed.

Lemma release_recovery_tenant st r k i a v pool' v' :
  recovery_tenant_usage (usage st) !! i = Some a -> recovery_tenant_pool_usage (usage st) !! i = Some v ->
  gr_amounts r ⊑r recovery_usage (usage st) -> gr_amounts r ⊑r a ->
  recovery_usage_sub (recovery_pool_usage (usage st)) (record_recovery_charge r k) = Some pool' ->
  recovery_usage_sub v (record_recovery_charge r k) = Some v' ->
  release_recovery (mkOwner (AttrRecovery (Some i)) None (Some (record_recovery_charge r k))) (Some i) (gr_amounts r) st =
    (set_usage st (with_recovery_totals (with_recovery_tenant_pool_usage (with_recovery_tenant_usage (usage st)
        (<[i := zip_map Z.sub a (gr_amounts r)]> (recovery_tenant_usage (usage st))))
        (<[i := v']> (recovery_tenant_pool_usage (usage st)))) (total_usage (usage st))
        (zip_map Z.sub (recovery_usage (usage st)) (gr_amounts r)) pool'), Some tt).
Proof.
  intros Ha Hv Hle1 Hle2 Hp Hv'. unfold release_recovery. do 2 rel_step. rel_need (amounts_sub_ok _ _ Hle1). rel_need Hp.
  rewrite Ha. cbn [mbind option_bind]. rewrite (amounts_sub_ok _ _ Hle2).
  unfold mbind at 1, Rel_bind at 1. rel_step. rel_need (store_at_ok _ _ _ _ Ha). rel_step. rel_need Hv. rel_need Hv'. reflexivity.
Qed.

Lemma release_recovery_system st r k pool' sys' :
  gr_amounts r ⊑r recovery_usage (usage st) ->
  recovery_usage_sub (recovery_pool_usage (usage st)) (record_recovery_charge r k) = Some pool' ->
  recovery_usage_sub (recovery_system_pool_usage (usage st)) (record_recovery_charge r k) = Some sys' ->
  release_recovery (mkOwner (AttrRecovery None) None (Some (record_recovery_charge r k))) None (gr_amounts r) st =
    (set_usage st (with_recovery_totals (with_recovery_system_pool_usage (usage st) sys') (total_usage (usage st))
        (zip_map Z.sub (recovery_usage (usage st)) (gr_amounts r)) pool'), Some tt).
Proof.
  intros Hle Hp Hs. unfold release_recovery. do 2 rel_step. rel_need (amounts_sub_ok _ _ Hle). rel_need Hp.
  unfold mbind at 1, Rel_bind at 1. rel_need Hs. reflexivity.
Qed.

(** The entries of the tables that a recovery grant of kind [k] is charged to, and what is left of
    them without it: [v] is the usage of its scope, [ta] and [tc] are the entries of its tenant. *)
Record RecoveryParts (st : AccountingState) (r : GrantRecord) (k : RecoveryWorkKind) (pool' v v' : RecoveryPoolUsage)
    (ta : option ResourceAmounts) (kc : Z) (tc : option Z) : Prop := {
  rt_kind : grant_recovery_kind r = Some k;
  rt_owned : grant_owner r = Some (mkOwner (AttrRecovery (grant_tenant_index r)) None (Some (record_recovery_charge r k)));
  rt_total_le : gr_amounts r ⊑r total_usage (usage st);
  rt_recovery_le : gr_amounts r ⊑r recovery_usage (usage st);
  rt_pool_sub : recovery_usage_sub (recovery_pool_usage (usage st)) (record_recovery_charge r k) = Some pool';
  rt_pool_moved : usage_moved (-1) r (recovery_pool_usage (usage st)) pool';
  rt_scope : match grant_tenant_index r with Some i => recovery_tenant_pool_usage (usage st) !! i = Some v
             | None => recovery_system_pool_usage (usage st) = v end;
  rt_scope_sub : recovery_usage_sub v (record_recovery_charge r k) = Some v';
  rt_scope_moved : usage_moved (-1) r v v';
  rt_tenant : match grant_tenant_index r, ta with
              | Some i, Some a => recovery_tenant_usage (usage st) !! i = Some a /\ gr_amounts r ⊑r a
              | None, None => True | _, _ => False end;
  rt_tenant_count : match grant_tenant_index r, tc with
                    | Some i, Some t => tenant_outstanding (counts st) !! i = Some t /\ 1 <= t
                    | None, None => True | _, _ => False end;
  rt_class_entry : class_counts (counts st) !! class_index (grant_class r) = Some kc;
  rt_class_positive : 1 <= kc;
  rt_outstanding_positive : 1 <= outstanding (counts st);
  rt_recovery_positive : 1 <= outstanding_recovery (counts st);
  rt_uninterruptible_le : when (retains_capacity k) 1 <= outstanding_uninterruptible (counts st);
}.

Lemma recovery_parts_ok n st r :
  Shaped n (usage st) (counts st) -> wf_record n r -> Releasable n r (usage st) (counts st) -> grant_is_ordinary r = false -> charged r = true ->
  exists k pool' v v' ta kc tc, RecoveryParts st r k pool' v v' ta kc tc.
Proof.
  intros Hsh Hwf Hrl Ho Hch. destruct (recovery_record_kind r Ho) as [Hnone [k Hk]].
  destruct (lookup_below _ _ _ (sh_class _ _ _ Hsh) (grant_class_index_below r)) as [kc Hkc].
  destruct (recovery_sub_record r k (recovery_pool_usage (usage st)) Ho Hk) as (pool' & Hp & Hpm).
  { intros d. by apply (rl_rpool _ _ _ _ Hrl). }
  { intros d. by apply (rl_rprotected _ _ _ _ Hrl). }
  assert (Hscope : in_scope (grant_tenant_index r) r = true).
  { unfold in_scope. rewrite Ho. by apply bool_decide_eq_true. }
  assert (Hv : exists v, match grant_tenant_index r with Some i => recovery_tenant_pool_usage (usage st) !! i = Some v
    | None => recovery_system_pool_usage (usage st) = v end /\ (forall d, get (gr_shared r) d <= get (ru_shared v) d)
    /\ forall d, m_protected d r <= get (usage_protected v k) d).
  { destruct (grant_tenant_index r) as [i|] eqn:Hi.
    - destruct (lookup_below _ _ i (sh_recovery_tenant_pool _ _ _ Hsh) (wf_index _ _ Hwf i Hi)) as [v Hv]. exists v.
      split; [done|]. split; intros d; [by eapply (rl_tpool _ _ _ _ Hrl)|by eapply (rl_tprotected _ _ _ _ Hrl)].
    - eexists. split; [done|]. split; intros d; [by eapply (rl_system _ _ _ _ Hrl)|by eapply (rl_system_protected _ _ _ _ Hrl)]. }
  destruct Hv as (v & Hv & Hvs & Hvp). destruct (recovery_sub_record r k v Ho Hk Hvs Hvp) as (v' & Hv' & Hvm).
  assert (Hta : exists ta, match grant_tenant_index r, ta with
    | Some i, Some a => recovery_tenant_usage (usage st) !! i = Some a /\ gr_amounts r ⊑r a | None, None => True | _, _ => False end).
  { destruct (grant_tenant_index r) as [i|] eqn:Hi; [|by exists None].
    destruct (lookup_below _ _ i (sh_recovery_tenant _ _ _ Hsh) (wf_index _ _ Hwf i Hi)) as [a Ha]. exists (Some a).
    split; [done|]. by apply (rl_recovery_tenant _ _ _ _ Hrl i). }
  assert (Htc : exists tc, match grant_tenant_index r, tc with
    | Some i, Some t => tenant_outstanding (counts st) !! i = Some t /\ 1 <= t | None, None => True | _, _ => False end).
  { destruct (grant_tenant_index r) as [i|] eqn:Hi; [|by exists None].
    destruct (lookup_below _ _ i (sh_tenant_count _ _ _ Hsh) (wf_index _ _ Hwf i Hi)) as [t Ht]. exists (Some t).
    split; [done|]. by apply (rl_tenant_count _ _ _ _ Hrl i). }
  destruct Hta as [ta Hta]. destruct Htc as [tc Htc]. exists k, pool', v, v', ta, kc, tc. split; try done; try (by apply Hrl).
  - unfold grant_owner. rewrite amounts_sub_ok by (intros d; apply (wf_shared _ _ Hwf)). cbn [mbind option_bind].
    rewrite Hnone. unfold grant_recovery_kind in Hk. by rewrite Hk.
  - pose proof (rl_uninterruptible _ _ _ _ Hrl) as Hun. unfold m_uninterruptible, m_count in Hun. by rewrite Hk, Hch in Hun.
Qed.

(** The totals and counters without a recovery grant. *)
Definition recovery_usage_without (u : UsageTotals) (r : GrantRecord) (ta : option ResourceAmounts) (pool' v' : RecoveryPoolUsage) : UsageTotals :=
  mkUsage (zip_map Z.sub (total_usage u) (gr_amounts r)) (zip_map Z.sub (recovery_usage u) (gr_amounts r)) (ordinary_tenant_usage u)
    (match grant_tenant_index r, ta with
     | Some i, Some a => <[i := zip_map Z.sub a (gr_amounts r)]> (recovery_tenant_usage u) | _, _ => recovery_tenant_usage u end)
    pool' (match grant_tenant_index r with Some _ => recovery_system_pool_usage u | None => v' end)
    (match grant_tenant_index r with Some i => <[i := v']> (recovery_tenant_pool_usage u) | None => recovery_tenant_pool_usage u end)
    (pool_usage u) (ordinary_tenant_pool_usage u).
Definition recovery_counts_without (c : OutstandingCounts) (r : GrantRecord) (k : RecoveryWorkKind) (kc : Z) (tc : option Z) : OutstandingCounts :=
  mkCounts (match grant_tenant_index r, tc with Some i, Some t => <[i := t - 1]> (tenant_outstanding c) | _, _ => tenant_outstanding c end)
    (outstanding c - 1) (outstanding_ordinary c) (outstanding_recovery c - 1)
    (if retains_capacity k then outstanding_uninterruptible c - 1 else outstanding_uninterruptible c)
    (<[class_index (grant_class r) := kc - 1]> (class_counts c)).

Lemma release_recovery_charges st r k pool' v v' ta kc tc : RecoveryParts st r k pool' v v' ta kc tc ->
  release_recovery (mkOwner (AttrRecovery (grant_tenant_index r)) None (Some (record_recovery_charge r k)))
    (grant_tenant_index r) (gr_amounts r) st
  = (set_usage st (with_totals (recovery_usage_without (usage st) r ta pool' v') (total_usage (usage st)) (pool_usage (usage st))), Some tt).
Proof.
  intros [? ? _ Hrle Hp _ Hv Hv' _ Hta _ _ _ _ _ _]. unfold recovery_usage_without. destruct (grant_tenant_index r) as [i|].
  - destruct ta as [a|]; [|done]. destruct Hta as [Ha Hle]. exact (release_recovery_tenant st r k i a v pool' v' Ha Hv Hrle Hle Hp Hv').
  - subst v. exact (release_recovery_system st r k pool' v' Hrle Hp Hv').
Qed.

Lemma release_recovery_exact st poisoned r k pool' v v' ta kc tc :
  grant_is_ordinary r = false -> RecoveryParts st r k pool' v v' ta kc tc ->
  release_record_locked poisoned r st =
    (set_counts (set_usage st (recovery_usage_without (usage st) r ta pool' v')) (recovery_counts_without (counts st) r k kc tc),
     applied_status poisoned st).
Proof.
  intros Ho HP. pose proof (release_recovery_charges _ _ _ _ _ _ _ _ _ HP) as Hrel.
  destruct HP as [Hk Howner Htot _ _ _ _ _ _ _ Htc Hkc Hk1 Hout Hrec Hun].
  destruct (release_counts_recovery st r k kc (grant_tenant_index r) Ho Hk Hkc Hk1 Hrec Hun) as (tc' & Hcc & Htc').
  { intros i Hi. rewrite Hi in Htc. destruct tc as [t|]; [|done]. by exists t. }
  assert (tc' = tc) as ->.
  { destruct (grant_tenant_index r), tc as [t|]; try done. destruct Htc' as (t' & -> & ?), Htc as [? _]. congruence. }
  unfold release_record_locked, finish_release. rel_need Howner. unfold release_components. rel_step.
  rel_need (amounts_sub_ok _ _ Htot). rewrite (checked_sub_ok _ 1) by lia. rel_step.
  rewrite Hcc. rel_step. cbn [co_attribution]. rewrite (rel_bind_ok _ _ _ _ _ Hrel).
  rewrite (release_commit_ok _ _ _ _ _ kc (fun i => default_to 0 tc)).
  - cbn [cc_class_index cc_class cc_ordinary cc_recovery cc_uninterruptible cc_tenant_index cc_tenant default_to set_usage counts usage].
    f_equal. unfold recovery_counts_without. f_equal. f_equal.
    + destruct (grant_tenant_index r); [|done]. by destruct tc.
    + by destruct (retains_capacity k).
  - exact Hkc.
  - cbn [cc_tenant_index cc_tenant]. intros i m Hi Hm. rewrite Hi in Htc'. destruct Htc' as (t & -> & Ht). exact Ht.
Qed.

Lemma recovery_without_moved st r k pool' v v' ta kc tc : grant_is_ordinary r = false -> charged r = true ->
  RecoveryParts st r k pool' v v' ta kc tc ->
  Moved (-1) r (usage st) (counts st) (recovery_usage_without (usage st) r ta pool' v') (recovery_counts_without (counts st) r k kc tc).
Proof.
  intros Ho Hch [Hk _ _ _ _ Hpm Hv _ Hvm Hta Htc Hkc _ _ _ _].
  assert (Hun : (if retains_capacity k then outstanding_uninterruptible (counts st) - 1 else outstanding_uninterruptible (counts st))
    = outstanding_uninterruptible (counts st) + -1 * m_uninterruptible r).
  { unfold m_uninterruptible, m_count. rewrite Hk, Hch. destruct (retains_capacity k); cbn; lia. }
  unfold recovery_counts_without. rewrite Hun. unfold recovery_usage_without.
  apply (moved_recovery (-1) r (usage st) (counts st) _ _ pool' _ _ _ _ kc Ho Hch); [..|done].
  - intros d. rewrite get_zip_map. lia.
  - intros d. rewrite get_zip_map. lia.
  - done.
  - unfold scope_moved. destruct (grant_tenant_index r) as [i|].
    + destruct ta as [a|], tc as [t|]; try done. destruct Hta as [Ha _], Htc as [Ht _].
      exists a, (zip_map Z.sub a (gr_amounts r)), v, v', t. split; [done|]. split; [intros d; rewrite get_zip_map; lia|].
      repeat (split; [done|]). done.
    + subst v. done.
Qed.

Lemma release_recovery_record n st poisoned r :
  Shaped n (usage st) (counts st) -> wf_record n r -> Releasable n r (usage st) (counts st) ->
  grant_is_ordinary r = false -> charged r = true ->
  exists u' c', release_record_locked poisoned r st = (set_counts (set_usage st u') c', applied_status poisoned st)
    /\ Moved (-1) r (usage st) (counts st) u' c' /\ Shaped n u' c'.
Proof.
  intros Hsh Hwf Hrl Ho Hch. destruct (recovery_parts_ok n st r Hsh Hwf Hrl Ho Hch) as (k & pool' & v & v' & ta & kc & tc & HP).
  eexists _, _. split; [exact (release_recovery_exact _ _ _ _ _ _ _ _ _ _ Ho HP)|]. split; [by eapply recovery_without_moved|].
  destruct Hsh. unfold recovery_usage_without, recovery_counts_without. split; cbn; try done; repeat case_match; rewrite ?length_insert; done.
Qed.

(** Releasing a recorded grant always applies, takes back exactly its charge, and touches
    nothing but usage and counters. *)
Lemma release_record_ok n l poisoned slot r :
  Inv n l -> grant_records (grants (lv_state l)) !! slot = Some (Some r) -> charged r = true ->
  exists u' c', release_record_locked poisoned r (lv_state l) = (set_counts (set_usage (lv_state l) u') c', applied_status poisoned (lv_state l))
    /\ Moved (-1) r (usage (lv_state l)) (counts (lv_state l)) u' c' /\ Shaped n u' c'.
Proof.
  intros [HC Hsh _ Hop] Hs Hch. pose proof (oo_wf _ _ Hop) as Hw.
  pose proof (conserved_releasable n _ slot r _ _ HC Hw Hs Hch) as Hrl.
  destruct (grant_is_ordinary r) eqn:Ho; [apply (release_ordinary_record n)|apply (release_recovery_record n)]; eauto.
Qed.

(** ** Slots *)

Lemma lookup_insert_inv {A} (l : list A) i j x y : <[i := x]> l !! j = Some y ->
  (j = i /\ y = x) \/ (j <> i /\ l !! j = Some y).
Proof.
  intros H. destruct (decide (j = i)) as [->|Hne].
  - left. split; [done|]. apply list_lookup_insert_Some in H as [(_ & <- & _)|[? _]]; done.
  - right. by rewrite list_lookup_insert_ne in H by congruence.
Qed.

Lemma slots_clear rs free signals slot r : SlotsOk rs free signals -> rs !! slot = Some (Some r) ->
  SlotsOk (<[slot := None]> rs) (slot :: free) (<[slot := SLOT_FREE]> signals).
Proof.
  intros [Hf Hnd Hl Hs Hlen] Hr. assert (Hlt : (slot < length rs)%nat) by (by eapply lookup_lt_Some). split.
  - intros x. rewrite elem_of_cons, Hf. destruct (decide (x = slot)) as [->|].
    + rewrite list_lookup_insert_eq by done. tauto.
    + rewrite list_lookup_insert_ne by congruence. tauto.
  - constructor; [|done]. rewrite Hf. congruence.
  - by rewrite !length_insert.
  - intros x o [(-> & ->)|[Hne Hx]]%lookup_insert_inv.
    + rewrite list_lookup_insert_eq by lia. done.
    + rewrite list_lookup_insert_ne by congruence. by apply Hs.
  - by rewrite length_insert.
Qed.

Lemma slots_retag rs free signals slot r r' : SlotsOk rs free signals -> rs !! slot = Some (Some r) ->
  SlotsOk (<[slot := Some r']> rs) free signals.
Proof.
  intros [Hf Hnd Hl Hs Hlen] Hr. assert (Hlt : (slot < length rs)%nat) by (by eapply lookup_lt_Some).
  split; rewrite ?length_insert; try done.
  - intros x. rewrite Hf. destruct (decide (x = slot)) as [->|].
    + rewrite list_lookup_insert_eq by done. split; congruence.
    + by rewrite list_lookup_insert_ne by congruence.
  - intros x o [(-> & ->)|[Hne Hx]]%lookup_insert_inv; [|by apply Hs].
    rewrite (Hs slot _ Hr). split; congruence.
Qed.

Lemma slots_fill rs slot free signals r : SlotsOk rs (slot :: free) signals ->
  rs !! slot = Some None /\ signals !! slot = Some SLOT_FREE
  /\ SlotsOk (<[slot := Some r]> rs) free (<[slot := SLOT_ACTIVE]> signals).
Proof.
  intros [Hf Hnd Hl Hs Hlen]. assert (Hr : rs !! slot = Some None) by (apply Hf; constructor).
  assert (Hlt : (slot < length rs)%nat) by (by eapply lookup_lt_Some). apply NoDup_cons in Hnd as [Hni Hnd].
  split; [done|]. split; [by apply (Hs slot None Hr)|]. split; rewrite ?length_insert; try done.
  - intros x. destruct (decide (x = slot)) as [->|Hne].
    + rewrite list_lookup_insert_eq by done. split; [done|congruence].
    + rewrite list_lookup_insert_ne by congruence. rewrite <- Hf, elem_of_cons. tauto.
  - intros x o [(-> & ->)|[Hne Hx]]%lookup_insert_inv.
    + rewrite list_lookup_insert_eq by lia. done.
    + rewrite list_lookup_insert_ne by congruence. by apply Hs.
Qed.

Lemma free_below rs free signals slot r : SlotsOk rs free signals -> rs !! slot = Some (Some r) -> (length free < length rs)%nat.
Proof.
  intros [Hf Hnd _ _ _] Hr. assert (H : (length (slot :: free) <= length (seq 0 (length rs)))%nat); [|rewrite length_seq in H; simpl in H; lia].
  apply List.NoDup_incl_length.
  - apply NoDup_ListNoDup. constructor; [|done]. rewrite Hf. congruence.
  - intros x Hx%list_elem_of_In. apply in_seq. split; [lia|]. rewrite Nat.add_0_l.
    apply elem_of_cons in Hx as [->|Hx]; [by eapply lookup_lt_Some|]. apply Hf in Hx. by eapply lookup_lt_Some.
Qed.

Lemma finish_slot_ok l slot r :
  SlotsOk (grant_records (grants (lv_state l))) (free_slots (grants (lv_state l))) (slot_signals (lv_drops l)) ->
  grant_records (grants (lv_state l)) !! slot = Some (Some r) ->
  finish_slot l slot = (mkLive (set_grants (lv_state l) (mkLedger (<[slot := None]> (grant_records (grants (lv_state l))))
      (slot :: free_slots (grants (lv_state l))) (next_operation_generation (grants (lv_state l)))))
    (set_signal (lv_drops l) slot SLOT_FREE), true).
Proof.
  intros Hsl Hr. pose proof (free_below _ _ _ _ _ Hsl Hr) as Hlt.
  assert (Hsig : exists s, slot_signals (lv_drops l) !! slot = Some s /\ s <> SLOT_FREE).
  { destruct (lookup_below (slot_signals (lv_drops l)) _ slot (so_signals _ _ _ Hsl)) as [s Hs]; [by eapply lookup_lt_Some|].
    exists s. split; [done|]. intros ->. by apply (so_signal _ _ _ Hsl slot _ Hr) in Hs. }
  destruct Hsig as (s & Hs & Hne). unfold finish_slot. rewrite Hr, Hs, (bool_decide_eq_false_2 _ Hne).
  destruct (Nat.eqb_spec (length (free_slots (grants (lv_state l)))) (length (grant_records (grants (lv_state l))))); [lia|].
  done.
Qed.

(** ** Operations *)

Lemma child_nonneg slot o : 0 <= opt_measure (m_child slot) o.
Proof. destruct o as [r|]; [|done]. cbn. unfold m_child, when. repeat case_match; lia. Qed.

Lemma child_counted rs slot r root g : rs !! slot = Some (Some r) -> gr_operation r = Some (Child root g) -> 1 <= rsum (m_child root) rs.
Proof.
  intros Hs Ho. transitivity (opt_measure (m_child root) (Some r)).
  - cbn. unfold m_child. rewrite Ho, when_true by (by apply bool_decide_eq_true). done.
  - eapply zsum_member; [|done]. intros o _. apply child_nonneg.
Qed.

Lemma wf_retag n r o : wf_record n r -> (grant_is_ordinary r = false -> o = None) ->
  charged (with_operation r o) = charged r -> wf_record n (with_operation r o).
Proof. intros [] Hrec Hch. split; cbn; try done. by rewrite Hch. Qed.

(** A record without children can be cleared. *)
Lemma ops_clear n rs slot r : OpsOk n rs -> rs !! slot = Some (Some r) ->
  (gr_operation r = None \/ exists g a, gr_operation r = Some (Root g a 0)) -> OpsOk n (<[slot := None]> rs).
Proof.
  intros [Hw Hroot Hchild] Hs Hop. assert (Hm : forall x, m_child x r = 0).
  { intros x. unfold m_child. destruct Hop as [->|(? & ? & ->)]; done. }
  split.
  - intros x r' [[_ [=]]|[_ Hx]]%lookup_insert_inv. by apply (Hw x).
  - intros x r' g a k [[_ [=]]|[Hne Hx]]%lookup_insert_inv Ho. rewrite (rsum_insert _ _ _ _ _ Hs). cbn [opt_measure].
    rewrite Hm, Z.sub_0_r, Z.add_0_r. by apply (Hroot x r' g a k).
  - intros x r' root g [[_ [=]]|[Hne Hx]]%lookup_insert_inv Ho. destruct (Hchild x r' root g Hx Ho) as (r0 & a & k & Hr0 & Hop0).
    exists r0, a, k. split; [|done]. rewrite list_lookup_insert_ne; [done|]. intros ->. rewrite Hs in Hr0. injection Hr0 as ->.
    destruct (Hroot root r0 g a k Hs Hop0) as [Hk _]. pose proof (child_counted rs x r' root g Hx Ho).
    destruct Hop as [Hn|(g' & a' & Hn)]; rewrite Hn in Hop0; [done|]. injection Hop0 as _ _ <-. lia.
Qed.

(** A root with children keeps its slot without a charge. *)
Lemma ops_released n rs slot r r' g a k : OpsOk n rs -> rs !! slot = Some (Some r) -> gr_operation r = Some (Root g a k) -> k <> 0 ->
  released_root r = Some r' -> OpsOk n (<[slot := Some r']> rs).
Proof.
  intros [Hw Hroot Hchild] Hs Hop Hk Hrel. assert (Hlt : (slot < length rs)%nat) by (by eapply lookup_lt_Some).
  unfold released_root in Hrel. rewrite Hop in Hrel. injection Hrel as <-.
  assert (Hsum : forall x rx, gr_operation rx = Some (Root g false k) -> rsum (m_child x) (<[slot := Some rx]> rs) = rsum (m_child x) rs).
  { intros x rx Hrx. rewrite (rsum_insert _ _ _ _ _ Hs). cbn [opt_measure]. unfold m_child at 2 3. rewrite Hop, Hrx. lia. }
  assert (Hsub : 0 <= rsum (m_child slot) rs) by (apply zsum_nonneg; intros; apply child_nonneg).
  split.
  - intros x rx [[-> [= ->]]|[_ Hx]]%lookup_insert_inv; [|by apply (Hw x)]. destruct (Hw slot r Hs) as [_ Ht Hi _ Hrec].
    split; cbn; try done. { intros d. rewrite get_zero. lia. } intros Ho. specialize (Hrec Ho). congruence.
  - intros x rx g' a' k' Hx Ho. rewrite Hsum by done. apply lookup_insert_inv in Hx as [[-> [= ->]]|[_ Hx]].
    + cbn in Ho. injection Ho as <- <- <-. destruct (Hroot slot r g a k Hs Hop) as [Hk' _]. split; [done|]. lia.
    + by apply (Hroot x rx g' a' k').
  - intros x rx root g' [[-> [= ->]]|[_ Hx]]%lookup_insert_inv Ho; [done|].
    destruct (Hchild x rx root g' Hx Ho) as (r0 & a' & k' & Hr0 & Hop0). destruct (decide (root = slot)) as [->|Hne].
    + rewrite list_lookup_insert_eq by done. eexists _, false, k. split; [done|]. cbn. rewrite Hs in Hr0. injection Hr0 as ->. congruence.
    + rewrite list_lookup_insert_ne by congruence. eauto.
Qed.

(** A child leaves, and its root either counts one child less or leaves with it. *)
Lemma ops_child n rs slot r root g : OpsOk n rs -> rs !! slot = Some (Some r) -> gr_operation r = Some (Child root g) ->
  exists r0 a k, rs !! root = Some (Some r0) /\ gr_operation r0 = Some (Root g a k) /\ root <> slot /\ 1 <= k
    /\ (a = true \/ k <> 1 -> OpsOk n (<[root := Some (with_operation r0 (Some (Root g a (k - 1))))]> (<[slot := None]> rs)))
    /\ (a = false -> k = 1 -> OpsOk n (<[root := None]> (<[slot := None]> rs))).
Proof.
  intros [Hw Hroot Hchild] Hs Hop. destruct (Hchild slot r root g Hs Hop) as (r0 & a & k & Hr0 & Hop0).
  assert (Hne : root <> slot) by (intros ->; congruence). destruct (Hroot root r0 g a k Hr0 Hop0) as [Hk Ha].
  pose proof (child_counted rs slot r root g Hs Hop) as H1. exists r0, a, k. repeat (split; [done || lia|]).
  assert (Hr0' : <[slot := None]> rs !! root = Some (Some r0)) by (by rewrite list_lookup_insert_ne by congruence).
  assert (Hlt : (root < length (<[slot := None]> rs))%nat) by (by eapply lookup_lt_Some).
  assert (Hsum : forall x o, opt_measure (m_child x) o = 0 -> rsum (m_child x) (<[root := o]> (<[slot := None]> rs))
    = rsum (m_child x) rs - when (bool_decide (root = x)) 1).
  { intros x o Ho. rewrite (rsum_insert _ _ _ _ _ Hr0'), (rsum_insert _ _ _ _ _ Hs), Ho. cbn [opt_measure]. unfold m_child at 2 3.
    rewrite Hop, Hop0. lia. }
  split.
  - intros Hstay. split.
    + intros x rx [[-> [= ->]]|[_ [[_ [=]]|[_ Hx]]%lookup_insert_inv]]%lookup_insert_inv; [|by apply (Hw x)].
      pose proof (Hw root r0 Hr0) as Hw0. apply wf_retag; [done|intros Ho; by rewrite (wf_recovery _ _ Hw0 Ho) in Hop0|].
      unfold charged. cbn. rewrite Hop0. by destruct a.
    + intros x rx g' a' k' Hx Ho. rewrite Hsum by done.
      apply lookup_insert_inv in Hx as [[-> [= ->]]|[Hnr [[_ [=]]|[_ Hx]]%lookup_insert_inv]].
      * cbn in Ho. injection Ho as <- <- <-. rewrite when_true by (by apply bool_decide_eq_true). split; [lia|]. intros ->. destruct Hstay as [?|?]; [done|lia].
      * rewrite when_false by (apply bool_decide_eq_false; congruence). rewrite Z.sub_0_r. by apply (Hroot x rx g' a' k').
    + intros x rx root' g' [[-> [= ->]]|[_ [[_ [=]]|[_ Hx]]%lookup_insert_inv]]%lookup_insert_inv Ho; [done|].
      destruct (Hchild x rx root' g' Hx Ho) as (r1 & a1 & k1 & Hr1 & Hop1). destruct (decide (root' = root)) as [->|Hnr].
      * rewrite list_lookup_insert_eq by done. eexists _, a, (k - 1). split; [done|]. cbn. congruence.
      * rewrite list_lookup_insert_ne by congruence. rewrite list_lookup_insert_ne; [eauto|]. congruence.
  - intros -> ->. split.
    + intros x rx [[_ [=]]|[_ [[_ [=]]|[_ Hx]]%lookup_insert_inv]]%lookup_insert_inv. by apply (Hw x).
    + intros x rx g' a' k' [[_ [=]]|[Hnr [[_ [=]]|[_ Hx]]%lookup_insert_inv]]%lookup_insert_inv Ho. rewrite Hsum by done.
      rewrite when_false by (apply bool_decide_eq_false; congruence). rewrite Z.sub_0_r. by apply (Hroot x rx g' a' k').
    + intros x rx root' g' [[_ [=]]|[Hnr [[_ [=]]|[Hns Hx]]%lookup_insert_inv]]%lookup_insert_inv Ho.
      destruct (Hchild x rx root' g' Hx Ho) as (r1 & a1 & k1 & Hr1 & Hop1). destruct (decide (root' = root)) as [->|Hnr'].
      * exfalso. assert (H2 : 1 <= rsum (m_child root) (<[slot := None]> rs)).
        { eapply (child_counted _ x rx root g'); [|done]. by rewrite list_lookup_insert_ne by congruence. }
        rewrite (rsum_insert _ _ _ _ _ Hs) in H2. cbn [opt_measure] in H2. unfold m_child at 2 in H2. rewrite Hop in H2.
        rewrite when_true in H2 by (by apply bool_decide_eq_true). lia.
      * rewrite !list_lookup_insert_ne by congruence. eauto.
Qed.

(** ** Releasing a slot *)

(** What a release of [slot] leaves alone: everything but usage, counters, that slot and the
    bookkeeping of operation roots. Every other charged grant keeps its slot and its signal. *)
Record Frame (slot : nat) (l l' : Live) : Prop := {
  fr_topology : topology (lv_state l') = topology (lv_state l);
  fr_lifecycle : lifecycle (lv_state l') = lifecycle (lv_state l);
  fr_rejections : rejection_counts (lv_state l') = rejection_counts (lv_state l);
  fr_pressure : disk_pressure (lv_state l') = disk_pressure (lv_state l);
  fr_usable : usable_disk_bytes (lv_state l') = usable_disk_bytes (lv_state l);
  fr_words : pending_words (lv_drops l') = pending_words (lv_drops l);
  fr_hint : has_pending_releases (lv_drops l') = has_pending_releases (lv_drops l);
  fr_fence : pending_fence (lv_drops l') = pending_fence (lv_drops l);
  fr_length : length (grant_records (grants (lv_state l'))) = length (grant_records (grants (lv_state l)));
  fr_kept x r : x <> slot -> grant_records (grants (lv_state l)) !! x = Some (Some r) -> charged r = true ->
    slot_signals (lv_drops l') !! x = slot_signals (lv_drops l) !! x
    /\ exists r', grant_records (grants (lv_state l')) !! x = Some (Some r') /\ same_charge r r';
  fr_origin x r' : grant_records (grants (lv_state l')) !! x = Some (Some r') -> charged r' = true ->
    x <> slot /\ exists r, grant_records (grants (lv_state l)) !! x = Some (Some r) /\ same_charge r r';
}.

#[global] Instance same_charge_equivalence : Equivalence same_charge.
Proof.
  split.
  - intros r. done.
  - intros r r' (? & ? & ? & ? & ? & ? & ?). done.
  - intros r1 r2 r3 (? & ? & ? & ? & ? & ? & ?) (? & ? & ? & ? & ? & ? & ?). repeat split; congruence.
Qed.

Lemma wf_uncharged n r : wf_record n r -> charged r = false -> gr_amounts r = amounts_zero /\ gr_shared r = amounts_zero.
Proof.
  intros Hw Hc. pose proof (wf_released _ _ Hw Hc) as Ha. split; [done|]. apply amounts_ext. intros d.
  pose proof (wf_shared _ _ Hw d) as H. rewrite Ha, get_zero in H. rewrite get_zero. lia.
Qed.

Lemma record_at_some st slot r : grant_records (grants st) !! slot = Some (Some r) -> record_at st slot = Some r.
Proof. unfold record_at. by intros ->. Qed.

Lemma retag_same_charge r o : charged (with_operation r o) = charged r -> same_charge r (with_operation r o).
Proof. intros H. repeat split; cbn; done. Qed.

Lemma release_slot_plain n l slot r :
  Inv n l -> grant_records (grants (lv_state l)) !! slot = Some (Some r) -> charged r = true ->
  (gr_operation r = None \/ exists g a, gr_operation r = Some (Root g a 0)) ->
  exists l', release_slot_locked l false slot = (l', applied_status false (lv_state l)) /\ Inv n l' /\ Frame slot l l'.
Proof.
  intros HI Hs Hch Hop. destruct (release_record_ok n l false slot r HI Hs Hch) as (u' & c' & Heq & Hmv & Hsh').
  assert (Hlt : (slot < length (grant_records (grants (lv_state l))))%nat) by (by eapply lookup_lt_Some).
  pose proof (finish_slot_ok (set_state l (set_counts (set_usage (lv_state l) u') c')) slot r (inv_slots _ _ HI) Hs) as Hfin.
  eexists. split; [|split].
  - unfold release_slot_locked. rewrite (record_at_some _ _ _ Hs), Heq. cbn [applied_status rs_applied negb].
    destruct Hop as [->|(g & a & ->)]; rewrite Hfin; reflexivity.
  - split; cbn.
    + eapply moved_conserved; [apply HI|exact Hmv|by apply shifts_clear].
    + done.
    + by apply (slots_clear _ _ _ _ r); [apply HI|].
    + by apply (ops_clear n _ slot r); [apply HI|..].
  - split; cbn; try done.
    + by rewrite length_insert.
    + intros x r' Hne Hx _. rewrite !list_lookup_insert_ne by congruence. split; [done|]. by exists r'.
    + intros x r' [[_ [=]]|[Hne Hx]]%lookup_insert_inv _. split; [done|]. by exists r'.
Qed.

Lemma release_slot_root n l slot r g a k :
  Inv n l -> grant_records (grants (lv_state l)) !! slot = Some (Some r) -> charged r = true ->
  gr_operation r = Some (Root g a k) -> k <> 0 ->
  exists l', release_slot_locked l false slot = (l', applied_status false (lv_state l)) /\ Inv n l' /\ Frame slot l l'.
Proof.
  intros HI Hs Hch Hop Hk. destruct (release_record_ok n l false slot r HI Hs Hch) as (u' & c' & Heq & Hmv & Hsh').
  assert (Hlt : (slot < length (grant_records (grants (lv_state l))))%nat) by (by eapply lookup_lt_Some).
  set (r' := mkGrant amounts_zero amounts_zero (gr_tenant_index r) (gr_tenant r) (gr_principal r) (gr_kind r) (Some (Root g false k))).
  assert (Hrel : released_root r = Some r') by (unfold released_root; by rewrite Hop).
  eexists. split; [|split].
  - unfold release_slot_locked. rewrite (record_at_some _ _ _ Hs), Heq. cbn [applied_status rs_applied negb set_counts set_usage grants].
    rewrite Hop, Hrel, Hs. destruct k; [done|reflexivity..].
  - split; cbn.
    + eapply moved_conserved; [apply HI|exact Hmv|by apply (shifts_release _ _ r r')].
    + done.
    + by apply (slots_retag _ _ _ _ r); [apply HI|].
    + by apply (ops_released n _ slot r r' g a k); [apply HI|..].
  - split; cbn; try done.
    + by rewrite length_insert.
    + intros x rx Hne Hx _. rewrite !list_lookup_insert_ne by congruence. split; [done|]. by exists rx.
    + intros x rx [[_ [= ->]]|[Hne Hx]]%lookup_insert_inv; [by cbn|]. intros _. split; [done|]. by exists rx.
Qed.

Lemma release_slot_child n l slot r root g :
  Inv n l -> grant_records (grants (lv_state l)) !! slot = Some (Some r) -> charged r = true ->
  gr_operation r = Some (Child root g) ->
  exists l', release_slot_locked l false slot = (l', applied_status false (lv_state l)) /\ Inv n l' /\ Frame slot l l'.
Proof.
  intros HI Hs Hch Hop. destruct (release_record_ok n l false slot r HI Hs Hch) as (u' & c' & Heq & Hmv & Hsh').
  destruct (ops_child n _ slot r root g (inv_ops _ _ HI) Hs Hop) as (r0 & a & k & Hr0 & Hop0 & Hne & Hk & Hstay & Hgo).
  set (st1 := set_counts (set_usage (lv_state l) u') c').
  pose proof (finish_slot_ok (set_state l st1) slot r (inv_slots _ _ HI) Hs) as Hfin.
  set (r1 := with_operation r0 (Some (Root g a (k - 1)))).
  assert (Hdec : decrement_root_child r0 = Some (r1, negb a && (k - 1 =? 0))).
  { unfold decrement_root_child. rewrite Hop0. by rewrite checked_sub_ok by lia. }
  assert (Hr0' : <[slot := None]> (grant_records (grants (lv_state l))) !! root = Some (Some r0))
    by (by rewrite list_lookup_insert_ne by congruence).
  assert (Hsame : same_charge r0 r1) by (apply retag_same_charge; unfold charged; cbn; rewrite Hop0; by destruct a).
  pose proof (slots_clear _ _ _ slot r (inv_slots _ _ HI) Hs) as Hslots.
  assert (Hrun : release_slot_locked l false slot =
    (let l1 := mkLive (set_grants st1 (mkLedger (<[slot := None]> (grant_records (grants st1))) (slot :: free_slots (grants st1))
                 (next_operation_generation (grants st1)))) (set_signal (lv_drops l) slot SLOT_FREE) in
     if negb a && (k - 1 =? 0) then let '(l2, finished) := finish_slot l1 root in if finished then (l2, applied_status false (lv_state l)) else fence_live l2
     else (set_state l1 (set_record (lv_state l1) root (Some r1)), applied_status false (lv_state l)))).
  { unfold release_slot_locked. rewrite (record_at_some _ _ _ Hs), Heq. cbn [applied_status rs_applied negb]. rewrite Hop.
    rewrite (record_at_some (set_counts (set_usage (lv_state l) u') c') root r0 Hr0), Hop0, Z.eqb_refl, Hdec. cbn [negb]. fold st1. rewrite Hfin. cbn [negb].
    destruct (negb a && (k - 1 =? 0)); [done|]. cbn. by rewrite Hr0'. }
  rewrite Hrun. cbv zeta. destruct (negb a && (k - 1 =? 0)) eqn:Hrm.
  - apply andb_true_iff in Hrm as [Ha%negb_true_iff Hk1%Z.eqb_eq]. subst a. assert (k = 1) as -> by lia.
    assert (Hc0 : charged r0 = false) by (unfold charged; by rewrite Hop0).
    destruct (wf_uncharged n r0 (oo_wf _ _ (inv_ops _ _ HI) root r0 Hr0) Hc0) as [Ha0 Hs0].
    match goal with |- context [finish_slot ?l1 root] => rewrite (finish_slot_ok l1 root r0 Hslots Hr0') end. eexists. split; [reflexivity|]. split.
    + split; cbn.
      * eapply moved_conserved; [apply HI|exact Hmv|]. by eapply shifts_clear_released; [apply shifts_clear|..].
      * done.
      * by apply (slots_clear _ _ _ root r0).
      * by apply Hgo.
    + split; cbn; try done.
      * by rewrite !length_insert.
      * intros x rx Hx Hrx Hcx. assert (x <> root) by (intros ->; congruence). rewrite !list_lookup_insert_ne by congruence. split; [done|]. by exists rx.
      * intros x rx [[_ [=]]|[_ [[_ [=]]|[Hx Hrx]]%lookup_insert_inv]]%lookup_insert_inv _. split; [done|]. by exists rx.
  - eexists. split; [reflexivity|]. assert (Hst : a = true \/ k <> 1).
    { destruct a; [by left|]. cbn in Hrm. bool_to_prop. right. lia. }
    split.
    + split; cbn.
      * eapply moved_conserved; [apply HI|exact Hmv|]. by eapply shifts_retag; [apply shifts_clear|..].
      * done.
      * by apply (slots_retag _ _ _ root r0).
      * by apply Hstay.
    + split; cbn; try done.
      * by rewrite !length_insert.
      * intros x rx Hx Hrx Hcx. rewrite (list_lookup_insert_ne (slot_signals _)) by congruence. split; [done|].
        destruct (decide (x = root)) as [->|]; [|rewrite !list_lookup_insert_ne by congruence; by exists rx].
        rewrite list_lookup_insert_eq by (by eapply lookup_lt_Some). exists r1. split; [done|]. congruence.
      * intros x rx [[-> [= ->]]|[_ [[_ [=]]|[Hx Hrx]]%lookup_insert_inv]]%lookup_insert_inv Hcx; (split; [done|]); [by exists r0|by exists rx].
Qed.

(** Releasing a charged slot always applies. *)
Lemma release_slot_ok n l slot r :
  Inv n l -> grant_records (grants (lv_state l)) !! slot = Some (Some r) -> charged r = true ->
  exists l', release_slot_locked l false slot = (l', applied_status false (lv_state l)) /\ Inv n l' /\ Frame slot l l'.
Proof.
  intros HI Hs Hch. destruct (gr_operation r) as [[g a k|root g]|] eqn:Hop.
  - destruct (decide (k = 0)) as [->|Hk]; [eapply release_slot_plain; eauto|eapply release_slot_root; eauto].
  - eapply release_slot_child; eauto.
  - eapply release_slot_plain; eauto.
Qed.
