(* ===== verification/GovernorGrants.v ===== *)
(** Resource governor: admission keeps the books.

    An admission either grants one new record and moves every total and counter by exactly what
    that record is charged, or it leaves usage, counters and records as they were. The proofs
    follow the two halves of the code: the checks only read the state, and the commit writes the
    candidates that the checks computed. *)

From stdpp Require Import sets.
From S2P Require Import Prelude Outcome Identity GovernorModel GovernorPools GovernorState GovernorAdmission GovernorRelease GovernorConservation.

(** ** Steps that only read *)

(** The step keeps the state, or fails and at most fences it. *)
Definition reads {A} (m : Adm A) : Prop := forall l,
  match m l with (l', Ok _) => l' = l | (l', Err _) => l' = l \/ l' = fence_state l end.

Create HintDb adm discriminated.

Lemma reads_done {A} (a : A) : reads (mret a).
Proof. done. Qed.
Lemma reads_state : reads read_state.
Proof. done. Qed.
Lemma reads_check {A} (r : result AdmissionFailure A) : reads (check r).
Proof. intros l. unfold check. destruct r; auto. Qed.
Lemma reads_or_internal {A} class (o : option A) : reads (or_internal class o).
Proof. intros l. unfold or_internal. destruct o; cbn; auto. Qed.
Lemma reads_or_fence {A} class (o : option A) : reads (or_fence class o).
Proof. intros l. unfold or_fence. destruct o; cbn; auto. Qed.
Lemma reads_check_fencing {A} (r : result AdmissionFailure A) : reads (check_fencing r).
Proof. intros l. unfold check_fencing. destruct r; [done|]. case_bool_decide; auto. Qed.

Lemma reads_then {A B} (m : Adm A) (k : A -> Adm B) : reads m -> (forall a, reads (k a)) -> reads (m ≫= k).
Proof.
  intros Hm Hk l. unfold mbind, Adm_bind. specialize (Hm l). destruct (m l) as [l' [a|f]]; [|done].
  subst l'. apply Hk.
Qed.

Lemma reads_fmap {A B} (f : A -> B) (m : Adm A) : reads m -> reads (f <$> m).
Proof. intros Hm l. specialize (Hm l). unfold fmap, Adm_fmap. by destruct (m l) as [l' [a|e]]. Qed.

#[export] Hint Resolve reads_done reads_state reads_check reads_or_internal reads_or_fence reads_check_fencing
  reads_then reads_fmap : adm.

(** A successful sequence of reading steps succeeds step by step in the same state. *)
Lemma adm_bind_inv {A B} (m : Adm A) (k : A -> Adm B) l l' b : reads m -> (m ≫= k) l = (l', Ok b) ->
  exists a, m l = (l, Ok a) /\ k a l = (l', Ok b).
Proof.
  intros Hm. specialize (Hm l). unfold mbind, Adm_bind. destruct (m l) as [l1 [a|f]]; [|done]. subst l1. eauto.
Qed.

Lemma check_inv {A} (r : result AdmissionFailure A) l l' a : check r l = (l', Ok a) -> r = Ok a.
Proof. unfold check. by intros [= _ ->]. Qed.
Lemma or_internal_inv {A} class (o : option A) l l' a : or_internal class o l = (l', Ok a) -> o = Some a.
Proof. unfold or_internal. destruct o; cbn; [|done]. by intros [= _ ->]. Qed.
Lemma or_fence_inv {A} class (o : option A) l l' a : or_fence class o l = (l', Ok a) -> o = Some a.
Proof. unfold or_fence. destruct o; [|done]. by intros [= _ ->]. Qed.
Lemma check_fencing_inv {A} (r : result AdmissionFailure A) l l' a : check_fencing r l = (l', Ok a) -> r = Ok a.
Proof. unfold check_fencing. destruct r; [|done]. by intros [= _ ->]. Qed.

(** Inverts the first step of a successful sequence [H]; the fact about the step is named [F]. *)
Tactic Notation "adm_inv" hyp(H) ident(x) ident(F) :=
  apply adm_bind_inv in H; [|solve [auto with adm nocore]]; destruct H as (x & F & H);
  first [apply or_internal_inv in F | apply check_inv in F | apply or_fence_inv in F | apply check_fencing_inv in F | idtac].

Lemma plan_recovery_tenant_reads st amounts t : reads (plan_recovery_tenant st amounts t).
Proof. unfold plan_recovery_tenant. destruct t; auto 12 with adm nocore. Qed.

Lemma recovery_scope_view_reads g st kind ou t : reads (recovery_scope_view g st kind ou t).
Proof. unfold recovery_scope_view. destruct t; auto 12 with adm nocore. Qed.

#[export] Hint Resolve plan_recovery_tenant_reads recovery_scope_view_reads : adm.
#[export] Hint Extern 1 (reads (match ?x with _ => _ end)) => destruct x : adm.

(** The checks of an admission never change what is recorded. *)
Lemma plan_ordinary_reads g claim : reads (plan_ordinary g claim).
Proof. unfold plan_ordinary. cbv zeta. auto 40 with adm nocore. Qed.

Lemma plan_recovery_reads g claim : reads (plan_recovery g claim).
Proof. unfold plan_recovery. cbv zeta. auto 40 with adm nocore. Qed.

(** ** What the checks establish *)

(** The candidates of an ordinary plan are the current values moved by the claim. *)
Record ordinary_plan_ok (g : GovernorInner) (claim : WorkClaim) (st : AccountingState) (plan : OrdinaryPlan) : Prop := {
  po_open : lifecycle st = Open;
  po_operation : validate_operation_child g st (op_tenant_index plan) (claim_operation claim) (WorkKind_class (claim_kind claim)) = Ok tt;
  po_outstanding : op_outstanding plan = outstanding (counts st) + 1;
  po_ordinary : exists ordinary, amounts_sub (total_usage (usage st)) (recovery_usage (usage st)) = Some ordinary
    /\ forall d, get ordinary d + get (claim_amounts claim) d + get (ru_shared (recovery_pool_usage (usage st))) d <= get (ordinary_ceiling g) d;
  po_total : amounts_add (total_usage (usage st)) (claim_amounts claim) = Some (op_total plan);
  po_tenant : exists a, ordinary_tenant_usage (usage st) !! op_tenant_index plan = Some a
    /\ amounts_add a (claim_amounts claim) = Some (op_tenant plan);
  po_limit : exists a limit, ordinary_tenant_usage (usage st) !! op_tenant_index plan = Some a
    /\ tenant_limits (topology st) !! op_tenant_index plan = Some limit
    /\ forall d, get a d + get (claim_amounts claim) d <= get limit d;
  po_pools : exists tp fair, ordinary_tenant_pool_usage (usage st) !! op_tenant_index plan = Some tp
    /\ tenant_fair_capacities (topology st) !! op_tenant_index plan = Some fair
    /\ pool_plan (WorkKind_class (claim_kind claim)) (claim_amounts claim)
         (mkPoolAdmission (pool_capacities g) (pool_usage (usage st)) fair tp) (op_pools plan)
    /\ pools_add tp (charge_capacities (op_pools plan)) = Some (op_tenant_pool_candidate plan);
  po_pool : pools_add (pool_usage (usage st)) (charge_capacities (op_pools plan)) = Some (op_pool_candidate plan);
  po_ordinary_count : op_ordinary_count plan = outstanding_ordinary (counts st) + 1;
  po_class_index : op_class_index plan = class_index (WorkKind_class (claim_kind claim));
  po_class : exists k, class_counts (counts st) !! op_class_index plan = Some k /\ op_class_count plan = k + 1;
  po_tenant_count : exists k, tenant_outstanding (counts st) !! op_tenant_index plan = Some k /\ op_tenant_count plan = k + 1;
}.

Lemma require_slot_inv g st class tenant out : require_healthy_and_slot g st class tenant = Ok out ->
  lifecycle st <> Fenced /\ out = outstanding (counts st) + 1.
Proof.
  unfold require_healthy_and_slot. cbv zeta. case_bool_decide; [done|]. bind_step c Hc. bind_step p Hp.
  destruct (exceeds _ _); [done|]. intros [= <-]. apply ok_or_Ok in Hc. inv_checked. done.
Qed.

Lemma next_class_count_inv st class i c : next_class_count st class = Some (i, c) ->
  i = class_index class /\ exists k, class_counts (counts st) !! i = Some k /\ c = k + 1.
Proof.
  unfold next_class_count. destruct (class_counts (counts st) !! class_index class) as [k|] eqn:Hk; [|done]. cbn [mbind option_bind].
  destruct (checked_add _ _ _) eqn:Hc; [|done]. intros [= <- <-]. inv_checked. eauto.
Qed.

Lemma count_next_inv (l : list Z) i c : (l !! i ≫= fun c => checked_add u32_max c 1) = Some c -> exists k, l !! i = Some k /\ c = k + 1.
Proof. destruct (l !! i) as [k|]; [|done]. cbn [mbind option_bind]. intros [-> _]%checked_add_Some. eauto. Qed.

Lemma refuse_ordinary_capacity_ok class requested c : refuse_ordinary_capacity class requested c = Ok tt ->
  forall d, get (oc_ordinary_usage c) d + get requested d + get (oc_recovery_shared_usage c) d <= get (oc_ordinary_ceiling c) d.
Proof.
  unfold refuse_ordinary_capacity. rewrite for_dimensions_ok. intros H d. specialize (H d). cbv zeta in H.
  destruct (exceeds _ (get (oc_total_ceiling c) d)); [done|]. destruct (checked_sub _ _) as [av|] eqn:Hs; [|done].
  destruct (exceeds _ av) eqn:He; [done|]. apply exceeds_false in He as (v & Hv & Hle). inv_checked. lia.
Qed.

Lemma plan_ordinary_ok g claim l l' plan :
  plan_ordinary g claim l = (l', Ok plan) -> l' = l /\ ordinary_plan_ok g claim (lv_state l) plan.
Proof.
  intros H. pose proof (plan_ordinary_reads g claim l) as Hr. rewrite H in Hr. split; [exact Hr|]. clear Hr.
  unfold plan_ordinary in H. cbv zeta in H.
  adm_inv H st Hst. injection Hst as <-. adm_inv H u0 Hopen. adm_inv H index Hindex. adm_inv H out Hout. adm_inv H u1 Hop.
  adm_inv H u2 Hprin. adm_inv H elig Helig. adm_inv H u3 Hdisk. adm_inv H ordinary Hord. adm_inv H u4 Hcap. adm_inv H total Htot.
  adm_inv H tu Htu. adm_inv H lim Hlim. adm_inv H u5 Hquota. adm_inv H rs Hrs. adm_inv H rsl Hrsl. adm_inv H u6 Hrsf.
  adm_inv H tcand Htc. adm_inv H tp Htp. adm_inv H fair Hfair. adm_inv H pools Hpools. adm_inv H pc Hpc. adm_inv H tpc Htpc.
  adm_inv H oc Hoc. adm_inv H cc Hcc. destruct cc as [ci cc]. adm_inv H tn Htn. adm_inv H u7 Hu7. injection H as _ <-.
  destruct u1, u4, u5. apply require_slot_inv in Hout as [Hnf Hout]. apply next_class_count_inv in Hcc as [Hci Hcc].
  apply plan_pool_charge_spec in Hpools. rewrite refuse_exceeded_ok in Hquota.
  pose proof (refuse_ordinary_capacity_ok _ _ _ Hcap) as Hcap'. cbn [oc_ordinary_usage oc_recovery_shared_usage oc_ordinary_ceiling] in Hcap'.
  apply count_next_inv in Htn. inv_checked.
  split; cbn [op_tenant_index op_outstanding op_total op_tenant op_pools op_pool_candidate op_tenant_pool_candidate op_ordinary_count op_class_index op_class_count op_tenant_count]; try done.
  - case_bool_decide; [done|]. by destruct (lifecycle (lv_state l)).
  - exists ordinary. split; [done|]. apply Hcap'.
  - eauto.
  - exists tu, lim. split; [done|]. split; [done|]. intros d. specialize (Hquota d). lia.
  - exists tp, fair. done.
Qed.

(** A recovery plan splits the request within what the whole capacity has left. *)
Record recovery_charge_ok (kind : RecoveryWorkKind) (requested : ResourceAmounts) (global : RecoveryPoolView) (c : RecoveryPoolCharge) : Prop := {
  rc_kind : rch_kind c = kind;
  rc_split d : get (rch_shared c) d + get (rch_protected c) d = get requested d;
  rc_nonneg d : 0 <= get requested d -> 0 <= get (rch_shared c) d /\ 0 <= get (rch_protected c) d;
  rc_shared d : get (rch_shared c) d <= shared_room global d;
  rc_protected d : get (rch_protected c) d <= protected_room kind global d;
}.

Lemma plan_recovery_dimension_ok kind requested global scope d s p :
  plan_recovery_dimension kind requested global scope d = Ok (s, p) ->
  s + p = get requested d /\ (0 <= get requested d -> 0 <= s /\ 0 <= p) /\ s <= shared_room global d /\ p <= protected_room kind global d.
Proof.
  unfold plan_recovery_dimension, view_shared_available, view_protected_available, shared_room, protected_room.
  bind_step a1 H1. bind_step a2 H2. bind_step a3 H3. bind_step a4 H4. bind_step a5 H5. bind_step a6 H6.
  destruct (_ <? _) eqn:Hg; [done|]. destruct (a6 <? _) eqn:Hs; [done|]. cbv zeta. bind_step g1 G1. bind_step g2 G2.
  destruct (_ <? Z.max g1 g2) eqn:Hul; [by destruct (_ <? g1)|]. bind_step rem Hrem. intros [= <- <-].
  apply ok_or_Ok in H1, H2, H3, H4, H5, H6, G1, G2, Hrem.
  destruct (checked_sub (get (rv_shared_capacity global) d) _) eqn:H1'; [|done].
  destruct (checked_sub (get (rv_shared_capacity scope) d) _) eqn:H2'; [|done]. cbn [mbind option_bind] in *. inv_checked.
  unfold required_shared in G1. destruct (_ <? _) eqn:Hr in G1; [|injection G1 as <-]; inv_checked; bool_to_prop; lia.
Qed.

Lemma plan_recovery_charge_ok kind requested global scope c :
  plan_recovery_charge kind requested global scope = Ok c -> recovery_charge_ok kind requested global c.
Proof.
  unfold plan_recovery_charge. destruct (fill_split _) as [[sh pr]|] eqn:Hf; [|done]. intros [= <-]. rewrite fill_split_ok in Hf.
  assert (H : forall d, _) by (intros d; exact (plan_recovery_dimension_ok _ _ _ _ _ _ _ (Hf d))).
  split; cbn [rch_kind rch_shared rch_protected]; [done|intros d; apply H..].
Qed.

(** The candidates of a recovery plan are the current values moved by the claim. *)
Record recovery_plan_ok (g : GovernorInner) (claim : RecoveryWorkClaim) (st : AccountingState) (plan : RecoveryPlan) : Prop := {
  pr_healthy : lifecycle st <> Fenced;
  pr_shutdown : lifecycle st = ShuttingDown -> retains_capacity (rclaim_kind claim) = true;
  pr_outstanding : rp_outstanding plan = outstanding (counts st) + 1;
  pr_ceiling d : get (total_usage (usage st)) d + get (rclaim_amounts claim) d <= get (total_ceiling g) d;
  pr_total : amounts_add (total_usage (usage st)) (rclaim_amounts claim) = Some (rp_total plan);
  pr_recovery : amounts_add (recovery_usage (usage st)) (rclaim_amounts claim) = Some (rp_recovery plan);
  pr_pools : exists ordinary, amounts_sub (total_usage (usage st)) (recovery_usage (usage st)) = Some ordinary
    /\ recovery_charge_ok (rclaim_kind claim) (rclaim_amounts claim)
         (mkView (recovery_shared_capacity g) (recovery_get (recovery_pool_capacities g) (rclaim_kind claim)) (recovery_pool_usage (usage st)) ordinary)
         (rp_pools plan);
  pr_pool : recovery_usage_add (recovery_pool_usage (usage st)) (rp_pools plan) = Some (rp_pool_candidate plan);
  pr_scope : match rp_tenant_index plan with
    | Some i => exists a a' v k, recovery_tenant_usage (usage st) !! i = Some a /\ rp_tenant plan = Some a'
        /\ amounts_add a (rclaim_amounts claim) = Some a'
        /\ recovery_tenant_pool_usage (usage st) !! i = Some v /\ recovery_usage_add v (rp_pools plan) = Some (rp_scope_candidate plan)
        /\ tenant_outstanding (counts st) !! i = Some k /\ rp_tenant_count plan = Some (k + 1)
    | None => rp_tenant plan = None /\ rp_tenant_count plan = None
        /\ recovery_usage_add (recovery_system_pool_usage (usage st)) (rp_pools plan) = Some (rp_scope_candidate plan)
    end;
  pr_recovery_count : rp_recovery_count plan = outstanding_recovery (counts st) + 1;
  pr_uninterruptible : rp_uninterruptible plan = if retains_capacity (rclaim_kind claim) then Some (outstanding_uninterruptible (counts st) + 1) else None;
  pr_class_index : rp_class_index plan = class_index DurabilityRecovery;
  pr_class : exists k, class_counts (counts st) !! rp_class_index plan = Some k /\ rp_class_count plan = k + 1;
}.

Lemma fmap_adm_inv {A B} (f : A -> B) (m : Adm A) l l' b : reads m -> (f <$> m) l = (l', Ok b) -> exists a, m l = (l, Ok a) /\ b = f a.
Proof.
  intros Hm. specialize (Hm l). unfold fmap, Adm_fmap. destruct (m l) as [l1 [a|]]; [|done]. subst l1. intros [= _ <-]. eauto.
Qed.

Lemma plan_recovery_ok g claim l l' plan :
  plan_recovery g claim l = (l', Ok plan) -> l' = l /\ recovery_plan_ok g claim (lv_state l) plan.
Proof.
  intros H. pose proof (plan_recovery_reads g claim l) as Hr. rewrite H in Hr. split; [exact Hr|]. clear Hr.
  unfold plan_recovery in H. cbv zeta in H.
  adm_inv H st Hst. injection Hst as <-. adm_inv H u0 Hopen. adm_inv H tenant Htenant. adm_inv H out Hout. adm_inv H u1 Hdisk.
  adm_inv H u2 Hcap. adm_inv H total' Htot. adm_inv H recovery' Hrec. adm_inv H ordinary Hord. adm_inv H tcand Htc. adm_inv H scope Hscope.
  adm_inv H pools Hpools. adm_inv H pc Hpc. adm_inv H sc Hsc. adm_inv H rc Hrc. adm_inv H un Hun. adm_inv H cc Hcc. destruct cc as [ci cc].
  adm_inv H tn Htn. injection H as _ <-.
  destruct u2. apply require_slot_inv in Hout as [Hnf Hout]. apply next_class_count_inv in Hcc as [Hci Hcc].
  apply map_err_Ok, plan_recovery_charge_ok in Hpools. rewrite refuse_exceeded_ok in Hcap. inv_checked.
  split; cbn [rp_tenant_index rp_outstanding rp_total rp_recovery rp_tenant rp_pools rp_pool_candidate rp_scope_candidate rp_recovery_count
    rp_uninterruptible rp_class_index rp_class_count rp_tenant_count]; try done.
  - intros Hs. destruct (retains_capacity _); [done|]. by rewrite bool_decide_eq_true_2 in Hopen.
  - intros d. specialize (Hcap d). lia.
  - exists ordinary. split; [done|]. exact Hpools.
  - destruct tenant as [i|].
    + unfold plan_recovery_tenant in Htc. adm_inv Htc used Hused. adm_inv Htc cand Hcand. adm_inv Htc ou Hou. adm_inv Htc q Hq. adm_inv Htc cb Hcb.
      adm_inv Htc u3 Hu3. injection Htc as <-.
      unfold recovery_scope_view in Hscope. adm_inv Hscope s1 Hs1. adm_inv Hscope s2 Hs2. adm_inv Hscope v Hv. adm_inv Hscope o Ho. injection Hscope as <-.
      apply fmap_adm_inv in Htn as (k & Htn & ->); [|auto with adm nocore]. apply or_fence_inv, count_next_inv in Htn as (k0 & Hk0 & ->).
      exists used, cand, v, k0. done.
    + injection Htc as <-. injection Hscope as <-. injection Htn as <-. done.
  - destruct (retains_capacity _); [|by injection Hun as <-].
    apply fmap_adm_inv in Hun as (k & Hun & ->); [|auto with adm nocore]. apply or_fence_inv in Hun. inv_checked. by subst.
Qed.

(** ** New records *)

Lemma no_children n rs slot : OpsOk n rs -> rs !! slot = Some None -> rsum (m_child slot) rs = 0.
Proof.
  intros Hops Hs. unfold rsum. rewrite (zsum_ext _ (fun _ => 0)); [|].
  - clear. induction rs as [|o rs IH]; [done|]. by rewrite zsum_cons, IH.
  - intros [r|] Hr; [|done]. apply list_elem_of_lookup in Hr as [x Hx]. cbn [opt_measure]. unfold m_child.
    destruct (gr_operation r) as [[g a k|root g]|] eqn:Ho; [done| |done].
    destruct (oo_child _ _ Hops x r root g Hx Ho) as (r0 & a & k & Hr0 & _). rewrite when_false; [done|].
    apply bool_decide_eq_false. intros ->. congruence.
Qed.

(** A grant that starts no child can be written to a free slot. *)
Lemma ops_fill n rs slot r : OpsOk n rs -> rs !! slot = Some None -> wf_record n r ->
  (gr_operation r = None \/ exists g, gr_operation r = Some (Root g true 0)) -> OpsOk n (<[slot := Some r]> rs).
Proof.
  intros Hops Hs Hw Hop. pose proof (no_children _ _ _ Hops Hs) as Hz. destruct Hops as [Hwf Hroot Hchild].
  assert (Hm : forall x, rsum (m_child x) (<[slot := Some r]> rs) = rsum (m_child x) rs).
  { intros x. rewrite (rsum_insert _ _ _ _ _ Hs). cbn [opt_measure]. unfold m_child at 2. destruct Hop as [->|[g ->]]; lia. }
  split.
  - intros x r' [[_ [= ->]]|[_ Hx]]%lookup_insert_inv; [done|by apply (Hwf x)].
  - intros x r' g a k [[-> [= ->]]|[Hne Hx]]%lookup_insert_inv Ho; rewrite Hm.
    + destruct Hop as [Hop|[g' Hop]]; rewrite Hop in Ho; simplify_eq. by rewrite Hz.
    + by apply (Hroot x r' g).
  - intros x r' root g [[-> [= ->]]|[Hne Hx]]%lookup_insert_inv Ho.
    + destruct Hop as [Hop|[g' Hop]]; rewrite Hop in Ho; simplify_eq.
    + destruct (Hchild x r' root g Hx Ho) as (r0 & a & k & Hr0 & Ho0). exists r0, a, k.
      rewrite list_lookup_insert_ne by congruence. done.
Qed.

Lemma child_bound rs root : rsum (m_child root) rs <= Z.of_nat (length rs).
Proof.
  unfold rsum. transitivity (zsum (fun _ : option GrantRecord => 1) rs).
  - apply zsum_le. intros [r'|] _; cbn; [|lia]. unfold m_child, when. repeat case_match; lia.
  - clear. induction rs as [|o rs IH]; [done|]. rewrite zsum_cons. cbn [length]. lia.
Qed.

(** A child of an accepting root can be written to a free slot; the root counts it. *)
Lemma ops_fill_child n rs slot r root r0 g k : OpsOk n rs -> Z.of_nat (length rs) <= u16_max ->
  rs !! slot = Some None -> wf_record n r -> gr_operation r = Some (Child root g) ->
  rs !! root = Some (Some r0) -> gr_operation r0 = Some (Root g true k) ->
  let r1 := with_operation r0 (Some (Root g true (k + 1))) in
  root <> slot /\ increment_root_child r0 = Some r1 /\ same_charge r0 r1
  /\ OpsOk n (<[root := Some r1]> (<[slot := Some r]> rs)).
Proof.
  intros Hops Hlen Hs Hw Hop Hr0 Hop0 r1. pose proof (no_children _ _ _ Hops Hs) as Hz. destruct Hops as [Hwf Hroot Hchild].
  assert (Hne : root <> slot) by (intros ->; congruence). destruct (Hroot root r0 g true k Hr0 Hop0) as [Hk _].
  assert (Hslt : (slot < length rs)%nat) by (by eapply lookup_lt_Some). assert (Hrlt : (root < length rs)%nat) by (by eapply lookup_lt_Some).
  assert (Hsc : same_charge r0 r1) by (apply retag_same_charge; unfold charged; cbn; by rewrite Hop0).
  assert (Hroot' : <[slot := Some r]> rs !! root = Some (Some r0)) by (by rewrite list_lookup_insert_ne by congruence).
  assert (Hm : forall x, rsum (m_child x) (<[root := Some r1]> (<[slot := Some r]> rs)) = rsum (m_child x) rs + when (bool_decide (root = x)) 1).
  { intros x. rewrite (rsum_insert _ _ _ _ _ Hroot'), (rsum_insert _ _ _ _ _ Hs). cbn [opt_measure]. unfold m_child at 2 3 4.
    rewrite Hop, Hop0. cbn. lia. }
  split; [done|]. split; [|split; [done|]].
  - unfold increment_root_child. rewrite Hop0. rewrite checked_add_ok; [done|].
    pose proof (child_bound (<[slot := Some r]> rs) root) as Hb. rewrite length_insert in Hb. rewrite (rsum_insert _ _ _ _ _ Hs) in Hb. cbn [opt_measure] in Hb. unfold m_child at 2 in Hb. rewrite Hop in Hb.
    rewrite when_true in Hb by (by apply bool_decide_eq_true). lia.
  - split.
    + intros x r' [[-> [= ->]]|[_ [[_ [= ->]]|[_ Hx]]%lookup_insert_inv]]%lookup_insert_inv; [|done|by apply (Hwf x)].
      apply wf_retag; [by apply (Hwf root)| |by symmetry; apply Hsc].
      intros Hord. pose proof (wf_recovery _ _ (Hwf root r0 Hr0) Hord). congruence.
    + intros x r' g' a' k' Hx Ho. rewrite Hm. apply lookup_insert_inv in Hx as [[-> [= ->]]|[Hnx Hx]].
      * cbn in Ho. injection Ho as <- <- <-. rewrite when_true by (by apply bool_decide_eq_true). split; [lia|done].
      * rewrite when_false by (apply bool_decide_eq_false; congruence). apply lookup_insert_inv in Hx as [[-> [= ->]]|[Hnx' Hx]]; [congruence|].
        destruct (Hroot x r' g' a' k' Hx Ho). split; [lia|done].
    + intros x r' root' g' Hx Ho.
      assert (Hex : exists r2 a k2, rs !! root' = Some (Some r2) /\ gr_operation r2 = Some (Root g' a k2)).
      { apply lookup_insert_inv in Hx as [[-> [= ->]]|[_ [[-> [= ->]]|[_ Hx]]%lookup_insert_inv]]; [done| |by apply (Hchild x r')].
        rewrite Hop in Ho. injection Ho as <- <-. eauto. }
      destruct Hex as (r2 & a & k2 & Hr2 & Ho2). destruct (decide (root' = root)) as [->|Hnr].
      * rewrite list_lookup_insert_eq by (by rewrite length_insert). assert (r2 = r0) as -> by congruence.
        assert (g' = g) as -> by congruence. exists r1, true, (k + 1). done.
      * rewrite list_lookup_insert_ne by congruence. rewrite list_lookup_insert_ne by congruence. eauto.
Qed.

(** ** What an admission does to the books *)

(** Usage, outstanding counts, records, tenants, disk pressure and the drop ledger are as before. *)
Record SameBooks (l l' : Live) : Prop := {
  sb_topology : topology (lv_state l') = topology (lv_state l);
  sb_pressure : disk_pressure (lv_state l') = disk_pressure (lv_state l);
  sb_usage : usage (lv_state l') = usage (lv_state l);
  sb_counts : counts (lv_state l') = counts (lv_state l);
  sb_records : grant_records (grants (lv_state l')) = grant_records (grants (lv_state l));
  sb_free : free_slots (grants (lv_state l')) = free_slots (grants (lv_state l));
  sb_drops : lv_drops l' = lv_drops l;
  sb_lifecycle : lifecycle (lv_state l') = lifecycle (lv_state l) \/ lifecycle (lv_state l') = Fenced;
}.

(** One record was granted: the totals and counters moved by its charge, and every other record
    is charged as before. *)
Record Granted (slot : nat) (r : GrantRecord) (l l' : Live) : Prop := {
  gd_free : grant_records (grants (lv_state l)) !! slot = Some None;
  gd_new : grant_records (grants (lv_state l')) !! slot = Some (Some r);
  gd_charged : charged r = true;
  gd_moved : Moved 1 r (usage (lv_state l)) (counts (lv_state l)) (usage (lv_state l')) (counts (lv_state l'));
  gd_drops : lv_drops l' = set_signal (lv_drops l) slot SLOT_ACTIVE;
  gd_lifecycle : lifecycle (lv_state l') = lifecycle (lv_state l);
  gd_length : length (grant_records (grants (lv_state l'))) = length (grant_records (grants (lv_state l)));
  gd_kept x r0 : grant_records (grants (lv_state l)) !! x = Some (Some r0) ->
    exists r1, grant_records (grants (lv_state l')) !! x = Some (Some r1) /\ same_charge r0 r1;
  gd_origin x r1 : x <> slot -> grant_records (grants (lv_state l')) !! x = Some (Some r1) ->
    exists r0, grant_records (grants (lv_state l)) !! x = Some (Some r0) /\ same_charge r0 r1;
}.

(** The handle of a granted record. *)
Definition holds (h : ResourceReservation) (r : GrantRecord) : Prop :=
  res_amounts h = gr_amounts r /\ res_active h = true
  /\ grant_owner r = Some (res_owner h) /\ grant_class r = identity_class (res_identity h)
  /\ match res_identity h with
     | IdentityOrdinary tenant principal kind =>
         is_Some (co_pools (res_owner h)) /\ gr_kind r = from_ordinary kind /\ gr_tenant r = Some tenant /\ gr_principal r = principal
     | IdentityRecovery _ kind =>
         is_Some (co_recovery_pools (res_owner h)) /\ gr_kind r = from_recovery kind /\ gr_tenant r = None /\ gr_principal r = None
     end.

Lemma same_books_refl l : SameBooks l l.
Proof. split; auto. Qed.

Lemma same_books_fence l l' : SameBooks l l' -> SameBooks l (fence_state l').
Proof. intros []. split; cbn; auto. Qed.

Lemma same_books_trans l1 l2 l3 : SameBooks l1 l2 -> SameBooks l2 l3 -> SameBooks l1 l3.
Proof. intros [] []. split; try congruence. naive_solver congruence. Qed.

Lemma same_books_inv n l l' : SameBooks l l' -> Inv n l -> Inv n l'.
Proof. intros [_ _ Hu Hc Hr Hf Hd _] []. split; rewrite ?Hu, ?Hc, ?Hr, ?Hf, ?Hd; done. Qed.

(** A state that differs in the next operation generation only. *)
Definition with_generation (l : Live) (gen : Z) : Live :=
  set_state l (set_grants (lv_state l) (mkLedger (grant_records (grants (lv_state l))) (free_slots (grants (lv_state l))) gen)).

Lemma with_generation_same l gen : SameBooks l (with_generation l gen).
Proof. split; cbn; auto. Qed.

Lemma with_generation_id l : with_generation l (next_operation_generation (grants (lv_state l))) = l.
Proof. by destruct l as [[? [] ? ? ? ? ? ? ?] ?]. Qed.

(** A refused admission left everything as it was, or fenced the governor, at most after it took the next operation generation. *)
Definition Unadmitted (l l' : Live) : Prop := l' = l \/ exists gen, l' = fence_state (with_generation l gen).

Lemma unadmitted_same l l' : Unadmitted l l' -> SameBooks l l'.
Proof. intros [->|[gen ->]]; [apply same_books_refl|apply same_books_fence, with_generation_same]. Qed.

Lemma unadmitted_fenced l : Unadmitted l (fence_state l).
Proof. right. exists (next_operation_generation (grants (lv_state l))). by rewrite with_generation_id. Qed.

(** The outcome of an admission. *)
Definition admitted (n : nat) (l l' : Live) (r : result AdmissionFailure ResourceReservation) : Prop :=
  match r with
  | Ok h => exists rec, Granted (res_slot h) rec l l' /\ holds h rec /\ Inv n l'
  | Err _ => Unadmitted l l'
  end.

Lemma adm_bind_ok {A B} (m : Adm A) (k : A -> Adm B) l l' a : m l = (l', Ok a) -> (m ≫= k) l = k a l'.
Proof. unfold mbind, Adm_bind. by intros ->. Qed.

Lemma adm_bind_err {A B} (m : Adm A) (k : A -> Adm B) l l' f : m l = (l', Err f) -> (m ≫= k) l = (l', Err f).
Proof. unfold mbind, Adm_bind. by intros ->. Qed.

Lemma adm_bind_assoc {A B C} (m : Adm A) (k : A -> Adm B) (j : B -> Adm C) l : ((m ≫= k) ≫= j) l = (m ≫= (fun a => k a ≫= j)) l.
Proof. unfold mbind, Adm_bind. by destruct (m l) as [l' [a|f]]. Qed.

Lemma or_fence_some {A} class (o : option A) a l : o = Some a -> or_fence class o l = (l, Ok a).
Proof. by intros ->. Qed.

Lemma operation_record_spec operation principal class l :
  match operation_record_for_claim operation principal class l with
  | (l0, Ok o) => exists gen, l0 = with_generation l gen
      /\ match operation with
         | Some token => o = Some (Child (tok_root_slot token) (tok_generation token))
         | None => o = None \/ exists g, o = Some (Root g true 0)
         end
  | (l0, Err _) => l0 = fence_state l
  end.
Proof.
  assert (Hl : l = with_generation l (next_operation_generation (grants (lv_state l)))) by (by destruct l as [[? [] ? ? ? ? ? ? ?] ?]).
  unfold operation_record_for_claim. destruct operation as [token|]; [by exists (next_operation_generation (grants (lv_state l)))|].
  destruct principal as [p|]; [|exists (next_operation_generation (grants (lv_state l))); auto].
  rewrite (adm_bind_ok _ _ _ l (lv_state l)) by done. cbv zeta.
  destruct (checked_add _ _ _) as [next|] eqn:Hn.
  - rewrite (adm_bind_ok _ _ l l next) by done. exists next. split; [done|]. right. eauto.
  - by rewrite (adm_bind_err _ _ l (fence_state l) (internal_failure_at_pressure class (disk_pressure (lv_state l)))) by done.
Qed.

(** The records after a grant: the new one, and perhaps a root that counts it. *)
Inductive grants_to (slot : nat) (r : GrantRecord) (rs : list (option GrantRecord)) : list (option GrantRecord) -> Prop :=
| grants_plain : grants_to slot r rs (<[slot := Some r]> rs)
| grants_child root r0 r1 : root <> slot -> rs !! root = Some (Some r0) -> same_charge r0 r1 ->
    grants_to slot r rs (<[root := Some r1]> (<[slot := Some r]> rs)).

Lemma grants_to_length slot r rs rs' : grants_to slot r rs rs' -> length rs' = length rs.
Proof. intros []; by rewrite ?length_insert. Qed.

Lemma grants_to_new slot r rs rs' : grants_to slot r rs rs' -> (slot < length rs)%nat -> rs' !! slot = Some (Some r).
Proof. intros [|root r0 r1 Hne _ _] Hlt; [|rewrite list_lookup_insert_ne by congruence]; by rewrite list_lookup_insert_eq by lia. Qed.

Lemma grants_to_kept slot r rs rs' x r0 : grants_to slot r rs rs' -> x <> slot -> rs !! x = Some (Some r0) ->
  exists r1, rs' !! x = Some (Some r1) /\ same_charge r0 r1.
Proof.
  intros [|root q0 q1 Hne Hq Hsc] Hx Hr; [exists r0; by rewrite list_lookup_insert_ne by congruence|].
  destruct (decide (x = root)) as [->|].
  - exists q1. rewrite list_lookup_insert_eq by (rewrite length_insert; by eapply lookup_lt_Some). by simplify_eq.
  - exists r0. by rewrite !list_lookup_insert_ne by congruence.
Qed.

Lemma grants_to_origin slot r rs rs' x r1 : grants_to slot r rs rs' -> x <> slot -> rs' !! x = Some (Some r1) ->
  exists r0, rs !! x = Some (Some r0) /\ same_charge r0 r1.
Proof.
  intros [|root q0 q1 Hne Hq Hsc] Hx Hr.
  - rewrite list_lookup_insert_ne in Hr by congruence. by exists r1.
  - apply lookup_insert_inv in Hr as [[-> [= ->]]|[_ Hr]]; [by exists q0|]. rewrite list_lookup_insert_ne in Hr by congruence. by exists r1.
Qed.

Lemma grants_to_shifts slot r rs rs' : grants_to slot r rs rs' -> rs !! slot = Some None -> shifts 1 r rs rs'.
Proof.
  intros [|root r0 r1 Hne Hr Hsc] Hs; [by apply shifts_fill|]. eapply shifts_retag; [by apply shifts_fill| |done].
  by rewrite list_lookup_insert_ne by congruence.
Qed.

Lemma grants_to_slots slot r rs rs' rest signals : grants_to slot r rs rs' -> SlotsOk rs (slot :: rest) signals ->
  SlotsOk rs' rest (<[slot := SLOT_ACTIVE]> signals).
Proof.
  intros Hg Hs. destruct (slots_fill rs slot rest signals r Hs) as (_ & _ & Hok). destruct Hg as [|root r0 r1 Hne Hr _]; [done|].
  eapply slots_retag; [done|]. by rewrite list_lookup_insert_ne by congruence.
Qed.

(** A state that records a new grant and moves the totals by its charge keeps the invariant. *)
Lemma granted_inv n l l' slot rest r :
  Inv n l -> free_slots (grants (lv_state l)) = slot :: rest -> charged r = true ->
  grants_to slot r (grant_records (grants (lv_state l))) (grant_records (grants (lv_state l'))) ->
  OpsOk n (grant_records (grants (lv_state l'))) -> free_slots (grants (lv_state l')) = rest ->
  lv_drops l' = set_signal (lv_drops l) slot SLOT_ACTIVE -> lifecycle (lv_state l') = lifecycle (lv_state l) ->
  Moved 1 r (usage (lv_state l)) (counts (lv_state l)) (usage (lv_state l')) (counts (lv_state l')) ->
  Shaped n (usage (lv_state l')) (counts (lv_state l')) ->
  Granted slot r l l' /\ Inv n l'.
Proof.
  intros HI Hfree Hch Hg Hops Hrest Hdrops Hlife Hmv Hsh.
  pose proof (inv_slots _ _ HI) as Hsl. rewrite Hfree in Hsl. destruct (slots_fill _ slot rest _ r Hsl) as (Hnone & _ & _).
  split.
  - split; try done.
    + eapply grants_to_new; [done|]. by eapply lookup_lt_Some.
    + by eapply grants_to_length.
    + intros x r0 Hx. eapply grants_to_kept; [done| |done]. intros ->. congruence.
    + intros x r1. intros; by eapply grants_to_origin.
  - split; [|done| |done].
    + eapply moved_conserved; [apply HI|done|]. by apply (grants_to_shifts slot).
    + rewrite Hrest, Hdrops. cbn [set_signal slot_signals]. by eapply grants_to_slots.
Qed.

(** The live state with [r] written to [slot], the first free one. *)
Definition filled (l : Live) (slot : nat) (rest : list nat) (r : GrantRecord) : Live :=
  mkLive (set_grants (lv_state l) (mkLedger (<[slot := Some r]> (grant_records (grants (lv_state l)))) rest
      (next_operation_generation (grants (lv_state l))))) (set_signal (lv_drops l) slot SLOT_ACTIVE).

Lemma activate_spec n l r class : Inv n l ->
  match free_slots (grants (lv_state l)) with
  | [] => (activate r ≫= or_fence class) l = (fence_state l, Err (internal_failure_at_pressure class (disk_pressure (lv_state l))))
  | slot :: rest => (activate r ≫= or_fence class) l = (filled l slot rest r, Ok slot)
  end.
Proof.
  intros HI. pose proof (inv_slots _ _ HI) as Hsl. unfold mbind, Adm_bind, activate, activate_slot.
  destruct (free_slots (grants (lv_state l))) as [|slot rest] eqn:Hf; [done|].
  destruct (slots_fill _ slot rest _ r Hsl) as (Hnone & Hsig & _). by rewrite Hnone, Hsig.
Qed.

Lemma store_usage_ok {A} class (field : UsageTotals -> list A) i a set l x : field (usage (lv_state l)) !! i = Some x ->
  store_usage class field i a set l
  = (set_state l (set_usage (lv_state l) (set (usage (lv_state l)) (<[i := a]> (field (usage (lv_state l)))))), Ok tt).
Proof.
  intros Hx. unfold store_usage. rewrite (adm_bind_ok _ _ l l (lv_state l)) by done.
  by rewrite (adm_bind_ok _ _ l l _ (or_fence_some class _ _ l (store_at_ok _ _ _ _ Hx))).
Qed.

Lemma store_count_ok class (field : OutstandingCounts -> list Z) i a set l x : field (counts (lv_state l)) !! i = Some x ->
  store_count class field i a set l
  = (set_state l (set_counts (lv_state l) (set (counts (lv_state l)) (<[i := a]> (field (counts (lv_state l)))))), Ok tt).
Proof.
  intros Hx. unfold store_count. rewrite (adm_bind_ok _ _ l l (lv_state l)) by done.
  by rewrite (adm_bind_ok _ _ l l _ (or_fence_some class _ _ l (store_at_ok _ _ _ _ Hx))).
Qed.

(** Runs the first step of an admission whose outcome is known by computation, or by [H]. *)
Ltac adm_step := match goal with |- context [@mbind Adm Adm_bind ?A ?B ?k ?m ?l] => rewrite (adm_bind_ok m k l _ _ eq_refl) end.
(** Runs a guarded write whose entry exists by [H]. *)
Ltac adm_store H :=
  match goal with
  | |- context [@mbind Adm Adm_bind ?A ?B ?k (store_usage ?c ?f ?i ?v ?s) ?l] => rewrite (adm_bind_ok _ k l _ _ (store_usage_ok c f i v s l _ H))
  | |- context [@mbind Adm Adm_bind ?A ?B ?k (store_count ?c ?f ?i ?v ?s) ?l] => rewrite (adm_bind_ok _ k l _ _ (store_count_ok c f i v s l _ H))
  end.
Tactic Notation "adm_step_by" uconstr(H) := rewrite (adm_bind_ok _ _ _ _ _ H).

(** ** Committing an ordinary plan *)

(** The record that an ordinary commit writes. *)
Definition ordinary_record (claim : WorkClaim) (plan : OrdinaryPlan) (o : option OperationRecord) : GrantRecord :=
  mkGrant (claim_amounts claim) (pch_shared (op_pools plan)) (Z.of_nat (op_tenant_index plan)) (Some (claim_tenant claim))
    (claim_principal claim) (from_ordinary (claim_kind claim)) o.

Definition ordinary_owner (plan : OrdinaryPlan) : ChargeOwner := mkOwner (AttrOrdinary (op_tenant_index plan)) (Some (op_pools plan)) None.
Definition claim_identity (claim : WorkClaim) : ReservationIdentity :=
  IdentityOrdinary (claim_tenant claim) (claim_principal claim) (claim_kind claim).

Lemma ordinary_record_class claim plan o : grant_is_ordinary (ordinary_record claim plan o) = true
  /\ grant_class (ordinary_record claim plan o) = WorkKind_class (claim_kind claim).
Proof. unfold grant_is_ordinary, grant_class, ordinary_record. cbn [gr_kind]. by destruct (claim_kind claim). Qed.

Lemma grant_index_small r i : gr_tenant_index r = Z.of_nat i -> Z.of_nat i < u16_max -> grant_tenant_index r = Some i.
Proof.
  intros Hi Hlt. unfold grant_tenant_index, SYSTEM_TENANT_INDEX. rewrite Hi, (proj2 (Z.eqb_neq _ _)) by lia. by rewrite Nat2Z.id.
Qed.

Lemma to_u16_small i : Z.of_nat i <= u16_max -> to_u16 i = Some (Z.of_nat i).
Proof. intros H. unfold to_u16. by rewrite (proj2 (Z.leb_le _ _)). Qed.

Section ordinary_commit.
Context (n : nat) (Hn : Z.of_nat n <= u16_max) (g : GovernorInner) (claim : WorkClaim) (plan : OrdinaryPlan).
Context (Hamounts : forall d, 0 <= get (claim_amounts claim) d).

Lemma ordinary_index st : Shaped n (usage st) (counts st) -> ordinary_plan_ok g claim st plan -> (op_tenant_index plan < n)%nat.
Proof. intros Hsh Hp. destruct (po_tenant _ _ _ _ Hp) as (a & Ha & _). rewrite <- (sh_tenant _ _ _ Hsh). by eapply lookup_lt_Some. Qed.

Lemma ordinary_record_wf st o : Shaped n (usage st) (counts st) -> ordinary_plan_ok g claim st plan ->
  charged (ordinary_record claim plan o) = true -> wf_record n (ordinary_record claim plan o).
Proof.
  intros Hsh Hp Hch. pose proof (ordinary_index st Hsh Hp) as Hi.
  assert (Hix : grant_tenant_index (ordinary_record claim plan o) = Some (op_tenant_index plan)) by (apply grant_index_small; [done|lia]).
  destruct (po_pools _ _ _ _ Hp) as (tp & fair & _ & _ & Hpp & _). split.
  - intros d. cbn. pose proof (pp_nonneg _ _ _ _ Hpp d (Hamounts d)). pose proof (pp_split _ _ _ _ Hpp d). lia.
  - intros _. eauto.
  - rewrite Hix. by intros i [= <-].
  - congruence.
  - destruct (ordinary_record_class claim plan o). congruence.
  - cbn. lia.
Qed.

(** The owner that a release reconstructs is the one that was charged. *)
Lemma ordinary_record_owner st o : Shaped n (usage st) (counts st) -> ordinary_plan_ok g claim st plan ->
  grant_owner (ordinary_record claim plan o) = Some (ordinary_owner plan).
Proof.
  intros Hsh Hp. pose proof (ordinary_index st Hsh Hp) as Hi. destruct (po_pools _ _ _ _ Hp) as (tp & fair & _ & _ & Hpp & _).
  assert (Hix : grant_tenant_index (ordinary_record claim plan o) = Some (op_tenant_index plan)) by (apply grant_index_small; [done|lia]).
  assert (Hk : ordinary_kind (from_ordinary (claim_kind claim)) = Some (claim_kind claim)) by (by destruct (claim_kind claim)).
  unfold grant_owner. cbn [gr_amounts gr_shared gr_kind ordinary_record]. rewrite amounts_sub_ok.
  2:{ intros d. pose proof (pp_nonneg _ _ _ _ Hpp d (Hamounts d)). pose proof (pp_split _ _ _ _ Hpp d). lia. }
  cbn [mbind option_bind]. rewrite Hk, (pp_pool _ _ _ _ Hpp). cbn [mbind option_bind]. rewrite Hix. cbn [mbind option_bind].
  unfold ordinary_owner. do 3 f_equal. destruct (op_pools plan) as [cp sh pr] eqn:Hop. cbn [pch_class_pool pch_shared]. f_equal.
  apply amounts_ext. intros d. rewrite get_zip_map. pose proof (pp_split _ _ _ _ Hpp d) as Hs. cbn in Hs. lia.
Qed.

(** The totals and counters that the commit writes. *)
Definition ordinary_usage_after (u : UsageTotals) : UsageTotals :=
  mkUsage (op_total plan) (recovery_usage u) (<[op_tenant_index plan := op_tenant plan]> (ordinary_tenant_usage u)) (recovery_tenant_usage u)
    (recovery_pool_usage u) (recovery_system_pool_usage u) (recovery_tenant_pool_usage u) (op_pool_candidate plan)
    (<[op_tenant_index plan := op_tenant_pool_candidate plan]> (ordinary_tenant_pool_usage u)).
Definition ordinary_counts_after (c : OutstandingCounts) : OutstandingCounts :=
  mkCounts (<[op_tenant_index plan := op_tenant_count plan]> (tenant_outstanding c)) (op_outstanding plan) (op_ordinary_count plan)
    (outstanding_recovery c) (outstanding_uninterruptible c) (<[op_class_index plan := op_class_count plan]> (class_counts c)).

Lemma ordinary_shaped st : Shaped n (usage st) (counts st) -> Shaped n (ordinary_usage_after (usage st)) (ordinary_counts_after (counts st)).
Proof. intros []. split; cbn; by rewrite ?length_insert. Qed.

Lemma ordinary_moved st o : Shaped n (usage st) (counts st) -> ordinary_plan_ok g claim st plan ->
  charged (ordinary_record claim plan o) = true ->
  Moved 1 (ordinary_record claim plan o) (usage st) (counts st) (ordinary_usage_after (usage st)) (ordinary_counts_after (counts st)).
Proof.
  intros Hsh Hp Hch. destruct (ordinary_record_class claim plan o) as [Ho Hc]. pose proof (ordinary_index st Hsh Hp) as Hi.
  destruct (po_tenant _ _ _ _ Hp) as (a & Ha & Ha'). destruct (po_pools _ _ _ _ Hp) as (tp & fair & Htp & _ & Hpp & Htp').
  destruct (po_class _ _ _ _ Hp) as (k & Hk & Hk'). destruct (po_tenant_count _ _ _ _ Hp) as (tc & Htc & Htc').
  pose proof (po_total _ _ _ _ Hp) as Ht. pose proof (po_pool _ _ _ _ Hp) as Hpool. rewrite amounts_add_Some in Ht, Ha'. rewrite pools_add_Some in Htp', Hpool.
  set (r := ordinary_record claim plan o) in *.
  assert (Hcp : for_class (grant_class r) = Some (pch_class_pool (op_pools plan))) by (rewrite Hc; apply Hpp).
  assert (Hcharge : forall p d, get (pool_get (charge_capacities (op_pools plan)) p) d = m_pool p d r).
  { intros p d. rewrite <- (record_charge_pool r _ p d Ho Hcp). do 3 f_equal. unfold record_charge. destruct (op_pools plan) as [cp sh pr] eqn:Hop.
    cbn [pch_class_pool] in *. f_equal; [subst r; cbn; by rewrite Hop|]. apply amounts_ext. intros d'. rewrite get_zip_map. subst r. cbn. rewrite Hop. cbn.
    pose proof (pp_split _ _ _ _ Hpp d') as Hs. cbn in Hs. lia. }
  unfold ordinary_counts_after. rewrite (po_outstanding _ _ _ _ Hp), (po_ordinary_count _ _ _ _ Hp), Hk', Htc', (po_class_index _ _ _ _ Hp), <- Hc.
  rewrite (po_class_index _ _ _ _ Hp), <- Hc in Hk. fold r in Hk |- *.
  eapply (moved_ordinary 1 r (op_tenant_index plan)); try done.
  - apply grant_index_small; [done|lia].
  - intros d. specialize (Ht d). subst r. cbn. lia.
  - intros d. specialize (Ha' d). subst r. cbn. lia.
  - intros p d. destruct (Hpool p d) as [-> _]. rewrite Hcharge. lia.
  - intros p d. destruct (Htp' p d) as [-> _]. rewrite Hcharge. lia.
Qed.

(** Counting a new child at its root. *)
Lemma count_child_ok l slot rest o class : Inv n l -> free_slots (grants (lv_state l)) = slot :: rest ->
  ordinary_plan_ok g claim (lv_state l) plan -> WorkKind_class (claim_kind claim) = class ->
  match claim_operation claim with
  | Some token => o = Some (Child (tok_root_slot token) (tok_generation token))
  | None => o = None \/ exists g, o = Some (Root g true 0)
  end ->
  let r := ordinary_record claim plan o in
  exists rs', count_child class (claim_operation claim) (filled l slot rest r)
    = (mkLive (set_grants (lv_state l) (mkLedger rs' rest (next_operation_generation (grants (lv_state l))))) (set_signal (lv_drops l) slot SLOT_ACTIVE), Ok tt)
    /\ grants_to slot r (grant_records (grants (lv_state l))) rs' /\ OpsOk n rs' /\ charged r = true.
Proof.
  intros HI Hfree Hp Hclass Ho r. pose proof (inv_slots _ _ HI) as Hsl. rewrite Hfree in Hsl.
  destruct (slots_fill _ slot rest _ r Hsl) as (Hnone & _ & _).
  assert (Hch : charged r = true) by (unfold charged; cbn; destruct (claim_operation claim); [by subst o|by destruct Ho as [->|[? ->]]]).
  pose proof (ordinary_record_wf (lv_state l) o (inv_shaped _ _ HI) Hp Hch) as Hw.
  destruct (claim_operation claim) as [token|] eqn:Hop; cbn [count_child].
  2:{ exists (<[slot := Some r]> (grant_records (grants (lv_state l)))). split; [done|]. split; [constructor|]. split; [|done].
      apply ops_fill; [apply HI|done..]. }
  pose proof (po_operation _ _ _ _ Hp) as Hv. rewrite Hop in Hv. unfold validate_operation_child in Hv.
  destruct (record_at (lv_state l) (tok_root_slot token)) as [r0|] eqn:Hrec; [|done].
  assert (Hr0 : grant_records (grants (lv_state l)) !! tok_root_slot token = Some (Some r0)).
  { unfold record_at in Hrec. destruct (grant_records (grants (lv_state l)) !! tok_root_slot token); [|done]. cbn in Hrec. by subst. }
  destruct (gr_operation r0) as [[g0 a0 k0|]|] eqn:Hop0; [|by rewrite andb_false_r in Hv..]. destruct a0; [|by rewrite andb_false_r in Hv].
  assert (g0 = tok_generation token) as -> by (apply Z.eqb_eq; destruct (g0 =? tok_generation token); [done|by rewrite andb_false_r in Hv]).
  destruct (ops_fill_child n _ slot r _ r0 _ k0 (inv_ops _ _ HI) (so_length _ _ _ Hsl) Hnone Hw ltac:(by subst o) Hr0 Hop0) as (Hne & Hinc & Hsc & Hops).
  eexists. split; [|split; [eapply grants_child; done|done]].
  assert (Hat : record_at (lv_state (filled l slot rest r)) (tok_root_slot token) = Some r0)
    by (unfold record_at; cbn; rewrite list_lookup_insert_ne by congruence; by rewrite Hr0).
  adm_step. adm_step_by (or_fence_some class _ r0 _ Hat).
  by adm_step_by (or_fence_some class _ _ _ Hinc).
Qed.

Lemma commit_ordinary_ok l : Inv n l -> ordinary_plan_ok g claim (lv_state l) plan ->
  let '(l', r) := commit_ordinary g claim plan l in
  admitted n l l' r /\ forall h, r = Ok h -> usage (lv_state l') = ordinary_usage_after (usage (lv_state l)) /\ res_owner h = ordinary_owner plan.
Proof.
  intros HI Hp. unfold commit_ordinary. cbv zeta. set (class := WorkKind_class (claim_kind claim)).
  pose proof (operation_record_spec (claim_operation claim) (claim_principal claim) class l) as Hspec.
  destruct (operation_record_for_claim _ _ _ l) as [l0 [o|f]] eqn:Hrec.
  2:{ rewrite (adm_bind_err _ _ _ _ _ Hrec). subst l0. split; [apply unadmitted_fenced|done]. }
  destruct Hspec as (gen & -> & Ho). adm_step_by Hrec. clear Hrec.
  assert (HI0 : Inv n (with_generation l gen)) by (eapply same_books_inv; [apply with_generation_same|done]).
  pose proof (ordinary_index (lv_state l) (inv_shaped _ _ HI) Hp) as Hi.
  assert (Hnew : GrantRecord_new (ordinary_owner plan) (claim_identity claim) (claim_amounts claim) o = Some (ordinary_record claim plan o))
    by (cbn; by rewrite to_u16_small by lia).
  adm_step_by (or_fence_some class _ _ _ Hnew). clear Hnew.
  pose proof (activate_spec n (with_generation l gen) (ordinary_record claim plan o) class HI0) as Hact.
  destruct (free_slots (grants (lv_state (with_generation l gen)))) as [|slot rest] eqn:Hfree.
  { rewrite (adm_bind_err _ _ _ _ _ Hact). split; [right; by eexists|done]. }
  assert (Hp0 : ordinary_plan_ok g claim (lv_state (with_generation l gen)) plan) by (destruct Hp; by split).
  adm_step_by Hact. destruct (count_child_ok (with_generation l gen) slot rest o class HI0 Hfree Hp0 eq_refl Ho) as (rs' & Hcc & Hg & Hops & Hch).
  adm_step_by Hcc. clear Hcc Hact. adm_step.
  destruct (po_tenant _ _ _ _ Hp) as (a & Ha & _). destruct (po_pools _ _ _ _ Hp) as (tp & fair & Htp & _).
  destruct (po_class _ _ _ _ Hp) as (k & Hk & _). destruct (po_tenant_count _ _ _ _ Hp) as (tc & Htc & _).
  adm_store Ha. adm_store Htp. adm_store Hk. adm_store Htc.
  adm_step. adm_step. cbn [admitted res_slot mret Adm_ret]. split; [|by intros h [= <-]].
  exists (ordinary_record claim plan o).
  match goal with |- Granted _ _ _ ?x /\ _ => destruct (granted_inv n (with_generation l gen) x slot rest (ordinary_record claim plan o)) as [HG HI'] end;
    [done|done|done|exact Hg|exact Hops|done|done|done|exact (ordinary_moved (lv_state l) o (inv_shaped _ _ HI) Hp Hch)|exact (ordinary_shaped (lv_state l) (inv_shaped _ _ HI))|].
  split; [by destruct HG; split|]. split; [|exact HI']. do 2 (split; [done|]).
  split; [apply (ordinary_record_owner (lv_state l) o (inv_shaped _ _ HI) Hp)|]. split; [apply ordinary_record_class|by eexists].
Qed.
End ordinary_commit.

(** ** Committing a recovery plan *)

Definition recovery_record (claim : RecoveryWorkClaim) (plan : RecoveryPlan) : GrantRecord :=
  mkGrant (rclaim_amounts claim) (rch_shared (rp_pools plan))
    (match rp_tenant_index plan with Some i => Z.of_nat i | None => SYSTEM_TENANT_INDEX end) None None
    (from_recovery (rclaim_kind claim)) None.

Lemma recovery_record_class claim plan : grant_is_ordinary (recovery_record claim plan) = false
  /\ grant_class (recovery_record claim plan) = DurabilityRecovery
  /\ grant_recovery_kind (recovery_record claim plan) = Some (rclaim_kind claim).
Proof. unfold grant_is_ordinary, grant_class, grant_recovery_kind, recovery_record. cbn [gr_kind]. by destruct (rclaim_kind claim). Qed.

Section recovery_commit.
Context (n : nat) (Hn : Z.of_nat n <= u16_max) (g : GovernorInner) (claim : RecoveryWorkClaim) (plan : RecoveryPlan).
Context (Hamounts : forall d, 0 <= get (rclaim_amounts claim) d).

Lemma recovery_index st i : Shaped n (usage st) (counts st) -> recovery_plan_ok g claim st plan -> rp_tenant_index plan = Some i -> (i < n)%nat.
Proof.
  intros Hsh Hp Hi. pose proof (pr_scope _ _ _ _ Hp) as Hs. rewrite Hi in Hs. destruct Hs as (a & _ & _ & _ & Ha & _).
  rewrite <- (sh_recovery_tenant _ _ _ Hsh). by eapply lookup_lt_Some.
Qed.

Lemma recovery_record_index st : Shaped n (usage st) (counts st) -> recovery_plan_ok g claim st plan ->
  grant_tenant_index (recovery_record claim plan) = rp_tenant_index plan.
Proof.
  intros Hsh Hp. destruct (rp_tenant_index plan) as [i|] eqn:Hi.
  - pose proof (recovery_index st i Hsh Hp Hi). apply grant_index_small; [cbn; by rewrite Hi|lia].
  - unfold grant_tenant_index, recovery_record. cbn [gr_tenant_index]. by rewrite Hi.
Qed.

Lemma recovery_record_wf st : Shaped n (usage st) (counts st) -> recovery_plan_ok g claim st plan -> wf_record n (recovery_record claim plan).
Proof.
  intros Hsh Hp. destruct (recovery_record_class claim plan) as (Ho & _ & _). destruct (pr_pools _ _ _ _ Hp) as (ord & _ & Hpp). split; try done.
  - intros d. cbn. pose proof (rc_nonneg _ _ _ _ Hpp d (Hamounts d)). pose proof (rc_split _ _ _ _ Hpp d). lia.
  - congruence.
  - rewrite (recovery_record_index st Hsh Hp). intros i. by apply (recovery_index st).
  - cbn. destruct (rp_tenant_index plan) as [i|] eqn:Hi; [|done]. pose proof (recovery_index st i Hsh Hp Hi). lia.
Qed.

Lemma recovery_record_owner st : Shaped n (usage st) (counts st) -> recovery_plan_ok g claim st plan ->
  grant_owner (recovery_record claim plan) = Some (mkOwner (AttrRecovery (rp_tenant_index plan)) None (Some (rp_pools plan))).
Proof.
  intros Hsh Hp. destruct (pr_pools _ _ _ _ Hp) as (ord & _ & Hpp). destruct (recovery_record_class claim plan) as (Ho & _ & Hk).
  unfold grant_owner. rewrite amounts_sub_ok.
  2:{ intros d. cbn. pose proof (rc_nonneg _ _ _ _ Hpp d (Hamounts d)). pose proof (rc_split _ _ _ _ Hpp d). lia. }
  cbn [mbind option_bind]. unfold grant_is_ordinary in Ho. destruct (ordinary_kind _) eqn:Hok; [done|]. unfold grant_recovery_kind in Hk. rewrite Hk.
  cbn [mbind option_bind]. rewrite (recovery_record_index st Hsh Hp). unfold recovery_record. cbn [gr_amounts gr_shared].
  assert (Hz : zip_map Z.sub (rclaim_amounts claim) (rch_shared (rp_pools plan)) = rch_protected (rp_pools plan)).
  { apply amounts_ext. intros d. rewrite get_zip_map. pose proof (rc_split _ _ _ _ Hpp d). lia. }
  pose proof (rc_kind _ _ _ _ Hpp) as Hrk. rewrite Hz, <- Hrk. by destruct (rp_pools plan).
Qed.

(** The totals and counters that the commit writes. *)
Definition recovery_usage_after (u : UsageTotals) : UsageTotals :=
  mkUsage (rp_total plan) (rp_recovery plan) (ordinary_tenant_usage u)
    (match rp_tenant_index plan, rp_tenant plan with Some i, Some a => <[i := a]> (recovery_tenant_usage u) | _, _ => recovery_tenant_usage u end)
    (rp_pool_candidate plan)
    (match rp_tenant_index plan, rp_tenant plan with Some i, Some a => recovery_system_pool_usage u | _, _ => rp_scope_candidate plan end)
    (match rp_tenant_index plan, rp_tenant plan with
     | Some i, Some a => <[i := rp_scope_candidate plan]> (recovery_tenant_pool_usage u) | _, _ => recovery_tenant_pool_usage u end)
    (pool_usage u) (ordinary_tenant_pool_usage u).
Definition recovery_counts_after (c : OutstandingCounts) : OutstandingCounts :=
  mkCounts (match rp_tenant_index plan, rp_tenant_count plan with Some i, Some k => <[i := k]> (tenant_outstanding c) | _, _ => tenant_outstanding c end)
    (rp_outstanding plan) (outstanding_ordinary c) (rp_recovery_count plan)
    (default_to (outstanding_uninterruptible c) (rp_uninterruptible plan)) (<[rp_class_index plan := rp_class_count plan]> (class_counts c)).

Lemma recovery_shaped st : Shaped n (usage st) (counts st) -> Shaped n (recovery_usage_after (usage st)) (recovery_counts_after (counts st)).
Proof. intros []. split; cbn; repeat case_match; by rewrite ?length_insert. Qed.

Lemma recovery_usage_moved st v v' : recovery_plan_ok g claim st plan -> recovery_usage_add v (rp_pools plan) = Some v' ->
  usage_moved 1 (recovery_record claim plan) v v'.
Proof.
  intros Hp Hv. destruct (recovery_record_class claim plan) as (Ho & _ & Hk). destruct (pr_pools _ _ _ _ Hp) as (ord & _ & Hpp).
  apply recovery_usage_add_spec in Hv as [Hs Hpr]. split.
  - intros d. rewrite Hs. unfold m_rshared, m_shared. rewrite Ho. unfold recovery_record. cbn [gr_shared negb when]. lia.
  - intros k d. rewrite Hpr, (rc_kind _ _ _ _ Hpp). unfold m_rprotected, m_protected. rewrite Hk.
    destruct (decide (rclaim_kind claim = k)) as [->|]; [rewrite !when_true by (by apply bool_decide_eq_true)|
      rewrite !when_false by (apply bool_decide_eq_false; congruence); lia].
    pose proof (rc_split _ _ _ _ Hpp d). cbn. lia.
Qed.

Lemma recovery_moved st : Shaped n (usage st) (counts st) -> recovery_plan_ok g claim st plan ->
  Moved 1 (recovery_record claim plan) (usage st) (counts st) (recovery_usage_after (usage st)) (recovery_counts_after (counts st)).
Proof.
  intros Hsh Hp. destruct (recovery_record_class claim plan) as (Ho & Hc & Hk). set (r := recovery_record claim plan) in *.
  destruct (pr_class _ _ _ _ Hp) as (k & Hkc & Hk'). pose proof (pr_total _ _ _ _ Hp) as Ht. pose proof (pr_recovery _ _ _ _ Hp) as Hr.
  rewrite amounts_add_Some in Ht, Hr. unfold recovery_counts_after, recovery_usage_after.
  assert (Hun : default_to (outstanding_uninterruptible (counts st)) (rp_uninterruptible plan)
    = outstanding_uninterruptible (counts st) + 1 * m_uninterruptible r).
  { rewrite (pr_uninterruptible _ _ _ _ Hp). unfold m_uninterruptible. rewrite Hk. destruct (retains_capacity _); cbn; lia. }
  rewrite Hun, (pr_outstanding _ _ _ _ Hp), (pr_recovery_count _ _ _ _ Hp), Hk', (pr_class_index _ _ _ _ Hp), <- Hc.
  rewrite (pr_class_index _ _ _ _ Hp), <- Hc in Hkc.
  apply (moved_recovery 1 r); try done.
  - intros d. specialize (Ht d). subst r. cbn. lia.
  - intros d. specialize (Hr d). subst r. cbn. lia.
  - apply (recovery_usage_moved st); [done|apply Hp].
  - subst r. rewrite (recovery_record_index st Hsh Hp). pose proof (pr_scope _ _ _ _ Hp) as Hs. unfold scope_moved.
    destruct (rp_tenant_index plan) as [i|].
    + destruct Hs as (a & a' & v & tc & Ha & -> & Ha' & Hv & Hv' & Htc & ->). exists a, a', v, (rp_scope_candidate plan), tc.
      rewrite amounts_add_Some in Ha'. repeat (split; [first [done | intros d; specialize (Ha' d); cbn; lia | by apply (recovery_usage_moved st)]|]). done.
    + destruct Hs as (_ & _ & Hs). split; [by apply (recovery_usage_moved st)|done].
Qed.

Lemma commit_recovery_ok l : Inv n l -> recovery_plan_ok g claim (lv_state l) plan ->
  let '(l', r) := commit_recovery claim plan l in
  admitted n l l' r /\ forall h, r = Ok h -> usage (lv_state l') = recovery_usage_after (usage (lv_state l)).
Proof.
  intros HI Hp. unfold commit_recovery. cbv zeta. set (class := DurabilityRecovery).
  assert (Hnew : GrantRecord_new (mkOwner (AttrRecovery (rp_tenant_index plan)) None (Some (rp_pools plan)))
    (IdentityRecovery (rclaim_scope claim) (rclaim_kind claim)) (rclaim_amounts claim) None = Some (recovery_record claim plan)).
  { unfold recovery_record. cbn. destruct (rp_tenant_index plan) as [i|] eqn:Hi; [|done].
    pose proof (recovery_index (lv_state l) i (inv_shaped _ _ HI) Hp Hi). by rewrite to_u16_small by lia. }
  adm_step_by (or_fence_some class _ _ _ Hnew). clear Hnew.
  pose proof (activate_spec n l (recovery_record claim plan) class HI) as Hact.
  destruct (free_slots (grants (lv_state l))) as [|slot rest] eqn:Hfree.
  { rewrite (adm_bind_err _ _ _ _ _ Hact). split; [apply unadmitted_fenced|done]. }
  adm_step_by Hact. clear Hact. pose proof (recovery_record_wf (lv_state l) (inv_shaped _ _ HI) Hp) as Hw.
  pose proof (inv_slots _ _ HI) as Hsl. rewrite Hfree in Hsl. destruct (slots_fill _ slot rest _ (recovery_record claim plan) Hsl) as (Hnone & _ & _).
  assert (Hops : OpsOk n (<[slot := Some (recovery_record claim plan)]> (grant_records (grants (lv_state l))))) by (apply ops_fill; [apply HI|auto..]).
  destruct (pr_class _ _ _ _ Hp) as (k & Hk & _).
  pose proof (recovery_moved (lv_state l) (inv_shaped _ _ HI) Hp) as Hmv. pose proof (recovery_shaped (lv_state l) (inv_shaped _ _ HI)) as Hsh.
  pose proof (pr_scope _ _ _ _ Hp) as Hs. unfold recovery_usage_after, recovery_counts_after in Hmv, Hsh.
  assert (Hfin : forall l', grants (lv_state l') = mkLedger (<[slot := Some (recovery_record claim plan)]> (grant_records (grants (lv_state l)))) rest
      (next_operation_generation (grants (lv_state l))) ->
    lv_drops l' = set_signal (lv_drops l) slot SLOT_ACTIVE -> lifecycle (lv_state l') = lifecycle (lv_state l) ->
    usage (lv_state l') = recovery_usage_after (usage (lv_state l)) -> counts (lv_state l') = recovery_counts_after (counts (lv_state l)) ->
    admitted n l l' (Ok (mkReservation slot (mkOwner (AttrRecovery (rp_tenant_index plan)) None (Some (rp_pools plan)))
      (IdentityRecovery (rclaim_scope claim) (rclaim_kind claim)) (rclaim_amounts claim) None true))).
  { intros l' Hgr Hd Hlf Hu Hc. exists (recovery_record claim plan). cbn [res_slot].
    destruct (granted_inv n l l' slot rest (recovery_record claim plan)) as [HG HI']; rewrite ?Hgr, ?Hu, ?Hc; cbn; try done; [constructor|].
    split; [done|]. split; [|done]. do 2 (split; [done|]).
    split; [apply (recovery_record_owner (lv_state l) (inv_shaped _ _ HI) Hp)|]. split; [apply recovery_record_class|by eexists]. }
  unfold recovery_usage_after, recovery_counts_after in Hfin. clear Hmv Hsh.
  destruct (rp_tenant_index plan) as [i|] eqn:Hi.
  - destruct Hs as (a & a' & v & tc & Ha & Ht & _ & Hv & _ & Htc & Htn). rewrite Ht, Htn in *.
    rewrite adm_bind_assoc. adm_store Ha. adm_store Hv.
    adm_step. adm_step_by (or_fence_some class _ _ _ Hk). do 2 adm_step. adm_store Hk. adm_store Htc.
    destruct (rp_uninterruptible plan); adm_step; (split; [by apply Hfin|unfold recovery_usage_after; by rewrite ?Hi, ?Ht]).
  - clear Hs. adm_step. adm_step. adm_step_by (or_fence_some class _ _ _ Hk). do 2 adm_step.
    adm_store Hk. adm_step. destruct (rp_uninterruptible plan); adm_step; (split; [by apply Hfin|unfold recovery_usage_after; by rewrite ?Hi, ?Ht]).
Qed.
End recovery_commit.

(** ** Admission *)

Lemma reserve_ordinary_admits n g claim l : Z.of_nat n <= u16_max -> Inv n l -> (forall d, 0 <= get (claim_amounts claim) d) ->
  let '(l', r) := reserve_ordinary_locked g claim l in admitted n l l' r /\ forall h, r = Ok h -> exists plan,
    ordinary_plan_ok g claim (lv_state l) plan /\ usage (lv_state l') = ordinary_usage_after plan (usage (lv_state l)) /\ res_owner h = ordinary_owner plan.
Proof.
  intros Hn HI Ha. unfold reserve_ordinary_locked. pose proof (plan_ordinary_reads g claim l) as Hr.
  destruct (plan_ordinary g claim l) as [l0 [plan|f]] eqn:Hp.
  - rewrite (adm_bind_ok _ _ _ _ _ Hp). apply plan_ordinary_ok in Hp as [-> Hp].
    pose proof (commit_ordinary_ok n Hn g claim plan Ha l HI Hp) as Hc. destruct (commit_ordinary g claim plan l). naive_solver.
  - rewrite (adm_bind_err _ _ _ _ _ Hp). split; [|done]. destruct Hr as [->| ->]; [by left|apply unadmitted_fenced].
Qed.

Lemma reserve_recovery_admits n g claim l : Z.of_nat n <= u16_max -> Inv n l -> (forall d, 0 <= get (rclaim_amounts claim) d) ->
  let '(l', r) := reserve_recovery_locked g claim l in admitted n l l' r /\ forall h, r = Ok h -> exists plan,
    recovery_plan_ok g claim (lv_state l) plan /\ usage (lv_state l') = recovery_usage_after plan (usage (lv_state l)).
Proof.
  intros Hn HI Ha. unfold reserve_recovery_locked. pose proof (plan_recovery_reads g claim l) as Hr.
  destruct (plan_recovery g claim l) as [l0 [plan|f]] eqn:Hp.
  - rewrite (adm_bind_ok _ _ _ _ _ Hp). apply plan_recovery_ok in Hp as [-> Hp].
    pose proof (commit_recovery_ok n Hn g claim plan Ha l HI Hp) as Hc. destruct (commit_recovery claim plan l). naive_solver.
  - rewrite (adm_bind_err _ _ _ _ _ Hp). split; [|done]. destruct Hr as [->| ->]; [by left|apply unadmitted_fenced].
Qed.
