(* ===== verification/GovernorSystem.v ===== *)
(** Resource governor: draining dropped reservations.

    A reservation that is dropped only marks its slot: a signal and a bit of a pending word. The
    next operation that takes the lock drains every marked slot first. This file proves that the
    drain releases exactly the marked grants, keeps every other grant, and never fences.

    Resource governor: the governor and the handles its callers hold.

    The abstract state is the list of the handles that callers hold. This file relates it to the
    accounting: every charged grant is owned by exactly one handle or is marked as dropped, and no
    use exceeds the configured capacities. Draining, granting, releasing and dropping preserve
    the relation. *)

From stdpp Require Import sets.
From S2P Require Import Prelude Outcome Identity GovernorModel GovernorPools GovernorState GovernorAdmission GovernorRelease GovernorConservation GovernorGrants GovernorControl.

(** ** Marks *)

(** The pending bit of a slot. *)
Definition marked (d : DropLedger) (slot : nat) : bool :=
  match pending_words d !! Nat.div slot 64 with Some w => Z.testbit w (Z.of_nat (Nat.modulo slot 64)) | None => false end.

Lemma elem_set_bits w b : b ∈ set_bits w <-> (b < 64)%nat /\ Z.testbit w (Z.of_nat b) = true.
Proof. unfold set_bits. rewrite list_elem_of_filter, elem_of_seq. split; [intros [? ?]|intros [? ?]]; split; (done || lia). Qed.

Lemma nodup_set_bits w : NoDup (set_bits w).
Proof. apply NoDup_filter, NoDup_seq. Qed.

Lemma slot_split slot : (slot = Nat.div slot 64 * 64 + Nat.modulo slot 64 /\ Nat.modulo slot 64 < 64)%nat.
Proof. pose proof (Nat.div_mod_eq slot 64). pose proof (Nat.mod_upper_bound slot 64). lia. Qed.

Lemma split_slot w b : (b < 64)%nat -> (Nat.div (w * 64 + b) 64 = w /\ Nat.modulo (w * 64 + b) 64 = b).
Proof.
  intros Hb. rewrite Nat.add_comm. split.
  - rewrite Nat.div_add, Nat.div_small by lia. done.
  - rewrite Nat.Div0.mod_add, Nat.mod_small by lia. done.
Qed.

(** Every grant whose signal is pending is marked, or waits in [todo] during a drain. *)
Record Pending (l : Live) (todo : list nat) : Prop := {
  pd_words : length (pending_words (lv_drops l)) = Nat.div (length (grant_records (grants (lv_state l))) + 63) 64;
  pd_todo slot : slot ∈ todo \/ marked (lv_drops l) slot = true ->
    slot_signals (lv_drops l) !! slot = Some SLOT_RELEASE_PENDING
    /\ exists r, grant_records (grants (lv_state l)) !! slot = Some (Some r) /\ charged r = true;
  pd_complete slot r : grant_records (grants (lv_state l)) !! slot = Some (Some r) -> charged r = true ->
    slot_signals (lv_drops l) !! slot = Some SLOT_RELEASE_PENDING -> slot ∈ todo \/ marked (lv_drops l) slot = true;
  pd_nodup : NoDup todo;
  pd_disjoint slot : slot ∈ todo -> marked (lv_drops l) slot = false;
}.

(** What a drain does: the grants with an active signal keep their slot and signal, and no grant
    appears. *)
Record Drained (l l' : Live) : Prop := {
  dr_topology : topology (lv_state l') = topology (lv_state l);
  dr_lifecycle : lifecycle (lv_state l') = lifecycle (lv_state l);
  dr_fence : pending_fence (lv_drops l') = pending_fence (lv_drops l);
  dr_pressure : disk_pressure (lv_state l') = disk_pressure (lv_state l);
  dr_length : length (grant_records (grants (lv_state l'))) = length (grant_records (grants (lv_state l)));
  dr_kept x r : grant_records (grants (lv_state l)) !! x = Some (Some r) -> charged r = true ->
    slot_signals (lv_drops l) !! x = Some SLOT_ACTIVE ->
    slot_signals (lv_drops l') !! x = Some SLOT_ACTIVE
    /\ exists r', grant_records (grants (lv_state l')) !! x = Some (Some r') /\ same_charge r r';
  dr_origin x r' : grant_records (grants (lv_state l')) !! x = Some (Some r') -> charged r' = true ->
    slot_signals (lv_drops l') !! x = slot_signals (lv_drops l) !! x
    /\ exists r, grant_records (grants (lv_state l)) !! x = Some (Some r) /\ same_charge r r';
}.

#[global] Instance drained_preorder : PreOrder Drained.
Proof.
  split.
  - intros l. split; try done; intros x r ? ?; [intros ?|]; (split; [done|]); by exists r.
  - intros l1 l2 l3 H1 H2. split; try (destruct H1, H2; congruence).
    + intros x r Hr Hc Hs. destruct (dr_kept _ _ H1 x r Hr Hc Hs) as (Hs2 & r2 & Hr2 & Hsc).
      assert (Hc2 : charged r2 = true) by (destruct Hsc as (_ & _ & _ & _ & <- & _); done).
      destruct (dr_kept _ _ H2 x r2 Hr2 Hc2 Hs2) as (Hs3 & r3 & Hr3 & Hsc3). split; [done|]. exists r3. split; [done|by etransitivity].
    + intros x r Hr Hc. destruct (dr_origin _ _ H2 x r Hr Hc) as (Hs2 & r2 & Hr2 & Hsc).
      assert (Hc2 : charged r2 = true) by (destruct Hsc as (_ & _ & _ & _ & -> & _); done).
      destruct (dr_origin _ _ H1 x r2 Hr2 Hc2) as (Hs3 & r3 & Hr3 & Hsc3). split; [congruence|]. exists r3. split; [done|by etransitivity].
Qed.

Lemma same_charge_charged r r' : same_charge r r' -> charged r = charged r'.
Proof. by intros (_ & _ & _ & _ & ? & _). Qed.

(** Releasing a pending slot drains it. *)
Lemma frame_drained slot l l' : Frame slot l l' -> slot_signals (lv_drops l) !! slot = Some SLOT_RELEASE_PENDING -> Drained l l'.
Proof.
  intros HF Hs. destruct HF as [Ht Hl Hrj Hp Hu Hw Hh Hf Hlen Hkept Horigin]. split; try done.
  - intros x r Hr Hc Hx. assert (Hne : x <> slot) by (intros ->; congruence). destruct (Hkept x r Hne Hr Hc) as [-> Hex]. done.
  - intros x r' Hr' Hc'. destruct (Horigin x r' Hr' Hc') as (Hne & r & Hr & Hsc). split; [|eauto].
    apply (Hkept x r); [done..|]. by rewrite (same_charge_charged _ _ Hsc).
Qed.

(** One step of the drain. *)
Lemma drain_slot_ok n l slot todo : Inv n l -> Pending l (slot :: todo) ->
  Inv n (drain_slot l slot) /\ Pending (drain_slot l slot) todo /\ Drained l (drain_slot l slot)
  /\ pending_words (lv_drops (drain_slot l slot)) = pending_words (lv_drops l).
Proof.
  intros HI HP. destruct (pd_todo _ _ HP slot) as (Hsig & r & Hr & Hc); [left; constructor|].
  unfold drain_slot. rewrite Hsig. cbn [bool_decide]. rewrite bool_decide_eq_true_2 by done. cbn [negb].
  pose proof (so_length _ _ _ (inv_slots _ _ HI)) as Hlen. apply lookup_lt_Some in Hr as Hlt.
  rewrite to_u16_small by lia. destruct (release_slot_ok n l slot r HI Hr Hc) as (l' & -> & HI' & HF). cbn [applied_status rs_applied].
  split; [done|]. split; [|split; [by eapply frame_drained|apply HF]]. destruct HP as [Hw Htodo Hcomp Hnd Hdis].
  assert (Hmark : forall x, marked (lv_drops l') x = marked (lv_drops l) x) by (intros x; unfold marked; by rewrite (fr_words _ _ _ HF)).
  apply NoDup_cons in Hnd as [Hni Hnd].
  assert (Hne : forall x, x ∈ todo \/ marked (lv_drops l) x = true -> x <> slot).
  { intros x [Hx|Hx] ->; [done|]. rewrite Hdis in Hx by constructor. done. }
  split.
  - by rewrite (fr_words _ _ _ HF), (fr_length _ _ _ HF).
  - intros x Hx. rewrite Hmark in Hx. destruct (Htodo x) as (Hs & r0 & Hr0 & Hc0); [destruct Hx; [left; by constructor|by right]|].
    destruct (fr_kept _ _ _ HF x r0 (Hne x Hx) Hr0 Hc0) as (-> & r1 & Hr1 & Hsc). split; [done|]. exists r1. split; [done|].
    by rewrite <- (same_charge_charged _ _ Hsc).
  - intros x r1 Hr1 Hc1 Hs1. destruct (fr_origin _ _ _ HF x r1 Hr1 Hc1) as (Hnx & r0 & Hr0 & Hsc).
    assert (Hc0 : charged r0 = true) by (by rewrite (same_charge_charged _ _ Hsc)).
    destruct (fr_kept _ _ _ HF x r0 Hnx Hr0 Hc0) as (Hsx & _). rewrite Hsx in Hs1. rewrite Hmark.
    destruct (Hcomp x r0 Hr0 Hc0 Hs1) as [[->|]%elem_of_cons|]; [done|auto..].
  - done.
  - intros x Hx. rewrite Hmark. apply Hdis. by constructor.
Qed.

Lemma drain_slots_ok n todo : forall l, Inv n l -> Pending l todo ->
  let l' := fold_left drain_slot todo l in Inv n l' /\ Pending l' [] /\ Drained l l' /\ pending_words (lv_drops l') = pending_words (lv_drops l).
Proof.
  induction todo as [|slot todo IH]; intros l HI HP; [done|]. cbn [fold_left].
  destruct (drain_slot_ok n l slot todo HI HP) as (HI' & HP' & HD & HW). destruct (IH _ HI' HP') as (HI2 & HP2 & HD2 & HW2).
  split; [done|]. split; [done|]. split; [by etransitivity|congruence].
Qed.

(** ** Words *)

Definition clear_word (l : Live) (idx : nat) : Live :=
  set_drops l (mkDrop (slot_signals (lv_drops l)) (<[idx := 0]> (pending_words (lv_drops l))) (has_pending_releases (lv_drops l)) (pending_fence (lv_drops l))).

Lemma marked_clear l idx w x : pending_words (lv_drops l) !! idx = Some w ->
  marked (lv_drops (clear_word l idx)) x = if decide (Nat.div x 64 = idx) then false else marked (lv_drops l) x.
Proof.
  intros Hw. unfold marked. cbn [clear_word set_drops lv_drops pending_words]. destruct (decide (Nat.div x 64 = idx)) as [->|Hne].
  - rewrite list_lookup_insert_eq by (by eapply lookup_lt_Some). apply Z.bits_0.
  - by rewrite list_lookup_insert_ne by congruence.
Qed.

(** The slots that a word marks. *)
Definition word_slots (idx : nat) (w : Z) : list nat := map (fun bit => (idx * 64 + bit)%nat) (set_bits w).

Lemma elem_word_slots l idx w x : pending_words (lv_drops l) !! idx = Some w ->
  x ∈ word_slots idx w <-> Nat.div x 64 = idx /\ marked (lv_drops l) x = true.
Proof.
  intros Hw. unfold word_slots. rewrite list_elem_of_fmap. split.
  - intros (b & -> & [Hb Ht]%elem_set_bits). destruct (split_slot idx b Hb) as [Hd Hm]. split; [done|]. unfold marked. by rewrite Hd, Hm, Hw.
  - intros [Hd Hm]. destruct (slot_split x) as [Hx Hlt]. exists (Nat.modulo x 64). rewrite Hd in Hx. split; [done|].
    apply elem_set_bits. split; [done|]. unfold marked in Hm. by rewrite Hd, Hw in Hm.
Qed.

Lemma clear_word_pending l idx w : Pending l [] -> pending_words (lv_drops l) !! idx = Some w -> Pending (clear_word l idx) (word_slots idx w).
Proof.
  intros [Hlen Htodo Hcomp _ _] Hw. pose proof (fun x => elem_word_slots l idx w x Hw) as Hel. pose proof (fun x => marked_clear l idx w x Hw) as Hmk.
  assert (Hiff : forall x, x ∈ word_slots idx w \/ marked (lv_drops (clear_word l idx)) x = true <-> marked (lv_drops l) x = true).
  { intros x. rewrite Hel, Hmk. destruct (decide (Nat.div x 64 = idx)); naive_solver. }
  split.
  - cbn. by rewrite length_insert.
  - intros x Hx%Hiff. apply (Htodo x). by right.
  - intros x r Hr Hc Hs. apply Hiff. destruct (Hcomp x r Hr Hc Hs) as [Hin|]; [by apply not_elem_of_nil in Hin|done].
  - apply NoDup_fmap; [intros ? ?; lia|apply nodup_set_bits].
  - intros x [Hx _]%Hel. by rewrite Hmk, decide_True.
Qed.

Lemma drain_word_ok n l idx : Inv n l -> Pending l [] -> (idx < length (pending_words (lv_drops l)))%nat ->
  Inv n (drain_word l idx) /\ Pending (drain_word l idx) [] /\ Drained l (drain_word l idx)
  /\ length (pending_words (lv_drops (drain_word l idx))) = length (pending_words (lv_drops l))
  /\ forall x, marked (lv_drops (drain_word l idx)) x = if decide (Nat.div x 64 = idx) then false else marked (lv_drops l) x.
Proof.
  intros HI HP Hlt. destruct (lookup_lt_is_Some_2 _ _ Hlt) as [w Hw]. unfold drain_word. rewrite Hw.
  assert (Hfold : forall todo l0, fold_left (fun l bit => drain_slot l (idx * 64 + bit)%nat) todo l0
    = fold_left drain_slot (map (fun bit => (idx * 64 + bit)%nat) todo) l0) by (induction todo; intros; cbn; auto).
  rewrite Hfold. fold (word_slots idx w). fold (clear_word l idx).
  assert (HI' : Inv n (clear_word l idx)) by (destruct HI; by split).
  assert (HD : Drained l (clear_word l idx)) by (split; try done; intros x r ? ?; [intros ?|]; (split; [done|]); by exists r).
  destruct (drain_slots_ok n _ _ HI' (clear_word_pending l idx w HP Hw)) as (HI2 & HP2 & HD2 & HW2).
  split; [done|]. split; [done|]. split; [by etransitivity|]. split; [rewrite HW2; cbn; by rewrite length_insert|].
  intros x. rewrite <- (marked_clear l idx w x Hw). unfold marked. by rewrite HW2.
Qed.

Lemma drain_words_ok n k : forall i l, Inv n l -> Pending l [] -> (i + k = length (pending_words (lv_drops l)))%nat ->
  let l' := fold_left drain_word (seq i k) l in Inv n l' /\ Pending l' [] /\ Drained l l'
  /\ forall x, marked (lv_drops l') x = true -> marked (lv_drops l) x = true /\ (Nat.div x 64 < i)%nat.
Proof.
  induction k as [|k IH]; intros i l HI HP Hlen; cbn [seq fold_left].
  - do 2 (split; [done|]). split; [done|]. intros x Hx. split; [done|]. unfold marked in Hx. destruct (_ !! _) eqn:Hl in Hx; [|done].
    apply lookup_lt_Some in Hl. lia.
  - destruct (drain_word_ok n l i HI HP ltac:(lia)) as (HI' & HP' & HD & Hlen' & Hmk).
    destruct (IH (S i) (drain_word l i) HI' HP' ltac:(lia)) as (HI2 & HP2 & HD2 & Hm2).
    do 2 (split; [done|]). split; [by etransitivity|]. intros x Hx. destruct (Hm2 x Hx) as [Hx' Hlt]. rewrite Hmk in Hx'.
    destruct (decide (Nat.div x 64 = i)); [done|]. split; [done|lia].
Qed.

(** The mark hint covers every mark. *)
Definition hinted (d : DropLedger) : Prop := forall slot, marked d slot = true -> has_pending_releases d = true.

(** Draining releases every pending grant, and nothing else. *)
Lemma drain_pending_ok n l : Inv n l -> Pending l [] -> hinted (lv_drops l) ->
  let l' := drain_pending l in Inv n l' /\ Pending l' [] /\ Drained l l' /\ forall x, marked (lv_drops l') x = false.
Proof.
  intros HI HP Hh. unfold drain_pending. cbv zeta.
  set (l1 := set_drops l (mkDrop (slot_signals (lv_drops l)) (pending_words (lv_drops l)) false (pending_fence (lv_drops l)))).
  assert (HI1 : Inv n l1) by (destruct HI; by split). assert (HP1 : Pending l1 []) by (destruct HP; by split).
  assert (HD1 : Drained l l1) by (split; try done; intros x r ? ?; [intros ?|]; (split; [done|]); by exists r).
  destruct (has_pending_releases (lv_drops l) || pending_fence (lv_drops l)) eqn:Hs; cbn [negb].
  - destruct (drain_words_ok n (length (pending_words (lv_drops l))) 0 l1 HI1 HP1 eq_refl) as (HI2 & HP2 & HD2 & Hm).
    do 2 (split; [done|]). split; [by etransitivity|]. intros x. apply not_true_is_false. intros Hx. destruct (Hm x Hx). lia.
  - apply orb_false_iff in Hs as [Hs _]. do 3 (split; [done|]). intros x. apply not_true_is_false. intros Hx. rewrite (Hh x Hx) in Hs. done.
Qed.

(** The grants of a state: the active ones are kept, and none appears. *)
Record Kept (l l' : Live) : Prop := {
  kp_length : length (grant_records (grants (lv_state l'))) = length (grant_records (grants (lv_state l)));
  kp_kept x r : grant_records (grants (lv_state l)) !! x = Some (Some r) -> charged r = true ->
    slot_signals (lv_drops l) !! x = Some SLOT_ACTIVE ->
    slot_signals (lv_drops l') !! x = Some SLOT_ACTIVE
    /\ exists r', grant_records (grants (lv_state l')) !! x = Some (Some r') /\ same_charge r r';
  kp_origin x r' : grant_records (grants (lv_state l')) !! x = Some (Some r') -> charged r' = true ->
    slot_signals (lv_drops l') !! x = slot_signals (lv_drops l) !! x
    /\ exists r, grant_records (grants (lv_state l)) !! x = Some (Some r) /\ same_charge r r';
}.

(** Taking the lock drains, and turns a fence request into a fenced lifecycle. *)
Lemma enter_ok n l : Inv n l -> Pending l [] -> hinted (lv_drops l) ->
  let l' := enter l in Inv n l' /\ Pending l' [] /\ (forall x, marked (lv_drops l') x = false) /\ Kept l l'
  /\ pending_fence (lv_drops l') = false
  /\ lifecycle (lv_state l') = if pending_fence (lv_drops l) then Fenced else lifecycle (lv_state l).
Proof.
  intros HI HP Hh. destruct (drain_pending_ok n l HI HP Hh) as (HI' & HP' & HD & Hm). cbv zeta in *. unfold enter, absorb_fence.
  rewrite (dr_fence _ _ HD). destruct (pending_fence (lv_drops l)); (split; [by destruct HI'; split|]); (split; [by destruct HP'; split|]);
    (split; [done|]); (split; [by destruct HD; split|]); (split; [done|]); [done|apply HD].
Qed.

(** ** Handles and records *)

(** Every active grant is held by exactly one handle; a dropped one is marked for the drain. *)
Record System (n : nat) (l : Live) (hs : list ResourceReservation) : Prop := {
  sy_inv : Inv n l;
  sy_pending : Pending l [];
  sy_hinted : hinted (lv_drops l);
  sy_nodup : NoDup (map res_slot hs);
  sy_held h : h ∈ hs -> slot_signals (lv_drops l) !! res_slot h = Some SLOT_ACTIVE
    /\ exists r, grant_records (grants (lv_state l)) !! res_slot h = Some (Some r) /\ charged r = true /\ holds h r;
  sy_owned slot r : grant_records (grants (lv_state l)) !! slot = Some (Some r) -> charged r = true ->
    slot_signals (lv_drops l) !! slot = Some SLOT_ACTIVE -> slot ∈ map res_slot hs;
}.

#[global] Instance system_proper n l : Proper (Permutation ==> iff) (System n l).
Proof.
  assert (H : forall hs hs', hs ≡ₚ hs' -> System n l hs -> System n l hs').
  { intros hs hs' Hp [? ? ? Hnd Hheld Hown]. split; try done.
    - by rewrite <- Hp.
    - intros h Hh. apply Hheld. by rewrite Hp.
    - intros slot r Hr Hc Hs. rewrite <- Hp. eauto. }
  intros hs hs' Hp. split; by apply H.
Qed.

Lemma holds_same_charge h r r' : same_charge r r' -> holds h r -> holds h r'.
Proof.
  intros (Ha & Hs & Ht & Hk & _ & Htn & Hpr) (H1 & H2 & H3 & H4 & H5). split; [congruence|]. split; [done|].
  unfold grant_owner, grant_tenant_index, grant_class in *. rewrite <- Ha, <- Hs, <- Hk, <- Ht, <- Htn, <- Hpr. done.
Qed.

(** A state in which the same grants are active has the same handles. *)
Lemma system_kept n l l' hs : System n l hs -> Inv n l' -> Pending l' [] -> hinted (lv_drops l') -> Kept l l' -> System n l' hs.
Proof.
  intros [_ _ _ Hnd Hheld Hown] HI HP Hh HK. split; try done.
  - intros h Hin. destruct (Hheld h Hin) as (Hs & r & Hr & Hc & Hhold). destruct (kp_kept _ _ HK _ r Hr Hc Hs) as (Hs' & r' & Hr' & Hsc).
    split; [done|]. exists r'. split; [done|]. rewrite <- (same_charge_charged _ _ Hsc). split; [done|]. by eapply holds_same_charge.
  - intros slot r' Hr' Hc' Hs'. destruct (kp_origin _ _ HK slot r' Hr' Hc') as (Hs & r & Hr & Hsc).
    apply (Hown slot r); [done| |congruence]. by rewrite (same_charge_charged _ _ Hsc).
Qed.

Lemma system_enter n l hs : System n l hs -> System n (enter l) hs /\ forall x, marked (lv_drops (enter l)) x = false.
Proof.
  intros HS. destruct (enter_ok n l (sy_inv _ _ _ HS) (sy_pending _ _ _ HS) (sy_hinted _ _ _ HS)) as (HI & HP & Hm & HK & _).
  split; [|done]. apply (system_kept n l); try done. intros x Hx. by rewrite Hm in Hx.
Qed.

(** The handles depend on the books and the drop marks only. *)
Lemma system_ext n l l' hs : System n l hs ->
  usage (lv_state l') = usage (lv_state l) -> counts (lv_state l') = counts (lv_state l) ->
  grant_records (grants (lv_state l')) = grant_records (grants (lv_state l)) ->
  free_slots (grants (lv_state l')) = free_slots (grants (lv_state l)) -> slot_signals (lv_drops l') = slot_signals (lv_drops l) ->
  pending_words (lv_drops l') = pending_words (lv_drops l) -> has_pending_releases (lv_drops l') = has_pending_releases (lv_drops l) ->
  System n l' hs.
Proof.
  intros [HI HP Hh Hnd Hheld Hown] Hu Hc Hr Hf Hs Hw Hhint.
  assert (Hmk : forall x, marked (lv_drops l') x = marked (lv_drops l) x) by (intros x; unfold marked; by rewrite Hw).
  split; rewrite ?Hs, ?Hr; try done.
  - destruct HI. split; rewrite ?Hu, ?Hc, ?Hr, ?Hf, ?Hs; done.
  - destruct HP as [? Htodo Hcomp ? Hdis]. split; intros *; rewrite ?Hs, ?Hr, ?Hw, ?Hmk; eauto.
  - intros x. rewrite Hmk, Hhint. apply Hh.
Qed.

Lemma system_same_books n l l' hs : System n l hs -> SameBooks l l' -> System n l' hs.
Proof. intros HS [_ _ Hu Hc Hr Hf Hd Hl]. apply (system_ext n l); try done; by rewrite Hd. Qed.

(** A grant adds the handle it returns. *)
Lemma system_granted n l l' hs h r : System n l hs -> Granted (res_slot h) r l l' -> holds h r -> Inv n l' -> System n l' (h :: hs).
Proof.
  intros [HI HP Hh Hnd Hheld Hown] HG Hhold HI'. pose proof (gd_drops _ _ _ _ HG) as Hd.
  assert (Hsig : forall x, x <> res_slot h -> slot_signals (lv_drops l') !! x = slot_signals (lv_drops l) !! x).
  { intros x Hx. rewrite Hd. cbn. by rewrite list_lookup_insert_ne by congruence. }
  assert (Hlt : (res_slot h < length (slot_signals (lv_drops l)))%nat).
  { rewrite (so_signals _ _ _ (inv_slots _ _ HI)). eapply lookup_lt_Some, HG. }
  assert (Hnew : slot_signals (lv_drops l') !! res_slot h = Some SLOT_ACTIVE) by (rewrite Hd; cbn; by rewrite list_lookup_insert_eq).
  assert (Hmk : forall x, marked (lv_drops l') x = marked (lv_drops l) x) by (intros x; unfold marked; by rewrite Hd).
  assert (Hfresh : forall x r0, grant_records (grants (lv_state l)) !! x = Some (Some r0) -> x <> res_slot h).
  { intros x r0 Hx ->. rewrite (gd_free _ _ _ _ HG) in Hx. done. }
  split; try done.
  - destruct HP as [Hw Htodo Hcomp _ _]. split; [|..|constructor|by intros x Hx%not_elem_of_nil].
    + rewrite (gd_length _ _ _ _ HG), Hd. done.
    + intros x [Hx%not_elem_of_nil|Hx]; [done|]. rewrite Hmk in Hx. destruct (Htodo x (or_intror Hx)) as (Hs & r0 & Hr0 & Hc0).
      rewrite (Hsig x (Hfresh x r0 Hr0)). split; [done|]. destruct (gd_kept _ _ _ _ HG x r0 Hr0) as (r1 & Hr1 & Hsc). exists r1. split; [done|].
      by rewrite <- (same_charge_charged _ _ Hsc).
    + intros x r1 Hr1 Hc1 Hs1. rewrite Hmk. destruct (decide (x = res_slot h)) as [->|Hne]; [congruence|].
      destruct (gd_origin _ _ _ _ HG x r1 Hne Hr1) as (r0 & Hr0 & Hsc). apply (Hcomp x r0); [done|by rewrite (same_charge_charged _ _ Hsc)|].
      by rewrite <- (Hsig x Hne).
  - intros x. rewrite Hmk, Hd. apply Hh.
  - cbn. constructor; [|done]. intros (h' & Heq & Hin)%list_elem_of_fmap. destruct (Hheld h' Hin) as (_ & r0 & Hr0 & _).
    by apply (Hfresh _ r0 Hr0).
  - intros h' [->|Hin]%elem_of_cons.
    + split; [done|]. exists r. split; [apply HG|]. split; [apply HG|done].
    + destruct (Hheld h' Hin) as (Hs & r0 & Hr0 & Hc0 & Hh0). rewrite (Hsig _ (Hfresh _ r0 Hr0)). split; [done|].
      destruct (gd_kept _ _ _ _ HG _ r0 Hr0) as (r1 & Hr1 & Hsc). exists r1. split; [done|]. rewrite <- (same_charge_charged _ _ Hsc).
      split; [done|]. by eapply holds_same_charge.
  - intros x r1 Hr1 Hc1 Hs1. cbn. destruct (decide (x = res_slot h)) as [->|Hne]; [constructor|]. constructor.
    destruct (gd_origin _ _ _ _ HG x r1 Hne Hr1) as (r0 & Hr0 & Hsc). apply (Hown x r0); [done|by rewrite (same_charge_charged _ _ Hsc)|].
    by rewrite <- (Hsig x Hne).
Qed.

(** Releasing a held grant removes its handle. *)
Lemma system_released n l l' hs h : System n l (h :: hs) -> Frame (res_slot h) l l' -> Inv n l' -> System n l' hs.
Proof.
  intros [HI HP Hh Hnd Hheld Hown] HF HI'. destruct (Hheld h ltac:(constructor)) as (Hact & _).
  cbn in Hnd. apply NoDup_cons in Hnd as [Hni Hnd].
  assert (Hmk : forall x, marked (lv_drops l') x = marked (lv_drops l) x) by (intros x; unfold marked; by rewrite (fr_words _ _ _ HF)).
  split; try done.
  - destruct HP as [Hw Htodo Hcomp _ _]. split; [|..|constructor|by intros x Hx%not_elem_of_nil].
    + by rewrite (fr_words _ _ _ HF), (fr_length _ _ _ HF).
    + intros x [Hx%not_elem_of_nil|Hx]; [done|]. rewrite Hmk in Hx. destruct (Htodo x (or_intror Hx)) as (Hs & r0 & Hr0 & Hc0).
      assert (Hne : x <> res_slot h) by (intros ->; congruence). destruct (fr_kept _ _ _ HF x r0 Hne Hr0 Hc0) as (-> & r1 & Hr1 & Hsc).
      split; [done|]. exists r1. split; [done|]. by rewrite <- (same_charge_charged _ _ Hsc).
    + intros x r1 Hr1 Hc1 Hs1. rewrite Hmk. destruct (fr_origin _ _ _ HF x r1 Hr1 Hc1) as (Hne & r0 & Hr0 & Hsc).
      rewrite <- (same_charge_charged _ _ Hsc) in Hc1. apply (Hcomp x r0); [done..|].
      by destruct (fr_kept _ _ _ HF x r0 Hne Hr0 Hc1) as (<- & _).
  - intros x. rewrite Hmk, (fr_hint _ _ _ HF). apply Hh.
  - intros h' Hin. assert (Hne : res_slot h' <> res_slot h) by (intros Heq; apply Hni; rewrite <- Heq; by apply list_elem_of_fmap_2).
    destruct (Hheld h' ltac:(by constructor)) as (Hs & r0 & Hr0 & Hc0 & Hh0). destruct (fr_kept _ _ _ HF _ r0 Hne Hr0 Hc0) as (-> & r1 & Hr1 & Hsc).
    split; [done|]. exists r1. split; [done|]. rewrite <- (same_charge_charged _ _ Hsc). split; [done|]. by eapply holds_same_charge.
  - intros x r1 Hr1 Hc1 Hs1. destruct (fr_origin _ _ _ HF x r1 Hr1 Hc1) as (Hne & r0 & Hr0 & Hsc).
    rewrite <- (same_charge_charged _ _ Hsc) in Hc1. destruct (fr_kept _ _ _ HF x r0 Hne Hr0 Hc1) as (Hsx & _). rewrite Hsx in Hs1.
    apply (Hown x r0 Hr0 Hc1), elem_of_cons in Hs1 as [->|]; done.
Qed.

Lemma word_exists s k (words : list Z) : (s < k)%nat -> length words = Nat.div (k + 63) 64 -> exists w, words !! Nat.div s 64 = Some w.
Proof.
  intros Hlt Hw. apply lookup_lt_is_Some_2. rewrite Hw. pose proof (Nat.div_mod_eq s 64). pose proof (Nat.mod_upper_bound s 64).
  pose proof (Nat.div_mod_eq (k + 63) 64). pose proof (Nat.mod_upper_bound (k + 63) 64). lia.
Qed.

Lemma marked_or d signals hint fence s w x : pending_words d !! Nat.div s 64 = Some w ->
  marked (mkDrop signals (<[Nat.div s 64 := Z.lor w (Z.shiftl 1 (Z.of_nat (Nat.modulo s 64)))]> (pending_words d)) hint fence) x
  = marked d x || bool_decide (x = s).
Proof.
  intros Hword. unfold marked. cbn [pending_words]. destruct (decide (Nat.div x 64 = Nat.div s 64)) as [Heq|Hne].
  - rewrite Heq, list_lookup_insert_eq, Hword by (by eapply lookup_lt_Some). rewrite Z.lor_spec. f_equal.
    rewrite Z.shiftl_spec by lia. pose proof (slot_split x). pose proof (slot_split s). case_bool_decide as Hx; [subst x; by rewrite Z.sub_diag|].
    destruct (Z.ltb_spec (Z.of_nat (Nat.modulo x 64)) (Z.of_nat (Nat.modulo s 64))); [by apply Z.testbit_neg_r; lia|].
    assert (Nat.modulo x 64 <> Nat.modulo s 64) by (intros Hm; apply Hx; lia).
    change 1 with (2 ^ 0). rewrite Z.pow2_bits_eqb by lia. apply Z.eqb_neq. lia.
  - rewrite list_lookup_insert_ne by congruence. rewrite bool_decide_eq_false_2 by (intros ->; done). by rewrite orb_false_r.
Qed.

(** Dropping a handle marks its slot. *)
Lemma system_dropped n l hs h : System n l (h :: hs) -> System n (set_drops l (mark_drop_pending (lv_drops l) (res_slot h))) hs.
Proof.
  intros [HI HP Hh Hnd Hheld Hown]. destruct (Hheld h ltac:(constructor)) as (Hact & r & Hr & Hc & _).
  cbn in Hnd. apply NoDup_cons in Hnd as [Hni Hnd]. apply lookup_lt_Some in Hr as Hlt. apply lookup_lt_Some in Hact as Hslt.
  destruct HP as [Hw Htodo Hcomp _ _]. set (s := res_slot h) in *.
  destruct (word_exists s _ _ Hlt Hw) as [w Hword]. unfold mark_drop_pending. rewrite Hact, Hword. cbn [bool_decide]. rewrite bool_decide_eq_true_2 by done. cbn [negb].
  set (d' := mkDrop _ _ true _).
  assert (Hsig : forall x, slot_signals d' !! x = if decide (x = s) then Some SLOT_RELEASE_PENDING else slot_signals (lv_drops l) !! x).
  { intros x. cbn. destruct (decide (x = s)) as [->|]; [by rewrite list_lookup_insert_eq|by rewrite list_lookup_insert_ne by congruence]. }
  assert (Hmk : forall x, marked d' x = marked (lv_drops l) x || bool_decide (x = s)).
  { intros x. by apply (marked_or (lv_drops l)). }
  split; cbn [set_drops lv_state lv_drops]; try done.
  - destruct HI as [? ? Hsl ?]. split; try done. cbn [set_drops lv_state lv_drops]. destruct Hsl as [? ? Hl Hs ?]. split; try done.
    + cbn. by rewrite length_insert.
    + intros x o Hx. rewrite Hsig. destruct (decide (x = s)) as [->|]; [|by apply Hs]. assert (o = Some r) as -> by congruence. done.
  - split; cbn [set_drops lv_state lv_drops]; [|..|constructor|by intros x Hx%not_elem_of_nil].
    + cbn. by rewrite length_insert.
    + intros x [Hx%not_elem_of_nil|Hx]; [done|]. rewrite Hmk in Hx. rewrite Hsig. destruct (decide (x = s)) as [->|Hne]; [eauto|].
      rewrite bool_decide_eq_false_2, orb_false_r in Hx by done. apply Htodo. by right.
    + intros x r1 Hr1 Hc1. rewrite Hsig, Hmk. destruct (decide (x = s)) as [->|Hne].
      * intros _. right. by rewrite bool_decide_eq_true_2, orb_true_r.
      * intros Hs1. destruct (Hcomp x r1 Hr1 Hc1 Hs1) as [Hx|Hx]; [by apply not_elem_of_nil in Hx|]. right. by rewrite Hx.
  - intros h' Hin. assert (Hne : res_slot h' <> s) by (intros Heq; apply Hni; rewrite <- Heq; by apply list_elem_of_fmap_2).
    rewrite Hsig, decide_False by done. apply Hheld. by constructor.
  - intros x r1 Hr1 Hc1. rewrite Hsig. destruct (decide (x = s)) as [->|Hne]; [done|]. intros Hs1.
    apply (Hown x r1 Hr1 Hc1), elem_of_cons in Hs1 as [->|]; done.
Qed.

(** ** Capacities *)

(** The sum of the recovery pools. *)
Definition kinds_sum (c : RecoveryPoolCapacities) (d : ResourceDimension) : Z := zsum (fun k => get (recovery_get c k) d) ALL_RECOVERY_KINDS.

(** The capacities of an established governor. *)
Record Capacities (g : GovernorInner) : Prop := {
  ca_shared d : get (recovery_shared_capacity g) d = get (total_ceiling g) d - kinds_sum (recovery_pool_capacities g) d;
  ca_ordinary d : 0 < get (ordinary_ceiling g) d <= get (recovery_shared_capacity g) d;
  ca_pools p d : 0 <= get (pool_get (pool_capacities g) p) d;
  ca_kinds k d : 0 <= get (recovery_get (recovery_pool_capacities g) k) d;
}.

(** No use exceeds the capacity it is held to. *)
Record Within (g : GovernorInner) (u : UsageTotals) : Prop := {
  wi_ordinary d : get (total_usage u) d - get (recovery_usage u) d <= get (ordinary_ceiling g) d;
  wi_shared d : get (total_usage u) d - get (recovery_usage u) d + get (ru_shared (recovery_pool_usage u)) d <= get (recovery_shared_capacity g) d;
  wi_kind k d : get (usage_protected (recovery_pool_usage u) k) d <= get (recovery_get (recovery_pool_capacities g) k) d;
  wi_pool p d : get (pool_get (pool_usage u) p) d <= get (pool_get (pool_capacities g) p) d;
}.

Lemma rsum_zero f rs : (forall slot r, rs !! slot = Some (Some r) -> f r = 0) -> rsum f rs = 0.
Proof.
  intros H. unfold rsum. rewrite (zsum_ext _ (fun _ => 0)).
  - clear. induction rs as [|o rs IH]; [done|]. by rewrite zsum_cons, IH.
  - intros [r|] Hr; [|done]. apply list_elem_of_lookup in Hr as [x Hx]. by apply (H x).
Qed.

Lemma rsum_add f g h rs : (forall r, h r = f r + g r) -> rsum h rs = rsum f rs + rsum g rs.
Proof.
  intros H. unfold rsum. induction rs as [|[r|] rs IH]; [done|..]; rewrite !zsum_cons, IH; cbn [opt_measure]; [rewrite H|]; lia.
Qed.

(** The ordinary work of a grant, and what it takes of the capacity shared with recovery. *)
Definition m_ordinary (d : ResourceDimension) (r : GrantRecord) : Z := when (grant_is_ordinary r) (m_total d r).
Definition m_occupied (d : ResourceDimension) (r : GrantRecord) : Z := m_ordinary d r + m_rshared d r.

#[global] Instance charge_ordinary d : Charge (m_ordinary d). Proof. unfold m_ordinary. solve_charge. Qed.
#[global] Instance nonneg_ordinary d : NonNegative (m_ordinary d). Proof. unfold m_ordinary. solve_nonneg. Qed.
#[global] Instance charge_occupied d : Charge (m_occupied d).
Proof.
  split; intros; unfold m_occupied.
  - by rewrite (charge_proper (f := m_ordinary d) r r'), (charge_proper (f := m_rshared d) r r').
  - by rewrite (charge_released (f := m_ordinary d) r), (charge_released (f := m_rshared d) r).
Qed.
#[global] Instance nonneg_occupied d : NonNegative (m_occupied d).
Proof. intros n r Hw. unfold m_occupied. pose proof (nonneg_ordinary d n r Hw). pose proof (nonneg_rshared d n r Hw). lia. Qed.

Lemma conserved_ordinary u c rs d : Conserved u c rs -> get (total_usage u) d - get (recovery_usage u) d = rsum (m_ordinary d) rs.
Proof.
  intros HC. rewrite (cs_total _ _ _ HC), (cs_recovery _ _ _ HC), (rsum_add (m_ordinary d) (m_recovery d) (m_total d) rs); [lia|].
  intros r. unfold m_ordinary, m_recovery, when. destruct (grant_is_ordinary r); cbn; lia.
Qed.

Lemma conserved_occupied u c rs d : Conserved u c rs ->
  get (total_usage u) d - get (recovery_usage u) d + get (ru_shared (recovery_pool_usage u)) d = rsum (m_occupied d) rs.
Proof. intros HC. by rewrite (conserved_ordinary _ _ _ _ HC), (cs_rshared _ _ _ HC), (rsum_add (m_ordinary d) (m_rshared d) (m_occupied d) rs). Qed.

(** Recovery use is what it takes of the shared capacity and of the pools of the kinds. *)
Lemma conserved_recovery u c rs d : Conserved u c rs ->
  get (recovery_usage u) d = get (ru_shared (recovery_pool_usage u)) d + zsum (fun k => get (usage_protected (recovery_pool_usage u) k) d) ALL_RECOVERY_KINDS.
Proof.
  intros HC. rewrite (cs_recovery _ _ _ HC), (cs_rshared _ _ _ HC).
  rewrite (zsum_ext _ (fun k => rsum (m_rprotected k d) rs)) by (intros k _; apply HC).
  assert (Hk : forall ks, zsum (fun k => rsum (m_rprotected k d) rs) ks = rsum (fun r => zsum (fun k => m_rprotected k d r) ks) rs).
  { induction ks as [|k ks IH]; [by rewrite (rsum_zero (fun _ => 0))|]. rewrite zsum_cons, IH. symmetry. by apply rsum_add. }
  rewrite Hk. apply rsum_add. intros r. unfold m_recovery, m_rshared, m_rprotected, m_shared, m_protected, m_total, when, grant_is_ordinary, grant_recovery_kind.
  destruct (gr_kind r); cbn; repeat case_bool_decide; try done; lia.
Qed.

(** Grants of [rs'] come from [rs] with the same charge. *)
Definition shrinks (rs rs' : list (option GrantRecord)) : Prop := length rs' = length rs /\
  forall x r', rs' !! x = Some (Some r') -> charged r' = true -> exists r, rs !! x = Some (Some r) /\ same_charge r r'.

Lemma rsum_shrinks f n rs rs' : Charge f -> NonNegative f -> OpsOk n rs -> OpsOk n rs' -> shrinks rs rs' -> rsum f rs' <= rsum f rs.
Proof.
  intros Hf Hnn Hops Hops' [Hlen Hsh].
  assert (Hpt : forall x o o', rs !! x = Some o -> rs' !! x = Some o' -> opt_measure f o' <= opt_measure f o).
  { intros x o o' Ho Ho'. assert (Hnno : 0 <= opt_measure f o).
    { destruct o as [r|]; cbn; [|lia]. apply (Hnn n). by apply (oo_wf _ _ Hops x). }
    destruct o' as [r'|]; cbn; [|done]. destruct (charged r') eqn:Hc.
    - destruct (Hsh x r' Ho' Hc) as (r & Hr & Hsc). rewrite Hr in Ho. injection Ho as <-. cbn. by rewrite (charge_proper (f := f) r r' Hsc).
    - destruct (wf_uncharged _ _ (oo_wf _ _ Hops' x r' Ho') Hc) as [Ha Hs]. by rewrite (charge_released (f := f) r' Hc Ha Hs). }
  clear Hops Hops' Hsh. unfold rsum. revert rs' Hlen Hpt. induction rs as [|o rs IH]; intros [|o' rs'] Hlen Hpt; try done. rewrite !zsum_cons.
  pose proof (Hpt 0%nat o o' eq_refl eq_refl). assert (zsum (opt_measure f) rs' <= zsum (opt_measure f) rs); [|lia].
  apply IH; [by injection Hlen|]. intros x. apply (Hpt (S x)).
Qed.

(** Releasing grants never exceeds a capacity. *)
Lemma within_shrinks n g l l' : Inv n l -> Inv n l' -> shrinks (grant_records (grants (lv_state l))) (grant_records (grants (lv_state l'))) ->
  Within g (usage (lv_state l)) -> Within g (usage (lv_state l')).
Proof.
  intros HI HI' Hs HW. pose proof (inv_conserved _ _ HI) as HC. pose proof (inv_conserved _ _ HI') as HC'.
  assert (Hle : forall f, Charge f -> NonNegative f -> rsum f (grant_records (grants (lv_state l'))) <= rsum f (grant_records (grants (lv_state l)))).
  { intros f Hf Hnn. by apply (rsum_shrinks f n); [..|apply HI|apply HI'|]. }
  split.
  - intros d. rewrite (conserved_ordinary _ _ _ _ HC'), (Hle (m_ordinary d)), <- (conserved_ordinary _ _ _ _ HC) by apply _. apply HW.
  - intros d. rewrite (conserved_occupied _ _ _ _ HC'), (Hle (m_occupied d)), <- (conserved_occupied _ _ _ _ HC) by apply _. apply HW.
  - intros k d. rewrite (cs_rprotected _ _ _ HC'), (Hle (m_rprotected k d)), <- (cs_rprotected _ _ _ HC) by apply _. apply HW.
  - intros p d. rewrite (cs_pool _ _ _ HC'), (Hle (m_pool p d)), <- (cs_pool _ _ _ HC) by apply _. apply HW.
Qed.

Lemma rshared_nonneg n l d : Inv n l -> 0 <= get (ru_shared (recovery_pool_usage (usage (lv_state l)))) d.
Proof.
  intros HI. rewrite (cs_rshared _ _ _ (inv_conserved _ _ HI)). unfold rsum. apply zsum_nonneg. intros [r|] Hr; cbn; [|lia].
  apply list_elem_of_lookup in Hr as [x Hx]. apply (nonneg_rshared d n). by apply (oo_wf _ _ (inv_ops _ _ HI) x).
Qed.

(** An ordinary admission stays within the ceiling of ordinary work and the pool capacities. *)
Lemma within_ordinary n g claim plan l : Capacities g -> Inv n l -> ordinary_plan_ok g claim (lv_state l) plan ->
  Within g (usage (lv_state l)) -> Within g (ordinary_usage_after plan (usage (lv_state l))).
Proof.
  intros Hca HI Hp HW. destruct (po_ordinary _ _ _ _ Hp) as (ord & Hord & Hceil). rewrite amounts_sub_Some in Hord.
  pose proof (po_total _ _ _ _ Hp) as Ht. rewrite amounts_add_Some in Ht. destruct (po_pools _ _ _ _ Hp) as (tp & fair & _ & _ & Hpp & _).
  pose proof (po_pool _ _ _ _ Hp) as Hpool. rewrite pools_add_Some in Hpool.
  split; cbn [ordinary_usage_after total_usage recovery_usage recovery_pool_usage pool_usage].
  - intros d. specialize (Ht d). specialize (Hord d). specialize (Hceil d). pose proof (rshared_nonneg n l d HI). lia.
  - intros d. specialize (Ht d). specialize (Hord d). specialize (Hceil d). pose proof (ca_ordinary _ Hca d). lia.
  - apply HW.
  - intros p d. destruct (Hpool p d) as [-> _]. pose proof (pp_global _ _ _ _ Hpp p d) as Hg. cbn [pa_global_capacity pa_global_usage] in Hg.
    pose proof (wi_pool _ _ HW p d). lia.
Qed.

(** A recovery admission stays within the shared capacity and the pool of its kind. *)
Lemma within_recovery g claim plan st : recovery_plan_ok g claim st plan -> Within g (usage st) -> Within g (recovery_usage_after plan (usage st)).
Proof.
  intros Hp HW. pose proof (pr_total _ _ _ _ Hp) as Ht. pose proof (pr_recovery _ _ _ _ Hp) as Hr. rewrite amounts_add_Some in Ht, Hr.
  destruct (pr_pools _ _ _ _ Hp) as (ord & Hord & Hpp). rewrite amounts_sub_Some in Hord.
  pose proof (pr_pool _ _ _ _ Hp) as Hpool. apply recovery_usage_add_spec in Hpool as [Hs Hk].
  split; cbn [recovery_usage_after total_usage recovery_usage recovery_pool_usage pool_usage].
  - intros d. specialize (Ht d). specialize (Hr d). pose proof (wi_ordinary _ _ HW d). lia.
  - intros d. specialize (Ht d). specialize (Hr d). specialize (Hord d). rewrite Hs. pose proof (rc_shared _ _ _ _ Hpp d) as Hroom.
    unfold shared_room in Hroom. cbn in Hroom. lia.
  - intros k d. rewrite Hk, (rc_kind _ _ _ _ Hpp). destruct (decide (rclaim_kind claim = k)) as [<-|Hne].
    + rewrite when_true by (by apply bool_decide_eq_true). pose proof (rc_protected _ _ _ _ Hpp d) as Hroom. unfold protected_room in Hroom. cbn in Hroom. lia.
    + rewrite when_false by (by apply bool_decide_eq_false). pose proof (wi_kind _ _ HW k d). lia.
  - apply HW.
Qed.

(** A state of a run: the handles own the grants, and no capacity is exceeded. *)
Definition Safe (n : nat) (g : GovernorInner) (l : Live) (hs : list ResourceReservation) : Prop :=
  System n l hs /\ Within g (usage (lv_state l)).

Lemma safe_ext n g l l' hs : Safe n g l hs ->
  usage (lv_state l') = usage (lv_state l) -> counts (lv_state l') = counts (lv_state l) ->
  grant_records (grants (lv_state l')) = grant_records (grants (lv_state l)) ->
  free_slots (grants (lv_state l')) = free_slots (grants (lv_state l)) -> slot_signals (lv_drops l') = slot_signals (lv_drops l) ->
  pending_words (lv_drops l') = pending_words (lv_drops l) -> has_pending_releases (lv_drops l') = has_pending_releases (lv_drops l) ->
  Safe n g l' hs.
Proof. intros [HS HW] Hu; intros. split; [by apply (system_ext n l)|by rewrite Hu]. Qed.

Lemma safe_same_books n g l l' hs : Safe n g l hs -> SameBooks l l' -> Safe n g l' hs.
Proof. intros HS [_ _ Hu Hc Hr Hf Hd Hl]. apply (safe_ext n g l); try done; by rewrite Hd. Qed.

Lemma safe_enter n g l hs : Safe n g l hs -> Safe n g (enter l) hs.
Proof.
  intros [HS HW]. destruct (system_enter n l hs HS) as [HS' _]. split; [done|].
  destruct (enter_ok n l (sy_inv _ _ _ HS) (sy_pending _ _ _ HS) (sy_hinted _ _ _ HS)) as (HI & _ & _ & HK & _).
  eapply (within_shrinks n g l); [apply HS|done| |done]. split; [apply HK|]. intros x r' Hr' Hc'. by destruct (kp_origin _ _ HK x r' Hr' Hc') as (_ & ?).
Qed.

Lemma safe_released n g l l' hs h : Safe n g l (h :: hs) -> Frame (res_slot h) l l' -> Inv n l' -> Safe n g l' hs.
Proof.
  intros [HS HW] HF HI'. split; [by eapply system_released|]. eapply (within_shrinks n g l); [apply HS|done| |done].
  split; [apply HF|]. intros x r' Hr' Hc'. by destruct (fr_origin _ _ _ HF x r' Hr' Hc') as (_ & ?).
Qed.
