(* ===== verification/GovernorResize.v ===== *)
(** Resource governor: atomic replacement of a reservation, and its transfer between owners.

    Models [resize.rs], [resize_recovery.rs], [resize_types.rs], the resize checks of
    [admission.rs] and [ledger.rs], and the handles of [reservation.rs] under
    [positron-kernel/src/resource_governor]. A resize is a step of a state and error monad over
    what the handler holds under the lock; [or_fence_resize] is the code's [fence_resize]. *)

From stdpp Require Import sets.
From S2P Require Import Prelude Outcome Identity GovernorModel GovernorPools GovernorState GovernorAdmission GovernorRelease.

(** ** Outcomes *)

(** [positron-kernel/src/resource_governor/resize_types.rs:15-19 ResizeOutcome] *)
Record ResizeOutcome := mkResizeOutcome { ro_released : ResourceAmounts; ro_added : ResourceAmounts }.

(** [positron-kernel/src/resource_governor/resize_types.rs:34-40 ResizeFailureCode] *)
Inductive ResizeFailureCode := InvalidRequest | InactiveReservation | AdmissionRefused | ResizeInternalFenced.

#[global] Instance ResizeFailureCode_eq_dec : EqDecision ResizeFailureCode.
Proof. solve_decision. Defined.

(** [positron-kernel/src/resource_governor/resize_types.rs:43-48 ExistingCapacityDisposition] *)
Inductive ExistingCapacityDisposition := CancelledBeforeLimit | CapacityRetained | NoActiveCapacity.

#[global] Instance ExistingCapacityDisposition_eq_dec : EqDecision ExistingCapacityDisposition.
Proof. solve_decision. Defined.

(** [positron-kernel/src/resource_governor/resize_types.rs:51-64 ResizeFailure] *)
Record ResizeFailure := mkResizeFailure {
  rf_code : ResizeFailureCode;
  rf_admission_code : option AdmissionFailureCode;
  rf_retry : AdmissionRetry;
  rf_scope : LimitingScope;
  rf_pressure : DiskPressureState;
  rf_class : WorkClass;
  rf_disposition : ExistingCapacityDisposition;
  rf_dimension : option ResourceDimension;
  rf_allowed : Z;
  rf_in_use : Z;
  rf_requested : Z;
}.

(** [positron-kernel/src/resource_governor/resize_types.rs:122-136 ResizeFailure::invalid] *)
Definition ResizeFailure_invalid (class : WorkClass) (pressure : DiskPressureState) : ResizeFailure :=
  mkResizeFailure InvalidRequest None Never LimitPolicy pressure class CapacityRetained None 0 0 0.

(** [positron-kernel/src/resource_governor/resize_types.rs:138-152 ResizeFailure::inactive] *)
Definition ResizeFailure_inactive (class : WorkClass) (pressure : DiskPressureState) : ResizeFailure :=
  mkResizeFailure InactiveReservation None Never LimitInternal pressure class NoActiveCapacity None 0 0 0.

(** [positron-kernel/src/resource_governor/resize_types.rs:154-176 ResizeFailure::admission] *)
Definition ResizeFailure_admission (f : AdmissionFailure) (disposition : ExistingCapacityDisposition) : ResizeFailure :=
  mkResizeFailure (if bool_decide (af_code f = InternalFenced) then ResizeInternalFenced else AdmissionRefused)
    (Some (af_code f)) (af_retry f) (af_scope f) (af_pressure f) (af_class f) disposition (af_dimension f)
    (af_allowed f) (af_in_use f) (af_requested f).

(** [positron-kernel/src/resource_governor/resize_types.rs:178-193 ResizeFailure::admission_failure] *)
Definition resize_admission_failure (f : ResizeFailure) : option AdmissionFailure :=
  code ← rf_admission_code f;
  Some (mkAdmissionFailure code (rf_retry f) (rf_scope f) (rf_class f) (rf_pressure f) (rf_dimension f)
    (rf_allowed f) (rf_in_use f) (rf_requested f)).

(** [positron-kernel/src/resource_governor/resize_types.rs:204-207 ResizeCommit] *)
Record ResizeCommit := mkResizeCommit { rc_owner : ChargeOwner; rc_outcome : ResizeOutcome }.

(** [positron-kernel/src/resource_governor/resize.rs:19-27 ResizeRequest] *)
Record ResizeRequest := mkResizeRequest {
  rq_slot : nat;
  rq_owner : ChargeOwner;
  rq_identity : ReservationIdentity;
  rq_old : ResourceAmounts;
  rq_new : ResourceAmounts;
  rq_preserve_existing : bool;
}.

(** [positron-kernel/src/resource_governor/resize.rs:437-442 resize_outcome] *)
Definition resize_outcome (old new : ResourceAmounts) : ResizeOutcome :=
  mkResizeOutcome (excess_over old new) (excess_over new old).

(** [positron-kernel/src/resource_governor/resize.rs:444-449 retained_resize] *)
Definition retained_resize (class : WorkClass) (pressure : DiskPressureState) : ResizeFailure :=
  ResizeFailure_admission (internal_failure_at_pressure class pressure) CapacityRetained.

(** ** The resize monad *)

Definition Rsz (A : Type) : Type := Live -> Live * result ResizeFailure A.

#[global] Instance Rsz_ret : MRet Rsz := fun A a l => (l, Ok a).
#[global] Instance Rsz_bind : MBind Rsz := fun A B k m l =>
  match m l with (l', Ok a) => k a l' | (l', Err e) => (l', Err e) end.

Definition rsz_state : Rsz AccountingState := fun l => (l, Ok (lv_state l)).
Definition rsz_modify (f : AccountingState -> AccountingState) : Rsz unit := fun l => (set_state l (f (lv_state l)), Ok tt).
Definition rsz_fail {A} (f : ResizeFailure) : Rsz A := fun l => (l, Err f).

(** [positron-kernel/src/resource_governor/resize.rs:451-457 fence_resize] *)
Definition fence_resize {A} (class : WorkClass) : Rsz A := fun l =>
  (fence_state l, Err (retained_resize class (disk_pressure (lv_state l)))).

(** The value of an option, or [fence_resize]. *)
Definition or_fence_resize {A} (class : WorkClass) (o : option A) : Rsz A :=
  match o with Some a => mret a | None => fence_resize class end.

(** [positron-kernel/src/resource_governor/resize.rs:459-465 replace_at] on a field of the usage totals,
    with the fence that follows a failed write. *)
Definition replace_usage {A} (class : WorkClass) (field : UsageTotals -> list A) (i : nat) (a : A)
    (set : UsageTotals -> list A -> UsageTotals) : Rsz unit :=
  st ← rsz_state;
  stored ← or_fence_resize class (store_at (field (usage st)) i a);
  rsz_modify (fun st => set_usage st (set (usage st) stored)).

(** [positron-kernel/src/resource_governor/resize.rs:459-465 replace_at] on a field of the counters. *)
Definition replace_count (class : WorkClass) (field : OutstandingCounts -> list Z) (i : nat) (a : Z)
    (set : OutstandingCounts -> list Z -> OutstandingCounts) : Rsz unit :=
  st ← rsz_state;
  stored ← or_fence_resize class (store_at (field (counts st)) i a);
  rsz_modify (fun st => set_counts st (set (counts st) stored)).

(** A step that reports whether it worked, or [fence_resize]. *)
Definition rsz_succeeds (class : WorkClass) (f : Live -> Live * bool) : Rsz unit := fun l =>
  let '(l', ok) := f l in if ok then (l', Ok tt) else fence_resize class l'.

(** ** Helpers *)

(** [positron-kernel/src/resource_governor/policy.rs:341-354 PoolCharge::shrink_to] *)
Definition shrink_to (c : PoolCharge) (new : ResourceAmounts) : option PoolCharge :=
  '(shared, protected) ← to_option (fill_split (fun d =>
    let kept_shared := Z.min (get (pch_shared c) d) (get new d) in
    match checked_sub (get new d) kept_shared with
    | None => Err tt
    | Some kept_protected => if get (pch_protected c) d <? kept_protected then Err tt else Ok (kept_shared, kept_protected)
    end));
  Some (mkPoolCharge (pch_class_pool c) shared protected).

(** [positron-kernel/src/resource_governor/ledger.rs:268-280 GrantRecord::replaced] *)
Definition replaced (r : GrantRecord) (owner : ChargeOwner) (identity : ReservationIdentity) (amounts : ResourceAmounts)
  : option GrantRecord :=
  replacement ← GrantRecord_new owner identity amounts (gr_operation r);
  if bool_decide (gr_kind replacement = gr_kind r) && bool_decide (gr_tenant_index replacement = gr_tenant_index r)
     && bool_decide (gr_tenant replacement = gr_tenant r) && bool_decide (gr_principal replacement = gr_principal r)
  then Some replacement else None.

(** [positron-kernel/src/resource_governor/ledger.rs:433-438 slot_is_active] *)
Definition slot_is_active (l : Live) (slot : nat) : bool := bool_decide (slot_signals (lv_drops l) !! slot = Some SLOT_ACTIVE).

(** [positron-kernel/src/resource_governor/ledger.rs:460-482 replace_slot_record] *)
Definition replace_slot_record (slot : nat) (owner : ChargeOwner) (identity : ReservationIdentity) (amounts : ResourceAmounts)
    (l : Live) : Live * bool :=
  if negb (slot_is_active l slot) then (l, false)
  else
    match record_at (lv_state l) slot ≫= fun current => replaced current owner identity amounts with
    | None => (l, false)
    | Some replacement => (set_state l (set_record (lv_state l) slot (Some replacement)), true)
    end.

(** [positron-kernel/src/resource_governor/admission.rs:326-387 GovernorInner::refuse_principal_resize_limit] *)
Definition refuse_principal_resize_limit (g : GovernorInner) (st : AccountingState) (tenant : nat)
    (principal : option PrincipalId) (excluded_slot : nat) (class : WorkClass) (requested : ResourceAmounts)
  : result AdmissionFailure unit :=
  match principal, principal_quota g with
  | Some principal, Some quota =>
      '(_, used) ← principal_usage_excluding st tenant principal (Some excluded_slot) class;
      let operation :=
        record ← record_at st excluded_slot;
        match gr_operation record with
        | Some (Root _ _ _) => root_token (gi_authority g) record excluded_slot
        | Some (Child root_slot generation) =>
            root ← record_at st root_slot;
            token ← root_token (gi_authority g) root root_slot;
            if tok_generation token =? generation then Some token else None
        | None => None
        end in
      operation_used ← (match operation with
                        | Some token => operation_usage st token (Some excluded_slot) class
                        | None => Ok amounts_zero
                        end);
      _ ← refuse_exceeded PrincipalQuotaExceeded LimitOperation class operation_used requested
            (pq_per_operation_limits quota) (disk_pressure st);
      refuse_exceeded PrincipalQuotaExceeded LimitPrincipal class used requested
        (pq_aggregate_limits quota) (disk_pressure st)
  | _, _ => Ok tt
  end.

(** The live-disk check of a resize: only growth of the disk headroom is checked. *)
Definition refuse_resize_disk (class : WorkClass) (st : AccountingState) (total_without old new : ResourceAmounts)
  : result AdmissionFailure unit :=
  if get old DiskHeadroomBytes <? get new DiskHeadroomBytes
  then refuse_live_disk_growth class total_without new (usable_disk_bytes st) (disk_pressure st)
  else Ok tt.

(** ** Ordinary work *)

(** [positron-kernel/src/resource_governor/resize.rs:422-435 OrdinaryResizeView] *)
Record OrdinaryResizeView := mkResizeView {
  rv_total_without : ResourceAmounts;
  rv_tenant_without : ResourceAmounts;
  rv_pool_without : PoolCapacities;
  rv_tenant_pool_without : PoolCapacities;
  rv_recovery_usage : ResourceAmounts;
  rv_recovery_shared_usage : ResourceAmounts;
  rv_recovery_tenant_shared_usage : ResourceAmounts;
  rv_pressure : DiskPressureState;
  rv_lifecycle : GovernorLifecycle;
  rv_tenant_limit : ResourceAmounts;
  rv_recovery_shared_limit : ResourceAmounts;
  rv_tenant_capacity : PoolCapacities;
}.

(** [positron-kernel/src/resource_governor/resize.rs:363-419 GovernorInner::plan_ordinary_resize] *)
Definition plan_ordinary_resize (g : GovernorInner) (class : WorkClass) (new : ResourceAmounts) (view : OrdinaryResizeView)
  : result AdmissionFailure PoolCharge :=
  if bool_decide (rv_lifecycle view = ShuttingDown) then Err (shutdown_failure class (rv_pressure view))
  else
    ordinary_without ← ok_or (internal_failure_at_pressure class (rv_pressure view))
      (amounts_sub (rv_total_without view) (rv_recovery_usage view));
    _ ← refuse_ordinary_capacity class new
          (mkOrdinaryCapacity ordinary_without (rv_recovery_shared_usage view) (ordinary_ceiling g) (total_ceiling g) (rv_pressure view));
    _ ← refuse_exceeded TenantQuotaExceeded LimitTenant class (rv_tenant_without view) new (rv_tenant_limit view) (rv_pressure view);
    _ ← refuse_tenant_recovery_shared_fair_share class (rv_tenant_without view) (rv_recovery_tenant_shared_usage view) new
          (rv_recovery_shared_limit view) (rv_pressure view);
    shared ← pressure_eligibility (rv_pressure view) class new;
    plan_pool_charge class new
      (mkPoolAdmission (pool_capacities g) (rv_pool_without view) (rv_tenant_capacity view) (rv_tenant_pool_without view))
      (rv_pressure view) shared.

(** What remains charged without the reservation. *)
Record OrdinaryWithout := mkOrdinaryWithout {
  ow_total : ResourceAmounts;
  ow_tenant : ResourceAmounts;
  ow_pool : PoolCapacities;
  ow_tenant_pool : PoolCapacities;
}.

(** [positron-kernel/src/resource_governor/resize.rs:116-207 GovernorInner::resize_ordinary_locked!] The
    pools that the new amounts are charged to. *)
Definition plan_resize (g : GovernorInner) (st : AccountingState) (req : ResizeRequest) (tenant : nat) (class : WorkClass)
    (old_pools : PoolCharge) (w : OrdinaryWithout) : result ResizeFailure PoolCharge :=
  let internal := internal_failure_at_pressure class (disk_pressure st) in
  let principal := match rq_identity req with IdentityOrdinary _ principal _ => principal | IdentityRecovery _ _ => None end in
  if is_at_most (rq_new req) (rq_old req) then
    ok_or (ResizeFailure_admission internal CapacityRetained) (shrink_to old_pools (rq_new req))
  else
    map_err (fun f => ResizeFailure_admission f (if rq_preserve_existing req then CapacityRetained else CancelledBeforeLimit))
     (_ ← refuse_principal_resize_limit g st tenant principal (rq_slot req) class (rq_new req);
      _ ← refuse_resize_disk class st (ow_total w) (rq_old req) (rq_new req);
      recovery_shared_usage ← ok_or internal (ru_shared <$> recovery_tenant_pool_usage (usage st) !! tenant);
      tenant_limit ← ok_or internal (tenant_limits (topology st) !! tenant);
      recovery_shared_limit ← ok_or internal (recovery_tenant_shared_fair (topology st) !! tenant);
      tenant_capacity ← ok_or internal (tenant_fair_capacities (topology st) !! tenant);
      plan_ordinary_resize g class (rq_new req)
        (mkResizeView (ow_total w) (ow_tenant w) (ow_pool w) (ow_tenant_pool w) (recovery_usage (usage st))
           (ru_shared (recovery_pool_usage (usage st))) recovery_shared_usage (disk_pressure st) (lifecycle st)
           tenant_limit recovery_shared_limit tenant_capacity)).

(** [positron-kernel/src/resource_governor/resize.rs:253-313 GovernorInner::resize_ordinary_locked!] The
    slot of a cancelled reservation: its record goes, or stays as a root without a charge. *)
Definition finish_cancelled (class : WorkClass) (slot : nat) : Rsz unit :=
  st ← rsz_state;
  record ← or_fence_resize class (record_at st slot);
  match gr_operation record with
  | None | Some (Root _ _ 0) => rsz_succeeds class (fun l => finish_slot l slot)
  | Some (Root _ _ _) =>
      released ← or_fence_resize class (released_root record);
      _ ← or_fence_resize class (grant_records (grants st) !! slot);
      rsz_modify (fun st => set_record st slot (Some released))
  | Some (Child root_slot generation) =>
      root ← or_fence_resize class (record_at st root_slot);
      _ ← (match gr_operation root with
           | Some (Root root_generation _ _) => if root_generation =? generation then mret tt else fence_resize class
           | _ => fence_resize class
           end);
      '(updated_root, remove_root) ← or_fence_resize class (decrement_root_child root);
      _ ← rsz_succeeds class (fun l => finish_slot l slot);
      if (remove_root : bool) then rsz_succeeds class (fun l => finish_slot l root_slot)
      else
        st ← rsz_state;
        _ ← or_fence_resize class (grant_records (grants st) !! root_slot);
        rsz_modify (fun st => set_record st root_slot (Some updated_root))
  end.

(** [positron-kernel/src/resource_governor/resize.rs:208-252 GovernorInner::resize_ordinary_locked!] A
    refused resize that does not preserve the reservation cancels it. *)
Definition cancel_ordinary_resize (req : ResizeRequest) (tenant : nat) (class : WorkClass) (w : OrdinaryWithout) : Rsz unit :=
  st ← rsz_state;
  outstanding' ← or_fence_resize class (checked_sub (outstanding (counts st)) 1);
  ordinary ← or_fence_resize class (checked_sub (outstanding_ordinary (counts st)) 1);
  tenant_count ← or_fence_resize class (tenant_outstanding (counts st) !! tenant ≫= fun count => checked_sub count 1);
  class_count ← or_fence_resize class (class_counts (counts st) !! class_index class ≫= fun count => checked_sub count 1);
  _ ← replace_usage class ordinary_tenant_usage tenant (ow_tenant w) with_ordinary_tenant_usage;
  _ ← replace_usage class ordinary_tenant_pool_usage tenant (ow_tenant_pool w) with_ordinary_tenant_pool_usage;
  _ ← replace_count class class_counts (class_index class) class_count with_class_counts;
  _ ← replace_count class tenant_outstanding tenant tenant_count with_tenant_outstanding;
  _ ← rsz_modify (fun st => set_usage st (with_totals (usage st) (ow_total w) (ow_pool w)));
  _ ← rsz_modify (fun st => set_counts st (with_outstanding (counts st) outstanding' ordinary
        (outstanding_recovery (counts st)) (outstanding_uninterruptible (counts st))));
  finish_cancelled class (rq_slot req).

(** [positron-kernel/src/resource_governor/resize.rs:323-361 GovernorInner::resize_ordinary_locked!] The
    commit of a planned resize. *)
Definition commit_ordinary_resize (req : ResizeRequest) (tenant : nat) (class : WorkClass) (w : OrdinaryWithout)
    (new_pools : PoolCharge) : Rsz ResizeCommit :=
  let new := rq_new req in
  total_candidate ← or_fence_resize class (amounts_add (ow_total w) new);
  tenant_candidate ← or_fence_resize class (amounts_add (ow_tenant w) new);
  pool_candidate ← or_fence_resize class (pools_add (ow_pool w) (charge_capacities new_pools));
  tenant_pool_candidate ← or_fence_resize class (pools_add (ow_tenant_pool w) (charge_capacities new_pools));
  _ ← replace_usage class ordinary_tenant_usage tenant tenant_candidate with_ordinary_tenant_usage;
  _ ← replace_usage class ordinary_tenant_pool_usage tenant tenant_pool_candidate with_ordinary_tenant_pool_usage;
  _ ← rsz_modify (fun st => set_usage st (with_totals (usage st) total_candidate pool_candidate));
  let updated_owner := mkOwner (co_attribution (rq_owner req)) (Some new_pools) None in
  _ ← rsz_succeeds class (replace_slot_record (rq_slot req) updated_owner (rq_identity req) new);
  mret (mkResizeCommit updated_owner (resize_outcome (rq_old req) new)).

(** [positron-kernel/src/resource_governor/resize.rs:71-361 GovernorInner::resize_ordinary_locked] *)
Definition resize_ordinary_locked (g : GovernorInner) (req : ResizeRequest) (tenant : nat) (class : WorkClass) : Rsz ResizeCommit :=
  st ← rsz_state;
  if bool_decide (lifecycle st = Fenced) then rsz_fail (retained_resize class (disk_pressure st))
  else
    let u := usage st in
    let old := rq_old req in
    old_pools ← or_fence_resize class (co_pools (rq_owner req));
    let old_pool_amounts := charge_capacities old_pools in
    total_without ← or_fence_resize class (amounts_sub (total_usage u) old);
    tenant_without ← or_fence_resize class (ordinary_tenant_usage u !! tenant ≫= fun used => amounts_sub used old);
    pool_without ← or_fence_resize class (pools_sub (pool_usage u) old_pool_amounts);
    tenant_pool_without ← or_fence_resize class (ordinary_tenant_pool_usage u !! tenant ≫= fun used => pools_sub used old_pool_amounts);
    let w := mkOrdinaryWithout total_without tenant_without pool_without tenant_pool_without in
    match plan_resize g st req tenant class old_pools w with
    | Ok new_pools => commit_ordinary_resize req tenant class w new_pools
    | Err failure =>
        if bool_decide (rf_code failure = AdmissionRefused) && negb (rq_preserve_existing req) then
          _ ← cancel_ordinary_resize req tenant class w; rsz_fail failure
        else
          _ ← rsz_modify (fun st => if bool_decide (rf_code failure = ResizeInternalFenced) then set_lifecycle st Fenced else st);
          rsz_fail failure
    end.

(** ** Recovery work *)

(** [positron-kernel/src/resource_governor/option_ext.rs:2-2 transpose_option] *)
Definition transpose_option {A} (o : option (option A)) : option (option A) :=
  match o with None => Some None | Some (Some a) => Some (Some a) | Some None => None end.

(** What remains charged without the reservation, and the candidates that are computed before
    the resize is planned. *)
Record RecoveryWithout := mkRecoveryWithout {
  rw_total : ResourceAmounts;
  rw_recovery : ResourceAmounts;
  rw_ordinary : ResourceAmounts;
  rw_recovery_candidate : ResourceAmounts;
  rw_pool : RecoveryPoolUsage;
  rw_scope : RecoveryPoolUsage;
  rw_tenant : option ResourceAmounts;
  rw_tenant_candidate : option ResourceAmounts;
}.

(** The quota of the tenant of a recovery resize counts ordinary and recovery work together. *)
Definition refuse_recovery_resize_quota (st : AccountingState) (new : ResourceAmounts) (tenant : option nat)
    (tenant_without : option ResourceAmounts) : result AdmissionFailure unit :=
  let class := DurabilityRecovery in
  let internal := internal_failure_at_pressure class (disk_pressure st) in
  match tenant, tenant_without with
  | Some index, Some recovery_without =>
      ordinary ← ok_or internal (ordinary_tenant_usage (usage st) !! index);
      quota ← ok_or internal (tenant_quotas (topology st) !! index);
      combined_without ← ok_or internal (amounts_add ordinary recovery_without);
      refuse_exceeded TenantQuotaExceeded LimitTenant class combined_without new (q_limits quota) (disk_pressure st)
  | _, _ => Ok tt
  end.

(** The capacities of the scope of a recovery resize: shared, protected and ordinary usage. *)
Definition recovery_resize_scope (g : GovernorInner) (st : AccountingState) (kind : RecoveryWorkKind) (tenant : option nat)
    (w : RecoveryWithout) : result AdmissionFailure (ResourceAmounts * ResourceAmounts * ResourceAmounts) :=
  let internal := internal_failure_at_pressure DurabilityRecovery (disk_pressure st) in
  match tenant with
  | Some index =>
      shared ← ok_or internal (recovery_tenant_shared_fair (topology st) !! index);
      protected ← ok_or internal ((fun pools => recovery_get pools kind) <$> recovery_tenant_pool_fair (topology st) !! index);
      ordinary ← ok_or internal (ordinary_tenant_usage (usage st) !! index);
      Ok (shared, protected, ordinary)
  | None =>
      Ok (recovery_shared_capacity g, recovery_get (recovery_system_pool_capacities (topology st)) kind, rw_ordinary w)
  end.

(** [positron-kernel/src/resource_governor/resize_recovery.rs:105-234 GovernorInner::resize_recovery_locked!]
    The pools that the new amounts are charged to. *)
Definition plan_recovery_resize (g : GovernorInner) (st : AccountingState) (req : ResizeRequest) (tenant : option nat)
    (kind : RecoveryWorkKind) (w : RecoveryWithout) : result AdmissionFailure RecoveryPoolCharge :=
  let class := DurabilityRecovery in
  let new := rq_new req in
  if bool_decide (lifecycle st = ShuttingDown) && negb (retains_capacity kind) && negb (is_at_most new (rq_old req))
  then Err (shutdown_failure class (disk_pressure st))
  else
    _ ← refuse_resize_disk class st (rw_total w) (rq_old req) new;
    _ ← refuse_recovery_resize_quota st new tenant (rw_tenant w);
    '(scope_shared, scope_protected, scope_ordinary) ← recovery_resize_scope g st kind tenant w;
    let global_protected := recovery_get (recovery_pool_capacities g) kind in
    charge ← map_err (fun limit => recovery_pool_failure limit (bool_decide (is_Some tenant)) kind new (recovery_shared_capacity g)
                 global_protected (rw_pool w) (rw_ordinary w)
                 (mkScopeView scope_shared scope_protected (rw_scope w) scope_ordinary) (disk_pressure st))
               (plan_recovery_charge kind new
                  (mkView (recovery_shared_capacity g) global_protected (rw_pool w) (rw_ordinary w))
                  (mkView scope_shared scope_protected (rw_scope w) scope_ordinary));
    _ ← refuse_exceeded RecoveryReserveExhausted LimitRecoveryReserve class (rw_total w) new (total_ceiling g) (disk_pressure st);
    Ok charge.

(** An optional write to the tables of a tenant. *)
Definition when_tenant {A} (tenant : option nat) (value : option A) (f : nat -> A -> Rsz unit) : Rsz unit :=
  match tenant, value with Some index, Some a => f index a | _, _ => mret tt end.

(** The usage of the scope of a recovery reservation. *)
Definition replace_scope (tenant : option nat) (scope : RecoveryPoolUsage) : Rsz unit :=
  match tenant with
  | Some index => replace_usage DurabilityRecovery recovery_tenant_pool_usage index scope with_recovery_tenant_pool_usage
  | None => rsz_modify (fun st => set_usage st (with_recovery_system_pool_usage (usage st) scope))
  end.

(** [positron-kernel/src/resource_governor/resize_recovery.rs:237-293 GovernorInner::resize_recovery_locked!]
    A refused resize of interruptible recovery work cancels the reservation. *)
Definition cancel_recovery_resize (req : ResizeRequest) (tenant : option nat) (w : RecoveryWithout) : Rsz unit :=
  let class := DurabilityRecovery in
  st ← rsz_state;
  outstanding' ← or_fence_resize class (checked_sub (outstanding (counts st)) 1);
  recovery_count ← or_fence_resize class (checked_sub (outstanding_recovery (counts st)) 1);
  tenant_count ← or_fence_resize class (transpose_option
    ((fun index => tenant_outstanding (counts st) !! index ≫= fun count => checked_sub count 1) <$> tenant));
  class_count ← or_fence_resize class (class_counts (counts st) !! class_index class ≫= fun count => checked_sub count 1);
  _ ← rsz_modify (fun st => set_usage st (with_recovery_totals (usage st) (rw_total w) (rw_recovery w) (rw_pool w)));
  _ ← when_tenant tenant (rw_tenant w) (fun index used => replace_usage class recovery_tenant_usage index used with_recovery_tenant_usage);
  _ ← replace_scope tenant (rw_scope w);
  _ ← rsz_modify (fun st => set_counts st (with_outstanding (counts st) outstanding' (outstanding_ordinary (counts st))
        recovery_count (outstanding_uninterruptible (counts st))));
  _ ← replace_count class class_counts (class_index class) class_count with_class_counts;
  _ ← when_tenant tenant tenant_count (fun index count => replace_count class tenant_outstanding index count with_tenant_outstanding);
  rsz_succeeds class (fun l => finish_slot l (rq_slot req)).

(** [positron-kernel/src/resource_governor/resize_recovery.rs:303-345 GovernorInner::resize_recovery_locked!]
    The commit of a planned resize. *)
Definition commit_recovery_resize (req : ResizeRequest) (tenant : option nat) (w : RecoveryWithout) (charge : RecoveryPoolCharge)
  : Rsz ResizeCommit :=
  let class := DurabilityRecovery in
  let new := rq_new req in
  total_candidate ← or_fence_resize class (amounts_add (rw_total w) new);
  pool_candidate ← or_fence_resize class (recovery_usage_add (rw_pool w) charge);
  scope_candidate ← or_fence_resize class (recovery_usage_add (rw_scope w) charge);
  _ ← rsz_modify (fun st => set_usage st (with_recovery_totals (usage st) total_candidate (rw_recovery_candidate w) pool_candidate));
  _ ← when_tenant tenant (rw_tenant_candidate w) (fun index used => replace_usage class recovery_tenant_usage index used with_recovery_tenant_usage);
  _ ← replace_scope tenant scope_candidate;
  let updated_owner := mkOwner (AttrRecovery tenant) None (Some charge) in
  _ ← rsz_succeeds class (replace_slot_record (rq_slot req) updated_owner (rq_identity req) new);
  mret (mkResizeCommit updated_owner (resize_outcome (rq_old req) new)).

(** [positron-kernel/src/resource_governor/resize_recovery.rs:36-346 GovernorInner::resize_recovery_locked] *)
Definition resize_recovery_locked (g : GovernorInner) (req : ResizeRequest) (tenant : option nat) (kind : RecoveryWorkKind)
  : Rsz ResizeCommit :=
  let class := DurabilityRecovery in
  st ← rsz_state;
  if bool_decide (lifecycle st = Fenced) then rsz_fail (retained_resize class (disk_pressure st))
  else
    let u := usage st in
    let old := rq_old req in
    old_charge ← or_fence_resize class (co_recovery_pools (rq_owner req));
    total_without ← or_fence_resize class (amounts_sub (total_usage u) old);
    recovery_without ← or_fence_resize class (amounts_sub (recovery_usage u) old);
    ordinary_usage ← or_fence_resize class (amounts_sub total_without recovery_without);
    recovery_candidate ← or_fence_resize class (amounts_add recovery_without (rq_new req));
    pool_without ← or_fence_resize class (recovery_usage_sub (recovery_pool_usage u) old_charge);
    scope_without ← or_fence_resize class (match tenant with
      | Some index => recovery_tenant_pool_usage u !! index ≫= fun used => recovery_usage_sub used old_charge
      | None => recovery_usage_sub (recovery_system_pool_usage u) old_charge
      end);
    tenant_without ← or_fence_resize class (transpose_option
      ((fun index => recovery_tenant_usage u !! index ≫= fun used => amounts_sub used old) <$> tenant));
    tenant_candidate ← or_fence_resize class (transpose_option ((fun used => amounts_add used (rq_new req)) <$> tenant_without));
    let w := mkRecoveryWithout total_without recovery_without ordinary_usage recovery_candidate pool_without scope_without
      tenant_without tenant_candidate in
    match plan_recovery_resize g st req tenant kind w with
    | Ok charge => commit_recovery_resize req tenant w charge
    | Err admission =>
        let retain := rq_preserve_existing req || retains_capacity kind in
        _ ← (if retain then mret tt else cancel_recovery_resize req tenant w);
        rsz_fail (ResizeFailure_admission admission (if retain then CapacityRetained else CancelledBeforeLimit))
    end.

(** ** The handlers *)

(** A refusal of a resize is counted before the lock is released. *)
Definition finish_resize (r : Live * result ResizeFailure ResizeCommit) : Live * result ResizeFailure ResizeCommit :=
  match r with
  | (l, Ok commit) => (l, Ok commit)
  | (l, Err f) =>
      match resize_admission_failure f with
      | Some admission => (set_state l (record_refusal_locked (lv_state l) admission), Err f)
      | None => (l, Err f)
      end
  end.

(** A resize under the admission lock. *)
Definition locked_resize (contended : bool) (class : WorkClass) (body : Rsz ResizeCommit) (gov : Governor)
  : Governor * result ResizeFailure ResizeCommit :=
  match lock_for_admission contended class gov with
  | (gov, Err f) => (gov, Err (ResizeFailure_admission f CapacityRetained))
  | (gov, Ok l) => let '(l, r) := finish_resize (body l) in (set_live gov l, r)
  end.

(** [positron-kernel/src/resource_governor/resize.rs:53-69 GovernorInner::resize_ordinary] *)
Definition resize_ordinary (g : GovernorInner) (contended : bool) (req : ResizeRequest) (tenant : nat) (class : WorkClass)
  : Governor -> Governor * result ResizeFailure ResizeCommit :=
  locked_resize contended class (resize_ordinary_locked g req tenant class).

(** [positron-kernel/src/resource_governor/resize_recovery.rs:17-34 GovernorInner::resize_recovery] *)
Definition resize_recovery (g : GovernorInner) (contended : bool) (req : ResizeRequest) (tenant : option nat)
    (kind : RecoveryWorkKind) : Governor -> Governor * result ResizeFailure ResizeCommit :=
  locked_resize contended DurabilityRecovery (resize_recovery_locked g req tenant kind).

(** [positron-kernel/src/resource_governor/resize.rs:30-51 GovernorInner::resize] *)
Definition resize (g : GovernorInner) (contended : bool) (req : ResizeRequest) (gov : Governor)
  : Governor * result ResizeFailure ResizeCommit :=
  match rq_identity req, co_attribution (rq_owner req) with
  | IdentityOrdinary _ _ kind, AttrOrdinary tenant => resize_ordinary g contended req tenant (WorkKind_class kind) gov
  | IdentityOrdinary _ _ kind, AttrRecovery _ => (gov, Err (retained_resize (WorkKind_class kind) (g_last_pressure gov)))
  | IdentityRecovery _ kind, AttrRecovery tenant => resize_recovery g contended req tenant kind gov
  | IdentityRecovery _ _, AttrOrdinary _ => (gov, Err (retained_resize DurabilityRecovery (g_last_pressure gov)))
  end.

(** The handle after a committed resize. *)
Definition resized_handle (h : ResourceReservation) (owner : ChargeOwner) (amounts : ResourceAmounts) : ResourceReservation :=
  mkReservation (res_slot h) owner (res_identity h) amounts (res_operation h) (res_active h).

(** [positron-kernel/src/resource_governor/reservation.rs:72-112 ResourceReservation::try_resize_with_policy] *)
Definition try_resize_with_policy (g : GovernorInner) (contended : bool) (h : ResourceReservation) (new : ResourceAmounts)
    (preserve_existing : bool) (gov : Governor) : Governor * ResourceReservation * result ResizeFailure ResizeOutcome :=
  if negb (res_active h) then (gov, h, Err (ResizeFailure_inactive (identity_class (res_identity h)) (g_last_pressure gov)))
  else if amounts_is_empty new then (gov, h, Err (ResizeFailure_invalid (identity_class (res_identity h)) (g_last_pressure gov)))
  else
    match resize g contended (mkResizeRequest (res_slot h) (res_owner h) (res_identity h) (res_amounts h) new preserve_existing) gov with
    | (gov, Ok commit) => (gov, resized_handle h (rc_owner commit) new, Ok (rc_outcome commit))
    | (gov, Err failure) =>
        if bool_decide (rf_disposition failure = CancelledBeforeLimit)
        then (gov, set_inactive (resized_handle h (res_owner h) amounts_zero), Err failure)
        else (gov, h, Err failure)
    end.

(** [positron-kernel/src/resource_governor/reservation.rs:53-58 ResourceReservation::try_resize] *)
Definition try_resize (g : GovernorInner) (contended : bool) (h : ResourceReservation) (new : ResourceAmounts) :=
  try_resize_with_policy g contended h new false.

(** [positron-kernel/src/resource_governor/reservation.rs:65-70 ResourceReservation::try_resize_preserving_capacity] *)
Definition try_resize_preserving_capacity (g : GovernorInner) (contended : bool) (h : ResourceReservation) (new : ResourceAmounts) :=
  try_resize_with_policy g contended h new true.

(** ** Transfer *)

(** [positron-kernel/src/resource_governor.rs:269-278 TransferredResourceReservation] The drop ledger is
    named by the authority that owns it. *)
Record TransferredResourceReservation := mkTransferred {
  tr_drop_ledger : Z;
  tr_slot : nat;
  tr_owner : ChargeOwner;
  tr_identity : ReservationIdentity;
  tr_amounts : ResourceAmounts;
  tr_operation : option OperationToken;
  tr_active : bool;
}.

(** [positron-kernel/src/resource_governor/reservation.rs:39-50 ResourceReservation::transfer] The handle
    that is left behind is inactive, so dropping it marks nothing. *)
Definition transfer (g : GovernorInner) (h : ResourceReservation) : ResourceReservation * TransferredResourceReservation :=
  (set_inactive h,
   mkTransferred (gi_authority g) (res_slot h) (res_owner h) (res_identity h) (res_amounts h) (res_operation h) true).

(** [positron-kernel/src/resource_governor/reservation.rs:208-211 TransferredResourceReservation::can_reclaim_with] *)
Definition can_reclaim_with (t : TransferredResourceReservation) (g : GovernorInner) : bool := tr_drop_ledger t =? gi_authority g.

(** What a foreign return does: the governor is marked to be fenced. *)
Definition foreign_release (gov : Governor) : Governor :=
  set_live gov (set_drops (g_live gov) (mark_foreign_release (lv_drops (g_live gov)))).

(** [positron-kernel/src/resource_governor/reservation.rs:214-231 TransferredResourceReservation::reclaim] *)
Definition reclaim (t : TransferredResourceReservation) (g : GovernorInner) (gov : Governor)
  : Governor * result GovernorFailure ResourceReservation :=
  if negb (can_reclaim_with t g) then (foreign_release gov, Err GovernorFailureFenced)
  else (gov, Ok (mkReservation (tr_slot t) (tr_owner t) (tr_identity t) (tr_amounts t) (tr_operation t) true)).

(** [positron-kernel/src/resource_governor/reservation.rs:134-150 authorizes_ingest_preparation] *)
Definition authorizes_ingest_preparation (h : ResourceReservation) (tenant : TenantId) (memory_bytes : Z) : bool :=
  res_active h
  && match res_identity h with IdentityOrdinary reserved _ Ingest => bool_decide (reserved = tenant) | _ => false end
  && (memory_bytes <=? get (res_amounts h) MemoryBytes).

(** [positron-kernel/src/resource_governor/reservation.rs:183-195 authorizes_compaction] *)
Definition authorizes_compaction (h : ResourceReservation) (tenant : TenantId) : bool :=
  res_active h
  && match res_identity h with IdentityRecovery (ScopeTenant reserved) EmergencyCompaction => bool_decide (reserved = tenant) | _ => false end.

(** ** Transfer is the identity on handles *)

(** Also (roundtrip). Reclaiming a transferred reservation with the governor that granted it gives back the
    same handle and changes nothing; reclaiming it with any other governor gives nothing back and
    marks that governor to be fenced. *)
Theorem transferred_reservation_returns_home g other gov h :
  res_active h = true ->
  (transfer g h).1 = set_inactive h
  /\ reclaim (transfer g h).2 g gov = (gov, Ok h)
  /\ (gi_authority other <> gi_authority g -> reclaim (transfer g h).2 other gov = (foreign_release gov, Err GovernorFailureFenced)
      /\ pending_fence (lv_drops (g_live (foreign_release gov))) = true).
Proof.
  intros Hact. split; [done|]. unfold reclaim, can_reclaim_with. cbn [transfer snd tr_drop_ledger]. rewrite Z.eqb_refl. cbn. split.
  - by destruct h; cbn in Hact; subst.
  - intros Hne. rewrite (proj2 (Z.eqb_neq _ _)) by congruence. done.
Qed.
