(* ===== verification/GovernorReplace.v ===== *)
(** Resource governor: a resize keeps the books.

    A resize of a held reservation has one of three outcomes: its record is replaced by one that is
    charged the new amounts; the reservation is released, exactly as a cancellation releases it; or
    usage, counters and records stay as they were. *)

From stdpp Require Import sets.
From S2P Require Import Prelude Outcome Identity GovernorModel GovernorPools GovernorState GovernorAdmission GovernorRelease GovernorConservation GovernorGrants GovernorSystem GovernorResize.

(** ** Steps *)

Lemma rsz_bind_ok {A B} (m : Rsz A) (k : A -> Rsz B) l l' a : m l = (l', Ok a) -> (m ≫= k) l = k a l'.
Proof. unfold mbind, Rsz_bind. by intros ->. Qed.

Lemma rsz_bind_err {A B} (m : Rsz A) (k : A -> Rsz B) l l' f : m l = (l', Err f) -> (m ≫= k) l = (l', Err f).
Proof. unfold mbind, Rsz_bind. by intros ->. Qed.

Lemma or_fence_resize_some {A} class (o : option A) a l : o = Some a -> or_fence_resize class o l = (l, Ok a).
Proof. by intros ->. Qed.

(** Runs the first step of a resize whose outcome is known by computation. *)
Ltac rsz_step :=
  match goal with |- context [@mbind Rsz Rsz_bind ?A ?B ?k ?m ?l] => rewrite (rsz_bind_ok m k l _ _ eq_refl) end.
(** Runs the first step, after rewriting the optional value it needs. *)
Tactic Notation "rsz_need" uconstr(H) := rewrite H; rsz_step.
(** Runs the first step by a lemma on it. *)
Tactic Notation "rsz_by" uconstr(H) :=
  match goal with |- context [@mbind Rsz Rsz_bind ?A ?B ?k ?m ?l] => rewrite (rsz_bind_ok m k l _ _ H) end.

Lemma replace_usage_ok {A} class (field : UsageTotals -> list A) i a set l x : field (usage (lv_state l)) !! i = Some x ->
  replace_usage class field i a set l
  = (set_state l (set_usage (lv_state l) (set (usage (lv_state l)) (<[i := a]> (field (usage (lv_state l)))))), Ok tt).
Proof. intros H. unfold replace_usage. rsz_step. by rsz_need (store_at_ok _ _ _ _ H). Qed.

Lemma replace_count_ok class (field : OutstandingCounts -> list Z) i a set l x : field (counts (lv_state l)) !! i = Some x ->
  replace_count class field i a set l
  = (set_state l (set_counts (lv_state l) (set (counts (lv_state l)) (<[i := a]> (field (counts (lv_state l)))))), Ok tt).
Proof. intros H. unfold replace_count. rsz_step. by rsz_need (store_at_ok _ _ _ _ H). Qed.

(** Runs a write to a table whose entry is known. *)
Ltac rsz_store H :=
  match goal with
  | |- context [@mbind Rsz Rsz_bind ?A ?B ?k (replace_usage ?c ?f ?i ?a ?s) ?l] =>
      rewrite (rsz_bind_ok _ k l _ _ (replace_usage_ok c f i a s l _ H))
  | |- context [@mbind Rsz Rsz_bind ?A ?B ?k (replace_count ?c ?f ?i ?a ?s) ?l] =>
      rewrite (rsz_bind_ok _ k l _ _ (replace_count_ok c f i a s l _ H))
  end.

(** A fenced failure leaves the books as they were. *)
Lemma or_fence_resize_spec {A} class (o : option A) l : SameBooks l (or_fence_resize class o l).1.
Proof. destruct o; [apply same_books_refl|apply same_books_fence, same_books_refl]. Qed.

(** ** Cancelling *)

(** The slot of a cancelled reservation is finished exactly as a release finishes it. *)
Lemma finish_cancelled_released class l slot r st1 l' status :
  record_at (lv_state l) slot = Some r -> release_record_locked false r (lv_state l) = (st1, status) ->
  grants st1 = grants (lv_state l) -> rs_applied status = true ->
  release_slot_locked l false slot = (l', status) -> finish_cancelled class slot (set_state l st1) = (l', Ok tt).
Proof.
  intros Hr Hrel Hg Hap. unfold release_slot_locked. rewrite Hr, Hrel, Hap. cbn [negb].
  assert (Hf : forall x : Live, fence_live x = (l', status) -> False) by (intros x [= <- <-]; done).
  assert (Hr1 : record_at st1 slot = Some r) by (unfold record_at in *; by rewrite Hg).
  unfold finish_cancelled. rsz_step. cbn [set_state lv_state]. rsz_need Hr1.
  destruct (gr_operation r) as [[g a k|root g]|].
  - destruct k as [|p|p].
    + unfold rsz_succeeds. destruct (finish_slot _ _) as [l2 []]; [by intros [= <-]|by intros ?%Hf].
    + destruct (released_root r) as [rr|]; [|by intros ?%Hf]. destruct (grant_records (grants st1) !! slot); [|by intros ?%Hf].
      intros [= <-]. by do 2 rsz_step.
    + destruct (released_root r) as [rr|]; [|by intros ?%Hf]. destruct (grant_records (grants st1) !! slot); [|by intros ?%Hf].
      intros [= <-]. by do 2 rsz_step.
  - destruct (record_at st1 root) as [rr|]; [|by intros ?%Hf]. rsz_step.
    destruct (gr_operation rr) as [[g' a' k'|? ?]|]; [|by intros ?%Hf..]. destruct (g' =? g); [|by intros ?%Hf]. cbn [negb]. rsz_step.
    destruct (decrement_root_child rr) as [[ur rm]|]; [|by intros ?%Hf]. rsz_step.
    destruct (finish_slot (set_state l st1) slot) as [l2 []] eqn:Hfin; [|by intros ?%Hf]. cbn [negb].
    rewrite (rsz_bind_ok _ _ _ l2 tt) by (unfold rsz_succeeds; by rewrite Hfin). destruct rm.
    + unfold rsz_succeeds. destruct (finish_slot l2 root) as [l3 []]; [by intros [= <-]|by intros ?%Hf].
    + rsz_step. destruct (grant_records (grants (lv_state l2)) !! root); [|by intros ?%Hf]. intros [= <-]. by rsz_step.
  - unfold rsz_succeeds. destruct (finish_slot _ _) as [l2 []]; [by intros [= <-]|by intros ?%Hf].
Qed.

(** What is charged without an ordinary grant. *)
Definition without_ordinary (st : AccountingState) (r : GrantRecord) (a : ResourceAmounts) (tp' pool' : PoolCapacities) : OrdinaryWithout :=
  mkOrdinaryWithout (zip_map Z.sub (total_usage (usage st)) (gr_amounts r)) (zip_map Z.sub a (gr_amounts r)) pool' tp'.

Lemma cancel_ordinary_ok n l req r i cp a tp tp' pool' k tc :
  Inv n l -> grant_records (grants (lv_state l)) !! rq_slot req = Some (Some r) -> charged r = true -> grant_is_ordinary r = true ->
  OrdinaryParts (lv_state l) r i cp a tp tp' pool' k tc ->
  exists l', cancel_ordinary_resize req i (grant_class r) (without_ordinary (lv_state l) r a tp' pool') l = (l', Ok tt)
    /\ Inv n l' /\ Frame (rq_slot req) l l'.
Proof.
  intros HI Hr Hch Ho HP. destruct (release_slot_ok n l (rq_slot req) r HI Hr Hch) as (l' & Hrel & HI' & HF). exists l'. split; [|done].
  pose proof (release_ordinary_exact (lv_state l) false r i cp a tp tp' pool' k tc Ho HP) as Hex.
  destruct HP as [? ? _ _ _ Ha _ Htp _ _ _ _ Hk Htc Hk1 Htc1 Hout Hord].
  unfold cancel_ordinary_resize. rsz_step. rewrite !checked_sub_ok by lia. do 2 rsz_step.
  rewrite Htc. cbn [mbind option_bind]. rsz_need (checked_sub_ok _ _ Htc1). rewrite Hk. cbn [mbind option_bind]. rsz_need (checked_sub_ok _ _ Hk1).
  rsz_store Ha. rsz_store Htp. rsz_store Hk. rsz_store Htc.
  do 2 rsz_step.
  exact (finish_cancelled_released (grant_class r) l (rq_slot req) r _ l' _ (record_at_some _ _ _ Hr) Hex eq_refl eq_refl Hrel).
Qed.

(** ** Replacing *)

Lemma m_child_operation root r r' : gr_operation r' = gr_operation r -> m_child root r' = m_child root r.
Proof. unfold m_child. by intros ->. Qed.

(** Replacing a record by one of the same operation keeps the bookkeeping of operations. *)
Lemma ops_replace n rs slot r r' : OpsOk n rs -> rs !! slot = Some (Some r) -> gr_operation r' = gr_operation r -> wf_record n r' ->
  OpsOk n (<[slot := Some r']> rs).
Proof.
  intros [Hwf Hroot Hchild] Hr Hop Hw. assert (Hlt : (slot < length rs)%nat) by (by eapply lookup_lt_Some).
  assert (Hsum : forall root, rsum (m_child root) (<[slot := Some r']> rs) = rsum (m_child root) rs).
  { intros root. rewrite (rsum_insert _ _ _ _ _ Hr). cbn [opt_measure]. rewrite (m_child_operation root r r' Hop). lia. }
  assert (Hback : forall x y, <[slot := Some r']> rs !! x = Some (Some y) -> exists z, rs !! x = Some (Some z) /\ gr_operation z = gr_operation y).
  { intros x y [[-> [= ->]]|[Hne Hx]]%lookup_insert_inv; [by exists r|by exists y]. }
  split.
  - intros x y [[-> [= ->]]|[Hne Hx]]%lookup_insert_inv; [done|eauto].
  - intros x y g a k Hx Ho. destruct (Hback x y Hx) as (z & Hz & Hoz). rewrite Hsum. apply (Hroot x z g a k Hz). congruence.
  - intros x y root g Hx Ho. destruct (Hback x y Hx) as (z & Hz & Hoz). destruct (Hchild x z root g Hz) as (r0 & a & k & Hr0 & Ho0); [congruence|].
    destruct (decide (root = slot)) as [->|Hne].
    + exists r', a, k. rewrite list_lookup_insert_eq by done. split; [done|]. congruence.
    + exists r0, a, k. by rewrite list_lookup_insert_ne by congruence.
Qed.

(** One record was replaced, in place. *)
Record Replaced (slot : nat) (r' : GrantRecord) (l l' : Live) : Prop := {
  rd_records : grant_records (grants (lv_state l')) = <[slot := Some r']> (grant_records (grants (lv_state l)));
  rd_free : free_slots (grants (lv_state l')) = free_slots (grants (lv_state l));
  rd_drops : lv_drops l' = lv_drops l;
  rd_lifecycle : lifecycle (lv_state l') = lifecycle (lv_state l);
  rd_charged : charged r' = true;
}.

Lemma replaced_inv n l l' slot r r' u1 c1 : Inv n l -> grant_records (grants (lv_state l)) !! slot = Some (Some r) ->
  Moved (-1) r (usage (lv_state l)) (counts (lv_state l)) u1 c1 -> Moved 1 r' u1 c1 (usage (lv_state l')) (counts (lv_state l')) ->
  Shaped n (usage (lv_state l')) (counts (lv_state l')) -> gr_operation r' = gr_operation r -> wf_record n r' ->
  Replaced slot r' l l' -> Inv n l'.
Proof.
  intros [HC Hsh Hsl Hop] Hr H1 H2 Hsh' Hopr Hw [Hrs Hfr Hd _ _]. assert (Hlt : (slot < length (grant_records (grants (lv_state l))))%nat) by (by eapply lookup_lt_Some).
  split; rewrite ?Hrs, ?Hfr, ?Hd.
  - eapply moved_conserved; [eapply moved_conserved; [exact HC|exact H1|by apply shifts_clear]|exact H2|].
    assert (Hins : <[slot := Some r']> (<[slot := None]> (grant_records (grants (lv_state l)))) = <[slot := Some r']> (grant_records (grants (lv_state l))))
      by apply list_insert_insert_eq. rewrite <- Hins. apply shifts_fill. by rewrite list_lookup_insert_eq.
  - done.
  - by apply (slots_retag _ _ _ _ r).
  - by apply (ops_replace n _ _ r).
Qed.

(** A charge that splits amounts over the shared pool and the pool of a class. *)
Record Split (cp : OrdinaryPool) (amounts : ResourceAmounts) (c : PoolCharge) : Prop := {
  sp_pool : pch_class_pool c = cp;
  sp_sum d : get (pch_shared c) d + get (pch_protected c) d = get amounts d;
  sp_shared d : 0 <= get (pch_shared c) d;
  sp_protected d : 0 <= get (pch_protected c) d;
}.

(** Shrinking a charge keeps its split: nothing moves between pools. *)
Lemma shrink_to_ok cp old new c : Split cp old c -> (forall d, 0 <= get new d <= get old d) ->
  exists c', shrink_to c new = Some c' /\ Split cp new c' /\ (pch_shared c' ⊑r pch_shared c) /\ (pch_protected c' ⊑r pch_protected c).
Proof.
  intros [Hp Hs Hsh Hpr] Hle. set (sh := zip_map Z.min (pch_shared c) new). set (pr := zip_map Z.sub new sh).
  assert (Hd : forall d, 0 <= get sh d <= get (pch_shared c) d /\ 0 <= get pr d <= get (pch_protected c) d /\ get sh d + get pr d = get new d).
  { intros d. subst pr sh. rewrite !get_zip_map. specialize (Hs d). specialize (Hsh d). specialize (Hpr d). specialize (Hle d). lia. }
  exists (mkPoolCharge cp sh pr). split.
  - unfold shrink_to. match goal with |- context [fill_split ?f] => assert (Hf : fill_split f = Ok (sh, pr)) end.
    { apply fill_split_ok. intros d. cbv zeta. specialize (Hd d). assert (Hmin : Z.min (get (pch_shared c) d) (get new d) = get sh d)
        by (subst sh; by rewrite get_zip_map). rewrite Hmin. rewrite checked_sub_ok by lia.
      assert (Hpd : get new d - get sh d = get pr d) by (subst pr; by rewrite get_zip_map). rewrite Hpd.
      by rewrite (proj2 (Z.ltb_ge _ _)) by lia. }
    rewrite Hf. cbn. by rewrite Hp.
  - split; [split; cbn; try done; intros d; apply Hd|]. split; intros d; cbn; apply Hd.
Qed.

Lemma record_charge_split n r cp : wf_record n r -> Split cp (gr_amounts r) (record_charge r cp).
Proof.
  intros Hw. split; cbn [record_charge pch_class_pool pch_shared pch_protected]; [done|..];
    intros d; pose proof (wf_shared _ _ Hw d); rewrite ?get_zip_map; lia.
Qed.

(** The record of an ordinary grant with other amounts. *)
Definition regrant (r : GrantRecord) (new shared : ResourceAmounts) : GrantRecord :=
  mkGrant new shared (gr_tenant_index r) (gr_tenant r) (gr_principal r) (gr_kind r) (gr_operation r).

Lemma regrant_facts r new shared : let r' := regrant r new shared in
  grant_is_ordinary r' = grant_is_ordinary r /\ grant_class r' = grant_class r /\ grant_tenant_index r' = grant_tenant_index r
  /\ grant_recovery_kind r' = grant_recovery_kind r /\ charged r' = charged r.
Proof. done. Qed.

Lemma regrant_wf n r new shared : wf_record n r -> charged r = true -> (forall d, 0 <= get shared d <= get new d) -> wf_record n (regrant r new shared).
Proof. intros [] Hch H. split; try done. intros Hc. by change (charged r = false) in Hc; congruence. Qed.

Lemma grant_index_inv n r i : wf_record n r -> grant_tenant_index r = Some i -> to_u16 i = Some (gr_tenant_index r).
Proof.
  intros Hw. destruct (wf_range _ _ Hw) as [H0 Hle]. unfold grant_tenant_index. destruct (_ =? _); [done|]. intros [= <-]. unfold to_u16. rewrite Z2Nat.id by done. by rewrite (proj2 (Z.leb_le _ _)).
Qed.

(** ** Ordinary work *)

(** The replacement of a record has the same identity and the new charge. *)
Lemma replaced_ordinary n r h i cp new c : wf_record n r -> holds h r -> grant_tenant_index r = Some i -> grant_is_ordinary r = true ->
  replaced r (mkOwner (AttrOrdinary i) (Some c) None) (res_identity h) new = Some (regrant r new (pch_shared c)) /\
  (for_class (grant_class r) = Some cp -> Split cp new c -> holds (resized_handle h (mkOwner (AttrOrdinary i) (Some c) None) new) (regrant r new (pch_shared c))).
Proof.
  intros Hw (Ha & Hact & Hown & Hcl & Hid) Hi Ho. destruct (res_identity h) as [t p kind|scope kind] eqn:Hident.
  2:{ destruct Hid as (_ & Hk & _). unfold grant_is_ordinary in Ho. rewrite Hk in Ho. by destruct kind. }
  destruct Hid as (_ & Hk & Ht & Hp). split.
  - unfold replaced, GrantRecord_new. cbn [co_attribution co_pools]. rewrite (grant_index_inv n r i Hw Hi). cbn [mbind option_bind gr_kind gr_tenant_index gr_tenant gr_principal].
    rewrite Hk, Ht, Hp. rewrite !bool_decide_eq_true_2 by done. cbn [andb]. unfold regrant. by rewrite Hk, Ht, Hp.
  - intros Hcp HS. unfold holds. cbn [resized_handle res_amounts res_active res_owner res_identity]. rewrite Hident.
    split; [done|]. split; [done|]. split; [|by split_and!; [|eexists|..]].
    unfold grant_owner. cbn [regrant gr_amounts gr_shared gr_kind]. rewrite amounts_sub_ok.
    2:{ intros d. pose proof (sp_sum _ _ _ HS d). pose proof (sp_protected _ _ _ HS d). lia. }
    cbn [mbind option_bind]. assert (Hok : ordinary_kind (gr_kind r) = Some kind) by (rewrite Hk; by destruct kind). rewrite Hok. cbn [mbind option_bind].
    unfold grant_class in Hcp. rewrite Hok in Hcp. rewrite Hcp. cbn [mbind option_bind].
    change (grant_tenant_index (regrant r new (pch_shared c))) with (grant_tenant_index r). rewrite Hi. cbn [mbind option_bind].
    do 3 f_equal. destruct c as [cp' sh pr]. destruct HS as [Hcp' Hsum _ _]. cbn [pch_class_pool pch_shared pch_protected] in *. f_equal; [done|].
    apply amounts_ext. intros d. rewrite get_zip_map. specialize (Hsum d). lia.
Qed.

Lemma insert_restores {A} (l : list A) i x y : l !! i = Some x -> <[i := x]> (<[i := y]> l) = l.
Proof. intros H. rewrite list_insert_insert_eq. by apply list_insert_id. Qed.

(** The totals after the commit of an ordinary resize. *)
Definition resized_usage (u : UsageTotals) (i : nat) (total tenant : ResourceAmounts) (pool tenant_pool : PoolCapacities) : UsageTotals :=
  mkUsage total (recovery_usage u) (<[i := tenant]> (ordinary_tenant_usage u)) (recovery_tenant_usage u) (recovery_pool_usage u)
    (recovery_system_pool_usage u) (recovery_tenant_pool_usage u) pool (<[i := tenant_pool]> (ordinary_tenant_pool_usage u)).

Lemma resized_moved n st r i cp a tp tp' pool' k tc new c total tenant pool tpool :
  wf_record n r -> charged r = true -> grant_is_ordinary r = true -> OrdinaryParts st r i cp a tp tp' pool' k tc -> Split cp new c ->
  amounts_add (zip_map Z.sub (total_usage (usage st)) (gr_amounts r)) new = Some total ->
  amounts_add (zip_map Z.sub a (gr_amounts r)) new = Some tenant ->
  pools_add pool' (charge_capacities c) = Some pool -> pools_add tp' (charge_capacities c) = Some tpool ->
  Moved 1 (regrant r new (pch_shared c)) (ordinary_usage_without (usage st) r i a tp' pool') (ordinary_counts_without (counts st) r i k tc)
    (resized_usage (usage st) i total tenant pool tpool) (counts st).
Proof.
  intros Hw Hch Ho HP HS Htot Hten Hpool Htpool. set (r' := regrant r new (pch_shared c)).
  destruct HP as [Hi Hcp _ _ _ Ha _ Htp _ _ _ _ Hk Htc _ _ _ _]. rewrite amounts_add_Some in Htot, Hten. rewrite pools_add_Some in Hpool, Htpool.
  assert (Hcharge : forall p d, get (pool_get (charge_capacities c) p) d = m_pool p d r').
  { intros p d. rewrite <- (record_charge_pool r' cp p d Ho Hcp). do 3 f_equal. destruct c as [cp' sh pr]. destruct HS as [Hcp' Hsum _ _]. cbn in Hcp', Hsum.
    unfold record_charge. f_equal; [done|]. apply amounts_ext. intros d'. rewrite get_zip_map. cbn [r' regrant gr_amounts gr_shared pch_shared]. specialize (Hsum d'). lia. }
  assert (Hlt : (i < length (ordinary_tenant_usage (usage st)))%nat) by (by eapply lookup_lt_Some).
  assert (Hlt2 : (i < length (ordinary_tenant_pool_usage (usage st)))%nat) by (by eapply lookup_lt_Some).
  assert (Hlt3 : (i < length (tenant_outstanding (counts st)))%nat) by (by eapply lookup_lt_Some).
  assert (Hlt4 : (class_index (grant_class r) < length (class_counts (counts st)))%nat) by (by eapply lookup_lt_Some).
  pose proof (moved_ordinary 1 r' i cp (ordinary_usage_without (usage st) r i a tp' pool') (ordinary_counts_without (counts st) r i k tc)
    total (zip_map Z.sub a (gr_amounts r)) tenant pool tp' tpool (k - 1) (tc - 1) Ho Hi Hcp Hch) as HM.
  cbn [ordinary_usage_without ordinary_counts_without total_usage ordinary_tenant_usage ordinary_tenant_pool_usage pool_usage recovery_usage
    recovery_tenant_usage recovery_pool_usage recovery_system_pool_usage recovery_tenant_pool_usage tenant_outstanding outstanding outstanding_ordinary
    outstanding_recovery outstanding_uninterruptible class_counts] in HM.
  change (grant_class r') with (grant_class r) in HM. rewrite !Z.sub_add, (insert_restores _ _ _ _ Htc), (insert_restores _ _ _ _ Hk), !list_insert_insert_eq in HM.
  destruct (counts st) as [? ? ? ? ? ?]. apply HM; rewrite ?list_lookup_insert_eq by done; try done.
  - intros d. specialize (Htot d). cbn [regrant gr_amounts r']. lia.
  - intros d. specialize (Hten d). cbn [regrant gr_amounts r']. lia.
  - intros p d. destruct (Hpool p d) as [-> _]. rewrite Hcharge. lia.
  - intros p d. destruct (Htpool p d) as [-> _]. rewrite Hcharge. lia.
Qed.

(** What the plan of an ordinary resize guarantees: it shrinks the charge in place, or the new
    amounts fit what is left without the old ones. *)
Definition shrunk (r : GrantRecord) (cp : OrdinaryPool) (new : ResourceAmounts) (c : PoolCharge) : Prop :=
  new ⊑r gr_amounts r /\ pch_shared c ⊑r gr_shared r /\ forall d, get (pch_protected c) d <= m_protected d r.
Definition grown (g : GovernorInner) (st : AccountingState) (r : GrantRecord) (pool' : PoolCapacities) (new : ResourceAmounts) (c : PoolCharge) : Prop :=
  (forall d, get (total_usage (usage st)) d - get (gr_amounts r) d - get (recovery_usage (usage st)) d + get new d
     + get (ru_shared (recovery_pool_usage (usage st))) d <= get (ordinary_ceiling g) d)
  /\ forall p d, get (pool_get (charge_capacities c) p) d <= Z.max 0 (get (pool_get (pool_capacities g) p) d - get (pool_get pool' p) d).

Lemma plan_ordinary_resize_ok g class new view c : (forall d, 0 <= get new d) -> plan_ordinary_resize g class new view = Ok c ->
  (exists cp, for_class class = Some cp /\ Split cp new c)
  /\ (forall d, get (rv_total_without view) d - get (rv_recovery_usage view) d + get new d + get (rv_recovery_shared_usage view) d <= get (ordinary_ceiling g) d)
  /\ forall p d, get (pool_get (charge_capacities c) p) d <= Z.max 0 (get (pool_get (pool_capacities g) p) d - get (pool_get (rv_pool_without view) p) d).
Proof.
  intros Hnew. unfold plan_ordinary_resize. case_bool_decide; [done|]. bind_step ord Hord. bind_step u1 H1. bind_step u2 H2. bind_step u3 H3. bind_step sh Hsh.
  intros Hp%plan_pool_charge_spec. apply ok_or_Ok in Hord. rewrite amounts_sub_Some in Hord. destruct u1. pose proof (refuse_ordinary_capacity_ok _ _ _ H1) as Hcap.
  cbn [oc_ordinary_usage oc_recovery_shared_usage oc_ordinary_ceiling] in Hcap. split; [|split].
  - exists (pch_class_pool c). split; [apply Hp|]. split; [done|apply Hp|..]; intros d; apply (pp_nonneg _ _ _ _ Hp d (Hnew d)).
  - intros d. specialize (Hcap d). specialize (Hord d). lia.
  - apply Hp.
Qed.

Lemma plan_resize_ok n g st req r i cp a tp tp' pool' k tc c : wf_record n r -> OrdinaryParts st r i cp a tp tp' pool' k tc ->
  rq_old req = gr_amounts r -> (forall d, 0 <= get (rq_new req) d) ->
  plan_resize g st req i (grant_class r) (record_charge r cp) (without_ordinary st r a tp' pool') = Ok c ->
  Split cp (rq_new req) c /\ (shrunk r cp (rq_new req) c \/ grown g st r pool' (rq_new req) c).
Proof.
  intros Hw HP Hold Hnew. unfold plan_resize. cbv zeta. rewrite Hold. destruct (is_at_most _ _) eqn:Hle.
  - apply is_at_most_spec in Hle. destruct (shrink_to_ok cp (gr_amounts r) (rq_new req) (record_charge r cp)) as (c' & -> & HS & H1 & H2).
    { by eapply record_charge_split. } { intros d. specialize (Hle d). specialize (Hnew d). lia. }
    intros [= <-]. split; [done|]. left. split; [done|]. split; [done|]. intros d. specialize (H2 d). cbn [record_charge pch_protected] in H2. by rewrite get_zip_map in H2.
  - intros H%map_err_Ok. revert H. bind_step u1 H1. bind_step u2 H2. bind_step x1 Hx1. bind_step x2 Hx2. bind_step x3 Hx3. bind_step x4 Hx4.
    intros Hp. apply (plan_ordinary_resize_ok g _ _ _ _ Hnew) in Hp as ((cp' & Hcp & HS) & Hcap & Hpool).
    rewrite (op_class_pool _ _ _ _ _ _ _ _ _ _ HP) in Hcp. injection Hcp as <-. split; [done|]. right. split; [|done].
    intros d. specialize (Hcap d). cbn [rv_total_without rv_recovery_usage rv_recovery_shared_usage without_ordinary ow_total] in Hcap. rewrite get_zip_map in Hcap. lia.
Qed.

(** The reservation is gone after this failure. An ordinary resize that fails internally reports
    its reservation as cancelled although it stays charged. *)
Definition surrendered (h : ResourceReservation) (f : ResizeFailure) : bool :=
  bool_decide (rf_disposition f = CancelledBeforeLimit)
  && match res_identity h with IdentityOrdinary _ _ _ => bool_decide (rf_code f = AdmissionRefused) | IdentityRecovery _ _ => true end.

(** A failed resize left everything as it was, or fenced the governor. *)
Definition Untouched (l l' : Live) : Prop := l' = l \/ l' = fence_state l.

Lemma untouched_same l l' : Untouched l l' -> SameBooks l l'.
Proof. intros [->| ->]; [apply same_books_refl|apply same_books_fence, same_books_refl]. Qed.

(** The outcome of a resize of the handle [h]. A reservation that stays charged is reported as
    cancelled only by a governor that is fenced from then on. *)
Definition resized (n : nat) (g : GovernorInner) (h : ResourceReservation) (new : ResourceAmounts) (l l' : Live)
    (r : result ResizeFailure ResizeCommit) : Prop :=
  match r with
  | Ok commit => exists r', Replaced (res_slot h) r' l l' /\ holds (resized_handle h (rc_owner commit) new) r' /\ Inv n l'
      /\ rc_outcome commit = resize_outcome (res_amounts h) new
      /\ (Capacities g -> Within g (usage (lv_state l)) -> Within g (usage (lv_state l')))
  | Err f => if surrendered h f then Inv n l' /\ Frame (res_slot h) l l'
      else Untouched l l' /\ (rf_disposition f = CancelledBeforeLimit -> l' = fence_state l /\ rf_code f = ResizeInternalFenced)
  end.

(** A step that fences instead of going on keeps the books. *)
Lemma resized_or_fence {A} n g h new l class (o : option A) (k : A -> Rsz ResizeCommit) :
  (forall a, o = Some a -> resized n g h new l (k a l).1 (k a l).2) ->
  resized n g h new l ((or_fence_resize class o ≫= k) l).1 ((or_fence_resize class o ≫= k) l).2.
Proof.
  intros Hk. destruct o as [a|]; cbn; [by apply Hk|]. by split; [right|].
Qed.

Lemma within_resized g st r i cp a tp tp' pool' k tc new c total tenant pool tpool :
  OrdinaryParts st r i cp a tp tp' pool' k tc -> (forall p d, 0 <= m_pool p d r) -> Split cp new c -> grant_is_ordinary r = true ->
  shrunk r cp new c \/ grown g st r pool' new c ->
  amounts_add (zip_map Z.sub (total_usage (usage st)) (gr_amounts r)) new = Some total -> pools_add pool' (charge_capacities c) = Some pool ->
  (forall d, 0 <= get (ru_shared (recovery_pool_usage (usage st))) d) ->
  Capacities g -> Within g (usage st) -> Within g (resized_usage (usage st) i total tenant pool tpool).
Proof.
  intros HP Hnn HS Ho Hfit Htot Hpool Hrs Hca HW. rewrite amounts_add_Some in Htot. rewrite pools_add_Some in Hpool.
  assert (Ht : forall d, get total d = get (total_usage (usage st)) d - get (gr_amounts r) d + get new d).
  { intros d. destruct (Htot d) as [-> _]. by rewrite get_zip_map. }
  split; cbn [resized_usage total_usage recovery_usage recovery_pool_usage pool_usage].
  - intros d. rewrite Ht. specialize (Hrs d). pose proof (wi_ordinary _ _ HW d). destruct Hfit as [[Hle _]|[Hle _]]; specialize (Hle d); lia.
  - intros d. rewrite Ht. pose proof (wi_shared _ _ HW d). pose proof (ca_ordinary _ Hca d). destruct Hfit as [[Hle _]|[Hle _]]; specialize (Hle d); lia.
  - apply HW.
  - intros p d. destruct (Hpool p d) as [-> _]. pose proof (wi_pool _ _ HW p d) as Hwp. rewrite (op_global_left _ _ _ _ _ _ _ _ _ _ HP).
    pose proof (Hnn p d). destruct Hfit as [(_ & Hs & Hp)|[_ Hfit]].
    + assert (get (pool_get (charge_capacities c) p) d <= m_pool p d r); [|lia].
      pose proof (for_class_not_shared _ _ (op_class_pool _ _ _ _ _ _ _ _ _ _ HP)) as Hns.
      rewrite get_charge_capacities by (rewrite (sp_pool _ _ _ HS); done). rewrite (sp_pool _ _ _ HS).
      rewrite <- (op_charge _ _ _ _ _ _ _ _ _ _ HP), get_charge_capacities by done. cbn [record_charge pch_shared pch_protected pch_class_pool].
      rewrite get_zip_map. specialize (Hs d). specialize (Hp d). unfold m_protected in Hp. repeat case_decide; lia.
    + specialize (Hfit p d). rewrite (op_global_left _ _ _ _ _ _ _ _ _ _ HP) in Hfit. pose proof (ca_pools _ Hca p d). lia.
Qed.

(** No measure of use exceeds the total. *)
Lemma rsum_le_total n l f d : Inv n l -> (forall r, wf_record n r -> f r <= m_total d r) ->
  rsum f (grant_records (grants (lv_state l))) <= get (total_usage (usage (lv_state l))) d.
Proof.
  intros HI Hf. rewrite (cs_total _ _ _ (inv_conserved _ _ HI)). unfold rsum. apply zsum_le.
  intros [x|] Hx; cbn; [|lia]. apply list_elem_of_lookup in Hx as [s Hs]. by apply Hf, (oo_wf _ _ (inv_ops _ _ HI) s).
Qed.

Lemma pool_le_total n p d r : wf_record n r -> m_pool p d r <= m_total d r.
Proof. intros Hx. unfold m_pool, m_shared, m_protected, m_total, when. pose proof (wf_shared _ _ Hx d). repeat case_match; lia. Qed.

(** A shrunk charge takes no more of any pool. *)
Lemma shrunk_charge st r i cp a tp tp' pool' k tc new c : OrdinaryParts st r i cp a tp tp' pool' k tc -> Split cp new c ->
  pch_shared c ⊑r pch_shared (record_charge r cp) -> pch_protected c ⊑r pch_protected (record_charge r cp) ->
  forall p d, get (pool_get (charge_capacities c) p) d <= m_pool p d r.
Proof.
  intros HP HS Hs1 Hs2 p d. rewrite <- (op_charge _ _ _ _ _ _ _ _ _ _ HP). pose proof (for_class_not_shared _ _ (op_class_pool _ _ _ _ _ _ _ _ _ _ HP)) as Hns.
  rewrite !get_charge_capacities by (rewrite ?(sp_pool _ _ _ HS); done). rewrite (sp_pool _ _ _ HS).
  specialize (Hs1 d). specialize (Hs2 d). cbn [record_charge pch_class_pool]. repeat case_decide; lia.
Qed.

(** A failed plan says whether the reservation is to be given up. *)
Lemma plan_resize_err g st req i class c w f : plan_resize g st req i class c w = Err f ->
  (rf_code f = AdmissionRefused -> rf_disposition f = if rq_preserve_existing req then CapacityRetained else CancelledBeforeLimit)
  /\ (rq_preserve_existing req = true -> rf_disposition f = CapacityRetained).
Proof.
  unfold plan_resize. cbv zeta. destruct (is_at_most _ _).
  - destruct (shrink_to _ _); [done|]. by intros [= <-].
  - destruct (mbind _ _) as [?|e]; [done|]. intros [= <-]. cbn. split; [done|]. by intros ->.
Qed.

Lemma plan_resize_code g st req i class c w f : plan_resize g st req i class c w = Err f -> rf_code f = AdmissionRefused \/ rf_code f = ResizeInternalFenced.
Proof.
  unfold plan_resize. cbv zeta. destruct (is_at_most _ _).
  - destruct (shrink_to _ _); [done|]. intros [= <-]. cbn. case_bool_decide; auto.
  - destruct (mbind _ _) as [?|e]; [done|]. intros [= <-]. cbn. case_bool_decide; auto.
Qed.

Section resizing.
Context (n : nat) (g : GovernorInner) (h : ResourceReservation) (new : ResourceAmounts) (preserve : bool).
Context (Hnew : forall d, 0 <= get new d).

(** The request that a handle makes. *)
Definition request : ResizeRequest := mkResizeRequest (res_slot h) (res_owner h) (res_identity h) (res_amounts h) new preserve.

(** With its candidates in range the commit replaces the record and its charge. *)
Lemma commit_ordinary_resize_run l r i cp a tp tp' pool' k tc c total tenant pool tpool :
  wf_record n r -> grant_records (grants (lv_state l)) !! res_slot h = Some (Some r) -> charged r = true -> holds h r -> grant_is_ordinary r = true ->
  slot_signals (lv_drops l) !! res_slot h = Some SLOT_ACTIVE -> OrdinaryParts (lv_state l) r i cp a tp tp' pool' k tc -> Split cp new c ->
  let w := without_ordinary (lv_state l) r a tp' pool' in
  amounts_add (ow_total w) new = Some total -> amounts_add (ow_tenant w) new = Some tenant ->
  pools_add (ow_pool w) (charge_capacities c) = Some pool -> pools_add (ow_tenant_pool w) (charge_capacities c) = Some tpool ->
  exists l', commit_ordinary_resize request i (grant_class r) w c l
      = (l', Ok (mkResizeCommit (mkOwner (AttrOrdinary i) (Some c) None) (resize_outcome (res_amounts h) new)))
    /\ Replaced (res_slot h) (regrant r new (pch_shared c)) l l'
    /\ holds (resized_handle h (mkOwner (AttrOrdinary i) (Some c) None) new) (regrant r new (pch_shared c))
    /\ usage (lv_state l') = resized_usage (usage (lv_state l)) i total tenant pool tpool /\ counts (lv_state l') = counts (lv_state l).
Proof.
  intros Hw Hr Hch Hh Ho Hact HP HS w Htot Hten Hpool Htpool.
  destruct (replaced_ordinary n r h i cp new c Hw Hh (op_index _ _ _ _ _ _ _ _ _ _ HP) Ho) as [Hrep Hh'].
  specialize (Hh' (op_class_pool _ _ _ _ _ _ _ _ _ _ HP) HS).
  assert (Howner : res_owner h = mkOwner (AttrOrdinary i) (Some (record_charge r cp)) None).
  { destruct Hh as (_ & _ & Hown & _). rewrite (op_owner _ _ _ _ _ _ _ _ _ _ HP) in Hown. by injection Hown as <-. }
  unfold commit_ordinary_resize. cbv zeta. cbn [request rq_slot rq_owner rq_identity rq_new rq_old]. rsz_need Htot. rsz_need Hten. rsz_need Hpool. rsz_need Htpool.
  rsz_store (op_usage _ _ _ _ _ _ _ _ _ _ HP). rsz_store (op_pool_usage _ _ _ _ _ _ _ _ _ _ HP). rsz_step.
  rewrite Howner. cbn [co_attribution].
  unfold mbind at 1, Rsz_bind at 1, rsz_succeeds, replace_slot_record, slot_is_active. cbn [set_state lv_drops lv_state].
  rewrite bool_decide_eq_true_2 by done. cbn [negb].
  match goal with |- context [record_at ?s (res_slot h)] => rewrite (record_at_some s _ r Hr) end. cbn [mbind option_bind]. rewrite Hrep.
  eexists. split; [reflexivity|]. split; [done|]. split; [exact Hh'|]. done.
Qed.

Lemma commit_ordinary_resize_ok l r i cp a tp tp' pool' k tc c :
  Inv n l -> grant_records (grants (lv_state l)) !! res_slot h = Some (Some r) -> charged r = true -> holds h r -> grant_is_ordinary r = true ->
  slot_signals (lv_drops l) !! res_slot h = Some SLOT_ACTIVE -> OrdinaryParts (lv_state l) r i cp a tp tp' pool' k tc -> Split cp new c ->
  shrunk r cp new c \/ grown g (lv_state l) r pool' new c ->
  let m := commit_ordinary_resize request i (grant_class r) (without_ordinary (lv_state l) r a tp' pool') c in
  resized n g h new l (m l).1 (m l).2.
Proof.
  intros HI Hr Hch Hh Ho Hact HP HS Hfit m. pose proof (oo_wf _ _ (inv_ops _ _ HI) _ r Hr) as Hw.
  destruct (amounts_add (ow_total (without_ordinary (lv_state l) r a tp' pool')) new) as [total|] eqn:Htot;
    [|subst m; unfold commit_ordinary_resize; cbv zeta; apply resized_or_fence; intros ? ?; simplify_eq/=; congruence].
  destruct (amounts_add (ow_tenant (without_ordinary (lv_state l) r a tp' pool')) new) as [tenant|] eqn:Hten;
    [|subst m; unfold commit_ordinary_resize; cbv zeta; do 2 (apply resized_or_fence; intros ? ?); simplify_eq/=; congruence].
  destruct (pools_add (ow_pool (without_ordinary (lv_state l) r a tp' pool')) (charge_capacities c)) as [pool|] eqn:Hpool;
    [|subst m; unfold commit_ordinary_resize; cbv zeta; do 3 (apply resized_or_fence; intros ? ?); simplify_eq/=; congruence].
  destruct (pools_add (ow_tenant_pool (without_ordinary (lv_state l) r a tp' pool')) (charge_capacities c)) as [tpool|] eqn:Htpool;
    [|subst m; unfold commit_ordinary_resize; cbv zeta; do 4 (apply resized_or_fence; intros ? ?); simplify_eq/=; congruence].
  destruct (commit_ordinary_resize_run l r i cp a tp tp' pool' k tc c total tenant pool tpool Hw Hr Hch Hh Ho Hact HP HS Htot Hten Hpool Htpool)
    as (l' & Hrun & HR & Hh' & Hu & Hc). subst m. rewrite Hrun. cbn [fst snd resized rc_owner rc_outcome].
  exists (regrant r new (pch_shared c)). split; [done|]. split; [done|]. split; [|split; [done|]].
  - eapply (replaced_inv n l l' (res_slot h) r); [done|done|by eapply ordinary_without_moved|rewrite Hu, Hc; by eapply (resized_moved n (lv_state l) r)| |done| |done].
    + rewrite Hu, Hc. destruct (inv_shaped _ _ HI). split; cbn; by rewrite ?length_insert.
    + apply regrant_wf; [done..|]. intros d. pose proof (sp_sum _ _ _ HS d). pose proof (sp_shared _ _ _ HS d). pose proof (sp_protected _ _ _ HS d). lia.
  - rewrite Hu. eapply (within_resized g (lv_state l)); [exact HP| |done..|]; [|intros d; by apply (rshared_nonneg n)].
    intros p d. by apply (nonneg_pool p d n).
Qed.

(** The body of the locked resize, once the charge of the old amounts is taken out. *)
Definition resize_planned (st : AccountingState) (r : GrantRecord) (i : nat) (cp : OrdinaryPool) (w : OrdinaryWithout) : Rsz ResizeCommit :=
  match plan_resize g st request i (grant_class r) (record_charge r cp) w with
  | Ok c => commit_ordinary_resize request i (grant_class r) w c
  | Err f =>
      if bool_decide (rf_code f = AdmissionRefused) && negb preserve then _ ← cancel_ordinary_resize request i (grant_class r) w; rsz_fail f
      else _ ← rsz_modify (fun st => if bool_decide (rf_code f = ResizeInternalFenced) then set_lifecycle st Fenced else st); rsz_fail f
  end.

Lemma resize_ordinary_locked_run l r i :
  Inv n l -> grant_records (grants (lv_state l)) !! res_slot h = Some (Some r) -> charged r = true -> holds h r ->
  co_attribution (res_owner h) = AttrOrdinary i -> (exists t p kind, res_identity h = IdentityOrdinary t p kind) ->
  grant_is_ordinary r = true /\ exists cp a tp tp' pool' k tc, OrdinaryParts (lv_state l) r i cp a tp tp' pool' k tc
    /\ (lifecycle (lv_state l) <> Fenced ->
        resize_ordinary_locked g request i (identity_class (res_identity h)) l
        = resize_planned (lv_state l) r i cp (without_ordinary (lv_state l) r a tp' pool') l).
Proof.
  intros HI Hr Hch Hh Hattr (t & p & kind & Hid). pose proof (oo_wf _ _ (inv_ops _ _ HI) _ r Hr) as Hw.
  pose proof (conserved_releasable n _ _ r _ _ (inv_conserved _ _ HI) (oo_wf _ _ (inv_ops _ _ HI)) Hr Hch) as Hrl.
  destruct Hh as (Ha & _ & Hown & Hcl & Hk). rewrite Hid in Hk.
  assert (Ho : grant_is_ordinary r = true) by (destruct Hk as (_ & Hk & _); unfold grant_is_ordinary; rewrite Hk; by destruct kind).
  split; [done|]. destruct (ordinary_parts_ok n (lv_state l) r (inv_shaped _ _ HI) Hw Hrl Ho) as (i' & cp & a & tp & tp' & pool' & k & tc & HP).
  rewrite (op_owner _ _ _ _ _ _ _ _ _ _ HP) in Hown. injection Hown as Howner. rewrite <- Howner in Hattr. cbn in Hattr. injection Hattr as ->.
  exists cp, a, tp, tp', pool', k, tc. split; [done|]. intros Hopen. rewrite <- Hcl.
  unfold resize_ordinary_locked. rsz_step. rewrite bool_decide_eq_false_2 by done. cbv zeta.
  cbn [request rq_owner rq_old]. rewrite <- Howner. cbn [co_pools]. rsz_step. rewrite Ha. rsz_need (amounts_sub_ok _ _ (op_total_le _ _ _ _ _ _ _ _ _ _ HP)).
  rewrite (op_usage _ _ _ _ _ _ _ _ _ _ HP). cbn [mbind option_bind]. rsz_need (amounts_sub_ok _ _ (op_usage_le _ _ _ _ _ _ _ _ _ _ HP)).
  rsz_need (op_global_sub _ _ _ _ _ _ _ _ _ _ HP). rewrite (op_pool_usage _ _ _ _ _ _ _ _ _ _ HP). cbn [mbind option_bind].
  rsz_need (op_pool_sub _ _ _ _ _ _ _ _ _ _ HP). unfold resize_planned, without_ordinary. unfold request. rewrite <- Howner. reflexivity.
Qed.

Lemma resize_ordinary_locked_ok l r i class :
  Inv n l -> grant_records (grants (lv_state l)) !! res_slot h = Some (Some r) -> charged r = true -> holds h r ->
  slot_signals (lv_drops l) !! res_slot h = Some SLOT_ACTIVE -> co_attribution (res_owner h) = AttrOrdinary i ->
  (exists t p kind, res_identity h = IdentityOrdinary t p kind) -> class = identity_class (res_identity h) ->
  let m := resize_ordinary_locked g request i class in resized n g h new l (m l).1 (m l).2.
Proof.
  intros HI Hr Hch Hh Hact Hattr Hid -> m. subst m. destruct (decide (lifecycle (lv_state l) = Fenced)) as [Hf|Hf].
  { unfold resize_ordinary_locked. rsz_step. rewrite bool_decide_eq_true_2 by done. cbn [fst snd resized]. by split; [left|]. }
  destruct (resize_ordinary_locked_run l r i HI Hr Hch Hh Hattr Hid) as (Ho & cp & a & tp & tp' & pool' & k & tc & HP & Hrun). rewrite (Hrun Hf). clear Hrun.
  pose proof (oo_wf _ _ (inv_ops _ _ HI) _ r Hr) as Hw. destruct Hid as (t & p & kind & Hid). unfold resize_planned.
  destruct (plan_resize g (lv_state l) request i (grant_class r) (record_charge r cp) (without_ordinary (lv_state l) r a tp' pool')) as [c|f] eqn:Hplan.
  - apply (plan_resize_ok n) with (1 := Hw) (2 := HP) in Hplan as [HS Hfit]; [|apply Hh|done]. by eapply commit_ordinary_resize_ok.
  - destruct (bool_decide (rf_code f = AdmissionRefused) && negb preserve) eqn:Hcancel.
    + apply andb_true_iff in Hcancel as [Hcode%bool_decide_eq_true Hpres%negb_true_iff].
      destruct (cancel_ordinary_ok n l request r i cp a tp tp' pool' k tc HI Hr Hch Ho HP) as (l' & Hrun & HI' & HF).
      rewrite (rsz_bind_ok _ _ _ _ _ Hrun). cbn [rsz_fail fst snd resized].
      apply plan_resize_err in Hplan as [Hdisp _]. cbn [request rq_preserve_existing] in Hdisp. rewrite Hpres in Hdisp. specialize (Hdisp Hcode).
      unfold surrendered. rewrite Hid, Hcode, Hdisp. by rewrite !bool_decide_eq_true_2 by done.
    + rsz_step. cbn [rsz_fail fst snd resized].
      assert (Hns : surrendered h f = false).
      { unfold surrendered. rewrite Hid. apply andb_false_iff in Hcancel as [->|Hpres%negb_false_iff]; [by rewrite andb_false_r|].
        apply plan_resize_err in Hplan as [_ Hdisp]. by rewrite (Hdisp Hpres). }
      rewrite Hns. destruct (bool_decide (rf_code f = ResizeInternalFenced)) eqn:Hcode; [apply bool_decide_eq_true in Hcode; by split; [right|]|]. apply bool_decide_eq_false in Hcode. split; [left; by destruct l|]. intros Hd.
      destruct (plan_resize_code _ _ _ _ _ _ _ _ Hplan) as [Hc|]; [|done]. unfold surrendered in Hns. rewrite Hid, Hc, Hd in Hns. by rewrite !bool_decide_eq_true_2 in Hns by done.
Qed.

(** Shrinking never fails: what it asks for is part of what is already charged. *)
Lemma shrink_ordinary_locked_run l r i :
  Inv n l -> grant_records (grants (lv_state l)) !! res_slot h = Some (Some r) -> charged r = true -> holds h r ->
  slot_signals (lv_drops l) !! res_slot h = Some SLOT_ACTIVE -> co_attribution (res_owner h) = AttrOrdinary i ->
  (exists t p kind, res_identity h = IdentityOrdinary t p kind) -> lifecycle (lv_state l) <> Fenced ->
  new ⊑r res_amounts h -> (forall d, get (total_usage (usage (lv_state l))) d <= u64_max) ->
  exists l' commit, resize_ordinary_locked g request i (identity_class (res_identity h)) l = (l', Ok commit).
Proof.
  intros HI Hr Hch Hh Hact Hattr Hid Hopen Hle Hmax. assert (Ha : res_amounts h = gr_amounts r) by apply Hh.
  destruct (resize_ordinary_locked_run l r i HI Hr Hch Hh Hattr Hid) as (Ho & cp & a & tp & tp' & pool' & k & tc & HP & Hrun). rewrite (Hrun Hopen). clear Hrun.
  pose proof (oo_wf _ _ (inv_ops _ _ HI) _ r Hr) as Hw. unfold resize_planned, plan_resize. cbv zeta. cbn [request rq_new rq_old].
  rewrite (proj2 (is_at_most_spec _ _) Hle).
  destruct (shrink_to_ok cp (gr_amounts r) new (record_charge r cp)) as (c & -> & HS & Hs1 & Hs2).
  { by eapply record_charge_split. } { intros d. specialize (Hle d). rewrite Ha in Hle. specialize (Hnew d). lia. }
  cbn [ok_or].
  pose proof (inv_conserved _ _ HI) as HC. pose proof (oo_wf _ _ (inv_ops _ _ HI)) as Hwf.
  pose proof (shrunk_charge (lv_state l) r i cp a tp tp' pool' k tc new c HP HS Hs1 Hs2) as Hcharge.
  assert (Htot : forall f d, (forall r, wf_record n r -> f r <= m_total d r) -> rsum f (grant_records (grants (lv_state l))) <= u64_max)
    by (intros f d Hf; etransitivity; [by apply (rsum_le_total n l f d)|apply Hmax]).
  destruct (amounts_add (zip_map Z.sub (total_usage (usage (lv_state l))) (gr_amounts r)) new) as [total|] eqn:H1.
  2:{ rewrite amounts_add_ok in H1; [done|]. intros d. rewrite get_zip_map. specialize (Hmax d). specialize (Hle d). rewrite Ha in Hle. lia. }
  destruct (amounts_add (zip_map Z.sub a (gr_amounts r)) new) as [tenant|] eqn:H2.
  2:{ rewrite amounts_add_ok in H2; [done|]. intros d. rewrite get_zip_map. specialize (Hle d). rewrite Ha in Hle.
      rewrite (cs_tenant _ _ _ HC i a d (op_usage _ _ _ _ _ _ _ _ _ _ HP)). assert (rsum (m_tenant i d) (grant_records (grants (lv_state l))) <= u64_max); [|lia].
      apply (Htot _ d). intros x Hx. unfold m_tenant, m_total, when. pose proof (wf_shared _ _ Hx d). case_match; lia. }
  destruct (pools_add pool' (charge_capacities c)) as [pool|] eqn:H3.
  2:{ destruct (pools_add_ok pool' (charge_capacities c)) as (x & Hx); [|congruence]. intros p d. rewrite (op_global_left _ _ _ _ _ _ _ _ _ _ HP).
      specialize (Hcharge p d). rewrite (cs_pool _ _ _ HC). assert (rsum (m_pool p d) (grant_records (grants (lv_state l))) <= u64_max); [|lia].
      apply (Htot _ d). by apply pool_le_total. }
  destruct (pools_add tp' (charge_capacities c)) as [tpool|] eqn:H4.
  2:{ destruct (pools_add_ok tp' (charge_capacities c)) as (x & Hx); [|congruence]. intros p d. rewrite (op_pool_left _ _ _ _ _ _ _ _ _ _ HP).
      specialize (Hcharge p d). rewrite (cs_tenant_pool _ _ _ HC i tp p d (op_pool_usage _ _ _ _ _ _ _ _ _ _ HP)).
      assert (rsum (m_tenant_pool i p d) (grant_records (grants (lv_state l))) <= u64_max); [|lia]. apply (Htot _ d). intros y Hy. unfold m_tenant_pool, when at 1.
      pose proof (pool_le_total n p d y Hy). pose proof (nonneg_total d n y Hy). case_match; lia. }
  destruct (commit_ordinary_resize_run l r i cp a tp tp' pool' k tc c total tenant pool tpool Hw Hr Hch Hh Ho Hact HP HS H1 H2 H3 H4) as (l' & Hrun & _). eauto.
Qed.
End resizing.

(** ** Recovery work *)

(** A charge that splits amounts over the shared capacity and the pool of a kind. *)
Record RecoverySplit (k : RecoveryWorkKind) (amounts : ResourceAmounts) (c : RecoveryPoolCharge) : Prop := {
  rs_kind : rch_kind c = k;
  rs_sum d : get (rch_shared c) d + get (rch_protected c) d = get amounts d;
  rs_shared d : 0 <= get (rch_shared c) d;
  rs_protected d : 0 <= get (rch_protected c) d;
}.

(** What remains without a recovery grant, and the candidates for the new amounts. *)
Record WithoutRecovery (st : AccountingState) (r : GrantRecord) (new : ResourceAmounts) (pool' v' : RecoveryPoolUsage)
    (ta : option ResourceAmounts) (w : RecoveryWithout) : Prop := {
  wr_total : rw_total w = zip_map Z.sub (total_usage (usage st)) (gr_amounts r);
  wr_recovery : rw_recovery w = zip_map Z.sub (recovery_usage (usage st)) (gr_amounts r);
  wr_ordinary d : get (rw_ordinary w) d = get (total_usage (usage st)) d - get (recovery_usage (usage st)) d;
  wr_candidate : amounts_add (rw_recovery w) new = Some (rw_recovery_candidate w);
  wr_pool : rw_pool w = pool';
  wr_scope : rw_scope w = v';
  wr_tenant : rw_tenant w = (fun a => zip_map Z.sub a (gr_amounts r)) <$> ta;
  wr_tenant_candidate : match ta, rw_tenant_candidate w with
    | Some a, Some a' => amounts_add (zip_map Z.sub a (gr_amounts r)) new = Some a' | None, None => True | _, _ => False end;
}.

Lemma replaced_recovery n r h k new c : wf_record n r -> holds h r -> grant_recovery_kind r = Some k ->
  let owner := mkOwner (AttrRecovery (grant_tenant_index r)) None (Some c) in
  replaced r owner (res_identity h) new = Some (regrant r new (rch_shared c)) /\
  (RecoverySplit k new c -> holds (resized_handle h owner new) (regrant r new (rch_shared c))).
Proof.
  intros Hw (Ha & Hact & Hown & Hcl & Hid) Hk owner. destruct (res_identity h) as [t p kind|scope kind] eqn:Hident.
  { destruct Hid as (_ & Hkk & _). unfold grant_recovery_kind in Hk. rewrite Hkk in Hk. by destruct kind. }
  destruct Hid as (_ & Hkk & Ht & Hp). assert (kind = k) as -> by (unfold grant_recovery_kind in Hk; rewrite Hkk in Hk; destruct kind; by injection Hk).
  assert (Hix : match grant_tenant_index r with Some i => to_u16 i | None => Some SYSTEM_TENANT_INDEX end = Some (gr_tenant_index r)).
  { destruct (grant_tenant_index r) as [i|] eqn:Hi; [by eapply grant_index_inv|]. unfold grant_tenant_index in Hi.
    destruct (gr_tenant_index r =? SYSTEM_TENANT_INDEX) eqn:He; [|done]. apply Z.eqb_eq in He. by rewrite He. }
  split.
  - unfold replaced, GrantRecord_new. cbn [owner co_attribution co_recovery_pools]. rewrite Hix. cbn [mbind option_bind gr_kind gr_tenant_index gr_tenant gr_principal].
    rewrite Hkk, Ht, Hp. rewrite !bool_decide_eq_true_2 by done. cbn [andb]. unfold regrant. by rewrite Hkk, Ht, Hp.
  - intros HS. unfold holds. cbn [resized_handle res_amounts res_active res_owner res_identity]. rewrite Hident.
    split; [done|]. split; [done|]. split; [|by split_and!; [|eexists|..]].
    unfold grant_owner. cbn [regrant gr_amounts gr_shared gr_kind]. rewrite amounts_sub_ok.
    2:{ intros d. pose proof (rs_sum _ _ _ HS d). pose proof (rs_protected _ _ _ HS d). lia. }
    cbn [mbind option_bind]. assert (Hok : ordinary_kind (gr_kind r) = None /\ recovery_kind (gr_kind r) = Some k) by (rewrite Hkk; by destruct k).
    destruct Hok as [-> ->]. cbn [mbind option_bind]. change (grant_tenant_index (regrant r new (rch_shared c))) with (grant_tenant_index r).
    unfold owner. do 3 f_equal. destruct c as [k' sh pr]. destruct HS as [Hk' Hsum _ _]. cbn [rch_kind rch_shared rch_protected] in *. f_equal; [done|].
    apply amounts_ext. intros d. rewrite get_zip_map. specialize (Hsum d). lia.
Qed.

Lemma cancel_recovery_ok n l req r k pool' v v' ta kc tc new w :
  Inv n l -> grant_records (grants (lv_state l)) !! rq_slot req = Some (Some r) -> charged r = true -> grant_is_ordinary r = false ->
  retains_capacity k = false -> RecoveryParts (lv_state l) r k pool' v v' ta kc tc -> WithoutRecovery (lv_state l) r new pool' v' ta w ->
  exists l', cancel_recovery_resize req (grant_tenant_index r) w l = (l', Ok tt) /\ Inv n l' /\ Frame (rq_slot req) l l'.
Proof.
  intros HI Hr Hch Ho Hret HP HW. destruct (release_slot_ok n l (rq_slot req) r HI Hr Hch) as (l' & Hrel & HI' & HF). exists l'. split; [|done].
  pose proof (release_recovery_exact (lv_state l) false r k pool' v v' ta kc tc Ho HP) as Hex.
  pose proof (wf_recovery _ _ (oo_wf _ _ (inv_ops _ _ HI) _ r Hr) Ho) as Hop.
  pose proof (finish_cancelled_released DurabilityRecovery l (rq_slot req) r _ l' _ (record_at_some _ _ _ Hr) Hex eq_refl eq_refl Hrel) as Hfin.
  unfold finish_cancelled in Hfin. rewrite (rsz_bind_ok _ _ _ _ _ eq_refl) in Hfin.
  match type of Hfin with context [record_at ?s _] => rewrite (record_at_some s _ r Hr) in Hfin end.
  rewrite (rsz_bind_ok _ _ _ _ _ eq_refl), Hop in Hfin. unfold recovery_counts_without in Hfin. rewrite Hret in Hfin.
  assert (Hcl : class_index DurabilityRecovery = class_index (grant_class r)).
  { unfold grant_class. by destruct (recovery_record_kind r Ho) as [-> _]. }
  destruct HP as [? ? _ _ _ _ Hv _ _ Hta Htc Hkc Hk1 Hout Hrec _]. destruct HW as [Hwt Hwr _ _ Hwp Hws Hwta _].
  unfold cancel_recovery_resize. rsz_step. rewrite !checked_sub_ok by lia. do 2 rsz_step. unfold recovery_usage_without in Hfin.
  rewrite Hcl. destruct (grant_tenant_index r) as [i|] eqn:Hi.
  - destruct ta as [a|], tc as [t|]; try done. destruct Hta as [Ha _], Htc as [Ht Ht1]. cbn [fmap option_fmap option_map]. rewrite Ht. cbn [mbind option_bind].
    rewrite (checked_sub_ok _ _ Ht1). cbn [transpose_option]. rsz_step. rewrite Hkc. cbn [mbind option_bind]. rsz_need (checked_sub_ok _ _ Hk1). rsz_step.
    rewrite Hwta, Hwt, Hwr, Hwp, Hws. cbn [fmap option_fmap option_map when_tenant replace_scope]. rsz_store Ha. rsz_store Hv. rsz_step. rsz_store Hkc. rsz_store Ht. exact Hfin.
  - destruct ta as [a|], tc as [t|]; try done. cbn [fmap option_fmap option_map transpose_option]. rsz_step. rewrite Hkc. cbn [mbind option_bind].
    rsz_need (checked_sub_ok _ _ Hk1). rsz_step. rewrite Hwta, Hwt, Hwr, Hwp, Hws. cbn [fmap option_fmap option_map when_tenant replace_scope]. do 3 rsz_step. rsz_store Hkc. rsz_step. exact Hfin.
Qed.

(** The totals after the commit of a recovery resize. *)
Definition resized_recovery_usage (u : UsageTotals) (r : GrantRecord) (total recovery : ResourceAmounts) (ta' : option ResourceAmounts)
    (pool scope : RecoveryPoolUsage) : UsageTotals :=
  mkUsage total recovery (ordinary_tenant_usage u)
    (match grant_tenant_index r, ta' with Some i, Some a => <[i := a]> (recovery_tenant_usage u) | _, _ => recovery_tenant_usage u end)
    pool (match grant_tenant_index r with Some _ => recovery_system_pool_usage u | None => scope end)
    (match grant_tenant_index r with Some i => <[i := scope]> (recovery_tenant_pool_usage u) | None => recovery_tenant_pool_usage u end)
    (pool_usage u) (ordinary_tenant_pool_usage u).

Lemma charge_usage_moved r k new c v v' : grant_is_ordinary r = false -> grant_recovery_kind r = Some k -> RecoverySplit k new c ->
  recovery_usage_add v c = Some v' -> usage_moved 1 (regrant r new (rch_shared c)) v v'.
Proof.
  intros Ho Hk HS Hv. apply recovery_usage_add_spec in Hv as [Hs Hp]. split.
  - intros d. rewrite Hs. unfold m_rshared, m_shared. change (grant_is_ordinary (regrant r new (rch_shared c))) with (grant_is_ordinary r).
    rewrite Ho. cbn [negb when regrant gr_shared]. lia.
  - intros k' d. rewrite Hp, (rs_kind _ _ _ HS). unfold m_rprotected, m_protected.
    change (grant_recovery_kind (regrant r new (rch_shared c))) with (grant_recovery_kind r). rewrite Hk. cbn [regrant gr_amounts gr_shared].
    pose proof (rs_sum _ _ _ HS d). unfold when. repeat case_bool_decide; simplify_eq; lia.
Qed.

Lemma resized_recovery_moved n st r k pool' v v' ta kc tc new w c total pool scope :
  wf_record n r -> charged r = true -> grant_is_ordinary r = false -> RecoveryParts st r k pool' v v' ta kc tc -> WithoutRecovery st r new pool' v' ta w ->
  RecoverySplit k new c -> amounts_add (rw_total w) new = Some total -> recovery_usage_add pool' c = Some pool -> recovery_usage_add v' c = Some scope ->
  Moved 1 (regrant r new (rch_shared c)) (recovery_usage_without (usage st) r ta pool' v') (recovery_counts_without (counts st) r k kc tc)
    (resized_recovery_usage (usage st) r total (rw_recovery_candidate w) (rw_tenant_candidate w) pool scope) (counts st).
Proof.
  intros Hw Hch Ho HP [Hwt Hwr _ Hcand _ _ _ Htcand] HS Htot Hpool Hscope. set (r' := regrant r new (rch_shared c)).
  destruct HP as [Hk _ _ _ _ _ Hv _ _ Hta Htc Hkc _ _ _ _]. rewrite Hwt in Htot. rewrite Hwr in Hcand. rewrite amounts_add_Some in Htot, Hcand.
  pose proof (charge_usage_moved r k new c _ _ Ho Hk HS Hpool) as Hpm. pose proof (charge_usage_moved r k new c _ _ Ho Hk HS Hscope) as Hsm.
  set (tos := match grant_tenant_index r, tc with Some i, Some t => <[i := t]> (tenant_outstanding (counts st)) | _, _ => tenant_outstanding (counts st) end).
  assert (Htos : tos = tenant_outstanding (counts st)).
  { unfold tos. destruct (grant_tenant_index r), tc; try done. apply list_insert_id, Htc. }
  assert (Hun : (if retains_capacity k then outstanding_uninterruptible (counts st) - 1 else outstanding_uninterruptible (counts st))
    + 1 * m_uninterruptible r' = outstanding_uninterruptible (counts st)).
  { unfold m_uninterruptible, m_count. change (grant_recovery_kind r') with (grant_recovery_kind r). change (charged r') with (charged r).
    rewrite Hk, Hch. destruct (retains_capacity k); cbn; lia. }
  pose proof (moved_recovery 1 r' (recovery_usage_without (usage st) r ta pool' v') (recovery_counts_without (counts st) r k kc tc)
    total (rw_recovery_candidate w) pool
    (match grant_tenant_index r, rw_tenant_candidate w with Some i, Some a => <[i := a]> (recovery_tenant_usage (usage st)) | _, _ => recovery_tenant_usage (usage st) end)
    (match grant_tenant_index r with Some _ => recovery_system_pool_usage (usage st) | None => scope end)
    (match grant_tenant_index r with Some i => <[i := scope]> (recovery_tenant_pool_usage (usage st)) | None => recovery_tenant_pool_usage (usage st) end)
    tos (kc - 1) Ho Hch) as HM.
  cbn [recovery_counts_without outstanding outstanding_ordinary outstanding_recovery outstanding_uninterruptible class_counts] in HM.
  change (grant_class r') with (grant_class r) in HM. rewrite Hun, !Z.sub_add, (insert_restores _ _ _ _ Hkc) in HM. rewrite Htos in HM. unfold resized_recovery_usage.
  destruct (counts st) as [tos0 out0 ord0 rec0 un0 cl0]. apply HM; clear HM; cbn [recovery_usage_without total_usage recovery_usage recovery_pool_usage].
  - intros d. destruct (Htot d) as [-> _]. cbn [r' regrant gr_amounts]. lia.
  - intros d. destruct (Hcand d) as [-> _]. cbn [r' regrant gr_amounts]. lia.
  - done.
  - unfold scope_moved. change (grant_tenant_index r') with (grant_tenant_index r). unfold recovery_usage_without, recovery_counts_without.
    destruct (grant_tenant_index r) as [i|] eqn:Hi.
    + destruct ta as [a|], tc as [t|], (rw_tenant_candidate w) as [a'|]; try done. destruct Hta as [Ha _], Htc as [Ht _]. rewrite amounts_add_Some in Htcand.
      cbn [recovery_tenant_usage recovery_tenant_pool_usage tenant_outstanding recovery_system_pool_usage] in *.
      exists (zip_map Z.sub a (gr_amounts r)), a', v', scope, (t - 1). rewrite !list_lookup_insert_eq by (by eapply lookup_lt_Some).
      split; [done|]. split; [intros d; destruct (Htcand d) as [-> _]; cbn [r' regrant gr_amounts]; lia|]. split; [done|]. split; [done|]. split; [done|].
      rewrite !list_insert_insert_eq. split; [done|]. split; [done|]. split; [|done]. rewrite Z.sub_add. symmetry. by apply list_insert_id.
    + destruct ta, tc, (rw_tenant_candidate w); done.
  - cbn [class_counts] in *. apply list_lookup_insert_eq. by eapply lookup_lt_Some.
Qed.

Lemma plan_recovery_resize_ok g st req tenant k w c : plan_recovery_resize g st req tenant k w = Ok c ->
  recovery_charge_ok k (rq_new req) (mkView (recovery_shared_capacity g) (recovery_get (recovery_pool_capacities g) k) (rw_pool w) (rw_ordinary w)) c.
Proof.
  unfold plan_recovery_resize. cbv zeta. destruct (_ && _); [done|]. bind_step u1 H1. bind_step u2 H2. bind_step sc H3. destruct sc as [[s p] o].
  bind_step charge Hc. bind_step u4 H4. intros [= <-]. apply map_err_Ok in Hc. by eapply plan_recovery_charge_ok.
Qed.

Lemma within_resized_recovery g st r k pool' v v' ta kc tc new w c total pool scope :
  RecoveryParts st r k pool' v v' ta kc tc -> WithoutRecovery st r new pool' v' ta w -> (forall k d, 0 <= m_rprotected k d r) ->
  recovery_charge_ok k new (mkView (recovery_shared_capacity g) (recovery_get (recovery_pool_capacities g) k) (rw_pool w) (rw_ordinary w)) c ->
  amounts_add (rw_total w) new = Some total -> recovery_usage_add pool' c = Some pool -> Within g (usage st) ->
  Within g (resized_recovery_usage (usage st) r total (rw_recovery_candidate w) (rw_tenant_candidate w) pool scope).
Proof.
  intros HP [Hwt Hwr Hord Hcand Hwp _ _ _] Hnn Hc Htot Hpool HW. rewrite Hwt in Htot. rewrite Hwr in Hcand. rewrite amounts_add_Some in Htot, Hcand.
  apply recovery_usage_add_spec in Hpool as [Hs Hk]. destruct (rt_pool_moved _ _ _ _ _ _ _ _ _ HP) as [Hps Hpp]. rewrite Hwp in Hc.
  assert (Hdiff : forall d, get total d - get (rw_recovery_candidate w) d = get (total_usage (usage st)) d - get (recovery_usage (usage st)) d).
  { intros d. destruct (Htot d) as [-> _], (Hcand d) as [-> _]. rewrite !get_zip_map. lia. }
  split; cbn [resized_recovery_usage total_usage recovery_usage recovery_pool_usage pool_usage].
  - intros d. rewrite Hdiff. apply HW.
  - intros d. rewrite Hdiff, Hs. pose proof (rc_shared _ _ _ _ Hc d) as Hroom. unfold shared_room in Hroom.
    cbn [rv_shared_capacity rv_usage rv_shared_occupied_by_ordinary] in Hroom. rewrite Hord in Hroom. lia.
  - intros k' d. rewrite Hk, (rc_kind _ _ _ _ Hc). destruct (decide (k = k')) as [<-|Hne].
    + rewrite when_true by (by apply bool_decide_eq_true). pose proof (rc_protected _ _ _ _ Hc d) as Hroom. unfold protected_room in Hroom.
      cbn [rv_protected_capacity rv_usage] in Hroom. lia.
    + rewrite when_false by (by apply bool_decide_eq_false). rewrite Hpp. pose proof (wi_kind _ _ HW k' d). pose proof (Hnn k' d). lia.
  - apply HW.
Qed.

Section resizing_recovery.
Context (n : nat) (g : GovernorInner) (h : ResourceReservation) (new : ResourceAmounts) (preserve : bool).
Context (Hnew : forall d, 0 <= get new d).

Lemma commit_recovery_resize_ok l r k pool' v v' ta kc tc w c :
  Inv n l -> grant_records (grants (lv_state l)) !! res_slot h = Some (Some r) -> charged r = true -> holds h r -> grant_is_ordinary r = false ->
  slot_signals (lv_drops l) !! res_slot h = Some SLOT_ACTIVE ->
  RecoveryParts (lv_state l) r k pool' v v' ta kc tc -> WithoutRecovery (lv_state l) r new pool' v' ta w ->
  recovery_charge_ok k new (mkView (recovery_shared_capacity g) (recovery_get (recovery_pool_capacities g) k) (rw_pool w) (rw_ordinary w)) c ->
  let m := commit_recovery_resize (request h new preserve) (grant_tenant_index r) w c in resized n g h new l (m l).1 (m l).2.
Proof.
  intros HI Hr Hch Hh Ho Hact HP HW Hc m. subst m. unfold commit_recovery_resize. cbv zeta. rewrite (wr_pool _ _ _ _ _ _ _ HW), (wr_scope _ _ _ _ _ _ _ HW).
  assert (HS : RecoverySplit k new c) by (split; try apply Hc; intros d; apply (rc_nonneg _ _ _ _ Hc d (Hnew d))).
  apply resized_or_fence. intros total Htot. apply resized_or_fence. intros pool Hpool.
  apply resized_or_fence. intros scope Hscope. pose proof (oo_wf _ _ (inv_ops _ _ HI) _ r Hr) as Hw.
  pose proof (resized_recovery_moved n (lv_state l) r k pool' v v' ta kc tc new w c total pool scope Hw Hch Ho HP HW HS Htot Hpool Hscope) as HM.
  pose proof (recovery_without_moved (lv_state l) r k pool' v v' ta kc tc Ho Hch HP) as HM0.
  destruct (replaced_recovery n r h k new c Hw Hh (rt_kind _ _ _ _ _ _ _ _ _ HP)) as [Hrep Hh']. specialize (Hh' HS).
  pose proof (within_resized_recovery g (lv_state l) r k pool' v v' ta kc tc new w c total pool scope HP HW) as Hwithin.
  assert (Hfin : forall l', lv_drops l' = lv_drops l -> grants (lv_state l') = grants (lv_state l) -> lifecycle (lv_state l') = lifecycle (lv_state l) ->
    usage (lv_state l') = resized_recovery_usage (usage (lv_state l)) r total (rw_recovery_candidate w) (rw_tenant_candidate w) pool scope ->
    counts (lv_state l') = counts (lv_state l) ->
    let owner := mkOwner (AttrRecovery (grant_tenant_index r)) None (Some c) in
    let m := (_ ← rsz_succeeds DurabilityRecovery (replace_slot_record (res_slot h) owner (res_identity h) new);
              mret (mkResizeCommit owner (resize_outcome (res_amounts h) new))) in resized n g h new l (m l').1 (m l').2).
  { intros l' Hd Hg Hl Hu Hcs owner m. unfold m, owner, mbind, Rsz_bind, rsz_succeeds, replace_slot_record, slot_is_active. rewrite Hd.
    rewrite bool_decide_eq_true_2 by done. cbn [negb]. rewrite (record_at_some (lv_state l') _ r) by (by rewrite Hg). cbn [mbind option_bind]. rewrite Hrep.
    cbn [fst snd mret Rsz_ret resized]. exists (regrant r new (rch_shared c)).
    match goal with |- Replaced ?s ?x ?a ?b /\ _ => assert (HR : Replaced s x a b) by (split; cbn; rewrite ?Hg, ?Hd, ?Hl; done) end.
    split; [done|]. split; [exact Hh'|]. split; [|split; [done|]].
    - eapply (replaced_inv n l _ (res_slot h) r (regrant r new (rch_shared c))); [done|done|exact HM0| | |done| |exact HR]; cbn; rewrite ?Hu, ?Hcs; [exact HM|..].
      + destruct (inv_shaped _ _ HI). split; cbn; try done; repeat case_match; by rewrite ?length_insert.
      + apply regrant_wf; [done..|]. intros d. pose proof (rs_sum _ _ _ HS d). pose proof (rs_shared _ _ _ HS d). pose proof (rs_protected _ _ _ HS d). lia.
    - intros _ HWi. cbn. rewrite Hu. apply Hwithin; try done. intros k' d. by apply (nonneg_rprotected k' d n). }
  clear HM HM0 Hwithin Hrep. rsz_step. unfold resized_recovery_usage in Hfin.
  pose proof (rt_scope _ _ _ _ _ _ _ _ _ HP) as Hv. pose proof (rt_tenant _ _ _ _ _ _ _ _ _ HP) as Hta. pose proof (wr_tenant_candidate _ _ _ _ _ _ _ HW) as Htc.
  destruct (grant_tenant_index r) as [i|] eqn:Hi.
  - destruct ta as [a|]; [|done]. destruct Hta as [Ha _]. destruct (rw_tenant_candidate w) as [a'|]; [|done]. cbn [when_tenant replace_scope].
    rsz_store Ha. rsz_store Hv. by apply Hfin.
  - destruct ta as [a|]; [done|]. destruct (rw_tenant_candidate w) as [a'|]; [done|]. cbn [when_tenant replace_scope]. do 2 rsz_step. by apply Hfin.
Qed.

Lemma resize_recovery_locked_ok l r k ti :
  Inv n l -> grant_records (grants (lv_state l)) !! res_slot h = Some (Some r) -> charged r = true -> holds h r ->
  slot_signals (lv_drops l) !! res_slot h = Some SLOT_ACTIVE -> co_attribution (res_owner h) = AttrRecovery ti ->
  (exists scope, res_identity h = IdentityRecovery scope k) ->
  let m := resize_recovery_locked g (request h new preserve) ti k in resized n g h new l (m l).1 (m l).2.
Proof.
  intros HI Hr Hch Hh Hact Hattr (sc & Hid) m. subst m. pose proof (oo_wf _ _ (inv_ops _ _ HI) _ r Hr) as Hw.
  pose proof (conserved_releasable n _ _ r _ _ (inv_conserved _ _ HI) (oo_wf _ _ (inv_ops _ _ HI)) Hr Hch) as Hrl.
  assert (Hkinds : grant_is_ordinary r = false /\ grant_recovery_kind r = Some k).
  { destruct Hh as (_ & _ & _ & _ & Hk). rewrite Hid in Hk. destruct Hk as (_ & Hk & _). unfold grant_is_ordinary, grant_recovery_kind. rewrite Hk. by destruct k. }
  destruct Hkinds as [Ho Hk]. destruct (recovery_parts_ok n (lv_state l) r (inv_shaped _ _ HI) Hw Hrl Ho Hch) as (k' & pool' & v & v' & ta & kc & tc & HP).
  assert (k' = k) as -> by (pose proof (rt_kind _ _ _ _ _ _ _ _ _ HP); congruence).
  assert (Howner : res_owner h = mkOwner (AttrRecovery (grant_tenant_index r)) None (Some (record_recovery_charge r k))).
  { destruct Hh as (_ & _ & Hown & _). rewrite (rt_owned _ _ _ _ _ _ _ _ _ HP) in Hown. by injection Hown as <-. }
  rewrite Howner in Hattr. cbn in Hattr. injection Hattr as <-. assert (Ha : res_amounts h = gr_amounts r) by apply Hh.
  unfold resize_recovery_locked. cbv zeta. rsz_step. case_bool_decide; [by split; [left|]|].
  cbn [request rq_owner rq_old rq_new]. rewrite Howner. cbn [co_recovery_pools]. rsz_step. rewrite Ha.
  rsz_need (amounts_sub_ok _ _ (rt_total_le _ _ _ _ _ _ _ _ _ HP)). rsz_need (amounts_sub_ok _ _ (rt_recovery_le _ _ _ _ _ _ _ _ _ HP)).
  apply resized_or_fence. intros ord Hord. apply resized_or_fence. intros cand Hcand.
  rsz_need (rt_pool_sub _ _ _ _ _ _ _ _ _ HP).
  assert (Hscope : (match grant_tenant_index r with
    | Some index => recovery_tenant_pool_usage (usage (lv_state l)) !! index ≫= fun used => recovery_usage_sub used (record_recovery_charge r k)
    | None => recovery_usage_sub (recovery_system_pool_usage (usage (lv_state l))) (record_recovery_charge r k) end) = Some v').
  { pose proof (rt_scope _ _ _ _ _ _ _ _ _ HP) as Hs. pose proof (rt_scope_sub _ _ _ _ _ _ _ _ _ HP) as Hss. destruct (grant_tenant_index r); [by rewrite Hs|by subst v]. }
  rsz_need Hscope.
  assert (Hten : transpose_option ((fun index => recovery_tenant_usage (usage (lv_state l)) !! index ≫= fun used => amounts_sub used (gr_amounts r)) <$> grant_tenant_index r)
    = Some ((fun a => zip_map Z.sub a (gr_amounts r)) <$> ta)).
  { pose proof (rt_tenant _ _ _ _ _ _ _ _ _ HP) as Ht. destruct (grant_tenant_index r), ta; try done. destruct Ht as [Ht Hle]. cbn [fmap option_fmap option_map]. rewrite Ht. cbn [mbind option_bind]. by rewrite amounts_sub_ok. }
  rsz_need Hten. apply resized_or_fence. intros tcand Htcand.
  set (w := mkRecoveryWithout _ _ _ _ _ _ _ _).
  assert (HW : WithoutRecovery (lv_state l) r new pool' v' ta w).
  { split; try done.
    - intros d. rewrite amounts_sub_Some in Hord. destruct (Hord d) as [Hd _]. rewrite !get_zip_map in Hd. cbn [w rw_ordinary]. lia.
    - destruct ta as [a|]; cbn [fmap option_fmap option_map transpose_option] in Htcand; [|by injection Htcand as <-]. cbn [w rw_tenant_candidate].
      destruct (amounts_add (zip_map Z.sub a (gr_amounts r)) new); [by injection Htcand as <-|done]. }
  destruct (plan_recovery_resize g (lv_state l) (request h new preserve) (grant_tenant_index r) k w) as [c|f] eqn:Hplan.
  - apply plan_recovery_resize_ok in Hplan. by eapply (commit_recovery_resize_ok l r k).
  - destruct (preserve || retains_capacity k) eqn:Hret; cbn [request rq_preserve_existing]; rewrite Hret.
    + rsz_step. by split; [left|].
    + apply orb_false_iff in Hret as [_ Hret].
      destruct (cancel_recovery_ok n l (request h new preserve) r k pool' v v' ta kc tc new w HI Hr Hch Ho Hret HP HW) as (l' & Hrun & HI' & HF).
      rewrite (rsz_bind_ok _ _ _ _ _ Hrun). cbn [rsz_fail fst snd resized]. unfold surrendered. rewrite Hid. done.
Qed.
End resizing_recovery.
