(* ===== verification/GovernorRuns.v ===== *)
(** Resource governor: what holds in every run.

    A run starts from an established governor without handles and performs any sequence of the
    operations of [GovernorSystem]: admissions, resizes, cancellations, drops of handles, and control
    operations, each of which may find the lock contended. It keeps the handles that callers
    hold and, apart from them, the reservations that an internal failure of a resize took from a
    caller without releasing them. Every step keeps the reservations in correspondence with the
    grants and every use within its capacity; the theorems of this file hold in every state a run
    reaches. *)

From stdpp Require Import sets relations.
From S2P Require Import Prelude Outcome Identity GovernorModel GovernorPools GovernorState GovernorAdmission GovernorRelease GovernorControl GovernorConservation GovernorGrants GovernorSystem GovernorResize GovernorReplace.

(** ** The lock *)

Definition SystemOk (n : nat) (g : GovernorInner) (gov : Governor) (hs : list ResourceReservation) : Prop := Safe n g (g_live gov) hs.

Lemma lock_for_admission_ok n g contended class gov hs gov' r : SystemOk n g gov hs -> lock_for_admission contended class gov = (gov', r) ->
  SystemOk n g gov' hs /\ match r with Ok l => l = g_live gov' | Err _ => True end.
Proof.
  intros HS. unfold lock_for_admission, SystemOk in *. destruct contended.
  - destruct (checked_add _ _ _); intros [= <- <-]; (split; [|done]); [done|]. by apply (safe_ext n g (g_live gov)).
  - destruct (g_poisoned gov); intros [= <- <-]; (split; [|done]); cbn; [by apply (safe_ext n g (g_live gov))|by apply safe_enter].
Qed.

Lemma try_lock_for_control_ok n g contended gov hs gov' r : SystemOk n g gov hs -> try_lock_for_control contended gov = (gov', r) ->
  SystemOk n g gov' hs /\ match r with Ok l => l = g_live gov' | Err _ => True end.
Proof.
  intros HS. unfold try_lock_for_control, SystemOk in *. destruct contended; [by intros [= <- <-]|].
  destruct (g_poisoned gov); intros [= <- <-]; (split; [|done]); cbn; [by apply (safe_ext n g (g_live gov))|by apply safe_enter].
Qed.

Lemma refusal_same_books l f : SameBooks l (set_state l (record_refusal_locked (lv_state l) f)).
Proof.
  unfold record_refusal_locked. case_bool_decide; [destruct l; split; auto|].
  destruct (_ ≫= _); [|split; cbn; auto]. destruct (rejection_counts (lv_state l) !! _ ≫= _); [|split; cbn; auto].
  destruct (store_at _ _ _); split; cbn; auto.
Qed.

Lemma finish_admission_ok n g l l' r hs : Safe n g l hs -> admitted n l l' r -> (forall h, r = Ok h -> Within g (usage (lv_state l'))) ->
  Safe n g (finish_admission (l', r)).1 (match r with Ok h => h :: hs | Err _ => hs end) /\ (finish_admission (l', r)).2 = r.
Proof.
  intros HS Ha HW. destruct r as [h|f]; cbn.
  - destruct Ha as (rec & HG & Hh & HI). split; [|done]. split; [eapply system_granted; [apply HS|done..]|by eapply HW].
  - split; [|done]. eapply safe_same_books; [eapply safe_same_books; [done|by apply unadmitted_same]|apply refusal_same_books].
Qed.

Lemma reserve_ordinary_ok n g contended claim gov hs gov' r : Capacities g -> Z.of_nat n <= u16_max -> (forall d, 0 <= get (claim_amounts claim) d) ->
  SystemOk n g gov hs -> reserve_ordinary g contended claim gov = (gov', r) ->
  SystemOk n g gov' (match r with Ok h => h :: hs | Err _ => hs end).
Proof.
  intros Hca Hn Ha HS. unfold reserve_ordinary. destruct (lock_for_admission _ _ _) as [gov1 [l|f]] eqn:Hl;
    apply (lock_for_admission_ok n g _ _ _ hs) in Hl as [HS1 Hl1]; try done; [|by intros [= <- <-]]. subst l.
  pose proof (reserve_ordinary_admits n g claim _ Hn (sy_inv _ _ _ (proj1 HS1)) Ha) as Had.
  destruct (reserve_ordinary_locked g claim _) as [l2 r2]. destruct Had as [Had Hplan].
  assert (HW : forall h, r2 = Ok h -> Within g (usage (lv_state l2))).
  { intros h Hh. destruct (Hplan h Hh) as (plan & Hp & -> & _). exact (within_ordinary n g claim plan (g_live gov1) Hca (sy_inv _ _ _ (proj1 HS1)) Hp (proj2 HS1)). }
  destruct (finish_admission_ok n g _ _ _ hs HS1 Had HW) as [HS2 Hr2].
  destruct (finish_admission (l2, r2)) as [l3 r3]. cbn in *. subst r3. intros [= <- <-]. done.
Qed.

Lemma reserve_recovery_ok n g contended claim gov hs gov' r : Capacities g -> Z.of_nat n <= u16_max -> (forall d, 0 <= get (rclaim_amounts claim) d) ->
  SystemOk n g gov hs -> reserve_recovery g contended claim gov = (gov', r) ->
  SystemOk n g gov' (match r with Ok h => h :: hs | Err _ => hs end).
Proof.
  intros Hca Hn Ha HS. unfold reserve_recovery. destruct (lock_for_admission _ _ _) as [gov1 [l|f]] eqn:Hl;
    apply (lock_for_admission_ok n g _ _ _ hs) in Hl as [HS1 Hl1]; try done; [|by intros [= <- <-]]. subst l.
  pose proof (reserve_recovery_admits n g claim _ Hn (sy_inv _ _ _ (proj1 HS1)) Ha) as Had.
  destruct (reserve_recovery_locked g claim _) as [l2 r2]. destruct Had as [Had Hplan].
  assert (HW : forall h, r2 = Ok h -> Within g (usage (lv_state l2))).
  { intros h Hh. destruct (Hplan h Hh) as (plan & Hp & ->). exact (within_recovery g claim plan (lv_state (g_live gov1)) Hp (proj2 HS1)). }
  destruct (finish_admission_ok n g _ _ _ hs HS1 Had HW) as [HS2 Hr2].
  destruct (finish_admission (l2, r2)) as [l3 r3]. cbn in *. subst r3. intros [= <- <-]. done.
Qed.

(** Releasing a held handle: with the lock it is always applied, without it nothing changes. *)
Lemma try_release_ok n g contended h gov hs gov' status : SystemOk n g gov (h :: hs) -> try_release contended h gov = (gov', status) ->
  if contended || g_poisoned gov then rs_applied status = false /\ SystemOk n g gov' (h :: hs)
  else status = applied_status false (lv_state (enter (g_live gov))) /\ SystemOk n g gov' hs.
Proof.
  intros HS. unfold try_release. destruct (try_lock_for_control contended gov) as [gov1 [l|f]] eqn:Hl.
  2:{ pose proof (try_lock_for_control_ok n g _ _ _ _ _ HS Hl) as [HS1 _]. intros [= <- <-]. unfold try_lock_for_control in Hl.
      destruct contended, (g_poisoned gov); by cbn. }
  pose proof (try_lock_for_control_ok n g _ _ _ _ _ HS Hl) as [HS1 ->]. unfold SystemOk in HS1.
  assert (Hlock : contended || g_poisoned gov = false /\ g_live gov1 = enter (g_live gov)).
  { unfold try_lock_for_control in Hl. destruct contended, (g_poisoned gov); simplify_eq/=; done. }
  destruct Hlock as [-> Hlive]. destruct (sy_held _ _ _ (proj1 HS1) h ltac:(constructor)) as (_ & r & Hr & Hc & Ha & Hact & _ & _ & Hid).
  rewrite (record_at_some _ _ _ Hr). rewrite bool_decide_eq_true_2 by done. cbn [andb].
  assert (Hvalid : match res_identity h with
    | IdentityOrdinary _ _ _ => bool_decide (is_Some (co_pools (res_owner h)))
    | IdentityRecovery _ _ => bool_decide (is_Some (co_recovery_pools (res_owner h))) end = true)
    by (destruct (res_identity h); apply bool_decide_eq_true, Hid).
  rewrite Hvalid. cbn [negb]. destruct (release_slot_ok n _ _ r (sy_inv _ _ _ (proj1 HS1)) Hr Hc) as (l' & -> & HI' & HF).
  intros [= <- <-]. rewrite Hlive. split; [done|]. unfold SystemOk. cbn. by eapply safe_released.
Qed.

Lemma cancel_ok n g contended h gov hs gov' h' r : SystemOk n g gov (h :: hs) -> cancel contended h gov = (gov', h', r) ->
  SystemOk n g gov' (if res_active h' then h' :: hs else hs).
Proof.
  intros HS. destruct (sy_held _ _ _ (proj1 HS) h ltac:(constructor)) as (_ & rec & _ & _ & _ & Hact & _). unfold cancel. rewrite Hact. cbn [negb].
  destruct (try_release contended h gov) as [gov1 status] eqn:Ht. pose proof (try_release_ok n g _ _ _ _ _ _ HS Ht) as Hr.
  intros [= <- <- _]. destruct (contended || g_poisoned gov).
  - destruct Hr as [-> HS']. by rewrite Hact.
  - destruct Hr as [-> HS']. done.
Qed.

Lemma drop_ok n g h gov hs : SystemOk n g gov (h :: hs) -> SystemOk n g (drop_reservation h gov) hs.
Proof.
  intros HS. destruct (sy_held _ _ _ (proj1 HS) h ltac:(constructor)) as (_ & rec & _ & _ & _ & Hact & _). unfold drop_reservation. rewrite Hact.
  split; [apply system_dropped, HS|apply HS].
Qed.

(** ** Resizing a handle *)

(** Replacing the record of a held grant replaces its handle. *)
Lemma system_replaced n l l' hs h h' r' : System n l (h :: hs) -> Replaced (res_slot h) r' l l' -> res_slot h' = res_slot h -> holds h' r' -> Inv n l' ->
  System n l' (h' :: hs).
Proof.
  intros [HI HP Hh Hnd Hheld Hown] [Hrs Hfr Hd _ Hch] Hslot Hh' HI'. destruct (Hheld h ltac:(constructor)) as (Hact & r & Hr & Hc & _).
  assert (Hlt : (res_slot h < length (grant_records (grants (lv_state l))))%nat) by (by eapply lookup_lt_Some).
  cbn in Hnd. apply NoDup_cons in Hnd as Hnd'. destruct Hnd' as [Hni Hnd'].
  split; rewrite ?Hd; try done.
  - destruct HP as [Hw Htodo Hcomp ? ?]. split; rewrite ?Hd, ?Hrs, ?length_insert; try done.
    + intros x Hx. destruct (Htodo x Hx) as (Hs & r0 & Hr0 & Hc0). split; [done|]. destruct (decide (x = res_slot h)) as [->|Hne].
      * exists r'. by rewrite list_lookup_insert_eq.
      * exists r0. by rewrite list_lookup_insert_ne by congruence.
    + intros x r0 [[-> [= ->]]|[Hne Hx]]%lookup_insert_inv Hc0; [by intros Hs0; apply (Hcomp _ r)|by intros Hs0; apply (Hcomp _ r0)].
  - cbn. by rewrite Hslot.
  - intros h0 [->|Hin]%elem_of_cons.
    + rewrite Hslot, Hrs. split; [done|]. exists r'. by rewrite list_lookup_insert_eq.
    + assert (Hne : res_slot h0 <> res_slot h) by (intros Heq; apply Hni; rewrite <- Heq; by apply list_elem_of_fmap_2).
      rewrite Hrs, list_lookup_insert_ne by congruence. apply Hheld. by constructor.
  - rewrite Hrs. intros x r0 [[-> [= ->]]|[Hne Hx]]%lookup_insert_inv Hc0 Hs0; cbn; rewrite Hslot; [constructor|]. exact (Hown x r0 Hx Hc0 Hs0).
Qed.

(** The handle that a caller has after a resize that returned it. *)
Definition after_resize (h' : ResourceReservation) : list ResourceReservation := if res_active h' then [h'] else [].
(** The reservation [h] that a resize which returned [h'] and [r] left charged without an active handle. *)
Definition lost_by_resize (h h' : ResourceReservation) (r : result ResizeFailure ResizeOutcome) : list ResourceReservation :=
  match r with Ok _ => [] | Err f => if surrendered h f || res_active h' then [] else [h] end.

(** The same, for the outcome under the lock. *)
Definition owed (h : ResourceReservation) (new : ResourceAmounts) (r : result ResizeFailure ResizeCommit) : list ResourceReservation :=
  match r with Ok commit => [resized_handle h (rc_owner commit) new] | Err f => if surrendered h f then [] else [h] end.

Lemma finish_resize_ok n g l l' h new r hs : Capacities g -> Safe n g l (h :: hs) -> resized n g h new l l' r ->
  Safe n g (finish_resize (l', r)).1 (owed h new r ++ hs) /\ (finish_resize (l', r)).2 = r.
Proof.
  intros Hca HS Hr. destruct r as [commit|f]; cbn [finish_resize owed].
  - destruct Hr as (r' & HR & Hh & HI & _ & HW). split; [|done]. split; [by eapply system_replaced; [apply HS|..]|apply HW; [done|apply HS]].
  - assert (Hsafe : Safe n g l' ((if surrendered h f then [] else [h]) ++ hs)).
    { cbn [resized] in Hr. destruct (surrendered h f); [destruct Hr; by eapply safe_released|destruct Hr; by eapply safe_same_books, untouched_same]. }
    destruct (resize_admission_failure f); (split; [|done]); [|done]. eapply safe_same_books; [done|apply refusal_same_books].
Qed.

Lemma locked_resize_ok n g contended class body h new gov hs gov' r : Capacities g -> SystemOk n g gov (h :: hs) ->
  (forall l, Safe n g l (h :: hs) -> resized n g h new l (body l).1 (body l).2) ->
  locked_resize contended class body gov = (gov', r) -> SystemOk n g gov' (owed h new r ++ hs).
Proof.
  intros Hca HS Hbody. unfold locked_resize. destruct (lock_for_admission _ _ _) as [gov1 [l|f]] eqn:Hl;
    apply (lock_for_admission_ok n g _ _ _ (h :: hs)) in Hl as [HS1 Hl1]; try done; [|by intros [= <- <-]]. subst l.
  specialize (Hbody _ HS1). destruct (body (g_live gov1)) as [l2 r2]. cbn [fst snd] in Hbody. destruct (finish_resize_ok n g _ l2 h new r2 hs Hca HS1 Hbody) as [HS2 Hr2].
  destruct (finish_resize (l2, r2)) as [l3 r3] eqn:Hfin. cbn [fst snd] in HS2, Hr2. subst r3. by intros [= <- <-].
Qed.

(** A committed resize reports exactly what it released and added. *)
Lemma locked_resize_outcome n g h new preserve contended gov hs gov' commit : Capacities g -> (forall d, 0 <= get new d) -> SystemOk n g gov (h :: hs) ->
  resize g contended (request h new preserve) gov = (gov', Ok commit) -> rc_outcome commit = resize_outcome (res_amounts h) new.
Proof.
  intros Hca Hnew HS. unfold resize. cbn [rq_identity rq_owner request].
  assert (Hbody : forall class body, (forall l, Safe n g l (h :: hs) -> resized n g h new l (body l).1 (body l).2) ->
    locked_resize contended class body gov = (gov', Ok commit) -> rc_outcome commit = resize_outcome (res_amounts h) new).
  { intros class body Hb. unfold locked_resize. destruct (lock_for_admission _ _ _) as [gov1 [l|f]] eqn:Hl;
      apply (lock_for_admission_ok n g _ _ _ (h :: hs)) in Hl as [HS1 Hl1]; try done. subst l.
    specialize (Hb _ HS1). destruct (body (g_live gov1)) as [l2 [c|f]]; [|cbn; by destruct (resize_admission_failure f)]. intros [= _ <-].
    by destruct Hb as (r' & _ & _ & _ & Ho & _). }
  destruct (res_identity h) as [t p kind|sc kind] eqn:Hid, (co_attribution (res_owner h)) as [i|ti] eqn:Hattr; try done; apply Hbody; intros l HSl;
    destruct (sy_held _ _ _ (proj1 HSl) h ltac:(constructor)) as (Hact & rec & Hr & Hc & Hh).
  - eapply (resize_ordinary_locked_ok n g h new preserve Hnew l rec); try done; [apply HSl|by eauto|by rewrite Hid].
  - eapply (resize_recovery_locked_ok n g h new preserve Hnew l rec); try done; [apply HSl|by eauto].
Qed.

Lemma resize_owes n g contended h new preserve gov hs gov' r : Capacities g -> (forall d, 0 <= get new d) -> SystemOk n g gov (h :: hs) ->
  resize g contended (request h new preserve) gov = (gov', r) -> SystemOk n g gov' (owed h new r ++ hs).
Proof.
  intros Hca Hnew HS Hres. unfold resize in Hres. cbn [rq_identity rq_owner request] in Hres.
  destruct (res_identity h) as [t p kind|sc kind] eqn:Hid, (co_attribution (res_owner h)) as [i|ti] eqn:Hattr; [..|by injection Hres as <- <-|].
  - eapply locked_resize_ok; [done..| |exact Hres]. intros l HSl. destruct (sy_held _ _ _ (proj1 HSl) h ltac:(constructor)) as (Hact & rec & Hr & Hc & Hh).
    eapply (resize_ordinary_locked_ok n g h new preserve Hnew l rec); try done; [apply HSl|by eauto|by rewrite Hid].
  - by injection Hres as <- <-.
  - eapply locked_resize_ok; [done..| |exact Hres]. intros l HSl. destruct (sy_held _ _ _ (proj1 HSl) h ltac:(constructor)) as (Hact & rec & Hr & Hc & Hh).
    eapply (resize_recovery_locked_ok n g h new preserve Hnew l rec); try done; [apply HSl|by eauto].
Qed.

Lemma held_active n g gov h hs : SystemOk n g gov (h :: hs) -> res_active h = true.
Proof. intros HS. destruct (sy_held _ _ _ (proj1 HS) h ltac:(constructor)) as (_ & rec & _ & _ & _ & Hact & _). done. Qed.

(** What a resize returns, and what is owed after it. *)
Lemma try_resize_ok n g contended h new preserve gov hs gov' h' r : Capacities g -> (forall d, 0 <= get new d) -> SystemOk n g gov (h :: hs) ->
  try_resize_with_policy g contended h new preserve gov = (gov', h', r) -> SystemOk n g gov' (after_resize h' ++ lost_by_resize h h' r ++ hs).
Proof.
  intros Hca Hnew HS. pose proof (held_active _ _ _ _ _ HS) as Hact. unfold try_resize_with_policy. rewrite Hact. cbn [negb].
  assert (Hsame : forall f, after_resize h ++ lost_by_resize h h (Err f) ++ hs = h :: hs)
    by (intros f; unfold after_resize, lost_by_resize; by rewrite Hact, orb_true_r).
  destruct (amounts_is_empty new); [intros [= <- <- <-]; by rewrite Hsame|].
  fold (request h new preserve). destruct (resize _ _ _ _) as [gov1 r1] eqn:Hres. pose proof (resize_owes n g contended h new preserve gov hs gov1 r1 Hca Hnew HS Hres) as HS1.
  destruct r1 as [commit|f]; [intros [= <- <- <-]; unfold after_resize; cbn [resized_handle res_active]; by rewrite Hact|]. cbn [owed] in HS1.
  case_bool_decide as Hd; intros [= <- <- <-]; unfold after_resize, lost_by_resize; cbn [set_inactive res_active]; [by destruct (surrendered h f)|].
  rewrite Hact, orb_true_r. assert (Hs : surrendered h f = false) by (unfold surrendered; by rewrite bool_decide_eq_false_2). by rewrite Hs in HS1.
Qed.

(** ** Control operations *)

(** The operations of [GovernorControl] as steps of a live governor. *)
Inductive control (g : GovernorInner) : Governor -> Governor -> Prop :=
| control_enroll reserves contended tenant weight limits pending gov :
    control g gov (enroll_tenant_quota g reserves contended tenant weight limits pending gov).1
| control_stage reserves contended tenant weight limits gov :
    control g gov (stage_tenant_quota_update g reserves contended tenant weight limits gov).1
| control_publish successor gov : control g gov (publish successor gov)
| control_activate tenant gov : control g gov (activate_tenant_quota tenant gov)
| control_rollback contended tenant gov : control g gov (rollback_tenant_quota contended tenant gov)
| control_observe contended usable gov : control g gov (apply_disk_observation g contended usable gov).1
| control_shutdown contended gov : control g gov (begin_shutdown contended gov).1.

Lemma with_control_ok n g contended gov f hs : SystemOk n g gov hs ->
  (forall st st', f st = Ok st' -> usage st' = usage st /\ counts st' = counts st /\ grants st' = grants st) ->
  SystemOk n g (with_control contended gov f).1 hs.
Proof.
  intros HS Hf. unfold with_control. destruct (try_lock_for_control contended gov) as [gov1 [l|e]] eqn:Hl;
    pose proof (try_lock_for_control_ok n g _ _ _ _ _ HS Hl) as [HS1 Heq]; [|done]. subst l.
  destruct (f (lv_state (g_live gov1))) as [st'|e] eqn:Hst; [|done]. destruct (Hf _ _ Hst) as (Hu & Hc & Hg).
  unfold SystemOk in *. cbn. apply (safe_ext n g (g_live gov1)); cbn; try done; by rewrite Hg.
Qed.

Lemma enroll_locked_frame g reserves tenant weight limits pending st st' :
  enroll_locked g reserves tenant weight limits pending st = Ok st' -> usage st' = usage st /\ counts st' = counts st /\ grants st' = grants st.
Proof.
  unfold enroll_locked. cbv zeta. destruct (pending && _); [done|]. destruct (existsb _ _); [done|]. destruct (_ <=? _)%nat; [done|].
  bind_step q Hq. bind_step f Hf. destruct f as [[fair shared] pools]. bind_step sys Hs. bind_step u Hu. bind_step lim Hl. by intros [= <-].
Qed.

Lemma control_ok n g gov gov' hs : control g gov gov' -> SystemOk n g gov hs -> SystemOk n g gov' hs.
Proof.
  intros Hstep HS. destruct Hstep.
  - unfold enroll_tenant_quota. destruct (validate_tenant_quota _ _ _); [|done]. apply with_control_ok; [done|]. intros st st'. apply enroll_locked_frame.
  - unfold stage_tenant_quota_update. destruct (validate_tenant_quota _ _ _); [|done].
    destruct (try_lock_for_control contended gov) as [gov1 [l|e]] eqn:Hl; by apply (try_lock_for_control_ok n g _ _ hs) in Hl as [HS1 _].
  - unfold publish, SystemOk in *. cbn.
    assert (HS1 : Safe n g (if g_poisoned gov then fence_state (g_live gov) else g_live gov) hs).
    { destruct (g_poisoned gov); [|done]. by apply (safe_ext n g (g_live gov)). }
    apply safe_enter in HS1. by eapply safe_ext.
  - unfold activate_tenant_quota, SystemOk in *. case_bool_decide; [|done]. cbn. by apply (safe_ext n g (g_live gov)).
  - unfold rollback_tenant_quota. destruct (try_lock_for_control contended gov) as [gov1 [l|e]] eqn:Hl;
      pose proof (try_lock_for_control_ok n g _ _ _ _ _ HS Hl) as [HS1 Heq]; [|done]. subst l.
    destruct (_ || _); [done|]. unfold SystemOk in *. cbn. by apply (safe_ext n g (g_live gov1)).
  - unfold apply_disk_observation. destruct (try_lock_for_control contended gov) as [gov1 [l|e]] eqn:Hl;
      pose proof (try_lock_for_control_ok n g _ _ _ _ _ HS Hl) as [HS1 Heq]; [|done]. subst l. unfold SystemOk in *. cbv zeta.
    case_bool_decide; [done|]. case_bool_decide; [by apply (safe_ext n g (g_live gov1))|].
    destruct (checked_add _ _ _); by apply (safe_ext n g (g_live gov1)).
  - apply with_control_ok; [done|]. intros st st'. destruct (lifecycle st); [by intros [= <-]..|done].
Qed.

(** ** A fenced governor stays fenced *)

Definition fenced (gov : Governor) : Prop := lifecycle (lv_state (g_live gov)) = Fenced.

Lemma same_books_fenced l l' : SameBooks l l' -> lifecycle (lv_state l) = Fenced -> lifecycle (lv_state l') = Fenced.
Proof. intros HB Hf. destruct (sb_lifecycle _ _ HB); congruence. Qed.

Lemma refusal_fenced st f : lifecycle st = Fenced -> lifecycle (record_refusal_locked st f) = Fenced.
Proof. apply (same_books_fenced (mkLive st (mkDrop [] [] false false)) _ (refusal_same_books _ f)). Qed.

Lemma enter_fenced n g l hs : Safe n g l hs -> lifecycle (lv_state l) = Fenced -> lifecycle (lv_state (enter l)) = Fenced.
Proof.
  intros [HS _] Hf. destruct (enter_ok n l (sy_inv _ _ _ HS) (sy_pending _ _ _ HS) (sy_hinted _ _ _ HS)) as (_ & _ & _ & _ & _ & ->). by destruct (pending_fence _).
Qed.

Lemma lock_for_admission_fenced n g contended class gov hs gov' r : SystemOk n g gov hs -> lock_for_admission contended class gov = (gov', r) -> fenced gov -> fenced gov'.
Proof.
  intros HS. unfold lock_for_admission, fenced. destruct contended; [destruct (checked_add _ _ _); by intros [= <- _]|].
  destruct (g_poisoned gov); intros [= <- _]; [done|]. by apply (enter_fenced n g _ hs).
Qed.

Lemma try_lock_for_control_fenced n g contended gov hs gov' r : SystemOk n g gov hs -> try_lock_for_control contended gov = (gov', r) -> fenced gov -> fenced gov'.
Proof.
  intros HS. unfold try_lock_for_control, fenced. destruct contended; [by intros [= <- _]|].
  destruct (g_poisoned gov); intros [= <- _]; [done|]. by apply (enter_fenced n g _ hs).
Qed.

Lemma finish_admission_fenced n l l' r : admitted n l l' r -> lifecycle (lv_state l) = Fenced -> lifecycle (lv_state (finish_admission (l', r)).1) = Fenced.
Proof.
  intros Ha Hf. destruct r as [h|f]; cbn in *; [destruct Ha as (rec & HG & _); by rewrite (gd_lifecycle _ _ _ _ HG)|].
  by apply refusal_fenced, (same_books_fenced l), Hf; apply unadmitted_same.
Qed.

Lemma reserve_ordinary_fenced n g contended claim gov hs gov' r : Z.of_nat n <= u16_max -> (forall d, 0 <= get (claim_amounts claim) d) ->
  SystemOk n g gov hs -> reserve_ordinary g contended claim gov = (gov', r) -> fenced gov -> fenced gov'.
Proof.
  intros Hn Ha HS. unfold reserve_ordinary. destruct (lock_for_admission _ _ _) as [gov1 [l|f]] eqn:Hl; pose proof (lock_for_admission_fenced n g _ _ _ hs _ _ HS Hl) as Hf;
    apply (lock_for_admission_ok n g _ _ _ hs) in Hl as [HS1 Hl1]; try done; [|by intros [= <- _]]. subst l.
  pose proof (reserve_ordinary_admits n g claim _ Hn (sy_inv _ _ _ (proj1 HS1)) Ha) as Had. destruct (reserve_ordinary_locked g claim _) as [l2 r2]. destruct Had as [Had _].
  pose proof (finish_admission_fenced n _ _ _ Had) as Hfin. destruct (finish_admission (l2, r2)) as [l3 r3]. intros [= <- _] Hg. by apply Hfin, Hf.
Qed.

Lemma reserve_recovery_fenced n g contended claim gov hs gov' r : Z.of_nat n <= u16_max -> (forall d, 0 <= get (rclaim_amounts claim) d) ->
  SystemOk n g gov hs -> reserve_recovery g contended claim gov = (gov', r) -> fenced gov -> fenced gov'.
Proof.
  intros Hn Ha HS. unfold reserve_recovery. destruct (lock_for_admission _ _ _) as [gov1 [l|f]] eqn:Hl; pose proof (lock_for_admission_fenced n g _ _ _ hs _ _ HS Hl) as Hf;
    apply (lock_for_admission_ok n g _ _ _ hs) in Hl as [HS1 Hl1]; try done; [|by intros [= <- _]]. subst l.
  pose proof (reserve_recovery_admits n g claim _ Hn (sy_inv _ _ _ (proj1 HS1)) Ha) as Had. destruct (reserve_recovery_locked g claim _) as [l2 r2]. destruct Had as [Had _].
  pose proof (finish_admission_fenced n _ _ _ Had) as Hfin. destruct (finish_admission (l2, r2)) as [l3 r3]. intros [= <- _] Hg. by apply Hfin, Hf.
Qed.

Lemma control_fenced n g gov gov' hs : control g gov gov' -> SystemOk n g gov hs -> fenced gov -> fenced gov'.
Proof.
  intros Hstep HS Hf.
  assert (Hcontrol : forall contended f, (forall st st', f st = Ok st' -> lifecycle st = Fenced -> lifecycle st' = Fenced) -> fenced (with_control contended gov f).1).
  { intros contended f Hst. unfold with_control. destruct (try_lock_for_control contended gov) as [gov1 [l|e]] eqn:Hl; pose proof (try_lock_for_control_fenced n g _ _ hs _ _ HS Hl Hf) as Hf1; [|done].
    pose proof (try_lock_for_control_ok n g _ _ _ _ _ HS Hl) as [_ ->]. destruct (f _) as [st'|] eqn:Hres; [|done]. by apply (Hst _ _ Hres). }
  destruct Hstep.
  - unfold enroll_tenant_quota. destruct (validate_tenant_quota _ _ _); [|done]. apply Hcontrol. intros st st' Hen. unfold enroll_locked in Hen. revert Hen. cbv zeta.
    destruct (pending && _); [done|]. destruct (existsb _ _); [done|]. destruct (_ <=? _)%nat; [done|].
    bind_step q Hq. bind_step ff Hff. destruct ff as [[fair shared] pools]. bind_step sys Hs. bind_step u Hu. bind_step lim Hl. by intros [= <-].
  - unfold stage_tenant_quota_update. destruct (validate_tenant_quota _ _ _); [|done].
    destruct (try_lock_for_control contended gov) as [gov1 [l|e]] eqn:Hl; by apply (try_lock_for_control_fenced n g _ _ hs _ _ HS Hl).
  - unfold publish, fenced. cbn. destruct (g_poisoned gov).
    + apply (enter_fenced n g _ hs); [|done]. by apply (safe_ext n g (g_live gov)).
    + by apply (enter_fenced n g _ hs).
  - unfold activate_tenant_quota. by case_bool_decide.
  - unfold rollback_tenant_quota. destruct (try_lock_for_control contended gov) as [gov1 [l|e]] eqn:Hl; pose proof (try_lock_for_control_fenced n g _ _ hs _ _ HS Hl Hf) as Hf1; [|done].
    pose proof (try_lock_for_control_ok n g _ _ _ _ _ HS Hl) as [_ ->]. by destruct (_ || _).
  - unfold apply_disk_observation. destruct (try_lock_for_control contended gov) as [gov1 [l|e]] eqn:Hl; pose proof (try_lock_for_control_fenced n g _ _ hs _ _ HS Hl Hf) as Hf1; [|done].
    pose proof (try_lock_for_control_ok n g _ _ _ _ _ HS Hl) as [_ ->]. cbv zeta. by rewrite bool_decide_eq_true_2.
  - apply Hcontrol. intros st st' Hst Hs. by rewrite Hs in Hst.
Qed.

(** A resize keeps the fence, and a reservation that it lost leaves the governor fenced. *)
Lemma finish_resize_fenced n g h new l l' r : resized n g h new l l' r ->
  let l2 := (finish_resize (l', r)).1 in
  (lifecycle (lv_state l) = Fenced -> lifecycle (lv_state l2) = Fenced)
  /\ forall f, r = Err f -> surrendered h f = false -> rf_disposition f = CancelledBeforeLimit -> lifecycle (lv_state l2) = Fenced.
Proof.
  intros Hr. assert (Hkeep : lifecycle (lv_state l') = Fenced -> lifecycle (lv_state (finish_resize (l', r)).1) = Fenced).
  { intros Hf. destruct r as [c|f]; cbn [finish_resize]; [done|]. destruct (resize_admission_failure f); [|done]. by apply refusal_fenced. }
  split.
  - intros Hf. apply Hkeep. destruct r as [c|f]; cbn [resized] in Hr; [destruct Hr as (r' & HR & _); by rewrite (rd_lifecycle _ _ _ _ HR)|].
    destruct (surrendered h f); destruct Hr as [H1 H2]; [by rewrite (fr_lifecycle _ _ _ H2)|by apply (same_books_fenced l); [apply untouched_same|]].
  - intros f -> Hs Hd. apply Hkeep. cbn [resized] in Hr. rewrite Hs in Hr. destruct Hr as [_ Hr]. by destruct (Hr Hd) as [-> _].
Qed.

Lemma resize_fenced n g contended h new preserve gov hs gov' r : (forall d, 0 <= get new d) -> SystemOk n g gov (h :: hs) ->
  resize g contended (request h new preserve) gov = (gov', r) ->
  (fenced gov -> fenced gov') /\ forall f, r = Err f -> surrendered h f = false -> rf_disposition f = CancelledBeforeLimit -> fenced gov'.
Proof.
  intros Hnew HS. unfold resize. cbn [rq_identity rq_owner request].
  assert (Hbody : forall class body, (forall l, Safe n g l (h :: hs) -> resized n g h new l (body l).1 (body l).2) ->
    locked_resize contended class body gov = (gov', r) ->
    (fenced gov -> fenced gov') /\ forall f, r = Err f -> surrendered h f = false -> rf_disposition f = CancelledBeforeLimit -> fenced gov').
  { intros class body Hb. unfold locked_resize. destruct (lock_for_admission _ _ _) as [gov1 [l|f]] eqn:Hl; pose proof (lock_for_admission_fenced n g _ _ _ _ _ _ HS Hl) as Hf;
      apply (lock_for_admission_ok n g _ _ _ (h :: hs)) in Hl as [HS1 Hl1]; try done.
    - subst l. specialize (Hb _ HS1). destruct (body (g_live gov1)) as [l2 r2]. destruct (finish_resize_fenced n g h new _ _ _ Hb) as [H1 H2]. cbn [fst snd] in H1, H2.
      assert (Hr2 : (finish_resize (l2, r2)).2 = r2) by (destruct r2 as [|f]; [done|]; cbn; by destruct (resize_admission_failure f)).
      destruct (finish_resize (l2, r2)) as [l3 r3]. cbn [fst snd] in *. subst r3. intros [= <- <-]. split; [by intros ?%Hf%H1|exact H2].
    - intros [= <- <-]. split; [done|]. by intros f' [= <-]. }
  destruct (res_identity h) as [t p kind|sc kind] eqn:Hid, (co_attribution (res_owner h)) as [i|ti] eqn:Hattr; try (intros [= <- <-]; split; [done|]; by intros f [= <-]);
    apply Hbody; intros l HSl; destruct (sy_held _ _ _ (proj1 HSl) h ltac:(constructor)) as (Hact & rec & Hr & Hc & Hh).
  - eapply (resize_ordinary_locked_ok n g h new preserve Hnew l rec); try done; [apply HSl|by eauto|by rewrite Hid].
  - eapply (resize_recovery_locked_ok n g h new preserve Hnew l rec); try done; [apply HSl|by eauto].
Qed.

Lemma try_resize_fenced n g contended h new preserve gov hs gov' h' r : (forall d, 0 <= get new d) -> SystemOk n g gov (h :: hs) ->
  try_resize_with_policy g contended h new preserve gov = (gov', h', r) -> (fenced gov -> fenced gov') /\ (lost_by_resize h h' r <> [] -> fenced gov').
Proof.
  intros Hnew HS. pose proof (held_active _ _ _ _ _ HS) as Hact. unfold try_resize_with_policy. rewrite Hact. cbn [negb].
  assert (Hsame : forall f, lost_by_resize h h (Err f) = []) by (intros f; unfold lost_by_resize; by rewrite Hact, orb_true_r).
  destruct (amounts_is_empty new); [intros [= <- <- <-]; by rewrite Hsame|]. fold (request h new preserve).
  destruct (resize _ _ _ _) as [gov1 r1] eqn:Hres. destruct (resize_fenced n g contended h new preserve gov hs gov1 r1 Hnew HS Hres) as [H1 H2].
  destruct r1 as [commit|f]; [by intros [= <- <- <-]|]. case_bool_decide as Hd; intros [= <- <- <-]; [|by rewrite Hsame].
  split; [done|]. unfold lost_by_resize. cbn [set_inactive res_active]. rewrite orb_false_r. destruct (surrendered h f) eqn:Hs; [done|]. intros _. by apply (H2 f).
Qed.

Lemma try_release_fenced n g contended h gov hs gov' status : SystemOk n g gov (h :: hs) -> try_release contended h gov = (gov', status) -> fenced gov -> fenced gov'.
Proof.
  intros HS. unfold try_release. destruct (try_lock_for_control contended gov) as [gov1 [l|f]] eqn:Hl; pose proof (try_lock_for_control_fenced n g _ _ _ _ _ HS Hl) as Hf.
  2:{ by intros [= <- _]. }
  pose proof (try_lock_for_control_ok n g _ _ _ _ _ HS Hl) as [HS1 ->]. unfold SystemOk in HS1.
  destruct (sy_held _ _ _ (proj1 HS1) h ltac:(constructor)) as (_ & r & Hr & Hc & Ha & Hact & _ & _ & Hid).
  rewrite (record_at_some _ _ _ Hr). destruct (release_slot_ok n _ _ r (sy_inv _ _ _ (proj1 HS1)) Hr Hc) as (l' & Hrel & HI' & HF).
  cbv zeta. destruct (negb _); [by intros [= <- _]|]. rewrite Hrel. intros [= <- _] Hg. unfold fenced. cbn. rewrite (fr_lifecycle _ _ _ HF). by apply Hf.
Qed.

(** ** Runs *)

(** A governor, the handles that callers hold, and the reservations that resizes lost: a growth of ordinary work whose plan
    fails internally returns an inactive handle, and nothing releases the grant that stays charged. *)
Record Run := mkRun { run_governor : Governor; run_held : list ResourceReservation; run_lost : list ResourceReservation }.

(** One operation of a caller. A handle is owned: only a caller that holds it can cancel, resize or
    drop it, and an inactive handle is gone. A transfer to another owner and back is the identity on
    handles; returning a handle to a governor that did not grant it marks that governor. *)
Inductive step (g : GovernorInner) : Run -> Run -> Prop :=
| step_ordinary contended claim gov hs lost gov' r :
    (forall d, 0 <= get (claim_amounts claim) d) -> reserve_ordinary g contended claim gov = (gov', r) ->
    step g (mkRun gov hs lost) (mkRun gov' (match r with Ok h => h :: hs | Err _ => hs end) lost)
| step_recovery contended claim gov hs lost gov' r :
    (forall d, 0 <= get (rclaim_amounts claim) d) -> reserve_recovery g contended claim gov = (gov', r) ->
    step g (mkRun gov hs lost) (mkRun gov' (match r with Ok h => h :: hs | Err _ => hs end) lost)
| step_cancel contended h gov hs lost gov' h' r : cancel contended h gov = (gov', h', r) ->
    step g (mkRun gov (h :: hs) lost) (mkRun gov' (if res_active h' then h' :: hs else hs) lost)
| step_resize contended h new preserve gov hs lost gov' h' r :
    (forall d, 0 <= get new d) -> try_resize_with_policy g contended h new preserve gov = (gov', h', r) ->
    step g (mkRun gov (h :: hs) lost) (mkRun gov' (after_resize h' ++ hs) (lost_by_resize h h' r ++ lost))
| step_foreign gov hs lost : step g (mkRun gov hs lost) (mkRun (foreign_release gov) hs lost)
| step_drop h gov hs lost : step g (mkRun gov (h :: hs) lost) (mkRun (drop_reservation h gov) hs lost)
| step_order gov hs hs' lost : hs ≡ₚ hs' -> step g (mkRun gov hs lost) (mkRun gov hs' lost)
| step_control gov gov' hs lost : control g gov gov' -> step g (mkRun gov hs lost) (mkRun gov' hs lost).

(** The held and the lost reservations are the grants, and only a fenced governor has lost any. *)
Definition RunOk (n : nat) (g : GovernorInner) (r : Run) : Prop :=
  SystemOk n g (run_governor r) (run_held r ++ run_lost r) /\ (run_lost r <> [] -> fenced (run_governor r)).

Lemma step_ok n g s s' : Capacities g -> Z.of_nat n <= u16_max -> step g s s' -> RunOk n g s -> RunOk n g s'.
Proof.
  intros Hca Hn Hstep. destruct Hstep; intros [HS Hlost]; unfold RunOk in *; cbn [run_governor run_held run_lost] in *.
  - pose proof (reserve_ordinary_ok _ _ _ _ _ _ _ _ Hca Hn H HS H0) as HS'. split; [by destruct r|]. intros Hl. by eapply reserve_ordinary_fenced, Hlost, Hl.
  - pose proof (reserve_recovery_ok _ _ _ _ _ _ _ _ Hca Hn H HS H0) as HS'. split; [by destruct r|]. intros Hl. by eapply reserve_recovery_fenced, Hlost, Hl.
  - pose proof (cancel_ok _ _ _ _ _ _ _ _ _ HS H) as HS'. split; [by destruct (res_active h')|]. intros Hl. unfold cancel in H. rewrite (held_active _ _ _ _ _ HS) in H. cbn [negb] in H.
    destruct (try_release contended h gov) as [gov1 status] eqn:Ht. injection H as <- _ _. by eapply try_release_fenced, Hlost, Hl.
  - pose proof (try_resize_ok _ _ _ _ _ _ _ _ _ _ _ Hca H HS H0) as HS'. destruct (try_resize_fenced _ _ _ _ _ _ _ _ _ _ _ H HS H0) as [H1 H2]. split.
    + unfold SystemOk, Safe in *. destruct HS' as [HS' HW]. split; [|done]. eapply system_proper; [|exact HS']. rewrite <- !app_assoc. apply Permutation_app_head. rewrite !app_assoc. apply Permutation_app_tail, Permutation_app_comm.
    + intros Hl. destruct (lost_by_resize h h' r); [apply H1, Hlost, Hl|by apply H2].
  - split; [|done]. unfold foreign_release, SystemOk in *. cbn. by apply (safe_ext n g (g_live gov)).
  - split; [by apply drop_ok|]. unfold drop_reservation. by destruct (res_active h).
  - split; [|done]. destruct HS as [HS HW]. split; [by rewrite <- H|done].
  - split; [by eapply control_ok|]. intros Hl. by eapply control_fenced, Hlost, Hl.
Qed.

(** ** Sums over the records as sums over the handles *)

(** When the handles own every record that measures anything, the measures add up alike. *)
Lemma rsum_owned f (F : ResourceReservation -> Z) hs : forall rs,
  (forall h, h ∈ hs -> exists r, rs !! res_slot h = Some (Some r) /\ f r = F h) -> NoDup (map res_slot hs) ->
  (forall slot r, rs !! slot = Some (Some r) -> slot ∉ map res_slot hs -> f r = 0) -> rsum f rs = zsum F hs.
Proof.
  induction hs as [|h hs IH]; intros rs Hheld Hnd Hrest; [apply rsum_zero; intros slot r Hr; apply (Hrest slot); [done|apply not_elem_of_nil]|].
  cbn in Hnd. apply NoDup_cons in Hnd as [Hni Hnd]. destruct (Hheld h ltac:(constructor)) as (r & Hr & Hf).
  pose proof (rsum_insert f rs (res_slot h) _ None Hr) as Hi. cbn [opt_measure] in Hi. rewrite zsum_cons, <- Hf.
  rewrite <- (IH (<[res_slot h := None]> rs)); [lia| |done|].
  - intros h' Hin. assert (Hne : res_slot h' <> res_slot h) by (intros Heq; apply Hni; rewrite <- Heq; by apply list_elem_of_fmap_2).
    rewrite list_lookup_insert_ne by congruence. apply Hheld. by constructor.
  - intros slot r' [[_ [=]]|[Hne Hr']]%lookup_insert_inv Hnin. apply (Hrest slot r' Hr'). cbn. by intros [->|]%elem_of_cons.
Qed.

(** After a drain, a charge summed over the records is the charge summed over the handles. *)
Lemma rsum_handles n l hs f F : System n l hs -> (forall x, marked (lv_drops l) x = false) -> Charge f ->
  (forall h r, holds h r -> wf_record n r -> charged r = true -> f r = F h) ->
  rsum f (grant_records (grants (lv_state l))) = zsum F hs.
Proof.
  intros HS Hm Hf HF. pose proof (inv_ops _ _ (sy_inv _ _ _ HS)) as Hops. apply rsum_owned.
  - intros h Hin. destruct (sy_held _ _ _ HS h Hin) as (_ & r & Hr & Hc & Hh). exists r. split; [done|]. apply HF; [done|by apply (oo_wf _ _ Hops _ _ Hr)|done].
  - apply HS.
  - intros slot r Hr Hnin. pose proof (oo_wf _ _ Hops _ _ Hr) as Hw. destruct (charged r) eqn:Hc.
    + exfalso. pose proof (inv_slots _ _ (sy_inv _ _ _ HS)) as Hsl.
      assert (Hex : exists s, slot_signals (lv_drops l) !! slot = Some s).
      { apply lookup_lt_is_Some_2. rewrite (so_signals _ _ _ Hsl). by eapply lookup_lt_Some. }
      destruct Hex as [[| |] Hs].
      * apply (so_signal _ _ _ Hsl slot _ Hr) in Hs. done.
      * apply Hnin. by apply (sy_owned _ _ _ HS slot r).
      * destruct (pd_complete _ _ (sy_pending _ _ _ HS) slot r Hr Hc Hs) as [Hx|Hx]; [by apply not_elem_of_nil in Hx|]. by rewrite Hm in Hx.
    + destruct (wf_uncharged _ _ Hw Hc) as [Ha Hsh]. by apply charge_released.
Qed.

(** ** Establishment *)

(** The inputs were built by their validating constructors. *)
Definition configured (inventory : ResourceInventory) (policy : GovernorPolicy) (pools : RecoveryPoolCapacities) : Prop :=
  (exists t o, InventoryCardinalityLimits_new t o = Ok (inv_cardinality inventory) /\ 0 <= t /\ 0 <= o)
  /\ (exists a b c d, OrdinaryPoolPolicy_new a b c d = Ok (gp_pools policy))
  /\ RecoveryPoolCapacities_new pools = Ok pools.

Lemma protected_sum_kinds c s d : protected_sum c = Some s -> get s d = kinds_sum c d.
Proof.
  unfold protected_sum, kinds_sum. intros H.
  assert (Hgen : forall l acc r, try_fold_opt (fun total k => amounts_add total (recovery_get c k)) acc l = Some r ->
    get r d = get acc d + zsum (fun k => get (recovery_get c k) d) l).
  { induction l as [|k l IH]; intros acc r; cbn [try_fold_opt]; [intros [= ->]; cbn; lia|].
    destruct (amounts_add acc _) as [a|] eqn:Ha; [|done]. rewrite amounts_add_Some in Ha. intros Hr%IH. rewrite zsum_cons, Hr. destruct (Ha d). lia. }
  apply Hgen in H. rewrite H, get_zero. lia.
Qed.

(** The books of a fresh ledger. *)
Lemma fresh_inv n (tenants count : nat) l : Z.of_nat count <= u16_max -> n = tenants ->
  grants (lv_state l) = initial_ledger count -> lv_drops l = initial_drops count ->
  usage (lv_state l) = mkUsage amounts_zero amounts_zero (replicate tenants amounts_zero) (replicate tenants amounts_zero)
       recovery_usage_zero recovery_usage_zero (replicate tenants recovery_usage_zero) pools_zero (replicate tenants pools_zero) ->
  counts (lv_state l) = mkCounts (replicate tenants 0) 0 0 0 0 (replicate 5 0) -> Inv n l.
Proof.
  intros Hcount -> Hg Hd Hu Hc.
  assert (Hno : forall slot r, replicate count (@None GrantRecord) !! slot = Some (Some r) -> False) by (intros slot r [? _]%lookup_replicate; done).
  assert (Hz : forall f, rsum f (replicate count None) = 0) by (intros f; apply rsum_zero; intros slot r Hr; by destruct (Hno slot r)).
  assert (Hpz : forall p d, get (pool_get pools_zero p) d = 0) by (intros p d; destruct p; apply get_zero).
  assert (Hkz : forall k d, get (usage_protected recovery_usage_zero k) d = 0) by (intros k d; destruct k; apply get_zero).
  split; rewrite ?Hg, ?Hd, ?Hu, ?Hc; cbn [initial_ledger initial_drops grant_records free_slots slot_signals].
  - split; cbn [total_usage recovery_usage ordinary_tenant_usage recovery_tenant_usage recovery_pool_usage recovery_system_pool_usage
      recovery_tenant_pool_usage pool_usage ordinary_tenant_pool_usage tenant_outstanding outstanding outstanding_ordinary
      outstanding_recovery outstanding_uninterruptible class_counts]; intros *; rewrite ?Hz, ?get_zero, ?Hpz, ?Hkz; try done;
      rewrite lookup_replicate; intros [-> _]; rewrite ?get_zero, ?Hpz, ?Hkz; done.
  - split; cbn; by rewrite ?length_replicate.
  - split; rewrite ?length_replicate; try done; [|apply NoDup_seq|].
    + intros slot. rewrite elem_of_seq, lookup_replicate. split; [split; [done|lia]|intros [_ ?]; lia].
    + intros slot o [-> Hlt]%lookup_replicate. rewrite lookup_replicate. done.
  - split; intros *; intros Hr; exfalso; by eapply Hno.
Qed.

(** What a successful configuration builds. *)
Record Configuration (total ordinary : ResourceAmounts) (maximum : Z) (tenants : nat) (pools : PoolCapacities)
    (rpools : RecoveryPoolCapacities) (g : GovernorInner) (gov : Governor) : Prop := {
  cf_total : total_ceiling g = total;
  cf_ordinary : ordinary_ceiling g = ordinary;
  cf_pools : pool_capacities g = pools;
  cf_rpools : recovery_pool_capacities g = rpools;
  cf_maximum : maximum_outstanding g = maximum;
  cf_shared : exists protected, protected_sum rpools = Some protected /\ amounts_sub total protected = Some (recovery_shared_capacity g);
  cf_poisoned : g_poisoned gov = false;
  cf_grants : grants (lv_state (g_live gov)) = initial_ledger (Z.to_nat maximum);
  cf_drops : lv_drops (g_live gov) = initial_drops (Z.to_nat maximum);
  cf_usage : usage (lv_state (g_live gov)) = mkUsage amounts_zero amounts_zero (replicate tenants amounts_zero) (replicate tenants amounts_zero)
       recovery_usage_zero recovery_usage_zero (replicate tenants recovery_usage_zero) pools_zero (replicate tenants pools_zero);
  cf_counts : counts (lv_state (g_live gov)) = mkCounts (replicate tenants 0) 0 0 0 0 (replicate 5 0);
}.

Lemma configure_ok allocates authority raw overhead total ordinary quota quotas maximum tenants pools rpools thresholds disk g gov :
  configure allocates authority raw overhead total ordinary quota quotas maximum tenants pools rpools thresholds disk = Ok (g, gov) ->
  Configuration total ordinary maximum tenants pools rpools g gov.
Proof.
  unfold configure. cbv zeta. bind_step tw Htw. bind_step u1 H1. bind_step fair Hfair. bind_step protected Hprot. bind_step shared Hshared.
  bind_step u2 H2. bind_step sf Hsf. bind_step u3 H3. bind_step u4 H4. bind_step pf Hpf. bind_step sys Hsys. bind_step u5 H5. bind_step reserve Hres.
  bind_step u6 H6. bind_step u7 H7. bind_step u8 H8. bind_step u9 H9. bind_step u10 H10. bind_step u11 H11. bind_step u12 H12. bind_step u13 H13.
  bind_step u14 H14. bind_step u15 H15. bind_step u16 H16. intros [= <- <-]. apply ok_or_Ok in Hprot, Hshared. split; try done. by exists protected.
Qed.

Lemma fresh_system n tenants count l : Z.of_nat count <= u16_max -> n = tenants ->
  grants (lv_state l) = initial_ledger count -> lv_drops l = initial_drops count -> Inv n l -> System n l [].
Proof.
  intros Hcount -> Hg Hd HI.
  assert (Hno : forall slot r, grant_records (grants (lv_state l)) !! slot <> Some (Some r)).
  { intros slot r. rewrite Hg. by intros [? _]%lookup_replicate. }
  assert (Hm : forall x, marked (lv_drops l) x = false).
  { intros x. unfold marked. rewrite Hd. cbn [initial_drops pending_words]. destruct (_ !! _) as [w|] eqn:Hw; [|done].
    apply lookup_replicate in Hw as [-> _]. apply Z.bits_0. }
  split; try done.
  - split; try done; [..|constructor].
    + rewrite Hd, Hg. cbn. by rewrite !length_replicate.
    + intros x [Hx%not_elem_of_nil|Hx]; [done|]. by rewrite Hm in Hx.
    + intros x r Hr. by destruct (Hno x r).
  - intros x Hx. by rewrite Hm in Hx.
  - constructor.
  - by intros h Hh%not_elem_of_nil.
  - intros x r Hr. by destruct (Hno x r).
Qed.

Lemma establish_configuration allocates layout_bytes authority inventory policy rpools g gov :
  establish allocates layout_bytes authority inventory policy rpools = Ok (g, gov) ->
  exists ordinary total pools, Configuration total ordinary (max_outstanding_reservations (inv_cardinality inventory))
    (Z.to_nat (max_tenant_quotas (inv_cardinality inventory))) pools rpools g gov.
Proof.
  unfold establish. cbv zeta. destruct (_ <? _); [done|]. bind_step mem Hmem. bind_step work Hwork. bind_step ordinary Hord.
  destruct (negb (all_positive ordinary)); [done|]. destruct (existsb _ _); [done|]. bind_step pools Hpools. bind_step protected Hprot.
  destruct (negb (is_at_most protected _)); [done|]. bind_step u Hu. intros Hc%configure_ok. eauto.
Qed.

Lemma recovery_pools_nonneg c k d : RecoveryPoolCapacities_new c = Ok c -> 0 <= get (recovery_get c k) d.
Proof.
  unfold RecoveryPoolCapacities_new. destruct (existsb _ _) eqn:He; [done|]. intros _.
  assert (Hpos : all_positive (recovery_get c k) = true); [|rewrite all_positive_spec in Hpos; specialize (Hpos d); lia].
  destruct (all_positive (recovery_get c k)) eqn:Hp; [done|]. exfalso. revert He. apply not_false_iff_true, existsb_exists.
  exists k. rewrite Hp. split; [|done]. destruct k; cbn; tauto.
Qed.

Lemma derive_nonneg a b c d policy ordinary pools p x : OrdinaryPoolPolicy_new a b c d = Ok policy ->
  pool_policy_derive policy ordinary = Ok pools -> 0 <= get (pool_get pools p) x.
Proof.
  unfold OrdinaryPoolPolicy_new. destruct (_ || _) eqn:Hpos; [done|]. bind_step u Hu. destruct (existsb _ _); [|done]. intros [= <-].
  unfold pool_policy_derive. cbn [pp_security pp_ingest pp_query pp_maintenance]. bind_step protected Hprot. bind_step shared Hsh.
  destruct (negb (all_positive shared)) eqn:Hs; [done|]. intros [= <-].
  repeat (apply orb_false_iff in Hpos as [Hpos ?]). repeat match goal with H : negb _ = false |- _ => apply negb_false_iff in H; rewrite all_positive_spec in H; specialize (H x) end.
  destruct p; cbn; lia.
Qed.

Lemma fresh_within g tenants : Capacities g -> Within g (mkUsage amounts_zero amounts_zero (replicate tenants amounts_zero) (replicate tenants amounts_zero)
  recovery_usage_zero recovery_usage_zero (replicate tenants recovery_usage_zero) pools_zero (replicate tenants pools_zero)).
Proof.
  intros Hca. split; cbn [total_usage recovery_usage recovery_pool_usage pool_usage].
  - intros d. rewrite get_zero. pose proof (ca_ordinary _ Hca d). lia.
  - intros d. cbn [recovery_usage_zero ru_shared]. rewrite get_zero. pose proof (ca_ordinary _ Hca d). lia.
  - intros k d. pose proof (ca_kinds _ Hca k d). by destruct k; cbn [recovery_usage_zero usage_protected ru_protected recovery_table_zero recovery_get]; rewrite get_zero.
  - intros p d. pose proof (ca_pools _ Hca p d). by destruct p; cbn; rewrite get_zero.
Qed.

(** A governor established from validated inputs is empty and has consistent capacities. *)
Lemma establish_ok allocates layout_bytes authority inventory policy rpools g gov :
  configured inventory policy rpools -> establish allocates layout_bytes authority inventory policy rpools = Ok (g, gov) ->
  exists n, Z.of_nat n <= u16_max /\ SystemOk n g gov [] /\ Capacities g.
Proof.
  intros ((t & o & Hcard & Ht & Ho) & (a & b & c & d & Hpol) & Hrp) H. revert H. unfold establish. cbv zeta.
  destruct (_ <? _); [done|]. bind_step mem Hmem. bind_step work Hwork. bind_step ordinary Hord.
  destruct (negb (all_positive ordinary)) eqn:Hpos; [done|]. destruct (existsb _ _); [done|]. bind_step pools Hpools. bind_step protected Hprot.
  destruct (negb (is_at_most protected _)) eqn:Hmost; [done|]. bind_step u Hu. intros Hc. apply configure_ok in Hc as HC.
  apply negb_false_iff in Hpos, Hmost. rewrite all_positive_spec in Hpos. rewrite is_at_most_spec in Hmost.
  apply ok_or_Ok in Hwork, Hord, Hprot. rewrite amounts_sub_Some in Hord.
  unfold InventoryCardinalityLimits_new in Hcard. destruct (_ || _) eqn:Hbounds in Hcard; [done|]. injection Hcard as Hcard.
  rewrite <- Hcard in *. cbn [max_tenant_quotas max_outstanding_reservations] in *. unfold MAX_TENANT_QUOTAS, MAX_OUTSTANDING_RESERVATIONS in Hbounds.
  repeat (apply orb_false_iff in Hbounds as [Hbounds ?]). bool_to_prop.
  assert (Hcap : Capacities g).
  { destruct (cf_shared _ _ _ _ _ _ _ _ HC) as (protected' & Hp' & Hsub). assert (protected' = protected) as -> by congruence. rewrite amounts_sub_Some in Hsub.
    split; rewrite ?(cf_total _ _ _ _ _ _ _ _ HC), ?(cf_ordinary _ _ _ _ _ _ _ _ HC), ?(cf_pools _ _ _ _ _ _ _ _ HC), ?(cf_rpools _ _ _ _ _ _ _ _ HC).
    - intros x. rewrite <- (protected_sum_kinds _ _ x Hprot). apply Hsub.
    - intros x. specialize (Hpos x). specialize (Hmost x). specialize (Hord x). specialize (Hsub x). lia.
    - intros p x. by apply (derive_nonneg _ _ _ _ _ _ _ p x Hpol Hpools).
    - intros k x. by apply recovery_pools_nonneg. }
  exists (Z.to_nat t). split; [unfold u16_max; lia|]. split; [|done]. split.
  - apply (fresh_system _ (Z.to_nat t) (Z.to_nat o)); [unfold u16_max in *; lia|done|apply HC|apply HC|].
    apply (fresh_inv _ (Z.to_nat t) (Z.to_nat o)); [unfold u16_max in *; lia|done|apply HC..].
  - rewrite (cf_usage _ _ _ _ _ _ _ _ HC). by apply fresh_within with (tenants := Z.to_nat t).
Qed.

(** ** The abstract ledger: the handles that callers hold *)

Definition handle_tenant (h : ResourceReservation) : option nat :=
  match co_attribution (res_owner h) with AttrOrdinary i => Some i | AttrRecovery i => i end.
Definition handle_ordinary (h : ResourceReservation) : bool :=
  match co_attribution (res_owner h) with AttrOrdinary _ => true | AttrRecovery _ => false end.
Definition handle_class (h : ResourceReservation) : WorkClass := identity_class (res_identity h).
(** The handles of one tenant, and those of its ordinary or its recovery work. *)
Definition of_owner (i : nat) (h : ResourceReservation) : bool := bool_decide (handle_tenant h = Some i).

(** What the handles of a selection demand in a dimension, and how many they are. *)
Definition demand (p : ResourceReservation -> bool) (hs : list ResourceReservation) (d : ResourceDimension) : Z :=
  zsum (fun h => when (p h) (get (res_amounts h) d)) hs.
Definition how_many (p : ResourceReservation -> bool) (hs : list ResourceReservation) : Z := zsum (fun h => when (p h) 1) hs.
(** What the handles of a selection were charged to an ordinary pool, to the capacity that recovery shares, and to the
    protected pool of a kind of recovery work. *)
Definition pool_demand (sel : ResourceReservation -> bool) (p : OrdinaryPool) (hs : list ResourceReservation) (d : ResourceDimension) : Z :=
  zsum (fun h => when (sel h) (match co_pools (res_owner h) with Some c => get (pool_get (charge_capacities c) p) d | None => 0 end)) hs.
Definition shared_demand (sel : ResourceReservation -> bool) (hs : list ResourceReservation) (d : ResourceDimension) : Z :=
  zsum (fun h => when (sel h) (match co_recovery_pools (res_owner h) with Some c => get (rch_shared c) d | None => 0 end)) hs.
Definition protected_demand (sel : ResourceReservation -> bool) (k : RecoveryWorkKind) (hs : list ResourceReservation) (d : ResourceDimension) : Z :=
  zsum (fun h => when (sel h) (match co_recovery_pools (res_owner h) with Some c => when (bool_decide (rch_kind c = k)) (get (rch_protected c) d) | None => 0 end)) hs.

(** The handles of recovery work of one scope, a tenant or the system, and those that shutdown waits for. *)
Definition in_recovery_scope (sc : option nat) (h : ResourceReservation) : bool := negb (handle_ordinary h) && bool_decide (handle_tenant h = sc).
Definition uninterruptible (h : ResourceReservation) : bool := match co_recovery_pools (res_owner h) with Some c => retains_capacity (rch_kind c) | None => false end.
Definition every (h : ResourceReservation) : bool := true.

(** The accounting state is the one the handles determine: every vector of usage and every counter of outstanding reservations. *)
Record Refines (st : AccountingState) (hs : list ResourceReservation) : Prop := {
  rf_total d : get (total_usage (usage st)) d = demand every hs d;
  rf_recovery d : get (recovery_usage (usage st)) d = demand (fun h => negb (handle_ordinary h)) hs d;
  rf_tenant i a d : ordinary_tenant_usage (usage st) !! i = Some a -> get a d = demand (fun h => handle_ordinary h && of_owner i h) hs d;
  rf_recovery_tenant i a d : recovery_tenant_usage (usage st) !! i = Some a -> get a d = demand (in_recovery_scope (Some i)) hs d;
  rf_pool p d : get (pool_get (pool_usage (usage st)) p) d = pool_demand every p hs d;
  rf_tenant_pool i a p d : ordinary_tenant_pool_usage (usage st) !! i = Some a -> get (pool_get a p) d = pool_demand (of_owner i) p hs d;
  rf_recovery_shared d : get (ru_shared (recovery_pool_usage (usage st))) d = shared_demand every hs d;
  rf_recovery_protected k d : get (usage_protected (recovery_pool_usage (usage st)) k) d = protected_demand every k hs d;
  rf_system_shared d : get (ru_shared (recovery_system_pool_usage (usage st))) d = shared_demand (in_recovery_scope None) hs d;
  rf_system_protected k d : get (usage_protected (recovery_system_pool_usage (usage st)) k) d = protected_demand (in_recovery_scope None) k hs d;
  rf_tenant_shared i a d : recovery_tenant_pool_usage (usage st) !! i = Some a -> get (ru_shared a) d = shared_demand (in_recovery_scope (Some i)) hs d;
  rf_tenant_protected i a k d : recovery_tenant_pool_usage (usage st) !! i = Some a ->
    get (usage_protected a k) d = protected_demand (in_recovery_scope (Some i)) k hs d;
  rf_outstanding : outstanding (counts st) = zlen hs;
  rf_ordinary : outstanding_ordinary (counts st) = how_many handle_ordinary hs;
  rf_recovery_count : outstanding_recovery (counts st) = how_many (fun h => negb (handle_ordinary h)) hs;
  rf_uninterruptible : outstanding_uninterruptible (counts st) = how_many uninterruptible hs;
  rf_class c k : class_counts (counts st) !! class_index c = Some k -> k = how_many (fun h => bool_decide (handle_class h = c)) hs;
  rf_tenant_count i k : tenant_outstanding (counts st) !! i = Some k -> k = how_many (of_owner i) hs;
}.

Lemma holds_owner h r : holds h r ->
  handle_ordinary h = grant_is_ordinary r /\ handle_tenant h = grant_tenant_index r /\ handle_class h = grant_class r
  /\ forall p d, (match co_pools (res_owner h) with Some c => get (pool_get (charge_capacities c) p) d | None => 0 end) = m_pool p d r.
Proof.
  intros (Ha & _ & Ho & Hc & _). unfold handle_ordinary, handle_tenant, handle_class, grant_is_ordinary. rewrite Hc.
  unfold grant_owner in Ho. destruct (amounts_sub (gr_amounts r) (gr_shared r)) as [pr|] eqn:Hpr; [|done]. cbn [mbind option_bind] in Ho.
  destruct (ordinary_kind (gr_kind r)) as [k|] eqn:Hk.
  - destruct (for_class (WorkKind_class k)) as [cp|] eqn:Hcp; [|done]. cbn [mbind option_bind] in Ho. destruct (grant_tenant_index r) as [i|] eqn:Hi; [|done].
    injection Ho as <-. cbn [co_attribution co_pools]. do 3 (split; [done|]). intros p d.
    assert (Hgo : grant_is_ordinary r = true) by (unfold grant_is_ordinary; by rewrite Hk).
    assert (Hgc : for_class (grant_class r) = Some cp) by (unfold grant_class; by rewrite Hk).
    assert (pr = zip_map Z.sub (gr_amounts r) (gr_shared r)) as ->.
    { apply amounts_ext. intros d'. rewrite get_zip_map. rewrite amounts_sub_Some in Hpr. apply Hpr. }
    apply (record_charge_pool r cp p d Hgo Hgc).
  - destruct (recovery_kind (gr_kind r)) as [k|]; [|done]. injection Ho as <-. cbn. do 3 (split; [done|]). intros p d.
    unfold m_pool, grant_is_ordinary. by rewrite Hk.
Qed.

(** The charge of recovery work, which ordinary work does not have. *)
Lemma holds_recovery h r : holds h r ->
  match co_recovery_pools (res_owner h) with
  | Some c => grant_is_ordinary r = false /\ grant_recovery_kind r = Some (rch_kind c) /\ forall d, get (rch_shared c) d = m_shared d r /\ get (rch_protected c) d = m_protected d r
  | None => grant_is_ordinary r = true /\ grant_recovery_kind r = None
  end.
Proof.
  intros (_ & _ & Ho & _). unfold grant_owner in Ho. destruct (amounts_sub (gr_amounts r) (gr_shared r)) as [pr|] eqn:Hpr; [|done]. cbn [mbind option_bind] in Ho.
  unfold grant_is_ordinary, grant_recovery_kind. destruct (ordinary_kind (gr_kind r)) as [k|] eqn:Hk.
  - destruct (for_class (WorkKind_class k)) as [cp|]; [|done]. cbn [mbind option_bind] in Ho. destruct (grant_tenant_index r) as [i|]; [|done]. injection Ho as <-. split; [done|]. by destruct (gr_kind r).
  - destruct (recovery_kind (gr_kind r)) as [k|]; [|done]. cbn [mbind option_bind] in Ho. injection Ho as <-. do 2 (split; [done|]). intros d. rewrite amounts_sub_Some in Hpr. split; [done|]. cbn [rch_protected co_recovery_pools]. by destruct (Hpr d) as [-> _].
Qed.

Lemma holds_scope h r sc : holds h r -> in_recovery_scope sc h = in_scope sc r.
Proof. intros Hh. unfold in_recovery_scope, in_scope. by destruct (holds_owner h r Hh) as (-> & -> & _). Qed.

Lemma holds_shared h r d : holds h r -> (match co_recovery_pools (res_owner h) with Some c => get (rch_shared c) d | None => 0 end) = m_rshared d r.
Proof.
  intros Hh%holds_recovery. unfold m_rshared. destruct (co_recovery_pools (res_owner h)); [destruct Hh as (-> & _ & Hd); apply Hd|by destruct Hh as [-> _]].
Qed.

Lemma holds_protected h r k d : holds h r ->
  (match co_recovery_pools (res_owner h) with Some c => when (bool_decide (rch_kind c = k)) (get (rch_protected c) d) | None => 0 end) = m_rprotected k d r.
Proof.
  intros Hh%holds_recovery. unfold m_rprotected. destruct (co_recovery_pools (res_owner h)) as [c|].
  - destruct Hh as (_ & -> & Hd). destruct (Hd d) as [_ ->]. f_equal. by do 2 case_bool_decide; simplify_eq.
  - by destruct Hh as [_ ->].
Qed.

Lemma holds_uninterruptible h r : holds h r -> charged r = true -> m_uninterruptible r = when (uninterruptible h) 1.
Proof.
  intros Hh%holds_recovery Hc. unfold m_uninterruptible, uninterruptible, m_count. rewrite Hc. destruct (co_recovery_pools (res_owner h)); [by destruct Hh as (_ & -> & _)|by destruct Hh as [_ ->]].
Qed.

(** The books of a drained state are the sums over its handles. *)
Lemma system_refines n l hs : System n l hs -> (forall x, marked (lv_drops l) x = false) -> Refines (lv_state l) hs.
Proof.
  intros HS Hm. pose proof (inv_conserved _ _ (sy_inv _ _ _ HS)) as HC.
  assert (Hsum : forall f F, Charge f -> (forall h r, holds h r -> charged r = true -> f r = F h) ->
    rsum f (grant_records (grants (lv_state l))) = zsum F hs) by (intros f F Hf HF; apply (rsum_handles n); auto).
  assert (Hamount : forall h r d, holds h r -> get (gr_amounts r) d = get (res_amounts h) d) by (intros h r d (-> & _); done).
  split.
  - intros d. rewrite (cs_total _ _ _ HC). apply Hsum; [apply _|]. intros h r Hh _. by apply Hamount.
  - intros d. rewrite (cs_recovery _ _ _ HC). apply Hsum; [apply _|]. intros h r Hh _. destruct (holds_owner h r Hh) as (-> & _).
    unfold m_recovery, m_total. by rewrite (Hamount h).
  - intros i a d Ha. rewrite (cs_tenant _ _ _ HC i a d Ha). apply Hsum; [apply _|]. intros h r Hh _. unfold of_owner.
    destruct (holds_owner h r Hh) as (-> & -> & _). unfold m_tenant, m_total. by rewrite (Hamount h).
  - intros i a d Ha. rewrite (cs_recovery_tenant _ _ _ HC i a d Ha). apply Hsum; [apply _|]. intros h r Hh _. rewrite (holds_scope h r _ Hh).
    unfold m_recovery_tenant, m_total. by rewrite (Hamount h).
  - intros p d. rewrite (cs_pool _ _ _ HC). apply Hsum; [apply _|]. intros h r Hh _. symmetry. by apply (holds_owner h r Hh).
  - intros i a p d Ha. rewrite (cs_tenant_pool _ _ _ HC i a p d Ha). apply Hsum; [apply _|]. intros h r Hh _. unfold m_tenant_pool, of_owner, of_tenant.
    destruct (holds_owner h r Hh) as (_ & -> & _ & Hp). by rewrite <- (Hp p d).
  - intros d. rewrite (cs_rshared _ _ _ HC). apply Hsum; [apply _|]. intros h r Hh _. symmetry. by apply holds_shared.
  - intros k d. rewrite (cs_rprotected _ _ _ HC). apply Hsum; [apply _|]. intros h r Hh _. symmetry. by apply holds_protected.
  - intros d. rewrite (cs_sshared _ _ _ HC). apply Hsum; [apply _|]. intros h r Hh _. unfold m_rshared_at. by rewrite <- (holds_scope h r _ Hh), <- (holds_shared h r d Hh).
  - intros k d. rewrite (cs_sprotected _ _ _ HC). apply Hsum; [apply _|]. intros h r Hh _. unfold m_rprotected_at. by rewrite <- (holds_scope h r _ Hh), <- (holds_protected h r k d Hh).
  - intros i a d Ha. rewrite (cs_tshared _ _ _ HC i a d Ha). apply Hsum; [apply _|]. intros h r Hh _. unfold m_rshared_at. by rewrite <- (holds_scope h r _ Hh), <- (holds_shared h r d Hh).
  - intros i a k d Ha. rewrite (cs_tprotected _ _ _ HC i a k d Ha). apply Hsum; [apply _|]. intros h r Hh _. unfold m_rprotected_at. by rewrite <- (holds_scope h r _ Hh), <- (holds_protected h r k d Hh).
  - rewrite (cs_count _ _ _ HC), (Hsum m_count (fun _ => 1)); [|apply _|].
    + unfold zlen. clear. induction hs as [|h hs IH]; [done|]. rewrite zsum_cons, IH. cbn [length]. lia.
    + intros h r _ Hc. unfold m_count. by rewrite Hc.
  - rewrite (cs_ordinary_count _ _ _ HC). apply Hsum; [apply _|]. intros h r Hh Hc. destruct (holds_owner h r Hh) as (-> & _).
    unfold m_ordinary_count, m_count. by rewrite Hc.
  - rewrite (cs_recovery_count _ _ _ HC). apply Hsum; [apply _|]. intros h r Hh Hc. destruct (holds_owner h r Hh) as (-> & _).
    unfold m_recovery_count, m_count. by rewrite Hc.
  - rewrite (cs_uninterruptible _ _ _ HC). apply Hsum; [apply _|]. intros h r Hh Hc. by apply holds_uninterruptible.
  - intros c k Hk. rewrite (cs_class _ _ _ HC c k Hk). apply Hsum; [apply _|]. intros h r Hh Hc. destruct (holds_owner h r Hh) as (_ & _ & -> & _).
    unfold m_class, m_count. by rewrite Hc.
  - intros i k Hk. rewrite (cs_tenant_count _ _ _ HC i k Hk). apply Hsum; [apply _|]. intros h r Hh Hc. unfold of_owner.
    destruct (holds_owner h r Hh) as (_ & -> & _). unfold m_tenant_count, m_count. by rewrite Hc.
Qed.

(** With no handle held, a drained ledger has no record at all: a released root only waits for
    children, and every child is held. *)
Lemma system_empty n l : System n l [] -> (forall x, marked (lv_drops l) x = false) ->
  forall slot o, grant_records (grants (lv_state l)) !! slot = Some o -> o = None.
Proof.
  intros HS Hm. pose proof (inv_ops _ _ (sy_inv _ _ _ HS)) as Hops.
  assert (Hz : rsum m_count (grant_records (grants (lv_state l))) = 0).
  { rewrite (rsum_handles n l [] m_count (fun _ => 1) HS Hm); [done|apply _|]. intros h r _ _ Hc. unfold m_count. by rewrite Hc. }
  assert (Hcharged : forall slot r, grant_records (grants (lv_state l)) !! slot = Some (Some r) -> charged r = false).
  { intros slot r Hr. destruct (charged r) eqn:Hc; [|done]. exfalso.
    assert (H1 : opt_measure m_count (Some r) <= rsum m_count (grant_records (grants (lv_state l)))).
    { unfold rsum. eapply zsum_member; [|exact Hr]. intros [r'|] _; cbn; [|lia]. unfold m_count, when. destruct (charged r'); lia. }
    assert (H2 : opt_measure m_count (Some r) = 1) by (cbn; unfold m_count; by rewrite Hc). lia. }
  intros slot [r|] Hr; [|done]. exfalso. pose proof (Hcharged slot r Hr) as Hc. unfold charged in Hc.
  destruct (gr_operation r) as [[g [|] k|]|] eqn:Ho; try done. destruct (oo_root _ _ Hops slot r g false k Hr Ho) as [Hk Hpos]. specialize (Hpos eq_refl).
  assert (rsum (m_child slot) (grant_records (grants (lv_state l))) = 0); [|lia].
  apply rsum_zero. intros x r' Hr'. pose proof (Hcharged x r' Hr') as Hc'. unfold charged in Hc'. unfold m_child. by destruct (gr_operation r') as [[? [|] ?|]|].
Qed.

(** ** Runs *)

Section runs.
Context (allocates : BootstrapAllocationStage -> bool) (layout_bytes : Z -> Z -> option Z) (authority : Z).
Context (inventory : ResourceInventory) (policy : GovernorPolicy) (rpools : RecoveryPoolCapacities).

(** The governors, the held handles and the lost reservations that a sequence of operations reaches. *)
Definition reachable (g : GovernorInner) (gov : Governor) (hs lost : list ResourceReservation) : Prop :=
  exists gov0, establish allocates layout_bytes authority inventory policy rpools = Ok (g, gov0) /\ rtc (step g) (mkRun gov0 [] []) (mkRun gov hs lost).

Lemma reachable_ok g gov hs lost : configured inventory policy rpools -> reachable g gov hs lost ->
  exists n, Z.of_nat n <= u16_max /\ RunOk n g (mkRun gov hs lost) /\ Capacities g.
Proof.
  intros Hcfg (gov0 & He & Hrtc). destruct (establish_ok _ _ _ _ _ _ _ _ Hcfg He) as (n & Hn & HS & Hca). exists n. split; [done|]. split; [|done].
  assert (Hinv : forall s s', rtc (step g) s s' -> RunOk n g s -> RunOk n g s').
  { intros s s' Hr. induction Hr as [|s1 s2 s3 Hstep Hr IH]; [done|]. intros H. apply IH. by eapply step_ok. }
  apply (Hinv _ _ Hrtc). by split.
Qed.

Lemma reachable_step g gov hs lost gov' hs' lost' : reachable g gov hs lost -> step g (mkRun gov hs lost) (mkRun gov' hs' lost') -> reachable g gov' hs' lost'.
Proof. intros (gov0 & He & Hrtc) Hs. exists gov0. split; [done|]. by eapply rtc_r. Qed.

(** What the next operation sees after it drained dropped reservations. *)
Lemma run_refines n g gov hs : SystemOk n g gov hs -> Refines (lv_state (enter (g_live gov))) hs.
Proof. intros [HS _]. destruct (system_enter n _ hs HS) as [HS' Hm]. by apply (system_refines n). Qed.

Lemma open_lost_none n g gov hs lost : RunOk n g (mkRun gov hs lost) -> lifecycle (lv_state (enter (g_live gov))) <> Fenced -> lost = [].
Proof.
  intros [HS Hl] Hopen. destruct lost as [|x lost]; [done|]. exfalso. apply Hopen. eapply enter_fenced; [exact HS|]. by apply Hl.
Qed.

(** C6 (refinement). In every state that any sequence of admissions, resizes, cancellations, drops
    and control operations reaches, the accounting that the next operation sees after draining
    dropped reservations is exactly determined by the grants that were neither released nor
    dropped: every total, every tenant, pool and recovery pool usage and every counter of outstanding
    reservations is the sum over the handles that callers hold and over the reservations that
    resizes lost; and only a fenced governor has lost any. *)
Theorem accounting_refines_held_handles g gov hs lost :
  configured inventory policy rpools -> reachable g gov hs lost ->
  let st := lv_state (enter (g_live gov)) in Refines st (hs ++ lost) /\ (lifecycle st <> Fenced -> lost = []).
Proof.
  intros Hcfg Hr. destruct (reachable_ok g gov hs lost Hcfg Hr) as (n & _ & HR & _). split; [by apply (run_refines n g), HR|by apply (open_lost_none n g gov hs)].
Qed.

(** C23 (safety). Once no caller holds a handle, what is still charged is exactly the reservations that
    resizes lost, by an internal failure that returned the handle inactive without releasing it. In
    a governor that is not fenced there are none: the accounting is back to zero in every dimension, no
    reservation is outstanding and every slot of the grant ledger is free. *)
Theorem idle_governor_is_empty g gov lost :
  configured inventory policy rpools -> reachable g gov [] lost ->
  let st := lv_state (enter (g_live gov)) in
  Refines st lost
  /\ (lifecycle st <> Fenced -> lost = [] /\ total_usage (usage st) = amounts_zero /\ recovery_usage (usage st) = amounts_zero /\ outstanding (counts st) = 0
      /\ forall slot o, grant_records (grants st) !! slot = Some o -> o = None).
Proof.
  intros Hcfg Hr. destruct (reachable_ok g gov [] lost Hcfg Hr) as (n & _ & HR & _). pose proof (run_refines n g gov lost (proj1 HR)) as Href. cbv zeta.
  split; [done|]. intros Hopen. pose proof (open_lost_none n g gov [] lost HR Hopen) as ->. split; [done|]. split; [|split; [|split]].
  - apply amounts_ext. intros d. rewrite (rf_total _ _ Href), get_zero. done.
  - apply amounts_ext. intros d. rewrite (rf_recovery _ _ Href), get_zero. done.
  - by rewrite (rf_outstanding _ _ Href).
  - destruct HR as [[HS _] _]. destruct (system_enter n _ [] HS) as [HS' Hm]. by apply (system_empty n).
Qed.

(** C11 (liveness). A held reservation can always be released: in every reachable state, cancelling
    a held handle with the lock free succeeds and leaves exactly the other handles, unless the
    governor was fenced, in which case it is still released and the caller is told of the fence. *)
Theorem held_reservation_is_releasable g gov h hs lost gov' h' r :
  configured inventory policy rpools -> reachable g gov (h :: hs) lost -> g_poisoned gov = false -> cancel false h gov = (gov', h', r) ->
  res_active h' = false
  /\ r = (if bool_decide (lifecycle (lv_state (enter (g_live gov))) = Fenced) then Err GovernorFailureFenced else Ok Released)
  /\ reachable g gov' hs lost /\ Refines (lv_state (enter (g_live gov'))) (hs ++ lost).
Proof.
  intros Hcfg Hr Hpoison Hcancel. destruct (reachable_ok g gov _ _ Hcfg Hr) as (n & _ & [HS _] & _). cbn [run_governor run_held run_lost app] in HS.
  pose proof (held_active _ _ _ _ _ HS) as Hact.
  pose proof Hcancel as Hc. unfold cancel in Hc. rewrite Hact in Hc. cbn [negb] in Hc. destruct (try_release false h gov) as [gov1 status] eqn:Ht.
  pose proof (try_release_ok n g _ _ _ _ _ _ HS Ht) as Hrel. rewrite Hpoison in Hrel. cbn [orb] in Hrel. destruct Hrel as [-> HS1].
  cbn [applied_status rs_applied rs_result orb] in Hc. injection Hc as <- <- <-. split; [done|]. split; [done|].
  split; [|by apply (run_refines n g)]. eapply reachable_step; [exact Hr|]. exact (step_cancel g false h gov hs lost gov1 _ _ Hcancel).
Qed.

(** The total use is within the ceiling. *)
Lemma within_total n l d g : Inv n l -> Within g (usage (lv_state l)) -> Capacities g ->
  get (total_usage (usage (lv_state l))) d <= get (total_ceiling g) d.
Proof.
  intros HI HW Hca. pose proof (conserved_recovery _ _ _ d (inv_conserved _ _ HI)) as Hrec.
  pose proof (wi_shared _ _ HW d) as Hsh. pose proof (ca_shared _ Hca d) as Hcap. unfold kinds_sum in Hcap.
  assert (zsum (fun k => get (usage_protected (recovery_pool_usage (usage (lv_state l))) k) d) ALL_RECOVERY_KINDS
    <= zsum (fun k => get (recovery_get (recovery_pool_capacities g) k) d) ALL_RECOVERY_KINDS) by (apply zsum_le; intros k _; apply HW). lia.
Qed.

(** C10 (invariant). No run oversubscribes the instance. In every reachable state the total use is
    within the ceiling, ordinary work is within its own ceiling, every ordinary pool and the
    protected pool of every recovery kind is within its capacity, so that ordinary work can never
    take what is reserved for recovery. *)
Theorem capacity_is_never_oversubscribed g gov hs lost :
  configured inventory policy rpools -> reachable g gov hs lost ->
  let u := usage (lv_state (g_live gov)) in forall d,
  get (total_usage u) d <= get (total_ceiling g) d
  /\ get (total_usage u) d - get (recovery_usage u) d <= get (ordinary_ceiling g) d
  /\ (forall p, get (pool_get (pool_usage u) p) d <= get (pool_get (pool_capacities g) p) d)
  /\ forall k, get (usage_protected (recovery_pool_usage u) k) d <= get (recovery_get (recovery_pool_capacities g) k) d.
Proof.
  intros Hcfg Hr u d. destruct (reachable_ok g gov hs lost Hcfg Hr) as (n & _ & [[HS HW] _] & Hca).
  split; [by apply (within_total n); [apply HS|..]|split; [apply HW|split; [intros p; apply HW|intros k; apply HW]]].
Qed.

(** A refusal [f] was counted under its code, and nothing else changed; a refusal because of contention is not counted. *)
Definition refusal_counted (l l' : Live) (f : AdmissionFailure) : Prop :=
  if bool_decide (af_code f = GovernorContended) then l' = l
  else exists count, rejection_counts (lv_state l) !! code_index (af_code f) = Some count
    /\ l' = set_state l (set_rejection_counts (lv_state l) (<[code_index (af_code f) := count + 1]> (rejection_counts (lv_state l)))).

Lemma refusal_recorded l f : let l' := set_state l (record_refusal_locked (lv_state l) f) in
  refusal_counted l l' f \/ (lifecycle (lv_state l') = Fenced /\ SameBooks l l').
Proof.
  cbv zeta. pose proof (refusal_same_books l f) as HB. revert HB. unfold record_refusal_locked, refusal_counted. case_bool_decide; [left; by destruct l|]. cbv zeta.
  destruct (_ ≫= _); [|by right]. destruct (rejection_counts (lv_state l) !! code_index (af_code f)) as [count|] eqn:Hc; [|by right]. cbn [mbind option_bind].
  destruct (checked_add u64_max count 1) as [c|] eqn:Hadd; [|by right]. apply checked_add_Some in Hadd as [-> _]. rewrite (store_at_ok _ _ _ _ Hc). intros _. left. by exists count.
Qed.

Lemma unadmitted_recorded l l1 f : Unadmitted l l1 -> let l' := set_state l1 (record_refusal_locked (lv_state l1) f) in
  refusal_counted l l' f \/ (lifecycle (lv_state l') = Fenced /\ SameBooks l l').
Proof.
  intros Hu. cbv zeta. pose proof (same_books_trans _ _ _ (unadmitted_same _ _ Hu) (refusal_same_books l1 f)) as HB.
  destruct Hu as [->|[gen ->]]; [apply refusal_recorded|]. right. split; [|done]. by apply refusal_fenced.
Qed.

(** C24 (error). A refused admission is atomic. With the lock taken, a refusal changes nothing of the
    state it was decided in but the number of rejections with its code, which goes up by one (a contended
    lock is not counted); or it fences the governor, and then still leaves the usage, the outstanding
    counts, the grants and the free slots, the tenants, the disk pressure and the drop marks as they
    were. *)
Theorem refused_admission_is_atomic g gov hs lost :
  configured inventory policy rpools -> reachable g gov hs lost -> g_poisoned gov = false ->
  let l := enter (g_live gov) in
  (forall claim gov' f, (forall d, 0 <= get (claim_amounts claim) d) -> reserve_ordinary g false claim gov = (gov', Err f) ->
    refusal_counted l (g_live gov') f \/ (lifecycle (lv_state (g_live gov')) = Fenced /\ SameBooks l (g_live gov')))
  /\ forall claim gov' f, (forall d, 0 <= get (rclaim_amounts claim) d) -> reserve_recovery g false claim gov = (gov', Err f) ->
    refusal_counted l (g_live gov') f \/ (lifecycle (lv_state (g_live gov')) = Fenced /\ SameBooks l (g_live gov')).
Proof.
  intros Hcfg Hr Hp. destruct (reachable_ok g gov hs lost Hcfg Hr) as (n & Hn & [[HS _] _] & _). destruct (system_enter n _ _ HS) as [HS' _]. cbv zeta. cbn [run_governor] in HS'.
  split; intros claim gov' f Ha; [unfold reserve_ordinary|unfold reserve_recovery]; unfold lock_for_admission; rewrite Hp; cbn [g_live set_live].
  - pose proof (reserve_ordinary_admits n g claim _ Hn (sy_inv _ _ _ HS') Ha) as Had. destruct (reserve_ordinary_locked g claim _) as [l2 [h|e]]; [done|].
    destruct Had as [Had _]. intros [= <- <-]. by apply unadmitted_recorded.
  - pose proof (reserve_recovery_admits n g claim _ Hn (sy_inv _ _ _ HS') Ha) as Had. destruct (reserve_recovery_locked g claim _) as [l2 [h|e]]; [done|].
    destruct Had as [Had _]. intros [= <- <-]. by apply unadmitted_recorded.
Qed.

(** C26 (bounds). An ordinary admission is granted only within the bounds of its tenant: afterwards the
    tenant's use is within its quota, and its use of each pool has not grown past its fair share
    of that pool. *)
Theorem granted_admission_respects_tenant g gov hs lost contended claim gov' h :
  configured inventory policy rpools -> reachable g gov hs lost -> (forall d, 0 <= get (claim_amounts claim) d) ->
  reserve_ordinary g contended claim gov = (gov', Ok h) ->
  exists i a limit tp fair tp0, handle_tenant h = Some i
    /\ ordinary_tenant_usage (usage (lv_state (g_live gov'))) !! i = Some a
    /\ tenant_limits (topology (lv_state (enter (g_live gov)))) !! i = Some limit
    /\ ordinary_tenant_pool_usage (usage (lv_state (g_live gov'))) !! i = Some tp
    /\ tenant_fair_capacities (topology (lv_state (enter (g_live gov)))) !! i = Some fair
    /\ ordinary_tenant_pool_usage (usage (lv_state (enter (g_live gov)))) !! i = Some tp0
    /\ forall d, get a d <= get limit d
      /\ forall p, get (pool_get tp p) d <= Z.max (get (pool_get fair p) d) (get (pool_get tp0 p) d).
Proof.
  intros Hcfg Hr Ha. destruct (reachable_ok g gov hs lost Hcfg Hr) as (n & Hn & [[HS _] _] & _). destruct (system_enter n _ _ HS) as [HS' _]. cbn [run_governor] in HS'.
  unfold reserve_ordinary, lock_for_admission. destruct contended; [done|]. destruct (g_poisoned gov); [done|]. cbn [g_live set_live].
  pose proof (reserve_ordinary_admits n g claim _ Hn (sy_inv _ _ _ HS') Ha) as Had. destruct (reserve_ordinary_locked g claim _) as [l2 [h'|e]]; [|done].
  destruct Had as [(rec & _ & Hh & _) Hplan]. destruct (Hplan h' eq_refl) as (plan & Hp & Hu & Ho). cbn. intros [= <- <-]. cbn.
  destruct (po_limit _ _ _ _ Hp) as (a & limit & Hat & Hlim & Hle). destruct (po_tenant _ _ _ _ Hp) as (a1 & Ha1 & Hadd).
  assert (a1 = a) as -> by congruence. rewrite amounts_add_Some in Hadd.
  destruct (po_pools _ _ _ _ Hp) as (tp & fair & Htp & Hfair & Hpp & Hpadd). rewrite pools_add_Some in Hpadd.
  exists (op_tenant_index plan), (op_tenant plan), limit, (op_tenant_pool_candidate plan), fair, tp. rewrite Hu. cbn [ordinary_usage_after ordinary_tenant_usage ordinary_tenant_pool_usage].
  unfold handle_tenant. rewrite Ho, !list_lookup_insert_eq by (by eapply lookup_lt_Some). do 6 (split; [done|]). intros d.
  split; [specialize (Hle d); specialize (Hadd d); lia|]. intros p. destruct (Hpadd p d) as [-> _].
  pose proof (pp_tenant _ _ _ _ Hpp p d) as Ht. cbn [pa_tenant_capacity pa_tenant_usage] in Ht. lia.
Qed.

(** A resize that fails without surrendering the reservation. *)
Lemma failed_resize_untouched n g h new preserve gov hs gov' f : (forall d, 0 <= get new d) -> SystemOk n g gov (h :: hs) -> g_poisoned gov = false ->
  resize g false (request h new preserve) gov = (gov', Err f) -> surrendered h f = false ->
  (gov' = gov \/ SameBooks (enter (g_live gov)) (g_live gov')) /\ (rf_disposition f = CancelledBeforeLimit -> rf_code f = ResizeInternalFenced).
Proof.
  intros Hnew HS Hp Hres Hs. pose proof (safe_enter n g _ _ HS) as HSl. revert Hres. unfold resize. cbn [rq_identity rq_owner request].
  assert (Hbody : forall class body, resized n g h new (enter (g_live gov)) (body (enter (g_live gov))).1 (body (enter (g_live gov))).2 ->
    locked_resize false class body gov = (gov', Err f) ->
    (gov' = gov \/ SameBooks (enter (g_live gov)) (g_live gov')) /\ (rf_disposition f = CancelledBeforeLimit -> rf_code f = ResizeInternalFenced)).
  { intros class body Hb. unfold locked_resize, lock_for_admission. rewrite Hp. cbn [g_live set_live]. destruct (body (enter (g_live gov))) as [l2 [c|f2]]; [done|].
    cbn [fst snd finish_resize resized] in *. assert (Hf : forall l3, (set_live (set_live gov (enter (g_live gov))) l3, @Err ResizeFailure ResizeCommit f2) = (gov', Err f) -> gov' = set_live (set_live gov (enter (g_live gov))) l3 /\ f2 = f) by (by intros l3 [= <- <-]).
    intros Heq. assert (f2 = f) as -> by (by destruct (resize_admission_failure f2); apply Hf in Heq as [_ ->]). rewrite Hs in Hb. destruct Hb as [Hu Hcode]. split; [right|by intros Hd; apply Hcode].
    apply untouched_same in Hu. destruct (resize_admission_failure f); injection Heq as <-; cbn; [|done]. eapply same_books_trans; [exact Hu|apply refusal_same_books]. }
  destruct (sy_held _ _ _ (proj1 HSl) h ltac:(constructor)) as (Hact & rec & Hr & Hc & Hh).
  destruct (res_identity h) as [t p kind|sc kind] eqn:Hid, (co_attribution (res_owner h)) as [i|ti] eqn:Hattr; try (intros [= <- <-]; split; [by left|done]); apply Hbody.
  - eapply (resize_ordinary_locked_ok n g h new preserve Hnew _ rec); try done; [apply HSl|by eauto|by rewrite Hid].
  - eapply (resize_recovery_locked_ok n g h new preserve Hnew _ rec); try done; [apply HSl|by eauto].
Qed.

(** C25 (functional). A resize of a held reservation with the lock free has one of four outcomes.
    Committed, it leaves the handle active with the new amounts, reports what it released and what
    it added in each dimension, and moves the total use by exactly the difference. Surrendered, it
    leaves an inactive handle and takes exactly the old amounts out of the total use. Otherwise it
    changes no usage, outstanding count or grant, and the handle is returned as it was, with one
    exception: a failure reported as an internal fence may return the handle inactive although its
    amounts stay charged, and then the governor is fenced. In each case the books are those of the
    handles that remain and of the lost reservations. *)
Theorem resize_is_exact g gov h hs lost new preserve gov' h' r :
  configured inventory policy rpools -> reachable g gov (h :: hs) lost -> g_poisoned gov = false -> (forall d, 0 <= get new d) ->
  try_resize_with_policy g false h new preserve gov = (gov', h', r) ->
  let before := get (total_usage (usage (lv_state (enter (g_live gov))))) in
  let after := get (total_usage (usage (lv_state (enter (g_live gov'))))) in
  reachable g gov' (after_resize h' ++ hs) (lost_by_resize h h' r ++ lost) /\
  Refines (lv_state (enter (g_live gov'))) (after_resize h' ++ hs ++ lost_by_resize h h' r ++ lost) /\
  match r with
  | Ok outcome => res_active h' = true /\ res_amounts h' = new /\ outcome = resize_outcome (res_amounts h) new
      /\ forall d, after d = before d - get (ro_released outcome) d + get (ro_added outcome) d
  | Err f =>
      if surrendered h f then res_active h' = false /\ forall d, after d = before d - get (res_amounts h) d
      else (gov' = gov \/ SameBooks (enter (g_live gov)) (g_live gov')) /\ (forall d, after d = before d)
        /\ (h' = h \/ (res_active h' = false /\ rf_code f = ResizeInternalFenced /\ lifecycle (lv_state (g_live gov')) = Fenced))
  end.
Proof.
  intros Hcfg Hr Hp Hnew Hres before after. destruct (reachable_ok g gov _ _ Hcfg Hr) as (n & _ & [HS Hlost] & Hca). cbn [run_governor run_held run_lost app] in HS.
  assert (Hr' : reachable g gov' (after_resize h' ++ hs) (lost_by_resize h h' r ++ lost)) by (eapply reachable_step; [exact Hr|by eapply step_resize]).
  split; [done|]. destruct (reachable_ok g gov' _ _ Hcfg Hr') as (n' & _ & [HS' _] & _). cbn [run_governor run_held run_lost] in HS'. rewrite <- app_assoc in HS'.
  pose proof (run_refines n' g gov' _ HS') as Href'. split; [done|]. pose proof (run_refines n g gov _ HS) as Href.
  assert (Hsum : forall gv hl, Refines (lv_state (enter (g_live gv))) hl -> forall d, get (total_usage (usage (lv_state (enter (g_live gv))))) d = zsum (fun h => get (res_amounts h) d) hl)
    by (intros gv hl H d; apply (rf_total _ _ H)).
  assert (Hb : forall d, before d = get (res_amounts h) d + zsum (fun h => get (res_amounts h) d) (hs ++ lost)) by (intros d; apply (Hsum gov _ Href)).
  pose proof (Hsum gov' _ Href') as Ha. fold after in Ha. clear Hsum Href Href' HS' Hr'.
  pose proof (held_active _ _ _ _ _ HS) as Hact. pose proof (try_resize_fenced _ _ _ _ _ _ _ _ _ _ _ Hnew HS Hres) as [_ Hfence].
  unfold try_resize_with_policy in Hres. rewrite Hact in Hres. cbn [negb] in Hres.
  assert (Hretained : h' = h -> forall f, r = Err f -> forall d, after d = before d).
  { intros -> f -> d. rewrite Ha, Hb. unfold after_resize, lost_by_resize. by rewrite Hact, orb_true_r. }
  destruct (amounts_is_empty new). { injection Hres as <- <- <-. split; [by left|]. split; [by eapply Hretained|by left]. }
  fold (request h new preserve) in Hres. destruct (resize _ _ _ _) as [gov1 [commit|f]] eqn:Hrz.
  - injection Hres as <- <- <-. split; [done|]. split; [done|].
    pose proof (locked_resize_outcome n g h new preserve false gov (hs ++ lost) gov1 commit Hca Hnew HS Hrz) as Hout.
    split; [exact Hout|]. intros d. rewrite Ha, Hb, Hout. unfold after_resize. cbn [resized_handle res_active]. rewrite Hact. cbn [lost_by_resize app resize_outcome ro_released ro_added].
    rewrite zsum_cons. unfold excess_over, saturating_sub. rewrite !get_zip_map. cbn [resized_handle res_amounts]. lia.
  - case_bool_decide as Hd; injection Hres as <- <- <-; destruct (surrendered h f) eqn:Hs.
    + split; [done|]. intros d. rewrite Ha, Hb. unfold after_resize, lost_by_resize. cbn [set_inactive res_active app]. rewrite Hs. cbn [orb app]. lia.
    + destruct (failed_resize_untouched n g h new preserve gov (hs ++ lost) gov1 f Hnew HS Hp Hrz Hs) as [H1 H2]. split; [done|]. split.
      * intros d. rewrite Ha, Hb. unfold after_resize, lost_by_resize. cbn [set_inactive res_active app]. rewrite Hs. cbn [orb app]. rewrite !zsum_app, zsum_cons. lia.
      * right. split; [done|]. split; [by apply H2|]. apply Hfence. unfold lost_by_resize. cbn [set_inactive res_active]. by rewrite Hs.
    + unfold surrendered in Hs. by rewrite bool_decide_eq_false_2 in Hs.
    + destruct (failed_resize_untouched n g h new preserve gov (hs ++ lost) gov1 f Hnew HS Hp Hrz Hs) as [H1 _]. split; [done|]. split; [by eapply Hretained|by left].
Qed.

(** C36 (liveness). Giving capacity back never fails: with the lock free and the governor not fenced, a held
    ordinary reservation can always be resized to any smaller nonempty amounts, whatever the disk
    pressure, also during shutdown, and nothing is added. *)
Theorem shrinking_always_succeeds g gov h hs lost new preserve :
  configured inventory policy rpools -> reachable g gov (h :: hs) lost -> g_poisoned gov = false -> amounts_ok (total_ceiling g) ->
  lifecycle (lv_state (enter (g_live gov))) <> Fenced -> (exists t p kind, res_identity h = IdentityOrdinary t p kind) ->
  (forall d, 0 <= get new d <= get (res_amounts h) d) -> amounts_is_empty new = false ->
  exists gov' h', try_resize_with_policy g false h new preserve gov = (gov', h', Ok (mkResizeOutcome (excess_over (res_amounts h) new) amounts_zero))
    /\ res_amounts h' = new /\ res_active h' = true.
Proof.
  intros Hcfg Hr Hp Hmax Hopen Hid Hle Hne. destruct (reachable_ok g gov _ _ Hcfg Hr) as (n & _ & [HS0 _] & Hca). cbn [run_governor run_held run_lost app] in HS0.
  pose proof (safe_enter n g _ _ HS0) as [HS HW]. destruct (sy_held _ _ _ HS h ltac:(constructor)) as (Hsig & rec & Hrec & Hc & Hh).
  assert (Hact : res_active h = true) by apply Hh. unfold try_resize_with_policy. rewrite Hact, Hne. cbn [negb]. unfold resize. cbn [rq_identity rq_owner].
  destruct (Hid) as (t & p & kind & Hident). rewrite Hident.
  assert (Hattr : exists i, co_attribution (res_owner h) = AttrOrdinary i).
  { pose proof (holds_owner h rec Hh) as (Hho & _). destruct Hh as (_ & _ & _ & _ & Hk). rewrite Hident in Hk. destruct Hk as (_ & Hk & _).
    unfold handle_ordinary in Hho. destruct (co_attribution (res_owner h)); [eauto|]. unfold grant_is_ordinary in Hho. rewrite Hk in Hho. by destruct kind. }
  destruct Hattr as [i Hattr]. rewrite Hattr. unfold resize_ordinary, locked_resize, lock_for_admission. rewrite Hp. cbn [g_live set_live].
  destruct (shrink_ordinary_locked_run n g h new preserve ltac:(intros d; apply Hle) (enter (g_live gov)) rec i (sy_inv _ _ _ HS) Hrec Hc Hh Hsig Hattr Hid Hopen)
    as (l' & commit & Hrun).
  { intros d. apply Hle. }
  { intros d. etransitivity; [apply (within_total n _ d g (sy_inv _ _ _ HS) HW Hca)|apply Hmax]. }
  pose proof (resize_ordinary_locked_ok n g h new preserve ltac:(intros d; apply Hle) (enter (g_live gov)) rec i _ (sy_inv _ _ _ HS) Hrec Hc Hh Hsig Hattr Hid eq_refl) as Hok.
  unfold request in Hrun, Hok. rewrite Hident in Hrun, Hok. cbn [identity_class] in Hrun, Hok. rewrite Hrun in *. cbn [fst snd resized finish_resize] in *.
  destruct Hok as (r' & _ & _ & _ & Hout & _). eexists _, _. split; [rewrite Hout; do 2 f_equal|split; [done|exact Hact]].
  unfold resize_outcome. f_equal. apply amounts_ext. intros d. unfold excess_over, saturating_sub. rewrite get_zip_map, get_zero. specialize (Hle d). lia.
Qed.
End runs.

(** ** A sample run *)

(** One tenant, thirty-two slots; every dimension has two hundred units, forty of them reserved. *)
Module Sample.
Definition tenant : TenantId := mkTenantId [1].
Definition principal : PrincipalId := mkPrincipalId [7].
Definition inventory : ResourceInventory :=
  mkInventory (uniform 200) (uniform 40) (mkCardinality 2 32) (mkThresholds 40 41 42 43) 200.
Definition policy : GovernorPolicy :=
  mkGovernorPolicy [mkQuota tenant 1 (uniform 150)] (mkPoolPolicy (uniform 20) (uniform 20) (uniform 10) (uniform 10)) None.
Definition rpools : RecoveryPoolCapacities :=
  mkRecoveryPools (uniform 4) (uniform 4) (uniform 4) (uniform 4) (uniform 4) (uniform 4) (uniform 4).
Definition established : result GovernorFailure (GovernorInner * Governor) :=
  establish (fun _ => true) (fun _ _ => Some 1) 77 inventory policy rpools.

Definition ingest (amount : Z) : WorkClaim := mkClaim tenant None Ingest (uniform amount) None.
Definition repair (amount : Z) : RecoveryWorkClaim := mkRecoveryClaim (ScopeTenant tenant) Repair (uniform amount).

(** Two reservations, the older of which is dropped, and one recovery reservation. *)
Definition script : option (GovernorInner * list (Governor * list ResourceReservation)) :=
  match established with
  | Err _ => None
  | Ok (g, gov0) =>
      match reserve_ordinary g false (ingest 60) gov0 with
      | (gov1, Ok h1) =>
          match reserve_ordinary g false (ingest 25) gov1 with
          | (gov2, Ok h2) =>
              match reserve_recovery g false (repair 3) gov2 with
              | (gov3, Ok h3) => Some (g, [(gov0, []); (gov1, [h1]); (gov2, [h2; h1]); (gov3, [h3; h2; h1]); (gov3, [h1; h3; h2]); (drop_reservation h1 gov3, [h3; h2])])
              | _ => None
              end
          | _ => None
          end
      | _ => None
      end
  end.

Definition inner : GovernorInner := ltac:(let x := eval vm_compute in script in lazymatch x with Some (?g, _) => exact g end).
Definition states : list (Governor * list ResourceReservation) := ltac:(let x := eval vm_compute in script in lazymatch x with Some (_, ?s) => exact s end).
Definition state (i : nat) : option (Governor * list ResourceReservation) := states !! i.
Definition gov0 : Governor := ltac:(let x := eval vm_compute in (state 0) in lazymatch x with Some (?g, _) => exact g end).
Definition gov1 : Governor := ltac:(let x := eval vm_compute in (state 1) in lazymatch x with Some (?g, _) => exact g end).
Definition gov2 : Governor := ltac:(let x := eval vm_compute in (state 2) in lazymatch x with Some (?g, _) => exact g end).
Definition gov3 : Governor := ltac:(let x := eval vm_compute in (state 3) in lazymatch x with Some (?g, _) => exact g end).
Definition h1 : ResourceReservation := ltac:(let x := eval vm_compute in (state 1) in lazymatch x with Some (_, [?h]) => exact h end).
Definition h2 : ResourceReservation := ltac:(let x := eval vm_compute in (state 2) in lazymatch x with Some (_, [?h; _]) => exact h end).
Definition h3 : ResourceReservation := ltac:(let x := eval vm_compute in (state 3) in lazymatch x with Some (_, [?h; _; _]) => exact h end).
End Sample.

Definition sample_reachable (gov : Governor) (hs : list ResourceReservation) : Prop :=
  reachable (fun _ => true) (fun _ _ => Some 1) 77 Sample.inventory Sample.policy Sample.rpools Sample.inner gov hs [].

Lemma sample_configured : configured Sample.inventory Sample.policy Sample.rpools.
Proof.
  split; [exists 2, 32; split; [reflexivity|lia]|]. split; [|vm_compute; reflexivity].
  exists (uniform 20), (uniform 20), (uniform 10), (uniform 10). vm_compute. reflexivity.
Qed.

Lemma uniform_nonneg v d : 0 <= v -> 0 <= get (uniform v) d.
Proof. by rewrite get_uniform. Qed.

Lemma sample_start : sample_reachable Sample.gov0 [].
Proof. exists Sample.gov0. split; [vm_compute; reflexivity|apply rtc_refl]. Qed.

Lemma sample_step s gov hs gov' hs' : sample_reachable gov hs -> step Sample.inner (mkRun gov hs []) s -> s = mkRun gov' hs' [] -> sample_reachable gov' hs'.
Proof. intros Hr Hs ->. by eapply reachable_step. Qed.

(** The two ordinary reservations and the recovery reservation are held. *)
Lemma sample_held : sample_reachable Sample.gov3 [Sample.h3; Sample.h2; Sample.h1].
Proof.
  eapply sample_step; [|apply (step_recovery _ false (Sample.repair 3) Sample.gov2 _ _ Sample.gov3 (Ok Sample.h3));
    [intros d; apply uniform_nonneg; lia|vm_compute; reflexivity]|reflexivity].
  eapply sample_step; [|apply (step_ordinary _ false (Sample.ingest 25) Sample.gov1 _ _ Sample.gov2 (Ok Sample.h2));
    [intros d; apply uniform_nonneg; lia|vm_compute; reflexivity]|reflexivity].
  eapply sample_step; [apply sample_start|apply (step_ordinary _ false (Sample.ingest 60) Sample.gov0 _ _ Sample.gov1 (Ok Sample.h1));
    [intros d; apply uniform_nonneg; lia|vm_compute; reflexivity]|reflexivity].
Qed.

(** Dropping all three handles. *)
Definition sample_idle : Governor := drop_reservation Sample.h1 (drop_reservation Sample.h2 (drop_reservation Sample.h3 Sample.gov3)).

Lemma sample_dropped : sample_reachable sample_idle [].
Proof. do 3 (eapply sample_step; [|apply step_drop|reflexivity]). apply sample_held. Qed.

Lemma accounting_refines_held_handles_witness :
  get (total_usage (usage (lv_state (enter (g_live (drop_reservation Sample.h3 Sample.gov3)))))) QueueSlots = 85
  /\ Refines (lv_state (enter (g_live (drop_reservation Sample.h3 Sample.gov3)))) [Sample.h2; Sample.h1].
Proof.
  split; [vm_compute; reflexivity|].
  refine (proj1 (accounting_refines_held_handles _ _ _ _ _ _ _ _ [Sample.h2; Sample.h1] [] sample_configured _)). eapply sample_step; [apply sample_held|apply step_drop|reflexivity].
Defined.

Lemma idle_governor_is_empty_witness :
  total_usage (usage (lv_state (g_live sample_idle))) = uniform 88
  /\ total_usage (usage (lv_state (enter (g_live sample_idle)))) = amounts_zero.
Proof. split; [vm_compute; reflexivity|]. refine (proj1 (proj2 (proj2 (idle_governor_is_empty _ _ _ _ _ _ _ _ _ sample_configured sample_dropped) _))). vm_compute. discriminate. Defined.

Lemma held_reservation_is_releasable_witness :
  exists gov' h', cancel false Sample.h3 Sample.gov3 = (gov', h', Ok Released) /\ sample_reachable gov' [Sample.h2; Sample.h1].
Proof.
  destruct (cancel false Sample.h3 Sample.gov3) as [[gov' h'] r] eqn:Hc. exists gov', h'.
  destruct (held_reservation_is_releasable _ _ _ _ _ _ _ _ _ _ _ gov' h' r sample_configured sample_held ltac:(reflexivity) Hc) as (_ & Hr & Hreach & _).
  split; [|exact Hreach]. rewrite Hr. vm_compute. reflexivity.
Defined.

Lemma capacity_is_never_oversubscribed_witness :
  get (total_usage (usage (lv_state (g_live Sample.gov3)))) MemoryBytes = 88 /\ 88 <= get (total_ceiling Sample.inner) MemoryBytes.
Proof.
  split; [vm_compute; reflexivity|].
  pose proof (proj1 (capacity_is_never_oversubscribed _ _ _ _ _ _ _ _ _ _ sample_configured sample_held MemoryBytes)) as H.
  assert (Heq : get (total_usage (usage (lv_state (g_live Sample.gov3)))) MemoryBytes = 88) by (vm_compute; reflexivity). rewrite Heq in H. exact H.
Defined.

(** The tenant holds eighty-five units of its pools and asks for fifty more, which its share of
    the shared pool and the pool of its class no longer has. *)
Lemma refused_admission_is_atomic_witness :
  exists gov' f, reserve_ordinary Sample.inner false (Sample.ingest 50) Sample.gov3 = (gov', Err f)
    /\ refusal_counted (enter (g_live Sample.gov3)) (g_live gov') f.
Proof.
  destruct (reserve_ordinary Sample.inner false (Sample.ingest 50) Sample.gov3) as [gov' [h|f]] eqn:Hr; [vm_compute in Hr; discriminate|].
  exists gov', f. split; [reflexivity|].
  destruct (proj1 (refused_admission_is_atomic _ _ _ _ _ _ _ _ _ _ sample_configured sample_held eq_refl) (Sample.ingest 50) gov' f
    ltac:(intros d; apply uniform_nonneg; lia) Hr) as [H|[H _]]; [exact H|].
  assert (Heq : lifecycle (lv_state (g_live (reserve_ordinary Sample.inner false (Sample.ingest 50) Sample.gov3).1)) = Open) by (vm_compute; reflexivity).
  rewrite Hr in Heq. cbn [fst] in Heq. congruence.
Defined.

Lemma granted_admission_respects_tenant_witness :
  exists i a limit, handle_tenant Sample.h2 = Some i /\ ordinary_tenant_usage (usage (lv_state (g_live Sample.gov2))) !! i = Some a
    /\ forall d, get a d <= get limit d.
Proof.
  destruct (granted_admission_respects_tenant (fun _ => true) (fun _ _ => Some 1) 77 Sample.inventory Sample.policy Sample.rpools Sample.inner
    Sample.gov1 [Sample.h1] [] false (Sample.ingest 25) Sample.gov2 Sample.h2 sample_configured) as (i & a & limit & tp & fair & tp0 & Hi & Ha & _ & _ & _ & _ & Hd).
  - eapply sample_step; [apply sample_start|apply (step_ordinary _ false (Sample.ingest 60) Sample.gov0 _ _ Sample.gov1 (Ok Sample.h1));
      [intros d; apply uniform_nonneg; lia|vm_compute; reflexivity]|reflexivity].
  - intros d. apply uniform_nonneg. lia.
  - vm_compute. reflexivity.
  - exists i, a, limit. split; [exact Hi|]. split; [exact Ha|]. intros d. exact (proj1 (Hd d)).
Defined.

Lemma sample_held_first : sample_reachable Sample.gov3 [Sample.h1; Sample.h3; Sample.h2].
Proof.
  eapply sample_step; [apply sample_held|apply (step_order _ Sample.gov3 _ [Sample.h1; Sample.h3; Sample.h2] _)|reflexivity].
  by rewrite (Permutation_app_comm [Sample.h3; Sample.h2] [Sample.h1]).
Qed.

(** The reservation of sixty units grows by five. *)
Lemma resize_is_exact_witness :
  exists gov' h', try_resize_with_policy Sample.inner false Sample.h1 (uniform 65) false Sample.gov3
      = (gov', h', Ok (mkResizeOutcome amounts_zero (uniform 5)))
    /\ sample_reachable gov' [h'; Sample.h3; Sample.h2]
    /\ get (total_usage (usage (lv_state (enter (g_live gov'))))) MemoryBytes = 93.
Proof.
  destruct (try_resize_with_policy Sample.inner false Sample.h1 (uniform 65) false Sample.gov3) as [[gov' h'] r] eqn:Hr. exists gov', h'.
  assert (Hres : r = Ok (mkResizeOutcome amounts_zero (uniform 5))).
  { assert (Heq : (try_resize_with_policy Sample.inner false Sample.h1 (uniform 65) false Sample.gov3).2 = Ok (mkResizeOutcome amounts_zero (uniform 5)))
      by (vm_compute; reflexivity). rewrite Hr in Heq. exact Heq. }
  destruct (resize_is_exact _ _ _ _ _ _ _ _ _ _ _ (uniform 65) _ _ _ _ sample_configured sample_held_first ltac:(reflexivity) ltac:(intros d; apply uniform_nonneg; lia) Hr)
    as (Hreach & _ & Hout). rewrite Hres in Hreach, Hout. split; [by rewrite Hres|]. destruct Hout as (Hactive & _ & _ & Hd).
  unfold after_resize in Hreach. rewrite Hactive in Hreach. split; [exact Hreach|].
  rewrite (Hd MemoryBytes). vm_compute. reflexivity.
Defined.

Lemma shrinking_always_succeeds_witness :
  exists gov' h', try_resize_with_policy Sample.inner false Sample.h1 (uniform 20) false Sample.gov3
      = (gov', h', Ok (mkResizeOutcome (excess_over (uniform 60) (uniform 20)) amounts_zero)) /\ res_amounts h' = uniform 20.
Proof.
  destruct (shrinking_always_succeeds _ _ _ _ _ _ _ _ _ _ _ (uniform 20) false sample_configured sample_held_first) as (gov' & h' & Hr & Ha & _).
  - reflexivity.
  - intros []; vm_compute; split; discriminate.
  - vm_compute. discriminate.
  - vm_compute. eauto.
  - intros []; vm_compute; split; discriminate.
  - reflexivity.
  - exists gov', h'. split; [exact Hr|exact Ha].
Defined.
