(* ===== verification/GovernorScenarios.v ===== *)
(** Resource governor: runs that do not go the way the code means them to.

    Each theorem runs the modelled handlers on a concrete configuration, or states for every
    configuration of a kind, what the governor does where its documentation or its own refusal
    codes promise something else. *)

From stdpp Require Import sets.
From S2P Require Import Prelude Outcome Identity GovernorModel GovernorPools GovernorState GovernorAdmission GovernorRelease GovernorControl GovernorGrants GovernorSystem GovernorResize GovernorRuns.

Module Scenario.
Definition alice : TenantId := mkTenantId [1].
Definition bob : TenantId := mkTenantId [2].
Definition principal : PrincipalId := mkPrincipalId [7].
Definition inventory (tenants outstanding : Z) : ResourceInventory :=
  mkInventory (uniform 200) (uniform 40) (mkCardinality tenants outstanding) (mkThresholds 40 41 42 43) 200.
Definition pools : OrdinaryPoolPolicy := mkPoolPolicy (uniform 20) (uniform 20) (uniform 10) (uniform 10).
Definition rpools : RecoveryPoolCapacities :=
  mkRecoveryPools (uniform 5) (uniform 5) (uniform 5) (uniform 5) (uniform 5) (uniform 5) (uniform 5).
Definition start (tenants outstanding : Z) (quotas : list TenantQuota) : result GovernorFailure (GovernorInner * Governor) :=
  establish (fun _ => true) (fun _ _ => Some 1) 77 (inventory tenants outstanding) (mkGovernorPolicy quotas pools None) rpools.

Definition ingest (amount : Z) : WorkClaim := mkClaim alice None Ingest (uniform amount) None.
Definition lifecycle_of (gov : Governor) : GovernorLifecycle := lifecycle (lv_state (g_live gov)).
Definition refusal (r : result AdmissionFailure ResourceReservation) : option AdmissionFailureCode :=
  match r with Ok _ => None | Err f => Some (af_code f) end.

(** Alice holds sixty units, then her weight is reduced and she asks for one more. The outcomes:
    the first admission, the quota update, the second admission and the lifecycle. *)
Definition weight_reduction :
    option (option AdmissionFailureCode * result GovernorFailure unit * option AdmissionFailureCode * GovernorLifecycle) :=
  match start 2 32 [mkQuota alice 3 (uniform 150); mkQuota bob 1 (uniform 150)] with
  | Err _ => None
  | Ok (g, gov) =>
      let '(gov, first) := reserve_ordinary g false (ingest 60) gov in
      let '(gov, updated) := update_tenant_quota g true false alice 1 (uniform 150) gov in
      let '(gov, second) := reserve_ordinary g false (ingest 1) gov in
      Some (refusal first, updated, refusal second, lifecycle_of gov)
  end.

(** [count] times: an operation starts, gets one child and its root is cancelled. *)
Fixpoint operations (count : nat) (g : GovernorInner) (gov : Governor) : Governor :=
  match count with
  | O => gov
  | S count =>
      let '(gov, root) := reserve_ordinary g false (mkClaim alice (Some principal) Ingest (uniform 1) None) gov in
      match root with
      | Ok h =>
          let '(gov, _) := reserve_ordinary g false (mkClaim alice (Some principal) Ingest (uniform 1) (res_operation h)) gov in
          let '(gov, _, _) := cancel false h gov in operations count g gov
      | Err _ => gov
      end
  end.

(** The reservations counted as outstanding and the lifecycle before, and the refusal and the
    lifecycle after one more admission. *)
Definition waiting_roots : option (Z * GovernorLifecycle * option AdmissionFailureCode * GovernorLifecycle) :=
  match start 1 12 [mkQuota alice 1 (uniform 150)] with
  | Err _ => None
  | Ok (g, gov) =>
      let gov := operations 6 g gov in
      let '(gov', r) := reserve_ordinary g false (ingest 1) gov in
      Some (outstanding (counts (lv_state (g_live gov))), lifecycle_of gov, refusal r, lifecycle_of gov')
  end.

(** Recovery work takes a hundred and sixty-five shared units, more than ordinary work may use;
    then ordinary work is asked for. *)
Definition recovery_occupancy :
    option (option AdmissionFailureCode * option (AdmissionFailureCode * AdmissionRetry) * GovernorLifecycle) :=
  match start 1 32 [mkQuota alice 1 (uniform 150)] with
  | Err _ => None
  | Ok (g, gov) =>
      let '(gov, r1) := reserve_recovery g false (mkRecoveryClaim ScopeSystem SafeShutdown (uniform 165)) gov in
      let '(gov, r2) := reserve_ordinary g false (ingest 1) gov in
      Some (refusal r1, match r2 with Ok _ => None | Err f => Some (af_code f, af_retry f) end, lifecycle_of gov)
  end.

(** Alice's share of the shared pool at the start, and after an enrolment of Bob is rolled back. *)
Definition shared_share (gov : Governor) : list Z :=
  map (fun c => get (pool_get c PoolShared) MemoryBytes) (tenant_fair_capacities (topology (lv_state (g_live gov)))).
Definition rolled_back_enrolment : option (list Z * result GovernorFailure unit * list Z) :=
  match start 2 32 [mkQuota alice 1 (uniform 150)] with
  | Err _ => None
  | Ok (g, gov) =>
      let '(prepared, r) := enroll_tenant_quota g true false bob 1 (uniform 50) true gov in
      Some (shared_share gov, r, shared_share (rollback_tenant_quota false bob prepared))
  end.

(** Alice holds one unit, recovery work takes more of the shared capacity than ordinary work may
    use, and Alice asks for two units instead of one. The outcomes: what the failed resize says of
    her reservation, whether her handle is active and what it grants, what she is still charged,
    and the lifecycle. *)
Definition growth_under_recovery : option (option (ResizeFailureCode * ExistingCapacityDisposition) * bool * Z * list Z * GovernorLifecycle) :=
  match start 1 32 [mkQuota alice 1 (uniform 150)] with
  | Err _ => None
  | Ok (g, gov) =>
      match reserve_ordinary g false (ingest 1) gov with
      | (gov, Ok h) =>
          let '(gov, _) := reserve_recovery g false (mkRecoveryClaim ScopeSystem SafeShutdown (uniform 164)) gov in
          let '(gov, h, r) := try_resize g false h (uniform 2) gov in
          Some (match r with Ok _ => None | Err f => Some (rf_code f, rf_disposition f) end, res_active h,
            get (res_amounts h) MemoryBytes, map (fun a => get a MemoryBytes) (ordinary_tenant_usage (usage (lv_state (g_live gov)))), lifecycle_of gov)
      | _ => None
      end
  end.

(** A recovery claim for every unit that a [u64] can name, as an admission and as a resize that
    asks to preserve what it has. *)
Definition oversized_recovery : option (option AdmissionFailureCode * GovernorLifecycle * option ResizeFailureCode * GovernorLifecycle) :=
  match start 1 32 [mkQuota alice 1 (uniform 150)] with
  | Err _ => None
  | Ok (g, gov) =>
      match reserve_recovery g false (mkRecoveryClaim ScopeSystem Repair (uniform 2)) gov with
      | (gov, Ok h1) =>
      match reserve_recovery g false (mkRecoveryClaim ScopeSystem Repair (uniform 1)) gov with
      | (gov, Ok h) =>
          let '(gov, refused) := reserve_recovery g false (mkRecoveryClaim ScopeSystem Repair (uniform u64_max)) gov in
          let '(gov', h, r) := try_resize_preserving_capacity g false h (uniform u64_max) gov in
          Some (refusal refused, lifecycle_of gov, match r with Ok _ => None | Err f => Some (rf_code f) end, lifecycle_of gov')
      | _ => None
      end
      | _ => None
      end
  end.
End Scenario.

(** Also (safety). A quota reduction is documented to be safe for the reservations a tenant holds, but
    reducing a tenant's weight below what it already uses of the shared pool makes its next
    admission, which should be refused, fence the whole governor. *)
Theorem weight_reduction_fences_governor :
  Scenario.weight_reduction = Some (None, Ok tt, Some InternalFenced, Fenced).
Proof. vm_compute. reflexivity. Qed.

(** Also (bounds). A released operation root keeps its slot until its children finish but is not counted
    as outstanding: with twelve slots, six such operations leave six reservations outstanding and
    no free slot, and the next admission fences the governor instead of being refused. *)
Theorem waiting_roots_exhaust_slots :
  Scenario.waiting_roots = Some (6, Open, Some InternalFenced, Fenced).
Proof. vm_compute. reflexivity. Qed.

(** Also (error). When recovery work occupies more of the shared capacity than ordinary work may use, an
    ordinary claim is refused as an internal failure never to be retried, although the governor
    is open and the capacity will come back. *)
Theorem recovery_occupancy_is_misreported :
  Scenario.recovery_occupancy = Some (None, Some (InternalFenced, Never), Open).
Proof. vm_compute. reflexivity. Qed.

(** Also (functional). Rolling back a prepared enrolment removes the new tenant but not its effect: the
    remaining tenant keeps the smaller share that the enrolment derived. *)
Theorem rollback_keeps_diluted_shares :
  Scenario.rolled_back_enrolment = Some ([99], Ok tt, [49]).
Proof. vm_compute. reflexivity. Qed.

(** Also (error). A growth that ordinary admission would only refuse fences the whole governor when recovery
    work occupies more of the shared capacity than ordinary work may use, and it reports the old
    reservation as cancelled: the handle is inactive and grants nothing, so that its capacity can
    never be released, but the tenant stays charged for it. *)
Theorem internal_resize_leaks_reservation :
  Scenario.growth_under_recovery = Some (Some (ResizeInternalFenced, CancelledBeforeLimit), false, 0, [1], Fenced).
Proof. vm_compute. reflexivity. Qed.

(** Also (bounds). A recovery resize adds the requested amounts to what is in use before it checks any limit:
    a request near the largest [u64] that an admission refuses fences the governor as a resize,
    even one that asks to preserve what it has. *)
Theorem oversized_recovery_resize_fences :
  Scenario.oversized_recovery = Some (Some CapacityExhausted, Open, Some ResizeInternalFenced, Fenced).
Proof. vm_compute. reflexivity. Qed.

(** ** Progress reserved for tenants that do not exist *)

Lemma missing_replicate n i : Z.of_nat n - 1 <= missing (replicate n 0) (Some i) <= Z.of_nat n.
Proof.
  unfold missing.
  assert (Hgen : forall n k, Z.of_nat n - (if decide (k <= i)%nat then 1 else 0)
    <= zlen (filter (fun '(j, count) => Some j <> Some i /\ count = 0) (imap (fun j c => (k + j, c)%nat) (replicate n 0))) <= Z.of_nat n).
  { clear n. induction n as [|n IH]; intros k; [unfold zlen; cbn [replicate imap]; rewrite filter_nil; cbn [length]; destruct (decide (k <= i)%nat); lia|]. cbn [replicate imap].
    rewrite (imap_ext _ (fun j c => (S k + j, c)%nat)) by (intros; cbn; f_equal; lia). rewrite filter_cons, Nat.add_0_r. specialize (IH (S k)).
    destruct (decide (Some k <> Some i /\ (0 : Z) = 0)) as [[Hne _]|Heq].
    - rewrite zlen_cons. assert (k <> i) by congruence. destruct (decide (S k <= i)%nat), (decide (k <= i)%nat); lia.
    - assert (k = i) as -> by (destruct (decide (k = i)); [done|]; exfalso; apply Heq; split; [congruence|done]).
      rewrite (decide_False (P := (S i <= i)%nat)) in IH by lia. rewrite decide_True by lia. lia. }
  specialize (Hgen n 0%nat). cbn in Hgen. rewrite decide_True in Hgen by lia. exact Hgen.
Qed.

(** With no reservation outstanding, the slots set aside for idle tenants and classes refuse every
    claim when they are all the slots there are. *)
Lemma no_slot_for_anyone g st class i tenants :
  counts st = mkCounts (replicate tenants 0) 0 0 0 0 (replicate 5 0) -> maximum_outstanding g < Z.of_nat tenants + 4 ->
  exists f, require_healthy_and_slot g st class (Some i) = Err f.
Proof.
  intros Hc Hmax. unfold require_healthy_and_slot. cbv zeta. rewrite Hc. cbn [outstanding class_counts tenant_outstanding].
  case_bool_decide; [eauto|]. rewrite (checked_add_ok u32_max 0 1) by done. cbn [ok_or mbind result_bind].
  assert (Hcl : missing (replicate 5 0) (Some (class_index class)) = 4) by (destruct class; vm_compute; reflexivity). rewrite Hcl.
  pose proof (missing_replicate tenants i) as Hm. set (m := missing (replicate tenants 0) (Some i)) in *.
  destruct ((4 <=? u32_max) && (m <=? u32_max)); [|eauto]. destruct (checked_add u32_max 4 m) as [p|] eqn:Hp; [|eauto]. cbn [ok_or mbind result_bind].
  inv_checked. match goal with |- context [exceeds ?a ?b] => destruct (exceeds a b) eqn:He end; [eauto|]. apply exceeds_false in He as (v & Hv & Hle). inv_checked. lia.
Qed.

(** Also (liveness). A governor set up for more tenants than it has registered reserves a slot for every
    tenant it could have: if the tenant capacity plus four reaches past the number of slots, the
    configuration is accepted and then every ordinary admission is refused, although nothing is
    in use. *)
Theorem unregistered_tenants_block_admission allocates layout_bytes authority inventory policy rpools g gov claim :
  establish allocates layout_bytes authority inventory policy rpools = Ok (g, gov) ->
  max_outstanding_reservations (inv_cardinality inventory) < Z.of_nat (Z.to_nat (max_tenant_quotas (inv_cardinality inventory))) + 4 ->
  exists gov' f, reserve_ordinary g false claim gov = (gov', Err f).
Proof.
  intros He Hmax. apply establish_configuration in He as (ordinary & total & pools & HC).
  unfold reserve_ordinary, lock_for_admission. rewrite (cf_poisoned _ _ _ _ _ _ _ _ HC).
  assert (Hcounts : counts (lv_state (enter (g_live gov))) = counts (lv_state (g_live gov))).
  { unfold enter, drain_pending, absorb_fence. by rewrite (cf_drops _ _ _ _ _ _ _ _ HC). }
  rewrite (cf_counts _ _ _ _ _ _ _ _ HC) in Hcounts. rewrite <- (cf_maximum _ _ _ _ _ _ _ _ HC) in Hmax.
  assert (Herr : exists l f, reserve_ordinary_locked g claim (enter (g_live gov)) = (l, Err f)).
  { unfold reserve_ordinary_locked, plan_ordinary. cbv zeta. unfold mbind, Adm_bind, read_state, check.
    destruct (bool_decide (lifecycle (lv_state (enter (g_live gov))) = ShuttingDown)); [eauto|].
    destruct (map_err _ _) as [i|f]; [|eauto].
    destruct (no_slot_for_anyone g (lv_state (enter (g_live gov))) (WorkKind_class (claim_kind claim)) i _ Hcounts Hmax) as [f ->]. eauto. }
  destruct Herr as (l & f & Herr). rewrite Herr. cbn. eauto.
Qed.

(** Twenty tenant slots, one of them registered, and sixteen reservation slots. *)
Lemma unregistered_tenants_block_admission_witness :
  exists g gov gov' f, Scenario.start 20 16 [mkQuota Scenario.alice 1 (uniform 150)] = Ok (g, gov)
    /\ reserve_ordinary g false (Scenario.ingest 1) gov = (gov', Err f).
Proof.
  destruct (Scenario.start 20 16 [mkQuota Scenario.alice 1 (uniform 150)]) as [[g gov]|] eqn:He; [|vm_compute in He; discriminate].
  destruct (unregistered_tenants_block_admission _ _ _ _ _ _ g gov (Scenario.ingest 1) He ltac:(vm_compute; reflexivity)) as (gov' & f & Hr).
  exists g, gov, gov', f. split; [reflexivity|exact Hr].
Defined.
