(* ===== verification/RetentionTime.v ===== *)
(** Retention time: the process-monotonic clock that dates stored records and decides what has
    expired.

    Models [positron-kernel/src/retention_time.rs], [positron-kernel/src/lifecycle_clock.rs] and
    the scope of [positron-kernel/src/active_segment_ledger/types.rs]. An authority is a record of
    its two locked parts, the lifecycle clock safety and the table of scope baselines. What the
    process reads from outside in one call, the monotonic counter and the wall clock, is a
    [Reading]; a call keeps what it wrote before it returned an error. The locks are not poisoned
    (nothing under them panics), so the code's [Unavailable] for a poisoned lock does not occur.
    This file holds the operations; [RetentionRuns] composes them into runs. *)

From Stdlib Require Import Ascii String.
From stdpp Require Import gmap.
From S2P Require Import Prelude Outcome Identity Routing SourceTime.

(** ** Scopes *)

(** [positron-kernel/src/active_segment_ledger/types.rs:22-27 SegmentScope] *)
Record SegmentScope := mkSegmentScope {
  scope_tenant : TenantId;
  scope_signal : SignalKind;
  scope_shard : VirtualShardId;
}.

#[global] Instance SegmentScope_eq_dec : EqDecision SegmentScope.
Proof. solve_decision. Defined.
#[global] Program Instance SegmentScope_countable : Countable SegmentScope :=
  inj_countable
    (fun s => (tenant_id_bytes (scope_tenant s), bool_decide (scope_signal s = Logs), shard_value (scope_shard s)))
    (fun k => Some (mkSegmentScope (mkTenantId k.1.1) (if (k.1.2 : bool) then Logs else Traces) (mkVirtualShardId k.2))) _.
Next Obligation. intros [[t] [] [v]]; reflexivity. Qed.

(** [positron-kernel/src/active_segment_ledger/types.rs:54-76 SegmentScope::lease_key] *)
Definition lease_key (s : SegmentScope) : bytes :=
  take 16 (tenant_id_bytes (scope_tenant s))
  ++ [match scope_signal s with Logs => 1 | Traces => 2 end]
  ++ be_bytes 4 (shard_value (scope_shard s)) ++ [1].

(** ** The lifecycle clock *)

(** [positron-kernel/src/lifecycle_clock.rs:145-150 LifecycleClockFailure] *)
Inductive LifecycleClockFailure := ClockUnavailable | ClockOutOfRange | ClockIsUncertain.

#[global] Instance LifecycleClockFailure_eq_dec : EqDecision LifecycleClockFailure.
Proof. solve_decision. Defined.

(** [positron-kernel/src/lifecycle_clock.rs:10-14 IngestTime] The kernel's own ingest time. *)
Record IngestTime := mkIngestTime { instant : UnixNanoseconds; retention_authenticated : bool }.

(** [positron-kernel/src/lifecycle_clock.rs:22-27 IngestTime::from_authenticated_durable] *)
Definition from_authenticated_durable (i : UnixNanoseconds) : IngestTime := mkIngestTime i true.

(** [positron-kernel/src/lifecycle_clock.rs:29-34 IngestTime::from_unretained_observation] *)
Definition from_unretained_observation (i : UnixNanoseconds) : IngestTime := mkIngestTime i false.

(** [Ord::max] on instants. *)
Definition instant_max (a b : UnixNanoseconds) : UnixNanoseconds :=
  mkUnixNanoseconds (Z.max (nanos a) (nanos b)).

(** [positron-kernel/src/lifecycle_clock.rs:133-142 LifecycleClock::assign_ingest_time] The clock's
    last assignment, and what the source returned. *)
Definition assign_ingest_time (last : option UnixNanoseconds) (read : result LifecycleClockFailure UnixNanoseconds)
  : option UnixNanoseconds * result LifecycleClockFailure IngestTime :=
  match read with
  | Err e => (last, Err e)
  | Ok observed =>
      let assigned := match last with None => observed | Some previous => instant_max previous observed end in
      (Some assigned, Ok (from_unretained_observation assigned))
  end.

(** [positron-kernel/src/retention_time.rs:37-40 LifecycleClockPolicy] *)
Record LifecycleClockPolicy := mkLifecycleClockPolicy { maximum_reconciliation_offset_nanoseconds : Z }.

(** [positron-kernel/src/retention_time.rs:45-54 LifecycleClockPolicy::new] *)
Definition LifecycleClockPolicy_new (maximum : Z) : result LifecycleClockFailure LifecycleClockPolicy :=
  if maximum =? 0 then Err ClockOutOfRange else Ok (mkLifecycleClockPolicy maximum).

(** [positron-kernel/src/retention_time.rs:63-68 LifecycleClockPolicy::default] *)
Definition LifecycleClockPolicy_default : LifecycleClockPolicy := mkLifecycleClockPolicy 300000000000.

(** [positron-kernel/src/retention_time.rs:71-75 LifecycleClockState] *)
Inductive LifecycleClockState := Certain | ClockUncertain.

#[global] Instance LifecycleClockState_eq_dec : EqDecision LifecycleClockState.
Proof. solve_decision. Defined.

(** [positron-kernel/src/retention_time.rs:77-85 LifecycleClockAcceptanceFailure] *)
Inductive LifecycleClockAcceptanceFailure :=
| AcceptUnavailable | NotUncertain | StaleAnchor | MissingDiscontinuity | PersistenceMismatch | AcceptOutOfRange.

(** [positron-kernel/src/retention_time.rs:94-98 CatalogAnchorAcceptanceRelation] *)
Inductive CatalogAnchorAcceptanceRelation := ExactHistorical | ProvablyLater.

(** [positron-kernel/src/retention_time.rs:127-136 LifecycleClockSafety] *)
Record LifecycleClockSafety := mkLifecycleClockSafety {
  anchor : UnixNanoseconds;
  anchor_elapsed : Z;
  state : LifecycleClockState;
  last_wall_clock : option UnixNanoseconds;
  observed_offset_nanoseconds : option Z;
  wall_clock_correction_nanoseconds : Z;
  revision : Z;
}.

(** [positron-kernel/src/retention_time.rs:100-106 LifecycleClockStatus] *)
Record LifecycleClockStatus := mkLifecycleClockStatus {
  st_state : LifecycleClockState;
  st_safe_anchor : UnixNanoseconds;
  st_last_wall_clock : option UnixNanoseconds;
  st_observed_offset_nanoseconds : option Z;
}.

(** [positron-kernel/src/retention_time.rs:302-306 ScopeBaseline] *)
Record ScopeBaseline := mkScopeBaseline { base_instant : UnixNanoseconds; elapsed_at_start : Z }.

(** [positron-kernel/src/retention_time.rs:26-35 RetentionTimeAuthority] The wall-clock source is
    read through a [Reading]; here only whether there is one. *)
Record RetentionTimeAuthority := mkRetentionTimeAuthority {
  epoch : UnixNanoseconds;
  destructive_retention : bool;
  has_source : bool;
  policy : LifecycleClockPolicy;
  safety : LifecycleClockSafety;
  scopes : gmap SegmentScope ScopeBaseline;
}.

(** What one call reads: nanoseconds since the process's [Instant], and the result of the source. *)
Record Reading := mkReading { elapsed_nanos : Z; source_read : result LifecycleClockFailure UnixNanoseconds }.

(** [positron-kernel/src/resource_governor/inventory.rs:11-11 MAX_TENANT_QUOTAS!] *)
Definition MAX_TENANT_QUOTAS : nat := 1024%nat.

(** The nanoseconds of a second. *)
Definition second : Z := 1000000000.
Definition set_safety (s : LifecycleClockSafety) (a : RetentionTimeAuthority) : RetentionTimeAuthority :=
  mkRetentionTimeAuthority (epoch a) (destructive_retention a) (has_source a) (policy a) s (scopes a).
Definition set_scopes (m : gmap SegmentScope ScopeBaseline) (a : RetentionTimeAuthority) : RetentionTimeAuthority :=
  mkRetentionTimeAuthority (epoch a) (destructive_retention a) (has_source a) (policy a) (safety a) m.
Definition set_state (s : LifecycleClockState) (c : LifecycleClockSafety) : LifecycleClockSafety :=
  mkLifecycleClockSafety (anchor c) (anchor_elapsed c) s (last_wall_clock c) (observed_offset_nanoseconds c)
    (wall_clock_correction_nanoseconds c) (revision c).
Definition set_anchor (i : UnixNanoseconds) (c : LifecycleClockSafety) : LifecycleClockSafety :=
  mkLifecycleClockSafety i (anchor_elapsed c) (state c) (last_wall_clock c) (observed_offset_nanoseconds c)
    (wall_clock_correction_nanoseconds c) (revision c).
Definition set_correction (v : Z) (c : LifecycleClockSafety) : LifecycleClockSafety :=
  mkLifecycleClockSafety (anchor c) (anchor_elapsed c) (state c) (last_wall_clock c) (observed_offset_nanoseconds c)
    v (revision c).

(** ** Operations that keep what they wrote *)

(** A call on the authority: the state it leaves, and its result. *)
Definition Clk (A : Type) : Type := RetentionTimeAuthority -> RetentionTimeAuthority * result LifecycleClockFailure A.
#[global] Instance Clk_ret : MRet Clk := fun A v a => (a, Ok v).
#[global] Instance Clk_bind : MBind Clk := fun A B k m a =>
  match m a with (a', Ok v) => k v a' | (a', Err e) => (a', Err e) end.
Definition clk_of {A} (r : result LifecycleClockFailure A) : Clk A := fun a => (a, r).
Definition clk_gets {A} (f : RetentionTimeAuthority -> A) : Clk A := fun a => (a, Ok (f a)).
Definition clk_put (f : RetentionTimeAuthority -> RetentionTimeAuthority) : Clk unit := fun a => (f a, Ok tt).
Definition clk_safety (f : LifecycleClockSafety -> LifecycleClockSafety) : Clk unit :=
  clk_put (fun a => set_safety (f (safety a)) a).

(** [positron-kernel/src/retention_time.rs:320-333 ElapsedSource::nanoseconds] The production source. *)
Definition elapsed_nanoseconds (r : Reading) : result LifecycleClockFailure Z :=
  if elapsed_nanos r <=? u64_max then Ok (elapsed_nanos r) else Err ClockOutOfRange.

(** [positron-kernel/src/retention_time.rs:1055-1065 advance] *)
Definition advance (b : ScopeBaseline) (elapsed : Z) : result LifecycleClockFailure UnixNanoseconds :=
  ok_or ClockOutOfRange (
    delta ← checked_sub elapsed (elapsed_at_start b);
    delta ← i64_of delta;
    value ← i64_of (nanos (base_instant b) + delta);
    Some (mkUnixNanoseconds value)).

(** [positron-kernel/src/retention_time.rs:882-892 advance_global] *)
Definition advance_global (s : LifecycleClockSafety) (elapsed : Z) : result LifecycleClockFailure UnixNanoseconds :=
  ok_or ClockOutOfRange (
    delta ← checked_sub elapsed (anchor_elapsed s);
    delta ← i64_of delta;
    value ← i64_of (nanos (anchor s) + delta);
    Some (mkUnixNanoseconds value)).

(** [positron-kernel/src/retention_time.rs:427-452 RetentionTimeAuthority::with_parts] *)
Definition with_parts (epoch : UnixNanoseconds) (destructive has_source : bool) (policy : LifecycleClockPolicy)
  : RetentionTimeAuthority :=
  mkRetentionTimeAuthority epoch destructive has_source policy
    (mkLifecycleClockSafety epoch 0 Certain (Some epoch) (Some 0) 0 0) ∅.

(** [positron-kernel/src/retention_time.rs:368-380 RetentionTimeAuthority::establish_with_source] *)
Definition establish_with_source (read : result LifecycleClockFailure UnixNanoseconds) (policy : LifecycleClockPolicy)
  : result LifecycleClockFailure RetentionTimeAuthority :=
  epoch ← read; Ok (with_parts epoch true true policy).

(** [positron-kernel/src/retention_time.rs:364-366 RetentionTimeAuthority::establish] *)
Definition establish_clock (read : result LifecycleClockFailure UnixNanoseconds)
  : result LifecycleClockFailure RetentionTimeAuthority :=
  establish_with_source read LifecycleClockPolicy_default.

(** [positron-kernel/src/retention_time.rs:662-678 RetentionTimeAuthority::status] *)
Definition clock_status (a : RetentionTimeAuthority) : LifecycleClockStatus :=
  mkLifecycleClockStatus (state (safety a)) (anchor (safety a)) (last_wall_clock (safety a))
    (observed_offset_nanoseconds (safety a)).

(** [positron-kernel/src/retention_time.rs:473-475 RetentionTimeAuthority::authorizes_destructive_retention] *)
Definition authorizes_destructive_retention (a : RetentionTimeAuthority) : bool :=
  destructive_retention a && bool_decide (st_state (clock_status a) = Certain).

(** ** Reconciliation with the wall clock *)

(** The state a reconciliation writes first: the expected instant, and a new revision. *)
Definition moved (expected : UnixNanoseconds) (elapsed : Z) (s : LifecycleClockSafety) : LifecycleClockSafety :=
  mkLifecycleClockSafety expected elapsed (state s) (last_wall_clock s) (observed_offset_nanoseconds s)
    (wall_clock_correction_nanoseconds s) (revision s).
Definition revised (v : Z) (s : LifecycleClockSafety) : LifecycleClockSafety :=
  mkLifecycleClockSafety (anchor s) (anchor_elapsed s) (state s) (last_wall_clock s) (observed_offset_nanoseconds s)
    (wall_clock_correction_nanoseconds s) v.
(** What it writes after the source was read. *)
Definition sampled (wall : UnixNanoseconds) (offset : Z) (verdict : LifecycleClockState) (s : LifecycleClockSafety)
  : LifecycleClockSafety :=
  mkLifecycleClockSafety (anchor s) (anchor_elapsed s) verdict (Some wall) (Some offset)
    (wall_clock_correction_nanoseconds s) (revision s).

(** [positron-kernel/src/retention_time.rs:841-879 RetentionTimeAuthority::reconcile_while_acceptance_held] *)
Definition reconcile_while_acceptance_held (r : Reading) (durable_or_expected : UnixNanoseconds) (elapsed : Z) : Clk unit :=
  s ← clk_gets safety;
  expected ← clk_of (advance_global s elapsed);
  let expected := instant_max expected durable_or_expected in
  _ ← clk_safety (moved expected elapsed);
  next ← clk_of (ok_or ClockOutOfRange (checked_add u64_max (revision s) 1));
  _ ← clk_safety (revised next);
  with_source ← clk_gets has_source;
  if (with_source : bool) then
    wall ← clk_of (source_read r);
    offset ← clk_of (ok_or ClockOutOfRange (i64_of (nanos wall - nanos expected)));
    adjusted ← clk_of (ok_or ClockOutOfRange (i64_of (nanos wall + wall_clock_correction_nanoseconds s)));
    limit ← clk_gets (fun a => maximum_reconciliation_offset_nanoseconds (policy a));
    clk_safety (sampled wall offset
      (if limit <? Z.abs (adjusted - nanos expected) then ClockUncertain else Certain))
  else mret tt.

(** [positron-kernel/src/retention_time.rs:829-839 RetentionTimeAuthority::reconcile] *)
Definition reconcile (r : Reading) (durable_or_expected : UnixNanoseconds) (elapsed : Z) : Clk unit :=
  reconcile_while_acceptance_held r durable_or_expected elapsed.

(** [positron-kernel/src/retention_time.rs:820-827 RetentionTimeAuthority::reconcile_current] *)
Definition reconcile_current (r : Reading) (elapsed : Z) : Clk unit :=
  s ← clk_gets safety;
  expected ← clk_of (advance_global s elapsed);
  reconcile r expected elapsed.

(** ** Scope time *)

(** The bound on the scope table, checked before a scope is added. *)
Definition scope_table_full (scope : SegmentScope) (m : gmap SegmentScope ScopeBaseline) : bool :=
  match m !! scope with Some _ => false | None => (MAX_TENANT_QUOTAS <=? size m)%nat end.

(** [positron-kernel/src/retention_time.rs:687-711 RetentionTimeAuthority::recover_scope!] What [recover_scope] does under the lock of the table. *)
Definition recover_baseline (scope : SegmentScope) (durable : IngestTime) (elapsed : Z) : Clk unit :=
  m ← clk_gets scopes;
  if scope_table_full scope m then clk_of (Err ClockOutOfRange) else
  match m !! scope with
  | Some baseline =>
      current ← clk_of (advance baseline elapsed);
      clk_put (set_scopes (<[scope := mkScopeBaseline (instant_max current (instant durable)) elapsed]> m))
  | None => clk_put (set_scopes (<[scope := mkScopeBaseline (instant durable) 0]> m))
  end.

(** [positron-kernel/src/retention_time.rs:680-711 RetentionTimeAuthority::recover_scope] *)
Definition recover_scope (r : Reading) (scope : SegmentScope) (durable : IngestTime) : Clk unit :=
  elapsed ← clk_of (elapsed_nanoseconds r);
  _ ← reconcile r (instant durable) elapsed;
  recover_baseline scope durable elapsed.

(** The baseline a scope starts from. *)
Definition initial_baseline (start : UnixNanoseconds) (durable : option IngestTime) : ScopeBaseline :=
  mkScopeBaseline (match durable with Some d => instant d | None => start end) 0.

(** [positron-kernel/src/retention_time.rs:720-737 RetentionTimeAuthority::ingest_time!] What [ingest_time] does under the
    lock of the table. In the production build, without the test-support feature, every authority
    mints authenticated times. *)
Definition mint (scope : SegmentScope) (durable : option IngestTime) (elapsed : Z) : Clk IngestTime :=
  m ← clk_gets scopes;
  start ← clk_gets epoch;
  if scope_table_full scope m then clk_of (Err ClockOutOfRange) else
  let baseline := default (initial_baseline start durable) (m !! scope) in
  _ ← clk_put (set_scopes (<[scope := baseline]> m));
  advanced ← clk_of (advance baseline elapsed);
  mret (from_authenticated_durable advanced).

(** [positron-kernel/src/retention_time.rs:713-737 RetentionTimeAuthority::ingest_time] *)
Definition ingest_time (r : Reading) (scope : SegmentScope) (durable : option IngestTime) : Clk IngestTime :=
  elapsed ← clk_of (elapsed_nanoseconds r);
  _ ← reconcile_current r elapsed;
  mint scope durable elapsed.

(** [positron-kernel/src/retention_time.rs:649-660 RetentionTimeAuthority::destructive_ingest_time] *)
Definition destructive_ingest_time (r : Reading) (scope : SegmentScope) (durable : option IngestTime) : Clk IngestTime :=
  ingest ← ingest_time r scope durable;
  allowed ← clk_gets authorizes_destructive_retention;
  if (allowed : bool) then mret ingest else clk_of (Err ClockIsUncertain).

(** An instant in whole seconds as a [u64]; the division truncates toward zero. *)
Definition whole_seconds (i : UnixNanoseconds) : result LifecycleClockFailure Z :=
  let value := Z.quot (nanos i) second in
  if 0 <=? value then Ok value else Err ClockOutOfRange.

(** [positron-kernel/src/retention_time.rs:739-754 RetentionTimeAuthority::lease_recovery_time] *)
Definition lease_recovery_time (r : Reading) (scope : SegmentScope) (durable : option IngestTime) : Clk (option Z) :=
  match durable with
  | None => mret None
  | Some d =>
      ingest ← ingest_time r scope (Some d);
      seconds ← clk_of (whole_seconds (instant ingest));
      mret (Some seconds)
  end.

(** [positron-kernel/src/retention_time.rs:756-763 RetentionTimeAuthority::lease_time] *)
Definition lease_time (r : Reading) (scope : SegmentScope) : Clk Z :=
  ingest ← ingest_time r scope None;
  clk_of (whole_seconds (instant ingest)).

(** [positron-kernel/src/retention_time.rs:767-772 RetentionTimeAuthority::governance_time_seconds] *)
Definition governance_time_seconds (r : Reading) (scope : SegmentScope) : Clk Z := lease_time r scope.

(** [positron-kernel/src/retention_time.rs:776-788 RetentionTimeAuthority::governance_now_seconds] *)
Definition governance_now_seconds (r : Reading) : Clk Z :=
  elapsed ← clk_of (elapsed_nanoseconds r);
  _ ← reconcile_current r elapsed;
  s ← clk_gets safety;
  now ← clk_of (advance_global s elapsed);
  clk_of (whole_seconds now).

(** [positron-kernel/src/retention_time.rs:793-818 RetentionTimeAuthority::security_time_seconds] *)
Definition security_time_seconds (r : Reading) : Clk Z :=
  s ← clk_gets safety;
  if bool_decide (state s <> Certain) then clk_of (Err ClockIsUncertain) else
  elapsed ← clk_of (elapsed_nanoseconds r);
  _ ← reconcile_current r elapsed;
  s ← clk_gets safety;
  if bool_decide (state s <> Certain) then clk_of (Err ClockIsUncertain) else
  wall ← clk_of (ok_or ClockUnavailable (last_wall_clock s));
  clk_of (whole_seconds wall).

(** ** The durable anchor *)

(** [positron-kernel/src/retention_time.rs:16-19 CLOCK_ANCHOR_MAGIC!] The magic, the version and
    the two lengths. *)
Definition CLOCK_ANCHOR_MAGIC : bytes := bytes_of_string "PLIFCLK1".
Definition CLOCK_ANCHOR_VERSION : Z := 2.
Definition CLOCK_ANCHOR_V1_BYTES : nat := 36%nat.
Definition CLOCK_ANCHOR_BYTES : nat := 44%nat.

(** A presence byte and eight bytes. *)
Definition optional_i64 (v : option Z) : bytes :=
  match v with Some v => 1 :: be_bytes 8 v | None => 0 :: be_bytes 8 0 end.

(** [positron-kernel/src/retention_time.rs:894-928 encode_catalog_anchor] The allocation of 44 bytes
    succeeds. *)
Definition encode_catalog_anchor (s : LifecycleClockSafety) : bytes :=
  CLOCK_ANCHOR_MAGIC ++ [CLOCK_ANCHOR_VERSION]
  ++ [match state s with Certain => 0 | ClockUncertain => 1 end]
  ++ be_bytes 8 (nanos (anchor s))
  ++ optional_i64 (nanos <$> last_wall_clock s)
  ++ optional_i64 (observed_offset_nanoseconds s)
  ++ be_bytes 8 (wall_clock_correction_nanoseconds s).

(** [positron-kernel/src/retention_time.rs:1047-1053 read_i64] *)
Definition read_i64 (b : bytes) (start : nat) : result LifecycleClockFailure Z :=
  let value := take 8 (drop start b) in
  if (length value =? 8)%nat then Ok (as_i64 (be_value value)) else Err ClockOutOfRange.

(** A presence byte at [at_], and the value after it when it is one. *)
Definition read_optional_i64 (b : bytes) (at_ : nat) : result LifecycleClockFailure (option Z) :=
  match b !! at_ with
  | Some 0 => Ok None
  | Some 1 => v ← read_i64 b (S at_); Ok (Some v)
  | _ => Err ClockOutOfRange
  end.

(** [positron-kernel/src/retention_time.rs:930-976 decode_catalog_anchor] *)
Definition decode_catalog_anchor (b : bytes) : result LifecycleClockFailure (option LifecycleClockSafety) :=
  if negb (bool_decide (CLOCK_ANCHOR_MAGIC `prefix_of` b)) then Ok None else
  version ← ok_or ClockOutOfRange (b !! 8%nat);
  if negb ((version =? 1) && (length b =? CLOCK_ANCHOR_V1_BYTES)%nat
           || (version =? CLOCK_ANCHOR_VERSION) && (length b =? CLOCK_ANCHOR_BYTES)%nat)
  then Err ClockOutOfRange else
  state ← match b !! 9%nat with
          | Some 0 => Ok Certain
          | Some 1 => Ok ClockUncertain
          | _ => Err ClockOutOfRange
          end;
  anchor ← read_i64 b 10;
  wall ← read_optional_i64 b 18;
  offset ← read_optional_i64 b 27;
  correction ← if version =? 1 then Ok 0 else read_i64 b CLOCK_ANCHOR_V1_BYTES;
  Ok (Some (mkLifecycleClockSafety (mkUnixNanoseconds anchor) 0 state (mkUnixNanoseconds <$> wall) offset correction 0)).

(** [positron-kernel/src/retention_time.rs:981-983 validate_catalog_anchor_record] *)
Definition validate_catalog_anchor_record (b : bytes) : result LifecycleClockFailure bool :=
  record ← decode_catalog_anchor b; Ok (bool_decide (is_Some record)).

(** [positron-kernel/src/retention_time.rs:988-997 validate_catalog_anchor_singleton] The flag, and the
    verdict on the object. *)
Definition validate_catalog_anchor_singleton (b : bytes) (anchor_seen : bool) : bool * result LifecycleClockFailure bool :=
  match validate_catalog_anchor_record b with
  | Err e => (anchor_seen, Err e)
  | Ok is_anchor =>
      if is_anchor then (true, if anchor_seen then Err ClockOutOfRange else Ok true)
      else (anchor_seen, Ok false)
  end.

(** The single anchor among the objects of a catalog snapshot: the loop that
    [recover_catalog_anchor] and [catalog_anchor_subsumed] share. *)
Definition find_anchor_step (record : option LifecycleClockSafety) (b : bytes)
  : result LifecycleClockFailure (option LifecycleClockSafety) :=
  candidate ← decode_catalog_anchor b;
  match candidate, record with
  | None, _ => Ok record
  | Some _, Some _ => Err ClockOutOfRange
  | Some c, None => Ok (Some c)
  end.
(** [positron-kernel/src/retention_time.rs:542-550 RetentionTimeAuthority::recover_catalog_anchor!] *)
Definition find_catalog_anchor (objects : list bytes) : result LifecycleClockFailure (option LifecycleClockSafety) :=
  try_fold find_anchor_step None objects.

(** [positron-kernel/src/retention_time.rs:1020-1045 catalog_anchor_acceptance_relation] *)
Definition catalog_anchor_acceptance_relation (b : bytes) (safe_anchor observed_wall : UnixNanoseconds) (observed_offset : Z)
  : result LifecycleClockFailure (option CatalogAnchorAcceptanceRelation) :=
  record ← decode_catalog_anchor b;
  match record with
  | None => Ok None
  | Some record =>
      correction ← ok_or ClockOutOfRange (i64_of (nanos safe_anchor - nanos observed_wall));
      if bool_decide (state record = Certain) && bool_decide (anchor record = safe_anchor)
         && bool_decide (last_wall_clock record = Some observed_wall)
         && bool_decide (observed_offset_nanoseconds record = Some observed_offset)
         && (wall_clock_correction_nanoseconds record =? correction)
      then Ok (Some ExactHistorical)
      else if nanos safe_anchor <? nanos (anchor record) then Ok (Some ProvablyLater) else Ok None
  end.

(** [positron-kernel/src/retention_time.rs:1001-1016 catalog_anchor_matches_accepted_discontinuity] *)
Definition catalog_anchor_matches_accepted_discontinuity (b : bytes) (safe_anchor observed_wall : UnixNanoseconds)
  (observed_offset : Z) : result LifecycleClockFailure bool :=
  relation ← catalog_anchor_acceptance_relation b safe_anchor observed_wall observed_offset;
  Ok (match relation with Some ExactHistorical => true | _ => false end).

(** The safety that recovery installs from a durable record. *)
Definition installed (record : LifecycleClockSafety) (elapsed : Z) (s : LifecycleClockSafety) : LifecycleClockSafety :=
  mkLifecycleClockSafety (anchor record) elapsed (state record) (last_wall_clock record)
    (observed_offset_nanoseconds record) (wall_clock_correction_nanoseconds record) (revision s).

(** [positron-kernel/src/retention_time.rs:563-579 RetentionTimeAuthority::recover_catalog_anchor!] What recovery does under the
    lock of the safety. *)
Definition install_anchor (record : LifecycleClockSafety) (elapsed : Z) : Clk unit :=
  s ← clk_gets safety;
  _ ← clk_safety (installed record elapsed);
  next ← clk_of (ok_or ClockOutOfRange (checked_add u64_max (revision s) 1));
  clk_safety (revised next).

(** [positron-kernel/src/retention_time.rs:538-582 RetentionTimeAuthority::recover_catalog_anchor] On
    the objects of the snapshot. *)
Definition recover_catalog_anchor (r : Reading) (objects : list bytes) : Clk unit :=
  record ← clk_of (find_catalog_anchor objects);
  match record with
  | None => mret tt
  | Some record =>
      elapsed ← clk_of (elapsed_nanoseconds r);
      _ ← install_anchor record elapsed;
      reconcile_while_acceptance_held r (anchor record) elapsed
  end.

(** [positron-kernel/src/retention_time.rs:584-596 RetentionTimeAuthority::catalog_anchor_record] *)
Definition catalog_anchor_record (observed : IngestTime) (a : RetentionTimeAuthority) : bytes :=
  encode_catalog_anchor (set_anchor (instant_max (anchor (safety a)) (instant observed)) (safety a)).

(** ** Staged anchors *)

(** [positron-kernel/src/retention_time.rs:146-152 StagedCatalogAnchor] *)
Record StagedCatalogAnchor := mkStagedCatalogAnchor {
  checkpoint : LifecycleClockSafety;
  candidate_revision : option Z;
  candidate_anchor : option UnixNanoseconds;
  committed : bool;
}.

(** [positron-kernel/src/retention_time.rs:598-611 RetentionTimeAuthority::stage_catalog_anchor] *)
Definition stage_catalog_anchor (a : RetentionTimeAuthority) : StagedCatalogAnchor :=
  mkStagedCatalogAnchor (safety a) None None false.

(** [positron-kernel/src/retention_time.rs:272-290 StagedCatalogAnchor::observe_candidate] *)
Definition observe_candidate {A} (operation : Clk A) (t : StagedCatalogAnchor) (a : RetentionTimeAuthority)
  : StagedCatalogAnchor * RetentionTimeAuthority * result LifecycleClockFailure A :=
  let before := revision (safety a) in
  let '(a', result) := operation a in
  let after := revision (safety a') in
  let candidate := if after =? before then candidate_revision t else Some after in
  let at_ := match candidate with
             | Some _ => Some (st_safe_anchor (clock_status a'))
             | None => candidate_anchor t
             end in
  (mkStagedCatalogAnchor (checkpoint t) candidate at_ (committed t), a', result).

(** [positron-kernel/src/retention_time.rs:226-232 StagedCatalogAnchor::ingest_time] *)
Definition staged_ingest_time (r : Reading) (scope : SegmentScope) (durable : option IngestTime) :=
  observe_candidate (ingest_time r scope durable).

(** [positron-kernel/src/retention_time.rs:234-240 StagedCatalogAnchor::destructive_ingest_time] *)
Definition staged_destructive_ingest_time (r : Reading) (scope : SegmentScope) (durable : option IngestTime) :=
  observe_candidate (destructive_ingest_time r scope durable).

(** [positron-kernel/src/retention_time.rs:249-266 StagedCatalogAnchor::catalog_anchor_subsumed] *)
Definition catalog_anchor_subsumed (t : StagedCatalogAnchor) (objects : list bytes) : result LifecycleClockFailure bool :=
  match candidate_anchor t with
  | None => Ok false
  | Some candidate =>
      durable ← find_catalog_anchor objects;
      Ok (match durable with Some record => nanos candidate <=? nanos (anchor record) | None => false end)
  end.

(** [positron-kernel/src/retention_time.rs:268-270 StagedCatalogAnchor::commit] *)
Definition commit_staged (t : StagedCatalogAnchor) : StagedCatalogAnchor :=
  mkStagedCatalogAnchor (checkpoint t) (candidate_revision t) (candidate_anchor t) true.

(** [positron-kernel/src/retention_time.rs:613-640 RetentionTimeAuthority::abandon_catalog_anchor] *)
Definition abandon_catalog_anchor (checkpoint : LifecycleClockSafety) (candidate : option Z)
  (a : RetentionTimeAuthority) : RetentionTimeAuthority :=
  let s := safety a in
  match candidate with
  | None => a
  | Some candidate =>
      if revision s =? candidate then
        set_safety (if bool_decide (state s = ClockUncertain) then set_state ClockUncertain checkpoint else checkpoint) a
      else set_safety (revised (saturating_add u64_max (revision s) 1) (set_state ClockUncertain s)) a
  end.

(** [positron-kernel/src/retention_time.rs:294-299 StagedCatalogAnchor::drop] *)
Definition drop_staged (t : StagedCatalogAnchor) (a : RetentionTimeAuthority) : RetentionTimeAuthority :=
  if committed t then a else abandon_catalog_anchor (checkpoint t) (candidate_revision t) a.

(** ** Accepting a discontinuity *)

(** [positron-kernel/src/retention_time.rs:157-165 PreparedLifecycleClockAcceptance] *)
Record PreparedLifecycleClockAcceptance := mkPrepared {
  pa_revision : Z;
  pa_anchor : UnixNanoseconds;
  pa_observed_wall_clock : UnixNanoseconds;
  pa_observed_offset_nanoseconds : Z;
  pa_accepted_record : bytes;
}.

(** [positron-kernel/src/retention_time.rs:485-534 RetentionTimeAuthority::prepare_discontinuity_acceptance] *)
Definition prepare_discontinuity_acceptance (expected_safe_anchor : UnixNanoseconds) (a : RetentionTimeAuthority)
  : result LifecycleClockAcceptanceFailure PreparedLifecycleClockAcceptance :=
  let s := safety a in
  if bool_decide (state s <> ClockUncertain) then Err NotUncertain else
  if bool_decide (anchor s <> expected_safe_anchor) then Err StaleAnchor else
  observed_wall ← ok_or MissingDiscontinuity (last_wall_clock s);
  observed_offset ← ok_or MissingDiscontinuity (observed_offset_nanoseconds s);
  if Z.abs observed_offset <=? maximum_reconciliation_offset_nanoseconds (policy a) then Err MissingDiscontinuity else
  correction ← ok_or AcceptOutOfRange (i64_of (nanos (anchor s) - nanos observed_wall));
  Ok (mkPrepared (revision s) (anchor s) observed_wall observed_offset
        (encode_catalog_anchor (set_state Certain (set_correction correction s)))).

(** What a catalog commit shows of itself: whether it carries a governance audit record, and the
    objects of its snapshot. *)
Record CatalogCommit := mkCatalogCommit { has_governance_audit_record : bool; commit_objects : list bytes }.

(** [positron-kernel/src/retention_time.rs:188-222 PreparedLifecycleClockAcceptance::commit_after_catalog] *)
Definition commit_after_catalog (p : PreparedLifecycleClockAcceptance) (commit : CatalogCommit)
  (a : RetentionTimeAuthority) : RetentionTimeAuthority * result LifecycleClockAcceptanceFailure unit :=
  let s := safety a in
  if negb (has_governance_audit_record commit)
     || negb (existsb (fun record => bytes_eqb record (pa_accepted_record p)) (commit_objects commit))
  then (a, Err PersistenceMismatch) else
  if negb (revision s =? pa_revision p) || bool_decide (anchor s <> pa_anchor p) then (a, Err StaleAnchor) else
  if bool_decide (state s <> ClockUncertain) then (a, Err NotUncertain) else
  let s := set_state Certain s in
  match i64_of (nanos (pa_anchor p) - nanos (pa_observed_wall_clock p)) with
  | None => (set_safety s a, Err AcceptOutOfRange)
  | Some correction =>
      let s := set_correction correction s in
      match checked_add u64_max (revision s) 1 with
      | None => (set_safety s a, Err AcceptOutOfRange)
      | Some next => (set_safety (revised next s) a, Ok tt)
      end
  end.
