(* ===== verification/RetentionRuns.v ===== *)
(** Retention time: what holds in every run.

    An authority is shared by threads, each of which takes its locks one after the other; a run is
    a sequence of the sections executed under those locks, with the candidates staged for a
    catalog generation and the acceptance gate as part of the state. A section takes the counter
    that its thread read earlier, so the readings of a run need not be in order. Every operation of
    [RetentionTime] is a sequence of sections ([call_is_sections]). *)

From stdpp Require Import gmap sets relations.
From S2P Require Import Prelude Outcome Identity Routing SourceTime RetentionTime.

(** ** Values in range *)

Definition i64_ok (v : Z) : Prop := i64_min <= v <= i64_max.
Definition instant_ok (i : UnixNanoseconds) : Prop := i64_ok (nanos i).
Definition from_option_ok {A} (P : A -> Prop) (o : option A) : Prop := match o with Some a => P a | None => True end.

(** Every field holds a value of its machine type. *)
Record SafetyOk (s : LifecycleClockSafety) : Prop := {
  so_anchor : instant_ok (anchor s);
  so_elapsed : in_u u64_max (anchor_elapsed s);
  so_wall : from_option_ok instant_ok (last_wall_clock s);
  so_offset : from_option_ok i64_ok (observed_offset_nanoseconds s);
  so_correction : i64_ok (wall_clock_correction_nanoseconds s);
  so_revision : in_u u64_max (revision s);
}.
Definition ReadingOk (r : Reading) : Prop := 0 <= elapsed_nanos r /\ forall w, source_read r = Ok w -> instant_ok w.

(** ** The codec of the durable anchor *)

Lemma read_i64_app (p : bytes) v (rest : bytes) n : length p = n -> i64_ok v -> read_i64 (p ++ be_bytes 8 v ++ rest) n = Ok v.
Proof.
  intros <- Hv. unfold read_i64. rewrite drop_app_length, take_be_bytes, length_be_bytes.
  cbn [Nat.eqb]. by rewrite as_i64_be_bytes.
Qed.

Lemma length_optional v : length (optional_i64 v) = 9%nat.
Proof. by destruct v; cbn [optional_i64 length]; rewrite length_be_bytes. Qed.

Lemma read_optional_app (p : bytes) v (rest : bytes) n : length p = n -> from_option_ok i64_ok v ->
  read_optional_i64 (p ++ optional_i64 v ++ rest) n = Ok v.
Proof.
  intros <- Hv. unfold read_optional_i64. rewrite lookup_app_r, Nat.sub_diag by done.
  destruct v as [v|]; [|done]. cbn [optional_i64 app lookup list_lookup].
  rewrite cons_middle, app_assoc, (read_i64_app (p ++ [1]) v rest); [done| |done].
  by rewrite length_app, Nat.add_1_r.
Qed.

(** The durable part of a safety: what a decoded record restores. *)
Definition durable_part (s : LifecycleClockSafety) : LifecycleClockSafety :=
  mkLifecycleClockSafety (anchor s) 0 (state s) (last_wall_clock s) (observed_offset_nanoseconds s)
    (wall_clock_correction_nanoseconds s) 0.

Lemma length_encode s : length (encode_catalog_anchor s) = CLOCK_ANCHOR_BYTES.
Proof. unfold encode_catalog_anchor. rewrite !length_app, !length_be_bytes, !length_optional. reflexivity. Qed.

Lemma decode_encode s : SafetyOk s -> decode_catalog_anchor (encode_catalog_anchor s) = Ok (Some (durable_part s)).
Proof.
  intros [Ha _ Hw Ho Hc _]. unfold decode_catalog_anchor.
  rewrite bool_decide_true by (eexists; unfold encode_catalog_anchor; reflexivity).
  cbn [negb]. rewrite length_encode. unfold encode_catalog_anchor.
  set (flag := match state s with Certain => 0 | ClockUncertain => 1 end).
  set (w := optional_i64 (nanos <$> last_wall_clock s)). set (o := optional_i64 (observed_offset_nanoseconds s)).
  set (an := be_bytes 8 (nanos (anchor s))). set (co := be_bytes 8 (wall_clock_correction_nanoseconds s)).
  set (b := CLOCK_ANCHOR_MAGIC ++ _).
  assert (Hb : b = (CLOCK_ANCHOR_MAGIC ++ [2; flag]) ++ an ++ w ++ o ++ co) by reflexivity.
  change (b !! 8%nat) with (Some 2). change (b !! 9%nat) with (Some flag). cbn [ok_or mbind result_bind].
  change (negb _) with false. cbv iota.
  assert (Hl : read_i64 b 10 = Ok (nanos (anchor s)) /\ read_optional_i64 b 18 = Ok (nanos <$> last_wall_clock s)
    /\ read_optional_i64 b 27 = Ok (observed_offset_nanoseconds s)
    /\ read_i64 b CLOCK_ANCHOR_V1_BYTES = Ok (wall_clock_correction_nanoseconds s)).
  { rewrite Hb. split_and!.
    - by apply read_i64_app.
    - rewrite app_assoc. apply read_optional_app; [|by destruct (last_wall_clock s)].
      unfold an. by rewrite length_app, length_be_bytes.
    - rewrite app_assoc, app_assoc. apply read_optional_app; [|done].
      unfold an, w. by rewrite !length_app, length_be_bytes, length_optional.
    - rewrite 3!app_assoc. rewrite <- (app_nil_r co). apply read_i64_app; [|done].
      unfold an, w, o. by rewrite !length_app, length_be_bytes, !length_optional. }
  destruct Hl as (H1 & H2 & H3 & H4). rewrite H1, H2, H3, H4. clear -flag.
  unfold durable_part. destruct s as [[a] e [] [[wl]|] o c rv]; reflexivity.
Qed.

(** ** The effect of one reconciliation *)

(** The instant a safety stands for when the counter shows [e]. *)
Definition safe_now (s : LifecycleClockSafety) (e : Z) : Z := nanos (anchor s) + (e - anchor_elapsed s).

(** The cases of [reconcile_while_acceptance_held] on the safety, with its result. *)
Inductive Reconciled (a : RetentionTimeAuthority) (r : Reading) (x : UnixNanoseconds) (e : Z) :
  LifecycleClockSafety -> result LifecycleClockFailure unit -> Prop :=
| rec_stale err : advance_global (safety a) e = Err err -> Reconciled a r x e (safety a) (Err err)
| rec_overflow v : advance_global (safety a) e = Ok v -> u64_max < revision (safety a) + 1 ->
    Reconciled a r x e (moved (instant_max v x) e (safety a)) (Err ClockOutOfRange)
| rec_unsampled v res : advance_global (safety a) e = Ok v -> revision (safety a) + 1 <= u64_max ->
    (has_source a = false /\ res = Ok tt \/ has_source a = true /\ is_ok res = false) ->
    Reconciled a r x e (revised (revision (safety a) + 1) (moved (instant_max v x) e (safety a))) res
| rec_sampled v wall offset adjusted : advance_global (safety a) e = Ok v -> revision (safety a) + 1 <= u64_max ->
    has_source a = true -> source_read r = Ok wall ->
    i64_of (nanos wall - nanos (instant_max v x)) = Some offset ->
    i64_of (nanos wall + wall_clock_correction_nanoseconds (safety a)) = Some adjusted ->
    Reconciled a r x e (sampled wall offset
      (if maximum_reconciliation_offset_nanoseconds (policy a) <? Z.abs (adjusted - nanos (instant_max v x))
       then ClockUncertain else Certain)
      (revised (revision (safety a) + 1) (moved (instant_max v x) e (safety a)))) (Ok tt).

Lemma set_safety_twice s t a : set_safety s (set_safety t a) = set_safety s a.
Proof. done. Qed.

Lemma set_safety_same a : set_safety (safety a) a = a.
Proof. by destruct a. Qed.

Lemma reconcile_cases r x e a : exists s res,
  reconcile_while_acceptance_held r x e a = (set_safety s a, res) /\ Reconciled a r x e s res.
Proof.
  unfold reconcile_while_acceptance_held, clk_gets, clk_of, clk_safety, clk_put, mbind, Clk_bind.
  destruct (advance_global (safety a) e) as [v|err] eqn:Hv.
  2:{ eexists _, _. split; [by rewrite set_safety_same|by constructor]. }
  destruct (checked_add u64_max (revision (safety a)) 1) as [n|] eqn:Hn; cbn [ok_or].
  2:{ apply checked_add_None in Hn. eexists _, _. split; [done|by econstructor]. }
  apply checked_add_Some in Hn as [-> Hn]. rewrite set_safety_twice. cbn [has_source set_safety].
  destruct (has_source a) eqn:Hs.
  2:{ eexists _, _. split; [done|]. eapply rec_unsampled; eauto. }
  destruct (source_read r) as [wall|err] eqn:Hr.
  2:{ eexists _, _. split; [done|]. eapply rec_unsampled; eauto. }
  destruct (i64_of (nanos wall - _)) as [offset|] eqn:Ho; cbn [ok_or].
  2:{ eexists _, _. split; [done|]. eapply rec_unsampled; eauto. }
  destruct (i64_of (nanos wall + _)) as [adjusted|] eqn:Had; cbn [ok_or].
  2:{ eexists _, _. split; [done|]. eapply rec_unsampled; eauto. }
  eexists _, _. split; [reflexivity|]. cbn [safety policy set_safety]. by eapply rec_sampled.
Qed.

Lemma advance_global_Ok s e v : advance_global s e = Ok v ->
  nanos v = safe_now s e /\ anchor_elapsed s <= e /\ instant_ok v.
Proof.
  unfold advance_global, safe_now. intros H%ok_or_Ok.
  destruct (checked_sub e (anchor_elapsed s)) as [d|] eqn:H1; [|done]. cbn [mbind option_bind] in H.
  destruct (i64_of d) as [d'|] eqn:H2; [|done]. cbn [mbind option_bind] in H.
  destruct (i64_of (nanos (anchor s) + d')) as [w|] eqn:H3; [|done]. cbn in H. injection H as <-.
  apply checked_sub_Some in H1 as [-> ?]. apply i64_of_Some in H2 as [-> ?]. apply i64_of_Some in H3 as [-> ?].
  cbn. split_and!; [lia|lia|done].
Qed.

Lemma advance_Ok b e v : advance b e = Ok v ->
  nanos v = nanos (base_instant b) + (e - elapsed_at_start b) /\ elapsed_at_start b <= e /\ instant_ok v.
Proof. apply (advance_global_Ok (mkLifecycleClockSafety (base_instant b) (elapsed_at_start b) Certain None None 0 0)). Qed.

Lemma reconciled_safe_now a r x e s res : Reconciled a r x e s res -> forall later, safe_now (safety a) later <= safe_now s later.
Proof.
  intros H later. destruct H as [err H|v H|v res H|v wall offset adj H]; [lia|..];
    apply advance_global_Ok in H as (H & _); unfold safe_now in *; cbn in *; lia.
Qed.

Lemma reconciled_reaches a r x e s : Reconciled a r x e s (Ok tt) -> anchor_elapsed s = e /\ nanos x <= nanos (anchor s).
Proof. intros H. inversion H; subst; cbn; lia. Qed.

Lemma reconciled_certain a r x e s res : Reconciled a r x e s res -> state s = Certain -> state (safety a) = Certain \/
  exists wall, source_read r = Ok wall /\ last_wall_clock s = Some wall /\ has_source a = true /\
    Z.abs (nanos wall + wall_clock_correction_nanoseconds s - nanos (anchor s)) <= maximum_reconciliation_offset_nanoseconds (policy a).
Proof.
  intros H Hs. destruct H; cbn in *; auto. right. destruct (Z.ltb_spec (maximum_reconciliation_offset_nanoseconds (policy a))
    (Z.abs (adjusted - Z.max (nanos v) (nanos x)))); [done|].
  apply i64_of_Some in H4 as [-> _]. eauto.
Qed.

Lemma instant_max_ok v x : instant_ok v -> instant_ok x -> instant_ok (instant_max v x).
Proof. unfold instant_ok, i64_ok, instant_max. cbn. lia. Qed.

Lemma reconciled_ok a r x e s res : Reconciled a r x e s res -> SafetyOk (safety a) -> in_u u64_max e -> instant_ok x -> ReadingOk r ->
  SafetyOk s.
Proof.
  intros H [] He Hx [_ Hr]. destruct H as [err H|v H|v res H|v wall offset adj H ? ? Hw Ho]; [by constructor|..];
    apply advance_global_Ok in H as (_ & _ & Hv); constructor; cbn [anchor anchor_elapsed state last_wall_clock
      observed_offset_nanoseconds wall_clock_correction_nanoseconds revision moved revised sampled from_option_ok];
    try done; try (by apply instant_max_ok); try (unfold in_u in *; lia); [by apply Hr|].
  apply i64_of_Some in Ho as [-> Ho]. done.
Qed.

(** ** Runs *)

(** A process: its authority, the candidates staged and not yet dropped, and the acceptance that
    holds the gate. *)
Record Clockwork := mkClockwork {
  cw_authority : RetentionTimeAuthority;
  cw_staged : list StagedCatalogAnchor;
  cw_gate : option PreparedLifecycleClockAcceptance;
}.

(** The candidate after [observe_candidate] saw a new revision. *)
Definition marked (t : StagedCatalogAnchor) (a : RetentionTimeAuthority) : StagedCatalogAnchor :=
  mkStagedCatalogAnchor (checkpoint t) (Some (revision (safety a))) (Some (anchor (safety a))) (committed t).

(** A section of one thread, with what it was given: the reading its thread took, the durable record
    it installs, the catalog commit it was shown. *)
Inductive section :=
| SecReconcile (r : Reading) (durable_or_expected : UnixNanoseconds) (elapsed : Z)
| SecInstall (record : LifecycleClockSafety) (elapsed : Z)
| SecRecoverBaseline (scope : SegmentScope) (durable : IngestTime) (elapsed : Z)
| SecMint (scope : SegmentScope) (durable : option IngestTime) (elapsed : Z)
| SecStage
| SecMark (t : StagedCatalogAnchor)
| SecFinish (t : StagedCatalogAnchor)
| SecDrop (t : StagedCatalogAnchor)
| SecPrepare (expected : UnixNanoseconds)
| SecAccept (commit : CatalogCommit)
| SecRelease.

(** What a section does. Sections that change the clock wait for the gate; the others, under the
    lock of the scope table or reading the clock, do not. *)
Inductive section_step : section -> Clockwork -> Clockwork -> Prop :=
| tick_reconcile r x e a st : ReadingOk r -> instant_ok x -> in_u u64_max e ->
    section_step (SecReconcile r x e) (mkClockwork a st None) (mkClockwork (reconcile_while_acceptance_held r x e a).1 st None)
| tick_install record e a st : SafetyOk record -> in_u u64_max e ->
    section_step (SecInstall record e) (mkClockwork a st None) (mkClockwork (install_anchor record e a).1 st None)
| tick_recover_baseline scope durable e a st g : instant_ok (instant durable) -> in_u u64_max e ->
    section_step (SecRecoverBaseline scope durable e) (mkClockwork a st g) (mkClockwork (recover_baseline scope durable e a).1 st g)
| tick_mint scope durable e a st g : from_option_ok (fun d => instant_ok (instant d)) durable -> in_u u64_max e ->
    section_step (SecMint scope durable e) (mkClockwork a st g) (mkClockwork (mint scope durable e a).1 st g)
| tick_stage a st g : section_step SecStage (mkClockwork a st g) (mkClockwork a (stage_catalog_anchor a :: st) g)
| tick_mark a st1 t st2 g :
    section_step (SecMark t) (mkClockwork a (st1 ++ t :: st2) g) (mkClockwork a (st1 ++ marked t a :: st2) g)
| tick_finish a st1 t st2 g :
    section_step (SecFinish t) (mkClockwork a (st1 ++ t :: st2) g) (mkClockwork (drop_staged (commit_staged t) a) (st1 ++ st2) g)
| tick_drop a st1 t st2 :
    section_step (SecDrop t) (mkClockwork a (st1 ++ t :: st2) None) (mkClockwork (drop_staged t a) (st1 ++ st2) None)
| tick_prepare expected p a st : prepare_discontinuity_acceptance expected a = Ok p ->
    section_step (SecPrepare expected) (mkClockwork a st None) (mkClockwork a st (Some p))
| tick_accept p commit a st :
    section_step (SecAccept commit) (mkClockwork a st (Some p)) (mkClockwork (commit_after_catalog p commit a).1 st None)
| tick_release p a st : section_step SecRelease (mkClockwork a st (Some p)) (mkClockwork a st None).

Definition tick (c c' : Clockwork) : Prop := exists s, section_step s c c'.

(** *** Operations are sequences of sections *)

(** A computation made of sections. *)
Definition Sections {A} (m : Clk A) : Prop :=
  forall a st, rtc tick (mkClockwork a st None) (mkClockwork (m a).1 st None).

Lemma sections_bind {A B} (m : Clk A) (k : A -> Clk B) :
  Sections m -> (forall a v, (m a).2 = Ok v -> Sections (k v)) -> Sections (m ≫= k).
Proof.
  intros Hm Hk a st. specialize (Hm a st). unfold mbind, Clk_bind.
  pose proof (Hk a) as Hka. destruct (m a) as [a' [v|err]]; cbn [fst snd] in *; [|done].
  etrans; [done|]. by apply Hka.
Qed.

Lemma sections_of {A} (r : result LifecycleClockFailure A) : Sections (clk_of r).
Proof. intros a st. constructor. Qed.

Lemma sections_gets {A} (f : RetentionTimeAuthority -> A) : Sections (clk_gets f).
Proof. intros a st. constructor. Qed.

Lemma sections_ret {A} (v : A) : Sections (mret v).
Proof. intros a st. constructor. Qed.

Lemma sections_reconcile r x e : ReadingOk r -> instant_ok x -> in_u u64_max e -> Sections (reconcile_while_acceptance_held r x e).
Proof. intros ? ? ? a st. apply rtc_once. eexists. by constructor. Qed.

Lemma sections_recover_baseline scope durable e : instant_ok (instant durable) -> in_u u64_max e ->
  Sections (recover_baseline scope durable e).
Proof. intros ? ? a st. apply rtc_once. eexists. by constructor. Qed.

Lemma sections_mint scope durable e : from_option_ok (fun d => instant_ok (instant d)) durable -> in_u u64_max e ->
  Sections (mint scope durable e).
Proof. intros ? ? a st. apply rtc_once. eexists. by constructor. Qed.

Lemma sections_install record e : SafetyOk record -> in_u u64_max e -> Sections (install_anchor record e).
Proof. intros ? ? a st. apply rtc_once. eexists. by constructor. Qed.

Create HintDb clock.
#[export] Hint Resolve sections_of sections_gets sections_ret sections_reconcile sections_recover_baseline sections_mint
  sections_install : clock.

Lemma elapsed_in_range r e : ReadingOk r -> elapsed_nanoseconds r = Ok e -> in_u u64_max e.
Proof.
  intros [Hr _]. unfold elapsed_nanoseconds. destruct (Z.leb_spec (elapsed_nanos r) u64_max); [|done].
  intros [= <-]. unfold in_u. lia.
Qed.

Lemma sections_current r e : ReadingOk r -> in_u u64_max e -> Sections (reconcile_current r e).
Proof.
  intros Hr He. apply sections_bind; [auto with clock|]. intros _ s _. apply sections_bind; [auto with clock|].
  intros a v Hv. apply advance_global_Ok in Hv as (_ & _ & Hv). by apply sections_reconcile.
Qed.
#[export] Hint Resolve sections_current : clock.

(** The operations that threads call. *)
Inductive call :=
| CallIngestTime (scope : SegmentScope) (durable : option IngestTime)
| CallDestructiveIngestTime (scope : SegmentScope) (durable : option IngestTime)
| CallLeaseRecoveryTime (scope : SegmentScope) (durable : option IngestTime)
| CallLeaseTime (scope : SegmentScope)
| CallGovernanceNow
| CallSecurityTime
| CallRecoverScope (scope : SegmentScope) (durable : IngestTime)
| CallRecoverCatalog (objects : list bytes).

Definition ignore {A} (m : Clk A) : Clk unit := _ ← m; mret tt.
Definition run_call (c : call) (r : Reading) : Clk unit :=
  match c with
  | CallIngestTime scope durable => ignore (ingest_time r scope durable)
  | CallDestructiveIngestTime scope durable => ignore (destructive_ingest_time r scope durable)
  | CallLeaseRecoveryTime scope durable => ignore (lease_recovery_time r scope durable)
  | CallLeaseTime scope => ignore (lease_time r scope)
  | CallGovernanceNow => ignore (governance_now_seconds r)
  | CallSecurityTime => ignore (security_time_seconds r)
  | CallRecoverScope scope durable => recover_scope r scope durable
  | CallRecoverCatalog objects => recover_catalog_anchor r objects
  end.

(** The durable instants a call is given are instants, the objects are bytes. *)
Definition CallOk (c : call) : Prop :=
  match c with
  | CallIngestTime _ durable | CallDestructiveIngestTime _ durable | CallLeaseRecoveryTime _ durable =>
      from_option_ok (fun d => instant_ok (instant d)) durable
  | CallRecoverScope _ durable => instant_ok (instant durable)
  | CallRecoverCatalog objects => Forall bytes_ok objects
  | _ => True
  end.

Lemma read_i64_range b n v : bytes_ok b -> read_i64 b n = Ok v -> i64_ok v.
Proof.
  intros Hb. unfold read_i64. destruct (Nat.eqb_spec (length (take 8 (drop n b))) 8) as [Hl|]; [|done].
  intros [= <-]. apply as_i64_bounds. change two64 with (256 ^ Z.of_nat 8).
  pose proof (be_value_bounds (take 8 (drop n b))) as H. rewrite Hl in H. apply H. by apply Forall_take, Forall_drop.
Qed.

Lemma read_optional_range b n v : bytes_ok b -> read_optional_i64 b n = Ok v -> from_option_ok i64_ok v.
Proof.
  intros Hb. unfold read_optional_i64. destruct (b !! n) as [[|[]|]|]; try done; [by intros [= <-]|].
  destruct (read_i64 b (S n)) as [w|] eqn:Hw; [|done]. intros [= <-]. by eapply read_i64_range.
Qed.

Lemma decode_range b s : bytes_ok b -> decode_catalog_anchor b = Ok (Some s) -> SafetyOk s.
Proof.
  intros Hb. unfold decode_catalog_anchor. destruct (negb _); [done|]. intros H.
  destruct (ok_or ClockOutOfRange (b !! 8%nat)) as [version|]; [|done]. cbn [mbind result_bind] in H. destruct (negb _); [done|].
  destruct (match b !! 9%nat with Some 0 => Ok Certain | Some 1 => Ok ClockUncertain | _ => Err ClockOutOfRange end)
    as [st|] eqn:Hst; [|done]. cbn [mbind result_bind] in H.
  destruct (read_i64 b 10) as [an|] eqn:Han; [|done]. cbn [mbind result_bind] in H.
  destruct (read_optional_i64 b 18) as [w|] eqn:Hw; [|done]. cbn [mbind result_bind] in H.
  destruct (read_optional_i64 b 27) as [o|] eqn:Ho; [|done]. cbn [mbind result_bind] in H.
  destruct (if version =? 1 then Ok 0 else read_i64 b CLOCK_ANCHOR_V1_BYTES) as [co|] eqn:Hco; [|done].
  cbn [mbind result_bind] in H. injection H as <-.
  apply read_i64_range in Han; [|done]. apply read_optional_range in Hw; [|done]. apply read_optional_range in Ho; [|done].
  constructor; cbn; try done; [by destruct w|].
  destruct (version =? 1); [injection Hco as <-; done|by eapply read_i64_range].
Qed.

Lemma find_anchor_range objects : Forall bytes_ok objects -> forall found record, from_option_ok SafetyOk found ->
  try_fold find_anchor_step found objects = Ok record -> from_option_ok SafetyOk record.
Proof.
  intros Ho. induction Ho as [|b objects Hb _ IH]; intros found record Hf H; cbn [try_fold] in H.
  - by injection H as <-.
  - unfold find_anchor_step at 1 in H. destruct (decode_catalog_anchor b) as [[c|]|] eqn:Hd; cbn [mbind result_bind] in H; [| |done].
    + destruct found; [done|]. apply (IH (Some c)); [|done]. by eapply decode_range.
    + by apply (IH found).
Qed.

Lemma sections_ingest r scope durable : ReadingOk r -> from_option_ok (fun d => instant_ok (instant d)) durable ->
  Sections (ingest_time r scope durable).
Proof.
  intros Hr Hd. apply sections_bind; [auto with clock|]. intros a e He. cbn in He. apply elapsed_in_range in He; [|done].
  apply sections_bind; [auto with clock|]. intros _ _ _. auto with clock.
Qed.

#[export] Hint Resolve sections_ingest : clock.

Lemma sections_ignore {A} (m : Clk A) : Sections m -> Sections (ignore m).
Proof. intros Hm. apply sections_bind; [done|]. auto with clock. Qed.

Lemma sections_after_elapsed {A} r (k : Z -> Clk A) : ReadingOk r -> (forall e, in_u u64_max e -> Sections (k e)) ->
  Sections (e ← clk_of (elapsed_nanoseconds r); k e).
Proof. intros Hr Hk. apply sections_bind; [auto with clock|]. intros a e He. apply Hk. by eapply elapsed_in_range. Qed.

(** Bind by bind, each part closed by the lemmas on sections. *)
Ltac sections :=
  repeat (first [ solve [auto with clock] | apply sections_after_elapsed; [done|intros ? ?] | apply sections_bind; [|intros ? ? ?]
                | match goal with |- Sections (if ?b then _ else _) => destruct b end ]).

(** Every call is a sequence of sections, whatever it returns. *)
Lemma call_is_sections c r : ReadingOk r -> CallOk c -> Sections (run_call c r).
Proof.
  intros Hr Hc. destruct c as [scope d|scope d|scope [d|]|scope| | |scope d|objects]; cbn [run_call CallOk] in *;
    try apply sections_ignore; unfold destructive_ingest_time, lease_recovery_time, lease_time, governance_now_seconds,
    security_time_seconds, recover_scope, reconcile, recover_catalog_anchor.
  1-8: by sections.
  apply sections_bind; [auto with clock|]. intros a [record|] Hrec; [|auto with clock].
  apply (find_anchor_range objects Hc None) in Hrec; [|done]. cbn [from_option_ok] in Hrec.
  pose proof (so_anchor _ Hrec). by sections.
Qed.

(** So is a call made through a candidate that has not observed before. *)
Lemma staged_call_is_sections c r a st1 t st2 : ReadingOk r -> CallOk c -> candidate_revision t = None ->
  let '(t', a', _) := observe_candidate (run_call c r) t a in
  rtc tick (mkClockwork a (st1 ++ t :: st2) None) (mkClockwork a' (st1 ++ t' :: st2) None).
Proof.
  intros Hr Hc Hnone. unfold observe_candidate. pose proof (call_is_sections c r Hr Hc a (st1 ++ t :: st2)) as Hrun.
  destruct (run_call c r a) as [a' res]. rewrite Hnone. cbn [fst] in Hrun.
  destruct (revision (safety a') =? revision (safety a)).
  - rewrite <- Hnone. by destruct t.
  - etrans; [apply Hrun|]. apply rtc_once. eexists. apply (tick_mark a' st1 t st2 None).
Qed.
