(* ===== verification/RetentionSafety.v ===== *)
(** Retention time: theorems.

    The values of the clock stay in their types, a prepared acceptance takes effect, the ingest
    times of a scope and the safe clock never go back, destructive work needs a certain clock, an
    uncertain clock becomes certain exactly when a section shows why, the durable anchor survives a restart; and three runs in which the code departs from its comments. *)

From stdpp Require Import gmap sets relations.
From S2P Require Import Prelude Outcome Identity Routing SourceTime RetentionTime RetentionRuns.

(** ** The table of scopes *)

(** The instant a baseline stands for when the counter shows [e]. *)
Definition scope_now (b : ScopeBaseline) (e : Z) : Z := nanos (base_instant b) + (e - elapsed_at_start b).

Definition table_after (scope : SegmentScope) (b : ScopeBaseline) (a a' : RetentionTimeAuthority) : Prop :=
  a' = set_scopes (<[scope := b]> (scopes a)) a /\ scope_table_full scope (scopes a) = false.

Lemma mint_cases scope durable e a a' res : mint scope durable e a = (a', res) ->
  a' = a /\ is_ok res = false \/
  exists b, table_after scope b a a' /\ b = default (initial_baseline (epoch a) durable) (scopes a !! scope) /\
    forall t, res = Ok t -> nanos (instant t) = scope_now b e.
Proof.
  unfold mint, clk_gets, clk_of, clk_put, mbind, Clk_bind. destruct (scope_table_full _ _) eqn:Hfull; [by intros [= <- <-]; left|].
  set (b := default _ _). destruct (advance b e) as [v|err] eqn:Hv; intros [= <- <-]; right; exists b; (split; [done|]); (split; [done|]);
    [|done].
  intros t [= <-]. by apply advance_Ok in Hv as [Hv _].
Qed.

Lemma recover_baseline_cases scope durable e a a' res : recover_baseline scope durable e a = (a', res) ->
  a' = a /\ is_ok res = false \/
  exists b, res = Ok tt /\ table_after scope b a a' /\ (instant_ok (instant durable) -> instant_ok (base_instant b)) /\
    (elapsed_at_start b = e \/ elapsed_at_start b = 0) /\
    (forall old, scopes a !! scope = Some old -> forall later, scope_now old later <= scope_now b later) /\
    (0 <= e -> forall later, e <= later -> nanos (instant durable) <= scope_now b later).
Proof.
  unfold recover_baseline, clk_gets, clk_of, clk_put, mbind, Clk_bind.
  destruct (scope_table_full _ _) eqn:Hfull; [by intros [= <- <-]; left|].
  destruct (scopes a !! scope) as [old|] eqn:Hold.
  - destruct (advance old e) as [v|err] eqn:Hv; intros [= <- <-]; [right|by left].
    apply advance_Ok in Hv as (Hv & _ & Hok). eexists. split_and!; [done|done| |by left|intros ? [= <-] later|intros ? later];
      unfold scope_now; cbn; [intros; by apply instant_max_ok|lia..].
  - intros [= <- <-]. right. eexists. split_and!; [done|done|done|by right|done|intros ? later]; unfold scope_now; cbn; lia.
Qed.

(** *** The time of a scope never goes back *)

(** Every scope of the first table is in the second, at least as late. *)
Definition Frontier (a a' : RetentionTimeAuthority) : Prop := forall scope b, scopes a !! scope = Some b ->
  exists b', scopes a' !! scope = Some b' /\ forall e, scope_now b e <= scope_now b' e.

#[global] Instance Frontier_preorder : PreOrder Frontier.
Proof.
  split; [intros a scope b Hb; by exists b|]. intros a1 a2 a3 H12 H23 scope b Hb.
  destruct (H12 scope b Hb) as (b2 & Hb2 & Hle). destruct (H23 scope b2 Hb2) as (b3 & Hb3 & Hle').
  exists b3. split; [done|]. intros e. specialize (Hle e). specialize (Hle' e). lia.
Qed.

Lemma frontier_same a a' : scopes a' = scopes a -> Frontier a a'.
Proof. intros He scope b Hb. exists b. by rewrite He. Qed.

Lemma frontier_insert scope b a : (forall old, scopes a !! scope = Some old -> forall e, scope_now old e <= scope_now b e) ->
  Frontier a (set_scopes (<[scope := b]> (scopes a)) a).
Proof.
  intros Hle scope' b' Hb'. cbn. destruct (decide (scope' = scope)) as [->|Hne].
  - exists b. rewrite lookup_insert_eq. split; [done|]. by apply Hle.
  - exists b'. rewrite lookup_insert_ne by done. done.
Qed.

Lemma mint_frontier scope durable e a : Frontier a (mint scope durable e a).1.
Proof.
  destruct (mint scope durable e a) as [a' res] eqn:H. apply mint_cases in H as [[-> _]|(b & [-> _] & Hb & _)]; [done|].
  apply frontier_insert. intros old Hold e'. rewrite Hb, Hold. cbn. lia.
Qed.

Lemma recover_baseline_frontier scope durable e a : Frontier a (recover_baseline scope durable e a).1.
Proof.
  destruct (recover_baseline scope durable e a) as [a' res] eqn:H.
  apply recover_baseline_cases in H as [[-> _]|(b & _ & [-> _] & _ & _ & Hle & _)]; [done|]. by apply frontier_insert.
Qed.

(** *** Sections that leave the table alone *)

Lemma reconcile_scopes r x e a : scopes (reconcile_while_acceptance_held r x e a).1 = scopes a.
Proof. destruct (reconcile_cases r x e a) as (s & res & -> & _). done. Qed.

(** The safety after [install_anchor]: the record, at the new revision unless that overflows. *)
Lemma install_cases record e a : exists v,
  install_anchor record e a = (set_safety (revised v (installed record e (safety a))) a,
    if revision (safety a) + 1 <=? u64_max then Ok tt else Err ClockOutOfRange) /\
  (v = revision (safety a) \/ v = revision (safety a) + 1 /\ v <= u64_max).
Proof.
  unfold install_anchor, clk_gets, clk_of, clk_safety, clk_put, mbind, Clk_bind, checked_add.
  destruct (Z.leb_spec (revision (safety a) + 1) u64_max); cbn [ok_or]; eexists; (split; [done|]); [right|left]; done.
Qed.

Lemma drop_scopes t a : scopes (drop_staged t a) = scopes a.
Proof. unfold drop_staged, abandon_catalog_anchor. by destruct (committed t), (candidate_revision t); [..|case_match|]. Qed.

Lemma accept_scopes p commit a : scopes (commit_after_catalog p commit a).1 = scopes a.
Proof. unfold commit_after_catalog. by repeat case_match. Qed.

Lemma tick_frontier c c' : tick c c' -> Frontier (cw_authority c) (cw_authority c').
Proof.
  intros [? H]. destruct H; cbn [cw_authority]; try done.
  - apply frontier_same, reconcile_scopes.
  - apply frontier_same. by destruct (install_cases record e a) as (v & -> & _).
  - apply recover_baseline_frontier.
  - apply mint_frontier.
  - apply frontier_same, drop_scopes.
  - apply frontier_same, accept_scopes.
Qed.

Lemma run_frontier c c' : rtc tick c c' -> Frontier (cw_authority c) (cw_authority c').
Proof. induction 1 as [|c1 c2 c3 H _ IH]; [done|]. etrans; [by eapply tick_frontier|done]. Qed.

Lemma ingest_inv r scope durable a a' t : ingest_time r scope durable a = (a', Ok t) ->
  exists a1, reconcile_current r (elapsed_nanos r) a = (a1, Ok tt) /\ mint scope durable (elapsed_nanos r) a1 = (a', Ok t)
    /\ elapsed_nanos r <= u64_max.
Proof.
  unfold ingest_time, elapsed_nanoseconds, clk_of, mbind, Clk_bind. destruct (Z.leb_spec (elapsed_nanos r) u64_max) as [He|]; [|done].
  destruct (reconcile_current r (elapsed_nanos r) a) as [a1 [[]|]]; [|done]. intros H. by exists a1.
Qed.

Lemma ingest_baseline r scope durable a a' t : ingest_time r scope durable a = (a', Ok t) ->
  exists b, scopes a' !! scope = Some b /\ nanos (instant t) = scope_now b (elapsed_nanos r).
Proof.
  intros (a1 & _ & Hm & _)%ingest_inv. apply mint_cases in Hm as [[_ ?]|(b & [-> _] & _ & Ht)]; [done|].
  exists b. cbn. rewrite lookup_insert_eq. auto.
Qed.

Lemma current_scopes r e a : scopes (reconcile_current r e a).1 = scopes a.
Proof.
  unfold reconcile_current, reconcile, clk_gets, clk_of, mbind, Clk_bind.
  destruct (advance_global (safety a) e) as [v|]; [apply reconcile_scopes|done].
Qed.

Lemma ingest_keeps_baseline r scope durable a a' t b : ingest_time r scope durable a = (a', Ok t) -> scopes a !! scope = Some b ->
  nanos (instant t) = scope_now b (elapsed_nanos r).
Proof.
  intros (a1 & Hc & Hm & _)%ingest_inv Hb. pose proof (current_scopes r (elapsed_nanos r) a) as Hs. rewrite Hc in Hs. cbn in Hs.
  apply mint_cases in Hm as [[_ ?]|(b' & _ & -> & Ht)]; [done|]. rewrite Ht by done. by rewrite Hs, Hb.
Qed.

(** C12 (invariant). Once a scope has been given an ingest time, every ingest time it is given later in the
    same process, after any interleaving of other operations, recoveries, acceptances and abandoned
    candidates, is at least as late, provided the counter has not gone back. *)
Theorem ingest_times_never_decrease r1 r2 scope d1 d2 a a1 t1 st g c a2 t2 :
  ingest_time r1 scope d1 a = (a1, Ok t1) -> rtc tick (mkClockwork a1 st g) c ->
  ingest_time r2 scope d2 (cw_authority c) = (a2, Ok t2) -> elapsed_nanos r1 <= elapsed_nanos r2 ->
  nanos (instant t1) <= nanos (instant t2).
Proof.
  intros H1 Hrun H2 He. apply ingest_baseline in H1 as (b & Hb & ->).
  destruct (run_frontier _ _ Hrun scope b Hb) as (b' & Hb' & Hle). rewrite (ingest_keeps_baseline _ _ _ _ _ _ _ H2 Hb').
  specialize (Hle (elapsed_nanos r2)). unfold scope_now in *. lia.
Qed.

(** Also (safety). After the durable frontier of a scope was recovered, no ingest time of that scope
    is earlier than the frontier. *)
Theorem recovered_frontier_is_respected r1 r2 scope durable d2 a a1 st g c a2 t2 :
  0 <= elapsed_nanos r1 ->
  recover_scope r1 scope durable a = (a1, Ok tt) -> rtc tick (mkClockwork a1 st g) c ->
  ingest_time r2 scope d2 (cw_authority c) = (a2, Ok t2) -> elapsed_nanos r1 <= elapsed_nanos r2 ->
  nanos (instant durable) <= nanos (instant t2).
Proof.
  unfold recover_scope, elapsed_nanoseconds, clk_of, mbind, Clk_bind. intros H0 H1 Hrun H2 He.
  destruct (Z.leb_spec (elapsed_nanos r1) u64_max); [|done].
  destruct (reconcile r1 (instant durable) (elapsed_nanos r1) a) as [a0 [[]|]]; [|done].
  apply recover_baseline_cases in H1 as [[_ ?]|(b & _ & [-> _] & _ & _ & _ & Hd)]; [done|].
  destruct (run_frontier _ _ Hrun scope b) as (b' & Hb' & Hle); [cbn; apply lookup_insert_eq|].
  rewrite (ingest_keeps_baseline _ _ _ _ _ _ _ H2 Hb'). specialize (Hd H0 _ He). specialize (Hle (elapsed_nanos r2)). lia.
Qed.

(** ** The invariant of a run *)

(** The safety that an accepted discontinuity makes durable. *)
Definition accepted_safety (p : PreparedLifecycleClockAcceptance) (s : LifecycleClockSafety) : LifecycleClockSafety :=
  set_state Certain (set_correction (nanos (pa_anchor p) - nanos (pa_observed_wall_clock p)) s).

(** A prepared acceptance describes the safety it was prepared from. *)
Record Describes (p : PreparedLifecycleClockAcceptance) (s : LifecycleClockSafety) : Prop := {
  de_state : state s = ClockUncertain;
  de_revision : revision s = pa_revision p;
  de_anchor : anchor s = pa_anchor p;
  de_wall : last_wall_clock s = Some (pa_observed_wall_clock p);
  de_offset : observed_offset_nanoseconds s = Some (pa_observed_offset_nanoseconds p);
  de_correction : i64_of (nanos (pa_anchor p) - nanos (pa_observed_wall_clock p)) = Some (nanos (pa_anchor p) - nanos (pa_observed_wall_clock p));
  de_record : pa_accepted_record p = encode_catalog_anchor (accepted_safety p s);
}.

Definition BaselineOk (b : ScopeBaseline) : Prop := instant_ok (base_instant b) /\ in_u u64_max (elapsed_at_start b).

Record AuthorityOk (a : RetentionTimeAuthority) : Prop := {
  ao_safety : SafetyOk (safety a);
  ao_epoch : instant_ok (epoch a);
  ao_scopes : forall scope b, scopes a !! scope = Some b -> BaselineOk b;
  ao_bounded : (size (scopes a) <= MAX_TENANT_QUOTAS)%nat;
}.

Record ClockOk (c : Clockwork) : Prop := {
  co_authority : AuthorityOk (cw_authority c);
  co_staged : Forall (fun t => SafetyOk (checkpoint t)) (cw_staged c);
  co_gate : from_option_ok (fun p => Describes p (safety (cw_authority c))) (cw_gate c);
}.

Lemma prepare_describes expected a p : prepare_discontinuity_acceptance expected a = Ok p -> Describes p (safety a).
Proof.
  unfold prepare_discontinuity_acceptance. case_bool_decide as Hst; [done|]. case_bool_decide as Han; [done|]. intros H.
  destruct (last_wall_clock (safety a)) as [w|] eqn:Hw; [|done]. cbn [ok_or mbind result_bind] in H.
  destruct (observed_offset_nanoseconds (safety a)) as [o|] eqn:Ho; [|done]. cbn [ok_or mbind result_bind] in H.
  destruct (_ <=? _); [done|].
  destruct (i64_of (nanos (anchor (safety a)) - nanos w)) as [co|] eqn:Hco; [|done]. cbn [ok_or mbind result_bind] in H.
  injection H as <-. pose proof Hco as [-> _]%i64_of_Some.
  constructor; cbn; try done.
Qed.

Lemma authority_ok_safety s a : AuthorityOk a -> SafetyOk s -> AuthorityOk (set_safety s a).
Proof. intros [] Hs. by constructor. Qed.

Lemma authority_ok_table scope b a a' : AuthorityOk a -> table_after scope b a a' -> BaselineOk b -> AuthorityOk a'.
Proof.
  intros [? ? Hsc Hsz] [-> Hfull] Hb. constructor; cbn; [done|done| |].
  - intros scope' b'. destruct (decide (scope' = scope)) as [->|]; [rewrite lookup_insert_eq; by intros [= <-]|].
    rewrite lookup_insert_ne by done. apply Hsc.
  - unfold scope_table_full in Hfull. destruct (scopes a !! scope) eqn:Hl.
    + by rewrite map_size_insert_Some.
    + apply Nat.leb_gt in Hfull. rewrite map_size_insert_None by done. lia.
Qed.

Lemma in_u_revised s v : SafetyOk s -> in_u u64_max v -> SafetyOk (revised v s).
Proof. intros [] Hv. by constructor. Qed.

Lemma state_ok st s : SafetyOk s -> SafetyOk (set_state st s).
Proof. intros []. by constructor. Qed.

Lemma mint_ok scope durable e a : AuthorityOk a -> from_option_ok (fun d => instant_ok (instant d)) durable ->
  AuthorityOk (mint scope durable e a).1.
Proof.
  intros Ha Hd. destruct (mint scope durable e a) as [a' res] eqn:H. cbn.
  apply mint_cases in H as [[-> _]|(b & Ht & -> & _)]; [done|]. eapply authority_ok_table; [done|done|].
  destruct (scopes a !! scope) as [b|] eqn:Hb; cbn; [by eapply ao_scopes|]. split; [|by unfold in_u]. cbn.
  destruct durable; cbn in *; [done|by apply ao_epoch].
Qed.

Lemma recover_baseline_ok scope durable e a : AuthorityOk a -> instant_ok (instant durable) -> in_u u64_max e ->
  AuthorityOk (recover_baseline scope durable e a).1.
Proof.
  intros Ha Hd He. destruct (recover_baseline scope durable e a) as [a' res] eqn:H. cbn.
  apply recover_baseline_cases in H as [[-> _]|(b & _ & Ht & Hb & Hs & _)]; [done|]. eapply authority_ok_table; [done|done|].
  split; [by apply Hb|]. destruct Hs as [->| ->]; [done|by unfold in_u].
Qed.

Lemma install_ok record e a : AuthorityOk a -> SafetyOk record -> in_u u64_max e -> AuthorityOk (install_anchor record e a).1.
Proof.
  intros Ha Hr He. destruct (install_cases record e a) as (v & -> & Hv). apply authority_ok_safety; [done|].
  pose proof (so_revision _ (ao_safety _ Ha)) as Hrev. destruct Hr. constructor; cbn; try done. unfold in_u in *.
  destruct Hv as [->|[-> ?]]; lia.
Qed.

Lemma drop_staged_ok t a : AuthorityOk a -> SafetyOk (checkpoint t) -> AuthorityOk (drop_staged t a).
Proof.
  intros Ha Ht. unfold drop_staged, abandon_catalog_anchor. destruct (committed t); [done|]. destruct (candidate_revision t); [|done].
  destruct (_ =? _); apply authority_ok_safety; try done.
  - case_bool_decide; [by apply state_ok|done].
  - apply in_u_revised; [by apply state_ok, Ha|]. pose proof (so_revision _ (ao_safety _ Ha)) as Hrev.
    unfold saturating_add, in_u in *. lia.
Qed.

Lemma accept_ok p commit a : AuthorityOk a -> AuthorityOk (commit_after_catalog p commit a).1.
Proof.
  intros Ha. pose proof (ao_safety _ Ha) as Hs. unfold commit_after_catalog.
  destruct (_ || _); [done|]. destruct (_ || _); [done|]. case_bool_decide; [done|].
  destruct (i64_of _) as [co|] eqn:Hco; [|by apply authority_ok_safety, state_ok].
  apply i64_of_Some in Hco as [-> Hco].
  assert (Hs' : SafetyOk (set_correction (nanos (pa_anchor p) - nanos (pa_observed_wall_clock p)) (set_state Certain (safety a)))).
  { destruct Hs. by constructor. }
  destruct (checked_add _ _ _) as [n|] eqn:Hn; apply authority_ok_safety; try done.
  apply in_u_revised; [done|]. apply checked_add_Some in Hn as [-> Hn]. pose proof (so_revision _ Hs) as Hrev.
  unfold in_u in *. cbn in *. lia.
Qed.

Lemma tick_ok c c' : tick c c' -> ClockOk c -> ClockOk c'.
Proof.
  intros [? H] [Ha Hst Hg]. destruct H; cbn [cw_authority cw_staged cw_gate] in *; constructor; cbn [cw_authority cw_staged cw_gate];
    try done; repeat rewrite ?Forall_app, ?Forall_cons in *; try naive_solver.
  - destruct (reconcile_cases r x e a) as (s & res & -> & Hr). apply authority_ok_safety; [done|].
    eapply reconciled_ok; [done|apply Ha|done..].
  - by apply install_ok.
  - by apply recover_baseline_ok.
  - destruct g as [p|]; [|done]. cbn in *. destruct (recover_baseline scope durable e a) as [a' res] eqn:Hm.
    by apply recover_baseline_cases in Hm as [[-> _]|(b & _ & [-> _] & _)].
  - by apply mint_ok.
  - destruct g as [p|]; [|done]. cbn in *. destruct (mint scope durable e a) as [a' res] eqn:Hm.
    by apply mint_cases in Hm as [[-> _]|(b & [-> _] & _)].
  - split; [apply Ha|done].
  - apply drop_staged_ok; [done|naive_solver].
  - by eapply prepare_describes.
  - by apply accept_ok.
Qed.

Lemma run_ok c c' : rtc tick c c' -> ClockOk c -> ClockOk c'.
Proof. induction 1 as [|c1 c2 c3 H _ IH]; [done|]. intros Hc. by apply IH, (tick_ok c1). Qed.

(** A process that has just established its clock. *)
Definition established (read : result LifecycleClockFailure UnixNanoseconds) (policy : LifecycleClockPolicy) (c : Clockwork) : Prop :=
  exists a, establish_with_source read policy = Ok a /\ c = mkClockwork a [] None.

Lemma established_ok read policy c : (forall w, read = Ok w -> instant_ok w) -> established read policy c -> ClockOk c.
Proof.
  intros Hr (a & Ha & ->). unfold establish_with_source in Ha. destruct read as [w|]; [|done]. cbn in Ha. injection Ha as <-.
  specialize (Hr w eq_refl). constructor; cbn; [|by constructor|done].
  constructor; cbn; [by constructor|done|intros scope b; by rewrite lookup_empty|rewrite map_size_empty; lia].
Qed.

(** C22 (type). In every state a process reaches, every number its clock holds is a value of its machine
    type, and the table of scopes holds at most as many scopes as the governor holds tenants. *)
Theorem clock_state_stays_representable read policy c c' :
  (forall w, read = Ok w -> instant_ok w) -> established read policy c -> rtc tick c c' ->
  SafetyOk (safety (cw_authority c')) /\ (size (scopes (cw_authority c')) <= MAX_TENANT_QUOTAS)%nat /\
  forall scope b, scopes (cw_authority c') !! scope = Some b -> BaselineOk b.
Proof.
  intros Hr Hc Hrun. apply run_ok in Hrun; [|by eapply established_ok]. destruct Hrun as [[] _ _]. auto.
Qed.

(** ** Accepting a discontinuity *)

Lemma accepted_safety_ok p s : Describes p s -> SafetyOk s -> SafetyOk (accepted_safety p s).
Proof. intros Hd []. apply de_correction in Hd as [_ Hco]%i64_of_Some. by constructor. Qed.

Lemma existsb_bytes_In (b : bytes) l : b ∈ l -> existsb (fun record => bytes_eqb record b) l = true.
Proof. intros Hin. apply existsb_exists. exists b. split; [by apply list_elem_of_In|]. unfold bytes_eqb. by apply bool_decide_true. Qed.

(** C37 (liveness). In every state a process reaches with an acceptance prepared, publishing the accepted record
    with an audit record and committing succeeds, unless the revision counter is exhausted: the
    clock is certain again, at the same anchor, with the correction that maps the observed wall
    clock onto it; the published record decodes to exactly this state, and is recognised as the exact
    historical acceptance. *)
Theorem prepared_acceptance_takes_effect read policy c c' p commit :
  (forall w, read = Ok w -> instant_ok w) -> established read policy c -> rtc tick c c' -> cw_gate c' = Some p ->
  has_governance_audit_record commit = true -> pa_accepted_record p ∈ commit_objects commit ->
  revision (safety (cw_authority c')) < u64_max ->
  let '(a, res) := commit_after_catalog p commit (cw_authority c') in
  res = Ok tt /\ state (safety a) = Certain /\ anchor (safety a) = pa_anchor p /\
  nanos (pa_observed_wall_clock p) + wall_clock_correction_nanoseconds (safety a) = nanos (anchor (safety a)) /\
  decode_catalog_anchor (pa_accepted_record p) = Ok (Some (durable_part (safety a))) /\
  catalog_anchor_acceptance_relation (pa_accepted_record p) (pa_anchor p) (pa_observed_wall_clock p) (pa_observed_offset_nanoseconds p)
    = Ok (Some ExactHistorical).
Proof.
  intros Hr Hc Hrun Hg Haudit Hin Hrev. apply run_ok in Hrun; [|by eapply established_ok].
  destruct Hrun as [Ha _ Hd]. rewrite Hg in Hd. cbn in Hd.
  pose proof (accepted_safety_ok p _ Hd (ao_safety _ Ha)) as Hok. pose proof (decode_encode _ Hok) as Hdec.
  destruct Hd as [Hst Hrv Han Hw Ho Hco Hrec]. unfold commit_after_catalog, catalog_anchor_acceptance_relation.
  rewrite Hrec, Hdec, <- Hrec, Haudit, (existsb_bytes_In _ _ Hin), Hrv, Z.eqb_refl. cbn [negb orb].
  rewrite bool_decide_false by (by rewrite Han; intros []). rewrite bool_decide_false by (by rewrite Hst; intros []).
  rewrite Hco. cbn [revision set_correction set_state mbind result_bind ok_or].
  rewrite checked_add_ok by lia. cbn. rewrite Han, Hw, Ho, Z.eqb_refl, !bool_decide_true by done.
  split_and!; try done. lia.
Qed.

(** ** The safe clock *)

(** A computation that never moves the safe clock back. *)
Definition Forward {A} (m : Clk A) : Prop := forall a later, safe_now (safety a) later <= safe_now (safety (m a).1) later.

Lemma forward_bind {A B} (m : Clk A) (k : A -> Clk B) : Forward m -> (forall v, Forward (k v)) -> Forward (m ≫= k).
Proof.
  intros Hm Hk a later. specialize (Hm a later). unfold mbind, Clk_bind.
  destruct (m a) as [a' [v|err]]; cbn [fst snd] in *; [|done]. specialize (Hk v a' later). lia.
Qed.

Lemma forward_quiet {A} (m : Clk A) : (forall a, safety (m a).1 = safety a) -> Forward m.
Proof. intros Hm a later. rewrite Hm. done. Qed.

Lemma forward_of {A} (r : result LifecycleClockFailure A) : Forward (clk_of r).
Proof. by apply forward_quiet. Qed.

Lemma forward_gets {A} (f : RetentionTimeAuthority -> A) : Forward (clk_gets f).
Proof. by apply forward_quiet. Qed.

Lemma forward_ret {A} (v : A) : Forward (mret v).
Proof. by apply forward_quiet. Qed.

Lemma forward_reconcile r x e : Forward (reconcile_while_acceptance_held r x e).
Proof. intros a later. destruct (reconcile_cases r x e a) as (s & res & -> & H). cbn. by eapply reconciled_safe_now. Qed.

Lemma forward_mint scope durable e : Forward (mint scope durable e).
Proof.
  apply forward_quiet. intros a. destruct (mint scope durable e a) as [a' res] eqn:H.
  by apply mint_cases in H as [[-> _]|(b & [-> _] & _)].
Qed.

Lemma forward_recover_baseline scope durable e : Forward (recover_baseline scope durable e).
Proof.
  apply forward_quiet. intros a. destruct (recover_baseline scope durable e a) as [a' res] eqn:H.
  by apply recover_baseline_cases in H as [[-> _]|(b & _ & [-> _] & _)].
Qed.

#[export] Hint Resolve forward_of forward_gets forward_ret forward_reconcile forward_mint forward_recover_baseline : clock.

Ltac forward :=
  repeat (first [ solve [auto with clock] | apply forward_bind; [|intros ?]
                | match goal with |- Forward (if ?b then _ else _) => destruct b end ]).

(** Also (invariant). No operation that dates records, renews leases, reads governance or security time or
    recovers a scope moves the safe clock back at any counter, whether it succeeds or fails and
    whatever its readings are: a stale counter, a clock that cannot be read or one that jumped. *)
Theorem safe_clock_never_goes_back c r a later : match c with CallRecoverCatalog _ => False | _ => True end ->
  safe_now (safety a) later <= safe_now (safety (run_call c r a).1) later.
Proof.
  intros Hc. assert (H : Forward (run_call c r)); [|apply H].
  destruct c as [scope d|scope d|scope [d|]|scope| | |scope d|objects]; [..|done]; cbn [run_call]; unfold ignore,
    destructive_ingest_time, lease_recovery_time, lease_time, governance_now_seconds, security_time_seconds, recover_scope,
    ingest_time, reconcile_current, reconcile; by forward.
Qed.

(** ** Destructive work *)

Lemma current_inv r e a a' res : reconcile_current r e a = (a', res) -> (exists err, advance_global (safety a) e = Err err /\ a' = a /\ res = Err err) \/
  exists v s, advance_global (safety a) e = Ok v /\ a' = set_safety s a /\ Reconciled a r v e s res.
Proof.
  unfold reconcile_current, reconcile, clk_gets, clk_of, mbind, Clk_bind.
  destruct (advance_global (safety a) e) as [v|err]; intros H; [right|left; by exists err; injection H as <- <-].
  destruct (reconcile_cases r v e a) as (s & res' & Hr & HR). exists v, s. rewrite Hr in H. by injection H as <- <-.
Qed.

(** Also (safety). A time that authorises destructive work is given only by a destructive authority with a
    certain clock, and when the authority has a wall clock then the clock was read in this very call
    and, corrected, was within the policy of the anchor. *)
Theorem destructive_time_needs_certain_clock r scope durable a a' t : destructive_ingest_time r scope durable a = (a', Ok t) ->
  destructive_retention a' = true /\ state (safety a') = Certain /\
  (has_source a = true -> exists wall, source_read r = Ok wall /\ last_wall_clock (safety a') = Some wall /\
     Z.abs (nanos wall + wall_clock_correction_nanoseconds (safety a') - nanos (anchor (safety a')))
       <= maximum_reconciliation_offset_nanoseconds (policy a)).
Proof.
  unfold destructive_ingest_time. unfold mbind at 1, Clk_bind at 1. destruct (ingest_time r scope durable a) as [a1 [t1|]] eqn:Hi; [|done].
  unfold clk_gets, mbind, Clk_bind. destruct (authorizes_destructive_retention a1) eqn:Hau; intros [= <- <-].
  unfold authorizes_destructive_retention in Hau. apply andb_true_iff in Hau as [Hd Hst%bool_decide_eq_true]. cbn in Hst.
  split; [done|]. split; [done|]. intros Hsrc.
  apply ingest_inv in Hi as (a2 & Hc & Hm & _). apply current_inv in Hc as [(? & _ & _ & ?)|(v & s & _ & -> & HR)]; [done|].
  assert (Hs : safety a1 = s). { by apply mint_cases in Hm as [[-> _]|(b & [-> _] & _)]. }
  rewrite Hs in *. inversion HR as [| |? ? ? ? Hcase|? wall ? ? ? ? ? Hw Ho Had]; subst.
  - destruct Hcase as [[? _]|[_ ?]]; [congruence|done].
  - exists wall. cbn in *. split; [done|]. split; [done|]. apply i64_of_Some in Had as [-> _].
    match goal with H : sampled _ _ _ _ = _ |- _ => rewrite <- H in Hst; cbn in Hst end.
    destruct (_ <? _) eqn:Hlt; [done|]. by apply Z.ltb_ge in Hlt.
Qed.

(** What a section must show to make an uncertain clock certain: its own reading of a wall clock that,
    corrected, is within the policy of the instant it moves the anchor to; a durable record that is
    certain; or a catalog commit that carries a governance audit record and the record of the
    acceptance that holds the gate. Every other section can show nothing. *)
Definition earns (s : section) (c : Clockwork) : Prop :=
  let a := cw_authority c in
  match s with
  | SecReconcile r durable_or_expected elapsed =>
      exists now wall, advance_global (safety a) elapsed = Ok now /\ revision (safety a) < u64_max /\
        has_source a = true /\ source_read r = Ok wall /\
        let expected := Z.max (nanos now) (nanos durable_or_expected) in
        let adjusted := nanos wall + wall_clock_correction_nanoseconds (safety a) in
        i64_ok (nanos wall - expected) /\ i64_ok adjusted /\
        Z.abs (adjusted - expected) <= maximum_reconciliation_offset_nanoseconds (policy a)
  | SecInstall record _ => state record = Certain
  | SecAccept commit => has_governance_audit_record commit = true /\
      exists p, cw_gate c = Some p /\ pa_accepted_record p ∈ commit_objects commit
  | _ => False
  end.

Lemma reconcile_earns r x e a st : state (safety a) = ClockUncertain ->
  state (safety (reconcile_while_acceptance_held r x e a).1) = Certain <-> earns (SecReconcile r x e) (mkClockwork a st None).
Proof.
  intros Hu. cbn [earns cw_authority]. split.
  - destruct (reconcile_cases r x e a) as (s & res & -> & HR). cbn [fst safety set_safety]. intros Hs.
    inversion HR as [| |? ? ? ? Hcase|now wall offset adjusted Hnow Hrev Hsrc Hw Ho Had]; subst; cbn in Hs; try congruence.
    apply i64_of_Some in Ho as [-> Ho]. apply i64_of_Some in Had as [-> Had]. exists now, wall. cbn in *.
    split_and!; try done; [lia|]. by destruct (Z.ltb_spec (maximum_reconciliation_offset_nanoseconds (policy a))
      (Z.abs (nanos wall + wall_clock_correction_nanoseconds (safety a) - Z.max (nanos now) (nanos x)))).
  - intros (now & wall & Hnow & Hrev & Hsrc & Hw & Ho & Had & Hle).
    unfold reconcile_while_acceptance_held, clk_gets, clk_of, clk_safety, clk_put, mbind, Clk_bind.
    rewrite Hnow, checked_add_ok by lia. cbn [ok_or has_source set_safety]. rewrite Hsrc, Hw. cbn [nanos instant_max].
    rewrite !i64_of_ok by done. cbn. by rewrite (proj2 (Z.ltb_ge _ _)).
Qed.

Lemma accept_earns p commit a st : Describes p (safety a) ->
  state (safety (commit_after_catalog p commit a).1) = Certain <-> earns (SecAccept commit) (mkClockwork a st (Some p)).
Proof.
  intros [Hst Hrv Han _ _ Hco _]. cbn [earns cw_gate]. unfold commit_after_catalog. split.
  - intros Hs. destruct (has_governance_audit_record commit); cbn [negb orb] in Hs; [|cbn in Hs; congruence].
    destruct (existsb _ _) eqn:Hex; cbn [negb] in Hs; [|cbn in Hs; congruence]. split; [done|]. exists p. split; [done|].
    apply existsb_exists in Hex as (b & Hin & Hb%bool_decide_eq_true). subst b. by apply list_elem_of_In.
  - intros (-> & ? & [= <-] & Hin). rewrite (existsb_bytes_In _ _ Hin), Hrv, Z.eqb_refl. cbn [negb orb].
    rewrite bool_decide_false by (by rewrite Han; intros []). rewrite bool_decide_false by (by rewrite Hst; intros []).
    rewrite Hco. by destruct (checked_add _ _ _).
Qed.

(** C13 (safety). In every state a process reaches with an uncertain clock, a section makes the clock certain
    exactly when it can show that it is: a reconciliation when the wall clock it read itself, with
    the correction in force, is within the policy of the instant it moves the anchor to; the recovery of
    a durable record when that record is certain; the commit of the prepared acceptance when the
    catalog commit it was shown carries a governance audit record and the accepted record itself.
    Minting and recovering scopes, staging, marking, publishing and dropping candidates, preparing an
    acceptance and giving it up never do. *)
Theorem certainty_is_earned read policy c0 c s c' :
  (forall w, read = Ok w -> instant_ok w) -> established read policy c0 -> rtc tick c0 c -> section_step s c c' ->
  state (safety (cw_authority c)) = ClockUncertain ->
  state (safety (cw_authority c')) = Certain <-> earns s c.
Proof.
  intros Hr Hc Hrun H Hu. apply run_ok in Hrun; [|by eapply established_ok]. destruct Hrun as [_ _ Hg].
  destruct H; cbn [cw_authority cw_gate] in *;
    try (cbn [earns]; split; [intros Hcert; rewrite Hu in Hcert; discriminate|done]).
  - by apply reconcile_earns.
  - by destruct (install_cases record e a) as (v & -> & _).
  - cbn [earns]. destruct (recover_baseline scope durable e a) as [a' res] eqn:Hm.
    apply recover_baseline_cases in Hm as [[-> _]|(b & _ & [-> _] & _)]; cbn; rewrite Hu; done.
  - cbn [earns]. destruct (mint scope durable e a) as [a' res] eqn:Hm.
    apply mint_cases in Hm as [[-> _]|(b & [-> _] & _)]; cbn; rewrite Hu; done.
  - change (drop_staged (commit_staged t) a) with a. cbn [earns]. by rewrite Hu.
  - cbn [earns]. unfold drop_staged, abandon_catalog_anchor. destruct (committed t); [by rewrite Hu|].
    destruct (candidate_revision t); [|by rewrite Hu]. destruct (_ =? _); [|done]. by rewrite bool_decide_true.
  - by apply accept_earns.
Qed.

(** ** Staged candidates *)

(** A computation after which the safety is unchanged or has the next revision. *)
Definition Revises {A} (m : Clk A) : Prop := forall a, revision (safety a) < u64_max ->
  safety (m a).1 = safety a \/ revision (safety (m a).1) = revision (safety a) + 1.

Lemma revises_ingest r scope durable : Revises (ingest_time r scope durable).
Proof.
  intros a Hrev. unfold ingest_time, clk_of, mbind, Clk_bind. destruct (elapsed_nanoseconds r) as [e|]; [|by left].
  destruct (reconcile_current r e a) as [a1 res] eqn:Hc.
  assert (H1 : safety a1 = safety a \/ revision (safety a1) = revision (safety a) + 1).
  { apply current_inv in Hc as [(? & _ & -> & _)|(v & s & _ & -> & HR)]; [by left|].
    inversion HR; subst; cbn; auto; lia. }
  destruct res; [|done]. destruct (mint scope durable e a1) as [a2 res] eqn:Hm.
  apply mint_cases in Hm as [[-> _]|(b & [-> _] & _)]; done.
Qed.

Lemma revises_destructive r scope durable : Revises (destructive_ingest_time r scope durable).
Proof.
  intros a Hrev. pose proof (revises_ingest r scope durable a Hrev) as H. unfold destructive_ingest_time, mbind, Clk_bind.
  destruct (ingest_time r scope durable a) as [a1 [t|]]; [|done]. unfold clk_gets. by destruct (authorizes_destructive_retention a1).
Qed.

Lemma revises_undone {A} (m : Clk A) a : Revises m -> revision (safety a) < u64_max ->
  let '(t, a', _) := observe_candidate m (stage_catalog_anchor a) a in
  safety (drop_staged t a') = safety a \/
  state (safety a') = ClockUncertain /\ safety (drop_staged t a') = set_state ClockUncertain (safety a).
Proof.
  intros Hm Hrev. specialize (Hm a Hrev). unfold observe_candidate. destruct (m a) as [a' res]. cbn [fst] in Hm.
  unfold drop_staged, abandon_catalog_anchor. cbn. destruct (Z.eqb_spec (revision (safety a')) (revision (safety a))) as [He|Hne].
  - left. destruct Hm as [->|Hm]; [done|]. lia.
  - rewrite Z.eqb_refl. case_bool_decide; [right|left]; done.
Qed.

(** Also (functional). A candidate that dated a record, or failed to, and is dropped without having been
    published leaves the clock as it was when the candidate was staged, except that an
    uncertainty it sampled stays. *)
Theorem abandoned_candidate_is_undone r scope durable a (destructive : bool) : revision (safety a) < u64_max ->
  let '(t, a', _) := (if destructive then staged_destructive_ingest_time r scope durable (stage_catalog_anchor a) a
                      else staged_ingest_time r scope durable (stage_catalog_anchor a) a) in
  safety (drop_staged t a') = safety a \/
  state (safety a') = ClockUncertain /\ safety (drop_staged t a') = set_state ClockUncertain (safety a).
Proof.
  intros Hrev. destruct destructive; apply revises_undone; [apply revises_destructive|done|apply revises_ingest|done].
Qed.

(** ** Restart *)

Lemma find_anchor_skips objects found : Forall (fun b => decode_catalog_anchor b = Ok None) objects ->
  try_fold find_anchor_step found objects = Ok found.
Proof. induction 1 as [|b objects Hb _ IH]; [done|]. cbn [try_fold]. unfold find_anchor_step at 1. by rewrite Hb. Qed.

Lemma find_anchor_only before b after record : Forall (fun b => decode_catalog_anchor b = Ok None) (before ++ after) ->
  decode_catalog_anchor b = Ok (Some record) -> find_catalog_anchor (before ++ b :: after) = Ok (Some record).
Proof.
  intros [Hb Ha]%Forall_app Hd. unfold find_catalog_anchor. rewrite try_fold_app, find_anchor_skips by done.
  cbn [try_fold]. unfold find_anchor_step at 1. rewrite Hd. cbn. by apply find_anchor_skips.
Qed.

Lemma reconcile_at_anchor r e a : anchor_elapsed (safety a) = e -> instant_ok (anchor (safety a)) ->
  let s := safety (reconcile_while_acceptance_held r (anchor (safety a)) e a).1 in
  anchor s = anchor (safety a) /\ anchor_elapsed s = e /\
  wall_clock_correction_nanoseconds s = wall_clock_correction_nanoseconds (safety a).
Proof.
  intros He Hok. destruct (reconcile_cases r (anchor (safety a)) e a) as (s & res & -> & HR). cbn.
  assert (Hv : forall v, advance_global (safety a) e = Ok v -> instant_max v (anchor (safety a)) = anchor (safety a)).
  { intros v (Hv & _)%advance_global_Ok. unfold safe_now in Hv. destruct v as [v], (anchor (safety a)) as [w]. unfold instant_max.
    cbn in *. f_equal. lia. }
  inversion HR; subst; cbn; rewrite ?Hv by done; auto.
Qed.

(** C14 (refinement). The anchor published with a dated record survives a restart: recovering it from a
    catalog in which it is the only anchor sets the new process's clock to the later of the published
    clock and the record's time at the new process's counter, with the published correction,
    whether or not the wall clock can then be read. *)
Theorem restart_keeps_safe_time a t before after r b b' res :
  SafetyOk (safety a) -> instant_ok (instant t) -> Forall (fun o => decode_catalog_anchor o = Ok None) (before ++ after) ->
  elapsed_nanos r <= u64_max ->
  recover_catalog_anchor r (before ++ catalog_anchor_record t a :: after) b = (b', res) ->
  nanos (anchor (safety b')) = Z.max (nanos (anchor (safety a))) (nanos (instant t)) /\
  anchor_elapsed (safety b') = elapsed_nanos r /\
  wall_clock_correction_nanoseconds (safety b') = wall_clock_correction_nanoseconds (safety a).
Proof.
  intros Hs Ht Hothers He. set (published := set_anchor (instant_max (anchor (safety a)) (instant t)) (safety a)).
  assert (Hp : SafetyOk published). { destruct Hs. constructor; cbn; try done. by apply instant_max_ok. }
  unfold recover_catalog_anchor, elapsed_nanoseconds. unfold mbind at 1, Clk_bind at 1, clk_of at 1.
  unfold catalog_anchor_record. fold published. rewrite (find_anchor_only _ _ _ _ Hothers (decode_encode published Hp)).
  unfold mbind at 1, Clk_bind at 1, clk_of at 1. rewrite (proj2 (Z.leb_le _ _) He).
  unfold mbind, Clk_bind. destruct (install_cases (durable_part published) (elapsed_nanos r) b) as (v & -> & _).
  destruct (_ <=? u64_max); [|by intros [= <- <-]]. set (b1 := set_safety _ b). intros H.
  pose proof (reconcile_at_anchor r (elapsed_nanos r) b1 eq_refl (so_anchor _ Hp)) as (Ha & Hel & Hco).
  change (anchor (durable_part published)) with (anchor (safety b1)) in H. rewrite H in Ha, Hel, Hco. cbn [fst] in *.
  by rewrite Ha, Hel, Hco.
Qed.

(** ** The codec *)

(** Also (roundtrip). The durable part of every clock state survives the anchor record, and the record is always
    44 bytes. *)
Theorem catalog_anchor_roundtrip s : SafetyOk s ->
  decode_catalog_anchor (encode_catalog_anchor s) = Ok (Some (durable_part s)) /\
  length (encode_catalog_anchor s) = CLOCK_ANCHOR_BYTES.
Proof. intros Hs. split; [by apply decode_encode|apply length_encode]. Qed.

(** ** Runs that depart from the comments *)

Definition nano (z : Z) : UnixNanoseconds := mkUnixNanoseconds z.
Definition scope_of (n : Z) : SegmentScope := mkSegmentScope (mkTenantId (repeat n 16)) Logs (mkVirtualShardId 1).

(** Also (error). The comment on a candidate says that dropping it never rolls a concurrent observation back. It
    compares only its last revision: a candidate staged before another thread recovered a durable
    frontier and observing after it restores its own checkpoint when dropped, and the safe clock
    goes back below the frontier that was recovered. *)
Theorem abandoned_candidate_erases_recovered_frontier :
  let a := with_parts (nano 1000) true false LifecycleClockPolicy_default in
  let t := stage_catalog_anchor a in
  let '(a1, recovered) := recover_scope (mkReading 10 (Err ClockUnavailable)) (scope_of 7) (from_authenticated_durable (nano 500000)) a in
  let '(t', a2, dated) := staged_ingest_time (mkReading 20 (Err ClockUnavailable)) (scope_of 8) None t a1 in
  let a3 := drop_staged t' a2 in
  recovered = Ok tt /\ is_ok dated = true /\ nanos (anchor (safety a2)) = 500010 /\
  safe_now (safety a3) 20 = 1020 /\ state (safety a3) = Certain.
Proof. vm_compute. auto 10. Qed.

(** Also (error). For the same reason a dropped candidate undoes an acceptance that was committed and published
    after the candidate was staged: the clock is uncertain again, with the correction lost. *)
Theorem abandoned_candidate_erases_acceptance :
  let jumped := mkReading 10 (Ok (nano 400000001010)) in
  let a0 := with_parts (nano 1000) true true LifecycleClockPolicy_default in
  let a := (ingest_time jumped (scope_of 7) None a0).1 in
  let t := stage_catalog_anchor a in
  exists p, prepare_discontinuity_acceptance (anchor (safety a)) a = Ok p /\
  let '(a1, accepted) := commit_after_catalog p (mkCatalogCommit true [pa_accepted_record p]) a in
  let '(t', a2, dated) := staged_ingest_time jumped (scope_of 8) None t a1 in
  let a3 := drop_staged t' a2 in
  accepted = Ok tt /\ is_ok dated = true /\ state (safety a2) = Certain /\
  wall_clock_correction_nanoseconds (safety a2) = -400000000000 /\
  state (safety a3) = ClockUncertain /\ wall_clock_correction_nanoseconds (safety a3) = 0.
Proof. eexists. split; [vm_compute; reflexivity|]. vm_compute. auto 10. Qed.

(** Also (error). The counter is read before the locks are taken. A thread whose reading is overtaken by another
    thread's reconciliation is refused with [OutOfRange], and changes nothing. *)
Theorem overtaken_reading_is_refused r scope durable a : elapsed_nanos r < anchor_elapsed (safety a) -> in_u u64_max (elapsed_nanos r) ->
  ingest_time r scope durable a = (a, Err ClockOutOfRange).
Proof.
  intros Hlt [_ He]. unfold ingest_time, elapsed_nanoseconds, reconcile_current, clk_gets, clk_of, mbind, Clk_bind.
  rewrite (proj2 (Z.leb_le _ _) He). unfold advance_global. by rewrite (proj2 (checked_sub_None _ _) Hlt).
Qed.

(** Also (error). A record whose presence byte is zero is accepted with any value after it, so two different
    objects are the same anchor, although the validation speaks of exactly encoded records. *)
Theorem absent_fields_are_not_canonical :
  let record := encode_catalog_anchor (mkLifecycleClockSafety (nano 5) 0 Certain None None 0 0) in
  let other := <[20%nat := 9]> record in
  other <> record /\ decode_catalog_anchor other = decode_catalog_anchor record /\ validate_catalog_anchor_record other = Ok true.
Proof. cbv zeta. split; [vm_compute; discriminate|]. split; vm_compute; reflexivity. Qed.

(** ** Witnesses *)

Definition wall_at (e w : Z) : Reading := mkReading e (Ok (nano w)).
Definition born : RetentionTimeAuthority := with_parts (nano 1000) true true LifecycleClockPolicy_default.
(** A wall clock that jumped by 400 seconds, ten nanoseconds after the start. *)
Definition jump : Reading := wall_at 10 400000001010.
Definition dated : RetentionTimeAuthority * result LifecycleClockFailure IngestTime := ingest_time (wall_at 5 1005) (scope_of 7) None born.
Definition doubted : RetentionTimeAuthority := (ingest_time jump (scope_of 7) None born).1.

Lemma reading_ok e w : 0 <= e -> i64_ok w -> ReadingOk (wall_at e w).
Proof. intros He Hw. split; [done|]. intros ? [= <-]. done. Qed.

Lemma born_established : established (Ok (nano 1000)) LifecycleClockPolicy_default (mkClockwork born [] None).
Proof. by eexists. Qed.

Lemma nano_ok w z : Ok (E:=LifecycleClockFailure) (nano z) = Ok w -> i64_ok z -> instant_ok w.
Proof. by intros [= <-]. Qed.

(** A run in which another thread sees the jump, stages a candidate and drops it. *)
Lemma dated_run st : rtc tick (mkClockwork dated.1 st None)
  (mkClockwork (run_call (CallLeaseTime (scope_of 8)) jump dated.1).1 st None).
Proof. apply (call_is_sections (CallLeaseTime (scope_of 8))); [|done]. apply reading_ok; [done|]. by unfold i64_ok, i64_min, i64_max. Qed.

Definition later : RetentionTimeAuthority * result LifecycleClockFailure IngestTime :=
  ingest_time (wall_at 30 1030) (scope_of 7) None (run_call (CallLeaseTime (scope_of 8)) jump dated.1).1.

Lemma ingest_times_never_decrease_witness :
  dated.2 = Ok (from_authenticated_durable (nano 1005)) /\ later.2 = Ok (from_authenticated_durable (nano 1030)) /\ 1005 <= 1030.
Proof.
  split; [vm_compute; reflexivity|]. split; [vm_compute; reflexivity|].
  apply (ingest_times_never_decrease (wall_at 5 1005) (wall_at 30 1030) (scope_of 7) None None born dated.1
    (from_authenticated_durable (nano 1005)) [] None
    (mkClockwork (run_call (CallLeaseTime (scope_of 8)) jump dated.1).1 [] None) later.1 (from_authenticated_durable (nano 1030)));
    [vm_compute; reflexivity|apply dated_run|vm_compute; reflexivity|vm_compute; discriminate].
Defined.

Lemma recovered_frontier_is_respected_witness :
  let recovered := recover_scope (wall_at 5 1005) (scope_of 7) (from_authenticated_durable (nano 2000)) born in
  let next := ingest_time (wall_at 30 1030) (scope_of 7) None recovered.1 in
  next.2 = Ok (from_authenticated_durable (nano 2030)) /\ 2000 <= 2030.
Proof.
  intros recovered next. split; [vm_compute; reflexivity|].
  apply (recovered_frontier_is_respected (wall_at 5 1005) (wall_at 30 1030) (scope_of 7) (from_authenticated_durable (nano 2000)) None
    born recovered.1 [] None (mkClockwork recovered.1 [] None) next.1 (from_authenticated_durable (nano 2030)));
    [done|vm_compute; reflexivity|apply rtc_refl|vm_compute; reflexivity|vm_compute; discriminate].
Defined.

Lemma doubted_run : rtc tick (mkClockwork born [] None) (mkClockwork doubted [] None).
Proof.
  apply (call_is_sections (CallIngestTime (scope_of 7) None) jump); [|done]. apply reading_ok; [done|].
  by unfold i64_ok, i64_min, i64_max.
Qed.

Lemma clock_state_stays_representable_witness :
  state (safety doubted) = ClockUncertain /\ SafetyOk (safety doubted).
Proof.
  split; [vm_compute; reflexivity|].
  apply (clock_state_stays_representable (Ok (nano 1000)) LifecycleClockPolicy_default _ _
    (fun w H => nano_ok w 1000 H ltac:(by unfold i64_ok, i64_min, i64_max)) born_established doubted_run).
Defined.

(** The acceptance of the jump. *)
Definition offered : PreparedLifecycleClockAcceptance :=
  mkPrepared 1 (nano 1010) (nano 400000001010) 400000000000
    (encode_catalog_anchor (mkLifecycleClockSafety (nano 1010) 10 Certain (Some (nano 400000001010)) (Some 400000000000) (-400000000000) 1)).

Lemma offered_run : rtc tick (mkClockwork born [] None) (mkClockwork doubted [] (Some offered)).
Proof. etrans; [apply doubted_run|]. apply rtc_once. eexists. apply (tick_prepare (nano 1010)). vm_compute. reflexivity. Qed.

Lemma prepared_acceptance_takes_effect_witness :
  (commit_after_catalog offered (mkCatalogCommit true [pa_accepted_record offered]) doubted).2 = Ok tt.
Proof.
  pose proof (prepared_acceptance_takes_effect (Ok (nano 1000)) LifecycleClockPolicy_default _ _ offered
    (mkCatalogCommit true [pa_accepted_record offered])
    (fun w H => nano_ok w 1000 H ltac:(by unfold i64_ok, i64_min, i64_max)) born_established offered_run
    eq_refl eq_refl ltac:(apply list_elem_of_here) ltac:(vm_compute; reflexivity)) as H.
  cbn [cw_authority] in H. destruct (commit_after_catalog _ _ _) as [a res]. apply H.
Defined.

Lemma safe_clock_never_goes_back_witness :
  safe_now (safety born) 10 <= safe_now (safety (run_call CallSecurityTime jump born).1) 10.
Proof. apply (safe_clock_never_goes_back CallSecurityTime jump born 10). exact I. Defined.

Lemma destructive_time_needs_certain_clock_witness :
  let r := destructive_ingest_time (wall_at 5 1005) (scope_of 7) None born in
  r.2 = Ok (from_authenticated_durable (nano 1005)) /\ state (safety r.1) = Certain.
Proof.
  intros r. split; [vm_compute; reflexivity|].
  apply (destructive_time_needs_certain_clock (wall_at 5 1005) (scope_of 7) None born r.1 (from_authenticated_durable (nano 1005))).
  vm_compute. reflexivity.
Defined.

(** The accepted discontinuity as a section, published with an audit record and without. *)
Definition accepting (audited : bool) : section := SecAccept (mkCatalogCommit audited [[1; 2]; pa_accepted_record offered]).
Definition accepted (audited : bool) : Clockwork :=
  mkClockwork (commit_after_catalog offered (mkCatalogCommit audited [[1; 2]; pa_accepted_record offered]) doubted).1 [] None.

Lemma certainty_is_earned_witness :
  (state (safety (cw_authority (accepted true))) = Certain /\ earns (accepting true) (mkClockwork doubted [] (Some offered))) /\
  (state (safety (cw_authority (accepted false))) = ClockUncertain /\ ~ earns (accepting false) (mkClockwork doubted [] (Some offered))).
Proof.
  pose proof (fun audited => certainty_is_earned (Ok (nano 1000)) LifecycleClockPolicy_default _ _ (accepting audited) (accepted audited)
    (fun w H => nano_ok w 1000 H ltac:(by unfold i64_ok, i64_min, i64_max)) born_established offered_run
    (tick_accept offered _ doubted []) ltac:(vm_compute; reflexivity)) as H.
  split; (split; [vm_compute; reflexivity|]).
  - apply H. vm_compute. reflexivity.
  - intros He. apply (H false) in He. vm_compute in He. discriminate.
Defined.

Lemma abandoned_candidate_is_undone_witness :
  let '(t, a', _) := staged_ingest_time jump (scope_of 7) None (stage_catalog_anchor born) born in
  safety (drop_staged t a') = safety born \/
  state (safety a') = ClockUncertain /\ safety (drop_staged t a') = set_state ClockUncertain (safety born).
Proof. apply (abandoned_candidate_is_undone jump (scope_of 7) None born false). vm_compute. reflexivity. Defined.

Lemma born_ok : SafetyOk (safety born).
Proof. by constructor. Qed.

Lemma restart_keeps_safe_time_witness :
  let record := catalog_anchor_record (from_authenticated_durable (nano 9000)) born in
  let b := (recover_catalog_anchor (wall_at 3 5000) [[1; 2]; record] born).1 in
  nanos (anchor (safety b)) = Z.max 1000 9000.
Proof.
  intros record b.
  apply (restart_keeps_safe_time born (from_authenticated_durable (nano 9000)) [[1; 2]] [] (wall_at 3 5000) born b
    (recover_catalog_anchor (wall_at 3 5000) [[1; 2]; record] born).2);
    [apply born_ok|by unfold instant_ok, i64_ok, i64_min, i64_max|repeat constructor|vm_compute; discriminate|vm_compute; reflexivity].
Defined.

Lemma catalog_anchor_roundtrip_witness :
  decode_catalog_anchor (encode_catalog_anchor (safety born)) = Ok (Some (durable_part (safety born))).
Proof. apply (catalog_anchor_roundtrip (safety born)). apply born_ok. Defined.

Lemma overtaken_reading_is_refused_witness :
  ingest_time (wall_at 5 1005) (scope_of 7) None doubted = (doubted, Err ClockOutOfRange).
Proof. apply (overtaken_reading_is_refused (wall_at 5 1005)); [vm_compute; reflexivity|by unfold in_u]. Defined.
