(* ===== verification/LogStore.v ===== *)
(** Log store: records, their semantic limits and the failures of the store.

    Models [positron-signals/src/log_store/types.rs], [types/validation.rs], [types/evaluated.rs],
    [types/retained.rs] and [failure.rs], and the view that a committed block gives of its ingest
    time ([positron-kernel/src/active_segment_ledger/types.rs]). *)

From S2P Require Import Prelude Outcome Limits SourceTime Values Observe Traversal Validation Shape Occurrences PolicyModel PolicyEvaluation RetentionTime.

(** ** Failures *)

(** [positron-kernel/src/active_segment_ledger/types/failure.rs:7-26 LedgerFailureCode] *)
Inductive LedgerFailureCode :=
| LedgerInvalidInput | LedgerPhysicalScopeMismatch | LedgerLimitExceeded | LedgerResourceAdmissionRefused
| LedgerStorageUnavailable | LedgerIntegrityCorruption | LedgerAuthenticationFailed | LedgerConcurrentWriter
| LedgerUnsupportedFormat | LedgerStorageExhausted | LedgerIdempotencyConflict | LedgerStaleGeneration
| LedgerRecoveryRequired | LedgerCancelled | LedgerSnapshotExpired | LedgerStaleResumeMarker | LedgerClockUncertain.

(** [positron-kernel/src/active_segment_ledger/types/failure.rs:29-34 LedgerCompletionState] *)
Inductive LedgerCompletionState := RejectedBeforeMutation | CompletionRecoveryRequired | CommitAmbiguous.

(** [positron-kernel/src/active_segment_ledger/types/failure.rs:37-41 LedgerFailure] *)
Record LedgerFailure := mkLedgerFailure { ledger_code : LedgerFailureCode; ledger_completion : LedgerCompletionState }.

(** [positron-kernel/src/active_segment_ledger/types/failure.rs:44-49 LedgerFailure::new] *)
Definition LedgerFailure_new (code : LedgerFailureCode) : LedgerFailure := mkLedgerFailure code RejectedBeforeMutation.

(** [positron-signals/src/log_store/failure.rs:8-32 LogStoreFailureCode] *)
Inductive LogStoreFailureCode :=
| LogInvalidInput | LogLimitExceeded | LogMalformedBlock | LogPhysicalScopeMismatch | LogStorageUnavailable
| LogIntegrityCorruption | LogAuthenticationFailed | LogConcurrentWriter | LogUnsupportedFormat | LogStorageExhausted
| LogIdempotencyConflict | LogStaleGeneration | LogRecoveryRequired | LogSnapshotExpired | LogStaleResumeMarker
| LogResourceExhausted | LogClockUnavailable | LogClockUncertain | LogResourceAdmissionRefused | LogCancelled
| LogBudgetExhausted | LogInternal.

#[global] Instance LogStoreFailureCode_eq_dec : EqDecision LogStoreFailureCode.
Proof. solve_decision. Defined.

(** [positron-signals/src/log_store/failure.rs:35-39 LogStoreFailure] *)
Record LogStoreFailure := mkLogStoreFailure { log_code : LogStoreFailureCode; log_completion : LedgerCompletionState }.

(** [positron-signals/src/log_store/failure.rs:42-47 LogStoreFailure::rejected] *)
Definition rejected (code : LogStoreFailureCode) : LogStoreFailure := mkLogStoreFailure code RejectedBeforeMutation.

(** [positron-signals/src/log_store/failure.rs:51-77 LogStoreFailure!] The constructors of the
    failures of the codec. *)
Definition invalid_input : LogStoreFailure := rejected LogInvalidInput.
Definition limit_exceeded : LogStoreFailure := rejected LogLimitExceeded.
Definition malformed_block : LogStoreFailure := rejected LogMalformedBlock.
Definition physical_scope_mismatch : LogStoreFailure := rejected LogPhysicalScopeMismatch.
Definition resource_exhausted : LogStoreFailure := rejected LogResourceExhausted.
Definition cancelled : LogStoreFailure := rejected LogCancelled.

(** [positron-signals/src/log_store/scan.rs:15-22 ScanObservationFailureCode] *)
Inductive ScanObservationFailureCode :=
| ObsBudgetExhausted | ObsDecodedRecordsExhausted | ObsCancelled | ObsResourceExhausted | ObsInternal.

(** [positron-signals/src/log_store/failure.rs:86-101 LogStoreFailure::observation] *)
Definition observation (code : ScanObservationFailureCode) : LogStoreFailure :=
  rejected (match code with
    | ObsBudgetExhausted => LogBudgetExhausted
    | ObsDecodedRecordsExhausted => LogLimitExceeded
    | ObsCancelled => LogCancelled
    | ObsResourceExhausted => LogResourceExhausted
    | ObsInternal => LogInternal
    end).

(** [positron-signals/src/log_store/failure.rs:149-161 classify_domain_failure_code] *)
Definition classify_domain_failure_code (code : DomainFailureCode) : LogStoreFailureCode :=
  match code with
  | AllocationUnavailable => LogResourceExhausted
  | ValueLimitExceeded => LogLimitExceeded
  | _ => LogInvalidInput
  end.

(** [positron-signals/src/log_store/failure.rs:103-105 LogStoreFailure::domain] *)
Definition log_domain (f : DomainFailure) : LogStoreFailure := rejected (classify_domain_failure_code (code f)).

(** [positron-signals/src/log_store/failure.rs:126-146 LogStoreFailureCode::from] *)
Definition log_code_of_ledger (code : LedgerFailureCode) : LogStoreFailureCode :=
  match code with
  | LedgerInvalidInput => LogInvalidInput
  | LedgerPhysicalScopeMismatch => LogPhysicalScopeMismatch
  | LedgerLimitExceeded => LogLimitExceeded
  | LedgerResourceAdmissionRefused => LogResourceAdmissionRefused
  | LedgerStorageUnavailable => LogStorageUnavailable
  | LedgerIntegrityCorruption => LogIntegrityCorruption
  | LedgerAuthenticationFailed => LogAuthenticationFailed
  | LedgerConcurrentWriter => LogConcurrentWriter
  | LedgerUnsupportedFormat => LogUnsupportedFormat
  | LedgerStorageExhausted => LogStorageExhausted
  | LedgerIdempotencyConflict => LogIdempotencyConflict
  | LedgerStaleGeneration => LogStaleGeneration
  | LedgerRecoveryRequired => LogRecoveryRequired
  | LedgerCancelled => LogCancelled
  | LedgerSnapshotExpired => LogSnapshotExpired
  | LedgerStaleResumeMarker => LogStaleResumeMarker
  | LedgerClockUncertain => LogClockUncertain
  end.

(** [positron-signals/src/log_store/failure.rs:107-112 LogStoreFailure::kernel] *)
Definition kernel (f : LedgerFailure) : LogStoreFailure :=
  mkLogStoreFailure (log_code_of_ledger (ledger_code f)) (ledger_completion f).

(** ** Committed blocks *)

(** [positron-kernel/src/active_segment_ledger/types.rs:349-354 SegmentRetention] *)
Inductive SegmentRetention := RetentionEmpty | RetentionUnavailable | RetentionComplete (t : IngestTime).

(** [positron-kernel/src/active_segment_ledger/types.rs:357-362 SegmentRetention::for_block] *)
Definition for_block (t : option IngestTime) : SegmentRetention :=
  match t with Some t => RetentionComplete t | None => RetentionUnavailable end.

(** [positron-kernel/src/active_segment_ledger/types.rs:364-374 SegmentRetention::append_block] *)
Definition append_block (self block : SegmentRetention) : SegmentRetention :=
  match self, block with
  | RetentionEmpty, RetentionComplete t => RetentionComplete t
  | RetentionComplete previous, RetentionComplete t =>
      RetentionComplete (if nanos (instant t) <? nanos (instant previous) then previous else t)
  | _, _ => RetentionUnavailable
  end.

(** The payload and the retention evidence of a committed block. *)
Record CommittedBlock := mkCommittedBlock { payload : bytes; block_retention : SegmentRetention }.

(** [positron-kernel/src/active_segment_ledger/types.rs:400-413 CommittedBlock::authenticate_ingest_time] *)
Definition authenticate_ingest_time (block : CommittedBlock) (encoded : UnixNanoseconds) : result LedgerFailure IngestTime :=
  match block_retention block with
  | RetentionComplete expected =>
      if bool_decide (instant expected = encoded) then Ok expected
      else Err (LedgerFailure_new LedgerIntegrityCorruption)
  | RetentionEmpty | RetentionUnavailable => Err (LedgerFailure_new LedgerUnsupportedFormat)
  end.

(** [positron-kernel/src/active_segment_ledger/types.rs:417-431 CommittedBlock::observe_ingest_time] *)
Definition observe_ingest_time (block : CommittedBlock) (encoded : UnixNanoseconds) : result LedgerFailure IngestTime :=
  match block_retention block with
  | RetentionComplete expected =>
      if bool_decide (instant expected = encoded) then Ok expected
      else Err (LedgerFailure_new LedgerIntegrityCorruption)
  | RetentionUnavailable => Ok (from_unretained_observation encoded)
  | RetentionEmpty => Err (LedgerFailure_new LedgerUnsupportedFormat)
  end.

(** ** Records *)

(** [positron-signals/src/log_store/types.rs:19-25 AttributeRepresentation] *)
Inductive AttributeRepresentation := Generic | SchemaOverflow.

(** [positron-signals/src/log_store/types.rs:28-32 StoredLogAttribute] *)
Record StoredLogAttribute := mkStoredLogAttribute {
  representation : AttributeRepresentation;
  stored_occurrences : AttributeOccurrenceSet;
}.

(** [positron-signals/src/log_store/types.rs:75-83 LogRecord] *)
Record LogRecord := mkLogRecord {
  event_time : EventTime;
  observed_time : option ObservedTime;
  body : option ValidatedAttributeValue;
  record_attributes : list StoredLogAttribute;
  metadata : LogMetadata;
  policy_provenance : PolicyProvenance;
}.

(** [positron-signals/src/log_store/types.rs:317-321 StoredLogRecord] *)
Record StoredLogRecord := mkStoredLogRecord { log_record_of : LogRecord; ingest_time_of : IngestTime }.

(** [positron-signals/src/log_store/types.rs:388-390 value_profile] *)
Definition value_profile : ValueLimitProfile := release_1_system_maximum.

(** ** The semantic limits of one record *)

(** [positron-signals/src/log_store/types/validation.rs:6-11 NativeRecordValidator] The four
    counters are those of the stream, resource, scope and record namespaces. *)
Record NativeRecordValidator := mkNativeRecordValidator {
  maximum_occurrences : Z;
  decoded_limit : Z;
  decoded_bytes : Z;
  occurrences_by_namespace : list Z;
}.

(** [positron-signals/src/log_store/types/validation.rs:14-26 NativeRecordValidator::new] A [u32] fits
    a [usize]. *)
Definition NativeRecordValidator_new (profile : ValueLimitProfile) : NativeRecordValidator :=
  let limits := effective_limits profile in
  mkNativeRecordValidator (collection_limit (attributes_per_namespace (dynamic_value limits)))
    (byte_limit (decoded_record_bytes (record limits))) 0 [0; 0; 0; 0].

(** [positron-signals/src/log_store/types/validation.rs:67-74 NativeRecordValidator::add_decoded] *)
Definition add_decoded (n : Z) (v : NativeRecordValidator) : result LogStoreFailure NativeRecordValidator :=
  match checked_add usize_max (decoded_bytes v) n with
  | Some decoded =>
      if decoded <=? decoded_limit v
      then Ok (mkNativeRecordValidator (maximum_occurrences v) (decoded_limit v) decoded (occurrences_by_namespace v))
      else Err limit_exceeded
  | None => Err limit_exceeded
  end.

(** The counter of a namespace. *)
Definition namespace_index (n : AttributeNamespace) : nat :=
  match n with NsStream => 0 | NsResource => 1 | NsInstrumentationScope => 2 | NsRecord => 3 end%nat.

(** [positron-signals/src/log_store/types/validation.rs:42-65 NativeRecordValidator::observe_attribute] *)
Definition observe_attribute (n : AttributeNamespace) (key_bytes occurrence_count occurrence_bytes : Z)
  (v : NativeRecordValidator) : result LogStoreFailure NativeRecordValidator :=
  count ← ok_or invalid_input (occurrences_by_namespace v !! namespace_index n);
  count ← ok_or limit_exceeded (checked_add usize_max count occurrence_count);
  if maximum_occurrences v <? count then Err limit_exceeded else
  let v := mkNativeRecordValidator (maximum_occurrences v) (decoded_limit v) (decoded_bytes v)
             (<[namespace_index n := count]> (occurrences_by_namespace v)) in
  v ← add_decoded key_bytes v;
  add_decoded occurrence_bytes v.

(** [positron-signals/src/log_store/types/validation.rs:28-33 NativeRecordValidator::observe_body] *)
Definition observe_body (n : Z) (v : NativeRecordValidator) := add_decoded n v.

(** [positron-signals/src/log_store/types/validation.rs:35-40 NativeRecordValidator::observe_metadata] *)
Definition observe_metadata (n : Z) (v : NativeRecordValidator) := add_decoded n v.

(** The decoded bytes of the occurrences of one attribute. *)
Definition occurrence_bytes (vs : list ValidatedAttributeValue) : result LogStoreFailure Z :=
  try_fold (fun total v =>
    size ← map_err log_domain (decoded_size_bytes v);
    ok_or limit_exceeded (checked_add usize_max total size)) 0 vs.

(** One attribute in the loop of [checked_native]. *)
Definition check_attribute (v : NativeRecordValidator) (a : StoredLogAttribute) : result LogStoreFailure NativeRecordValidator :=
  let set := stored_occurrences a in
  n ← occurrence_bytes (occurrences set);
  observe_attribute (namespace set) (rs_len (key set)) (set_len set) n v.

(** [positron-signals/src/log_store/types.rs:220-270 LogRecord::checked_native] *)
Definition checked_native (profile : ValueLimitProfile) (e : EventTime) (o : option ObservedTime)
  (b : option ValidatedAttributeValue) (attributes : list StoredLogAttribute) (m : LogMetadata) (p : PolicyProvenance)
  : result LogStoreFailure LogRecord :=
  n ← match b with Some b => map_err log_domain (decoded_size_bytes b) | None => Ok 0 end;
  v ← observe_body n (NativeRecordValidator_new profile);
  v ← try_fold check_attribute v attributes;
  n ← ok_or limit_exceeded (metadata_decoded_size_bytes m);
  _ ← observe_metadata n v;
  Ok (mkLogRecord e o b attributes m p).

(** [positron-signals/src/log_store/types.rs:307-314 checked_event_time] *)
Definition checked_event_time (value : option Z) : result LogStoreFailure EventTime :=
  map_err (fun _ => invalid_input)
    match value with
    | Some value => EventTime_received (mkUnixNanoseconds value) (if value =? 0 then Zero else Usable)
    | None => Ok EventTime_missing
    end.

Section construction.
Context {S : Type} {Alloc : Allocator S} {Lay : Layout}.

Fixpoint check_attributes (profile : ValueLimitProfile) (cs : list AttributeOccurrenceSetCandidate) (s : S)
  : S * result LogStoreFailure (list StoredLogAttribute) :=
  match cs with
  | [] => (s, Ok [])
  | c :: cs =>
      match candidate_validate c profile s with
      | (s, Err f) => (s, Err (log_domain f))
      | (s, Ok set) =>
          match check_attributes profile cs s with
          | (s, Ok l) => (s, Ok (mkStoredLogAttribute Generic set :: l))
          | (s, Err f) => (s, Err f)
          end
      end
  end.

(** [positron-signals/src/log_store/types.rs:127-172 LogRecord::checked_receiver_candidate_with_metadata] *)
Definition checked_receiver_candidate_with_metadata (profile : ValueLimitProfile) (event observed : option Z)
  (b : option CandidateAttributeValue) (attributes : list AttributeOccurrenceSetCandidate) (m : LogMetadata)
  (p : PolicyProvenance) (s : S) : S * result LogStoreFailure LogRecord :=
  match checked_event_time event with Err f => (s, Err f) | Ok e =>
  match match observed with
        | None => Ok None
        | Some value =>
            o ← map_err (fun _ => invalid_input)
                  (ObservedTime_received (mkUnixNanoseconds value) (if value =? 0 then Zero else Usable));
            Ok (Some o)
        end with Err f => (s, Err f) | Ok o =>
  match match b with
        | None => (s, Ok None)
        | Some b => let '(s, r) := validate_log_body b profile s in (s, Some <$> map_err log_domain r)
        end with (s, Err f) => (s, Err f) | (s, Ok b) =>
  match check_attributes profile attributes s with (s, Err f) => (s, Err f) | (s, Ok l) =>
  (s, checked_native profile e o b l m p)
  end end end end.

(** [positron-signals/src/log_store/types/evaluated.rs:8-30 LogRecord::checked_evaluated] Keys are
    moved; their capacity is taken as exact. *)
Definition checked_evaluated (profile : ValueLimitProfile) (e : EvaluatedLogRecord) : S -> S * result LogStoreFailure LogRecord :=
  let c := log_candidate e in
  checked_receiver_candidate_with_metadata profile (event_time_unix_nanos c) (observed_time_unix_nanos c) (log_body c)
    (map (fun a => mkOccurrenceCandidate (attr_namespace a) (mkRString (attr_key a) (zlen (attr_key a))) (attr_occurrences a))
       (log_attributes c)) (log_metadata c) (log_provenance e).
End construction.

(** ** Retained bytes *)

(** [positron-signals/src/log_store/types/retained.rs:19-22 RetainedRecordBytes] *)
Record RetainedRecordBytes := mkRetainedRecordBytes { retained_total : Z; body_heap : Z }.

(** [positron-signals/src/log_store/types/retained.rs:76-79 checked_add] *)
Definition retained_add (left right : Z) : result LogStoreFailure Z := ok_or limit_exceeded (checked_add u64_max left right).

(** [positron-signals/src/log_store/types/retained.rs:65-70 retained_value_heap_bytes] *)
Definition retained_value_heap_bytes `{Layout} (v : ValidatedAttributeValue) : result LogStoreFailure Z :=
  map_err log_domain (value_retained_heap_bytes v).

(** [positron-signals/src/log_store/types/retained.rs:61-63 retained_value_bytes] *)
Definition retained_value_bytes `{Layout} (v : ValidatedAttributeValue) : result LogStoreFailure Z :=
  heap ← retained_value_heap_bytes v; retained_add 64 heap.

(** [positron-signals/src/log_store/types/retained.rs:25-58 LogRecord::retained_dynamic_bytes] The three
    slot sizes are constants of the file. *)
Definition retained_dynamic_bytes `{Layout} (r : LogRecord) : result LogStoreFailure RetainedRecordBytes :=
  heap ← match body r with None => Ok 0 | Some b => retained_value_heap_bytes b end;
  total ← match body r with None => Ok heap | Some _ => retained_add heap 64 end;
  total ← try_fold (fun total a =>
    let set := stored_occurrences a in
    total ← retained_add total 64;
    total ← retained_add total (rs_len (key set));
    try_fold (fun total v => n ← retained_value_bytes v; retained_add total n) total (occurrences set)) total (record_attributes r);
  n ← ok_or limit_exceeded (metadata_decoded_size_bytes (metadata r));
  total ← retained_add total n;
  total ← try_fold (fun total rule =>
    total ← retained_add total 32;
    retained_add total (rs_len rule)) total (applied_rules (policy_provenance r));
  Ok (mkRetainedRecordBytes total heap).
