(* ===== verification/LogCodec.v ===== *)
(** Log store: the block format.

    Models [positron-signals/src/log_store/codec.rs] and [codec/]: limits, primitives, value,
    metadata and record codecs, the size pass, and the decoding of a committed block with its
    observer and cancellation. An encoder returns the bytes it appends. A decoder is a
    computation on the input cursor and on a state [S] shared by the allocator, the observer and
    the cancellation. The value decoder recurses without a depth bound through truncation
    markers, so it takes fuel; every level consumes a byte, and [LogRoundtrip] proves that more fuel
    than bytes never matters. *)

From Stdlib Require Import Ascii String.
From S2P Require Import Prelude Outcome Identity Limits SourceTime Values Observe Traversal Validation Shape Occurrences PolicyModel PolicyCodec RetentionTime LogStore.

(** ** Limits *)

(** [positron-signals/src/log_store/codec/limits.rs:4-16 CodecLimits] *)
Record CodecLimits := mkCodecLimits {
  lim_records : Z;
  lim_attribute_groups : Z;
  lim_occurrences : Z;
  lim_nesting_depth : Z;
  lim_body_bytes : Z;
  lim_record_bytes : Z;
  lim_value_bytes : Z;
  lim_key_bytes : Z;
  lim_array_entries : Z;
  lim_key_value_list_entries : Z;
}.

(** [positron-signals/src/log_store/codec/limits.rs:19-39 CodecLimits::release_1] A [u32] fits a
    [usize]. *)
Definition release_1 : result LogStoreFailure CodecLimits :=
  let profile := system_limits value_profile in
  let dynamic := dynamic_value profile in
  let occurrences := collection_limit (attributes_per_namespace dynamic) in
  groups ← ok_or invalid_input (checked_mul usize_max occurrences 3);
  depth ← (let depth := nesting_limit (nesting_depth dynamic) in if depth <=? u8_max then Ok depth else Err invalid_input);
  Ok (mkCodecLimits (collection_limit (request_records (request profile))) groups occurrences depth
        (byte_limit (log_body_bytes (record profile))) (byte_limit (decoded_record_bytes (record profile)))
        (byte_limit (individual_value_bytes dynamic)) (byte_limit (key_path_bytes dynamic))
        (collection_limit (array_entries dynamic)) (collection_limit (key_value_list_entries dynamic))).

(** ** Encoding *)

(** [positron-signals/src/log_store/codec/primitives.rs:6-12 put_count] *)
Definition put_count (n : Z) : result LogStoreFailure bytes :=
  if n <=? u16_max then Ok (be_bytes 2 n) else Err limit_exceeded.

(** [positron-signals/src/log_store/codec/primitives.rs:26-34 put_bytes] *)
Definition put_bytes (b : bytes) : result LogStoreFailure bytes :=
  if zlen b <=? u32_max then Ok (be_bytes 4 (zlen b) ++ b) else Err limit_exceeded.

(** Encoders one after the other. *)
Definition then_ (a b : result LogStoreFailure bytes) : result LogStoreFailure bytes := x ← a; y ← b; Ok (x ++ y).
Infix "+++" := then_ (at level 60, right associativity).
Definition each {A} (f : A -> result LogStoreFailure bytes) (l : list A) : result LogStoreFailure bytes :=
  foldr (fun a rest => f a +++ rest) (Ok []) l.

(** [positron-signals/src/log_store/codec/value.rs:159-166 marker_action_tag] *)
Definition marker_action_tag (a : MarkerAction) : Z :=
  match a with Removed => 0 | Redacted => 1 | TruncatedBytes => 2 | TruncatedElements => 3 end.

(** [positron-signals/src/log_store/codec/value.rs:168-180 native_kind_tag] *)
Definition native_kind_tag (k : AttributeValueKind) : result LogStoreFailure Z :=
  match k with
  | KNull => Ok 0 | KBoolean => Ok 1 | KSignedInteger => Ok 2 | KFloatingPoint => Ok 3
  | KString => Ok 4 | KBytes => Ok 5 | KArray => Ok 6 | KKeyValueList => Ok 7
  | KMarker => Err invalid_input
  end.

(** [positron-signals/src/log_store/codec/value.rs:81-157 encode] With [encode_array] and
    [encode_key_value_list]; the accessors of a value follow its constructor. *)
Fixpoint value_encode (v : ValidatedAttributeValue) (depth : Z) : result LogStoreFailure bytes :=
  match v with
  | VMarker m =>
      tag ← native_kind_tag (original_kind m);
      Ok [8; marker_action_tag (action m); tag]
  | VTruncated child a =>
      tag ← native_kind_tag (kind child);
      Ok [8; marker_action_tag a; tag] +++ value_encode child depth
  | VNull => Ok [0]
  | VBoolean b => Ok [1; if b then 1 else 0]
  | VSignedInteger z => Ok (2 :: be_bytes 8 z)
  | VFloatingPointBits z => Ok (3 :: be_bytes 8 z)
  | VString s => Ok [4] +++ put_bytes (text s)
  | VBytes s => Ok [5] +++ put_bytes (text s)
  | VArray vs _ =>
      next ← ok_or limit_exceeded (checked_sub depth 1);
      Ok [6] +++ put_count (zlen vs) +++ foldr (fun v rest => value_encode v next +++ rest) (Ok []) vs
  | VKeyValueList es _ =>
      next ← ok_or limit_exceeded (checked_sub depth 1);
      Ok [7] +++ put_count (zlen es)
        +++ foldr (fun '(k, v) rest => (put_bytes (text k) +++ value_encode v next) +++ rest) (Ok []) es
  end.

(** [positron-signals/src/log_store/codec/metadata.rs:73-81 encode_optional_id] *)
Definition encode_optional_id (id : option bytes) : bytes := match id with Some id => 1 :: id | None => [0] end.

(** [positron-signals/src/log_store/codec/metadata.rs:5-20 encode] *)
Definition metadata_encode (m : LogMetadata) : result LogStoreFailure bytes :=
  Ok (be_bytes 4 (severity_number m)) +++ put_bytes (severity_text m) +++ put_bytes (event_name m)
  +++ Ok (encode_optional_id (trace_id m)) +++ Ok (encode_optional_id (span_id m))
  +++ Ok (be_bytes 4 (flags m)) +++ Ok (be_bytes 4 (dropped_attributes_count m))
  +++ Ok (be_bytes 4 (resource_dropped_attributes_count m))
  +++ put_bytes (resource_schema_url m) +++ put_bytes (scope_name m) +++ put_bytes (scope_version m)
  +++ Ok (be_bytes 4 (scope_dropped_attributes_count m)) +++ put_bytes (scope_schema_url m).

(** [positron-signals/src/log_store/codec.rs:359-367 quality_tag] *)
Definition quality_tag (q : SourceTimeQuality) : Z :=
  match q with Usable => 1 | Missing => 2 | Zero => 3 | Outlier => 4 | Contradictory => 5 end.

(** [positron-signals/src/log_store/codec.rs:369-376 namespace_tag] *)
Definition log_namespace_tag (n : AttributeNamespace) : Z :=
  match n with NsResource => 1 | NsInstrumentationScope => 2 | NsRecord => 3 | NsStream => 4 end.

(** [positron-signals/src/log_store/codec.rs:103-108 encode_event_time] *)
Definition encode_event_time (t : EventTime) : bytes :=
  quality_tag (event_quality t) :: match event_instant t with Some i => be_bytes 8 (nanos i) | None => [] end.

(** [positron-signals/src/log_store/codec.rs:110-118 encode_observed_time] *)
Definition encode_observed_time (t : ObservedTime) : bytes :=
  quality_tag (observed_quality t) :: be_bytes 8 (nanos (observed_instant t)).

(** One attribute of a record. *)
Definition encode_attribute (depth : Z) (a : StoredLogAttribute) : result LogStoreFailure bytes :=
  let set := stored_occurrences a in
  Ok [match representation a with Generic => 1 | SchemaOverflow => 2 end; log_namespace_tag (namespace set)]
  +++ put_bytes (text (key set)) +++ put_count (set_len set) +++ each (fun v => value_encode v depth) (occurrences set).

(** The policy provenance of a record. *)
Definition encode_policy (p : PolicyProvenance) : result LogStoreFailure bytes :=
  Ok (be_bytes 8 (prov_generation p)) +++ Ok (prov_digest p) +++ put_count (zlen (applied_rules p))
  +++ each (fun rule => put_bytes (text rule)) (applied_rules p).

(** An optional part behind a presence byte. *)
Definition encode_optional {A} (f : A -> result LogStoreFailure bytes) (o : option A) : result LogStoreFailure bytes :=
  match o with Some a => Ok [1] +++ f a | None => Ok [0] end.

(** [positron-signals/src/log_store/codec.rs:56-101 encode_record] *)
Definition encode_record (depth : Z) (r : StoredLogRecord) : result LogStoreFailure bytes :=
  let l := log_record_of r in
  Ok (encode_event_time (event_time l))
  +++ encode_optional (fun o => Ok (encode_observed_time o)) (observed_time l)
  +++ metadata_encode (metadata l)
  +++ Ok (be_bytes 8 (nanos (instant (ingest_time_of r))))
  +++ encode_optional (fun b => value_encode b depth) (body l)
  +++ put_count (zlen (record_attributes l)) +++ each (encode_attribute depth) (record_attributes l)
  +++ encode_policy (policy_provenance l).

(** [positron-signals/src/log_store/codec.rs:9-13 MAGIC!] The magic and the three versions. *)
Definition MAGIC : bytes := bytes_of_string "PLOGBL01".
Definition LEGACY_VERSION : Z := 1.
Definition METADATA_VERSION : Z := 2.
Definition MARKER_VERSION : Z := 3.

(** [positron-signals/src/log_store/codec.rs:30-54 encode_block] The buffer's allocation succeeds. *)
Definition encode_block (tenant : TenantId) (rs : list StoredLogRecord) (encoded_bytes : Z) : result LogStoreFailure bytes :=
  limits ← release_1;
  if bool_decide (rs = []) || (lim_records limits <? zlen rs) then Err limit_exceeded else
  output ← Ok MAGIC +++ Ok (be_bytes 2 MARKER_VERSION) +++ Ok (tenant_id_bytes tenant) +++ put_count (zlen rs)
           +++ each (encode_record (lim_nesting_depth limits)) rs;
  if zlen output =? encoded_bytes then Ok output else Err invalid_input.

(** ** The size pass *)

(** [positron-signals/src/log_store/codec/size.rs:8-8 MAX_BLOCK_BYTES!] *)
Definition MAX_BLOCK_BYTES : Z := 1048576.

(** [positron-signals/src/log_store/codec/size.rs:63-67 bounded_add] *)
Definition bounded_add (left right : Z) : result LogStoreFailure Z :=
  match checked_add usize_max left right with
  | Some total => if total <=? MAX_BLOCK_BYTES then Ok total else Err limit_exceeded
  | None => Err limit_exceeded
  end.

(** [positron-signals/src/log_store/codec/value.rs:11-79 encoded_length] *)
Fixpoint value_encoded_length (v : ValidatedAttributeValue) (depth : Z) : result LogStoreFailure Z :=
  match v with
  | VMarker _ => Ok 3
  | VTruncated child _ => n ← value_encoded_length child depth; bounded_add 3 n
  | VNull => Ok 1
  | VBoolean _ => Ok 2
  | VSignedInteger _ | VFloatingPointBits _ => Ok 9
  | VString s | VBytes s => bounded_add 5 (rs_len s)
  | VArray vs _ =>
      next ← ok_or limit_exceeded (checked_sub depth 1);
      try_fold (fun total v => n ← value_encoded_length v next; bounded_add total n) 3 vs
  | VKeyValueList es _ =>
      next ← ok_or limit_exceeded (checked_sub depth 1);
      try_fold (fun total '(k, v) =>
        total ← bounded_add total 4;
        total ← bounded_add total (rs_len k);
        n ← value_encoded_length v next;
        bounded_add total n) 3 es
  end.

(** [positron-signals/src/log_store/codec/metadata.rs:52-71 encoded_length] *)
Definition metadata_encoded_length (m : LogMetadata) : result LogStoreFailure Z :=
  fixed ← ok_or limit_exceeded (
    n ← checked_add usize_max 46 (match trace_id m with Some _ => 16 | None => 0 end);
    checked_add usize_max n (match span_id m with Some _ => 8 | None => 0 end));
  try_fold (fun total n => ok_or limit_exceeded (checked_add usize_max total n)) fixed
    [zlen (severity_text m); zlen (event_name m); zlen (resource_schema_url m); zlen (scope_name m);
     zlen (scope_version m); zlen (scope_schema_url m)].

(** [positron-signals/src/log_store/codec/size.rs:21-61 encoded_record_length] *)
Definition encoded_record_length (l : LogRecord) (depth : Z) : result LogStoreFailure Z :=
  let n := match event_instant (event_time l) with Some _ => 9 | None => 1 end in
  n ← bounded_add n (match observed_time l with Some _ => 10 | None => 1 end);
  k ← metadata_encoded_length (metadata l);
  n ← bounded_add n k;
  n ← bounded_add n 9;
  n ← match body l with Some b => k ← value_encoded_length b depth; bounded_add n k | None => Ok n end;
  n ← bounded_add n 2;
  n ← try_fold (fun n a =>
    n ← bounded_add n 8;
    n ← bounded_add n (rs_len (key (stored_occurrences a)));
    try_fold (fun n v => k ← value_encoded_length v depth; bounded_add n k) n (occurrences (stored_occurrences a)))
    n (record_attributes l);
  n ← bounded_add n 42;
  try_fold (fun n rule => n ← bounded_add n 4; bounded_add n (rs_len rule)) n (applied_rules (policy_provenance l)).

(** [positron-signals/src/log_store/codec/size.rs:9-19 encoded_block_length] *)
Definition encoded_block_length (ls : list LogRecord) : result LogStoreFailure Z :=
  limits ← release_1;
  if bool_decide (ls = []) || (lim_records limits <? zlen ls) then Err limit_exceeded else
  try_fold (fun total l => n ← encoded_record_length l (lim_nesting_depth limits); bounded_add total n) 28 ls.

(** ** The input cursor *)

(** [positron-signals/src/log_store/scan.rs:25-39 ScanObserver] The cancellation and the observer of a
    scan, on the shared state. *)
Class ScanEnvironment (S : Type) := {
  is_cancelled : S -> S * bool;
  observe_work : Z -> S -> S * result ScanObservationFailureCode unit;
  observe_decoded_records : Z -> S -> S * result ScanObservationFailureCode unit;
}.

(** [positron-signals/src/log_store/codec/primitives.rs:36-42 Input] Whether it has an observer and a
    cancellation, which are those of the environment. *)
Record Input := mkInput {
  remaining : bytes;
  has_observer : bool;
  has_cancellation : bool;
  quantized_components : bool;
  pending_components : Z;
}.

(** [positron-signals/src/log_store/codec/primitives.rs:45-53 Input::new] *)
Definition Input_new (b : bytes) : Input := mkInput b false false false 0.

(** [positron-signals/src/log_store/codec/primitives.rs:55-67 Input::observed] *)
Definition Input_observed (b : bytes) : Input := mkInput b true true false 0.

(** [positron-signals/src/log_store/codec/primitives.rs:69-81 Input::observed_quantized] *)
Definition Input_observed_quantized (b : bytes) : Input := mkInput b true true true 0.

(** [positron-signals/src/log_store/codec/primitives.rs:217-225 Input::remaining_input] *)
Definition remaining_input (i : Input) : Input :=
  mkInput (remaining i) (has_observer i) (has_cancellation i) (quantized_components i) 0.

Definition set_remaining (b : bytes) (i : Input) : Input :=
  mkInput b (has_observer i) (has_cancellation i) (quantized_components i) (pending_components i).
Definition set_pending (n : Z) (i : Input) : Input :=
  mkInput (remaining i) (has_observer i) (has_cancellation i) (quantized_components i) n.

Section decoding.
Context {S : Type} {Alloc : Allocator S} {Lay : Layout} {Env : ScanEnvironment S}.

(** A decoder: on the cursor and the shared state. *)
Definition Dec (A : Type) : Type := Input -> S -> Input * S * result LogStoreFailure A.
#[export] Instance Dec_ret : MRet Dec := fun A a i s => (i, s, Ok a).
#[export] Instance Dec_bind : MBind Dec := fun A B k m i s =>
  match m i s with (i, s, Ok a) => k a i s | (i, s, Err e) => (i, s, Err e) end.
Definition dec_of {A} (r : result LogStoreFailure A) : Dec A := fun i s => (i, s, r).
Definition malformed {A} : Dec A := dec_of (Err malformed_block).

(** [positron-signals/src/log_store/codec/primitives.rs:148-157 Input::poll_cancellation] *)
Definition poll_cancellation : Dec unit := fun i s =>
  if has_cancellation i then
    let '(s, stop) := is_cancelled s in (i, s, if (stop : bool) then Err cancelled else Ok tt)
  else (i, s, Ok tt).

Fixpoint dec_times (n : nat) (m : Dec unit) : Dec unit :=
  match n with O => mret tt | Datatypes.S n => _ ← m; dec_times n m end.

(** [positron-signals/src/log_store/codec/primitives.rs:139-146 Input::poll_copy] *)
Definition poll_copy (count : Z) : Dec unit :=
  _ ← poll_cancellation; dec_times (Z.to_nat (count / 1024)) poll_cancellation.

(** [slice::split_at_checked]. *)
Definition dec_split (count : Z) : Dec bytes := fun i s =>
  if count <=? zlen (remaining i)
  then (set_remaining (drop (Z.to_nat count) (remaining i)) i, s, Ok (take (Z.to_nat count) (remaining i)))
  else (i, s, Err malformed_block).

(** [positron-signals/src/log_store/codec/primitives.rs:83-91 Input::take] *)
Definition dec_take (count : Z) : Dec bytes := _ ← poll_copy count; dec_split count.

(** A unit of work reported to the observer, and the reset of the pending components. *)
Definition report_work : Dec unit := fun i s =>
  let '(s, r) := observe_work 1 s in (i, s, map_err observation r).
Definition clear_pending : Dec unit := fun i s => (set_pending 0 i, s, Ok tt).

(** The component reported by an observed input. *)
Definition count_component : Dec unit := fun i s =>
  if has_observer i then
    if quantized_components i then
      let pending := saturating_add u8_max (pending_components i) 1 in
      if pending =? 64 then (_ ← report_work; clear_pending) i s else (set_pending pending i, s, Ok tt)
    else report_work i s
  else (i, s, Ok tt).

(** [positron-signals/src/log_store/codec/primitives.rs:95-115 Input::observe_component] *)
Definition observe_component : Dec unit := _ ← poll_cancellation; count_component.

(** [positron-signals/src/log_store/codec/primitives.rs:117-128 Input::finish_component_observation] *)
Definition finish_component_observation : Dec unit := fun i s =>
  if quantized_components i && negb (pending_components i =? 0) && has_observer i
  then (_ ← report_work; clear_pending) i s
  else (i, s, Ok tt).

(** [positron-signals/src/log_store/codec/primitives.rs:130-137 Input::observe_decoded_record] *)
Definition observe_decoded_record : Dec unit := fun i s =>
  if has_observer i then let '(s, r) := observe_decoded_records 1 s in (i, s, map_err observation r)
  else (i, s, Ok tt).

(** [positron-signals/src/log_store/codec/primitives.rs:186-190 Input::array] *)
Definition dec_array (n : Z) : Dec bytes := dec_take n.

(** [positron-signals/src/log_store/codec/primitives.rs:159-164 Input::u8] *)
Definition dec_u8 : Dec Z := b ← dec_take 1; dec_of (ok_or malformed_block (head b)).

(** [positron-signals/src/log_store/codec/primitives.rs:163-181 Input!] The fixed-width integers. *)
Definition dec_uint (n : Z) : Dec Z := b ← dec_array n; mret (be_value b).
Definition dec_u16 : Dec Z := dec_uint 2.
Definition dec_u32 : Dec Z := dec_uint 4.
Definition dec_u64 : Dec Z := dec_uint 8.
Definition as_i32 (bits : Z) : Z := if bits <=? i32_max then bits else bits - 4294967296.
Definition dec_i32 : Dec Z := v ← dec_u32; mret (as_i32 v).
Definition dec_i64 : Dec Z := v ← dec_u64; mret (as_i64 v).

(** [positron-signals/src/log_store/codec/primitives.rs:192-198 Input::count] *)
Definition dec_count (maximum : Z) : Dec Z :=
  count ← dec_u16; if maximum <? count then malformed else mret count.

(** [positron-signals/src/log_store/codec/primitives.rs:200-206 Input::bytes_slice] *)
Definition dec_bytes_slice (maximum : Z) : Dec bytes :=
  count ← dec_u32; if maximum <? count then malformed else dec_take count.

(** [positron-signals/src/log_store/codec/primitives.rs:208-211 Input::string_slice] *)
Definition dec_string_slice (maximum : Z) : Dec bytes :=
  b ← dec_bytes_slice maximum; if utf8_valid b then mret b else malformed.

(** [positron-signals/src/log_store/codec.rs:351-357 bounded_vec] The capacity obtained. *)
Definition bounded_vec (n : Z) : Dec Z := fun i s =>
  let '(s, cap) := try_reserve_exact n s in (i, s, ok_or resource_exhausted cap).

(** [positron-signals/src/log_store/codec/record.rs:377-384 try_string] *)
Definition dec_try_string (b : bytes) : Dec RString := cap ← bounded_vec (zlen b); mret (mkRString b cap).

(** ** Values *)

(** [positron-signals/src/log_store/codec/value/decode.rs:48-52 DecodeMode] *)
Inductive DecodeMode := Build | ValidateOnly.

(** [positron-signals/src/log_store/codec/value/decode.rs:59-65 ValueSummary] *)
Record ValueSummary := mkValueSummary { sum_value_bytes : Z; sum_decoded_bytes : Z; sum_marker : bool; sum_policy_root : bool }.

(** [positron-signals/src/log_store/codec/value/decode.rs:54-57 DecodedValue] *)
Inductive DecodedValue := Built (v : CandidateAttributeValue) | Validated (summary : ValueSummary).

(** [positron-signals/src/log_store/codec/value/decode.rs:323-333 scalar] With [mode_value]. *)
Definition scalar (mode : DecodeMode) (v : CandidateAttributeValue) (n : Z) : DecodedValue :=
  match mode with Build => Built v | ValidateOnly => Validated (mkValueSummary n n false false) end.

(** [positron-signals/src/log_store/codec/value/decode.rs:335-372 sequence] *)
Definition sequence (maximum : Z) (mode : DecodeMode) (utf8 : bool) : Dec DecodedValue :=
  b ← dec_bytes_slice maximum;
  if utf8 && negb (utf8_valid b) then malformed else
  match mode with
  | Build => s ← dec_try_string b; mret (Built (if utf8 then CString s else CBytes s))
  | ValidateOnly => mret (Validated (mkValueSummary (zlen b) (zlen b) false false))
  end.

(** [positron-signals/src/log_store/codec/value/decode.rs:383-386 checked_add] *)
Definition size_add (left right : Z) : result LogStoreFailure Z := ok_or malformed_block (checked_add usize_max left right).

(** [positron-signals/src/log_store/codec/value/decode.rs:288-301 candidate_kind] *)
Fixpoint decoded_kind (v : CandidateAttributeValue) : AttributeValueKind :=
  match v with
  | CNull => KNull | CBoolean _ => KBoolean | CSignedInteger _ => KSignedInteger | CFloatingPointBits _ => KFloatingPoint
  | CString _ => KString | CBytes _ => KBytes | CArray _ => KArray | CKeyValueList _ => KKeyValueList
  | CMarker _ => KMarker
  | CTruncated v _ => decoded_kind v
  end.

(** [positron-signals/src/log_store/codec/value/decode.rs:303-308 candidate_has_marker] *)
Definition candidate_has_marker (v : CandidateAttributeValue) : bool :=
  match v with CMarker _ | CTruncated _ _ => true | _ => false end.

(** [positron-signals/src/log_store/codec/value/decode.rs:310-321 valid_truncation] *)
Definition valid_truncation (a : MarkerAction) (k : AttributeValueKind) : bool :=
  match a, k with
  | TruncatedBytes, (KString | KBytes) | TruncatedElements, (KArray | KKeyValueList) => true
  | _, _ => false
  end.

Definition action_of_tag (tag : Z) : option MarkerAction :=
  match tag with 0 => Some Removed | 1 => Some Redacted | 2 => Some TruncatedBytes | 3 => Some TruncatedElements | _ => None end.
Definition kind_of_tag (tag : Z) : option AttributeValueKind :=
  match tag with
  | 0 => Some KNull | 1 => Some KBoolean | 2 => Some KSignedInteger | 3 => Some KFloatingPoint
  | 4 => Some KString | 5 => Some KBytes | 6 => Some KArray | 7 => Some KKeyValueList | _ => None
  end.

(** A loop of [n] steps with an accumulator. *)
Fixpoint dec_loop {B} (n : nat) (step : B -> Dec B) (acc : B) : Dec B :=
  match n with O => mret acc | Datatypes.S n => acc ← step acc; dec_loop n step acc end.

(** What a collection has gathered: its elements in reverse, or their summary. *)
Definition gathered (A : Type) : Type := list A + ValueSummary.
Definition gather_start {A} (mode : DecodeMode) : gathered A :=
  match mode with Build => inl [] | ValidateOnly => inr (mkValueSummary 0 0 false false) end.

Definition reserve_elements (mode : DecodeMode) (count : Z) : Dec unit :=
  match mode with Build => _ ← bounded_vec count; mret tt | ValidateOnly => mret tt end.

(** [positron-signals/src/log_store/codec/value/decode.rs:118-156 decode_array] Given the decoder of
    values at the next depth. *)
Definition decode_array (decode_value : Z -> Dec DecodedValue) (depth : Z) (limits : CodecLimits) (mode : DecodeMode)
  : Dec DecodedValue :=
  next ← dec_of (ok_or malformed_block (checked_sub depth 1));
  count ← dec_count (lim_array_entries limits);
  _ ← reserve_elements mode count;
  g ← dec_loop (Z.to_nat count) (fun g =>
    value ← decode_value next;
    match g, value with
    | inl vs, Built v => mret (inl (v :: vs))
    | inr sum, Validated v => dec_of (
        a ← size_add (sum_value_bytes sum) (sum_value_bytes v);
        d ← size_add (sum_decoded_bytes sum) (sum_decoded_bytes v);
        Ok (inr (mkValueSummary a d (sum_marker sum || sum_marker v) false)))
    | _, _ => malformed
    end) (gather_start (A := CandidateAttributeValue) mode);
  mret (match g with inl vs => Built (CArray (rev vs)) | inr sum => Validated sum end).

(** [positron-signals/src/log_store/codec/value/decode.rs:158-205 decode_key_value_list] *)
Definition decode_key_value_list (decode_value : Z -> Dec DecodedValue) (depth : Z) (limits : CodecLimits) (mode : DecodeMode)
  : Dec DecodedValue :=
  next ← dec_of (ok_or malformed_block (checked_sub depth 1));
  count ← dec_count (lim_key_value_list_entries limits);
  _ ← reserve_elements mode count;
  g ← dec_loop (Z.to_nat count) (fun g =>
    k ← dec_string_slice (lim_key_bytes limits);
    if bool_decide (k = []) then malformed else
    value ← decode_value next;
    match g, value with
    | inl vs, Built v => k ← dec_try_string k; mret (inl ((k, v) :: vs))
    | inr sum, Validated v => dec_of (
        a ← size_add (sum_value_bytes sum) (sum_value_bytes v);
        d ← size_add (sum_decoded_bytes sum) (zlen k);
        d ← size_add d (sum_decoded_bytes v);
        Ok (inr (mkValueSummary a d (sum_marker sum || sum_marker v) false)))
    | _, _ => malformed
    end) (gather_start (A := RString * CandidateAttributeValue) mode);
  mret (match g with inl vs => Built (CKeyValueList (rev vs)) | inr sum => Validated sum end).

(** [positron-signals/src/log_store/codec/value/decode.rs:219-286 decode_marker] Given the decoder of
    the truncated value, at the same depth. *)
Definition decode_marker (decode_value : Dec DecodedValue) (mode : DecodeMode) : Dec DecodedValue :=
  tag ← dec_u8;
  a ← dec_of (ok_or malformed_block (action_of_tag tag));
  tag ← dec_u8;
  k ← dec_of (ok_or malformed_block (kind_of_tag tag));
  match a with
  | Removed | Redacted =>
      mret (match mode with
            | Build => Built (CMarker (mkRedactionMarker k a))
            | ValidateOnly => Validated (mkValueSummary 0 0 true true)
            end)
  | TruncatedBytes | TruncatedElements =>
      child ← decode_value;
      match child with
      | Built child =>
          if negb (bool_decide (decoded_kind child = k)) || candidate_has_marker child || negb (valid_truncation a k)
          then malformed else mret (Built (CTruncated child a))
      | Validated sum =>
          if sum_policy_root sum || negb (valid_truncation a k) then malformed
          else mret (Validated (mkValueSummary (sum_value_bytes sum) (sum_decoded_bytes sum) true true))
      end
  end.

(** [positron-signals/src/log_store/codec/value/decode.rs:73-116 decode_mode] *)
Fixpoint decode_mode (fuel : nat) (depth value_bytes : Z) (limits : CodecLimits) (version : Z) (mode : DecodeMode)
  : Dec DecodedValue :=
  match fuel with
  | O => malformed
  | Datatypes.S fuel =>
      let at_depth depth := decode_mode fuel depth value_bytes limits version mode in
      _ ← observe_component;
      tag ← dec_u8;
      decoded ←
        match tag with
        | 0 => mret (scalar mode CNull 0)
        | 1 => b ← dec_u8; match b with
               | 0 => mret (scalar mode (CBoolean false) 1)
               | 1 => mret (scalar mode (CBoolean true) 1)
               | _ => malformed
               end
        | 2 => z ← dec_i64; mret (scalar mode (CSignedInteger z) 8)
        | 3 => z ← dec_u64; mret (scalar mode (CFloatingPointBits z) 8)
        | 4 => sequence value_bytes mode true
        | 5 => sequence value_bytes mode false
        | 6 => decode_array at_depth depth limits mode
        | 7 => decode_key_value_list at_depth depth limits mode
        | 8 => if 3 <=? version then decode_marker (at_depth depth) mode else malformed
        | _ => malformed
        end;
      match decoded with
      | Validated sum => if value_bytes <? sum_value_bytes sum then malformed else mret decoded
      | Built _ => mret decoded
      end
  end.

(** The fuel of a decoder: one more than the bytes that are left. *)
Definition with_fuel {A} (f : nat -> Dec A) : Dec A := fun i => f (Datatypes.S (length (remaining i))) i.

(** [positron-signals/src/log_store/codec/value/decode.rs:8-26 decode] *)
Definition value_decode (depth value_bytes : Z) (limits : CodecLimits) (version : Z) : Dec CandidateAttributeValue :=
  value ← with_fuel (fun fuel => decode_mode fuel depth value_bytes limits version Build);
  match value with Built v => mret v | Validated _ => malformed end.

(** [positron-signals/src/log_store/codec/value/decode.rs:28-46 validate] *)
Definition value_validate (depth value_bytes : Z) (limits : CodecLimits) (version : Z) : Dec ValueSummary :=
  value ← with_fuel (fun fuel => decode_mode fuel depth value_bytes limits version ValidateOnly);
  match value with Validated sum => mret sum | Built _ => malformed end.

(** ** Metadata *)

(** [positron-signals/src/log_store/codec/metadata.rs:83-91 decode_optional_id] *)
Definition decode_optional_id (n : Z) : Dec (option bytes) :=
  tag ← dec_u8;
  match tag with 0 => mret None | 1 => id ← dec_array n; mret (Some id) | _ => malformed end.

(** [positron-signals/src/log_store/codec/metadata.rs:128-147 decode_fields] *)
Definition decode_fields (limits : CodecLimits) : Dec LogMetadata :=
  severity_number ← dec_i32;
  severity_text ← dec_string_slice (lim_record_bytes limits);
  event_name ← dec_string_slice (lim_record_bytes limits);
  trace_id ← decode_optional_id 16;
  span_id ← decode_optional_id 8;
  flags ← dec_u32;
  dropped ← dec_u32;
  resource_dropped ← dec_u32;
  resource_schema_url ← dec_string_slice (lim_record_bytes limits);
  scope_name ← dec_string_slice (lim_record_bytes limits);
  scope_version ← dec_string_slice (lim_record_bytes limits);
  scope_dropped ← dec_u32;
  scope_schema_url ← dec_string_slice (lim_record_bytes limits);
  mret (mkLogMetadata severity_number severity_text event_name trace_id span_id flags dropped resource_dropped
          resource_schema_url scope_name scope_version scope_dropped scope_schema_url).

(** [positron-signals/src/log_store/codec/metadata.rs:22-42 decode] The six strings are copied. *)
Definition metadata_decode (limits : CodecLimits) : Dec LogMetadata :=
  m ← decode_fields limits;
  _ ← dec_try_string (severity_text m);
  _ ← dec_try_string (event_name m);
  _ ← dec_try_string (resource_schema_url m);
  _ ← dec_try_string (scope_name m);
  _ ← dec_try_string (scope_version m);
  _ ← dec_try_string (scope_schema_url m);
  mret m.

(** [positron-signals/src/log_store/codec/metadata.rs:110-125 DecodedFields::decoded_size_bytes] With
    [validate]. *)
Definition metadata_validate (limits : CodecLimits) : Dec Z :=
  m ← decode_fields limits;
  dec_of (ok_or malformed_block (metadata_decoded_size_bytes m)).

(** ** Records *)

(** [positron-signals/src/log_store/codec/record.rs:351-360 decode_quality] *)
Definition decode_quality (tag : Z) : result LogStoreFailure SourceTimeQuality :=
  match tag with
  | 1 => Ok Usable | 2 => Ok Missing | 3 => Ok Zero | 4 => Ok Outlier | 5 => Ok Contradictory
  | _ => Err malformed_block
  end.

(** [positron-signals/src/log_store/codec/record.rs:362-375 decode_namespace] *)
Definition decode_namespace (tag version : Z) : result LogStoreFailure AttributeNamespace :=
  match tag with
  | 1 => Ok NsResource | 2 => Ok NsInstrumentationScope | 3 => Ok NsRecord
  | 4 => if (version =? METADATA_VERSION) || (version =? MARKER_VERSION) then Ok NsStream else Err malformed_block
  | _ => Err malformed_block
  end.

(** A domain failure inside a block is a malformed block. *)
Definition or_malformed {E A} (r : result E A) : result LogStoreFailure A := map_err (fun _ => malformed_block) r.

(** [positron-signals/src/log_store/codec/record.rs:336-343 decode_event_time] *)
Definition decode_event_time : Dec EventTime :=
  tag ← dec_u8;
  quality ← dec_of (decode_quality tag);
  if bool_decide (quality = Missing) then mret EventTime_missing else
  i ← dec_i64;
  dec_of (or_malformed (EventTime_received (mkUnixNanoseconds i) quality)).

(** [positron-signals/src/log_store/codec/record.rs:345-349 decode_observed_time] *)
Definition decode_observed_time : Dec ObservedTime :=
  tag ← dec_u8;
  quality ← dec_of (decode_quality tag);
  i ← dec_i64;
  dec_of (or_malformed (ObservedTime_received (mkUnixNanoseconds i) quality)).

(** A presence byte, and what follows it. *)
Definition dec_optional {A} (m : Dec A) : Dec (option A) :=
  tag ← dec_u8;
  match tag with 0 => mret None | 1 => a ← m; mret (Some a) | _ => malformed end.

(** The rule identities of a provenance, with the parts before them. *)
Definition decode_rules : Dec (Z * bytes * list bytes) :=
  generation ← dec_u64;
  digest ← dec_array 32;
  count ← dec_count MAX_RULES;
  rules ← dec_loop (Z.to_nat count) (fun rules =>
    _ ← observe_component;
    rule ← dec_string_slice MAX_RULE_ID_BYTES;
    mret (rules ++ [rule])) [];
  _ ← dec_of (or_malformed (validate_parts generation digest rules));
  mret (generation, digest, rules).

(** [positron-signals/src/log_store/codec/record.rs:293-315 decode_policy] *)
Definition decode_policy : Dec PolicyProvenance :=
  '(generation, digest, rules) ← decode_rules;
  cap ← bounded_vec (zlen rules);
  built ← dec_loop (length rules) (fun built =>
    match rules !! length built with
    | Some rule => s ← dec_try_string rule; mret (built ++ [s])
    | None => malformed
    end) [];
  dec_of (or_malformed (provenance_new generation digest built cap)).

(** [positron-signals/src/log_store/codec/record.rs:317-334 validate_policy] *)
Definition validate_policy : Dec unit := _ ← decode_rules; mret tt.

(** A domain computation on the allocator's state. *)
Definition dec_domain {A} (f : S -> S * result DomainFailure A) : Dec A := fun i s =>
  let '(s, r) := f s in (i, s, or_malformed r).

(** [positron-signals/src/log_store/codec/record.rs:248-291 decode_attribute] *)
Definition decode_attribute (limits : CodecLimits) (version : Z) : Dec StoredLogAttribute :=
  _ ← observe_component;
  tag ← dec_u8;
  representation ← dec_of (match tag with 1 => Ok Generic | 2 => Ok SchemaOverflow | _ => Err malformed_block end);
  tag ← dec_u8;
  ns ← dec_of (decode_namespace tag version);
  k ← dec_string_slice (lim_key_bytes limits);
  if bool_decide (k = []) then malformed else
  count ← dec_count (lim_occurrences limits);
  if count =? 0 then malformed else
  _ ← bounded_vec count;
  vs ← dec_loop (Z.to_nat count) (fun vs =>
    v ← value_decode (lim_nesting_depth limits) (lim_value_bytes limits) limits version;
    mret (vs ++ [v])) [];
  k ← dec_try_string k;
  set ← dec_domain (candidate_validate (mkOccurrenceCandidate ns k vs) value_profile);
  mret (mkStoredLogAttribute representation set).

(** [positron-signals/src/log_store/codec/record.rs:234-246 decode_attributes] *)
Definition decode_attributes (limits : CodecLimits) (version : Z) : Dec (list StoredLogAttribute) :=
  count ← dec_count (lim_attribute_groups limits);
  _ ← bounded_vec count;
  dec_loop (Z.to_nat count) (fun l => a ← decode_attribute limits version; mret (l ++ [a])) [].

(** [positron-signals/src/log_store/codec/record.rs:206-232 decode_body] *)
Definition decode_body (limits : CodecLimits) (version : Z) (v : NativeRecordValidator) : Dec (option ValidatedAttributeValue) :=
  b ← dec_optional (
    c ← value_decode (lim_nesting_depth limits) (lim_body_bytes limits) limits version;
    dec_domain (validate_log_body c value_profile));
  match b with
  | None => _ ← dec_of (or_malformed (observe_body 0 v)); mret None
  | Some _ => mret b
  end.

(** [positron-signals/src/log_store/codec/record.rs:190-204 decode_metadata] *)
Definition decode_metadata (limits : CodecLimits) (version : Z) (v : NativeRecordValidator)
  : Dec (LogMetadata * NativeRecordValidator) :=
  if version =? LEGACY_VERSION
  then v ← dec_of (or_malformed (observe_metadata 0 v)); mret (LogMetadata_empty, v)
  else m ← metadata_decode limits; mret (m, v).

(** [positron-signals/src/log_store/codec/record.rs:15-18 DecodedRecord] *)
Record DecodedRecord := mkDecodedRecord { dr_record : LogRecord; dr_ingest_time : UnixNanoseconds }.

(** [positron-signals/src/log_store/codec/record.rs:41-75 decode] *)
Definition record_decode (limits : CodecLimits) (version : Z) : Dec DecodedRecord :=
  _ ← observe_component;
  event ← decode_event_time;
  observed ← dec_optional decode_observed_time;
  '(m, v) ← decode_metadata limits version (NativeRecordValidator_new value_profile);
  ingest ← dec_i64;
  b ← decode_body limits version v;
  attributes ← decode_attributes limits version;
  policy ← decode_policy;
  r ← dec_of (or_malformed (checked_native value_profile event observed b attributes m policy));
  mret (mkDecodedRecord r (mkUnixNanoseconds ingest)).

(** [positron-signals/src/log_store/codec/record.rs:21-29 DecodedRecord::into_stored] *)
Definition into_stored (block : CommittedBlock) (d : DecodedRecord) : result LogStoreFailure StoredLogRecord :=
  t ← map_err kernel (observe_ingest_time block (dr_ingest_time d));
  Ok (mkStoredLogRecord (dr_record d) t).

(** One attribute in [validate_structure_with_ingest_time]. *)
Definition validate_attribute_structure (limits : CodecLimits) (version : Z) (v : NativeRecordValidator)
  : Dec NativeRecordValidator :=
  _ ← observe_component;
  tag ← dec_u8;
  _ ← dec_of (match tag with 1 | 2 => Ok tt | _ => Err malformed_block end);
  tag ← dec_u8;
  ns ← dec_of (decode_namespace tag version);
  k ← dec_string_slice (lim_key_bytes limits);
  if bool_decide (k = []) then malformed else
  count ← dec_count (lim_occurrences limits);
  if count =? 0 then malformed else
  n ← dec_loop (Z.to_nat count) (fun n =>
    sum ← value_validate (lim_nesting_depth limits) (lim_value_bytes limits) limits version;
    dec_of (size_add n (sum_decoded_bytes sum))) 0;
  dec_of (or_malformed (observe_attribute ns (zlen k) count n v)).

(** [positron-signals/src/log_store/codec/record.rs:109-188 validate_structure_with_ingest_time] *)
Definition validate_structure_with_ingest_time (limits : CodecLimits) (version : Z) : Dec UnixNanoseconds :=
  _ ← observe_component;
  _ ← decode_event_time;
  _ ← dec_optional decode_observed_time;
  let v := NativeRecordValidator_new value_profile in
  n ← (if negb (version =? LEGACY_VERSION) then metadata_validate limits else mret 0);
  v ← dec_of (or_malformed (observe_metadata n v));
  ingest ← dec_i64;
  b ← dec_optional (value_validate (lim_nesting_depth limits) (lim_body_bytes limits) limits version);
  v ← dec_of (match b with Some sum => or_malformed (observe_body (sum_decoded_bytes sum) v) | None => Ok v end);
  count ← dec_count (lim_attribute_groups limits);
  _ ← dec_loop (Z.to_nat count) (validate_attribute_structure limits version) v;
  _ ← validate_policy;
  mret (mkUnixNanoseconds ingest).

(** [positron-signals/src/log_store/codec/record.rs:77-85 validate_structure_for_block] *)
Definition validate_structure_for_block (limits : CodecLimits) (version : Z) (block : CommittedBlock) : Dec unit :=
  t ← validate_structure_with_ingest_time limits version;
  _ ← dec_of (map_err kernel (authenticate_ingest_time block t));
  mret tt.

(** [positron-signals/src/log_store/codec/record.rs:87-98 validate_structure_for_observation] *)
Definition validate_structure_for_observation (limits : CodecLimits) (version : Z) (block : CommittedBlock) : Dec unit :=
  t ← validate_structure_with_ingest_time limits version;
  _ ← dec_of (map_err kernel (observe_ingest_time block t));
  mret tt.

(** ** Blocks *)

(** [positron-signals/src/log_store/codec.rs:161-185 decode_block_header_with] The version and the
    record count. *)
Definition decode_block_header_with (expected_tenant : TenantId) (limits : CodecLimits) : Dec (Z * Z) :=
  magic ← dec_take 8;
  if negb (bytes_eqb magic MAGIC) then malformed else
  version ← dec_u16;
  if negb ((version =? LEGACY_VERSION) || (version =? METADATA_VERSION) || (version =? MARKER_VERSION)) then malformed else
  tenant ← dec_take 16;
  if negb (bytes_eqb tenant (tenant_id_bytes expected_tenant)) then dec_of (Err physical_scope_mismatch) else
  count ← dec_count (lim_records limits);
  if count =? 0 then malformed else mret (version, count).

(** The cancellation passed to the block decoder: [NeverCancelled] or that of the environment. *)
Definition check_cancelled (polls : bool) : Dec unit := fun i s =>
  if polls then let '(s, stop) := is_cancelled s in (i, s, if (stop : bool) then Err cancelled else Ok tt)
  else (i, s, Ok tt).

Definition expect_end : Dec unit := fun i s => (i, s, if bool_decide (remaining i = []) then Ok tt else Err malformed_block).

(** The tail is read with a cursor of its own; its end is the end of the block. *)
Definition on_remaining_input {A} (m : Dec A) : Dec A := fun i s => m (remaining_input i) s.

(** [positron-signals/src/log_store/codec.rs:297-345 decode_block_records] *)
Definition decode_block_records (polls : bool) (block : CommittedBlock) (skip limit : Z) (version : Z) (limits : CodecLimits)
  (count : Z) : Dec (list StoredLogRecord) :=
  let skipped := Z.min skip count in
  _ ← dec_times (Z.to_nat skipped) (
    _ ← check_cancelled polls; validate_structure_for_observation limits version block);
  let retained := Z.min (saturating_sub count skipped) limit in
  _ ← bounded_vec retained;
  rs ← dec_loop (Z.to_nat retained) (fun rs =>
    _ ← check_cancelled polls;
    decoded ← record_decode limits version;
    r ← dec_of (into_stored block decoded);
    _ ← observe_decoded_record;
    mret (rs ++ [r])) [];
  _ ← finish_component_observation;
  on_remaining_input (
    _ ← dec_times (Z.to_nat (count - (skipped + retained))) (
      _ ← check_cancelled polls; validate_structure_for_observation limits version block);
    _ ← finish_component_observation;
    _ ← expect_end;
    _ ← check_cancelled polls;
    mret rs).

(** [positron-signals/src/log_store/codec.rs:223-235 BlockDecode::from_input] Followed by
    [decode_after]. *)
Definition decode_after (polls : bool) (expected_tenant : TenantId) (block : CommittedBlock) (skip limit : Z)
  : Dec (list StoredLogRecord) :=
  _ ← observe_component;
  limits ← dec_of release_1;
  '(version, count) ← decode_block_header_with expected_tenant limits;
  decode_block_records polls block skip limit version limits count.

(** [positron-signals/src/log_store/codec.rs:138-145 decode_block_cancellable] *)
Definition decode_block_cancellable (polls : bool) (expected_tenant : TenantId) (block : CommittedBlock) (limit : Z) (s : S)
  : S * result LogStoreFailure (list StoredLogRecord) :=
  let '(_, s, r) := decode_after polls expected_tenant block 0 limit (Input_new (payload block)) s in (s, r).

(** [positron-signals/src/log_store/codec.rs:120-126 decode_block] *)
Definition decode_block (expected_tenant : TenantId) (block : CommittedBlock) (limit : Z) (s : S) :=
  decode_block_cancellable false expected_tenant block limit s.

(** [positron-signals/src/log_store/codec.rs:147-159 decode_block_observed] *)
Definition decode_block_observed (expected_tenant : TenantId) (block : CommittedBlock) (limit : Z) (s : S)
  : S * result LogStoreFailure (list StoredLogRecord) :=
  let '(_, s, r) := decode_after true expected_tenant block 0 limit (Input_observed (payload block)) s in (s, r).

(** [positron-signals/src/log_store/codec.rs:128-136 validate_retention_block_observed] With
    [validate_for_block]. *)
Definition validate_retention_block_observed (expected_tenant : TenantId) (block : CommittedBlock) (s : S)
  : S * result LogStoreFailure unit :=
  let '(_, s, r) := (
    _ ← observe_component;
    limits ← dec_of release_1;
    '(version, count) ← decode_block_header_with expected_tenant limits;
    _ ← dec_times (Z.to_nat count) (_ ← check_cancelled true; validate_structure_for_block limits version block);
    _ ← finish_component_observation;
    expect_end) (Input_observed (payload block)) s in (s, r).
End decoding.
Arguments Dec S A : clear implicits.

(** The environment that neither cancels nor refuses. *)
Definition QuietEnvironment S : ScanEnvironment S := {|
  is_cancelled := fun s => (s, false);
  observe_work := fun _ s => (s, Ok tt);
  observe_decoded_records := fun _ s => (s, Ok tt);
|}.
