(* ===== verification/LogReads.v ===== *)
(** Log store: decoders that read back what the encoders wrote.

    [Reads m bs a] says that the decoder [m], on any input that begins with [bs], consumes
    exactly [bs] and returns [a]. It holds for sequences and loops of decoders, for the
    primitives, and, in both modes, for every value within its limits. The cursor has no
    observer and no cancellation, and memory is available. *)

From S2P Require Import Prelude Outcome Limits SourceTime Values Observe Traversal Validation Shape CanonicalEncoding Occurrences PolicyModel PolicyCodec RetentionTime LogStore LogCodec.

#[local] Existing Instance ExactAllocator.

Lemma then_Ok a b bs : a +++ b = Ok bs -> exists x y, a = Ok x /\ b = Ok y /\ bs = x ++ y.
Proof. unfold then_. destruct a as [x|], b as [y|]; cbn; try done. intros [= <-]. eauto. Qed.

Lemma Ok_inj {E A} (a b : A) : @Ok E A a = Ok b -> a = b.
Proof. congruence. Qed.

Lemma each_cons {A} (f : A -> result LogStoreFailure bytes) x l : each f (x :: l) = f x +++ each f l.
Proof. done. Qed.

Lemma zlen_nil {A} : zlen (@nil A) = 0.
Proof. done. Qed.

(** The length of what an encoder wrote. *)
Ltac zlens := rewrite ?zlen_app, ?zlen_cons, ?zlen_nil, ?zlen_be_bytes, ?zlen_map in *.

Section reads.
Context {Lay : Layout} {Env : ScanEnvironment unit}.

Definition Reads {A} (m : Dec unit A) (bs : bytes) (a : A) : Prop :=
  forall rest, m (Input_new (bs ++ rest)) tt = (Input_new rest, tt, Ok a).

(** ** Sequences *)

Lemma log_reads_ret {A} (a : A) : Reads (mret a) [] a.
Proof. done. Qed.

Lemma log_reads_bind {A B} (m : Dec unit A) (k : A -> Dec unit B) b1 b2 a b :
  Reads m b1 a -> Reads (k a) b2 b -> Reads (m ≫= k) (b1 ++ b2) b.
Proof. intros Hm Hk rest. unfold mbind, Dec_bind. rewrite <- app_assoc, Hm. apply Hk. Qed.

(** A step that reads nothing. *)
Lemma reads_skip {A B} (m : Dec unit A) (k : A -> Dec unit B) bs a b :
  Reads m [] a -> Reads (k a) bs b -> Reads (m ≫= k) bs b.
Proof. apply (log_reads_bind m k []). Qed.

(** The last step of a sequence reads nothing. *)
Lemma log_reads_map {A B} (m : Dec unit A) (k : A -> Dec unit B) bs a b :
  Reads m bs a -> Reads (k a) [] b -> Reads (m ≫= k) bs b.
Proof. intros Hm Hk. rewrite <- (app_nil_r bs). by eapply log_reads_bind. Qed.

Lemma reads_of {A} (r : result LogStoreFailure A) a : r = Ok a -> Reads (dec_of r) [] a.
Proof. by intros ->. Qed.

(** A loop that writes one element per step: [acc_of] is the accumulator after a prefix. *)
Lemma reads_loop {A B} (f : A -> result LogStoreFailure bytes) (step : B -> Dec unit B) (acc_of : list A -> B) l bs :
  (forall pre x post b, l = pre ++ x :: post -> f x = Ok b -> Reads (step (acc_of pre)) b (acc_of (pre ++ [x]))) ->
  each f l = Ok bs -> Reads (dec_loop (length l) step (acc_of [])) bs (acc_of l).
Proof.
  intros Hstep. enough (forall rest pre bs, l = pre ++ rest -> each f rest = Ok bs ->
    Reads (dec_loop (length rest) step (acc_of pre)) bs (acc_of l)) as Hgen by (intros; by apply Hgen).
  clear bs. induction rest as [|x rest IH]; intros pre bs Hl H; cbn [dec_loop length].
  - injection H as <-. rewrite app_nil_r in Hl. by subst pre.
  - rewrite each_cons in H. apply then_Ok in H as (b1 & b2 & Hx & Hrest & ->). eapply log_reads_bind; [by eapply Hstep|].
    apply IH; [|done]. by rewrite <- app_assoc.
Qed.

(** ** Primitives *)

Lemma poll_copy_plain n b : poll_copy n (Input_new b) tt = (Input_new b, tt, Ok tt).
Proof.
  unfold poll_copy, mbind, Dec_bind. cbn [poll_cancellation has_cancellation Input_new].
  induction (Z.to_nat (n / 1024)) as [|k IH]; [done|]. cbn [dec_times]. unfold mbind, Dec_bind. apply IH.
Qed.

Lemma log_reads_take n bs : zlen bs = n -> Reads (dec_take n) bs bs.
Proof.
  intros <- rest. unfold dec_take. unfold mbind, Dec_bind. rewrite poll_copy_plain. unfold dec_split. cbn [remaining Input_new].
  pose proof (zlen_nonneg rest). rewrite zlen_app, (proj2 (Z.leb_le _ _)) by lia.
  unfold zlen. by rewrite Nat2Z.id, drop_app_length, take_app_length.
Qed.

Lemma reads_array n bs : zlen bs = n -> Reads (dec_array n) bs bs.
Proof. apply log_reads_take. Qed.

Lemma reads_component : Reads observe_component [] tt.
Proof. done. Qed.

Lemma log_reads_u8 b : Reads dec_u8 [b] b.
Proof. eapply log_reads_map; [by apply log_reads_take|]. done. Qed.

Lemma reads_uint n v : 0 <= v < 256 ^ Z.of_nat n -> Reads (dec_uint (Z.of_nat n)) (be_bytes n v) v.
Proof.
  intros Hv. eapply log_reads_map; [apply reads_array, zlen_be_bytes|]. rewrite be_value_be_bytes by done. apply log_reads_ret.
Qed.

Lemma log_reads_u64 v : in_u u64_max v -> Reads dec_u64 (be_bytes 8 v) v.
Proof. intros Hv. apply (reads_uint 8). change (256 ^ Z.of_nat 8) with two64. unfold in_u, u64_max, two64 in *. lia. Qed.

Lemma log_reads_u32 v : in_u u32_max v -> Reads dec_u32 (be_bytes 4 v) v.
Proof. intros Hv. apply (reads_uint 4). change (256 ^ Z.of_nat 4) with 4294967296. unfold in_u, u32_max in *. lia. Qed.

Lemma log_reads_u16 v : in_u u16_max v -> Reads dec_u16 (be_bytes 2 v) v.
Proof. intros Hv. apply (reads_uint 2). change (256 ^ Z.of_nat 2) with 65536. unfold in_u, u16_max in *. lia. Qed.

Lemma reads_mod n v : Reads (dec_uint (Z.of_nat n)) (be_bytes n v) (v mod 256 ^ Z.of_nat n).
Proof. eapply log_reads_map; [apply reads_array, zlen_be_bytes|]. rewrite be_value_be_bytes_mod. apply log_reads_ret. Qed.

Lemma reads_i64 v : i64_min <= v <= i64_max -> Reads dec_i64 (be_bytes 8 v) v.
Proof.
  intros Hv. eapply log_reads_map; [apply (reads_mod 8)|]. rewrite <- be_value_be_bytes_mod, as_i64_be_bytes by done. apply log_reads_ret.
Qed.

Lemma log_reads_i32 v : i32_min <= v <= i32_max -> Reads dec_i32 (be_bytes 4 v) v.
Proof.
  intros Hv. eapply log_reads_map; [apply (reads_mod 4)|]. change (256 ^ Z.of_nat 4) with 4294967296.
  enough (as_i32 (v mod 4294967296) = v) as -> by apply log_reads_ret.
  unfold as_i32, i32_min, i32_max in *. destruct (Z.leb_spec 0 v).
  - rewrite Z.mod_small by lia. by rewrite (proj2 (Z.leb_le _ _)) by lia.
  - rewrite <- (Z.mod_add v 1), Z.mod_small by lia. rewrite (proj2 (Z.leb_gt _ _)) by lia. lia.
Qed.

Lemma put_count_inv n bs : put_count n = Ok bs -> n <= u16_max /\ bs = be_bytes 2 n.
Proof. unfold put_count. destruct (Z.leb_spec n u16_max); [|done]. by intros <-%Ok_inj. Qed.

Lemma reads_count maximum n bs : put_count n = Ok bs -> 0 <= n <= maximum -> Reads (dec_count maximum) bs n.
Proof.
  intros [Hn ->]%put_count_inv Hm. eapply log_reads_map; [apply log_reads_u16; unfold in_u; lia|].
  rewrite (proj2 (Z.ltb_ge _ _)) by lia. apply log_reads_ret.
Qed.

Lemma reads_bytes_slice maximum b bs : put_bytes b = Ok bs -> zlen b <= maximum -> Reads (dec_bytes_slice maximum) bs b.
Proof.
  unfold put_bytes. destruct (Z.leb_spec (zlen b) u32_max); [|done]. intros <-%Ok_inj Hm. pose proof (zlen_nonneg b).
  eapply log_reads_bind; [apply log_reads_u32; unfold in_u; lia|]. rewrite (proj2 (Z.ltb_ge _ _)) by lia. by apply log_reads_take.
Qed.

Lemma reads_string_slice maximum b bs : put_bytes b = Ok bs -> zlen b <= maximum -> utf8_valid b = true ->
  Reads (dec_string_slice maximum) bs b.
Proof.
  intros Hp Hm Hu. eapply log_reads_map; [by apply reads_bytes_slice|]. rewrite Hu. apply log_reads_ret.
Qed.

Lemma reads_vec n : Reads (bounded_vec n) [] n.
Proof. done. Qed.

(** A string with exact capacity. *)
Definition exact (b : bytes) : RString := mkRString b (zlen b).

Lemma reads_try_string b : Reads (dec_try_string b) [] (exact b).
Proof. done. Qed.

Lemma reads_optional {A B} (enc : A -> result LogStoreFailure bytes) (m : Dec unit B) (g : A -> B) o bs :
  encode_optional enc o = Ok bs -> (forall a b, o = Some a -> enc a = Ok b -> Reads m b (g a)) -> Reads (dec_optional m) bs (g <$> o).
Proof.
  intros H Hm. destruct o as [a|]; cbn [encode_optional] in H.
  - apply then_Ok in H as (? & b & [= <-] & Ha & ->). eapply (log_reads_bind _ _ [1]); [apply log_reads_u8|]. cbn. eapply log_reads_map; [by apply (Hm a)|]. apply log_reads_ret.
  - injection H as <-. eapply log_reads_map; [apply log_reads_u8|]. apply log_reads_ret.
Qed.

(** ** Values *)

(** What a decoder of values rebuilds: the candidate with exact capacities. *)
Fixpoint exact_candidate (v : ValidatedAttributeValue) : CandidateAttributeValue :=
  match v with
  | VNull => CNull
  | VBoolean b => CBoolean b
  | VSignedInteger z => CSignedInteger z
  | VFloatingPointBits z => CFloatingPointBits z
  | VString s => CString (exact (text s))
  | VBytes s => CBytes (exact (text s))
  | VArray vs _ => CArray (map exact_candidate vs)
  | VKeyValueList es _ => CKeyValueList (map (fun '(k, v) => (exact (text k), exact_candidate v)) es)
  | VMarker m => CMarker m
  | VTruncated v a => CTruncated (exact_candidate v) a
  end.

(** The sizes and marks that validate-only decoding sums up. *)
Fixpoint payload_size (v : ValidatedAttributeValue) : Z :=
  match v with
  | VNull | VMarker _ => 0
  | VBoolean _ => 1
  | VSignedInteger _ | VFloatingPointBits _ => 8
  | VString s | VBytes s => rs_len s
  | VArray vs _ => zsum payload_size vs
  | VKeyValueList es _ => zsum (fun '(_, v) => payload_size v) es
  | VTruncated v _ => payload_size v
  end.
Fixpoint decoded_total (v : ValidatedAttributeValue) : Z :=
  match v with
  | VNull | VMarker _ => 0
  | VBoolean _ => 1
  | VSignedInteger _ | VFloatingPointBits _ => 8
  | VString s | VBytes s => rs_len s
  | VArray vs _ => zsum decoded_total vs
  | VKeyValueList es _ => zsum (fun '(k, v) => rs_len k + decoded_total v) es
  | VTruncated v _ => decoded_total v
  end.
Fixpoint has_mark (v : ValidatedAttributeValue) : bool :=
  match v with
  | VArray vs _ => existsb has_mark vs
  | VKeyValueList es _ => existsb (fun '(_, v) => has_mark v) es
  | VMarker _ | VTruncated _ _ => true
  | _ => false
  end.
Definition root_mark (v : ValidatedAttributeValue) : bool := match v with VMarker _ | VTruncated _ _ => true | _ => false end.

Definition summary (v : ValidatedAttributeValue) : ValueSummary :=
  mkValueSummary (payload_size v) (decoded_total v) (has_mark v) (root_mark v).
Definition expected (mode : DecodeMode) (v : ValidatedAttributeValue) : DecodedValue :=
  match mode with Build => Built (exact_candidate v) | ValidateOnly => Validated (summary v) end.

Context (L : CodecLimits) (vb : Z).

(** A value within the limits of the codec. *)
Fixpoint codable (v : ValidatedAttributeValue) (depth : Z) : Prop :=
  payload_size v <= vb /\ decoded_total v <= usize_max /\
  match v with
  | VSignedInteger z => i64_min <= z <= i64_max
  | VFloatingPointBits z => in_u u64_max z
  | VString s => utf8_valid (text s) = true
  | VArray vs _ => 1 <= depth /\ zlen vs <= lim_array_entries L /\ all_of (fun v => codable v (depth - 1)) vs
  | VKeyValueList es _ => 1 <= depth /\ zlen es <= lim_key_value_list_entries L /\
      all_of (fun '(k, v) => text k <> [] /\ rs_len k <= lim_key_bytes L /\ utf8_valid (text k) = true /\ codable v (depth - 1)) es
  | VMarker m => marker_is_valid m = true
  | VTruncated v a => root_mark v = false /\ valid_truncation a (kind v) = true /\ codable v depth
  | _ => True
  end.

Lemma codable_sizes v depth : codable v depth -> payload_size v <= vb /\ decoded_total v <= usize_max.
Proof. destruct v; cbn; tauto. Qed.

Lemma sizes_nonneg v : 0 <= payload_size v <= decoded_total v.
Proof.
  induction v as [|b|z|z|p|p|vs cap IH|es cap IH|m|v a IH] using validated_ind'; cbn [payload_size decoded_total]; try lia.
  1-2: unfold rs_len; pose proof (zlen_nonneg (text p)); lia.
  - rewrite Forall_forall in IH. split; [apply zsum_nonneg|apply zsum_le]; intros x Hx%IH; lia.
  - rewrite Forall_forall in IH. split; [apply zsum_nonneg|apply zsum_le]; intros [k x] Hx; specialize (IH _ Hx); cbn in IH;
      unfold rs_len; pose proof (zlen_nonneg (text k)); lia.
Qed.

(** What [decode_mode] does after a tag. *)
Definition dispatch (fuel : nat) (depth : Z) (mode : DecodeMode) (tag : Z) : Dec unit DecodedValue :=
  let at_depth depth := decode_mode fuel depth vb L MARKER_VERSION mode in
  match tag with
  | 0 => mret (scalar mode CNull 0)
  | 1 => b ← dec_u8; match b with
         | 0 => mret (scalar mode (CBoolean false) 1)
         | 1 => mret (scalar mode (CBoolean true) 1)
         | _ => malformed
         end
  | 2 => z ← dec_i64; mret (scalar mode (CSignedInteger z) 8)
  | 3 => z ← dec_u64; mret (scalar mode (CFloatingPointBits z) 8)
  | 4 => sequence vb mode true
  | 5 => sequence vb mode false
  | 6 => decode_array at_depth depth L mode
  | 7 => decode_key_value_list at_depth depth L mode
  | 8 => decode_marker (at_depth depth) mode
  | _ => malformed
  end.

Lemma reads_mode fuel depth mode tag bs v : payload_size v <= vb ->
  Reads (dispatch fuel depth mode tag) bs (expected mode v) ->
  Reads (decode_mode (S fuel) depth vb L MARKER_VERSION mode) (tag :: bs) (expected mode v).
Proof.
  intros Hv Hd. cbn [decode_mode]. apply (reads_skip _ _ _ tt); [apply reads_component|].
  apply (log_reads_bind _ _ [tag] bs tag); [apply log_reads_u8|]. eapply log_reads_map; [exact Hd|].
  destruct mode; cbn [expected summary sum_value_bytes]; [done|]. by rewrite (proj2 (Z.ltb_ge _ _)).
Qed.

Lemma action_tag a : action_of_tag (marker_action_tag a) = Some a.
Proof. by destruct a. Qed.

Lemma kind_tag k t : native_kind_tag k = Ok t -> kind_of_tag t = Some k.
Proof. destruct k; cbn; intros [= <-]; done. Qed.

Lemma exact_kind v : root_mark v = false -> decoded_kind (exact_candidate v) = kind v.
Proof. by destruct v. Qed.

Lemma exact_mark v : candidate_has_marker (exact_candidate v) = root_mark v.
Proof. by destruct v. Qed.

Lemma reads_sequence mode utf8 b bs : put_bytes b = Ok bs -> zlen b <= vb -> (utf8 = true -> utf8_valid b = true) ->
  Reads (sequence vb mode utf8) bs (match mode with
    | Build => Built (if utf8 then CString (exact b) else CBytes (exact b))
    | ValidateOnly => Validated (mkValueSummary (zlen b) (zlen b) false false) end).
Proof.
  intros Hp Hm Hu. eapply log_reads_map; [by apply reads_bytes_slice|].
  replace (utf8 && negb (utf8_valid b)) with false by (destruct utf8; [by rewrite Hu|done]).
  destruct mode; [|apply log_reads_ret]. eapply reads_skip; [apply reads_try_string|]. apply log_reads_ret.
Qed.

(** The accumulator of a collection after some of its elements. *)
Definition gathered_of {A B} (mode : DecodeMode) (build : A -> B) (sum : list A -> ValueSummary) (l : list A) : gathered B :=
  match mode with Build => inl (rev (map build l)) | ValidateOnly => inr (sum l) end.
Definition array_summary (vs : list ValidatedAttributeValue) : ValueSummary :=
  mkValueSummary (zsum payload_size vs) (zsum decoded_total vs) (existsb has_mark vs) false.
Definition list_summary (es : list ValidatedKeyValue) : ValueSummary :=
  mkValueSummary (zsum (fun '(_, v) => payload_size v) es) (zsum (fun '(k, v) => rs_len k + decoded_total v) es)
    (existsb (fun '(_, v) => has_mark v) es) false.

Lemma size_add_ok a b : a + b <= usize_max -> size_add a b = Ok (a + b).
Proof. intros H. unfold size_add. by rewrite checked_add_ok. Qed.

Lemma existsb_snoc {A} (f : A -> bool) l x : existsb f (l ++ [x]) = existsb f l || f x.
Proof. rewrite existsb_app. cbn. by rewrite orb_false_r. Qed.

Lemma zsum_prefix {A} (f : A -> Z) l pre x post : (forall a, 0 <= f a) -> l = pre ++ x :: post -> zsum f pre + f x <= zsum f l.
Proof.
  intros Hf ->. rewrite zsum_app, zsum_cons. enough (0 <= zsum f post) by lia. apply zsum_nonneg. auto.
Qed.

Lemma reads_reserve mode n : Reads (reserve_elements mode n) [] tt.
Proof. by destruct mode. Qed.

Lemma all_of_In {A} (P : A -> Prop) l pre x post : all_of P l -> l = pre ++ x :: post -> P x.
Proof. intros Hl%all_of_Forall ->. apply Forall_app in Hl as [_ Hl]. by apply Forall_cons in Hl as [Hx _]. Qed.

Lemma each_length {A} (f : A -> result LogStoreFailure bytes) l pre x post bs b : l = pre ++ x :: post -> each f l = Ok bs ->
  f x = Ok b -> (length b <= length bs)%nat.
Proof.
  intros ->. revert bs. induction pre as [|y pre IH]; cbn [app]; intros bs H Hx; rewrite each_cons in H;
    apply then_Ok in H as (b1 & b2 & H1 & H2 & ->); rewrite length_app.
  - replace b1 with b by congruence. lia.
  - specialize (IH b2 H2 Hx). lia.
Qed.

(** The decoder of one element, read at every fuel that covers its bytes. *)
Definition reads_at (v : ValidatedAttributeValue) : Prop := forall depth fuel bs mode, codable v depth ->
  value_encode v depth = Ok bs -> (length bs <= fuel)%nat ->
  Reads (decode_mode fuel depth vb L MARKER_VERSION mode) bs (expected mode v).

Lemma reads_array_value vs cap depth fuel bs mode : Forall reads_at vs -> codable (VArray vs cap) depth ->
  put_count (zlen vs) +++ each (fun v => value_encode v (depth - 1)) vs = Ok bs -> (length bs <= fuel)%nat ->
  Reads (decode_array (fun d => decode_mode fuel d vb L MARKER_VERSION mode) depth L mode) bs (expected mode (VArray vs cap)).
Proof.
  intros Hvs (Hp & Hd & Hdepth & Hn & Hall) (b1 & b2 & Hb1 & Hb2 & ->)%then_Ok Hfuel. rewrite length_app in Hfuel. pose proof (zlen_nonneg vs) as Hz.
  apply (reads_skip _ _ _ (depth - 1)); [apply reads_of; rewrite checked_sub_ok by lia; done|].
  eapply log_reads_bind; [apply reads_count; [done|lia]|]. eapply reads_skip; [apply reads_reserve|]. unfold zlen at 1. rewrite Nat2Z.id.
  eapply log_reads_map.
  - change (gather_start mode) with (gathered_of mode exact_candidate array_summary []) at 1.
    apply (reads_loop (fun v => value_encode v (depth - 1))); [|exact Hb2]. intros pre x post b Hl Hx.
    pose proof (each_length _ _ _ _ _ _ _ Hl Hb2 Hx) as Hlen.
    assert (Hin : reads_at x). { subst vs. apply Forall_app in Hvs as [_ Hvs]. by apply Forall_cons in Hvs as [? _]. }
    pose proof (all_of_In _ _ _ _ _ Hall Hl) as Hc. eapply log_reads_map; [apply Hin; [exact Hc|done|lia]|].
    destruct mode; cbn [gathered_of expected].
    + rewrite map_app, rev_app_distr. apply log_reads_ret.
    + cbn [payload_size decoded_total] in Hp, Hd. pose proof (sizes_nonneg x) as Hsx.
      pose proof (zsum_prefix payload_size _ _ _ _ (fun a => proj1 (sizes_nonneg a)) Hl) as H1.
      pose proof (zsum_prefix decoded_total _ _ _ _ (fun a => ltac:(pose proof (sizes_nonneg a); lia)) Hl) as H2.
      assert (H3 : zsum payload_size vs <= zsum decoded_total vs) by (apply zsum_le; intros a _; apply sizes_nonneg).
      apply reads_of. cbn [sum_value_bytes sum_decoded_bytes sum_marker array_summary summary].
      rewrite !size_add_ok by lia. cbn. unfold array_summary. rewrite !zsum_app, existsb_snoc. cbn. by rewrite !Z.add_0_r.
  - destruct mode; cbn [gathered_of expected]; [rewrite rev_involutive|]; apply log_reads_ret.
Qed.

Definition encode_entry (depth : Z) (e : ValidatedKeyValue) : result LogStoreFailure bytes :=
  let '(k, v) := e in put_bytes (text k) +++ value_encode v depth.

Lemma each_entries depth es :
  foldr (fun '(k, v) rest => (put_bytes (text k) +++ value_encode v depth) +++ rest) (Ok []) es = each (encode_entry depth) es.
Proof. induction es as [|[k v] es IH]; [done|]. rewrite each_cons. cbn [foldr]. by rewrite IH. Qed.

Lemma reads_list_value es cap depth fuel bs mode : Forall (fun e => reads_at e.2) es -> codable (VKeyValueList es cap) depth ->
  put_count (zlen es) +++ each (encode_entry (depth - 1)) es = Ok bs -> (length bs <= fuel)%nat ->
  Reads (decode_key_value_list (fun d => decode_mode fuel d vb L MARKER_VERSION mode) depth L mode) bs (expected mode (VKeyValueList es cap)).
Proof.
  intros Hes (Hp & Hd & Hdepth & Hn & Hall) (b1 & b2 & Hb1 & Hb2 & ->)%then_Ok Hfuel. rewrite length_app in Hfuel. pose proof (zlen_nonneg es) as Hz.
  apply (reads_skip _ _ _ (depth - 1)); [apply reads_of; rewrite checked_sub_ok by lia; done|].
  eapply log_reads_bind; [apply reads_count; [done|lia]|]. eapply reads_skip; [apply reads_reserve|]. unfold zlen at 1. rewrite Nat2Z.id.
  set (build := fun '(k, v) => (exact (text k), exact_candidate v)).
  eapply log_reads_map.
  - change (gather_start mode) with (gathered_of mode build list_summary []) at 1.
    apply (reads_loop (encode_entry (depth - 1))); [|exact Hb2]. intros pre [k x] post b Hl Hx.
    pose proof (each_length _ _ _ _ _ _ _ Hl Hb2 Hx) as Hlen. apply then_Ok in Hx as (bk & bx & Hk & Hx & ->).
    rewrite length_app in Hlen. pose proof (all_of_In _ _ _ _ _ Hall Hl) as (Hk0 & Hklen & Hku & Hcx).
    assert (Hin : reads_at x). { subst es. apply Forall_app in Hes as [_ Hes]. by apply Forall_cons in Hes as [? _]. }
    eapply log_reads_bind; [by apply reads_string_slice|]. rewrite bool_decide_false by done.
    eapply log_reads_map; [apply Hin; [exact Hcx|done|lia]|].
    destruct mode; cbn [gathered_of expected].
    + rewrite map_app, rev_app_distr. eapply reads_skip; [apply reads_try_string|]. apply log_reads_ret.
    + cbn [payload_size decoded_total] in Hp, Hd. pose proof (sizes_nonneg x) as Hsx. pose proof (zlen_nonneg (text k)).
      pose proof (zsum_prefix (fun '(_, v) => payload_size v) _ _ _ _ (fun '(_, a) => proj1 (sizes_nonneg a)) Hl) as H1.
      pose proof (zsum_prefix (fun '(k, v) => rs_len k + decoded_total v) _ _ _ _
        (fun '(k', a) => ltac:(unfold rs_len; pose proof (sizes_nonneg a); pose proof (zlen_nonneg (text k')); lia)) Hl) as H2.
      assert (H3 : zsum (fun '(_, v) => payload_size v) es <= zsum (fun '(k, v) => rs_len k + decoded_total v) es).
      { apply zsum_le. intros [k' a] _. unfold rs_len. pose proof (sizes_nonneg a). pose proof (zlen_nonneg (text k')). lia. }
      unfold rs_len in *. apply reads_of. cbn [sum_value_bytes sum_decoded_bytes sum_marker list_summary summary]. unfold rs_len.
      rewrite size_add_ok by lia. cbn [mbind result_bind]. rewrite size_add_ok by lia. cbn [mbind result_bind].
      rewrite size_add_ok by lia. cbn. unfold list_summary. rewrite !zsum_app, existsb_snoc. cbn. unfold rs_len.
      by rewrite !Z.add_0_r, Z.add_assoc.
  - destruct mode; cbn [gathered_of expected]; [rewrite rev_involutive|]; apply log_reads_ret.
Qed.

Lemma value_encode_nonempty v depth bs : value_encode v depth = Ok bs -> (1 <= length bs)%nat.
Proof.
  intros H. destruct bs; [exfalso|cbn; lia].
  destruct v; cbn [value_encode] in H; try done; repeat (first [done | apply then_Ok in H as (? & ? & [= <-] & _ & H)
    | match type of H with mbind _ ?r = _ => destruct r; [cbn [mbind result_bind] in H|done] end]).
Qed.

(** In both modes the decoder of values reads back every codable value. *)
Lemma reads_value v : reads_at v.
Proof.
  induction v as [|b|z|z|p|p|vs cap IH|es cap IH|m|v a IH] using validated_ind'; intros depth fuel bs mode Hc He Hfuel;
    pose proof (codable_sizes _ _ Hc) as [Hp _]; pose proof (value_encode_nonempty _ _ _ He) as Hne;
    (destruct fuel as [|fuel]; [lia|]); cbn [value_encode] in He; try done.
  - injection He as <-. apply reads_mode; [done|]. destruct mode; apply log_reads_ret.
  - injection He as <-. apply reads_mode; [done|]. eapply log_reads_map; [apply log_reads_u8|]. destruct b, mode; apply log_reads_ret.
  - apply Ok_inj in He as <-. apply reads_mode; [done|]. destruct Hc as (_ & _ & Hz). eapply log_reads_map; [by apply reads_i64|].
    destruct mode; apply log_reads_ret.
  - apply Ok_inj in He as <-. apply reads_mode; [done|]. destruct Hc as (_ & _ & Hz). eapply log_reads_map; [by apply log_reads_u64|].
    destruct mode; apply log_reads_ret.
  - apply then_Ok in He as (? & b & [= <-] & He & ->). apply reads_mode; [done|]. destruct Hc as (_ & _ & Hu).
    pose proof (reads_sequence mode true (text p) b He Hp (fun _ => Hu)) as H. by destruct mode.
  - apply then_Ok in He as (? & b & [= <-] & He & ->). apply reads_mode; [done|].
    pose proof (reads_sequence mode false (text p) b He Hp ltac:(done)) as H. by destruct mode.
  - pose proof Hc as (_ & _ & Hdepth & _). rewrite checked_sub_ok in He by lia. cbn [ok_or mbind result_bind] in He.
    apply then_Ok in He as (? & b & [= <-] & He & ->). apply reads_mode; [done|]. cbn in Hfuel.
    apply reads_array_value; [done|done|done|lia].
  - pose proof Hc as (_ & _ & Hdepth & _). rewrite checked_sub_ok in He by lia. cbn [ok_or mbind result_bind] in He.
    apply then_Ok in He as (? & b & [= <-] & He & ->). apply reads_mode; [done|]. cbn in Hfuel.
    rewrite each_entries in He. apply reads_list_value; [done|done|done|lia].
  - destruct (native_kind_tag _) as [t|] eqn:Ht; [|done]. injection He as <-. apply reads_mode; [done|].
    destruct Hc as (_ & _ & Hm). eapply (log_reads_bind _ _ [_]); [apply log_reads_u8|].
    eapply reads_skip; [apply reads_of; by rewrite action_tag|]. eapply log_reads_map; [apply log_reads_u8|].
    eapply reads_skip; [apply reads_of; by rewrite (kind_tag _ _ Ht)|].
    unfold marker_is_valid in Hm. destruct m as [k a]; cbn in *. destruct a; [..|by destruct (bool_decide _)|by destruct (bool_decide _)];
      destruct mode; apply log_reads_ret.
  - destruct (native_kind_tag _) as [t|] eqn:Ht; [|done]. cbn [mbind result_bind] in He.
    apply then_Ok in He as (? & b & [= <-] & He & ->). apply reads_mode; [done|]. cbn in Hfuel.
    destruct Hc as (_ & _ & Hroot & Hva & Hc). cbn [app]. eapply (log_reads_bind _ _ [_]); [apply log_reads_u8|].
    eapply reads_skip; [apply reads_of; by rewrite action_tag|]. eapply (log_reads_bind _ _ [_]); [apply log_reads_u8|].
    eapply reads_skip; [apply reads_of; by rewrite (kind_tag _ _ Ht)|].
    assert (Hchild : Reads (decode_mode fuel depth vb L MARKER_VERSION mode) b (expected mode v)) by (apply IH; [done|done|lia]).
    destruct a; [by destruct (kind v)|by destruct (kind v)|..]; (eapply log_reads_map; [exact Hchild|]); destruct mode;
      cbn [expected summary sum_policy_root sum_value_bytes sum_decoded_bytes]; rewrite ?exact_kind, ?exact_mark, ?Hroot, ?Hva by done;
      rewrite ?bool_decide_true by done; apply log_reads_ret.
Qed.

Lemma reads_with_fuel {A} (f : nat -> Dec unit A) bs a : (forall fuel, (length bs <= fuel)%nat -> Reads (f fuel) bs a) -> Reads (with_fuel f) bs a.
Proof. intros Hf rest. apply Hf. cbn [remaining Input_new]. rewrite length_app. lia. Qed.

Lemma reads_value_decode v depth bs : codable v depth -> value_encode v depth = Ok bs ->
  Reads (value_decode depth vb L MARKER_VERSION) bs (exact_candidate v).
Proof.
  intros Hc He. eapply log_reads_map; [apply reads_with_fuel; intros; by apply (reads_value v _ _ _ Build)|]. apply log_reads_ret.
Qed.

Lemma reads_value_validate v depth bs : codable v depth -> value_encode v depth = Ok bs ->
  Reads (value_validate depth vb L MARKER_VERSION) bs (summary v).
Proof.
  intros Hc He. eapply log_reads_map; [apply reads_with_fuel; intros; by apply (reads_value v _ _ _ ValidateOnly)|]. apply log_reads_ret.
Qed.
End reads.
Create HintDb reads.
#[export] Hint Resolve log_reads_ret reads_component log_reads_u8 reads_vec reads_try_string : reads.
