(* ===== verification/ValueLayout.v ===== *)
(** The bytes of a native value in a block.

    The log store and the trace store write attribute values in one format, given here as a
    function from values to bytes. What a block bounds: the decoded bytes of a value and the heap
    that decoding it needs. What validation under a set of limits gives a codec: a value that
    passes the shape check is within the codec's limits, and passes validation again. *)

From S2P Require Import Prelude Outcome Limits SourceTime Values Observe Traversal Validation Shape CanonicalEncoding Occurrences PolicyModel PolicyCodec RetentionTime LogStore LogCodec LogReads.

#[local] Existing Instance ExactAllocator.

(** ** The format *)

(** The number of a kind; markers have none and are written as what they mark. *)
Definition kind_number (k : AttributeValueKind) : Z := match native_kind_tag k with Ok t => t | Err _ => 0 end.

Definition text_layout (b : bytes) : bytes := be_bytes 4 (zlen b) ++ b.

Fixpoint value_layout (v : ValidatedAttributeValue) : bytes :=
  match v with
  | VNull => [0]
  | VBoolean b => [1; if b then 1 else 0]
  | VSignedInteger z => 2 :: be_bytes 8 z
  | VFloatingPointBits z => 3 :: be_bytes 8 z
  | VString t => 4 :: text_layout (text t)
  | VBytes t => 5 :: text_layout (text t)
  | VArray vs _ => 6 :: be_bytes 2 (zlen vs) ++ flat_map value_layout vs
  | VKeyValueList es _ => 7 :: be_bytes 2 (zlen es) ++ flat_map (fun '(k, v) => text_layout (text k) ++ value_layout v) es
  | VMarker m => [8; marker_action_tag (action m); kind_number (original_kind m)]
  | VTruncated v a => 8 :: marker_action_tag a :: kind_number (kind v) :: value_layout v
  end.

Definition entry_layout (e : ValidatedKeyValue) : bytes := let '(k, v) := e in text_layout (text k) ++ value_layout v.

Lemma zlen_text_layout b : zlen (text_layout b) = 4 + zlen b.
Proof. unfold text_layout. by rewrite zlen_app, zlen_be_bytes. Qed.

Lemma each_layout {A} (f : A -> result LogStoreFailure bytes) (g : A -> bytes) l bs :
  Forall (fun a => forall b, f a = Ok b -> b = g a) l -> each f l = Ok bs -> bs = flat_map g l.
Proof.
  intros Hl. revert bs. induction Hl as [|a l Ha _ IH]; intros bs H; [by injection H|].
  rewrite each_cons in H. apply then_Ok in H as (b1 & b2 & H1 & H2 & ->). cbn. by rewrite (Ha _ H1), (IH _ H2).
Qed.

Lemma put_bytes_layout b bs : put_bytes b = Ok bs -> bs = text_layout b.
Proof. unfold put_bytes. destruct (_ <=? _); [|done]. by intros <-%Ok_inj. Qed.

(** The encoder of the log store writes the format. *)
Lemma encode_layout v depth bs : value_encode v depth = Ok bs -> bs = value_layout v.
Proof.
  revert depth bs. induction v as [|b|z|z|p|p|vs cap IH|es cap IH|m|v a IH] using validated_ind'; intros depth bs H; cbn [value_encode] in H; cbn [value_layout].
  1-4: by apply Ok_inj in H as <-.
  1-2: by apply then_Ok in H as (? & b & <-%Ok_inj & ->%put_bytes_layout & ->).
  - destruct (checked_sub depth 1) as [d|]; [|done]. cbn [ok_or mbind result_bind] in H. apply then_Ok in H as (? & b & <-%Ok_inj & H & ->).
    apply then_Ok in H as (b1 & b2 & [_ ->]%put_count_inv & Hb & ->). cbn [app]. do 2 f_equal.
    apply (each_layout (fun v => value_encode v d)); [|exact Hb]. eapply Forall_impl; [exact IH|]. intros v Hv b. apply Hv.
  - destruct (checked_sub depth 1) as [d|]; [|done]. cbn [ok_or mbind result_bind] in H. apply then_Ok in H as (? & b & <-%Ok_inj & H & ->).
    apply then_Ok in H as (b1 & b2 & [_ ->]%put_count_inv & Hb & ->). rewrite each_entries in Hb. cbn [app]. do 2 f_equal.
    apply (each_layout (encode_entry d)); [|exact Hb]. eapply Forall_impl; [exact IH|]. intros [k v] Hv b Hkb. cbn in Hv.
    apply then_Ok in Hkb as (bk & bv & ->%put_bytes_layout & Hbv & ->). by rewrite (Hv _ _ Hbv).
  - unfold kind_number. destruct (native_kind_tag _) as [t|]; [|done]. by apply Ok_inj in H as <-.
  - unfold kind_number. destruct (native_kind_tag _) as [t|]; [|done]. cbn [mbind result_bind] in H. apply then_Ok in H as (? & b & <-%Ok_inj & Hb & ->).
    by rewrite (IH _ _ Hb).
Qed.

(** *** What the layout bounds *)

Section bounds.
Context {Lay : Layout}.

(** The decoded bytes and the heap that a value needs, against the bytes of its layout. *)
Definition covered (v : ValidatedAttributeValue) : Prop :=
  1 <= zlen (value_layout v) /\ decoded_total v <= zlen (value_layout v) /\ heap_demand (exact_candidate v) <= 256 * zlen (value_layout v) - 128.

Lemma covered_elements vs : Forall covered vs ->
  zsum decoded_total vs <= zlen (flat_map value_layout vs) /\
  foldr (fun c acc => heap_demand c + acc) 0 (map exact_candidate vs) + 128 * zlen vs <= 256 * zlen (flat_map value_layout vs).
Proof.
  induction 1 as [|v vs Hv _ IH]; [unfold zlen; cbn; lia|]. unfold covered in Hv. rewrite zsum_cons, zlen_cons. cbn [map foldr flat_map]. rewrite zlen_app. lia.
Qed.

Lemma covered_entries es : Forall (fun e => covered e.2) es ->
  zsum (fun '(k, v) => rs_len k + decoded_total v) es <= zlen (flat_map entry_layout es) /\
  foldr (fun '(k, c) acc => capacity k + heap_demand c + acc) 0 (map (fun '(k, v) => (exact (text k), exact_candidate v)) es) + 128 * zlen es
    <= 256 * zlen (flat_map entry_layout es).
Proof.
  induction 1 as [|[k v] es Hv _ IH]; [unfold zlen; cbn; lia|]. unfold covered in Hv. rewrite zsum_cons, zlen_cons. cbn [map foldr flat_map entry_layout capacity exact snd] in *.
  rewrite !zlen_app, zlen_text_layout. unfold rs_len in *. pose proof (zlen_nonneg (text k)). lia.
Qed.

Lemma value_covered v : covered v.
Proof.
  pose proof size_of_within_slot as Hslot.
  induction v as [|b|z|z|p|p|vs cap IH|es cap IH|m|v a IH] using validated_ind'; unfold covered;
    cbn [decoded_total exact_candidate heap_demand capacity exact value_layout]; unfold ARRAY_VALUE_SLOT_BYTES, KEY_VALUE_ENTRY_SLOT_BYTES, rs_len.
  1-4: do 2 zlens; lia.
  1-2: do 2 zlens; rewrite zlen_text_layout; pose proof (zlen_nonneg (text p)); lia.
  - apply covered_elements in IH as [H1 H2]. do 2 zlens. pose proof (zlen_nonneg vs). pose proof (zlen_nonneg (flat_map value_layout vs)). lia.
  - apply covered_entries in IH as [H1 H2]. change (flat_map (fun '(k, v) => text_layout (text k) ++ value_layout v) es) with (flat_map entry_layout es).
    do 2 zlens. unfold rs_len in *. pose proof (zlen_nonneg es). pose proof (zlen_nonneg (flat_map entry_layout es)). lia.
  - do 2 zlens. lia.
  - unfold covered in IH. do 2 zlens. lia.
Qed.
End bounds.

(** ** From validation to the codec *)

(** The Rust types of the parts of a value: [i64], the bits of an [f64], [String]. *)
Fixpoint native_typed (n : NativeValue) : Prop :=
  match n with
  | NSignedInteger z => i64_min <= z <= i64_max
  | NFloatingPointBits z => in_u u64_max z
  | NString s => utf8_valid s = true
  | NArray vs => all_of native_typed vs
  | NKeyValueList es => all_of (fun '(k, v) => utf8_valid k = true /\ native_typed v) es
  | NTruncated v _ => native_typed v
  | _ => True
  end.

Lemma exact_native v : candidate_native (exact_candidate v) = validated_native v.
Proof.
  induction v as [|b|z|z|p|p|vs cap IH|es cap IH|m|v a IH] using validated_ind'; cbn; try done.
  - f_equal. rewrite map_map. apply map_ext_Forall. exact IH.
  - f_equal. rewrite map_map. apply map_ext_Forall. eapply Forall_impl; [exact IH|]. intros [k v] H. cbn in *. by rewrite H.
  - by rewrite IH.
Qed.

Lemma exact_capacities v : candidate_capacities_ok (exact_candidate v).
Proof.
  induction v as [|b|z|z|p|p|vs cap IH|es cap IH|m|v a IH] using validated_ind'; cbn; try done.
  - apply all_of_Forall, Forall_map. exact IH.
  - apply all_of_Forall, Forall_map. eapply Forall_impl; [exact IH|]. intros [k v] H. cbn in *. done.
Qed.

Lemma total_member vs cap v : v ∈ vs -> decoded_total v <= decoded_total (VArray vs cap).
Proof.
  intros [pre [post ->]]%list_elem_of_split. cbn [decoded_total].
  apply Z.le_trans with (zsum decoded_total pre + decoded_total v); [|apply (zsum_prefix _ _ pre v post);
    [intros a; pose proof (sizes_nonneg a); lia|done]].
  enough (0 <= zsum decoded_total pre) by lia. apply zsum_nonneg. intros a _. pose proof (sizes_nonneg a). lia.
Qed.

Lemma total_entry es cap k v : (k, v) ∈ es -> decoded_total v <= decoded_total (VKeyValueList es cap).
Proof.
  intros [pre [post ->]]%list_elem_of_split. cbn [decoded_total].
  assert (Hnn : forall e : RString * ValidatedAttributeValue, 0 <= (let '(k, v) := e in rs_len k + decoded_total v)).
  { intros [k' a]. pose proof (sizes_nonneg a). unfold rs_len. pose proof (zlen_nonneg (text k')). lia. }
  pose proof (zsum_prefix _ _ pre (k, v) post Hnn eq_refl) as H. cbn in H.
  assert (0 <= zsum (fun '(k, v) => rs_len k + decoded_total v) pre) by (apply zsum_nonneg; intros a _; apply Hnn).
  unfold rs_len in *. pose proof (zlen_nonneg (text k)). lia.
Qed.

(** The limits of a codec that are those of a set of value limits. *)
Record limits_match (lims : ValueLimitSet) (L : CodecLimits) : Prop := {
  lm_array : lim_array_entries L = collection_limit (array_entries (dynamic_value lims));
  lm_list : lim_key_value_list_entries L = collection_limit (key_value_list_entries (dynamic_value lims));
  lm_key : lim_key_bytes L = byte_limit (key_path_bytes (dynamic_value lims));
}.

(** A value that was accepted under limits, with a ceiling of [vb] bytes. *)
Record value_fits (lims : ValueLimitSet) (depth vb : Z) (v : ValidatedAttributeValue) : Prop := {
  vf_typed : native_typed (validated_native v);
  vf_shape : exists n, shape_validate (exact_candidate v) lims (mkByteLimit vb) depth = Ok n;
}.

(** Any bound on the bytes of a block that leaves the address space wide enough. *)
Definition block_bound : Z := 1099511627776.

Section shapes.
Context {Lay : Layout} (lims : ValueLimitSet) (L : CodecLimits) (HL : limits_match lims L).

(** A value that passes the shape check as a candidate is codable, at the size of the check. *)
Definition shape_gives_codable (vb : Z) (v : ValidatedAttributeValue) : Prop := forall depth n,
  native_typed (validated_native v) -> decoded_total v <= usize_max ->
  shape_validate (exact_candidate v) lims (mkByteLimit vb) depth = Ok n -> codable L vb v depth /\ payload_size v = n.

Lemma shape_elements vb depth vs : Forall (shape_gives_codable vb) vs -> Forall (fun v => native_typed (validated_native v)) vs ->
  (forall v, v ∈ vs -> decoded_total v <= usize_max) -> forall acc n,
  try_fold (shape_step lims (mkByteLimit vb) depth) acc (map exact_candidate vs) = Ok n ->
  Forall (fun v => codable L vb v depth) vs /\ n = acc + zsum payload_size vs.
Proof.
  induction vs as [|v vs IHvs]; intros IH Ht Hsub acc n H; cbn [map try_fold] in H.
  - injection H as <-. cbn. by split; [constructor|lia].
  - apply Forall_cons in IH as [IHv IH]. apply Forall_cons in Ht as [Hv Ht].
    destruct (shape_step lims (mkByteLimit vb) depth acc (exact_candidate v)) as [acc'|] eqn:Hstep; [|done].
    apply shape_step_inv in Hstep as (k & Hk & -> & _).
    destruct (IHv depth k Hv ltac:(apply Hsub, list_elem_of_here) Hk) as [Hc Hp].
    destruct (IHvs IH Ht ltac:(intros; apply Hsub; by apply list_elem_of_further) _ _ H) as [Hall ->].
    split; [by constructor|]. rewrite zsum_cons. lia.
Qed.

Definition key_codable (k : RString) : Prop := text k <> [] /\ rs_len k <= lim_key_bytes L /\ utf8_valid (text k) = true.

Lemma shape_entries vb depth es : Forall (fun e => shape_gives_codable vb e.2) es ->
  Forall (fun '(k, v) => utf8_valid (text k) = true /\ native_typed (validated_native v)) es ->
  (forall k v, (k, v) ∈ es -> decoded_total v <= usize_max) -> forall acc n,
  try_fold (entry_shape_step lims (mkByteLimit vb) depth) acc (map (fun '(k, v) => (exact (text k), exact_candidate v)) es) = Ok n ->
  Forall (fun '(k, v) => key_codable k /\ codable L vb v depth) es /\ n = acc + zsum (fun '(_, v) => payload_size v) es.
Proof.
  induction es as [|[k v] es IHes]; intros IH Ht Hsub acc n H; cbn [map try_fold] in H.
  - injection H as <-. cbn. by split; [constructor|lia].
  - apply Forall_cons in IH as [IHv IH]. apply Forall_cons in Ht as [[Hu Hv] Ht].
    destruct (entry_shape_step lims (mkByteLimit vb) depth acc (exact (text k), exact_candidate v)) as [acc'|] eqn:Hstep; [|done].
    apply entry_step_inv in Hstep as [[Hk0 Hkl]%orb_false_iff (j & Hj & -> & _)%shape_step_inv].
    apply bool_decide_eq_false in Hk0. unfold exceeds_byte_limit in Hkl. apply Z.ltb_ge in Hkl.
    destruct (IHv depth j Hv ltac:(eapply Hsub, list_elem_of_here) Hj) as [Hc Hp].
    destruct (IHes IH Ht ltac:(intros k' v' Hin; apply (Hsub k'); by apply list_elem_of_further) _ _ H) as [Hall ->].
    cbn in Hc, Hp. split; [constructor; [split; [|done]|done]|].
    + split; [done|]. split; [by rewrite (lm_key _ _ HL)|done].
    + rewrite zsum_cons. cbv beta iota. lia.
Qed.

Lemma shape_codable vb v : shape_gives_codable vb v.
Proof.
  induction v as [|b|z|z|p|p|vs cap IH|es cap IH|m|v a IH] using validated_ind'; intros depth n Ht Hd H;
    cbn [exact_candidate shape_validate] in H; apply shape_tail in H as [H Hn]; cbn [byte_limit] in Hn; cbn [validated_native native_typed] in Ht.
  1-6: apply Ok_inj in H; cbn [codable payload_size decoded_total] in *; unfold rs_len, exact in *; cbn in *; subst n; done.
  - destruct (checked_sub depth 1) as [d|] eqn:Hdep; [|done]. apply checked_sub_Some in Hdep as [-> Hdep].
    cbn [ok_or mbind result_bind] in H. rewrite zlen_map in H. destruct (exceeds_collection_limit _ _) eqn:Hex; [done|].
    apply Z.ltb_ge in Hex. apply all_of_Forall in Ht. rewrite Forall_map in Ht.
    apply (shape_elements vb (depth - 1) vs IH Ht) in H as [Hall ->]; [|intros v Hv; pose proof (total_member vs cap v Hv); lia].
    cbn [codable payload_size]. rewrite (lm_array _ _ HL). split; [|lia]. split_and!; [lia|done|lia|done|]. by apply all_of_Forall.
  - destruct (checked_sub depth 1) as [d|] eqn:Hdep; [|done]. apply checked_sub_Some in Hdep as [-> Hdep].
    cbn [ok_or mbind result_bind] in H. rewrite zlen_map in H. destruct (exceeds_collection_limit _ _) eqn:Hex; [done|].
    apply Z.ltb_ge in Hex. apply all_of_Forall in Ht. rewrite Forall_map in Ht.
    apply (shape_entries vb (depth - 1) es IH) in H as [Hall ->];
      [|eapply Forall_impl; [exact Ht|by intros [k v]]|intros k v Hv; pose proof (total_entry es cap k v Hv); lia].
    cbn [codable payload_size]. rewrite (lm_list _ _ HL). split; [|lia]. split_and!; [lia|done|lia|done|]. apply all_of_Forall.
    eapply Forall_impl; [exact Hall|]. intros [k v] [(? & ? & ?) ?]. done.
  - destruct (marker_is_valid m) eqn:Hm; [|done]. injection H as <-. by cbn.
  - unfold truncation_shape_ok in H. destruct (is_marker_candidate _ || is_truncated_candidate _) eqn:Hr; [done|].
    destruct (candidate_native_kind (exact_candidate v)) as [k|] eqn:Hk; [|done]. cbn [ok_or mbind result_bind] in H.
    destruct (truncation_action_valid a k) eqn:Ha; [|done]. destruct (IH depth n Ht Hd H) as [Hc Hp].
    cbn [codable payload_size]. split; [|done]. split_and!; [lia|done|by destruct v| |done].
    assert (kind v = k) as -> by (destruct v; cbn in *; congruence). by destruct a, k.
Qed.

Lemma fits_codable depth vb v : value_fits lims depth vb v -> zlen (value_layout v) <= block_bound -> codable L vb v depth /\ payload_size v <= vb.
Proof.
  intros [Ht [n Hs]] Hb. pose proof (value_covered v) as Hc. unfold covered, block_bound in *.
  destruct (shape_codable vb v depth n Ht) as [Hcv Hp]; [unfold usize_max; lia|done|].
  split; [done|]. by apply codable_sizes in Hcv as [? _].
Qed.

Lemma fits_validate depth vb v : value_fits lims depth vb v -> 8 <= vb -> zlen (value_layout v) <= block_bound ->
  exists v', validate_attribute_value (exact_candidate v) lims (mkByteLimit vb) depth tt = (tt, Ok v') /\ validated_native v' = validated_native v.
Proof.
  intros [Ht [n Hs]] Hvb Hb. pose proof (value_covered v) as Hc. unfold covered, block_bound in *.
  destruct (validation_complete lims (mkByteLimit vb) (exact_candidate v) depth n (exact_capacities v)) as (t & Hval & _);
    [unfold usize_max; lia|done|].
  exists (value t). unfold validate_attribute_value, validate_attribute_value_observed, mbind, M_bind. rewrite Hval. split; [done|].
  rewrite <- (exact_native v).
  apply (validation_facts (Obs := UnobservedNativeValue unit) lims (mkByteLimit vb) ltac:(cbn; lia) _ depth (exact_capacities v) _ _ _ Hval).
Qed.
End shapes.
