(* ===== verification/LogRoundtrip.v ===== *)
(** Log store: a block reads back as the records it was made from.

    [record_ok] is what the types and the constructors of the log store guarantee of a record; the
    view of a record is everything but the capacities of its strings
    and vectors, which is what equality of records observes. *)

From S2P Require Import Prelude Outcome Identity Limits SourceTime Values Observe Traversal Validation Shape CanonicalEncoding Occurrences PolicyModel PolicyCodec PolicyEvaluation RetentionTime LogStore LogCodec LogReads ValueLayout.

#[local] Existing Instance ExactAllocator.

(** ** Values *)

(** The limits of release 1, computed. *)
Definition limits_1 : CodecLimits := mkCodecLimits 1024 3072 1024 128 262144 1048576 65536 65536 1024 1024.

Lemma release_1_value : release_1 = Ok limits_1.
Proof. reflexivity. Qed.

Abbreviation system := (effective_limits value_profile).

Lemma limits_1_match : limits_match system limits_1.
Proof. by split. Qed.

(** A value that the log store accepted under a ceiling of [vb] bytes. *)
Abbreviation value_ok := (value_fits system 128).

Lemma put_bytes_inv b bs : put_bytes b = Ok bs -> zlen bs = 4 + zlen b.
Proof. intros ->%put_bytes_layout. apply zlen_text_layout. Qed.

Section values.
Context {Lay : Layout}.

Lemma value_ok_codable vb v bs : value_ok vb v -> value_encode v 128 = Ok bs -> zlen bs <= block_bound ->
  codable limits_1 vb v 128 /\ payload_size v <= vb.
Proof. intros Hv ->%encode_layout Hb. by apply (fits_codable system limits_1 limits_1_match). Qed.

Lemma validate_exact vb v bs : value_ok vb v -> 8 <= vb -> value_encode v 128 = Ok bs -> zlen bs <= block_bound ->
  exists v', validate_attribute_value (exact_candidate v) system (mkByteLimit vb) 128 tt = (tt, Ok v') /\
    validated_native v' = validated_native v.
Proof. intros Hv Hvb ->%encode_layout Hb. by apply fits_validate. Qed.
End values.

(** ** Sizes that depend on the native value only *)

Fixpoint native_decoded_size (n : NativeValue) : result DomainFailure Z :=
  match n with
  | NNull | NMarker _ => Ok 0
  | NBoolean _ => Ok 1
  | NSignedInteger _ | NFloatingPointBits _ => Ok 8
  | NString s | NBytes s => Ok (zlen s)
  | NArray vs => try_fold (fun total v => size ← native_decoded_size v; checked_decoded_add total size) 0 vs
  | NKeyValueList es => try_fold (fun total '(k, v) =>
      total ← checked_decoded_add total (zlen k);
      size ← native_decoded_size v;
      checked_decoded_add total size) 0 es
  | NTruncated v _ => native_decoded_size v
  end.

Lemma try_fold_map {E A B C} (f : C -> B -> result E C) (g : A -> B) (h : C -> A -> result E C) l acc :
  (forall c a, a ∈ l -> h c a = f c (g a)) -> try_fold h acc l = try_fold f acc (map g l).
Proof.
  revert acc. induction l as [|a l IH]; intros acc Hg; [done|]. cbn [try_fold map]. rewrite Hg by apply list_elem_of_here.
  destruct (f acc (g a)); [|done]. apply IH. intros c b Hb. apply Hg. by apply list_elem_of_further.
Qed.

Lemma decoded_size_native v : decoded_size_bytes v = native_decoded_size (validated_native v).
Proof.
  induction v as [|b|z|z|p|p|vs cap IH|es cap IH|m|v a IH] using validated_ind'; cbn [decoded_size_bytes validated_native native_decoded_size]; try done.
  - rewrite Forall_forall in IH. apply try_fold_map. intros c v Hv. by rewrite IH.
  - rewrite Forall_forall in IH. apply try_fold_map. intros c [k v] Hv. specialize (IH _ Hv). cbn in *. by rewrite IH.
Qed.

(** ** Views *)

Definition attribute_view (a : StoredLogAttribute) :=
  let set := stored_occurrences a in
  (representation a, namespace set, text (key set), map validated_native (occurrences set)).
Definition provenance_view (p : PolicyProvenance) := (prov_generation p, prov_digest p, map text (applied_rules p)).
Definition record_view (r : LogRecord) :=
  (event_time r, observed_time r, validated_native <$> body r, map attribute_view (record_attributes r), metadata r,
   provenance_view (policy_provenance r)).
Definition stored_view (r : StoredLogRecord) := (record_view (log_record_of r), ingest_time_of r).

Lemma occurrence_bytes_view vs ws : map validated_native vs = map validated_native ws -> occurrence_bytes vs = occurrence_bytes ws.
Proof.
  intros H. unfold occurrence_bytes.
  set (f := fun total n => size ← map_err log_domain (native_decoded_size n); ok_or limit_exceeded (checked_add usize_max total size)).
  rewrite (try_fold_map f validated_native _ vs), (try_fold_map f validated_native _ ws), H; try done;
    intros; unfold f; by rewrite decoded_size_native.
Qed.

Lemma check_attribute_view v a a' : attribute_view a = attribute_view a' -> check_attribute v a = check_attribute v a'.
Proof.
  destruct a as [r [ns k vs c]], a' as [r' [ns' k' vs' c']]. unfold attribute_view. cbn [stored_occurrences occurrences key namespace representation]. intros [= -> -> Hk Hv].
  unfold check_attribute, set_len, rs_len. cbn [stored_occurrences occurrences key namespace]. rewrite Hk, (occurrence_bytes_view _ _ Hv).
  by rewrite <- (zlen_map validated_native vs), Hv, zlen_map.
Qed.

Lemma check_attributes_view v l l' : map attribute_view l = map attribute_view l' ->
  try_fold check_attribute v l = try_fold check_attribute v l'.
Proof.
  revert v l'. induction l as [|a l IH]; intros v [|a' l'] H; try done.
  cbn [map] in H. pose proof (f_equal (fun l => head l) H) as Ha. pose proof (f_equal (fun l => tail l) H) as Hl. cbn in Ha, Hl.
  apply Some_inj in Ha. cbn [try_fold]. rewrite (check_attribute_view v a a' Ha).
  destruct (check_attribute v a'); [|done]. by apply IH.
Qed.

(** The semantic check of a record looks at its view only. *)
Lemma checked_native_view profile e o b b' l l' m p p' : validated_native <$> b = validated_native <$> b' ->
  map attribute_view l = map attribute_view l' -> is_ok (checked_native profile e o b l m p) = true ->
  checked_native profile e o b' l' m p' = Ok (mkLogRecord e o b' l' m p').
Proof.
  intros Hb Hl. unfold checked_native.
  replace (match b' with Some b => map_err log_domain (decoded_size_bytes b) | None => Ok 0 end)
    with (match b with Some b => map_err log_domain (decoded_size_bytes b) | None => Ok 0 end)
    by (destruct b, b'; try done; injection Hb as Hb; by rewrite !decoded_size_native, Hb).
  destruct (match b with Some _ => _ | None => _ end) as [n|]; [|done]. cbn [mbind result_bind].
  destruct (observe_body _ _) as [v|]; [|done]. cbn [mbind result_bind]. rewrite <- (check_attributes_view v l l' Hl).
  destruct (try_fold _ _ _) as [v'|]; [|done]. cbn [mbind result_bind].
  destruct (ok_or _ _) as [k|]; [|done]. cbn [mbind result_bind]. by destruct (observe_metadata _ _).
Qed.

(** ** The parts of a record *)

(** What the constructors of the log store guarantee. *)
Definition i64_ok (z : Z) : Prop := i64_min <= z <= i64_max.
Definition event_ok (e : EventTime) : Prop :=
  e = EventTime_missing \/ exists i q, i64_ok (nanos i) /\ EventTime_received i q = Ok e.
Definition observed_ok (o : ObservedTime) : Prop := exists i q, i64_ok (nanos i) /\ ObservedTime_received i q = Ok o.
Definition id_ok (n : Z) (id : option bytes) : Prop := match id with Some id => zlen id = n | None => True end.

Record metadata_ok (m : LogMetadata) : Prop := {
  mo_severity : i32_min <= severity_number m <= i32_max;
  mo_trace : id_ok 16 (trace_id m);
  mo_span : id_ok 8 (span_id m);
  mo_flags : in_u u32_max (flags m);
  mo_dropped : in_u u32_max (dropped_attributes_count m);
  mo_resource : in_u u32_max (resource_dropped_attributes_count m);
  mo_scope : in_u u32_max (scope_dropped_attributes_count m);
  mo_utf8 : Forall (fun s => utf8_valid s = true /\ zlen s <= 1048576)
    [severity_text m; event_name m; resource_schema_url m; scope_name m; scope_version m; scope_schema_url m];
}.

Record attribute_ok (a : StoredLogAttribute) : Prop := {
  ao_key : utf8_valid (text (key (stored_occurrences a))) = true;
  ao_shape : set_shape_rejected (text (key (stored_occurrences a))) (set_len (stored_occurrences a)) system = false;
  ao_values : Forall (value_ok 65536) (occurrences (stored_occurrences a));
}.

Record provenance_ok (p : PolicyProvenance) : Prop := {
  po_generation : in_u u64_max (prov_generation p);
  po_digest : zlen (prov_digest p) = 32;
  po_rules : Forall (fun rule => utf8_valid (text rule) = true) (applied_rules p);
  po_parts : is_ok (validate_parts (prov_generation p) (prov_digest p) (map text (applied_rules p))) = true;
}.

(** A record as its constructor admits it, with no more attribute groups than the decoder counts. *)
Record record_ok (r : LogRecord) : Prop := {
  ro_event : event_ok (event_time r);
  ro_observed : match observed_time r with Some o => observed_ok o | None => True end;
  ro_metadata : metadata_ok (metadata r);
  ro_body : match body r with Some b => value_ok 262144 b | None => True end;
  ro_attributes : Forall attribute_ok (record_attributes r);
  ro_groups : zlen (record_attributes r) <= 3072;
  ro_provenance : provenance_ok (policy_provenance r);
  ro_native : is_ok (checked_native value_profile (event_time r) (observed_time r) (body r) (record_attributes r) (metadata r)
                       (policy_provenance r)) = true;
}.

Section records.
Context {Lay : Layout} {Env : ScanEnvironment unit}.

(** A loop that gathers one related element per step. *)
Lemma reads_gather {A B} (f : A -> result LogStoreFailure bytes) (step : list B -> Dec unit (list B)) (R : A -> B -> Prop) l bs :
  (forall x b, x ∈ l -> f x = Ok b -> (length b <= length bs)%nat -> exists y, R x y /\ forall acc, Reads (step acc) b (acc ++ [y])) ->
  each f l = Ok bs -> exists ys, Forall2 R l ys /\ forall acc, Reads (dec_loop (length l) step acc) bs (acc ++ ys).
Proof.
  revert bs. induction l as [|x l IH]; intros bs Hstep H.
  - injection H as <-. exists []. split; [constructor|]. intros acc. rewrite app_nil_r. apply log_reads_ret.
  - rewrite each_cons in H. apply then_Ok in H as (b1 & b2 & Hx & Hl & ->). rewrite length_app in Hstep.
    destruct (Hstep x b1 ltac:(apply list_elem_of_here) Hx ltac:(lia)) as (y & Hy & Hread).
    destruct (IH b2 ltac:(intros z b Hz Hb Hlen; apply Hstep; [by apply list_elem_of_further|done|lia]) Hl) as (ys & Hys & Hloop).
    exists (y :: ys). split; [by constructor|]. intros acc. cbn [dec_loop length]. eapply log_reads_bind; [apply Hread|].
    specialize (Hloop (acc ++ [y])). by rewrite <- app_assoc in Hloop.
Qed.

Lemma quality_roundtrip q : decode_quality (quality_tag q) = Ok q.
Proof. by destruct q. Qed.

Lemma namespace_roundtrip n : decode_namespace (log_namespace_tag n) MARKER_VERSION = Ok n.
Proof. by destruct n. Qed.

Lemma received_quality i q : q <> Missing \/ validate_present_source_time i q = Err invalid_time_annotation.
Proof. destruct q; [by left|by right|by left..]. Qed.

Lemma reads_event_time e : event_ok e -> Reads decode_event_time (encode_event_time e) e.
Proof.
  intros [->|(i & q & Hi & He)].
  - eapply (log_reads_map _ _ [_]); [apply log_reads_u8|]. apply log_reads_ret.
  - pose proof He as He'. unfold EventTime_received in He.
    destruct (received_quality i q) as [Hq|Hq]; [|by rewrite Hq in He].
    destruct (validate_present_source_time i q); [|done]. injection He as <-.
    eapply (log_reads_bind _ _ [_]); [apply log_reads_u8|]. eapply reads_skip; [apply reads_of, quality_roundtrip|].
    rewrite bool_decide_false by done. eapply log_reads_map; [by apply reads_i64|]. apply reads_of. destruct i as [z]. cbn [nanos event_quality].
    by rewrite He'.
Qed.

Lemma reads_observed_time o : observed_ok o -> Reads decode_observed_time (encode_observed_time o) o.
Proof.
  intros (i & q & Hi & Ho). pose proof Ho as Ho'. unfold ObservedTime_received in Ho.
  destruct (validate_present_source_time i q); [|done]. injection Ho as <-.
  eapply (log_reads_bind _ _ [_]); [apply log_reads_u8|]. eapply reads_skip; [apply reads_of, quality_roundtrip|].
  eapply log_reads_map; [by apply reads_i64|]. apply reads_of. destruct i as [z]. cbn [nanos observed_quality observed_instant]. by rewrite Ho'.
Qed.

Lemma reads_optional_id n id : id_ok n id -> Reads (decode_optional_id n) (encode_optional_id id) id.
Proof.
  intros Hid. destruct id as [id|]; cbn [encode_optional_id].
  - eapply (log_reads_bind _ _ [1]); [apply log_reads_u8|]. eapply log_reads_map; [by apply reads_array|]. apply log_reads_ret.
  - eapply (log_reads_map _ _ [0]); [apply log_reads_u8|]. apply log_reads_ret.
Qed.

Lemma reads_metadata m bs : metadata_ok m -> metadata_encode m = Ok bs -> Reads (decode_fields limits_1) bs m.
Proof.
  intros [Hs Ht Hp Hf Hd Hr Hc Hu] H. unfold metadata_encode in H.
  repeat (apply Forall_cons in Hu as [[? ?] Hu]).
  repeat (apply then_Ok in H as (? & ? & ? & H & ->)). repeat match goal with E : Ok _ = Ok _ |- _ => apply Ok_inj in E as <- end.
  eapply log_reads_bind; [by apply log_reads_i32|]. do 2 (eapply log_reads_bind; [by apply reads_string_slice|]).
  do 2 (eapply log_reads_bind; [by apply reads_optional_id|]). do 3 (eapply log_reads_bind; [by apply log_reads_u32|]).
  do 3 (eapply log_reads_bind; [by apply reads_string_slice|]). eapply log_reads_bind; [by apply log_reads_u32|].
  eapply log_reads_map; [by apply reads_string_slice|]. destruct m. apply log_reads_ret.
Qed.

Lemma reads_metadata_decode m bs : metadata_ok m -> metadata_encode m = Ok bs -> Reads (metadata_decode limits_1) bs m.
Proof.
  intros Hm H. eapply log_reads_map; [by apply reads_metadata|]. repeat (eapply reads_skip; [apply reads_try_string|]). apply log_reads_ret.
Qed.

Lemma system_key n : exceeds_byte_limit n (key_path_bytes (dynamic_value system)) = (65536 <? n).
Proof. done. Qed.

Lemma system_occurrences n : exceeds_collection_limit n (attributes_per_namespace (dynamic_value system)) = (1024 <? n).
Proof. done. Qed.

Lemma set_shape_ok k n : set_shape_rejected k n system = false -> k <> [] /\ zlen k <= 65536 /\ n <> 0 /\ n <= 1024.
Proof.
  unfold set_shape_rejected. rewrite system_key, system_occurrences.
  intros [[[H1 H2]%orb_false_iff H3]%orb_false_iff H4]%orb_false_iff. 
  apply bool_decide_eq_false in H1. apply Z.ltb_ge in H2, H4. by apply Z.eqb_neq in H3.
Qed.

(** The occurrences of one attribute, as candidates with exact capacities. *)
Lemma validate_occurrences_exact vs bs : Forall (value_ok 65536) vs -> each (fun v => value_encode v 128) vs = Ok bs ->
  zlen bs <= block_bound -> exists ws, validate_occurrences (map exact_candidate vs) system tt = (tt, Ok ws) /\
    map validated_native ws = map validated_native vs.
Proof.
  intros Hvs. revert bs. induction Hvs as [|v vs Hv _ IH]; intros bs H Hb; [by exists []|].
  rewrite each_cons in H. apply then_Ok in H as (b1 & b2 & H1 & H2 & ->). rewrite zlen_app in Hb.
  pose proof (zlen_nonneg b1). pose proof (zlen_nonneg b2).
  destruct (validate_exact 65536 v b1 Hv ltac:(lia) H1 ltac:(lia)) as (v' & Hval & Hnat).
  destruct (IH b2 H2 ltac:(lia)) as (ws & Hws & Hmap). exists (v' :: ws). cbn [map validate_occurrences].
  change (individual_value_bytes (dynamic_value system)) with (mkByteLimit 65536).
  change (nesting_limit (nesting_depth (dynamic_value system))) with 128. rewrite Hval, Hws, Hnat, Hmap. done.
Qed.

Lemma reads_attribute a bs : attribute_ok a -> encode_attribute 128 a = Ok bs -> zlen bs <= block_bound ->
  exists a', attribute_view a = attribute_view a' /\ Reads (decode_attribute limits_1 MARKER_VERSION) bs a'.
Proof.
  intros [Hk Hshape Hvs] H Hb. pose proof (set_shape_ok _ _ Hshape) as (Hk0 & Hk1 & Hn0 & Hn1). unfold encode_attribute in H.
  repeat (apply then_Ok in H as (? & ? & ? & H & ->)). repeat match goal with E : Ok _ = Ok _ |- _ => apply Ok_inj in E as <- end.
  rewrite !zlen_app in Hb. repeat match goal with |- context [?b ++ _] => is_var b; pose proof (zlen_nonneg b); revert Hb end. intros Hb.
  match type of H with each _ _ = Ok ?b => rename b into bv end.
  assert (zlen bv <= block_bound) as Hbv by (rewrite ?zlen_cons in Hb; pose proof (zlen_nonneg x0); pose proof (zlen_nonneg x1); unfold zlen in *; lia).
  destruct (validate_occurrences_exact _ _ Hvs H Hbv) as (ws & Hws & Hmap).
  set (set := stored_occurrences a) in *.
  exists (mkStoredLogAttribute (representation a) (mkOccurrenceSet (namespace set) (exact (text (key set))) ws (set_len set))).
  split; [unfold attribute_view; cbn; by rewrite Hmap|].
  eapply reads_skip; [apply reads_component|]. eapply (log_reads_bind _ _ [_]); [apply log_reads_u8|].
  eapply (reads_skip _ _ _ (representation a)); [by apply reads_of; destruct (representation a)|].
  eapply (log_reads_bind _ _ [_]); [apply log_reads_u8|]. eapply reads_skip; [apply reads_of, namespace_roundtrip|].
  eapply log_reads_bind; [by apply reads_string_slice|]. rewrite bool_decide_false by done.
  eapply log_reads_bind; [apply reads_count; [done|]; unfold set_len in *; pose proof (zlen_nonneg (occurrences set)); cbn; lia|].
  rewrite (proj2 (Z.eqb_neq _ _)) by done. eapply reads_skip; [apply reads_vec|]. unfold set_len at 1, zlen at 1. rewrite Nat2Z.id.
  eapply log_reads_map.
  - apply (reads_loop (fun v => value_encode v 128) _ (map exact_candidate)); [|exact H]. intros pre v post b Hl Hv.
    pose proof (each_length _ _ _ _ _ _ _ Hl H Hv) as Hlen. rewrite Hl in Hvs. apply Forall_app in Hvs as [_ Hvs].
    apply Forall_cons in Hvs as [Hvok _]. destruct (value_ok_codable 65536 v b Hvok Hv ltac:(unfold zlen in *; lia)) as [Hc _].
    eapply log_reads_map; [by apply reads_value_decode|]. rewrite map_app. apply log_reads_ret.
  - eapply reads_skip; [apply reads_try_string|]. eapply reads_skip; [|apply log_reads_ret].
    intros rest. unfold dec_domain, candidate_validate. cbn [candidate_key candidate_occurrences candidate_namespace text exact].
    rewrite zlen_map. unfold set_len in Hshape. rewrite Hshape. cbn [try_reserve_exact ExactAllocator]. rewrite Hws. done.
Qed.

Lemma parts_rule_bounds (rules : list bytes) n count :
  try_fold (fun count rule =>
      match checked_add usize_max count 1 with
      | None => Err ProvenanceInvalid
      | Some count =>
          if MAX_RULES <? count then Err ProvenanceInvalid
          else if bool_decide (rule = []) || (MAX_RULE_ID_BYTES <? zlen rule) then Err ProvenanceInvalid
          else Ok count
      end) count rules = Ok n -> 0 <= count <= MAX_RULES -> count + zlen rules <= MAX_RULES /\ Forall (fun rule => zlen rule <= MAX_RULE_ID_BYTES) rules.
Proof.
  revert count. induction rules as [|rule rules IH]; intros count H Hc; cbn [try_fold] in H; [split; [unfold zlen; cbn; lia|constructor]|].
  destruct (checked_add usize_max count 1) as [c|] eqn:Ha; [|done]. apply checked_add_Some in Ha as [-> _].
  destruct (Z.ltb_spec MAX_RULES (count + 1)); [done|].
  destruct (bool_decide _ || _) eqn:Hr; [done|]. apply orb_false_iff in Hr as [_ Hr%Z.ltb_ge].
  destruct (IH _ H ltac:(lia)) as [Hn Hall]. rewrite zlen_cons. split; [lia|by constructor].
Qed.

Lemma provenance_bounds g d (rules : list bytes) : is_ok (validate_parts g d rules) = true ->
  zlen rules <= MAX_RULES /\ Forall (fun rule => zlen rule <= MAX_RULE_ID_BYTES) rules.
Proof.
  unfold validate_parts. destruct (_ || _); [done|]. destruct (try_fold _ 0 rules) as [n|] eqn:Hf; [|done]. intros _.
  apply (parts_rule_bounds _ _ _ Hf). unfold MAX_RULES. lia.
Qed.

Lemma reads_rules p bs : provenance_ok p -> encode_policy p = Ok bs ->
  Reads decode_rules bs (prov_generation p, prov_digest p, map text (applied_rules p)).
Proof.
  intros [Hg Hd Hu Hp] H. pose proof (provenance_bounds _ _ _ Hp) as [Hn Hlen]. rewrite zlen_map in Hn. unfold encode_policy in H.
  repeat (apply then_Ok in H as (? & ? & ? & H & ->)). repeat match goal with E : Ok _ = Ok _ |- _ => apply Ok_inj in E as <- end.
  eapply log_reads_bind; [by apply log_reads_u64|]. eapply log_reads_bind; [by apply reads_array|].
  eapply log_reads_bind; [apply reads_count; [done|pose proof (zlen_nonneg (applied_rules p)); lia]|]. unfold zlen at 1. rewrite Nat2Z.id.
  eapply log_reads_map.
  - apply (reads_loop (fun rule => put_bytes (text rule)) _ (map text)); [|exact H]. intros pre rule post b Hl Hb.
    rewrite Forall_map, Hl in Hlen. rewrite Hl in Hu. apply Forall_app in Hlen as [_ Hlen], Hu as [_ Hu].
    apply Forall_cons in Hlen as [Hr _], Hu as [Hru _].
    eapply reads_skip; [apply reads_component|]. eapply log_reads_map; [by apply reads_string_slice|]. rewrite map_app. apply log_reads_ret.
  - destruct (validate_parts _ _ _) as [[]|]; [|done]. apply log_reads_ret.
Qed.

Lemma reads_policy p bs : provenance_ok p -> encode_policy p = Ok bs ->
  exists p', provenance_view p = provenance_view p' /\ Reads decode_policy bs p'.
Proof.
  intros Hok H. set (rules := map text (applied_rules p)).
  exists (mkProvenance (prov_generation p) (prov_digest p) (map exact rules) (zlen rules)). split.
  { unfold provenance_view. cbn [prov_generation prov_digest applied_rules]. rewrite map_map. cbn. by rewrite map_id. }
  eapply log_reads_map; [by apply reads_rules|]. cbv beta iota. fold rules. eapply reads_skip; [apply reads_vec|].
  assert (Hid : map text (map exact rules) = rules) by (rewrite map_map; apply map_id).
  eapply (reads_skip _ _ _ (map exact rules)).
  - apply (reads_loop (fun _ => Ok []) _ (map exact)); [|].
    + intros pre rule post b Hl Hb. apply Ok_inj in Hb as <-. rewrite length_map, Hl, list_lookup_middle by done.
      eapply reads_skip; [apply reads_try_string|]. rewrite map_app. apply log_reads_ret.
    + clear. induction rules as [|r l IH]; [done|]. by rewrite each_cons, IH.
  - apply reads_of. unfold provenance_new. rewrite Hid. destruct Hok as [_ _ _ Hp]. fold rules in Hp. by destruct (validate_parts _ _ _) as [[]|].
Qed.
End records.
