(* ===== verification/LogBlocks.v ===== *)
(** Log store: the size pass is exact.

    [encoded_block_length] walks the records before any buffer is allocated and
    [encode_block] writes them; whenever the first accepts, the second produces exactly the number
    of bytes announced.

    Log store: committed blocks read back.

    A block whose size pass accepts is written, and decoding it returns the first [limit] records
    while the rest of the block is validated without being built. *)

From Stdlib Require Import Ascii String.
From S2P Require Import Prelude Outcome Identity Limits SourceTime Values Observe Traversal Validation Shape CanonicalEncoding Occurrences PolicyModel PolicyCodec PolicyEvaluation RetentionTime LogStore LogCodec LogReads ValueLayout LogRoundtrip.

(** An encoder that writes [n] bytes. *)
Definition Writes (r : result LogStoreFailure bytes) (n : Z) : Prop := exists bs, r = Ok bs /\ zlen bs = n.

Lemma writes_ok bs : Writes (Ok bs) (zlen bs).
Proof. by exists bs. Qed.

Lemma writes_then a b n m : Writes a n -> Writes b m -> Writes (a +++ b) (n + m).
Proof. intros (x & -> & <-) (y & -> & <-). exists (x ++ y). by rewrite zlen_app. Qed.

Lemma writes_eq a n m : Writes a n -> n = m -> Writes a m.
Proof. by intros H <-. Qed.

Lemma writes_count n : 0 <= n <= u16_max -> Writes (put_count n) 2.
Proof. intros Hn. unfold put_count. rewrite (proj2 (Z.leb_le _ _)) by lia. eexists. by rewrite zlen_be_bytes. Qed.

Lemma writes_bytes b : zlen b <= u32_max -> Writes (put_bytes b) (4 + zlen b).
Proof. intros Hb. unfold put_bytes. rewrite (proj2 (Z.leb_le _ _)) by lia. eexists. split; [done|]. by rewrite zlen_app, zlen_be_bytes. Qed.

Lemma bounded_add_Ok a b n : bounded_add a b = Ok n -> n = a + b /\ n <= MAX_BLOCK_BYTES.
Proof.
  unfold bounded_add. destruct (checked_add usize_max a b) as [t|] eqn:H; [|done]. apply checked_add_Some in H as [-> _].
  destruct (Z.leb_spec (a + b) MAX_BLOCK_BYTES); [|done]. by intros [= <-].
Qed.

(** An accumulating size pass against an encoder of the same list. *)
Lemma writes_fold {A} (f : A -> result LogStoreFailure bytes) (step : Z -> A -> result LogStoreFailure Z) l : forall acc n,
  (forall acc a n, a ∈ l -> 0 <= acc -> step acc a = Ok n -> acc <= n /\ Writes (f a) (n - acc)) ->
  0 <= acc -> try_fold step acc l = Ok n -> acc <= n /\ Writes (each f l) (n - acc).
Proof.
  induction l as [|a l IH]; intros acc n Hstep Hacc H; cbn [try_fold] in H.
  - injection H as <-. split; [lia|]. exists []. split; [done|]. unfold zlen. cbn. lia.
  - destruct (step acc a) as [acc'|] eqn:Ha; [|done]. apply Hstep in Ha as [Hle Hw]; [|apply list_elem_of_here|done].
    apply IH in H as [Hle' Hws]; [|intros; by apply Hstep; [apply list_elem_of_further|..]|lia].
    split; [lia|]. rewrite each_cons. eapply writes_eq; [by apply writes_then|lia].
Qed.

(** ** Values *)

Definition sized (v : ValidatedAttributeValue) : Prop := forall depth n, value_encoded_length v depth = Ok n ->
  1 <= n <= MAX_BLOCK_BYTES /\ decoded_total v <= n.

Lemma sized_elements vs depth : Forall sized vs -> forall acc n, 0 <= acc <= MAX_BLOCK_BYTES ->
  try_fold (fun total v => n ← value_encoded_length v depth; bounded_add total n) acc vs = Ok n ->
  acc + zsum decoded_total vs <= n <= MAX_BLOCK_BYTES.
Proof.
  intros Hvs. induction Hvs as [|v vs Hv _ IH]; intros acc n Hacc H; cbn [try_fold] in H; [injection H as <-; cbn; lia|].
  destruct (value_encoded_length v depth) as [k|] eqn:Hk; [|done]. apply Hv in Hk. cbn [mbind result_bind] in H.
  destruct (bounded_add acc k) as [acc'|] eqn:Ha; [|done]. apply bounded_add_Ok in Ha as [-> Ha].
  apply IH in H; [|lia]. rewrite zsum_cons. lia.
Qed.

Lemma sized_entries (es : list ValidatedKeyValue) depth : Forall (fun e => sized e.2) es -> forall acc n, 0 <= acc <= MAX_BLOCK_BYTES ->
  try_fold (fun total '(k, v) => total ← bounded_add total 4; total ← bounded_add total (rs_len k);
    n ← value_encoded_length v depth; bounded_add total n) acc es = Ok n ->
  acc + zsum (fun '(k, v) => rs_len k + decoded_total v) es <= n <= MAX_BLOCK_BYTES.
Proof.
  intros Hes. induction Hes as [|[k v] es Hv _ IH]; intros acc n Hacc H; cbn [try_fold] in H; [injection H as <-; cbn; lia|].
  destruct (bounded_add acc 4) as [a1|] eqn:H1; [|done]. apply bounded_add_Ok in H1 as [-> H1]. cbn [mbind result_bind] in H.
  destruct (bounded_add (acc + 4) (rs_len k)) as [a2|] eqn:H2; [|done]. apply bounded_add_Ok in H2 as [-> H2]. cbn [mbind result_bind] in H.
  destruct (value_encoded_length v depth) as [j|] eqn:Hj; [|done]. cbn in Hv. apply Hv in Hj. cbn [mbind result_bind] in H.
  destruct (bounded_add _ j) as [a3|] eqn:H3; [|done]. apply bounded_add_Ok in H3 as [-> H3].
  unfold rs_len in *. pose proof (zlen_nonneg (text k)). apply IH in H; [|lia]. rewrite zsum_cons. cbv beta iota. lia.
Qed.

Lemma value_sized v : sized v.
Proof.
  induction v as [|b|z|z|p|p|vs cap IH|es cap IH|m|v a IH] using validated_ind'; intros depth n H; cbn [value_encoded_length] in H;
    cbn [decoded_total]; unfold MAX_BLOCK_BYTES in *.
  1-4: injection H as <-; lia.
  1-2: apply bounded_add_Ok in H as [-> H]; unfold rs_len, MAX_BLOCK_BYTES in *; pose proof (zlen_nonneg (text p)); lia.
  - destruct (checked_sub depth 1); [|done]. apply (sized_elements _ _ IH) in H; unfold MAX_BLOCK_BYTES in *; [|lia].
    assert (0 <= zsum decoded_total vs) by (apply zsum_nonneg; intros v _; pose proof (sizes_nonneg v); lia). lia.
  - destruct (checked_sub depth 1); [|done]. apply (sized_entries _ _ IH) in H; unfold MAX_BLOCK_BYTES in *; [|lia].
    assert (0 <= zsum (fun '(k, v) => rs_len k + decoded_total v) es)
      by (apply zsum_nonneg; intros [k v] _; pose proof (sizes_nonneg v); unfold rs_len; pose proof (zlen_nonneg (text k)); lia). lia.
  - injection H as <-. lia.
  - destruct (value_encoded_length v depth) as [k|] eqn:Hk; [|done]. apply IH in Hk. apply bounded_add_Ok in H as [-> H].
    unfold MAX_BLOCK_BYTES in *. lia.
Qed.

Definition writes_value (vb : Z) (v : ValidatedAttributeValue) : Prop := forall depth n,
  codable limits_1 vb v depth -> value_encoded_length v depth = Ok n -> Writes (value_encode v depth) n.

Lemma kind_writes k : k <> KMarker -> exists t, native_kind_tag k = Ok t.
Proof. destruct k; eauto. done. Qed.

Lemma writes_elements vb vs depth n : Forall (writes_value vb) vs -> all_of (fun v => codable limits_1 vb v depth) vs ->
  try_fold (fun total v => n ← value_encoded_length v depth; bounded_add total n) 3 vs = Ok n ->
  Writes (each (fun v => value_encode v depth) vs) (n - 3).
Proof.
  intros Hvs Hc%all_of_Forall H. rewrite Forall_forall in Hvs, Hc. refine (proj2 (writes_fold _ _ _ _ _ _ _ H)); [|lia].
  intros acc v m Hv Hacc Hm. destruct (value_encoded_length v depth) as [k|] eqn:Hk; [|done]. apply bounded_add_Ok in Hm as [-> _].
  pose proof (value_sized v _ _ Hk). split; [lia|]. eapply writes_eq; [by apply Hvs; [|apply Hc|]|lia].
Qed.

Lemma writes_entries vb (es : list ValidatedKeyValue) depth n : Forall (fun e => writes_value vb e.2) es ->
  all_of (fun '(k, v) => text k <> [] /\ rs_len k <= 65536 /\ utf8_valid (text k) = true /\ codable limits_1 vb v depth) es ->
  try_fold (fun total '(k, v) => total ← bounded_add total 4; total ← bounded_add total (rs_len k);
    n ← value_encoded_length v depth; bounded_add total n) 3 es = Ok n ->
  Writes (each (encode_entry depth) es) (n - 3).
Proof.
  intros Hes Hc%all_of_Forall H. rewrite Forall_forall in Hes, Hc. refine (proj2 (writes_fold _ _ _ _ _ _ _ H)); [|lia].
  intros acc [k v] m Hv Hacc Hm. pose proof (Hc _ Hv) as (_ & Hlen & _ & Hcv). specialize (Hes _ Hv). cbn [snd] in Hes.
  destruct (bounded_add acc 4) as [a1|] eqn:H1; [|done]. apply bounded_add_Ok in H1 as [-> H1]. cbn [mbind result_bind] in Hm.
  destruct (bounded_add (acc + 4) (rs_len k)) as [a2|] eqn:H2; [|done]. apply bounded_add_Ok in H2 as [-> H2]. cbn [mbind result_bind] in Hm.
  destruct (value_encoded_length v depth) as [j|] eqn:Hj; [|done]. apply bounded_add_Ok in Hm as [-> _].
  pose proof (value_sized v _ _ Hj). unfold rs_len in *. pose proof (zlen_nonneg (text k)). split; [lia|].
  eapply writes_eq; [apply writes_then; [apply writes_bytes; unfold u32_max; lia|by apply Hes]|lia].
Qed.

Lemma value_writes vb v : writes_value vb v.
Proof.
  induction v as [|b|z|z|p|p|vs cap IH|es cap IH|m|v a IH] using validated_ind'; intros depth n Hc H;
    cbn [value_encoded_length] in H; cbn [value_encode]; unfold MAX_BLOCK_BYTES in *.
  1-4: apply Ok_inj in H as <-; eexists; split; [done|]; zlens; lia.
  1-2: apply bounded_add_Ok in H as [-> H]; (eapply writes_eq; [apply writes_then; [apply writes_ok|apply writes_bytes; unfold rs_len, MAX_BLOCK_BYTES, u32_max in *; lia]|];
    unfold rs_len; zlens; lia).
  - destruct Hc as (_ & _ & Hd & Hn & Hall). rewrite checked_sub_ok in * by lia. cbn [ok_or mbind result_bind] in *.
    eapply writes_eq; [apply writes_then; [apply writes_ok|apply writes_then; [apply writes_count|by apply (writes_elements vb)]]|zlens; lia].
    cbn in Hn. pose proof (zlen_nonneg vs). unfold u16_max. lia.
  - destruct Hc as (_ & _ & Hd & Hn & Hall). rewrite checked_sub_ok in * by lia. cbn [ok_or mbind result_bind] in *. rewrite each_entries.
    eapply writes_eq; [apply writes_then; [apply writes_ok|apply writes_then; [apply writes_count|by apply (writes_entries vb)]]|zlens; lia].
    cbn in Hn. pose proof (zlen_nonneg es). unfold u16_max. lia.
  - destruct Hc as (_ & _ & Hm). injection H as <-. unfold marker_is_valid in Hm.
    destruct (kind_writes (original_kind m)) as [t ->]; [by destruct (original_kind m)|]. by eexists.
  - destruct Hc as (_ & _ & Hr & Ha & Hc). destruct (value_encoded_length v depth) as [k|] eqn:Hk; [|done].
    apply bounded_add_Ok in H as [-> _]. destruct (kind_writes (kind v)) as [t ->]; [by destruct a, (kind v)|]. cbn [mbind result_bind].
    eapply writes_eq; [apply writes_then; [apply writes_ok|by apply IH]|zlens; lia].
Qed.

(** ** Records and blocks *)

Lemma ok_writes vb v n : value_ok vb v -> value_encoded_length v 128 = Ok n -> Writes (value_encode v 128) n.
Proof.
  intros [Ht [m Hs]] H. apply (value_writes vb); [|done]. pose proof (value_sized _ _ _ H) as [Hn Hd].
  apply (shape_codable system limits_1 limits_1_match vb v 128 m Ht) in Hs as [Hc _]; [done|]. unfold MAX_BLOCK_BYTES, usize_max in *. lia.
Qed.

(** The occurrences of an attribute, or any list of values at the top level. *)
Lemma writes_values vb vs acc n : Forall (value_ok vb) vs -> 0 <= acc ->
  try_fold (fun n v => k ← value_encoded_length v 128; bounded_add n k) acc vs = Ok n ->
  acc <= n /\ Writes (each (fun v => value_encode v 128) vs) (n - acc).
Proof.
  intros Hvs Hacc H. rewrite Forall_forall in Hvs. refine (writes_fold _ _ _ _ _ _ Hacc H).
  intros a v m Hv Ha Hm. destruct (value_encoded_length v 128) as [k|] eqn:Hk; [|done]. apply bounded_add_Ok in Hm as [-> _].
  pose proof (value_sized v _ _ Hk). split; [lia|]. eapply writes_eq; [by apply (ok_writes vb); [apply Hvs|]|lia].
Qed.

(** One [bounded_add] at the head of a sequence. *)
Lemma bounded_step {B} a b (k : Z -> result LogStoreFailure B) r : bounded_add a b ≫= k = Ok r -> k (a + b) = Ok r.
Proof. destruct (bounded_add a b) as [n|] eqn:H; [|done]. by apply bounded_add_Ok in H as [-> _]. Qed.

Lemma writes_attributes l acc n : Forall attribute_ok l -> 0 <= acc ->
  try_fold (fun n a =>
    n ← bounded_add n 8;
    n ← bounded_add n (rs_len (key (stored_occurrences a)));
    try_fold (fun n v => k ← value_encoded_length v 128; bounded_add n k) n (occurrences (stored_occurrences a))) acc l = Ok n ->
  acc <= n /\ Writes (each (encode_attribute 128) l) (n - acc).
Proof.
  intros Hl Hacc H. rewrite Forall_forall in Hl. refine (writes_fold _ _ _ _ _ _ Hacc H).
  intros c a m Ha Hc Hm. apply bounded_step, bounded_step in Hm. destruct (Hl a Ha) as [_ Hshape Hvs].
  apply set_shape_ok in Hshape as (_ & Hk & _ & Hn). set (set := stored_occurrences a) in *. unfold rs_len in *.
  pose proof (zlen_nonneg (text (key set))). pose proof (zlen_nonneg (occurrences set)).
  apply (writes_values 65536) in Hm as [Hle Hw]; [|done|lia]. split; [lia|].
  eapply writes_eq; [apply writes_then; [apply writes_ok|apply writes_then; [apply writes_bytes|apply writes_then; [apply writes_count|exact Hw]]]|];
    fold set; unfold set_len, u32_max, u16_max in *; try lia. zlens. lia.
Qed.

Lemma metadata_writes m n : metadata_ok m -> metadata_encoded_length m = Ok n -> 0 <= n /\ Writes (metadata_encode m) n.
Proof.
  intros [_ Ht Hp _ _ _ _ Hu] H. unfold metadata_encoded_length in H.
  repeat (apply Forall_cons in Hu as [[_ ?] Hu]). unfold id_ok in *.
  set (fixed := 46 + match trace_id m with Some _ => 16 | None => 0 end + match span_id m with Some _ => 8 | None => 0 end).
  assert (Hf : n = fixed + zlen (severity_text m) + zlen (event_name m) + zlen (resource_schema_url m) + zlen (scope_name m)
                   + zlen (scope_version m) + zlen (scope_schema_url m)).
  { unfold checked_add in H. cbn [mbind option_bind] in H.
    repeat match type of H with context [if ?c then _ else _] => destruct c; [cbn [ok_or mbind option_bind result_bind try_fold] in H|done] end.
    apply Ok_inj in H. unfold fixed. lia. }
  pose proof (zlen_nonneg (severity_text m)). pose proof (zlen_nonneg (event_name m)). pose proof (zlen_nonneg (resource_schema_url m)).
  pose proof (zlen_nonneg (scope_name m)). pose proof (zlen_nonneg (scope_version m)). pose proof (zlen_nonneg (scope_schema_url m)).
  assert (0 <= fixed) by (unfold fixed; destruct (trace_id m), (span_id m); lia). split; [lia|].
  eapply writes_eq.
  - unfold metadata_encode. repeat (apply writes_then; [first [apply writes_ok | apply writes_bytes; unfold u32_max; lia]|]).
    apply writes_bytes. unfold u32_max. lia.
  - rewrite Hf, !zlen_be_bytes. unfold fixed, encode_optional_id. destruct (trace_id m), (span_id m); zlens; lia.
Qed.

Lemma policy_writes p acc n : provenance_ok p -> 0 <= acc ->
  try_fold (fun n rule => n ← bounded_add n 4; bounded_add n (rs_len rule)) (acc + 42) (applied_rules p) = Ok n ->
  acc <= n /\ Writes (encode_policy p) (n - acc).
Proof.
  intros [_ Hd _ Hp] Hacc H. apply provenance_bounds in Hp as [Hn Hlen]. rewrite zlen_map in Hn. rewrite Forall_map, Forall_forall in Hlen.
  apply (writes_fold (fun rule => put_bytes (text rule))) in H as [Hle Hw]; [|clear -Hlen|lia].
  - split; [lia|]. eapply writes_eq; [apply writes_then; [apply writes_ok|apply writes_then; [apply writes_ok|apply writes_then; [apply writes_count|exact Hw]]]|].
    + pose proof (zlen_nonneg (applied_rules p)). unfold MAX_RULES, u16_max in *. lia.
    + rewrite zlen_be_bytes. lia.
  - intros acc a n Ha Hacc Hm. apply bounded_step in Hm. apply bounded_add_Ok in Hm as [-> _]. unfold rs_len.
    pose proof (zlen_nonneg (text a)). specialize (Hlen a Ha). unfold MAX_RULE_ID_BYTES in Hlen. split; [lia|].
    eapply writes_eq; [apply writes_bytes; unfold u32_max; lia|lia].
Qed.

Lemma event_writes e : zlen (encode_event_time e) = match event_instant e with Some _ => 9 | None => 1 end.
Proof. unfold encode_event_time. destruct (event_instant e); by zlens. Qed.

Lemma observed_writes o : Writes (encode_optional (fun o => Ok (encode_observed_time o)) o) (match o with Some _ => 10 | None => 1 end).
Proof.
  destruct o as [o|]; cbn [encode_optional]; [|apply writes_ok].
  eapply writes_eq; [apply writes_then; apply writes_ok|]. unfold encode_observed_time. by zlens.
Qed.

Lemma body_writes b acc n : match b with Some b => value_ok 262144 b | None => True end ->
  match b with Some b => k ← value_encoded_length b 128; bounded_add acc k | None => Ok acc end = Ok n ->
  acc <= n /\ Writes (encode_optional (fun b => value_encode b 128) b) (n - acc + 1).
Proof.
  intros Hb H. destruct b as [b|]; cbn [encode_optional].
  - destruct (value_encoded_length b 128) as [k|] eqn:Hk; [|done]. apply bounded_add_Ok in H as [-> _].
    pose proof (value_sized _ _ _ Hk). split; [lia|].
    eapply writes_eq; [apply writes_then; [apply writes_ok|by apply (ok_writes 262144)]|zlens; lia].
  - injection H as <-. split; [lia|]. eapply writes_eq; [apply writes_ok|zlens; lia].
Qed.

Lemma record_writes r n : record_ok (log_record_of r) -> encoded_record_length (log_record_of r) 128 = Ok n ->
  0 <= n /\ Writes (encode_record 128 r) n.
Proof.
  intros [_ _ Hm Hb Ha Hg Hp _]. unfold encoded_record_length, encode_record. set (l := log_record_of r) in *. intros H.
  apply bounded_step in H. apply result_bind_Ok in H as (k & Hk & H). apply (metadata_writes _ _ Hm) in Hk as [Hk0 Hmw].
  apply bounded_step, bounded_step in H. apply result_bind_Ok in H as (n1 & H1 & H). apply (body_writes _ _ _ Hb) in H1 as [Hle1 Hw1].
  apply bounded_step in H. apply result_bind_Ok in H as (n2 & H2 & H).
  assert (0 <= match event_instant (event_time l) with Some _ => 9 | None => 1 end) as He by (destruct (event_instant _); lia).
  assert (0 <= match observed_time l with Some _ => 10 | None => 1 end) as Ho by (destruct (observed_time l); lia).
  apply (writes_attributes _ _ _ Ha) in H2 as [Hle2 Hw2]; [|lia]. apply bounded_step in H.
  apply (policy_writes _ _ _ Hp) in H as [Hle3 Hw3]; [|lia]. split; [lia|].
  eapply writes_eq.
  - apply writes_then; [apply writes_ok|]. apply writes_then; [apply observed_writes|]. apply writes_then; [exact Hmw|].
    apply writes_then; [apply writes_ok|]. apply writes_then; [exact Hw1|].
    apply writes_then; [apply writes_count; pose proof (zlen_nonneg (record_attributes l)); unfold u16_max; lia|].
    apply writes_then; [exact Hw2|exact Hw3].
  - rewrite event_writes, zlen_be_bytes. lia.
Qed.

Lemma block_writes tenant rs n : zlen (tenant_id_bytes tenant) = 16 -> Forall (fun r => record_ok (log_record_of r)) rs ->
  encoded_block_length (map log_record_of rs) = Ok n -> Writes (encode_block tenant rs n) n.
Proof.
  intros Ht Hrs. unfold encoded_block_length, encode_block. rewrite release_1_value. cbn [mbind result_bind]. rewrite zlen_map.
  change (lim_nesting_depth limits_1) with 128.
  replace (bool_decide (map log_record_of rs = [])) with (bool_decide (rs = [])) by (by destruct rs).
  destruct (bool_decide (rs = []) || (lim_records limits_1 <? zlen rs)) eqn:Hg; [done|]. intros H.
  apply orb_false_iff in Hg as [_ Hg%Z.ltb_ge]. cbn in Hg. rewrite Forall_forall in Hrs.
  rewrite <- (try_fold_map _ log_record_of (fun total r => n ← encoded_record_length (log_record_of r) 128; bounded_add total n)) in H by done.
  apply (writes_fold (encode_record 128)) in H as [Hle Hw]; [|clear -Hrs|lia].
  - assert (Writes (Ok MAGIC +++ Ok (be_bytes 2 MARKER_VERSION) +++ Ok (tenant_id_bytes tenant) +++ put_count (zlen rs)
      +++ each (encode_record 128) rs) n) as (bs & -> & Hbs).
    { eapply writes_eq; [repeat (apply writes_then; [apply writes_ok|]); apply writes_then; [apply writes_count|exact Hw]|].
      - pose proof (zlen_nonneg rs). unfold u16_max. lia.
      - rewrite zlen_be_bytes, Ht. change (zlen MAGIC) with 8. lia. }
    cbn [mbind result_bind]. rewrite Hbs, Z.eqb_refl. exists bs. done.
  - intros acc r m Hr Hacc Hm. apply result_bind_Ok in Hm as (k & Hk & Hm). apply bounded_add_Ok in Hm as [-> _].
    apply record_writes in Hk as [Hk0 Hw]; [|by apply Hrs]. split; [lia|]. eapply writes_eq; [exact Hw|lia].
Qed.

#[local] Existing Instance ExactAllocator.

Section blocks.
Context {Lay : Layout} {Env : ScanEnvironment unit}.

(** ** Decoding one record *)

Lemma reads_observed o bs : match o with Some o => observed_ok o | None => True end ->
  encode_optional (fun o => Ok (encode_observed_time o)) o = Ok bs -> Reads (dec_optional decode_observed_time) bs o.
Proof.
  intros Ho H. apply (reads_optional (fun o => Ok (encode_observed_time o)) decode_observed_time id) in H; [by destruct o|].
  intros o' b -> Hob. apply Ok_inj in Hob as <-. by apply reads_observed_time.
Qed.

Lemma reads_body b v bs : match b with Some b => value_ok 262144 b | None => True end -> decoded_bytes v <= decoded_limit v <= usize_max ->
  encode_optional (fun b => value_encode b 128) b = Ok bs -> zlen bs <= block_bound ->
  exists b', validated_native <$> b = validated_native <$> b' /\ Reads (decode_body limits_1 MARKER_VERSION v) bs b'.
Proof.
  intros Hok Hv H Hb. destruct b as [b|]; cbn [encode_optional] in H.
  - apply then_Ok in H as (? & bv & [= <-] & H & ->). zlens.
    destruct (validate_exact 262144 b bv Hok ltac:(lia) H ltac:(lia)) as (b' & Hval & Hnat).
    destruct (value_ok_codable 262144 b bv Hok H ltac:(lia)) as [Hc _].
    exists (Some b'). cbn. rewrite Hnat. split; [done|]. apply (log_reads_map _ _ _ (Some b')); [|apply log_reads_ret].
    eapply (log_reads_bind _ _ [1]); [apply log_reads_u8|]. apply (log_reads_map _ _ _ b'); [|apply log_reads_ret].
    eapply log_reads_map; [by apply reads_value_decode|].
    intros rest. unfold dec_domain, validate_log_body. change (log_body_bytes (record system)) with (mkByteLimit 262144).
    change (nesting_limit (nesting_depth (dynamic_value system))) with 128. by rewrite Hval.
  - injection H as <-. exists None. split; [done|]. eapply log_reads_map; [eapply (log_reads_map _ _ [0]); [apply log_reads_u8|apply log_reads_ret]|].
    eapply reads_skip; [apply reads_of|apply log_reads_ret]. unfold or_malformed, observe_body, add_decoded.
    by rewrite checked_add_ok, (proj2 (Z.leb_le _ _)) by lia.
Qed.

Lemma each_bound {A} (f : A -> result LogStoreFailure bytes) l bs x b : each f l = Ok bs -> x ∈ l -> f x = Ok b -> zlen b <= zlen bs.
Proof. intros H [pre [post ->]]%list_elem_of_split Hb. pose proof (each_length _ _ _ _ _ _ _ eq_refl H Hb). unfold zlen. lia. Qed.

Lemma Forall2_map_eq {A B C} (f : A -> C) (g : B -> C) l k : Forall2 (fun a b => f a = g b) l k -> map f l = map g k.
Proof. induction 1; cbn; congruence. Qed.

Lemma reads_attributes l bs : Forall attribute_ok l -> zlen l <= 3072 ->
  put_count (zlen l) +++ each (encode_attribute 128) l = Ok bs -> zlen bs <= block_bound ->
  exists l', map attribute_view l = map attribute_view l' /\ Reads (decode_attributes limits_1 MARKER_VERSION) bs l'.
Proof.
  intros Hl Hn (b1 & b2 & H1 & H2 & ->)%then_Ok Hb. rewrite zlen_app in Hb. pose proof (zlen_nonneg b1). rewrite Forall_forall in Hl.
  destruct (reads_gather (encode_attribute 128) (fun l => a ← decode_attribute limits_1 MARKER_VERSION; mret (l ++ [a]))
    (fun a a' => attribute_view a = attribute_view a') l b2) as (l' & Hl' & Hloop); [|done|].
  - intros a b Ha Hba Hlen. destruct (reads_attribute a b (Hl a Ha) Hba) as (a' & Hview & Hr); [unfold zlen in *; lia|].
    exists a'. split; [done|]. intros acc. eapply log_reads_map; [exact Hr|]. apply log_reads_ret.
  - exists l'. split; [by apply Forall2_map_eq|]. pose proof (zlen_nonneg l).
    eapply log_reads_bind; [apply reads_count; [done|cbn; lia]|]. eapply reads_skip; [apply reads_vec|].
    unfold zlen. rewrite Nat2Z.id. apply (Hloop []).
Qed.

Definition new_validator : NativeRecordValidator := NativeRecordValidator_new value_profile.

Lemma reads_record r bs : record_ok (log_record_of r) -> i64_ok (nanos (instant (ingest_time_of r))) -> encode_record 128 r = Ok bs ->
  zlen bs <= block_bound -> exists d, record_view (log_record_of r) = record_view (dr_record d) /\
    dr_ingest_time d = instant (ingest_time_of r) /\ Reads (record_decode limits_1 MARKER_VERSION) bs d.
Proof.
  intros [He Ho Hm Hb Ha Hg Hp Hn] Hi H Hlen. unfold encode_record in H. set (l := log_record_of r) in *.
  apply then_Ok in H as (x1 & y1 & <-%Ok_inj & H & ->). apply then_Ok in H as (b2 & y2 & H2 & H & ->).
  apply then_Ok in H as (b3 & y3 & H3 & H & ->). apply then_Ok in H as (x4 & y4 & <-%Ok_inj & H & ->).
  apply then_Ok in H as (b5 & y5 & H5 & H & ->). apply then_Ok in H as (b6 & y6 & H6 & H & ->).
  apply then_Ok in H as (b7 & b8 & H7 & H8 & ->). rewrite !zlen_app in Hlen.
  repeat match type of Hlen with context [zlen ?b] => lazymatch goal with _ : 0 <= zlen b |- _ => fail | _ => pose proof (zlen_nonneg b) end end.
  destruct (reads_body (body l) new_validator b5 Hb) as (b' & Hbv & Hbr); [cbn; unfold usize_max; lia|done|lia|].
  destruct (reads_attributes (record_attributes l) (b6 ++ b7) Ha Hg) as (l' & Hlv & Hlr);
    [unfold then_; by rewrite H6, H7|rewrite zlen_app; lia|].
  destruct (reads_policy _ _ Hp H8) as (p' & Hpv & Hpr).
  exists (mkDecodedRecord (mkLogRecord (event_time l) (observed_time l) b' l' (metadata l) p') (instant (ingest_time_of r))).
  split; [|split; [done|]].
  { unfold record_view. cbn [dr_record event_time observed_time body record_attributes metadata policy_provenance].
    by rewrite Hbv, Hlv, Hpv. }
  eapply reads_skip; [apply reads_component|]. eapply log_reads_bind; [by apply reads_event_time|].
  eapply log_reads_bind; [by apply reads_observed|].
  eapply log_reads_bind; [eapply log_reads_map; [by apply reads_metadata_decode|apply log_reads_ret]|]. cbv beta iota.
  eapply log_reads_bind; [by apply reads_i64|]. eapply log_reads_bind; [exact Hbr|]. rewrite app_assoc. eapply log_reads_bind; [exact Hlr|].
  eapply log_reads_map; [exact Hpr|].
  eapply reads_skip; [apply reads_of; unfold or_malformed; by rewrite (checked_native_view _ _ _ _ _ _ _ _ _ _ Hbv Hlv Hn)|].
  cbn [mret]. destruct (instant (ingest_time_of r)). apply log_reads_ret.
Qed.

(** ** Validating one record without building it *)

(** A loop that follows a fold of fallible steps. *)
Lemma reads_try_fold {A B E} (f : A -> result LogStoreFailure bytes) (step : B -> Dec unit B) (g : B -> A -> result E B) l : forall bs acc acc',
  (forall x b acc acc', x ∈ l -> f x = Ok b -> zlen b <= zlen bs -> g acc x = Ok acc' -> Reads (step acc) b acc') ->
  each f l = Ok bs -> try_fold g acc l = Ok acc' -> Reads (dec_loop (length l) step acc) bs acc'.
Proof.
  induction l as [|x l IH]; intros bs acc acc' Hstep H Hf; cbn [try_fold length dec_loop] in *.
  - injection H as <-. injection Hf as <-. apply log_reads_ret.
  - rewrite each_cons in H. apply then_Ok in H as (b1 & b2 & Hx & Hl & ->). rewrite zlen_app in Hstep.
    pose proof (zlen_nonneg b1). pose proof (zlen_nonneg b2).
    destruct (g acc x) as [acc1|] eqn:Hg; [|done]. eapply log_reads_bind; [eapply Hstep; [apply list_elem_of_here|done|lia|exact Hg]|].
    apply IH; [|done|done]. intros y b c c' Hy Hb Hlen Hc. apply (Hstep y); [by apply list_elem_of_further|done|lia|done].
Qed.

Lemma decoded_size_exact v : decoded_total v <= usize_max -> decoded_size_bytes v = Ok (decoded_total v).
Proof.
  induction v as [|b|z|z|p|p|vs cap IH|es cap IH|m|v a IH] using validated_ind'; intros Hv; cbn [decoded_size_bytes decoded_total] in *; try done; [| |by apply IH].
  - enough (forall acc, acc + zsum decoded_total vs <= usize_max -> 0 <= acc -> try_fold (fun total value =>
      size ← decoded_size_bytes value; checked_decoded_add total size) acc vs = Ok (acc + zsum decoded_total vs)) as Hg by (by apply (Hg 0)).
    clear Hv. induction IH as [|v vs Hv _ IHvs]; intros acc Hacc H0; cbn [try_fold]; [cbn; by rewrite Z.add_0_r|]. rewrite zsum_cons in *.
    assert (0 <= zsum decoded_total vs) by (apply zsum_nonneg; intros a _; pose proof (sizes_nonneg a); lia). pose proof (sizes_nonneg v).
    rewrite Hv by lia. cbn [mbind result_bind]. unfold checked_decoded_add. rewrite checked_add_ok by lia. cbn [ok_or].
    rewrite IHvs by lia. f_equal. lia.
  - enough (forall acc, acc + zsum (fun '(k, v) => rs_len k + decoded_total v) es <= usize_max -> 0 <= acc -> try_fold (fun total '(key, value) =>
      total ← checked_decoded_add total (rs_len key); size ← decoded_size_bytes value; checked_decoded_add total size) acc es
      = Ok (acc + zsum (fun '(k, v) => rs_len k + decoded_total v) es)) as Hg by (by apply (Hg 0)).
    clear Hv. induction IH as [|[k v] es Hv _ IHes]; intros acc Hacc H0; cbn [try_fold]; [cbn; by rewrite Z.add_0_r|]. rewrite zsum_cons in *.
    assert (0 <= zsum (fun '(k, v) => rs_len k + decoded_total v) es)
      by (apply zsum_nonneg; intros [k' a] _; pose proof (sizes_nonneg a); unfold rs_len; pose proof (zlen_nonneg (text k')); lia).
    cbn [snd] in Hv. pose proof (sizes_nonneg v). unfold rs_len in *. pose proof (zlen_nonneg (text k)).
    unfold checked_decoded_add in *. rewrite checked_add_ok by lia. cbn [ok_or mbind result_bind]. rewrite Hv by lia. cbn [mbind result_bind].
    rewrite checked_add_ok by lia. cbn [ok_or]. rewrite IHes by lia. f_equal. lia.
Qed.

Lemma decoded_size_nonneg v : forall n, decoded_size_bytes v = Ok n -> 0 <= n.
Proof.
  assert (Hadd : forall a b c, checked_decoded_add a b = Ok c -> c = a + b).
  { unfold checked_decoded_add. intros a b c H. destruct (checked_add usize_max a b) as [d|] eqn:Hd; [|done].
    apply checked_add_Some in Hd as [-> _]. by injection H. }
  induction v as [|b|z|z|p|p|vs cap IH|es cap IH|m|v a IH] using validated_ind'; intros n H; cbn [decoded_size_bytes] in H; try (injection H as <-);
    try lia; try apply zlen_nonneg; [| |by apply IH].
  - rewrite Forall_forall in IH. revert H. apply (try_fold_ind _ (fun n => 0 <= n)); [|lia]. intros b v b' Hv Hb H.
    apply result_bind_Ok in H as (k & Hk & ->%Hadd). specialize (IH v Hv k Hk). lia.
  - rewrite Forall_forall in IH. revert H. apply (try_fold_ind _ (fun n => 0 <= n)); [|lia]. intros b [k v] b' Hv Hb H.
    apply result_bind_Ok in H as (d & ->%Hadd & H). apply result_bind_Ok in H as (j & Hj & ->%Hadd). specialize (IH _ Hv j Hj).
    unfold rs_len. pose proof (zlen_nonneg (text k)). lia.
Qed.

Lemma reads_attribute_structure a bs v v' : attribute_ok a -> encode_attribute 128 a = Ok bs -> zlen bs <= block_bound ->
  check_attribute v a = Ok v' -> Reads (validate_attribute_structure limits_1 MARKER_VERSION v) bs v'.
Proof.
  intros [Hk Hshape Hvs] H Hb Hcheck. pose proof (set_shape_ok _ _ Hshape) as (Hk0 & Hk1 & Hn0 & Hn1). unfold encode_attribute in H.
  apply then_Ok in H as (x1 & y1 & <-%Ok_inj & H & ->). apply then_Ok in H as (b2 & y2 & H2 & H & ->).
  apply then_Ok in H as (b3 & b4 & H3 & H & ->). zlens. pose proof (zlen_nonneg b2). pose proof (zlen_nonneg b3).
  set (set := stored_occurrences a) in *. unfold check_attribute in Hcheck. apply result_bind_Ok in Hcheck as (n & Hn & Hobs).
  eapply reads_skip; [apply reads_component|]. eapply (log_reads_bind _ _ [_]); [apply log_reads_u8|].
  eapply (reads_skip _ _ _ tt); [by apply reads_of; destruct (representation a)|].
  eapply (log_reads_bind _ _ [_]); [apply log_reads_u8|]. eapply reads_skip; [apply reads_of, namespace_roundtrip|].
  eapply log_reads_bind; [by apply reads_string_slice|]. rewrite bool_decide_false by done.
  eapply log_reads_bind; [apply reads_count; [done|]; unfold set_len in *; pose proof (zlen_nonneg (occurrences set)); cbn; lia|].
  rewrite (proj2 (Z.eqb_neq _ _)) by done. 
  replace (Z.to_nat (set_len set)) with (length (occurrences set)) by (unfold set_len, zlen; by rewrite Nat2Z.id).
  eapply (log_reads_map _ _ _ n); [|apply reads_of; unfold or_malformed; fold set in Hobs; unfold rs_len in Hobs; by rewrite Hobs].
  rewrite Forall_forall in Hvs. refine (reads_try_fold (fun v => value_encode v 128) _ _ _ _ _ _ _ H Hn).
  intros x b acc acc' Hx Hbx Hlen Hstep. pose proof (Hvs x Hx) as Hok.
  destruct (value_ok_codable 65536 x b Hok Hbx ltac:(lia)) as [Hc _]. pose proof (codable_sizes _ _ _ _ Hc) as [_ Hd].
  rewrite decoded_size_exact in Hstep by done. cbn [map_err mbind result_bind] in Hstep.
  eapply log_reads_map; [by apply reads_value_validate|]. apply reads_of. unfold size_add. cbn [summary sum_decoded_bytes].
  destruct (checked_add usize_max acc (decoded_total x)); [done|done].
Qed.

(** A validator that has counted [m] more bytes. *)
Definition shift (m : Z) (v : NativeRecordValidator) : NativeRecordValidator :=
  mkNativeRecordValidator (maximum_occurrences v) (decoded_limit v) (decoded_bytes v + m) (occurrences_by_namespace v).

Lemma add_decoded_Ok n v v' : add_decoded n v = Ok v' -> v' = shift n v /\ decoded_bytes v + n <= decoded_limit v.
Proof.
  unfold add_decoded. destruct (checked_add usize_max _ _) as [d|] eqn:Hd; [|done]. apply checked_add_Some in Hd as [-> _].
  destruct (Z.leb_spec (decoded_bytes v + n) (decoded_limit v)); [|done]. by intros [= <-].
Qed.

Lemma add_decoded_fits n v : decoded_bytes v + n <= decoded_limit v <= usize_max -> add_decoded n v = Ok (shift n v).
Proof. intros H. unfold add_decoded. rewrite checked_add_ok by lia. by rewrite (proj2 (Z.leb_le _ _)) by lia. Qed.

Lemma shift_shift m n v : shift m (shift n v) = shift n (shift m v).
Proof. unfold shift. cbn. f_equal. lia. Qed.

(** Observing an attribute adds to the bytes counted before. *)
Lemma check_attribute_Ok v a v' : check_attribute v a = Ok v' -> decoded_limit v' = decoded_limit v /\ decoded_bytes v <= decoded_bytes v' /\
  forall m, 0 <= m -> decoded_bytes v' + m <= decoded_limit v <= usize_max -> check_attribute (shift m v) a = Ok (shift m v').
Proof.
  unfold check_attribute. intros H. apply result_bind_Ok in H as (n & Hn & H).
  assert (0 <= n) as Hn0.
  { unfold occurrence_bytes in Hn. revert Hn. apply (try_fold_ind _ (fun n => 0 <= n)); [|lia]. intros b x b' _ Hb Hx.
    apply result_bind_Ok in Hx as (k & Hk & Hx). destruct (checked_add usize_max b k) as [c|] eqn:Hc; [|done]. apply checked_add_Some in Hc as [-> _].
    injection Hx as <-. destruct (decoded_size_bytes x) as [k'|] eqn:Hd; [|done]. injection Hk as ->.
    pose proof (decoded_size_nonneg x k Hd). lia. }
  unfold rs_len in *. pose proof (zlen_nonneg (text (key (stored_occurrences a)))) as Hk0.
  unfold observe_attribute in *. apply result_bind_Ok in H as (c & Hc & H). apply result_bind_Ok in H as (c' & Hc' & H).
  destruct (maximum_occurrences v <? c') eqn:Hmax; [done|]. apply result_bind_Ok in H as (v1 & H1 & H2).
  apply add_decoded_Ok in H1 as [-> H1]. apply add_decoded_Ok in H2 as [-> H2]. cbn in H1, H2 |- *.
  split; [done|]. split; [lia|]. intros m Hm Hle. rewrite Hn. cbn [mbind result_bind]. rewrite Hc. cbn [mbind result_bind]. rewrite Hc'.
  cbn [mbind result_bind]. rewrite Hmax, add_decoded_fits by (cbn; lia). cbn [mbind result_bind].
  rewrite add_decoded_fits by (cbn; lia). unfold shift. cbn. do 2 f_equal. lia.
Qed.

Lemma check_attributes_shift l : forall v v' m, try_fold check_attribute v l = Ok v' -> 0 <= m ->
  decoded_limit v' = decoded_limit v /\ decoded_bytes v <= decoded_bytes v' /\
  (decoded_bytes v' + m <= decoded_limit v <= usize_max -> try_fold check_attribute (shift m v) l = Ok (shift m v')).
Proof.
  induction l as [|a l IH]; intros v v' m H Hm; cbn [try_fold] in *; [injection H as <-; split; [done|split; [lia|done]]|].
  destruct (check_attribute v a) as [v1|] eqn:Ha; [|done]. apply check_attribute_Ok in Ha as (Hl & Hb & Hs).
  destruct (IH _ _ m H Hm) as (Hl' & Hb' & Hs'). rewrite Hl', Hl. split; [done|]. split; [lia|]. intros Hle.
  rewrite Hs by lia. apply Hs'. rewrite Hl. lia.
Qed.

Lemma validator_limit : decoded_limit new_validator = 1048576.
Proof. done. Qed.

(** The three sums that the semantic check of a record accepts. *)
Lemma checked_native_sums e o b l m p : is_ok (checked_native value_profile e o b l m p) = true ->
  exists nb k v, match b with Some b => decoded_size_bytes b | None => Ok 0 end = Ok nb /\ metadata_decoded_size_bytes m = Some k /\
    try_fold check_attribute (shift nb new_validator) l = Ok v /\ decoded_bytes v + k <= 1048576.
Proof.
  unfold checked_native. fold new_validator. intros H.
  assert (exists nb, match b with Some b => decoded_size_bytes b | None => Ok 0 end = Ok nb /\
    match b with Some b => map_err log_domain (decoded_size_bytes b) | None => Ok 0 end = Ok nb) as (nb & Hnb & Heq).
  { destruct b as [b|]; [|by exists 0]. destruct (decoded_size_bytes b) as [nb|]; [by exists nb|done]. }
  rewrite Heq in H. cbn [mbind result_bind] in H.
  destruct (observe_body nb new_validator) as [v1|] eqn:H1; [|done]. apply add_decoded_Ok in H1 as [-> _]. cbn [mbind result_bind] in H.
  destruct (try_fold check_attribute _ l) as [v|] eqn:Hf; [|done]. cbn [mbind result_bind] in H.
  destruct (metadata_decoded_size_bytes m) as [k|]; [|done]. cbn [ok_or mbind result_bind] in H.
  destruct (observe_metadata k v) as [v3|] eqn:H3; [|done]. apply add_decoded_Ok in H3 as [_ H3].
  apply (check_attributes_shift _ _ _ 0) in Hf as Hs; [|lia]. destruct Hs as (Hl & _ & _). rewrite Hl in H3. cbn in H3.
  by exists nb, k, v.
Qed.

Lemma metadata_size_nonneg m k : metadata_decoded_size_bytes m = Some k -> 0 <= k.
Proof.
  unfold metadata_decoded_size_bytes. cbn [try_fold_opt]. intros H.
  repeat match type of H with context [checked_add ?M ?a ?b] => let E := fresh in destruct (checked_add M a b) eqn:E; [|done]; apply checked_add_Some in E as [-> _] end.
  injection H as <-. repeat match goal with |- context [zlen ?b] => lazymatch goal with _ : 0 <= zlen b |- _ => fail | _ => pose proof (zlen_nonneg b) end end. lia.
Qed.

Lemma reads_body_structure b nb bs : match b with Some b => value_ok 262144 b | None => True end ->
  match b with Some b => decoded_size_bytes b | None => Ok 0 end = Ok nb ->
  encode_optional (fun b => value_encode b 128) b = Ok bs -> zlen bs <= block_bound ->
  Reads (dec_optional (value_validate 128 262144 limits_1 MARKER_VERSION)) bs (summary <$> b) /\
  sum_decoded_bytes <$> (summary <$> b) = match b with Some _ => Some nb | None => None end.
Proof.
  intros Hok Hnb H Hb. split.
  - apply (reads_optional (fun b => value_encode b 128)); [done|]. intros v bv -> Hv. cbn [encode_optional] in H.
    apply then_Ok in H as (? & bv' & [= <-] & H & ->). zlens. replace bv' with bv in * by congruence.
    apply reads_value_validate; [|done]. apply (value_ok_codable 262144 v bv Hok Hv). lia.
  - destruct b as [v|]; [|done]. cbn [encode_optional] in H. apply then_Ok in H as (? & bv & [= <-] & H & ->). zlens.
    destruct (value_ok_codable 262144 v bv Hok H ltac:(lia)) as [Hc _]. pose proof (codable_sizes _ _ _ _ Hc) as [_ Hd].
    rewrite decoded_size_exact in Hnb by done. injection Hnb as <-. done.
Qed.

Lemma reads_structure r bs : record_ok (log_record_of r) -> i64_ok (nanos (instant (ingest_time_of r))) -> encode_record 128 r = Ok bs ->
  zlen bs <= block_bound -> Reads (validate_structure_with_ingest_time limits_1 MARKER_VERSION) bs (instant (ingest_time_of r)).
Proof.
  intros [He Ho Hm Hb Ha Hg Hp Hn] Hi H Hlen. unfold encode_record in H. set (l := log_record_of r) in *.
  apply then_Ok in H as (x1 & y1 & <-%Ok_inj & H & ->). apply then_Ok in H as (b2 & y2 & H2 & H & ->).
  apply then_Ok in H as (b3 & y3 & H3 & H & ->). apply then_Ok in H as (x4 & y4 & <-%Ok_inj & H & ->).
  apply then_Ok in H as (b5 & y5 & H5 & H & ->). apply then_Ok in H as (b6 & y6 & H6 & H & ->).
  apply then_Ok in H as (b7 & b8 & H7 & H8 & ->). rewrite !zlen_app in Hlen.
  repeat match type of Hlen with context [zlen ?b] => lazymatch goal with _ : 0 <= zlen b |- _ => fail | _ => pose proof (zlen_nonneg b) end end.
  destruct (checked_native_sums _ _ _ _ _ _ Hn) as (nb & k & v & Hnb & Hk & Hf & Hsum). pose proof (metadata_size_nonneg _ _ Hk) as Hk0.
  destruct (check_attributes_shift _ _ _ k Hf Hk0) as (_ & Hmono & Hshift). cbn in Hmono.
  destruct (reads_body_structure _ _ _ Hb Hnb H5 ltac:(lia)) as [Hbr Hbs].
  assert (0 <= nb) as Hnb0. { destruct (body l) as [b|]; [by apply decoded_size_nonneg in Hnb|injection Hnb as <-; lia]. }
  eapply reads_skip; [apply reads_component|]. eapply log_reads_bind; [by apply reads_event_time|].
  eapply log_reads_bind; [by apply reads_observed|].
  eapply log_reads_bind; [eapply log_reads_map; [by apply reads_metadata|apply reads_of; by rewrite Hk]|].
  eapply reads_skip; [apply reads_of; unfold or_malformed, observe_metadata; fold new_validator; rewrite add_decoded_fits; [done|cbn; unfold usize_max; lia]|].
  eapply log_reads_bind; [by apply reads_i64|]. eapply log_reads_bind; [exact Hbr|].
  apply (reads_skip _ _ _ (shift k (shift nb new_validator))).
  { apply reads_of. destruct (body l) as [b|]; cbn [fmap option_fmap option_map].
    - apply Some_inj in Hbs. cbn in Hbs. cbn [summary sum_decoded_bytes]. rewrite Hbs. unfold or_malformed, observe_body.
      rewrite add_decoded_fits by (cbn; unfold usize_max; lia). by rewrite shift_shift.
    - injection Hnb as <-. unfold shift. cbn. done. }
  pose proof (zlen_nonneg (record_attributes l)).
  eapply log_reads_bind; [apply reads_count; [done|cbn; lia]|].
  replace (Z.to_nat (zlen (record_attributes l))) with (length (record_attributes l)) by (unfold zlen; by rewrite Nat2Z.id).
  eapply log_reads_bind.
  { rewrite Forall_forall in Ha. refine (reads_try_fold (encode_attribute 128) _ check_attribute _ _ _ _ _ H7 (Hshift _)); [|cbn; unfold usize_max; lia].
    intros x b acc acc' Hx Hbx Hlx Hc. apply (reads_attribute_structure x); [by apply Ha|done|lia|done]. }
  eapply log_reads_map; [eapply log_reads_map; [by apply reads_rules|apply log_reads_ret]|].
  destruct (instant (ingest_time_of r)). apply log_reads_ret.
Qed.

(** ** Blocks *)

Lemma each_app {A} (f : A -> result LogStoreFailure bytes) l k bs : each f (l ++ k) = Ok bs ->
  exists b1 b2, each f l = Ok b1 /\ each f k = Ok b2 /\ bs = b1 ++ b2.
Proof.
  revert bs. induction l as [|x l IH]; intros bs H; cbn [app] in H; [by exists [], bs|]. rewrite each_cons in H.
  apply then_Ok in H as (b1 & b2 & Hx & (b3 & b4 & H3 & H4 & ->)%IH & ->). exists (b1 ++ b3), b4. rewrite each_cons, Hx, H3.
  by rewrite app_assoc.
Qed.

Lemma reads_times {A} (f : A -> result LogStoreFailure bytes) m l bs :
  (forall x b, x ∈ l -> f x = Ok b -> zlen b <= zlen bs -> Reads m b tt) -> each f l = Ok bs -> Reads (dec_times (length l) m) bs tt.
Proof.
  revert bs. induction l as [|x l IH]; intros bs Hm H; cbn [length dec_times]; [injection H as <-; apply log_reads_ret|].
  rewrite each_cons in H. apply then_Ok in H as (b1 & b2 & Hx & Hl & ->). rewrite zlen_app in Hm.
  pose proof (zlen_nonneg b1). pose proof (zlen_nonneg b2).
  eapply log_reads_bind; [apply (Hm x); [apply list_elem_of_here|done|lia]|].
  apply IH; [|done]. intros y b Hy Hb Hlen. apply (Hm y); [by apply list_elem_of_further|done|lia].
Qed.

(** The end of a decoder that looks at the whole input. *)
Lemma runs_after {A B} (m : Dec unit A) (k : A -> Dec unit B) b1 b2 a r :
  Reads m b1 a -> k a (Input_new b2) tt = r -> (m ≫= k) (Input_new (b1 ++ b2)) tt = r.
Proof. intros Hm Hk. unfold mbind, Dec_bind. by rewrite Hm. Qed.

Lemma runs_skip {A B} (m : Dec unit A) (k : A -> Dec unit B) b a r :
  Reads m [] a -> k a (Input_new b) tt = r -> (m ≫= k) (Input_new b) tt = r.
Proof. apply (runs_after m k []). Qed.

Lemma reads_unpolled : Reads (check_cancelled false) [] tt.
Proof. done. Qed.

Lemma reads_finish : Reads finish_component_observation [] tt.
Proof. done. Qed.

Lemma reads_counted : Reads observe_decoded_record [] tt.
Proof. done. Qed.

(** The records of a block and the ingest time that the block authenticates for them. *)
Definition storable (block : CommittedBlock) (r : StoredLogRecord) : Prop :=
  record_ok (log_record_of r) /\ i64_ok (nanos (instant (ingest_time_of r))) /\
  observe_ingest_time block (instant (ingest_time_of r)) = Ok (ingest_time_of r).

Lemma reads_observation block r bs : storable block r -> encode_record 128 r = Ok bs -> zlen bs <= block_bound ->
  Reads (_ ← check_cancelled false; validate_structure_for_observation limits_1 MARKER_VERSION block) bs tt.
Proof.
  intros (Hok & Hi & Ht) H Hb. eapply reads_skip; [apply reads_unpolled|]. eapply log_reads_map; [by apply reads_structure|].
  eapply reads_skip; [apply reads_of; by rewrite Ht|]. apply log_reads_ret.
Qed.

Lemma reads_stored block r bs : storable block r -> encode_record 128 r = Ok bs -> zlen bs <= block_bound ->
  exists r', stored_view r = stored_view r' /\ forall acc, Reads (
    _ ← check_cancelled false;
    decoded ← record_decode limits_1 MARKER_VERSION;
    r ← dec_of (into_stored block decoded);
    _ ← observe_decoded_record;
    mret (acc ++ [r])) bs (acc ++ [r']).
Proof.
  intros (Hok & Hi & Ht) H Hb. destruct (reads_record r bs Hok Hi H Hb) as (d & Hview & Hd & Hread).
  exists (mkStoredLogRecord (dr_record d) (ingest_time_of r)). split; [unfold stored_view; cbn [log_record_of ingest_time_of]; by rewrite Hview|].
  intros acc. eapply reads_skip; [apply reads_unpolled|]. eapply log_reads_map; [exact Hread|].
  eapply reads_skip; [apply reads_of; unfold into_stored; by rewrite Hd, Ht|]. eapply reads_skip; [apply reads_counted|]. apply log_reads_ret.
Qed.

(** Decoding the records of a block: some are skipped, some are returned, the others are checked. *)
Lemma block_records_read block skip limit rs bs : 0 <= skip -> 0 <= limit -> Forall (storable block) rs ->
  each (encode_record 128) rs = Ok bs -> zlen bs <= block_bound -> exists rs',
    decode_block_records false block skip limit MARKER_VERSION limits_1 (zlen rs) (Input_new bs) tt = (Input_new [], tt, Ok rs') /\
    map stored_view (take (Z.to_nat limit) (drop (Z.to_nat skip) rs)) = map stored_view rs'.
Proof.
  intros Hskip Hlimit Hrs H Hb. set (n := Z.to_nat skip). set (m := Z.to_nat limit).
  rewrite <- (take_drop n rs) in H. apply each_app in H as (b1 & b23 & H1 & H & ->).
  rewrite <- (take_drop m (drop n rs)) in H. apply each_app in H as (b2 & b3 & H2 & H3 & ->). rewrite !zlen_app in Hb.
  pose proof (zlen_nonneg b1). pose proof (zlen_nonneg b2). pose proof (zlen_nonneg b3). rewrite Forall_forall in Hrs.
  assert (Hsub : forall r, r ∈ take n rs \/ r ∈ take m (drop n rs) \/ r ∈ drop m (drop n rs) -> storable block r).
  { intros r Hr. apply Hrs. rewrite <- (take_drop n rs), <- (take_drop m (drop n rs)), !elem_of_app. tauto. }
  edestruct (reads_gather (encode_record 128) (fun rs => _ ← check_cancelled false;
    decoded ← record_decode limits_1 MARKER_VERSION; r ← dec_of (into_stored block decoded); _ ← observe_decoded_record; mret (rs ++ [r]))
    (fun r r' => stored_view r = stored_view r') (take m (drop n rs)) b2) as (rs' & Hview & Hloop); [|exact H2|].
  { intros r b Hr Hrb Hlen. apply (reads_stored block r b); [apply Hsub; tauto|done|unfold zlen in *; lia]. }
  exists rs'. split; [|by apply Forall2_map_eq]. unfold decode_block_records.
  replace (Z.to_nat (Z.min skip (zlen rs))) with (length (take n rs)) by (rewrite length_take; unfold zlen; lia).
  replace (Z.min (saturating_sub (zlen rs) (Z.min skip (zlen rs))) limit) with (zlen (take m (drop n rs)))
    by (unfold zlen, saturating_sub; rewrite length_take, length_drop; lia).
  replace (Z.to_nat (zlen (take m (drop n rs)))) with (length (take m (drop n rs))) by (unfold zlen; lia).
  replace (Z.to_nat (zlen rs - (Z.min skip (zlen rs) + zlen (take m (drop n rs))))) with (length (drop m (drop n rs)))
    by (unfold zlen; rewrite !length_drop, !length_take, !length_drop; lia).
  apply (runs_after _ _ b1 _ tt); [apply (reads_times (encode_record 128)); [|done]; intros r b Hr Hrb Hlen; apply (reads_observation _ r); [apply Hsub; tauto|done|lia]|].
  eapply runs_skip; [apply reads_vec|]. eapply runs_after; [apply (Hloop [])|]. eapply runs_skip; [apply reads_finish|].
  unfold on_remaining_input. change (remaining_input (Input_new b3)) with (Input_new b3). rewrite <- (app_nil_r b3).
  apply (runs_after _ _ b3 _ tt); [apply (reads_times (encode_record 128)); [|done]; intros r b Hr Hrb Hlen; apply (reads_observation _ r); [apply Hsub; tauto|done|lia]|].
  done.
Qed.

Lemma block_length_bound ls n : encoded_block_length ls = Ok n -> n <= MAX_BLOCK_BYTES.
Proof.
  unfold encoded_block_length. rewrite release_1_value. cbn [mbind result_bind]. destruct (_ || _); [done|].
  apply (try_fold_ind _ (fun n => n <= MAX_BLOCK_BYTES)); [|done]. intros b l b' _ _ H.
  apply result_bind_Ok in H as (k & _ & H). by apply bounded_add_Ok in H as [_ H].
Qed.

(** The bytes of a block: its header, then its records. *)
Lemma encode_block_parts tenant rs n bs : zlen (tenant_id_bytes tenant) = 16 -> encode_block tenant rs n = Ok bs ->
  exists records, bs = MAGIC ++ be_bytes 2 MARKER_VERSION ++ tenant_id_bytes tenant ++ be_bytes 2 (zlen rs) ++ records /\
    each (encode_record 128) rs = Ok records /\ 1 <= zlen rs <= 1024.
Proof.
  intros Ht. unfold encode_block. rewrite release_1_value. cbn [mbind result_bind]. destruct (_ || _) eqn:Hg; [done|].
  apply orb_false_iff in Hg as [Hne%bool_decide_eq_false Hg%Z.ltb_ge]. cbn in Hg. change (lim_nesting_depth limits_1) with 128.
  intros H. apply result_bind_Ok in H as (out & Hout & H). destruct (_ =? _); [|done]. apply Ok_inj in H as <-.
  apply then_Ok in Hout as (x1 & y1 & <-%Ok_inj & H & ->). apply then_Ok in H as (x2 & y2 & <-%Ok_inj & H & ->).
  apply then_Ok in H as (x3 & y3 & <-%Ok_inj & H & ->). apply then_Ok in H as (x4 & records & [_ ->]%put_count_inv & H & ->).
  exists records. split; [done|]. split; [done|]. destruct rs; [done|]. rewrite zlen_cons in *. pose proof (zlen_nonneg rs). lia.
Qed.

Lemma bytes_eqb_refl b : bytes_eqb b b = true.
Proof. by apply bytes_eqb_true. Qed.

Lemma reads_block_header tenant (rs : list StoredLogRecord) : zlen (tenant_id_bytes tenant) = 16 -> 1 <= zlen rs <= 1024 ->
  Reads (decode_block_header_with tenant limits_1)
    (MAGIC ++ be_bytes 2 MARKER_VERSION ++ tenant_id_bytes tenant ++ be_bytes 2 (zlen rs)) (MARKER_VERSION, zlen rs).
Proof.
  intros Ht Hn. eapply log_reads_bind; [by apply log_reads_take|]. rewrite bytes_eqb_refl. cbn [negb].
  eapply log_reads_bind; [apply log_reads_u16; unfold in_u, MARKER_VERSION, u16_max; lia|]. cbn [negb orb MARKER_VERSION LEGACY_VERSION METADATA_VERSION Z.eqb Pos.eqb].
  eapply log_reads_bind; [by apply log_reads_take|]. rewrite bytes_eqb_refl. cbn [negb].
  eapply log_reads_map; [apply (reads_count _ (zlen rs)); [|cbn; lia]|].
  - unfold put_count. rewrite (proj2 (Z.leb_le _ _)) by (unfold u16_max; lia). done.
  - rewrite (proj2 (Z.eqb_neq _ _)) by lia. apply log_reads_ret.
Qed.
End blocks.

(** C20 (roundtrip). A list of records of one ingest time, each as its constructor admits it and with at
    most 3072 attribute groups, that the size pass accepts is written with exactly the
    announced number of bytes, and reading the committed block back for its tenant returns the first
    [limit] records, each with its event and observed times, body, attributes, metadata, provenance
    and the ingest time of the block; the records past the limit are validated and dropped. The bound
    on attribute groups is the decoder's own, below what a record may hold; the size pass does
    not check it. *)
Theorem log_block_roundtrip {Lay : Layout} {Env : ScanEnvironment unit} tenant t rs n limit :
  zlen (tenant_id_bytes tenant) = 16 -> 0 <= limit -> i64_ok (nanos (instant t)) ->
  Forall (fun r => record_ok (log_record_of r) /\ ingest_time_of r = t) rs ->
  encoded_block_length (map log_record_of rs) = Ok n ->
  exists bs rs', encode_block tenant rs n = Ok bs /\ zlen bs = n /\
    decode_block tenant (mkCommittedBlock bs (RetentionComplete t)) limit tt = (tt, Ok rs') /\
    map stored_view rs' = map stored_view (take (Z.to_nat limit) rs).
Proof.
  intros Ht Hlimit Hi Hrs Hn. destruct (block_writes tenant rs n Ht) as (bs & Hbs & Hlen); [|done|].
  { eapply Forall_impl; [exact Hrs|]. by intros r [? _]. }
  pose proof (block_length_bound _ _ Hn) as Hmax. destruct (encode_block_parts _ _ _ _ Ht Hbs) as (records & -> & Hrec & Hcount).
  set (block := mkCommittedBlock (MAGIC ++ be_bytes 2 MARKER_VERSION ++ tenant_id_bytes tenant ++ be_bytes 2 (zlen rs) ++ records) (RetentionComplete t)).
  destruct (block_records_read block 0 limit rs records) as (rs' & Hdec & Hview); [lia|done| |done| |].
  - eapply Forall_impl; [exact Hrs|]. intros r [Hok <-]. split; [done|]. split; [done|].
    unfold observe_ingest_time. cbn. by rewrite bool_decide_true.
  - rewrite !zlen_app in Hlen. unfold MAX_BLOCK_BYTES, block_bound in *. rewrite !zlen_be_bytes in Hlen. pose proof (zlen_nonneg MAGIC). lia.
  - exists (payload block), rs'. split; [done|]. split; [done|]. rewrite drop_0 in Hview. split; [|done].
    change (mkCommittedBlock (payload block) (RetentionComplete t)) with block. unfold decode_block, decode_block_cancellable.
    enough (decode_after false tenant block 0 limit (Input_new (payload block)) tt = (Input_new [], tt, Ok rs')) as -> by done.
    eapply runs_skip; [apply reads_component|]. apply (runs_skip (dec_of release_1) _ _ limits_1); [by apply reads_of|].
    replace (payload block) with ((MAGIC ++ be_bytes 2 MARKER_VERSION ++ tenant_id_bytes tenant ++ be_bytes 2 (zlen rs)) ++ records)
      by (by rewrite <- !app_assoc).
    eapply runs_after; [by apply reads_block_header|]. exact Hdec.
Qed.

(** C39 (safety). A block written for one tenant is refused for every other tenant, before any of
    its records is read. *)
Theorem log_block_is_tenant_scoped {Lay : Layout} {Env : ScanEnvironment unit} tenant other retention rs n bs limit :
  zlen (tenant_id_bytes tenant) = 16 -> tenant_id_bytes other <> tenant_id_bytes tenant -> encode_block tenant rs n = Ok bs ->
  decode_block other (mkCommittedBlock bs retention) limit tt = (tt, Err physical_scope_mismatch).
Proof.
  intros Ht Hne H. destruct (encode_block_parts _ _ _ _ Ht H) as (records & -> & _ & _).
  unfold decode_block, decode_block_cancellable. cbn [payload].
  set (block := mkCommittedBlock _ _). set (tail := be_bytes 2 (zlen rs) ++ records).
  enough (decode_after false other block 0 limit (Input_new (MAGIC ++ be_bytes 2 MARKER_VERSION ++ tenant_id_bytes tenant ++ tail)) tt
    = (Input_new tail, tt, Err physical_scope_mismatch)) as -> by done.
  eapply runs_skip; [apply reads_component|]. apply (runs_skip (dec_of release_1) _ _ limits_1); [by apply reads_of|].
  unfold mbind at 1, Dec_bind at 1.
  enough (decode_block_header_with other limits_1 (Input_new (MAGIC ++ be_bytes 2 MARKER_VERSION ++ tenant_id_bytes tenant ++ tail)) tt
    = (Input_new tail, tt, Err physical_scope_mismatch)) as -> by done.
  eapply runs_after; [by apply log_reads_take|]. rewrite bytes_eqb_refl. cbn [negb].
  eapply runs_after; [apply log_reads_u16; unfold in_u, MARKER_VERSION, u16_max; lia|]. cbn [negb orb MARKER_VERSION LEGACY_VERSION METADATA_VERSION Z.eqb Pos.eqb].
  eapply runs_after; [by apply log_reads_take|]. unfold bytes_eqb. by rewrite bool_decide_false by congruence.
Qed.

(** *** A sample block *)

Definition sample_layout : Layout := {| size_of_ValidatedAttributeValue := 56; size_of_positive := eq_refl; size_of_within_slot := ltac:(done) |}.
Definition sample_tenant : TenantId := mkTenantId (replicate 16 7).
Definition sample_text (s : string) : RString := mkRString (bytes_of_string s) (zlen (bytes_of_string s)).
Definition sample_attribute (ns : AttributeNamespace) : StoredLogAttribute :=
  mkStoredLogAttribute Generic (mkOccurrenceSet ns (sample_text "k")
    [VNull; VKeyValueList [(sample_text "x", VBoolean true)] 1; VMarker (mkRedactionMarker KString Redacted)] 3).
Definition sample_metadata : LogMetadata :=
  mkLogMetadata (-1) (bytes_of_string "WARN") [] (Some (replicate 16 1)) None 1 0 0 [] (bytes_of_string "scope") [] 0 [].
Definition sample_provenance : PolicyProvenance := mkProvenance 3 (replicate 32 9) [sample_text "mask"] 1.
Definition sample_record : LogRecord :=
  mkLogRecord (mkEventTime (Some (mkUnixNanoseconds (-5))) Usable None) (Some (mkObservedTime (mkUnixNanoseconds 8) Usable))
    (Some (VArray [VSignedInteger (-1); VTruncated (VString (sample_text "ab")) TruncatedBytes] 2))
    [sample_attribute NsRecord; sample_attribute NsResource] sample_metadata sample_provenance.
Definition sample_time : IngestTime := from_authenticated_durable (mkUnixNanoseconds 100).
Definition sample_block : list StoredLogRecord := replicate 3 (mkStoredLogRecord sample_record sample_time).

Lemma sample_value_ok vb v : 8 <= vb -> native_typed (validated_native v) ->
  is_ok (shape_validate (exact_candidate v) system (mkByteLimit vb) 128) = true -> value_ok vb v.
Proof. intros _ Ht Hs. split; [done|]. destruct (shape_validate _ _ _ _) as [n|]; [by exists n|done]. Qed.

Lemma sample_attribute_ok ns : attribute_ok (sample_attribute ns).
Proof.
  split; [done|done|]. repeat apply Forall_cons_2; [..|done]; (apply sample_value_ok; [lia| |vm_compute; reflexivity]); cbn; done.
Qed.

Lemma sample_record_ok : record_ok sample_record.
Proof.
  split.
  - right. exists (mkUnixNanoseconds (-5)), Usable. split; [unfold i64_ok, i64_min, i64_max; cbn; lia|done].
  - exists (mkUnixNanoseconds 8), Usable. split; [unfold i64_ok, i64_min, i64_max; cbn; lia|done].
  - split; try (unfold in_u, u32_max, i32_min, i32_max; cbn; lia); try done. repeat apply Forall_cons_2; done.
  - apply sample_value_ok; [lia| |vm_compute; reflexivity]. cbn. unfold i64_min, i64_max. split; [lia|done].
  - repeat apply Forall_cons_2; [apply sample_attribute_ok..|done].
  - cbn. unfold zlen. cbn. lia.
  - split; [unfold in_u, u64_max; cbn; lia|done|by repeat apply Forall_cons_2|vm_compute; reflexivity].
  - vm_compute. reflexivity.
Qed.

Lemma log_block_roundtrip_witness : exists bs rs', encode_block sample_tenant sample_block 685 = Ok bs /\ zlen bs = 685 /\
  decode_block (Lay := sample_layout) (Env := QuietEnvironment unit) sample_tenant (mkCommittedBlock bs (RetentionComplete sample_time)) 2 tt = (tt, Ok rs') /\
  map stored_view rs' = map stored_view (take 2 sample_block).
Proof.
  apply (@log_block_roundtrip sample_layout (QuietEnvironment unit) sample_tenant sample_time sample_block 685 2).
  - reflexivity.
  - lia.
  - unfold i64_ok, i64_min, i64_max; cbn; lia.
  - repeat apply Forall_cons_2; [split; [apply sample_record_ok|reflexivity]..|constructor].
  - vm_compute. reflexivity.
Defined.

Lemma log_block_is_tenant_scoped_witness : exists bs, encode_block sample_tenant sample_block 685 = Ok bs /\
  decode_block (Lay := sample_layout) (Env := QuietEnvironment unit) (mkTenantId (replicate 16 8)) (mkCommittedBlock bs (RetentionComplete sample_time)) 2 tt
  = (tt, Err physical_scope_mismatch).
Proof.
  destruct (encode_block sample_tenant sample_block 685) as [bs|e] eqn:H; [|vm_compute in H; discriminate H].
  exists bs. split; [reflexivity|].
  apply (@log_block_is_tenant_scoped sample_layout (QuietEnvironment unit) sample_tenant _ _ sample_block 685); [reflexivity|discriminate|exact H].
Defined.
