(* ===== verification/LogScenarios.v ===== *)
(** Log store: the value decoder ends on every input.

    Arrays and lists lower the depth that is left, truncation markers do not: what bounds the
    recursion is the input itself, of which every level consumes a byte. So any fuel above the
    number of bytes that are left gives the same result, for every allocator, observer and
    cancellation.

    Log store: two boundary behaviours of the block format.

    Records at the edge of the format: more attribute groups than the decoder admits, and a
    truncation marker whose recorded kind is not that of the value it wraps. *)

From Stdlib Require Import Ascii String.
From S2P Require Import Prelude Outcome Identity Limits SourceTime Values Observe Traversal Validation Shape CanonicalEncoding Occurrences PolicyModel PolicyCodec PolicyEvaluation RetentionTime LogStore LogCodec LogReads ValueLayout LogRoundtrip LogBlocks.

Section termination.
Context {S : Type} {Alloc : Allocator S} {Lay : Layout} {Env : ScanEnvironment S}.

(** The bytes that are left. *)
Definition left (i : Input) : nat := length (remaining i).

(** A decoder that succeeds has consumed at least [k] bytes. *)
Definition consumes {A} (k : nat) (m : Dec S A) : Prop := forall i s i' s' a, m i s = (i', s', Ok a) -> (left i' + k <= left i)%nat.

Lemma consumes_ret {A} (a : A) : consumes 0 (mret a).
Proof. intros i s i' s' b [= <- _ _]. lia. Qed.

Lemma consumes_of {A} (r : result LogStoreFailure A) : consumes 0 (dec_of r).
Proof. intros i s i' s' b [= <- _ _]. lia. Qed.

Lemma consumes_bind {A B} k1 k2 (m : Dec S A) (f : A -> Dec S B) : consumes k1 m -> (forall a, consumes k2 (f a)) -> consumes (k1 + k2) (m ≫= f).
Proof.
  intros Hm Hf i s i' s' b. unfold mbind, Dec_bind. destruct (m i s) as [[i1 s1] [a|]] eqn:H1; [|done].
  apply Hm in H1. intros H2%Hf. lia.
Qed.

Lemma consumes_le {A} k k' (m : Dec S A) : (k' <= k)%nat -> consumes k m -> consumes k' m.
Proof. intros Hk Hm i s i' s' a H%Hm. lia. Qed.

Lemma consumes_then {A B} (m : Dec S A) (f : A -> Dec S B) : consumes 0 m -> (forall a, consumes 0 (f a)) -> consumes 0 (m ≫= f).
Proof. apply (consumes_bind 0 0). Qed.

Lemma consumes_poll : consumes 0 poll_cancellation.
Proof.
  intros i s i' s' []. unfold poll_cancellation. destruct (has_cancellation i); [|intros [= <- _]; lia].
  destruct (is_cancelled s) as [s1 []]; [done|]. intros [= <- _]. lia.
Qed.

Lemma consumes_times n (m : Dec S unit) : consumes 0 m -> consumes 0 (dec_times n m).
Proof. intros Hm. induction n; [apply consumes_ret|]. by apply consumes_then. Qed.

Lemma consumes_loop {B} n (step : B -> Dec S B) : (forall b, consumes 0 (step b)) -> forall b, consumes 0 (dec_loop n step b).
Proof. intros Hs. induction n; intros b; [apply consumes_ret|]. by apply consumes_then. Qed.

Lemma consumes_take n : consumes (Z.to_nat n) (dec_take n).
Proof.
  apply (consumes_bind 0 (Z.to_nat n)); [apply consumes_then; [apply consumes_poll|intros _; apply consumes_times, consumes_poll]|]. intros _ i s i' s' b.
  unfold dec_split. destruct (Z.leb_spec n (zlen (remaining i))); [|done]. intros [= <- _ _]. unfold left, set_remaining. cbn [remaining].
  rewrite length_drop. unfold zlen in *. lia.
Qed.

Lemma consumes_u8 : consumes 1 dec_u8.
Proof. apply (consumes_bind 1 0); [apply (consumes_take 1)|]. intros b. apply consumes_of. Qed.

Lemma consumes_bytes {A} n (f : bytes -> Dec S A) : (forall b, consumes 0 (f b)) -> consumes 0 (b ← dec_take n; f b).
Proof. intros Hf. apply consumes_then; [|done]. eapply consumes_le; [|apply consumes_take]. lia. Qed.

Lemma consumes_uint n : consumes 0 (dec_uint n).
Proof. apply consumes_bytes. intros b. apply consumes_ret. Qed.

Lemma consumes_count maximum : consumes 0 (dec_count maximum).
Proof. apply consumes_then; [apply consumes_uint|]. intros c. destruct (_ <? _); [apply consumes_of|apply consumes_ret]. Qed.

Lemma consumes_slice maximum : consumes 0 (dec_bytes_slice maximum).
Proof.
  apply consumes_then; [apply consumes_uint|]. intros c. destruct (_ <? _); [apply consumes_of|].
  eapply consumes_le; [|apply consumes_take]. lia.
Qed.

Lemma consumes_string maximum : consumes 0 (dec_string_slice maximum).
Proof. apply consumes_then; [apply consumes_slice|]. intros b. destruct (utf8_valid b); [apply consumes_ret|apply consumes_of]. Qed.

Lemma consumes_vec n : consumes 0 (bounded_vec n).
Proof. intros i s i' s' a. unfold bounded_vec. destruct (try_reserve_exact n s). intros [= <- _ _]. lia. Qed.

Lemma consumes_try_string b : consumes 0 (dec_try_string b).
Proof. apply consumes_then; [apply consumes_vec|]. intros. apply consumes_ret. Qed.

Lemma consumes_report : consumes 0 report_work.
Proof. intros i s i' s' a. unfold report_work. destruct (observe_work 1 s). intros [= <- _ _]. lia. Qed.

Lemma consumes_component : consumes 0 observe_component.
Proof.
  apply consumes_then; [apply consumes_poll|]. intros _ i s i' s' a. unfold count_component.
  destruct (has_observer i); [|intros [= <- _ _]; lia]. destruct (quantized_components i); [|apply consumes_report].
  destruct (_ =? 64); [|intros [= <- _ _]; unfold left, set_pending; cbn; lia].
  apply (consumes_then report_work); [apply consumes_report|]. intros _ j u j' u' b [= <- _ _]. unfold left, set_pending. cbn. lia.
Qed.

(** ** Two decoders that agree on inputs of at most [n] bytes *)

Definition agree {A} (n : nat) (m m' : Dec S A) : Prop := forall i s, (left i <= n)%nat -> m i s = m' i s.

Lemma agree_refl {A} n (m : Dec S A) : agree n m m.
Proof. done. Qed.

Lemma agree_bind {A B} n (m m' : Dec S A) (f f' : A -> Dec S B) : agree n m m' -> consumes 0 m -> (forall a, agree n (f a) (f' a)) ->
  agree n (m ≫= f) (m' ≫= f').
Proof.
  intros Hm Hc Hf i s Hi. unfold mbind, Dec_bind. rewrite <- (Hm i s Hi). destruct (m i s) as [[i1 s1] [a|]] eqn:H; [|done].
  apply Hc in H. apply Hf. lia.
Qed.

(** After a byte was consumed it is enough to agree on shorter inputs. *)
Lemma agree_shorter {A B} n (m : Dec S A) (f f' : A -> Dec S B) : consumes 1 m -> (forall a k, (k < n)%nat -> agree k (f a) (f' a)) ->
  agree n (m ≫= f) (m ≫= f').
Proof.
  intros Hc Hf i s Hi. unfold mbind, Dec_bind. destruct (m i s) as [[i1 s1] [a|]] eqn:H; [|done].
  apply Hc in H. apply (Hf a (left i1)); lia.
Qed.

(** The first step is the same on both sides. *)
Lemma agree_after {A B} n (m : Dec S A) (f f' : A -> Dec S B) : consumes 0 m -> (forall a, agree n (f a) (f' a)) -> agree n (m ≫= f) (m ≫= f').
Proof. intros Hm Hf. by apply agree_bind. Qed.

(** The continuation is the same on both sides. *)
Lemma agree_head {A B} n (m m' : Dec S A) (f : A -> Dec S B) : agree n m m' -> agree n (m ≫= f) (m' ≫= f).
Proof. intros Hm i s Hi. unfold mbind, Dec_bind. by rewrite Hm. Qed.

Lemma agree_loop {B} n k (step step' : B -> Dec S B) : (forall b, agree n (step b) (step' b)) -> (forall b, consumes 0 (step b)) ->
  forall b, agree n (dec_loop k step b) (dec_loop k step' b).
Proof.
  intros Ha Hc. induction k; intros b; [done|]. cbn [dec_loop]. by apply agree_bind.
Qed.

Create HintDb consume.
Hint Resolve consumes_ret consumes_of consumes_count consumes_slice consumes_string consumes_vec consumes_try_string consumes_component
  consumes_uint consumes_poll : consume.
Hint Extern 1 (consumes 0 (_ ≫= _)) => apply consumes_then : consume.
Hint Extern 1 (consumes 0 malformed) => apply consumes_of : consume.
Hint Extern 1 (consumes 0 dec_u8) => apply (consumes_le 1 0); [lia|apply consumes_u8] : consume.
Hint Extern 2 (consumes 0 (if ?c then _ else _)) => destruct c : consume.
Hint Extern 2 (consumes 0 (match ?c with _ => _ end)) => destruct c : consume.
Hint Extern 1 (consumes 0 (dec_loop _ _ _)) => apply consumes_loop : consume.

(** ** The value decoder *)

Lemma reserve_consumes mode n : consumes 0 (reserve_elements mode n).
Proof. destruct mode; cbn [reserve_elements]; auto with consume. Qed.
Hint Resolve reserve_consumes : consume.

Lemma array_consumes (f : Z -> Dec S DecodedValue) depth L mode : (forall d, consumes 0 (f d)) -> consumes 0 (decode_array f depth L mode).
Proof. intros Hf. unfold decode_array. auto 20 with consume. Qed.

Lemma list_consumes (f : Z -> Dec S DecodedValue) depth L mode : (forall d, consumes 0 (f d)) -> consumes 0 (decode_key_value_list f depth L mode).
Proof. intros Hf. unfold decode_key_value_list. auto 20 with consume. Qed.

Lemma marker_consumes (m : Dec S DecodedValue) mode : consumes 0 m -> consumes 0 (decode_marker m mode).
Proof. intros Hm. unfold decode_marker. auto 20 with consume. Qed.

Lemma sequence_consumes vb mode utf8 : consumes 0 (sequence vb mode utf8).
Proof. unfold sequence. auto 20 with consume. Qed.
Hint Resolve array_consumes list_consumes marker_consumes sequence_consumes : consume.

Lemma decode_consumes fuel : forall depth vb L version mode, consumes 0 (decode_mode fuel depth vb L version mode).
Proof.
  induction fuel as [|fuel IH]; intros depth vb L version mode; [apply consumes_of|]. cbn [decode_mode]. cbv zeta.
  unfold dec_i64, dec_u64. apply consumes_then; [auto with consume|intros _]. apply consumes_then; [auto with consume|intros tag].
  apply consumes_then; [|intros []; auto with consume].
  repeat match goal with |- consumes _ (match ?z with _ => _ end) => destruct z end; auto 20 with consume.
Qed.

Lemma array_agrees n (f f' : Z -> Dec S DecodedValue) depth L mode : (forall d, agree n (f d) (f' d)) -> (forall d, consumes 0 (f d)) ->
  agree n (decode_array f depth L mode) (decode_array f' depth L mode).
Proof.
  intros Ha Hc. unfold decode_array. repeat (apply agree_after; [auto with consume|intros ?]). apply agree_head, agree_loop.
  - intros b. apply agree_head, Ha.
  - auto 20 with consume.
Qed.

Lemma list_agrees n (f f' : Z -> Dec S DecodedValue) depth L mode : (forall d, agree n (f d) (f' d)) -> (forall d, consumes 0 (f d)) ->
  agree n (decode_key_value_list f depth L mode) (decode_key_value_list f' depth L mode).
Proof.
  intros Ha Hc. unfold decode_key_value_list. repeat (apply agree_after; [auto with consume|intros ?]). apply agree_head, agree_loop.
  - intros b. apply agree_after; [auto with consume|]. intros k. destruct (bool_decide _); [done|]. apply agree_head, Ha.
  - auto 20 with consume.
Qed.

Lemma marker_agrees n (m m' : Dec S DecodedValue) mode : agree n m m' -> agree n (decode_marker m mode) (decode_marker m' mode).
Proof.
  intros Ha. unfold decode_marker. repeat (apply agree_after; [auto with consume|intros ?]).
  match goal with a : MarkerAction |- _ => destruct a end; [done|done|by apply agree_head..].
Qed.

(** One level more or less does not matter above the bytes that are left. *)
Lemma decode_agrees n : forall fuel fuel' depth vb L version mode, (n < fuel)%nat -> (n < fuel')%nat ->
  agree n (decode_mode fuel depth vb L version mode) (decode_mode fuel' depth vb L version mode).
Proof.
  induction n as [n IH] using lt_wf_ind. intros [|fuel] [|fuel'] depth vb L version mode Hf Hf'; try lia. cbn [decode_mode].
  apply agree_after; [auto with consume|]. intros _. apply agree_shorter; [apply consumes_u8|]. intros tag k Hk.
  assert (Hrec : forall d, agree k (decode_mode fuel d vb L version mode) (decode_mode fuel' d vb L version mode)) by (intros d; apply IH; lia).
  pose proof (decode_consumes fuel) as Hc. apply agree_head.
  repeat match goal with |- agree _ (match ?z with _ => _ end) _ => destruct z end; try done;
    first [by apply array_agrees | by apply list_agrees | by apply marker_agrees].
Qed.
End termination.

(** C21 (termination). Decoding a value ends within as many levels as there are bytes left: more
    fuel than that never changes the outcome, whatever the bytes, the depth, the version and the
    mode, although a truncation marker recurses at its own depth. *)
Theorem value_decoding_terminates {S : Type} {Alloc : Allocator S} {Lay : Layout} {Env : ScanEnvironment S}
  (extra : nat) depth vb L version mode i (s : S) :
  decode_mode (Datatypes.S (length (remaining i)) + extra) depth vb L version mode i s
  = decode_mode (Datatypes.S (length (remaining i))) depth vb L version mode i s.
Proof. apply (decode_agrees (length (remaining i))); unfold left; lia. Qed.

#[local] Existing Instance ExactAllocator.

(** ** Attribute groups *)

Definition one_attribute (ns : AttributeNamespace) : AttributeOccurrenceSetCandidate :=
  mkOccurrenceCandidate ns (sample_text "k") [CNull].

(** A record with [n] attributes in each of the four namespaces. *)
Definition wide_record (n : nat) : unit * result LogStoreFailure LogRecord :=
  checked_receiver_candidate_with_metadata (Lay := sample_layout) value_profile (Some 5) None None
    (flat_map (fun ns => replicate n (one_attribute ns)) [NsStream; NsResource; NsInstrumentationScope; NsRecord])
    LogMetadata_empty sample_provenance tt.

Definition without_attributes (l : LogRecord) : LogRecord :=
  mkLogRecord (event_time l) (observed_time l) (body l) [] (metadata l) (policy_provenance l).

(** The record of an accepted construction. *)
Definition built (r : unit * result LogStoreFailure LogRecord) : LogRecord :=
  match r with (_, Ok l) => l | _ => sample_record end.

Section wide.
Context {Lay : Layout} {Env : ScanEnvironment unit}.

Lemma fails_bind {A B} (m : Dec unit A) (k : A -> Dec unit B) i s i' s' e : m i s = (i', s', Err e) -> (m ≫= k) i s = (i', s', Err e).
Proof. intros H. unfold mbind, Dec_bind. by rewrite H. Qed.

Lemma count_fails maximum n bs rest : put_count n = Ok bs -> maximum < n ->
  dec_count maximum (Input_new (bs ++ rest)) tt = (Input_new rest, tt, Err malformed_block).
Proof.
  intros [Hn ->]%put_count_inv Hm. destruct (Z.leb_spec 0 n).
  - eapply runs_after; [apply log_reads_u16; unfold in_u; lia|]. by rewrite (proj2 (Z.ltb_lt _ _)).
  - eapply runs_after; [apply (reads_mod 2)|]. rewrite (proj2 (Z.ltb_lt _ _)); [done|]. pose proof (Z.mod_pos_bound n (256 ^ Z.of_nat 2)). lia.
Qed.

(** A record with too many groups stops its decoder, whatever follows. *)
Lemma wide_record_stops r bs rest : record_ok (without_attributes (log_record_of r)) -> i64_ok (nanos (instant (ingest_time_of r))) ->
  3072 < zlen (record_attributes (log_record_of r)) -> encode_record 128 r = Ok bs -> zlen bs <= block_bound ->
  exists i, record_decode limits_1 MARKER_VERSION (Input_new (bs ++ rest)) tt = (i, tt, Err malformed_block).
Proof.
  intros [He Ho Hm Hb _ _ Hp _] Hi Hg H Hlen. unfold encode_record in H. set (l := log_record_of r) in *.
  apply then_Ok in H as (x1 & y1 & <-%Ok_inj & H & ->). apply then_Ok in H as (b2 & y2 & H2 & H & ->).
  apply then_Ok in H as (b3 & y3 & H3 & H & ->). apply then_Ok in H as (x4 & y4 & <-%Ok_inj & H & ->).
  apply then_Ok in H as (b5 & y5 & H5 & H & ->). apply then_Ok in H as (b6 & y6 & H6 & H & ->).
  rewrite !zlen_app in Hlen.
  repeat match type of Hlen with context [zlen ?b] => lazymatch goal with _ : 0 <= zlen b |- _ => fail | _ => pose proof (zlen_nonneg b) end end.
  destruct (reads_body (body l) new_validator b5 Hb) as (b' & _ & Hbr); [cbn; unfold usize_max; lia|done|lia|].
  eexists. rewrite <- !app_assoc.
  eapply runs_skip; [apply reads_component|]. eapply runs_after; [by apply reads_event_time|]. eapply runs_after; [by apply reads_observed|].
  eapply runs_after; [eapply log_reads_map; [by apply reads_metadata_decode|apply log_reads_ret]|]. cbv beta iota.
  eapply runs_after; [by apply reads_i64|]. eapply runs_after; [exact Hbr|].
  apply fails_bind, fails_bind. by apply (count_fails _ _ _ _ H6).
Qed.
End wide.

(** C38 (error). A record of more than 3072 attributes, which the limits of its constructor admit
    because there are four namespaces of up to 1024, is written into a block that can not be read
    back: the decoder counts at most three times the limit of one namespace. *)
Theorem wide_record_is_unreadable {Lay : Layout} {Env : ScanEnvironment unit} tenant retention r rs n bs limit :
  zlen (tenant_id_bytes tenant) = 16 -> 1 <= limit -> record_ok (without_attributes (log_record_of r)) ->
  i64_ok (nanos (instant (ingest_time_of r))) -> 3072 < zlen (record_attributes (log_record_of r)) ->
  encode_block tenant (r :: rs) n = Ok bs -> zlen bs <= block_bound ->
  decode_block tenant (mkCommittedBlock bs retention) limit tt = (tt, Err malformed_block).
Proof.
  intros Ht Hlimit Hok Hi Hg Hbs Hb. destruct (encode_block_parts _ _ _ _ Ht Hbs) as (records & -> & Hrec & Hcount).
  rewrite each_cons in Hrec. apply then_Ok in Hrec as (b1 & b2 & H1 & H2 & ->).
  assert (zlen b1 <= block_bound) as Hb1.
  { rewrite !zlen_app in Hb. pose proof (zlen_nonneg b2). pose proof (zlen_nonneg MAGIC). rewrite !zlen_be_bytes in Hb. lia. }
  destruct (wide_record_stops r b1 b2 Hok Hi Hg H1 Hb1) as (i & Hstop).
  unfold decode_block, decode_block_cancellable. set (block := mkCommittedBlock _ _).
  enough (exists i', decode_after false tenant block 0 limit (Input_new (payload block)) tt = (i', tt, Err malformed_block)) as (i' & ->) by done.
  eexists. eapply runs_skip; [apply reads_component|]. apply (runs_skip (dec_of release_1) _ _ limits_1); [by apply reads_of|].
  replace (payload block) with ((MAGIC ++ be_bytes 2 MARKER_VERSION ++ tenant_id_bytes tenant ++ be_bytes 2 (zlen (r :: rs))) ++ b1 ++ b2)
    by (by rewrite <- !app_assoc).
  eapply runs_after; [by apply reads_block_header|]. cbv beta iota. unfold decode_block_records.
  rewrite Z.min_l by lia. change (Z.to_nat 0) with 0%nat. cbn [dec_times]. eapply runs_skip; [apply log_reads_ret|].
  eapply runs_skip; [apply reads_vec|]. apply fails_bind. unfold saturating_sub.
  destruct (Z.to_nat (Z.min (Z.max 0 (zlen (r :: rs) - 0)) limit)) as [|k] eqn:Hk; [lia|]. cbn [dec_loop].
  apply fails_bind. eapply runs_skip; [apply reads_unpolled|]. apply fails_bind. exact Hstop.
Qed.

Lemma encode_block_exact tenant rs n : is_ok (encode_block tenant rs n) = true -> Writes (encode_block tenant rs n) n.
Proof.
  unfold encode_block. destruct release_1; [|done]. cbn [mbind result_bind]. destruct (_ || _); [done|].
  destruct (_ +++ _) as [bs|]; [|done]. cbn [mbind result_bind]. destruct (Z.eqb_spec (zlen bs) n); [|done]. intros _. by exists bs.
Qed.

Definition bare_record : LogRecord :=
  mkLogRecord (mkEventTime (Some (mkUnixNanoseconds 5)) Usable None) None None [] LogMetadata_empty sample_provenance.

Lemma bare_record_ok : record_ok bare_record.
Proof.
  split; [right; exists (mkUnixNanoseconds 5), Usable; split; [unfold i64_ok, i64_min, i64_max; cbn; lia|reflexivity]
    |exact I| |exact I|constructor|unfold zlen; cbn; lia|apply sample_record_ok|vm_compute; reflexivity].
  split; try (unfold in_u, u32_max, i32_min, i32_max; cbn; lia); try exact I. repeat apply Forall_cons_2; done.
Qed.

Definition wide : StoredLogRecord := mkStoredLogRecord (built (wide_record 769)) sample_time.

Lemma wide_record_is_unreadable_witness : is_ok (snd (wide_record 769)) = true /\ exists bs,
  encode_block sample_tenant [wide] 30905 = Ok bs /\
  decode_block (Lay := sample_layout) (Env := QuietEnvironment unit) sample_tenant (mkCommittedBlock bs (RetentionComplete sample_time)) 1 tt
  = (tt, Err malformed_block).
Proof.
  split; [vm_compute; reflexivity|].
  destruct (encode_block_exact sample_tenant [wide] 30905) as (bs & Hbs & Hlen); [vm_compute; reflexivity|].
  exists bs. split; [exact Hbs|].
  apply (@wide_record_is_unreadable sample_layout (QuietEnvironment unit) sample_tenant _ wide [] 30905).
  - reflexivity.
  - lia.
  - assert (without_attributes (log_record_of wide) = bare_record) as -> by (vm_compute; reflexivity).
    exact bare_record_ok.
  - unfold i64_ok, i64_min, i64_max; cbn; lia.
  - assert (zlen (record_attributes (log_record_of wide)) = 3076) as -> by (vm_compute; reflexivity). lia.
  - exact Hbs.
  - rewrite Hlen. unfold block_bound. lia.
Defined.

(** ** Truncation markers *)

(** A truncated text whose marker says [KString] while the value is a byte sequence. *)
Definition mislabelled (p : bytes) : result LogStoreFailure bytes := Ok [8; 2; 4] +++ value_encode (VBytes (exact p)) 128.

(** A block of one record whose body is mislabelled: the sample record with its body replaced. *)
Definition mislabelled_record (p : bytes) : result LogStoreFailure bytes :=
  let l := sample_record in
  Ok (encode_event_time (event_time l))
  +++ encode_optional (fun o => Ok (encode_observed_time o)) (observed_time l)
  +++ metadata_encode (metadata l)
  +++ Ok (be_bytes 8 (nanos (instant sample_time)))
  +++ Ok [1] +++ mislabelled p
  +++ put_count (zlen (record_attributes l)) +++ each (encode_attribute 128) (record_attributes l)
  +++ encode_policy (policy_provenance l).
Definition mislabelled_block (p : bytes) : result LogStoreFailure bytes :=
  Ok MAGIC +++ Ok (be_bytes 2 MARKER_VERSION) +++ Ok (tenant_id_bytes sample_tenant) +++ put_count 1 +++ mislabelled_record p.

Definition read_mislabelled (p : bytes) (limit : Z) : result LogStoreFailure Z :=
  bs ← mislabelled_block p;
  rs ← snd (decode_block (Lay := sample_layout) (Env := QuietEnvironment unit) sample_tenant
         (mkCommittedBlock bs (RetentionComplete sample_time)) limit tt);
  Ok (zlen rs).
Definition retain_mislabelled (p : bytes) : result LogStoreFailure unit :=
  bs ← mislabelled_block p;
  snd (validate_retention_block_observed (Env := QuietEnvironment unit) sample_tenant
         (mkCommittedBlock bs (RetentionComplete sample_time)) tt).

(** Also (error). A block whose only body is a truncation marker of the wrong kind is malformed when the
    record is returned, but accepted when the record lies past the limit and when the block is
    validated for retention: the validate-only decoder never compares the kind in a marker with the
    value that follows. *)
Theorem structural_check_skips_marker_kind :
  read_mislabelled (bytes_of_string "ab") 1 = Err malformed_block /\
  read_mislabelled (bytes_of_string "ab") 0 = Ok 0 /\ retain_mislabelled (bytes_of_string "ab") = Ok tt.
Proof. vm_compute. done. Qed.
