(* ===== verification/TraceModel.v ===== *)
(** Trace store: observations, logical spans and the computations over them.

    Models [positron-signals/src/trace_store/failure.rs], [observation.rs], [details.rs] and
    [details/], the scanned and logical spans of [scan.rs] and [consolidation.rs], and the
    interface of a bounded computation: a state that holds the cancellation, the work observer,
    the allocator and the reservation, any of which can interrupt it. *)

From S2P Require Import Prelude Outcome Limits Routing SourceTime Values Observe Traversal Occurrences PolicyModel RetentionTime LogStore LogCodec.

(** ** Failures *)

(** [positron-signals/src/trace_store/failure.rs:8-32 TraceStoreFailureCode] *)
Inductive TraceStoreFailureCode :=
| TraceInvalidInput | TraceLimitExceeded | TraceMalformedBlock | TracePhysicalScopeMismatch | TraceStorageUnavailable
| TraceIntegrityCorruption | TraceAuthenticationFailed | TraceConcurrentWriter | TraceUnsupportedFormat | TraceStorageExhausted
| TraceIdempotencyConflict | TraceStaleGeneration | TraceRecoveryRequired | TraceSnapshotExpired | TraceStaleResumeMarker
| TraceResourceExhausted | TraceClockUnavailable | TraceClockUncertain | TraceResourceAdmissionRefused | TraceCancelled
| TraceBudgetExhausted | TraceInternal.

(** [positron-signals/src/trace_store/failure.rs:35-39 TraceStoreFailure] *)
Record TraceStoreFailure := mkTraceStoreFailure { trace_code : TraceStoreFailureCode; trace_completion : LedgerCompletionState }.

(** [positron-signals/src/trace_store/failure.rs:42-47 TraceStoreFailure::rejected] *)
Definition trace_rejected (code : TraceStoreFailureCode) : TraceStoreFailure := mkTraceStoreFailure code RejectedBeforeMutation.

(** [positron-signals/src/trace_store/failure.rs:50-92 TraceStoreFailure!] The constructors used
    below. *)
Definition trace_invalid_input : TraceStoreFailure := trace_rejected TraceInvalidInput.
Definition trace_limit_exceeded : TraceStoreFailure := trace_rejected TraceLimitExceeded.
Definition trace_resource_exhausted : TraceStoreFailure := trace_rejected TraceResourceExhausted.
Definition trace_admission_refused : TraceStoreFailure := trace_rejected TraceResourceAdmissionRefused.
Definition trace_cancelled : TraceStoreFailure := trace_rejected TraceCancelled.

(** [positron-signals/src/trace_store/failure.rs:85-100 TraceStoreFailure::observation] *)
Definition trace_observation (code : ScanObservationFailureCode) : TraceStoreFailure :=
  trace_rejected (match code with
    | ObsBudgetExhausted => TraceBudgetExhausted
    | ObsDecodedRecordsExhausted => TraceLimitExceeded
    | ObsCancelled => TraceCancelled
    | ObsResourceExhausted => TraceResourceExhausted
    | ObsInternal => TraceInternal
    end).

(** [positron-signals/src/trace_store/failure.rs:187-199 classify_domain_failure_code] *)
Definition trace_domain_code (code : DomainFailureCode) : TraceStoreFailureCode :=
  match code with
  | AllocationUnavailable => TraceResourceExhausted
  | ValueLimitExceeded => TraceLimitExceeded
  | _ => TraceInvalidInput
  end.

(** [positron-signals/src/trace_store/failure.rs:102-104 TraceStoreFailure::domain] *)
Definition trace_domain (f : DomainFailure) : TraceStoreFailure := trace_rejected (trace_domain_code (code f)).

(** ** Span details *)

(** [positron-signals/src/trace_store/details/status.rs:6-14 SpanStatusCode] *)
Inductive SpanStatusCode := StatusUnset | StatusOk | StatusError.

(** [positron-signals/src/trace_store/details/status.rs:17-21 SpanStatus] *)
Record SpanStatus := mkSpanStatus { status_code : SpanStatusCode; status_message : RString }.

(** [positron-signals/src/trace_store/details/attributes.rs:9-12 SpanAttributeSet] *)
Record SpanAttributeSet := mkSpanAttributeSet { detail_occurrences : AttributeOccurrenceSet }.

(** [positron-signals/src/trace_store/details/event_link.rs:7-13 SpanEvent] *)
Record SpanEvent := mkSpanEvent {
  event_timestamp : EventTime;
  span_event_name : RString;
  event_attributes : list SpanAttributeSet;
  event_dropped : Z;
}.

(** [positron-signals/src/trace_store/details/event_link.rs:78-86 SpanLink] *)
Record SpanLink := mkSpanLink {
  link_trace_id : bytes;
  link_span_id : bytes;
  link_trace_state : RString;
  link_flags : Z;
  link_attributes : list SpanAttributeSet;
  link_dropped : Z;
}.

(** [positron-signals/src/trace_store/details/metadata.rs:6-10 SpanResourceMetadata] *)
Record SpanResourceMetadata := mkSpanResource { resource_dropped : Z; resource_url : RString }.

(** [positron-signals/src/trace_store/details/metadata.rs:51-57 SpanScopeMetadata] *)
Record SpanScopeMetadata := mkSpanScope {
  span_scope_name : RString;
  span_scope_version : RString;
  scope_dropped : Z;
  scope_url : RString;
}.

(** [positron-signals/src/trace_store/details.rs:23-35 SpanObservationDetails] *)
Record SpanObservationDetails := mkSpanDetails {
  trace_state : RString;
  span_flags : Z;
  status : SpanStatus;
  events : list SpanEvent;
  links : list SpanLink;
  dropped_attributes : Z;
  dropped_events : Z;
  dropped_links : Z;
  span_resource : SpanResourceMetadata;
  span_scope : SpanScopeMetadata;
}.

(** [positron-signals/src/trace_store/details.rs:21-21 MAX_DETAIL_COLLECTION!] *)
Definition MAX_DETAIL_COLLECTION : Z := 1024.

(** An identity of which every byte is zero. *)
Definition all_zero (id : bytes) : bool := forallb (fun b => b =? 0) id.

(** [positron-signals/src/trace_store/details/validation.rs:13-22 detail_limits] A [u32] fits a
    [usize]. *)
Definition detail_limits (profile : ValueLimitProfile) : Z * Z :=
  let dynamic := dynamic_value (effective_limits profile) in
  (byte_limit (key_path_bytes dynamic), collection_limit (attributes_per_namespace dynamic)).

(** [positron-signals/src/trace_store/details/validation.rs:5-11 validate_detail_name] *)
Definition validate_detail_name (name : bytes) (limit : Z) : result TraceStoreFailure unit :=
  if bool_decide (name = []) || (limit <? zlen name) then Err trace_invalid_input else Ok tt.

(** [positron-signals/src/trace_store/details/validation.rs:24-39 validate_detail_attributes] *)
Definition validate_detail_attributes (attributes : list SpanAttributeSet) (occurrence_limit : Z) : result TraceStoreFailure unit :=
  if MAX_DETAIL_COLLECTION <? zlen attributes then Err trace_limit_exceeded else
  _ ← try_fold (fun n a =>
    match checked_add usize_max n (set_len (detail_occurrences a)) with
    | Some n => if n <=? occurrence_limit then Ok n else Err trace_limit_exceeded
    | None => Err trace_limit_exceeded
    end) 0 attributes;
  Ok tt.

(** [positron-signals/src/trace_store/details/validation.rs:41-69 detail_decoded_bytes] *)
Definition detail_decoded_bytes (current name_bytes : Z) (attributes : list SpanAttributeSet) (limit : Z) : result TraceStoreFailure Z :=
  decoded ← ok_or trace_limit_exceeded (checked_add usize_max current name_bytes);
  try_fold (fun decoded a =>
    let set := detail_occurrences a in
    decoded ← ok_or trace_limit_exceeded (checked_add usize_max decoded (rs_len (key set)));
    try_fold (fun decoded v =>
      n ← map_err trace_domain (decoded_size_bytes v);
      match checked_add usize_max decoded n with
      | Some size => if size <=? limit then Ok size else Err trace_limit_exceeded
      | None => Err trace_limit_exceeded
      end) decoded (occurrences set)) decoded attributes.

(** [positron-signals/src/trace_store/details/event_link.rs:34-50 SpanEvent::checked_with_profile] *)
Definition SpanEvent_checked (timestamp : EventTime) (name : RString) (attributes : list SpanAttributeSet) (dropped : Z)
  (profile : ValueLimitProfile) : result TraceStoreFailure SpanEvent :=
  let '(key_path, per_namespace) := detail_limits profile in
  _ ← validate_detail_name (text name) key_path;
  _ ← validate_detail_attributes attributes per_namespace;
  Ok (mkSpanEvent timestamp name attributes dropped).

(** [positron-signals/src/trace_store/details/event_link.rs:111-136 SpanLink::checked_with_profile] *)
Definition SpanLink_checked (trace span : bytes) (state : RString) (flags : Z) (attributes : list SpanAttributeSet) (dropped : Z)
  (profile : ValueLimitProfile) : result TraceStoreFailure SpanLink :=
  let '(key_path, per_namespace) := detail_limits profile in
  if all_zero trace || all_zero span || (key_path <? rs_len state) then Err trace_invalid_input else
  _ ← validate_detail_attributes attributes per_namespace;
  Ok (mkSpanLink trace span state flags attributes dropped).

(** [positron-signals/src/trace_store/details/status.rs:31-41 SpanStatus::checked_with_profile] *)
Definition SpanStatus_checked (code : SpanStatusCode) (message : RString) (profile : ValueLimitProfile) : result TraceStoreFailure SpanStatus :=
  if fst (detail_limits profile) <? rs_len message then Err trace_limit_exceeded else Ok (mkSpanStatus code message).

(** [positron-signals/src/trace_store/details/metadata.rs:23-35 SpanResourceMetadata::checked_with_profile] *)
Definition SpanResource_checked (dropped : Z) (url : RString) (profile : ValueLimitProfile) : result TraceStoreFailure SpanResourceMetadata :=
  if fst (detail_limits profile) <? rs_len url then Err trace_limit_exceeded else Ok (mkSpanResource dropped url).

(** [positron-signals/src/trace_store/details/metadata.rs:78-97 SpanScopeMetadata::checked_with_profile] *)
Definition SpanScope_checked (name version : RString) (dropped : Z) (url : RString) (profile : ValueLimitProfile)
  : result TraceStoreFailure SpanScopeMetadata :=
  if existsb (fun s => fst (detail_limits profile) <? rs_len s) [name; version; url] then Err trace_limit_exceeded
  else Ok (mkSpanScope name version dropped url).

(** [positron-signals/src/trace_store/details/accounting.rs:35-78 SpanObservationDetails::validate_with_profile] *)
Definition details_validate_with_profile (d : SpanObservationDetails) (profile : ValueLimitProfile) : result TraceStoreFailure unit :=
  let key_path := byte_limit (key_path_bytes (dynamic_value (effective_limits profile))) in
  let validate a := map_err trace_domain (validate_with_profile (detail_occurrences a) profile) in
  if existsb (fun s => key_path <? rs_len s)
       [trace_state d; status_message (status d); resource_url (span_resource d); span_scope_name (span_scope d);
        span_scope_version (span_scope d); scope_url (span_scope d)]
     || (MAX_DETAIL_COLLECTION <? zlen (events d)) || (MAX_DETAIL_COLLECTION <? zlen (links d))
  then Err trace_limit_exceeded else
  _ ← try_fold (fun _ e =>
    if bool_decide (text (span_event_name e) = []) || (key_path <? rs_len (span_event_name e)) then Err trace_limit_exceeded else
    try_fold (fun _ a => validate a) tt (event_attributes e)) tt (events d);
  try_fold (fun _ l =>
    if all_zero (link_trace_id l) || all_zero (link_span_id l) || (key_path <? rs_len (link_trace_state l)) then Err trace_limit_exceeded else
    try_fold (fun _ a => validate a) tt (link_attributes l)) tt (links d).

(** [positron-signals/src/trace_store/details.rs:224-240 SpanObservationDetails::decoded_size_bytes] *)
Definition details_decoded_size_bytes (d : SpanObservationDetails) (limit : Z) : result TraceStoreFailure Z :=
  initial ← ok_or trace_limit_exceeded (try_fold_opt (checked_add usize_max) (rs_len (trace_state d))
    [rs_len (status_message (status d)); rs_len (resource_url (span_resource d)); rs_len (span_scope_name (span_scope d));
     rs_len (span_scope_version (span_scope d)); rs_len (scope_url (span_scope d))]);
  with_events ← try_fold (fun total e => detail_decoded_bytes total (rs_len (span_event_name e)) (event_attributes e) limit) initial (events d);
  try_fold (fun total l => detail_decoded_bytes total (rs_len (link_trace_state l)) (link_attributes l) limit) with_events (links d).

(** ** Observations *)

(** [positron-signals/src/trace_store/observation.rs:9-23 SpanKind] *)
Inductive SpanKind := KindUnspecified | KindInternal | KindServer | KindClient | KindProducer | KindConsumer.

(** [positron-signals/src/trace_store/observation.rs:26-34 SamplingDecision] *)
Inductive SamplingDecision := SamplingUnknown | NotSampled | Sampled.
#[global] Instance SamplingDecision_eq_dec : EqDecision SamplingDecision.
Proof. solve_decision. Defined.

(** [positron-signals/src/trace_store/observation.rs:37-50 SpanObservation] *)
Record SpanObservation := mkSpanObservation {
  so_trace_id : bytes;
  so_span_id : bytes;
  so_parent_span_id : option bytes;
  so_name : RString;
  so_start_time : EventTime;
  so_end_time : EventTime;
  so_attributes : list AttributeOccurrenceSet;
  so_kind : SpanKind;
  so_sampling : SamplingDecision;
  so_policy : PolicyProvenance;
  so_details : SpanObservationDetails;
}.

(** [positron-signals/src/trace_store/codec/format.rs:88-95 namespace_index] *)
Definition span_namespace_index (n : AttributeNamespace) : option nat :=
  match n with NsResource => Some 0 | NsInstrumentationScope => Some 1 | NsRecord => Some 2 | NsStream => None end%nat.

(** One attribute in the loop of [checked_native_with_details_with_profile]. *)
Definition check_span_attribute (occurrence_limit : Z) (acc : list Z * Z) (a : AttributeOccurrenceSet) : result TraceStoreFailure (list Z * Z) :=
  let '(counts, decoded) := acc in
  i ← ok_or trace_invalid_input (span_namespace_index (namespace a));
  c ← ok_or trace_invalid_input (counts !! i);
  c ← match checked_add usize_max c (set_len a) with
      | Some c => if c <=? occurrence_limit then Ok c else Err trace_limit_exceeded
      | None => Err trace_limit_exceeded
      end;
  decoded ← ok_or trace_limit_exceeded (checked_add usize_max decoded (rs_len (key a)));
  decoded ← try_fold (fun decoded v =>
    n ← map_err trace_domain (decoded_size_bytes v);
    ok_or trace_limit_exceeded (checked_add usize_max decoded n)) decoded (occurrences a);
  Ok (<[i := c]> counts, decoded).

(** [positron-signals/src/trace_store/observation.rs:208-295 SpanObservation::checked_native_with_details_with_profile]
    The fields are those of the observation to build. *)
Definition checked_span (o : SpanObservation) (profile : ValueLimitProfile) : result TraceStoreFailure SpanObservation :=
  let limits := effective_limits profile in
  let dynamic := dynamic_value limits in
  let decoded_limit := byte_limit (decoded_record_bytes (record limits)) in
  if all_zero (so_trace_id o) || all_zero (so_span_id o)
     || match so_parent_span_id o with Some p => all_zero p | None => false end
     || bool_decide (text (so_name o) = []) || (byte_limit (key_path_bytes dynamic) <? rs_len (so_name o))
  then Err trace_invalid_input else
  let occurrence_limit := collection_limit (attributes_per_namespace dynamic) in
  set_limit ← ok_or trace_limit_exceeded (checked_mul usize_max occurrence_limit 3);
  if negb (bool_decide (so_attributes o = [])) && (set_limit <? zlen (so_attributes o)) then Err trace_limit_exceeded else
  _ ← details_validate_with_profile (so_details o) profile;
  '(_, decoded) ← try_fold (check_span_attribute occurrence_limit) ([0; 0; 0], rs_len (so_name o)) (so_attributes o);
  detail ← details_decoded_size_bytes (so_details o) decoded_limit;
  match checked_add usize_max decoded detail with
  | Some size => if decoded_limit <? size then Err trace_limit_exceeded else Ok o
  | None => Err trace_limit_exceeded
  end.

(** [positron-signals/src/trace_store/types.rs:52-56 StoredSpanObservation] *)
Record StoredSpanObservation := mkStoredSpan { stored_observation : SpanObservation; span_ingest_time : IngestTime }.

(** [positron-signals/src/trace_store/scan.rs:372-377 ScannedSpanObservation] *)
Record ScannedSpanObservation := mkScannedSpan {
  scanned_stored : StoredSpanObservation;
  commit_position : CommitPosition;
  record_ordinal : RecordOrdinal;
}.

(** [positron-signals/src/trace_store/scan.rs:397-400 ScannedSpanObservation::observation] *)
Definition scanned_observation (s : ScannedSpanObservation) : SpanObservation := stored_observation (scanned_stored s).

(** [positron-signals/src/trace_store/scan.rs:145-153 TraceIncompleteness] *)
Inductive TraceIncompleteness := ScanComplete | ResultLimit | ScannedBytesLimit.

(** ** Logical spans *)

(** [positron-signals/src/trace_store/consolidation.rs:31-35 SpanObservationVariant] *)
Record SpanObservationVariant := mkVariant { variant_observation : ScannedSpanObservation; variant_count : Z }.

(** [positron-signals/src/trace_store/consolidation.rs:67-74 LogicalSpan] *)
Record LogicalSpan := mkLogicalSpan {
  ls_trace_id : bytes;
  ls_span_id : bytes;
  variants : list SpanObservationVariant;
  ls_observation_count : Z;
  structural_variant : nat;
}.

(** [positron-signals/src/trace_store/consolidation.rs:162-165 LogicalSpan::conflicted] *)
Definition conflicted (s : LogicalSpan) : bool := 1 <? zlen (variants s).

(** [positron-signals/src/trace_store/consolidation.rs:168-173 LogicalSpan::structural_representative] *)
Definition structural_representative (s : LogicalSpan) : option ScannedSpanObservation :=
  variant_observation <$> variants s !! structural_variant s.

(** ** Bounded computations *)

(** The reservation of a query, seen from the trace store: a resize to a number of memory bytes
    succeeds or is refused, and the bytes that are granted can be read. *)
Class QueryCapacity (S : Type) := {
  try_resize_memory : Z -> S -> S * bool;
  granted_memory : S -> Z;
}.

Section bounded.
Context {S : Type} {Alloc : Allocator S} {Env : ScanEnvironment S} {Cap : QueryCapacity S}.

Definition Tr (A : Type) : Type := S -> S * result TraceStoreFailure A.
#[export] Instance Tr_ret : MRet Tr := fun A a s => (s, Ok a).
#[export] Instance Tr_bind : MBind Tr := fun A B k m s =>
  match m s with (s, Ok a) => k a s | (s, Err e) => (s, Err e) end.
Definition tr_of {A} (r : result TraceStoreFailure A) : Tr A := fun s => (s, r).
Definition tr_fail {A} (e : TraceStoreFailure) : Tr A := tr_of (Err e).

(** A [for] loop. *)
Fixpoint tr_for {A B} (l : list A) (f : B -> A -> Tr B) (b : B) : Tr B :=
  match l with [] => mret b | a :: l => b ← f b a; tr_for l f b end.

(** A [while] loop; its fuel bounds the number of turns. *)
Fixpoint tr_loop {B R} (fuel : nat) (body : B -> Tr (B + R)) (b : B) : Tr R :=
  match fuel with
  | O => tr_fail trace_invalid_input
  | Datatypes.S fuel => next ← body b; match next with inl b => tr_loop fuel body b | inr r => mret r end
  end.

(** [positron-signals/src/trace_store/scan.rs:982-988 check_cancel] *)
Definition check_cancel : Tr unit := fun s =>
  let '(s, stop) := is_cancelled s in (s, if (stop : bool) then Err trace_cancelled else Ok tt).

Definition observe_unit : Tr unit := fun s => let '(s, r) := observe_work 1 s in (s, map_err trace_observation r).

(** [positron-signals/src/trace_store/structural.rs:939-948 observe] The same function of
    relationships.rs. *)
Definition observe : Tr unit := _ ← check_cancel; _ ← observe_unit; check_cancel.

(** [positron-signals/src/trace_store/structural.rs:950-955 reserve] Also written in line, as
    [try_reserve_exact]. *)
Definition reserve (capacity : nat) : Tr unit := fun s =>
  let '(s, cap) := try_reserve_exact (Z.of_nat capacity) s in
  (s, match cap with Some _ => Ok tt | None => Err trace_resource_exhausted end).

(** [positron-signals/src/trace_store/scan.rs:939-949 resize_capacity] The amounts of one
    dimension are well formed. *)
Definition resize_capacity (memory : Z) : Tr unit := fun s =>
  let '(s, granted) := try_resize_memory memory s in
  (s, if (granted : bool) then Ok tt else Err trace_admission_refused).

(** Machine indices: a [usize] is a natural number below its bound. *)
Definition index_add (a b : nat) : result TraceStoreFailure nat :=
  if Z.of_nat (a + b) <=? usize_max then Ok (a + b)%nat else Err trace_limit_exceeded.
Definition index_mul (a b : nat) : result TraceStoreFailure nat :=
  if Z.of_nat (a * b) <=? usize_max then Ok (a * b)%nat else Err trace_limit_exceeded.
Definition at_index {A} (l : list A) (i : nat) : result TraceStoreFailure A := ok_or trace_invalid_input (l !! i).

(** [slice::swap]. *)
Definition swap {A} (l : list A) (i j : nat) : list A :=
  match l !! i, l !! j with Some a, Some b => <[i := b]> (<[j := a]> l) | _, _ => l end.
End bounded.
Arguments Tr S A : clear implicits.
