(* ===== verification/TraceHeap.v ===== *)
(** Trace store: the observed heap sort.

    Two sorts of the trace store are heap sorts written over a mutable slice, with work
    observed in different places: [order_children] of [structural.rs] and [sort_pairs_observed]
    of [relationships.rs]. [sift] and [heap_sort] are their common text; the hooks say where each
    observes, and [above] is its comparison. The file also has the rules for what a bounded
    computation yields. *)

From S2P Require Import Prelude Limits Values Observe Traversal Validation Shape LogCodec TraceModel.

Section sort.
Context {S : Type} {Alloc : Allocator S} {Env : ScanEnvironment S} {A : Type}.
Context (enter moved : Tr S unit) (above : A -> A -> Tr S bool).

(** One turn of the loop: a finished slice, or the slice and the index to go on with. *)
Definition sift_step (hi : nat) (state : list A * nat) : Tr S ((list A * nat) + list A) :=
  let '(l, root) := state in
  _ ← enter;
  left ← tr_of (double ← index_mul root 2; index_add double 1);
  if (hi <=? left)%nat then mret (inr l) else
  right ← tr_of (index_add left 1);
  child ← (if (right <? hi)%nat then
      a ← tr_of (at_index l right);
      b ← tr_of (at_index l left);
      higher ← above a b;
      mret (if (higher : bool) then right else left)
    else mret left);
  a ← tr_of (at_index l child);
  b ← tr_of (at_index l root);
  higher ← above a b;
  if negb higher then mret (inr l) else
  _ ← moved;
  mret (inl (swap l root child, child)).

(** The loop that sinks the element at [root] into the heap below [hi]. Every turn goes to a
    child, so the length bounds the turns. *)
Definition sift (l : list A) (root hi : nat) : Tr S (list A) :=
  tr_loop (Datatypes.S (length l)) (sift_step hi) (l, root).

(** The indices below [n], from the last to the first. *)
Fixpoint down (n : nat) : list nat := match n with O => [] | Datatypes.S n => n :: down n end.

(** Building the heap from the last parent down to the root, then taking the root to the end, which
    moves from the last index down to 1. *)
Definition heap_sort (l : list A) : Tr S (list A) :=
  let n := length l in
  l ← tr_for (down (n / 2)) (fun l root => sift l root n) l;
  tr_for (down (n - 1)) (fun l before => let hi := Datatypes.S before in _ ← observe; sift (swap l 0 hi) 0 hi) l.
End sort.

(** ** What a bounded computation yields *)

Section yields.
Context {S : Type} {Alloc : Allocator S} {Env : ScanEnvironment S} {Cap : QueryCapacity S}.

(** The failures with which the environment interrupts. *)
Context (Intr : TraceStoreFailure -> Prop).

(** The computation returns a value of [P], or the environment interrupted it. *)
Definition yields {A} (m : Tr S A) (P : A -> Prop) : Prop :=
  forall s, match snd (m s) with Ok a => P a | Err e => Intr e end.

Lemma tr_yields_ret {A} (a : A) (P : A -> Prop) : P a -> yields (mret a) P.
Proof. by intros H s. Qed.

Lemma yields_of {A} (r : result TraceStoreFailure A) a (P : A -> Prop) : r = Ok a -> P a -> yields (tr_of r) P.
Proof. intros -> H s. done. Qed.

Lemma tr_yields_bind {A B} (m : Tr S A) (k : A -> Tr S B) (P : A -> Prop) (Q : B -> Prop) :
  yields m P -> (forall a, P a -> yields (k a) Q) -> yields (m ≫= k) Q.
Proof.
  intros Hm Hk s. unfold mbind, Tr_bind. specialize (Hm s). destruct (m s) as [s' [a|e]]; cbn in *; [by apply Hk|done].
Qed.

Lemma yields_mono {A} (m : Tr S A) (P Q : A -> Prop) : yields m P -> (forall a, P a -> Q a) -> yields m Q.
Proof. intros Hm Hq s. specialize (Hm s). destruct (m s) as [s' [a|e]]; cbn in *; auto. Qed.

(** A step whose value is known. *)
Lemma yields_step {A B} (r : result TraceStoreFailure A) (k : A -> Tr S B) a (Q : B -> Prop) :
  r = Ok a -> yields (k a) Q -> yields (tr_of r ≫= k) Q.
Proof. intros -> Hk s. apply Hk. Qed.

(** A [for] loop, with an invariant on the part of the list that is done. *)
Lemma yields_for {A B} (l : list A) (f : B -> A -> Tr S B) (I : list A -> B -> Prop) b :
  I [] b -> (forall pre x post b, l = pre ++ x :: post -> I pre b -> yields (f b x) (I (pre ++ [x]))) ->
  yields (tr_for l f b) (I l).
Proof.
  intros Hb Hf. enough (forall rest pre b, l = pre ++ rest -> I pre b -> yields (tr_for rest f b) (I l)) as Hg by (by apply (Hg l [])).
  induction rest as [|x rest IH]; intros pre c Hl Hc; cbn [tr_for].
  - rewrite app_nil_r in Hl. subst pre. by apply tr_yields_ret.
  - eapply tr_yields_bind; [by eapply Hf|]. intros c' Hc'. apply (IH (pre ++ [x])); [by rewrite <- app_assoc|done].
Qed.

(** A [while] loop, with an invariant and a measure that every turn lowers. *)
Lemma yields_loop {B R} (body : B -> Tr S (B + R)) (I : B -> Prop) (measure : B -> nat) (Q : R -> Prop) :
  (forall b, I b -> yields (body b) (fun next => match next with inl b' => I b' /\ (measure b' < measure b)%nat | inr r => Q r end)) ->
  forall fuel b, I b -> (measure b < fuel)%nat -> yields (tr_loop fuel body b) Q.
Proof.
  intros Hbody. induction fuel as [|fuel IH]; intros b Hb Hm; [lia|]. cbn [tr_loop]. eapply tr_yields_bind; [by apply Hbody|].
  intros [b'|r] Hn; [destruct Hn as [Hb' Hlt]; apply IH; [done|lia]|by apply tr_yields_ret].
Qed.

(** *** The environment *)

Class Interrupts : Prop := {
  observe_interrupts : yields observe (fun _ => True);
  reserve_interrupts n : yields (reserve n) (fun _ => True);
  resize_interrupts n : yields (resize_capacity n) (fun _ => True);
}.
End yields.
Arguments Interrupts S {Alloc Env Cap} Intr.

(** A step of the environment. *)
Ltac env_step := eapply tr_yields_bind;
  [first [eapply observe_interrupts | eapply reserve_interrupts | eapply resize_interrupts]; eassumption|intros _ _].

(** The ways in which any environment can interrupt. *)
Definition interruption (e : TraceStoreFailure) : Prop :=
  e = trace_cancelled \/ e = trace_resource_exhausted \/ e = trace_admission_refused \/ exists code, e = trace_observation code.

Lemma environment_interrupts S (Alloc : Allocator S) (Env : ScanEnvironment S) (Cap : QueryCapacity S) : Interrupts S interruption.
Proof.
  assert (Hc : yields interruption check_cancel (fun _ => True)).
  { intros s. unfold check_cancel. destruct (is_cancelled s) as [s' []]; cbn; unfold interruption; auto. }
  assert (Ho : yields interruption observe_unit (fun _ => True)).
  { intros s. unfold observe_unit. destruct (observe_work 1 s) as [s' [[]|c]]; cbn; unfold interruption; eauto. }
  split.
  - eapply tr_yields_bind; [exact Hc|]. intros _ _. eapply tr_yields_bind; [exact Ho|]. by intros _ _.
  - intros n s. unfold reserve. destruct (try_reserve_exact _ s) as [s' []]; cbn; unfold interruption; auto.
  - intros n s. unfold resize_capacity. destruct (try_resize_memory _ s) as [s' []]; cbn; unfold interruption; auto.
Qed.

(** An environment that never interrupts. *)
Definition AmpleCapacity S : QueryCapacity S := {| try_resize_memory := fun _ s => (s, true); granted_memory := fun _ => 0 |}.

Lemma quiet_interrupts : @Interrupts unit ExactAllocator (QuietEnvironment unit) (AmpleCapacity unit) (fun _ => False).
Proof. by split. Qed.

(** Neither failure below is an interruption. *)
Lemma invalid_input_is_not_interruption : ~ interruption trace_invalid_input.
Proof. intros [?|[?|[?|[[] ?]]]]; done. Qed.

(** ** Runs *)

(** A list without what repeats its predecessor. *)
Definition push_run {A} `{EqDecision A} (l : list A) (x : A) : list A := if bool_decide (last l = Some x) then l else l ++ [x].
Definition runs {A} `{EqDecision A} (l : list A) : list A := foldl push_run [] l.

Lemma runs_snoc {A} `{EqDecision A} (l : list A) x : runs (l ++ [x]) = push_run (runs l) x.
Proof. unfold runs. by rewrite foldl_app. Qed.

(** ** Swaps *)

Section swaps.
Context {A : Type}.

Lemma swap_some (l : list A) i j : (i < length l)%nat -> (j < length l)%nat -> exists a b, l !! i = Some a /\ l !! j = Some b /\ swap l i j = <[i := b]> (<[j := a]> l).
Proof.
  intros [a Ha]%lookup_lt_is_Some_2 [b Hb]%lookup_lt_is_Some_2. exists a, b. unfold swap. by rewrite Ha, Hb.
Qed.

Lemma swap_length (l : list A) i j : length (swap l i j) = length l.
Proof. unfold swap. destruct (l !! i); [|done]. destruct (l !! j); [|done]. by rewrite !length_insert. Qed.

Lemma swap_lookup (l : list A) i j k : (i < length l)%nat -> (j < length l)%nat ->
  swap l i j !! k = if decide (k = i) then l !! j else if decide (k = j) then l !! i else l !! k.
Proof.
  intros Hi Hj. destruct (swap_some l i j Hi Hj) as (a & b & Ha & Hb & ->). destruct (decide (k = i)) as [->|Hki].
  - rewrite list_lookup_insert_eq by (by rewrite length_insert). done.
  - rewrite list_lookup_insert_ne by done. destruct (decide (k = j)) as [->|Hkj]; [by rewrite list_lookup_insert_eq|by rewrite list_lookup_insert_ne].
Qed.

Lemma swap_perm (l : list A) i j : (i < length l)%nat -> (j < length l)%nat -> swap l i j ≡ₚ l.
Proof.
  intros Hi Hj. apply Permutation_inj. split; [apply swap_length|].
  exists (fun k => if decide (k = i) then j else if decide (k = j) then i else k). split.
  - intros x y. repeat destruct (decide _); congruence.
  - intros k. rewrite swap_lookup by done. by repeat destruct (decide _).
Qed.
End swaps.

(** ** Correctness *)

Section correct.
Context {S : Type} {Alloc : Allocator S} {Env : ScanEnvironment S} {Cap : QueryCapacity S}.
Context (Intr : TraceStoreFailure -> Prop) {HI : Interrupts S Intr}.
Context {A : Type} (enter moved : Tr S unit) (above : A -> A -> Tr S bool).

(** The comparison computes a strict weak order on the elements of [D]. *)
Context (D : A -> Prop) (abv : A -> A -> bool).
Hypothesis enter_yields : yields Intr enter (fun _ => True).
Hypothesis moved_yields : yields Intr moved (fun _ => True).
Hypothesis above_yields : forall a b, D a -> D b -> yields Intr (above a b) (fun r => r = abv a b).
Hypothesis abv_asym : forall a b, D a -> D b -> abv a b = true -> abv b a = false.
Hypothesis abv_trans : forall a b c, D a -> D b -> D c -> abv b a = false -> abv c b = false -> abv c a = false.

(** [a] is at least as high as [b]. *)
Definition ge (a b : A) : Prop := abv b a = false.

Definition child_of (i k : nat) : Prop := k = (2 * i + 1)%nat \/ k = (2 * i + 2)%nat.

(** Index [i] is at least as high as its children below [hi]. *)
Definition heap_at (l : list A) (hi i : nat) : Prop := forall k a b, child_of i k -> (k < hi)%nat -> l !! i = Some a -> l !! k = Some b -> ge a b.
Definition heap_from (l : list A) (lo hi : nat) : Prop := forall i, (lo <= i)%nat -> heap_at l hi i.

(** What sinking an element keeps: the elements, and everything from [hi] on. *)
Definition same_upto (hi : nat) (l l' : list A) : Prop := l' ≡ₚ l /\ forall k, (hi <= k)%nat -> l' !! k = l !! k.

(** While the element is at [r] the heap may be broken there only, and the parent of [r] is above the
    children of [r]. *)
Record sinking (l0 : list A) (root hi : nat) (state : list A * nat) : Prop := {
  sk_same : same_upto hi l0 state.1;
  sk_range : (root <= state.2 < hi)%nat;
  sk_heap : forall i, (root <= i)%nat -> i <> state.2 -> heap_at state.1 hi i;
  sk_bridge : forall p k a b, (root <= p)%nat -> child_of p state.2 -> child_of state.2 k -> (k < hi)%nat ->
    state.1 !! p = Some a -> state.1 !! k = Some b -> ge a b;
}.

Lemma index_ok a : Z.of_nat a <= usize_max -> (if Z.of_nat a <=? usize_max then Ok a else Err trace_limit_exceeded) = Ok a.
Proof. intros H. by rewrite (proj2 (Z.leb_le _ _) H). Qed.

Lemma at_index_ok {B} (l : list B) i a : l !! i = Some a -> at_index l i = Ok a.
Proof. intros H. unfold at_index. by rewrite H. Qed.

Lemma same_trans hi l0 l i j : same_upto hi l0 l -> (i < hi)%nat -> (j < hi)%nat -> (hi <= length l)%nat -> same_upto hi l0 (swap l i j).
Proof.
  intros [Hp Hk] Hi Hj Hhi. split; [etrans; [apply swap_perm; lia|done]|]. intros k Hle.
  rewrite swap_lookup by lia. rewrite !decide_False by lia. by apply Hk.
Qed.

(** The chosen child is at least as high as both. *)
Definition highest_child (l : list A) (r hi c : nat) : Prop := child_of r c /\ (c < hi)%nat /\
  forall k a b, child_of r k -> (k < hi)%nat -> l !! c = Some a -> l !! k = Some b -> ge a b.

(** Going on with the child keeps the invariant. *)
Lemma sink_step l0 root hi l r c a b : Forall D l -> sinking l0 root hi (l, r) -> (hi <= length l)%nat -> highest_child l r hi c ->
  l !! c = Some a -> l !! r = Some b -> abv a b = true -> sinking l0 root hi (swap l r c, c).
Proof.
  intros HD [Hsame Hr Hheap Hbridge] Hhi (Hcr & Hc & Hmax) Ha Hb Hab. cbn [fst snd] in *.
  assert (Hlk : forall k, swap l r c !! k = if decide (k = r) then Some a else if decide (k = c) then Some b else l !! k).
  { intros k. rewrite swap_lookup by lia. by rewrite Ha, Hb. }
  assert (Hself : ge a b). { rewrite Forall_lookup in HD. apply abv_asym; [by eapply HD|by eapply HD|done]. }
  unfold child_of in Hcr. split; cbn [fst snd].
  - apply same_trans; [done|lia|lia|done].
  - lia.
  - intros i Hi Hic k x y Hk Hkhi. rewrite !Hlk. rewrite (decide_False (P := i = c)) by done.
    destruct (decide (i = r)) as [->|Hir].
    + intros [= <-]. destruct (decide (k = r)); [unfold child_of in Hk; lia|]. destruct (decide (k = c)) as [->|Hkc]; [by intros [= <-]|].
      intros Hy. by apply (Hmax k).
    + intros Hx. destruct (decide (k = c)) as [->|Hkc]; [unfold child_of in Hk; lia|].
      destruct (decide (k = r)) as [->|Hkr]; [intros [= <-]; by apply (Hbridge i c)|]. intros Hy. by apply (Hheap i Hi Hir k).
  - intros p k x y Hp Hpc Hck Hk. rewrite !Hlk. assert (p = r) as -> by (unfold child_of in *; lia).
    rewrite decide_True by done. intros [= <-]. unfold child_of in Hck. rewrite !decide_False by lia. intros Hy.
    apply (Hheap c ltac:(lia) ltac:(lia) k a y); [unfold child_of; lia|done|done|done].
Qed.

Lemma sift_step_yields l0 root hi l r : (hi <= length l0)%nat -> 2 * zlen l0 + 2 <= usize_max -> Forall D l0 -> sinking l0 root hi (l, r) ->
  yields Intr (sift_step enter moved above hi (l, r)) (fun next => match next with
    | inl state => sinking l0 root hi state /\ (hi - state.2 < hi - r)%nat
    | inr l' => same_upto hi l0 l' /\ heap_from l' root hi end).
Proof.
  intros Hhi Hmax HD Hs. pose proof Hs as [[Hperm Hframe] Hr Hheap Hbridge]. cbn [fst snd] in *.
  pose proof (Permutation_length Hperm) as Hlen. unfold zlen in Hmax.
  assert (HDl : Forall D l) by (by rewrite Hperm). unfold sift_step.
  eapply tr_yields_bind; [exact enter_yields|]. intros _ _. eapply (yields_step _ _ _ (2 * r + 1)%nat).
  { unfold index_mul. rewrite index_ok by lia. cbn [mbind result_bind]. unfold index_add. rewrite index_ok by lia. f_equal. lia. }
  destruct (Nat.leb_spec hi (2 * r + 1)).
  { apply tr_yields_ret. split; [done|]. intros i Hi. destruct (decide (i = r)) as [->|Hne]; [|by apply Hheap].
    intros k a b Hk Hkhi. unfold child_of in Hk. lia. }
  destruct (lookup_lt_is_Some_2 l r ltac:(lia)) as [b Hb]. destruct (lookup_lt_is_Some_2 l (2 * r + 1) ltac:(lia)) as [al Hal].
  eapply (yields_step _ _ _ (2 * r + 2)%nat); [unfold index_add; rewrite index_ok by lia; f_equal; lia|].
  rewrite Forall_lookup in HDl.
  eapply (tr_yields_bind _ _ _ (highest_child l r hi)).
  { destruct (Nat.ltb_spec (2 * r + 2) hi) as [Hright|Hright].
    - destruct (lookup_lt_is_Some_2 l (2 * r + 2) ltac:(lia)) as [ar Har].
      eapply yields_step; [by apply at_index_ok|]. eapply yields_step; [by apply at_index_ok|].
      eapply tr_yields_bind; [apply above_yields; by eapply HDl|]. intros higher ->. apply tr_yields_ret.
      assert (Hrefl : forall x, D x -> ge x x).
      { intros x Hx. unfold ge. destruct (abv x x) eqn:E; [|done]. by rewrite (abv_asym _ _ Hx Hx E) in E. }
      destruct (abv ar al) eqn:Hcmp; (split; [unfold child_of; lia|split; [lia|]]); intros k x y [-> | ->] Hk; rewrite ?Hal, ?Har; intros [= <-] [= <-];
        try (apply Hrefl; by eapply HDl); try done. apply abv_asym; [by eapply HDl..|done].
    - apply tr_yields_ret. split; [unfold child_of; lia|split; [lia|]]. intros k x y [-> | ->] Hk; [|lia]. rewrite Hal. intros [= <-] [= <-].
      unfold ge. destruct (abv al al) eqn:E; [|done]. pose proof (HDl _ _ Hal) as Hd. by rewrite (abv_asym _ _ Hd Hd E) in E. }
  intros c Hc. pose proof Hc as (Hcr & Hchi & Hcmax). destruct (lookup_lt_is_Some_2 l c ltac:(lia)) as [a Ha].
  eapply yields_step; [by apply at_index_ok|]. eapply yields_step; [by apply at_index_ok|].
  eapply tr_yields_bind; [apply above_yields; by eapply HDl|]. intros higher ->. destruct (abv a b) eqn:Hab; cbn [negb].
  - eapply tr_yields_bind; [exact moved_yields|]. intros _ _. apply tr_yields_ret. cbn [snd]. split; [|unfold child_of in Hcr; lia].
    apply (sink_step l0 root hi l r c a b); [by apply Forall_lookup|done|lia|done|done|done|done].
  - apply tr_yields_ret. split; [done|]. intros i Hi. destruct (decide (i = r)) as [->|Hne]; [|by apply Hheap].
    intros k x y Hk Hkhi Hx Hy. replace x with b in * by congruence. apply (abv_trans b a y); [by eapply HDl..|done|]. by apply (Hcmax k).
Qed.

Lemma sift_yields l root hi : (root < hi)%nat -> (hi <= length l)%nat -> 2 * zlen l + 2 <= usize_max -> Forall D l -> heap_from l (Datatypes.S root) hi ->
  yields Intr (sift enter moved above l root hi) (fun l' => same_upto hi l l' /\ heap_from l' root hi).
Proof.
  intros Hroot Hhi Hmax HD Hheap. apply (yields_loop _ _ (sinking l root hi) (fun state => (hi - state.2)%nat)).
  - intros [l' r] Hs. by apply sift_step_yields.
  - split; cbn [fst snd]; [by split|lia| |].
    + intros i Hi Hne. apply Hheap. lia.
    + intros p k a b Hp Hpr. unfold child_of in Hpr. lia.
  - cbn [snd]. lia.
Qed.

(** *** The whole sort *)

Lemma down_split n pre x post : down n = pre ++ x :: post -> n = Datatypes.S (x + length pre).
Proof.
  revert pre. induction n as [|n IH]; intros pre H; [by destruct pre|]. cbn [down] in H. destruct pre as [|y pre]; cbn in H.
  - injection H as <- _. cbn. lia.
  - injection H as _ H. apply IH in H. cbn. lia.
Qed.

Lemma heap_root l hi a : Forall D l -> heap_from l 0 hi -> l !! 0%nat = Some a -> forall i b, (i < hi)%nat -> l !! i = Some b -> ge a b.
Proof.
  intros HD Hheap Ha. rewrite Forall_lookup in HD. induction i as [i IH] using lt_wf_ind. intros b Hi Hb. destruct i as [|i].
  - replace b with a by congruence. unfold ge. destruct (abv a a) eqn:E; [|done].
    pose proof (HD _ _ Ha) as Hd. by rewrite (abv_asym _ _ Hd Hd E) in E.
  - pose proof (Nat.div_mod_eq i 2). pose proof (Nat.mod_upper_bound i 2). set (p := (i / 2)%nat) in *.
    destruct (lookup_lt_is_Some_2 l p) as [x Hx]; [pose proof (lookup_lt_Some _ _ _ Hb); lia|].
    apply (abv_trans a x b); [by eapply HD..|by apply (IH p); [lia|lia|]|].
    apply (Hheap p ltac:(lia) (Datatypes.S i)); [unfold child_of; lia|done..].
Qed.

Lemma same_prefix hi l l' i b : (hi <= length l)%nat -> same_upto hi l l' -> (i < hi)%nat -> l' !! i = Some b ->
  exists j, (j < hi)%nat /\ l !! j = Some b.
Proof.
  intros Hhi [Hp Hk] Hi Hb. pose proof (Permutation_length Hp) as Hlen.
  assert (Hdrop : drop hi l' = drop hi l). { apply list_eq. intros k. rewrite !lookup_drop. apply Hk. lia. }
  rewrite <- (take_drop hi l'), <- (take_drop hi l), Hdrop in Hp. apply Permutation_app_inv_r in Hp.
  assert (Hin : b ∈ take hi l). { rewrite <- Hp. apply list_elem_of_lookup. exists i. by rewrite lookup_take_lt. }
  apply list_elem_of_lookup in Hin as [j Hj]. exists j. pose proof (lookup_lt_Some _ _ _ Hj) as Hlt. rewrite length_take in Hlt.
  split; [lia|]. by rewrite lookup_take_lt in Hj by lia.
Qed.

(** From [hi] on every element is at least as high as all those before it. *)
Definition sorted_from (l : list A) (hi : nat) : Prop := forall i j a b, (i < j)%nat -> (hi <= j)%nat -> l !! i = Some a -> l !! j = Some b -> ge b a.

(** One turn of the second loop. *)
Lemma extract_yields l x : (1 <= x)%nat -> (x < length l)%nat -> 2 * zlen l + 2 <= usize_max -> Forall D l ->
  heap_from l 0 (Datatypes.S x) -> sorted_from l (Datatypes.S x) ->
  yields Intr (_ ← observe; sift enter moved above (swap l 0 x) 0 x) (fun l' => l' ≡ₚ l /\ heap_from l' 0 x /\ sorted_from l' x).
Proof.
  intros Hx1 Hx Hmax HD Hheap Hsorted. env_step.
  assert (Hlk : forall k, swap l 0 x !! k = if decide (k = 0%nat) then l !! x else if decide (k = x) then l !! 0%nat else l !! k)
    by (intros k; apply swap_lookup; lia).
  assert (Hperm : swap l 0 x ≡ₚ l) by (apply swap_perm; lia).
  assert (HDs : Forall D (swap l 0 x)) by (by rewrite Hperm).
  eapply yields_mono; [apply sift_yields; [lia|rewrite swap_length; lia|unfold zlen in *; by rewrite swap_length|done|]|].
  - intros i Hi k a b Hk Hkx. rewrite !Hlk. unfold child_of in Hk. rewrite !decide_False by lia. apply (Hheap i ltac:(lia) k); [unfold child_of; lia|lia].
  - intros l' [[Hp Hk] Hh]. split; [by etrans|]. split; [done|]. destruct (lookup_lt_is_Some_2 l 0%nat ltac:(lia)) as [top Htop].
    assert (Hbefore : forall i a, (i < x)%nat -> l' !! i = Some a -> exists i', (i' < Datatypes.S x)%nat /\ l !! i' = Some a).
    { intros i a Hi Ha. destruct (same_prefix x (swap l 0 x) l' i a) as (j & Hj & Hja); [rewrite swap_length; lia|by split|done|done|].
      rewrite Hlk in Hja. destruct (decide (j = 0%nat)); [by exists x; split; [lia|]|]. rewrite decide_False in Hja by lia. exists j. by split; [lia|]. }
    intros i j a b Hij Hxj Ha Hb. rewrite Hk, Hlk in Hb by done. rewrite decide_False in Hb by lia.
    destruct (decide (j = x)) as [->|Hjx].
    + replace b with top by congruence. destruct (Hbefore i a ltac:(lia) Ha) as (i' & Hi' & Hia). by apply (heap_root l (Datatypes.S x) top HD Hheap Htop i').
    + destruct (decide (i < x)%nat) as [Hix|Hix].
      * destruct (Hbefore i a Hix Ha) as (i' & Hi' & Hia). by apply (Hsorted i' j); [lia|lia|..].
      * rewrite Hk, Hlk in Ha by lia. rewrite decide_False in Ha by lia.
        destruct (decide (i = x)) as [->|]; [by apply (Hsorted 0%nat j); [lia|lia|..]|by apply (Hsorted i j); [lia|lia|..]].
Qed.

Lemma heap_sort_yields l : 2 * zlen l + 2 <= usize_max -> Forall D l ->
  yields Intr (heap_sort enter moved above l) (fun l' => l' ≡ₚ l /\ sorted_from l' 0).
Proof.
  intros Hmax HD. set (n := length l). unfold heap_sort. fold n.
  assert (Hlen : forall l', l' ≡ₚ l -> length l' = n /\ 2 * zlen l' + 2 <= usize_max /\ Forall D l').
  { intros l' Hp. pose proof (Permutation_length Hp). unfold zlen in *. split; [done|]. split; [by rewrite H|by rewrite Hp]. }
  pose proof (Nat.div_mod_eq n 2). pose proof (Nat.mod_upper_bound n 2).
  eapply (tr_yields_bind _ _ _ (fun l' => l' ≡ₚ l /\ heap_from l' 0 n)).
  - eapply yields_mono; [apply (yields_for _ _ _ (fun pre l' => l' ≡ₚ l /\ heap_from l' (n / 2 - length pre) n))|].
    + split; [done|]. intros i Hi k a b Hk Hkn. unfold child_of in Hk. cbn [length] in Hi. lia.
    + intros pre root post l' Hsplit [Hp Hh]. apply down_split in Hsplit. destruct (Hlen l' Hp) as (Hn & Hm & HDl).
      eapply yields_mono; [apply sift_yields; [lia|lia|done|done|]|].
      * by replace (Datatypes.S root) with (n / 2 - length pre)%nat by lia.
      * intros l'' [[Hp' _] Hh']. split; [by etrans|]. rewrite length_app. cbn [length]. by replace (n / 2 - (length pre + 1))%nat with root by lia.
    + intros l' [Hp Hh]. split; [done|]. intros i Hi. apply Hh.
      assert (forall m, length (down m) = m) as -> by (induction m; cbn; lia). lia.
  - intros l1 [Hp1 Hh1]. eapply yields_mono; [apply (yields_for _ _ _ (fun pre l' => l' ≡ₚ l /\ heap_from l' 0 (n - length pre) /\ sorted_from l' (n - length pre)))|].
    + cbn [length]. rewrite Nat.sub_0_r. split; [done|]. split; [done|]. intros i j a b Hij Hj Ha Hb%lookup_lt_Some.
      destruct (Hlen l1 Hp1) as (Hn & _). lia.
    + intros pre x post l' Hsplit (Hp & Hh & Hs). apply down_split in Hsplit. destruct (Hlen l' Hp) as (Hn & Hm & HDl).
      eapply yields_mono; [apply extract_yields; [lia|lia|done|done|..]|].
      * by replace (Datatypes.S (Datatypes.S x)) with (n - length pre)%nat by lia.
      * by replace (Datatypes.S (Datatypes.S x)) with (n - length pre)%nat by lia.
      * intros l'' (Hp' & Hh' & Hs'). rewrite length_app. cbn [length]. replace (n - (length pre + 1))%nat with (Datatypes.S x) by lia. split; [by etrans|done].
    + intros l' (Hp & _ & Hs). split; [done|]. intros i j a b Hij _ Ha Hb. apply (Hs i j); [done| |done..].
      assert (forall m, length (down m) = m) as -> by (induction m; cbn; lia). destruct (Hlen l' Hp) as (Hn & _). pose proof (lookup_lt_Some _ _ _ Hb). lia.
Qed.
End correct.
