(* ===== verification/TraceStructure.v ===== *)
(** Trace store: the graph of a trace.

    Models [positron-signals/src/trace_store/structural.rs] up to [analyze]: the sorted index of
    span identities and its binary search, the classification of cycles, the adjacency of
    children, and the critical path. *)

From Stdlib Require Import Bool.
From S2P Require Import Prelude Limits Routing SourceTime Values Observe Traversal LogCodec TraceModel TraceHeap.

(** ** Times *)

(** [positron-signals/src/trace_store/structural.rs:930-937 usable_instant] *)
Definition usable_instant (t : EventTime) : option UnixNanoseconds :=
  match event_quality t with Usable | Outlier => event_instant t | _ => None end.

(** [positron-signals/src/trace_store/structural.rs:921-928 span_interval] *)
Definition span_interval (o : ScannedSpanObservation) : option (Z * Z) :=
  let o := scanned_observation o in
  start ← usable_instant (so_start_time o);
  stop ← usable_instant (so_end_time o);
  if nanos start <=? nanos stop then Some (nanos start, nanos stop) else None.

(** [positron-signals/src/trace_store/structural.rs:916-919 span_duration] *)
Definition span_duration (o : ScannedSpanObservation) : option Z :=
  '(start, stop) ← span_interval o;
  if (0 <=? stop - start) && (stop - start <=? u64_max) then Some (stop - start) else None.

(** [positron-signals/src/trace_store/structural.rs:911-914 representative] *)
Definition representative (s : LogicalSpan) : result TraceStoreFailure ScannedSpanObservation :=
  ok_or trace_invalid_input (structural_representative s).

(** [positron-signals/src/trace_store/structural.rs:957-961 increment] *)
Definition increment (n : Z) : result TraceStoreFailure Z := ok_or trace_limit_exceeded (checked_add u64_max n 1).

(** ** The index of identities *)

(** [positron-signals/src/trace_store/structural.rs:250-254 SpanIndexEntry] *)
Record SpanIndexEntry := mkEntry { entry_span_id : bytes; entry_parent : option nat }.

(** [positron-signals/src/trace_store/structural.rs:326-331 SpanIndex::parent_index] *)
Definition parent_index (entries : list SpanIndexEntry) (i : nat) : result TraceStoreFailure (option nat) :=
  entry_parent <$> at_index entries i.

Section index.
Context {S : Type} {Alloc : Allocator S} {Env : ScanEnvironment S}.

(** [positron-signals/src/trace_store/structural.rs:296-324 SpanIndex::find] The interval shrinks at every
    turn, so its length bounds the turns. *)
Definition find (entries : list SpanIndexEntry) (id : bytes) : Tr S (option nat) :=
  tr_loop (Datatypes.S (length entries)) (fun '(low, high) =>
    if (low <? high)%nat then
      _ ← observe;
      middle ← tr_of (index_add low ((high - low) / 2));
      entry ← tr_of (at_index entries middle);
      match lex_compare (entry_span_id entry) id with
      | Lt => low ← tr_of (index_add middle 1); mret (inl (low, high))
      | Gt => mret (inl (low, middle))
      | Eq => mret (inr (Some middle))
      end
    else mret (inr None)) (O, length entries).

(** [positron-signals/src/trace_store/structural.rs:266-279 SpanIndex::build!] The entries, of identities that must increase. *)
Definition build_entries (spans : list LogicalSpan) : Tr S (option bytes * list SpanIndexEntry) :=
  tr_for spans (fun '(previous, entries) span =>
    _ ← observe;
    if match previous with Some id => negb (bool_decide (lex_compare id (ls_span_id span) = Lt)) | None => false end
    then tr_fail trace_invalid_input
    else mret (Some (ls_span_id span), entries ++ [mkEntry (ls_span_id span) None])) (None, []).

(** [positron-signals/src/trace_store/structural.rs:261-294 SpanIndex::build] *)
Definition SpanIndex_build (spans : list LogicalSpan) : Tr S (list SpanIndexEntry) :=
  _ ← reserve (length spans);
  '(_, entries) ← build_entries spans;
  tr_for (imap pair spans) (fun entries '(i, span) =>
    _ ← observe;
    o ← tr_of (representative span);
    parent ← match so_parent_span_id (scanned_observation o) with
             | Some id => find entries id
             | None => mret None
             end;
    entry ← tr_of (at_index entries i);
    mret (<[i := mkEntry (entry_span_id entry) parent]> entries)) entries.
End index.

(** ** Cycles *)

(** [positron-signals/src/trace_store/structural.rs:457-463 CycleState] *)
Inductive CycleState := Unseen | Visiting | Acyclic | Cycle.
#[global] Instance CycleState_eq_dec : EqDecision CycleState.
Proof. solve_decision. Defined.

Section cycles.
Context {S : Type} {Alloc : Allocator S} {Env : ScanEnvironment S}.

(** [positron-signals/src/trace_store/structural.rs:869-894 classify_cycles!] The walk from one span to its ancestors: the states, the trail, and where in the trail a cycle
    begins. Every turn but the last marks another span. *)
Definition walk (entries : list SpanIndexEntry) (states : list CycleState) (start : nat)
  : Tr S (list CycleState * list nat * option nat) :=
  tr_loop (Datatypes.S (Datatypes.S (length entries))) (fun '(states, trail, current) =>
    match current with
    | None => mret (inr (states, trail, None))
    | Some i =>
        _ ← observe;
        state ← tr_of (at_index states i);
        match state with
        | Unseen =>
            parent ← tr_of (parent_index entries i);
            mret (inl (<[i := Visiting]> states, trail ++ [i], parent))
        | Visiting => mret (inr (states, trail, fst <$> list_find (fun j => j = i) trail))
        | Acyclic | Cycle => mret (inr (states, trail, None))
        end
    end) (states, [], Some start).

(** [positron-signals/src/trace_store/structural.rs:895-905 classify_cycles!] The verdict on a trail. *)
Definition settle (states : list CycleState) (trail : list nat) (cycle_start : option nat) : Tr S (list CycleState) :=
  tr_for (imap pair trail) (fun states '(position, i) =>
    _ ← observe;
    _ ← tr_of (at_index states i);
    mret (<[i := if match cycle_start with Some start => (start <=? position)%nat | None => false end then Cycle else Acyclic]> states)) states.

(** [positron-signals/src/trace_store/structural.rs:851-909 classify_cycles] The trail is empty at the
    start of every walk. *)
Definition classify_cycles (entries : list SpanIndexEntry) : Tr S (list CycleState) :=
  _ ← reserve (length entries);
  _ ← reserve (length entries);
  tr_for (seq 0 (length entries)) (fun states start =>
    _ ← observe;
    if negb (bool_decide (states !! start = Some Unseen)) then mret states else
    '(states, trail, cycle_start) ← walk entries states start;
    settle states trail cycle_start) (replicate (length entries) Unseen).
End cycles.

(** ** Children *)

(** [positron-signals/src/trace_store/structural.rs:334-339 ChildRange] *)
Record ChildRange := mkRange { range_start : nat; range_end : nat; range_next : nat }.

(** [positron-signals/src/trace_store/structural.rs:341-344 ChildAdjacency] *)
Record ChildAdjacency := mkAdjacency { children : list nat; ranges : list ChildRange }.

Section children.
Context {S : Type} {Alloc : Allocator S} {Env : ScanEnvironment S}.

(** The interval of the representative of a span, which must be valid. *)
Definition interval_of (spans : list LogicalSpan) (i : nat) : result TraceStoreFailure (Z * Z) :=
  span ← at_index spans i;
  o ← representative span;
  ok_or trace_invalid_input (span_interval o).

(** [positron-signals/src/trace_store/structural.rs:810-830 child_precedes] *)
Definition child_precedes (spans : list LogicalSpan) (left right : nat) : Tr S bool :=
  _ ← observe;
  left_span ← tr_of (at_index spans left);
  right_span ← tr_of (at_index spans right);
  '(_, left_end) ← tr_of (interval_of spans left);
  '(_, right_end) ← tr_of (interval_of spans right);
  mret ((right_end <? left_end)
        || ((left_end =? right_end) && bool_decide (lex_compare (ls_span_id left_span) (ls_span_id right_span) = Lt))).

(** [positron-signals/src/trace_store/structural.rs:756-808 sift_child_heap] It observes when it swaps,
    and in its comparison. *)
Definition sift_child_heap (spans : list LogicalSpan) : list nat -> nat -> nat -> Tr S (list nat) :=
  sift (mret tt) observe (child_precedes spans).

(** [positron-signals/src/trace_store/structural.rs:745-752 order_children!] The last loop reverses the slice in place. *)
Definition reverse_in_place (l : list nat) : Tr S (list nat) :=
  tr_for (seq 0 (length l / 2)) (fun l i =>
    _ ← observe;
    other ← tr_of (if (i <=? length l - 1)%nat then Ok (length l - 1 - i)%nat else Err trace_limit_exceeded);
    mret (swap l i other)) l.

(** [positron-signals/src/trace_store/structural.rs:723-754 order_children] *)
Definition order_children (spans : list LogicalSpan) (l : list nat) : Tr S (list nat) :=
  if (length l <? 2)%nat then mret l else
  l ← heap_sort (mret tt) observe (child_precedes spans) l;
  reverse_in_place l.

(** [positron-signals/src/trace_store/structural.rs:353-373 ChildAdjacency::build!] The number of children of every span, in the [end] of its
    range. *)
Definition count_children (entries : list SpanIndexEntry) (n : nat) : Tr S (list ChildRange) :=
  rs ← tr_for (seq 0 n) (fun rs _ => _ ← observe; mret (rs ++ [mkRange 0 0 0])) [];
  tr_for (seq 0 n) (fun rs i =>
    _ ← observe;
    parent ← tr_of (parent_index entries i);
    match parent with
    | None => mret rs
    | Some p =>
        r ← tr_of (at_index rs p);
        count ← tr_of (index_add (range_end r) 1);
        mret (<[p := mkRange (range_start r) count (range_next r)]> rs)
    end) rs.

(** [positron-signals/src/trace_store/structural.rs:374-384 ChildAdjacency::build!] Consecutive ranges of those sizes. *)
Definition lay_out (rs : list ChildRange) : Tr S (nat * list ChildRange) :=
  tr_for rs (fun '(total, done) r =>
    _ ← observe;
    total' ← tr_of (index_add total (range_end r));
    mret (total', done ++ [mkRange total total' total])) (O, []).

(** [positron-signals/src/trace_store/structural.rs:385-406 ChildAdjacency::build!] Every child goes to the next place of its parent. A place that is not yet filled holds an index
    past every span ([usize::MAX] in the source). *)
Definition place_children (entries : list SpanIndexEntry) (n total : nat) (rs : list ChildRange) : Tr S (list nat * list ChildRange) :=
  _ ← reserve total;
  cs ← tr_for (seq 0 total) (fun cs _ => _ ← observe; mret (cs ++ [n])) [];
  tr_for (seq 0 n) (fun '(cs, rs) i =>
    _ ← observe;
    parent ← tr_of (parent_index entries i);
    match parent with
    | None => mret (cs, rs)
    | Some p =>
        r ← tr_of (at_index rs p);
        _ ← tr_of (at_index cs (range_next r));
        next ← tr_of (index_add (range_next r) 1);
        mret (<[range_next r := i]> cs, <[p := mkRange (range_start r) (range_end r) next]> rs)
    end) (cs, rs).

(** [positron-signals/src/trace_store/structural.rs:407-417 ChildAdjacency::build!] Every range must be full; its slice is ordered. *)
Definition order_ranges (spans : list LogicalSpan) (cs : list nat) (rs : list ChildRange) : Tr S (list nat * list ChildRange) :=
  tr_for rs (fun '(cs, done) r =>
    _ ← observe;
    if negb (range_next r =? range_end r)%nat then tr_fail trace_invalid_input else
    if negb ((range_start r <=? range_end r) && (range_end r <=? length cs))%nat then tr_fail trace_invalid_input else
    slice ← order_children spans (take (range_end r - range_start r) (drop (range_start r) cs));
    mret (take (range_start r) cs ++ slice ++ drop (range_end r) cs, done ++ [mkRange (range_start r) (range_end r) (range_start r)])) (cs, []).

(** [positron-signals/src/trace_store/structural.rs:347-419 ChildAdjacency::build] *)
Definition ChildAdjacency_build (spans : list LogicalSpan) (entries : list SpanIndexEntry) : Tr S ChildAdjacency :=
  let n := length spans in
  _ ← reserve n;
  rs ← count_children entries n;
  '(total, rs) ← lay_out rs;
  '(cs, rs) ← place_children entries n total rs;
  '(cs, rs) ← order_ranges spans cs rs;
  mret (mkAdjacency cs rs).

(** [positron-signals/src/trace_store/structural.rs:421-454 ChildAdjacency::next_child] The child and the
    position after it. *)
Definition next_child (adj : ChildAdjacency) (spans : list LogicalSpan) (parent next : nat) (cursor : Z) : Tr S (option nat * nat) :=
  range ← tr_of (at_index (ranges adj) parent);
  tr_loop (Datatypes.S (length (children adj))) (fun next =>
    if (next <? range_end range)%nat then
      _ ← observe;
      next' ← tr_of (index_add next 1);
      child ← tr_of (at_index (children adj) next);
      '(start, stop) ← tr_of (interval_of spans child);
      if (start <? cursor) && (stop <=? cursor) then mret (inr (Some child, next')) else mret (inl next')
    else mret (inr (None, next))) next.
End children.

(** ** The critical path *)

(** [positron-signals/src/trace_store/structural.rs:125-130 TraceCriticalPathFragment] *)
Record TraceCriticalPathFragment := mkFragment { fragment_span : bytes; fragment_start : Z; fragment_end : Z }.

(** [positron-signals/src/trace_store/structural.rs:145-148 TraceCriticalPathFragment::duration_nanos] *)
Definition duration_nanos (f : TraceCriticalPathFragment) : option Z :=
  let d := fragment_end f - fragment_start f in if (0 <=? d) && (d <=? u64_max) then Some d else None.

(** [positron-signals/src/trace_store/structural.rs:154-158 TraceCriticalPath] *)
Record TraceCriticalPath := mkCriticalPath { fragments : list TraceCriticalPathFragment; path_duration : Z }.

(** [positron-signals/src/trace_store/structural.rs:691-697 CriticalPathFrame] *)
Record CriticalPathFrame := mkFrame { frame_span : nat; frame_start : Z; frame_cursor : Z; frame_next : nat }.

(** [positron-signals/src/trace_store/structural.rs:700-720 CriticalPathFrame::new] *)
Definition frame_new (spans : list LogicalSpan) (adj : ChildAdjacency) (i : nat) : result TraceStoreFailure CriticalPathFrame :=
  '(start, stop) ← interval_of spans i;
  range ← at_index (ranges adj) i;
  Ok (mkFrame i start stop (range_start range)).

(** [positron-signals/src/trace_store/structural.rs:832-849 append_fragment] *)
Definition append_fragment (fs : list TraceCriticalPathFragment) (id : bytes) (start stop : Z)
  : result TraceStoreFailure (list TraceCriticalPathFragment) :=
  if stop <? start then Err trace_invalid_input
  else if start <? stop then Ok (fs ++ [mkFragment id start stop]) else Ok fs.

Section path.
Context {S : Type} {Alloc : Allocator S} {Env : ScanEnvironment S}.

(** [positron-signals/src/trace_store/structural.rs:637-674 critical_path!] One turn of the loop over the stack, whose top is the head of the list: the fragments and the
    stack to go on with. *)
Definition path_step (spans : list LogicalSpan) (adj : ChildAdjacency) (state : list TraceCriticalPathFragment * list CriticalPathFrame)
  : Tr S ((list TraceCriticalPathFragment * list CriticalPathFrame) + list TraceCriticalPathFragment) :=
  let '(fs, stack) := state in
  match stack with
  | [] => mret (inr fs)
  | frame :: below =>
      _ ← observe;
      parent ← tr_of (at_index spans (frame_span frame));
      '(child, next) ← next_child adj spans (frame_span frame) (frame_next frame) (frame_cursor frame);
      match child with
      | Some c =>
          '(child_start, child_end) ← tr_of (interval_of spans c);
          fs ← tr_of (append_fragment fs (ls_span_id parent) child_end (frame_cursor frame));
          top ← tr_of (frame_new spans adj c);
          mret (inl (fs, top :: mkFrame (frame_span frame) (frame_start frame) child_start next :: below))
      | None =>
          fs ← tr_of (append_fragment fs (ls_span_id parent) (frame_start frame) (frame_cursor frame));
          mret (inl (fs, below))
      end
  end.

(** [positron-signals/src/trace_store/structural.rs:614-689 critical_path] Every span enters the stack at
    most once, so twice their number bounds the turns. *)
Definition critical_path (spans : list LogicalSpan) (entries : list SpanIndexEntry) (roots : list bytes) : Tr S (option TraceCriticalPath) :=
  match head roots with
  | None => mret None
  | Some root_id =>
      found ← find entries root_id;
      root ← tr_of (ok_or trace_invalid_input found);
      adj ← ChildAdjacency_build spans entries;
      capacity ← tr_of (index_mul (length spans) 2);
      _ ← reserve capacity;
      _ ← reserve (length spans);
      frame ← tr_of (frame_new spans adj root);
      fs ← tr_loop (2 * length spans + 2) (path_step spans adj) ([], [frame]);
      let fs := rev fs in
      total ← tr_for fs (fun total f =>
        _ ← observe;
        d ← tr_of (ok_or trace_invalid_input (duration_nanos f));
        tr_of (ok_or trace_limit_exceeded (checked_add u64_max total d))) 0;
      mret (Some (mkCriticalPath fs total))
  end.
End path.
