(* ===== verification/TraceCycles.v ===== *)
(** Trace store: the index of identities and the cycles are right.

    The binary search finds an identity exactly when it is there; the index gives every span the
    position of the parent it names; and a span is classified as a member of a cycle exactly when
    following the parents from it comes back to it. *)

From Stdlib Require Import Compare_dec.
From S2P Require Import Prelude Limits Routing SourceTime Values Observe Traversal LogCodec TraceModel TraceHeap TraceStructure.

(** The spans that consolidation produces for one trace: every span has a representative and the
    identities increase. The bound holds of every vector of spans. *)
Record spans_ok (spans : list LogicalSpan) : Prop := {
  spans_bound : 2 * zlen spans + 2 <= usize_max;
  spans_represented : Forall (fun s => is_Some (structural_representative s)) spans;
  spans_sorted : forall i j a b, (i < j)%nat -> spans !! i = Some a -> spans !! j = Some b -> lex_compare (ls_span_id a) (ls_span_id b) = Lt;
}.

(** The parent that a span names. *)
Definition named_parent (s : LogicalSpan) : option bytes :=
  o ← structural_representative s; so_parent_span_id (scanned_observation o).

(** The position of an identity. *)
Definition located (spans : list LogicalSpan) (id : bytes) (found : option nat) : Prop :=
  match found with
  | Some j => exists t, spans !! j = Some t /\ ls_span_id t = id
  | None => forall j t, spans !! j = Some t -> ls_span_id t <> id
  end.

(** What an entry says about its span. *)
Definition entry_ok (spans : list LogicalSpan) (s : LogicalSpan) (e : SpanIndexEntry) : Prop :=
  entry_span_id e = ls_span_id s /\
  match named_parent s with Some id => located spans id (entry_parent e) | None => entry_parent e = None end.

Definition index_right (spans : list LogicalSpan) (entries : list SpanIndexEntry) : Prop := Forall2 (entry_ok spans) spans entries.

(** The index that the spans determine. *)
Definition position_of (spans : list LogicalSpan) (id : bytes) : option nat := fst <$> list_find (fun s => ls_span_id s = id) spans.
Definition index_of (spans : list LogicalSpan) : list SpanIndexEntry :=
  (fun s => mkEntry (ls_span_id s) (id ← named_parent s; position_of spans id)) <$> spans.

Lemma ids_distinct spans i j s t : spans_ok spans -> spans !! i = Some s -> spans !! j = Some t -> ls_span_id s = ls_span_id t -> i = j.
Proof.
  intros [_ _ Hsorted] Hs Ht Hid. destruct (Nat.lt_trichotomy i j) as [Hlt|[?|Hlt]]; [|done|]; exfalso.
  - pose proof (Hsorted i j s t Hlt Hs Ht) as H. by rewrite Hid, lex_compare_refl in H.
  - pose proof (Hsorted j i t s Hlt Ht Hs) as H. by rewrite Hid, lex_compare_refl in H.
Qed.

Lemma located_position spans id found : spans_ok spans -> located spans id found -> found = position_of spans id.
Proof.
  intros Hok H. unfold position_of. destruct (list_find (fun s => ls_span_id s = id) spans) as [[j t]|] eqn:Hf; cbn.
  - apply list_find_Some in Hf as (Ht & Hid & _). destruct found as [i|]; [|by destruct (H j t Ht)]. destruct H as (s & Hs & Hid').
    f_equal. apply (ids_distinct spans i j s t); [done|done|done|congruence].
  - rewrite list_find_None, Forall_forall in Hf. destruct found as [i|]; [|done]. destruct H as (s & Hs & Hid). exfalso. apply (Hf s); [by eapply list_elem_of_lookup_2|done].
Qed.

Lemma index_unique spans entries : spans_ok spans -> index_right spans entries -> entries = index_of spans.
Proof.
  intros Hok H. unfold index_of. apply list_eq_Forall2, Forall2_fmap_r, Forall2_flip. eapply Forall2_impl; [exact H|]. intros s [id parent] [Hid Hp]. cbn in *.
  rewrite Hid. f_equal. destruct (named_parent s) as [name|]; [cbn; by apply located_position|done].
Qed.

Section index.
Context {S : Type} {Alloc : Allocator S} {Env : ScanEnvironment S} {Cap : QueryCapacity S}.
Context (Intr : TraceStoreFailure -> Prop) {HI : Interrupts S Intr}.

Lemma index_add_ok a b : Z.of_nat (a + b) <= usize_max -> index_add a b = Ok (a + b)%nat.
Proof. intros H. unfold index_add. by rewrite (proj2 (Z.leb_le _ _) H). Qed.

Lemma lex_lt_irrefl a : lex_compare a a = Lt -> False.
Proof. by rewrite lex_compare_refl. Qed.

(** The identities of the entries are those of the spans. *)
Definition same_ids (spans : list LogicalSpan) (entries : list SpanIndexEntry) : Prop :=
  Forall2 (fun s e => entry_span_id e = ls_span_id s) spans entries.

Lemma find_yields spans entries id : spans_ok spans -> same_ids spans entries -> yields Intr (find entries id) (located spans id).
Proof.
  intros [Hmax _ Hsorted] Hids. pose proof (Forall2_length _ _ _ Hids) as Hlen. unfold zlen in Hmax.
  apply (yields_loop _ _ (fun '(low, high) => (low <= high <= length spans)%nat /\
      (forall i s, (i < low)%nat -> spans !! i = Some s -> lex_compare (ls_span_id s) id = Lt) /\
      (forall i s, (high <= i)%nat -> spans !! i = Some s -> lex_compare (ls_span_id s) id = Gt)) (fun '(low, high) => (high - low)%nat)).
  - intros [low high] (Hr & Hlow & Hhigh). destruct (Nat.ltb_spec low high) as [Hlt|Hge].
    + env_step. pose proof (Nat.div_lt (high - low) 2 ltac:(lia) ltac:(lia)) as Hdiv. set (half := ((high - low) / 2)%nat) in *.
      eapply yields_step; [apply index_add_ok; lia|].
      destruct (lookup_lt_is_Some_2 spans (low + half) ltac:(lia)) as [s Hs].
      destruct (Forall2_lookup_l _ _ _ _ _ Hids Hs) as (e & He & Hid).
      eapply yields_step; [by apply at_index_ok|]. rewrite Hid. destruct (lex_compare (ls_span_id s) id) eqn:Hcmp.
      * apply tr_yields_ret. exists s. split; [done|]. by apply lex_compare_eq.
      * eapply yields_step; [apply index_add_ok; lia|]. apply tr_yields_ret. split; [|lia]. split; [lia|]. split; [|done].
        intros i t Hi Ht. destruct (decide (i = low + half)%nat) as [->|Hne]; [by replace t with s by congruence|].
        apply (lex_compare_trans_lt _ (ls_span_id s)); [apply (Hsorted i (low + half)%nat); [lia|done..]|done].
      * apply tr_yields_ret. split; [|lia]. split; [lia|]. split; [done|]. intros i t Hi Ht.
        destruct (decide (i = low + half)%nat) as [->|Hne]; [by replace t with s by congruence|].
        rewrite lex_compare_antisym in Hcmp |- *. apply CompOpp_iff. cbn. apply CompOpp_iff in Hcmp. cbn in Hcmp.
        apply (lex_compare_trans_lt _ (ls_span_id s)); [done|apply (Hsorted (low + half)%nat i); [lia|done..]].
    + apply tr_yields_ret. intros j t Ht <-. destruct (decide (j < low)%nat) as [Hj|Hj].
      * by eapply lex_lt_irrefl, (Hlow j).
      * pose proof (Hhigh j t ltac:(lia) Ht) as H. by rewrite lex_compare_refl in H.
  - split; [lia|]. split; [intros; lia|]. intros i s Hi Hs%lookup_lt_Some. lia.
  - cbn. lia.
Qed.

Lemma entries_yields spans : spans_ok spans -> yields Intr (build_entries spans) (fun '(_, entries) => same_ids spans entries).
Proof.
  intros [_ _ Hsorted]. eapply yields_mono.
  - apply (yields_for _ _ _ (fun pre '(previous, entries) => same_ids pre entries /\ previous = ls_span_id <$> last pre)).
    + by split; [constructor|].
    + intros pre s post [previous entries] Hl [Hids ->]. env_step. destruct (last pre) as [t|] eqn:Ht; cbn [fmap option_fmap option_map].
      * apply last_Some in Ht as [pre' ->].
        rewrite bool_decide_true; [cbn [negb]|].
        -- apply tr_yields_ret. split; [apply Forall2_app; [done|by constructor]|by rewrite last_snoc].
        -- apply (Hsorted (length pre') (Datatypes.S (length pre'))); [lia|..]; rewrite Hl, <- app_assoc; [by apply list_lookup_middle|].
           rewrite lookup_app_r by lia. replace (Datatypes.S (length pre') - length pre')%nat with 1%nat by lia. done.
      * apply tr_yields_ret. split; [apply Forall2_app; [done|by constructor]|by rewrite last_snoc].
  - intros [previous entries] [Hids _]. done.
Qed.

Lemma imap_pair_split {A} (l : list A) pre i x post : imap pair l = pre ++ (i, x) :: post -> i = length pre /\ l !! i = Some x.
Proof.
  intros H. assert (Hi : imap pair l !! length pre = Some (i, x)) by (rewrite H; by apply list_lookup_middle).
  rewrite list_lookup_imap in Hi. destruct (l !! length pre) as [y|] eqn:Hy; [|done]. injection Hi as <- <-. done.
Qed.

Lemma SpanIndex_build_yields spans : spans_ok spans -> yields Intr (SpanIndex_build spans) (index_right spans).
Proof.
  intros Hok. pose proof Hok as [_ Hrep _]. env_step. eapply tr_yields_bind; [by apply entries_yields|]. intros [previous entries0] Hids0.
  set (I := fun (pre : list (nat * LogicalSpan)) entries => same_ids spans entries /\
    forall i s e, (i < length pre)%nat -> spans !! i = Some s -> entries !! i = Some e -> entry_ok spans s e).
  eapply yields_mono; [apply (yields_for _ _ _ I)|].
  - split; [done|]. intros i s e Hi. cbn in Hi. lia.
  - intros pre [i s] post entries [-> Hs]%imap_pair_split [Hids Hdone]. env_step. rewrite Forall_lookup in Hrep.
    destruct (Hrep _ _ Hs) as [o Ho]. eapply (yields_step _ _ _ o); [unfold representative; by rewrite Ho|].
    destruct (Forall2_lookup_l _ _ _ _ _ Hids Hs) as (e & He & Hid). assert (Hnp : named_parent s = so_parent_span_id (scanned_observation o)) by (unfold named_parent; by rewrite Ho).
    eapply (tr_yields_bind _ _ _ (fun parent => match named_parent s with Some id => located spans id parent | None => parent = None end)).
    { rewrite Hnp. destruct (so_parent_span_id _); [by apply find_yields|by apply tr_yields_ret]. }
    intros parent Hparent. eapply yields_step; [by apply at_index_ok|]. apply tr_yields_ret. split.
    + unfold same_ids. rewrite <- (list_insert_id spans (length pre) s) by done. by apply Forall2_insert.
    + intros j t e' Hj Ht He'. rewrite length_app in Hj. cbn in Hj. destruct (decide (j = length pre)) as [->|Hne].
      * rewrite list_lookup_insert_eq in He' by (by eapply lookup_lt_Some). injection He' as <-. replace t with s by congruence. done.
      * rewrite list_lookup_insert_ne in He' by done. apply (Hdone j); [lia|done|done].
  - intros entries [Hids Hdone]. apply Forall2_same_length_lookup. split; [by eapply Forall2_length|].
    intros i s e Hs He. apply (Hdone i); [|done|done]. rewrite length_imap. by eapply lookup_lt_Some.
Qed.
End index.

(** ** Ancestors *)

Section ancestors.
Context (entries : list SpanIndexEntry).

Definition parent_of (i : nat) : option nat := e ← entries !! i; entry_parent e.

Fixpoint ancestor (n : nat) (i : nat) : option nat :=
  match n with O => Some i | Datatypes.S n => p ← parent_of i; ancestor n p end.

(** Following the parents comes back. *)
Definition on_cycle (i : nat) : Prop := exists n, (0 < n)%nat /\ ancestor n i = Some i.

Lemma ancestor_add n m i : ancestor (n + m) i = j ← ancestor n i; ancestor m j.
Proof. revert i. induction n as [|n IH]; intros i; [done|]. cbn [ancestor Nat.add]. destruct (parent_of i) as [p|]; [apply IH|done]. Qed.

Lemma ancestor_cycle i n k : ancestor n i = Some i -> ancestor (k * n) i = Some i.
Proof. intros H. induction k as [|k IH]; [done|]. cbn [Nat.mul]. by rewrite ancestor_add, H. Qed.

(** A set that contains the parents of its members. *)
Definition closed (X : nat -> Prop) : Prop := forall i p, X i -> parent_of i = Some p -> X p.

Lemma closed_ancestor X n i j : closed X -> X i -> ancestor n i = Some j -> X j.
Proof.
  intros HX. revert i. induction n as [|n IH]; intros i Hi H; cbn [ancestor] in H; [by injection H as <-|].
  destruct (parent_of i) as [p|] eqn:Hp; [|done]. apply (IH p); [by eapply HX|done].
Qed.

(** A member of a cycle whose ancestors reach a closed set belongs to it. *)
Lemma cycle_in_closed X n i j : closed X -> on_cycle i -> ancestor n i = Some j -> X j -> X i.
Proof.
  intros HX (m & Hm & Hc) Hn Hj. pose proof (ancestor_cycle i m (Datatypes.S n) Hc) as H.
  replace (Datatypes.S n * m)%nat with (n + (Datatypes.S n * m - n))%nat in H by nia. rewrite ancestor_add, Hn in H. cbn in H.
  by eapply closed_ancestor.
Qed.

(** A member of a cycle has all its ancestors. *)
Lemma cycle_ancestors n i : on_cycle i -> ancestor n i <> None.
Proof.
  intros (m & Hm & Hc) Hn. pose proof (ancestor_cycle i m (Datatypes.S n) Hc) as H.
  replace (Datatypes.S n * m)%nat with (n + (Datatypes.S n * m - n))%nat in H by nia. by rewrite ancestor_add, Hn in H.
Qed.
End ancestors.

(** ** The walk *)

Section walk.
Context {S : Type} {Alloc : Allocator S} {Env : ScanEnvironment S} {Cap : QueryCapacity S}.
Context (Intr : TraceStoreFailure -> Prop) {HI : Interrupts S Intr}.
Context (entries : list SpanIndexEntry).
Abbreviation n := (length entries).
Hypothesis parents_in_range : forall i p, parent_of entries i = Some p -> (p < n)%nat.

(** Between two walks: what is settled is right, and the parents of what is settled are too. *)
Record settled (states : list CycleState) : Prop := {
  st_length : length states = n;
  st_right : forall i st, states !! i = Some st -> match st with
    | Unseen => True | Visiting => False | Acyclic => ~ on_cycle entries i | Cycle => on_cycle entries i end;
  st_closed : closed entries (fun i => states !! i <> Some Unseen);
}.

(** During a walk: the trail is a chain of parents, all of them unseen before. *)
Record walking (states0 : list CycleState) (start : nat) (state : list CycleState * list nat * option nat) : Prop := {
  wk_states : forall i, state.1.1 !! i = if decide (i ∈ state.1.2) then Some Visiting else states0 !! i;
  wk_nodup : NoDup state.1.2;
  wk_fresh : forall i, i ∈ state.1.2 -> states0 !! i = Some Unseen;
  wk_chain : forall j a, state.1.2 !! j = Some a -> parent_of entries a = match state.1.2 !! Datatypes.S j with Some b => Some b | None => state.2 end;
  wk_start : (state.1.2 = [] /\ state.2 = Some start) \/ start ∈ state.1.2;
  wk_range : forall i, state.2 = Some i -> (i < n)%nat;
}.

(** From any place of the trail the ancestors lead to the current span, or out of the trace. *)
Lemma chain_leads states0 start states trail current j a : walking states0 start (states, trail, current) -> trail !! j = Some a ->
  ancestor entries (length trail - j) a = current.
Proof.
  intros [_ _ _ Hchain _ _] Ha. cbn [fst snd] in *. pose proof (lookup_lt_Some _ _ _ Ha) as Hj.
  remember (length trail - j)%nat as k eqn:Hk. revert j a Ha Hj Hk. induction k as [|k IH]; intros j a Ha Hj Hk; [lia|].
  cbn [ancestor]. rewrite (Hchain j a Ha). destruct (trail !! Datatypes.S j) as [b|] eqn:Hb.
  - cbn. apply (IH (Datatypes.S j)); [done|by eapply lookup_lt_Some|lia].
  - apply lookup_ge_None in Hb. destruct current; [|done]. cbn. by replace k with 0%nat by lia.
Qed.

Lemma chain_forward states0 start states trail current p k c a : walking states0 start (states, trail, current) ->
  trail !! p = Some c -> trail !! (p + k)%nat = Some a -> ancestor entries k c = Some a.
Proof.
  intros [_ _ _ Hchain _ _]. cbn [fst snd] in *. revert p c. induction k as [|k IH]; intros p c Hp Ha.
  - rewrite Nat.add_0_r in Ha. cbn. congruence.
  - cbn [ancestor]. destruct (lookup_lt_is_Some_2 trail (Datatypes.S p)) as [b Hb]; [pose proof (lookup_lt_Some _ _ _ Ha); lia|].
    rewrite (Hchain p c Hp), Hb. cbn. apply (IH (Datatypes.S p)); [done|]. by replace (Datatypes.S p + k)%nat with (p + Datatypes.S k)%nat by lia.
Qed.

(** The verdict of a walk at a position of its trail. *)
Definition verdict (cycle_start : option nat) (position : nat) : bool :=
  match cycle_start with Some start => (start <=? position)%nat | None => false end.

(** The result of a walk. *)
Record walked (states0 : list CycleState) (start : nat) (out : list CycleState * list nat * option nat) : Prop := {
  wd_states : forall i, out.1.1 !! i = if decide (i ∈ out.1.2) then Some Visiting else states0 !! i;
  wd_nodup : NoDup out.1.2;
  wd_start : start ∈ out.1.2;
  wd_fresh : forall i, i ∈ out.1.2 -> states0 !! i = Some Unseen;
  wd_parents : forall a p, a ∈ out.1.2 -> parent_of entries a = Some p -> p ∈ out.1.2 \/ states0 !! p <> Some Unseen;
  wd_right : forall position a, out.1.2 !! position = Some a -> verdict out.2 position = true <-> on_cycle entries a;
}.

Lemma trail_parent states0 start states trail current a p : walking states0 start (states, trail, current) -> a ∈ trail ->
  parent_of entries a = Some p -> p ∈ trail \/ current = Some p.
Proof.
  intros [_ _ _ Hchain _ _] Ha Hp. cbn [fst snd] in *. apply list_elem_of_lookup in Ha as [j Hj]. rewrite (Hchain j a Hj) in Hp.
  destruct (trail !! Datatypes.S j) as [b|] eqn:Hb; [|by right]. injection Hp as <-. left. by eapply list_elem_of_lookup_2.
Qed.

(** The walk has left the trace, or met a span that was settled before: no cycle. *)
Lemma walk_ends states0 start states trail current : settled states0 -> walking states0 start (states, trail, current) -> start ∈ trail ->
  (forall i, current = Some i -> states0 !! i <> Some Unseen) -> walked states0 start (states, trail, None).
Proof.
  intros [_ _ Hclosed] Hw Hstart Hcur. pose proof Hw as [Hst Hnd Hfresh Hchain _ _]. cbn [fst snd] in *. split; cbn [fst snd]; try done.
  - intros a p Ha Hp. destruct (trail_parent _ _ _ _ _ _ _ Hw Ha Hp) as [?|Hc]; [by left|right; by apply Hcur].
  - intros position a Ha. split; [done|]. intros Hcyc. exfalso. pose proof (chain_leads _ _ _ _ _ _ _ Hw Ha) as Hlead.
    destruct current as [c|]; [|by eapply cycle_ancestors].
    apply (cycle_in_closed entries _ _ a c Hclosed Hcyc Hlead); [by apply Hcur|]. apply Hfresh. by eapply list_elem_of_lookup_2.
Qed.

(** The walk has met its own trail: what follows that place is the cycle. *)
Lemma walk_meets states0 start states trail c p : settled states0 -> walking states0 start (states, trail, Some c) -> start ∈ trail ->
  trail !! p = Some c -> walked states0 start (states, trail, Some p).
Proof.
  intros _ Hw Hstart Hp. pose proof Hw as [Hst Hnd Hfresh Hchain _ _]. cbn [fst snd] in *. split; cbn [fst snd]; try done.
  - intros a q Ha Hq. left. destruct (trail_parent _ _ _ _ _ _ _ Hw Ha Hq) as [?|[= <-]]; [done|by eapply list_elem_of_lookup_2].
  - assert (Hclosed : closed entries (fun i => exists k, (p <= k)%nat /\ trail !! k = Some i)).
    { intros i q (k & Hk & Hi) Hq. rewrite (Hchain k i Hi) in Hq. destruct (trail !! Datatypes.S k) as [b|] eqn:Hb; injection Hq as <-.
      - exists (Datatypes.S k). split; [lia|done].
      - by exists p. }
    intros position a Ha. pose proof (chain_leads _ _ _ _ _ _ _ Hw Ha) as Hlead. pose proof (lookup_lt_Some _ _ _ Ha) as Hlt. cbn [verdict]. split.
    + intros Hle%Nat.leb_le. exists ((length trail - position) + (position - p))%nat. split; [lia|]. rewrite ancestor_add, Hlead. cbn.
      apply (chain_forward _ _ _ _ _ p _ c _ Hw Hp). by replace (p + (position - p))%nat with position by lia.
    + intros Hcyc. destruct (cycle_in_closed entries _ _ a c Hclosed Hcyc Hlead) as (k & Hk & Hka); [by exists p|].
      apply Nat.leb_le. rewrite (NoDup_lookup trail position k a); done.
Qed.

Lemma nodup_bound (l : list nat) m : NoDup l -> (forall i, i ∈ l -> (i < m)%nat) -> (length l <= m)%nat.
Proof.
  intros Hnd Hl. rewrite <- (length_seq m 0). apply submseteq_length, NoDup_submseteq; [done|]. intros i Hi%Hl. apply elem_of_seq. lia.
Qed.

Lemma walk_yields states0 start : settled states0 -> states0 !! start = Some Unseen -> yields Intr (walk entries states0 start) (walked states0 start).
Proof.
  intros Hset Hun. pose proof Hset as [Hlen Hright Hclosed].
  apply (yields_loop _ _ (walking states0 start) (fun '(_, trail, _) => (n - length trail)%nat)).
  - intros [[states trail] current] Hw. pose proof Hw as [Hst Hnd Hfresh Hchain Hstart Hrange]. cbn [fst snd] in *.
    destruct current as [i|].
    2: { apply tr_yields_ret. destruct Hstart as [[_ ?]|Hstart]; [done|]. by eapply walk_ends. }
    pose proof (Hrange i eq_refl) as Hi. env_step.
    assert (Hsti : states !! i = if decide (i ∈ trail) then Some Visiting else states0 !! i) by apply Hst.
    destruct (decide (i ∈ trail)) as [Hin|Hnin].
    + eapply yields_step; [by apply at_index_ok|]. apply tr_yields_ret. pose proof Hin as [p Hp]%list_elem_of_lookup.
      destruct (list_find (fun j => j = i) trail) as [[q x]|] eqn:Hfind.
      * apply list_find_Some in Hfind as (Hq & -> & _). cbn [fmap option_fmap option_map fst].
        apply (walk_meets states0 start states trail i q); [done|done| |done]. destruct Hstart as [[-> _]|?]; [by apply not_elem_of_nil in Hin|done].
      * rewrite list_find_None, Forall_forall in Hfind. by apply Hfind in Hin.
    + destruct (lookup_lt_is_Some_2 states0 i ltac:(lia)) as [st Hs0]. rewrite Hs0 in Hsti.
      eapply yields_step; [by apply at_index_ok|]. destruct st.
      * destruct (lookup_lt_is_Some_2 entries i Hi) as [e He]. eapply (yields_step _ _ _ (entry_parent e)); [unfold parent_index; by rewrite (at_index_ok entries i e He)|].
        apply tr_yields_ret. assert (Hpar : parent_of entries i = entry_parent e) by (unfold parent_of; by rewrite He).
        assert (Hnd' : NoDup (trail ++ [i])) by (apply NoDup_app; split; [done|split; [intros x Hx [= ->]%list_elem_of_singleton; done|apply NoDup_singleton]]).
        assert (Hin' : forall x, x ∈ trail ++ [i] -> states0 !! x = Some Unseen) by (intros x [Hx | ->%list_elem_of_singleton]%elem_of_app; [by apply Hfresh|done]).
        assert (Hb : (length (trail ++ [i]) <= n)%nat) by (apply nodup_bound; [done|]; intros x Hx%Hin'%lookup_lt_Some; lia).
        rewrite length_app in Hb |- *. cbn [length] in *. split; [|lia]. split; cbn [fst snd]; try done.
        -- intros k. destruct (decide (k = i)) as [->|Hne].
           ++ rewrite list_lookup_insert_eq by (by eapply lookup_lt_Some). rewrite decide_True; [done|]. apply elem_of_app. right. by apply list_elem_of_singleton.
           ++ rewrite list_lookup_insert_ne by done. rewrite Hst. apply decide_ext. rewrite elem_of_app, list_elem_of_singleton. naive_solver.
        -- intros j a Ha. apply lookup_app_Some in Ha as [Ha|[Hj Ha]].
           ++ rewrite (Hchain j a Ha). destruct (trail !! Datatypes.S j) as [b|] eqn:Hb'; [by rewrite (lookup_app_l_Some _ _ _ _ Hb')|].
              apply lookup_ge_None in Hb'. pose proof (lookup_lt_Some _ _ _ Ha). rewrite lookup_app_r by lia. by replace (Datatypes.S j - length trail)%nat with 0%nat by lia.
           ++ apply list_lookup_singleton_Some in Ha as [Hj0 <-]. rewrite lookup_ge_None_2; [done|]. rewrite length_app. cbn. lia.
        -- right. destruct Hstart as [[-> [= ->]]|?]; [apply list_elem_of_here|apply elem_of_app; by left].
        -- intros p Hp. apply (parents_in_range i). by rewrite Hpar.
      * by apply Hright in Hs0.
      * apply tr_yields_ret. apply (walk_ends states0 start states trail (Some i)); [done|done| |intros j [= <-]; by rewrite Hs0].
        destruct Hstart as [[_ [= ->]]|?]; [congruence|done].
      * apply tr_yields_ret. apply (walk_ends states0 start states trail (Some i)); [done|done| |intros j [= <-]; by rewrite Hs0].
        destruct Hstart as [[_ [= ->]]|?]; [congruence|done].
  - split; cbn [fst snd]; [done|constructor|intros i Hi; by apply not_elem_of_nil in Hi|done|by left|].
    intros i [= <-]. rewrite <- Hlen. by eapply lookup_lt_Some.
  - cbn. lia.
Qed.

(** ** The verdicts are written down *)

(** Lists with the same places are as long. *)
Lemma same_places {A B} (l : list A) (k : list B) : (forall i, is_Some (l !! i) <-> is_Some (k !! i)) -> length l = length k.
Proof.
  intros H. destruct (lt_eq_lt_dec (length l) (length k)) as [[Hlt|?]|Hlt]; [|done|].
  - apply lookup_lt_is_Some, H, lookup_lt_is_Some in Hlt. lia.
  - apply lookup_lt_is_Some, H, lookup_lt_is_Some in Hlt. lia.
Qed.

Lemma settle_yields states0 start states trail cycle_start : settled states0 -> walked states0 start (states, trail, cycle_start) ->
  yields Intr (settle states trail cycle_start) (fun states' => settled states' /\ states' !! start <> Some Unseen /\
    forall i, states0 !! i <> Some Unseen -> states' !! i <> Some Unseen).
Proof.
  intros [Hlen Hright Hclosed] [Hst Hnd Hstart Hfresh Hpar Hver]. cbn [fst snd] in *.
  set (mark := fun position => if verdict cycle_start position then Cycle else Acyclic).
  assert (Hbound : forall i, i ∈ trail -> (i < n)%nat) by (intros i Hi%Hfresh%lookup_lt_Some; lia).
  eapply yields_mono; [apply (yields_for _ _ _ (fun pre states' => length states' = n /\ (forall i, i ∉ trail -> states' !! i = states !! i) /\
    forall position i, (position < length pre)%nat -> trail !! position = Some i -> states' !! i = Some (mark position)))|].
  - split; [|split; [done|cbn; intros; lia]]. rewrite <- Hlen. apply same_places. intros i.
    rewrite Hst. destruct (decide (i ∈ trail)) as [Hi|]; [|done]. by rewrite (Hfresh i Hi).
  - intros pre [position i] post states' [-> Hi]%imap_pair_split (Hl & Hout & Hs). env_step.
    pose proof (list_elem_of_lookup_2 _ _ _ Hi) as Hin. destruct (lookup_lt_is_Some_2 states' i) as [x Hx]; [rewrite Hl; by apply Hbound|].
    eapply yields_step; [by apply at_index_ok|]. apply tr_yields_ret. split; [by rewrite length_insert|]. split.
    + intros k Hk. rewrite list_lookup_insert_ne; [by apply Hout|]. by intros ->.
    + intros q k Hq Hk. rewrite length_app in Hq. cbn in Hq. destruct (decide (q = length pre)) as [->|Hne].
      * replace k with i by congruence. by rewrite list_lookup_insert_eq by (by eapply lookup_lt_Some).
      * rewrite list_lookup_insert_ne; [apply Hs; [lia|done]|]. intros ->. apply Hne. by eapply NoDup_lookup.
  - intros states' (Hl & Hout & Hs). rewrite length_imap in Hs.
    assert (Hmark : forall i, i ∈ trail -> exists position, trail !! position = Some i /\ states' !! i = Some (mark position)).
    { intros i [q Hq]%list_elem_of_lookup. exists q. split; [done|]. apply Hs; [by eapply lookup_lt_Some|done]. }
    assert (Hother : forall i, i ∉ trail -> states' !! i = states0 !! i) by (intros i Hi; by rewrite (Hout i Hi), Hst, decide_False by done).
    assert (Hdone : forall i, i ∈ trail -> states' !! i <> Some Unseen).
    { intros i (q & _ & ->)%Hmark. unfold mark. by destruct (verdict _ _). }
    split; [split; [done|..]|split; [by apply Hdone|]].
    + intros i st Hi. destruct (decide (i ∈ trail)) as [Hin|Hnin].
      * destruct (Hmark i Hin) as (q & Hq & Hm). rewrite Hm in Hi. injection Hi as <-. unfold mark. pose proof (Hver q i Hq) as Hv.
        destruct (verdict cycle_start q); [by apply Hv|]. intros Hc%Hv. done.
      * rewrite Hother in Hi by done. by apply Hright.
    + intros i p Hi Hp. destruct (decide (i ∈ trail)) as [Hin|Hnin].
      * destruct (decide (p ∈ trail)) as [Hpin|Hpnin]; [by apply Hdone|]. rewrite Hother by done. by destruct (Hpar i p Hin Hp).
      * destruct (decide (p ∈ trail)) as [Hpin|Hpnin]; [by apply Hdone|]. rewrite Hother in Hi |- * by done. by apply (Hclosed i).
    + intros i Hi. destruct (decide (i ∈ trail)) as [Hin|Hnin]; [by apply Hdone|by rewrite Hother].
Qed.

(** What the classification says. *)
Definition classified (states : list CycleState) : Prop := length states = n /\
  forall i st, states !! i = Some st -> (st = Cycle /\ on_cycle entries i) \/ (st = Acyclic /\ ~ on_cycle entries i).

Lemma classify_yields : yields Intr (classify_cycles entries) classified.
Proof.
  env_step. env_step.
  eapply yields_mono; [apply (yields_for _ _ _ (fun pre states => settled states /\ forall i, i ∈ pre -> states !! i <> Some Unseen))|].
  - split; [|intros i Hi; by apply not_elem_of_nil in Hi]. split; [apply length_replicate| |].
    + intros i st Hi%lookup_replicate_1. by destruct Hi as [-> _].
    + intros i p Hi Hp. exfalso. apply Hi. unfold parent_of in Hp. destruct (entries !! i) as [e|] eqn:He; [|done].
      apply lookup_replicate_2. by eapply lookup_lt_Some.
  - intros pre start post states Hl [Hset Hpre]. env_step.
    assert (Hstart : states !! start = Some Unseen \/ states !! start <> Some Unseen) by (destruct (decide (states !! start = Some Unseen)); auto).
    destruct Hstart as [Hun|Hdone].
    + rewrite bool_decide_true by done. cbn [negb]. eapply tr_yields_bind; [by apply walk_yields|]. intros [[states1 trail] cs] Hw.
      eapply yields_mono; [by eapply settle_yields|]. intros states' (Hset' & Hs & Hold). split; [done|].
      intros i [Hi | ->%list_elem_of_singleton]%elem_of_app; [by apply Hold, Hpre|done].
    + rewrite bool_decide_false by done. cbn [negb]. apply tr_yields_ret. split; [done|].
      intros i [Hi | ->%list_elem_of_singleton]%elem_of_app; [by apply Hpre|done].
  - intros states [[Hlen Hright _] Hall]. split; [done|]. intros i st Hi. pose proof (Hright i st Hi) as Hr.
    assert (Hne : states !! i <> Some Unseen) by (apply Hall, elem_of_seq; apply lookup_lt_Some in Hi; lia). rewrite Hi in Hne.
    destruct st; [done|done|by right|by left].
Qed.
End walk.
