(* ===== verification/TracePath.v ===== *)
(** Trace store: the adjacency of children is right.

    The range of a span in the adjacency holds exactly the spans that the index gives it as a
    parent, each once, the one that ends last first.

    Trace store: the critical path.

    The loop over a stack of frames computes what a recursive reading of the critical path says:
    from the end of a span back to its start, the span is blamed except where the child that ended
    last, and did not overlap what was blamed before, was running. The fragments tile the interval
    of the root, so their durations add up to its duration. *)

From S2P Require Import Prelude Limits Routing SourceTime Values Observe Traversal LogCodec TraceModel TraceHeap TraceStructure TraceCycles.

(** ** The order of children *)

(** The order that [child_precedes] computes: later end first, then smaller identity. *)
Definition precedes (spans : list LogicalSpan) (a b : nat) : bool :=
  match interval_of spans a, interval_of spans b, spans !! a, spans !! b with
  | Ok (_, end_a), Ok (_, end_b), Some s, Some t =>
      (end_b <? end_a) || ((end_a =? end_b) && bool_decide (lex_compare (ls_span_id s) (ls_span_id t) = Lt))
  | _, _, _, _ => false
  end.

(** A span with a usable interval. *)
Definition timed (spans : list LogicalSpan) (i : nat) : Prop := exists t, interval_of spans i = Ok t.

Lemma timed_span spans i : timed spans i -> exists s a b, spans !! i = Some s /\ interval_of spans i = Ok (a, b).
Proof.
  intros [[a b] H]. pose proof H as H'. unfold interval_of, at_index in H'. destruct (spans !! i) as [s|]; [|done]. by exists s, a, b.
Qed.

Lemma precedes_asym spans a b : timed spans a -> timed spans b -> precedes spans a b = true -> precedes spans b a = false.
Proof.
  intros (s & a1 & a2 & Hs & Ha)%timed_span (t & b1 & b2 & Ht & Hb)%timed_span. unfold precedes. rewrite Ha, Hb, Hs, Ht.
  intros [H%Z.ltb_lt|[->%Z.eqb_eq H%bool_decide_eq_true]%andb_true_iff]%orb_true_iff; apply orb_false_iff.
  - rewrite Z.ltb_ge, andb_false_iff, Z.eqb_neq. split; [lia|left; lia].
  - split; [apply Z.ltb_irrefl|]. apply andb_false_iff. right. apply bool_decide_eq_false. by rewrite lex_compare_antisym, H.
Qed.

Lemma lex_not_lt_trans x y z : lex_compare y x <> Lt -> lex_compare z y <> Lt -> lex_compare z x <> Lt.
Proof.
  intros H1 H2 H3. destruct (lex_compare y x) eqn:E1; [|done|].
  - apply lex_compare_eq in E1. congruence.
  - rewrite lex_compare_antisym in E1. apply CompOpp_iff in E1. cbn in E1. apply H2. by eapply lex_compare_trans_lt.
Qed.

Lemma precedes_trans spans a b c : timed spans a -> timed spans b -> timed spans c ->
  precedes spans b a = false -> precedes spans c b = false -> precedes spans c a = false.
Proof.
  intros (s & a1 & a2 & Hs & Ha)%timed_span (t & b1 & b2 & Ht & Hb)%timed_span (u & c1 & c2 & Hu & Hc)%timed_span.
  unfold precedes. rewrite Ha, Hb, Hc, Hs, Ht, Hu. rewrite !orb_false_iff, !andb_false_iff, !Z.ltb_ge, !Z.eqb_neq, !bool_decide_eq_false.
  intros [H1 H2] [H3 H4]. split; [lia|]. destruct (decide (c2 = a2)) as [->|]; [right|by left].
  destruct H2 as [?|H2]; [lia|]. destruct H4 as [?|H4]; [lia|]. by eapply lex_not_lt_trans.
Qed.

(** No child precedes an earlier one. *)
Definition latest_first (spans : list LogicalSpan) (l : list nat) : Prop :=
  forall i j a b, (i < j)%nat -> l !! i = Some a -> l !! j = Some b -> precedes spans b a = false.

Section order.
Context {S : Type} {Alloc : Allocator S} {Env : ScanEnvironment S} {Cap : QueryCapacity S}.
Context (Intr : TraceStoreFailure -> Prop) {HI : Interrupts S Intr}.
Context (spans : list LogicalSpan).

Lemma child_precedes_yields a b : timed spans a -> timed spans b -> yields Intr (child_precedes spans a b) (fun r => r = precedes spans a b).
Proof.
  intros (s & a1 & a2 & Hs & Ha)%timed_span (t & b1 & b2 & Ht & Hb)%timed_span. env_step.
  eapply yields_step; [by apply at_index_ok|]. eapply yields_step; [by apply at_index_ok|].
  eapply yields_step; [done|]. eapply yields_step; [done|]. apply tr_yields_ret. unfold precedes. by rewrite Ha, Hb, Hs, Ht.
Qed.

Lemma reverse_yields l : yields Intr (reverse_in_place l) (fun l' => l' = rev l).
Proof.
  set (n := length l). pose proof (Nat.div_mod_eq n 2). pose proof (Nat.mod_upper_bound n 2).
  eapply yields_mono; [apply (yields_for _ _ _ (fun pre l' => length l' = n /\ forall i, (i < n)%nat ->
    l' !! i = if decide (i < length pre \/ n <= i + length pre)%nat then l !! (n - 1 - i)%nat else l !! i))|].
  - split; [done|]. intros i Hi. cbn [length]. by rewrite decide_False by lia.
  - intros pre i post l' Hsplit [Hlen Hl']. fold n in Hsplit. assert (i = length pre /\ (i < n / 2)%nat) as [-> Hi].
    { assert (Hs : seq 0 (n / 2) !! length pre = Some i) by (rewrite Hsplit; by apply list_lookup_middle). apply lookup_seq in Hs. lia. }
    env_step. rewrite Hlen. eapply (yields_step _ _ _ (n - 1 - length pre)%nat); [by rewrite (proj2 (Nat.leb_le _ _)) by lia|].
    apply tr_yields_ret. rewrite swap_length, length_app. split; [done|]. intros j Hj. cbn [length].
    rewrite swap_lookup by lia. destruct (decide (j = length pre)) as [->|Hne].
    + rewrite Hl' by lia. rewrite decide_False, decide_True by lia. done.
    + destruct (decide (j = n - 1 - length pre)%nat) as [->|Hne'].
      * rewrite Hl' by lia. rewrite decide_False, decide_True by lia. f_equal. lia.
      * rewrite Hl' by lia. apply decide_ext. lia.
  - intros l' [Hlen Hl']. rewrite length_seq in Hl'. fold n in Hl'. apply list_eq. intros i. destruct (decide (i < n)%nat) as [Hi|Hi].
    + rewrite Hl' by done. replace (rev l !! i) with (l !! (n - 1 - i)%nat).
      * destruct (decide _) as [|Hn]; [done|]. f_equal. lia.
      * rewrite List.rev_alt; fold (reverse l). rewrite reverse_lookup by done. f_equal. unfold n. lia.
    + rewrite !lookup_ge_None_2; [done|rewrite length_rev; fold n; lia|lia].
Qed.

Lemma order_children_yields l : 2 * zlen l + 2 <= usize_max -> Forall (timed spans) l ->
  yields Intr (order_children spans l) (fun l' => l' ≡ₚ l /\ latest_first spans l').
Proof.
  intros Hmax Ht. unfold order_children. destruct (Nat.ltb_spec (length l) 2) as [Hlt|Hge].
  - apply tr_yields_ret. split; [done|]. intros i j a b Hij Ha%lookup_lt_Some Hb%lookup_lt_Some. lia.
  - eapply tr_yields_bind.
    + apply (heap_sort_yields Intr (mret tt) observe (child_precedes spans) (timed spans) (precedes spans)).
      * by apply tr_yields_ret.
      * apply observe_interrupts, HI.
      * intros a b. apply child_precedes_yields.
      * apply precedes_asym.
      * apply precedes_trans.
      * done.
      * done.
    + intros l1 [Hp Hs]. eapply yields_mono; [apply reverse_yields|]. intros l' ->. rewrite List.rev_alt; fold (reverse l1). split; [by rewrite reverse_Permutation|].
      intros i j a b Hij Ha Hb. pose proof (lookup_lt_Some _ _ _ Hb) as Hj. rewrite length_reverse in Hj.
      rewrite reverse_lookup in Ha, Hb by lia. unfold ge in Hs. apply (Hs (length l1 - Datatypes.S j)%nat (length l1 - Datatypes.S i)%nat); [lia|lia|done|done].
Qed.
End order.

(** ** The layout *)

Section layout.
Context (entries : list SpanIndexEntry).
Abbreviation n := (length entries).
Hypothesis parents_in_range : forall i p, parent_of entries i = Some p -> (p < n)%nat.

(** The members of a list of spans with a parent. *)
Definition having (p : nat) (l : list nat) : list nat := filter (fun i => parent_of entries i = Some p) l.
Definition kids (p : nat) : list nat := having p (seq 0 n).

(** The children of the first [p] spans: their number is where the range of the next one begins. *)
Fixpoint kids_upto (p : nat) : list nat := match p with O => [] | Datatypes.S p => kids_upto p ++ kids p end.
Definition off (p : nat) : nat := length (kids_upto p).

Lemma elem_having i p l : i ∈ having p l <-> i ∈ l /\ parent_of entries i = Some p.
Proof. unfold having. rewrite list_elem_of_filter. tauto. Qed.

Lemma elem_kids i p : i ∈ kids p <-> parent_of entries i = Some p.
Proof.
  unfold kids. rewrite elem_having, elem_of_seq. split; [tauto|]. intros H. split; [|done].
  unfold parent_of in H. destruct (entries !! i) as [e|] eqn:He; [|done]. apply lookup_lt_Some in He. lia.
Qed.

Lemma kids_nodup p : NoDup (kids p).
Proof. apply NoDup_filter, NoDup_seq. Qed.

Lemma elem_kids_upto i p : i ∈ kids_upto p -> exists q, (q < p)%nat /\ parent_of entries i = Some q.
Proof.
  induction p as [|p IH]; cbn [kids_upto]; [intros []%not_elem_of_nil|]. intros [(q & Hq & H)%IH|H%elem_kids]%elem_of_app; [exists q|exists p]; (split; [lia|done]).
Qed.

Lemma kids_upto_nodup p : NoDup (kids_upto p).
Proof.
  induction p as [|p IH]; [constructor|]. cbn [kids_upto]. apply NoDup_app. split; [done|]. split; [|apply kids_nodup].
  intros i (q & Hq & H)%elem_kids_upto H'%elem_kids. rewrite H in H'. injection H' as ->. lia.
Qed.

Lemma off_bound p : (off p <= n)%nat.
Proof.
  apply nodup_bound; [apply kids_upto_nodup|]. intros i (q & _ & H)%elem_kids_upto. unfold parent_of in H.
  destruct (entries !! i) as [e|] eqn:He; [|done]. by eapply lookup_lt_Some.
Qed.

Lemma off_S p : off (Datatypes.S p) = (off p + length (kids p))%nat.
Proof. unfold off. cbn [kids_upto]. apply length_app. Qed.

Lemma off_mono p q : (p <= q)%nat -> (off p <= off q)%nat.
Proof. induction 1 as [|q _ IH]; [done|]. rewrite off_S. lia. Qed.

(** Places of different ranges are different. *)
Lemma off_disjoint p q i j : p <> q -> (i < length (kids p))%nat -> (j < length (kids q))%nat -> (off p + i)%nat <> (off q + j)%nat.
Proof.
  intros Hne Hi Hj. pose proof (off_S p). pose proof (off_S q). destruct (lt_eq_lt_dec p q) as [[H'|?]|H']; [|done|].
  - pose proof (off_mono (Datatypes.S p) q H'). lia.
  - pose proof (off_mono (Datatypes.S q) p H'). lia.
Qed.

Lemma having_snoc p l i : having p (l ++ [i]) = having p l ++ (if decide (parent_of entries i = Some p) then [i] else []).
Proof. unfold having. by rewrite filter_app. Qed.

(** A prefix of the spans has a prefix of the children. *)
Lemma having_prefix p pre post : seq 0 n = pre ++ post -> kids p = having p pre ++ having p post.
Proof. intros H. unfold kids, having. rewrite H. apply filter_app. Qed.

Lemma seq_split m pre i post : seq 0 m = pre ++ i :: post -> i = length pre /\ (i < m)%nat.
Proof. intros H. assert (Hi : seq 0 m !! length pre = Some i) by (rewrite H; by apply list_lookup_middle). apply lookup_seq in Hi. lia. Qed.

(** The elements of [l] are in the range of [p]. *)
Definition placed (cs : list nat) (p : nat) (l : list nat) : Prop := forall k i, l !! k = Some i -> cs !! (off p + k)%nat = Some i.

Section build.
Context {S : Type} {Alloc : Allocator S} {Env : ScanEnvironment S} {Cap : QueryCapacity S}.
Context (Intr : TraceStoreFailure -> Prop) {HI : Interrupts S Intr}.
Hypothesis bound : 2 * zlen entries + 2 <= usize_max.

(** A list filled with one element. *)
Lemma filled_yields {A} (x : A) m : yields Intr (tr_for (seq 0 m) (fun l _ => _ ← observe; mret (l ++ [x])) []) (fun l => l = replicate m x).
Proof.
  eapply yields_mono; [apply (yields_for _ _ _ (fun pre l => l = replicate (length pre) x))|].
  - done.
  - intros pre i post l _ ->. env_step. apply tr_yields_ret. rewrite length_app. cbn [length]. by rewrite replicate_add.
  - intros l ->. by rewrite length_seq.
Qed.

Lemma parent_index_ok i : (i < n)%nat -> parent_index entries i = Ok (parent_of entries i).
Proof. intros [e He]%lookup_lt_is_Some_2. unfold parent_index, parent_of. by rewrite (at_index_ok _ _ _ He), He. Qed.

Lemma having_length p pre i post : seq 0 n = pre ++ i :: post -> parent_of entries i = Some p -> (length (having p pre) < length (kids p))%nat.
Proof.
  intros H Hp. rewrite (having_prefix p (pre ++ [i]) post) by (by rewrite <- app_assoc). rewrite having_snoc, decide_True by done.
  rewrite !length_app. cbn. lia.
Qed.

Lemma kids_bound p : (length (kids p) <= n)%nat.
Proof. pose proof (off_S p). pose proof (off_bound (Datatypes.S p)). lia. Qed.

Lemma count_children_yields : yields Intr (count_children entries n) (fun rs => rs = (fun p => mkRange 0 (length (kids p)) 0) <$> seq 0 n).
Proof.
  eapply tr_yields_bind; [apply filled_yields|]. intros rs0 ->.
  eapply yields_mono; [apply (yields_for _ _ _ (fun pre rs => rs = (fun p => mkRange 0 (length (having p pre)) 0) <$> seq 0 n))|].
  - apply replicate_as_elem_of. rewrite length_fmap, length_seq. split; [done|]. by intros x (p & -> & _)%list_elem_of_fmap.
  - intros pre i post rs Hs ->. destruct (seq_split _ _ _ _ Hs) as [-> Hi]. env_step.
    eapply yields_step; [by apply parent_index_ok|]. destruct (parent_of entries (length pre)) as [p|] eqn:Hp.
    + pose proof (parents_in_range _ _ Hp) as Hlt.
      assert (Hr : ((fun p => mkRange 0 (length (having p pre)) 0) <$> seq 0 n) !! p = Some (mkRange 0 (length (having p pre)) 0)).
      { rewrite list_lookup_fmap, lookup_seq_lt by done. done. }
      eapply yields_step; [by apply at_index_ok|]. pose proof (having_length p _ _ _ Hs Hp). pose proof (kids_bound p). unfold zlen in bound.
      eapply yields_step; [apply index_add_ok; cbn [range_end]; lia|]. apply tr_yields_ret. cbn [range_start range_next range_end].
      apply list_eq. intros q. destruct (decide (q = p)) as [->|Hne].
      * rewrite list_lookup_insert_eq by (rewrite length_fmap, length_seq; done). rewrite list_lookup_fmap, lookup_seq_lt by done. cbn.
        by rewrite having_snoc, decide_True, length_app by done.
      * rewrite list_lookup_insert_ne by done. rewrite !list_lookup_fmap. destruct (seq 0 n !! q) as [q'|] eqn:Hq; [|done]. apply lookup_seq in Hq as [-> _].
        cbn. rewrite having_snoc, decide_False by congruence. by rewrite app_nil_r.
    + apply tr_yields_ret. apply list_fmap_ext. intros _ q _. by rewrite having_snoc, decide_False, app_nil_r by congruence.
  - done.
Qed.

(** The range of a span, with the place of the next child. *)
Definition range_of (next : nat -> nat) (p : nat) : ChildRange := mkRange (off p) (off (Datatypes.S p)) (off p + next p).

Lemma fmap_split {A B} (f : A -> B) l pre y post : f <$> l = pre ++ y :: post -> exists x, y = f x /\ l !! length pre = Some x.
Proof.
  intros H. assert (Hy : (f <$> l) !! length pre = Some y) by (rewrite H; by apply list_lookup_middle).
  rewrite list_lookup_fmap in Hy. destruct (l !! length pre) as [x|]; [|done]. injection Hy as <-. by exists x.
Qed.

Lemma lay_out_yields : yields Intr (lay_out ((fun p => mkRange 0 (length (kids p)) 0) <$> seq 0 n))
  (fun '(total, rs) => total = off n /\ rs = range_of (fun _ => O) <$> seq 0 n).
Proof.
  eapply yields_mono; [apply (yields_for _ _ _ (fun pre '(total, rs) => total = off (length pre) /\ rs = range_of (fun _ => O) <$> seq 0 (length pre)))|].
  - done.
  - intros pre r post [total rs] (p & -> & [-> Hp]%lookup_seq)%fmap_split [-> ->]. env_step. cbn [range_end]. rewrite Nat.add_0_l.
    pose proof (off_bound (Datatypes.S (length pre))) as Hb. rewrite off_S in Hb. unfold zlen in bound.
    eapply yields_step; [apply index_add_ok; lia|]. apply tr_yields_ret. rewrite length_app. cbn [length]. rewrite Nat.add_1_r, off_S. split; [done|].
    rewrite seq_S, fmap_app. f_equal. cbn [fmap list_fmap]. unfold range_of. by rewrite off_S, Nat.add_0_r.
  - intros [total rs]. by rewrite length_fmap, length_seq.
Qed.

Lemma range_lookup next p : (p < n)%nat -> (range_of next <$> seq 0 n) !! p = Some (range_of next p).
Proof. intros H. by rewrite list_lookup_fmap, lookup_seq_lt by done. Qed.

(** Another child of [p] is placed. *)
Lemma ranges_insert next next' p : (p < n)%nat -> next' p = Datatypes.S (next p) -> (forall q, q <> p -> next' q = next q) ->
  <[p := mkRange (off p) (off (Datatypes.S p)) (off p + next p + 1)]> (range_of next <$> seq 0 n) = range_of next' <$> seq 0 n.
Proof.
  intros Hp Hn Ho. apply list_eq. intros q. destruct (decide (q = p)) as [->|Hne].
  - rewrite list_lookup_insert_eq by (by rewrite length_fmap, length_seq). rewrite range_lookup by done. unfold range_of. rewrite Hn. by replace (off p + next p + 1)%nat with (off p + Datatypes.S (next p))%nat by lia.
  - rewrite list_lookup_insert_ne by done. rewrite !list_lookup_fmap. destruct (seq 0 n !! q) as [q'|] eqn:Hq; [|done]. apply lookup_seq in Hq as [-> _].
    cbn. unfold range_of. by rewrite Ho.
Qed.

Lemma place_children_yields : yields Intr (place_children entries n (off n) (range_of (fun _ => O) <$> seq 0 n))
  (fun '(cs, rs) => length cs = off n /\ (forall p, (p < n)%nat -> placed cs p (kids p)) /\ rs = range_of (fun p => length (kids p)) <$> seq 0 n).
Proof.
  env_step. eapply tr_yields_bind; [apply filled_yields|]. intros cs0 ->.
  eapply yields_mono; [apply (yields_for _ _ _ (fun pre '(cs, rs) => length cs = off n /\ (forall p, (p < n)%nat -> placed cs p (having p pre)) /\
    rs = range_of (fun p => length (having p pre)) <$> seq 0 n))|].
  - split; [apply length_replicate|]. split; [|done]. intros p _ k i Hk. done.
  - intros pre i post [cs rs] Hs (Hlen & Hpl & ->). destruct (seq_split _ _ _ _ Hs) as [-> Hi]. env_step.
    eapply yields_step; [by apply parent_index_ok|]. destruct (parent_of entries (length pre)) as [p|] eqn:Hp.
    + pose proof (parents_in_range _ _ Hp) as Hlt. pose proof (having_length p _ _ _ Hs Hp) as Hk.
      pose proof (off_mono (Datatypes.S p) n Hlt) as Hm. rewrite off_S in Hm. pose proof (off_bound n) as Hb. unfold zlen in bound.
      eapply yields_step; [apply at_index_ok; by apply range_lookup|]. cbn [range_next range_start range_end range_of].
      destruct (lookup_lt_is_Some_2 cs (off p + length (having p pre))) as [x Hx]; [lia|]. eapply yields_step; [by apply at_index_ok|].
      eapply yields_step; [apply index_add_ok; lia|]. apply tr_yields_ret. rewrite length_insert. split; [done|]. split.
      * intros q Hq k j. rewrite having_snoc. destruct (decide (parent_of entries (length pre) = Some q)) as [Hpq|Hpq].
        -- replace q with p by congruence. intros [Hkj|[Hge Hkj]]%lookup_app_Some.
           ++ rewrite list_lookup_insert_ne; [by apply Hpl|]. apply lookup_lt_Some in Hkj. lia.
           ++ apply list_lookup_singleton_Some in Hkj as [Hk0 <-]. replace k with (length (having p pre)) by lia. apply list_lookup_insert_eq. lia.
        -- rewrite app_nil_r. intros Hkj. rewrite list_lookup_insert_ne; [by apply Hpl|].
           apply off_disjoint; [congruence|done|]. apply lookup_lt_Some in Hkj. rewrite (having_prefix q _ _ Hs), length_app. lia.
      * apply (ranges_insert (fun p => length (having p pre)) (fun p => length (having p (pre ++ [length pre])))); [done| |].
        -- rewrite having_snoc, decide_True by done. rewrite length_app. cbn. lia.
        -- intros q Hq. by rewrite having_snoc, decide_False, app_nil_r by congruence.
    + apply tr_yields_ret. assert (Hsame : forall q, having q (pre ++ [length pre]) = having q pre) by (intros q; by rewrite having_snoc, decide_False, app_nil_r by congruence).
      split; [done|]. split; [intros q Hq; rewrite Hsame; by apply Hpl|]. apply list_fmap_ext. intros _ q _. unfold range_of. by rewrite Hsame.
  - intros [cs rs] (Hlen & Hpl & ->). done.
Qed.

(** What [p] occupies. *)
Lemma placed_slice cs p l : length l = length (kids p) -> placed cs p l -> take (off (Datatypes.S p) - off p) (drop (off p) cs) = l.
Proof.
  intros Hlen Hpl. rewrite off_S. replace (off p + length (kids p) - off p)%nat with (length l) by lia. apply list_eq. intros k.
  destruct (decide (k < length l)%nat) as [Hk|Hk].
  - destruct (lookup_lt_is_Some_2 l k Hk) as [i Hi]. by rewrite lookup_take_lt, lookup_drop, (Hpl k i Hi) by done.
  - rewrite lookup_take_ge, lookup_ge_None_2 by lia. done.
Qed.

(** Replacing what [p] occupies. *)
Lemma replace_placed cs p l : length l = length (kids p) -> (off (Datatypes.S p) <= length cs)%nat ->
  let cs' := take (off p) cs ++ l ++ drop (off (Datatypes.S p)) cs in
  length cs' = length cs /\ placed cs' p l /\ forall q l', q <> p -> length l' = length (kids q) -> placed cs q l' -> placed cs' q l'.
Proof.
  intros Hlen Hcs cs'. pose proof (off_S p) as HS. assert (Hl : length cs' = length cs) by (unfold cs'; rewrite !length_app, length_take, length_drop; lia).
  split; [done|]. split.
  - intros k i Hk. unfold cs'. rewrite lookup_app_r by (rewrite length_take; lia). rewrite length_take.
    replace (off p + k - off p `min` length cs)%nat with k by lia. by apply lookup_app_l_Some.
  - intros q l' Hne Hl' Hpl k i Hk. pose proof (Hpl k i Hk) as Hc. pose proof (lookup_lt_Some _ _ _ Hk) as Hlt. pose proof (off_S q) as HSq. unfold cs'.
    destruct (lt_eq_lt_dec q p) as [[Hqp|?]|Hqp]; [|done|].
    + pose proof (off_mono (Datatypes.S q) p Hqp). rewrite lookup_app_l by (rewrite length_take; lia). by rewrite lookup_take_lt by lia.
    + pose proof (off_mono (Datatypes.S p) q Hqp). rewrite lookup_app_r by (rewrite length_take; lia). rewrite length_take.
      rewrite lookup_app_r by lia. rewrite lookup_drop, <- Hc. f_equal. lia.
Qed.

Context (spans : list LogicalSpan).
Hypothesis all_timed : forall i, (i < n)%nat -> timed spans i.

Lemma order_ranges_yields cs0 : length cs0 = off n -> (forall p, (p < n)%nat -> placed cs0 p (kids p)) ->
  yields Intr (order_ranges spans cs0 (range_of (fun p => length (kids p)) <$> seq 0 n)) (fun '(cs, rs) =>
    length cs = off n /\ (forall p, (p < n)%nat -> exists l, l ≡ₚ kids p /\ latest_first spans l /\ placed cs p l) /\ rs = range_of (fun _ => O) <$> seq 0 n).
Proof.
  intros Hlen0 Hpl0.
  eapply yields_mono; [apply (yields_for _ _ _ (fun pre '(cs, rs) => length cs = off n /\
    (forall p, (p < n)%nat -> exists l, l ≡ₚ kids p /\ ((p < length pre)%nat -> latest_first spans l) /\ placed cs p l) /\
    rs = range_of (fun _ => O) <$> seq 0 (length pre)))|].
  - split; [done|]. split; [|done]. intros p Hp. exists (kids p). split; [done|]. split; [cbn; lia|by apply Hpl0].
  - intros pre r post [cs rs] (p & -> & [-> Hp]%lookup_seq)%fmap_split (Hlen & Hl & ->). rewrite Nat.add_0_l. env_step. set (p := length pre) in *.
    destruct (Hl p Hp) as (l & Hperm & _ & Hpl). pose proof (Permutation_length Hperm) as Hll. cbn [range_next range_end range_start range_of].
    pose proof (off_mono (Datatypes.S p) n Hp) as Hm. pose proof (off_S p) as HS. rewrite (proj2 (Nat.eqb_eq (off p + length (kids p)) (off (Datatypes.S p)))) by lia. cbn [negb].
    rewrite (proj2 (Nat.leb_le (off p) _)), (proj2 (Nat.leb_le _ (length cs))) by lia. cbn [negb andb].
    rewrite (placed_slice cs p l Hll Hpl). pose proof (kids_bound p) as Hkb. unfold zlen in bound.
    assert (Htimed : Forall (timed spans) l).
    { apply Forall_forall. intros i Hi. rewrite Hperm, elem_kids in Hi. apply all_timed. unfold parent_of in Hi. destruct (entries !! i) as [e|] eqn:He; [|done]. by eapply lookup_lt_Some. }
    eapply tr_yields_bind; [apply order_children_yields; [done|unfold zlen; lia|done]|]. intros l' [Hperm' Hsorted]. apply tr_yields_ret.
    assert (Hll' : length l' = length (kids p)) by (rewrite <- Hll; by apply Permutation_length).
    destruct (replace_placed cs p l' Hll' ltac:(lia)) as (Hlen' & Hpl' & Hother). split; [by rewrite Hlen'|].
    rewrite length_app. cbn [length]. split.
    + intros q Hq. destruct (decide (q = p)) as [->|Hne]; [exists l'; split; [by etrans|by split]|].
      destruct (Hl q Hq) as (lq & Hpq & Hsq & Hplq). exists lq. split; [done|]. split; [intros Hlt; apply Hsq; lia|].
      apply Hother; [done|by apply Permutation_length|done].
    + rewrite Nat.add_1_r, seq_S, fmap_app. f_equal. cbn [fmap list_fmap]. unfold range_of. by rewrite Nat.add_0_r.
  - intros [cs rs] (Hlen & Hl & ->). rewrite length_fmap, length_seq. rewrite length_fmap, length_seq in Hl. split; [done|]. split; [|done]. intros p Hp.
    destruct (Hl p Hp) as (l & Hperm & Hs & Hpl). exists l. auto.
Qed.

(** What the adjacency says. *)
Record adjacency_right (adj : ChildAdjacency) : Prop := {
  ar_ranges : ranges adj = range_of (fun _ => O) <$> seq 0 n;
  ar_length : length (children adj) = off n;
  ar_children : forall p, (p < n)%nat -> exists l, l ≡ₚ kids p /\ latest_first spans l /\ placed (children adj) p l;
}.

Lemma ChildAdjacency_build_yields : length spans = n -> yields Intr (ChildAdjacency_build spans entries) adjacency_right.
Proof.
  intros Hn. unfold ChildAdjacency_build. rewrite Hn. env_step. eapply tr_yields_bind; [apply count_children_yields|]. intros rs0 ->.
  eapply tr_yields_bind; [apply lay_out_yields|]. intros [total rs] [-> ->]. eapply tr_yields_bind; [apply place_children_yields|].
  intros [cs rs] (Hlen & Hpl & ->). eapply tr_yields_bind; [by apply order_ranges_yields|]. intros [cs' rs] (Hlen' & Hl & ->). by apply tr_yields_ret.
Qed.
End build.
End layout.

(** ** The specification *)

Section spec.
Context (spans : list LogicalSpan) (entries : list SpanIndexEntry).

(** The fragment of a span, when it is not empty. *)
Definition gap (p : nat) (lo hi : Z) : list TraceCriticalPathFragment :=
  match spans !! p with Some s => if lo <? hi then [mkFragment (ls_span_id s) lo hi] else [] | None => [] end.

(** The children of a span in the order in which they are considered. *)
Definition considered (p : nat) (l : list nat) : Prop := l ≡ₚ kids entries p /\ latest_first spans l.

(** What is blamed, the latest first, for the time of [p] before [cursor] when the children [l] have
    not been considered yet. *)
Inductive blames : nat -> Z -> list nat -> list TraceCriticalPathFragment -> Prop :=
| blames_self p cursor start stop : interval_of spans p = Ok (start, stop) -> blames p cursor [] (gap p start cursor)
| blames_skip p cursor c l start stop fs : interval_of spans c = Ok (start, stop) -> ~ (start < cursor /\ stop <= cursor) ->
    blames p cursor l fs -> blames p cursor (c :: l) fs
| blames_child p cursor c l start stop own fs rest : interval_of spans c = Ok (start, stop) -> start < cursor -> stop <= cursor ->
    considered c own -> blames c stop own fs -> blames p start l rest ->
    blames p cursor (c :: l) (gap p stop cursor ++ fs ++ rest).

(** Consecutive fragments from [lo] to [hi]. *)
Fixpoint tiles (fs : list TraceCriticalPathFragment) (lo hi : Z) : Prop :=
  match fs with
  | [] => lo = hi
  | f :: fs => fragment_start f = lo /\ lo < fragment_end f /\ tiles fs (fragment_end f) hi
  end.

Lemma tiles_app fs gs lo mid hi : tiles fs lo mid -> tiles gs mid hi -> tiles (fs ++ gs) lo hi.
Proof. revert lo. induction fs as [|f fs IH]; intros lo; cbn; [by intros ->|]. intros (? & ? & ?) ?. auto. Qed.

Lemma tiles_le fs lo hi : tiles fs lo hi -> lo <= hi.
Proof. revert lo. induction fs as [|f fs IH]; intros lo; cbn; [lia|]. intros (? & ? & H%IH). lia. Qed.

Lemma gap_tiles p lo hi : is_Some (spans !! p) -> lo <= hi -> tiles (rev (gap p lo hi)) lo hi.
Proof. intros [s Hs] H. unfold gap. rewrite Hs. destruct (Z.ltb_spec lo hi); cbn; [lia|lia]. Qed.

(** Every child runs within its parent. *)
Definition nested : Prop := forall c p a b a' b', parent_of entries c = Some p -> interval_of spans c = Ok (a, b) -> interval_of spans p = Ok (a', b') -> a' <= a /\ b <= b'.

Lemma interval_le i a b : interval_of spans i = Ok (a, b) -> a <= b.
Proof.
  unfold interval_of, representative, at_index. destruct (spans !! i) as [s|]; [|done]. cbn. destruct (structural_representative s) as [o|]; [|done]. cbn.
  unfold span_interval. destruct (usable_instant (so_start_time _)) as [x|]; cbn; [|done]. destruct (usable_instant (so_end_time _)) as [y|]; cbn; [|done].
  destruct (Z.leb_spec (nanos x) (nanos y)); cbn; [by intros [= <- <-]|done].
Qed.

Lemma interval_span i t : interval_of spans i = Ok t -> is_Some (spans !! i).
Proof. unfold interval_of, at_index. by destruct (spans !! i). Qed.

(** What is blamed tiles the time of the span before the cursor. *)
Lemma blames_tiles p cursor l fs : nested -> blames p cursor l fs -> (forall c, c ∈ l -> parent_of entries c = Some p) ->
  forall start stop, interval_of spans p = Ok (start, stop) -> start <= cursor -> tiles (rev fs) start cursor.
Proof.
  intros Hn. induction 1 as [p cursor a b Hp|p cursor c l a b fs Hc Hno _ IH|p cursor c l a b own fs rest Hc Ha Hb [Hperm _] _ IHc _ IHp]; intros Hl start stop Hi Hle.
  - rewrite Hp in Hi. injection Hi as <- <-. apply gap_tiles; [by eapply interval_span|done].
  - eapply IH; [|done|done]. intros x Hx. apply Hl. by apply list_elem_of_further.
  - destruct (Hn c p a b start stop) as [H1 H2]; [apply Hl, list_elem_of_here|done|done|]. rewrite !rev_app_distr, <- app_assoc.
    apply tiles_app with a; [eapply IHp; [|done|done]; intros x Hx; apply Hl; by apply list_elem_of_further|].
    apply tiles_app with b; [|apply gap_tiles; [by eapply interval_span|done]].
    eapply IHc; [|done|by eapply interval_le]. intros x Hx. rewrite Hperm in Hx. by apply elem_kids.
Qed.
End spec.

(** ** The loop *)

Section path.
Context {S : Type} {Alloc : Allocator S} {Env : ScanEnvironment S} {Cap : QueryCapacity S}.
Context (Intr : TraceStoreFailure -> Prop) {HI : Interrupts S Intr}.
Context (spans : list LogicalSpan) (entries : list SpanIndexEntry).
Abbreviation n := (length entries).
Hypothesis parents_in_range : forall i p, parent_of entries i = Some p -> (p < n)%nat.
Hypothesis bound : 2 * zlen entries + 2 <= usize_max.
Hypothesis spans_length : length spans = n.
Hypothesis all_timed : forall i, (i < n)%nat -> timed spans i.
Hypothesis all_nested : nested spans entries.
Context (adj : ChildAdjacency) (Hadj : adjacency_right entries spans adj).

Definition rejected (cursor : Z) (c : nat) : Prop := forall start stop, interval_of spans c = Ok (start, stop) -> ~ (start < cursor /\ stop <= cursor).

Lemma kid_timed p l c : l ≡ₚ kids entries p -> c ∈ l -> (c < n)%nat /\ timed spans c /\ parent_of entries c = Some p.
Proof.
  intros Hp Hc. rewrite Hp, elem_kids in Hc. assert (Hlt : (c < n)%nat).
  { unfold parent_of in Hc. destruct (entries !! c) as [e|] eqn:He; [|done]. by eapply lookup_lt_Some. }
  auto.
Qed.

(** The search skips the children it rejects. *)
Lemma next_child_yields p l k cursor : (p < n)%nat -> considered spans entries p l -> placed entries (children adj) p l -> (k <= length l)%nat ->
  yields Intr (next_child adj spans p (off entries p + k) cursor) (fun '(child, next) => exists bad, Forall (rejected cursor) bad /\
    match child with
    | Some c => (exists a b, interval_of spans c = Ok (a, b) /\ a < cursor /\ b <= cursor) /\ drop k l = bad ++ c :: drop (k + length bad + 1) l /\ next = (off entries p + (k + length bad + 1))%nat
    | None => drop k l = bad
    end).
Proof.
  intros Hp [Hperm Hsorted] Hpl Hk. destruct Hadj as [Hranges Hlength _]. pose proof (Permutation_length Hperm) as Hll.
  eapply yields_step; [apply at_index_ok; rewrite Hranges; by apply range_lookup|]. unfold range_of. cbn [range_end].
  pose proof (off_S entries p) as HS. pose proof (off_mono entries (Datatypes.S p) n Hp) as Hm. pose proof (off_bound entries n) as Hb. unfold zlen in bound.
  apply (yields_loop _ _ (fun next => exists bad, Forall (rejected cursor) bad /\ next = (off entries p + (k + length bad))%nat /\ (k + length bad <= length l)%nat /\
    drop k l = bad ++ drop (k + length bad) l) (fun next => (off entries (Datatypes.S p) - next)%nat)).
  - intros next (bad & Hbad & -> & Hle & Hdrop). destruct (Nat.ltb_spec (off entries p + (k + length bad)) (off entries (Datatypes.S p))) as [Hlt|Hge].
    + env_step. eapply yields_step; [apply index_add_ok; lia|]. destruct (lookup_lt_is_Some_2 l (k + length bad)) as [c Hc]; [lia|].
      eapply yields_step; [apply at_index_ok; by apply Hpl|].
      destruct (kid_timed p l c Hperm) as (_ & [[a b] Hab] & _); [by eapply list_elem_of_lookup_2|]. eapply yields_step; [exact Hab|].
      assert (Hd : drop (k + length bad) l = c :: drop (k + length bad + 1) l) by (rewrite (drop_S _ _ _ Hc); do 2 f_equal; lia).
      cbv beta iota. destruct ((a <? cursor) && (b <=? cursor)) eqn:Hgood.
      * apply tr_yields_ret. apply andb_true_iff in Hgood as [H1%Z.ltb_lt H2%Z.leb_le]. exists bad. split; [done|]. split; [by exists a, b|].
        rewrite Hdrop, Hd. split; [done|lia].
      * apply tr_yields_ret. split; [|lia]. exists (bad ++ [c]). rewrite length_app. cbn [length]. split; [|split; [lia|split; [lia|]]].
        -- apply Forall_app. split; [done|]. constructor; [|constructor]. intros a' b' Hab'. rewrite Hab in Hab'. injection Hab' as <- <-.
           apply andb_false_iff in Hgood as [H1%Z.ltb_ge|H1%Z.leb_gt]; lia.
        -- rewrite Hdrop, Hd, <- app_assoc. cbn. by rewrite Nat.add_assoc.
    + apply tr_yields_ret. exists bad. split; [done|]. rewrite Hdrop, drop_ge, app_nil_r by lia. done.
  - exists []. cbn [length app]. rewrite Nat.add_0_r. split; [constructor|]. split; [done|]. split; [done|done].
  - lia.
Qed.

(** The children of [p] as the adjacency holds them. *)
Definition slice (p : nat) : list nat := take (off entries (Datatypes.S p) - off entries p) (drop (off entries p) (children adj)).

Lemma slice_ok p : (p < n)%nat -> considered spans entries p (slice p) /\ placed entries (children adj) p (slice p) /\
  length (slice p) = (off entries (Datatypes.S p) - off entries p)%nat.
Proof.
  intros Hp. destruct (ar_children _ _ _ Hadj p Hp) as (l & Hperm & Hs & Hpl). pose proof (Permutation_length Hperm) as Hll.
  unfold slice. rewrite (placed_slice entries _ _ _ Hll Hpl), off_S. split; [done|]. split; [done|]. lia.
Qed.

(** The children that a frame has not considered yet. *)
Definition pending (f : CriticalPathFrame) : list nat := drop (frame_next f - off entries (frame_span f)) (slice (frame_span f)).

(** What the frames still contribute. *)
Inductive resumes : list CriticalPathFrame -> list TraceCriticalPathFragment -> Prop :=
| resumes_nil : resumes [] []
| resumes_cons f stack fs rest : blames spans entries (frame_span f) (frame_cursor f) (pending f) fs -> resumes stack rest -> resumes (f :: stack) (fs ++ rest).

(** A frame on the stack, when the spans [V] have been entered. *)
Record frame_ok (V : list nat) (f : CriticalPathFrame) : Prop := {
  fo_entered : frame_span f ∈ V;
  fo_range : (frame_span f < n)%nat;
  fo_next : (off entries (frame_span f) <= frame_next f <= off entries (Datatypes.S (frame_span f)))%nat;
  fo_time : exists stop, interval_of spans (frame_span f) = Ok (frame_start f, stop) /\ frame_start f <= frame_cursor f;
  fo_fresh : forall c, c ∈ pending f -> c ∉ V;
}.

Record stack_ok (V : list nat) (stack : list CriticalPathFrame) : Prop := {
  so_nodup : NoDup V;
  so_range : forall i, i ∈ V -> (i < n)%nat;
  so_closed : forall i p, i ∈ V -> parent_of entries i = Some p -> p ∈ V;
  so_frames : Forall (frame_ok V) stack;
  so_spans : NoDup (frame_span <$> stack);
}.

Lemma append_gap p s fs lo hi : spans !! p = Some s -> lo <= hi -> append_fragment fs (ls_span_id s) lo hi = Ok (fs ++ gap spans p lo hi).
Proof.
  intros Hs Hle. unfold append_fragment, gap. rewrite Hs, (proj2 (Z.ltb_ge _ _) Hle). destruct (lo <? hi); [done|by rewrite app_nil_r].
Qed.

Lemma blames_skips p cursor bad l fs : Forall (rejected cursor) bad -> Forall (timed spans) bad ->
  blames spans entries p cursor l fs -> blames spans entries p cursor (bad ++ l) fs.
Proof.
  intros Hb Ht H. induction bad as [|c bad IH]; [done|]. inversion Hb as [|? ? Hr Hb']; subst. inversion Ht as [|? ? [[a b] Hab] Ht']; subst.
  cbn. eapply blames_skip; [done|by eapply Hr|auto].
Qed.

Lemma pending_timed f : (frame_span f < n)%nat -> forall c, c ∈ pending f -> (c < n)%nat /\ timed spans c /\ parent_of entries c = Some (frame_span f).
Proof.
  intros Hp c Hc. destruct (slice_ok _ Hp) as ([Hperm _] & _). eapply kid_timed; [done|]. unfold pending in Hc. apply list_elem_of_lookup in Hc as [k Hk].
  rewrite lookup_drop in Hk. by eapply list_elem_of_lookup_2.
Qed.

(** Entering a child keeps the other frames as they are. *)
Lemma frame_ok_enter V f c : frame_ok V f -> c ∉ pending f -> frame_ok (c :: V) f.
Proof.
  intros [H1 H2 H3 H4 H5] Hc. split; [by apply list_elem_of_further|done|done|done|]. intros x Hx. rewrite not_elem_of_cons. split; [by intros ->|by apply H5].
Qed.

(** The stack after entering the child [c] of the top frame. *)
Lemma stack_enter V f stack c a b bad : stack_ok V (f :: stack) -> interval_of spans c = Ok (a, b) -> a < frame_cursor f -> b <= frame_cursor f ->
  let next := (frame_next f + length bad + 1)%nat in
  pending f = bad ++ c :: drop (next - off entries (frame_span f)) (slice (frame_span f)) -> (next <= off entries (Datatypes.S (frame_span f)))%nat ->
  stack_ok (c :: V) (mkFrame c a b (off entries c) :: mkFrame (frame_span f) (frame_start f) a next :: stack).
Proof.
  intros [Hnd Hrange Hclosed Hframes Hspans] Hc Ha Hb next Hpend Hnext. apply Forall_cons in Hframes as [[H1 H2 H3 (stop & H4 & H4') H5] Hframes].
  assert (Hcp : c ∈ pending f) by (rewrite Hpend; apply elem_of_app; right; apply list_elem_of_here).
  destruct (pending_timed f H2 c Hcp) as (Hcn & Hct & Hpar). pose proof (H5 c Hcp) as HcV.
  destruct (all_nested c (frame_span f) a b (frame_start f) stop Hpar Hc H4) as [Hns _].
  destruct (slice_ok _ H2) as ([Hperm _] & _ & Hll). pose proof (off_S entries (frame_span f)) as HS.
  assert (Hpnd : NoDup (pending f)).
  { unfold pending. apply (sublist_NoDup _ (slice (frame_span f))); [rewrite Hperm; apply kids_nodup|apply sublist_drop]. }
  cbn [fmap list_fmap] in Hspans. apply NoDup_cons in Hspans as [Hfs Hspans].
  split.
  - by apply NoDup_cons.
  - intros i [-> | Hi]%elem_of_cons; [done|by apply Hrange].
  - intros i p [-> | Hi]%elem_of_cons Hp; apply list_elem_of_further; [by replace p with (frame_span f) by congruence|by eapply Hclosed].
  - constructor; [|constructor].
    + split; cbn [frame_span frame_next frame_start frame_cursor]; [apply list_elem_of_here|done| | |].
      * pose proof (off_S entries c). lia.
      * exists b. split; [done|by eapply interval_le].
      * intros x Hx. apply pending_timed in Hx as (_ & _ & Hx); [|done]. cbn in Hx. rewrite not_elem_of_cons. split.
        -- intros ->. apply HcV. by replace c with (frame_span f) by congruence.
        -- intros HxV. apply HcV. by eapply Hclosed.
    + split; cbn [frame_span frame_next frame_start frame_cursor]; [by apply list_elem_of_further|done|lia|by exists stop; split|].
      unfold pending. cbn [frame_span frame_next]. intros x Hx. rewrite Hpend in Hpnd. apply NoDup_app in Hpnd as (_ & _ & [Hcx _]%NoDup_cons).
      rewrite not_elem_of_cons. split; [by intros ->|]. apply H5. rewrite Hpend. apply elem_of_app. right. by apply list_elem_of_further.
    + apply Forall_forall. intros g Hg. rewrite Forall_forall in Hframes. apply frame_ok_enter; [by apply Hframes|]. intros Hin.
      apply pending_timed in Hin as (_ & _ & Hin); [|by eapply fo_range, Hframes]. apply Hfs, list_elem_of_fmap. exists g. split; [congruence|done].
  - cbn [fmap list_fmap frame_span]. apply NoDup_cons. split; [|by apply NoDup_cons]. intros [->|Hin]%elem_of_cons; [done|].
    apply list_elem_of_fmap in Hin as (g & -> & Hg). rewrite Forall_forall in Hframes. by apply HcV, (fo_entered _ _ (Hframes g Hg)).
Qed.

Lemma pop_ok V f stack : stack_ok V (f :: stack) -> stack_ok V stack.
Proof. intros [H1 H2 H3 H4 H5]. inversion H4; subst. split; [done..|]. cbn [fmap list_fmap] in H5. by apply NoDup_cons in H5 as [_ ?]. Qed.

Lemma new_frame_ok c a b : (c < n)%nat -> interval_of spans c = Ok (a, b) -> frame_new spans adj c = Ok (mkFrame c a b (off entries c)).
Proof.
  intros Hc Hi. unfold frame_new. rewrite Hi. cbn. rewrite (ar_ranges _ _ _ Hadj), (at_index_ok _ _ _ (range_lookup entries (fun _ => O) c Hc)). done.
Qed.

(** From any stack the loop ends with what its frames contribute. *)
Lemma path_loop_yields fuel : forall V fs stack, stack_ok V stack -> (2 * (n - length V) + length stack < fuel)%nat ->
  yields Intr (tr_loop fuel (path_step spans adj) (fs, stack)) (fun fs' => exists out, fs' = fs ++ out /\ resumes stack out).
Proof.
  induction fuel as [|fuel IH]; intros V fs stack Hok Hfuel; [lia|]. cbn [tr_loop]. destruct stack as [|f stack].
  { apply tr_yields_ret. exists []. split; [by rewrite app_nil_r|constructor]. }
  pose proof Hok as [Hnd Hrange _ Hframes _]. apply Forall_cons in Hframes as [[H1 H2 H3 (stop & H4 & H4') H5] _].
  destruct (slice_ok _ H2) as (Hcons & Hpl & Hll). cbn [length] in Hfuel.
  assert (Hlen : (length V <= n)%nat) by (by apply nodup_bound).
  unfold path_step at 1. eapply (tr_yields_bind _ _ _ (fun next => exists V' fs' stack', next = inl (fs', stack') /\ stack_ok V' stack' /\
    (2 * (n - length V') + length stack' < fuel)%nat /\
    forall out, resumes stack' out -> exists more, fs' ++ out = fs ++ more /\ resumes (f :: stack) more)).
  2: { intros next (V' & fs' & stack' & -> & Hok' & Hfuel' & Hout). eapply yields_mono; [by eapply IH|]. intros r (out & -> & Hr).
       destruct (Hout out Hr) as (more & Hm & Hr'). by exists more. }
  env_step. destruct (interval_span spans _ _ H4) as [s Hs]. eapply yields_step; [by apply at_index_ok|].
  set (k := (frame_next f - off entries (frame_span f))%nat). replace (frame_next f) with (off entries (frame_span f) + k)%nat by lia.
  eapply tr_yields_bind; [apply next_child_yields; [done|exact Hcons|done|lia]|]. intros [[c|] next] (bad & Hbad & Hchild).
  - destruct Hchild as ((a & b & Hab & Ha & Hb) & Hdrop & ->). eapply yields_step; [exact Hab|]. cbv beta iota.
    eapply yields_step; [by apply append_gap|].
    assert (Hpend : pending f = bad ++ c :: drop (k + length bad + 1) (slice (frame_span f))) by exact Hdrop.
    assert (Hc : c ∈ pending f) by (rewrite Hpend; apply elem_of_app; right; apply list_elem_of_here).
    destruct (pending_timed f H2 c Hc) as (Hcn & _ & _). eapply yields_step; [by apply new_frame_ok|]. apply tr_yields_ret.
    assert (Hle : (k + length bad + 1 <= length (slice (frame_span f)))%nat).
    { apply (f_equal length) in Hpend. unfold pending in Hpend. fold k in Hpend. rewrite length_app, length_drop in Hpend. cbn [length] in Hpend. lia. }
    exists (c :: V). eexists _, _. split; [done|]. split; [|split].
    + replace (off entries (frame_span f) + (k + length bad + 1))%nat with (frame_next f + length bad + 1)%nat by lia.
      eapply stack_enter; [done|done|done|done| |lia].
      by replace (frame_next f + length bad + 1 - off entries (frame_span f))%nat with (k + length bad + 1)%nat by lia.
    + cbn [length]. pose proof (H5 c Hc) as HcV.
      assert (length (c :: V) <= n)%nat by (apply nodup_bound; [by apply NoDup_cons|intros i [-> | Hi]%elem_of_cons; [done|by apply Hrange]]). cbn [length] in *. lia.
    + intros out Hr. inversion Hr as [|? ? fs1 rest1 Hb1 Hr1]; subst. inversion Hr1 as [|? ? fs2 rest2 Hb2 Hr2]; subst. unfold pending in Hb1, Hb2.
      cbn [frame_span frame_cursor frame_next] in Hb1, Hb2.
      exists ((gap spans (frame_span f) b (frame_cursor f) ++ fs1 ++ fs2) ++ rest2). split; [by rewrite <- !app_assoc|]. constructor; [|done].
      rewrite Hpend. apply blames_skips; [done| |].
      * apply Forall_forall. intros x Hx. apply (pending_timed f H2 x). rewrite Hpend. apply elem_of_app. by left.
      * rewrite Nat.sub_diag in Hb1. replace (off entries (frame_span f) + (k + length bad + 1) - off entries (frame_span f))%nat with (k + length bad + 1)%nat in Hb2 by lia.
        eapply blames_child; [done|done|done| |exact Hb1|exact Hb2]. by destruct (slice_ok c Hcn).
  - eapply yields_step; [by apply append_gap|]. apply tr_yields_ret. exists V. eexists _, _. split; [done|]. split; [by eapply pop_ok|]. split; [lia|].
    intros out Hr. exists (gap spans (frame_span f) (frame_start f) (frame_cursor f) ++ out). split; [by rewrite <- app_assoc|]. constructor; [|done].
    unfold pending. fold k. rewrite Hchild, <- (app_nil_r bad). apply blames_skips; [done| |by eapply blames_self].
    apply Forall_forall. intros x Hx. apply (pending_timed f H2 x). unfold pending. fold k. by rewrite Hchild.
Qed.
End path.

(** ** The result *)

Section result.
Context {S : Type} {Alloc : Allocator S} {Env : ScanEnvironment S} {Cap : QueryCapacity S}.
Context (Intr : TraceStoreFailure -> Prop) {HI : Interrupts S Intr}.

(** The durations of fragments that tile an interval add up to its length. *)
Lemma durations_yields fs lo hi total : tiles fs lo hi -> 0 <= total -> total + (hi - lo) <= u64_max ->
  yields Intr (tr_for fs (fun total f => _ ← observe; d ← tr_of (ok_or trace_invalid_input (duration_nanos f));
    tr_of (ok_or trace_limit_exceeded (checked_add u64_max total d))) total) (fun t => t = total + (hi - lo)).
Proof.
  revert lo total. induction fs as [|f fs IH]; intros lo total Ht H0 Hmax; cbn [tiles] in Ht.
  - apply tr_yields_ret. lia.
  - destruct Ht as (Hs & Hlt & Ht). pose proof (tiles_le _ _ _ Ht) as Hle. cbn [tr_for].
    eapply (tr_yields_bind _ _ _ (fun t => t = total + (fragment_end f - lo))).
    + env_step. eapply (yields_step _ _ _ (fragment_end f - lo)).
      { unfold duration_nanos. rewrite Hs, (proj2 (Z.leb_le 0 _)), (proj2 (Z.leb_le _ u64_max)) by lia. done. }
      eapply yields_of; [|done]. unfold checked_add. rewrite (proj2 (Z.leb_le _ u64_max)) by lia. done.
    + intros t ->. eapply yields_mono; [apply IH; [done|lia|lia]|]. intros t ->. lia.
Qed.

(** Positions are determined by identities. *)
Lemma located_unique spans i j s : spans_ok spans -> spans !! i = Some s -> located spans (ls_span_id s) (Some j) -> j = i.
Proof.
  intros [_ _ Hsorted] Hi (t & Hj & Hid). destruct (lt_eq_lt_dec i j) as [[Hlt|?]|Hlt]; [|done|]; exfalso; apply (lex_lt_irrefl (ls_span_id s)).
  - rewrite <- Hid at 2. by eapply Hsorted.
  - rewrite <- Hid at 1. by eapply Hsorted.
Qed.

Lemma index_ids spans entries : index_right spans entries -> same_ids spans entries.
Proof. intros H. eapply Forall2_impl; [done|]. by intros s e [? _]. Qed.

(** The entry of a span. *)
Lemma index_parent spans entries i s : index_right spans entries -> spans !! i = Some s ->
  match named_parent s with Some id => located spans id (parent_of entries i) | None => parent_of entries i = None end.
Proof.
  intros H Hs. destruct (Forall2_lookup_l _ _ _ _ _ H Hs) as (e & He & _ & Hp). unfold parent_of. rewrite He. done.
Qed.

Lemma index_parents spans entries i p : index_right spans entries -> parent_of entries i = Some p -> (p < length entries)%nat.
Proof.
  intros H Hp. assert (Hi : (i < length entries)%nat). { unfold parent_of in Hp. destruct (entries !! i) eqn:He; [|done]. by eapply lookup_lt_Some. }
  pose proof (Forall2_length _ _ _ H) as Hlen. destruct (lookup_lt_is_Some_2 spans i) as [s Hs]; [lia|].
  pose proof (index_parent _ _ _ _ H Hs) as Hl. rewrite Hp in Hl. destruct (named_parent s); [|done]. destruct Hl as (t & Ht & _).
  rewrite <- Hlen. by eapply lookup_lt_Some.
Qed.

(** The path of a trace with one root [r]. *)
Definition path_of (spans : list LogicalSpan) (entries : list SpanIndexEntry) (r : nat) (path : TraceCriticalPath) : Prop :=
  exists start stop own, interval_of spans r = Ok (start, stop) /\ considered spans entries r own /\
    blames spans entries r stop own (rev (fragments path)) /\ tiles (fragments path) start stop /\ path_duration path = stop - start.

Lemma critical_path_yields spans entries r s more start stop : spans_ok spans -> index_right spans entries ->
  (forall i, (i < length spans)%nat -> timed spans i) -> nested spans entries ->
  spans !! r = Some s -> parent_of entries r = None -> interval_of spans r = Ok (start, stop) -> stop - start <= u64_max ->
  yields Intr (critical_path spans entries (ls_span_id s :: more)) (fun path => exists p, path = Some p /\ path_of spans entries r p).
Proof.
  intros Hok Hidx Htimed Hnested Hs Hroot Hi Hmax. pose proof (Forall2_length _ _ _ Hidx) as Hlen. pose proof (lookup_lt_Some _ _ _ Hs) as Hr.
  pose proof (spans_bound _ Hok) as Hbound. assert (Hbe : 2 * zlen entries + 2 <= usize_max) by (unfold zlen in *; lia).
  assert (Hte : forall i, (i < length entries)%nat -> timed spans i) by (intros i; rewrite <- Hlen; apply Htimed).
  pose proof (fun i p => index_parents spans entries i p Hidx) as Hrange.
  cbn [critical_path head]. eapply tr_yields_bind; [apply (find_yields _ spans); [done|by apply index_ids]|]. intros [j|] Hj; [|by destruct (Hj r s Hs)].
  pose proof (located_unique _ _ _ _ Hok Hs Hj) as ->. eapply yields_step; [done|].
  eapply tr_yields_bind; [by eapply ChildAdjacency_build_yields|]. intros adj Hadj.
  eapply (yields_step _ _ _ (length spans * 2)%nat). { unfold index_mul, zlen in *. by rewrite (proj2 (Z.leb_le _ usize_max)) by lia. }
  env_step. env_step. eapply yields_step; [eapply new_frame_ok; [done|lia|done]|].
  assert (Hsl : considered spans entries r (slice entries adj r)) by (eapply slice_ok; [done|done|lia]). pose proof Hsl as [Hperm _].
  eapply tr_yields_bind; [eapply path_loop_yields with (V := [r]); try done|].
  - split; [apply NoDup_singleton|by intros i ->%list_elem_of_singleton; lia|intros i p ->%list_elem_of_singleton; congruence| |apply NoDup_singleton].
    constructor; [|constructor]. split; cbn [frame_span frame_next frame_start frame_cursor].
    + apply list_elem_of_here.
    + lia.
    + pose proof (off_S entries r). lia.
    + exists stop. split; [done|by eapply interval_le].
    + intros c Hc. eapply pending_timed in Hc as (_ & _ & Hc); [|done|done|done|cbn; lia]. cbn in Hc. rewrite list_elem_of_singleton. intros ->. congruence.
  - cbn [length]. lia.
  - intros fs (out & -> & Hres). cbn [app]. inversion Hres as [|? ? fs rest Hb Hrest]; subst. inversion Hrest; subst. rewrite app_nil_r.
    unfold pending in Hb. cbn [frame_span frame_next frame_cursor] in Hb. rewrite Nat.sub_diag in Hb.
    assert (Ht : tiles (rev fs) start stop).
    { eapply blames_tiles; [done|exact Hb| |done|by eapply interval_le]. intros c Hc. cbn in Hc. rewrite Hperm in Hc. by apply elem_kids. }
    eapply tr_yields_bind; [apply (durations_yields _ start stop); [done|lia|lia]|]. intros t ->. apply tr_yields_ret. eexists. split; [done|].
    exists start, stop, (slice entries adj r). cbn [fragments path_duration]. rewrite rev_involutive. split; [done|]. split; [done|]. split; [exact Hb|]. split; [done|lia].
Qed.
End result.
