(* ===== verification/TraceAnalysis.v ===== *)
(** Trace store: service relationships of one trace, and its structural analysis.

    Models the direct service edges of [positron-signals/src/trace_store/relationships.rs]
    ([collect]) and [analyze] of [structural.rs], which composes the index, the classification of
    cycles, the facts of every span, the service edges and the critical path. *)

From Stdlib Require Import Ascii String.
From S2P Require Import Prelude Limits Routing SourceTime Values Observe Traversal Occurrences LogCodec TraceModel TraceHeap TraceStructure.

(** ** Service identities *)

(** [positron-signals/src/trace_store/relationships.rs:22-31 TraceServiceIdentity] *)
Inductive TraceServiceIdentity :=
| IdentityMissing | IdentityExact (value : bytes) | IdentityAmbiguous | IdentityRemoved | IdentityRedacted | IdentityTruncated | IdentityInvalid.

(** [positron-signals/src/trace_store/relationships.rs:34-40 TraceServiceIdentity::exact] *)
Definition exact (i : TraceServiceIdentity) : option bytes := match i with IdentityExact v => Some v | _ => None end.

(** [positron-signals/src/trace_store/relationships.rs:42-44 TraceServiceIdentity::is_present_and_not_exact] *)
Definition is_present_and_not_exact (i : TraceServiceIdentity) : bool :=
  match i with IdentityMissing | IdentityExact _ => false | _ => true end.

(** [positron-signals/src/trace_store/relationships.rs:48-62 TraceServiceRelationship] *)
Record TraceServiceRelationship := mkRelationship {
  parent_span_id : bytes;
  child_span_id : bytes;
  parent_service : option bytes;
  child_service : option bytes;
  parent_service_namespace : option bytes;
  child_service_namespace : option bytes;
  parent_sampling : SamplingDecision;
  child_sampling : SamplingDecision;
  parent_identity : TraceServiceIdentity;
  child_identity : TraceServiceIdentity;
  parent_namespace_identity : TraceServiceIdentity;
  child_namespace_identity : TraceServiceIdentity;
}.

(** [positron-signals/src/trace_store/relationships.rs:116-120 TraceServiceRelationships] *)
Record TraceServiceRelationships := mkRelationships { edges : list TraceServiceRelationship; relationships_complete : bool }.

Definition service_name : bytes := bytes_of_string "service.name".
Definition service_namespace : bytes := bytes_of_string "service.namespace".

Section collect.
Context {S : Type} {Alloc : Allocator S} {Env : ScanEnvironment S}.

(** [positron-signals/src/trace_store/relationships.rs:1026-1044 resource_identity!] One value of the
    attribute, when it is the only one. *)
Definition value_identity (value : ValidatedAttributeValue) : TraceServiceIdentity :=
  match marker_action value with
  | Some Removed => IdentityRemoved
  | Some Redacted => IdentityRedacted
  | Some TruncatedBytes | Some TruncatedElements => IdentityTruncated
  | None =>
      match truncation_action value with
      | Some _ => IdentityTruncated
      | None => match as_str value with Some v => IdentityExact v | None => IdentityInvalid end
      end
  end.

(** [positron-signals/src/trace_store/relationships.rs:1011-1047 resource_identity] The loop goes on only
    with an exact value. *)
Fixpoint resource_identity_from (attributes : list AttributeOccurrenceSet) (name : bytes) (result : TraceServiceIdentity) : Tr S TraceServiceIdentity :=
  match attributes with
  | [] => mret result
  | a :: attributes =>
      _ ← observe;
      if negb (bool_decide (namespace a = NsResource)) || negb (bool_decide (text (key a) = name)) then resource_identity_from attributes name result else
      if negb match result with IdentityMissing => true | _ => false end || negb (set_len a =? 1) then mret IdentityAmbiguous else
      match occurrences a !! O with
      | None => mret IdentityInvalid
      | Some value =>
          match value_identity value with
          | IdentityExact v => resource_identity_from attributes name (IdentityExact v)
          | other => mret other
          end
      end
  end.

Definition resource_identity (o : SpanObservation) (name : bytes) : Tr S TraceServiceIdentity :=
  resource_identity_from (so_attributes o) name IdentityMissing.

Definition is_none {A} (o : option A) : bool := match o with None => true | Some _ => false end.

(** [positron-signals/src/trace_store/relationships.rs:966-1006 collect!] The edge from [parent] to [child], and whether its evidence is complete. *)
Definition edge_between (parent child : LogicalSpan) : Tr S (TraceServiceRelationship * bool) :=
  po ← tr_of (scanned_observation <$> representative parent);
  co ← tr_of (scanned_observation <$> representative child);
  pi ← resource_identity po service_name;
  ci ← resource_identity co service_name;
  pn ← resource_identity po service_namespace;
  cn ← resource_identity co service_namespace;
  mret (mkRelationship (ls_span_id parent) (ls_span_id child) (exact pi) (exact ci) (exact pn) (exact cn) (so_sampling po) (so_sampling co) pi ci pn cn,
        negb (is_none (exact pi) || is_none (exact ci) || is_present_and_not_exact pn || is_present_and_not_exact cn
              || negb (bool_decide (so_sampling po = Sampled)) || negb (bool_decide (so_sampling co = Sampled)))).

(** [positron-signals/src/trace_store/relationships.rs:939-1009 collect] *)
Definition collect (spans : list LogicalSpan) (parent_indexes : list (option nat)) (structurally_complete : bool) : Tr S TraceServiceRelationships :=
  if negb (length parent_indexes =? length spans)%nat then tr_fail trace_invalid_input else
  _ ← reserve (length spans);
  '(es, complete) ← tr_for (imap pair spans) (fun '(es, complete) '(i, child) =>
    _ ← observe;
    parent_index ← tr_of (at_index parent_indexes i);
    match parent_index with
    | None => mret (es, complete)
    | Some p =>
        parent ← tr_of (at_index spans p);
        '(e, evident) ← edge_between parent child;
        mret (es ++ [e], if (evident : bool) then complete else false)
    end) ([], structurally_complete);
  mret (mkRelationships es complete).
End collect.

(** ** The structure of a trace *)

(** [positron-signals/src/trace_store/structural.rs:15-23 TraceParentRelation] *)
Inductive TraceParentRelation := RelationRoot | RelationChild | RelationOrphan.

(** [positron-signals/src/trace_store/structural.rs:26-34 TraceStructureSpan] *)
Record TraceStructureSpan := mkStructureSpan {
  fact_span_id : bytes;
  fact_parent_span_id : option bytes;
  fact_relation : TraceParentRelation;
  fact_sampling : SamplingDecision;
  fact_conflicted : bool;
  fact_cycle_member : bool;
}.

(** [positron-signals/src/trace_store/structural.rs:64-74 TraceStructureIncompleteness] *)
Record TraceStructureIncompleteness := mkIncompleteness {
  inc_scan : TraceIncompleteness;
  inc_filtered : bool;
  missing_parents : Z;
  conflicts : Z;
  cycle_members : Z;
  invalid_durations : Z;
  temporal_inconsistencies : Z;
  ambiguous_roots : bool;
}.

(** [positron-signals/src/trace_store/structural.rs:112-121 TraceStructureIncompleteness::complete] *)
Definition incompleteness_complete (i : TraceStructureIncompleteness) : bool :=
  match inc_scan i with ScanComplete => true | _ => false end
  && (missing_parents i =? 0) && (conflicts i =? 0) && (cycle_members i =? 0) && (invalid_durations i =? 0)
  && (temporal_inconsistencies i =? 0) && negb (inc_filtered i) && negb (ambiguous_roots i).

(** [positron-signals/src/trace_store/structural.rs:177-187 TraceStructure] The borrowed summary is of any
    type. *)
Record TraceStructure (Summary : Type) := mkStructure {
  summary : Summary;
  facts : list TraceStructureSpan;
  roots : list bytes;
  orphans : list bytes;
  cycles : list bytes;
  incompleteness : TraceStructureIncompleteness;
  structure_critical_path : option TraceCriticalPath;
  service_relationships : TraceServiceRelationships;
}.
Arguments mkStructure {Summary}.
Arguments summary {Summary}.
Arguments facts {Summary}.
Arguments roots {Summary}.
Arguments orphans {Summary}.
Arguments cycles {Summary}.
Arguments incompleteness {Summary}.
Arguments structure_critical_path {Summary}.
Arguments service_relationships {Summary}.

(** [positron-signals/src/trace_store/structural.rs:242-248 StructuralInput] *)
Record StructuralInput (Summary : Type) := mkStructuralInput {
  input_spans : list LogicalSpan;
  input_summary : Summary;
  input_scan : TraceIncompleteness;
  input_filtered : bool;
  input_retained : Z;
}.
Arguments mkStructuralInput {Summary}.
Arguments input_spans {Summary}.
Arguments input_summary {Summary}.
Arguments input_scan {Summary}.
Arguments input_filtered {Summary}.
Arguments input_retained {Summary}.

(** The sizes that the compiler gives to the types that are charged for. *)
Class TraceLayout := {
  size_structure_span : Z;
  size_fragment : Z;
  size_frame : Z;
  size_index_entry : Z;
  size_cycle_state : Z;
  size_child_range : Z;
  size_relationship : Z;
  size_option_usize : Z;
  size_relationship_pair : Z;
  size_trace_incompleteness : Z;
  size_option_pair_slot : Z;
}.

(** The counters and lists that the loop over the spans fills. *)
Record Facts := mkFacts {
  acc_spans : list TraceStructureSpan;
  acc_roots : list bytes;
  acc_orphans : list bytes;
  acc_cycles : list bytes;
  acc_missing : Z;
  acc_conflicts : Z;
  acc_cycle_members : Z;
  acc_durations : Z;
  acc_temporal : Z;
}.

Definition no_facts : Facts := mkFacts [] [] [] [] 0 0 0 0 0.

(** [n] more, when [more]. *)
Definition increment_if (more : bool) (n : Z) : result TraceStoreFailure Z := if more then increment n else Ok n.

Section analyze.
Context {S : Type} {Alloc : Allocator S} {Env : ScanEnvironment S} {Cap : QueryCapacity S} {Lay : TraceLayout} {Summary : Type}.

(** [positron-signals/src/trace_store/structural.rs:479-498 analyze!] The bytes that are charged for one span. *)
Definition per_span_bytes : option Z :=
  try_fold_opt (checked_add u64_max) size_structure_span
    [3 * 8; 2 * size_fragment; size_frame; size_index_entry; size_cycle_state; size_child_range; 8; size_relationship; size_option_usize].

(** [positron-signals/src/trace_store/structural.rs:478-508 analyze!] What is charged for the spans beside what is retained. *)
Definition structural_charge (spans : nat) (retained : Z) : result TraceStoreFailure Z :=
  per_span ← ok_or trace_limit_exceeded per_span_bytes;
  structural ← ok_or trace_limit_exceeded (checked_mul u64_max (Z.of_nat spans) per_span);
  total ← ok_or trace_limit_exceeded (checked_add u64_max retained structural);
  Ok (Z.max total 1).

(** A child outside the interval of its parent. *)
Definition outside (parent child : option (Z * Z)) : bool :=
  match parent, child with
  | Some (parent_start, parent_end), Some (child_start, child_end) => (child_start <? parent_start) || (parent_end <? child_end)
  | _, _ => false
  end.

(** [positron-signals/src/trace_store/structural.rs:531-546 analyze!] The relation of a span: what the lists and the counter of missing parents become. *)
Definition relate (entries : list SpanIndexEntry) (acc : Facts) (i : nat) (id : bytes) (named : option bytes)
  : result TraceStoreFailure (TraceParentRelation * option nat * list bytes * list bytes * Z) :=
  match named with
  | None => Ok (RelationRoot, None, acc_roots acc ++ [id], acc_orphans acc, acc_missing acc)
  | Some _ =>
      parent ← parent_index entries i;
      match parent with
      | Some p => Ok (RelationChild, Some p, acc_roots acc, acc_orphans acc, acc_missing acc)
      | None =>
          missing ← increment (acc_missing acc);
          Ok (RelationOrphan, None, acc_roots acc, acc_orphans acc ++ [id], missing)
      end
  end.

(** [positron-signals/src/trace_store/structural.rs:527-580 analyze!] One span of the loop. *)
Definition analyze_span (spans : list LogicalSpan) (entries : list SpanIndexEntry) (states : list CycleState) (acc : Facts) (i : nat) (span : LogicalSpan)
  : Tr S Facts :=
  _ ← observe;
  o ← tr_of (representative span);
  let named := so_parent_span_id (scanned_observation o) in
  '(relation, parent, roots, orphans, missing) ← tr_of (relate entries acc i (ls_span_id span) named);
  let cycle_member := match relation with RelationChild => bool_decide (states !! i = Some Cycle) | _ => false end in
  members ← tr_of (increment_if cycle_member (acc_cycle_members acc));
  conflicts ← tr_of (increment_if (conflicted span) (acc_conflicts acc));
  durations ← tr_of (increment_if match span_duration o with None => true | Some _ => false end (acc_durations acc));
  inconsistent ← match parent with
    | None => mret false
    | Some p =>
        parent_span ← tr_of (at_index spans p);
        po ← tr_of (representative parent_span);
        mret (outside (span_interval po) (span_interval o))
    end;
  temporal ← tr_of (increment_if inconsistent (acc_temporal acc));
  mret (mkFacts
    (acc_spans acc ++ [mkStructureSpan (ls_span_id span) named relation (so_sampling (scanned_observation o)) (conflicted span) cycle_member])
    roots orphans (if cycle_member then acc_cycles acc ++ [ls_span_id span] else acc_cycles acc)
    missing conflicts members durations temporal).

(** [positron-signals/src/trace_store/structural.rs:465-612 analyze] *)
Definition analyze (input : StructuralInput Summary) : Tr S (TraceStructure Summary) :=
  let spans := input_spans input in
  charge ← tr_of (structural_charge (length spans) (input_retained input));
  _ ← resize_capacity charge;
  _ ← reserve (length spans);
  _ ← reserve (length spans);
  _ ← reserve (length spans);
  _ ← reserve (length spans);
  entries ← SpanIndex_build spans;
  states ← classify_cycles entries;
  acc ← tr_for (imap pair spans) (fun acc '(i, span) => analyze_span spans entries states acc i span) no_facts;
  let inc := mkIncompleteness (input_scan input) (input_filtered input) (acc_missing acc) (acc_conflicts acc) (acc_cycle_members acc)
               (acc_durations acc) (acc_temporal acc) (1 <? zlen (acc_roots acc)) in
  _ ← reserve (length spans);
  parent_indexes ← tr_for (seq 0 (length spans)) (fun l i => p ← tr_of (parent_index entries i); mret (l ++ [p])) [];
  relationships ← collect spans parent_indexes (incompleteness_complete inc);
  path ← if incompleteness_complete inc then critical_path spans entries (acc_roots acc) else mret None;
  mret (mkStructure (input_summary input) (acc_spans acc) (acc_roots acc) (acc_orphans acc) (acc_cycles acc) inc path relationships).
End analyze.
