(* ===== verification/TraceResults.v ===== *)
(** Trace store: the structural analysis is right.

    What [analyze] says about every span of a trace, what it counts, and when and what it returns
    as the critical path.

    The theorems about [analyze] as a whole: the facts it states, the critical path it returns, and
    the direct service edges. Each holds for every environment: either the analysis is interrupted
    by it, or it returns what is stated; an environment that never interrupts gets the result. *)

From Stdlib Require Import Ascii String.
From S2P Require Import Prelude Limits Routing SourceTime Values Observe Traversal Occurrences LogCodec TraceModel TraceHeap TraceStructure TraceCycles TracePath TraceAnalysis PolicyModel RetentionTime LogBlocks.

(** ** What is to be said *)

Section facts.
Context (spans : list LogicalSpan) (entries : list SpanIndexEntry) (member : nat -> bool).

Definition relation_at (i : nat) (s : LogicalSpan) : TraceParentRelation :=
  match named_parent s with
  | None => RelationRoot
  | Some _ => match parent_of entries i with Some _ => RelationChild | None => RelationOrphan end
  end.

Definition interval_at (s : LogicalSpan) : option (Z * Z) := o ← structural_representative s; span_interval o.

Definition is_root (_ : nat) (s : LogicalSpan) : bool := is_none (named_parent s).
Definition is_orphan (i : nat) (s : LogicalSpan) : bool := negb (is_none (named_parent s)) && is_none (parent_of entries i).
Definition is_cyclic (i : nat) (_ : LogicalSpan) : bool := member i.
Definition is_conflicted (_ : nat) (s : LogicalSpan) : bool := conflicted s.
Definition is_untimed (_ : nat) (s : LogicalSpan) : bool := is_none (o ← structural_representative s; span_duration o).
Definition is_outside (i : nat) (s : LogicalSpan) : bool :=
  match p ← parent_of entries i; spans !! p with Some parent => outside (interval_at parent) (interval_at s) | None => false end.

Definition fact_at (i : nat) (s : LogicalSpan) : TraceStructureSpan :=
  mkStructureSpan (ls_span_id s) (named_parent s) (relation_at i s)
    (match structural_representative s with Some o => so_sampling (scanned_observation o) | None => SamplingUnknown end) (conflicted s) (member i).

(** The spans that a test selects: their identities and their number. *)
Definition selected (test : nat -> LogicalSpan -> bool) (l : list (nat * LogicalSpan)) : list (nat * LogicalSpan) := filter (fun x => test x.1 x.2 = true) l.
Definition ids (test : nat -> LogicalSpan -> bool) (l : list (nat * LogicalSpan)) : list bytes := (fun x => ls_span_id x.2) <$> selected test l.
Definition tally (test : nat -> LogicalSpan -> bool) (l : list (nat * LogicalSpan)) : Z := zlen (selected test l).

Definition facts_of (l : list (nat * LogicalSpan)) : Facts :=
  mkFacts ((fun x => fact_at x.1 x.2) <$> l) (ids is_root l) (ids is_orphan l) (ids is_cyclic l)
    (tally is_orphan l) (tally is_conflicted l) (tally is_cyclic l) (tally is_untimed l) (tally is_outside l).

Lemma selected_snoc test l x : selected test (l ++ [x]) = selected test l ++ (if test x.1 x.2 then [x] else []).
Proof. unfold selected. rewrite filter_app, filter_cons, filter_nil. by destruct (test x.1 x.2). Qed.

Lemma ids_snoc test l x : ids test (l ++ [x]) = if test x.1 x.2 then ids test l ++ [ls_span_id x.2] else ids test l.
Proof. unfold ids. rewrite selected_snoc, fmap_app. destruct (test x.1 x.2); [done|apply app_nil_r]. Qed.

Lemma tally_snoc test l x : tally test (l ++ [x]) = if test x.1 x.2 then tally test l + 1 else tally test l.
Proof. unfold tally. rewrite selected_snoc, zlen_app. destruct (test x.1 x.2); unfold zlen; cbn [length]; lia. Qed.

Lemma tally_bound test l : 0 <= tally test l <= zlen l.
Proof. unfold tally, zlen, selected. pose proof (length_filter (fun x : nat * LogicalSpan => test x.1 x.2 = true) l). lia. Qed.

Lemma tally_zero test l i s : tally test (imap pair l) = 0 -> l !! i = Some s -> test i s = false.
Proof.
  intros H Hs. destruct (test i s) eqn:E; [|done]. assert (Hin : (i, s) ∈ selected test (imap pair l)).
  { apply list_elem_of_filter. split; [done|]. apply list_elem_of_lookup. exists i. by rewrite list_lookup_imap, Hs. }
  unfold tally, zlen in H. destruct (selected test (imap pair l)); [by apply not_elem_of_nil in Hin|]. cbn in H. lia.
Qed.

(** ** The loop says it *)

Section loop.
Context {S : Type} {Alloc : Allocator S} {Env : ScanEnvironment S} {Cap : QueryCapacity S}.
Context (Intr : TraceStoreFailure -> Prop) {HI : Interrupts S Intr}.
Context (states : list CycleState).
Hypothesis Hok : spans_ok spans.
Hypothesis Hidx : index_right spans entries.
Hypothesis Hmember : forall i, (i < length spans)%nat -> member i = match parent_of entries i with Some _ => bool_decide (states !! i = Some Cycle) | None => false end.

Lemma increment_if_ok test l x : zlen (l ++ [x]) <= u64_max -> increment_if (test x.1 x.2) (tally test l) = Ok (tally test (l ++ [x])).
Proof.
  intros H. rewrite tally_snoc. destruct (test x.1 x.2); [|done]. unfold increment_if, increment, checked_add. pose proof (tally_bound test l).
  unfold zlen in *. rewrite length_app in H. cbn [length] in H. by rewrite (proj2 (Z.leb_le _ u64_max)) by lia.
Qed.

Lemma relate_ok pre i s : spans !! i = Some s -> zlen (pre ++ [(i, s)]) <= u64_max ->
  relate entries (facts_of pre) i (ls_span_id s) (named_parent s) =
  Ok (relation_at i s, parent_of entries i, ids is_root (pre ++ [(i, s)]), ids is_orphan (pre ++ [(i, s)]), tally is_orphan (pre ++ [(i, s)])).
Proof.
  intros Hs Hlen. pose proof (index_parent _ _ _ _ Hidx Hs) as Hp. pose proof (increment_if_ok is_orphan pre (i, s) Hlen) as Hinc.
  rewrite !ids_snoc. unfold relate, relation_at. cbn [fst snd] in *. unfold is_root, is_orphan in Hinc |- *. cbn [acc_roots acc_orphans acc_missing facts_of].
  destruct (named_parent s) as [id|]; cbn [is_none negb andb] in *.
  - assert (Hi : (i < length entries)%nat) by (rewrite <- (Forall2_length _ _ _ Hidx); by eapply lookup_lt_Some).
    rewrite parent_index_ok by done. cbn. destruct (parent_of entries i) as [p|]; cbn [is_none] in *.
    + by injection Hinc as <-.
    + cbn in Hinc. unfold is_orphan. by rewrite Hinc.
  - rewrite Hp. cbn in Hinc. by injection Hinc as <-.
Qed.

Lemma analyze_span_yields pre i s : spans !! i = Some s -> zlen (pre ++ [(i, s)]) <= u64_max ->
  yields Intr (analyze_span spans entries states (facts_of pre) i s) (fun acc => acc = facts_of (pre ++ [(i, s)])).
Proof.
  intros Hs Hlen. env_step. pose proof (spans_represented _ Hok) as Hrep. rewrite Forall_lookup in Hrep. destruct (Hrep _ _ Hs) as [o Ho].
  eapply (yields_step _ _ _ o); [unfold representative; by rewrite Ho|]. cbv zeta.
  assert (Hnp : named_parent s = so_parent_span_id (scanned_observation o)) by (unfold named_parent; by rewrite Ho). rewrite <- Hnp.
  eapply yields_step; [by apply relate_ok|]. cbv beta iota.
  pose proof (index_parent _ _ _ _ Hidx Hs) as Hp.
  assert (Hcyc : match relation_at i s with RelationChild => bool_decide (states !! i = Some Cycle) | _ => false end = is_cyclic i s).
  { unfold relation_at, is_cyclic. rewrite Hmember by (by eapply lookup_lt_Some). revert Hp. destruct (named_parent s); [by destruct (parent_of entries i)|by intros ->]. }
  rewrite Hcyc. eapply yields_step; [by apply (increment_if_ok is_cyclic pre (i, s))|]. eapply yields_step; [by apply (increment_if_ok is_conflicted pre (i, s))|].
  assert (Hunt : match span_duration o with None => true | Some _ => false end = is_untimed i s) by (unfold is_untimed; rewrite Ho; cbn; by destruct (span_duration o)).
  rewrite Hunt. eapply yields_step; [by apply (increment_if_ok is_untimed pre (i, s))|].
  eapply (tr_yields_bind _ _ _ (fun b => b = is_outside i s)).
  { unfold is_outside. destruct (parent_of entries i) as [p|] eqn:Hpar; [|by apply tr_yields_ret].
    assert (Hlt : (p < length spans)%nat) by (rewrite (Forall2_length _ _ _ Hidx); by eapply index_parents).
    destruct (lookup_lt_is_Some_2 spans p Hlt) as [ps Hps]. destruct (Hrep _ _ Hps) as [po Hpo]. eapply yields_step; [by apply at_index_ok|].
    eapply (yields_step _ _ _ po); [unfold representative; by rewrite Hpo|]. apply tr_yields_ret. cbn. rewrite Hps. unfold interval_at. by rewrite Ho, Hpo. }
  intros b ->. eapply yields_step; [by apply (increment_if_ok is_outside pre (i, s))|]. apply tr_yields_ret.
  unfold facts_of at 4. rewrite fmap_app. cbn [fmap list_fmap fst snd]. unfold fact_at. rewrite Ho. rewrite (ids_snoc is_cyclic). done.
Qed.

Lemma facts_yields : yields Intr (tr_for (imap pair spans) (fun acc '(i, span) => analyze_span spans entries states acc i span) no_facts)
  (fun acc => acc = facts_of (imap pair spans)).
Proof.
  apply (yields_for _ _ _ (fun pre acc => acc = facts_of pre)); [done|]. intros pre [i s] post acc Hsplit ->.
  destruct (imap_pair_split _ _ _ _ _ Hsplit) as [-> Hs]. apply analyze_span_yields; [done|].
  apply (f_equal length) in Hsplit. rewrite length_imap, length_app in Hsplit. cbn [length] in Hsplit. pose proof (spans_bound _ Hok) as Hb.
  unfold zlen in *. rewrite length_app. cbn [length]. unfold usize_max, u64_max in *. lia.
Qed.
End loop.
End facts.

(** ** Service edges *)

(** The identity that a name has: no attribute of that name, one with one value, or several. *)
Definition identity_of (o : SpanObservation) (name : bytes) : TraceServiceIdentity :=
  match filter (fun a => namespace a = NsResource /\ text (key a) = name) (so_attributes o) with
  | [] => IdentityMissing
  | a :: rest =>
      match occurrences a with
      | [v] => match value_identity v, rest with IdentityExact _, _ :: _ => IdentityAmbiguous | other, _ => other end
      | _ => IdentityAmbiguous
      end
  end.

(** An edge that gives complete evidence. *)
Definition evident (e : TraceServiceRelationship) : bool :=
  negb (is_none (parent_service e) || is_none (child_service e) || is_present_and_not_exact (parent_namespace_identity e)
        || is_present_and_not_exact (child_namespace_identity e)
        || negb (bool_decide (parent_sampling e = Sampled)) || negb (bool_decide (child_sampling e = Sampled))).

(** The edge from a span to another. *)
Definition edge_of (parent child : LogicalSpan) : option TraceServiceRelationship :=
  po ← scanned_observation <$> structural_representative parent;
  co ← scanned_observation <$> structural_representative child;
  let pi := identity_of po service_name in
  let ci := identity_of co service_name in
  let pn := identity_of po service_namespace in
  let cn := identity_of co service_namespace in
  Some (mkRelationship (ls_span_id parent) (ls_span_id child) (exact pi) (exact ci) (exact pn) (exact cn) (so_sampling po) (so_sampling co) pi ci pn cn).

(** The edges of a trace: one for every span with a parent, in the order of the spans. *)
Definition edges_of (spans : list LogicalSpan) (entries : list SpanIndexEntry) (l : list (nat * LogicalSpan)) : list TraceServiceRelationship :=
  omap (fun '(i, child) => p ← parent_of entries i; parent ← spans !! p; edge_of parent child) l.

Section edges.
Context {S : Type} {Alloc : Allocator S} {Env : ScanEnvironment S} {Cap : QueryCapacity S}.
Context (Intr : TraceStoreFailure -> Prop) {HI : Interrupts S Intr}.

Lemma resource_identity_yields o name : yields Intr (resource_identity o name) (fun r => r = identity_of o name).
Proof.
  unfold resource_identity, identity_of. set (P := fun a => namespace a = NsResource /\ text (key a) = name).
  assert (Hafter : forall l v, yields Intr (resource_identity_from l name (IdentityExact v)) (fun r => r = match filter P l with [] => IdentityExact v | _ => IdentityAmbiguous end)).
  { induction l as [|a l IH]; intros v; cbn [resource_identity_from]; [by apply tr_yields_ret|]. env_step. rewrite filter_cons.
    destruct (decide (P a)) as [[H1 H2]|Hno].
    - rewrite !bool_decide_true by done. cbn [negb orb]. by apply tr_yields_ret.
    - destruct (negb _ || negb _) eqn:E; [apply IH|]. exfalso. apply orb_false_iff in E as [H1%negb_false_iff%bool_decide_eq_true H2%negb_false_iff%bool_decide_eq_true]. by apply Hno. }
  induction (so_attributes o) as [|a l IH]; cbn [resource_identity_from]; [by apply tr_yields_ret|]. env_step. rewrite filter_cons.
  destruct (decide (P a)) as [[H1 H2]|Hno].
  - rewrite !bool_decide_true by done. cbn [negb orb]. unfold set_len, zlen. destruct (occurrences a) as [|v [|w vs]]; cbn [length].
    + by apply tr_yields_ret.
    + cbn [negb Z.of_nat Z.eqb Pos.eqb lookup list_lookup]. destruct (value_identity v) as [|x| | | | |]; try by apply tr_yields_ret.
      eapply yields_mono; [apply Hafter|]. by intros r ->; destruct (filter P l).
    + rewrite (proj2 (Z.eqb_neq _ 1)) by lia. cbn [negb]. by apply tr_yields_ret.
  - destruct (negb _ || negb _) eqn:E; [apply IH|]. exfalso. apply orb_false_iff in E as [H1%negb_false_iff%bool_decide_eq_true H2%negb_false_iff%bool_decide_eq_true]. by apply Hno.
Qed.

Lemma edge_between_yields parent child : is_Some (structural_representative parent) -> is_Some (structural_representative child) ->
  yields Intr (edge_between parent child) (fun '(e, b) => edge_of parent child = Some e /\ b = evident e).
Proof.
  intros [po Hpo] [co Hco]. unfold edge_between. eapply (yields_step _ _ _ (scanned_observation po)); [unfold representative; by rewrite Hpo|].
  eapply (yields_step _ _ _ (scanned_observation co)); [unfold representative; by rewrite Hco|].
  do 4 (eapply tr_yields_bind; [apply resource_identity_yields|]; intros ? ->). apply tr_yields_ret. unfold edge_of. by rewrite Hpo, Hco.
Qed.

Lemma collect_yields spans entries complete : spans_ok spans -> index_right spans entries ->
  yields Intr (collect spans (parent_of entries <$> seq 0 (length spans)) complete)
    (fun r => edges r = edges_of spans entries (imap pair spans) /\ relationships_complete r = complete && forallb evident (edges r)).
Proof.
  intros Hok Hidx. unfold collect. rewrite length_fmap, length_seq, Nat.eqb_refl. cbn [negb]. env_step.
  eapply (tr_yields_bind _ _ _ (fun '(es, b) => es = edges_of spans entries (imap pair spans) /\ b = complete && forallb evident es)).
  2: { intros [es b] [-> ->]. by apply tr_yields_ret. }
  apply (yields_for _ _ _ (fun pre '(es, b) => es = edges_of spans entries pre /\ b = complete && forallb evident es)).
  - split; [done|]. by rewrite andb_true_r.
  - intros pre [i s] post [es b] [-> Hs]%imap_pair_split [-> ->]. env_step.
    eapply (yields_step _ _ _ (parent_of entries (length pre))); [apply at_index_ok; by rewrite list_lookup_fmap, lookup_seq_lt by (by eapply lookup_lt_Some)|].
    unfold edges_of. rewrite omap_app. cbn [omap list_omap]. destruct (parent_of entries (length pre)) as [p|] eqn:Hp; cbn [mbind option_bind].
    2: { apply tr_yields_ret. by rewrite app_nil_r. }
    assert (Hlt : (p < length spans)%nat) by (rewrite (Forall2_length _ _ _ Hidx); by eapply index_parents).
    destruct (lookup_lt_is_Some_2 spans p Hlt) as [ps Hps]. eapply yields_step; [by apply at_index_ok|]. rewrite Hps.
    pose proof (spans_represented _ Hok) as Hrep. rewrite Forall_lookup in Hrep.
    eapply tr_yields_bind; [apply edge_between_yields; by eapply Hrep|]. intros [e b] [He ->]. apply tr_yields_ret. cbn. rewrite He. split; [done|].
    rewrite forallb_app. cbn [forallb]. rewrite andb_true_r, andb_assoc. by destruct (evident e); rewrite ?andb_true_r, ?andb_false_r.
Qed.
End edges.

(** ** A root *)

(** When no span is a member of a cycle, some span has no parent. *)
Lemma root_exists (entries : list SpanIndexEntry) : (forall i p, parent_of entries i = Some p -> (p < length entries)%nat) ->
  (0 < length entries)%nat -> (forall i, (i < length entries)%nat -> ~ on_cycle entries i) -> exists r, (r < length entries)%nat /\ parent_of entries r = None.
Proof.
  intros Hrange Hpos Hacyc. set (n := length entries) in *.
  destruct (decide (Exists (fun i => parent_of entries i = None) (seq 0 n))) as [(r & Hr & Hn)%Exists_exists|Hno].
  { exists r. apply elem_of_seq in Hr. split; [lia|done]. }
  exfalso. rewrite <- Forall_Exists_neg, Forall_forall in Hno.
  assert (Hsome : forall k, exists x, ancestor entries k 0 = Some x /\ (x < n)%nat).
  { induction k as [|k (x & Hx & Hlt)]; [by exists O|]. replace (Datatypes.S k) with (k + 1)%nat by lia. rewrite ancestor_add, Hx. cbn.
    destruct (parent_of entries x) as [p|] eqn:Hp; [exists p; split; [done|by eapply Hrange]|]. exfalso. apply (Hno x); [apply elem_of_seq; lia|done]. }
  set (walk := (fun k => default O (ancestor entries k 0)) <$> seq 0 (Datatypes.S n)).
  assert (Hwalk : forall k x, walk !! k = Some x -> ancestor entries k 0 = Some x /\ (x < n)%nat).
  { intros k x Hk. unfold walk in Hk. rewrite list_lookup_fmap in Hk. destruct (seq 0 (Datatypes.S n) !! k) as [k'|] eqn:E; [|done]. apply lookup_seq in E as [-> _].
    injection Hk as <-. destruct (Hsome k) as (x & Hx & Hlt). by rewrite Hx. }
  assert (Hlt : forall i j x, (i < j)%nat -> walk !! i = Some x -> walk !! j = Some x -> False).
  { intros i j x Hij [Hi Hxn]%Hwalk [Hj _]%Hwalk. apply (Hacyc x Hxn). exists (j - i)%nat. split; [lia|].
    replace j with (i + (j - i))%nat in Hj by lia. by rewrite ancestor_add, Hi in Hj. }
  assert (Hnd : NoDup walk).
  { apply NoDup_alt. intros i j x Hi Hj. destruct (lt_eq_lt_dec i j) as [[H|?]|H]; [|done|]; exfalso; by eapply Hlt. }
  pose proof (nodup_bound walk n Hnd) as Hb. unfold walk in Hb at 2. rewrite length_fmap, length_seq in Hb. cut (Datatypes.S n <= n)%nat; [lia|]. apply Hb.
  intros x [k Hk]%list_elem_of_lookup. by apply Hwalk in Hk as [_ ?].
Qed.

(** ** The analysis *)

Section analysis.
Context {S : Type} {Alloc : Allocator S} {Env : ScanEnvironment S} {Cap : QueryCapacity S} {Lay : TraceLayout} {Summary : Type}.
Context (Intr : TraceStoreFailure -> Prop) {HI : Interrupts S Intr}.

(** What the analysis of the spans says. *)
Record structure_right (input : StructuralInput Summary) (entries : list SpanIndexEntry) (member : nat -> bool) (str : TraceStructure Summary) : Prop := {
  sr_index : index_right (input_spans input) entries;
  sr_member : forall i, (i < length (input_spans input))%nat -> member i = true <-> on_cycle entries i;
  sr_facts : let all := imap pair (input_spans input) in
    facts_of (input_spans input) entries member all =
    mkFacts (facts str) (roots str) (orphans str) (cycles str) (missing_parents (incompleteness str)) (conflicts (incompleteness str))
      (cycle_members (incompleteness str)) (invalid_durations (incompleteness str)) (temporal_inconsistencies (incompleteness str));
  sr_inputs : inc_scan (incompleteness str) = input_scan input /\ inc_filtered (incompleteness str) = input_filtered input /\
    ambiguous_roots (incompleteness str) = (1 <? zlen (roots str)) /\ summary str = input_summary input;
  sr_edges : edges (service_relationships str) = edges_of (input_spans input) entries (imap pair (input_spans input)) /\
    relationships_complete (service_relationships str) = incompleteness_complete (incompleteness str) && forallb evident (edges (service_relationships str));
  sr_path : match structure_critical_path str with
    | Some path => incompleteness_complete (incompleteness str) = true /\
        exists r s, input_spans input !! r = Some s /\ named_parent s = None /\ roots str = [ls_span_id s] /\ path_of (input_spans input) entries r path
    | None => incompleteness_complete (incompleteness str) = false \/ input_spans input = []
    end;
}.

Definition cycle_flag (entries : list SpanIndexEntry) (states : list CycleState) (i : nat) : bool :=
  match parent_of entries i with Some _ => bool_decide (states !! i = Some Cycle) | None => false end.

Lemma cycle_flag_right entries states i : classified entries states -> (i < length entries)%nat -> cycle_flag entries states i = true <-> on_cycle entries i.
Proof.
  intros [Hlen Hst] Hi. destruct (lookup_lt_is_Some_2 states i) as [st Hs]; [lia|]. pose proof (Hst i st Hs) as Hr. unfold cycle_flag.
  destruct (parent_of entries i) as [p|] eqn:Hp.
  - rewrite bool_decide_eq_true, Hs. destruct Hr as [[-> Hc]|[-> Hc]]; split; intros H; done.
  - split; [done|]. intros ([|m] & Hm & Hc); [lia|]. cbn in Hc. by rewrite Hp in Hc.
Qed.

(** A complete trace has one root, its spans have intervals, and children run within their parents. *)
Lemma complete_path_yields spans entries member : spans_ok spans -> index_right spans entries -> spans <> [] ->
  (forall i, (i < length spans)%nat -> member i = true <-> on_cycle entries i) ->
  let all := imap pair spans in
  tally (is_orphan entries) all = 0 -> tally (is_cyclic member) all = 0 -> tally is_untimed all = 0 -> tally (is_outside spans entries) all = 0 ->
  zlen (ids is_root all) <= 1 ->
  yields Intr (critical_path spans entries (ids is_root all)) (fun path => exists p r s, path = Some p /\ spans !! r = Some s /\ named_parent s = None /\
    ids is_root all = [ls_span_id s] /\ path_of spans entries r p).
Proof.
  intros Hok Hidx Hne Hmember all Horph Hcyc Hunt Hout Hroots. pose proof (Forall2_length _ _ _ Hidx) as Hlen.
  assert (Hdur : forall i s, spans !! i = Some s -> exists o a b, structural_representative s = Some o /\ interval_of spans i = Ok (a, b) /\ span_interval o = Some (a, b) /\ b - a <= u64_max).
  { intros i s Hs. pose proof (tally_zero _ _ _ _ Hunt Hs) as Hu. unfold is_untimed in Hu. destruct (structural_representative s) as [o|] eqn:Ho; [|done].
    cbn in Hu. unfold span_duration in Hu. destruct (span_interval o) as [[a b]|] eqn:Hi; [|done]. cbn in Hu.
    destruct ((0 <=? b - a) && (b - a <=? u64_max)) eqn:E; [|done]. apply andb_true_iff in E as [_ E%Z.leb_le].
    exists o, a, b. split; [done|]. split; [|done]. unfold interval_of, at_index, representative. rewrite Hs. cbn. rewrite Ho. cbn. by rewrite Hi. }
  assert (Htimed : forall i, (i < length spans)%nat -> timed spans i).
  { intros i [s Hs]%lookup_lt_is_Some_2. destruct (Hdur i s Hs) as (o & a & b & _ & Hi & _). by eexists. }
  assert (Hnested : nested spans entries).
  { intros c p a b a' b' Hp Hc Hpi. destruct (interval_span _ _ _ Hc) as [s Hs]. destruct (interval_span _ _ _ Hpi) as [t Ht].
    destruct (Hdur c s Hs) as (o & x & y & Ho & Hi & Hsi & _). destruct (Hdur p t Ht) as (o' & x' & y' & Ho' & Hi' & Hsi' & _).
    rewrite Hi in Hc. rewrite Hi' in Hpi. injection Hc as <- <-. injection Hpi as <- <-.
    pose proof (tally_zero _ _ _ _ Hout Hs) as H. unfold is_outside in H. rewrite Hp in H. cbn in H. rewrite Ht in H. unfold interval_at in H. rewrite Ho, Ho' in H. cbn in H.
    rewrite Hsi, Hsi' in H. cbn in H. apply orb_false_iff in H as [H1%Z.ltb_ge H2%Z.ltb_ge]. done. }
  destruct (root_exists entries) as (r & Hr & Hpr).
  { intros i p. by apply index_parents with spans. }
  { rewrite <- Hlen. destruct spans; [done|cbn; lia]. }
  { intros i Hi Hc. destruct (lookup_lt_is_Some_2 spans i) as [s Hs]; [lia|]. pose proof (tally_zero _ _ _ _ Hcyc Hs) as H. unfold is_cyclic in H.
    apply Hmember in Hc; [congruence|lia]. }
  destruct (lookup_lt_is_Some_2 spans r) as [s Hs]; [lia|]. pose proof (tally_zero _ _ _ _ Horph Hs) as Hor. unfold is_orphan in Hor. rewrite Hpr in Hor. cbn in Hor.
  assert (Hnp : named_parent s = None) by (by destruct (named_parent s)).
  assert (Hid : ids is_root all = [ls_span_id s]).
  { assert (Hin : ls_span_id s ∈ ids is_root all).
    { apply list_elem_of_fmap. exists (r, s). split; [done|]. apply list_elem_of_filter. split; [unfold is_root; cbn; by rewrite Hnp|].
      apply list_elem_of_lookup. exists r. unfold all. by rewrite list_lookup_imap, Hs. }
    destruct (ids is_root all) as [|x [|y l]]; [by apply not_elem_of_nil in Hin|by apply list_elem_of_singleton in Hin as ->|].
    unfold zlen in Hroots. cbn in Hroots. lia. }
  rewrite Hid. destruct (Hdur r s Hs) as (o & a & b & _ & Hi & _ & Hmax).
  eapply yields_mono; [by eapply critical_path_yields|]. intros path (p & -> & Hpath). exists p, r, s. done.
Qed.

Lemma parent_indexes_yields entries m : (m <= length entries)%nat ->
  yields Intr (tr_for (seq 0 m) (fun l i => p ← tr_of (parent_index entries i); mret (l ++ [p])) [] : Tr S (list (option nat))) (fun l => l = parent_of entries <$> seq 0 m).
Proof.
  intros Hm. apply (yields_for _ _ _ (fun pre l => l = parent_of entries <$> pre)); [done|]. intros pre i post l [-> Hi]%seq_split ->.
  eapply yields_step; [apply parent_index_ok; lia|]. apply tr_yields_ret. by rewrite fmap_app.
Qed.

Lemma analyze_yields (input : StructuralInput Summary) charge : spans_ok (input_spans input) ->
  structural_charge (length (input_spans input)) (input_retained input) = Ok charge ->
  yields Intr (analyze input) (fun str => exists entries member, structure_right input entries member str).
Proof.
  intros Hok Hcharge. unfold analyze. set (spans := input_spans input) in *. eapply yields_step; [exact Hcharge|]. env_step. do 4 env_step.
  eapply tr_yields_bind; [by apply SpanIndex_build_yields|]. intros entries Hidx. pose proof (Forall2_length _ _ _ Hidx) as Hlen.
  eapply tr_yields_bind; [exact (classify_yields Intr entries (fun i p => index_parents spans entries i p Hidx))|]. intros states Hst. set (member := cycle_flag entries states).
  assert (Hmember : forall i, (i < length spans)%nat -> member i = true <-> on_cycle entries i) by (intros i Hi; apply cycle_flag_right; [done|lia]).
  eapply tr_yields_bind; [by apply (facts_yields spans entries member)|]. intros acc ->. cbv zeta. env_step.
  eapply tr_yields_bind; [apply parent_indexes_yields; lia|]. intros indexes ->. eapply tr_yields_bind; [by apply collect_yields|]. intros rel [Hedges Hcomplete].
  cbn [facts_of acc_spans acc_roots acc_orphans acc_cycles acc_missing acc_conflicts acc_cycle_members acc_durations acc_temporal] in *.
  set (inc := mkIncompleteness _ _ _ _ _ _ _ _) in *.
  destruct (incompleteness_complete inc) eqn:Hc.
  2: { eapply (tr_yields_bind _ _ _ (fun path => path = None)); [by apply tr_yields_ret|]. intros path ->. apply tr_yields_ret. exists entries, member. split; cbn; rewrite ?Hc; auto. }
  destruct (decide (spans = [])) as [Hnil|Hne].
  { rewrite Hnil. cbn [imap ids selected]. eapply (tr_yields_bind _ _ _ (fun path => path = None)); [by apply tr_yields_ret|]. intros path ->. apply tr_yields_ret.
    exists entries, member. split; cbn; rewrite ?Hc; fold spans; rewrite ?Hnil in *; auto. }
  pose proof Hc as Hc'. unfold incompleteness_complete in Hc'. cbn [inc inc_scan missing_parents conflicts cycle_members invalid_durations temporal_inconsistencies inc_filtered ambiguous_roots] in Hc'.
  rewrite !andb_true_iff, !negb_true_iff, !Z.eqb_eq, Z.ltb_ge in Hc'. destruct Hc' as [[[[[[[_ H1] H2] H3] H4] H5] _] H6].
  eapply tr_yields_bind; [by eapply complete_path_yields|]. intros path (p & r & s & -> & Hs & Hnp & Hroots & Hpath). apply tr_yields_ret.
  exists entries, member. split; cbn; rewrite ?Hc; auto. split; [done|]. by exists r, s.
Qed.
End analysis.

(** ** An example *)

Definition span_time (t : Z) : EventTime := mkEventTime (Some (mkUnixNanoseconds t)) Usable (Some t).
Definition sample_details : SpanObservationDetails :=
  mkSpanDetails (sample_text "") 0 (mkSpanStatus StatusOk (sample_text "")) [] [] 0 0 0 (mkSpanResource 0 (sample_text ""))
    (mkSpanScope (sample_text "") (sample_text "") 0 (sample_text "")).
Definition service_attribute (name : string) : AttributeOccurrenceSet := mkOccurrenceSet NsResource (sample_text "service.name") [VString (sample_text name)] 1.

Definition sample_id (i : Z) : bytes := [0; 0; 0; 0; 0; 0; 0; i].

(** A span with one observation. *)
Definition sample_span (id : Z) (parent : option Z) (start stop : Z) (service : string) : LogicalSpan :=
  let o := mkSpanObservation (replicate 16 9) (sample_id id) (sample_id <$> parent) (sample_text "op") (span_time start) (span_time stop)
             [service_attribute service] KindServer Sampled sample_provenance sample_details in
  mkLogicalSpan (replicate 16 9) (sample_id id)
    [mkVariant (mkScannedSpan (mkStoredSpan o (mkIngestTime (mkUnixNanoseconds 0) true)) (mkCommitPosition 1) (mkRecordOrdinal 0)) 1] 1 0.

(** A root with two children, of which the second to end overlaps the first, and a grandchild. *)
Definition sample_trace : list LogicalSpan :=
  [sample_span 1 None 0 100 "web"; sample_span 2 (Some 1) 10 60 "db"; sample_span 3 (Some 1) 50 90 "api"; sample_span 4 (Some 3) 55 80 "db"].

Definition sample_trace_layout : TraceLayout :=
  {| size_structure_span := 24; size_fragment := 24; size_frame := 32; size_index_entry := 24; size_cycle_state := 1; size_child_range := 24;
     size_relationship := 192; size_option_usize := 16; size_relationship_pair := 176; size_trace_incompleteness := 64; size_option_pair_slot := 24 |}.
Definition sample_input (spans : list LogicalSpan) : StructuralInput unit := mkStructuralInput spans tt ScanComplete false 0.

Abbreviation run_analysis spans :=
  (@analyze unit ExactAllocator (QuietEnvironment unit) (AmpleCapacity unit) sample_trace_layout unit (sample_input spans) tt).

Example sample_fragments : (fun str => (fun f => (fragment_span f, fragment_start f, fragment_end f)) <$> default [] (fragments <$> structure_critical_path str)) <$> snd (run_analysis sample_trace)
  = Ok [(sample_id 1, 0, 50); (sample_id 3, 50, 55); (sample_id 4, 55, 80); (sample_id 3, 80, 90); (sample_id 1, 90, 100)].
Proof. vm_compute. reflexivity. Qed.

(** Two spans that name each other, and a third below them. *)
Definition looped_trace : list LogicalSpan :=
  [sample_span 1 (Some 2) 0 100 "web"; sample_span 2 (Some 1) 10 60 "db"; sample_span 3 (Some 2) 20 30 "api"; sample_span 4 (Some 7) 20 30 "api"].

Example looped_facts : (fun str => (cycles str, orphans str, roots str, fact_cycle_member <$> facts str)) <$> snd (run_analysis looped_trace)
  = Ok ([sample_id 1; sample_id 2], [sample_id 4], [], [true; true; false; false]).
Proof. vm_compute. reflexivity. Qed.

(** Sorted identities, checked by neighbours. *)
Fixpoint increasing (l : list bytes) : bool :=
  match l with a :: ((b :: _) as rest) => bool_decide (lex_compare a b = Lt) && increasing rest | _ => true end.

Lemma increasing_sorted l : increasing l = true -> forall i j a b, (i < j)%nat -> l !! i = Some a -> l !! j = Some b -> lex_compare a b = Lt.
Proof.
  induction l as [|x l IH]; intros H i j a b Hij Ha Hb; [done|]. destruct j as [|j]; [lia|]. cbn in Hb.
  destruct l as [|y l]; [done|]. cbn [increasing] in H. apply andb_true_iff in H as [Hxy%bool_decide_eq_true H]. destruct i as [|i].
  - cbn in Ha. injection Ha as <-. destruct j as [|j]; [cbn in Hb; by injection Hb as <-|].
    eapply lex_compare_trans_lt; [exact Hxy|]. apply (IH H 0%nat (Datatypes.S j)); [lia|done|done].
  - apply (IH H i j); [lia|done|done].
Qed.

Lemma checked_spans spans : 2 * zlen spans + 2 <= usize_max -> forallb (fun s => negb (is_none (structural_representative s))) spans = true ->
  increasing (ls_span_id <$> spans) = true -> spans_ok spans.
Proof.
  intros Hb Hr Hs. split; [done| |].
  - apply Forall_forall. intros s Hs'. rewrite forallb_forall in Hr. specialize (Hr s). rewrite <- list_elem_of_In in Hr. specialize (Hr Hs'). by destruct (structural_representative s).
  - intros i j a b Hij Ha Hb'. apply (increasing_sorted _ Hs i j); [done| |]; rewrite list_lookup_fmap, ?Ha, ?Hb'; done.
Qed.

(** ** The theorems *)

Section theorems.
Context {S : Type} {Alloc : Allocator S} {Env : ScanEnvironment S} {Cap : QueryCapacity S} {Lay : TraceLayout} {Summary : Type}.
Context (Intr : TraceStoreFailure -> Prop) {HI : Interrupts S Intr}.

(** C16 (functional). The facts of a trace are exact: every span is reported with the parent it names
    and as a root, as a child or as an orphan according to whether that parent is among the spans;
    it is reported as a member of a cycle exactly when its ancestors lead back to it; the lists of
    roots, orphans and cycles are those spans, and the counters are how many spans have each
    defect. The analysis fails only with a failure of its environment. *)
Theorem trace_facts_are_exact (input : StructuralInput Summary) charge : spans_ok (input_spans input) ->
  structural_charge (length (input_spans input)) (input_retained input) = Ok charge ->
  yields Intr (analyze input) (fun str => exists member,
    let spans := input_spans input in let entries := index_of spans in let all := imap pair spans in
    (forall i, (i < length spans)%nat -> member i = true <-> on_cycle entries i) /\
    facts str = imap (fact_at entries member) spans /\
    roots str = ids is_root all /\ orphans str = ids (is_orphan entries) all /\ cycles str = ids (is_cyclic member) all /\
    incompleteness str = mkIncompleteness (input_scan input) (input_filtered input) (tally (is_orphan entries) all) (tally is_conflicted all)
      (tally (is_cyclic member) all) (tally is_untimed all) (tally (is_outside spans entries) all) (1 <? zlen (roots str))).
Proof.
  intros Hok Hcharge. eapply yields_mono; [by eapply analyze_yields|]. intros str (entries & member & [Hidx Hm Hf (H1 & H2 & H3 & _) _ _]).
  pose proof (index_unique _ _ Hok Hidx) as ->. injection Hf as Hs Hr Ho Hc Hc1 Hc2 Hc3 Hc4 Hc5. exists member. cbv zeta. split; [done|]. split; [by rewrite <- Hs, fmap_imap|].
  repeat (split; [done|]). destruct (incompleteness str); cbn in *. congruence.
Qed.

(** C15 (refinement). The critical path is returned exactly for a complete trace of at least one span.
    It is what the recursive specification blames for the time of the only root, from its end back
    to its start; its fragments are disjoint and tile the interval of the root, and its duration is
    the duration of the root. *)
Theorem critical_path_tiles_the_root (input : StructuralInput Summary) charge : spans_ok (input_spans input) ->
  structural_charge (length (input_spans input)) (input_retained input) = Ok charge ->
  yields Intr (analyze input) (fun str =>
    match structure_critical_path str with
    | Some path => incompleteness_complete (incompleteness str) = true /\
        exists r s start stop own, input_spans input !! r = Some s /\ roots str = [ls_span_id s] /\
          interval_of (input_spans input) r = Ok (start, stop) /\ considered (input_spans input) (index_of (input_spans input)) r own /\
          blames (input_spans input) (index_of (input_spans input)) r stop own (rev (fragments path)) /\
          tiles (fragments path) start stop /\ path_duration path = stop - start
    | None => incompleteness_complete (incompleteness str) = false \/ input_spans input = []
    end).
Proof.
  intros Hok Hcharge. eapply yields_mono; [by eapply analyze_yields|]. intros str (entries & member & [Hidx _ _ _ _ Hpath]). pose proof (index_unique _ _ Hok Hidx) as ->.
  destruct (structure_critical_path str) as [path|]; [|done]. destruct Hpath as (Hc & r & s & Hs & _ & Hroots & start & stop & own & Hp). split; [done|].
  by exists r, s, start, stop, own.
Qed.

(** C27 (functional). The service edges of a trace are its direct parent and child pairs, one for every
    span whose parent is among the spans, with the identities that the resource attributes give:
    exact only when the attribute occurs once with one plain text value. They are called complete
    only when the trace is, and every endpoint has an exact name, no doubtful namespace, and was
    sampled. *)
Theorem service_edges_are_exact (input : StructuralInput Summary) charge : spans_ok (input_spans input) ->
  structural_charge (length (input_spans input)) (input_retained input) = Ok charge ->
  yields Intr (analyze input) (fun str =>
    edges (service_relationships str) = edges_of (input_spans input) (index_of (input_spans input)) (imap pair (input_spans input)) /\
    relationships_complete (service_relationships str) = incompleteness_complete (incompleteness str) && forallb evident (edges (service_relationships str))).
Proof.
  intros Hok Hcharge. eapply yields_mono; [by eapply analyze_yields|]. intros str (entries & member & [Hidx _ _ _ [He Hc] _]). by pose proof (index_unique _ _ Hok Hidx) as ->.
Qed.
End theorems.

(** An environment that does not interrupt gets the result. *)
Lemma quiet_result {A} (m : Tr unit A) (P : A -> Prop) : yields (fun _ => False) m P -> exists a, snd (m tt) = Ok a /\ P a.
Proof. intros H. specialize (H tt). destruct (snd (m tt)) as [a|e]; [by exists a|done]. Qed.

Lemma sample_trace_ok : spans_ok sample_trace.
Proof. apply checked_spans; [done|reflexivity|reflexivity]. Qed.

Lemma looped_trace_ok : spans_ok looped_trace.
Proof. apply checked_spans; [done|reflexivity|reflexivity]. Qed.

Lemma trace_facts_are_exact_witness : exists str, snd (run_analysis looped_trace) = Ok str /\
  exists member, (forall i, (i < 4)%nat -> member i = true <-> on_cycle (index_of looped_trace) i) /\ cycles str = ids (is_cyclic member) (imap pair looped_trace).
Proof.
  pose proof (@trace_facts_are_exact unit ExactAllocator (QuietEnvironment unit) (AmpleCapacity unit) sample_trace_layout unit (fun _ => False) quiet_interrupts
    (sample_input looped_trace) 1572 looped_trace_ok eq_refl) as H.
  destruct (quiet_result _ _ H) as (str & Hrun & member & Hm & _ & _ & _ & Hc & _). exists str. split; [exact Hrun|]. exists member. split; [exact Hm|exact Hc].
Defined.

Lemma critical_path_tiles_the_root_witness : exists str path, snd (run_analysis sample_trace) = Ok str /\ structure_critical_path str = Some path /\
  exists start stop, tiles (fragments path) start stop /\ path_duration path = stop - start.
Proof.
  pose proof (@critical_path_tiles_the_root unit ExactAllocator (QuietEnvironment unit) (AmpleCapacity unit) sample_trace_layout unit (fun _ => False) quiet_interrupts
    (sample_input sample_trace) 1572 sample_trace_ok eq_refl) as H.
  destruct (quiet_result _ _ H) as (str & Hrun & Hp). assert (Hsome : structure_critical_path str <> None).
  { intros E. pose proof sample_fragments as Hf. rewrite Hrun in Hf. cbn in Hf. rewrite E in Hf. discriminate Hf. }
  exists str. destruct (structure_critical_path str) as [path|]; [|contradiction]. exists path. split; [exact Hrun|]. split; [reflexivity|].
  destruct Hp as (_ & r & s & start & stop & own & _ & _ & _ & _ & _ & Ht & Hd). exists start, stop. split; [exact Ht|exact Hd].
Defined.

Lemma service_edges_are_exact_witness : exists str, snd (run_analysis sample_trace) = Ok str /\
  edges (service_relationships str) = edges_of sample_trace (index_of sample_trace) (imap pair sample_trace).
Proof.
  pose proof (@service_edges_are_exact unit ExactAllocator (QuietEnvironment unit) (AmpleCapacity unit) sample_trace_layout unit (fun _ => False) quiet_interrupts
    (sample_input sample_trace) 1572 sample_trace_ok eq_refl) as H.
  destruct (quiet_result _ _ H) as (str & Hrun & He & _). exists str. split; [exact Hrun|exact He].
Defined.
