(* ===== verification/TraceRelationships.v ===== *)
(** Trace store: service relationships of a whole snapshot.

    Models the aggregation of [positron-signals/src/trace_store/relationships.rs]: the traces of a
    scan are analysed one after the other, and their service edges are counted by service pair
    through an open-addressing index of hashes. The hash of a pair is a parameter. *)

From S2P Require Import Prelude Limits Routing SourceTime Values Observe Traversal Validation Occurrences LogCodec TraceModel TraceHeap TraceStructure TraceAnalysis.

(** ** Service pairs *)

(** [positron-signals/src/trace_store/relationships.rs:123-132 TraceServiceIdentityState] The derived
    order is that of the constructors. *)
Inductive TraceServiceIdentityState := StateMissing | StateExact | StateAmbiguous | StateRemoved | StateRedacted | StateTruncated | StateInvalid.
#[global] Instance TraceServiceIdentityState_eq_dec : EqDecision TraceServiceIdentityState.
Proof. solve_decision. Defined.

Definition state_rank (s : TraceServiceIdentityState) : Z :=
  match s with
  | StateMissing => 0 | StateExact => 1 | StateAmbiguous => 2 | StateRemoved => 3 | StateRedacted => 4 | StateTruncated => 5 | StateInvalid => 6
  end.
Definition state_compare (a b : TraceServiceIdentityState) : comparison := Z.compare (state_rank a) (state_rank b).

(** [positron-signals/src/trace_store/relationships.rs:889-899 identity_state] *)
Definition identity_state (i : TraceServiceIdentity) : TraceServiceIdentityState :=
  match i with
  | IdentityMissing => StateMissing
  | IdentityExact _ => StateExact
  | IdentityAmbiguous => StateAmbiguous
  | IdentityRemoved => StateRemoved
  | IdentityRedacted => StateRedacted
  | IdentityTruncated => StateTruncated
  | IdentityInvalid => StateInvalid
  end.

(** The eight fields by which pairs are compared and hashed. *)
Record PairKey := mkPairKey {
  key_parent_service : option bytes;
  key_child_service : option bytes;
  key_parent_namespace : option bytes;
  key_child_namespace : option bytes;
  key_parent_identity : TraceServiceIdentityState;
  key_child_identity : TraceServiceIdentityState;
  key_parent_namespace_identity : TraceServiceIdentityState;
  key_child_namespace_identity : TraceServiceIdentityState;
}.
#[global] Instance PairKey_eq_dec : EqDecision PairKey.
Proof. solve_decision. Defined.

(** [positron-signals/src/trace_store/relationships.rs:726-737 edge_hash] The hash is of these fields. *)
Definition edge_key (e : TraceServiceRelationship) : PairKey :=
  mkPairKey (parent_service e) (child_service e) (parent_service_namespace e) (child_service_namespace e) (identity_state (parent_identity e))
    (identity_state (child_identity e)) (identity_state (parent_namespace_identity e)) (identity_state (child_namespace_identity e)).

(** [Ord] of an [Option<&str>]: nothing comes first. *)
Definition option_compare (a b : option bytes) : comparison :=
  match a, b with None, None => Eq | None, Some _ => Lt | Some _, None => Gt | Some a, Some b => lex_compare a b end.

(** [positron-signals/src/trace_store/relationships.rs:139-153 TraceServiceRelationshipPair] The eight
    fields of the key, the counters and the traces with the capacity of their vector. *)
Record TraceServiceRelationshipPair := mkPair {
  pair_key : PairKey;
  parent_sampling_counts : list Z;
  child_sampling_counts : list Z;
  edge_count : Z;
  trace_ids : list bytes;
  trace_ids_capacity : Z;
}.

(** The fields in their order. *)
Definition compare_pair_keys (a b : PairKey) : comparison :=
  then_with (option_compare (key_parent_service a) (key_parent_service b))
  (then_with (option_compare (key_child_service a) (key_child_service b))
  (then_with (option_compare (key_parent_namespace a) (key_parent_namespace b))
  (then_with (option_compare (key_child_namespace a) (key_child_namespace b))
  (then_with (state_compare (key_parent_identity a) (key_parent_identity b))
  (then_with (state_compare (key_child_identity a) (key_child_identity b))
  (then_with (state_compare (key_parent_namespace_identity a) (key_parent_namespace_identity b))
  (state_compare (key_child_namespace_identity a) (key_child_namespace_identity b)))))))).

(** [positron-signals/src/trace_store/relationships.rs:668-690 TraceServiceRelationshipPair::compare_pair] *)
Definition compare_pair (a b : TraceServiceRelationshipPair) : comparison := compare_pair_keys (pair_key a) (pair_key b).

(** [positron-signals/src/trace_store/relationships.rs:635-666 TraceServiceRelationshipPair::compare_edge] *)
Definition compare_edge (a : TraceServiceRelationshipPair) (e : TraceServiceRelationship) : comparison := compare_pair_keys (pair_key a) (edge_key e).

(** [positron-signals/src/trace_store/relationships.rs:901-907 sampling_key] *)
Definition sampling_key (s : SamplingDecision) : nat := match s with SamplingUnknown => 0 | NotSampled => 1 | Sampled => 2 end%nat.

(** [positron-signals/src/trace_store/relationships.rs:909-913 sampling_counts] *)
Definition sampling_counts (s : SamplingDecision) : list Z := <[sampling_key s := 1]> [0; 0; 0].

(** [positron-signals/src/trace_store/relationships.rs:915-926 record_sampling] *)
Definition record_sampling (counts : list Z) (s : SamplingDecision) : result TraceStoreFailure (list Z) :=
  slot ← at_index counts (sampling_key s);
  n ← ok_or trace_limit_exceeded (checked_add u64_max slot 1);
  Ok (<[sampling_key s := n]> counts).

(** [positron-signals/src/trace_store/relationships.rs:692-698 TraceServiceRelationshipPair::record_sampling] *)
Definition pair_record_sampling (p : TraceServiceRelationshipPair) (e : TraceServiceRelationship) : result TraceStoreFailure TraceServiceRelationshipPair :=
  parents ← record_sampling (parent_sampling_counts p) (parent_sampling e);
  children ← record_sampling (child_sampling_counts p) (child_sampling e);
  Ok (mkPair (pair_key p) parents children (edge_count p) (trace_ids p) (trace_ids_capacity p)).

(** [positron-signals/src/trace_store/relationships.rs:616-633 TraceServiceRelationshipPair::owned_heap_bytes] *)
Definition owned_heap_bytes (e : TraceServiceRelationship) : result TraceStoreFailure Z :=
  try_fold (fun total id => ok_or trace_limit_exceeded (checked_add u64_max total (zlen id))) 0
    (omap id [parent_service e; child_service e; parent_service_namespace e; child_service_namespace e]).

(** [positron-signals/src/trace_store/relationships.rs:701-708 vector_slots_bytes] *)
Definition vector_slots_bytes (size : Z) (capacity : Z) : result TraceStoreFailure Z := ok_or trace_limit_exceeded (checked_mul u64_max capacity size).

(** [positron-signals/src/trace_store/relationships.rs:715-724 pair_index_slots] *)
Definition pair_index_slots (count : nat) : result TraceStoreFailure Z :=
  if (count =? 0)%nat then Ok 1 else
  ok_or trace_limit_exceeded (double ← checked_mul usize_max (Z.of_nat count) 2; checked_next_power_of_two double).

(** [positron-signals/src/trace_store/relationships.rs:326-330 PairIndexSlot] *)
Record PairIndexSlot := mkSlot { slot_hash : Z; slot_pair : nat }.

(** [positron-signals/src/trace_store/relationships.rs:710-713 PairLookup] *)
Record PairLookup := mkLookup { lookup_pair : option nat; lookup_slot : nat }.

(** The keyed hash of the process, a 64-bit number of the eight fields. *)
Class PairHasher := { key_hash : PairKey -> Z; key_hash_range : forall k, 0 <= key_hash k <= u64_max }.

Section find_pair.
Context {S : Type} {Alloc : Allocator S} {Env : ScanEnvironment S}.

(** [positron-signals/src/trace_store/relationships.rs:739-782 find_pair] The slot after the last one is
    the first: the number of slots is a power of two, and the mask one less. *)
Definition find_pair (index : list (option PairIndexSlot)) (pairs : list TraceServiceRelationshipPair) (e : TraceServiceRelationship) (hash : Z) : Tr S PairLookup :=
  mask ← tr_of (ok_or trace_invalid_input (checked_sub (zlen index) 1));
  tr_loop (Datatypes.S (length index)) (fun '(turn, slot_index) =>
    if (length index <=? turn)%nat then tr_fail trace_limit_exceeded else
    _ ← observe;
    slot ← tr_of (at_index index slot_index);
    match slot with
    | None => mret (inr (mkLookup None slot_index))
    | Some slot =>
        same ← (if slot_hash slot =? hash
                then p ← tr_of (at_index pairs (slot_pair slot)); mret (bool_decide (compare_edge p e = Eq))
                else mret false);
        if (same : bool) then mret (inr (mkLookup (Some (slot_pair slot)) slot_index)) else
        next ← tr_of (index_add slot_index 1);
        mret (inl (Datatypes.S turn, Z.to_nat (Z.land (Z.of_nat next) mask)))
    end) (O, Z.to_nat (Z.land hash mask)).

(** [positron-signals/src/trace_store/relationships.rs:841-853 compare_pairs] *)
Definition pair_above (a b : TraceServiceRelationshipPair) : Tr S bool := mret (bool_decide (compare_pair b a = Lt)).

(** [positron-signals/src/trace_store/relationships.rs:809-839 sift_pair_down] *)
Definition sift_pair_down : list TraceServiceRelationshipPair -> nat -> nat -> Tr S (list TraceServiceRelationshipPair) := sift observe (mret tt) pair_above.

(** [positron-signals/src/trace_store/relationships.rs:784-807 sort_pairs_observed] *)
Definition sort_pairs_observed (pairs : list TraceServiceRelationshipPair) : Tr S (list TraceServiceRelationshipPair) := heap_sort observe (mret tt) pair_above pairs.
End find_pair.

(** ** The snapshot *)

(** [positron-signals/src/trace_store/scan.rs:17-24 TraceScan] *)
Record TraceScan := mkTraceScan {
  scan_limit : Z;
  scan_after : option CommitPosition;
  scan_after_record : option (CommitPosition * RecordOrdinal);
  scan_frontier : option CommitPosition;
  scan_scanned_bytes : option Z;
}.

(** [positron-signals/src/trace_store/consolidation.rs:177-186 LogicalTraceScanResult] Its reservation is
    the one of the computation. *)
Record LogicalTraceScanResult := mkLogicalScan {
  logical_spans : list LogicalSpan;
  decoded_observations : Z;
  scan_complete : bool;
  scanned_bytes : Z;
  scanned_bytes_limited : bool;
  retained_size_bytes : Z;
}.

(** [positron-signals/src/trace_store/relationships.rs:207-216 TraceServiceRelationshipTraceIncompleteness] *)
Record TraceServiceRelationshipTraceIncompleteness := mkTraceIncompleteness {
  ti_trace_id : bytes;
  ti_missing_parents : Z;
  ti_conflicts : Z;
  ti_cycle_members : Z;
  ti_invalid_durations : Z;
  ti_temporal_inconsistencies : Z;
  ti_ambiguous_roots : bool;
}.

(** [positron-signals/src/trace_store/relationships.rs:257-262 TraceServiceRelationshipSelection] *)
Record TraceServiceRelationshipSelection := mkSelection {
  after_position : option CommitPosition;
  after_record : option (CommitPosition * RecordOrdinal);
  selected_frontier : CommitPosition;
}.

(** [positron-signals/src/trace_store/relationships.rs:281-285 TraceServiceRelationshipSelection::covers_snapshot] *)
Definition covers_snapshot (s : TraceServiceRelationshipSelection) (frontier : CommitPosition) : bool :=
  is_none (after_position s) && is_none (after_record s) && (position_value (selected_frontier s) =? position_value frontier).

(** [positron-signals/src/trace_store/relationships.rs:289-294 TraceServiceRelationshipSnapshotLimitation] *)
Inductive TraceServiceRelationshipSnapshotLimitation := LimitedByResults | LimitedByScannedBytes | LimitedBySelection.

(** [positron-signals/src/trace_store/relationships.rs:308-324 TraceServiceRelationshipSnapshot] The scope and
    the catalog generation are copied from the snapshot. *)
Record TraceServiceRelationshipSnapshot := mkRelationshipSnapshot {
  pairs : list TraceServiceRelationshipPair;
  selected_range_complete : bool;
  snapshot_complete : bool;
  snapshot_relationships_complete : bool;
  selection : TraceServiceRelationshipSelection;
  snapshot_limitation : option TraceServiceRelationshipSnapshotLimitation;
  scan_incompleteness : TraceIncompleteness;
  incomplete_traces : list TraceServiceRelationshipTraceIncompleteness;
  snapshot_scanned_bytes : Z;
  snapshot_decoded : Z;
  frontier : CommitPosition;
}.

(** What the loop over the traces has: the bytes that are retained, the pairs, the incomplete traces
    and the index. *)
Record Aggregation := mkAggregation {
  agg_retained : Z;
  agg_pairs : list TraceServiceRelationshipPair;
  agg_incomplete : list TraceServiceRelationshipTraceIncompleteness;
  agg_index : list (option PairIndexSlot);
}.

(** The bytes of a trace identity. *)
Definition trace_id_bytes : Z := 16.

Section aggregate.
Context {S : Type} {Alloc : Allocator S} {Env : ScanEnvironment S} {Cap : QueryCapacity S} {Lay : TraceLayout} {Hash : PairHasher}.

(** [positron-signals/src/trace_store/relationships.rs:855-865 reserve_aggregate_growth] *)
Definition reserve_aggregate_growth (additional : Z) : Tr S unit := fun s =>
  match checked_add u64_max (granted_memory s) additional with
  | Some next => resize_capacity (Z.max next 1) s
  | None => (s, Err trace_limit_exceeded)
  end.

(** A vector grows to a capacity of at least [n]. *)
Definition grow (n : nat) : Tr S Z := fun s =>
  let '(s, cap) := try_reserve_exact (Z.of_nat n) s in (s, ok_or trace_resource_exhausted cap).

(** [positron-signals/src/trace_store/relationships.rs:867-878 clone_identity] *)
Definition clone_identity (i : option bytes) : Tr S (option bytes) :=
  match i with None => mret None | Some v => _ ← reserve (length v); mret (Some v) end.

(** [positron-signals/src/trace_store/relationships.rs:596-614 TraceServiceRelationshipPair::from_edge] *)
Definition from_edge (e : TraceServiceRelationship) (trace_id : bytes) : Tr S TraceServiceRelationshipPair :=
  ps ← clone_identity (parent_service e);
  cs ← clone_identity (child_service e);
  pn ← clone_identity (parent_service_namespace e);
  cn ← clone_identity (child_service_namespace e);
  cap ← grow 1;
  mret (mkPair (mkPairKey ps cs pn cn (identity_state (parent_identity e)) (identity_state (child_identity e))
                  (identity_state (parent_namespace_identity e)) (identity_state (child_namespace_identity e)))
          (sampling_counts (parent_sampling e)) (sampling_counts (child_sampling e)) 1 [trace_id] cap).

Definition charge (retained additional : Z) : Tr S Z :=
  _ ← reserve_aggregate_growth additional;
  tr_of (ok_or trace_limit_exceeded (checked_add u64_max retained additional)).

(** [positron-signals/src/trace_store/relationships.rs:505-528 aggregate!] An edge of a pair that is
    already there. *)
Definition count_edge (trace_id : bytes) (retained : Z) (p : TraceServiceRelationshipPair) (e : TraceServiceRelationship)
  : Tr S (Z * TraceServiceRelationshipPair) :=
  count ← tr_of (ok_or trace_limit_exceeded (checked_add u64_max (edge_count p) 1));
  '(retained, ids, cap) ←
    (if bool_decide (last (trace_ids p) = Some trace_id) then mret (retained, trace_ids p, trace_ids_capacity p) else
     '(retained, cap) ←
       (if zlen (trace_ids p) =? trace_ids_capacity p
        then retained ← charge retained trace_id_bytes; cap ← grow (length (trace_ids p) + 1); mret (retained, cap)
        else mret (retained, trace_ids_capacity p));
     mret (retained, trace_ids p ++ [trace_id], cap));
  p ← tr_of (pair_record_sampling (mkPair (pair_key p) (parent_sampling_counts p) (child_sampling_counts p) count ids cap) e);
  mret (retained, p).

(** [positron-signals/src/trace_store/relationships.rs:497-547 aggregate!] One edge of the loop. *)
Definition add_edge (trace_id : bytes) (acc : Aggregation) (e : TraceServiceRelationship) : Tr S Aggregation :=
  _ ← observe;
  let hash := key_hash (edge_key e) in
  lookup ← find_pair (agg_index acc) (agg_pairs acc) e hash;
  match lookup_pair lookup with
  | Some i =>
      p ← tr_of (at_index (agg_pairs acc) i);
      '(retained, p) ← count_edge trace_id (agg_retained acc) p e;
      mret (mkAggregation retained (<[i := p]> (agg_pairs acc)) (agg_incomplete acc) (agg_index acc))
  | None =>
      owned ← tr_of (owned_heap_bytes e);
      additional ← tr_of (ok_or trace_limit_exceeded (checked_add u64_max owned trace_id_bytes));
      retained ← charge (agg_retained acc) additional;
      p ← from_edge e trace_id;
      _ ← tr_of (at_index (agg_index acc) (lookup_slot lookup));
      mret (mkAggregation retained (agg_pairs acc ++ [p]) (agg_incomplete acc)
              (<[lookup_slot lookup := Some (mkSlot hash (length (agg_pairs acc)))]> (agg_index acc)))
  end.

(** The end of the trace that starts at [start]. *)
Definition group_end (spans : list LogicalSpan) (trace_id : bytes) (start : nat) : Tr S nat :=
  tr_loop (Datatypes.S (length spans)) (fun stop =>
    match spans !! stop with
    | Some span =>
        if bool_decide (ls_trace_id span = trace_id) then _ ← observe; stop ← tr_of (index_add stop 1); mret (inl stop) else mret (inr stop)
    | None => mret (inr stop)
    end) start.

Context {Summary : Type} (no_maintenance : Summary).

(** [positron-signals/src/trace_store/relationships.rs:452-549 aggregate!] One trace of the loop, the
    spans from [start] on: its end, and the aggregation after its edges. *)
Definition add_trace (spans : list LogicalSpan) (scan : TraceIncompleteness) (start : nat) (acc : Aggregation) : Tr S (nat * Aggregation) :=
  _ ← observe;
  first ← tr_of (at_index spans start);
  let trace_id := ls_trace_id first in
  stop ← group_end spans trace_id start;
  let group := take (stop - start) (drop start spans) in
  structure ← analyze (mkStructuralInput group no_maintenance scan false (agg_retained acc));
  let inc := incompleteness structure in
  let incomplete := if relationships_complete (service_relationships structure) then agg_incomplete acc else
    agg_incomplete acc ++ [mkTraceIncompleteness trace_id (missing_parents inc) (conflicts inc) (cycle_members inc) (invalid_durations inc)
                             (temporal_inconsistencies inc) (ambiguous_roots inc)] in
  acc ← tr_for (edges (service_relationships structure)) (add_edge trace_id) (mkAggregation (agg_retained acc) (agg_pairs acc) incomplete (agg_index acc));
  mret (stop, acc).

(** [positron-signals/src/trace_store/relationships.rs:402-593 aggregate] Every turn of the loop takes at
    least one span. *)
Definition aggregate (logical : LogicalTraceScanResult) (snapshot_frontier : CommitPosition) (scan : TraceScan) : Tr S TraceServiceRelationshipSnapshot :=
  let spans := logical_spans logical in
  let inc := if scan_complete logical then ScanComplete else if scanned_bytes_limited logical then ScannedBytesLimit else ResultLimit in
  pair_slots ← tr_of (vector_slots_bytes size_relationship_pair (zlen spans));
  incomplete_slots ← tr_of (vector_slots_bytes size_trace_incompleteness (zlen spans));
  index_slots ← tr_of (pair_index_slots (length spans));
  index_bytes ← tr_of (vector_slots_bytes size_option_pair_slot index_slots);
  retained ← tr_of (ok_or trace_limit_exceeded (try_fold_opt (checked_add u64_max) (retained_size_bytes logical) [pair_slots; incomplete_slots; index_bytes]));
  _ ← resize_capacity (Z.max retained 1);
  _ ← reserve (length spans);
  _ ← reserve (length spans);
  _ ← reserve (Z.to_nat index_slots);
  acc ← tr_loop (Datatypes.S (length spans)) (fun '(start, acc) =>
    if (start <? length spans)%nat then next ← add_trace spans inc start acc; mret (inl next) else mret (inr acc))
    (O, mkAggregation retained [] [] (replicate (Z.to_nat index_slots) None));
  retained ← tr_of (ok_or trace_limit_exceeded (checked_sub (agg_retained acc) index_bytes));
  _ ← resize_capacity (Z.max retained 1);
  pairs ← sort_pairs_observed (agg_pairs acc);
  let selection := mkSelection (scan_after scan) (scan_after_record scan) (default snapshot_frontier (scan_frontier scan)) in
  let complete := scan_complete logical in
  let snapshot_complete := complete && covers_snapshot selection snapshot_frontier in
  let limitation :=
    if negb complete then Some (if scanned_bytes_limited logical then LimitedByScannedBytes else LimitedByResults)
    else if negb snapshot_complete then Some LimitedBySelection else None in
  mret (mkRelationshipSnapshot pairs complete snapshot_complete (snapshot_complete && bool_decide (zlen (agg_incomplete acc) = 0)) selection limitation inc
          (agg_incomplete acc) (scanned_bytes logical) (decoded_observations logical) snapshot_frontier).
End aggregate.
