(* ===== verification/TraceAggregate.v ===== *)
(** Trace store: the index of service pairs and what it counts.

    The order of pairs is a total order on their keys. Probing the index finds the pair of an edge
    exactly when there is one, for every hash function, and otherwise an empty slot, because the
    index has more slots than there are pairs. What is counted for a pair is what the edges of its
    key add up to.

    For every hash function, the pairs that [aggregate] returns are those of the service edges of
    the traces, each once and in increasing order, with the number of its edges, their sampling
    decisions and the traces that have one. *)

From Stdlib Require Import Compare_dec Ascii String.
From S2P Require Import Prelude Limits Routing SourceTime Values Observe Traversal Validation Occurrences LogCodec TraceModel TraceHeap TraceStructure TraceCycles TraceAnalysis TraceRelationships TracePath TraceResults.

(** ** The order of pairs *)

(** A comparison that decides a total order. *)
Record order_ok {A} (cmp : A -> A -> comparison) : Prop := {
  order_eq : forall a b, cmp a b = Eq <-> a = b;
  order_antisym : forall a b, cmp b a = CompOpp (cmp a b);
  order_trans : forall a b c, cmp a b = Lt -> cmp b c = Lt -> cmp a c = Lt;
}.

Lemma order_pair {A B} (f : A -> A -> comparison) (g : B -> B -> comparison) : order_ok f -> order_ok g ->
  order_ok (fun x y => then_with (f x.1 y.1) (g x.2 y.2)).
Proof.
  intros [fe fa ft] [ge ga gt]. split.
  - intros [a b] [c d]. cbn. destruct (f a c) eqn:E; cbn.
    + apply fe in E as ->. rewrite ge. split; [by intros ->|by intros [= ->]].
    + split; [done|]. intros [= -> ->]. by rewrite (proj2 (fe c c) eq_refl) in E.
    + split; [done|]. intros [= -> ->]. by rewrite (proj2 (fe c c) eq_refl) in E.
  - intros [a b] [c d]. cbn. rewrite (fa a c), (ga b d). by destruct (f a c).
  - intros [a b] [c d] [x y]. cbn. destruct (f a c) eqn:E1; cbn; [|intros _|done].
    + apply fe in E1 as ->. destruct (f c x); cbn; [apply gt|done|done].
    + destruct (f c x) eqn:E2; cbn; [|intros _|done].
      * apply fe in E2 as ->. by rewrite E1.
      * by rewrite (ft _ _ _ E1 E2).
Qed.

Lemma order_image {A B} (cmp : B -> B -> comparison) (f : A -> B) : order_ok cmp -> (forall a b, f a = f b -> a = b) -> order_ok (fun a b => cmp (f a) (f b)).
Proof.
  intros [He Ha Ht] Hf. split; [|intros a b; apply Ha|intros a b c; apply Ht]. intros a b. rewrite He. split; [apply Hf|by intros ->].
Qed.

Lemma order_option : order_ok option_compare.
Proof.
  split.
  - intros [a|] [b|]; cbn; [|done..]. rewrite lex_compare_eq. split; [by intros ->|by intros [= ->]].
  - intros [a|] [b|]; cbn; [apply lex_compare_antisym|done..].
  - intros [a|] [b|] [c|]; cbn; try done. apply lex_compare_trans_lt.
Qed.

Lemma order_state : order_ok state_compare.
Proof.
  split.
  - intros a b. unfold state_compare. rewrite Z.compare_eq_iff. by destruct a, b.
  - intros a b. apply Z.compare_antisym.
  - intros a b c. unfold state_compare. rewrite !Z.compare_lt_iff. lia.
Qed.

Lemma order_keys : order_ok compare_pair_keys.
Proof.
  pose proof (order_pair _ _ order_option (order_pair _ _ order_option (order_pair _ _ order_option (order_pair _ _ order_option
    (order_pair _ _ order_state (order_pair _ _ order_state (order_pair _ _ order_state order_state))))))) as H.
  refine (order_image _ (fun k => (key_parent_service k, (key_child_service k, (key_parent_namespace k, (key_child_namespace k,
    (key_parent_identity k, (key_child_identity k, (key_parent_namespace_identity k, key_child_namespace_identity k)))))))) H _).
  intros [] []. cbn. congruence.
Qed.

(** ** Probing *)

Section probing.
Context {Hash : PairHasher}.

Definition pair_hash (p : TraceServiceRelationshipPair) : Z := key_hash (pair_key p).

(** The slot of turn [d] for a hash. *)
Definition probe (m : nat) (hash : Z) (d : nat) : nat := Z.to_nat ((hash + Z.of_nat d) mod Z.of_nat m).

(** Every pair is found by probing from its hash through occupied slots; every occupied slot is that
    of a pair; and as many slots are occupied as there are pairs. *)
Record index_ok (index : list (option PairIndexSlot)) (pairs : list TraceServiceRelationshipPair) : Prop := {
  io_size : exists k, 0 <= k /\ Z.of_nat (length index) = 2 ^ k;
  io_keys : NoDup (pair_key <$> pairs);
  io_slots : forall j slot, index !! j = Some (Some slot) -> exists p, pairs !! slot_pair slot = Some p /\ slot_hash slot = pair_hash p;
  io_pairs : forall i p, pairs !! i = Some p -> exists d, (d < length index)%nat /\
    index !! probe (length index) (pair_hash p) d = Some (Some (mkSlot (pair_hash p) i)) /\
    forall d', (d' < d)%nat -> exists slot, index !! probe (length index) (pair_hash p) d' = Some (Some slot);
  io_count : length (omap id index) = length pairs;
}.

Lemma probe_lt m hash d : (0 < m)%nat -> (probe m hash d < m)%nat.
Proof. intros H. unfold probe. pose proof (Z.mod_pos_bound (hash + Z.of_nat d) (Z.of_nat m) ltac:(lia)). lia. Qed.

Lemma probe_first m hash k : 0 <= k -> Z.of_nat m = 2 ^ k -> 0 <= hash -> Z.to_nat (Z.land hash (Z.of_nat m - 1)) = probe m hash 0.
Proof.
  intros Hk Hm Hh. unfold probe. rewrite Z.add_0_r, Hm. f_equal. replace (2 ^ k - 1) with (Z.ones k) by (rewrite Z.ones_equiv; lia).
  by rewrite Z.land_ones.
Qed.

Lemma probe_next m hash k d : 0 <= k -> Z.of_nat m = 2 ^ k ->
  Z.to_nat (Z.land (Z.of_nat (probe m hash d + 1)) (Z.of_nat m - 1)) = probe m hash (Datatypes.S d).
Proof.
  intros Hk Hm. unfold probe. assert (0 < 2 ^ k) by (apply Z.pow_pos_nonneg; lia). rewrite Hm. f_equal.
  replace (2 ^ k - 1) with (Z.ones k) by (rewrite Z.ones_equiv; lia). rewrite Z.land_ones by done.
  pose proof (Z.mod_pos_bound (hash + Z.of_nat d) (2 ^ k) ltac:(lia)). rewrite Nat2Z.inj_add, Z2Nat.id by lia.
  rewrite Z.add_mod_idemp_l by lia. f_equal. lia.
Qed.

(** Probing visits every slot. *)
Lemma probe_onto m hash j : (j < m)%nat -> exists d, (d < m)%nat /\ probe m hash d = j.
Proof.
  intros Hj. exists (Z.to_nat ((Z.of_nat j - hash) mod Z.of_nat m)). pose proof (Z.mod_pos_bound (Z.of_nat j - hash) (Z.of_nat m) ltac:(lia)) as Hb.
  split; [lia|]. unfold probe. rewrite Z2Nat.id by lia. rewrite Z.add_mod_idemp_r by lia. replace (hash + (Z.of_nat j - hash)) with (Z.of_nat j) by lia.
  rewrite Z.mod_small by lia. lia.
Qed.

Lemma all_occupied (index : list (option PairIndexSlot)) : (forall j, (j < length index)%nat -> exists slot, index !! j = Some (Some slot)) -> length (omap id index) = length index.
Proof.
  induction index as [|x index IH]; intros H; [done|]. destruct (H 0%nat) as [slot Hs]; [cbn; lia|]. cbn in Hs. injection Hs as ->. cbn. f_equal. apply IH.
  intros j Hj. apply (H (Datatypes.S j)). cbn. lia.
Qed.

(** What a lookup finds. *)
Definition found (index : list (option PairIndexSlot)) (pairs : list TraceServiceRelationshipPair) (key : PairKey) (l : PairLookup) : Prop :=
  match lookup_pair l with
  | Some i => exists p, pairs !! i = Some p /\ pair_key p = key
  | None => (forall i p, pairs !! i = Some p -> pair_key p <> key) /\
      exists d, (d < length index)%nat /\ lookup_slot l = probe (length index) (key_hash key) d /\ index !! lookup_slot l = Some None /\
        forall d', (d' < d)%nat -> exists slot, index !! probe (length index) (key_hash key) d' = Some (Some slot)
  end.

Section find.
Context {S : Type} {Alloc : Allocator S} {Env : ScanEnvironment S} {Cap : QueryCapacity S}.
Context (Intr : TraceStoreFailure -> Prop) {HI : Interrupts S Intr}.

Lemma find_pair_yields index pairs e : index_ok index pairs -> (length pairs < length index)%nat -> zlen index <= usize_max ->
  yields Intr (find_pair index pairs e (key_hash (edge_key e))) (found index pairs (edge_key e)).
Proof.
  intros [(k & Hk & Hm) Hkeys Hslots Hpairs Hcount] Hroom Hmax. set (m := length index) in *. set (h := key_hash (edge_key e)). pose proof (key_hash_range (edge_key e)) as Hh.
  eapply (yields_step _ _ _ (Z.of_nat m - 1)); [unfold checked_sub, zlen; fold m; by rewrite (proj2 (Z.leb_le 1 _)) by lia|].
  apply (yields_loop _ _ (fun '(turn, j) => (turn <= m)%nat /\ j = probe m h turn /\ forall d, (d < turn)%nat -> exists slot p,
    index !! probe m h d = Some (Some slot) /\ pairs !! slot_pair slot = Some p /\ pair_key p <> edge_key e) (fun '(turn, _) => (m - turn)%nat)).
  - intros [turn j] (Hle & -> & Hbefore). fold m.
    assert (Hlt : (turn < m)%nat).
    { destruct (decide (turn = m)) as [->|]; [|lia]. exfalso. pose proof (all_occupied index) as Hall. fold m in Hall. rewrite Hcount in Hall.
      cut (length pairs = m); [lia|]. apply Hall. intros j Hj. destruct (probe_onto m h j Hj) as (d & Hd & <-). destruct (Hbefore d Hd) as (slot & p & Hs & _). by exists slot. }
    rewrite (proj2 (Nat.leb_gt _ _)) by done. env_step. destruct (lookup_lt_is_Some_2 index (probe m h turn)) as [x Hx]; [by apply probe_lt; lia|].
    eapply yields_step; [by apply at_index_ok|]. destruct x as [slot|].
    + destruct (Hslots _ _ Hx) as (p & Hp & Hhash).
      eapply (tr_yields_bind _ _ _ (fun same => same = bool_decide (pair_key p = edge_key e))).
      { destruct (Z.eqb_spec (slot_hash slot) h) as [Heq|Hne].
        - eapply yields_step; [by apply at_index_ok|]. apply tr_yields_ret. unfold compare_edge. apply bool_decide_ext. apply (order_eq _ order_keys).
        - apply tr_yields_ret. symmetry. apply bool_decide_eq_false. intros Heq. apply Hne. rewrite Hhash. unfold pair_hash. by rewrite Heq. }
      intros same ->. case_bool_decide as Hsame.
      * apply tr_yields_ret. unfold found. cbn [lookup_pair]. by exists p.
      * pose proof (probe_lt m h turn ltac:(lia)). unfold zlen in Hmax. fold m in Hmax.
        eapply yields_step; [apply index_add_ok; lia|]. apply tr_yields_ret. split; [|lia]. split; [lia|]. split; [by eapply probe_next|].
        intros d Hd. destruct (decide (d = turn)) as [->|]; [by exists slot, p|]. apply Hbefore. lia.
    + apply tr_yields_ret. unfold found. cbn [lookup_pair lookup_slot]. fold m h. split.
      * intros i p Hp Heq. destruct (Hpairs i p Hp) as (d & Hd & Hfound & Hocc). unfold pair_hash in Hfound, Hocc. rewrite Heq in Hfound, Hocc. fold h in Hfound, Hocc.
        destruct (lt_eq_lt_dec d turn) as [[Hdt|Hdt]|Hdt].
        -- destruct (Hbefore d Hdt) as (slot & q & Hs & Hq & Hne). rewrite Hfound in Hs. injection Hs as <-. cbn in Hq. congruence.
        -- subst. congruence.
        -- destruct (Hocc turn Hdt) as (slot & Hs). congruence.
      * exists turn. split; [done|]. split; [done|]. split; [done|]. intros d Hd. destruct (Hbefore d Hd) as (slot & p & Hs & _). by exists slot.
  - split; [lia|]. split; [eapply probe_first; [done|done|unfold h; lia]|]. intros; lia.
  - lia.
Qed.
End find.

Lemma occupied_insert (index : list (option PairIndexSlot)) j slot : index !! j = Some None ->
  length (omap id (<[j := Some slot]> index)) = Datatypes.S (length (omap id index)).
Proof.
  revert j. induction index as [|x index IH]; intros [|j] H; try done; cbn in H; [by injection H as ->|].
  cbn [insert list_insert]. destruct x; cbn; by rewrite IH.
Qed.

(** A new pair goes to the slot that the lookup found. *)
Lemma index_insert index pairs p l : index_ok index pairs -> found index pairs (pair_key p) l -> lookup_pair l = None ->
  index_ok (<[lookup_slot l := Some (mkSlot (pair_hash p) (length pairs))]> index) (pairs ++ [p]).
Proof.
  intros [Hsize Hkeys Hslots Hpairs Hcount] Hf Hnone. unfold found in Hf. rewrite Hnone in Hf. destruct Hf as (Hnew & d & Hd & Hslot & Hempty & Hocc).
  set (j := lookup_slot l) in *. pose proof (lookup_lt_Some _ _ _ Hempty) as Hj.
  assert (Hkeep : forall x slot, index !! x = Some (Some slot) -> <[j := Some (mkSlot (pair_hash p) (length pairs))]> index !! x = Some (Some slot)).
  { intros x slot Hx. rewrite list_lookup_insert_ne; [done|]. intros ->. congruence. }
  split; rewrite ?length_insert.
  - done.
  - rewrite fmap_app. apply NoDup_app. split; [done|]. split; [|apply NoDup_singleton]. intros key (q & -> & Hq)%list_elem_of_fmap Hin%list_elem_of_singleton.
    apply list_elem_of_lookup in Hq as [i Hi]. by apply (Hnew i q).
  - intros x slot Hx. destruct (decide (x = j)) as [->|Hne].
    + rewrite list_lookup_insert_eq in Hx by done. injection Hx as <-. exists p. cbn. split; [by apply list_lookup_middle|done].
    + rewrite list_lookup_insert_ne in Hx by done. destruct (Hslots _ _ Hx) as (q & Hq & Hh). exists q. split; [by apply lookup_app_l_Some|done].
  - intros i q [Hq|[Hge Hq]]%lookup_app_Some.
    + destruct (Hpairs i q Hq) as (d' & Hd' & Hfound & Hocc'). exists d'. split; [done|]. split; [by apply Hkeep|].
      intros x Hx. destruct (Hocc' x Hx) as (slot & Hs). exists slot. by apply Hkeep.
    + apply list_lookup_singleton_Some in Hq as [Hi <-]. replace i with (length pairs) by lia. exists d. split; [done|]. fold (pair_hash p) in Hslot, Hocc. rewrite <- Hslot.
      split; [by apply list_lookup_insert_eq|]. intros x Hx. destruct (Hocc x Hx) as (slot & Hs). exists slot. by apply Hkeep.
  - rewrite occupied_insert by done. rewrite length_app, Hcount. cbn [length]. lia.
Qed.

(** A pair that keeps its key keeps its place. *)
Lemma index_update index pairs i p p' : index_ok index pairs -> pairs !! i = Some p -> pair_key p' = pair_key p -> index_ok index (<[i := p']> pairs).
Proof.
  intros [H1 H2 H3 H4 H5] Hi Hk. assert (Hh : pair_hash p' = pair_hash p) by (unfold pair_hash; by rewrite Hk). pose proof (lookup_lt_Some _ _ _ Hi) as Hlt.
  split; [done| | | |by rewrite length_insert].
  - rewrite list_fmap_insert, Hk. rewrite list_insert_id; [done|]. by rewrite list_lookup_fmap, Hi.
  - intros j slot Hj. destruct (H3 j slot Hj) as (q & Hq & Hs). destruct (decide (slot_pair slot = i)) as [Heq|Hne].
    + rewrite Heq in Hq |- *. exists p'. split; [by apply list_lookup_insert_eq|]. rewrite Hs, Hh. f_equal. congruence.
    + exists q. split; [by rewrite list_lookup_insert_ne|done].
  - intros j q Hj. destruct (decide (j = i)) as [->|Hne].
    + rewrite list_lookup_insert_eq in Hj by done. injection Hj as <-. rewrite Hh. by apply H4.
    + rewrite list_lookup_insert_ne in Hj by done. by apply H4.
Qed.
End probing.

(** ** What is to be counted *)

(** The edges in the order in which they are added, with the trace of each. *)
Abbreviation EdgeLog := (list (bytes * TraceServiceRelationship)).

Definition of_key (k : PairKey) (log : EdgeLog) : EdgeLog := filter (fun x => edge_key x.2 = k) log.

Definition sampled_as (side : TraceServiceRelationship -> SamplingDecision) (d : SamplingDecision) (log : EdgeLog) : Z :=
  zlen (filter (fun x => side x.2 = d) log).
Definition sampling_of (side : TraceServiceRelationship -> SamplingDecision) (log : EdgeLog) : list Z :=
  [sampled_as side SamplingUnknown log; sampled_as side NotSampled log; sampled_as side Sampled log].

(** A pair that sums up the edges of its key. *)
Record counted (log : EdgeLog) (p : TraceServiceRelationshipPair) : Prop := {
  cn_some : of_key (pair_key p) log <> [];
  cn_edges : edge_count p = zlen (of_key (pair_key p) log);
  cn_parents : parent_sampling_counts p = sampling_of parent_sampling (of_key (pair_key p) log);
  cn_children : child_sampling_counts p = sampling_of child_sampling (of_key (pair_key p) log);
  cn_traces : trace_ids p = runs (fst <$> of_key (pair_key p) log);
}.

Definition tallied (log : EdgeLog) (pairs : list TraceServiceRelationshipPair) : Prop :=
  Forall (counted log) pairs /\ forall x, x ∈ log -> exists p, p ∈ pairs /\ pair_key p = edge_key x.2.

Lemma of_key_snoc k log x : of_key k (log ++ [x]) = if decide (edge_key x.2 = k) then of_key k log ++ [x] else of_key k log.
Proof. unfold of_key. rewrite filter_app, filter_cons, filter_nil. destruct (decide _); [done|apply app_nil_r]. Qed.

Lemma sampled_snoc side d log x : sampled_as side d (log ++ [x]) = if decide (side x.2 = d) then sampled_as side d log + 1 else sampled_as side d log.
Proof. unfold sampled_as. rewrite filter_app, filter_cons, filter_nil. destruct (decide _); unfold zlen; rewrite length_app; cbn [length]; lia. Qed.

Lemma sampled_bound side d log : 0 <= sampled_as side d log <= zlen log.
Proof. unfold sampled_as, zlen. pose proof (length_filter (fun x : bytes * TraceServiceRelationship => side x.2 = d) log). lia. Qed.

Lemma of_key_bound k log : zlen (of_key k log) <= zlen log.
Proof. unfold of_key, zlen. pose proof (length_filter (fun x : bytes * TraceServiceRelationship => edge_key x.2 = k) log). lia. Qed.

Lemma record_sampling_ok side log x : zlen log + 1 <= u64_max -> record_sampling (sampling_of side log) (side x.2) = Ok (sampling_of side (log ++ [x])).
Proof.
  intros H. unfold record_sampling, at_index, sampling_of. pose proof (sampled_bound side SamplingUnknown log). pose proof (sampled_bound side NotSampled log).
  pose proof (sampled_bound side Sampled log). rewrite !sampled_snoc. destruct (side x.2); cbn; unfold checked_add; rewrite (proj2 (Z.leb_le _ u64_max)) by lia; cbn;
    repeat (rewrite decide_True by done || rewrite decide_False by done); done.
Qed.

Lemma sampling_first side x : sampling_of side [x] = sampling_counts (side x.2).
Proof. unfold sampling_of, sampled_as. cbn. by destruct (side x.2). Qed.

(** Edges of other keys do not count. *)
Lemma counted_other log x p : pair_key p <> edge_key x.2 -> counted log p -> counted (log ++ [x]) p.
Proof. intros Hne [H1 H2 H3 H4 H5]. split; rewrite of_key_snoc, decide_False by congruence; done. Qed.

Lemma tallied_new log pairs x p : tallied log pairs -> (forall q, q ∈ pairs -> pair_key q <> edge_key x.2) -> pair_key p = edge_key x.2 -> counted (log ++ [x]) p ->
  tallied (log ++ [x]) (pairs ++ [p]).
Proof.
  intros [Hc Hall] Hnew Hk Hp. split.
  - apply Forall_app. split; [|by constructor]. rewrite Forall_forall in Hc |- *. intros q Hq. apply counted_other; [by apply Hnew|by apply Hc].
  - intros y [(q & Hq & Hkey)%Hall | ->%list_elem_of_singleton]%elem_of_app; [exists q|exists p]; (split; [apply elem_of_app|done]); [by left|right; by apply list_elem_of_singleton].
Qed.

Lemma tallied_update log pairs x i p p' : tallied log pairs -> NoDup (pair_key <$> pairs) -> pairs !! i = Some p -> pair_key p = edge_key x.2 -> pair_key p' = pair_key p ->
  counted (log ++ [x]) p' -> tallied (log ++ [x]) (<[i := p']> pairs).
Proof.
  intros [Hc Hall] Hnd Hi Hk Hk' Hp. pose proof (lookup_lt_Some _ _ _ Hi) as Hlt. split.
  - apply Forall_lookup. intros j q Hq. destruct (decide (j = i)) as [->|Hne].
    + rewrite list_lookup_insert_eq in Hq by done. by injection Hq as <-.
    + rewrite list_lookup_insert_ne in Hq by done. rewrite Forall_lookup in Hc. apply counted_other; [|by eapply Hc]. intros Hkq. apply Hne.
      apply (NoDup_lookup (pair_key <$> pairs) j i (edge_key x.2)); [done|by rewrite list_lookup_fmap, Hq; cbn; rewrite Hkq|by rewrite list_lookup_fmap, Hi; cbn; rewrite Hk].
  - intros y [(q & Hq & Hkey)%Hall | ->%list_elem_of_singleton]%elem_of_app.
    + apply list_elem_of_lookup in Hq as [j Hj]. destruct (decide (j = i)) as [->|Hne].
      * exists p'. split; [apply list_elem_of_lookup; exists i; by apply list_lookup_insert_eq|congruence].
      * exists q. split; [apply list_elem_of_lookup; exists j; by rewrite list_lookup_insert_ne|done].
    + exists p'. split; [apply list_elem_of_lookup; exists i; by apply list_lookup_insert_eq|congruence].
Qed.

(** The keys of the pairs are among those of the edges, so there are at most as many. *)
Lemma tallied_length log pairs : tallied log pairs -> NoDup (pair_key <$> pairs) -> (length pairs <= length log)%nat.
Proof.
  intros [Hc _] Hnd. rewrite <- (length_fmap pair_key pairs), <- (length_fmap (fun x => edge_key x.2) log). apply submseteq_length, NoDup_submseteq; [done|].
  intros k (p & -> & Hp)%list_elem_of_fmap. rewrite Forall_forall in Hc. pose proof (cn_some _ _ (Hc p Hp)) as Hne.
  destruct (of_key (pair_key p) log) as [|x l] eqn:E; [done|]. assert (Hx : x ∈ of_key (pair_key p) log) by (rewrite E; apply list_elem_of_here).
  apply list_elem_of_filter in Hx as [Hk Hx]. apply list_elem_of_fmap. by exists x.
Qed.

(** ** One edge *)

(** The bytes that a new pair of this edge is charged. *)
Definition owned (e : TraceServiceRelationship) : Z :=
  Prelude.zsum zlen (omap id [parent_service e; child_service e; parent_service_namespace e; child_service_namespace e]).
Definition edge_bytes (e : TraceServiceRelationship) : Z := owned e + trace_id_bytes.

Lemma owned_nonneg e : 0 <= owned e.
Proof. apply zsum_nonneg. intros x _. apply zlen_nonneg. Qed.

Lemma fold_lengths (l : list bytes) acc : 0 <= acc -> acc + Prelude.zsum zlen l <= u64_max ->
  try_fold (fun total id => ok_or trace_limit_exceeded (checked_add u64_max total (zlen id))) acc l = Ok (acc + Prelude.zsum zlen l).
Proof.
  revert acc. induction l as [|x l IH]; intros acc H0 H; [unfold Prelude.zsum; cbn [try_fold foldr]; f_equal; lia|]. rewrite zsum_cons in H |- *. cbn [try_fold].
  pose proof (zlen_nonneg x). assert (0 <= Prelude.zsum zlen l) by (apply zsum_nonneg; intros y _; apply zlen_nonneg).
  unfold checked_add. rewrite (proj2 (Z.leb_le _ u64_max)) by lia. cbn [ok_or]. rewrite IH by lia. f_equal. lia.
Qed.

Lemma owned_ok e : owned e <= u64_max -> owned_heap_bytes e = Ok (owned e).
Proof. intros H. unfold owned_heap_bytes. by rewrite fold_lengths by (unfold owned in H; lia). Qed.

Section edge.
Context {S : Type} {Alloc : Allocator S} {Env : ScanEnvironment S} {Cap : QueryCapacity S} {Lay : TraceLayout} {Hash : PairHasher}.
Context (Intr : TraceStoreFailure -> Prop) {HI : Interrupts S Intr}.

(** No edge is charged more than [B], and that much fits beside what is granted. *)
Context (B : Z).
Hypothesis granted_room : forall s, 0 <= granted_memory s /\ granted_memory s + B <= u64_max.

Lemma charge_yields retained additional : 0 <= retained -> 0 <= additional <= B -> retained + additional <= u64_max ->
  yields Intr (charge retained additional) (fun r => r = retained + additional).
Proof.
  intros H0 Ha Hr. eapply (tr_yields_bind _ _ _ (fun _ => True)).
  - intros s. unfold reserve_aggregate_growth, checked_add. destruct (granted_room s). rewrite (proj2 (Z.leb_le _ u64_max)) by lia. apply resize_interrupts, HI.
  - intros _ _. eapply yields_of; [|done]. unfold checked_add. by rewrite (proj2 (Z.leb_le _ u64_max)) by lia.
Qed.

(** Interruptions of the allocator. *)
Lemma grow_yields n : yields Intr (grow n) (fun _ => True).
Proof.
  intros s. pose proof (reserve_interrupts (Interrupts := HI) Intr n s) as H. unfold grow, reserve in *. destruct (try_reserve_exact (Z.of_nat n) s) as [s' [cap|]]; done.
Qed.

Lemma clone_yields i : yields Intr (clone_identity i) (fun i' => i' = i).
Proof. destruct i as [v|]; [|by apply tr_yields_ret]. unfold clone_identity. env_step. by apply tr_yields_ret. Qed.

Lemma from_edge_yields log e trace_id : of_key (edge_key e) log = [] ->
  yields Intr (from_edge e trace_id) (fun p => pair_key p = edge_key e /\ counted (log ++ [(trace_id, e)]) p).
Proof.
  intros Hnone. do 4 (eapply tr_yields_bind; [apply clone_yields|]; intros ? ->). eapply tr_yields_bind; [apply grow_yields|]. intros cap _. apply tr_yields_ret.
  split; [done|]. set (p := mkPair _ _ _ _ _ _). change (pair_key p) with (edge_key e).
  assert (Hof : of_key (pair_key p) (log ++ [(trace_id, e)]) = [(trace_id, e)]) by (rewrite of_key_snoc, decide_True by done; change (pair_key p) with (edge_key e); by rewrite Hnone).
  split; rewrite Hof; cbn; [done|done|by rewrite sampling_first|by rewrite sampling_first|done].
Qed.

Lemma count_edge_yields log e trace_id retained p : counted log p -> pair_key p = edge_key e -> zlen log + 1 <= u64_max ->
  0 <= retained -> trace_id_bytes <= B -> retained + trace_id_bytes <= u64_max ->
  yields Intr (count_edge trace_id retained p e) (fun '(r, p') => retained <= r <= retained + trace_id_bytes /\ pair_key p' = pair_key p /\ counted (log ++ [(trace_id, e)]) p').
Proof.
  intros [H1 H2 H3 H4 H5] Hk Hlen Hr HB Hmax. pose proof (of_key_bound (pair_key p) log) as Hb. pose proof (zlen_nonneg (of_key (pair_key p) log)).
  assert (Hof : of_key (pair_key p) (log ++ [(trace_id, e)]) = of_key (pair_key p) log ++ [(trace_id, e)]) by (by rewrite of_key_snoc, decide_True).
  eapply (yields_step _ _ _ (edge_count p + 1)); [unfold checked_add; by rewrite (proj2 (Z.leb_le _ u64_max)) by lia|].
  eapply (tr_yields_bind _ _ _ (fun '(r, ids, _) => retained <= r <= retained + trace_id_bytes /\ ids = push_run (trace_ids p) trace_id)).
  - unfold push_run. case_bool_decide; [apply tr_yields_ret; split; [unfold trace_id_bytes; lia|done]|].
    eapply (tr_yields_bind _ _ _ (fun '(r, _) => retained <= r <= retained + trace_id_bytes)).
    + destruct (_ =? _); [|apply tr_yields_ret; unfold trace_id_bytes; lia]. eapply tr_yields_bind; [apply charge_yields; unfold trace_id_bytes in *; lia|]. intros r ->.
      eapply tr_yields_bind; [apply grow_yields|]. intros cap _. apply tr_yields_ret. unfold trace_id_bytes; lia.
    + intros [r cap] Hr'. by apply tr_yields_ret.
  - intros [[r ids] cap] [Hr' ->]. eapply yields_step.
    { unfold pair_record_sampling. cbn [parent_sampling_counts child_sampling_counts]. rewrite H3, H4.
      rewrite (record_sampling_ok parent_sampling _ (trace_id, e)) by lia. cbn [mbind result_bind]. rewrite (record_sampling_ok child_sampling _ (trace_id, e)) by lia. done. }
    apply tr_yields_ret. split; [done|]. cbn [pair_key edge_count trace_ids trace_ids_capacity]. split; [done|]. split; cbn [pair_key edge_count parent_sampling_counts child_sampling_counts trace_ids]; rewrite Hof.
    + by destruct (of_key (pair_key p) log).
    + rewrite zlen_app, H2. done.
    + done.
    + done.
    + rewrite fmap_app. unfold runs. rewrite foldl_app. fold (runs (fst <$> of_key (pair_key p) log)). by rewrite <- H5.
Qed.

(** The aggregation after the edges of [log]. *)
Record aggregated (log : EdgeLog) (acc : Aggregation) : Prop := {
  ag_index : index_ok (agg_index acc) (agg_pairs acc);
  ag_tally : tallied log (agg_pairs acc);
  ag_retained : 0 <= agg_retained acc;
}.

Lemma add_edge_yields log acc e trace_id : aggregated log acc -> (length log < length (agg_index acc))%nat -> zlen (agg_index acc) <= usize_max ->
  trace_id_bytes <= B -> edge_bytes e <= B -> agg_retained acc + B <= u64_max ->
  yields Intr (add_edge trace_id acc e) (fun acc' => aggregated (log ++ [(trace_id, e)]) acc' /\ agg_retained acc <= agg_retained acc' <= agg_retained acc + B /\
    length (agg_index acc') = length (agg_index acc) /\ agg_incomplete acc' = agg_incomplete acc).
Proof.
  intros [Hindex Htally Hr] Hroom Hmax HB He Hfit. pose proof (owned_nonneg e). unfold edge_bytes in He. unfold trace_id_bytes in *.
  pose proof (tallied_length _ _ Htally (io_keys _ _ Hindex)) as Hlen. assert (usize_max = u64_max) by done. unfold zlen in Hmax.
  unfold add_edge. env_step. cbv zeta. eapply tr_yields_bind; [apply find_pair_yields; [done|done|lia|done]|]. intros l Hl.
  destruct (lookup_pair l) as [i|] eqn:Hlook.
  - unfold found in Hl. rewrite Hlook in Hl. destruct Hl as (p & Hp & Hk). pose proof Htally as [Hc _]. rewrite Forall_lookup in Hc.
    eapply yields_step; [by apply at_index_ok|].
    eapply tr_yields_bind; [apply (count_edge_yields log); [by eapply Hc|done|unfold zlen; lia|done|unfold trace_id_bytes; lia|unfold trace_id_bytes; lia]|].
    intros [r p'] (Hr' & Hk' & Hc'). unfold trace_id_bytes in Hr'. apply tr_yields_ret. cbn [agg_retained agg_index agg_incomplete]. split; [|split; [lia|done]].
    split; cbn [agg_retained agg_index agg_pairs]; [|by eapply tallied_update; [done|apply Hindex|done|done|done|done]|lia].
    by eapply index_update.
  - pose proof Hl as Hl'. unfold found in Hl'. rewrite Hlook in Hl'. destruct Hl' as (Hnew & d & _ & _ & Hempty & _).
    assert (Hnone : of_key (edge_key e) log = []).
    { destruct (of_key (edge_key e) log) as [|x rest] eqn:E; [done|]. exfalso. assert (Hx : x ∈ of_key (edge_key e) log) by (rewrite E; apply list_elem_of_here).
      apply list_elem_of_filter in Hx as [Hk Hx]. destruct Htally as [_ Hall]. destruct (Hall x Hx) as (p & Hp & Hkp). apply list_elem_of_lookup in Hp as [j Hj].
      apply (Hnew j p Hj). congruence. }
    eapply yields_step; [apply owned_ok; lia|]. eapply (yields_step _ _ _ (owned e + 16)); [unfold checked_add, trace_id_bytes; by rewrite (proj2 (Z.leb_le _ u64_max)) by lia|].
    eapply tr_yields_bind; [apply charge_yields; lia|]. intros r ->. eapply tr_yields_bind; [by apply (from_edge_yields log)|]. intros p [Hk Hp].
    eapply yields_step; [by apply at_index_ok|]. apply tr_yields_ret. cbn [agg_retained agg_index agg_incomplete]. rewrite length_insert. split; [|split; [lia|done]].
    split; cbn [agg_retained agg_index agg_pairs]; [|apply tallied_new; [done| |done|done]|lia].
    + rewrite <- Hk in Hl |- *. by apply index_insert.
    + intros q [j Hj]%list_elem_of_lookup. by apply (Hnew j q).
Qed.
End edge.

(** ** The sort *)

Section sorting.
Context {S : Type} {Alloc : Allocator S} {Env : ScanEnvironment S} {Cap : QueryCapacity S}.
Context (Intr : TraceStoreFailure -> Prop) {HI : Interrupts S Intr}.

(** Every pair is smaller than the later ones. *)
Definition increasing_pairs (l : list TraceServiceRelationshipPair) : Prop :=
  forall i j a b, (i < j)%nat -> l !! i = Some a -> l !! j = Some b -> compare_pair a b = Lt.

Lemma sort_pairs_yields l : 2 * zlen l + 2 <= usize_max -> NoDup (pair_key <$> l) ->
  yields Intr (sort_pairs_observed l) (fun l' => l' ≡ₚ l /\ increasing_pairs l').
Proof.
  intros Hmax Hnd. destruct order_keys as [Heq Hanti Htrans].
  eapply yields_mono; [apply (heap_sort_yields Intr observe (mret tt) pair_above (fun _ => True) (fun a b => bool_decide (compare_pair b a = Lt)))|].
  - apply observe_interrupts, HI.
  - by apply tr_yields_ret.
  - intros a b _ _. by apply tr_yields_ret.
  - intros a b _ _ H%bool_decide_eq_true. apply bool_decide_eq_false. unfold compare_pair in *. by rewrite Hanti, H.
  - intros a b c _ _ _ H1%bool_decide_eq_false H2%bool_decide_eq_false. apply bool_decide_eq_false. unfold compare_pair in *. intros H.
    destruct (compare_pair_keys (pair_key a) (pair_key b)) eqn:E; [|done|].
    + apply Heq in E. rewrite E in H. done.
    + apply H2. apply (Htrans _ (pair_key a)); [by rewrite Hanti, E|done].
  - done.
  - by apply Forall_true.
  - intros l' [Hp Hs]. split; [done|]. intros i j a b Hij Ha Hb. pose proof (Hs i j a b Hij ltac:(lia) Ha Hb) as H. unfold ge in H. apply bool_decide_eq_false in H.
    unfold compare_pair in *. rewrite Hanti. destruct (compare_pair_keys (pair_key b) (pair_key a)) eqn:E; [|done|done]. exfalso. apply Heq in E.
    assert (Hnd' : NoDup (pair_key <$> l')) by (by rewrite Hp).
    assert (i = j); [|lia]. apply (NoDup_lookup (pair_key <$> l') i j (pair_key a)); [done|by rewrite list_lookup_fmap, Ha|by rewrite list_lookup_fmap, Hb; cbn; rewrite E].
Qed.

Lemma tallied_perm log l l' : l' ≡ₚ l -> tallied log l -> tallied log l'.
Proof. intros Hp [H1 H2]. split; [by rewrite Hp|]. intros x Hx. destruct (H2 x Hx) as (p & Hin & Hk). exists p. by rewrite Hp. Qed.
End sorting.

(** ** Traces *)

(** Consolidated spans, trace by trace. *)
Record traces_ok (traces : list (list LogicalSpan)) : Prop := {
  tr_each : forall t, t ∈ traces -> t <> [] /\ spans_ok t;
  tr_same : forall t s u, t ∈ traces -> s ∈ t -> u ∈ t -> ls_trace_id s = ls_trace_id u;
  tr_apart : forall k t u s v, traces !! k = Some t -> traces !! Datatypes.S k = Some u -> s ∈ t -> v ∈ u -> ls_trace_id s <> ls_trace_id v;
}.

Definition trace_id_of (t : list LogicalSpan) : bytes := default [] (ls_trace_id <$> head t).

(** The edges of a trace, and of traces. *)
Definition trace_log (t : list LogicalSpan) : EdgeLog := (fun e => (trace_id_of t, e)) <$> edges_of t (index_of t) (imap pair t).
Definition log_of (traces : list (list LogicalSpan)) : EdgeLog := concat (trace_log <$> traces).

Lemma omap_length {A B} (f : A -> option B) l : (length (omap f l) <= length l)%nat.
Proof. induction l as [|x l IH]; cbn; [lia|]. destruct (f x); cbn; lia. Qed.

Lemma trace_log_length t : (length (trace_log t) <= length t)%nat.
Proof. unfold trace_log, edges_of. rewrite length_fmap. etrans; [apply omap_length|]. by rewrite length_imap. Qed.

Lemma log_length traces : (length (log_of traces) <= length (concat traces))%nat.
Proof.
  induction traces as [|t traces IH]; [done|]. unfold log_of in *. cbn [fmap list_fmap concat]. rewrite !length_app. pose proof (trace_log_length t). lia.
Qed.

(** The incomplete trace that a structure reports. *)
Definition incomplete_of {Summary} (t : list LogicalSpan) (str : TraceStructure Summary) : list TraceServiceRelationshipTraceIncompleteness :=
  let inc := incompleteness str in
  if relationships_complete (service_relationships str) then [] else
  [mkTraceIncompleteness (trace_id_of t) (missing_parents inc) (conflicts inc) (cycle_members inc) (invalid_durations inc) (temporal_inconsistencies inc) (ambiguous_roots inc)].

Section traces.
Context {S : Type} {Alloc : Allocator S} {Env : ScanEnvironment S} {Cap : QueryCapacity S} {Lay : TraceLayout} {Hash : PairHasher}.
Context (Intr : TraceStoreFailure -> Prop) {HI : Interrupts S Intr}.
Context {Summary : Type} (no_maintenance : Summary) (scan : TraceIncompleteness).

(** What was said about a trace. *)
Definition analysed (t : list LogicalSpan) (str : TraceStructure Summary) : Prop :=
  exists member retained, structure_right (mkStructuralInput t no_maintenance scan false retained) (index_of t) member str.

Lemma group_end_yields pre t post : 2 * zlen (pre ++ t ++ post) + 2 <= usize_max -> (forall s, s ∈ t -> ls_trace_id s = trace_id_of t) ->
  (forall v, head post = Some v -> ls_trace_id v <> trace_id_of t) ->
  yields Intr (group_end (pre ++ t ++ post) (trace_id_of t) (length pre)) (fun stop => stop = (length pre + length t)%nat).
Proof.
  intros Hmax Hsame Hapart. apply (yields_loop _ _ (fun stop => (length pre <= stop <= length pre + length t)%nat) (fun stop => (length pre + length t - stop)%nat)).
  - intros stop Hstop. rewrite lookup_app_r by lia. destruct (decide (stop < length pre + length t)%nat) as [Hlt|Hge].
    + rewrite lookup_app_l by lia. destruct (lookup_lt_is_Some_2 t (stop - length pre)) as [s Hs]; [lia|]. rewrite Hs.
      rewrite bool_decide_true by (apply Hsame; by eapply list_elem_of_lookup_2). env_step.
      unfold zlen in Hmax. rewrite !length_app in Hmax. eapply yields_step; [apply index_add_ok; lia|]. apply tr_yields_ret. lia.
    + assert (stop = length pre + length t)%nat as -> by lia. rewrite lookup_app_r by lia. replace (length pre + length t - length pre - length t)%nat with 0%nat by lia.
      destruct post as [|v post]; cbn [lookup list_lookup]; [by apply tr_yields_ret|]. rewrite bool_decide_false by (by apply Hapart). by apply tr_yields_ret.
  - lia.
  - rewrite !length_app. lia.
Qed.

(** The bytes that fit: [per] for every span, [B] for every edge, beside [total]. *)
Context (B per : Z).
Hypothesis granted_room : forall s, 0 <= granted_memory s /\ granted_memory s + B <= u64_max.
Hypothesis per_span : per_span_bytes = Some per /\ 0 <= per.
Hypothesis B_room : trace_id_bytes <= B.

Lemma structural_charge_ok n retained : 0 <= retained -> retained + Z.of_nat n * per <= u64_max -> exists c, structural_charge n retained = Ok c.
Proof.
  intros Hr H. destruct per_span as [Hp H0]. unfold structural_charge. rewrite Hp. cbn [ok_or mbind result_bind]. unfold checked_mul, checked_add.
  rewrite (proj2 (Z.leb_le (Z.of_nat n * per) u64_max)) by nia. cbn [ok_or mbind result_bind]. rewrite (proj2 (Z.leb_le (retained + _) u64_max)) by lia. by eexists.
Qed.

(** The edges of one trace. *)
Lemma add_edges_yields trace_id es : forall log acc, aggregated log acc -> (length log + length es <= length (agg_index acc))%nat -> zlen (agg_index acc) <= usize_max ->
  (forall e, e ∈ es -> edge_bytes e <= B) -> agg_retained acc + Z.of_nat (length es) * B <= u64_max ->
  yields Intr (tr_for es (add_edge trace_id) acc) (fun acc' => aggregated (log ++ ((fun e => (trace_id, e)) <$> es)) acc' /\
    agg_retained acc <= agg_retained acc' <= agg_retained acc + Z.of_nat (length es) * B /\
    length (agg_index acc') = length (agg_index acc) /\ agg_incomplete acc' = agg_incomplete acc).
Proof.
  induction es as [|e es IH]; intros log acc Hag Hlen Hmax HB Hfit; cbn [tr_for fmap list_fmap].
  - apply tr_yields_ret. rewrite app_nil_r. cbn [length]. split; [done|]. split; [lia|done].
  - cbn [length] in *. pose proof B_room as HB0. unfold trace_id_bytes in HB0.
    eapply tr_yields_bind; [eapply add_edge_yields; [exact HI|exact granted_room|exact Hag|lia|exact Hmax|exact B_room|apply HB, list_elem_of_here|nia]|].
    intros acc1 (Hag1 & Hr1 & Hl1 & Hi1). eapply yields_mono; [apply (IH (log ++ [(trace_id, e)])); [done| | | |]|].
    + rewrite length_app, Hl1. cbn [length]. lia.
    + unfold zlen in *. by rewrite Hl1.
    + intros e' He'. apply HB. by apply list_elem_of_further.
    + nia.
    + intros acc2 (Hag2 & Hr2 & Hl2 & Hi2). rewrite <- app_assoc in Hag2. split; [done|]. split; [nia|]. split; congruence.
Qed.

Lemma head_same t : t <> [] -> (forall s u, s ∈ t -> u ∈ t -> ls_trace_id s = ls_trace_id u) -> forall s, s ∈ t -> ls_trace_id s = trace_id_of t.
Proof. destruct t as [|x t]; [done|]. intros _ H s Hs. unfold trace_id_of. cbn. apply H; [done|apply list_elem_of_here]. Qed.

(** One trace. *)
Lemma add_trace_yields before t after acc log : traces_ok (before ++ t :: after) -> 2 * zlen (concat (before ++ t :: after)) + 2 <= usize_max ->
  aggregated log acc -> (length log + length t <= length (agg_index acc))%nat -> zlen (agg_index acc) <= usize_max ->
  (forall x, x ∈ trace_log t -> edge_bytes x.2 <= B) -> agg_retained acc + Z.of_nat (length t) * (B + per) <= u64_max ->
  yields Intr (add_trace no_maintenance (concat (before ++ t :: after)) scan (length (concat before)) acc) (fun '(stop, acc') =>
    stop = (length (concat before) + length t)%nat /\ aggregated (log ++ trace_log t) acc' /\
    agg_retained acc <= agg_retained acc' <= agg_retained acc + Z.of_nat (length t) * B /\ length (agg_index acc') = length (agg_index acc) /\
    exists str, analysed t str /\ agg_incomplete acc' = agg_incomplete acc ++ incomplete_of t str).
Proof.
  intros [Heach Hsame Hapart] Hmax Hag Hlen Himax HB Hfit. assert (Hin : t ∈ before ++ t :: after) by (apply elem_of_app; right; apply list_elem_of_here).
  destruct (Heach t Hin) as [Hne Hok]. pose proof (fun s u => Hsame t s u Hin) as Hst. pose proof (head_same t Hne Hst) as Hhead.
  pose proof B_room as HB0. unfold trace_id_bytes in HB0. destruct per_span as [_ Hper]. pose proof (ag_retained _ _ Hag) as Hret.
  rewrite concat_app in Hmax |- *. cbn [concat] in *. env_step. destruct t as [|s t']; [done|]. set (t := s :: t') in *.
  eapply (yields_step _ _ _ s); [apply at_index_ok; rewrite lookup_app_r by lia; by rewrite Nat.sub_diag|]. cbv zeta.
  change (ls_trace_id s) with (trace_id_of t).
  eapply tr_yields_bind; [apply group_end_yields; [exact Hmax|exact Hhead|]|].
  { intros v Hv. destruct after as [|u after]; [done|]. assert (Hu : u ∈ before ++ t :: u :: after) by (apply elem_of_app; right; apply list_elem_of_further, list_elem_of_here).
    destruct (Heach u Hu) as [Hune _]. destruct u as [|w u']; [done|]. cbn in Hv. injection Hv as <-. intros Heq.
    apply (Hapart (length before) t (w :: u') s w); [by apply list_lookup_middle|rewrite lookup_app_r by lia; by replace (Datatypes.S (length before) - length before)%nat with 1%nat by lia| | |done].
    - apply list_elem_of_here.
    - apply list_elem_of_here. }
  intros stop ->. replace (length (concat before) + length t - length (concat before))%nat with (length t) by lia. rewrite drop_app_length, take_app_length.
  destruct (structural_charge_ok (length t) (agg_retained acc) Hret ltac:(nia)) as [c Hc].
  eapply tr_yields_bind; [eapply analyze_yields; [exact HI|exact Hok|exact Hc]|]. intros str (entries & member & Hright).
  pose proof (index_unique _ _ Hok (sr_index _ _ _ _ Hright)) as ->. destruct (sr_edges _ _ _ _ Hright) as [Hedges _]. cbn [input_spans] in Hedges.
  pose proof (trace_log_length t) as Htl. assert (Hes : length (edges (service_relationships str)) = length (trace_log t)) by (unfold trace_log; by rewrite length_fmap, Hedges).
  eapply tr_yields_bind; [apply (add_edges_yields (trace_id_of t) _ log); cbn [agg_index agg_retained]|].
  - by destruct Hag.
  - lia.
  - done.
  - intros e He. rewrite Hedges in He. apply (HB (trace_id_of t, e)). apply list_elem_of_fmap. by exists e.
  - nia.
  - intros acc' (Hag' & Hr' & Hl' & Hi'). cbn [agg_index agg_retained agg_incomplete] in *. apply tr_yields_ret. split; [done|]. rewrite Hedges in Hag'. split; [exact Hag'|].
    split; [nia|]. split; [done|]. exists str. split; [by exists member, (agg_retained acc)|]. rewrite Hi'. unfold incomplete_of.
    destruct (relationships_complete _); [by rewrite app_nil_r|done].
Qed.

(** All traces. *)
Lemma all_traces_yields traces acc0 : traces_ok traces -> 2 * zlen (concat traces) + 2 <= usize_max ->
  aggregated [] acc0 -> agg_incomplete acc0 = [] -> (length (concat traces) <= length (agg_index acc0))%nat -> zlen (agg_index acc0) <= usize_max ->
  (forall x, x ∈ log_of traces -> edge_bytes x.2 <= B) -> agg_retained acc0 + zlen (concat traces) * (B + per) <= u64_max ->
  yields Intr (tr_loop (Datatypes.S (length (concat traces))) (fun '(start, acc) =>
      if (start <? length (concat traces))%nat then next ← add_trace no_maintenance (concat traces) scan start acc; mret (inl next) else mret (inr acc)) (O, acc0))
    (fun acc => aggregated (log_of traces) acc /\ agg_retained acc0 <= agg_retained acc <= agg_retained acc0 + zlen (concat traces) * B /\
      exists strs, Forall2 analysed traces strs /\ agg_incomplete acc = concat (zip_with incomplete_of traces strs)).
Proof.
  intros Hok Hmax Hag0 Hi0 Hroom Himax HB Hfit. pose proof B_room as HB0. unfold trace_id_bytes in HB0. pose proof per_span as [_ Hper]. unfold zlen in *.
  apply (yields_loop _ _ (fun '(start, acc) => exists before after strs, traces = before ++ after /\ start = length (concat before) /\ aggregated (log_of before) acc /\
      agg_retained acc0 <= agg_retained acc <= agg_retained acc0 + Z.of_nat (length (concat before)) * B /\ length (agg_index acc) = length (agg_index acc0) /\
      Forall2 analysed before strs /\ agg_incomplete acc = concat (zip_with incomplete_of before strs)) (fun '(start, _) => (length (concat traces) - start)%nat)).
  - intros [start acc] (before & after & strs & Htr & -> & Hag & Hr & Hl & Hstrs & Hinc).
    assert (Hlen : length (concat traces) = (length (concat before) + length (concat after))%nat) by (by rewrite Htr, concat_app, length_app).
    destruct (Nat.ltb_spec (length (concat before)) (length (concat traces))) as [Hlt|Hge].
    + destruct after as [|t after]; [cbn in Hlen; lia|]. cbn [concat] in Hlen. rewrite length_app in Hlen.
      destruct (tr_each _ Hok t) as [Hne _]; [rewrite Htr; apply elem_of_app; right; apply list_elem_of_here|].
      pose proof (log_length before) as Hll. rewrite Htr at 1.
      eapply tr_yields_bind; [apply (add_trace_yields before t after acc (log_of before)); [by rewrite <- Htr|unfold zlen; by rewrite <- Htr|done|lia|unfold zlen; lia| |nia]|].
      { intros x Hx. apply HB. rewrite Htr. unfold log_of. rewrite fmap_app, concat_app. apply elem_of_app. right. cbn. apply elem_of_app. by left. }
      intros [stop acc'] (-> & Hag' & Hr' & Hl' & str & Hstr & Hinc'). apply tr_yields_ret. split.
      * exists (before ++ [t]), after, (strs ++ [str]). rewrite <- app_assoc. split; [done|]. rewrite !concat_app. cbn [concat]. rewrite app_nil_r, length_app. split; [done|].
        split; [unfold log_of; rewrite fmap_app, concat_app; cbn [fmap list_fmap concat]; by rewrite app_nil_r|]. split; [nia|]. split; [congruence|].
        split; [by apply Forall2_app; [|constructor]|]. rewrite zip_with_app by (by eapply Forall2_length). rewrite concat_app. cbn [zip_with concat]. rewrite app_nil_r. congruence.
      * destruct t; [done|]. cbn [length] in *. lia.
    + apply tr_yields_ret. assert (Hafter : after = []).
      { destruct after as [|t after]; [done|]. destruct (tr_each _ Hok t) as [Hne _]; [rewrite Htr; apply elem_of_app; right; apply list_elem_of_here|].
        cbn [concat] in Hlen. rewrite length_app in Hlen. destruct t; [done|]. cbn [length] in Hlen. lia. }
      subst after. rewrite app_nil_r in Htr. subst before. split; [done|]. split; [lia|]. by exists strs.
  - exists [], traces, []. split; [done|]. split; [done|]. split; [done|]. split; [lia|]. split; [done|]. split; [constructor|done].
  - lia.
Qed.

(** The slots of the index for [n] spans. *)
Definition index_slots (n : Z) : Z := if n =? 0 then 1 else 2 ^ Z.log2_up (2 * n).

(** The memory of an aggregation over [n] spans fits its counters. *)
Record aggregate_fits (n retained : Z) : Prop := {
  af_spans : 2 * n + 2 <= usize_max;
  af_slots : index_slots n <= usize_max;
  af_sizes : 0 <= retained /\ 0 <= size_relationship_pair /\ 0 <= size_trace_incompleteness /\ 0 <= size_option_pair_slot;
  af_total : retained + n * size_relationship_pair + n * size_trace_incompleteness + index_slots n * size_option_pair_slot + n * (B + per) <= u64_max;
}.

Lemma index_slots_ok n : 0 <= n -> n < index_slots n /\ exists k, 0 <= k /\ index_slots n = 2 ^ k.
Proof.
  intros Hn. unfold index_slots. destruct (Z.eqb_spec n 0) as [->|Hne]; [split; [lia|by exists 0]|].
  split; [|exists (Z.log2_up (2 * n)); split; [apply Z.log2_up_nonneg|done]]. pose proof (Z.log2_up_spec (2 * n) ltac:(lia)). lia.
Qed.

Lemma pair_index_slots_ok n : index_slots (Z.of_nat n) <= usize_max -> 2 * Z.of_nat n + 2 <= usize_max -> pair_index_slots n = Ok (index_slots (Z.of_nat n)).
Proof.
  intros H Hmax. unfold pair_index_slots, index_slots in *. destruct (Nat.eqb_spec n 0) as [->|Hne]; [done|]. rewrite (proj2 (Z.eqb_neq _ 0)) in H |- * by lia.
  unfold checked_mul. rewrite (proj2 (Z.leb_le _ usize_max)) by lia. cbn [mbind option_bind]. unfold checked_next_power_of_two. rewrite (Z.mul_comm (Z.of_nat n) 2).
  by rewrite (proj2 (Z.leb_le _ usize_max)).
Qed.

Lemma empty_index m k : 0 <= k -> Z.of_nat m = 2 ^ k -> index_ok (replicate m None) [].
Proof.
  intros Hk Hm. split.
  - exists k. by rewrite length_replicate.
  - constructor.
  - intros j slot [? _]%lookup_replicate. done.
  - done.
  - clear Hm. by induction m.
Qed.
End traces.

(** ** The result *)

Section aggregation.
Context {S : Type} {Alloc : Allocator S} {Env : ScanEnvironment S} {Cap : QueryCapacity S} {Lay : TraceLayout} {Hash : PairHasher}.
Context (Intr : TraceStoreFailure -> Prop) {HI : Interrupts S Intr}.
Context {Summary : Type} (no_maintenance : Summary).

Definition scan_reason (logical : LogicalTraceScanResult) : TraceIncompleteness :=
  if scan_complete logical then ScanComplete else if scanned_bytes_limited logical then ScannedBytesLimit else ResultLimit.

(** C18 (functional). Whatever hash function indexes the service pairs, the pairs that are returned for
    the traces of a scan are exactly those of their direct service edges, each once and in
    increasing order, with the number of its edges, how many were sampled in each way on either
    side, and the traces that have such an edge; a trace whose evidence is not complete is reported
    with its defects. The index never fills up, so the aggregation fails only with a failure of its
    environment. *)
Theorem relationship_pairs_are_exact traces logical frontier scan B per :
  logical_spans logical = concat traces -> traces_ok traces ->
  per_span_bytes = Some per -> 0 <= per -> trace_id_bytes <= B -> (forall x, x ∈ log_of traces -> edge_bytes x.2 <= B) ->
  (forall s, 0 <= granted_memory s /\ granted_memory s + B <= u64_max) -> aggregate_fits B per (zlen (concat traces)) (retained_size_bytes logical) ->
  yields Intr (aggregate no_maintenance logical frontier scan) (fun r =>
    tallied (log_of traces) (pairs r) /\ increasing_pairs (pairs r) /\
    exists strs, Forall2 (analysed no_maintenance (scan_reason logical)) traces strs /\ incomplete_traces r = concat (zip_with incomplete_of traces strs) /\
      (snapshot_relationships_complete r = true <-> snapshot_complete r = true /\ Forall (fun str => relationships_complete (service_relationships str) = true) strs)).
Proof.
  intros Hspans Hok Hper Hper0 HB HBe Hgrant [Hn Hs (Hr & H1 & H2 & H3) Htotal]. set (n := zlen (concat traces)) in *. pose proof (zlen_nonneg (concat traces)) as Hn0. fold n in Hn0.
  unfold trace_id_bytes in HB. destruct (index_slots_ok n Hn0) as (Hroom & k & Hk & Hpow). assert (Hslots : 0 < index_slots n) by lia.
  assert (0 <= n * size_relationship_pair) by nia. assert (0 <= n * size_trace_incompleteness) by nia. assert (0 <= index_slots n * size_option_pair_slot) by nia. assert (0 <= n * (B + per)) by nia.
  assert (Hmul : forall a b, 0 <= a * b <= u64_max -> vector_slots_bytes a b = Ok (b * a)).
  { intros a b Hab. unfold vector_slots_bytes, checked_mul. by rewrite (proj2 (Z.leb_le _ u64_max)) by lia. }
  unfold aggregate. rewrite Hspans. fold n. eapply yields_step; [apply Hmul; lia|]. eapply yields_step; [apply Hmul; lia|].
  eapply yields_step; [apply pair_index_slots_ok; fold (zlen (concat traces)); fold n; lia|]. change (Z.of_nat (length (concat traces))) with n.
  eapply yields_step; [apply Hmul; lia|].
  eapply (yields_step _ _ _ (retained_size_bytes logical + n * size_relationship_pair + n * size_trace_incompleteness + index_slots n * size_option_pair_slot)).
  { cbn [try_fold_opt]. unfold checked_add. rewrite (proj2 (Z.leb_le (retained_size_bytes logical + _) u64_max)) by lia. rewrite (proj2 (Z.leb_le (_ + n * size_trace_incompleteness) u64_max)) by lia.
    by rewrite (proj2 (Z.leb_le _ u64_max)) by lia. }
  env_step. env_step. env_step. env_step. set (m := Z.to_nat (index_slots n)). assert (Hm : Z.of_nat m = index_slots n) by lia.
  set (total := retained_size_bytes logical + _ + _ + _) in *.
  eapply tr_yields_bind.
  { apply (all_traces_yields Intr no_maintenance (scan_reason logical) B per Hgrant (conj Hper Hper0) HB traces); [done|exact Hn| |done| | |exact HBe|cbn [agg_retained]; fold n; lia].
    - split; cbn [agg_index agg_pairs agg_retained]; [apply (empty_index m k); [done|lia]|split; [constructor|by intros x Hx%not_elem_of_nil]|lia].
    - cbn [agg_index]. rewrite length_replicate. unfold n, zlen in *. lia.
    - cbn [agg_index]. unfold zlen. rewrite length_replicate. lia. }
  intros acc ([Hindex Htally _] & Hret & strs & Hstrs & Hinc). cbn [agg_retained] in Hret. fold n in Hret.
  eapply (yields_step _ _ _ (agg_retained acc - index_slots n * size_option_pair_slot)); [unfold checked_sub; by rewrite (proj2 (Z.leb_le _ (agg_retained acc))) by lia|].
  env_step. pose proof (tallied_length _ _ Htally (io_keys _ _ Hindex)) as Hpl. pose proof (log_length traces) as Hll.
  eapply tr_yields_bind; [apply sort_pairs_yields; [done|unfold n, zlen in *; lia|apply Hindex]|]. intros l [Hperm Hinc'].
  apply tr_yields_ret. cbn [pairs incomplete_traces snapshot_complete snapshot_relationships_complete]. split; [by eapply tallied_perm|]. split; [done|].
  exists strs. split; [done|]. split; [done|]. rewrite andb_true_iff, bool_decide_eq_true, Hinc. apply and_iff_compat_l.
  clear -Hstrs. split.
  - intros H%zlen_nil_inv. revert H. induction Hstrs as [|t str traces strs _ _ IH]; cbn [zip_with concat]; [constructor|]. intros [H1 H2]%app_nil. constructor; [|by apply IH].
    unfold incomplete_of in H1. by destruct (relationships_complete _).
  - intros H. induction Hstrs as [|t str traces strs _ _ IH]; [done|]. inversion H; subst. cbn [zip_with concat]. rewrite zlen_app, IH by done. unfold incomplete_of. by rewrite H2.
Qed.
End aggregation.

(** ** An example *)

(** The worst hash function: every pair starts at the same slot. *)
Definition ConstantHasher : PairHasher := {| key_hash := fun _ => 3; key_hash_range := ltac:(intros k; unfold u64_max; lia) |}.

(** A second trace with the same services. *)
Definition other_trace : list LogicalSpan :=
  (fun s => mkLogicalSpan (replicate 16 10) (ls_span_id s) (variants s) (ls_observation_count s) (structural_variant s)) <$> take 3 sample_trace.

Definition sample_scan (spans : list LogicalSpan) : LogicalTraceScanResult := mkLogicalScan spans 7 true 100 false 50.
Definition whole_scan : TraceScan := mkTraceScan 100 None None None None.

Abbreviation run_aggregate spans :=
  (@aggregate unit ExactAllocator (QuietEnvironment unit) (AmpleCapacity unit) sample_trace_layout ConstantHasher unit tt (sample_scan spans) (mkCommitPosition 5) whole_scan tt).

Example sample_pairs : (fun r => ((fun p => (key_child_service (pair_key p), edge_count p, zlen (trace_ids p), child_sampling_counts p)) <$> pairs r, snapshot_relationships_complete r))
    <$> snd (run_aggregate (sample_trace ++ other_trace))
  = Ok ([(Some (bytes_of_string "db"), 1, 1, [0; 0; 1]); (Some (bytes_of_string "api"), 2, 2, [0; 0; 2]); (Some (bytes_of_string "db"), 2, 2, [0; 0; 2])], true).
Proof. vm_compute. reflexivity. Qed.

Lemma sample_traces_ok : traces_ok [sample_trace; other_trace].
Proof.
  assert (H1 : Forall (fun s => ls_trace_id s = replicate 16 9) sample_trace) by (by repeat constructor).
  assert (H2 : Forall (fun s => ls_trace_id s = replicate 16 10) other_trace) by (by repeat constructor).
  rewrite Forall_forall in H1, H2. split.
  - intros t [-> | ->%list_elem_of_singleton]%elem_of_cons; (split; [done|apply checked_spans; [done|reflexivity|reflexivity]]).
  - intros t s u [-> | ->%list_elem_of_singleton]%elem_of_cons Hs Hu; [by rewrite H1, H1|by rewrite H2, H2].
  - intros [|[|k]] t u s v Ht Hu Hs Hv; cbn in Ht, Hu; try done. injection Ht as <-. injection Hu as <-. rewrite (H1 s Hs), (H2 v Hv). done.
Qed.

Lemma relationship_pairs_are_exact_witness : exists r, snd (run_aggregate (concat [sample_trace; other_trace])) = Ok r /\
  tallied (log_of [sample_trace; other_trace]) (pairs r) /\ increasing_pairs (pairs r).
Proof.
  pose proof (@relationship_pairs_are_exact unit ExactAllocator (QuietEnvironment unit) (AmpleCapacity unit) sample_trace_layout ConstantHasher (fun _ => False) quiet_interrupts
    unit tt [sample_trace; other_trace] (sample_scan (concat [sample_trace; other_trace])) (mkCommitPosition 5) whole_scan 100 393 eq_refl sample_traces_ok eq_refl) as H.
  destruct (quiet_result _ _ (H ltac:(lia) ltac:(unfold trace_id_bytes; lia)
    ltac:(apply Forall_forall; assert (Hb : forallb (fun x => edge_bytes x.2 <=? 100) (log_of [sample_trace; other_trace]) = true) by (vm_compute; reflexivity);
          rewrite forallb_forall in Hb; apply Forall_forall; intros x Hx; apply Z.leb_le, Hb, list_elem_of_In, Hx)
    ltac:(intros s; cbn; unfold u64_max; lia) ltac:(split; vm_compute; intuition discriminate))) as (r & Hr & Ht & Hi & _).
  exists r. split; [exact Hr|]. split; [exact Ht|exact Hi].
Defined.
