(* ===== verification/TraceConsolidation.v ===== *)
(** Trace store: consolidation of observations into logical spans.

    Models [positron-signals/src/trace_store/consolidation/entries.rs] and the operations of
    [LogicalSpan] in [consolidation.rs]: the interruptible merge sort, the chunked comparison of
    semantic keys, and the grouping of sorted observations. The semantic keys are those of the
    entries; the bytes come from the trace codec. *)

From S2P Require Import Prelude Limits Routing SourceTime Values Observe Traversal LogCodec TraceModel TraceHeap.

(** ** Order *)

(** [positron-signals/src/trace_store/consolidation/entries.rs:7-10 ConsolidationEntry] *)
Record ConsolidationEntry := mkConsolidationEntry { entry_observation : ScannedSpanObservation; semantic_key : bytes }.

(** [positron-signals/src/trace_store/consolidation/entries.rs:5-5 SEMANTIC_KEY_WORK_CHUNK_BYTES!] *)
Definition SEMANTIC_KEY_WORK_CHUNK_BYTES : nat := 4096.

(** [positron-signals/src/trace_store/consolidation.rs:300-307 physical_order] *)
Definition physical_order (left right : ScannedSpanObservation) : comparison :=
  then_with (Z.compare (position_value (commit_position left)) (position_value (commit_position right)))
    (Z.compare (ordinal_value (record_ordinal left)) (ordinal_value (record_ordinal right))).

Definition entry_span (e : ConsolidationEntry) : SpanObservation := scanned_observation (entry_observation e).

Section consolidation.
Context {S : Type} {Alloc : Allocator S} {Env : ScanEnvironment S}.

(** [positron-signals/src/trace_store/consolidation.rs:309-317 observe_consolidation_unit] *)
Definition observe_consolidation_unit : Tr S unit := _ ← check_cancel; observe_unit.

(** A range of a slice. *)
Definition get_range (l : bytes) (start stop : nat) : result TraceStoreFailure bytes :=
  if ((start <=? stop) && (stop <=? length l))%nat then Ok (take (stop - start) (drop start l)) else Err trace_invalid_input.

(** [positron-signals/src/trace_store/consolidation/entries.rs:263-290 semantic_key_order] A chunk has at least
    one byte, so the shared length bounds the turns. *)
Definition semantic_key_order (left right : bytes) : Tr S comparison :=
  let shared := Nat.min (length left) (length right) in
  tr_loop (Datatypes.S shared) (fun offset =>
    if (offset <? shared)%nat then
      _ ← observe_consolidation_unit;
      stop ← tr_of (stop ← index_add offset SEMANTIC_KEY_WORK_CHUNK_BYTES; Ok (Nat.min stop shared));
      l ← tr_of (get_range left offset stop);
      r ← tr_of (get_range right offset stop);
      match lex_compare l r with Eq => mret (inl stop) | order => mret (inr order) end
    else mret (inr (Nat.compare (length left) (length right)))) O.

(** The order of the identities of two entries. *)
Definition identity_order (left right : ConsolidationEntry) : comparison :=
  then_with (lex_compare (so_trace_id (entry_span left)) (so_trace_id (entry_span right)))
    (lex_compare (so_span_id (entry_span left)) (so_span_id (entry_span right))).

(** [positron-signals/src/trace_store/consolidation/entries.rs:237-261 entry_order] *)
Definition entry_order (left right : ConsolidationEntry) : Tr S comparison :=
  match identity_order left right with
  | Eq =>
      semantic ← semantic_key_order (semantic_key left) (semantic_key right);
      match semantic with
      | Eq => mret (physical_order (entry_observation left) (entry_observation right))
      | order => mret order
      end
  | order => mret order
  end.

(** ** Merge sort *)

(** [positron-signals/src/trace_store/consolidation/entries.rs:179-197 move_entry] *)
Definition move_entry (source destination : list (option ConsolidationEntry)) (input output : nat)
  : result TraceStoreFailure (list (option ConsolidationEntry) * list (option ConsolidationEntry)) :=
  entry ← ok_or trace_invalid_input (mjoin (source !! input));
  slot ← at_index destination output;
  match slot with
  | Some _ => Err trace_invalid_input
  | None => Ok (<[input := None]> source, <[output := Some entry]> destination)
  end.

(** The entry that has not been taken from a place. *)
Definition entry_at (source : list (option ConsolidationEntry)) (i : nat) : result TraceStoreFailure ConsolidationEntry :=
  ok_or trace_invalid_input (mjoin (source !! i)).

(** One of the loops that move what is left of a run: from [input] up to [stop]. *)
Definition drain_run (stop : nat) (source destination : list (option ConsolidationEntry)) (input output : nat)
  : Tr S (list (option ConsolidationEntry) * list (option ConsolidationEntry) * nat) :=
  tr_loop (Datatypes.S (length source)) (fun '(source, destination, input, output) =>
    if (input <? stop)%nat then
      _ ← observe_consolidation_unit;
      '(source, destination) ← tr_of (move_entry source destination input output);
      input ← tr_of (index_add input 1);
      output ← tr_of (index_add output 1);
      mret (inl (source, destination, input, output))
    else mret (inr (source, destination, output))) (source, destination, input, output).

(** [positron-signals/src/trace_store/consolidation/entries.rs:116-177 merge_runs] *)
Definition merge_runs (source destination : list (option ConsolidationEntry)) (start middle stop : nat)
  : Tr S (list (option ConsolidationEntry) * list (option ConsolidationEntry)) :=
  '(source, destination, li, ri, output) ← tr_loop (Datatypes.S (length source)) (fun '(source, destination, li, ri, output) =>
    if ((li <? middle) && (ri <? stop))%nat then
      _ ← observe_consolidation_unit;
      left_entry ← tr_of (entry_at source li);
      right_entry ← tr_of (entry_at source ri);
      order ← entry_order left_entry right_entry;
      '(input, li, ri) ← match order with
        | Gt => next ← tr_of (index_add ri 1); mret (ri, li, next)
        | _ => next ← tr_of (index_add li 1); mret (li, next, ri)
        end;
      '(source, destination) ← tr_of (move_entry source destination input output);
      output ← tr_of (index_add output 1);
      mret (inl (source, destination, li, ri, output))
    else mret (inr (source, destination, li, ri, output))) (source, destination, start, middle, start);
  '(source, destination, output) ← drain_run middle source destination li output;
  '(source, destination, _) ← drain_run stop source destination ri output;
  mret (source, destination).

(** One pass over the runs of a width. The sums saturate in the source, at a number that is no less
    than any length. *)
Definition merge_pass (width : nat) (source destination : list (option ConsolidationEntry))
  : Tr S (list (option ConsolidationEntry) * list (option ConsolidationEntry)) :=
  let n := length source in
  tr_loop (Datatypes.S n) (fun '(source, destination, start) =>
    if (start <? n)%nat then
      let middle := Nat.min (start + width) n in
      let stop := Nat.min (middle + width) n in
      '(source, destination) ← merge_runs source destination start middle stop;
      mret (inl (source, destination, stop))
    else mret (inr (source, destination))) (source, destination, O).

(** [positron-signals/src/trace_store/consolidation/entries.rs:77-114 interruptible_sort] The width doubles at
    every turn. *)
Definition interruptible_sort (entries : list ConsolidationEntry) : Tr S (list (option ConsolidationEntry)) :=
  let n := length entries in
  _ ← reserve n;
  let source := Some <$> entries in
  if (n <? 2)%nat then mret source else
  _ ← reserve n;
  tr_loop (Datatypes.S n) (fun '(source, destination, width) =>
    if (width <? n)%nat then
      '(source, destination) ← merge_pass width source destination;
      width ← tr_of (index_mul width 2);
      mret (inl (destination, source, width))
    else mret (inr source)) (source, replicate n None, 1%nat).

(** ** Grouping *)

(** [positron-signals/src/trace_store/consolidation.rs:77-92 LogicalSpan::new] *)
Definition LogicalSpan_new (o : ScannedSpanObservation) : Tr S LogicalSpan :=
  _ ← reserve 1;
  mret (mkLogicalSpan (so_trace_id (scanned_observation o)) (so_span_id (scanned_observation o)) [mkVariant o 1] 1 0).

(** [positron-signals/src/trace_store/consolidation.rs:94-97 LogicalSpan::has_identity] *)
Definition has_identity (s : LogicalSpan) (o : ScannedSpanObservation) : bool :=
  bool_decide (ls_trace_id s = so_trace_id (scanned_observation o)) && bool_decide (ls_span_id s = so_span_id (scanned_observation o)).

(** [positron-signals/src/trace_store/consolidation.rs:45-51 SpanObservationVariant::record] *)
Definition variant_record (v : SpanObservationVariant) : result TraceStoreFailure SpanObservationVariant :=
  n ← ok_or trace_limit_exceeded (checked_add u64_max (variant_count v) 1);
  Ok (mkVariant (variant_observation v) n).

(** [positron-signals/src/trace_store/consolidation.rs:99-108 LogicalSpan::record_last_variant] *)
Definition record_last_variant (s : LogicalSpan) : result TraceStoreFailure LogicalSpan :=
  count ← ok_or trace_limit_exceeded (checked_add u64_max (ls_observation_count s) 1);
  v ← ok_or trace_invalid_input (last (variants s));
  v ← variant_record v;
  Ok (mkLogicalSpan (ls_trace_id s) (ls_span_id s) (<[(length (variants s) - 1)%nat := v]> (variants s)) count (structural_variant s)).

(** [positron-signals/src/trace_store/consolidation.rs:110-134 LogicalSpan::record_new_variant] *)
Definition record_new_variant (s : LogicalSpan) (o : ScannedSpanObservation) : Tr S LogicalSpan :=
  count ← tr_of (ok_or trace_limit_exceeded (checked_add u64_max (ls_observation_count s) 1));
  let is_earlier := match structural_representative s with Some r => bool_decide (physical_order o r = Lt) | None => false end in
  _ ← reserve (length (variants s) + 1);
  let vs := variants s ++ [mkVariant o 1] in
  mret (mkLogicalSpan (ls_trace_id s) (ls_span_id s) vs count (if is_earlier then (length vs - 1)%nat else structural_variant s)).

(** One entry of the loop: the spans before the last one, the last one and the key of its last
    variant. *)
Definition group_entry (state : list LogicalSpan * option bytes) (entry : option ConsolidationEntry) : Tr S (list LogicalSpan * option bytes) :=
  let '(spans, active_key) := state in
  e ← tr_of (ok_or trace_invalid_input entry);
  _ ← observe_consolidation_unit;
  let same_identity := match last spans with Some s => has_identity s (entry_observation e) | None => false end in
  same_variant ← match same_identity, active_key with
    | true, Some key => order ← semantic_key_order key (semantic_key e); mret (bool_decide (order = Eq))
    | _, _ => mret false
    end;
  if (same_variant : bool) then
    s ← tr_of (ok_or trace_invalid_input (last spans));
    s ← tr_of (record_last_variant s);
    mret (<[(length spans - 1)%nat := s]> spans, active_key)
  else if same_identity then
    s ← tr_of (ok_or trace_invalid_input (last spans));
    s ← record_new_variant s (entry_observation e);
    mret (<[(length spans - 1)%nat := s]> spans, Some (semantic_key e))
  else
    s ← LogicalSpan_new (entry_observation e);
    mret (spans ++ [s], Some (semantic_key e)).

(** [positron-signals/src/trace_store/consolidation/entries.rs:199-235 group_observations] *)
Definition group_observations (entries : list (option ConsolidationEntry)) : Tr S (list LogicalSpan) :=
  _ ← reserve (length entries);
  '(spans, _) ← tr_for entries group_entry ([], None);
  mret spans.

(** [positron-signals/src/trace_store/consolidation.rs:252-253 consolidate!] The entries with their
    semantic keys are sorted and grouped. *)
Definition consolidate_entries (entries : list ConsolidationEntry) : Tr S (list LogicalSpan) :=
  sorted ← interruptible_sort entries;
  group_observations sorted.
End consolidation.
