(* ===== verification/TraceMerge.v ===== *)
(** Trace store: the interruptible merge sort sorts.

    The chunked comparison of semantic keys is the lexicographic one, [merge_runs] merges two
    sorted runs of the source into the destination, and the passes of doubling width sort the
    entries. *)

From Stdlib Require Import Sorted.
From S2P Require Import Prelude Limits Routing SourceTime Values Observe Traversal LogCodec TraceModel TraceHeap TraceStructure TraceCycles TraceRelationships TraceAggregate TraceConsolidation.

(** ** The order of entries *)

(** What entries are compared by. *)
Definition rank (e : ConsolidationEntry) : bytes * (bytes * (bytes * (Z * Z))) :=
  (so_trace_id (entry_span e), (so_span_id (entry_span e), (semantic_key e,
    (position_value (commit_position (entry_observation e)), ordinal_value (record_ordinal (entry_observation e)))))).

Definition rank_compare (x y : bytes * (bytes * (bytes * (Z * Z)))) : comparison :=
  then_with (lex_compare x.1 y.1) (then_with (lex_compare x.2.1 y.2.1) (then_with (lex_compare x.2.2.1 y.2.2.1)
    (then_with (Z.compare x.2.2.2.1 y.2.2.2.1) (Z.compare x.2.2.2.2 y.2.2.2.2)))).

Definition entry_compare (a b : ConsolidationEntry) : comparison := rank_compare (rank a) (rank b).

Lemma order_bytes : order_ok lex_compare.
Proof. split; [apply lex_compare_eq|apply lex_compare_antisym|apply lex_compare_trans_lt]. Qed.

Lemma order_Z : order_ok Z.compare.
Proof. split; [apply Z.compare_eq_iff|apply Z.compare_antisym|]. intros a b c. rewrite !Z.compare_lt_iff. lia. Qed.

Lemma order_rank : order_ok rank_compare.
Proof. exact (order_pair _ _ order_bytes (order_pair _ _ order_bytes (order_pair _ _ order_bytes (order_pair _ _ order_Z order_Z)))). Qed.

(** [a] may come before [b]. *)
Definition le (a b : ConsolidationEntry) : Prop := entry_compare a b <> Gt.

Lemma le_trans a b c : le a b -> le b c -> le a c.
Proof.
  unfold le, entry_compare. destruct order_rank as [He Ha Ht]. intros H1 H2 H3.
  destruct (rank_compare (rank a) (rank b)) eqn:E1; [apply He in E1; rewrite E1 in H3; done| |done].
  destruct (rank_compare (rank b) (rank c)) eqn:E2; [apply He in E2; rewrite <- E2 in H3; congruence| |done].
  rewrite (Ht _ _ _ E1 E2) in H3. done.
Qed.

Lemma gt_le a b : entry_compare a b = Gt -> le b a.
Proof. unfold le, entry_compare. intros H. rewrite (order_antisym _ order_rank), H. done. Qed.

Section order.
Context {S : Type} {Alloc : Allocator S} {Env : ScanEnvironment S} {Cap : QueryCapacity S}.
Context (Intr : TraceStoreFailure -> Prop) {HI : Interrupts S Intr}.

Lemma unit_interrupts : yields Intr observe_consolidation_unit (fun _ => True).
Proof.
  intros s. pose proof (observe_interrupts (Interrupts := HI) Intr s) as H. unfold observe, observe_consolidation_unit in *. unfold mbind, Tr_bind in *.
  destruct (check_cancel s) as [s1 [[]|e]]; [|done]. destruct (observe_unit s1) as [s2 [[]|e]]; done.
Qed.

Ltac unit_step := eapply tr_yields_bind; [apply unit_interrupts|]; intros _ _.

(** A key whose length leaves room for a chunk. *)
Definition key_ok (k : bytes) : Prop := zlen k + Z.of_nat SEMANTIC_KEY_WORK_CHUNK_BYTES <= usize_max.

Lemma get_range_ok l start stop : (start <= stop)%nat -> (stop <= length l)%nat -> get_range l start stop = Ok (take (stop - start) (drop start l)).
Proof. intros H1 H2. unfold get_range. by rewrite (proj2 (Nat.leb_le _ _) H1), (proj2 (Nat.leb_le _ _) H2). Qed.

Lemma lex_compare_same_prefix a x y : lex_compare (a ++ x) (a ++ y) = lex_compare x y.
Proof. rewrite lex_compare_app by done. by rewrite lex_compare_refl. Qed.

Lemma lex_compare_prefix x y : take (Nat.min (length x) (length y)) x = take (Nat.min (length x) (length y)) y -> lex_compare x y = Nat.compare (length x) (length y).
Proof.
  intros H. destruct (Nat.compare_spec (length x) (length y)) as [Heq|Hlt|Hgt].
  - rewrite Heq, Nat.min_id in H. rewrite <- Heq in H at 1. rewrite !firstn_all in H. rewrite H. apply lex_compare_refl.
  - rewrite Nat.min_l in H by lia. rewrite firstn_all in H. rewrite <- (take_drop (length x) y), <- H. rewrite <- (app_nil_r x) at 1. rewrite lex_compare_same_prefix.
    destruct (drop (length x) y) as [|z r] eqn:E; [|done]. apply (f_equal length) in E. rewrite length_drop in E. cbn in E. lia.
  - rewrite Nat.min_r in H by lia. rewrite firstn_all in H. rewrite <- (take_drop (length y) x), H. rewrite <- (app_nil_r y) at 3. rewrite lex_compare_same_prefix.
    destruct (drop (length y) x) as [|z r] eqn:E; [|done]. apply (f_equal length) in E. rewrite length_drop in E. cbn in E. lia.
Qed.

(** Comparing chunk by chunk is comparing. *)
Lemma semantic_key_order_yields l r : key_ok l -> key_ok r -> yields Intr (semantic_key_order l r) (fun c => c = lex_compare l r).
Proof.
  unfold key_ok, zlen. intros Hl Hr. unfold semantic_key_order. set (shared := Nat.min (length l) (length r)).
  assert (Hpos : (0 < SEMANTIC_KEY_WORK_CHUNK_BYTES)%nat) by (unfold SEMANTIC_KEY_WORK_CHUNK_BYTES; lia). set (chunk := SEMANTIC_KEY_WORK_CHUNK_BYTES) in *.
  apply (yields_loop _ _ (fun offset => (offset <= shared)%nat /\ take offset l = take offset r) (fun offset => (shared - offset)%nat)).
  - intros offset [Hle Hsame]. destruct (Nat.ltb_spec offset shared) as [Hlt|Hge].
    + unit_step. set (stop := Nat.min (offset + chunk) shared).
      eapply (yields_step _ _ _ stop); [rewrite index_add_ok by lia; done|]. assert (Hstop : (offset < stop <= shared)%nat) by (unfold stop; lia).
      eapply yields_step; [apply get_range_ok; lia|]. eapply yields_step; [apply get_range_ok; lia|].
      assert (Hcmp : lex_compare l r = then_with (lex_compare (take (stop - offset) (drop offset l)) (take (stop - offset) (drop offset r)))
                       (lex_compare (drop (stop - offset) (drop offset l)) (drop (stop - offset) (drop offset r)))).
      { rewrite <- (take_drop offset l) at 1. rewrite <- (take_drop offset r) at 1. rewrite Hsame, lex_compare_same_prefix.
        rewrite <- (take_drop (stop - offset) (drop offset l)) at 1. rewrite <- (take_drop (stop - offset) (drop offset r)) at 1.
        apply lex_compare_app. rewrite !length_take, !length_drop. lia. }
      destruct (lex_compare (take (stop - offset) (drop offset l)) (take (stop - offset) (drop offset r))) eqn:E; cbn in Hcmp.
      * apply tr_yields_ret. split; [|lia]. split; [lia|]. apply lex_compare_eq in E. replace stop with (offset + (stop - offset))%nat by lia. by rewrite <- !take_take_drop, Hsame, E.
      * by apply tr_yields_ret.
      * by apply tr_yields_ret.
    + apply tr_yields_ret. symmetry. apply lex_compare_prefix. fold shared. by replace shared with offset by lia.
  - split; [lia|]. by rewrite !take_0.
  - lia.
Qed.

Lemma entry_order_yields a b : key_ok (semantic_key a) -> key_ok (semantic_key b) -> yields Intr (entry_order a b) (fun c => c = entry_compare a b).
Proof.
  intros Ha Hb. unfold entry_order, entry_compare, rank_compare, identity_order, physical_order. cbn [rank fst snd].
  destruct (lex_compare (so_trace_id (entry_span a)) _); cbn; [|by apply tr_yields_ret..]. destruct (lex_compare (so_span_id (entry_span a)) _); cbn; [|by apply tr_yields_ret..].
  eapply tr_yields_bind; [by apply semantic_key_order_yields|]. intros c ->. destruct (lex_compare (semantic_key a) _); cbn; by apply tr_yields_ret.
Qed.
End order.

(** One observed unit of work. *)
Ltac unit_turn := eapply tr_yields_bind; [eapply unit_interrupts; eassumption|]; intros _ _.

(** ** Merging *)

Fixpoint merge (l1 : list ConsolidationEntry) : list ConsolidationEntry -> list ConsolidationEntry :=
  fix aux l2 := match l1, l2 with
    | [], _ => l2
    | _, [] => l1
    | a :: l1', b :: l2' => match entry_compare a b with Gt => b :: aux l2' | _ => a :: merge l1' l2 end
    end.

Lemma merge_nil_l l : merge [] l = l.
Proof. by destruct l. Qed.

Lemma merge_nil_r l : merge l [] = l.
Proof. by destruct l. Qed.

Lemma merge_cons a l1 b l2 : merge (a :: l1) (b :: l2) = match entry_compare a b with Gt => b :: merge (a :: l1) l2 | _ => a :: merge l1 (b :: l2) end.
Proof. done. Qed.

Lemma merge_perm l1 : forall l2, merge l1 l2 ≡ₚ l1 ++ l2.
Proof.
  induction l1 as [|a l1 IH1]; intros l2; [by rewrite merge_nil_l|]. induction l2 as [|b l2 IH2]; [by rewrite merge_nil_r, app_nil_r|].
  rewrite merge_cons. destruct (entry_compare a b).
  - cbn. by rewrite IH1.
  - cbn. by rewrite IH1.
  - rewrite IH2. by rewrite Permutation_middle.
Qed.

Lemma merge_sorted l1 : forall l2, StronglySorted le l1 -> StronglySorted le l2 -> StronglySorted le (merge l1 l2).
Proof.
  induction l1 as [|a l1 IH1]; intros l2 H1 H2; [by rewrite merge_nil_l|]. induction l2 as [|b l2 IH2]; [by rewrite merge_nil_r|]. rewrite merge_cons.
  pose proof (StronglySorted_inv H1) as [Hs1 Ha]. pose proof (StronglySorted_inv H2) as [Hs2 Hb].
  assert (Hcase : entry_compare a b = Gt \/ le a b) by (unfold le; destruct (entry_compare a b); auto; right; done).
  assert (Hle : le a b -> StronglySorted le (a :: merge l1 (b :: l2))).
  { intros Hab. constructor; [by apply IH1|]. rewrite merge_perm. apply Forall_app. split; [done|]. constructor; [done|]. eapply Forall_impl; [exact Hb|]. intros x. by apply le_trans. }
  assert (Hgt : entry_compare a b = Gt -> StronglySorted le (b :: merge (a :: l1) l2)).
  { intros Hab%gt_le. constructor; [by apply IH2|]. rewrite merge_perm. apply Forall_app. split; [|done]. constructor; [done|]. eapply Forall_impl; [exact Ha|]. intros x. by apply le_trans. }
  destruct (entry_compare a b) eqn:E; [apply Hle; unfold le; congruence|apply Hle; unfold le; congruence|by apply Hgt].
Qed.

Lemma insert_at {A} (l1 : list A) x y l2 i : i = length l1 -> <[i := y]> (l1 ++ x :: l2) = l1 ++ y :: l2.
Proof. intros ->. rewrite <- (Nat.add_0_r (length l1)), insert_app_r. done. Qed.

(** Moving the next of a run to the next empty place. *)
Lemma move_ok P x Q P' Q' input output : input = length P -> output = length P' ->
  move_entry (P ++ Some x :: Q) (P' ++ None :: Q') input output = Ok (P ++ None :: Q, P' ++ Some x :: Q').
Proof.
  intros -> ->. unfold move_entry, at_index. rewrite !list_lookup_middle by done. cbn. by rewrite !insert_at.
Qed.

Lemma empty_cons {A} n : replicate (Datatypes.S n) (None : option A) = None :: replicate n None.
Proof. done. Qed.

Lemma empty_snoc {A} n (l : list (option A)) : replicate n None ++ None :: l = replicate (Datatypes.S n) None ++ l.
Proof. induction n as [|n IH]; [done|]. cbn. by rewrite IH. Qed.

Section runs.
Context {S : Type} {Alloc : Allocator S} {Env : ScanEnvironment S} {Cap : QueryCapacity S}.
Context (Intr : TraceStoreFailure -> Prop) {HI : Interrupts S Intr}.

Lemma drain_yields P X Q P' Q' stop input output : input = length P -> stop = (length P + length X)%nat -> output = length P' ->
  Z.of_nat (length (P ++ (Some <$> X) ++ Q)) <= usize_max -> Z.of_nat (length P' + length X) <= usize_max ->
  yields Intr (drain_run stop (P ++ (Some <$> X) ++ Q) (P' ++ replicate (length X) None ++ Q') input output)
    (fun '(src, dst, out) => src = P ++ replicate (length X) None ++ Q /\ dst = P' ++ (Some <$> X) ++ Q' /\ out = (length P' + length X)%nat).
Proof.
  intros -> -> -> Hmax Hmax'. unfold drain_run. rewrite !length_app, length_fmap in *.
  apply (yields_loop _ _ (fun '(src, dst, input, output) => exists X1 X2, X = X1 ++ X2 /\ input = (length P + length X1)%nat /\ output = (length P' + length X1)%nat /\
    src = P ++ replicate (length X1) None ++ (Some <$> X2) ++ Q /\ dst = P' ++ (Some <$> X1) ++ replicate (length X2) None ++ Q')
    (fun '(_, _, input, _) => (length P + length X - input)%nat)).
  - intros [[[src dst] input] output] (X1 & X2 & -> & -> & -> & -> & ->). rewrite length_app in *. destruct X2 as [|x X2]; cbn [length] in *.
    + rewrite (proj2 (Nat.ltb_ge _ _)) by lia. apply tr_yields_ret. rewrite !app_nil_r, Nat.add_0_r. done.
    + rewrite (proj2 (Nat.ltb_lt _ _)) by lia. unit_turn. eapply yields_step.
      { cbn [fmap list_fmap]. rewrite empty_cons. rewrite !(app_assoc P), !(app_assoc P'). cbn [app]. rewrite move_ok; [done|rewrite length_app, length_replicate; lia|rewrite length_app, length_fmap; lia]. }
      cbv beta iota. eapply yields_step; [apply index_add_ok; lia|]. eapply yields_step; [apply index_add_ok; lia|]. apply tr_yields_ret. split; [|lia].
      exists (X1 ++ [x]), X2. rewrite <- app_assoc. split; [done|]. rewrite length_app. cbn [length]. split; [lia|]. split; [lia|]. split.
      * rewrite <- app_assoc. f_equal. rewrite empty_snoc. by rewrite Nat.add_1_r.
      * rewrite <- app_assoc, fmap_app, <- app_assoc. done.
  - exists [], X. cbn. rewrite !Nat.add_0_r. done.
  - lia.
Qed.

(** The source while two runs are merged: [i] of the first and [j] of the second have been taken. *)
Definition merging (A : list (option ConsolidationEntry)) (i : nat) (L : list ConsolidationEntry) (j : nat) (R : list ConsolidationEntry) (B : list (option ConsolidationEntry)) :=
  A ++ replicate i None ++ (Some <$> L) ++ replicate j None ++ (Some <$> R) ++ B.

Lemma merging_left A i a L j R B : merging A i (a :: L) j R B = (A ++ replicate i None) ++ Some a :: ((Some <$> L) ++ replicate j None ++ (Some <$> R) ++ B).
Proof. unfold merging. cbn [fmap list_fmap app]. by rewrite !app_assoc. Qed.

Lemma merging_right A i L j b R B : merging A i L j (b :: R) B = (A ++ replicate i None ++ (Some <$> L) ++ replicate j None) ++ Some b :: ((Some <$> R) ++ B).
Proof. unfold merging. cbn [fmap list_fmap app]. by rewrite <- !app_assoc. Qed.

Lemma merging_length A i L j R B : length (merging A i L j R B) = (length A + i + length L + j + length R + length B)%nat.
Proof. unfold merging. rewrite !length_app, !length_fmap, !length_replicate. lia. Qed.

Lemma merging_took_left A i L j R B : (A ++ replicate i None) ++ None :: ((Some <$> L) ++ replicate j None ++ (Some <$> R) ++ B) = merging A (Datatypes.S i) L j R B.
Proof. unfold merging. rewrite <- app_assoc. f_equal. apply empty_snoc. Qed.

Lemma merging_took_right A i L j R B : (A ++ replicate i None ++ (Some <$> L) ++ replicate j None) ++ None :: ((Some <$> R) ++ B) = merging A i L (Datatypes.S j) R B.
Proof. unfold merging. rewrite <- !app_assoc. do 3 f_equal. apply empty_snoc. Qed.

Definition keys_ok (l : list ConsolidationEntry) : Prop := Forall (fun e => key_ok (semantic_key e)) l.

(** The first loop: until one of the runs has been taken. *)
Lemma merge_loop_yields A L0 R0 B A' B' middle stop fuel : length A' = length A -> middle = (length A + length L0)%nat -> stop = (middle + length R0)%nat ->
  keys_ok L0 -> keys_ok R0 -> Z.of_nat (length (merging A 0 L0 0 R0 B)) + 1 <= usize_max -> (length L0 + length R0 < fuel)%nat ->
  yields Intr (tr_loop fuel (fun '(source, destination, li, ri, output) =>
    if ((li <? middle) && (ri <? stop))%nat then
      _ ← observe_consolidation_unit;
      left_entry ← tr_of (entry_at source li);
      right_entry ← tr_of (entry_at source ri);
      order ← entry_order left_entry right_entry;
      '(input, li, ri) ← match order with
        | Gt => next ← tr_of (index_add ri 1); mret (ri, li, next)
        | _ => next ← tr_of (index_add li 1); mret (li, next, ri)
        end;
      '(source, destination) ← tr_of (move_entry source destination input output);
      output ← tr_of (index_add output 1);
      mret (inl (source, destination, li, ri, output))
    else mret (inr (source, destination, li, ri, output)))
    (merging A 0 L0 0 R0 B, A' ++ replicate (length L0 + length R0) None ++ B', length A, middle, length A))
    (fun '(source, destination, li, ri, output) => exists i L j R O, (L = [] \/ R = []) /\ (i + length L = length L0)%nat /\ (j + length R = length R0)%nat /\
      source = merging A i L j R B /\ destination = A' ++ (Some <$> O) ++ replicate (length L + length R) None ++ B' /\
      O ++ merge L R = merge L0 R0 /\ li = (length A + i)%nat /\ ri = (middle + j)%nat /\ output = (length A + length O)%nat).
Proof.
  intros HA -> -> HL0 HR0 Hmax Hfuel. rewrite merging_length in Hmax.
  apply (yields_loop _ _ (fun '(source, destination, li, ri, output) => exists i L j R O, keys_ok L /\ keys_ok R /\ (i + length L = length L0)%nat /\ (j + length R = length R0)%nat /\
      source = merging A i L j R B /\ destination = A' ++ (Some <$> O) ++ replicate (length L + length R) None ++ B' /\
      O ++ merge L R = merge L0 R0 /\ li = (length A + i)%nat /\ ri = (length A + length L0 + j)%nat /\ output = (length A + length O)%nat)
    (fun '(_, _, li, ri, _) => (length A + length L0 - li + (length A + length L0 + length R0 - ri))%nat)).
  - intros [[[[source destination] li] ri] output] (i & L & j & R & O & HL & HR & Hi & Hj & -> & -> & HO & -> & -> & ->).
    assert (Hlen : (length O + (length L + length R) = length L0 + length R0)%nat).
    { apply (f_equal length) in HO. rewrite length_app in HO. rewrite !(Permutation_length (merge_perm _ _)), !length_app in HO. lia. }
    destruct L as [|a L].
    { rewrite (proj2 (Nat.ltb_ge (length A + i) _)) by (cbn in Hi; lia). cbn [andb]. apply tr_yields_ret. exists i, [], j, R, O. by repeat (split; [auto|]). }
    destruct R as [|b R].
    { rewrite (proj2 (Nat.ltb_ge (length A + length L0 + j) _)) by (cbn in Hj; lia). rewrite andb_false_r. apply tr_yields_ret. exists i, (a :: L), j, [], O. by repeat (split; [auto|]). }
    cbn [length] in *. rewrite !(proj2 (Nat.ltb_lt _ _)) by lia. cbn [andb]. unit_turn.
    inversion HL as [|? ? Hka HL']; subst. inversion HR as [|? ? Hkb HR']; subst.
    assert (Hla : merging A i (a :: L) j (b :: R) B !! (length A + i)%nat = Some (Some a)) by (rewrite merging_left; apply list_lookup_middle; rewrite length_app, length_replicate; lia).
    assert (Hlb : merging A i (a :: L) j (b :: R) B !! (length A + length L0 + j)%nat = Some (Some b)).
    { rewrite merging_right. apply list_lookup_middle. rewrite !length_app, length_fmap, !length_replicate. cbn [length]. lia. }
    eapply (yields_step _ _ _ a); [unfold entry_at; by rewrite Hla|]. eapply (yields_step _ _ _ b); [unfold entry_at; by rewrite Hlb|].
    eapply tr_yields_bind; [by apply entry_order_yields|]. intros c ->. rewrite merge_cons in HO.
    assert (Hdst : forall n, A' ++ (Some <$> O) ++ replicate (Datatypes.S n) None ++ B' = (A' ++ (Some <$> O)) ++ None :: (replicate n None ++ B')) by (intros n; by rewrite <- app_assoc).
    assert (Hput : forall x l, (A' ++ (Some <$> O)) ++ Some x :: l = A' ++ (Some <$> (O ++ [x])) ++ l) by (intros x l; rewrite fmap_app, <- !app_assoc; done).
    assert (Hleft : entry_compare a b <> Gt -> O ++ a :: merge L (b :: R) = merge L0 R0) by (intros H; destruct (entry_compare a b); done).
    destruct (entry_compare a b) eqn:Hcmp.
    3: { eapply (tr_yields_bind _ _ _ (fun x => x = (length A + length L0 + j, length A + i, length A + length L0 + j + 1)%nat)).
      { eapply yields_step; [apply index_add_ok; lia|]. by apply tr_yields_ret. }
      intros x ->. cbv beta iota. eapply yields_step.
      { rewrite merging_right. replace (Datatypes.S (length L) + Datatypes.S (length R))%nat with (Datatypes.S (Datatypes.S (length L) + length R)) by lia. rewrite Hdst.
        apply move_ok; rewrite !length_app, !length_fmap, ?length_replicate; cbn [length]; lia. }
      cbv beta iota. eapply yields_step; [apply index_add_ok; lia|]. apply tr_yields_ret. split; [|lia].
      exists i, (a :: L), (Datatypes.S j), R, (O ++ [b]). rewrite merging_took_right, Hput, <- app_assoc, length_app. cbn [length app]. repeat (split; [done || lia|]). lia. }
    all: eapply (tr_yields_bind _ _ _ (fun x => x = (length A + i, length A + i + 1, length A + length L0 + j)%nat));
      [eapply yields_step; [apply index_add_ok; lia|]; by apply tr_yields_ret|].
    all: intros x ->; cbv beta iota; eapply yields_step;
      [rewrite merging_left; replace (Datatypes.S (length L) + Datatypes.S (length R))%nat with (Datatypes.S (length L + Datatypes.S (length R))) by lia; rewrite Hdst;
       apply move_ok; rewrite !length_app, ?length_fmap, ?length_replicate; lia|].
    all: cbv beta iota; eapply yields_step; [apply index_add_ok; lia|]; apply tr_yields_ret; split; [|lia].
    all: exists (Datatypes.S i), L, j, (b :: R), (O ++ [a]); rewrite merging_took_left, Hput, <- app_assoc, length_app; cbn [length app]; repeat (split; [done || lia || (by apply Hleft)|]); lia.
  - exists 0%nat, L0, 0%nat, R0, []. rewrite !Nat.add_0_r. cbn. by repeat (split; [done|]).
  - lia.
Qed.

Lemma nones_app {A} n m (l : list (option A)) : replicate n None ++ replicate m None ++ l = replicate (n + m) None ++ l.
Proof. by rewrite app_assoc, replicate_add. Qed.

(** Two runs of the source, merged into the destination. *)
Lemma merge_runs_yields A L R B A' B' start middle stop : length A' = length A -> start = length A -> middle = (length A + length L)%nat -> stop = (middle + length R)%nat ->
  keys_ok L -> keys_ok R -> Z.of_nat (length A + length L + length R + length B) + 1 <= usize_max ->
  yields Intr (merge_runs (A ++ (Some <$> L) ++ (Some <$> R) ++ B) (A' ++ replicate (length L + length R) None ++ B') start middle stop)
    (fun '(source, destination) => source = A ++ replicate (length L + length R) None ++ B /\ destination = A' ++ (Some <$> merge L R) ++ B').
Proof.
  intros HA -> -> -> HL HR Hmax. unfold merge_runs. change (A ++ (Some <$> L) ++ (Some <$> R) ++ B) with (merging A 0 L 0 R B).
  eapply tr_yields_bind; [apply merge_loop_yields; [done|done|done|done|done| |]; rewrite merging_length; lia|].
  intros [[[[source destination] li] ri] output] (i & L2 & j & R2 & O & Hend & Hi & Hj & -> & -> & HO & -> & -> & ->).
  assert (Hlen : (length O + (length L2 + length R2) = length L + length R)%nat).
  { apply (f_equal length) in HO. rewrite length_app in HO. rewrite !(Permutation_length (merge_perm _ _)), !length_app in HO. lia. }
  assert (Hsrc : merging A i L2 j R2 B = (A ++ replicate i None) ++ (Some <$> L2) ++ (replicate j None ++ (Some <$> R2) ++ B)) by (unfold merging; by rewrite <- app_assoc).
  assert (Hdst : A' ++ (Some <$> O) ++ replicate (length L2 + length R2) None ++ B' = (A' ++ (Some <$> O)) ++ replicate (length L2) None ++ (replicate (length R2) None ++ B'))
    by (by rewrite nones_app, <- app_assoc).
  rewrite Hsrc, Hdst.
  eapply tr_yields_bind; [apply drain_yields; rewrite ?length_app, ?length_fmap, ?length_replicate; lia|]. intros [[src dst] out] (-> & -> & ->).
  assert (Hsrc2 : (A ++ replicate i None) ++ replicate (length L2) None ++ replicate j None ++ (Some <$> R2) ++ B = (A ++ replicate (length L + j) None) ++ (Some <$> R2) ++ B).
  { rewrite nones_app, <- !app_assoc, nones_app. do 3 f_equal. lia. }
  assert (Hdst2 : (A' ++ (Some <$> O)) ++ (Some <$> L2) ++ replicate (length R2) None ++ B' = (A' ++ (Some <$> O ++ L2)) ++ replicate (length R2) None ++ B')
    by (rewrite fmap_app, <- !app_assoc; done).
  rewrite Hsrc2, Hdst2.
  eapply tr_yields_bind; [apply drain_yields; rewrite ?length_app, ?length_fmap, ?length_replicate, ?length_app; lia|]. intros [[src dst] out] (-> & -> & _). apply tr_yields_ret. split.
  - rewrite <- app_assoc, nones_app. do 3 f_equal. lia.
  - rewrite <- app_assoc. f_equal. rewrite app_assoc. f_equal. rewrite <- fmap_app. f_equal. rewrite <- HO, <- app_assoc. f_equal.
    destruct Hend as [-> | ->]; [by rewrite merge_nil_l|by rewrite merge_nil_r, app_nil_r].
Qed.

(** ** Passes *)

(** What a pass over runs of width [w] makes of a list; [fuel] bounds the pairs of runs. *)
Fixpoint passed (fuel w : nat) (l : list ConsolidationEntry) : list ConsolidationEntry :=
  match fuel, l with
  | Datatypes.S fuel, _ :: _ => merge (take w l) (take w (drop w l)) ++ passed fuel w (drop (w + w) l)
  | _, _ => []
  end.

Lemma take_add_drop {A} (l : list A) w : take w l ++ take w (drop w l) ++ drop (w + w) l = l.
Proof. rewrite <- drop_drop. by rewrite take_drop, take_drop. Qed.

Lemma passed_perm fuel w l : (0 < w)%nat -> (length l <= fuel)%nat -> passed fuel w l ≡ₚ l.
Proof.
  intros Hw. revert l. induction fuel as [|fuel IH]; intros l Hl; [by destruct l; [|cbn in Hl; lia]|]. destruct l as [|x l]; [done|]. cbn [passed].
  rewrite IH by (rewrite length_drop; cbn [length] in *; lia). rewrite merge_perm, <- app_assoc. by rewrite take_add_drop.
Qed.

(** The runs of width [w] are sorted. *)
Definition runs_sorted (w : nat) (l : list ConsolidationEntry) : Prop := forall k, StronglySorted le (take w (drop (k * w) l)).

Lemma passed_sorted fuel w l : (0 < w)%nat -> (length l <= fuel)%nat -> runs_sorted w l -> runs_sorted (2 * w) (passed fuel w l).
Proof.
  intros Hw. revert l. induction fuel as [|fuel IH]; intros l Hl Hs.
  - destruct l as [|x l]; [|cbn in Hl; lia]. intros k. cbn. rewrite drop_nil, take_nil. constructor.
  - destruct l as [|x l]; [intros k; cbn; rewrite drop_nil, take_nil; constructor|]. cbn [passed]. set (l' := x :: l) in *.
    assert (Hm : StronglySorted le (merge (take w l') (take w (drop w l')))).
    { apply merge_sorted; [apply (Hs 0%nat)|]. pose proof (Hs 1%nat) as H. by rewrite Nat.mul_1_l in H. }
    assert (Hlen : length (merge (take w l') (take w (drop w l'))) = Nat.min (2 * w) (length l')).
    { rewrite (Permutation_length (merge_perm _ _)), length_app, !length_take, length_drop. lia. }
    assert (Hrest : runs_sorted (2 * w) (passed fuel w (drop (w + w) l'))).
    { apply IH; [rewrite length_drop; unfold l' in *; cbn [length] in *; lia|]. intros k. rewrite drop_drop. pose proof (Hs (2 + k)%nat) as H. by replace (w + w + k * w)%nat with ((2 + k) * w)%nat by lia. }
    intros k. destruct (decide (2 * w <= length l')%nat) as [Hle|Hgt].
    + destruct k as [|k].
      * rewrite Nat.mul_0_l, drop_0, take_app_le, take_ge by lia. done.
      * rewrite drop_app_ge by lia. replace (Datatypes.S k * (2 * w) - length (merge (take w l') (take w (drop w l'))))%nat with (k * (2 * w))%nat by lia. apply Hrest.
    + assert (Hnil : drop (w + w) l' = []) by (apply drop_ge; lia). rewrite Hnil. assert (Hp : passed fuel w [] = []) by (by destruct fuel). rewrite Hp, app_nil_r.
      destruct k as [|k]; [rewrite Nat.mul_0_l, drop_0, take_ge by lia; done|]. rewrite drop_ge by lia. rewrite take_nil. constructor.
Qed.

Lemma keys_take w l : keys_ok l -> keys_ok (take w l).
Proof. apply Forall_take. Qed.
Lemma keys_drop w l : keys_ok l -> keys_ok (drop w l).
Proof. apply Forall_drop. Qed.
Lemma keys_perm l l' : l' ≡ₚ l -> keys_ok l -> keys_ok l'.
Proof. unfold keys_ok. by intros ->. Qed.

Lemma merge_pass_yields w l : (0 < w)%nat -> keys_ok l -> Z.of_nat (length l) + 1 <= usize_max ->
  yields Intr (merge_pass w (Some <$> l) (replicate (length l) None)) (fun '(source, destination) => source = replicate (length l) None /\ destination = Some <$> passed (length l) w l).
Proof.
  intros Hw Hk Hmax. unfold merge_pass. rewrite length_fmap. set (n := length l).
  apply (yields_loop _ _ (fun '(source, destination, start) => exists done rest fuel, length done = start /\ (start + length rest = n)%nat /\ (length rest <= fuel)%nat /\ keys_ok rest /\
    source = replicate start None ++ (Some <$> rest) /\ destination = (Some <$> done) ++ replicate (length rest) None /\ done ++ passed fuel w rest = passed n w l)
    (fun '(_, _, start) => (n - start)%nat)).
  - intros [[source destination] start] (done & rest & fuel & <- & Hn & Hf & Hkr & -> & -> & Hp). destruct (Nat.ltb_spec (length done) n) as [Hlt|Hge].
    + set (L := take w rest). set (R := take w (drop w rest)). set (T := drop (w + w) rest).
      assert (HL : length L = Nat.min w (length rest)) by apply length_take.
      assert (HR : length R = Nat.min w (length rest - w)) by (unfold R; by rewrite length_take, length_drop).
      assert (HT : length T = (length rest - (w + w))%nat) by apply length_drop.
      assert (Hrest : rest = L ++ R ++ T) by (symmetry; apply take_add_drop).
      assert (Hsrc : replicate (length done) None ++ (Some <$> rest) = replicate (length done) None ++ (Some <$> L) ++ (Some <$> R) ++ (Some <$> T)) by (rewrite Hrest at 1; by rewrite !fmap_app).
      assert (Hdst : (Some <$> done) ++ replicate (length rest) None = (Some <$> done) ++ replicate (length L + length R) (None : option ConsolidationEntry) ++ replicate (length T) None).
      { f_equal. rewrite <- replicate_add. f_equal. lia. }
      rewrite Hsrc, Hdst. eapply tr_yields_bind.
      { apply (merge_runs_yields (replicate (length done) None) L R (Some <$> T) (Some <$> done) (replicate (length T) None)).
        - by rewrite length_fmap, length_replicate.
        - by rewrite length_replicate.
        - rewrite length_replicate. lia.
        - lia.
        - by apply keys_take.
        - by apply keys_take, keys_drop.
        - rewrite length_replicate, length_fmap. lia. }
      intros [src dst] [-> ->]. cbv beta iota. apply tr_yields_ret. split; [|lia].
      assert (Hml : length (merge L R) = (length L + length R)%nat) by (by rewrite (Permutation_length (merge_perm _ _)), length_app).
      exists (done ++ merge L R), T, (fuel - 1)%nat. rewrite length_app, Hml. split; [lia|]. split; [lia|]. split; [lia|]. split; [by apply keys_drop|].
      split; [rewrite nones_app; do 2 f_equal; lia|]. split; [by rewrite fmap_app, <- app_assoc|].
      rewrite <- Hp, <- app_assoc. f_equal. destruct fuel as [|fuel]; [lia|]. destruct rest as [|x rest]; [cbn in Hn; lia|]. cbn [passed]. fold L R T. by replace (Datatypes.S fuel - 1)%nat with fuel by lia.
    + apply tr_yields_ret. destruct rest as [|x rest]; [|cbn in Hn; lia]. assert (Hp0 : passed fuel w [] = []) by (by destruct fuel). rewrite Hp0, app_nil_r in Hp.
      rewrite !app_nil_r. cbn in Hn. rewrite Nat.add_0_r in Hn. rewrite Hn, Hp. done.
  - exists [], l, n. by repeat (split; [done|]).
  - lia.
Qed.

(** ** The sort *)

Lemma sort_yields entries : keys_ok entries -> 2 * Z.of_nat (length entries) + 2 <= usize_max ->
  yields Intr (interruptible_sort entries) (fun out => exists l, out = Some <$> l /\ l ≡ₚ entries /\ StronglySorted le l).
Proof.
  intros Hk Hmax. unfold interruptible_sort. env_step. destruct (Nat.ltb_spec (length entries) 2) as [Hlt|Hge].
  { apply tr_yields_ret. exists entries. split; [done|]. split; [done|]. destruct entries as [|a [|b l]]; [constructor|by repeat constructor|cbn in Hlt; lia]. }
  env_step. set (n := length entries) in *.
  apply (yields_loop _ _ (fun '(source, destination, width) => exists l, source = Some <$> l /\ destination = replicate n None /\ l ≡ₚ entries /\ (0 < width)%nat /\ runs_sorted width l)
    (fun '(_, _, width) => (n - width)%nat)).
  - intros [[source destination] width] (l & -> & -> & Hp & Hw & Hs). pose proof (Permutation_length Hp) as Hlen. fold n in Hlen. destruct (Nat.ltb_spec width n) as [Hlt|Hwide].
    + rewrite <- Hlen. eapply tr_yields_bind; [apply merge_pass_yields; [done|by eapply keys_perm|lia]|]. intros [src dst] [-> ->].
      eapply (yields_step _ _ _ (width * 2)%nat); [unfold index_mul; by rewrite (proj2 (Z.leb_le _ usize_max)) by lia|]. apply tr_yields_ret. split; [|lia].
      exists (passed (length l) width l). split; [done|]. split; [done|]. split; [by rewrite passed_perm|]. split; [lia|]. rewrite (Nat.mul_comm width 2). by apply passed_sorted.
    + apply tr_yields_ret. exists l. split; [done|]. split; [done|]. pose proof (Hs 0%nat) as H. rewrite Nat.mul_0_l, drop_0, take_ge in H by lia. done.
  - exists entries. split; [done|]. split; [done|]. split; [done|]. split; [lia|]. intros k. rewrite Nat.mul_1_r.
    destruct (drop k entries) as [|x l]; [constructor|]. cbn. by repeat constructor.
  - lia.
Qed.
End runs.
