(* ===== verification/TraceViews.v ===== *)
(** Trace store: consolidated spans are exact.

    After the sort the grouping makes one logical span for every identity, with one variant for
    every semantic key, the number of observations of each, and the observation that was committed
    first as the structural representative. The spans are in the order that the analysis of a
    trace asks for.

    Last, what consolidation returns for any observations, and that its spans meet what the structural
    analysis and the aggregation of service pairs ask of theirs. *)

From Stdlib Require Import Sorted Compare_dec Ascii String.
From stdpp Require Import sorting.
From S2P Require Import Prelude Limits Routing SourceTime Values Observe Traversal LogCodec TraceModel TraceHeap TraceStructure TraceCycles TraceRelationships TraceAggregate TraceConsolidation TraceMerge RetentionTime LogBlocks TraceResults.

(** ** Sorted lists and their runs *)

Section sorted_runs.
Context {K : Type} `{EqDecision K} (cmp : K -> K -> comparison) (Hcmp : order_ok cmp).

Definition upto (a b : K) : Prop := cmp a b <> Gt.

Lemma sorted_snoc {A} (R : A -> A -> Prop) l x : StronglySorted R (l ++ [x]) <-> StronglySorted R l /\ Forall (fun y => R y x) l.
Proof.
  induction l as [|a l IH]; cbn [app].
  - split; [by repeat constructor|by repeat constructor].
  - split.
    + intros [H1 H2]%StronglySorted_inv. apply IH in H1 as [H1 H3]. apply Forall_app in H2 as [H2 H4]. inversion H4; subst. split; constructor; done.
    + intros [[H1 H2]%StronglySorted_inv H3]. inversion H3; subst. constructor; [by apply IH|]. apply Forall_app. split; [done|by constructor].
Qed.

Lemma upto_antisym a b : upto a b -> upto b a -> a = b.
Proof. destruct Hcmp as [He Ha _]. unfold upto. rewrite (Ha a b). intros H1 H2. apply He. by destruct (cmp a b). Qed.

Lemma upto_trans a b c : upto a b -> upto b c -> upto a c.
Proof.
  destruct Hcmp as [He Ha Ht]. unfold upto. intros H1 H2 H3. destruct (cmp a b) eqn:E1; [apply He in E1; congruence| |done].
  destruct (cmp b c) eqn:E2; [apply He in E2; congruence| |done]. rewrite (Ht _ _ _ E1 E2) in H3. done.
Qed.

(** In a sorted list an element occurs before its last occurrence only next to it. *)
Lemma sorted_last l x : StronglySorted upto (l ++ [x]) -> x ∈ l -> last l = Some x.
Proof.
  intros [Hs Hx]%sorted_snoc Hin. destruct l as [|y l _] using rev_ind; [by apply not_elem_of_nil in Hin|]. rewrite last_snoc. f_equal.
  apply elem_of_app in Hin as [Hin|Hin%list_elem_of_singleton]; [|done]. apply sorted_snoc in Hs as [_ Hy]. rewrite Forall_forall in Hy, Hx.
  apply upto_antisym; [apply Hx, elem_of_app; right; by apply list_elem_of_singleton|by apply Hy].
Qed.

Lemma last_runs (l : list K) : last (runs l) = last l.
Proof.
  induction l as [|x l IH] using rev_ind; [done|]. rewrite runs_snoc, last_snoc. unfold push_run. case_bool_decide as H; [done|apply last_snoc].
Qed.

Lemma elem_runs (l : list K) x : x ∈ runs l <-> x ∈ l.
Proof.
  induction l as [|y l IH] using rev_ind; [done|]. rewrite runs_snoc, elem_of_app, list_elem_of_singleton, <- IH. unfold push_run. case_bool_decide as H.
  - split; [by left|]. intros [?| ->]; [done|]. apply last_Some in H as [l' ->]. apply elem_of_app. right. by apply list_elem_of_singleton.
  - by rewrite elem_of_app, list_elem_of_singleton.
Qed.

Lemma runs_sorted_strict (l : list K) : StronglySorted upto l -> StronglySorted upto (runs l) /\ NoDup (runs l).
Proof.
  induction l as [|x l IH] using rev_ind; [intros _; split; constructor|]. intros Hs. pose proof Hs as [Hl Hx]%sorted_snoc. destruct (IH Hl) as [IHs IHn].
  rewrite runs_snoc. unfold push_run. case_bool_decide as H; [by split|]. rewrite last_runs in H. split.
  - apply sorted_snoc. split; [done|]. rewrite Forall_forall in Hx |- *. intros y Hy. rewrite elem_runs in Hy. by apply Hx.
  - apply NoDup_app. split; [done|]. split; [|apply NoDup_singleton]. intros y Hy ->%list_elem_of_singleton. rewrite elem_runs in Hy. apply H. by apply sorted_last.
Qed.

Lemma strict_lookup (l : list K) i j a b : StronglySorted upto l -> NoDup l -> (i < j)%nat -> l !! i = Some a -> l !! j = Some b -> cmp a b = Lt.
Proof.
  revert i j. induction l as [|x l IH]; intros i j Hs Hnd Hij Ha Hb; [done|]. apply StronglySorted_inv in Hs as [Hs Hx]. apply NoDup_cons in Hnd as [Hn Hnd].
  destruct j as [|j]; [lia|]. cbn in Hb. destruct i as [|i]; cbn in Ha.
  - injection Ha as <-. rewrite Forall_lookup in Hx. pose proof (Hx _ _ Hb) as H. unfold upto in H. destruct (cmp x b) eqn:E; [|done|done]. apply (order_eq _ Hcmp) in E as ->.
    by apply list_elem_of_lookup_2 in Hb.
  - apply (IH i j); [done|done|lia|done|done].
Qed.
End sorted_runs.

Lemma sorted_filter {A} (R : A -> A -> Prop) (P : A -> Prop) `{forall x, Decision (P x)} l : StronglySorted R l -> StronglySorted R (filter P l).
Proof.
  induction 1 as [|a l Hs IH Ha]; [constructor|]. rewrite filter_cons. destruct (decide (P a)); [|done]. constructor; [done|].
  rewrite Forall_forall in Ha |- *. intros x [_ Hx]%list_elem_of_filter. by apply Ha.
Qed.

Lemma sorted_image {A B} (R : A -> A -> Prop) (Q : B -> B -> Prop) (f : A -> B) l : (forall a b, a ∈ l -> b ∈ l -> R a b -> Q (f a) (f b)) -> StronglySorted R l -> StronglySorted Q (f <$> l).
Proof.
  intros Hf Hs. induction Hs as [|a l Hs IH Ha]; [constructor|]. cbn. constructor.
  - apply IH. intros x y Hx Hy. apply Hf; by apply list_elem_of_further.
  - apply Forall_fmap. rewrite Forall_forall in Ha |- *. intros x Hx. apply Hf; [apply list_elem_of_here|by apply list_elem_of_further|by apply Ha].
Qed.

(** ** What is to be grouped *)

Definition identity_of_entry (e : ConsolidationEntry) : bytes * bytes := (so_trace_id (entry_span e), so_span_id (entry_span e)).
Definition span_identity (s : LogicalSpan) : bytes * bytes := (ls_trace_id s, ls_span_id s).
Definition identity_compare (a b : bytes * bytes) : comparison := then_with (lex_compare a.1 b.1) (lex_compare a.2 b.2).

Lemma order_identity : order_ok identity_compare.
Proof. exact (order_pair _ _ order_bytes order_bytes). Qed.

(** The observations of an identity, and of a semantic key. *)
Definition of_identity (i : bytes * bytes) (l : list ConsolidationEntry) : list ConsolidationEntry := filter (fun e => identity_of_entry e = i) l.
Definition of_variant (k : bytes) (l : list ConsolidationEntry) : list ConsolidationEntry := filter (fun e => semantic_key e = k) l.

(** A variant counts the observations of its key and holds the first of them. *)
Definition variant_ok (es : list ConsolidationEntry) (k : bytes) (v : SpanObservationVariant) : Prop :=
  variant_count v = zlen (of_variant k es) /\ entry_observation <$> head (of_variant k es) = Some (variant_observation v).

(** [a] was not committed after [b]. *)
Definition committed_before (a b : ConsolidationEntry) : Prop := physical_order (entry_observation a) (entry_observation b) <> Gt.

(** A logical span that sums up the observations of its identity. *)
Record summarises (l : list ConsolidationEntry) (s : LogicalSpan) : Prop := {
  su_count : ls_observation_count s = zlen (of_identity (span_identity s) l);
  su_variants : Forall2 (variant_ok (of_identity (span_identity s) l)) (runs (semantic_key <$> of_identity (span_identity s) l)) (variants s);
  su_first : exists e, e ∈ of_identity (span_identity s) l /\ structural_representative s = Some (entry_observation e) /\
    forall e', e' ∈ of_identity (span_identity s) l -> committed_before e e';
}.

Definition grouped (l : list ConsolidationEntry) (spans : list LogicalSpan) : Prop :=
  span_identity <$> spans = runs (identity_of_entry <$> l) /\ Forall (summarises l) spans.

(** ** Order inside a group *)

Lemma le_identity a b : le a b -> upto identity_compare (identity_of_entry a) (identity_of_entry b).
Proof.
  unfold le, upto, entry_compare, rank_compare, identity_compare, identity_of_entry, rank. cbn.
  destruct (lex_compare (so_trace_id _) _); cbn; [|done|done]. by destruct (lex_compare (so_span_id _) _).
Qed.

Lemma le_key a b : identity_of_entry a = identity_of_entry b -> le a b -> upto lex_compare (semantic_key a) (semantic_key b).
Proof.
  unfold le, upto, entry_compare, rank_compare, identity_of_entry, rank. cbn. intros [= -> ->]. rewrite !lex_compare_refl. cbn. by destruct (lex_compare (semantic_key a) _).
Qed.

Lemma le_physical a b : identity_of_entry a = identity_of_entry b -> semantic_key a = semantic_key b -> le a b -> committed_before a b.
Proof.
  unfold le, committed_before, entry_compare, rank_compare, identity_of_entry, rank, physical_order. cbn. intros [= -> ->] ->. by rewrite !lex_compare_refl.
Qed.

Definition place (e : ConsolidationEntry) : Z * Z := (position_value (commit_position (entry_observation e)), ordinal_value (record_ordinal (entry_observation e))).
Definition place_compare (a b : Z * Z) : comparison := then_with (Z.compare a.1 b.1) (Z.compare a.2 b.2).

Lemma order_place : order_ok place_compare.
Proof. exact (order_pair _ _ order_Z order_Z). Qed.

Lemma physical_trans a b c : committed_before a b -> committed_before b c -> committed_before a c.
Proof. exact (upto_trans _ order_place (place a) (place b) (place c)). Qed.

Lemma physical_total a b : physical_order (entry_observation a) (entry_observation b) = Lt \/ committed_before b a.
Proof.
  unfold committed_before. change (physical_order (entry_observation b) (entry_observation a)) with (place_compare (place b) (place a)). rewrite (order_antisym _ order_place).
  change (place_compare (place a) (place b)) with (physical_order (entry_observation a) (entry_observation b)). destruct (physical_order _ _); [by right|by left|by right].
Qed.

Lemma physical_refl a : committed_before a a.
Proof. unfold committed_before. change (physical_order (entry_observation a) (entry_observation a)) with (place_compare (place a) (place a)). by rewrite (proj2 (order_eq _ order_place _ _) eq_refl). Qed.

Lemma of_identity_snoc i l e : of_identity i (l ++ [e]) = if decide (identity_of_entry e = i) then of_identity i l ++ [e] else of_identity i l.
Proof. unfold of_identity. rewrite filter_app, filter_cons, filter_nil. destruct (decide _); [done|apply app_nil_r]. Qed.

Lemma of_variant_snoc k l e : of_variant k (l ++ [e]) = if decide (semantic_key e = k) then of_variant k l ++ [e] else of_variant k l.
Proof. unfold of_variant. rewrite filter_app, filter_cons, filter_nil. destruct (decide _); [done|apply app_nil_r]. Qed.

(** Observations of other identities do not count. *)
Lemma summarises_other l e s : identity_of_entry e <> span_identity s -> summarises l s -> summarises (l ++ [e]) s.
Proof. intros Hne [H1 H2 H3]. split; rewrite of_identity_snoc, decide_False by done; done. Qed.

(** The keys of a group are sorted, as a sorted list of entries has them. *)
Lemma group_keys_sorted i l : StronglySorted le l -> StronglySorted (upto lex_compare) (semantic_key <$> of_identity i l).
Proof.
  intros Hs. eapply sorted_image; [|by apply sorted_filter]. intros a b Ha Hb. apply list_elem_of_filter in Ha as [Ha _], Hb as [Hb _]. apply le_key. congruence.
Qed.

Lemma identities_sorted l : StronglySorted le l -> StronglySorted (upto identity_compare) (identity_of_entry <$> l).
Proof. apply sorted_image. intros a b _ _. apply le_identity. Qed.

Lemma last_identity l e i : last l = Some e -> identity_of_entry e = i -> last (of_identity i l) = Some e.
Proof. intros [l' ->]%last_Some Hi. rewrite of_identity_snoc, decide_True by done. apply last_snoc. Qed.

(** ** One entry *)

Lemma Forall2_impl_in {A B} (P Q : A -> B -> Prop) l k : Forall2 P l k -> (forall x y, x ∈ l -> P x y -> Q x y) -> Forall2 Q l k.
Proof.
  induction 1 as [|x y l k Hxy H IH]; intros HQ; constructor; [apply HQ; [apply list_elem_of_here|done]|].
  apply IH. intros a b Ha. apply HQ. by apply list_elem_of_further.
Qed.

Section entry.
Context (pre : list ConsolidationEntry) (e : ConsolidationEntry) (s : LogicalSpan).
Hypothesis Hsorted : StronglySorted le (pre ++ [e]).
Hypothesis Hlen : zlen (pre ++ [e]) <= u64_max.
Hypothesis Hsum : summarises pre s.
Hypothesis Hid : identity_of_entry e = span_identity s.
Abbreviation es := (of_identity (span_identity s) pre).

Lemma group_snoc : of_identity (span_identity s) (pre ++ [e]) = es ++ [e].
Proof. by rewrite of_identity_snoc, decide_True. Qed.

Lemma group_bound : zlen es + 1 <= u64_max /\ 0 <= zlen es.
Proof.
  unfold zlen in *. rewrite length_app in Hlen. cbn [length] in Hlen. pose proof (length_filter (fun e => identity_of_entry e = span_identity s) pre) as H.
  unfold of_identity. lia.
Qed.

Lemma variant_bound k l : 0 <= zlen (of_variant k l) <= zlen l.
Proof. unfold zlen, of_variant. pose proof (length_filter (fun e => semantic_key e = k) l). lia. Qed.

Lemma keys_snoc_sorted : StronglySorted (upto lex_compare) ((semantic_key <$> es) ++ [semantic_key e]).
Proof. pose proof (group_keys_sorted (span_identity s) _ Hsorted) as H. rewrite group_snoc, fmap_app in H. exact H. Qed.

(** What the group has is before the entry. *)
Lemma before_entry f : f ∈ pre -> le f e.
Proof. intros Hf. apply sorted_snoc in Hsorted as [_ H]. rewrite Forall_forall in H. by apply H. Qed.

Lemma variant_other k v : semantic_key e <> k -> variant_ok es k v -> variant_ok (es ++ [e]) k v.
Proof. intros Hne [H1 H2]. split; rewrite of_variant_snoc, decide_False by done; done. Qed.

(** Another observation of the last variant. *)
Lemma record_last_ok f : last pre = Some f -> identity_of_entry f = span_identity s -> semantic_key f = semantic_key e ->
  exists s', record_last_variant s = Ok s' /\ span_identity s' = span_identity s /\ summarises (pre ++ [e]) s'.
Proof.
  intros Hf Hfid Hfk. destruct Hsum as [Hcount Hvars (r & Hr & Hrep & Hmin)]. pose proof group_bound as [Hb Hb0]. set (k := semantic_key e) in *.
  assert (Hlast : last (semantic_key <$> es) = Some k) by (rewrite fmap_last, (last_identity pre f) by done; cbn; by rewrite Hfk).
  assert (Hruns : runs (semantic_key <$> (es ++ [e])) = runs (semantic_key <$> es)).
  { rewrite fmap_app. cbn [fmap list_fmap]. rewrite runs_snoc. unfold push_run. rewrite last_runs, bool_decide_true by done. done. }
  destruct (runs_sorted_strict _ order_bytes _ (group_keys_sorted (span_identity s) pre (proj1 (proj1 (sorted_snoc _ _ _) Hsorted)))) as [_ Hnd].
  assert (Hkl : last (runs (semantic_key <$> es)) = Some k) by (by rewrite last_runs). apply last_Some in Hkl as [ks Hks]. rewrite Hks in Hvars, Hnd, Hruns.
  apply Forall2_app_inv_l in Hvars as (vs & [|v [|]] & Hvs & Hv & Hvl); [inversion Hv|..|inversion Hv as [|? ? ? ? _ Hv']; inversion Hv'].
  inversion Hv as [|? ? ? ? [Hvc Hvh] _]; subst. apply NoDup_app in Hnd as (_ & Hnd & _).
  pose proof (variant_bound k es) as Hvb. unfold record_last_variant, variant_record. rewrite Hvl, last_snoc, Hcount. cbn [ok_or mbind result_bind].
  unfold checked_add. rewrite (proj2 (Z.leb_le (zlen es + 1) u64_max)) by lia. cbn [ok_or mbind result_bind]. rewrite (proj2 (Z.leb_le (variant_count v + 1) u64_max)) by lia. cbn [ok_or mbind result_bind].
  rewrite length_app. cbn [length]. replace (length vs + 1 - 1)%nat with (length vs) by lia. rewrite insert_at by done.
  eexists. split; [done|]. split; [done|]. split; change (span_identity (mkLogicalSpan _ _ _ _ _)) with (span_identity s); rewrite group_snoc; cbn [ls_observation_count variants].
  - rewrite zlen_app. done.
  - rewrite Hruns. apply Forall2_app; [|constructor; [|constructor]].
    + eapply Forall2_impl_in; [exact Hvs|]. intros k' v' Hk'. apply variant_other. intros Heq. apply (Hnd k'); [done|]. apply list_elem_of_singleton. symmetry. exact Heq.
    + split; cbn [variant_count variant_observation]; rewrite of_variant_snoc, decide_True by done.
      * rewrite zlen_app. cbn. unfold zlen in *. cbn. lia.
      * destruct (of_variant k es) as [|g l]; [done|exact Hvh].
  - exists r. split; [apply elem_of_app; by left|]. split.
    + unfold structural_representative in Hrep |- *. rewrite Hvl in Hrep. cbn [variants structural_variant]. destruct (decide (structural_variant s = length vs)) as [Heq|Hne].
      * rewrite Heq in Hrep |- *. rewrite list_lookup_middle in Hrep |- * by done. exact Hrep.
      * rewrite <- Hrep. f_equal. destruct (lt_eq_lt_dec (structural_variant s) (length vs)) as [[Hlt|?]|Hgt]; [by rewrite !lookup_app_l by done|done|].
        rewrite !lookup_ge_None_2; [done|..]; rewrite length_app; cbn; lia.
    + intros e' [He'|Heq%list_elem_of_singleton]%elem_of_app; [by apply Hmin|]. subst e'. destruct (of_variant k es) as [|g l] eqn:Hg; [done|].
      assert (Hgin : g ∈ of_variant k es) by (rewrite Hg; apply list_elem_of_here). apply list_elem_of_filter in Hgin as [Hgk Hgin]. apply physical_trans with g; [by apply Hmin|].
      apply list_elem_of_filter in Hgin as [Hgid Hgpre]. apply le_physical; [congruence|done|by apply before_entry].
Qed.

Section monadic.
Context {S : Type} {Alloc : Allocator S} {Env : ScanEnvironment S} {Cap : QueryCapacity S}.
Context (Intr : TraceStoreFailure -> Prop) {HI : Interrupts S Intr}.

(** A new variant of the last span. *)
Lemma record_new_yields : semantic_key e ∉ (semantic_key <$> es) ->
  yields Intr (record_new_variant s (entry_observation e)) (fun s' => span_identity s' = span_identity s /\ summarises (pre ++ [e]) s').
Proof.
  intros Hnew. destruct Hsum as [Hcount Hvars (r & Hr & Hrep & Hmin)]. pose proof group_bound as [Hb Hb0]. set (k := semantic_key e) in *.
  eapply (yields_step _ _ _ (zlen es + 1)); [rewrite Hcount; unfold checked_add; by rewrite (proj2 (Z.leb_le _ u64_max)) by lia|]. cbv zeta. env_step. apply tr_yields_ret.
  split; [done|]. assert (Hk : of_variant k es = []).
  { destruct (of_variant k es) as [|g l] eqn:Hg; [done|]. exfalso. assert (Hgin : g ∈ of_variant k es) by (rewrite Hg; apply list_elem_of_here).
    apply list_elem_of_filter in Hgin as [Hgk Hgin]. apply Hnew, list_elem_of_fmap. by exists g. }
  split; change (span_identity (mkLogicalSpan _ _ _ _ _)) with (span_identity s); rewrite group_snoc; cbn [ls_observation_count variants].
  - rewrite zlen_app. done.
  - rewrite fmap_app. cbn [fmap list_fmap]. rewrite runs_snoc. unfold push_run. fold k. rewrite last_runs, bool_decide_false.
    + apply Forall2_app; [|constructor; [|constructor]].
      * eapply Forall2_impl_in; [exact Hvars|]. intros k' v' Hk'. rewrite elem_runs in Hk'. apply variant_other. intros Heq. apply Hnew. rewrite <- Heq in Hk'. exact Hk'.
      * split; cbn [variant_count variant_observation]; rewrite of_variant_snoc, decide_True by done; by rewrite Hk.
    + intros [l Hl]%last_Some. apply Hnew. rewrite Hl. apply elem_of_app. right. by apply list_elem_of_singleton.
  - unfold structural_representative at 1. cbn [variants structural_variant]. rewrite Hrep. case_bool_decide as Hearly.
    + exists e. split; [apply elem_of_app; right; by apply list_elem_of_singleton|]. split.
      * rewrite length_app. cbn [length]. replace (length (variants s) + 1 - 1)%nat with (length (variants s)) by lia. by rewrite list_lookup_middle.
      * intros e' [He'|Heq%list_elem_of_singleton]%elem_of_app; [|subst; apply physical_refl]. apply physical_trans with r; [unfold committed_before; by rewrite Hearly|by apply Hmin].
    + exists r. split; [apply elem_of_app; by left|]. split.
      * unfold structural_representative in Hrep. destruct (variants s !! structural_variant s) as [v|] eqn:Hv; [|done]. by rewrite (lookup_app_l_Some _ _ _ _ Hv).
      * intros e' [He'|Heq%list_elem_of_singleton]%elem_of_app; [by apply Hmin|]. subst e'. by destruct (physical_total e r).
Qed.
End monadic.
End entry.

Lemma new_span_summarises pre e : identity_of_entry e ∉ (identity_of_entry <$> pre) ->
  summarises (pre ++ [e]) (mkLogicalSpan (so_trace_id (scanned_observation (entry_observation e))) (so_span_id (scanned_observation (entry_observation e))) [mkVariant (entry_observation e) 1] 1 0).
Proof.
  intros Hnew. set (s := mkLogicalSpan _ _ _ _ _). assert (Hes : of_identity (span_identity s) (pre ++ [e]) = [e]).
  { rewrite of_identity_snoc, decide_True by done. assert (Hnone : of_identity (span_identity s) pre = []); [|by rewrite Hnone].
    destruct (of_identity (span_identity s) pre) as [|g l] eqn:Hg; [done|]. exfalso. assert (Hgin : g ∈ of_identity (span_identity s) pre) by (rewrite Hg; apply list_elem_of_here).
    apply list_elem_of_filter in Hgin as [Hgi Hgin]. apply Hnew, list_elem_of_fmap. by exists g. }
  split; rewrite Hes.
  - done.
  - cbn. constructor; [|constructor]. unfold variant_ok, of_variant. rewrite filter_cons, filter_nil, decide_True by done. done.
  - exists e. split; [apply list_elem_of_here|]. split; [done|]. intros e' ->%list_elem_of_singleton. apply physical_refl.
Qed.

(** ** The loop *)

Section loop.
Context {S : Type} {Alloc : Allocator S} {Env : ScanEnvironment S} {Cap : QueryCapacity S}.
Context (Intr : TraceStoreFailure -> Prop) {HI : Interrupts S Intr}.

(** What is known after the entries of [pre]. *)
Definition grouping (pre : list ConsolidationEntry) (state : list LogicalSpan * option bytes) : Prop :=
  grouped pre state.1 /\ state.2 = semantic_key <$> last pre.

(** The last span is replaced. *)
Lemma replace_last pre e spans s s' : grouped pre (spans ++ [s]) -> StronglySorted le (pre ++ [e]) -> identity_of_entry e = span_identity s ->
  span_identity s' = span_identity s -> summarises (pre ++ [e]) s' -> grouped (pre ++ [e]) (spans ++ [s']).
Proof.
  intros [Hids Hsum] Hsorted Hid Hid' Hs'. pose proof (identities_sorted _ Hsorted) as Hsi. rewrite fmap_app in Hsi. cbn [fmap list_fmap] in Hsi.
  destruct (runs_sorted_strict _ order_identity _ (proj1 (proj1 (sorted_snoc _ _ _) Hsi))) as [_ Hnd].
  rewrite fmap_app in Hids. cbn [fmap list_fmap] in Hids. split.
  - rewrite !fmap_app. cbn [fmap list_fmap]. rewrite runs_snoc. unfold push_run. rewrite bool_decide_true; [by rewrite Hid'|]. rewrite <- Hids, last_snoc. congruence.
  - apply Forall_app in Hsum as [Hsum _]. apply Forall_app. split; [|by constructor]. rewrite Forall_forall in Hsum |- *. intros t Ht. apply summarises_other; [|by apply Hsum].
    rewrite Hid. intros Heq. rewrite <- Hids in Hnd. apply NoDup_app in Hnd as (_ & Hnd & _). apply (Hnd (span_identity t)); [apply list_elem_of_fmap; by exists t|].
    apply list_elem_of_singleton. done.
Qed.

(** A span of an identity that was not there. *)
Lemma new_span_yields pre e spans : grouped pre spans -> StronglySorted le (pre ++ [e]) -> ~ (exists f, last pre = Some f /\ identity_of_entry f = identity_of_entry e) ->
  yields Intr (s ← LogicalSpan_new (entry_observation e); mret (spans ++ [s], Some (semantic_key e))) (fun state => grouped (pre ++ [e]) state.1 /\ state.2 = Some (semantic_key e)).
Proof.
  intros [Hids Hsum] Hsorted Hno. pose proof (identities_sorted _ Hsorted) as Hsi. rewrite fmap_app in Hsi. cbn [fmap list_fmap] in Hsi.
  assert (Hnew : identity_of_entry e ∉ (identity_of_entry <$> pre)).
  { intros Hin. pose proof (sorted_last _ order_identity _ _ Hsi Hin) as Hl. rewrite fmap_last in Hl. destruct (last pre) as [f|] eqn:Hf; [|done]. cbn in Hl.
    apply Hno. exists f. split; [done|congruence]. }
  eapply (tr_yields_bind _ _ _ (fun s => span_identity s = identity_of_entry e /\ summarises (pre ++ [e]) s)).
  { unfold LogicalSpan_new. env_step. apply tr_yields_ret. split; [done|by apply new_span_summarises]. }
  intros s [Hid Hs]. apply tr_yields_ret. split; [|done]. cbn [fst]. split.
  - rewrite !fmap_app, Hids. cbn [fmap list_fmap]. rewrite runs_snoc. unfold push_run. rewrite last_runs, bool_decide_false; [by rewrite Hid|].
    rewrite fmap_last. intros H. apply Hno. destruct (last pre) as [f|]; [|done]. cbn in H. exists f. split; [done|congruence].
  - apply Forall_app. split; [|by constructor]. rewrite Forall_forall in Hsum |- *. intros t Ht. apply summarises_other; [|by apply Hsum]. intros Heq. apply Hnew.
    rewrite <- elem_runs, <- Hids, Heq. apply list_elem_of_fmap. by exists t.
Qed.

Lemma group_entry_yields pre e state : grouping pre state -> StronglySorted le (pre ++ [e]) -> zlen (pre ++ [e]) <= u64_max -> keys_ok (pre ++ [e]) ->
  yields Intr (group_entry state (Some e)) (grouping (pre ++ [e])).
Proof.
  destruct state as [spans active]. intros [Hg Hactive] Hsorted Hlen Hkeys. cbn [fst snd] in *. unfold grouping. rewrite last_snoc. cbn [fmap option_fmap option_map].
  unfold group_entry. eapply (yields_step _ _ _ e); [done|]. unit_turn. cbv zeta.
  pose proof Hg as [Hids Hsum]. pose proof Hsorted as [Hpre Hbefore]%sorted_snoc.
  apply Forall_app in Hkeys as [Hkp Hke]. inversion Hke as [|? ? Hkey _]; subst.
  assert (Hlastid : span_identity <$> last spans = identity_of_entry <$> last pre) by (rewrite <- !fmap_last, Hids, last_runs; done).
  set (same := match last spans with Some s => has_identity s (entry_observation e) | None => false end).
  assert (Hsame : same = true <-> exists f, last pre = Some f /\ identity_of_entry f = identity_of_entry e).
  { unfold same. destruct (last spans) as [s|], (last pre) as [f|]; cbn in Hlastid; try done; [|split; [done|by intros (f & ? & _)]]. assert (Hl : span_identity s = identity_of_entry f) by congruence.
    unfold has_identity. rewrite andb_true_iff, !bool_decide_eq_true. unfold span_identity, identity_of_entry in Hl. injection Hl as -> ->. split.
    - intros [H1 H2]. exists f. split; [done|]. unfold identity_of_entry. by rewrite H1, H2.
    - intros (f' & [= <-] & [= H1 H2]). done. }
  eapply (tr_yields_bind _ _ _ (fun b => b = true <-> exists f, last pre = Some f /\ identity_of_entry f = identity_of_entry e /\ semantic_key f = semantic_key e)).
  { destruct same eqn:Es.
    - destruct (proj1 Hsame eq_refl) as (f & Hf & Hfi). rewrite Hf. cbn. eapply tr_yields_bind; [apply (semantic_key_order_yields Intr); [|done]|].
      + apply last_Some in Hf as [l ->]. apply Forall_app in Hkp as [_ H]. by inversion H.
      + intros c ->. apply tr_yields_ret. rewrite bool_decide_eq_true, lex_compare_eq. split; [intros H; by exists f|]. by intros (f' & [= <-] & _ & ?).
    - apply tr_yields_ret. split; [done|]. intros (f & Hf & Hfi & _). assert (false = true); [apply Hsame; by exists f|done]. }
  intros variant Hvariant. destruct (last spans) as [s|] eqn:Hlast.
  - apply last_Some in Hlast as [spans' ->]. assert (Hs : summarises pre s) by (apply Forall_app in Hsum as [_ H]; by inversion H).
    rewrite length_app. cbn [length]. replace (length spans' + 1 - 1)%nat with (length spans') by lia.
    destruct (last pre) as [f|] eqn:Hf; [|done]. assert (Hfs : identity_of_entry f = span_identity s) by (cbn [fmap option_fmap option_map] in Hlastid; congruence).
    destruct variant.
    + destruct (proj1 Hvariant eq_refl) as (f' & [= <-] & Hfi & Hfk).
      destruct (record_last_ok pre e s Hsorted Hlen Hs ltac:(congruence) f Hf Hfs Hfk) as (s' & Hrec & Hid' & Hs'). eapply yields_step; [done|]. eapply yields_step; [exact Hrec|].
      apply tr_yields_ret. rewrite insert_at by done. split; cbn [fst snd]; [eapply replace_last; [exact Hg|done|congruence|done|done]|]. cbn. by rewrite Hfk.
    + destruct same eqn:Es.
      * destruct (proj1 Hsame eq_refl) as (f' & [= <-] & Hfi). eapply yields_step; [done|].
        eapply tr_yields_bind; [eapply record_new_yields; [done|done|congruence|done|]|].
        -- intros Hin. pose proof (sorted_last _ order_bytes _ _ (keys_snoc_sorted pre e s Hsorted ltac:(congruence)) Hin) as Hl.
           rewrite fmap_last, (last_identity pre f) in Hl by done. cbn in Hl. injection Hl as Hl. assert (false = true); [apply Hvariant; by exists f|done].
        -- intros s' [Hid' Hs']. apply tr_yields_ret. rewrite insert_at by done. split; cbn [fst snd]; [eapply replace_last; [exact Hg|done|congruence|done|done]|done].
      * apply (new_span_yields pre e (spans' ++ [s])); [exact Hg|done|]. intros (f' & Hf' & Hfi). rewrite Hf in Hf'. injection Hf' as <-. assert (false = true); [apply Hsame; by exists f|done].
  - assert (Hnone : last pre = None) by (by destruct (last pre)). apply last_None in Hnone as ->. apply last_None in Hlast as ->. destruct variant.
    + destruct (proj1 Hvariant eq_refl) as (f & ? & _). done.
    + apply (new_span_yields [] e []); [exact Hg|done|]. by intros (f & ? & _).
Qed.

Lemma group_yields l : StronglySorted le l -> keys_ok l -> 2 * zlen l + 2 <= usize_max -> yields Intr (group_observations (Some <$> l)) (grouped l).
Proof.
  intros Hs Hk Hmax. unfold group_observations. env_step. eapply tr_yields_bind.
  - apply (yields_for _ _ _ (fun pre state => exists pre', pre = Some <$> pre' /\ grouping pre' state)).
    + exists []. split; [done|]. split; [split; [done|constructor]|done].
    + intros pre x post state Hl (pre' & -> & Hg). assert (Hl' : exists e post', x = Some e /\ l = pre' ++ e :: post').
      { apply fmap_app_inv in Hl as (l1 & l2 & H1 & H2 & ->). symmetry in H2. apply fmap_cons_inv in H2 as (e & post' & -> & _ & ->).
        exists e, post'. split; [done|]. f_equal. by apply (inj (fmap Some)) in H1. }
      destruct Hl' as (e & post' & -> & ->). eapply yields_mono; [apply group_entry_yields; [done| | |]|].
      * replace (pre' ++ e :: post') with ((pre' ++ [e]) ++ post') in Hs by (by rewrite <- app_assoc). by apply StronglySorted_app_1_l in Hs.
      * unfold zlen in *. rewrite !length_app in *. cbn [length] in *. unfold usize_max, u64_max in *. lia.
      * replace (pre' ++ e :: post') with ((pre' ++ [e]) ++ post') in Hk by (by rewrite <- app_assoc). by apply Forall_app in Hk as [? _].
      * intros state' Hg'. exists (pre' ++ [e]). by rewrite fmap_app.
  - intros [spans active] (l' & Hl & Hg & _). apply (inj (fmap Some)) in Hl as <-. by apply tr_yields_ret.
Qed.
End loop.

(** ** Traces of a scan *)

(** Runs of a key in a sorted list, as lists of elements. *)
Section segments.
Context {A K : Type} `{EqDecision K} (f : A -> K) (cmp : K -> K -> comparison) (Hcmp : order_ok cmp).

Definition having_key (k : K) (l : list A) : list A := filter (fun x => f x = k) l.
Definition segments (l : list A) : list (list A) := (fun k => having_key k l) <$> runs (f <$> l).

Lemma having_key_snoc k l x : having_key k (l ++ [x]) = if decide (f x = k) then having_key k l ++ [x] else having_key k l.
Proof. unfold having_key. rewrite filter_app, filter_cons, filter_nil. destruct (decide _); [done|apply app_nil_r]. Qed.

Lemma segments_concat l : StronglySorted (upto cmp) (f <$> l) -> concat (segments l) = l.
Proof.
  induction l as [|x l IH] using rev_ind; [done|]. intros Hs. rewrite fmap_app in Hs. cbn [fmap list_fmap] in Hs. pose proof Hs as [Hl _]%sorted_snoc. specialize (IH Hl).
  destruct (runs_sorted_strict _ Hcmp _ Hl) as [_ Hnd]. unfold segments in *. rewrite fmap_app. cbn [fmap list_fmap]. rewrite runs_snoc. unfold push_run. case_bool_decide as Hlast.
  - apply last_Some in Hlast as [ks Hks]. rewrite Hks in IH, Hnd |- *. rewrite fmap_app, concat_app in IH |- *. cbn [fmap list_fmap concat] in *. rewrite app_nil_r in IH |- *.
    rewrite having_key_snoc, decide_True by done. rewrite app_assoc. f_equal. rewrite <- IH at 2. f_equal. f_equal. apply list_fmap_ext. intros i k Hk. rewrite having_key_snoc, decide_False; [done|].
    intros Heq. apply NoDup_app in Hnd as (_ & Hnd & _). apply (Hnd k); [by eapply list_elem_of_lookup_2|]. apply list_elem_of_singleton. done.
  - rewrite last_runs in Hlast. assert (Hnew : f x ∉ (f <$> l)) by (intros Hin; apply Hlast; by apply (sorted_last cmp)).
    assert (Hnone : having_key (f x) l = []).
    { destruct (having_key (f x) l) as [|y r] eqn:Hy; [done|]. exfalso. assert (Hin : y ∈ having_key (f x) l) by (rewrite Hy; apply list_elem_of_here).
      apply list_elem_of_filter in Hin as [Hfy Hin]. apply Hnew, list_elem_of_fmap. by exists y. }
    rewrite fmap_app, concat_app. cbn [fmap list_fmap concat]. rewrite app_nil_r, (having_key_snoc (f x)), decide_True, Hnone by done. cbn [app]. f_equal. rewrite <- IH at 2. f_equal.
    apply list_fmap_ext. intros i k Hk. rewrite having_key_snoc, decide_False; [done|]. intros <-. apply Hnew. apply list_elem_of_lookup_2 in Hk. by rewrite elem_runs in Hk.
Qed.

Lemma segment_elem t l : t ∈ segments l -> exists k, k ∈ runs (f <$> l) /\ t = having_key k l /\ t <> [].
Proof.
  intros (k & -> & Hk)%list_elem_of_fmap. exists k. split; [done|]. split; [done|]. rewrite elem_runs in Hk. apply list_elem_of_fmap in Hk as (x & -> & Hx). intros Hnil.
  assert (Hin : x ∈ having_key (f x) l) by (by apply list_elem_of_filter). rewrite Hnil in Hin. by apply not_elem_of_nil in Hin.
Qed.
End segments.

(** Every span comes before the later ones. *)
Definition increasing_spans (spans : list LogicalSpan) : Prop :=
  forall i j a b, (i < j)%nat -> spans !! i = Some a -> spans !! j = Some b -> identity_compare (span_identity a) (span_identity b) = Lt.

Lemma grouped_increasing l spans : StronglySorted le l -> grouped l spans -> increasing_spans spans.
Proof.
  intros Hs [Hids _] i j a b Hij Ha Hb. destruct (runs_sorted_strict _ order_identity _ (identities_sorted _ Hs)) as [Hrs Hnd]. rewrite <- Hids in Hrs, Hnd.
  apply (strict_lookup _ order_identity (span_identity <$> spans) i j); [done|done|done|by rewrite list_lookup_fmap, Ha|by rewrite list_lookup_fmap, Hb].
Qed.

(** The traces of consolidated spans. *)
Abbreviation traces_of spans := (segments ls_trace_id spans).

Lemma increasing_trace_ids spans : increasing_spans spans -> StronglySorted (upto lex_compare) (ls_trace_id <$> spans).
Proof.
  induction spans as [|s spans IH]; intros H; [constructor|]. cbn. constructor.
  - apply IH. intros i j a b Hij Ha Hb. apply (H (Datatypes.S i) (Datatypes.S j)); [lia|done|done].
  - apply Forall_fmap, Forall_lookup. intros i t Ht. pose proof (H 0%nat (Datatypes.S i) s t ltac:(lia) eq_refl Ht) as Hlt. unfold upto, identity_compare in *. cbn in *.
    by destruct (lex_compare (ls_trace_id s) (ls_trace_id t)).
Qed.

Lemma increasing_filter (P : LogicalSpan -> Prop) `{forall s, Decision (P s)} spans : increasing_spans spans -> increasing_spans (filter P spans).
Proof.
  induction spans as [|s spans IH]; intros Hs; [done|]. assert (Htail : increasing_spans spans) by (intros i j a b Hij Ha Hb; apply (Hs (Datatypes.S i) (Datatypes.S j)); [lia|done|done]).
  rewrite filter_cons. destruct (decide (P s)); [|by apply IH]. intros i j a b Hij Ha Hb. destruct j as [|j]; [lia|]. cbn in Hb. destruct i as [|i]; cbn in Ha.
  - injection Ha as <-. apply list_elem_of_lookup_2 in Hb. apply list_elem_of_filter in Hb as [_ [k Hk]%list_elem_of_lookup]. apply (Hs 0%nat (Datatypes.S k)); [lia|done|done].
  - apply (IH Htail i j); [lia|done|done].
Qed.

Lemma traces_well_formed spans : increasing_spans spans -> Forall (fun s => is_Some (structural_representative s)) spans -> 2 * zlen spans + 2 <= usize_max ->
  concat (traces_of spans) = spans /\ traces_ok (traces_of spans).
Proof.
  intros Hinc Hrep Hmax. pose proof (increasing_trace_ids _ Hinc) as Hs. split; [by apply (segments_concat _ _ order_bytes)|]. split.
  - intros t (k & Hk & -> & Hne)%segment_elem. split; [done|]. pose proof (length_filter (fun s => ls_trace_id s = k) spans) as Hlen. split.
    + unfold zlen, having_key in *. lia.
    + apply Forall_forall. intros s [_ Hin]%list_elem_of_filter. rewrite Forall_forall in Hrep. by apply Hrep.
    + intros i j a b Hij Ha Hb. pose proof (increasing_filter (fun s => ls_trace_id s = k) spans Hinc i j a b Hij Ha Hb) as H.
      apply list_elem_of_lookup_2, list_elem_of_filter in Ha as [Hka _], Hb as [Hkb _]. unfold identity_compare, span_identity in H. cbn in H.
      rewrite Hka, Hkb, lex_compare_refl in H. exact H.
  - intros t s u (k & Hk & -> & Hne)%segment_elem [H1 _]%list_elem_of_filter [H2 _]%list_elem_of_filter. congruence.
  - intros k t u s v Ht Hu Hs' Hv. unfold segments in Ht, Hu. rewrite list_lookup_fmap in Ht, Hu.
    destruct (runs (ls_trace_id <$> spans) !! k) as [x|] eqn:Hx; [|done]. destruct (runs (ls_trace_id <$> spans) !! Datatypes.S k) as [y|] eqn:Hy; [|done].
    cbn in Ht, Hu. injection Ht as <-. injection Hu as <-. apply list_elem_of_filter in Hs' as [-> _], Hv as [-> _]. destruct (runs_sorted_strict _ order_bytes _ Hs) as [_ Hnd].
    intros ->. pose proof (NoDup_lookup _ _ _ _ Hnd Hx Hy). lia.
Qed.

Section views.
Context {S : Type} {Alloc : Allocator S} {Env : ScanEnvironment S} {Cap : QueryCapacity S}.
Context (Intr : TraceStoreFailure -> Prop) {HI : Interrupts S Intr}.

(** Consolidation is exact: from observations in any order it makes one logical span
    for every trace and span identity, in increasing order; the span counts all its observations,
    has one variant for every distinct semantic key with the number of observations that share it,
    and its structural representative is the observation that was committed first. The spans fall
    into traces as the structural analysis and the aggregation require them. It fails only with a
    failure of its environment. *)
Lemma entries_consolidated entries : keys_ok entries -> 2 * zlen entries + 2 <= usize_max ->
  yields Intr (consolidate_entries entries) (fun spans =>
    (exists l, l ≡ₚ entries /\ StronglySorted le l /\ grouped l spans) /\ increasing_spans spans /\
    concat (traces_of spans) = spans /\ traces_ok (traces_of spans)).
Proof.
  intros Hk Hmax. unfold consolidate_entries. eapply tr_yields_bind; [apply (sort_yields Intr); [done|exact Hmax]|]. intros sorted (l & -> & Hp & Hs).
  pose proof (Permutation_length Hp) as Hlen. assert (Hml : 2 * zlen l + 2 <= usize_max) by (unfold zlen in *; lia).
  eapply yields_mono; [apply (group_yields Intr); [done|by eapply keys_perm|done]|]. intros spans Hg. pose proof (grouped_increasing _ _ Hs Hg) as Hinc.
  split; [by exists l|]. split; [done|]. apply traces_well_formed; [done| |].
  - destruct Hg as [_ Hsum]. eapply Forall_impl; [exact Hsum|]. intros s [_ _ (e & _ & -> & _)]. by eexists.
  - destruct Hg as [Hids _]. assert (Hle : (length spans <= length l)%nat); [|unfold zlen in *; lia].
    rewrite <- (length_fmap span_identity spans), Hids, <- (length_fmap identity_of_entry l). destruct (runs_sorted_strict _ order_identity _ (identities_sorted _ Hs)) as [_ Hnd].
    apply submseteq_length, NoDup_submseteq; [done|]. intros i Hi. by rewrite elem_runs in Hi.
Qed.
End views.

(** ** An example *)

(** An observation committed at a place, with a key. *)
Definition sample_entry (id position ordinal key : Z) : ConsolidationEntry :=
  match structural_representative (sample_span id None 0 10 "web") with
  | Some o => mkConsolidationEntry (mkScannedSpan (scanned_stored o) (mkCommitPosition position) (mkRecordOrdinal ordinal)) [key]
  | None => mkConsolidationEntry (mkScannedSpan (mkStoredSpan (mkSpanObservation [] [] None (sample_text "") (span_time 0) (span_time 0) [] KindInternal Sampled sample_provenance sample_details)
              (mkIngestTime (mkUnixNanoseconds 0) true)) (mkCommitPosition position) (mkRecordOrdinal ordinal)) [key]
  end.

(** Two spans; the first has a retry, and a conflicting variant that was committed before it. *)
Definition sample_entries : list ConsolidationEntry := [sample_entry 2 7 0 1; sample_entry 1 9 1 5; sample_entry 1 3 0 8; sample_entry 1 4 2 5].

Abbreviation run_consolidation entries := (@consolidate_entries unit ExactAllocator (QuietEnvironment unit) entries tt).

(** What a logical span counts, and where its variants were committed first. *)
Definition span_overview (s : LogicalSpan) : bytes * Z * list (Z * Z) * nat :=
  (ls_span_id s, ls_observation_count s, map (fun v => (position_value (commit_position (variant_observation v)), variant_count v)) (variants s), structural_variant s).

Example sample_consolidation : match snd (run_consolidation sample_entries) with Ok spans => map span_overview spans | Err _ => [] end
  = [(sample_id 1, 3, [(4, 2); (3, 1)], 1%nat); (sample_id 2, 1, [(7, 1)], 0%nat)].
Proof. vm_compute. reflexivity. Qed.
