(* ===== verification/TraceCodec.v ===== *)
(** Trace store: the block format, written.

    Models [positron-signals/src/trace_store/codec/format.rs], [encode.rs] and [encoded_size.rs],
    and the limits of [types.rs]. An encoder is a computation on the bytes written so far and on
    the state of its output: a growing vector, or the preallocated and observed output of a
    semantic key. The size pass runs under an observer, which may refuse any step. *)

From Stdlib Require Import Ascii String.
From S2P Require Import Prelude Outcome Identity Limits Routing SourceTime Values Observe Traversal Occurrences PolicyModel RetentionTime LogStore LogCodec TraceModel.

(** ** Limits and tags *)

(** [positron-signals/src/trace_store/types.rs:8-18 TraceLimits] *)
Record TraceLimits := mkTraceLimits {
  tl_attribute_sets : Z;
  tl_occurrences : Z;
  tl_key_path_bytes : Z;
  tl_value_bytes : Z;
  tl_nesting_depth : Z;
  tl_array_entries : Z;
  tl_key_value_list_entries : Z;
  tl_encoded_bytes : Z;
  tl_decoded_bytes : Z;
}.

(** [positron-signals/src/trace_store/types.rs:20-49 limits_for] A [u32] fits a [usize]. *)
Definition limits_for (profile : ValueLimitProfile) : result TraceStoreFailure TraceLimits :=
  let limits := effective_limits profile in
  let dynamic := dynamic_value limits in
  let occurrences := collection_limit (attributes_per_namespace dynamic) in
  sets ← ok_or trace_limit_exceeded (checked_mul u32_max occurrences 3);
  let depth := nesting_limit (nesting_depth dynamic) in
  if u8_max <? depth then Err trace_limit_exceeded else
  Ok (mkTraceLimits sets occurrences (byte_limit (key_path_bytes dynamic)) (byte_limit (individual_value_bytes dynamic)) depth
        (collection_limit (array_entries dynamic)) (collection_limit (key_value_list_entries dynamic))
        (byte_limit (encoded_record_bytes (record limits))) (byte_limit (decoded_record_bytes (record limits)))).

(** [positron-signals/src/trace_store/codec/format.rs:8-14 MAGIC!] The constants of the format. *)
Definition TRACE_MAGIC : bytes := bytes_of_string "PTRCBL01".
Definition TRACE_LEGACY_VERSION : Z := 1.
Definition DETAILS_VERSION : Z := 2.
Definition TRACE_VERSION : Z := 3.
Definition MAX_RECORDS : Z := 1024.
Definition TRACE_MAX_BLOCK_BYTES : Z := 1048576.
Definition OUT_OF_RANGE_TIME_TAG : Z := 6.

(** [positron-signals/src/trace_store/codec/format.rs:16-18 supported_version] *)
Definition supported_version (version : Z) : bool :=
  (version =? TRACE_LEGACY_VERSION) || (version =? DETAILS_VERSION) || (version =? TRACE_VERSION).

(** [positron-signals/src/trace_store/codec/format.rs:20-26 status_tag] *)
Definition status_tag (c : SpanStatusCode) : Z := match c with StatusUnset => 0 | StatusOk => 1 | StatusError => 2 end.

(** [positron-signals/src/trace_store/codec/format.rs:47-55 quality_tag] *)
Definition span_quality_tag (q : SourceTimeQuality) : Z :=
  match q with Usable => 1 | Missing => 2 | Zero => 3 | Outlier => 4 | Contradictory => 5 end.

(** [positron-signals/src/trace_store/codec/format.rs:70-77 namespace_tag] *)
Definition span_namespace_tag (n : AttributeNamespace) : result TraceStoreFailure Z :=
  match n with NsResource => Ok 1 | NsInstrumentationScope => Ok 2 | NsRecord => Ok 3 | NsStream => Err trace_invalid_input end.

(** [positron-signals/src/trace_store/codec/format.rs:97-106 kind_tag] *)
Definition span_kind_tag (k : SpanKind) : Z :=
  match k with KindUnspecified => 0 | KindInternal => 1 | KindServer => 2 | KindClient => 3 | KindProducer => 4 | KindConsumer => 5 end.

(** [positron-signals/src/trace_store/codec/format.rs:120-126 sampling_tag] *)
Definition sampling_tag (d : SamplingDecision) : Z := match d with SamplingUnknown => 0 | NotSampled => 1 | Sampled => 2 end.

(** [positron-signals/src/trace_store/codec/encode.rs:427-434 marker_action_tag] *)
Definition span_action_tag (a : MarkerAction) : Z :=
  match a with Removed => 0 | Redacted => 1 | TruncatedBytes => 2 | TruncatedElements => 3 end.

(** [positron-signals/src/trace_store/codec/encode.rs:436-448 native_kind_tag] *)
Definition span_native_tag (k : AttributeValueKind) : result TraceStoreFailure Z :=
  match k with
  | KNull => Ok 0 | KBoolean => Ok 1 | KSignedInteger => Ok 2 | KFloatingPoint => Ok 3
  | KString => Ok 4 | KBytes => Ok 5 | KArray => Ok 6 | KKeyValueList => Ok 7
  | KMarker => Err trace_invalid_input
  end.

(** ** Computations on a byte string *)

(** On the bytes of an output or of an input, and on the state of the environment. *)
Definition Cur (S A : Type) : Type := bytes -> S -> bytes * S * result TraceStoreFailure A.
#[global] Instance Cur_ret {S} : MRet (Cur S) := fun A a b s => (b, s, Ok a).
#[global] Instance Cur_bind {S} : MBind (Cur S) := fun A B k m b s =>
  match m b s with (b, s, Ok a) => k a b s | (b, s, Err e) => (b, s, Err e) end.
Definition cur_of {S A} (r : result TraceStoreFailure A) : Cur S A := fun b s => (b, s, r).
Definition cur_fail {S A} (e : TraceStoreFailure) : Cur S A := cur_of (Err e).
Definition cur_tr {S A} (m : Tr S A) : Cur S A := fun b s => let '(s, r) := m s in (b, s, r).

(** A [for] loop over a slice, and one that keeps an accumulator. *)
Definition cur_each {S A} (f : A -> Cur S unit) : list A -> Cur S unit :=
  fix go l := match l with [] => mret tt | a :: l => _ ← f a; go l end.
Definition cur_fold {S A B} (f : B -> A -> Cur S B) : list A -> B -> Cur S B :=
  fix go l b := match l with [] => mret b | a :: l => b ← f b a; go l b end.

(** [usize::checked_add] filtered by a limit. *)
Definition filtered_add (limit : Z) (e : TraceStoreFailure) (n m : Z) : result TraceStoreFailure Z :=
  match checked_add usize_max n m with
  | Some n => if n <=? limit then Ok n else Err e
  | None => Err e
  end.

(** ** Outputs *)

(** [positron-signals/src/trace_store/codec/encode.rs:18-20 EncodeOutput] *)
Class EncodeOutput (S : Type) := { put_slice : bytes -> Cur S unit }.

Section outputs.
Context {S : Type} {Alloc : Allocator S} {Env : ScanEnvironment S}.

(** [positron-signals/src/trace_store/codec/encode.rs:450-463 put_slice] The reservation asks for the
    additional bytes. *)
Definition vec_put_slice (value : bytes) : Cur S unit := fun output s =>
  match checked_add usize_max (zlen output) (zlen value) with
  | None => (output, s, Err trace_limit_exceeded)
  | Some length =>
      if TRACE_MAX_BLOCK_BYTES <? length then (output, s, Err trace_limit_exceeded) else
      let '(s, cap) := try_reserve_exact (zlen value) s in
      match cap with
      | Some _ => (output ++ value, s, Ok tt)
      | None => (output, s, Err trace_resource_exhausted)
      end
  end.
Definition VecOutput : EncodeOutput S := {| put_slice := vec_put_slice |}.

(** [positron-signals/src/trace_store/codec/encode.rs:465-478 put_preallocated_slice] *)
Definition put_preallocated_slice (capacity : Z) (value : bytes) : Cur S unit := fun output s =>
  match checked_add usize_max (zlen output) (zlen value) with
  | None => (output, s, Err trace_limit_exceeded)
  | Some length =>
      if TRACE_MAX_BLOCK_BYTES <? length then (output, s, Err trace_limit_exceeded)
      else if capacity <? length then (output, s, Err trace_resource_exhausted)
      else (output ++ value, s, Ok tt)
  end.

(** [positron-signals/src/trace_store/codec/encode.rs:41-50 ObservedSemanticOutput::put_slice] *)
Definition observed_put_slice (capacity : Z) (value : bytes) : Cur S unit :=
  cur_each (fun chunk =>
    _ ← cur_tr check_cancel;
    _ ← cur_tr observe_unit;
    put_preallocated_slice capacity chunk) (chunks 4096 value).
Definition ObservedSemanticOutput (capacity : Z) : EncodeOutput S := {| put_slice := observed_put_slice capacity |}.
End outputs.

(** ** Encoding *)

Section encoding.
Context {S : Type} {Out : EncodeOutput S}.

(** [positron-signals/src/trace_store/codec/encode.rs:470-509 put_u8!] The integers, counts and
    byte strings. *)
Definition out_u8 (n : Z) : Cur S unit := put_slice [n].
Definition out_u16 (n : Z) : Cur S unit := put_slice (be_bytes 2 n).
Definition out_u32 (n : Z) : Cur S unit := put_slice (be_bytes 4 n).
Definition out_count (n : Z) : Cur S unit := if n <=? u16_max then out_u16 n else cur_fail trace_limit_exceeded.
Definition out_u64 (n : Z) : Cur S unit := put_slice (be_bytes 8 n).
Definition out_i64 (n : Z) : Cur S unit := put_slice (be_bytes 8 n).
Definition out_bytes (b : bytes) : Cur S unit :=
  if zlen b <=? u32_max then _ ← put_slice (be_bytes 4 (zlen b)); put_slice b else cur_fail trace_limit_exceeded.

(** [positron-signals/src/trace_store/codec/encode.rs:284-295 encode_time] *)
Definition encode_time (t : EventTime) : Cur S unit :=
  match EventTime_source_value t with
  | Some value =>
      if i64_max <? value then _ ← out_u8 OUT_OF_RANGE_TIME_TAG; out_u64 value else
      _ ← out_u8 (span_quality_tag (event_quality t));
      match event_instant t with Some i => out_i64 (nanos i) | None => mret tt end
  | None =>
      _ ← out_u8 (span_quality_tag (event_quality t));
      match event_instant t with Some i => out_i64 (nanos i) | None => mret tt end
  end.

(** [positron-signals/src/trace_store/codec/encode.rs:297-425 encode_value] The accessors of a value
    follow its constructor. *)
Fixpoint encode_value (limits : TraceLimits) (v : ValidatedAttributeValue) (depth : Z) : Cur S unit :=
  match v with
  | VMarker m =>
      _ ← out_u8 8;
      _ ← out_u8 (span_action_tag (action m));
      tag ← cur_of (span_native_tag (original_kind m));
      out_u8 tag
  | VTruncated child a =>
      _ ← out_u8 8;
      _ ← out_u8 (span_action_tag a);
      tag ← cur_of (span_native_tag (kind child));
      _ ← out_u8 tag;
      encode_value limits child depth
  | VNull => out_u8 0
  | VBoolean b => _ ← out_u8 1; out_u8 (if b then 1 else 0)
  | VSignedInteger z => _ ← out_u8 2; out_i64 z
  | VFloatingPointBits z => _ ← out_u8 3; out_u64 z
  | VString t =>
      _ ← out_u8 4;
      if tl_value_bytes limits <? rs_len t then cur_fail trace_limit_exceeded else out_bytes (text t)
  | VBytes t =>
      _ ← out_u8 5;
      if tl_value_bytes limits <? rs_len t then cur_fail trace_limit_exceeded else out_bytes (text t)
  | VArray vs _ =>
      next ← cur_of (ok_or trace_limit_exceeded (checked_sub depth 1));
      _ ← out_u8 6;
      if tl_array_entries limits <? zlen vs then cur_fail trace_limit_exceeded else
      _ ← out_count (zlen vs);
      cur_each (fun v => encode_value limits v next) vs
  | VKeyValueList es _ =>
      next ← cur_of (ok_or trace_limit_exceeded (checked_sub depth 1));
      _ ← out_u8 7;
      if tl_key_value_list_entries limits <? zlen es then cur_fail trace_limit_exceeded else
      _ ← out_count (zlen es);
      cur_each (fun '(k, v) =>
        if tl_key_path_bytes limits <? rs_len k then cur_fail trace_limit_exceeded else
        _ ← out_bytes (text k);
        encode_value limits v next) es
  end.

(** The key and the occurrences of one attribute. *)
Definition encode_occurrences (limits : TraceLimits) (set : AttributeOccurrenceSet) : Cur S unit :=
  _ ← out_bytes (text (key set));
  _ ← out_count (set_len set);
  cur_each (fun v => encode_value limits v (tl_nesting_depth limits)) (occurrences set).

(** [positron-signals/src/trace_store/codec/encode.rs:254-282 encode_span_attributes] *)
Definition encode_span_attributes (limits : TraceLimits) (attributes : list SpanAttributeSet) : Cur S unit :=
  if MAX_DETAIL_COLLECTION <? zlen attributes then cur_fail trace_limit_exceeded else
  _ ← out_count (zlen attributes);
  _ ← cur_fold (fun n a =>
    let set := detail_occurrences a in
    if tl_key_path_bytes limits <? rs_len (key set) then cur_fail trace_limit_exceeded else
    n ← cur_of (filtered_add (tl_occurrences limits) trace_limit_exceeded n (set_len set));
    _ ← encode_occurrences limits set;
    mret n) attributes 0;
  mret tt.

(** [positron-signals/src/trace_store/codec/encode.rs:224-236 encode_event] *)
Definition encode_event (limits : TraceLimits) (e : SpanEvent) : Cur S unit :=
  if bool_decide (text (span_event_name e) = []) || (tl_key_path_bytes limits <? rs_len (span_event_name e)) then cur_fail trace_invalid_input else
  _ ← encode_time (event_timestamp e);
  _ ← out_bytes (text (span_event_name e));
  _ ← out_u32 (event_dropped e);
  encode_span_attributes limits (event_attributes e).

(** [positron-signals/src/trace_store/codec/encode.rs:238-252 encode_link] *)
Definition encode_link (limits : TraceLimits) (l : SpanLink) : Cur S unit :=
  if tl_key_path_bytes limits <? rs_len (link_trace_state l) then cur_fail trace_limit_exceeded else
  _ ← put_slice (link_trace_id l);
  _ ← put_slice (link_span_id l);
  _ ← out_bytes (text (link_trace_state l));
  _ ← out_u32 (link_flags l);
  _ ← out_u32 (link_dropped l);
  encode_span_attributes limits (link_attributes l).

(** The guard shared by [encode_details] and [encoded_details_length]. *)
Definition details_exceed (limits : TraceLimits) (d : SpanObservationDetails) : bool :=
  existsb (fun s => tl_key_path_bytes limits <? rs_len s)
    [trace_state d; status_message (status d); resource_url (span_resource d); span_scope_name (span_scope d);
     span_scope_version (span_scope d); scope_url (span_scope d)]
  || (MAX_DETAIL_COLLECTION <? zlen (events d)) || (MAX_DETAIL_COLLECTION <? zlen (links d)).

(** [positron-signals/src/trace_store/codec/encode.rs:184-222 encode_details] *)
Definition encode_details (limits : TraceLimits) (d : SpanObservationDetails) : Cur S unit :=
  if details_exceed limits d then cur_fail trace_limit_exceeded else
  _ ← out_bytes (text (trace_state d));
  _ ← out_u32 (span_flags d);
  _ ← out_u8 (status_tag (status_code (status d)));
  _ ← out_bytes (text (status_message (status d)));
  _ ← out_u32 (dropped_attributes d);
  _ ← out_u32 (dropped_events d);
  _ ← out_u32 (dropped_links d);
  _ ← out_u32 (resource_dropped (span_resource d));
  _ ← out_bytes (text (resource_url (span_resource d)));
  _ ← out_bytes (text (span_scope_name (span_scope d)));
  _ ← out_bytes (text (span_scope_version (span_scope d)));
  _ ← out_u32 (scope_dropped (span_scope d));
  _ ← out_bytes (text (scope_url (span_scope d)));
  _ ← out_count (zlen (events d));
  _ ← cur_each (encode_event limits) (events d);
  _ ← out_count (zlen (links d));
  cur_each (encode_link limits) (links d).

(** One turn of the loop that counts the occurrences of every namespace. *)
Definition count_namespace (limits : TraceLimits) (missing exceeded : TraceStoreFailure) (counts : list Z) (ns : AttributeNamespace) (n : Z)
  : result TraceStoreFailure (list Z) :=
  i ← ok_or missing (span_namespace_index ns);
  c ← ok_or missing (counts !! i);
  c ← filtered_add (tl_occurrences limits) exceeded c n;
  Ok (<[i := c]> counts).

(** The attributes of an observation. *)
Definition encode_span_attribute (limits : TraceLimits) (a : AttributeOccurrenceSet) : Cur S unit :=
  tag ← cur_of (span_namespace_tag (namespace a));
  _ ← out_u8 tag;
  encode_occurrences limits a.

(** The checks that follow the attributes. *)
Definition check_attributes (limits : TraceLimits) (o : SpanObservation) : result TraceStoreFailure unit :=
  if bool_decide (text (so_name o) = []) || (tl_key_path_bytes limits <? rs_len (so_name o)) then Err trace_invalid_input else
  if tl_attribute_sets limits <? zlen (so_attributes o) then Err trace_limit_exceeded else
  _ ← try_fold (fun counts a =>
    if tl_key_path_bytes limits <? rs_len (key a) then Err trace_limit_exceeded else
    count_namespace limits trace_invalid_input trace_limit_exceeded counts (namespace a) (set_len a)) [0; 0; 0] (so_attributes o);
  Ok tt.

(** The provenance of an observation. *)
Definition encode_provenance (p : PolicyProvenance) : Cur S unit :=
  _ ← out_u64 (prov_generation p);
  _ ← put_slice (prov_digest p);
  _ ← out_count (zlen (applied_rules p));
  cur_each (fun rule => out_bytes (text rule)) (applied_rules p).

(** [positron-signals/src/trace_store/codec/encode.rs:120-182 encode_semantic_observation] *)
Definition encode_semantic_observation (profile : ValueLimitProfile) (o : SpanObservation) : Cur S unit :=
  limits ← cur_of (limits_for profile);
  _ ← put_slice (so_trace_id o);
  _ ← put_slice (so_span_id o);
  _ ← match so_parent_span_id o with
      | Some parent => _ ← out_u8 1; put_slice parent
      | None => out_u8 0
      end;
  _ ← out_u8 (span_kind_tag (so_kind o));
  _ ← out_u8 (sampling_tag (so_sampling o));
  _ ← encode_time (so_start_time o);
  _ ← encode_time (so_end_time o);
  _ ← out_bytes (text (so_name o));
  _ ← out_count (zlen (so_attributes o));
  _ ← cur_each (encode_span_attribute limits) (so_attributes o);
  _ ← cur_of (check_attributes limits o);
  _ ← encode_details limits (so_details o);
  encode_provenance (so_policy o).

(** [positron-signals/src/trace_store/codec/encode.rs:82-89 encode_observation] *)
Definition encode_observation (profile : ValueLimitProfile) (r : StoredSpanObservation) : Cur S unit :=
  _ ← encode_semantic_observation profile (stored_observation r);
  out_i64 (nanos (instant (span_ingest_time r))).
End encoding.

(** ** The size pass *)

(** [positron-signals/src/trace_store/codec/encoded_size.rs:16-26 UnobservedSize::impl] *)
Definition UnobservedSize (S : Type) : NativeValueObserver S TraceStoreFailure := {|
  obs_structure := fun s => (s, Ok tt);
  obs_payload := fun _ s => (s, Ok tt);
  obs_allocation := fun _ s => (s, Ok tt);
  obs_release := fun _ s => (s, Ok tt);
|}.

(** One observed unit for every chunk of a payload. *)
Fixpoint observe_units {S} {Env : ScanEnvironment S} (cs : list bytes) : Tr S unit :=
  match cs with [] => mret tt | _ :: cs => _ ← check_cancel; _ ← observe_unit; observe_units cs end.

(** [positron-signals/src/trace_store/codec/encoded_size.rs:35-51 ObservedSize::impl] It leaves the
    allocations unobserved. *)
Definition ObservedSize (S : Type) {Env : ScanEnvironment S} : NativeValueObserver S TraceStoreFailure := {|
  obs_structure := (_ ← check_cancel; observe_unit : Tr S unit);
  obs_payload := fun payload => observe_units (chunks NATIVE_VALUE_PAYLOAD_CHUNK_BYTES payload);
  obs_allocation := fun _ s => (s, Ok tt);
  obs_release := fun _ s => (s, Ok tt);
|}.

(** [positron-signals/src/trace_store/codec/encoded_size.rs:377-381 add_length] *)
Definition add_length (total n : Z) : result TraceStoreFailure Z := ok_or trace_limit_exceeded (checked_add usize_max total n).

(** [positron-signals/src/trace_store/codec/encoded_size.rs:373-375 add_bytes_length] *)
Definition add_bytes_length (total n : Z) : result TraceStoreFailure Z := add_length total (4 + n).

(** [positron-signals/src/trace_store/codec/encoded_size.rs:369-371 encoded_time_length] *)
Definition encoded_time_length (t : EventTime) : Z :=
  1 + match event_instant t, EventTime_source_value t with None, None => 0 | _, _ => 8 end.

(** [positron-signals/src/trace_store/details.rs:335-342 observed_value_failure] *)
Definition observed_value_failure (f : ObservedValueFailure TraceStoreFailure) : TraceStoreFailure :=
  match f with DomainF f => trace_domain f | ObserverF f => f end.

(** A [for] loop of a bounded computation, with an accumulator. *)
Definition tr_fold {S A B} (f : B -> A -> Tr S B) : list A -> B -> Tr S B :=
  fix go l b := match l with [] => mret b | a :: l => b ← f b a; go l b end.

Section sizes.
Context {S : Type} {Obs : NativeValueObserver S TraceStoreFailure}.

Definition size_structure : Tr S unit := obs_structure.
Definition size_payload (payload : bytes) : Tr S unit := obs_payload payload.

(** [positron-signals/src/trace_store/details.rs:325-333 observe_payload] *)
Definition detail_payload (payload : bytes) : Tr S unit :=
  tr_fold (fun _ chunk => size_payload chunk) (chunks NATIVE_VALUE_PAYLOAD_CHUNK_BYTES payload) tt.

(** A traversal of the domain under the observer of the size pass. *)
Definition size_value {A} (m : M S TraceStoreFailure A) : Tr S A := fun s =>
  let '(s, r) := m s in (s, map_err observed_value_failure r).

(** [positron-signals/src/trace_store/details.rs:292-323 detail_decoded_bytes_observed] *)
Definition detail_decoded_bytes_observed (current name_bytes : Z) (attributes : list SpanAttributeSet) (limit : Z) : Tr S Z :=
  decoded ← tr_of (ok_or trace_limit_exceeded (checked_add usize_max current name_bytes));
  tr_fold (fun decoded a =>
    let set := detail_occurrences a in
    _ ← size_structure;
    _ ← detail_payload (text (key set));
    decoded ← tr_of (ok_or trace_limit_exceeded (checked_add usize_max decoded (rs_len (key set))));
    tr_fold (fun decoded v =>
      n ← size_value (decoded_size_bytes_observed v);
      tr_of (filtered_add limit trace_limit_exceeded decoded n)) (occurrences set) decoded) attributes decoded.

(** [positron-signals/src/trace_store/details.rs:242-289 SpanObservationDetails::decoded_size_bytes_observed] *)
Definition details_decoded_size_bytes_observed (d : SpanObservationDetails) (limit : Z) : Tr S Z :=
  let texts := [trace_state d; status_message (status d); resource_url (span_resource d); span_scope_name (span_scope d);
                span_scope_version (span_scope d); scope_url (span_scope d)] in
  _ ← size_structure;
  _ ← tr_fold (fun _ t => detail_payload (text t)) texts tt;
  initial ← tr_of (ok_or trace_limit_exceeded (try_fold_opt (checked_add usize_max) (rs_len (trace_state d))
    [rs_len (status_message (status d)); rs_len (resource_url (span_resource d)); rs_len (span_scope_name (span_scope d));
     rs_len (span_scope_version (span_scope d)); rs_len (scope_url (span_scope d))]));
  with_events ← tr_fold (fun total e =>
    _ ← size_structure;
    _ ← detail_payload (text (span_event_name e));
    detail_decoded_bytes_observed total (rs_len (span_event_name e)) (event_attributes e) limit) (events d) initial;
  tr_fold (fun total l =>
    _ ← size_structure;
    _ ← detail_payload (text (link_trace_state l));
    detail_decoded_bytes_observed total (rs_len (link_trace_state l)) (link_attributes l) limit) (links d) with_events.

(** [positron-signals/src/trace_store/codec/encoded_size.rs:271-367 encoded_value_length] *)
Fixpoint encoded_value_length (limits : TraceLimits) (v : ValidatedAttributeValue) (depth : Z) : Tr S Z :=
  _ ← size_structure;
  match v with
  | VMarker _ => mret 3
  | VTruncated child _ => n ← encoded_value_length limits child depth; tr_of (add_length 3 n)
  | VNull => mret 1
  | VBoolean _ => mret 2
  | VSignedInteger _ | VFloatingPointBits _ => mret 9
  | VString t | VBytes t =>
      if tl_value_bytes limits <? rs_len t then tr_fail trace_limit_exceeded else
      _ ← size_payload (text t);
      tr_of (add_bytes_length 1 (rs_len t))
  | VArray vs _ =>
      next ← tr_of (ok_or trace_limit_exceeded (checked_sub depth 1));
      if tl_array_entries limits <? zlen vs then tr_fail trace_limit_exceeded else
      tr_fold (fun total v => n ← encoded_value_length limits v next; tr_of (add_length total n)) vs 3
  | VKeyValueList es _ =>
      next ← tr_of (ok_or trace_limit_exceeded (checked_sub depth 1));
      if tl_key_value_list_entries limits <? zlen es then tr_fail trace_limit_exceeded else
      tr_fold (fun total '(k, v) =>
        _ ← size_structure;
        if tl_key_path_bytes limits <? rs_len k then tr_fail trace_limit_exceeded else
        _ ← size_payload (text k);
        total ← tr_of (add_bytes_length total (rs_len k));
        n ← encoded_value_length limits v next;
        tr_of (add_length total n)) es 3
  end.

(** The key and the occurrences of one attribute. *)
Definition occurrences_length (limits : TraceLimits) (set : AttributeOccurrenceSet) (total : Z) : Tr S Z :=
  _ ← size_payload (text (key set));
  total ← tr_of (add_bytes_length total (rs_len (key set)));
  total ← tr_of (add_length total 2);
  tr_fold (fun total v => n ← encoded_value_length limits v (tl_nesting_depth limits); tr_of (add_length total n)) (occurrences set) total.

(** [positron-signals/src/trace_store/codec/encoded_size.rs:235-269 encoded_span_attributes_length] *)
Definition encoded_span_attributes_length (limits : TraceLimits) (attributes : list SpanAttributeSet) : Tr S Z :=
  _ ← size_structure;
  if MAX_DETAIL_COLLECTION <? zlen attributes then tr_fail trace_limit_exceeded else
  '(_, total) ← tr_fold (fun '(n, total) a =>
    let set := detail_occurrences a in
    _ ← size_structure;
    if tl_key_path_bytes limits <? rs_len (key set) then tr_fail trace_limit_exceeded else
    n ← tr_of (filtered_add (tl_occurrences limits) trace_limit_exceeded n (set_len set));
    total ← occurrences_length limits set total;
    mret (n, total)) attributes (0, 2);
  mret total.

(** A payload that is observed and then added with its length. *)
Definition payload_length (total : Z) (t : RString) : Tr S Z :=
  _ ← size_payload (text t); tr_of (add_bytes_length total (rs_len t)).

(** One event, one link. *)
Definition event_length (limits : TraceLimits) (total : Z) (e : SpanEvent) : Tr S Z :=
  _ ← size_structure;
  if bool_decide (text (span_event_name e) = []) || (tl_key_path_bytes limits <? rs_len (span_event_name e)) then tr_fail trace_invalid_input else
  total ← tr_of (add_length total (encoded_time_length (event_timestamp e)));
  total ← payload_length total (span_event_name e);
  total ← tr_of (add_length total 4);
  n ← encoded_span_attributes_length limits (event_attributes e);
  tr_of (add_length total n).
Definition link_length (limits : TraceLimits) (total : Z) (l : SpanLink) : Tr S Z :=
  _ ← size_structure;
  if tl_key_path_bytes limits <? rs_len (link_trace_state l) then tr_fail trace_limit_exceeded else
  total ← tr_of (add_length total 24);
  total ← payload_length total (link_trace_state l);
  total ← tr_of (add_length total 8);
  n ← encoded_span_attributes_length limits (link_attributes l);
  tr_of (add_length total n).

(** [positron-signals/src/trace_store/codec/encoded_size.rs:168-233 encoded_details_length] *)
Definition encoded_details_length (limits : TraceLimits) (d : SpanObservationDetails) : Tr S Z :=
  _ ← size_structure;
  if details_exceed limits d then tr_fail trace_limit_exceeded else
  _ ← details_decoded_size_bytes_observed d (tl_decoded_bytes limits);
  total ← payload_length 0 (trace_state d);
  total ← tr_of (add_length total 5);
  total ← payload_length total (status_message (status d));
  total ← tr_of (add_length total 16);
  total ← payload_length total (resource_url (span_resource d));
  total ← payload_length total (span_scope_name (span_scope d));
  total ← payload_length total (span_scope_version (span_scope d));
  total ← tr_of (add_length total 4);
  total ← payload_length total (scope_url (span_scope d));
  total ← tr_of (add_length total 2);
  total ← tr_fold (event_length limits) (events d) total;
  total ← tr_of (add_length total 2);
  tr_fold (link_length limits) (links d) total.

(** [positron-signals/src/trace_store/codec/encoded_size.rs:101-166 encoded_observation_length] *)
Definition encoded_observation_length (limits : TraceLimits) (o : SpanObservation) : Tr S Z :=
  _ ← size_structure;
  if bool_decide (text (so_name o) = []) || (tl_key_path_bytes limits <? rs_len (so_name o)) then tr_fail trace_invalid_input else
  if tl_attribute_sets limits <? zlen (so_attributes o) then tr_fail trace_limit_exceeded else
  total ← tr_of (add_length 24 1);
  total ← tr_of (add_length total (match so_parent_span_id o with Some _ => 8 | None => 0 end));
  total ← tr_of (add_length total 2);
  total ← tr_of (add_length total (encoded_time_length (so_start_time o)));
  total ← tr_of (add_length total (encoded_time_length (so_end_time o)));
  total ← payload_length total (so_name o);
  total ← tr_of (add_length total 2);
  '(_, total) ← tr_fold (fun '(counts, total) a =>
    _ ← size_structure;
    if tl_key_path_bytes limits <? rs_len (key a) then tr_fail trace_limit_exceeded else
    counts ← tr_of (count_namespace limits trace_invalid_input trace_limit_exceeded counts (namespace a) (set_len a));
    total ← tr_of (add_length total 1);
    total ← occurrences_length limits a total;
    mret (counts, total)) (so_attributes o) ([0; 0; 0], total);
  n ← encoded_details_length limits (so_details o);
  total ← tr_of (add_length total n);
  total ← tr_of (add_length total 42);
  total ← tr_fold (fun total rule => _ ← size_structure; payload_length total rule) (applied_rules (so_policy o)) total;
  tr_of (add_length total 8).

(** [positron-signals/src/trace_store/codec/encoded_size.rs:89-99 encoded_record_bytes_with_limits_using] *)
Definition encoded_record_bytes_with_limits_using (limits : TraceLimits) (o : SpanObservation) : Tr S Z :=
  n ← encoded_observation_length limits o;
  if tl_encoded_bytes limits <? n then tr_fail trace_limit_exceeded else mret n.
End sizes.

(** [positron-signals/src/trace_store/codec/encoded_size.rs:81-87 encoded_record_bytes_with_limits] *)
Definition encoded_record_bytes_with_limits {S} (limits : TraceLimits) (o : SpanObservation) : Tr S Z :=
  encoded_record_bytes_with_limits_using (Obs := UnobservedSize S) limits o.

(** [positron-signals/src/trace_store/codec/encoded_size.rs:61-66 encoded_record_bytes_with_profile] *)
Definition encoded_record_bytes_with_profile {S} (profile : ValueLimitProfile) (o : SpanObservation) : Tr S Z :=
  limits ← tr_of (limits_for profile); encoded_record_bytes_with_limits limits o.

Section blocks.
Context {S : Type} {Alloc : Allocator S} {Env : ScanEnvironment S}.

(** [positron-signals/src/trace_store/codec/encoded_size.rs:68-79 encoded_record_bytes_with_profile_observed] *)
Definition encoded_record_bytes_with_profile_observed (profile : ValueLimitProfile) (o : SpanObservation) : Tr S Z :=
  limits ← tr_of (limits_for profile); encoded_record_bytes_with_limits_using (Obs := ObservedSize S) limits o.

(** [positron-signals/src/trace_store/codec/encode.rs:62-80 encode_block_with_profile] *)
Definition encode_block_with_profile (profile : ValueLimitProfile) (tenant : TenantId) (records : list StoredSpanObservation) : Tr S bytes :=
  if bool_decide (records = []) || (MAX_RECORDS <? zlen records) then tr_fail trace_limit_exceeded else fun s =>
  let Out := VecOutput in
  let '(output, s, r) := (
    _ ← put_slice TRACE_MAGIC;
    _ ← out_u16 TRACE_VERSION;
    _ ← put_slice (tenant_id_bytes tenant);
    _ ← out_count (zlen records);
    cur_each (fun record =>
      limits ← cur_of (limits_for profile);
      _ ← cur_tr (encoded_record_bytes_with_limits limits (stored_observation record));
      encode_observation profile record) records) [] s in
  (s, _ ← r; Ok output).

(** [positron-signals/src/trace_store/codec/encode.rs:95-118 encode_semantic_observation_with_profile_observed] *)
Definition encode_semantic_observation_with_profile_observed (profile : ValueLimitProfile) (o : SpanObservation) (expected : Z) : Tr S bytes := fun s =>
  let '(s, cap) := try_reserve_exact expected s in
  match cap with
  | None => (s, Err trace_resource_exhausted)
  | Some capacity =>
      let '(output, s, r) := encode_semantic_observation (Out := ObservedSemanticOutput capacity) profile o [] s in
      (s, _ ← r; if zlen output =? expected then Ok output else Err trace_invalid_input)
  end.
End blocks.
