(* ===== verification/TraceDecode.v ===== *)
(** Trace store: the block format, read.

    Models [positron-signals/src/trace_store/codec/decode.rs], [decode_details.rs] and
    [bounds.rs]: the input cursor, the decoder of blocks, and the preflight that bounds the memory
    of a decode before anything is allocated. Both recurse through truncation markers without a
    bound on the depth, so they take fuel; every level consumes bytes, and the fuel is more than
    the bytes that are left. *)

From Stdlib Require Import Ascii String.
From S2P Require Import Prelude Outcome Identity Limits Routing SourceTime Values Observe Traversal Validation Shape Occurrences PolicyModel PolicyCodec RetentionTime LogStore LogCodec TraceModel TraceCodec.

(** [positron-signals/src/trace_store/failure.rs:57-63 TraceStoreFailure!] *)
Definition trace_malformed : TraceStoreFailure := trace_rejected TraceMalformedBlock.
Definition trace_scope_mismatch : TraceStoreFailure := trace_rejected TracePhysicalScopeMismatch.

(** [positron-signals/src/trace_store/failure.rs:109-111 TraceStoreFailure::validation] With
    [validation_code]. *)
Definition trace_validation (f : DomainFailure) : TraceStoreFailure :=
  trace_rejected (match trace_domain_code (code f) with TraceResourceExhausted => TraceResourceExhausted | _ => TraceMalformedBlock end).

(** [positron-signals/src/trace_store/failure.rs:201-221 classify_kernel_failure_code] *)
Definition trace_code_of_ledger (code : LedgerFailureCode) : TraceStoreFailureCode :=
  match code with
  | LedgerInvalidInput => TraceInvalidInput
  | LedgerPhysicalScopeMismatch => TracePhysicalScopeMismatch
  | LedgerLimitExceeded => TraceLimitExceeded
  | LedgerResourceAdmissionRefused => TraceResourceAdmissionRefused
  | LedgerStorageUnavailable => TraceStorageUnavailable
  | LedgerIntegrityCorruption => TraceIntegrityCorruption
  | LedgerAuthenticationFailed => TraceAuthenticationFailed
  | LedgerConcurrentWriter => TraceConcurrentWriter
  | LedgerUnsupportedFormat => TraceUnsupportedFormat
  | LedgerStorageExhausted => TraceStorageExhausted
  | LedgerIdempotencyConflict => TraceIdempotencyConflict
  | LedgerStaleGeneration => TraceStaleGeneration
  | LedgerRecoveryRequired => TraceRecoveryRequired
  | LedgerCancelled => TraceCancelled
  | LedgerSnapshotExpired => TraceSnapshotExpired
  | LedgerStaleResumeMarker => TraceStaleResumeMarker
  | LedgerClockUncertain => TraceClockUncertain
  end.

(** [positron-signals/src/trace_store/failure.rs:127-132 TraceStoreFailure::kernel] *)
Definition trace_kernel (f : LedgerFailure) : TraceStoreFailure :=
  mkTraceStoreFailure (trace_code_of_ledger (ledger_code f)) (ledger_completion f).

(** A failure of a constructor inside a block. *)
Definition or_malformed_block {E A} (r : result E A) : result TraceStoreFailure A := map_err (fun _ => trace_malformed) r.

(** ** Tags *)

(** [positron-signals/src/trace_store/codec/format.rs:28-37 decode_status_tag] *)
Definition decode_status_tag (tag : Z) : result TraceStoreFailure SpanStatusCode :=
  match tag with 0 => Ok StatusUnset | 1 => Ok StatusOk | 2 => Ok StatusError | _ => Err trace_malformed end.

(** [positron-signals/src/trace_store/codec/format.rs:57-68 decode_quality] *)
Definition decode_span_quality (tag : Z) : result TraceStoreFailure SourceTimeQuality :=
  match tag with
  | 1 => Ok Usable | 2 => Ok Missing | 3 => Ok Zero | 4 => Ok Outlier | 5 => Ok Contradictory
  | _ => Err trace_malformed
  end.

(** [positron-signals/src/trace_store/codec/format.rs:79-86 decode_namespace] *)
Definition decode_span_namespace (tag : Z) : result TraceStoreFailure AttributeNamespace :=
  match tag with 1 => Ok NsResource | 2 => Ok NsInstrumentationScope | 3 => Ok NsRecord | _ => Err trace_malformed end.

(** [positron-signals/src/trace_store/codec/format.rs:108-118 decode_kind] *)
Definition decode_kind (tag : Z) : result TraceStoreFailure SpanKind :=
  match tag with
  | 0 => Ok KindUnspecified | 1 => Ok KindInternal | 2 => Ok KindServer | 3 => Ok KindClient | 4 => Ok KindProducer
  | 5 => Ok KindConsumer | _ => Err trace_malformed
  end.

(** [positron-signals/src/trace_store/codec/format.rs:128-135 decode_sampling] *)
Definition decode_sampling (tag : Z) : result TraceStoreFailure SamplingDecision :=
  match tag with 0 => Ok SamplingUnknown | 1 => Ok NotSampled | 2 => Ok Sampled | _ => Err trace_malformed end.

(** [positron-signals/src/trace_store/codec/decode_details.rs:246-263 decode_value!] The tags of a
    marker. *)
Definition span_action_of (tag : Z) : option MarkerAction :=
  match tag with 0 => Some Removed | 1 => Some Redacted | 2 => Some TruncatedBytes | 3 => Some TruncatedElements | _ => None end.
Definition span_native_of (tag : Z) : option AttributeValueKind :=
  match tag with
  | 0 => Some KNull | 1 => Some KBoolean | 2 => Some KSignedInteger | 3 => Some KFloatingPoint
  | 4 => Some KString | 5 => Some KBytes | 6 => Some KArray | 7 => Some KKeyValueList | _ => None
  end.

(** [positron-signals/src/trace_store/codec/decode_details.rs:283-296 candidate_kind] *)
Fixpoint span_candidate_kind (v : CandidateAttributeValue) : AttributeValueKind :=
  match v with
  | CNull => KNull | CBoolean _ => KBoolean | CSignedInteger _ => KSignedInteger | CFloatingPointBits _ => KFloatingPoint
  | CString _ => KString | CBytes _ => KBytes | CArray _ => KArray | CKeyValueList _ => KKeyValueList
  | CMarker _ => KMarker
  | CTruncated v _ => span_candidate_kind v
  end.

(** [positron-signals/src/trace_store/codec/decode_details.rs:298-303 candidate_has_marker] *)
Definition span_candidate_has_marker (v : CandidateAttributeValue) : bool :=
  match v with CMarker _ | CTruncated _ _ => true | _ => false end.

(** [positron-signals/src/trace_store/codec/decode_details.rs:305-316 valid_truncation] *)
Definition span_valid_truncation (a : MarkerAction) (k : AttributeValueKind) : bool :=
  match a, k with
  | TruncatedBytes, (KString | KBytes) | TruncatedElements, (KArray | KKeyValueList) => true
  | _, _ => false
  end.

(** ** The input *)

Section decoding.
Context {S : Type} {Alloc : Allocator S} {Lay : Layout} {Env : ScanEnvironment S}.

Definition cur_malformed {A} : Cur S A := cur_fail trace_malformed.

(** A loop that pushes [n] decoded elements, and one that keeps an accumulator. *)
Fixpoint cur_gather {A} (n : nat) (m : Cur S A) : Cur S (list A) :=
  match n with O => mret [] | Datatypes.S n => a ← m; l ← cur_gather n m; mret (a :: l) end.
Fixpoint cur_loop {B} (n : nat) (m : B -> Cur S B) (b : B) : Cur S B :=
  match n with O => mret b | Datatypes.S n => b ← m b; cur_loop n m b end.

(** [Vec::try_reserve_exact] on an empty vector. *)
Definition reserve_vec (n : Z) : Cur S Z := fun b s =>
  let '(s, cap) := try_reserve_exact n s in (b, s, ok_or trace_resource_exhausted cap).

(** [slice::split_at_checked]. *)
Definition in_split (count : Z) : Cur S bytes := fun b s =>
  if count <=? zlen b then (drop (Z.to_nat count) b, s, Ok (take (Z.to_nat count) b)) else (b, s, Err trace_malformed).

(** [positron-signals/src/trace_store/codec/decode.rs:296-304 Input::take] With [poll]. *)
Definition in_take (count : Z) : Cur S bytes := _ ← cur_tr check_cancel; in_split count.

(** [positron-signals/src/trace_store/codec/decode.rs:353-359 Input::array] *)
Definition in_array (n : Z) : Cur S bytes := in_take n.

(** [positron-signals/src/trace_store/codec/decode.rs:306-311 Input::u8] *)
Definition in_u8 : Cur S Z := b ← in_take 1; cur_of (ok_or trace_malformed (head b)).

(** [positron-signals/src/trace_store/codec/decode.rs:310-348 Input!] The fixed-width integers. *)
Definition in_uint (n : Z) : Cur S Z := b ← in_take n; mret (be_value b).
Definition in_u16 : Cur S Z := in_uint 2.
Definition in_u32 : Cur S Z := in_uint 4.
Definition in_u64 : Cur S Z := in_uint 8.
Definition in_i64 : Cur S Z := v ← in_u64; mret (as_i64 v).

(** [positron-signals/src/trace_store/codec/decode.rs:361-368 Input::count] *)
Definition in_count (maximum : Z) : Cur S Z := count ← in_u16; if maximum <? count then cur_malformed else mret count.

(** [positron-signals/src/trace_store/codec/decode.rs:380-387 Input::raw_bytes] *)
Definition in_raw_bytes (maximum : Z) : Cur S bytes := count ← in_u32; if maximum <? count then cur_malformed else in_take count.

(** [positron-signals/src/trace_store/codec/decode.rs:370-378 Input::bytes] *)
Definition in_bytes (maximum : Z) : Cur S RString := b ← in_raw_bytes maximum; cap ← reserve_vec (zlen b); mret (mkRString b cap).

(** [positron-signals/src/trace_store/codec/decode.rs:389-392 Input::string] *)
Definition in_string (maximum : Z) : Cur S RString := t ← in_bytes maximum; if utf8_valid (text t) then mret t else cur_malformed.

(** [positron-signals/src/trace_store/codec/decode.rs:394-397 Input::raw_string] *)
Definition in_raw_string (maximum : Z) : Cur S bytes := b ← in_raw_bytes maximum; if utf8_valid b then mret b else cur_malformed.

(** [positron-signals/src/trace_store/codec/decode.rs:399-407 Input::observe_component] *)
Definition in_component : Cur S unit := _ ← cur_tr check_cancel; cur_tr observe_unit.

(** [positron-signals/src/trace_store/codec/decode.rs:409-415 Input::observe_decoded_record] *)
Definition in_decoded_record : Cur S unit := cur_tr (fun s =>
  let '(s, r) := observe_decoded_records 1 s in (s, map_err trace_observation r)).

(** ** Values *)

(** [positron-signals/src/trace_store/codec/decode_details.rs:190-281 decode_value] *)
Fixpoint decode_value (fuel : nat) (limits : TraceLimits) (version depth : Z) : Cur S CandidateAttributeValue :=
  match fuel with
  | O => cur_malformed
  | Datatypes.S fuel =>
      _ ← in_component;
      tag ← in_u8;
      match tag with
      | 0 => mret CNull
      | 1 => b ← in_u8; match b with 0 => mret (CBoolean false) | 1 => mret (CBoolean true) | _ => cur_malformed end
      | 2 => z ← in_i64; mret (CSignedInteger z)
      | 3 => z ← in_u64; mret (CFloatingPointBits z)
      | 4 => t ← in_string (tl_value_bytes limits); mret (CString t)
      | 5 => t ← in_bytes (tl_value_bytes limits); mret (CBytes t)
      | 6 =>
          next ← cur_of (ok_or trace_malformed (checked_sub depth 1));
          count ← in_count (tl_array_entries limits);
          _ ← reserve_vec count;
          vs ← cur_gather (Z.to_nat count) (decode_value fuel limits version next);
          mret (CArray vs)
      | 7 =>
          next ← cur_of (ok_or trace_malformed (checked_sub depth 1));
          count ← in_count (tl_key_value_list_entries limits);
          _ ← reserve_vec count;
          es ← cur_gather (Z.to_nat count) (
            k ← in_string (tl_key_path_bytes limits);
            v ← decode_value fuel limits version next;
            mret (k, v));
          mret (CKeyValueList es)
      | 8 =>
          if TRACE_VERSION <=? version then
            tag ← in_u8;
            a ← cur_of (ok_or trace_malformed (span_action_of tag));
            tag ← in_u8;
            k ← cur_of (ok_or trace_malformed (span_native_of tag));
            match a with
            | Removed | Redacted => mret (CMarker (mkRedactionMarker k a))
            | TruncatedBytes | TruncatedElements =>
                if negb (span_valid_truncation a k) then cur_malformed else
                child ← decode_value fuel limits version depth;
                if negb (bool_decide (span_candidate_kind child = k)) || span_candidate_has_marker child then cur_malformed
                else mret (CTruncated child a)
            end
          else cur_malformed
      | _ => cur_malformed
      end
  end.

(** The fuel of a decoder: one more than the bytes that are left. *)
Definition fueled {A} (f : nat -> Cur S A) : Cur S A := fun b => f (Datatypes.S (length b)) b.
Definition decode_span_value (limits : TraceLimits) (version : Z) : Cur S CandidateAttributeValue :=
  fueled (fun fuel => decode_value fuel limits version (tl_nesting_depth limits)).

(** ** Details *)

(** [positron-signals/src/trace_store/codec/decode.rs:248-266 decode_time] *)
Definition decode_time (version : Z) : Cur S EventTime :=
  tag ← in_u8;
  if tag =? OUT_OF_RANGE_TIME_TAG then
    if version <? TRACE_VERSION then cur_malformed else
    value ← in_u64;
    cur_of (or_malformed_block (EventTime_out_of_range value))
  else
    quality ← cur_of (decode_span_quality tag);
    if bool_decide (quality = Missing) then mret EventTime_missing else
    i ← in_i64;
    cur_of (or_malformed_block (EventTime_received (mkUnixNanoseconds i) quality)).

(** A domain computation on the allocator's state. *)
Definition cur_domain {A} (e : DomainFailure -> TraceStoreFailure) (f : S -> S * result DomainFailure A) : Cur S A := fun b s =>
  let '(s, r) := f s in (b, s, map_err e r).

(** One attribute of an event or of a link. *)
Definition decode_span_attribute_set (limits : TraceLimits) (profile : ValueLimitProfile) (version : Z) : Cur S SpanAttributeSet :=
  k ← in_string (tl_key_path_bytes limits);
  count ← in_count (tl_occurrences limits);
  if count =? 0 then cur_malformed else
  _ ← reserve_vec count;
  vs ← cur_gather (Z.to_nat count) (decode_span_value limits version);
  set ← cur_domain (fun _ => trace_malformed) (candidate_validate (mkOccurrenceCandidate NsRecord k vs) profile);
  mret (mkSpanAttributeSet set).

(** [positron-signals/src/trace_store/codec/decode_details.rs:139-170 decode_span_attributes] *)
Definition decode_span_attributes (profile : ValueLimitProfile) (version : Z) : Cur S (list SpanAttributeSet) :=
  limits ← cur_of (limits_for profile);
  count ← in_count MAX_DETAIL_COLLECTION;
  _ ← reserve_vec count;
  cur_gather (Z.to_nat count) (decode_span_attribute_set limits profile version).

(** [positron-signals/src/trace_store/codec/decode_details.rs:93-112 decode_event] The depth is that of
    the limits. *)
Definition decode_event (key_limit : Z) (profile : ValueLimitProfile) (version : Z) : Cur S SpanEvent :=
  timestamp ← decode_time version;
  name ← in_string key_limit;
  dropped ← in_u32;
  attributes ← decode_span_attributes profile version;
  cur_of (or_malformed_block (SpanEvent_checked timestamp name attributes dropped profile)).

(** [positron-signals/src/trace_store/codec/decode_details.rs:114-137 decode_link] *)
Definition decode_link (key_limit : Z) (profile : ValueLimitProfile) (version : Z) : Cur S SpanLink :=
  trace ← in_array 16;
  span ← in_array 8;
  state ← in_string key_limit;
  flags ← in_u32;
  dropped ← in_u32;
  attributes ← decode_span_attributes profile version;
  cur_of (or_malformed_block (SpanLink_checked trace span state flags attributes dropped profile)).

(** [positron-signals/src/trace_store/details.rs:91-162 SpanObservationDetails::checked_input] *)
Definition details_checked (d : SpanObservationDetails) (profile : ValueLimitProfile) : result TraceStoreFailure SpanObservationDetails :=
  let limit := byte_limit (decoded_record_bytes (record (effective_limits profile))) in
  if (fst (detail_limits profile) <? rs_len (trace_state d)) || (MAX_DETAIL_COLLECTION <? zlen (events d)) || (MAX_DETAIL_COLLECTION <? zlen (links d))
  then Err trace_limit_exceeded else
  n ← details_decoded_size_bytes d limit;
  if limit <? n then Err trace_limit_exceeded else
  _ ← details_validate_with_profile d profile;
  Ok d.

(** [positron-signals/src/trace_store/codec/decode_details.rs:14-91 decode_details] *)
Definition decode_details (profile : ValueLimitProfile) (version : Z) : Cur S SpanObservationDetails :=
  limits ← cur_of (limits_for profile);
  let key_limit := tl_key_path_bytes limits in
  state ← in_string key_limit;
  flags ← in_u32;
  tag ← in_u8;
  status_code ← cur_of (decode_status_tag tag);
  message ← in_string key_limit;
  status ← cur_of (or_malformed_block (SpanStatus_checked status_code message profile));
  dropped_attributes ← in_u32;
  dropped_events ← in_u32;
  dropped_links ← in_u32;
  resource_dropped ← in_u32;
  resource_url ← in_string key_limit;
  scope_name ← in_string key_limit;
  scope_version ← in_string key_limit;
  scope_dropped ← in_u32;
  scope_url ← in_string key_limit;
  count ← in_count MAX_DETAIL_COLLECTION;
  _ ← reserve_vec count;
  events ← cur_gather (Z.to_nat count) (decode_event key_limit profile version);
  count ← in_count MAX_DETAIL_COLLECTION;
  _ ← reserve_vec count;
  links ← cur_gather (Z.to_nat count) (decode_link key_limit profile version);
  resource ← cur_of (or_malformed_block (SpanResource_checked resource_dropped resource_url profile));
  scope ← cur_of (or_malformed_block (SpanScope_checked scope_name scope_version scope_dropped scope_url profile));
  cur_of (or_malformed_block (details_checked
    (mkSpanDetails state flags status events links dropped_attributes dropped_events dropped_links resource scope) profile)).

(** [positron-signals/src/trace_store/codec/decode_details.rs:172-188 decode_policy] *)
Definition decode_provenance : Cur S PolicyProvenance :=
  generation ← in_u64;
  digest ← in_array 32;
  count ← in_count MAX_RULES;
  cap ← reserve_vec count;
  rules ← cur_gather (Z.to_nat count) (_ ← in_component; in_string MAX_RULE_ID_BYTES);
  cur_of (or_malformed_block (provenance_new generation digest rules cap)).

(** ** Observations and blocks *)

(** [positron-signals/src/trace_store/details.rs:52-73 SpanObservationDetails::default] *)
Definition default_details : SpanObservationDetails :=
  let empty := mkRString [] 0 in
  mkSpanDetails empty 0 (mkSpanStatus StatusUnset empty) [] [] 0 0 0 (mkSpanResource 0 empty) (mkSpanScope empty empty 0 empty).

(** One attribute of an observation. *)
Definition decode_span_attribute (limits : TraceLimits) (profile : ValueLimitProfile) (version : Z)
  (acc : list Z * list AttributeOccurrenceSet) : Cur S (list Z * list AttributeOccurrenceSet) :=
  let '(counts, attributes) := acc in
  _ ← in_component;
  tag ← in_u8;
  ns ← cur_of (decode_span_namespace tag);
  k ← in_string (tl_key_path_bytes limits);
  count ← in_count (tl_occurrences limits);
  if count =? 0 then cur_malformed else
  counts ← cur_of (count_namespace limits trace_malformed trace_malformed counts ns count);
  _ ← reserve_vec count;
  vs ← cur_gather (Z.to_nat count) (decode_span_value limits version);
  set ← cur_domain trace_validation (candidate_validate (mkOccurrenceCandidate ns k vs) profile);
  mret (counts, attributes ++ [set]).

(** A presence byte and the identity behind it. *)
Definition decode_parent : Cur S (option bytes) :=
  tag ← in_u8;
  match tag with 0 => mret None | 1 => id ← in_array 8; mret (Some id) | _ => cur_malformed end.

(** [positron-signals/src/trace_store/codec/decode.rs:161-246 decode_observation_version_with_profile] *)
Definition decode_observation (version : Z) (profile : ValueLimitProfile) : Cur S (SpanObservation * UnixNanoseconds) :=
  _ ← in_component;
  trace ← in_array 16;
  span ← in_array 8;
  parent ← decode_parent;
  tag ← in_u8;
  kind ← cur_of (decode_kind tag);
  tag ← in_u8;
  sampling ← cur_of (decode_sampling tag);
  start ← decode_time version;
  stop ← decode_time version;
  limits ← cur_of (limits_for profile);
  name ← in_string (tl_key_path_bytes limits);
  count ← in_count (tl_attribute_sets limits);
  _ ← reserve_vec count;
  '(_, attributes) ← cur_loop (Z.to_nat count) (decode_span_attribute limits profile version) ([0; 0; 0], []);
  details ← (if DETAILS_VERSION <=? version then decode_details profile version else mret default_details);
  policy ← decode_provenance;
  o ← cur_of (or_malformed_block (checked_span (mkSpanObservation trace span parent name start stop attributes kind sampling policy details) profile));
  i ← in_i64;
  mret (o, mkUnixNanoseconds i).

(** [positron-signals/src/trace_store/codec/decode.rs:37-67 BlockDecode::observed_with_profile] The
    version and the record count; the decoder goes on with the same input. *)
Definition decode_block_header (profile : ValueLimitProfile) (expected_tenant : TenantId) : Cur S (Z * Z) :=
  _ ← cur_of (limits_for profile);
  _ ← in_component;
  magic ← in_take 8;
  if negb (bytes_eqb magic TRACE_MAGIC) then cur_malformed else
  version ← in_u16;
  if negb (supported_version version) then cur_malformed else
  tenant ← in_array 16;
  if negb (bytes_eqb tenant (tenant_id_bytes expected_tenant)) then cur_fail trace_scope_mismatch else
  count ← in_count MAX_RECORDS;
  if count =? 0 then cur_malformed else mret (version, count).

(** One decoded observation with the ingest time of its block. *)
Definition decode_stored (block : CommittedBlock) (version : Z) (profile : ValueLimitProfile) : Cur S StoredSpanObservation :=
  _ ← cur_tr check_cancel;
  '(o, encoded) ← decode_observation version profile;
  t ← cur_of (map_err trace_kernel (observe_ingest_time block encoded));
  mret (mkStoredSpan o t).

Definition in_end : Cur S unit := fun b s => (b, s, if bool_decide (b = []) then Ok tt else Err trace_malformed).

(** [positron-signals/src/trace_store/codec/decode.rs:90-137 BlockDecode::decode_after_with_profile] The
    tail is a copy of the cursor, whose end is the end of the block. *)
Definition decode_after_with_profile (block : CommittedBlock) (skip limit version count : Z) (profile : ValueLimitProfile)
  : Cur S (list StoredSpanObservation) :=
  let skipped := Z.min skip count in
  _ ← cur_gather (Z.to_nat skipped) (decode_stored block version profile);
  let retained := Z.min (saturating_sub count skipped) limit in
  _ ← reserve_vec retained;
  observations ← cur_gather (Z.to_nat retained) (
    r ← decode_stored block version profile;
    _ ← in_decoded_record;
    mret r);
  _ ← cur_gather (Z.to_nat (count - (skipped + retained))) (decode_stored block version profile);
  _ ← in_end;
  mret observations.

(** A block is opened, then decoded. *)
Definition decode_trace_block (profile : ValueLimitProfile) (tenant : TenantId) (block : CommittedBlock) (skip limit : Z) : Tr S (list StoredSpanObservation) := fun s =>
  let '(_, s, r) := (
    '(version, count) ← decode_block_header profile tenant;
    decode_after_with_profile block skip limit version count profile) (payload block) s in (s, r).
(** ** The preflight *)

(** [positron-signals/src/trace_store/codec/mod.rs:39-41 DECODED_RECORD_SLOT_BYTES!] *)
Definition DECODED_RECORD_SLOT_BYTES : Z := 512.
Definition DECODED_VECTOR_SLOT_BYTES : Z := 64.
Definition DECODED_KEY_VALUE_SLOT_BYTES : Z := 96.

(** [positron-signals/src/trace_store/codec/bounds.rs:477-480 checked_bound_add] *)
Definition bound_add (left right : Z) : result TraceStoreFailure Z := ok_or trace_limit_exceeded (checked_add u64_max left right).

(** [positron-signals/src/trace_store/codec/bounds.rs:486-489 checked_bound_mul] A [usize] fits a [u64]. *)
Definition bound_mul (left right : Z) : result TraceStoreFailure Z := ok_or trace_limit_exceeded (checked_mul u64_max left right).

(** [positron-signals/src/trace_store/codec/bounds.rs:491-494 checked_slot_bound] *)
Definition slot_bound (total count slot_bytes : Z) : result TraceStoreFailure Z :=
  slots ← bound_mul count slot_bytes; bound_add total slots.

(** [positron-signals/src/trace_store/codec/bounds.rs:61-66 ValueBound] *)
Record ValueBound := mkValueBound { vb_decoded : Z; vb_dynamic : Z; vb_marker : bool; vb_policy_root : bool }.

(** One element of a collection, added to its bound. *)
Definition bound_child (limits : TraceLimits) (acc child : ValueBound) : result TraceStoreFailure ValueBound :=
  decoded ← filtered_add (tl_value_bytes limits) trace_malformed (vb_decoded acc) (vb_decoded child);
  dynamic ← bound_add (vb_dynamic acc) (vb_dynamic child);
  Ok (mkValueBound decoded dynamic (vb_marker acc || vb_marker child) (vb_policy_root acc)).

(** [positron-signals/src/trace_store/codec/bounds.rs:256-431 preflight_value] *)
Fixpoint preflight_value (fuel : nat) (limits : TraceLimits) (version depth : Z) : Cur S ValueBound :=
  match fuel with
  | O => cur_malformed
  | Datatypes.S fuel =>
      _ ← in_component;
      tag ← in_u8;
      match tag with
      | 0 => mret (mkValueBound 0 0 false false)
      | 1 => b ← in_u8; if 1 <? b then cur_malformed else mret (mkValueBound 1 0 false false)
      | 2 | 3 => _ ← in_u64; mret (mkValueBound 8 0 false false)
      | 4 => t ← in_raw_string (tl_value_bytes limits); mret (mkValueBound (zlen t) (zlen t) false false)
      | 5 => t ← in_raw_bytes (tl_value_bytes limits); mret (mkValueBound (zlen t) (zlen t) false false)
      | 6 =>
          next ← cur_of (ok_or trace_malformed (checked_sub depth 1));
          count ← in_count (tl_array_entries limits);
          slots ← cur_of (slot_bound 0 count DECODED_VECTOR_SLOT_BYTES);
          cur_loop (Z.to_nat count) (fun acc =>
            child ← preflight_value fuel limits version next;
            cur_of (bound_child limits acc child)) (mkValueBound 0 slots false false)
      | 7 =>
          next ← cur_of (ok_or trace_malformed (checked_sub depth 1));
          count ← in_count (tl_key_value_list_entries limits);
          slots ← cur_of (slot_bound 0 count DECODED_KEY_VALUE_SLOT_BYTES);
          cur_loop (Z.to_nat count) (fun acc =>
            k ← in_raw_string (tl_key_path_bytes limits);
            acc ← cur_of (bound_child limits acc (mkValueBound (zlen k) (zlen k) false false));
            child ← preflight_value fuel limits version next;
            cur_of (bound_child limits acc child)) (mkValueBound 0 slots false false)
      | 8 =>
          if TRACE_VERSION <=? version then
            tag ← in_u8;
            a ← cur_of (ok_or trace_malformed (span_action_of tag));
            tag ← in_u8;
            k ← cur_of (ok_or trace_malformed (span_native_of tag));
            match a with
            | Removed | Redacted => mret (mkValueBound 0 0 true true)
            | TruncatedBytes | TruncatedElements =>
                if negb (span_valid_truncation a k) then cur_malformed else
                child ← preflight_value fuel limits version depth;
                if vb_policy_root child then cur_malformed
                else mret (mkValueBound (vb_decoded child) (vb_dynamic child) true true)
            end
          else cur_malformed
      | _ => cur_malformed
      end
  end.
Definition preflight_span_value (limits : TraceLimits) (version : Z) : Cur S ValueBound :=
  fueled (fun fuel => preflight_value fuel limits version (tl_nesting_depth limits)).

(** [positron-signals/src/trace_store/codec/bounds.rs:433-447 preflight_time] *)
Definition preflight_time (version : Z) : Cur S unit :=
  tag ← in_u8;
  if tag =? OUT_OF_RANGE_TIME_TAG then
    if version <? TRACE_VERSION then cur_malformed else _ ← in_u64; mret tt
  else
    quality ← cur_of (decode_span_quality tag);
    if bool_decide (quality = Missing) then mret tt else _ ← in_i64; mret tt.

(** [positron-signals/src/trace_store/codec/bounds.rs:220-254 preflight_span_attributes] *)
Definition preflight_span_attributes (limits : TraceLimits) (version : Z) : Cur S (Z * Z) :=
  count ← in_count MAX_DETAIL_COLLECTION;
  bound ← cur_of (slot_bound 0 count DECODED_VECTOR_SLOT_BYTES);
  '(_, decoded, bound) ← cur_loop (Z.to_nat count) (fun '(n, decoded, bound) =>
    k ← in_raw_string (tl_key_path_bytes limits);
    decoded ← cur_of (ok_or trace_limit_exceeded (checked_add usize_max decoded (zlen k)));
    bound ← cur_of (bound_add bound (zlen k));
    values ← in_count (tl_occurrences limits);
    if values =? 0 then cur_malformed else
    n ← cur_of (filtered_add (tl_occurrences limits) trace_malformed n values);
    bound ← cur_of (slot_bound bound values DECODED_VECTOR_SLOT_BYTES);
    '(decoded, bound) ← cur_loop (Z.to_nat values) (fun '(decoded, bound) =>
      v ← preflight_span_value limits version;
      decoded ← cur_of (filtered_add (tl_decoded_bytes limits) trace_malformed decoded (vb_decoded v));
      bound ← cur_of (bound_add bound (vb_dynamic v));
      mret (decoded, bound)) (decoded, bound);
    mret (n, decoded, bound)) (0, 0, bound);
  mret (decoded, bound).

(** A string, its bytes added to the decoded size and to the bound. *)
Definition preflight_text (limits : TraceLimits) (acc : Z * Z) : Cur S (Z * Z) :=
  t ← in_raw_string (tl_key_path_bytes limits);
  decoded ← cur_of (ok_or trace_limit_exceeded (checked_add usize_max (fst acc) (zlen t)));
  bound ← cur_of (bound_add (snd acc) (zlen t));
  mret (decoded, bound).

(** The attributes of an event or of a link, added to the details. *)
Definition preflight_detail (limits : TraceLimits) (version : Z) (acc : Z * Z) : Cur S (Z * Z) :=
  '(d, b) ← preflight_span_attributes limits version;
  decoded ← cur_of (filtered_add (tl_decoded_bytes limits) trace_malformed (fst acc) d);
  bound ← cur_of (bound_add (snd acc) b);
  mret (decoded, bound).

(** The four strings of the resource and of the scope are read first and added afterwards. *)
Definition add_lengths (acc : Z * Z) (l : list bytes) : result TraceStoreFailure (Z * Z) :=
  try_fold (fun '(decoded, bound) t =>
    decoded ← ok_or trace_limit_exceeded (checked_add usize_max decoded (zlen t));
    bound ← bound_add bound (zlen t);
    Ok (decoded, bound)) acc l.

(** [positron-signals/src/trace_store/codec/bounds.rs:144-218 preflight_details] *)
Definition preflight_details (limits : TraceLimits) (version bound : Z) : Cur S Z :=
  acc ← preflight_text limits (0, bound);
  _ ← in_u32;
  tag ← in_u8;
  _ ← cur_of (decode_status_tag tag);
  acc ← preflight_text limits acc;
  _ ← in_u32; _ ← in_u32; _ ← in_u32; _ ← in_u32;
  resource_schema ← in_raw_string (tl_key_path_bytes limits);
  scope_name ← in_raw_string (tl_key_path_bytes limits);
  scope_version ← in_raw_string (tl_key_path_bytes limits);
  _ ← in_u32;
  scope_schema ← in_raw_string (tl_key_path_bytes limits);
  '(decoded, bound) ← cur_of (add_lengths acc [resource_schema; scope_name; scope_version; scope_schema]);
  count ← in_count MAX_DETAIL_COLLECTION;
  bound ← cur_of (slot_bound bound count DECODED_VECTOR_SLOT_BYTES);
  '(decoded, bound) ← cur_loop (Z.to_nat count) (fun acc =>
    _ ← preflight_time version;
    acc ← preflight_text limits acc;
    _ ← in_u32;
    preflight_detail limits version acc) (decoded, bound);
  count ← in_count MAX_DETAIL_COLLECTION;
  bound ← cur_of (slot_bound bound count DECODED_VECTOR_SLOT_BYTES);
  '(decoded, bound) ← cur_loop (Z.to_nat count) (fun acc =>
    trace ← in_array 16;
    span ← in_array 8;
    if all_zero trace || all_zero span then cur_malformed else
    acc ← preflight_text limits acc;
    _ ← in_u32;
    _ ← in_u32;
    preflight_detail limits version acc) (decoded, bound);
  if tl_decoded_bytes limits <? decoded then cur_malformed else mret bound.

(** [positron-signals/src/trace_store/codec/bounds.rs:449-475 preflight_policy] A [String] is three words. *)
Definition preflight_policy (bound : Z) : Cur S Z :=
  _ ← in_component;
  generation ← in_u64;
  digest ← in_array 32;
  count ← in_count MAX_RULES;
  _ ← cur_of (or_malformed_block (validate_parts generation digest []));
  slots ← cur_of (bound_mul count 24);
  bound ← cur_of (bound_add bound slots);
  cur_loop (Z.to_nat count) (fun bound =>
    _ ← in_component;
    rule ← in_raw_string MAX_RULE_ID_BYTES;
    if bool_decide (rule = []) then cur_malformed else cur_of (bound_add bound (zlen rule))) bound.

(** One attribute in [preflight_observation]: the counts, the decoded bytes and the bound. *)
Definition preflight_attribute (limits : TraceLimits) (version : Z) (acc : list Z * Z * Z) : Cur S (list Z * Z * Z) :=
  let '(counts, decoded, bound) := acc in
  tag ← in_u8;
  ns ← cur_of (decode_span_namespace tag);
  k ← in_raw_string (tl_key_path_bytes limits);
  decoded ← cur_of (ok_or trace_limit_exceeded (checked_add usize_max decoded (zlen k)));
  bound ← cur_of (bound_add bound (zlen k));
  count ← in_count (tl_occurrences limits);
  if count =? 0 then cur_malformed else
  counts ← cur_of (count_namespace limits trace_malformed trace_malformed counts ns count);
  bound ← cur_of (slot_bound bound count DECODED_VECTOR_SLOT_BYTES);
  '(decoded, bound) ← cur_loop (Z.to_nat count) (fun '(decoded, bound) =>
    v ← preflight_span_value limits version;
    decoded ← cur_of (ok_or trace_limit_exceeded (checked_add usize_max decoded (vb_decoded v)));
    bound ← cur_of (bound_add bound (vb_dynamic v));
    mret (decoded, bound)) (decoded, bound);
  mret (counts, decoded, bound).

(** [positron-signals/src/trace_store/codec/bounds.rs:68-142 preflight_observation] *)
Definition preflight_observation (limits : TraceLimits) (version : Z) : Cur S Z :=
  _ ← in_component;
  _ ← in_array 16;
  _ ← in_array 8;
  _ ← decode_parent;
  tag ← in_u8;
  _ ← cur_of (decode_kind tag);
  tag ← in_u8;
  _ ← cur_of (decode_sampling tag);
  _ ← preflight_time version;
  _ ← preflight_time version;
  name ← in_raw_string (tl_key_path_bytes limits);
  count ← in_count (tl_attribute_sets limits);
  bound ← cur_of (slot_bound DECODED_RECORD_SLOT_BYTES count DECODED_VECTOR_SLOT_BYTES);
  bound ← cur_of (bound_add bound (zlen name));
  '(_, decoded, bound) ← cur_loop (Z.to_nat count) (preflight_attribute limits version) ([0; 0; 0], zlen name, bound);
  if tl_decoded_bytes limits <? decoded then cur_malformed else
  bound ← (if DETAILS_VERSION <=? version then preflight_details limits version bound else mret bound);
  bound ← preflight_policy bound;
  _ ← in_i64;
  dynamic ← cur_of (ok_or trace_limit_exceeded (checked_sub bound DECODED_RECORD_SLOT_BYTES));
  twice ← cur_of (ok_or trace_limit_exceeded (checked_mul u64_max dynamic 2));
  cur_of (bound_add DECODED_RECORD_SLOT_BYTES twice).

(** [positron-signals/src/trace_store/codec/bounds.rs:27-59 decoded_memory_bound_with_profile] *)
Definition decoded_memory_bound_with_profile (profile : ValueLimitProfile) (tenant : TenantId) (block : bytes) : Tr S Z := fun s =>
  let '(_, s, r) := (
    limits ← cur_of (limits_for profile);
    '(version, count) ← decode_block_header profile tenant;
    bound ← cur_loop (Z.to_nat count) (fun bound =>
      n ← preflight_observation limits version; cur_of (bound_add bound n)) 0;
    _ ← in_end;
    mret bound) block s in (s, r).
End decoding.
