(* ===== verification/TraceWrites.v ===== *)
(** Trace store: the bytes of an observation.

    The block format of the trace store as functions from observations to bytes, and the proof
    that the encoder writes them: on any output, encoding an observation puts pieces whose
    concatenation is its layout. [span_ok] is what the types and the constructors of the trace
    store guarantee of an observation under a profile.

    [Emits m bs a]: on any output, the encoder [m] puts pieces that make up [bs] one after the
    other, and then returns [a]; it fails only where the output does. An observation within its
    limits emits its layout. On a vector the pieces are appended up to the block limit; on the
    preallocated output of a semantic key only the environment can interrupt them. *)

From S2P Require Import Prelude Outcome Identity Limits Routing SourceTime Values Observe Traversal Validation Shape CanonicalEncoding Occurrences PolicyModel PolicyCodec PolicyEvaluation RetentionTime LogStore LogCodec LogReads ValueLayout LogRoundtrip TraceModel TraceCodec TraceDecode TraceHeap.

(** ** The format *)

Definition plain_time (t : EventTime) : bytes :=
  span_quality_tag (event_quality t) :: match event_instant t with Some i => be_bytes 8 (nanos i) | None => [] end.
Definition time_layout (t : EventTime) : bytes :=
  match EventTime_source_value t with
  | Some v => if i64_max <? v then OUT_OF_RANGE_TIME_TAG :: be_bytes 8 v else plain_time t
  | None => plain_time t
  end.

Definition occurrences_layout (set : AttributeOccurrenceSet) : bytes :=
  text_layout (text (key set)) ++ be_bytes 2 (set_len set) ++ flat_map value_layout (occurrences set).
Definition namespace_number (n : AttributeNamespace) : Z := match span_namespace_tag n with Ok t => t | Err _ => 0 end.
Definition attribute_layout (a : AttributeOccurrenceSet) : bytes := namespace_number (namespace a) :: occurrences_layout a.
Definition details_attributes_layout (l : list SpanAttributeSet) : bytes :=
  be_bytes 2 (zlen l) ++ flat_map (fun a => occurrences_layout (detail_occurrences a)) l.

Definition event_layout (e : SpanEvent) : bytes :=
  time_layout (event_timestamp e) ++ text_layout (text (span_event_name e)) ++ be_bytes 4 (event_dropped e)
  ++ details_attributes_layout (event_attributes e).
Definition link_layout (l : SpanLink) : bytes :=
  link_trace_id l ++ link_span_id l ++ text_layout (text (link_trace_state l)) ++ be_bytes 4 (link_flags l) ++ be_bytes 4 (link_dropped l)
  ++ details_attributes_layout (link_attributes l).

Definition details_layout (d : SpanObservationDetails) : bytes :=
  text_layout (text (trace_state d)) ++ be_bytes 4 (span_flags d) ++ [status_tag (status_code (status d))]
  ++ text_layout (text (status_message (status d))) ++ be_bytes 4 (dropped_attributes d) ++ be_bytes 4 (dropped_events d)
  ++ be_bytes 4 (dropped_links d) ++ be_bytes 4 (resource_dropped (span_resource d)) ++ text_layout (text (resource_url (span_resource d)))
  ++ text_layout (text (span_scope_name (span_scope d))) ++ text_layout (text (span_scope_version (span_scope d)))
  ++ be_bytes 4 (scope_dropped (span_scope d)) ++ text_layout (text (scope_url (span_scope d)))
  ++ be_bytes 2 (zlen (events d)) ++ flat_map event_layout (events d) ++ be_bytes 2 (zlen (links d)) ++ flat_map link_layout (links d).

Definition provenance_layout (p : PolicyProvenance) : bytes :=
  be_bytes 8 (prov_generation p) ++ prov_digest p ++ be_bytes 2 (zlen (applied_rules p)) ++ flat_map (fun rule => text_layout (text rule)) (applied_rules p).

Definition parent_layout (parent : option bytes) : bytes := match parent with Some id => 1 :: id | None => [0] end.

(** The semantic bytes of an observation, and those of a stored one. *)
Definition span_layout (o : SpanObservation) : bytes :=
  so_trace_id o ++ so_span_id o ++ parent_layout (so_parent_span_id o) ++ [span_kind_tag (so_kind o)] ++ [sampling_tag (so_sampling o)]
  ++ time_layout (so_start_time o) ++ time_layout (so_end_time o) ++ text_layout (text (so_name o))
  ++ be_bytes 2 (zlen (so_attributes o)) ++ flat_map attribute_layout (so_attributes o)
  ++ details_layout (so_details o) ++ provenance_layout (so_policy o).
Definition stored_layout (r : StoredSpanObservation) : bytes :=
  span_layout (stored_observation r) ++ be_bytes 8 (nanos (instant (span_ingest_time r))).

(** ** Profiles *)

(** A validated profile, whose ceiling admits every scalar. *)
Record profile_ok (P : ValueLimitProfile) : Prop := {
  pf_system : limits_le (effective_limits P) (system_limits release_1_system_maximum);
  pf_unsigned : Forall (fun n => 0 <= n) (dimensions (effective_limits P));
  pf_scalar : 8 <= byte_limit (individual_value_bytes (dynamic_value (effective_limits P)));
}.

Definition trace_limits (P : ValueLimitProfile) : TraceLimits :=
  let limits := effective_limits P in
  let dynamic := dynamic_value limits in
  let n := collection_limit (attributes_per_namespace dynamic) in
  mkTraceLimits (n * 3) n (byte_limit (key_path_bytes dynamic)) (byte_limit (individual_value_bytes dynamic)) (nesting_limit (nesting_depth dynamic))
    (collection_limit (array_entries dynamic)) (collection_limit (key_value_list_entries dynamic))
    (byte_limit (encoded_record_bytes (record limits))) (byte_limit (decoded_record_bytes (record limits))).

(** The same limits, as the native values of a codec need them. *)
Definition codec_limits (P : ValueLimitProfile) : CodecLimits :=
  let l := trace_limits P in
  mkCodecLimits MAX_RECORDS (tl_attribute_sets l) (tl_occurrences l) (tl_nesting_depth l) 0 (tl_decoded_bytes l) (tl_value_bytes l)
    (tl_key_path_bytes l) (tl_array_entries l) (tl_key_value_list_entries l).

Lemma codec_limits_match P : limits_match (effective_limits P) (codec_limits P).
Proof. by split. Qed.

Record small_limits (l : TraceLimits) : Prop := {
  sl_occurrences : 0 <= tl_occurrences l <= 1024;
  sl_sets : tl_attribute_sets l = 3 * tl_occurrences l;
  sl_key : tl_key_path_bytes l <= 65536;
  sl_value : 8 <= tl_value_bytes l <= 65536;
  sl_depth : tl_nesting_depth l <= 128;
  sl_array : tl_array_entries l <= 1024;
  sl_list : tl_key_value_list_entries l <= 1024;
  sl_encoded : tl_encoded_bytes l <= 1048576;
  sl_decoded : tl_decoded_bytes l <= 1048576;
}.

Lemma profile_small P : profile_ok P -> small_limits (trace_limits P).
Proof.
  intros [Hle Hu Hs]. unfold limits_le, dimensions in Hle, Hu.
  repeat match goal with H : Forall2 _ (_ :: _) _ |- _ => inversion H; clear H; subst | H : Forall _ (_ :: _) |- _ => apply Forall_cons in H as [? H] end.
  repeat match goal with H : _ <= _ (system_limits _) |- _ => cbn in H | H : _ <= _ |- _ => progress cbn in H end.
  split; cbn; lia.
Qed.

Lemma limits_for_ok P : profile_ok P -> limits_for P = Ok (trace_limits P).
Proof.
  intros HP. pose proof (profile_small P HP) as [Ho Hsets _ _ Hd _ _ _ _]. unfold trace_limits in Ho, Hsets, Hd. cbn in Ho, Hsets, Hd. unfold limits_for.
  unfold checked_mul. rewrite (proj2 (Z.leb_le _ _)) by (unfold u32_max; lia). cbn [ok_or mbind result_bind].
  rewrite (proj2 (Z.ltb_ge _ _)) by (unfold u8_max; lia). done.
Qed.

(** ** Observations *)

(** A source time that a constructor made. *)
Definition time_ok (t : EventTime) : Prop := event_ok t \/ exists v, in_u u64_max v /\ EventTime_out_of_range v = Ok t.
Definition text_ok (t : RString) : Prop := utf8_valid (text t) = true.

Section observations.
Context (P : ValueLimitProfile).
Let L := trace_limits P.

Record set_ok (set : AttributeOccurrenceSet) : Prop := {
  st_key : text_ok (key set);
  st_shape : set_shape_rejected (text (key set)) (set_len set) (effective_limits P) = false;
  st_values : Forall (value_fits (effective_limits P) (tl_nesting_depth L) (tl_value_bytes L)) (occurrences set);
}.

(** The attributes of an event or of a link. *)
Record detail_sets_ok (l : list SpanAttributeSet) : Prop := {
  ds_namespace : Forall (fun a => namespace (detail_occurrences a) = NsRecord) l;
  ds_sets : Forall (fun a => set_ok (detail_occurrences a)) l;
  ds_counts : validate_detail_attributes l (tl_occurrences L) = Ok tt;
}.

Record span_event_ok (e : SpanEvent) : Prop := {
  ev_time : time_ok (event_timestamp e);
  ev_name : text_ok (span_event_name e);
  ev_dropped : in_u u32_max (event_dropped e);
  ev_attributes : detail_sets_ok (event_attributes e);
}.

Record span_link_ok (l : SpanLink) : Prop := {
  ln_trace : zlen (link_trace_id l) = 16;
  ln_span : zlen (link_span_id l) = 8;
  ln_state : text_ok (link_trace_state l);
  ln_flags : in_u u32_max (link_flags l);
  ln_dropped : in_u u32_max (link_dropped l);
  ln_attributes : detail_sets_ok (link_attributes l);
}.

Record details_ok (d : SpanObservationDetails) : Prop := {
  dt_texts : Forall text_ok [trace_state d; status_message (status d); resource_url (span_resource d); span_scope_name (span_scope d);
                             span_scope_version (span_scope d); scope_url (span_scope d)];
  dt_counts : Forall (in_u u32_max) [span_flags d; dropped_attributes d; dropped_events d; dropped_links d;
                                     resource_dropped (span_resource d); scope_dropped (span_scope d)];
  dt_events : Forall span_event_ok (events d);
  dt_links : Forall span_link_ok (links d);
}.

Record span_ok (o : SpanObservation) : Prop := {
  sp_trace : zlen (so_trace_id o) = 16;
  sp_span : zlen (so_span_id o) = 8;
  sp_parent : id_ok 8 (so_parent_span_id o);
  sp_start : time_ok (so_start_time o);
  sp_end : time_ok (so_end_time o);
  sp_name : text_ok (so_name o);
  sp_attributes : Forall set_ok (so_attributes o);
  sp_details : details_ok (so_details o);
  sp_provenance : provenance_ok (so_policy o);
  sp_checked : is_ok (checked_span o P) = true;
}.

(** What the check of an observation establishes. *)
Record checked_facts (o : SpanObservation) (decoded detail : Z) : Prop := {
  cf_ids : all_zero (so_trace_id o) || all_zero (so_span_id o) || match so_parent_span_id o with Some p => all_zero p | None => false end = false;
  cf_name : text (so_name o) <> [] /\ rs_len (so_name o) <= tl_key_path_bytes L;
  cf_sets : zlen (so_attributes o) <= tl_attribute_sets L;
  cf_details : details_validate_with_profile (so_details o) P = Ok tt;
  cf_attributes : exists counts, try_fold (check_span_attribute (tl_occurrences L)) ([0; 0; 0], rs_len (so_name o)) (so_attributes o) = Ok (counts, decoded);
  cf_detail_size : details_decoded_size_bytes (so_details o) (tl_decoded_bytes L) = Ok detail;
  cf_size : decoded + detail <= tl_decoded_bytes L;
}.

Lemma checked_span_facts o : profile_ok P -> is_ok (checked_span o P) = true -> exists decoded detail, checked_facts o decoded detail.
Proof.
  intros HP. pose proof (profile_small P HP) as [Hn Hsets _ _ _ _ _ _ _]. unfold checked_span. cbv zeta.
  destruct (_ || _) eqn:Hg; [done|]. apply orb_false_iff in Hg as [[Hg Hn0%bool_decide_eq_false]%orb_false_iff Hn1%Z.ltb_ge].
  destruct (checked_mul usize_max _ 3) as [sets|] eqn:Hm; [|done]. unfold checked_mul in Hm. destruct (_ <=? usize_max); [|done]. injection Hm as <-.
  cbn [ok_or mbind result_bind]. destruct (negb _ && _) eqn:Hc; [done|]. destruct (details_validate_with_profile _ P) as [[]|] eqn:Hd; [|done].
  cbn [mbind result_bind]. destruct (try_fold _ _ _) as [[counts decoded]|] eqn:Hf; [|done]. cbn [mbind result_bind].
  destruct (details_decoded_size_bytes _ _) as [detail|] eqn:Hs; [|done]. cbn [mbind result_bind].
  destruct (checked_add usize_max decoded detail) as [size|] eqn:Ha; [|done]. apply checked_add_Some in Ha as [-> _].
  destruct (Z.ltb_spec (byte_limit (decoded_record_bytes (record (effective_limits P)))) (decoded + detail)) as [|Hsize]; [done|]. intros _.
  exists decoded, detail. split; [done|done| |done|by exists counts|done|done].
  fold L in Hn, Hsets. apply andb_false_iff in Hc as [Hc|Hc%Z.ltb_ge]; [|exact Hc].
  apply negb_false_iff, bool_decide_eq_true in Hc. rewrite Hc. unfold zlen. cbn [length]. lia.
Qed.
End observations.

Lemma try_fold_unit {E A} (f : A -> result E unit) l : try_fold (fun _ a => f a) tt l = Ok tt <-> Forall (fun a => f a = Ok tt) l.
Proof.
  induction l as [|a l IH]; [by split|]. cbn [try_fold]. rewrite Forall_cons, <- IH. destruct (f a) as [[]|e]; [tauto|]. split; [done|by intros [? _]].
Qed.

(** ** Pieces *)

Section emits.
Context {S : Type} {Out : EncodeOutput S}.

Definition Emits {A} (m : Cur S A) (bs : bytes) (a : A) : Prop :=
  exists ps, concat ps = bs /\ forall b s, m b s = (_ ← cur_each put_slice ps; mret a) b s.

Lemma each_app_pieces (ps qs : list bytes) b s : cur_each put_slice (ps ++ qs) b s = (_ ← cur_each put_slice ps; cur_each put_slice qs) b s.
Proof.
  revert b s. induction ps as [|p ps IH]; intros b s; [done|]. cbn [app cur_each]. unfold mbind, Cur_bind in *. fold (@cur_each S bytes put_slice).
  destruct (put_slice p b s) as [[b' s'] [[]|e]]; [|done]. by rewrite IH.
Qed.

Lemma emits_ret {A} (a : A) : Emits (mret a) [] a.
Proof. by exists []. Qed.

Lemma emits_bind {A B} (m : Cur S A) (k : A -> Cur S B) b1 b2 a c : Emits m b1 a -> Emits (k a) b2 c -> Emits (m ≫= k) (b1 ++ b2) c.
Proof.
  intros (ps & <- & Hm) (qs & <- & Hk). exists (ps ++ qs). split; [apply concat_app|]. intros b s.
  unfold mbind, Cur_bind in *. rewrite Hm, each_app_pieces. unfold mbind, Cur_bind.
  destruct (cur_each put_slice ps b s) as [[b' s'] [[]|e]]; [|done]. cbn. rewrite Hk. done.
Qed.

Lemma emits_put bs : Emits (put_slice bs) bs tt.
Proof.
  exists [bs]. split; [cbn; apply app_nil_r|]. intros b s. cbn. unfold mbind, Cur_bind. by destruct (put_slice bs b s) as [[b' s'] [[]|e]].
Qed.

Lemma emits_of {A B} (r : result TraceStoreFailure A) a (k : A -> Cur S B) bs c : r = Ok a -> Emits (k a) bs c -> Emits (cur_of r ≫= k) bs c.
Proof. intros ->. apply (emits_bind _ _ []). by exists []. Qed.

(** The last step writes nothing. *)
Lemma emits_last {A B} (m : Cur S A) (k : A -> Cur S B) bs a c : Emits m bs a -> Emits (k a) [] c -> Emits (m ≫= k) bs c.
Proof. intros Hm Hk. rewrite <- (app_nil_r bs). by eapply emits_bind. Qed.

Lemma emits_each {A} (f : A -> Cur S unit) (g : A -> bytes) l : Forall (fun a => Emits (f a) (g a) tt) l -> Emits (cur_each f l) (flat_map g l) tt.
Proof. induction 1 as [|a l Ha _ IH]; [apply emits_ret|]. cbn. by eapply emits_bind. Qed.

Lemma emits_count n : n <= u16_max -> Emits (out_count n) (be_bytes 2 n) tt.
Proof. intros Hn. unfold out_count. rewrite (proj2 (Z.leb_le _ _)) by lia. apply emits_put. Qed.

Lemma emits_bytes b : zlen b <= u32_max -> Emits (out_bytes b) (text_layout b) tt.
Proof. intros Hb. unfold out_bytes. rewrite (proj2 (Z.leb_le _ _)) by lia. eapply emits_bind; apply emits_put. Qed.

Lemma emits_time t : Emits (encode_time t) (time_layout t) tt.
Proof.
  assert (Hplain : Emits (_ ← out_u8 (span_quality_tag (event_quality t)); match event_instant t with Some i => out_i64 (nanos i) | None => mret tt end) (plain_time t) tt).
  { eapply (emits_bind _ _ [_]); [apply emits_put|]. destruct (event_instant t); [apply emits_put|apply emits_ret]. }
  unfold encode_time, time_layout. destruct (EventTime_source_value t) as [v|]; [|done]. destruct (i64_max <? v); [|done].
  eapply (emits_bind _ _ [_]); apply emits_put.
Qed.

(** ** Values *)

Context (P : ValueLimitProfile) (HP : profile_ok P).
Let L := trace_limits P.

Definition emits_value (v : ValidatedAttributeValue) : Prop := forall depth, codable (codec_limits P) (tl_value_bytes L) v depth ->
  Emits (encode_value L v depth) (value_layout v) tt.

Lemma emits_text tag (t : RString) : rs_len t <= tl_value_bytes L ->
  Emits (_ ← out_u8 tag; if tl_value_bytes L <? rs_len t then cur_fail trace_limit_exceeded else out_bytes (text t)) (tag :: text_layout (text t)) tt.
Proof.
  intros Ht. pose proof (profile_small P HP) as [_ _ _ Hv _ _ _ _ _]. fold L in Hv. eapply (emits_bind _ _ [_]); [apply emits_put|].
  rewrite (proj2 (Z.ltb_ge _ _)) by lia. apply emits_bytes. unfold rs_len, u32_max in *. lia.
Qed.

Lemma native_tag_ok k : k <> KMarker -> span_native_tag k = Ok (kind_number k).
Proof. by destruct k. Qed.

Lemma emits_array vs cap depth : Forall emits_value vs -> codable (codec_limits P) (tl_value_bytes L) (VArray vs cap) depth ->
  Emits (encode_value L (VArray vs cap) depth) (value_layout (VArray vs cap)) tt.
Proof.
  intros IH (_ & _ & Hd & Hn & Hall). pose proof (profile_small P HP) as [_ _ _ _ _ Ha _ _ _]. cbn [codec_limits lim_array_entries] in Hn. fold L in Ha, Hn. cbn [encode_value].
  eapply emits_of; [by rewrite checked_sub_ok by lia|]. cbn [value_layout]. eapply (emits_bind _ _ [_]); [apply emits_put|].
  rewrite (proj2 (Z.ltb_ge _ _)) by lia. eapply emits_bind; [apply emits_count; unfold u16_max; lia|].
  apply (emits_each (fun v => encode_value L v (depth - 1))). apply all_of_Forall in Hall. rewrite Forall_forall in *. intros v Hv. apply IH; [done|by apply Hall].
Qed.

Lemma emits_list es cap depth : Forall (fun e => emits_value e.2) es -> codable (codec_limits P) (tl_value_bytes L) (VKeyValueList es cap) depth ->
  Emits (encode_value L (VKeyValueList es cap) depth) (value_layout (VKeyValueList es cap)) tt.
Proof.
  intros IH (_ & _ & Hd & Hn & Hall). pose proof (profile_small P HP) as [_ _ Hk _ _ _ Ha _ _]. cbn [codec_limits lim_key_value_list_entries] in Hn. fold L in Ha, Hn, Hk.
  cbn [encode_value]. eapply emits_of; [by rewrite checked_sub_ok by lia|]. cbn [value_layout]. eapply (emits_bind _ _ [_]); [apply emits_put|].
  rewrite (proj2 (Z.ltb_ge _ _)) by lia. eapply emits_bind; [apply emits_count; unfold u16_max; lia|].
  apply emits_each. apply all_of_Forall in Hall. rewrite Forall_forall in *. intros [k v] Hv. destruct (Hall _ Hv) as (_ & Hkl & _ & Hc).
  cbn [codec_limits lim_key_bytes] in Hkl. fold L in Hkl. rewrite (proj2 (Z.ltb_ge _ _)) by lia. unfold rs_len in Hkl.
  eapply emits_bind; [apply emits_bytes; unfold u32_max; lia|]. by apply (IH _ Hv).
Qed.

(** A value within the limits is written in the format of native values. *)
Lemma value_emits v : emits_value v.
Proof.
  induction v as [|b|z|z|p|p|vs cap IH|es cap IH|m|v a IH] using validated_ind'; intros depth Hc; cbn [encode_value value_layout].
  - apply emits_put.
  - eapply (emits_bind _ _ [_] [_]); apply emits_put.
  - eapply (emits_bind _ _ [_]); apply emits_put.
  - eapply (emits_bind _ _ [_]); apply emits_put.
  - apply emits_text. by apply codable_sizes in Hc as [? _].
  - apply emits_text. by apply codable_sizes in Hc as [? _].
  - by apply (emits_array vs cap).
  - by apply (emits_list es cap).
  - destruct Hc as (_ & _ & Hm). eapply (emits_bind _ _ [_]); [apply emits_put|]. eapply (emits_bind _ _ [_] [_]); [apply emits_put|].
    eapply emits_of; [apply native_tag_ok; unfold marker_is_valid in Hm; by destruct (original_kind m)|]. apply emits_put.
  - destruct Hc as (_ & _ & Hr & Ha & Hc). eapply (emits_bind _ _ [_]); [apply emits_put|]. eapply (emits_bind _ _ [_]); [apply emits_put|].
    eapply emits_of; [apply native_tag_ok; by destruct a, (kind v)|]. eapply (emits_bind _ _ [_]); [apply emits_put|]. by apply IH.
Qed.

(** ** Attributes *)

Lemma set_shape_bounds set : set_shape_rejected (text (key set)) (set_len set) (effective_limits P) = false ->
  text (key set) <> [] /\ rs_len (key set) <= tl_key_path_bytes L /\ 1 <= set_len set <= tl_occurrences L.
Proof.
  unfold set_shape_rejected. intros [[[H1 H2]%orb_false_iff H3]%orb_false_iff H4]%orb_false_iff. apply bool_decide_eq_false in H1. apply Z.ltb_ge in H2, H4.
  apply Z.eqb_neq in H3. unfold set_len in *. pose proof (zlen_nonneg (occurrences set)). split; [done|]. split; [done|]. split; [lia|exact H4].
Qed.

Lemma flat_map_member {A} (f : A -> bytes) l a : a ∈ l -> zlen (f a) <= zlen (flat_map f l).
Proof.
  intros [pre [post ->]]%list_elem_of_split. rewrite flat_map_app. cbn [flat_map]. rewrite !zlen_app. pose proof (zlen_nonneg (flat_map f pre)). pose proof (zlen_nonneg (flat_map f post)). lia.
Qed.

Lemma emits_occurrences {Lay : Layout} set : set_ok P set -> zlen (occurrences_layout set) <= block_bound -> Emits (encode_occurrences L set) (occurrences_layout set) tt.
Proof.
  intros [_ Hshape Hvs] Hb. destruct (set_shape_bounds _ Hshape) as (_ & Hk & Hn). pose proof (profile_small P HP) as [Ho _ Hkey _ _ _ _ _ _]. fold L in Ho, Hkey.
  unfold occurrences_layout in Hb. rewrite !zlen_app, zlen_text_layout in Hb. pose proof (zlen_nonneg (text (key set))). pose proof (zlen_nonneg (be_bytes 2 (set_len set))). unfold encode_occurrences, occurrences_layout.
  eapply emits_bind; [apply emits_bytes; unfold rs_len, u32_max in *; lia|]. eapply emits_bind; [apply emits_count; unfold u16_max; lia|].
  apply emits_each. rewrite Forall_forall in *. intros v Hv. apply value_emits.
  apply (fits_codable (effective_limits P) (codec_limits P) (codec_limits_match P)); [by apply Hvs|]. pose proof (flat_map_member value_layout _ _ Hv). lia.
Qed.

(** A loop whose accumulator is that of a check that succeeds. *)
Lemma emits_fold {A B} (f : B -> A -> Cur S B) (g : A -> bytes) (step : B -> A -> result TraceStoreFailure B) l : forall b c,
  (forall b a c, a ∈ l -> step b a = Ok c -> Emits (f b a) (g a) c) -> try_fold step b l = Ok c -> Emits (cur_fold f l b) (flat_map g l) c.
Proof.
  induction l as [|a l IH]; intros b c Hstep H; cbn [try_fold] in H; [injection H as <-; apply emits_ret|].
  destruct (step b a) as [b'|] eqn:Ha; [|done]. cbn. eapply emits_bind; [by apply Hstep; [apply list_elem_of_here|]|].
  apply IH; [|done]. intros b1 x c1 Hx. apply Hstep. by apply list_elem_of_further.
Qed.

Lemma detail_counts_fold l n : validate_detail_attributes l n = Ok tt -> zlen l <= MAX_DETAIL_COLLECTION /\
  exists c, try_fold (fun c a => filtered_add n trace_limit_exceeded c (set_len (detail_occurrences a))) 0 l = Ok c.
Proof.
  unfold validate_detail_attributes. destruct (Z.ltb_spec MAX_DETAIL_COLLECTION (zlen l)); [done|]. intros H'. split; [done|].
  change (fun c a => filtered_add n trace_limit_exceeded c (set_len (detail_occurrences a))) with
    (fun c a => match checked_add usize_max c (set_len (detail_occurrences a)) with
       | Some c => if c <=? n then Ok c else Err trace_limit_exceeded | None => Err trace_limit_exceeded end).
  destruct (try_fold _ 0 l) as [c|]; [by exists c|done].
Qed.

Context {Lay : Layout}.

Lemma emits_detail_sets l : detail_sets_ok P l -> zlen (details_attributes_layout l) <= block_bound ->
  Emits (encode_span_attributes L l) (details_attributes_layout l) tt.
Proof.
  intros [_ Hsets Hc] Hb. apply detail_counts_fold in Hc as [Hn [c Hc]]. unfold encode_span_attributes, details_attributes_layout in *.
  rewrite zlen_app in Hb. pose proof (zlen_nonneg (be_bytes 2 (zlen l))). rewrite (proj2 (Z.ltb_ge _ _)) by lia.
  eapply emits_bind; [apply emits_count; unfold MAX_DETAIL_COLLECTION, u16_max in *; lia|]. eapply emits_last; [|apply emits_ret].
  refine (emits_fold _ (fun a => occurrences_layout (detail_occurrences a)) _ l _ _ _ Hc). intros n a n' Ha Hadd. rewrite Forall_forall in Hsets. pose proof (Hsets a Ha) as Hset. pose proof Hset as [_ Hshape _].
  destruct (set_shape_bounds _ Hshape) as (_ & Hk & _). cbv beta zeta. rewrite (proj2 (Z.ltb_ge _ _)) by lia.
  eapply emits_of; [exact Hadd|]. pose proof (flat_map_member (fun a => occurrences_layout (detail_occurrences a)) _ _ Ha). cbv beta in *.
  eapply emits_last; [apply emits_occurrences; [done|lia]|]. apply emits_ret.
Qed.

(** ** Details *)

(** What the check of the details establishes. *)
Record valid_details (d : SpanObservationDetails) : Prop := {
  vd_texts : Forall (fun s => rs_len s <= tl_key_path_bytes L) [trace_state d; status_message (status d); resource_url (span_resource d);
               span_scope_name (span_scope d); span_scope_version (span_scope d); scope_url (span_scope d)];
  vd_events : zlen (events d) <= MAX_DETAIL_COLLECTION;
  vd_links : zlen (links d) <= MAX_DETAIL_COLLECTION;
  vd_names : Forall (fun e => text (span_event_name e) <> [] /\ rs_len (span_event_name e) <= tl_key_path_bytes L) (events d);
  vd_states : Forall (fun l => rs_len (link_trace_state l) <= tl_key_path_bytes L /\ all_zero (link_trace_id l) || all_zero (link_span_id l) = false) (links d);
}.

Lemma existsb_false {A} (f : A -> bool) l : existsb f l = false -> Forall (fun a => f a = false) l.
Proof. induction l as [|a l IH]; [done|]. cbn. intros [? ?]%orb_false_iff. constructor; auto. Qed.

Lemma details_validated d : details_validate_with_profile d P = Ok tt -> valid_details d.
Proof.
  unfold details_validate_with_profile. cbv zeta. destruct (_ || _) eqn:Hg; [done|]. apply orb_false_iff in Hg as [[Hg He%Z.ltb_ge]%orb_false_iff Hl%Z.ltb_ge].
  apply existsb_false in Hg. intros H. apply result_bind_Ok in H as ([] & H1 & H2). apply try_fold_unit in H1, H2. split; [|done|done|..].
  - eapply Forall_impl; [exact Hg|]. intros t Ht. by apply Z.ltb_ge in Ht.
  - eapply Forall_impl; [exact H1|]. intros e Hev. cbv beta in Hev. destruct (_ || _) eqn:Hn; [done|]. apply orb_false_iff in Hn as [Hn%bool_decide_eq_false Hn2%Z.ltb_ge]. done.
  - eapply Forall_impl; [exact H2|]. intros k Hlk. cbv beta in Hlk. destruct (_ || _) eqn:Hn; [done|]. apply orb_false_iff in Hn as [Hn Hn2%Z.ltb_ge]. done.
Qed.

Lemma details_within d : valid_details d -> details_exceed L d = false.
Proof.
  intros [Ht He Hl _ _]. unfold details_exceed. rewrite (proj2 (Z.ltb_ge _ _)), (proj2 (Z.ltb_ge MAX_DETAIL_COLLECTION (zlen (links d)))), !orb_false_r by lia.
  repeat (apply Forall_cons in Ht as [? Ht]). cbn [existsb]. rewrite !(proj2 (Z.ltb_ge _ _)) by lia. done.
Qed.

(** A string of the details. *)
Lemma emits_short t : rs_len t <= tl_key_path_bytes L -> Emits (out_bytes (text t)) (text_layout (text t)) tt.
Proof. pose proof (profile_small P HP) as [_ _ Hk _ _ _ _ _ _]. fold L in Hk. intros Ht. apply emits_bytes. unfold rs_len, u32_max in *. lia. Qed.

Lemma emits_event e : span_event_ok P e -> text (span_event_name e) <> [] /\ rs_len (span_event_name e) <= tl_key_path_bytes L ->
  zlen (event_layout e) <= block_bound -> Emits (encode_event L e) (event_layout e) tt.
Proof.
  intros [_ _ _ Ha] [Hn0 Hn] Hb. unfold encode_event, event_layout in *. rewrite !zlen_app in Hb. rewrite bool_decide_false, (proj2 (Z.ltb_ge _ _)) by (done || lia). cbn [orb].
  pose proof (zlen_nonneg (time_layout (event_timestamp e))). pose proof (zlen_nonneg (text_layout (text (span_event_name e)))). pose proof (zlen_nonneg (be_bytes 4 (event_dropped e))).
  eapply emits_bind; [apply emits_time|]. eapply emits_bind; [by apply emits_short|]. eapply emits_bind; [apply emits_put|]. apply emits_detail_sets; [done|lia].
Qed.

Lemma emits_link l : span_link_ok P l -> rs_len (link_trace_state l) <= tl_key_path_bytes L -> zlen (link_layout l) <= block_bound ->
  Emits (encode_link L l) (link_layout l) tt.
Proof.
  intros [_ _ _ _ _ Ha] Hn Hb. unfold encode_link, link_layout in *. rewrite !zlen_app in Hb. rewrite (proj2 (Z.ltb_ge _ _)) by lia.
  pose proof (zlen_nonneg (link_trace_id l)). pose proof (zlen_nonneg (link_span_id l)). pose proof (zlen_nonneg (text_layout (text (link_trace_state l)))).
  pose proof (zlen_nonneg (be_bytes 4 (link_flags l))). pose proof (zlen_nonneg (be_bytes 4 (link_dropped l))).
  do 2 (eapply emits_bind; [apply emits_put|]). eapply emits_bind; [by apply emits_short|]. do 2 (eapply emits_bind; [apply emits_put|]).
  apply emits_detail_sets; [done|lia].
Qed.

Lemma details_layout_parts d : zlen (details_layout d) <= block_bound ->
  zlen (flat_map event_layout (events d)) <= block_bound /\ zlen (flat_map link_layout (links d)) <= block_bound.
Proof.
  unfold details_layout. rewrite !zlen_app. repeat match goal with |- context [zlen ?b] => lazymatch goal with H : 0 <= zlen b |- _ => fail | _ => pose proof (zlen_nonneg b) end end. lia.
Qed.

Lemma emits_details d : details_ok P d -> valid_details d -> zlen (details_layout d) <= block_bound -> Emits (encode_details L d) (details_layout d) tt.
Proof.
  intros [_ _ Hev Hln] Hv Hb. pose proof (details_layout_parts d Hb) as [Hbe Hbl]. unfold encode_details. rewrite (details_within d Hv). destruct Hv as [Ht Hne Hnl Hen Hls].
  repeat (apply Forall_cons in Ht as [? Ht]). unfold details_layout.
  eapply emits_bind; [by apply emits_short|]. eapply emits_bind; [apply emits_put|]. eapply emits_bind; [apply emits_put|]. eapply emits_bind; [by apply emits_short|].
  do 4 (eapply emits_bind; [apply emits_put|]). do 3 (eapply emits_bind; [by apply emits_short|]). eapply emits_bind; [apply emits_put|]. eapply emits_bind; [by apply emits_short|].
  unfold MAX_DETAIL_COLLECTION in *. eapply emits_bind; [apply emits_count; unfold u16_max; lia|]. rewrite Forall_forall in Hev. rewrite Forall_forall in Hln. rewrite Forall_forall in Hen. rewrite Forall_forall in Hls.
  eapply emits_bind; [apply emits_each, Forall_forall; intros e He; pose proof (flat_map_member event_layout _ _ He); apply emits_event; [by apply Hev|by apply Hen|lia]|].
  eapply emits_bind; [apply emits_count; unfold u16_max; lia|].
  apply emits_each, Forall_forall. intros k Hk. pose proof (flat_map_member link_layout _ _ Hk). apply emits_link; [by apply Hln|by apply Hls|lia].
Qed.

(** ** Observations *)

(** One attribute of the check counts its namespace and adds its bytes. *)
Lemma check_attribute_counts cs d a cs' d' missing exceeded : check_span_attribute (tl_occurrences L) (cs, d) a = Ok (cs', d') ->
  count_namespace L missing exceeded cs (namespace a) (set_len a) = Ok cs' /\ span_namespace_tag (namespace a) = Ok (namespace_number (namespace a)).
Proof.
  unfold check_span_attribute, count_namespace. intros H. apply result_bind_Ok in H as (i & Hi & H). destruct (span_namespace_index (namespace a)) as [j|] eqn:Hj; [|done].
  cbn in Hi. injection Hi as ->. apply result_bind_Ok in H as (c & Hc & H). destruct (cs !! i) as [c0|] eqn:Hci; [|done]. cbn in Hc. injection Hc as ->.
  apply result_bind_Ok in H as (c' & Hadd & H). apply result_bind_Ok in H as (x & _ & H). apply result_bind_Ok in H as (y & _ & H). injection H as <- <-.
  cbn [ok_or mbind result_bind]. rewrite Hci. cbn [ok_or mbind result_bind]. unfold filtered_add.
  destruct (checked_add usize_max c (set_len a)) as [n|]; [|done]. destruct (n <=? tl_occurrences L); [|done]. injection Hadd as ->. split; [done|]. by destruct (namespace a).
Qed.

Lemma check_attributes_counts l cs d cs' d' : try_fold (check_span_attribute (tl_occurrences L)) (cs, d) l = Ok (cs', d') ->
  (forall missing exceeded, try_fold (fun cs a => count_namespace L missing exceeded cs (namespace a) (set_len a)) cs l = Ok cs') /\
  Forall (fun a => span_namespace_tag (namespace a) = Ok (namespace_number (namespace a))) l.
Proof.
  revert cs d. induction l as [|a l IH]; intros cs d H; cbn [try_fold] in H; [by injection H as <- <-|].
  destruct (check_span_attribute _ _ a) as [[cs1 d1]|] eqn:Ha; [|done]. apply IH in H as [Hc Ht]. split.
  - intros missing exceeded. cbn [try_fold]. destruct (check_attribute_counts _ _ _ _ _ missing exceeded Ha) as [-> _]. apply Hc.
  - constructor; [|done]. by destruct (check_attribute_counts _ _ _ _ _ trace_invalid_input trace_invalid_input Ha) as [_ ?].
Qed.

(** A guard that every element passes. *)
Lemma try_fold_guard {E A B} (f : B -> A -> result E B) (g : A -> bool) (e : E) l b :
  Forall (fun a => g a = false) l -> try_fold (fun b a => if g a then Err e else f b a) b l = try_fold f b l.
Proof. intros Hl. revert b. induction Hl as [|a l Ha _ IH]; intros b; [done|]. cbn [try_fold]. rewrite Ha. destruct (f b a); [apply IH|done]. Qed.

Lemma keys_within l : Forall (set_ok P) l -> Forall (fun a => (tl_key_path_bytes L <? rs_len (key a)) = false) l.
Proof. intros Hl. eapply Forall_impl; [exact Hl|]. intros a [_ Hs _]. apply Z.ltb_ge. by destruct (set_shape_bounds _ Hs) as (_ & ? & _). Qed.

Lemma attributes_pass o decoded detail : Forall (set_ok P) (so_attributes o) -> checked_facts P o decoded detail -> check_attributes L o = Ok tt.
Proof.
  intros Hs [_ [Hn0 Hn] Hsets _ [cs Hf] _ _]. apply check_attributes_counts in Hf as [Hc _]. unfold check_attributes. fold L in Hn, Hsets.
  rewrite bool_decide_false, !(proj2 (Z.ltb_ge _ _)) by (done || lia). cbn [orb]. rewrite try_fold_guard by (by apply keys_within). by rewrite Hc.
Qed.

Lemma emits_provenance p : provenance_ok p -> Emits (encode_provenance p) (provenance_layout p) tt.
Proof.
  intros [_ _ _ Hp]. apply provenance_bounds in Hp as [Hn Hlen]. rewrite zlen_map in Hn. rewrite Forall_map in Hlen. unfold encode_provenance, provenance_layout.
  do 2 (eapply emits_bind; [apply emits_put|]). eapply emits_bind; [apply emits_count; unfold MAX_RULES, u16_max in *; lia|].
  apply emits_each. eapply Forall_impl; [exact Hlen|]. intros rule Hr. apply emits_bytes. unfold MAX_RULE_ID_BYTES, u32_max in *. lia.
Qed.

Lemma emits_parent parent : Emits (match parent with Some id => _ ← out_u8 1; put_slice id | None => out_u8 0 end) (parent_layout parent) tt.
Proof. destruct parent; [eapply (emits_bind _ _ [_])|]; apply emits_put. Qed.

Lemma span_layout_parts o : zlen (span_layout o) <= block_bound ->
  zlen (flat_map attribute_layout (so_attributes o)) <= block_bound /\ zlen (details_layout (so_details o)) <= block_bound.
Proof.
  unfold span_layout. rewrite !zlen_app. repeat match goal with |- context [zlen ?b] => lazymatch goal with H : 0 <= zlen b |- _ => fail | _ => pose proof (zlen_nonneg b) end end. lia.
Qed.

(** An observation within its limits is written as its layout. *)
Lemma emits_span o : span_ok P o -> zlen (span_layout o) <= block_bound -> Emits (encode_semantic_observation P o) (span_layout o) tt.
Proof.
  intros [_ _ _ _ _ _ Ha Hd Hp Hc] Hb. destruct (checked_span_facts P o HP Hc) as (decoded & detail & Hf). pose proof Hf as [_ [_ Hn] Hsets Hdv [cs Hfold] _ _].
  apply check_attributes_counts in Hfold as [_ Htags]. pose proof (span_layout_parts o Hb) as [Hba Hbd]. pose proof (profile_small P HP) as [Ho Hs3 _ _ _ _ _ _ _]. fold L in Ho, Hs3, Hsets, Hn.
  unfold encode_semantic_observation, span_layout. eapply emits_of; [by apply limits_for_ok|]. fold L. do 2 (eapply emits_bind; [apply emits_put|]).
  eapply emits_bind; [apply emits_parent|]. do 2 (eapply emits_bind; [apply emits_put|]). do 2 (eapply emits_bind; [apply emits_time|]).
  eapply emits_bind; [by apply emits_short|]. eapply emits_bind; [apply emits_count; unfold u16_max; lia|]. eapply emits_bind.
  { apply emits_each. rewrite Forall_forall in Ha. rewrite Forall_forall in Htags. apply Forall_forall. intros a Hin.
    pose proof (flat_map_member attribute_layout _ _ Hin) as Hm. unfold attribute_layout in Hm at 1. rewrite zlen_cons in Hm. eapply emits_of; [by apply Htags|].
    eapply (emits_bind _ _ [_]); [apply emits_put|]. apply emits_occurrences; [by apply Ha|lia]. }
  eapply emits_of; [by eapply attributes_pass|]. eapply emits_bind; [apply emits_details; [done|by apply details_validated|done]|]. by apply emits_provenance.
Qed.
End emits.

(** ** Outputs *)

Section vectors.
#[local] Existing Instance ExactAllocator.
#[local] Instance vector_output : EncodeOutput unit := VecOutput.

(** On a vector with memory available the pieces are appended, and refused past the block limit. *)
Lemma vec_pieces ps b : zlen b + zlen (concat ps) <= TRACE_MAX_BLOCK_BYTES -> cur_each put_slice ps b tt = (b ++ concat ps, tt, Ok tt).
Proof.
  revert b. induction ps as [|p ps IH]; intros b Hb; [cbn; by rewrite app_nil_r|]. cbn [cur_each concat] in *. fold (@cur_each unit bytes put_slice).
  rewrite zlen_app in Hb. unfold mbind, Cur_bind. cbn [put_slice vector_output VecOutput]. unfold vec_put_slice. pose proof (zlen_nonneg (concat ps)). unfold TRACE_MAX_BLOCK_BYTES in *.
  rewrite checked_add_ok by (unfold usize_max; lia). rewrite (proj2 (Z.ltb_ge _ _)) by lia. cbn [try_reserve_exact ExactAllocator].
  rewrite IH by (rewrite zlen_app; lia). by rewrite <- app_assoc.
Qed.

Lemma vec_pieces_inv ps b b' : zlen b <= TRACE_MAX_BLOCK_BYTES -> cur_each put_slice ps b tt = (b', tt, Ok tt) -> b' = b ++ concat ps /\ zlen b' <= TRACE_MAX_BLOCK_BYTES.
Proof.
  revert b. induction ps as [|p ps IH]; intros b Hb H; [cbn in H |- *; injection H as <-; by rewrite app_nil_r|].
  cbn [cur_each concat] in *. fold (@cur_each unit bytes put_slice) in *. unfold mbind, Cur_bind in H. cbn [put_slice vector_output VecOutput] in H. unfold vec_put_slice in H.
  destruct (checked_add usize_max (zlen b) (zlen p)) as [n|] eqn:Ha; [|done]. apply checked_add_Some in Ha as [-> _].
  destruct (Z.ltb_spec TRACE_MAX_BLOCK_BYTES (zlen b + zlen p)); [done|]. cbn [try_reserve_exact ExactAllocator] in H. apply IH in H as [-> ?]; [|by rewrite zlen_app]. split; [by rewrite <- app_assoc|done].
Qed.

Lemma emits_vec {A} (m : Cur unit A) bs a b : Emits m bs a -> zlen b + zlen bs <= TRACE_MAX_BLOCK_BYTES -> m b tt = (b ++ bs, tt, Ok a).
Proof. intros (ps & <- & Hm) Hb. rewrite Hm. unfold mbind, Cur_bind. by rewrite vec_pieces. Qed.

Lemma emits_vec_inv {A} (m : Cur unit A) bs a b b' c : Emits m bs a -> zlen b <= TRACE_MAX_BLOCK_BYTES -> m b tt = (b', tt, Ok c) -> b' = b ++ bs /\ c = a /\ zlen b' <= TRACE_MAX_BLOCK_BYTES.
Proof.
  intros (ps & <- & Hm) Hb. rewrite Hm. unfold mbind, Cur_bind. destruct (cur_each put_slice ps b tt) as [[b1 []] [[]|e]] eqn:H; [|done].
  intros [= <- <-]. apply vec_pieces_inv in H as [-> ?]; done.
Qed.
End vectors.

Section keys.
Context {S : Type} {Alloc : Allocator S} {Env : ScanEnvironment S} {Cap : QueryCapacity S}.
Context (Intr : TraceStoreFailure -> Prop) {HI : Interrupts S Intr}.

(** A computation on an output that appends some bytes, unless its environment interrupts it. *)
Definition appends (m : Cur S unit) (bs : bytes) (b : bytes) : Prop :=
  forall s, match m b s with (b', _, Ok _) => b' = b ++ bs | (_, _, Err e) => Intr e end.

Lemma appends_bind (m k : Cur S unit) b1 b2 b : appends m b1 b -> appends k b2 (b ++ b1) -> appends (_ ← m; k) (b1 ++ b2) b.
Proof.
  intros Hm Hk s. specialize (Hm s). unfold mbind, Cur_bind. destruct (m b s) as [[b' s'] [[]|e]]; [|done]. subst b'.
  specialize (Hk s'). destruct (k (b ++ b1) s') as [[b'' s''] [[]|e]]; [|done]. by rewrite app_assoc.
Qed.

Lemma work_interrupts s e : snd ((_ ← check_cancel; observe_unit) s) = Err e -> Intr e.
Proof.
  pose proof (@observe_interrupts _ _ _ _ Intr HI s) as H. unfold observe, mbind, Tr_bind in *. destruct (check_cancel s) as [s1 [[]|e1]]; [|by intros [= <-]].
  destruct (observe_unit s1) as [s2 [[]|e2]]; [done|by intros [= <-]].
Qed.

Lemma appends_chunk capacity chunk b : zlen b + zlen chunk <= TRACE_MAX_BLOCK_BYTES -> zlen b + zlen chunk <= capacity ->
  appends (_ ← cur_tr check_cancel; _ ← cur_tr observe_unit; put_preallocated_slice capacity chunk) chunk b.
Proof.
  intros Hmax Hcap s. pose proof (work_interrupts s) as H. unfold mbind, Cur_bind, Tr_bind, cur_tr in *.
  destruct (check_cancel s) as [s1 [[]|e1]]; [|by apply H]. destruct (observe_unit s1) as [s2 [[]|e2]]; [|by apply H]. unfold put_preallocated_slice, TRACE_MAX_BLOCK_BYTES in *.
  rewrite checked_add_ok by (unfold usize_max; lia). rewrite !(proj2 (Z.ltb_ge _ _)) by lia. done.
Qed.

Lemma appends_each {A} (f : A -> Cur S unit) (g : A -> bytes) (fits : bytes -> Prop) l : forall b,
  (forall b a, a ∈ l -> fits (b ++ g a) -> appends (f a) (g a) b) -> (forall b c, fits (b ++ c) -> fits b) ->
  fits (b ++ flat_map g l) -> appends (cur_each f l) (flat_map g l) b.
Proof.
  induction l as [|a l IH]; intros b Hf Hmono Hb; [intros s; cbn; by rewrite app_nil_r|]. cbn [flat_map cur_each] in *. rewrite app_assoc in Hb.
  apply appends_bind; [apply Hf; [apply list_elem_of_here|by eapply Hmono]|]. apply IH; [|done|done]. intros b' x Hx. apply Hf. by apply list_elem_of_further.
Qed.

Definition fits_in (capacity : Z) (b : bytes) : Prop := zlen b <= TRACE_MAX_BLOCK_BYTES /\ zlen b <= capacity.

Lemma fits_prefix capacity b c : fits_in capacity (b ++ c) -> fits_in capacity b.
Proof. unfold fits_in. rewrite zlen_app. pose proof (zlen_nonneg c). lia. Qed.

Lemma flat_map_id (l : list bytes) : flat_map id l = concat l.
Proof. induction l as [|a l IH]; [done|]. cbn. by rewrite IH. Qed.

Lemma appends_slice capacity bs b : fits_in capacity (b ++ bs) -> appends (observed_put_slice capacity bs) bs b.
Proof.
  intros Hb. unfold observed_put_slice. assert (Hc : flat_map id (chunks 4096 bs) = bs) by (rewrite flat_map_id; apply chunks_concat; lia).
  rewrite <- Hc at 2. apply (appends_each _ id (fits_in capacity)); [|by apply fits_prefix|by rewrite Hc].
  intros b' chunk _ [H1 H2]. rewrite zlen_app in H1, H2. by apply appends_chunk.
Qed.

Lemma emits_observed (m : Cur S unit) capacity bs b : Emits (Out := ObservedSemanticOutput capacity) m bs tt -> fits_in capacity (b ++ bs) -> appends m bs b.
Proof.
  intros (ps & <- & Hm) Hb s. rewrite Hm. unfold mbind, Cur_bind.
  assert (Ha : appends (cur_each (observed_put_slice capacity) ps) (flat_map id ps) b).
  { apply (appends_each _ id (fits_in capacity)); [|by apply fits_prefix|by rewrite flat_map_id]. intros b' p _. apply appends_slice. }
  specialize (Ha s). rewrite flat_map_id in Ha. change (@put_slice S (ObservedSemanticOutput capacity)) with (observed_put_slice (S := S) capacity).
  by destruct (cur_each (observed_put_slice capacity) ps b s) as [[b' s'] [[]|e]].
Qed.

(** The semantic key of an observation is its layout. *)
Lemma semantic_key_yields {Lay : Layout} P o : profile_ok P -> span_ok P o -> zlen (span_layout o) <= TRACE_MAX_BLOCK_BYTES ->
  yields Intr (encode_semantic_observation_with_profile_observed P o (zlen (span_layout o))) (fun key => key = span_layout o).
Proof.
  intros HP Ho Hb s. unfold encode_semantic_observation_with_profile_observed. pose proof (@reserve_interrupts _ _ _ _ Intr HI (length (span_layout o)) s) as Hr.
  pose proof (reserve_enough (zlen (span_layout o)) s) as Hcap. unfold reserve in Hr. unfold zlen at 1 in Hcap. unfold zlen at 1.
  destruct (try_reserve_exact (Z.of_nat (length (span_layout o))) s) as [s' [capacity|]]; [|exact Hr]. specialize (Hcap s' capacity eq_refl).
  assert (He : Emits (Out := ObservedSemanticOutput capacity) (encode_semantic_observation (Out := ObservedSemanticOutput capacity) P o) (span_layout o) tt)
    by (apply (emits_span P HP); [done|unfold TRACE_MAX_BLOCK_BYTES, block_bound in *; lia]).
  pose proof (emits_observed _ _ _ [] He) as Ha. cbn [app] in Ha. specialize (Ha ltac:(split; done) s').
  destruct (encode_semantic_observation P o [] s') as [[b' s''] [[]|e]]; [|exact Ha]. cbn. subst b'. change (Z.of_nat (length (span_layout o))) with (zlen (span_layout o)). by rewrite Z.eqb_refl.
Qed.
End keys.
