(* ===== verification/TraceReads.v ===== *)
(** Trace store: the decoder reads the layout.

    [Gets m bs a]: on any input that begins with [bs], the decoder [m] consumes exactly [bs] and
    returns [a], in an environment that neither cancels nor refuses and with memory available. It
    holds for sequences, loops, the primitives, and for every part of an observation. What is read
    back has the same view as what was written: everything but the capacities of strings and
    vectors. *)

From S2P Require Import Prelude Outcome Identity Limits Routing SourceTime Values Observe Traversal Validation Shape CanonicalEncoding Occurrences PolicyModel PolicyCodec PolicyEvaluation RetentionTime LogStore LogCodec LogReads ValueLayout LogRoundtrip TraceModel TraceHeap TraceCodec TraceDecode TraceWrites.

#[local] Existing Instance ExactAllocator.
#[local] Instance quiet : ScanEnvironment unit := QuietEnvironment unit.

Section gets.
Context {Lay : Layout}.

Definition Gets {A} (m : Cur unit A) (bs : bytes) (a : A) : Prop := forall rest, m (bs ++ rest) tt = (rest, tt, Ok a).

(** ** Sequences *)

Lemma gets_ret {A} (a : A) : Gets (mret a) [] a.
Proof. done. Qed.

Lemma gets_bind {A B} (m : Cur unit A) (k : A -> Cur unit B) b1 b2 a b : Gets m b1 a -> Gets (k a) b2 b -> Gets (m ≫= k) (b1 ++ b2) b.
Proof. intros Hm Hk rest. unfold mbind, Cur_bind. rewrite <- app_assoc, Hm. apply Hk. Qed.

Lemma gets_skip {A B} (m : Cur unit A) (k : A -> Cur unit B) bs a b : Gets m [] a -> Gets (k a) bs b -> Gets (m ≫= k) bs b.
Proof. apply (gets_bind m k []). Qed.

Lemma gets_last {A B} (m : Cur unit A) (k : A -> Cur unit B) bs a b : Gets m bs a -> Gets (k a) [] b -> Gets (m ≫= k) bs b.
Proof. intros Hm Hk. rewrite <- (app_nil_r bs). by eapply gets_bind. Qed.

Lemma gets_of {A} (r : result TraceStoreFailure A) a : r = Ok a -> Gets (cur_of r) [] a.
Proof. by intros ->. Qed.

(** A loop that pushes one related element per step. *)
Lemma gets_gather {A B} (m : Cur unit B) (g : A -> bytes) (R : A -> B -> Prop) l :
  Forall (fun a => exists b, R a b /\ Gets m (g a) b) l -> exists bs, Forall2 R l bs /\ Gets (cur_gather (length l) m) (flat_map g l) bs.
Proof.
  induction 1 as [|a l (b & Hb & Hm) _ (bs & Hbs & IH)]; [exists []; split; [constructor|apply gets_ret]|].
  exists (b :: bs). split; [by constructor|]. cbn. eapply gets_bind; [exact Hm|]. eapply gets_last; [exact IH|]. apply gets_ret.
Qed.

(** A loop with an accumulator that follows a computation on the elements. *)
Lemma gets_loop {A B} (m : B -> Cur unit B) (g : A -> bytes) (step : B -> A -> B -> Prop) l : forall b c,
  (forall b a c, a ∈ l -> step b a c -> Gets (m b) (g a) c) ->
  (fix go l b c := match l with [] => b = c | a :: l => exists d, step b a d /\ go l d c end) l b c ->
  Gets (cur_loop (length l) m b) (flat_map g l) c.
Proof.
  induction l as [|a l IH]; intros b c Hm H; [subst; apply gets_ret|]. destruct H as (d & Hd & H). cbn. eapply gets_bind; [apply (Hm _ a); [apply list_elem_of_here|done]|].
  apply IH; [|done]. intros b' x c' Hx. apply Hm. by apply list_elem_of_further.
Qed.

(** ** Primitives *)

Lemma gets_take n bs : zlen bs = n -> Gets (in_take n) bs bs.
Proof.
  intros <- rest. unfold in_take, mbind, Cur_bind, in_split. cbn [cur_tr check_cancel is_cancelled quiet QuietEnvironment].
  pose proof (zlen_nonneg rest). rewrite zlen_app, (proj2 (Z.leb_le _ _)) by lia. unfold zlen. by rewrite Nat2Z.id, drop_app_length, take_app_length.
Qed.

Lemma gets_array n bs : zlen bs = n -> Gets (in_array n) bs bs.
Proof. apply gets_take. Qed.

Lemma gets_component : Gets in_component [] tt.
Proof. done. Qed.

Lemma gets_u8 b : Gets in_u8 [b] b.
Proof. eapply gets_last; [by apply gets_take|]. done. Qed.

Lemma gets_uint n v : 0 <= v < 256 ^ Z.of_nat n -> Gets (in_uint (Z.of_nat n)) (be_bytes n v) v.
Proof. intros Hv. eapply gets_last; [apply gets_take, zlen_be_bytes|]. rewrite be_value_be_bytes by done. apply gets_ret. Qed.

Lemma gets_u64 v : in_u u64_max v -> Gets in_u64 (be_bytes 8 v) v.
Proof. intros Hv. apply (gets_uint 8). change (256 ^ Z.of_nat 8) with two64. unfold in_u, u64_max, two64 in *. lia. Qed.

Lemma gets_u32 v : in_u u32_max v -> Gets in_u32 (be_bytes 4 v) v.
Proof. intros Hv. apply (gets_uint 4). change (256 ^ Z.of_nat 4) with 4294967296. unfold in_u, u32_max in *. lia. Qed.

Lemma gets_u16 v : in_u u16_max v -> Gets in_u16 (be_bytes 2 v) v.
Proof. intros Hv. apply (gets_uint 2). change (256 ^ Z.of_nat 2) with 65536. unfold in_u, u16_max in *. lia. Qed.

Lemma gets_i64 v : i64_ok v -> Gets in_i64 (be_bytes 8 v) v.
Proof.
  intros Hv. eapply gets_last; [eapply gets_last; [apply gets_take; by rewrite zlen_be_bytes|apply gets_ret]|]. rewrite as_i64_be_bytes by done. apply gets_ret.
Qed.

Lemma gets_count maximum n : 0 <= n <= maximum -> n <= u16_max -> Gets (in_count maximum) (be_bytes 2 n) n.
Proof. intros Hn Hm. eapply gets_last; [apply gets_u16; unfold in_u; lia|]. rewrite (proj2 (Z.ltb_ge _ _)) by lia. apply gets_ret. Qed.

Lemma gets_raw_bytes maximum b : zlen b <= maximum -> zlen b <= u32_max -> Gets (in_raw_bytes maximum) (text_layout b) b.
Proof.
  intros Hm Hb. pose proof (zlen_nonneg b). eapply gets_bind; [apply gets_u32; unfold in_u; lia|]. rewrite (proj2 (Z.ltb_ge _ _)) by lia. by apply gets_take.
Qed.

Lemma gets_reserve n : Gets (reserve_vec n) [] n.
Proof. done. Qed.

Lemma gets_bytes maximum b : zlen b <= maximum -> zlen b <= u32_max -> Gets (in_bytes maximum) (text_layout b) (exact b).
Proof. intros Hm Hb. eapply gets_last; [by apply gets_raw_bytes|]. eapply gets_skip; [apply gets_reserve|]. apply gets_ret. Qed.

Lemma gets_string maximum b : zlen b <= maximum -> zlen b <= u32_max -> utf8_valid b = true -> Gets (in_string maximum) (text_layout b) (exact b).
Proof. intros Hm Hb Hu. eapply gets_last; [by apply gets_bytes|]. cbn [text exact]. rewrite Hu. apply gets_ret. Qed.

Lemma gets_raw_string maximum b : zlen b <= maximum -> zlen b <= u32_max -> utf8_valid b = true -> Gets (in_raw_string maximum) (text_layout b) b.
Proof. intros Hm Hb Hu. eapply gets_last; [by apply gets_raw_bytes|]. rewrite Hu. apply gets_ret. Qed.

(** ** Times and tags *)

Lemma span_quality_roundtrip q : decode_span_quality (span_quality_tag q) = Ok q.
Proof. by destruct q. Qed.

Lemma gets_time t : time_ok t -> Gets (decode_time TRACE_VERSION) (time_layout t) t.
Proof.
  intros [[->|(i & q & Hi & He)]|(v & Hv & He)].
  - eapply (gets_last _ _ [_]); [apply gets_u8|]. apply gets_ret.
  - pose proof He as He'. unfold EventTime_received in He. destruct (received_quality i q) as [Hq|Hq]; [|by rewrite Hq in He].
    destruct (validate_present_source_time i q); [|done]. injection He as <-. assert (Hl : time_layout (mkEventTime (Some i) q None) = plain_time (mkEventTime (Some i) q None)).
    { unfold time_layout, EventTime_source_value. cbn [event_instant event_raw_instant]. destruct (0 <=? nanos i); [|done]. rewrite (proj2 (Z.ltb_ge _ _)); [done|]. unfold i64_ok in Hi. lia. }
    rewrite Hl. unfold plain_time. cbn [event_quality event_instant]. eapply (gets_bind _ _ [_]); [apply gets_u8|].
    rewrite (proj2 (Z.eqb_neq _ _)) by (by destruct q). eapply gets_skip; [apply gets_of, span_quality_roundtrip|]. rewrite bool_decide_false by done.
    eapply gets_last; [by apply gets_i64|]. apply gets_of. destruct i as [z]. cbn [nanos]. by rewrite He'.
  - pose proof He as He'. unfold EventTime_out_of_range in He. destruct (Z.leb_spec v i64_max); [done|]. injection He as <-.
    unfold time_layout, EventTime_source_value. cbn [event_instant event_raw_instant]. rewrite (proj2 (Z.ltb_lt _ _)) by lia.
    eapply (gets_bind _ _ [_]); [apply gets_u8|]. cbn. eapply gets_last; [by apply gets_u64|]. apply gets_of. by rewrite He'.
Qed.

Lemma gets_parent parent : id_ok 8 parent -> Gets decode_parent (parent_layout parent) parent.
Proof.
  intros Hp. destruct parent as [id|]; cbn [parent_layout].
  - eapply (gets_bind _ _ [_]); [apply gets_u8|]. eapply gets_last; [by apply gets_array|]. apply gets_ret.
  - eapply (gets_last _ _ [_]); [apply gets_u8|]. apply gets_ret.
Qed.

(** ** Values *)

Context (P : ValueLimitProfile) (HP : profile_ok P).
Let L := trace_limits P.

Definition gets_at (v : ValidatedAttributeValue) : Prop := forall depth fuel, codable (codec_limits P) (tl_value_bytes L) v depth ->
  (length (value_layout v) <= fuel)%nat -> Gets (decode_value fuel L TRACE_VERSION depth) (value_layout v) (exact_candidate v).

Lemma flat_map_length {A} (f : A -> bytes) l a : a ∈ l -> (length (f a) <= length (flat_map f l))%nat.
Proof. intros H%(flat_map_member f). unfold zlen in H. lia. Qed.

Lemma Forall2_eq_map {A B} (f : A -> B) l bs : Forall2 (fun a b => b = f a) l bs -> bs = map f l.
Proof. induction 1 as [|a b l bs -> _ IH]; [done|]. cbn. by rewrite IH. Qed.

Lemma gets_array_value vs cap depth fuel : Forall gets_at vs -> codable (codec_limits P) (tl_value_bytes L) (VArray vs cap) depth ->
  (length (flat_map value_layout vs) <= fuel)%nat ->
  Gets (next ← cur_of (ok_or trace_malformed (checked_sub depth 1)); count ← in_count (tl_array_entries L); _ ← reserve_vec count;
        vs ← cur_gather (Z.to_nat count) (decode_value fuel L TRACE_VERSION next); mret (CArray vs))
    (be_bytes 2 (zlen vs) ++ flat_map value_layout vs) (CArray (map exact_candidate vs)).
Proof.
  intros IH (_ & _ & Hd & Hn & Hall) Hfuel. pose proof (profile_small P HP) as [_ _ _ _ _ Ha _ _ _]. cbn [codec_limits lim_array_entries] in Hn. fold L in Ha, Hn. pose proof (zlen_nonneg vs).
  eapply gets_skip; [apply gets_of; by rewrite checked_sub_ok by lia|]. eapply gets_bind; [apply gets_count; unfold u16_max; lia|]. eapply gets_skip; [apply gets_reserve|].
  unfold zlen at 1. rewrite Nat2Z.id. apply all_of_Forall in Hall. rewrite Forall_forall in IH. rewrite Forall_forall in Hall.
  destruct (gets_gather (decode_value fuel L TRACE_VERSION (depth - 1)) value_layout (fun v c => c = exact_candidate v) vs) as (cs & Hcs & Hg).
  { apply Forall_forall. intros v Hv. exists (exact_candidate v). split; [done|]. apply IH; [done|by apply Hall|]. pose proof (flat_map_length value_layout _ _ Hv). lia. }
  apply Forall2_eq_map in Hcs as ->. eapply gets_last; [exact Hg|]. apply gets_ret.
Qed.

Definition exact_entry (e : ValidatedKeyValue) : RString * CandidateAttributeValue := let '(k, v) := e in (exact (text k), exact_candidate v).

Lemma gets_list_value es cap depth fuel : Forall (fun e => gets_at e.2) es -> codable (codec_limits P) (tl_value_bytes L) (VKeyValueList es cap) depth ->
  (length (flat_map entry_layout es) <= fuel)%nat ->
  Gets (next ← cur_of (ok_or trace_malformed (checked_sub depth 1)); count ← in_count (tl_key_value_list_entries L); _ ← reserve_vec count;
        es ← cur_gather (Z.to_nat count) (k ← in_string (tl_key_path_bytes L); v ← decode_value fuel L TRACE_VERSION next; mret (k, v)); mret (CKeyValueList es))
    (be_bytes 2 (zlen es) ++ flat_map entry_layout es) (CKeyValueList (map exact_entry es)).
Proof.
  intros IH (_ & _ & Hd & Hn & Hall) Hfuel. pose proof (profile_small P HP) as [_ _ Hkey _ _ _ Ha _ _]. cbn [codec_limits lim_key_value_list_entries] in Hn. fold L in Ha, Hn, Hkey. pose proof (zlen_nonneg es).
  eapply gets_skip; [apply gets_of; by rewrite checked_sub_ok by lia|]. eapply gets_bind; [apply gets_count; unfold u16_max; lia|]. eapply gets_skip; [apply gets_reserve|].
  unfold zlen at 1. rewrite Nat2Z.id. apply all_of_Forall in Hall. rewrite Forall_forall in IH. rewrite Forall_forall in Hall.
  destruct (gets_gather (k ← in_string (tl_key_path_bytes L); v ← decode_value fuel L TRACE_VERSION (depth - 1); mret (k, v)) entry_layout (fun e c => c = exact_entry e) es) as (cs & Hcs & Hg).
  { apply Forall_forall. intros [k v] Hv. exists (exact_entry (k, v)). split; [done|]. destruct (Hall _ Hv) as (_ & Hkl & Hku & Hc). cbn [codec_limits lim_key_bytes] in Hkl. fold L in Hkl.
    unfold rs_len in Hkl. pose proof (flat_map_length entry_layout _ _ Hv) as Hlen. cbn [entry_layout] in Hlen. rewrite length_app in Hlen.
    eapply gets_bind; [apply gets_string; [done|unfold u32_max; lia|done]|]. eapply gets_last; [apply (IH _ Hv); [done|cbn; lia]|]. apply gets_ret. }
  apply Forall2_eq_map in Hcs as ->. eapply gets_last; [exact Hg|]. apply gets_ret.
Qed.

Lemma span_action_roundtrip a : span_action_of (marker_action_tag a) = Some a.
Proof. by destruct a. Qed.

Lemma span_native_roundtrip k : k <> KMarker -> span_native_of (kind_number k) = Some k.
Proof. by destruct k. Qed.

Lemma exact_span_kind v : root_mark v = false -> span_candidate_kind (exact_candidate v) = kind v.
Proof. by destruct v. Qed.

(** The decoder reads back every value within its limits. *)
Lemma value_gets v : gets_at v.
Proof.
  pose proof (profile_small P HP) as [_ _ _ Hvb _ _ _ _ _]. fold L in Hvb.
  induction v as [|b|z|z|p|p|vs cap IH|es cap IH|m|v a IH] using validated_ind'; intros depth fuel Hc Hfuel; cbn [value_layout] in *;
    (destruct fuel as [|fuel]; [cbn in Hfuel; lia|]); cbn [decode_value]; (eapply gets_skip; [apply gets_component|]); (eapply (gets_bind _ _ [_]); [apply gets_u8|]); cbv iota.
  - apply gets_ret.
  - eapply gets_last; [apply gets_u8|]. destruct b; apply gets_ret.
  - destruct Hc as (_ & _ & Hz). eapply gets_last; [by apply gets_i64|]. apply gets_ret.
  - destruct Hc as (_ & _ & Hz). eapply gets_last; [by apply gets_u64|]. apply gets_ret.
  - destruct Hc as (Hp & _ & Hu). cbn [payload_size] in Hp. unfold rs_len in Hp. eapply gets_last; [apply gets_string; [done|unfold u32_max; lia|done]|]. apply gets_ret.
  - destruct Hc as (Hp & _ & _). cbn [payload_size] in Hp. unfold rs_len in Hp. eapply gets_last; [apply gets_bytes; [done|unfold u32_max; lia]|]. apply gets_ret.
  - apply (gets_array_value vs cap); [done|done|]. cbn [length] in Hfuel. rewrite length_app in Hfuel. lia.
  - change (flat_map (fun '(k, v) => text_layout (text k) ++ value_layout v) es) with (flat_map entry_layout es) in *.
    apply (gets_list_value es cap); [done|done|]. cbn [length] in Hfuel. rewrite length_app in Hfuel. lia.
  - destruct Hc as (_ & _ & Hm). change (TRACE_VERSION <=? TRACE_VERSION) with true. eapply (gets_bind _ _ [_] [_]); [apply gets_u8|].
    eapply gets_skip; [apply gets_of; by rewrite span_action_roundtrip|]. eapply gets_last; [apply gets_u8|]. unfold marker_is_valid in Hm.
    eapply gets_skip; [apply gets_of; rewrite span_native_roundtrip; [done|by destruct (original_kind m)]|].
    destruct m as [k a]; cbn in *. destruct a; [apply gets_ret|apply gets_ret|by destruct (bool_decide _)|by destruct (bool_decide _)].
  - destruct Hc as (_ & _ & Hr & Ha & Hc). change (TRACE_VERSION <=? TRACE_VERSION) with true. eapply (gets_bind _ _ [_]); [apply gets_u8|].
    eapply gets_skip; [apply gets_of; by rewrite span_action_roundtrip|]. eapply (gets_bind _ _ [_]); [apply gets_u8|].
    eapply gets_skip; [apply gets_of; rewrite span_native_roundtrip; [done|by destruct a, (kind v)]|]. cbn in Hfuel.
    assert (Hchild : Gets (decode_value fuel L TRACE_VERSION depth) (value_layout v) (exact_candidate v)) by (apply IH; [done|lia]).
    change (span_valid_truncation a (kind v)) with (valid_truncation a (kind v)). rewrite Ha. change (span_candidate_has_marker) with candidate_has_marker. cbn [negb].
    destruct a; [by destruct (kind v)|by destruct (kind v)|..]; (eapply gets_last; [exact Hchild|]); rewrite bool_decide_true by (by apply exact_span_kind);
      rewrite exact_mark, Hr; apply gets_ret.
Qed.

Lemma gets_fueled {A} (f : nat -> Cur unit A) bs a : (forall fuel, (length bs <= fuel)%nat -> Gets (f fuel) bs a) -> Gets (fueled f) bs a.
Proof. intros Hf rest. apply Hf. rewrite length_app. lia. Qed.

Lemma gets_span_value v : codable (codec_limits P) (tl_value_bytes L) v (tl_nesting_depth L) ->
  Gets (decode_span_value L TRACE_VERSION) (value_layout v) (exact_candidate v).
Proof. intros Hc. apply gets_fueled. intros fuel Hfuel. by apply value_gets. Qed.
End gets.
