(* ===== verification/TraceSpans.v ===== *)
(** Trace store: an observation reads back.

    The view of an observation is everything but the capacities of its strings and vectors. The
    checks of the trace store look at views only, so what is decoded from a layout passes them
    again. *)

From S2P Require Import Prelude Outcome Identity Limits SourceTime Values Observe Traversal Validation Shape CanonicalEncoding Occurrences PolicyModel PolicyCodec PolicyEvaluation RetentionTime LogStore LogCodec LogReads ValueLayout LogRoundtrip TraceModel TraceHeap TraceCodec TraceDecode TraceWrites TraceReads.

#[local] Existing Instance ExactAllocator.
#[local] Existing Instance quiet.

(** ** Views *)

Definition set_view (a : AttributeOccurrenceSet) := (namespace a, text (key a), map validated_native (occurrences a)).
Definition detail_view (a : SpanAttributeSet) := set_view (detail_occurrences a).
Definition event_view (e : SpanEvent) := (event_timestamp e, text (span_event_name e), map detail_view (event_attributes e), event_dropped e).
Definition link_view (l : SpanLink) :=
  (link_trace_id l, link_span_id l, text (link_trace_state l), link_flags l, map detail_view (link_attributes l), link_dropped l).
Definition details_view (d : SpanObservationDetails) :=
  (text (trace_state d), span_flags d, (status_code (status d), text (status_message (status d))), map event_view (events d), map link_view (links d),
   (dropped_attributes d, dropped_events d, dropped_links d), (resource_dropped (span_resource d), text (resource_url (span_resource d))),
   (text (span_scope_name (span_scope d)), text (span_scope_version (span_scope d)), scope_dropped (span_scope d), text (scope_url (span_scope d)))).
Definition span_view (o : SpanObservation) :=
  (so_trace_id o, so_span_id o, so_parent_span_id o, text (so_name o), so_start_time o, so_end_time o, map set_view (so_attributes o),
   so_kind o, so_sampling o, provenance_view (so_policy o), details_view (so_details o)).

(** *** Checks on views *)

Lemma try_fold_related {E A A' B} (R : A -> A' -> Prop) (f : B -> A -> result E B) (g : B -> A' -> result E B) l l' b :
  Forall2 R l l' -> (forall b a a', R a a' -> f b a = g b a') -> try_fold f b l = try_fold g b l'.
Proof.
  intros Hl Hfg. revert b. induction Hl as [|a a' l l' Ha _ IH]; intros b; [done|]. cbn [try_fold]. rewrite (Hfg _ _ _ Ha). destruct (g b a'); [apply IH|done].
Qed.

Lemma view_parts a a' : set_view a = set_view a' ->
  namespace a = namespace a' /\ text (key a) = text (key a') /\ set_len a = set_len a' /\ Forall2 (fun v v' => validated_native v = validated_native v') (occurrences a) (occurrences a').
Proof.
  intros H. unfold set_view in H. assert (Hn : namespace a = namespace a') by congruence. assert (Hk : text (key a) = text (key a')) by congruence.
  assert (Hv : map validated_native (occurrences a) = map validated_native (occurrences a')) by congruence.
  do 2 (split; [done|]). split; [unfold set_len; by rewrite <- (zlen_map validated_native), Hv, zlen_map|]. by apply map_eq_Forall2.
Qed.

Lemma detail_bytes_view cur n l l' limit : Forall2 (fun a a' => detail_view a = detail_view a') l l' -> detail_decoded_bytes cur n l limit = detail_decoded_bytes cur n l' limit.
Proof.
  intros Hl. unfold detail_decoded_bytes. destruct (ok_or _ _) as [d|]; [|done]. cbn [mbind result_bind]. eapply try_fold_related; [exact Hl|].
  intros b a a' (_ & Hk & _ & Hv)%view_parts. unfold rs_len. rewrite Hk. destruct (ok_or _ _) as [d'|]; [|done]. cbn [mbind result_bind].
  eapply try_fold_related; [exact Hv|]. intros c v v' Hvv. by rewrite !decoded_size_native, Hvv.
Qed.

Lemma detail_counts_view l l' n : Forall2 (fun a a' => detail_view a = detail_view a') l l' -> validate_detail_attributes l n = validate_detail_attributes l' n.
Proof.
  intros Hl. unfold validate_detail_attributes. unfold zlen. rewrite (Forall2_length _ _ _ Hl). destruct (_ <? _); [done|].
  erewrite try_fold_related; [reflexivity|exact Hl|]. intros b a a' (_ & _ & Hn & _)%view_parts. by rewrite Hn.
Qed.

Lemma check_span_attribute_view n acc a a' : set_view a = set_view a' -> check_span_attribute n acc a = check_span_attribute n acc a'.
Proof.
  intros (Hn & Hk & Hl & Hv)%view_parts. destruct acc as [cs d]. unfold check_span_attribute, rs_len. rewrite Hn, Hk, Hl.
  destruct (span_namespace_index _) as [i|]; [|done]. cbn [ok_or mbind result_bind]. destruct (cs !! i) as [c|]; [|done]. cbn [ok_or mbind result_bind].
  destruct (match checked_add usize_max c (set_len a') with Some _ => _ | None => _ end) as [c'|]; [|done]. cbn [mbind result_bind].
  destruct (checked_add usize_max d _) as [d'|]; [|done]. cbn [ok_or mbind result_bind].
  erewrite try_fold_related; [reflexivity|exact Hv|]. intros x v v' Hvv. by rewrite !decoded_size_native, Hvv.
Qed.

(** *** Decoded sizes *)

Lemma decoded_size_total v n : decoded_size_bytes v = Ok n -> n = decoded_total v.
Proof.
  revert n. induction v as [|b|z|z|p|p|vs cap IH|es cap IH|m|v a IH] using validated_ind'; intros n H; cbn [decoded_size_bytes decoded_total] in *; try (by injection H as <-); [..|by apply IH].
  - enough (forall acc, try_fold (fun total v => size ← decoded_size_bytes v; checked_decoded_add total size) acc vs = Ok n -> n = acc + zsum decoded_total vs) as Hg by (by apply (Hg 0)).
    clear H. induction IH as [|v vs Hv _ IH]; intros acc H; cbn [try_fold] in H; [injection H as <-; cbn; lia|]. destruct (decoded_size_bytes v) as [k|]; [|done].
    rewrite (Hv k eq_refl) in H. unfold checked_decoded_add in H. cbn [mbind result_bind] in H. destruct (checked_add _ _ _) as [t|] eqn:Ha; [|done]. apply checked_add_Some in Ha as [-> _].
    cbn [ok_or] in H. apply IH in H. rewrite zsum_cons. lia.
  - enough (forall acc, try_fold (fun total '(key, v) => total ← checked_decoded_add total (rs_len key); size ← decoded_size_bytes v; checked_decoded_add total size) acc es = Ok n ->
      n = acc + zsum (fun '(k, v) => rs_len k + decoded_total v) es) as Hg by (by apply (Hg 0)).
    clear H. induction IH as [|[k v] es Hv _ IH]; intros acc H; cbn [try_fold] in H; [injection H as <-; cbn; lia|]. unfold checked_decoded_add in H. cbn in Hv.
    destruct (checked_add usize_max acc (rs_len k)) as [t|] eqn:Ha; [|done]. apply checked_add_Some in Ha as [-> _]. cbn [ok_or mbind result_bind] in H.
    destruct (decoded_size_bytes v) as [j|]; [|done]. rewrite (Hv j eq_refl) in H. cbn [mbind result_bind] in H. destruct (checked_add _ _ _) as [t|] eqn:Ha; [|done]. apply checked_add_Some in Ha as [-> _].
    cbn [ok_or] in H. apply IH in H. rewrite zsum_cons. cbv beta iota. lia.
Qed.

(** The decoded bytes of a set: its key and its values. *)
Definition set_total (a : AttributeOccurrenceSet) : Z := rs_len (key a) + zsum decoded_total (occurrences a).

Lemma set_total_nonneg a : 0 <= set_total a.
Proof.
  unfold set_total, rs_len. pose proof (zlen_nonneg (text (key a))). enough (0 <= zsum decoded_total (occurrences a)) by lia. apply zsum_nonneg. intros v _. pose proof (sizes_nonneg v). lia.
Qed.

Lemma check_attribute_total n cs d a cs' d' : check_span_attribute n (cs, d) a = Ok (cs', d') -> d' = d + set_total a.
Proof.
  unfold check_span_attribute. intros H. apply result_bind_Ok in H as (i & _ & H). apply result_bind_Ok in H as (c & _ & H). apply result_bind_Ok in H as (c' & _ & H).
  apply result_bind_Ok in H as (x & Hx & H). apply result_bind_Ok in H as (y & Hy & H). injection H as _ <-.
  destruct (checked_add usize_max d (rs_len (key a))) as [t|] eqn:Ha; [|done]. apply checked_add_Some in Ha as [-> _]. injection Hx as <-. unfold set_total.
  enough (forall acc, try_fold (fun decoded v => n ← map_err trace_domain (decoded_size_bytes v); ok_or trace_limit_exceeded (checked_add usize_max decoded n)) acc (occurrences a) = Ok y ->
    y = acc + zsum decoded_total (occurrences a)) as Hg by (rewrite (Hg _ Hy); lia).
  clear. induction (occurrences a) as [|v vs IH]; intros acc H; cbn [try_fold] in H; [injection H as <-; cbn; lia|]. destruct (decoded_size_bytes v) as [k|] eqn:Hk; [|done].
  apply decoded_size_total in Hk as ->. cbn [map_err mbind result_bind] in H. destruct (checked_add _ _ _) as [t|] eqn:Ha; [|done]. apply checked_add_Some in Ha as [-> _]. apply IH in H. rewrite zsum_cons. lia.
Qed.

Lemma check_attributes_total n l cs d cs' d' : try_fold (check_span_attribute n) (cs, d) l = Ok (cs', d') -> d' = d + zsum set_total l.
Proof.
  revert cs d. induction l as [|a l IH]; intros cs d H; cbn [try_fold] in H; [injection H as _ <-; cbn; lia|]. destruct (check_span_attribute n (cs, d) a) as [[cs1 d1]|] eqn:Ha; [|done].
  apply check_attribute_total in Ha as ->. apply IH in H. rewrite zsum_cons. lia.
Qed.

(** ** Reading *)

Section spans.
Context {Lay : Layout} (P : ValueLimitProfile) (HP : profile_ok P).
Abbreviation L := (trace_limits P).

(** What is read for a set: the same view, valid again. *)
Definition read_set (a a' : AttributeOccurrenceSet) : Prop := set_view a = set_view a' /\ validate_with_profile a' P = Ok tt.
Definition read_detail (a a' : SpanAttributeSet) : Prop := read_set (detail_occurrences a) (detail_occurrences a').

Lemma fits_occurrences vs : Forall (value_fits (effective_limits P) (tl_nesting_depth L) (tl_value_bytes L)) vs -> zlen (flat_map value_layout vs) <= block_bound ->
  exists ws, validate_occurrences (map exact_candidate vs) (effective_limits P) tt = (tt, Ok ws).
Proof.
  intros Hvs. induction Hvs as [|v vs Hv _ IH]; intros Hb; [by exists []|]. cbn [flat_map] in Hb. rewrite zlen_app in Hb. pose proof (zlen_nonneg (value_layout v)).
  pose proof (zlen_nonneg (flat_map value_layout vs)). destruct IH as [ws Hws]; [lia|].
  destruct (fits_validate (effective_limits P) (tl_nesting_depth L) (tl_value_bytes L) v) as (w & Hw & _); [done|apply (pf_scalar P HP)|lia|].
  exists (w :: ws). cbn [map validate_occurrences]. unfold trace_limits in Hw. cbn [tl_nesting_depth tl_value_bytes] in Hw.
  destruct (individual_value_bytes (dynamic_value (effective_limits P))) as [vb]. cbn [byte_limit] in Hw. by rewrite Hw, Hws.
Qed.

Lemma set_validates a : set_ok P a -> zlen (occurrences_layout a) <= block_bound -> exists a', read_set a a' /\ namespace a' = namespace a /\
  candidate_validate (mkOccurrenceCandidate (namespace a) (exact (text (key a))) (map exact_candidate (occurrences a))) P tt = (tt, Ok a').
Proof.
  intros [_ Hshape Hvs] Hb. unfold occurrences_layout in Hb. rewrite !zlen_app in Hb. pose proof (zlen_nonneg (text_layout (text (key a)))). pose proof (zlen_nonneg (be_bytes 2 (set_len a))).
  destruct (fits_occurrences _ Hvs) as [ws Hws]; [lia|]. pose proof Hws as Hok. apply validate_occurrences_ok in Hok as [Hm Hf]; [|apply (pf_scalar P HP)|apply Forall_map, Forall_forall; intros v _; apply exact_capacities].
  assert (Hmap : map validated_native ws = map validated_native (occurrences a)). { rewrite Hm, map_map. apply map_ext. apply exact_native. }
  set (a' := mkOccurrenceSet (namespace a) (exact (text (key a))) ws (zlen (map exact_candidate (occurrences a)))). exists a'. split; [split|split; [done|]].
  - unfold set_view, a'. cbn [namespace key text exact occurrences]. by rewrite Hmap.
  - unfold validate_with_profile, a'. cbn [key text exact occurrences]. rewrite <- (zlen_map validated_native ws), Hmap, zlen_map. unfold set_len in Hshape. rewrite Hshape.
    by apply (revalidate_all_ok ws (effective_limits P)).
  - unfold candidate_validate. cbn [candidate_key candidate_occurrences candidate_namespace text exact]. rewrite zlen_map. unfold set_len in Hshape. rewrite Hshape.
    cbn [try_reserve_exact ExactAllocator]. rewrite Hws. unfold a'. by rewrite zlen_map.
Qed.

(** The key, the count and the occurrences of a set, in the two places where sets are read. *)
Lemma gets_occurrences a : set_ok P a -> zlen (occurrences_layout a) <= block_bound ->
  Gets (cur_gather (Z.to_nat (set_len a)) (decode_span_value L TRACE_VERSION)) (flat_map value_layout (occurrences a)) (map exact_candidate (occurrences a)).
Proof.
  intros [_ _ Hvs] Hb. unfold occurrences_layout in Hb. rewrite !zlen_app in Hb. pose proof (zlen_nonneg (text_layout (text (key a)))). pose proof (zlen_nonneg (be_bytes 2 (set_len a))).
  unfold set_len, zlen. rewrite Nat2Z.id. rewrite Forall_forall in Hvs.
  destruct (gets_gather (decode_span_value L TRACE_VERSION) value_layout (fun v c => c = exact_candidate v) (occurrences a)) as (cs & Hcs & Hg).
  { apply Forall_forall. intros v Hv. exists (exact_candidate v). split; [done|]. apply (gets_span_value P HP). pose proof (flat_map_member value_layout _ _ Hv).
    apply (fits_codable (effective_limits P) (codec_limits P) (codec_limits_match P)); [by apply Hvs|lia]. }
  by apply Forall2_eq_map in Hcs as ->.
Qed.

Lemma gets_key (t : RString) : text_ok t -> rs_len t <= tl_key_path_bytes L -> Gets (in_string (tl_key_path_bytes L)) (text_layout (text t)) (exact (text t)).
Proof. pose proof (profile_small P HP) as [_ _ Hk _ _ _ _ _ _]. intros Hu Ht. unfold rs_len in Ht. apply gets_string; [done|unfold u32_max; lia|exact Hu]. Qed.

Lemma gets_detail_set a : namespace (detail_occurrences a) = NsRecord -> set_ok P (detail_occurrences a) -> zlen (occurrences_layout (detail_occurrences a)) <= block_bound ->
  exists a', read_detail a a' /\ Gets (decode_span_attribute_set L P TRACE_VERSION) (occurrences_layout (detail_occurrences a)) a'.
Proof.
  intros Hns Hset Hb. destruct (set_validates _ Hset Hb) as (a' & Hread & _ & Hval). exists (mkSpanAttributeSet a'). split; [exact Hread|].
  pose proof (gets_occurrences _ Hset Hb) as Hocc. destruct Hset as [Hk Hshape _]. destruct (set_shape_bounds P _ Hshape) as (_ & Hkl & Hn).
  pose proof (profile_small P HP) as [Ho _ _ _ _ _ _ _ _]. unfold decode_span_attribute_set, occurrences_layout.
  eapply gets_bind; [by apply gets_key|]. eapply gets_bind; [apply gets_count; unfold u16_max; lia|]. rewrite (proj2 (Z.eqb_neq _ _)) by lia.
  eapply gets_skip; [apply gets_reserve|]. eapply gets_last; [exact Hocc|]. eapply gets_skip; [|apply gets_ret]. intros rest. unfold cur_domain. rewrite Hns in Hval. by rewrite Hval.
Qed.

Lemma gets_detail_sets l : detail_sets_ok P l -> zlen (details_attributes_layout l) <= block_bound ->
  exists l', Forall2 read_detail l l' /\ Gets (decode_span_attributes P TRACE_VERSION) (details_attributes_layout l) l'.
Proof.
  intros [Hns Hsets Hc] Hb. apply detail_counts_fold in Hc as [Hn _]. unfold details_attributes_layout in *. rewrite zlen_app in Hb. pose proof (zlen_nonneg (be_bytes 2 (zlen l))).
  rewrite Forall_forall in Hns. rewrite Forall_forall in Hsets. pose proof (zlen_nonneg l).
  destruct (gets_gather (decode_span_attribute_set L P TRACE_VERSION) (fun a => occurrences_layout (detail_occurrences a)) read_detail l) as (l' & Hl & Hg).
  { apply Forall_forall. intros a Ha. apply gets_detail_set; [by apply Hns|by apply Hsets|]. pose proof (flat_map_member (fun a => occurrences_layout (detail_occurrences a)) _ _ Ha). cbv beta in *. lia. }
  exists l'. split; [done|]. eapply gets_skip; [apply gets_of, limits_for_ok, HP|]. eapply gets_bind; [apply gets_count; unfold MAX_DETAIL_COLLECTION, u16_max in *; lia|].
  eapply gets_skip; [apply gets_reserve|]. unfold zlen at 1. by rewrite Nat2Z.id.
Qed.

(** *** Details *)

Definition read_event (e e' : SpanEvent) : Prop := event_view e = event_view e' /\ Forall2 read_detail (event_attributes e) (event_attributes e').
Definition read_link (l l' : SpanLink) : Prop := link_view l = link_view l' /\ Forall2 read_detail (link_attributes l) (link_attributes l').

Lemma read_views l l' : Forall2 read_detail l l' -> Forall2 (fun a a' => detail_view a = detail_view a') l l'.
Proof. intros H. eapply Forall2_impl; [exact H|]. by intros a a' [? _]. Qed.

Lemma read_view_map {A B C} (f : A -> C) (g : B -> C) (R : A -> B -> Prop) l l' : (forall a b, R a b -> f a = g b) -> Forall2 R l l' -> map f l = map g l'.
Proof. intros HR. induction 1 as [|a b l l' Hab _ IH]; [done|]. cbn. by rewrite (HR _ _ Hab), IH. Qed.

Lemma gets_event e : span_event_ok P e -> text (span_event_name e) <> [] /\ rs_len (span_event_name e) <= tl_key_path_bytes L -> zlen (event_layout e) <= block_bound ->
  exists e', read_event e e' /\ Gets (decode_event (tl_key_path_bytes L) P TRACE_VERSION) (event_layout e) e'.
Proof.
  intros [Ht Hu Hd Ha] [Hn0 Hn] Hb. unfold event_layout in *. rewrite !zlen_app in Hb.
  pose proof (zlen_nonneg (time_layout (event_timestamp e))). pose proof (zlen_nonneg (text_layout (text (span_event_name e)))). pose proof (zlen_nonneg (be_bytes 4 (event_dropped e))).
  destruct (gets_detail_sets _ Ha) as (l' & Hl & Hg); [lia|]. pose proof (read_views _ _ Hl) as Hviews. destruct Ha as [_ _ Hc].
  exists (mkSpanEvent (event_timestamp e) (exact (text (span_event_name e))) l' (event_dropped e)). split.
  - split; [|done]. unfold event_view. cbn [event_timestamp span_event_name event_attributes event_dropped text exact]. by rewrite (read_view_map _ detail_view _ _ _ (fun _ _ H => H) Hviews).
  - eapply gets_bind; [by apply gets_time|]. eapply gets_bind; [by apply gets_key|]. eapply gets_bind; [by apply gets_u32|]. eapply gets_last; [exact Hg|]. apply gets_of.
    unfold SpanEvent_checked. cbn [detail_limits]. unfold validate_detail_name. cbn [text exact]. rewrite bool_decide_false by done.
    change (byte_limit (key_path_bytes (dynamic_value (effective_limits P)))) with (tl_key_path_bytes L).
    change (collection_limit (attributes_per_namespace (dynamic_value (effective_limits P)))) with (tl_occurrences L).
    unfold rs_len in Hn. rewrite (proj2 (Z.ltb_ge _ _)) by lia. cbn [orb mbind result_bind]. rewrite <- (detail_counts_view _ _ _ Hviews), Hc. done.
Qed.

Lemma gets_link l : span_link_ok P l -> rs_len (link_trace_state l) <= tl_key_path_bytes L /\ all_zero (link_trace_id l) || all_zero (link_span_id l) = false ->
  zlen (link_layout l) <= block_bound -> exists l', read_link l l' /\ Gets (decode_link (tl_key_path_bytes L) P TRACE_VERSION) (link_layout l) l'.
Proof.
  intros [Ht Hs Hu Hf Hd Ha] [Hn Hz] Hb. unfold link_layout in *. rewrite !zlen_app in Hb.
  pose proof (zlen_nonneg (link_trace_id l)). pose proof (zlen_nonneg (link_span_id l)). pose proof (zlen_nonneg (text_layout (text (link_trace_state l)))).
  pose proof (zlen_nonneg (be_bytes 4 (link_flags l))). pose proof (zlen_nonneg (be_bytes 4 (link_dropped l))).
  destruct (gets_detail_sets _ Ha) as (l' & Hl & Hg); [lia|]. pose proof (read_views _ _ Hl) as Hviews. destruct Ha as [_ _ Hc].
  exists (mkSpanLink (link_trace_id l) (link_span_id l) (exact (text (link_trace_state l))) (link_flags l) l' (link_dropped l)). split.
  - split; [|done]. unfold link_view. cbn [link_trace_id link_span_id link_trace_state link_flags link_attributes link_dropped text exact].
    by rewrite (read_view_map _ detail_view _ _ _ (fun _ _ H => H) Hviews).
  - do 2 (eapply gets_bind; [by apply gets_array|]). eapply gets_bind; [by apply gets_key|]. do 2 (eapply gets_bind; [by apply gets_u32|]). eapply gets_last; [exact Hg|]. apply gets_of.
    unfold SpanLink_checked. cbn [detail_limits]. rewrite Hz.
    change (byte_limit (key_path_bytes (dynamic_value (effective_limits P)))) with (tl_key_path_bytes L).
    change (collection_limit (attributes_per_namespace (dynamic_value (effective_limits P)))) with (tl_occurrences L). unfold rs_len in *. cbn [text exact orb].
    rewrite (proj2 (Z.ltb_ge _ _)) by lia. rewrite <- (detail_counts_view _ _ _ Hviews), Hc. done.
Qed.

(** The details that are read, from the events and the links that are read. *)
Definition read_details (d : SpanObservationDetails) (evs : list SpanEvent) (lns : list SpanLink) : SpanObservationDetails :=
  let e t := exact (text t) in
  mkSpanDetails (e (trace_state d)) (span_flags d) (mkSpanStatus (status_code (status d)) (e (status_message (status d)))) evs lns
    (dropped_attributes d) (dropped_events d) (dropped_links d) (mkSpanResource (resource_dropped (span_resource d)) (e (resource_url (span_resource d))))
    (mkSpanScope (e (span_scope_name (span_scope d))) (e (span_scope_version (span_scope d))) (scope_dropped (span_scope d)) (e (scope_url (span_scope d)))).

Lemma event_view_parts e e' : event_view e = event_view e' -> text (span_event_name e) = text (span_event_name e').
Proof. unfold event_view. congruence. Qed.

Lemma link_view_parts l l' : link_view l = link_view l' ->
  text (link_trace_state l) = text (link_trace_state l') /\ link_trace_id l = link_trace_id l' /\ link_span_id l = link_span_id l'.
Proof. unfold link_view. intros H. split_and!; congruence. Qed.

Lemma read_details_size d evs lns limit : Forall2 read_event (events d) evs -> Forall2 read_link (links d) lns ->
  details_decoded_size_bytes (read_details d evs lns) limit = details_decoded_size_bytes d limit.
Proof.
  intros He Hl. unfold details_decoded_size_bytes, read_details, rs_len. cbn. destruct (ok_or _ _) as [n|]; [|done]. cbn [mbind result_bind].
  rewrite (try_fold_related read_event (fun total e => detail_decoded_bytes total (zlen (text (span_event_name e))) (event_attributes e) limit)
    (fun total e => detail_decoded_bytes total (zlen (text (span_event_name e))) (event_attributes e) limit) (events d) evs n He).
  - destruct (try_fold _ n evs) as [m|]; [|done]. cbn [mbind result_bind]. symmetry. eapply try_fold_related; [exact Hl|].
    intros b a a' [[Hs _]%link_view_parts Ha]. rewrite Hs. by apply detail_bytes_view, read_views.
  - intros b a a' [Hs%event_view_parts Ha]. rewrite Hs. by apply detail_bytes_view, read_views.
Qed.

Lemma read_sets_valid l l' : Forall2 read_detail l l' -> try_fold (fun _ a => map_err trace_domain (validate_with_profile (detail_occurrences a) P)) tt l' = Ok tt.
Proof. intros H. apply try_fold_unit. induction H as [|a a' l l' [_ Ha] _ IH]; constructor; [by rewrite Ha|done]. Qed.

Lemma read_details_valid d evs lns : valid_details P d -> Forall2 read_event (events d) evs -> Forall2 read_link (links d) lns ->
  details_validate_with_profile (read_details d evs lns) P = Ok tt.
Proof.
  intros [Ht Hne Hnl Hen Hls] He Hl. unfold details_validate_with_profile. cbv zeta. repeat (apply Forall_cons in Ht as [? Ht]).
  change (byte_limit (key_path_bytes (dynamic_value (effective_limits P)))) with (tl_key_path_bytes L). unfold read_details, rs_len in *. cbn [trace_state status status_message span_resource resource_url span_scope span_scope_name span_scope_version scope_url events links text exact existsb].
  unfold zlen in Hne, Hnl. rewrite (Forall2_length _ _ _ He) in Hne. rewrite (Forall2_length _ _ _ Hl) in Hnl. rewrite !(proj2 (Z.ltb_ge _ _)) by (done || unfold zlen; lia). cbn [orb].
  assert (He2 : try_fold (fun _ e => if bool_decide (text (span_event_name e) = []) || (tl_key_path_bytes L <? zlen (text (span_event_name e))) then Err trace_limit_exceeded
      else try_fold (fun _ a => map_err trace_domain (validate_with_profile (detail_occurrences a) P)) tt (event_attributes e)) tt evs = Ok tt).
  { apply try_fold_unit. clear -He Hen. induction He as [|e e' l l' [Hv Ha] _ IH]; [done|]. apply Forall_cons in Hen as [[Hn0 Hn] Hen]. constructor; [|by apply IH].
    apply event_view_parts in Hv. rewrite <- Hv. unfold rs_len in Hn. rewrite bool_decide_false, (proj2 (Z.ltb_ge _ _)) by (done || lia). by apply (read_sets_valid _ _ Ha). }
  rewrite He2. cbn [mbind result_bind]. apply try_fold_unit. clear -Hl Hls. induction Hl as [|e e' l l' [Hv Ha] _ IH]; [done|]. apply Forall_cons in Hls as [[Hn Hz] Hls]. constructor; [|by apply IH].
  apply link_view_parts in Hv as (Hs & H1 & H2). rewrite <- Hs, <- H1, <- H2, Hz. rewrite (proj2 (Z.ltb_ge _ _)) by (unfold rs_len in Hn; lia). by apply (read_sets_valid _ _ Ha).
Qed.

Lemma read_details_view d evs lns : Forall2 read_event (events d) evs -> Forall2 read_link (links d) lns -> details_view (read_details d evs lns) = details_view d.
Proof.
  intros He Hl. unfold details_view, read_details. cbn [trace_state span_flags status status_code status_message events links dropped_attributes dropped_events dropped_links span_resource resource_dropped resource_url span_scope span_scope_name span_scope_version scope_dropped scope_url text exact].
  rewrite <- (read_view_map event_view event_view read_event _ _ (fun _ _ H => proj1 H) He), <- (read_view_map link_view link_view read_link _ _ (fun _ _ H => proj1 H) Hl). done.
Qed.

Lemma gets_details d detail : details_ok P d -> valid_details P d -> details_decoded_size_bytes d (tl_decoded_bytes L) = Ok detail -> detail <= tl_decoded_bytes L ->
  zlen (details_layout d) <= block_bound -> exists evs lns, Forall2 read_event (events d) evs /\ Forall2 read_link (links d) lns /\
    Gets (decode_details P TRACE_VERSION) (details_layout d) (read_details d evs lns).
Proof.
  intros [Hu Hcs Hev Hln] Hv Hsize Hle Hb. pose proof (details_layout_parts d Hb) as [Hbe Hbl]. pose proof Hv as [Ht Hne Hnl Hen Hls].
  rewrite Forall_forall in Hev. rewrite Forall_forall in Hln. rewrite Forall_forall in Hen. rewrite Forall_forall in Hls. pose proof (zlen_nonneg (events d)). pose proof (zlen_nonneg (links d)).
  destruct (gets_gather (decode_event (tl_key_path_bytes L) P TRACE_VERSION) event_layout read_event (events d)) as (evs & He & Hge).
  { apply Forall_forall. intros e Hin. pose proof (flat_map_member event_layout _ _ Hin). apply gets_event; [by apply Hev|by apply Hen|lia]. }
  destruct (gets_gather (decode_link (tl_key_path_bytes L) P TRACE_VERSION) link_layout read_link (links d)) as (lns & Hl & Hgl).
  { apply Forall_forall. intros l Hin. pose proof (flat_map_member link_layout _ _ Hin). apply gets_link; [by apply Hln|by apply Hls|lia]. }
  exists evs, lns. split; [done|]. split; [done|]. pose proof (read_details_valid d evs lns Hv He Hl) as Hvalid. pose proof (read_details_size d evs lns (tl_decoded_bytes L) He Hl) as Hds. rewrite Hsize in Hds.
  repeat (apply Forall_cons in Ht as [? Ht]). repeat (apply Forall_cons in Hu as [? Hu]). repeat (apply Forall_cons in Hcs as [? Hcs]). unfold MAX_DETAIL_COLLECTION in *.
  unfold decode_details, details_layout. eapply gets_skip; [apply gets_of, limits_for_ok, HP|]. cbv zeta. eapply gets_bind; [by apply gets_key|]. eapply gets_bind; [by apply gets_u32|].
  eapply gets_bind; [apply gets_u8|]. eapply (gets_skip _ _ _ (status_code (status d))); [apply gets_of; by destruct (status_code (status d))|]. eapply gets_bind; [by apply gets_key|].
  eapply (gets_skip _ _ _ (mkSpanStatus (status_code (status d)) (exact (text (status_message (status d)))))).
  { apply gets_of. unfold SpanStatus_checked. cbn [detail_limits fst]. unfold rs_len in *. cbn [text exact]. rewrite (proj2 (Z.ltb_ge _ _)); done. }
  do 4 (eapply gets_bind; [by apply gets_u32|]). do 3 (eapply gets_bind; [by apply gets_key|]). eapply gets_bind; [by apply gets_u32|]. eapply gets_bind; [by apply gets_key|].
  eapply gets_bind; [apply gets_count; unfold u16_max, MAX_DETAIL_COLLECTION; lia|]. eapply gets_skip; [apply gets_reserve|]. unfold zlen at 1. rewrite Nat2Z.id. eapply gets_bind; [exact Hge|].
  eapply gets_bind; [apply gets_count; unfold u16_max, MAX_DETAIL_COLLECTION; lia|]. eapply gets_skip; [apply gets_reserve|]. unfold zlen at 1. rewrite Nat2Z.id. eapply gets_last; [exact Hgl|].
  eapply (gets_skip _ _ _ (span_resource (read_details d evs lns))).
  { apply gets_of. unfold SpanResource_checked. cbn [detail_limits fst]. unfold rs_len in *. cbn [text exact]. rewrite (proj2 (Z.ltb_ge _ _)); done. }
  eapply (gets_skip _ _ _ (span_scope (read_details d evs lns))).
  { apply gets_of. unfold SpanScope_checked. cbn [detail_limits fst existsb]. unfold rs_len in *. cbn [text exact]. rewrite !(proj2 (Z.ltb_ge _ _)); done. }
  apply gets_of. change (mkSpanDetails _ _ _ _ _ _ _ _ _ _) with (read_details d evs lns). unfold details_checked. cbn [detail_limits fst].
  change (trace_state (read_details d evs lns)) with (exact (text (trace_state d))). change (events (read_details d evs lns)) with evs. change (links (read_details d evs lns)) with lns.
  unfold zlen in *. rewrite <- (Forall2_length _ _ _ He), <- (Forall2_length _ _ _ Hl). unfold rs_len, zlen in *. cbn [text exact]. unfold MAX_DETAIL_COLLECTION.
  rewrite !(proj2 (Z.ltb_ge _ _)) by (done || lia). cbn [orb]. change (byte_limit (decoded_record_bytes (record (effective_limits P)))) with (tl_decoded_bytes L).
  rewrite Hds. cbn [mbind result_bind]. rewrite (proj2 (Z.ltb_ge _ _)) by lia. by rewrite Hvalid.
Qed.

(** *** Observations *)

Lemma gets_provenance p : provenance_ok p -> exists p', provenance_view p = provenance_view p' /\ Gets decode_provenance (provenance_layout p) p'.
Proof.
  intros [Hg Hd Hu Hp]. pose proof (provenance_bounds _ _ _ Hp) as [Hn Hlen]. rewrite zlen_map in Hn. rewrite Forall_map in Hlen. pose proof (zlen_nonneg (applied_rules p)).
  set (rules := map (fun r => exact (text r)) (applied_rules p)). assert (Hid : map text rules = map text (applied_rules p)) by (unfold rules; rewrite map_map; done).
  exists (mkProvenance (prov_generation p) (prov_digest p) rules (zlen (applied_rules p))). split; [unfold provenance_view; cbn [prov_generation prov_digest applied_rules]; by rewrite Hid|].
  rewrite Forall_forall in Hu. rewrite Forall_forall in Hlen. unfold MAX_RULES in *.
  destruct (gets_gather (_ ← in_component; in_string MAX_RULE_ID_BYTES) (fun r => text_layout (text r)) (fun r r' => r' = exact (text r)) (applied_rules p)) as (rs & Hrs & Hgr).
  { apply Forall_forall. intros r Hr. exists (exact (text r)). split; [done|]. eapply gets_skip; [apply gets_component|]. specialize (Hlen r Hr). apply gets_string; [done|unfold MAX_RULE_ID_BYTES, u32_max in *; lia|by apply Hu]. }
  apply Forall2_eq_map in Hrs as ->. fold rules in Hgr. unfold decode_provenance, provenance_layout. eapply gets_bind; [by apply gets_u64|]. eapply gets_bind; [by apply gets_array|].
  eapply gets_bind; [apply gets_count; unfold MAX_RULES, u16_max; lia|]. eapply gets_skip; [apply gets_reserve|].
  replace (Z.to_nat (zlen (applied_rules p))) with (length (applied_rules p)) by (unfold zlen; lia). eapply gets_last; [exact Hgr|].
  apply gets_of. unfold provenance_new. rewrite Hid. by destruct (validate_parts _ _ _) as [[]|].
Qed.

Lemma namespace_read ns : span_namespace_tag ns = Ok (namespace_number ns) -> decode_span_namespace (namespace_number ns) = Ok ns.
Proof. by destruct ns. Qed.

Lemma gets_attributes l : Forall (set_ok P) l -> Forall (fun a => span_namespace_tag (namespace a) = Ok (namespace_number (namespace a))) l ->
  zlen (flat_map attribute_layout l) <= block_bound -> forall cs cs' acc,
  try_fold (fun cs a => count_namespace L trace_malformed trace_malformed cs (namespace a) (set_len a)) cs l = Ok cs' ->
  exists l', Forall2 read_set l l' /\ Gets (cur_loop (length l) (decode_span_attribute L P TRACE_VERSION) (cs, acc)) (flat_map attribute_layout l) (cs', acc ++ l').
Proof.
  intros Hl. induction Hl as [|a l Ha _ IH]; intros Ht Hb cs cs' acc H; cbn [try_fold flat_map] in *.
  { injection H as <-. exists []. split; [constructor|]. rewrite app_nil_r. apply gets_ret. }
  apply Forall_cons in Ht as [Hta Ht]. rewrite zlen_app in Hb. pose proof (zlen_nonneg (attribute_layout a)) as Hz1. pose proof (zlen_nonneg (flat_map attribute_layout l)).
  unfold attribute_layout in Hb at 1. rewrite zlen_cons in Hb. pose proof (zlen_nonneg (occurrences_layout a)). assert (Hba : zlen (occurrences_layout a) <= block_bound) by lia.
  destruct (count_namespace _ _ _ cs _ _) as [cs1|] eqn:Hc; [|done]. destruct (set_validates a Ha Hba) as (a' & Hread & _ & Hval).
  destruct (IH Ht ltac:(lia) cs1 cs' (acc ++ [a']) H) as (l' & Hl' & Hg). exists (a' :: l'). split; [by constructor|]. cbn [length cur_loop].
  replace (acc ++ a' :: l') with ((acc ++ [a']) ++ l') by (by rewrite <- app_assoc). eapply gets_bind; [|exact Hg].
  pose proof (gets_occurrences _ Ha Hba) as Hocc. destruct Ha as [Hk Hshape _]. destruct (set_shape_bounds P _ Hshape) as (_ & Hkl & Hn). pose proof (profile_small P HP) as [Ho _ _ _ _ _ _ _ _].
  unfold decode_span_attribute, attribute_layout, occurrences_layout. eapply gets_skip; [apply gets_component|]. eapply (gets_bind _ _ [_]); [apply gets_u8|].
  eapply gets_skip; [apply gets_of; by apply namespace_read|]. eapply gets_bind; [by apply gets_key|]. eapply gets_bind; [apply gets_count; unfold u16_max; lia|].
  rewrite (proj2 (Z.eqb_neq _ _)) by lia. eapply gets_skip; [by apply gets_of|]. eapply gets_skip; [apply gets_reserve|]. eapply gets_last; [exact Hocc|].
  eapply (gets_skip _ _ _ a'); [|apply gets_ret]. intros rest. unfold cur_domain. by rewrite Hval.
Qed.

Lemma checked_span_read o o' decoded detail : checked_facts P o decoded detail -> so_trace_id o' = so_trace_id o -> so_span_id o' = so_span_id o ->
  so_parent_span_id o' = so_parent_span_id o -> text (so_name o') = text (so_name o) -> Forall2 read_set (so_attributes o) (so_attributes o') ->
  details_validate_with_profile (so_details o') P = Ok tt -> details_decoded_size_bytes (so_details o') (tl_decoded_bytes L) = Ok detail -> checked_span o' P = Ok o'.
Proof.
  intros [Hids [Hn0 Hn] Hsets _ [cs Hf] _ Hsize] Ht Hs Hp Hname Ha Hd Hds. unfold checked_span. cbv zeta. rewrite Ht, Hs, Hp, Hname, Hids.
  pose proof (profile_small P HP) as [Ho Hs3 _ _ _ _ _ _ Hdl]. unfold rs_len in *. rewrite Hname, bool_decide_false by done.
  change (byte_limit (key_path_bytes (dynamic_value (effective_limits P)))) with (tl_key_path_bytes L).
  change (collection_limit (attributes_per_namespace (dynamic_value (effective_limits P)))) with (tl_occurrences L).
  change (byte_limit (decoded_record_bytes (record (effective_limits P)))) with (tl_decoded_bytes L).
  rewrite (proj2 (Z.ltb_ge _ _)) by lia. cbn [orb]. unfold checked_mul. rewrite (proj2 (Z.leb_le _ _)) by (unfold usize_max; lia). cbn [ok_or mbind result_bind].
  rewrite (proj2 (Z.ltb_ge (tl_occurrences L * 3) _)) by (unfold zlen in *; rewrite <- (Forall2_length _ _ _ Ha); lia). rewrite andb_false_r, Hd. cbn [mbind result_bind].
  rewrite <- (try_fold_related read_set (check_span_attribute (tl_occurrences L)) (check_span_attribute (tl_occurrences L)) (so_attributes o) (so_attributes o') _ Ha)
    by (intros b a a' [Hv _]; by apply check_span_attribute_view). rewrite Hf. cbn [mbind result_bind]. rewrite Hds. cbn [mbind result_bind].
  rewrite checked_add_ok by (unfold usize_max; lia). by rewrite (proj2 (Z.ltb_ge _ _)) by lia.
Qed.

(** A stored observation is read back with the same view and its ingest time. *)
Lemma gets_span o i : span_ok P o -> i64_ok (nanos i) -> zlen (span_layout o) <= block_bound ->
  exists o', span_view o = span_view o' /\ Gets (decode_observation TRACE_VERSION P) (span_layout o ++ be_bytes 8 (nanos i)) (o', i).
Proof.
  intros [Ht Hs Hpar Hst Hen Hnm Ha Hd Hp Hc] Hi Hb. destruct (checked_span_facts P o HP Hc) as (decoded & detail & Hf). pose proof Hf as [_ [_ Hn] Hsets Hdv [cs Hfold] Hds Hsize].
  pose proof (check_attributes_total _ _ _ _ _ _ Hfold) as Htot. assert (0 <= decoded).
  { rewrite Htot. unfold rs_len. pose proof (zlen_nonneg (text (so_name o))). enough (0 <= zsum set_total (so_attributes o)) by lia. apply zsum_nonneg. intros a _. apply set_total_nonneg. }
  pose proof (check_attributes_counts P _ _ _ _ _ Hfold) as [Hcounts Htags]. pose proof (span_layout_parts o Hb) as [Hba Hbd].
  pose proof (profile_small P HP) as [Ho Hs3 _ _ _ _ _ _ _]. pose proof (zlen_nonneg (so_attributes o)). apply details_validated in Hdv.
  destruct (gets_attributes _ Ha Htags Hba _ _ [] (Hcounts trace_malformed trace_malformed)) as (l' & Hl & Hgl). cbn [app] in Hgl.
  destruct (gets_details (so_details o) detail Hd Hdv Hds ltac:(lia) Hbd) as (evs & lns & Hev & Hln & Hgd). destruct (gets_provenance _ Hp) as (p' & Hpv & Hgp).
  set (o' := mkSpanObservation (so_trace_id o) (so_span_id o) (so_parent_span_id o) (exact (text (so_name o))) (so_start_time o) (so_end_time o) l' (so_kind o) (so_sampling o) p'
    (read_details (so_details o) evs lns)).
  assert (Hck : checked_span o' P = Ok o').
  { apply (checked_span_read o o' decoded detail Hf); try done; [by apply read_details_valid|]. unfold o'. cbn [so_details]. by rewrite read_details_size. }
  exists o'. split.
  { unfold span_view, o'. cbn [so_trace_id so_span_id so_parent_span_id so_name so_start_time so_end_time so_attributes so_kind so_sampling so_policy so_details text exact].
    by rewrite (read_details_view _ _ _ Hev Hln), Hpv, (read_view_map set_view set_view read_set _ _ (fun _ _ H => proj1 H) Hl). }
  unfold decode_observation, span_layout. rewrite <- !app_assoc. eapply gets_skip; [apply gets_component|]. do 2 (eapply gets_bind; [by apply gets_array|]).
  eapply gets_bind; [by apply gets_parent|]. eapply gets_bind; [apply gets_u8|]. eapply (gets_skip _ _ _ (so_kind o)); [apply gets_of; by destruct (so_kind o)|].
  eapply gets_bind; [apply gets_u8|]. eapply (gets_skip _ _ _ (so_sampling o)); [apply gets_of; by destruct (so_sampling o)|]. do 2 (eapply gets_bind; [by apply gets_time|]).
  eapply gets_skip; [apply gets_of, limits_for_ok, HP|]. eapply gets_bind; [by apply gets_key|]. eapply gets_bind; [apply gets_count; unfold u16_max; lia|].
  eapply gets_skip; [apply gets_reserve|]. unfold zlen at 1. rewrite Nat2Z.id. eapply gets_bind; [exact Hgl|]. cbv beta iota. change (DETAILS_VERSION <=? TRACE_VERSION) with true. cbv iota.
  eapply gets_bind; [exact Hgd|]. eapply gets_bind; [exact Hgp|]. eapply (gets_skip _ _ _ o'); [apply gets_of; fold o'; by rewrite Hck|].
  eapply gets_last; [by apply gets_i64|]. destruct i. apply gets_ret.
Qed.
End spans.
