(* ===== verification/TraceSize.v ===== *)
(** Trace store: the size pass is exact.

    [encoded_record_bytes] walks an observation under an observer before anything is allocated.
    Whatever the observer does, the pass returns the length of the layout or a failure of the
    observer. *)

From S2P Require Import Prelude Outcome Identity Limits SourceTime Values Observe Traversal Validation Shape CanonicalEncoding Occurrences PolicyModel PolicyCodec PolicyEvaluation RetentionTime LogStore LogCodec LogReads ValueLayout LogRoundtrip TraceModel TraceHeap TraceCodec TraceDecode TraceWrites.

(** An observer whose refusals are all of one kind. *)
Class Refusals (S : Type) (Fail : TraceStoreFailure -> Prop) (Obs : NativeValueObserver S TraceStoreFailure) : Prop := {
  structure_refusals s e : snd (obs_structure s) = Err e -> Fail e;
  payload_refusals b s e : snd (obs_payload b s) = Err e -> Fail e;
}.

Section observers.
Context {S : Type} {Obs : NativeValueObserver S TraceStoreFailure} (Fail : TraceStoreFailure -> Prop) {HF : Refusals S Fail Obs}.

(** *** Traversals of the domain *)

(** A traversal that its observer stops only with a refusal. *)
Definition stops {A} (m : M S TraceStoreFailure A) : Prop := forall s e, snd (m s) = Err (ObserverF e) -> Fail e.

Lemma stops_ret {A} (a : A) : stops (mret a).
Proof. done. Qed.

Lemma stops_lift {A} (r : result DomainFailure A) : stops (lift r).
Proof. intros s e. by destruct r. Qed.

Lemma stops_bind {A B} (m : M S TraceStoreFailure A) (k : A -> M S TraceStoreFailure B) : stops m -> (forall a, stops (k a)) -> stops (m ≫= k).
Proof.
  intros Hm Hk s e. specialize (Hm s). unfold mbind, M_bind. destruct (m s) as [s1 [a|f]]; cbn in *; [apply Hk|]. intros H. apply Hm. congruence.
Qed.

Lemma stops_structure : stops observe_structure.
Proof. intros s e. unfold observe_structure. pose proof (structure_refusals s) as H. destruct (obs_structure s) as [s1 [u|f]]; cbn in *; [done|]. intros [= <-]. by apply H. Qed.

Lemma stops_payload p : stops (observe_payload p).
Proof.
  unfold observe_payload. induction (chunks NATIVE_VALUE_PAYLOAD_CHUNK_BYTES p) as [|c cs IH]; [apply stops_ret|]. intros s e. cbn.
  pose proof (payload_refusals c s) as H. destruct (obs_payload c s) as [s1 [u|f]]; cbn in *; [apply IH|]. intros [= <-]. by apply H.
Qed.

Lemma stops_fold {A B} (f : B -> A -> M S TraceStoreFailure B) l b : Forall (fun a => forall b, stops (f b a)) l -> stops (m_try_fold f l b).
Proof. intros Hl. revert b. induction Hl as [|a l Ha _ IH]; intros b; [apply stops_ret|]. cbn. by apply stops_bind. Qed.

Lemma decoded_size_stops v : stops (decoded_size_bytes_observed v).
Proof.
  induction v as [|b|z|z|p|p|vs cap IH|es cap IH|m|v a IH] using validated_ind'; cbn [decoded_size_bytes_observed]; (apply stops_bind; [apply stops_structure|intros _]);
    try apply stops_ret; try done.
  1-2: apply stops_bind; [apply stops_payload|intros _; apply stops_ret].
  - apply stops_fold. eapply Forall_impl; [exact IH|]. intros v Hv b. apply stops_bind; [done|]. intros n. apply stops_lift.
  - apply stops_fold. eapply Forall_impl; [exact IH|]. intros [k v] Hv b. apply stops_bind; [apply stops_structure|intros _]. apply stops_bind; [apply stops_payload|intros _].
    apply stops_bind; [apply stops_lift|intros n]. apply stops_bind; [done|intros m]. apply stops_lift.
Qed.

(** A size that the plain traversal computes. *)
Lemma size_value_yields v n : decoded_size_bytes v = Ok n -> yields Fail (size_value (decoded_size_bytes_observed v)) (fun m => m = n).
Proof.
  intros Hn s. unfold size_value. pose proof (decoded_size_agrees v s) as Ha. pose proof (decoded_size_stops v s) as Hs. destruct (decoded_size_bytes_observed v s) as [s1 [m|[f|e]]]; cbn in *.
  - congruence.
  - congruence.
  - by apply Hs.
Qed.

(** *** Steps of the pass *)

Lemma structure_yields : yields Fail size_structure (fun _ => True).
Proof. intros s. unfold size_structure. pose proof (structure_refusals s) as H. destruct (obs_structure s) as [s1 [u|e]]; cbn in *; [done|by apply H]. Qed.

Lemma payload_yields p : yields Fail (size_payload p) (fun _ => True).
Proof. intros s. unfold size_payload. pose proof (payload_refusals p s) as H. destruct (obs_payload p s) as [s1 [u|e]]; cbn in *; [done|by apply H]. Qed.

Lemma fold_yields {A B} (f : B -> A -> Tr S B) (step : B -> A -> result TraceStoreFailure B) l : forall b c,
  (forall b a c, a ∈ l -> step b a = Ok c -> yields Fail (f b a) (fun x => x = c)) -> try_fold step b l = Ok c -> yields Fail (tr_fold f l b) (fun x => x = c).
Proof.
  induction l as [|a l IH]; intros b c Hf H; cbn [try_fold] in H; [injection H as <-; by apply tr_yields_ret|]. destruct (step b a) as [d|] eqn:Ha; [|done].
  cbn. eapply tr_yields_bind; [apply Hf; [apply list_elem_of_here|exact Ha]|]. intros ? ->. apply IH; [|done]. intros b' x c' Hx. apply Hf. by apply list_elem_of_further.
Qed.

Lemma visit_yields {A} (f : A -> Tr S unit) l : (forall a, yields Fail (f a) (fun _ => True)) -> yields Fail (tr_fold (fun _ a => f a) l tt) (fun _ => True).
Proof. intros Hf. induction l as [|a l IH]; [by apply tr_yields_ret|]. cbn. eapply tr_yields_bind; [apply Hf|]. intros [] _. exact IH. Qed.

Lemma detail_payload_yields p : yields Fail (detail_payload p) (fun _ => True).
Proof. apply visit_yields. apply payload_yields. Qed.

(** A step that adds the length of some bytes to a total. *)
Definition Sizes (m : Z -> Tr S Z) (bs : bytes) : Prop := forall total, 0 <= total -> total + zlen bs <= usize_max -> yields Fail (m total) (fun n => n = total + zlen bs).

Lemma sizes_bind (m k : Z -> Tr S Z) b1 b2 : Sizes m b1 -> Sizes k b2 -> Sizes (fun total => total ← m total; k total) (b1 ++ b2).
Proof.
  intros Hm Hk total H0 Hmax. rewrite zlen_app in Hmax. pose proof (zlen_nonneg b1). pose proof (zlen_nonneg b2). eapply tr_yields_bind; [apply Hm; lia|]. intros n ->.
  eapply yields_mono; [apply Hk; lia|]. intros n ->. rewrite zlen_app. lia.
Qed.

Lemma sizes_seq {A} (v : Tr S A) (m : Z -> Tr S Z) bs : yields Fail v (fun _ => True) -> Sizes m bs -> Sizes (fun total => _ ← v; m total) bs.
Proof. intros Hv Hm total H0 Hmax. eapply tr_yields_bind; [exact Hv|]. intros _ _. by apply Hm. Qed.

Lemma sizes_add n bs : zlen bs = n -> Sizes (fun total => tr_of (add_length total n)) bs.
Proof. intros <- total H0 Hmax. apply (yields_of Fail _ (total + zlen bs)); [|done]. unfold add_length. by rewrite checked_add_ok. Qed.

Lemma sizes_text b : Sizes (fun total => tr_of (add_bytes_length total (zlen b))) (text_layout b).
Proof. apply sizes_add, zlen_text_layout. Qed.

Lemma sizes_payload t : Sizes (fun total => payload_length total t) (text_layout (text t)).
Proof. apply (sizes_seq (size_payload (text t)) (fun total => tr_of (add_bytes_length total (rs_len t)))); [apply payload_yields|apply sizes_text]. Qed.

(** A size that is computed first and then added. *)
Lemma sizes_of (m : Tr S Z) bs : (zlen bs <= usize_max -> yields Fail m (fun n => n = zlen bs)) -> Sizes (fun total => n ← m; tr_of (add_length total n)) bs.
Proof.
  intros Hm total H0 Hmax. eapply tr_yields_bind; [apply Hm; lia|]. intros n ->. apply (yields_of Fail _ (total + zlen bs)); [|done]. unfold add_length. by rewrite checked_add_ok.
Qed.

Lemma sizes_fold {A} (f : Z -> A -> Tr S Z) (g : A -> bytes) l : Forall (fun a => Sizes (fun total => f total a) (g a)) l -> Sizes (fun total => tr_fold f l total) (flat_map g l).
Proof.
  induction 1 as [|a l Ha _ IH]; [intros total _ _; apply tr_yields_ret; unfold zlen; cbn; lia|].
  exact (sizes_bind (fun total => f total a) (fun total => tr_fold f l total) _ _ Ha IH).
Qed.

Lemma sizes_eq (m : Z -> Tr S Z) b1 b2 : Sizes m b1 -> zlen b1 = zlen b2 -> Sizes m b2.
Proof. intros Hm He total H0 Hmax. rewrite <- He in *. by apply Hm. Qed.

(** A loop that counts beside the total. *)
Lemma counted_fold {A B} (f : B * Z -> A -> Tr S (B * Z)) (step : B -> A -> result TraceStoreFailure B) (g : A -> bytes) l : forall b c total,
  (forall b a c total, a ∈ l -> step b a = Ok c -> 0 <= total -> total + zlen (g a) <= usize_max -> yields Fail (f (b, total) a) (fun r => r = (c, total + zlen (g a)))) ->
  0 <= total -> total + zlen (flat_map g l) <= usize_max -> try_fold step b l = Ok c -> yields Fail (tr_fold f l (b, total)) (fun r => r = (c, total + zlen (flat_map g l))).
Proof.
  induction l as [|a l IH]; intros b c total Hf H0 Hmax H; cbn [try_fold flat_map] in *; [injection H as <-; apply tr_yields_ret; f_equal; unfold zlen; cbn; lia|].
  rewrite zlen_app in Hmax. pose proof (zlen_nonneg (g a)). pose proof (zlen_nonneg (flat_map g l)). destruct (step b a) as [d|] eqn:Ha; [|done]. cbn.
  eapply tr_yields_bind; [apply Hf; [apply list_elem_of_here|exact Ha|lia|lia]|]. intros ? ->. eapply yields_mono; [apply IH; [|lia|lia|exact H]|].
  - intros b' x c' t Hx. apply Hf. by apply list_elem_of_further.
  - intros ? ->. f_equal. rewrite zlen_app. lia.
Qed.

(** ** Values *)

Context (P : ValueLimitProfile) (HP : profile_ok P).
Abbreviation L := (trace_limits P).

Definition value_sizes (v : ValidatedAttributeValue) : Prop := forall depth, codable (codec_limits P) (tl_value_bytes L) v depth -> zlen (value_layout v) <= usize_max ->
  yields Fail (encoded_value_length L v depth) (fun n => n = zlen (value_layout v)).

Lemma sizes_elements vs depth : Forall value_sizes vs -> all_of (fun v => codable (codec_limits P) (tl_value_bytes L) v depth) vs ->
  Sizes (fun total => tr_fold (fun total v => n ← encoded_value_length L v depth; tr_of (add_length total n)) vs total) (flat_map value_layout vs).
Proof.
  intros Hvs Hc%all_of_Forall. apply sizes_fold. rewrite Forall_forall in Hvs. rewrite Forall_forall in Hc. apply Forall_forall. intros v Hv. apply sizes_of. intros Hmax. apply Hvs; [done|by apply Hc|done].
Qed.

Lemma sizes_entries es depth : Forall (fun e => value_sizes e.2) es ->
  all_of (fun '(k, v) => text k <> [] /\ rs_len k <= tl_key_path_bytes L /\ utf8_valid (text k) = true /\ codable (codec_limits P) (tl_value_bytes L) v depth) es ->
  Sizes (fun total => tr_fold (fun total '(k, v) =>
    _ ← size_structure;
    if tl_key_path_bytes L <? rs_len k then tr_fail trace_limit_exceeded else
    _ ← size_payload (text k);
    total ← tr_of (add_bytes_length total (rs_len k));
    n ← encoded_value_length L v depth;
    tr_of (add_length total n)) es total) (flat_map entry_layout es).
Proof.
  intros Hes Hc%all_of_Forall. apply sizes_fold. rewrite Forall_forall in Hes. rewrite Forall_forall in Hc. apply Forall_forall. intros [k v] Hv. destruct (Hc _ Hv) as (_ & Hk & _ & Hcv).
  apply sizes_seq; [apply structure_yields|]. rewrite (proj2 (Z.ltb_ge _ _)) by lia. apply sizes_seq; [apply payload_yields|]. apply sizes_bind; [apply sizes_text|].
  apply sizes_of. intros Hmax. by apply (Hes _ Hv).
Qed.

(** The size of a value is the length of its layout. *)
Lemma value_size v : value_sizes v.
Proof.
  induction v as [|b|z|z|p|p|vs cap IH|es cap IH|m|v a IH] using validated_ind'; intros depth Hc Hmax; cbn [encoded_value_length]; (eapply tr_yields_bind; [apply structure_yields|intros _ _]).
  1-4: apply tr_yields_ret; cbn [value_layout]; by zlens.
  1-2: destruct Hc as (Hp & _ & _); cbn [payload_size] in Hp; rewrite (proj2 (Z.ltb_ge _ _)) by lia; (eapply tr_yields_bind; [apply payload_yields|intros _ _]); cbn [value_layout] in *;
    (eapply yields_mono; [apply sizes_text; [lia|zlens; lia]|]); intros n ->; zlens; lia.
  - destruct Hc as (_ & _ & Hd & Hn & Hall). cbn [codec_limits lim_array_entries] in Hn. rewrite checked_sub_ok by lia. eapply yields_step; [done|]. cbv beta. rewrite (proj2 (Z.ltb_ge _ _)) by lia.
    cbn [value_layout] in *. zlens. zlens. pose proof (zlen_nonneg (flat_map value_layout vs)). eapply yields_mono; [apply sizes_elements; [done|done|lia|lia]|]. intros n ->. lia.
  - destruct Hc as (_ & _ & Hd & Hn & Hall). cbn [codec_limits lim_key_value_list_entries] in Hn. rewrite checked_sub_ok by lia. eapply yields_step; [done|]. cbv beta. rewrite (proj2 (Z.ltb_ge _ _)) by lia.
    cbn [value_layout] in *. change (flat_map (fun '(k, v) => text_layout (text k) ++ value_layout v) es) with (flat_map entry_layout es) in *. zlens. zlens. pose proof (zlen_nonneg (flat_map entry_layout es)).
    eapply yields_mono; [apply sizes_entries; [done|done|lia|lia]|]. intros n ->. lia.
  - apply tr_yields_ret. done.
  - destruct Hc as (_ & _ & _ & _ & Hc). cbn [value_layout] in *. zlens. eapply tr_yields_bind; [apply IH; [done|lia]|]. intros n ->. pose proof (zlen_nonneg (value_layout v)).
    apply (yields_of Fail _ (3 + zlen (value_layout v))); [|lia]. unfold add_length. by rewrite checked_add_ok by lia.
Qed.

(** ** Attributes *)

Context {Lay : Layout}.

Lemma sizes_occurrences a : set_ok P a -> zlen (occurrences_layout a) <= block_bound -> Sizes (occurrences_length L a) (occurrences_layout a).
Proof.
  intros [_ _ Hvs] Hb. unfold occurrences_layout in *. rewrite !zlen_app in Hb. pose proof (zlen_nonneg (text_layout (text (key a)))). pose proof (zlen_nonneg (be_bytes 2 (set_len a))).
  apply (sizes_seq (size_payload (text (key a))) (fun total => total ← tr_of (add_bytes_length total (rs_len (key a))); total ← tr_of (add_length total 2);
    tr_fold (fun total v => n ← encoded_value_length L v (tl_nesting_depth L); tr_of (add_length total n)) (occurrences a) total)); [apply payload_yields|].
  apply sizes_bind; [apply sizes_text|]. apply (sizes_bind (fun total => tr_of (add_length total 2))); [apply sizes_add, zlen_be_bytes|].
  apply sizes_fold. rewrite Forall_forall in Hvs. apply Forall_forall. intros v Hv. pose proof (flat_map_member value_layout _ _ Hv). apply sizes_of. intros Hmax. apply value_size; [|done].
  apply (fits_codable (effective_limits P) (codec_limits P) (codec_limits_match P)); [by apply Hvs|lia].
Qed.

Lemma detail_sets_size l : detail_sets_ok P l -> zlen (details_attributes_layout l) <= block_bound ->
  yields Fail (encoded_span_attributes_length L l) (fun n => n = zlen (details_attributes_layout l)).
Proof.
  intros [_ Hsets Hc] Hb. apply detail_counts_fold in Hc as [Hn [c Hc]]. unfold details_attributes_layout in *. rewrite zlen_app in Hb |- *. rewrite zlen_be_bytes in *.
  unfold encoded_span_attributes_length. eapply tr_yields_bind; [apply structure_yields|intros _ _]. rewrite (proj2 (Z.ltb_ge _ _)) by lia. rewrite Forall_forall in Hsets.
  set (g := fun a => occurrences_layout (detail_occurrences a)) in *. pose proof (zlen_nonneg (flat_map g l)). eapply tr_yields_bind.
  - apply (counted_fold _ (fun c a => filtered_add (tl_occurrences L) trace_limit_exceeded c (set_len (detail_occurrences a))) g l 0 c 2); [|lia|unfold usize_max, block_bound in *; lia|exact Hc]. intros n a n' total Ha Hadd H0 Hmax. pose proof (Hsets a Ha) as Hset. pose proof Hset as [_ Hshape _].
    destruct (set_shape_bounds P _ Hshape) as (_ & Hk & _). cbv beta iota zeta. eapply tr_yields_bind; [apply structure_yields|intros _ _]. rewrite (proj2 (Z.ltb_ge _ _)) by lia.
    eapply yields_step; [exact Hadd|]. pose proof (flat_map_member g _ _ Ha). unfold g in *. eapply tr_yields_bind; [apply sizes_occurrences; [done|lia|lia|lia]|]. intros t ->. by apply tr_yields_ret.
  - intros r ->. apply tr_yields_ret. lia.
Qed.

(** ** Details *)

Lemma sizes_short t : Sizes (fun total => payload_length total t) (text_layout (text t)).
Proof. apply sizes_payload. Qed.

Lemma sizes_time t : time_ok t -> zlen (time_layout t) = encoded_time_length t.
Proof.
  unfold time_layout, encoded_time_length, plain_time. intros [[->|(i & q & Hi & He)]|(v & Hv & He)].
  - done.
  - unfold EventTime_received in He. destruct (validate_present_source_time i q); [|done]. injection He as <-. unfold EventTime_source_value. cbn [event_instant event_raw_instant event_quality].
    destruct (0 <=? nanos i); [|by zlens]. rewrite (proj2 (Z.ltb_ge _ _)); [by zlens|]. unfold i64_ok in Hi. lia.
  - unfold EventTime_out_of_range in He. destruct (Z.leb_spec v i64_max); [done|]. injection He as <-. unfold EventTime_source_value. cbn [event_instant event_raw_instant].
    rewrite (proj2 (Z.ltb_lt _ _)) by lia. by zlens.
Qed.

Lemma sizes_event e : span_event_ok P e -> text (span_event_name e) <> [] /\ rs_len (span_event_name e) <= tl_key_path_bytes L -> zlen (event_layout e) <= block_bound ->
  Sizes (fun total => event_length L total e) (event_layout e).
Proof.
  intros [Ht _ _ Ha] [Hn0 Hn] Hb. unfold event_layout in *. rewrite !zlen_app in Hb. pose proof (zlen_nonneg (time_layout (event_timestamp e))). pose proof (zlen_nonneg (text_layout (text (span_event_name e)))).
  pose proof (zlen_nonneg (be_bytes 4 (event_dropped e))). unfold event_length. rewrite bool_decide_false, (proj2 (Z.ltb_ge _ _)) by (done || lia). cbn [orb].
  apply sizes_seq; [apply structure_yields|]. apply sizes_bind; [by apply sizes_add, sizes_time|]. apply (sizes_bind (fun total => payload_length total (span_event_name e))); [apply sizes_payload|].
  apply (sizes_bind (fun total => tr_of (add_length total 4))); [apply sizes_add, zlen_be_bytes|]. apply sizes_of. intros _. apply detail_sets_size; [done|lia].
Qed.

Lemma sizes_link l : span_link_ok P l -> rs_len (link_trace_state l) <= tl_key_path_bytes L -> zlen (link_layout l) <= block_bound -> Sizes (fun total => link_length L total l) (link_layout l).
Proof.
  intros [Ht Hs _ _ _ Ha] Hn Hb. unfold link_layout in *. rewrite !zlen_app in Hb. pose proof (zlen_nonneg (text_layout (text (link_trace_state l)))).
  pose proof (zlen_nonneg (be_bytes 4 (link_flags l))). pose proof (zlen_nonneg (be_bytes 4 (link_dropped l))). unfold link_length. rewrite (proj2 (Z.ltb_ge _ _)) by lia.
  apply sizes_seq; [apply structure_yields|]. rewrite app_assoc. apply sizes_bind; [apply sizes_add; rewrite zlen_app; lia|].
  apply (sizes_bind (fun total => payload_length total (link_trace_state l))); [apply sizes_payload|]. rewrite app_assoc.
  apply (sizes_bind (fun total => tr_of (add_length total 8))); [apply sizes_add; rewrite zlen_app, !zlen_be_bytes; lia|]. apply sizes_of. intros _. apply detail_sets_size; [done|lia].
Qed.

(** The traversal that only checks the decoded size succeeds when the plain one does. *)
Lemma detail_bytes_yields cur n l limit m : detail_decoded_bytes cur n l limit = Ok m -> yields Fail (detail_decoded_bytes_observed cur n l limit) (fun x => x = m).
Proof.
  unfold detail_decoded_bytes, detail_decoded_bytes_observed. intros H. apply result_bind_Ok in H as (d & Hd & H). rewrite Hd. eapply yields_step; [done|].
  refine (fold_yields _ _ l d m _ H). intros b a c _ Hstep. cbv zeta. eapply tr_yields_bind; [apply structure_yields|intros _ _]. eapply tr_yields_bind; [apply detail_payload_yields|intros _ _].
  apply result_bind_Ok in Hstep as (d' & Hd' & Hstep). rewrite Hd'. eapply yields_step; [done|]. refine (fold_yields _ _ _ d' c _ Hstep).
  intros x v y _ Hv. apply result_bind_Ok in Hv as (k & Hk & Hv). destruct (decoded_size_bytes v) as [k'|] eqn:Hsz; [|done]. injection Hk as <-.
  eapply tr_yields_bind; [by apply size_value_yields|]. intros ? ->. by apply (yields_of Fail _ y).
Qed.

Lemma details_bytes_yields d limit n : details_decoded_size_bytes d limit = Ok n -> yields Fail (details_decoded_size_bytes_observed d limit) (fun _ => True).
Proof.
  unfold details_decoded_size_bytes, details_decoded_size_bytes_observed. intros H. apply result_bind_Ok in H as (i & Hi & H). apply result_bind_Ok in H as (w & Hw & H). cbv zeta.
  eapply tr_yields_bind; [apply structure_yields|intros _ _]. eapply tr_yields_bind; [apply visit_yields; intros t; apply detail_payload_yields|intros _ _]. rewrite Hi. eapply yields_step; [done|].
  eapply tr_yields_bind; [refine (fold_yields _ _ _ i w _ Hw)|intros ? ->].
  - intros b e c _ He. eapply tr_yields_bind; [apply structure_yields|intros _ _]. eapply tr_yields_bind; [apply detail_payload_yields|intros _ _]. by apply detail_bytes_yields.
  - eapply yields_mono; [refine (fold_yields _ _ _ w n _ H)|done]. intros b l c _ Hl. eapply tr_yields_bind; [apply structure_yields|intros _ _].
    eapply tr_yields_bind; [apply detail_payload_yields|intros _ _]. by apply detail_bytes_yields.
Qed.

Lemma details_size d detail : details_ok P d -> valid_details P d -> details_decoded_size_bytes d (tl_decoded_bytes L) = Ok detail -> zlen (details_layout d) <= block_bound ->
  yields Fail (encoded_details_length L d) (fun n => n = zlen (details_layout d)).
Proof.
  intros [_ _ Hev Hln] Hv Hsize Hb. pose proof (details_layout_parts d Hb) as [Hbe Hbl]. unfold encoded_details_length. eapply tr_yields_bind; [apply structure_yields|intros _ _].
  rewrite (details_within P d Hv). destruct Hv as [_ _ _ Hen Hls]. eapply tr_yields_bind; [by eapply details_bytes_yields|intros _ _].
  rewrite Forall_forall in Hev. rewrite Forall_forall in Hln. rewrite Forall_forall in Hen. rewrite Forall_forall in Hls.
  assert (Hev' : Sizes (fun total => tr_fold (event_length L) (events d) total) (flat_map event_layout (events d))).
  { apply sizes_fold, Forall_forall. intros e He. pose proof (flat_map_member event_layout _ _ He). apply sizes_event; [by apply Hev|by apply Hen|lia]. }
  assert (Hln' : Sizes (fun total => tr_fold (link_length L) (links d) total) (flat_map link_layout (links d))).
  { apply sizes_fold, Forall_forall. intros l Hl. pose proof (flat_map_member link_layout _ _ Hl). apply sizes_link; [by apply Hln|by apply Hls|lia]. }
  assert (Hs : Sizes (fun total =>
    total ← payload_length total (trace_state d); total ← tr_of (add_length total 5); total ← payload_length total (status_message (status d));
    total ← tr_of (add_length total 16); total ← payload_length total (resource_url (span_resource d)); total ← payload_length total (span_scope_name (span_scope d));
    total ← payload_length total (span_scope_version (span_scope d)); total ← tr_of (add_length total 4); total ← payload_length total (scope_url (span_scope d));
    total ← tr_of (add_length total 2); total ← tr_fold (event_length L) (events d) total; total ← tr_of (add_length total 2); tr_fold (link_length L) (links d) total) (details_layout d)).
  { eapply sizes_eq.
    - eapply (sizes_bind (fun total => payload_length total _)); [apply sizes_payload|]. eapply (sizes_bind _ _ (replicate 5 0)); [by apply sizes_add|].
      eapply (sizes_bind (fun total => payload_length total _)); [apply sizes_payload|]. eapply (sizes_bind _ _ (replicate 16 0)); [by apply sizes_add|].
      do 3 (eapply (sizes_bind (fun total => payload_length total _)); [apply sizes_payload|]). eapply (sizes_bind _ _ (replicate 4 0)); [by apply sizes_add|].
      eapply (sizes_bind (fun total => payload_length total _)); [apply sizes_payload|]. eapply (sizes_bind _ _ (replicate 2 0)); [by apply sizes_add|].
      eapply sizes_bind; [exact Hev'|]. eapply (sizes_bind _ _ (replicate 2 0)); [by apply sizes_add|]. exact Hln'.
    - unfold details_layout. rewrite !zlen_app, !zlen_be_bytes. unfold zlen. rewrite !length_replicate. cbn [length]. lia. }
  eapply yields_mono; [apply Hs; [lia|unfold usize_max, block_bound in *; lia]|]. intros n ->. lia.
Qed.

(** ** Observations *)

Lemma attributes_size l cs cs' total : Forall (set_ok P) l -> zlen (flat_map attribute_layout l) <= block_bound -> 0 <= total -> total + zlen (flat_map attribute_layout l) <= usize_max ->
  try_fold (fun cs a => count_namespace L trace_invalid_input trace_limit_exceeded cs (namespace a) (set_len a)) cs l = Ok cs' ->
  yields Fail (tr_fold (fun '(counts, total) a =>
    _ ← size_structure;
    if tl_key_path_bytes L <? rs_len (key a) then tr_fail trace_limit_exceeded else
    counts ← tr_of (count_namespace L trace_invalid_input trace_limit_exceeded counts (namespace a) (set_len a));
    total ← tr_of (add_length total 1);
    total ← occurrences_length L a total;
    mret (counts, total)) l (cs, total)) (fun r => r = (cs', total + zlen (flat_map attribute_layout l))).
Proof.
  intros Hl Hb H0 Hmax Hc. refine (counted_fold _ _ attribute_layout l cs cs' total _ H0 Hmax Hc). intros b a c t Ha Hstep Ht Htm. rewrite Forall_forall in Hl. pose proof (Hl a Ha) as Hset. pose proof Hset as [_ Hshape _].
  destruct (set_shape_bounds P _ Hshape) as (_ & Hk & _). cbv beta iota. eapply tr_yields_bind; [apply structure_yields|intros _ _]. rewrite (proj2 (Z.ltb_ge _ _)) by lia. eapply yields_step; [exact Hstep|].
  pose proof (flat_map_member attribute_layout _ _ Ha) as Hm. unfold attribute_layout in *. rewrite zlen_cons in *. pose proof (zlen_nonneg (occurrences_layout a)).
  eapply yields_step; [unfold add_length; by rewrite checked_add_ok by lia|]. eapply tr_yields_bind; [apply sizes_occurrences; [done|lia|lia|lia]|]. intros t' ->. apply tr_yields_ret. f_equal. lia.
Qed.

Lemma sizes_provenance p : provenance_ok p ->
  Sizes (fun total => total ← tr_of (add_length total 42); tr_fold (fun total rule => _ ← size_structure; payload_length total rule) (applied_rules p) total) (provenance_layout p).
Proof.
  intros [_ Hd _ _]. eapply sizes_eq.
  - eapply (sizes_bind _ _ (replicate 42 0)); [by apply sizes_add|]. apply (sizes_fold _ (fun rule => text_layout (text rule))), Forall_forall. intros r _. apply sizes_seq; [apply structure_yields|apply sizes_payload].
  - unfold provenance_layout. rewrite !zlen_app, !zlen_be_bytes, Hd. unfold zlen. rewrite length_replicate. lia.
Qed.

Lemma yields_assoc {A B C} (m : Tr S A) (f : A -> Tr S B) (g : B -> Tr S C) Q : yields Fail ((m ≫= f) ≫= g) Q -> yields Fail (a ← m; f a ≫= g) Q.
Proof. intros H st. specialize (H st). unfold mbind, Tr_bind in *. by destruct (m st) as [s [a|e]]. Qed.

(** The bytes of the fixed part of an observation. *)
Definition span_prefix (o : SpanObservation) : bytes :=
  so_trace_id o ++ so_span_id o ++ parent_layout (so_parent_span_id o) ++ [span_kind_tag (so_kind o)] ++ [sampling_tag (so_sampling o)]
  ++ time_layout (so_start_time o) ++ time_layout (so_end_time o) ++ text_layout (text (so_name o)) ++ be_bytes 2 (zlen (so_attributes o)).

Lemma span_layout_split o : span_layout o = span_prefix o ++ flat_map attribute_layout (so_attributes o) ++ details_layout (so_details o) ++ provenance_layout (so_policy o).
Proof. unfold span_layout, span_prefix. by rewrite <- !app_assoc. Qed.

Lemma prefix_size (k : Z -> Tr S Z) o (Q : Z -> Prop) : span_ok P o -> zlen (span_prefix o) <= usize_max -> yields Fail (k (zlen (span_prefix o))) Q ->
  yields Fail (total ← tr_of (add_length 24 1);
    total ← tr_of (add_length total (match so_parent_span_id o with Some _ => 8 | None => 0 end));
    total ← tr_of (add_length total 2);
    total ← tr_of (add_length total (encoded_time_length (so_start_time o)));
    total ← tr_of (add_length total (encoded_time_length (so_end_time o)));
    total ← payload_length total (so_name o);
    total ← tr_of (add_length total 2);
    k total) Q.
Proof.
  intros [Ht Hs Hp Hst Hen _ _ _ _ _] Hmax Hk. apply sizes_time in Hst. apply sizes_time in Hen.
  assert (Hlen : zlen (span_prefix o) = 25 + match so_parent_span_id o with Some _ => 8 | None => 0 end + 2 + zlen (time_layout (so_start_time o)) + zlen (time_layout (so_end_time o))
    + zlen (text_layout (text (so_name o))) + 2).
  { unfold span_prefix. rewrite !zlen_app, Ht, Hs, zlen_be_bytes. unfold parent_layout. destruct (so_parent_span_id o) as [id|]; cbn [id_ok] in Hp; zlens; rewrite ?Hp; lia. }
  pose proof (zlen_nonneg (time_layout (so_start_time o))). pose proof (zlen_nonneg (time_layout (so_end_time o))). pose proof (zlen_nonneg (text_layout (text (so_name o)))).
  assert (0 <= match so_parent_span_id o with Some _ => 8 | None => 0 end) by (destruct (so_parent_span_id o); lia).
  do 5 (eapply yields_step; [unfold add_length; rewrite checked_add_ok by lia; reflexivity|]; cbv beta).
  eapply tr_yields_bind; [apply sizes_payload; lia|]. intros n ->. eapply yields_step; [unfold add_length; rewrite checked_add_ok by lia; reflexivity|]. cbv beta.
  match goal with |- yields _ (k ?n) _ => replace n with (zlen (span_prefix o)) by lia end. exact Hk.
Qed.

(** The size pass of an observation returns the length of its layout with its ingest time. *)
Lemma span_size o : span_ok P o -> zlen (span_layout o) <= block_bound -> yields Fail (encoded_observation_length L o) (fun n => n = zlen (span_layout o) + 8).
Proof.
  intros Hok Hb. pose proof Hok as [_ _ _ _ _ _ Ha Hd Hp Hc]. destruct (checked_span_facts P o HP Hc) as (decoded & detail & Hf). pose proof Hf as [_ [Hn0 Hn] Hsets Hdv [cs Hfold] Hds _].
  pose proof (check_attributes_counts P _ _ _ _ _ Hfold) as [Hcounts _]. apply details_validated in Hdv. pose proof (span_layout_parts o Hb) as [Hba Hbd].
  rewrite span_layout_split in *. rewrite !zlen_app in Hb. pose proof (zlen_nonneg (span_prefix o)). pose proof (zlen_nonneg (flat_map attribute_layout (so_attributes o))).
  pose proof (zlen_nonneg (details_layout (so_details o))). pose proof (zlen_nonneg (provenance_layout (so_policy o))). unfold block_bound in *.
  unfold encoded_observation_length. eapply tr_yields_bind; [apply structure_yields|intros _ _]. rewrite bool_decide_false, !(proj2 (Z.ltb_ge _ _)) by (done || lia). cbn [orb].
  apply prefix_size; [done|unfold usize_max; lia|]. eapply tr_yields_bind; [apply (attributes_size _ _ cs); [done|unfold block_bound; lia|lia|unfold usize_max; lia|apply Hcounts]|]. intros ? ->. cbv beta iota.
  eapply tr_yields_bind; [apply (details_size _ detail); [done|done|done|unfold block_bound; lia]|]. intros ? ->.
  eapply yields_step; [unfold add_length; rewrite checked_add_ok by (unfold usize_max; lia); reflexivity|]. cbv beta.
  rewrite !zlen_app. apply yields_assoc. eapply tr_yields_bind; [apply (sizes_provenance _ Hp); [lia|unfold usize_max; lia]|]. intros ? ->.
  eapply yields_of; [unfold add_length; rewrite checked_add_ok by (unfold usize_max; lia); reflexivity|lia].
Qed.

Lemma record_size o : span_ok P o -> zlen (span_layout o) + 8 <= tl_encoded_bytes L -> yields Fail (encoded_record_bytes_with_limits_using L o) (fun n => n = zlen (span_layout o) + 8).
Proof.
  intros Hok Hle. pose proof (profile_small P HP) as [_ _ _ _ _ _ _ He _]. eapply tr_yields_bind; [apply span_size; [done|unfold block_bound; lia]|]. intros n ->.
  rewrite (proj2 (Z.ltb_ge _ _)) by lia. by apply tr_yields_ret.
Qed.
End observers.

(** *** The two observers *)

Lemma unobserved_refusals S : Refusals S (fun _ => False) (UnobservedSize S).
Proof. by split. Qed.

Section observed.
Context {S : Type} {Alloc : Allocator S} {Env : ScanEnvironment S} {Cap : QueryCapacity S}.
Context (Intr : TraceStoreFailure -> Prop) {HI : Interrupts S Intr}.

Lemma observed_refusals : Refusals S Intr (ObservedSize S).
Proof.
  split.
  - intros s e. apply (work_interrupts Intr).
  - intros b s e. cbn [obs_payload ObservedSize]. revert s. induction (chunks NATIVE_VALUE_PAYLOAD_CHUNK_BYTES b) as [|c cs IH]; [done|]. intros s. cbn [observe_units].
    pose proof (work_interrupts Intr s) as H. unfold mbind, Tr_bind in *. destruct (check_cancel s) as [s1 [[]|e1]]; [|apply H]. destruct (observe_unit s1) as [s2 [[]|e2]]; [apply IH|apply H].
Qed.
End observed.
