(* ===== verification/TraceRoundtrip.v ===== *)
(** Trace store: committed blocks read back.

    A block is written exactly when it fits, and decoding it returns the observations that were
    asked for. Semantic keys identify observations up to capacities. *)

From Stdlib Require Import Ascii String.
From S2P Require Import Prelude Outcome Identity Limits SourceTime Values Observe Traversal Validation Shape CanonicalEncoding Occurrences PolicyModel PolicyCodec PolicyEvaluation RetentionTime LogStore LogCodec LogReads ValueLayout LogRoundtrip LogBlocks TraceModel TraceHeap TraceCodec TraceDecode TraceWrites TraceReads TraceSpans TraceSize.

#[local] Existing Instance ExactAllocator.
#[local] Existing Instance quiet.

(** ** Writing a block *)

Section writing.
#[local] Existing Instance vector_output.

(** A computation on a vector that appends [bs] when [fits] holds and the block has room, and is
    refused with the limit otherwise. *)
Definition writes (m : Cur unit unit) (bs : bytes) (fits : Prop) : Prop := forall b, zlen b <= TRACE_MAX_BLOCK_BYTES ->
  match m b tt with
  | (b', _, Ok _) => b' = b ++ bs /\ fits /\ zlen b' <= TRACE_MAX_BLOCK_BYTES
  | (_, _, Err e) => e = trace_limit_exceeded /\ ~ (fits /\ zlen b + zlen bs <= TRACE_MAX_BLOCK_BYTES)
  end.

Lemma writes_ret : writes (mret tt) [] True.
Proof. intros b Hb. cbn. by rewrite app_nil_r. Qed.

Lemma writes_bind m k b1 b2 P Q : writes m b1 P -> writes k b2 Q -> writes (_ ← m; k) (b1 ++ b2) (P /\ Q).
Proof.
  intros Hm Hk b Hb. specialize (Hm b Hb). unfold mbind, Cur_bind. pose proof (zlen_nonneg b2). destruct (m b tt) as [[b' []] [[]|e]].
  - destruct Hm as (-> & HP & Hb'). specialize (Hk _ Hb'). destruct (k _ tt) as [[b'' s] [[]|e]].
    + destruct Hk as (-> & HQ & Hb''). rewrite <- app_assoc in *. by split_and!.
    + destruct Hk as (-> & Hn). split; [done|]. rewrite zlen_app in *. intros ((_ & HQ) & Hz). apply Hn. split; [done|lia].
  - destruct Hm as (-> & Hn). split; [done|]. rewrite zlen_app. intros ((HP & _) & Hz). apply Hn. split; [done|lia].
Qed.

Lemma writes_iff m bs P Q : writes m bs P -> (P <-> Q) -> writes m bs Q.
Proof. intros H HPQ b Hb. specialize (H b Hb). destruct (m b tt) as [[b' s] [u|e]]; rewrite <- HPQ; exact H. Qed.

Lemma writes_each {A} (f : A -> Cur unit unit) (g : A -> bytes) (fits : A -> Prop) l :
  Forall (fun a => writes (f a) (g a) (fits a)) l -> writes (cur_each f l) (flat_map g l) (Forall fits l).
Proof.
  induction 1 as [|a l Ha _ IH]; [eapply writes_iff; [apply writes_ret|done]|]. cbn [flat_map cur_each].
  eapply writes_iff; [by apply writes_bind|by rewrite Forall_cons].
Qed.

Lemma writes_put bs : writes (put_slice bs) bs True.
Proof.
  intros b Hb. cbn [put_slice vector_output VecOutput]. unfold vec_put_slice. pose proof (zlen_nonneg bs). pose proof (zlen_nonneg b).
  destruct (checked_add usize_max (zlen b) (zlen bs)) as [n|] eqn:Ha.
  - apply checked_add_Some in Ha as [-> _]. destruct (Z.ltb_spec TRACE_MAX_BLOCK_BYTES (zlen b + zlen bs)); [split; [done|lia]|]. cbn [try_reserve_exact ExactAllocator]. by rewrite zlen_app.
  - split; [done|]. intros [_ Hz]. rewrite checked_add_ok in Ha; [done|unfold TRACE_MAX_BLOCK_BYTES, usize_max in *; lia].
Qed.

Lemma writes_emits (m : Cur unit unit) bs : Emits m bs tt -> writes m bs True.
Proof.
  intros (ps & <- & Hm) b Hb. rewrite Hm. assert (H : writes (cur_each put_slice ps) (concat ps) True).
  { rewrite <- flat_map_id. eapply writes_iff; [apply (writes_each put_slice id (fun _ => True)), Forall_forall; intros p _; apply writes_put|]. by rewrite Forall_forall. }
  specialize (H b Hb). unfold mbind, Cur_bind. by destruct (cur_each put_slice ps b tt) as [[b' s] [[]|e]].
Qed.

Context {Lay : Layout} (P : ValueLimitProfile) (HP : profile_ok P).
Abbreviation L := (trace_limits P).

(** A stored observation as the encoder meets it: it was constructed, and it is in memory. *)
Record stored_ok (r : StoredSpanObservation) : Prop := {
  sd_span : span_ok P (stored_observation r);
  sd_memory : zlen (span_layout (stored_observation r)) <= block_bound;
  sd_time : i64_ok (nanos (instant (span_ingest_time r)));
}.

Definition record_fits (r : StoredSpanObservation) : Prop := zlen (stored_layout r) <= tl_encoded_bytes L.

Lemma stored_length r : zlen (stored_layout r) = zlen (span_layout (stored_observation r)) + 8.
Proof. unfold stored_layout. rewrite zlen_app, zlen_be_bytes. lia. Qed.

(** The size pass decides whether a record fits. *)
Lemma size_pass r : stored_ok r ->
  encoded_record_bytes_with_limits L (stored_observation r) tt = (tt, if zlen (stored_layout r) <=? tl_encoded_bytes L then Ok (zlen (stored_layout r)) else Err trace_limit_exceeded).
Proof.
  intros [Hok Hb _]. pose proof (@span_size unit _ (fun _ => False) (unobserved_refusals unit) P HP _ _ Hok Hb tt) as H. rewrite stored_length.
  unfold encoded_record_bytes_with_limits, encoded_record_bytes_with_limits_using, mbind, Tr_bind. destruct (encoded_observation_length _ _ tt) as [[] [n|e]]; [|done]. cbn in H. subst n.
  rewrite Z.leb_antisym. by destruct (_ <? _).
Qed.

Definition write_record (r : StoredSpanObservation) : Cur unit unit :=
  limits ← cur_of (limits_for P); _ ← cur_tr (encoded_record_bytes_with_limits limits (stored_observation r)); encode_observation P r.

Lemma span_record_writes r : stored_ok r -> writes (write_record r) (stored_layout r) (record_fits r).
Proof.
  intros Hr b Hb. pose proof Hr as [Hok Hm _]. pose proof (zlen_nonneg b). unfold write_record, record_fits. rewrite (limits_for_ok P HP).
  unfold mbind, Cur_bind, cur_of, cur_tr. rewrite (size_pass r Hr). destruct (Z.leb_spec (zlen (stored_layout r)) (tl_encoded_bytes L)); [|split; [done|lia]].
  assert (He : Emits (encode_observation P r) (stored_layout r) tt) by (eapply emits_bind; [by apply (emits_span P HP)|apply emits_put]).
  pose proof (writes_emits _ _ He b Hb) as Hw. destruct (encode_observation P r b tt) as [[b' s] [u|e]]; [|]; intuition.
Qed.

Definition block_layout (tenant : TenantId) (records : list StoredSpanObservation) : bytes :=
  TRACE_MAGIC ++ be_bytes 2 TRACE_VERSION ++ tenant_id_bytes tenant ++ be_bytes 2 (zlen records) ++ flat_map stored_layout records.

(** What a block may hold. *)
Record block_fits (tenant : TenantId) (records : list StoredSpanObservation) : Prop := {
  bf_some : records <> [];
  bf_count : zlen records <= MAX_RECORDS;
  bf_records : Forall record_fits records;
  bf_bytes : zlen (block_layout tenant records) <= TRACE_MAX_BLOCK_BYTES;
}.

Lemma block_written tenant records : Forall stored_ok records ->
  (block_fits tenant records /\ encode_block_with_profile P tenant records tt = (tt, Ok (block_layout tenant records))) \/
  (~ block_fits tenant records /\ encode_block_with_profile P tenant records tt = (tt, Err trace_limit_exceeded)).
Proof.
  intros Hr. unfold encode_block_with_profile. destruct (bool_decide (records = []) || (MAX_RECORDS <? zlen records)) eqn:Hg.
  { right. split; [|done]. intros [Hne Hc _ _]. apply orb_true_iff in Hg as [Hg%bool_decide_eq_true|Hg%Z.ltb_lt]; [done|lia]. }
  apply orb_false_iff in Hg as [Hne%bool_decide_eq_false Hc%Z.ltb_ge]. cbv zeta. change VecOutput with vector_output.
  assert (Hw : writes (_ ← put_slice TRACE_MAGIC; _ ← out_u16 TRACE_VERSION; _ ← put_slice (tenant_id_bytes tenant); _ ← out_count (zlen records); cur_each write_record records)
    (block_layout tenant records) (Forall record_fits records)).
  { eapply writes_iff; [do 3 (eapply writes_bind; [apply writes_put|]); eapply writes_bind; [apply writes_emits, emits_count; unfold MAX_RECORDS, u16_max in *; lia|]|].
    - apply (writes_each _ _ record_fits). eapply Forall_impl; [exact Hr|]. exact span_record_writes.
    - tauto. }
  specialize (Hw [] ltac:(unfold zlen, TRACE_MAX_BLOCK_BYTES; cbn; lia)). unfold write_record in Hw.
  match type of Hw with context [match ?x with (_, _) => _ end] => destruct x as [[b []] [[]|e]] end.
  - destruct Hw as (-> & Hf & Hb). left. done.
  - destruct Hw as (-> & Hn). right. split; [|done]. intros [_ _ Hf Hb]. by apply Hn.
Qed.
End writing.

(** ** Reading a block *)

Definition stored_span_view (r : StoredSpanObservation) := (span_view (stored_observation r), span_ingest_time r).

Section reading.
Context {Lay : Layout} (P : ValueLimitProfile) (HP : profile_ok P).

Lemma gets_header tenant n : zlen (tenant_id_bytes tenant) = 16 -> 0 < n <= MAX_RECORDS ->
  Gets (decode_block_header P tenant) (TRACE_MAGIC ++ be_bytes 2 TRACE_VERSION ++ tenant_id_bytes tenant ++ be_bytes 2 n) (TRACE_VERSION, n).
Proof.
  intros Ht Hn. eapply gets_skip; [apply gets_of, (limits_for_ok P HP)|]. eapply gets_skip; [apply gets_component|]. eapply gets_bind; [by apply gets_take|].
  rewrite bytes_eqb_refl. cbn [negb]. eapply gets_bind; [apply gets_u16; unfold in_u, u16_max, TRACE_VERSION; lia|]. change (supported_version TRACE_VERSION) with true. cbn [negb].
  eapply gets_bind; [by apply gets_array|]. rewrite bytes_eqb_refl. cbn [negb]. eapply gets_last; [apply gets_count; unfold MAX_RECORDS, u16_max in *; lia|].
  rewrite (proj2 (Z.eqb_neq _ _)) by lia. apply gets_ret.
Qed.

Lemma gets_stored bs t r : stored_ok P r -> span_ingest_time r = t ->
  exists r', stored_span_view r = stored_span_view r' /\ Gets (decode_stored (mkCommittedBlock bs (RetentionComplete t)) TRACE_VERSION P) (stored_layout r) r'.
Proof.
  intros [Hok Hb Hi] <-. destruct (gets_span P HP _ _ Hok Hi Hb) as (o' & Hv & Hg). exists (mkStoredSpan o' (span_ingest_time r)). split; [unfold stored_span_view; cbn; by rewrite Hv|].
  eapply gets_skip; [done|]. eapply gets_last; [exact Hg|]. cbv iota. eapply gets_skip; [apply gets_of|apply gets_ret].
  unfold observe_ingest_time. cbn [block_retention]. by rewrite bool_decide_true.
Qed.

(** Records in a row, each followed by a step that reads nothing. *)
Lemma gets_records bs t l : Forall (fun r => stored_ok P r /\ span_ingest_time r = t) l -> let block := mkCommittedBlock bs (RetentionComplete t) in
  exists l', map stored_span_view l' = map stored_span_view l /\ Gets (cur_gather (length l) (decode_stored block TRACE_VERSION P)) (flat_map stored_layout l) l' /\
    Gets (cur_gather (length l) (r ← decode_stored block TRACE_VERSION P; _ ← in_decoded_record; mret r)) (flat_map stored_layout l) l'.
Proof.
  intros Hl block. induction Hl as [|r l [Hr Ht] _ (l' & Hv & Hg & Hg')]; [by exists []|]. destruct (gets_stored bs t r Hr Ht) as (r' & Hrv & Hrg). exists (r' :: l'). cbn. rewrite Hrv, Hv.
  split; [done|]. split; (eapply gets_bind; [|eapply gets_last; [eassumption|apply gets_ret]]); [exact Hrg|]. eapply gets_last; [exact Hrg|]. done.
Qed.

Lemma decode_after_yields bs t l skip limit : Forall (fun r => stored_ok P r /\ span_ingest_time r = t) l -> 0 <= skip -> 0 <= limit -> let block := mkCommittedBlock bs (RetentionComplete t) in
  exists l', map stored_span_view l' = map stored_span_view (take (Z.to_nat limit) (drop (Z.to_nat skip) l)) /\
    decode_after_with_profile block skip limit TRACE_VERSION (zlen l) P (flat_map stored_layout l) tt = ([], tt, Ok l').
Proof.
  intros Hl Hs Hlim block. set (s := Z.to_nat skip). set (n := Z.to_nat limit). pose proof (zlen_nonneg l) as Hz.
  assert (Hsplit : l = take s l ++ take n (drop s l) ++ drop n (drop s l)) by (by rewrite !take_drop). pose proof Hl as Hl2. rewrite Hsplit in Hl2. apply Forall_app in Hl2 as [H1 [H2 H3]%Forall_app].
  destruct (gets_records bs t _ H1) as (l1 & _ & G1 & _). destruct (gets_records bs t _ H2) as (l2 & Hv & _ & G2). destruct (gets_records bs t _ H3) as (l3 & _ & G3 & _).
  rewrite !length_drop in G3. rewrite length_take, length_drop in G2. rewrite length_take in G1. exists l2. split; [done|]. unfold decode_after_with_profile. cbv zeta. fold block in G1, G2, G3.
  replace (Z.to_nat (Z.min skip (zlen l))) with (s `min` length l)%nat by (unfold zlen; lia).
  replace (Z.to_nat (Z.min (saturating_sub (zlen l) (Z.min skip (zlen l))) limit)) with (n `min` (length l - s))%nat by (unfold zlen, saturating_sub in *; lia).
  replace (Z.to_nat (zlen l - (Z.min skip (zlen l) + Z.min (saturating_sub (zlen l) (Z.min skip (zlen l))) limit))) with (length l - s - n)%nat by (unfold zlen, saturating_sub in *; lia).
  replace (flat_map stored_layout l) with (flat_map stored_layout (take s l) ++ flat_map stored_layout (take n (drop s l)) ++ flat_map stored_layout (drop n (drop s l)))
    by (by rewrite <- !flat_map_app, <- Hsplit). unfold mbind at 1, Cur_bind at 1. rewrite G1. unfold mbind at 1, Cur_bind at 1. unfold reserve_vec. cbn [try_reserve_exact ExactAllocator ok_or].
  unfold mbind at 1, Cur_bind at 1. rewrite G2. unfold mbind at 1, Cur_bind at 1. rewrite <- (app_nil_r (flat_map stored_layout (drop n (drop s l)))), G3. done.
Qed.
End reading.

(** C19 (roundtrip). A block of constructed observations is written exactly when it is not empty and
    its records, each record and the whole block are within their limits, and otherwise refused with
    the limit. Reading the committed block back for its tenant skips [skip] observations and returns
    the next [limit] ones with everything but the capacities of strings and vectors as it was, and
    with the ingest time of the block; the others are decoded and dropped. *)
Theorem trace_block_roundtrip {Lay : Layout} P tenant t rs skip limit :
  profile_ok P -> zlen (tenant_id_bytes tenant) = 16 -> 0 <= skip -> 0 <= limit ->
  Forall (fun r => stored_ok P r /\ span_ingest_time r = t) rs ->
  match snd (encode_block_with_profile P tenant rs tt) with
  | Ok bs => block_fits P tenant rs /\ exists rs',
      decode_trace_block P tenant (mkCommittedBlock bs (RetentionComplete t)) skip limit tt = (tt, Ok rs') /\
      map stored_span_view rs' = map stored_span_view (take (Z.to_nat limit) (drop (Z.to_nat skip) rs))
  | Err e => e = trace_limit_exceeded /\ ~ block_fits P tenant rs
  end.
Proof.
  intros HP Ht Hs Hl Hrs. destruct (block_written P HP tenant rs) as [[Hf ->]|[Hf ->]]; [|cbn [snd]; split; [done|]|done].
  { eapply Forall_impl; [exact Hrs|]. by intros r [? _]. }
  pose proof Hf as [Hne Hc _ _]. remember (block_layout tenant rs) as bs eqn:Hbs. destruct (decode_after_yields P HP bs t rs skip limit Hrs Hs Hl) as (l' & Hv & Hd). exists l'. split; [|done].
  assert (Hn : 0 < zlen rs) by (destruct rs; [done|]; rewrite zlen_cons; pose proof (zlen_nonneg rs); lia).
  assert (Hsplit : bs = (TRACE_MAGIC ++ be_bytes 2 TRACE_VERSION ++ tenant_id_bytes tenant ++ be_bytes 2 (zlen rs)) ++ flat_map stored_layout rs) by (rewrite Hbs; unfold block_layout; by rewrite <- !app_assoc).
  set (block := mkCommittedBlock bs (RetentionComplete t)) in *. unfold decode_trace_block. change (payload block) with bs. rewrite Hsplit. unfold mbind at 1, Cur_bind at 1.
  rewrite (gets_header P HP tenant (zlen rs) Ht ltac:(lia)). cbv beta iota. by rewrite Hd.
Qed.

(** The layout of an observation determines it up to capacities. *)
Lemma layout_determines {Lay : Layout} P o o' : profile_ok P -> span_ok P o -> span_ok P o' -> zlen (span_layout o) <= block_bound ->
  span_layout o = span_layout o' -> span_view o = span_view o'.
Proof.
  intros HP Ho Ho' Hb Heq. assert (Hi : i64_ok 0) by (unfold i64_ok, i64_min, i64_max; lia). pose proof Hb as Hb'. rewrite Heq in Hb'.
  destruct (gets_span P HP o (mkUnixNanoseconds 0) Ho Hi Hb) as (p & -> & Hp). destruct (gets_span P HP o' (mkUnixNanoseconds 0) Ho' Hi Hb') as (p' & -> & Hp').
  specialize (Hp []). rewrite Heq, Hp' in Hp. congruence.
Qed.

(** ** Samples *)

Definition keyed (a b : RString) : AttributeOccurrenceSet := mkOccurrenceSet NsRecord (sample_text "k") [VKeyValueList [(a, VNull); (b, VNull)] 2] 1.
Definition plain_span (attributes : list AttributeOccurrenceSet) : SpanObservation :=
  mkSpanObservation (replicate 16 1) (replicate 8 2) None (sample_text "op") (mkEventTime (Some (mkUnixNanoseconds 5)) Usable None)
    (mkEventTime (Some (mkUnixNanoseconds 9)) Usable None) attributes KindServer Sampled sample_provenance default_details.
Definition sample_stored : list StoredSpanObservation :=
  [mkStoredSpan (plain_span []) sample_time; mkStoredSpan (plain_span [keyed (sample_text "a") (sample_text "b")]) sample_time; mkStoredSpan (plain_span []) sample_time].

Lemma sample_profile_ok : profile_ok value_profile.
Proof. split; [vm_compute; repeat constructor; discriminate|vm_compute; repeat constructor; discriminate|vm_compute; discriminate]. Qed.

Lemma plain_span_ok attributes : Forall (set_ok value_profile) attributes -> is_ok (checked_span (plain_span attributes) value_profile) = true ->
  span_ok value_profile (plain_span attributes).
Proof.
  assert (Ht : forall z, i64_ok z -> EventTime_received (mkUnixNanoseconds z) Usable = Ok (mkEventTime (Some (mkUnixNanoseconds z)) Usable None) ->
    time_ok (mkEventTime (Some (mkUnixNanoseconds z)) Usable None)).
  { intros z Hz He. left. right. exists (mkUnixNanoseconds z), Usable. by split. }
  intros Ha Hc. split; try done.
  - apply Ht; [unfold i64_ok, i64_min, i64_max; lia|done].
  - apply Ht; [unfold i64_ok, i64_min, i64_max; lia|done].
  - split; cbn; [repeat constructor|repeat constructor; unfold in_u, u32_max; lia|constructor|constructor].
  - split; [unfold in_u, u64_max; cbn; lia|done|by repeat apply Forall_cons_2|vm_compute; reflexivity].
Qed.

Lemma keyed_ok a b : utf8_valid (text a) = true -> utf8_valid (text b) = true ->
  is_ok (shape_validate (exact_candidate (VKeyValueList [(a, VNull); (b, VNull)] 2)) system (mkByteLimit 65536) 128) = true -> set_ok value_profile (keyed a b).
Proof.
  intros Ha Hb Hs. split; [done|done|]. apply Forall_cons_2; [|constructor]. split.
  - cbn. split_and!; done.
  - destruct (shape_validate _ _ _ _) as [n|] eqn:H; [by exists n|done].
Qed.

Lemma sample_stored_ok : Forall (fun r => stored_ok value_profile r /\ span_ingest_time r = sample_time) sample_stored.
Proof.
  assert (H : forall a, Forall (set_ok value_profile) a -> is_ok (checked_span (plain_span a) value_profile) = true -> zlen (span_layout (plain_span a)) <= block_bound ->
    stored_ok value_profile (mkStoredSpan (plain_span a) sample_time)).
  { intros a Ha Hc Hb. split; [by apply plain_span_ok|done|]. cbn. unfold i64_ok, i64_min, i64_max. lia. }
  repeat apply Forall_cons_2; [..|constructor]; (split; [apply H|done]); try (vm_compute; reflexivity); try (vm_compute; discriminate); try constructor; [|constructor].
  apply keyed_ok; [done|done|vm_compute; reflexivity].
Qed.

(** What is read back of a sample block after its first observation. *)
Lemma trace_block_roundtrip_witness : is_ok (snd (encode_block_with_profile value_profile sample_tenant sample_stored tt)) = true /\
  match snd (encode_block_with_profile value_profile sample_tenant sample_stored tt) with
  | Ok bs => block_fits value_profile sample_tenant sample_stored /\ exists rs',
      decode_trace_block (Lay := sample_layout) value_profile sample_tenant (mkCommittedBlock bs (RetentionComplete sample_time)) 1 1 tt = (tt, Ok rs') /\
      map stored_span_view rs' = map stored_span_view (take 1 (drop 1 sample_stored))
  | Err e => e = trace_limit_exceeded /\ ~ block_fits value_profile sample_tenant sample_stored
  end.
Proof.
  split; [vm_compute; reflexivity|]. apply (@trace_block_roundtrip sample_layout value_profile sample_tenant sample_time sample_stored 1 1 sample_profile_ok); [reflexivity|lia|lia|exact sample_stored_ok].
Defined.

(** ** The preflight *)

(** Limits of a tenant that narrow the bytes of one value below those of one key. *)
Definition tenant_set : ValueLimitSet :=
  let maximum := system_limits release_1_system_maximum in
  mkValueLimitSet (request maximum) (record maximum)
    (mkDynamicValueLimits (mkByteLimit 64) (mkCollectionLimit 1024) (mkByteLimit 65536) (mkNestingLimit 128) (mkCollectionLimit 1024) (mkCollectionLimit 1024)).
Definition tenant_profile : ValueLimitProfile := mkValueLimitProfile (system_limits release_1_system_maximum) (Some tenant_set).
Definition long_key : RString := mkRString (replicate 40 97) 40.
Definition keyed_span : StoredSpanObservation := mkStoredSpan (plain_span [keyed long_key long_key]) sample_time.
Definition keyed_block : bytes := match snd (encode_block_with_profile tenant_profile sample_tenant [keyed_span] tt) with Ok bs => bs | Err _ => [] end.

(** Also (error). The preflight of a scan counts the keys of a key-value list against the limit of one
    value, which neither validation nor decoding does: an observation that is accepted, encoded and
    decoded makes its block malformed for every scan, here under a tenant profile of 64 bytes for one value. *)
Theorem keyed_value_is_unreadable :
  ValueLimitProfileCandidate_validate (mkValueLimitProfileCandidate (system_limits release_1_system_maximum) (Some tenant_set)) = Ok tenant_profile /\
  candidate_validate (Lay := sample_layout) (mkOccurrenceCandidate NsRecord (sample_text "k") [CKeyValueList [(long_key, CNull); (long_key, CNull)]]) tenant_profile tt
    = (tt, Ok (keyed long_key long_key)) /\
  is_ok (checked_span (stored_observation keyed_span) tenant_profile) = true /\
  encode_block_with_profile tenant_profile sample_tenant [keyed_span] tt = (tt, Ok keyed_block) /\
  is_ok (snd (decode_trace_block (Lay := sample_layout) tenant_profile sample_tenant (mkCommittedBlock keyed_block (RetentionComplete sample_time)) 0 1 tt)) = true /\
  decoded_memory_bound_with_profile tenant_profile sample_tenant keyed_block tt = (tt, Err trace_malformed).
Proof. vm_compute. split_and!; reflexivity. Qed.
