(* ===== verification/TraceKeys.v ===== *)
(** Trace store: semantic keys, and consolidation of scanned observations.

    Models the first half of [positron-signals/src/trace_store/consolidation/entries.rs]: the sizes
    of the semantic keys are computed before anything is allocated, then the keys are encoded. With
    the trace codec this makes consolidation a function of the scanned observations alone: two
    observations share a variant exactly when they mean the same. *)

From Stdlib Require Import Ascii String Sorted.
From S2P Require Import Prelude Outcome Identity Limits Routing SourceTime Values Observe Traversal Validation Shape CanonicalEncoding Occurrences PolicyModel PolicyCodec PolicyEvaluation RetentionTime LogStore LogCodec LogReads ValueLayout LogRoundtrip LogBlocks TraceModel TraceHeap TraceCycles TraceResults TraceRelationships TraceAggregate TraceConsolidation TraceMerge TraceViews TraceCodec TraceDecode TraceWrites TraceReads TraceSpans TraceSize TraceRoundtrip.

Section keys.
Context {S : Type} {Alloc : Allocator S} {Env : ScanEnvironment S}.

(** [positron-signals/src/trace_store/consolidation/entries.rs:17-46 observed_semantic_key_sizes] The
    sizes and their sum. *)
Definition observed_semantic_key_sizes (profile : ValueLimitProfile) (observations : list ScannedSpanObservation) : Tr S (list Z * Z) :=
  _ ← reserve (length observations);
  tr_for observations (fun '(values, total_bytes) o =>
    _ ← observe_consolidation_unit;
    encoded ← encoded_record_bytes_with_profile_observed profile (scanned_observation o);
    semantic ← tr_of (ok_or trace_invalid_input (checked_sub encoded 8));
    total_bytes ← tr_of (ok_or trace_limit_exceeded (checked_add u64_max total_bytes semantic));
    mret (values ++ [semantic], total_bytes)) ([], 0).

(** [positron-signals/src/trace_store/consolidation/entries.rs:48-75 entries_with_semantic_keys] *)
Definition entries_with_semantic_keys (profile : ValueLimitProfile) (observations : list ScannedSpanObservation) (sizes : list Z) : Tr S (list ConsolidationEntry) :=
  if negb (length observations =? length sizes)%nat then tr_fail trace_invalid_input else
  _ ← reserve (length observations);
  tr_for (zip observations sizes) (fun entries '(o, expected) =>
    _ ← observe_consolidation_unit;
    key ← encode_semantic_observation_with_profile_observed profile (scanned_observation o) expected;
    mret (entries ++ [mkConsolidationEntry o key])) [].

(** [positron-signals/src/trace_store/consolidation.rs:243-253 consolidate!] From the observations to
    the logical spans, without the capacity that the caller holds. *)
Definition consolidated_spans (profile : ValueLimitProfile) (observations : list ScannedSpanObservation) : Tr S (list LogicalSpan) :=
  '(sizes, _) ← observed_semantic_key_sizes profile observations;
  entries ← entries_with_semantic_keys profile observations sizes;
  consolidate_entries entries.
End keys.

(** ** Layouts depend on views only *)

Lemma kind_native v v' : validated_native v = validated_native v' -> kind v = kind v'.
Proof. revert v'. induction v; intros [] H; cbn in H; try done; cbn; injection H; intros; subst; eauto. Qed.

Lemma flat_map_view {A B} (f : A -> B) (g : A -> bytes) l l' : map f l = map f l' -> (forall a a', a ∈ l -> f a = f a' -> g a = g a') -> flat_map g l = flat_map g l'.
Proof.
  intros Hm%map_eq_Forall2 Hg. induction Hm as [|a a' l l' Ha _ IH]; [done|]. cbn. f_equal; [by apply Hg; [apply list_elem_of_here|]|]. apply IH. intros b b' Hb. apply Hg. by apply list_elem_of_further.
Qed.

Lemma zlen_view {A B} (f : A -> B) l l' : map f l = map f l' -> zlen l = zlen l'.
Proof. intros H. by rewrite <- (zlen_map f l), H, zlen_map. Qed.

Lemma layout_native v : forall v', validated_native v = validated_native v' -> value_layout v = value_layout v'.
Proof.
  induction v as [|b|z|z|p|p|vs cap IH|es cap IH|m|v a IH] using validated_ind'; intros v' H; destruct v' as [|b'|z'|z'|p'|p'|vs' cap'|es' cap'|m'|v' a']; try discriminate H; cbn [validated_native] in H; cbn [value_layout].
  - done.
  - injection H; intros; by subst.
  - injection H; intros; by subst.
  - injection H; intros; by subst.
  - injection H as H. by rewrite H.
  - injection H as H. by rewrite H.
  - assert (Hm : map validated_native vs = map validated_native vs') by congruence. rewrite (zlen_view _ _ _ Hm). do 2 f_equal. apply (flat_map_view validated_native); [done|].
    rewrite Forall_forall in IH. intros a a' Ha. by apply IH.
  - match type of H with NKeyValueList (map ?f es) = _ => assert (Hm : map f es = map f es') by congruence end. rewrite (zlen_view _ _ _ Hm). do 2 f_equal. eapply flat_map_view; [exact Hm|].
    rewrite Forall_forall in IH. intros [k a] [k' a'] Ha Heq. assert (text k = text k') by congruence. assert (Hv : validated_native a = validated_native a') by congruence. f_equal; [congruence|]. by apply (IH _ Ha).
  - injection H; intros; by subst.
  - assert (Hv : validated_native v = validated_native v') by congruence. assert (a = a') by congruence. subst a'. rewrite (kind_native _ _ Hv), (IH _ Hv). done.
Qed.

Lemma occurrences_layout_view a a' : set_view a = set_view a' -> occurrences_layout a = occurrences_layout a'.
Proof.
  intros H. destruct (view_parts _ _ H) as (_ & Hk & Hn & _). unfold occurrences_layout. rewrite Hk, Hn. do 2 f_equal. apply (flat_map_view validated_native); [unfold set_view in H; congruence|].
  intros v v' _. apply layout_native.
Qed.

Lemma detail_attributes_view l l' : map detail_view l = map detail_view l' -> details_attributes_layout l = details_attributes_layout l'.
Proof.
  intros H. unfold details_attributes_layout. rewrite (zlen_view _ _ _ H). f_equal. eapply flat_map_view; [exact H|]. intros a a' _. apply occurrences_layout_view.
Qed.

Lemma event_layout_view e e' : event_view e = event_view e' -> event_layout e = event_layout e'.
Proof.
  intros H. unfold event_view in H. unfold event_layout. assert (Ha : map detail_view (event_attributes e) = map detail_view (event_attributes e')) by congruence.
  rewrite (detail_attributes_view _ _ Ha). congruence.
Qed.

Lemma link_layout_view l l' : link_view l = link_view l' -> link_layout l = link_layout l'.
Proof.
  intros H. unfold link_view in H. unfold link_layout. assert (Ha : map detail_view (link_attributes l) = map detail_view (link_attributes l')) by congruence.
  rewrite (detail_attributes_view _ _ Ha). congruence.
Qed.

Lemma details_layout_view d d' : details_view d = details_view d' -> details_layout d = details_layout d'.
Proof.
  intros H. unfold details_view in H. assert (He : map event_view (events d) = map event_view (events d')) by congruence. assert (Hl : map link_view (links d) = map link_view (links d')) by congruence.
  assert (Hfe : flat_map event_layout (events d) = flat_map event_layout (events d')) by (eapply flat_map_view; [exact He|]; intros a a' _; apply event_layout_view).
  assert (Hfl : flat_map link_layout (links d) = flat_map link_layout (links d')) by (eapply flat_map_view; [exact Hl|]; intros a a' _; apply link_layout_view).
  unfold details_layout. rewrite Hfe, Hfl, (zlen_view _ _ _ He), (zlen_view _ _ _ Hl). injection H. intros. congruence.
Qed.

Lemma span_layout_view o o' : span_view o = span_view o' -> span_layout o = span_layout o'.
Proof.
  intros H. unfold span_view in H. assert (Ha : map set_view (so_attributes o) = map set_view (so_attributes o')) by congruence.
  assert (Hd : details_view (so_details o) = details_view (so_details o')) by congruence. assert (Hp : provenance_view (so_policy o) = provenance_view (so_policy o')) by congruence.
  unfold span_layout. rewrite (details_layout_view _ _ Hd), (zlen_view _ _ _ Ha).
  replace (provenance_layout (so_policy o)) with (provenance_layout (so_policy o')).
  2: { unfold provenance_view in Hp. unfold provenance_layout. assert (Hr : map text (applied_rules (so_policy o)) = map text (applied_rules (so_policy o'))) by congruence.
    rewrite (zlen_view _ _ _ Hr). assert (Hf : flat_map (fun rule => text_layout (text rule)) (applied_rules (so_policy o)) = flat_map (fun rule => text_layout (text rule)) (applied_rules (so_policy o'))).
    { eapply flat_map_view; [exact Hr|]. intros r r' _. congruence. }
    congruence. }
  assert (Hfa : flat_map attribute_layout (so_attributes o) = flat_map attribute_layout (so_attributes o')).
  { eapply flat_map_view; [exact Ha|]. intros a a' _ Hs. unfold attribute_layout. rewrite (occurrences_layout_view _ _ Hs). unfold set_view in Hs. congruence. }
  rewrite Hfa. congruence.
Qed.

(** ** Keys *)

Section consolidation.
Context {S : Type} {Alloc : Allocator S} {Env : ScanEnvironment S} {Cap : QueryCapacity S} {Lay : Layout}.
Context (Intr : TraceStoreFailure -> Prop) {HI : Interrupts S Intr} (P : ValueLimitProfile) (HP : profile_ok P).

(** An observation that was decoded under the profile. *)
Definition scanned_ok (o : ScannedSpanObservation) : Prop :=
  span_ok P (scanned_observation o) /\ zlen (span_layout (scanned_observation o)) + 8 <= tl_encoded_bytes (trace_limits P).

Definition key_of (o : ScannedSpanObservation) : bytes := span_layout (scanned_observation o).
Definition entry_of (o : ScannedSpanObservation) : ConsolidationEntry := mkConsolidationEntry o (key_of o).

Lemma key_small o : scanned_ok o -> zlen (key_of o) <= 1048576.
Proof. intros [_ Hb]. pose proof (profile_small P HP) as [_ _ _ _ _ _ _ He _]. unfold key_of. lia. Qed.

Lemma sizes_yield l : Forall scanned_ok l -> zlen l * 1048576 <= u64_max ->
  yields Intr (observed_semantic_key_sizes P l) (fun r => fst r = map (fun o => zlen (key_of o)) l).
Proof.
  intros Hl Hmax. unfold observed_semantic_key_sizes. env_step.
  eapply yields_mono; [apply (yields_for _ _ _ (fun pre r => fst r = map (fun o => zlen (key_of o)) pre /\ 0 <= snd r <= zlen pre * 1048576))|by intros r [? _]].
  - split; [done|]. unfold zlen. cbn. lia.
  - intros pre o post [values total] Hsplit [Hv Ht]. cbn [fst snd] in *. assert (Ho : scanned_ok o) by (rewrite Forall_forall in Hl; apply Hl; rewrite Hsplit; apply elem_of_app; right; apply list_elem_of_here).
    pose proof (key_small o Ho) as Hk. pose proof (zlen_nonneg (key_of o)). assert (Hz : zlen pre + 1 <= zlen l) by (rewrite Hsplit, zlen_app, zlen_cons; pose proof (zlen_nonneg post); lia).
    eapply tr_yields_bind; [apply (unit_interrupts Intr)|intros _ _]. unfold encoded_record_bytes_with_profile_observed.
    eapply tr_yields_bind; [eapply yields_step; [apply (limits_for_ok P HP)|]; apply (@record_size _ _ Intr (observed_refusals Intr) P HP _ _ (proj1 Ho) (proj2 Ho))|]. intros n ->.
    eapply yields_step; [rewrite checked_sub_ok by (unfold key_of in *; lia); reflexivity|]. cbv beta. eapply yields_step; [rewrite checked_add_ok by (unfold key_of in *; lia); reflexivity|]. cbv beta.
    apply tr_yields_ret. cbn [fst snd]. rewrite map_app, Hv. split; [cbn; do 2 f_equal; unfold key_of; lia|]. rewrite zlen_app. change (zlen [o]) with 1. unfold key_of in *. lia.
Qed.

Lemma keyed_entries_yield l : Forall scanned_ok l -> yields Intr (entries_with_semantic_keys P l (map (fun o => zlen (key_of o)) l)) (fun es => es = map entry_of l).
Proof.
  intros Hl. unfold entries_with_semantic_keys. rewrite length_map, Nat.eqb_refl. cbn [negb]. env_step.
  eapply yields_mono; [apply (yields_for _ _ _ (fun pre es => es = map (fun x => entry_of (fst x)) pre))|].
  - done.
  - intros pre [o expected] post es Hsplit ->. assert (Ho : scanned_ok o /\ expected = zlen (key_of o)).
    { assert (Hin : (o, expected) ∈ zip l (map (fun o => zlen (key_of o)) l)) by (rewrite Hsplit; apply elem_of_app; right; apply list_elem_of_here).
      rewrite Forall_forall in Hl. apply list_elem_of_lookup in Hin as [i Hi]. apply lookup_zip_Some in Hi as [Hi He]. rewrite list_lookup_fmap, Hi in He.
      injection He as <-. split; [apply Hl; by eapply list_elem_of_lookup_2|done]. }
    destruct Ho as [Ho ->]. eapply tr_yields_bind; [apply (unit_interrupts Intr)|intros _ _].
    eapply tr_yields_bind; [apply (semantic_key_yields Intr P); [done|apply Ho|pose proof (key_small o Ho); unfold key_of, TRACE_MAX_BLOCK_BYTES in *; lia]|].
    intros key ->. apply tr_yields_ret. by rewrite map_app.
  - intros es ->. rewrite <- (map_map fst entry_of). f_equal. clear Hl. induction l as [|o l IH]; [done|]. cbn. by rewrite IH.
Qed.

(** ** Meaning *)

Definition observed_identity (o : ScannedSpanObservation) : bytes * bytes := (so_trace_id (scanned_observation o), so_span_id (scanned_observation o)).
Definition meaning (o : ScannedSpanObservation) := span_view (scanned_observation o).

Lemma key_meaning o o' : scanned_ok o -> scanned_ok o' -> key_of o = key_of o' <-> meaning o = meaning o'.
Proof.
  intros Ho Ho'. split; [|apply span_layout_view]. pose proof (key_small o Ho). apply (layout_determines P); [done|apply Ho|apply Ho'|unfold key_of, block_bound in *; lia].
Qed.

Lemma meaning_identity o o' : meaning o = meaning o' -> observed_identity o = observed_identity o'.
Proof. unfold meaning, span_view, observed_identity. congruence. Qed.

(** A logical span that sums up the observations of its identity in [l]. *)
Record sums_up (l : list ScannedSpanObservation) (s : LogicalSpan) : Prop := {
  sm_count : ls_observation_count s = zlen (filter (fun o => observed_identity o = span_identity s) l);
  sm_variants : Forall (fun v => variant_observation v ∈ l /\ observed_identity (variant_observation v) = span_identity s /\
    variant_count v = zlen (filter (fun o => key_of o = key_of (variant_observation v)) l)) (variants s);
  sm_distinct : NoDup (map (fun v => meaning (variant_observation v)) (variants s));
  sm_complete : forall o, o ∈ l -> observed_identity o = span_identity s -> exists v, v ∈ variants s /\ meaning o = meaning (variant_observation v);
  sm_first : exists o, o ∈ l /\ structural_representative s = Some o /\
    forall o', o' ∈ l -> observed_identity o' = span_identity s -> physical_order o o' <> Gt;
}.

Lemma entries_filter (p : ConsolidationEntry -> Prop) `{forall e, Decision (p e)} l : filter p (map entry_of l) = map entry_of (filter (fun o => p (entry_of o)) l).
Proof. induction l as [|o l IH]; [done|]. cbn [map]. rewrite !filter_cons. destruct (decide (p (entry_of o))); cbn; by rewrite IH. Qed.

Lemma filter_length_perm {A} (p : A -> Prop) `{forall a, Decision (p a)} l l' : l ≡ₚ l' -> zlen (filter p l) = zlen (filter p l').
Proof. intros Hp. unfold zlen. by rewrite Hp. Qed.

Lemma filter_agree {A} (p q : A -> Prop) `{forall a, Decision (p a)} `{forall a, Decision (q a)} (l : list A) : (forall a, a ∈ l -> p a <-> q a) -> filter p l = filter q l.
Proof.
  induction l as [|a l IH]; intros Hpq; [done|]. rewrite !filter_cons, IH by (intros b Hb; apply Hpq; by apply list_elem_of_further).
  pose proof (Hpq a (list_elem_of_here _ _)). destruct (decide (p a)), (decide (q a)); tauto.
Qed.

(** The summary of entries, read as a summary of observations. *)
Lemma summary_means l es s : Forall scanned_ok l -> es ≡ₚ map entry_of l -> StronglySorted le es -> summarises es s -> sums_up l s.
Proof.
  intros Hl Hp Hs [Hc Hv (e & He & Hr & Hf)]. rewrite Forall_forall in Hl. set (i := span_identity s) in *.
  assert (Hin : forall e, e ∈ of_identity i es -> exists o, e = entry_of o /\ o ∈ l /\ observed_identity o = i).
  { intros x [Hx Hin]%list_elem_of_filter. rewrite Hp in Hin. apply list_elem_of_fmap in Hin as (o & -> & Ho). by exists o. }
  assert (Hout : forall o, o ∈ l -> observed_identity o = i -> entry_of o ∈ of_identity i es).
  { intros o Ho Hi. apply list_elem_of_filter. split; [done|]. rewrite Hp. apply list_elem_of_fmap. by exists o. }
  assert (Hhead : forall k v, variant_ok (of_identity i es) k v -> variant_observation v ∈ l /\ observed_identity (variant_observation v) = i /\ key_of (variant_observation v) = k).
  { intros k v [_ Hh]. destruct (of_variant k (of_identity i es)) as [|x rest] eqn:Hx; [done|]. cbn in Hh. assert (Hxin : x ∈ of_variant k (of_identity i es)) by (rewrite Hx; apply list_elem_of_here).
    apply list_elem_of_filter in Hxin as [Hk Hxin]. apply Hin in Hxin as (o & -> & Ho & Hi). cbn in Hh, Hk. injection Hh as <-. done. }
  pose proof (group_keys_sorted i _ Hs) as Hks. destruct (runs_sorted_strict _ order_bytes _ Hks) as [_ Hnd]. split.
  - rewrite Hc. unfold of_identity. rewrite (filter_length_perm _ _ _ Hp), entries_filter. unfold zlen. by rewrite length_map.
  - apply Forall_forall. intros v Hvin. apply list_elem_of_lookup in Hvin as [j Hj]. destruct (Forall2_lookup_r _ _ _ _ _ Hv Hj) as (k & _ & Hk). destruct (Hhead _ _ Hk) as (Ho & Hi & Hkey).
    split; [done|]. split; [done|]. destruct Hk as [-> _]. unfold of_variant, of_identity. rewrite list_filter_filter, (filter_length_perm _ _ _ Hp), entries_filter. unfold zlen. rewrite length_map.
    do 2 f_equal. apply filter_agree. intros o Hol. unfold identity_of_entry, entry_span. cbn [entry_observation semantic_key entry_of]. rewrite Hkey. split; [tauto|]. intros Hok. split; [done|].
    transitivity (observed_identity (variant_observation v)); [|done]. apply meaning_identity, key_meaning; [by apply Hl|by apply Hl|congruence].
  - assert (Hkeys : map (fun v => key_of (variant_observation v)) (variants s) = runs (semantic_key <$> of_identity i es)).
    { clear Hnd Hks. revert Hv. generalize (runs (semantic_key <$> of_identity i es)). generalize (variants s). intros vs ks Hv. induction Hv as [|k v ks vs Hk _ IH]; [done|]. cbn.
      destruct (Hhead _ _ Hk) as (_ & _ & ->). by rewrite IH. }
    rewrite <- Hkeys in Hnd. assert (Hvl : forall v, v ∈ variants s -> scanned_ok (variant_observation v)).
    { intros v Hvin. apply list_elem_of_lookup in Hvin as [j Hj]. destruct (Forall2_lookup_r _ _ _ _ _ Hv Hj) as (k & _ & Hk). apply Hl. by destruct (Hhead _ _ Hk). }
    clear -Lay Hnd Hvl HP. induction (variants s) as [|v vs IH]; [constructor|]. cbn in *. apply NoDup_cons in Hnd as [Hni Hnd]. constructor.
    + intros Hm. apply Hni. apply list_elem_of_fmap in Hm as (w & Hw & Hwin). apply list_elem_of_fmap. exists w. split; [|done].
      apply key_meaning; [apply Hvl, list_elem_of_here|apply Hvl; by apply list_elem_of_further|done].
    + apply IH; [done|]. intros w Hw. apply Hvl. by apply list_elem_of_further.
  - intros o Ho Hi. pose proof (Hout o Ho Hi) as Hoe. assert (Hk : key_of o ∈ runs (semantic_key <$> of_identity i es)) by (rewrite elem_runs; apply list_elem_of_fmap; by exists (entry_of o)).
    apply list_elem_of_lookup in Hk as [j Hj]. destruct (Forall2_lookup_l _ _ _ _ _ Hv Hj) as (v & Hvj & Hvo). destruct (Hhead _ _ Hvo) as (Hvl & _ & Hvk).
    exists v. split; [by eapply list_elem_of_lookup_2|]. apply key_meaning; [by apply Hl|by apply Hl|done].
  - destruct (Hin _ He) as (o & -> & Ho & Hi). exists o. split; [done|]. split; [exact Hr|]. intros o' Ho' Hi'. exact (Hf _ (Hout o' Ho' Hi')).
Qed.

(** C17 (functional). Consolidation of scanned observations in any order groups them by meaning: there
    is one logical span for every trace and span identity, in increasing order; it counts all its
    observations; it has one variant for every distinct meaning, that is everything but capacities,
    with the number of observations that have it; its structural representative is the observation
    that was committed first. The spans fall into traces as the structural analysis and the
    aggregation require them. It fails only with a failure of its environment. *)
Theorem consolidation_groups_by_meaning l : Forall scanned_ok l -> zlen l * 1048576 <= u64_max ->
  yields Intr (consolidated_spans P l) (fun spans =>
    increasing_spans spans /\ Forall (sums_up l) spans /\ (forall o, o ∈ l -> observed_identity o ∈ (span_identity <$> spans)) /\
    (forall o o', o ∈ l -> o' ∈ l -> key_of o = key_of o' <-> meaning o = meaning o') /\
    concat (traces_of spans) = spans /\ traces_ok (traces_of spans)).
Proof.
  intros Hl Hmax. unfold consolidated_spans. eapply tr_yields_bind; [by apply sizes_yield|]. intros [sizes total] Hsz. cbn [fst] in Hsz. subst sizes.
  eapply tr_yields_bind; [by apply keyed_entries_yield|]. intros es ->. eapply yields_mono; [apply (entries_consolidated Intr)|].
  - apply Forall_fmap, (Forall_impl scanned_ok); [done|]. intros o Ho. pose proof (key_small o Ho). unfold compose, key_ok, SEMANTIC_KEY_WORK_CHUNK_BYTES, usize_max. cbn [semantic_key entry_of]. lia.
  - rewrite zlen_map. unfold u64_max, usize_max in *. lia.
  - intros spans ((es & Hp & Hs & Hids & Hsum) & Hinc & Hcc & Hok). split; [done|]. split; [|split; [|split; [|by split]]].
    + eapply Forall_impl; [exact Hsum|]. intros s. by apply (summary_means l es).
    + intros o Ho. rewrite Hids, elem_runs. apply list_elem_of_fmap. exists (entry_of o). split; [done|]. rewrite Hp. apply list_elem_of_fmap. by exists o.
    + intros o o' Ho Ho'. rewrite Forall_forall in Hl. apply key_meaning; by apply Hl.
Qed.
End consolidation.

(** ** An example *)

Definition sample_scan : list ScannedSpanObservation :=
  zip_with (fun r n => mkScannedSpan r (mkCommitPosition n) (mkRecordOrdinal 0)) sample_stored [7; 3; 4].

Lemma sample_scan_ok : Forall (scanned_ok value_profile) sample_scan.
Proof.
  pose proof sample_stored_ok as H. repeat (apply Forall_cons in H as [[[? _ _] _] H]).
  repeat apply Forall_cons_2; [..|constructor]; (split; [assumption|vm_compute; discriminate]).
Qed.

Abbreviation run_scan l := (@consolidated_spans unit ExactAllocator (QuietEnvironment unit) value_profile l tt).

(** One span of three observations with two meanings; the variant committed first represents it. *)
Example sample_scan_spans : match snd (run_scan sample_scan) with Ok spans => map span_overview spans | Err _ => [] end
  = [(replicate 8 2, 3, [(4, 2); (3, 1)], 1%nat)].
Proof. vm_compute. reflexivity. Qed.

Lemma consolidation_groups_by_meaning_witness : exists spans, snd (run_scan sample_scan) = Ok spans /\ increasing_spans spans /\ Forall (sums_up sample_scan) spans.
Proof.
  pose proof (@consolidation_groups_by_meaning unit ExactAllocator (QuietEnvironment unit) (AmpleCapacity unit) sample_layout (fun _ => False) quiet_interrupts value_profile sample_profile_ok
    sample_scan sample_scan_ok ltac:(vm_compute; discriminate)) as H.
  destruct (quiet_result _ _ H) as (spans & Hrun & Hinc & Hsum & _). exists spans. split; [exact Hrun|]. split; [exact Hinc|exact Hsum].
Defined.
