(* ===== verification/LedgerFrame.v ===== *)
(** Data protection: authenticated frames.

    Models [positron-kernel/src/data_protection]: [context.rs] (what a frame is bound to), [codec.rs]
    (the layout of a frame), [frame.rs] (failures) and the frame operations of [service.rs]. AES-GCM,
    SHA-256 and HMAC come from third-party crates and are the operations of [CryptoBackend]; what
    the kernel relies on is [CryptoLaws]. A frame that was protected opens to its plaintext, and only
    under its own sequence. *)

From Stdlib Require Import Ascii String.
From S2P Require Import Prelude Outcome Identity Routing.

(** ** Failures *)

(** [positron-kernel/src/data_protection/frame.rs:47-73 FrameFailureCode] *)
Inductive FrameFailureCode :=
  | FrameInvalidContext | FrameInvalidLimit | FrameLimitExceeded | FrameSealFailed | FrameHashFailed | FrameOpenFailed | FrameAuthenticationFailed
  | FrameMalformed | FrameUnsupportedVersion | FrameUnsupportedAlgorithm | FrameChecksumMismatch | FrameEntropyUnavailable.

#[global] Instance FrameFailureCode_eq_dec : EqDecision FrameFailureCode.
Proof. solve_decision. Defined.

(** ** Contexts *)

(** [positron-kernel/src/data_protection/context.rs:64-76 SegmentFramePurpose] *)
Inductive SegmentFramePurpose := PurposeStoreBlock | PurposeIndex | PurposeStatistics | PurposeSegmentMetadata | PurposeDurabilityFrontier.

(** [positron-kernel/src/data_protection/context.rs:79-87 SegmentFramePurpose::tag] *)
Definition segment_purpose_tag (p : SegmentFramePurpose) : Z :=
  match p with PurposeStoreBlock => 1 | PurposeIndex => 2 | PurposeStatistics => 3 | PurposeSegmentMetadata => 4 | PurposeDurabilityFrontier => 5 end.

(** [positron-kernel/src/data_protection/context.rs:91-105 SystemObjectKind] *)
Inductive SystemObjectKind := ObjInstanceBootstrap | ObjCatalog | ObjManifest | ObjGovernanceAudit | ObjBackupMetadata | ObjExportOutput.

(** [positron-kernel/src/data_protection/context.rs:108-117 SystemObjectKind::class_tag] *)
Definition system_class_tag (k : SystemObjectKind) : Z :=
  match k with ObjCatalog => 2 | ObjManifest => 3 | ObjGovernanceAudit => 4 | ObjBackupMetadata => 5 | ObjInstanceBootstrap => 6 | ObjExportOutput => 7 end.

(** [positron-kernel/src/data_protection/context.rs:119-128 SystemObjectKind::purpose_tag] *)
Definition system_purpose_tag (k : SystemObjectKind) : Z :=
  match k with ObjCatalog => 5 | ObjManifest => 6 | ObjGovernanceAudit => 7 | ObjBackupMetadata => 8 | ObjInstanceBootstrap => 9 | ObjExportOutput => 10 end.

(** [positron-kernel/src/data_protection/context.rs:131-135 FrameScope] *)
Inductive FrameScope := ScopeTenant (t : TenantId) | ScopeSystem.
(** [positron-kernel/src/data_protection/context.rs:137-144 FrameObjectClass] *)
Inductive FrameObjectClass := ClassSegment (signal : SignalKind) (shard : VirtualShardId) | ClassSystem (kind : SystemObjectKind).
(** [positron-kernel/src/data_protection/context.rs:146-150 FramePurpose] *)
Inductive FramePurpose := SegmentPurpose (p : SegmentFramePurpose) | SystemPurpose (k : SystemObjectKind).

(** [positron-kernel/src/data_protection/context.rs:153-158 FramePurpose::tag] *)
Definition frame_purpose_tag (p : FramePurpose) : Z :=
  match p with SegmentPurpose p => segment_purpose_tag p | SystemPurpose k => system_purpose_tag k end.

(** [positron-kernel/src/data_protection/context.rs:162-169 FrameObjectContext] *)
Record FrameObjectContext := mkFrameObject {
  fo_scope : FrameScope;
  fo_class : FrameObjectClass;
  fo_object_id : bytes;
  fo_key_epoch : Z;
  fo_format_epoch : Z;
}.

#[global] Instance SystemObjectKind_eq_dec : EqDecision SystemObjectKind.
Proof. solve_decision. Defined.
#[global] Instance FrameScope_eq_dec : EqDecision FrameScope.
Proof. solve_decision. Defined.
#[global] Instance FrameObjectClass_eq_dec : EqDecision FrameObjectClass.
Proof. solve_decision. Defined.
#[global] Instance FrameObjectContext_eq_dec : EqDecision FrameObjectContext.
Proof. solve_decision. Defined.

(** [positron-kernel/src/data_protection/context.rs:272-277 FrameContext] *)
Record FrameContext := mkFrameContext { fc_object : FrameObjectContext; fc_purpose : FramePurpose; fc_sequence : Z }.

(** [positron-kernel/src/data_protection/context.rs:12-18 FrameObjectId::new] *)
Definition FrameObjectId_new (b : bytes) : result FrameFailureCode bytes :=
  if forallb (fun byte => byte =? 0) b then Err FrameInvalidContext else Ok b.

(** [positron-kernel/src/data_protection/context.rs:39-45 FormatEpoch::new] *)
Definition FormatEpoch_new (value : Z) : result FrameFailureCode Z := if value =? 0 then Err FrameInvalidContext else Ok value.

(** [positron-kernel/src/data_protection/context.rs:209-222 FrameObjectContext::frame] *)
Definition segment_frame (object : FrameObjectContext) (purpose : SegmentFramePurpose) (sequence : Z) : result FrameFailureCode FrameContext :=
  match fo_class object with
  | ClassSegment _ _ => Ok (mkFrameContext object (SegmentPurpose purpose) sequence)
  | ClassSystem _ => Err FrameInvalidContext
  end.

(** [positron-kernel/src/data_protection/context.rs:225-236 FrameObjectContext::system_frame] *)
Definition system_frame (object : FrameObjectContext) (sequence : Z) : result FrameFailureCode FrameContext :=
  match fo_class object with
  | ClassSystem kind => Ok (mkFrameContext object (SystemPurpose kind) sequence)
  | ClassSegment _ _ => Err FrameInvalidContext
  end.

Definition signal_number (s : SignalKind) : Z := match s with Logs => 1 | Traces => 2 end.

(** [positron-kernel/src/data_protection/context.rs:238-268 FrameObjectContext::encode] *)
Definition encode_object (o : FrameObjectContext) (purpose : FramePurpose) : bytes :=
  match fo_scope o with ScopeTenant t => 1 :: tenant_id_bytes t | ScopeSystem => 2 :: replicate 16 0 end
  ++ match fo_class o with
     | ClassSegment signal shard => [1; signal_number signal] ++ be_bytes 4 (shard_value shard)
     | ClassSystem kind => [system_class_tag kind; 0] ++ be_bytes 4 0
     end
  ++ fo_object_id o ++ be_bytes 8 (fo_key_epoch o) ++ be_bytes 4 (fo_format_epoch o) ++ [frame_purpose_tag purpose].

(** [positron-kernel/src/data_protection/context.rs:287-293 FrameLimits::new] The limit itself. *)
Definition FrameLimits_new (max_encoded_bytes : Z) : result FrameFailureCode Z :=
  if max_encoded_bytes <? 68 then Err FrameInvalidLimit else Ok max_encoded_bytes.

(** ** Layout *)

(** [positron-kernel/src/data_protection/mod.rs:63-70 FRAME_MAGIC!] *)
Definition FRAME_MAGIC : bytes := bytes_of_string "PFRM".
Definition FRAME_VERSION : Z := 1.
Definition AES_256_GCM_ALGORITHM : Z := 1.
Definition AES_256_GCM_TAG_BYTES : Z := 16.
Definition FRAME_HEADER_BYTES : Z := 52.
Definition FRAME_AAD_DOMAIN : bytes := bytes_of_string "positron-frame-aad-v1".
Definition FRAME_NONCE_DOMAIN : bytes := [80; 70; 82; 1].

(** [slice::get] of a range, and of the rest. *)
Definition get_slice (b : bytes) (start stop : nat) : option bytes := if (stop <=? length b)%nat then Some (take (stop - start) (drop start b)) else None.
Definition get_from (b : bytes) (start : nat) : option bytes := if (start <=? length b)%nat then Some (drop start b) else None.

(** [positron-kernel/src/data_protection/codec.rs:7-12 ParsedFrame] *)
Record ParsedFrame := mkParsedFrame { pf_header : bytes; pf_sequence : Z; pf_checksum : bytes; pf_ciphertext : bytes }.

(** [positron-kernel/src/data_protection/codec.rs:14-85 parse_frame] *)
Definition parse_frame (encoded : bytes) (max_encoded_bytes : Z) : result FrameFailureCode ParsedFrame :=
  header ← ok_or FrameMalformed (get_slice encoded 0 20);
  if negb (bytes_eqb (take 4 header) FRAME_MAGIC) then Err FrameMalformed else
  if negb (be_value (take 2 (drop 4 header)) =? FRAME_VERSION) then Err FrameUnsupportedVersion else
  if negb (be_value (take 2 (drop 6 header)) =? AES_256_GCM_ALGORITHM) then Err FrameUnsupportedAlgorithm else
  let sequence := be_value (take 8 (drop 8 header)) in
  let declared := be_value (take 4 (drop 16 header)) in
  if declared <? AES_256_GCM_TAG_BYTES then Err FrameMalformed else
  declared_encoded ← ok_or FrameLimitExceeded (checked_add u32_max FRAME_HEADER_BYTES declared);
  if max_encoded_bytes <? declared_encoded then Err FrameLimitExceeded else
  checksum ← ok_or FrameMalformed (get_slice encoded 20 52);
  ciphertext ← ok_or FrameMalformed (get_from encoded 52);
  if u32_max <? zlen ciphertext then Err FrameLimitExceeded else
  if negb (zlen ciphertext =? declared) then Err FrameMalformed else
  Ok (mkParsedFrame header sequence checksum ciphertext).

(** [positron-kernel/src/data_protection/codec.rs:87-98 encode_authenticated_header] *)
Definition encode_authenticated_header (sequence ciphertext_bytes : Z) : bytes :=
  FRAME_MAGIC ++ be_bytes 2 FRAME_VERSION ++ be_bytes 2 AES_256_GCM_ALGORITHM ++ be_bytes 8 sequence ++ be_bytes 4 ciphertext_bytes.

(** [positron-kernel/src/data_protection/codec.rs:100-106 encode_associated_data] *)
Definition encode_associated_data (header : bytes) (context : FrameContext) : bytes :=
  header ++ FRAME_AAD_DOMAIN ++ encode_object (fc_object context) (fc_purpose context).

(** [positron-kernel/src/data_protection/codec.rs:108-112 nonce_for] *)
Definition nonce_for (sequence : Z) : bytes := FRAME_NONCE_DOMAIN ++ be_bytes 8 sequence.

(** ** Cryptography *)

(** [positron-kernel/src/data_protection/backend.rs:63-74 CryptoBackendFailure] *)
Inductive CryptoBackendFailure :=
  | CryptoInvalidKey | CryptoSealFailed | CryptoAuthenticationFailed | CryptoEntropyUnavailable | CryptoHashFailed | CryptoOpenFailed | CryptoWrapFailed
  | CryptoUnwrapFailed | CryptoSignatureFailed.

(** [positron-kernel/src/data_protection/backend.rs:76-136 CryptoBackend] Of the release: SHA-256 cannot fail. *)
Class CryptoBackend := {
  seal_aes_256_gcm : bytes -> bytes -> bytes -> bytes -> result CryptoBackendFailure bytes;
  open_aes_256_gcm : bytes -> bytes -> bytes -> bytes -> result CryptoBackendFailure bytes;
  sha256 : bytes -> bytes;
  hmac_sha256 : bytes -> bytes -> result CryptoBackendFailure bytes;
  wrap_key_aes_256_kwp : bytes -> bytes -> result CryptoBackendFailure bytes;
  unwrap_key_aes_256_kwp : bytes -> bytes -> result CryptoBackendFailure bytes;
}.

Class CryptoLaws (B : CryptoBackend) : Prop := {
  open_seal key nonce aad p c : seal_aes_256_gcm key nonce aad p = Ok c -> open_aes_256_gcm key nonce aad c = Ok p;
  seal_length key nonce aad p c : seal_aes_256_gcm key nonce aad p = Ok c -> zlen c = zlen p + AES_256_GCM_TAG_BYTES;
  sha256_length b : zlen (sha256 b) = 32;
  unwrap_wrap key p c : wrap_key_aes_256_kwp key p = Ok c -> unwrap_key_aes_256_kwp key c = Ok p;
}.

(** [positron-kernel/src/data_protection/backend.rs:330-333 ObjectDataKey] *)
Record ObjectDataKey := mkObjectDataKey { odk_key : bytes; odk_object : FrameObjectContext }.

Section frames.
Context {B : CryptoBackend}.

(** [positron-kernel/src/data_protection/service.rs:242-257 BackendDataProtection::protected_frame_length!] *)
Definition protected_frame_length (plaintext_bytes max_encoded_bytes : Z) : result FrameFailureCode Z :=
  c ← ok_or FrameLimitExceeded (checked_add usize_max plaintext_bytes AES_256_GCM_TAG_BYTES);
  if u32_max <? c then Err FrameLimitExceeded else
  encoded ← ok_or FrameLimitExceeded (checked_add u32_max FRAME_HEADER_BYTES c);
  if max_encoded_bytes <? encoded then Err FrameLimitExceeded else Ok encoded.

(** [positron-kernel/src/data_protection/service.rs:281-323 BackendDataProtection::protect_frame!] *)
Definition protect_frame (key : ObjectDataKey) (context : FrameContext) (plaintext : bytes) (max_encoded_bytes : Z) : result FrameFailureCode bytes :=
  if negb (bool_decide (odk_object key = fc_object context)) then Err FrameInvalidContext else
  encoded_bytes ← protected_frame_length (zlen plaintext) max_encoded_bytes;
  ciphertext_bytes ← ok_or FrameLimitExceeded (checked_sub encoded_bytes FRAME_HEADER_BYTES);
  let header := encode_authenticated_header (fc_sequence context) ciphertext_bytes in
  let associated_data := encode_associated_data header context in
  ciphertext ← map_err (fun _ => FrameSealFailed) (seal_aes_256_gcm (odk_key key) (nonce_for (fc_sequence context)) associated_data plaintext);
  if negb (zlen ciphertext =? ciphertext_bytes) then Err FrameSealFailed else
  Ok (header ++ sha256 ciphertext ++ ciphertext).

(** [positron-kernel/src/data_protection/service.rs:325-374 BackendDataProtection::open_frame!] *)
Definition open_frame (key : ObjectDataKey) (expected : FrameContext) (encoded : bytes) (max_encoded_bytes : Z) : result FrameFailureCode bytes :=
  if negb (bool_decide (odk_object key = fc_object expected)) then Err FrameAuthenticationFailed else
  if u32_max <? zlen encoded then Err FrameLimitExceeded else
  if max_encoded_bytes <? zlen encoded then Err FrameLimitExceeded else
  parsed ← parse_frame encoded max_encoded_bytes;
  if negb (pf_sequence parsed =? fc_sequence expected) then Err FrameAuthenticationFailed else
  if negb (bytes_eqb (sha256 (pf_ciphertext parsed)) (pf_checksum parsed)) then Err FrameChecksumMismatch else
  let associated_data := encode_associated_data (pf_header parsed) expected in
  plaintext ← map_err (fun f => match f with CryptoOpenFailed => FrameOpenFailed | _ => FrameAuthenticationFailed end)
    (open_aes_256_gcm (odk_key key) (nonce_for (fc_sequence expected)) associated_data (pf_ciphertext parsed));
  expected_bytes ← ok_or FrameMalformed (checked_sub (zlen (pf_ciphertext parsed)) AES_256_GCM_TAG_BYTES);
  if negb (zlen plaintext =? expected_bytes) then Err FrameOpenFailed else Ok plaintext.

(** [positron-kernel/src/data_protection/service.rs:70-75 DataProtection::authenticate_object_key!] *)
Definition authenticate_object_key (key : ObjectDataKey) (b : bytes) : result FrameFailureCode bytes :=
  map_err (fun _ => FrameAuthenticationFailed) (hmac_sha256 (odk_key key) b).
End frames.

(** ** Frames open to what was protected *)

Section opening.
Context {B : CryptoBackend} {HB : CryptoLaws B}.

Lemma protect_frame_parts key context p max f : protect_frame key context p max = Ok f ->
  exists c, seal_aes_256_gcm (odk_key key) (nonce_for (fc_sequence context))
              (encode_associated_data (encode_authenticated_header (fc_sequence context) (zlen c)) context) p = Ok c /\
    zlen c = zlen p + 16 /\ zlen c + 52 <= max /\ zlen c + 52 <= u32_max /\ odk_object key = fc_object context /\
    f = encode_authenticated_header (fc_sequence context) (zlen c) ++ sha256 c ++ c.
Proof.
  unfold protect_frame, protected_frame_length. case_bool_decide as Ho; [|done]. cbn [negb].
  destruct (checked_add usize_max (zlen p) AES_256_GCM_TAG_BYTES) as [n|] eqn:Hn; [|done]. apply checked_add_Some in Hn as [-> _]. cbn [ok_or mbind result_bind].
  destruct (Z.ltb_spec u32_max (zlen p + AES_256_GCM_TAG_BYTES)); [done|].
  destruct (checked_add u32_max FRAME_HEADER_BYTES _) as [e|] eqn:He; [|done]. apply checked_add_Some in He as [-> He]. cbn [ok_or mbind result_bind].
  destruct (Z.ltb_spec max (FRAME_HEADER_BYTES + (zlen p + AES_256_GCM_TAG_BYTES))); [done|]. cbn [mbind result_bind].
  unfold FRAME_HEADER_BYTES, AES_256_GCM_TAG_BYTES in *. pose proof (zlen_nonneg p). rewrite checked_sub_ok by lia. cbn [ok_or mbind result_bind].
  replace (52 + (zlen p + 16) - 52) with (zlen p + 16) by lia.
  destruct (seal_aes_256_gcm _ _ _ p) as [c|] eqn:Hc; [|done]. cbn [map_err mbind result_bind]. pose proof (seal_length _ _ _ _ _ Hc) as Hlen. unfold AES_256_GCM_TAG_BYTES in Hlen.
  rewrite <- Hlen in Hc. rewrite <- Hlen, Z.eqb_refl. cbn [negb]. intros [= <-]. exists c. split_and!; [exact Hc|done|lia|lia|done|done].
Qed.

Lemma protected_length key context p max f : protect_frame key context p max = Ok f -> zlen f = zlen p + 68 /\ zlen f <= max /\ zlen f <= u32_max.
Proof.
  intros (c & _ & Hc & Hm & Hu & _ & ->)%protect_frame_parts. rewrite !zlen_app, sha256_length. unfold encode_authenticated_header. rewrite !zlen_app, !zlen_be_bytes.
  change (zlen FRAME_MAGIC) with 4. lia.
Qed.

(** The announced length is the length that is written. *)
Lemma protected_length_announced key context p max f : protect_frame key context p max = Ok f -> protected_frame_length (zlen p) max = Ok (zlen f).
Proof.
  intros H. pose proof (protected_length _ _ _ _ _ H) as (Hf & _ & _). unfold protect_frame in H. destruct (negb _); [done|]. apply result_bind_Ok in H as (n & Hn & _). rewrite Hn. f_equal.
  unfold protected_frame_length in Hn. destruct (checked_add usize_max _ _) as [m|] eqn:Hm; [|done]. apply checked_add_Some in Hm as [-> _]. cbn in Hn. destruct (_ <? _); [done|].
  destruct (checked_add u32_max _ _) as [e|] eqn:He; [|done]. apply checked_add_Some in He as [-> _]. cbn in Hn. destruct (_ <? _); [done|]. injection Hn as <-.
  unfold FRAME_HEADER_BYTES, AES_256_GCM_TAG_BYTES. lia.
Qed.

Lemma get_slice_app (a b c : bytes) n m : n = length a -> m = (length a + length b)%nat -> get_slice (a ++ b ++ c) n m = Some b.
Proof.
  intros -> ->. unfold get_slice. rewrite !length_app, (proj2 (Nat.leb_le _ _)) by lia. rewrite drop_app_length. replace (length a + length b - length a)%nat with (length b) by lia. by rewrite take_app_length.
Qed.

Lemma get_from_app (a b : bytes) n : n = length a -> get_from (a ++ b) n = Some b.
Proof. intros ->. unfold get_from. rewrite length_app, (proj2 (Nat.leb_le _ _)) by lia. by rewrite drop_app_length. Qed.

Lemma parse_protected sequence c max : 0 <= sequence <= u64_max -> 16 <= zlen c -> zlen c + 52 <= max -> zlen c + 52 <= u32_max ->
  let header := encode_authenticated_header sequence (zlen c) in
  parse_frame (header ++ sha256 c ++ c) max = Ok (mkParsedFrame header sequence (sha256 c) c).
Proof.
  intros Hs Hc Hm Hu header. assert (Hh : length header = 20%nat) by done. assert (Hd : length (sha256 c) = 32%nat) by (pose proof (sha256_length c); unfold zlen in *; lia).
  unfold parse_frame. rewrite (get_slice_app [] header (sha256 c ++ c) 0 20) by done. cbn [ok_or mbind result_bind].
  change (take 4 header) with FRAME_MAGIC. unfold bytes_eqb. rewrite (bool_decide_true (FRAME_MAGIC = FRAME_MAGIC)) by done. change (be_value (take 2 (drop 4 header)) =? FRAME_VERSION) with true. change (be_value (take 2 (drop 6 header)) =? AES_256_GCM_ALGORITHM) with true. cbn [negb].
  change (take 8 (drop 8 header)) with (be_bytes 8 sequence). change (take 4 (drop 16 header)) with (be_bytes 4 (zlen c)).
  rewrite !be_value_be_bytes by (change (256 ^ Z.of_nat 8) with 18446744073709551616; change (256 ^ Z.of_nat 4) with 4294967296; unfold u64_max, u32_max in *; lia).
  unfold AES_256_GCM_TAG_BYTES, FRAME_HEADER_BYTES. rewrite (proj2 (Z.ltb_ge _ _)) by lia. rewrite checked_add_ok by lia. cbn [ok_or mbind result_bind]. rewrite (proj2 (Z.ltb_ge _ _)) by lia.
  rewrite (get_slice_app header (sha256 c) c 20 52) by (rewrite ?Hh, ?Hd; done). cbn [ok_or mbind result_bind].
  rewrite app_assoc, (get_from_app (header ++ sha256 c) c 52) by (rewrite length_app, Hh, Hd; done). cbn [ok_or mbind result_bind].
  rewrite (proj2 (Z.ltb_ge _ _)) by lia. by rewrite Z.eqb_refl.
Qed.

Lemma open_protected key context p max max' f : protect_frame key context p max = Ok f -> 0 <= fc_sequence context <= u64_max -> zlen f <= max' -> open_frame key context f max' = Ok p.
Proof.
  intros H Hs Hmax. pose proof (protected_length _ _ _ _ _ H) as (Hf & _ & Hfu). apply protect_frame_parts in H as (c & Hseal & Hc & Hm & Hu & Ho & Hff). pose proof (zlen_nonneg p).
  unfold open_frame. rewrite bool_decide_true by done. cbn [negb]. rewrite !(proj2 (Z.ltb_ge _ _)) by lia. rewrite Hff, parse_protected by lia. cbn [mbind result_bind pf_sequence pf_ciphertext pf_checksum pf_header].
  unfold bytes_eqb. rewrite Z.eqb_refl, bool_decide_true by done. cbn [negb]. rewrite (open_seal _ _ _ _ _ Hseal). cbn [map_err mbind result_bind]. unfold AES_256_GCM_TAG_BYTES. rewrite checked_sub_ok by lia. cbn [ok_or mbind result_bind].
  replace (zlen c - 16) with (zlen p) by lia. by rewrite Z.eqb_refl.
Qed.

(** The header of a frame names its sequence. *)
Lemma open_other_sequence key context other p max max' f : protect_frame key context p max = Ok f -> 0 <= fc_sequence context <= u64_max -> zlen f <= max' ->
  fc_sequence other <> fc_sequence context -> open_frame key other f max' = Err FrameAuthenticationFailed.
Proof.
  intros H Hs Hmax Hne. pose proof (protected_length _ _ _ _ _ H) as (Hf & _ & Hfu). apply protect_frame_parts in H as (c & Hseal & Hc & Hm & Hu & Ho & Hff). pose proof (zlen_nonneg p).
  unfold open_frame. case_bool_decide; [|done]. cbn [negb]. rewrite !(proj2 (Z.ltb_ge _ _)) by lia. rewrite Hff, parse_protected by lia. cbn [mbind result_bind pf_sequence].
  rewrite (proj2 (Z.eqb_neq _ _)) by done. done.
Qed.
End opening.
