(* ===== verification/LedgerFormat.v ===== *)
(** Active segment ledger: data and formats.

    Models the identities, receipts and failures of
    [positron-kernel/src/active_segment_ledger/types.rs], the metadata and the header of a segment in
    [format.rs], [protection.rs] and [receipt.rs].

    Also models [positron-kernel/src/data_protection/key_envelope.rs] and the wrapping of segment keys in
    [service.rs]: the key of a segment is wrapped together with everything it is bound to, and
    unwrapping it in any other context is refused. *)

From Stdlib Require Import Ascii String.
From S2P Require Import Prelude Outcome Identity Routing SourceTime RetentionTime LogStore LedgerFrame.

(** ** Failures *)

Abbreviation ledger_fail code := (Err (LedgerFailure_new code)).

(** [positron-kernel/src/active_segment_ledger/types/failure.rs:51-56 LedgerFailure::post_mutation] *)
Definition post_mutation (code : LedgerFailureCode) : LedgerFailure := mkLedgerFailure code CompletionRecoveryRequired.

(** [positron-kernel/src/active_segment_ledger/types/failure.rs:58-63 LedgerFailure::ambiguous] *)
Definition ambiguous (code : LedgerFailureCode) : LedgerFailure := mkLedgerFailure code CommitAmbiguous.

(** [positron-kernel/src/active_segment_ledger/protection.rs:21-36 map_frame_failure] *)
Definition map_frame_failure (f : FrameFailureCode) : LedgerFailure :=
  LedgerFailure_new (match f with
    | FrameInvalidContext | FrameInvalidLimit => LedgerInvalidInput
    | FrameLimitExceeded => LedgerLimitExceeded
    | FrameSealFailed | FrameHashFailed | FrameEntropyUnavailable => LedgerStorageUnavailable
    | FrameOpenFailed | FrameAuthenticationFailed => LedgerAuthenticationFailed
    | FrameMalformed | FrameChecksumMismatch => LedgerIntegrityCorruption
    | FrameUnsupportedVersion | FrameUnsupportedAlgorithm => LedgerUnsupportedFormat
    end).

(** ** Identities *)

#[global] Instance IngestTime_eq_dec : EqDecision IngestTime.
Proof. solve_decision. Defined.
#[global] Instance SegmentRetention_eq_dec : EqDecision SegmentRetention.
Proof. solve_decision. Defined.

Definition zeros (b : bytes) : bool := forallb (fun byte => byte =? 0) b.

(** [positron-kernel/src/active_segment_ledger/types.rs:146-151 SegmentId::new] The identity is its sixteen bytes. *)
Definition SegmentId_new (b : bytes) : result LedgerFailure bytes := if zeros b then ledger_fail LedgerInvalidInput else Ok b.

(** [positron-kernel/src/active_segment_ledger/types.rs:164-169 StoreBlockIdentity::new] *)
Definition StoreBlockIdentity_new (b : bytes) : result LedgerFailure bytes := if zeros b then ledger_fail LedgerInvalidInput else Ok b.

(** [positron-kernel/src/active_segment_ledger/protection.rs:7-19 object_context] *)
Definition object_context (scope : SegmentScope) (id : bytes) : result LedgerFailure FrameObjectContext :=
  object ← map_err map_frame_failure (FrameObjectId_new id);
  epoch ← map_err map_frame_failure (FormatEpoch_new 1);
  Ok (mkFrameObject (ScopeTenant (scope_tenant scope)) (ClassSegment (scope_signal scope) (scope_shard scope)) object 1 epoch).

(** [positron-kernel/src/active_segment_ledger/types.rs:250-255 CommitReceipt] *)
Record CommitReceipt := mkReceipt { rc_segment : bytes; rc_position : CommitPosition; rc_authenticator : bytes }.

(** [positron-kernel/src/active_segment_ledger/types.rs:275-284 CommittedBlock] All its fields; the signal
    stores see its payload and its retention. *)
Record LedgerBlock := mkLedgerBlock {
  lb_identity : bytes;
  lb_position : CommitPosition;
  lb_payload : bytes;
  lb_digest : bytes;
  lb_segment : bytes;
  lb_authenticator : bytes;
  lb_retention : SegmentRetention;
}.

(** [positron-kernel/src/active_segment_ledger/state.rs:46-52 receipt_for] *)
Definition receipt_for (b : LedgerBlock) : CommitReceipt := mkReceipt (lb_segment b) (lb_position b) (lb_authenticator b).

(** [positron-kernel/src/active_segment_ledger/mod.rs:228-232 MAX_STORE_BLOCK_BYTES!] *)
Definition MAX_STORE_BLOCK_BYTES : Z := 1048576.
Definition MAX_RETAINED_BLOCKS : Z := 1024.
Definition MAX_RETAINED_BLOCK_BYTES : Z := 1048576.
Definition MAX_ENCODED_FRAME_BYTES : Z := 1048960.

(** [positron-kernel/src/active_segment_ledger/receipt.rs:9-21 receipt_authenticator] *)
Definition receipt_authenticator {B : CryptoBackend} (key : ObjectDataKey) (durable_bytes next_sequence : Z) (position : CommitPosition) : result LedgerFailure bytes :=
  let evidence := bytes_of_string "positron-ledger-receipt-v1" ++ [0] ++ be_bytes 8 durable_bytes ++ be_bytes 8 next_sequence ++ be_bytes 8 (position_value position) in
  map_err map_frame_failure (authenticate_object_key key evidence).

(** ** Segment metadata *)

(** [positron-kernel/src/active_segment_ledger/format.rs:17-22 SegmentState] *)
Inductive SegmentState := SegmentActive | SegmentSealed | SegmentRetired.

#[global] Instance SegmentState_eq_dec : EqDecision SegmentState.
Proof. solve_decision. Defined.

(** [positron-kernel/src/active_segment_ledger/format.rs:24-30 SegmentMetadata] *)
Record SegmentMetadata := mkSegmentMetadata { md_scope : SegmentScope; md_id : bytes; md_state : SegmentState; md_base : CommitPosition }.

(** [positron-kernel/src/active_segment_ledger/format.rs:32-37 SegmentHeader] The route is three fields of
    the data protection. *)
Record SegmentKeyRoute := mkRoute { provider_family : Z; provider_reference : bytes; provider_key_epoch : Z }.

#[global] Instance SegmentKeyRoute_eq_dec : EqDecision SegmentKeyRoute.
Proof. solve_decision. Defined.

Record SegmentHeader := mkSegmentHeader { sh_route : SegmentKeyRoute; sh_wrapped_key : bytes; sh_metadata : bytes; sh_encoded_bytes : Z }.

Definition METADATA_MAGIC : bytes := bytes_of_string "PSEGMET1".
Definition SEGMENT_MAGIC : bytes := bytes_of_string "PSEGACT3".
Definition METADATA_BYTES : Z := 56.
Definition HEADER_PREFIX_BYTES : Z := 44.
Definition MAX_WRAPPED_KEY_BYTES : Z := 256.
Definition MAX_ENCRYPTED_METADATA_BYTES : Z := 256.

(** [positron-kernel/src/active_segment_ledger/format.rs:187-197 position_from_value] *)
Definition position_from_value (value : Z) : result LedgerFailure CommitPosition :=
  if value =? 0 then Ok CommitPosition_origin
  else map_err (fun _ => LedgerFailure_new LedgerLimitExceeded) (CommitPosition_advance_by CommitPosition_origin value).

(** [positron-kernel/src/active_segment_ledger/format.rs:199-211 exact] *)
Definition exact_bytes (b : bytes) (start length : nat) : result LedgerFailure bytes :=
  ok_or (LedgerFailure_new LedgerIntegrityCorruption) (get_slice b start (start + length)).

Definition state_tag (s : SegmentState) : Z := match s with SegmentActive => 1 | SegmentSealed => 2 | SegmentRetired => 3 end.

(** [positron-kernel/src/active_segment_ledger/format.rs:39-57 encode_metadata] *)
Definition encode_metadata (m : SegmentMetadata) : bytes :=
  METADATA_MAGIC ++ be_bytes 2 1 ++ [state_tag (md_state m)] ++ tenant_id_bytes (scope_tenant (md_scope m)) ++ [signal_number (scope_signal (md_scope m))]
  ++ be_bytes 4 (shard_value (scope_shard (md_scope m))) ++ md_id m ++ be_bytes 8 (position_value (md_base m)).

(** [slice::starts_with] *)
Definition starts_with (b prefix : bytes) : bool := bytes_eqb (take (length prefix) b) prefix.

(** [positron-kernel/src/active_segment_ledger/format.rs:59-95 decode_metadata] *)
Definition decode_metadata (b : bytes) : result LedgerFailure (option SegmentMetadata) :=
  if negb (starts_with b METADATA_MAGIC) then Ok None else
  if negb (zlen b =? METADATA_BYTES) || negb (bool_decide (get_slice b 8 10 = Some (be_bytes 2 1))) then ledger_fail LedgerUnsupportedFormat else
  state ← match b !! 10%nat with Some 1 => Ok SegmentActive | Some 2 => Ok SegmentSealed | Some 3 => Ok SegmentRetired | _ => ledger_fail LedgerIntegrityCorruption end;
  tenant ← exact_bytes b 11 16;
  signal ← match b !! 27%nat with Some 1 => Ok Logs | Some 2 => Ok Traces | _ => ledger_fail LedgerIntegrityCorruption end;
  shard ← exact_bytes b 28 4;
  id ← exact_bytes b 32 16;
  id ← SegmentId_new id;
  base ← exact_bytes b 48 8;
  tenant ← map_err (fun _ => LedgerFailure_new LedgerIntegrityCorruption) (TenantId_from_bytes tenant);
  shard ← map_err (fun _ => LedgerFailure_new LedgerIntegrityCorruption) (VirtualShardId_new (be_value shard));
  base ← position_from_value (be_value base);
  Ok (Some (mkSegmentMetadata (mkSegmentScope tenant signal shard) id state base)).

(** ** Segment headers *)

(** [positron-kernel/src/active_segment_ledger/format.rs:97-127 encode_header] *)
Definition encode_header (route : SegmentKeyRoute) (wrapped_key encrypted_metadata : bytes) : result LedgerFailure bytes :=
  if bool_decide (wrapped_key = []) || (MAX_WRAPPED_KEY_BYTES <? zlen wrapped_key) || bool_decide (encrypted_metadata = [])
     || (MAX_ENCRYPTED_METADATA_BYTES <? zlen encrypted_metadata)
  then ledger_fail LedgerLimitExceeded else
  Ok (SEGMENT_MAGIC ++ be_bytes 2 2 ++ be_bytes 2 1 ++ be_bytes 2 1 ++ be_bytes 2 (provider_family route) ++ provider_reference route
      ++ be_bytes 8 (provider_key_epoch route) ++ be_bytes 4 (zlen wrapped_key) ++ wrapped_key ++ be_bytes 4 (zlen encrypted_metadata) ++ encrypted_metadata).

(** [positron-kernel/src/active_segment_ledger/format.rs:129-185 decode_header] *)
Definition decode_header (b : bytes) : result LedgerFailure SegmentHeader :=
  if negb (bool_decide (get_slice b 0 8 = Some SEGMENT_MAGIC)) || negb (bool_decide (get_slice b 8 10 = Some (be_bytes 2 2)))
  then ledger_fail LedgerUnsupportedFormat else
  if negb (bool_decide (get_slice b 10 12 = Some (be_bytes 2 1))) || negb (bool_decide (get_slice b 12 14 = Some (be_bytes 2 1)))
  then ledger_fail LedgerUnsupportedFormat else
  family ← exact_bytes b 14 2;
  reference ← exact_bytes b 16 16;
  epoch ← exact_bytes b 32 8;
  if (be_value family =? 0) || zeros reference || (be_value epoch =? 0) then ledger_fail LedgerIntegrityCorruption else
  wrapped_length ← exact_bytes b 40 4;
  let wrapped_length := be_value wrapped_length in
  if (wrapped_length =? 0) || (MAX_WRAPPED_KEY_BYTES <? wrapped_length) then ledger_fail LedgerIntegrityCorruption else
  let metadata_length_offset := Z.to_nat (HEADER_PREFIX_BYTES + wrapped_length) in
  let metadata_offset := (metadata_length_offset + 4)%nat in
  metadata_length ← exact_bytes b metadata_length_offset 4;
  let metadata_length := be_value metadata_length in
  if (metadata_length =? 0) || (MAX_ENCRYPTED_METADATA_BYTES <? metadata_length) then ledger_fail LedgerIntegrityCorruption else
  let encoded_bytes := (metadata_offset + Z.to_nat metadata_length)%nat in
  wrapped_key ← ok_or (LedgerFailure_new LedgerIntegrityCorruption) (get_slice b (Z.to_nat HEADER_PREFIX_BYTES) metadata_length_offset);
  encrypted_metadata ← ok_or (LedgerFailure_new LedgerIntegrityCorruption) (get_slice b metadata_offset encoded_bytes);
  Ok (mkSegmentHeader (mkRoute (be_value family) reference (be_value epoch)) wrapped_key encrypted_metadata (Z.of_nat encoded_bytes)).

(** ** Retention in blocks and frontiers *)

(** The tag and the instant that [append_inner] and [publish_frontier] write. *)
Definition retention_fields (r : SegmentRetention) : bytes :=
  match r with
  | RetentionEmpty => 0 :: be_bytes 8 0
  | RetentionUnavailable => 1 :: be_bytes 8 0
  | RetentionComplete t => 2 :: be_bytes 8 (nanos (instant t))
  end.

(** [positron-kernel/src/active_segment_ledger/recovery.rs:423-444 decode_retention] *)
Definition decode_retention (b : bytes) (tag_offset instant_offset : nat) : result LedgerFailure SegmentRetention :=
  i ← exact_bytes b instant_offset 8;
  let i := as_i64 (be_value i) in
  match b !! tag_offset with
  | Some 0 => if i =? 0 then Ok RetentionEmpty else ledger_fail LedgerIntegrityCorruption
  | Some 1 => if i =? 0 then Ok RetentionUnavailable else ledger_fail LedgerIntegrityCorruption
  | Some 2 => Ok (RetentionComplete (from_authenticated_durable (mkUnixNanoseconds i)))
  | _ => ledger_fail LedgerIntegrityCorruption
  end.

(** [positron-kernel/src/active_segment_ledger/recovery.rs:411-417 decode_block_retention] *)
Definition decode_block_retention (b : bytes) : result LedgerFailure SegmentRetention :=
  r ← decode_retention b 16 17;
  match r with RetentionEmpty => ledger_fail LedgerIntegrityCorruption | _ => Ok r end.

(** [positron-kernel/src/active_segment_ledger/recovery.rs:419-421 decode_segment_retention] *)
Definition decode_segment_retention (b : bytes) : result LedgerFailure SegmentRetention := decode_retention b 24 25.

(** [positron-kernel/src/data_protection/key_envelope.rs:256-262 encode_varint] Ten groups of seven bits hold a
    [u64]. *)
Fixpoint encode_varint_fuel (fuel : nat) (value : Z) : bytes :=
  match fuel with
  | O => [value]
  | Datatypes.S fuel => if 128 <=? value then Z.lor (Z.land value 127) 128 :: encode_varint_fuel fuel (Z.shiftr value 7) else [value]
  end.
Definition encode_varint (value : Z) : bytes := encode_varint_fuel 10 value.

(** [positron-kernel/src/data_protection/key_envelope.rs:245-248 encode_varint_field] *)
Definition encode_varint_field (field value : Z) : bytes := Z.shiftl field 3 :: encode_varint value.

(** [positron-kernel/src/data_protection/key_envelope.rs:250-254 encode_bytes_field] *)
Definition encode_bytes_field (field : Z) (b : bytes) : bytes := Z.lor (Z.shiftl field 3) 2 :: encode_varint (zlen b) ++ b.

Definition segment_parts (object : FrameObjectContext) : result FrameFailureCode (TenantId * SignalKind * VirtualShardId) :=
  match fo_scope object, fo_class object with
  | ScopeTenant tenant, ClassSegment signal shard => Ok (tenant, signal, shard)
  | _, _ => Err FrameInvalidContext
  end.

(** [positron-kernel/src/data_protection/key_envelope.rs:126-153 segment_context_encoding_with_route] *)
Definition segment_context_encoding (instance : bytes) (object : FrameObjectContext) (route : SegmentKeyRoute) : result FrameFailureCode bytes :=
  '(tenant, signal, shard) ← segment_parts object;
  Ok (bytes_of_string "positron-segment-envelope-context-v2" ++ [0] ++ instance ++ tenant_id_bytes tenant ++ [signal_number signal] ++ be_bytes 4 (shard_value shard)
      ++ fo_object_id object ++ be_bytes 8 (fo_key_epoch object) ++ be_bytes 4 (fo_format_epoch object) ++ be_bytes 2 (provider_family route)
      ++ provider_reference route ++ be_bytes 8 (provider_key_epoch route)).

(** [positron-kernel/src/data_protection/key_envelope.rs:168-204 encode_segment_wrapped_key_payload_with_route] *)
Definition encode_segment_payload (key : ObjectDataKey) (instance context_digest : bytes) (route : SegmentKeyRoute) : result FrameFailureCode bytes :=
  '(tenant, signal, shard) ← segment_parts (odk_object key);
  Ok (encode_varint_field 1 1 ++ encode_bytes_field 2 (odk_key key) ++ encode_bytes_field 3 instance ++ encode_varint_field 4 5
      ++ encode_bytes_field 5 (fo_object_id (odk_object key)) ++ encode_varint_field 6 (fo_key_epoch (odk_object key)) ++ encode_varint_field 7 2
      ++ encode_bytes_field 8 context_digest ++ encode_bytes_field 9 (tenant_id_bytes tenant) ++ encode_varint_field 10 (signal_number signal)
      ++ encode_varint_field 11 (shard_value shard) ++ encode_varint_field 12 (fo_format_epoch (odk_object key)) ++ encode_varint_field 13 (provider_family route)
      ++ encode_bytes_field 14 (provider_reference route) ++ encode_varint_field 15 (provider_key_epoch route)).

(** [positron-kernel/src/data_protection/key_envelope.rs:206-235 verify_segment_wrapped_key_payload_with_route] The
    comparison is in constant time; it accepts equal byte strings only. *)
Definition verify_segment_payload (payload instance : bytes) (object : FrameObjectContext) (context_digest : bytes) (route : SegmentKeyRoute) : result FrameFailureCode bytes :=
  key ← ok_or FrameAuthenticationFailed (get_slice payload 4 36);
  expected ← encode_segment_payload (mkObjectDataKey key object) instance context_digest route;
  if bytes_eqb payload expected then Ok key else Err FrameAuthenticationFailed.

Section wrapping.
Context {B : CryptoBackend}.

(** [positron-kernel/src/data_protection/service.rs:173-187 DataProtection::wrap_segment_key_with_route] *)
Definition wrap_segment_key (wrapping_key : bytes) (key : ObjectDataKey) (instance : bytes) (route : SegmentKeyRoute) : result FrameFailureCode bytes :=
  context ← segment_context_encoding instance (odk_object key) route;
  payload ← encode_segment_payload key instance (sha256 context) route;
  map_err (fun _ => FrameSealFailed) (wrap_key_aes_256_kwp wrapping_key payload).

(** [positron-kernel/src/data_protection/service.rs:208-225 DataProtection::unwrap_segment_key_with_route] *)
Definition unwrap_segment_key (wrapping_key wrapped instance : bytes) (object : FrameObjectContext) (route : SegmentKeyRoute) : result FrameFailureCode ObjectDataKey :=
  context ← segment_context_encoding instance object route;
  payload ← map_err (fun _ => FrameAuthenticationFailed) (unwrap_key_aes_256_kwp wrapping_key wrapped);
  key ← verify_segment_payload payload instance object (sha256 context) route;
  Ok (mkObjectDataKey key object).

Context {HB : CryptoLaws B}.

(** A wrapped key comes back in its own context. *)
Lemma unwrap_wrapped wrapping_key key instance route w : zlen (odk_key key) = 32 -> wrap_segment_key wrapping_key key instance route = Ok w ->
  unwrap_segment_key wrapping_key w instance (odk_object key) route = Ok key.
Proof.
  intros Hlen H. unfold wrap_segment_key in H. apply result_bind_Ok in H as (context & Hc & H). apply result_bind_Ok in H as (payload & Hp & H).
  destruct (wrap_key_aes_256_kwp wrapping_key payload) as [w'|] eqn:Hw; [|done]. injection H as ->. unfold unwrap_segment_key. rewrite Hc. cbn [mbind result_bind].
  rewrite (unwrap_wrap _ _ _ Hw). cbn [map_err mbind result_bind]. unfold verify_segment_payload. pose proof Hp as Hp'. unfold encode_segment_payload in Hp'. apply result_bind_Ok in Hp' as ([[t s] h] & _ & Hpay). apply (f_equal (fun r => match r with Ok x => x | Err _ => [] end)) in Hpay; cbv beta iota in Hpay.
  destruct key as [k o]. cbn [odk_key odk_object] in *. assert (Hk : get_slice payload 4 36 = Some k).
  { rewrite <- Hpay. change (encode_varint_field 1 1) with [8; 1]. unfold encode_bytes_field at 1. rewrite Hlen. change (Z.lor (Z.shiftl 2 3) 2 :: encode_varint 32 ++ k) with ([18; 32] ++ k). rewrite <- app_assoc.
    rewrite (app_assoc [8; 1] [18; 32]). apply get_slice_app; [done|]. unfold zlen in Hlen. cbn [app length]. lia. }
  rewrite Hk. cbn [ok_or mbind result_bind]. rewrite Hp. cbn [mbind result_bind]. unfold bytes_eqb. by rewrite bool_decide_true.
Qed.

(** A key that unwraps is the one whose payload was wrapped, in the context that was asked for. *)
Lemma unwrapped_payload wrapping_key w instance object route key : unwrap_segment_key wrapping_key w instance object route = Ok key ->
  odk_object key = object /\ exists context payload, segment_context_encoding instance object route = Ok context /\
    encode_segment_payload key instance (sha256 context) route = Ok payload /\ unwrap_key_aes_256_kwp wrapping_key w = Ok payload.
Proof.
  unfold unwrap_segment_key, verify_segment_payload. intros H. apply result_bind_Ok in H as (context & Hc & H). destruct (unwrap_key_aes_256_kwp _ w) as [payload|] eqn:Hw; [|done]. cbn [map_err mbind result_bind] in H.
  destruct (ok_or _ _) as [k|] eqn:Hk; [|done]. cbn [mbind result_bind] in H. destruct (encode_segment_payload _ _ _ _) as [expected|] eqn:He; [|done]. cbn [mbind result_bind] in H.
  unfold bytes_eqb in H. case_bool_decide as Heq; [|done]. injection H as <-. split; [done|]. exists context, payload. by rewrite Heq.
Qed.
End wrapping.
