(* ===== verification/LedgerDisk.v ===== *)
(** Active segment ledger: files.

    The part of a file system that the ledger uses, as the kernel of the operating system documents
    it: a file has the bytes that a reader sees and the bytes that were synchronised, a directory
    has its current entries and those that were synchronised. The environment is a finite list of
    responses to system calls: a call completes, is interrupted, writes some bytes, or fails; when
    the list ends the machine stops. So every failure, every short write and every point of a crash
    is a list of responses, and every program over files terminates.

    Positioning a regular file cannot fail and is left out.

    After a crash a file holds what was synchronised unless bytes were pending; of a file with
    pending bytes the common beginning of both versions remains, followed by anything. Every entry
    of a directory is the current or the synchronised one. *)

From stdpp Require Import gmap.
From S2P Require Import Prelude Outcome Identity Routing SourceTime RetentionTime LogStore LedgerFrame LedgerFormat.

(** ** Disks *)

(** The names [<id>.segment], [<id>.frontier] and [<id>.frontier.tmp]. *)
Inductive FileKind := SegmentFile | FrontierFile | FrontierTemporary.

#[global] Instance FileKind_eq_dec : EqDecision FileKind.
Proof. solve_decision. Defined.
#[global] Instance FileKind_countable : Countable FileKind.
Proof.
  refine (inj_countable' (fun k => match k with SegmentFile => 0%nat | FrontierFile => 1%nat | FrontierTemporary => 2%nat end)
    (fun n => match n with 0%nat => SegmentFile | 1%nat => FrontierFile | _ => FrontierTemporary end) _). by intros [].
Defined.

Abbreviation Name := (bytes * FileKind)%type.

(** [positron-kernel/src/active_segment_ledger/recovery.rs:446-448 segment_name] *)
Definition segment_name (id : bytes) : Name := (id, SegmentFile).
(** [positron-kernel/src/active_segment_ledger/recovery.rs:450-452 frontier_name] *)
Definition frontier_name (id : bytes) : Name := (id, FrontierFile).
(** [positron-kernel/src/active_segment_ledger/recovery.rs:454-456 frontier_temporary_name] *)
Definition frontier_temporary_name (id : bytes) : Name := (id, FrontierTemporary).

Record Inode := mkInode { cached : bytes; synced : bytes }.
Record Directory := mkDirectory { entries : gmap Name nat; synced_entries : gmap Name nat }.
Record Disk := mkDisk { inodes : gmap nat Inode; fresh : nat; active_directory : Directory; sealed_directory : Directory }.

Inductive Place := ActivePlace | SealedPlace.
Definition directory (d : Disk) (p : Place) : Directory := match p with ActivePlace => active_directory d | SealedPlace => sealed_directory d end.
Definition with_directory (d : Disk) (p : Place) (dir : Directory) : Disk :=
  match p with
  | ActivePlace => mkDisk (inodes d) (fresh d) dir (sealed_directory d)
  | SealedPlace => mkDisk (inodes d) (fresh d) (active_directory d) dir
  end.
Definition with_inode (d : Disk) (i : nat) (file : Inode) : Disk := mkDisk (<[i := file]> (inodes d)) (fresh d) (active_directory d) (sealed_directory d).
Definition with_entries (dir : Directory) (m : gmap Name nat) : Directory := mkDirectory m (synced_entries dir).

(** *** Crashes *)

Fixpoint common_prefix (a b : bytes) : bytes :=
  match a, b with x :: a, y :: b => if x =? y then x :: common_prefix a b else [] | _, _ => [] end.

Definition crash_content (file : Inode) (c : bytes) : Prop :=
  (cached file = synced file /\ c = cached file) \/ (cached file <> synced file /\ exists tail, c = common_prefix (synced file) (cached file) ++ tail).

Definition crash_directory (dir dir' : Directory) : Prop :=
  synced_entries dir' = entries dir' /\ forall name, entries dir' !! name = entries dir !! name \/ entries dir' !! name = synced_entries dir !! name.

Record crashes (d d' : Disk) : Prop := {
  cr_files : forall i, match inodes d !! i, inodes d' !! i with
    | Some file, Some file' => crash_content file (cached file') /\ synced file' = cached file'
    | None, None => True
    | _, _ => False
    end;
  cr_fresh : fresh d' = fresh d;
  cr_active : crash_directory (active_directory d) (active_directory d');
  cr_sealed : crash_directory (sealed_directory d) (sealed_directory d');
}.

(** The crash that loses everything that is not synchronised. *)
Definition lose_directory (dir : Directory) : Directory := mkDirectory (synced_entries dir) (synced_entries dir).
Definition lose (d : Disk) : Disk :=
  mkDisk ((fun file => mkInode (synced file) (synced file)) <$> inodes d) (fresh d) (lose_directory (active_directory d)) (lose_directory (sealed_directory d)).

Lemma common_prefix_prefix a b : exists tail, a = common_prefix a b ++ tail.
Proof. revert b. induction a as [|x a IH]; intros b; [by exists []|]. destruct b as [|y b]; [by exists (x :: a)|]. cbn. destruct (x =? y); [|by exists (x :: a)]. destruct (IH b) as [t Ht]. exists t. cbn. by rewrite <- Ht. Qed.

Lemma lose_crashes d : crashes d (lose d).
Proof.
  constructor; [|done|split; auto|split; auto]. intros i. cbn. rewrite lookup_fmap. destruct (inodes d !! i) as [[c s]|]; cbn; [|done]. split; [|done]. unfold crash_content. cbn.
  destruct (decide (c = s)) as [->|Hne]; [by left|]. right. split; [done|]. apply common_prefix_prefix.
Qed.

(** ** Programs *)

Inductive Response := Completed | Wrote (n : nat) | Interrupted | NoSpace | Unavailable.

(** The disk, the responses that are left, and the nonces that were used to seal, with their keys. *)
Record World := mkWorld { disk : Disk; responses : list Response; seals : list (bytes * bytes) }.
Definition with_disk (w : World) (d : Disk) : World := mkWorld d (responses w) (seals w).

Inductive Outcome (E A : Type) := Returned (a : A) | Failed (e : E) | Crashed.
Arguments Returned {E A} _.
Arguments Failed {E A} _.
Arguments Crashed {E A}.

Definition Io (E A : Type) : Type := World -> World * Outcome E A.
#[global] Instance Io_ret {E} : MRet (Io E) := fun A a w => (w, Returned a).
#[global] Instance Io_bind {E} : MBind (Io E) := fun A B k m w =>
  match m w with (w, Returned a) => k a w | (w, Failed e) => (w, Failed e) | (w, Crashed) => (w, Crashed) end.
Definition io_of {E A} (r : result E A) : Io E A := fun w => (w, match r with Ok a => Returned a | Err e => Failed e end).
Definition io_fail {E A} (e : E) : Io E A := fun w => (w, Failed e).
Definition io_map {E F A} (f : E -> F) (m : Io E A) : Io F A := fun w =>
  match m w with (w, Returned a) => (w, Returned a) | (w, Failed e) => (w, Failed (f e)) | (w, Crashed) => (w, Crashed) end.

Definition next_response : Io LedgerFailure Response := fun w =>
  match responses w with [] => (w, Crashed) | r :: rs => (mkWorld (disk w) rs (seals w), Returned r) end.

(** [positron-kernel/src/active_segment_ledger/io.rs:7-13 map_errno] Also [map_io_error]. *)
Definition map_errno (r : Response) : LedgerFailure :=
  match r with NoSpace => LedgerFailure_new LedgerStorageExhausted | _ => LedgerFailure_new LedgerStorageUnavailable end.

(** [positron-kernel/src/active_segment_ledger/io.rs:27-34 map_integrity_read] *)
Definition map_integrity_read (f : LedgerFailure) : LedgerFailure :=
  match ledger_code f with LedgerStorageExhausted => f | _ => LedgerFailure_new LedgerIntegrityCorruption end.

Definition perform {E A} (effect : Disk -> Disk * A) : Io E A := fun w => let '(d, a) := effect (disk w) in (with_disk w d, Returned a).

(** A call without a short result: it takes effect and returns, or fails without an effect. *)
Definition call {A} (effect : Disk -> Disk * A) : Io LedgerFailure A :=
  r ← next_response;
  match r with
  | Completed | Wrote _ => perform effect
  | _ => io_fail (map_errno r)
  end.

(** *** System calls *)

(** [positron-kernel/src/active_segment_ledger/storage.rs:453-459 entry_exists] *)
Definition entry_exists (p : Place) (name : Name) : Io LedgerFailure bool := call (fun d => (d, bool_decide (is_Some (entries (directory d p) !! name)))).

(** [positron-kernel/src/active_segment_ledger/io.rs:64-93 open_regular] Every file is a regular one with a
    single name. *)
Definition open_regular (p : Place) (name : Name) : Io LedgerFailure nat :=
  i ← call (fun d => (d, entries (directory d p) !! name));
  io_of (ok_or (LedgerFailure_new LedgerIntegrityCorruption) i).

(** [positron-kernel/src/active_segment_ledger/io.rs:95-97 synchronize] Of a file. *)
Definition synchronize_file (i : nat) : Io LedgerFailure unit :=
  call (fun d => (match inodes d !! i with Some file => with_inode d i (mkInode (cached file) (cached file)) | None => d end, tt)).

(** [fsync] of a directory. *)
Definition synchronize_directory (p : Place) : Io LedgerFailure unit :=
  call (fun d => (with_directory d p (mkDirectory (entries (directory d p)) (entries (directory d p))), tt)).

(** [unlinkat]; whether there was an entry. *)
Definition unlink (p : Place) (name : Name) : Io LedgerFailure bool :=
  call (fun d => (with_directory d p (with_entries (directory d p) (delete name (entries (directory d p)))), bool_decide (is_Some (entries (directory d p) !! name)))).

(** [renameat]; an absent source is an error. *)
Definition rename (p : Place) (name : Name) (p' : Place) (name' : Name) : Io LedgerFailure unit :=
  ok ← call (fun d =>
    match entries (directory d p) !! name with
    | Some i =>
        let d := with_directory d p (with_entries (directory d p) (delete name (entries (directory d p)))) in
        (with_directory d p' (with_entries (directory d p') (<[name' := i]> (entries (directory d p')))), true)
    | None => (d, false)
    end);
  if (ok : bool) then mret tt else io_fail (map_errno Unavailable).

(** [openat] with [CREATE | EXCL]. *)
Definition create_file (p : Place) (name : Name) : Io LedgerFailure nat :=
  i ← call (fun d =>
    match entries (directory d p) !! name with
    | Some _ => (d, None)
    | None =>
        let i := fresh d in
        let d := mkDisk (<[i := mkInode [] []]> (inodes d)) (Datatypes.S i) (active_directory d) (sealed_directory d) in
        (with_directory d p (with_entries (directory d p) (<[name := i]> (entries (directory d p)))), Some i)
    end);
  io_of (ok_or (map_errno Unavailable) i).

(** [File::metadata] and [File::set_len]. *)
Definition file_content (i : nat) : Io LedgerFailure bytes := call (fun d => (d, match inodes d !! i with Some file => cached file | None => [] end)).
Definition file_length (i : nat) : Io LedgerFailure Z := b ← file_content i; mret (zlen b).
Definition set_length (i : nat) (n : Z) : Io LedgerFailure unit :=
  call (fun d => (match inodes d !! i with Some file => with_inode d i (mkInode (take (Z.to_nat n) (cached file)) (synced file)) | None => d end, tt)).

(** [Write::write] at the end of a file: some of the bytes are written. *)
Inductive WriteResult := WriteCount (n : nat) | WriteInterrupted | WriteFailed (f : LedgerFailure).
Definition append_inode (d : Disk) (i : nat) (b : bytes) : Disk :=
  match inodes d !! i with Some file => with_inode d i (mkInode (cached file ++ b) (synced file)) | None => d end.
Definition file_write (i : nat) (b : bytes) : Io LedgerFailure WriteResult :=
  r ← next_response;
  match r with
  | Completed => perform (fun d => (append_inode d i b, WriteCount (length b)))
  | Wrote n => perform (fun d => (append_inode d i (take n b), WriteCount (Nat.min n (length b))))
  | Interrupted => mret WriteInterrupted
  | NoSpace | Unavailable => mret (WriteFailed (map_errno r))
  end.

(** A loop over system calls makes a call in every turn, so the responses bound its turns. *)
Fixpoint io_loop {E B R} (fuel : nat) (body : B -> Io E (B + R)) (b : B) : Io E R :=
  match fuel with
  | O => fun w => (w, Crashed)
  | Datatypes.S fuel => next ← body b; match next with inl b => io_loop fuel body b | inr r => mret r end
  end.
Definition looped {E B R} (body : B -> Io E (B + R)) (b : B) : Io E R := fun w => io_loop (Datatypes.S (length (responses w))) body b w.

(** [Write::write_all] *)
Definition write_all (i : nat) (b : bytes) : Io LedgerFailure unit :=
  looped (fun b =>
    if bool_decide (b = []) then mret (inr tt) else
    r ← file_write i b;
    match r with
    | WriteCount 0 => io_fail (map_errno Unavailable)
    | WriteCount n => mret (inl (drop n b))
    | WriteInterrupted => mret (inl b)
    | WriteFailed f => io_fail f
    end) b.

(** [Read::read_exact] at an offset. *)
Definition read_exact (i : nat) (offset n : nat) : Io LedgerFailure bytes :=
  io_map map_integrity_read (b ← file_content i; io_of (ok_or (map_errno Unavailable) (get_slice b offset (offset + n)))).
