(* ===== verification/LedgerStorage.v ===== *)
(** Active segment ledger: durable appends and recovery.

    Models [positron-kernel/src/active_segment_ledger/storage/append.rs], [recovery.rs],
    [recovery/publication.rs] and the recovery and sealing of segments in [storage.rs], over the files
    of [LedgerDisk]. The fault injection of the tests is inert in the program; fresh key bytes come
    from the operating system and are an argument. *)

From Stdlib Require Import Ascii String.
From stdpp Require Import gmap.
From S2P Require Import Prelude Outcome Identity Routing SourceTime RetentionTime LogStore LedgerFrame LedgerFormat LedgerDisk.

(** [positron-kernel/src/active_segment_ledger/storage.rs:41-44 AppendFailure] *)
Inductive AppendFailure := AppendRejected (f : LedgerFailure) | SegmentMutated (f : LedgerFailure).

(** [positron-kernel/src/active_segment_ledger/storage.rs:46-50 SegmentMutation] *)
Inductive SegmentMutation := NotStarted | BytesWritten.

(** [positron-kernel/src/active_segment_ledger/storage.rs:53-67 SegmentMutation::failure] *)
Definition mutation_failure (m : SegmentMutation) (f : LedgerFailure) : AppendFailure :=
  match m with
  | NotStarted => AppendRejected f
  | BytesWritten => SegmentMutated (match ledger_completion f with CommitAmbiguous => f | _ => post_mutation (ledger_code f) end)
  end.

(** [positron-kernel/src/active_segment_ledger/recovery.rs:24-30 FRONTIER_MAGIC!] *)
Definition FRONTIER_MAGIC : bytes := bytes_of_string "PFRONT02".
Definition FRONTIER_PREFIX_BYTES : nat := 16.
Definition MAX_FRONTIER_FRAME_BYTES : Z := 512.
Definition MAX_RECOVERED_BLOCKS : Z := 1024.
Definition frontier_plaintext_bytes (version : Z) : Z := match version with 1 => 24 | 2 => 33 | _ => 35 end.

Abbreviation frames_fail := (io_map map_frame_failure).

Section storage.
Context {B : CryptoBackend}.

(** A frame is sealed with the nonce of its sequence. *)
Definition seal_frame (key : ObjectDataKey) (context : FrameContext) (plaintext : bytes) (max : Z) : Io LedgerFailure bytes := fun w =>
  let w := mkWorld (disk w) (responses w) (seals w ++ [(odk_key key, nonce_for (fc_sequence context))]) in
  (w, match protect_frame key context plaintext max with Ok f => Returned f | Err e => Failed (map_frame_failure e) end).

Definition key_frame (key : ObjectDataKey) (purpose : SegmentFramePurpose) (sequence : Z) : result LedgerFailure FrameContext :=
  map_err map_frame_failure (segment_frame (odk_object key) purpose sequence).
Definition frame_limit (n : Z) : result LedgerFailure Z := map_err map_frame_failure (FrameLimits_new n).
Definition limit_exceeded_or {A} (o : option A) : result LedgerFailure A := ok_or (LedgerFailure_new LedgerLimitExceeded) o.
Definition corrupt_or {A} (o : option A) : result LedgerFailure A := ok_or (LedgerFailure_new LedgerIntegrityCorruption) o.

(** ** The durability frontier *)

Definition frontier_plaintext (durable_bytes next_sequence : Z) (position : CommitPosition) (retention : SegmentRetention) : bytes :=
  be_bytes 2 3 ++ be_bytes 8 durable_bytes ++ be_bytes 8 next_sequence ++ be_bytes 8 (position_value position) ++ retention_fields retention.

Definition frontier_file (frame : bytes) : bytes := FRONTIER_MAGIC ++ be_bytes 2 1 ++ be_bytes 2 3 ++ be_bytes 4 (zlen frame) ++ frame.

(** The file of a frontier is written under its temporary name, synchronised and renamed. *)
Definition replace_frontier (p : Place) (id : bytes) (encoded : bytes) : Io LedgerFailure unit :=
  let mutated {A} := @io_map _ _ A (fun f => post_mutation (ledger_code f)) in
  _ ← unlink p (frontier_temporary_name id);
  file ← create_file p (frontier_temporary_name id);
  _ ← mutated (write_all file encoded);
  _ ← mutated (synchronize_file file);
  _ ← mutated (rename p (frontier_temporary_name id) p (frontier_name id));
  io_map (fun f => ambiguous (ledger_code f)) (synchronize_directory p).

(** The frame of a frontier and the receipt that names it. *)
Definition protect_frontier (key : ObjectDataKey) (durable_bytes next_sequence : Z) (position : CommitPosition) (retention : SegmentRetention) : Io LedgerFailure (bytes * bytes) :=
  sequence ← io_of (limit_exceeded_or (checked_sub u64_max next_sequence));
  context ← io_of (key_frame key PurposeDurabilityFrontier sequence);
  limit ← io_of (frame_limit MAX_FRONTIER_FRAME_BYTES);
  frame ← seal_frame key context (frontier_plaintext durable_bytes next_sequence position retention) limit;
  _ ← io_of (if u32_max <? zlen frame then ledger_fail LedgerLimitExceeded else Ok tt);
  authenticator ← io_of (receipt_authenticator key durable_bytes next_sequence position);
  mret (frontier_file frame, authenticator).

(** [positron-kernel/src/active_segment_ledger/recovery/publication.rs:4-95 publish_frontier] The receipt
    of the new frontier. *)
Definition publish_frontier (p : Place) (id : bytes) (key : ObjectDataKey) (durable_bytes next_sequence : Z) (position : CommitPosition) (retention : SegmentRetention)
  : Io LedgerFailure bytes :=
  '(encoded, authenticator) ← protect_frontier key durable_bytes next_sequence position retention;
  _ ← replace_frontier p id encoded;
  mret authenticator.

(** ** Appending a frame *)

(** [positron-kernel/src/active_segment_ledger/storage/append.rs:76-107 write_segment_bytes] A count never
    exceeds what was to be written. *)
Definition write_segment_bytes (file : nat) (b : bytes) (mutation : SegmentMutation) : Io AppendFailure SegmentMutation :=
  looped (fun '(remaining, mutation) =>
    if bool_decide (remaining = []) then mret (inr mutation) else
    r ← io_map (mutation_failure mutation) (file_write file remaining);
    match r with
    | WriteCount 0 => io_fail (mutation_failure mutation (map_errno Unavailable))
    | WriteCount n => mret (inl (drop n remaining, BytesWritten))
    | WriteInterrupted => mret (inl (remaining, mutation))
    | WriteFailed f => io_fail (mutation_failure mutation f)
    end) (b, mutation).

(** [positron-kernel/src/active_segment_ledger/storage/append.rs:8-12 NextFrontier] *)
Record NextFrontier := mkNextFrontier { nf_sequence : Z; nf_position : CommitPosition; nf_retention : SegmentRetention }.

(** A decision of the resource governor. *)
Definition admitted : Io LedgerFailure unit :=
  r ← next_response;
  match r with Completed | Wrote _ => mret tt | _ => io_fail (LedgerFailure_new LedgerResourceAdmissionRefused) end.

(** The length and the frame are written and synchronised, after the governor admits the work. *)
Definition write_frame (file : nat) (frame_bytes : Z) (protect : Io LedgerFailure bytes) : Io AppendFailure SegmentMutation :=
  mutation ← write_segment_bytes file (be_bytes 4 frame_bytes) NotStarted;
  encrypted ← io_map (mutation_failure mutation) protect;
  _ ← write_segment_bytes file encrypted mutation;
  _ ← io_map (mutation_failure mutation) admitted;
  _ ← io_map (mutation_failure mutation) (synchronize_file file);
  mret mutation.

(** [positron-kernel/src/active_segment_ledger/storage/append.rs:15-73 LedgerStorage::append_and_commit] *)
Definition append_and_commit (current : option SegmentMetadata) (key : ObjectDataKey) (frontier : NextFrontier) (frame_bytes : Z) (protect : Io LedgerFailure bytes)
  : Io AppendFailure bytes :=
  let unchanged {A} := @io_map _ _ A (mutation_failure NotStarted) in
  metadata ← unchanged (io_of (corrupt_or current));
  file ← unchanged (open_regular ActivePlace (segment_name (md_id metadata)));
  mutation ← write_frame file frame_bytes protect;
  let mutated {A} := @io_map _ _ A (mutation_failure mutation) in
  durable_bytes ← mutated (file_length file);
  next ← mutated (io_of (limit_exceeded_or (checked_add u64_max (nf_sequence frontier) 1)));
  mutated (publish_frontier ActivePlace (md_id metadata) key durable_bytes next (nf_position frontier) (nf_retention frontier)).

(** ** Recovery *)

(** [positron-kernel/src/active_segment_ledger/recovery.rs:33-36 RecoveryState] *)
Record RecoveryState := mkRecoveryState { rs_frontier : CommitPosition; rs_blocks : list LedgerBlock }.
(** [positron-kernel/src/active_segment_ledger/recovery.rs:38-42 RecoveryMode] *)
Inductive RecoveryMode := Repair | ObserveOnly.
(** [positron-kernel/src/active_segment_ledger/recovery.rs:43-49 PublishedFrontier] *)
Record PublishedFrontier := mkPublished { pb_version : Z; pb_durable_bytes : Z; pb_next_sequence : Z; pb_position : CommitPosition; pb_retention : SegmentRetention }.

(** [positron-kernel/src/active_segment_ledger/recovery.rs:458-464 read_u64] *)
Definition read_u64 (b : bytes) (start : nat) : result LedgerFailure Z := v ← exact_bytes b start 8; Ok (be_value v).

(** The first candidate whose frame opens. *)
Fixpoint open_candidate (key : ObjectDataKey) (frame : bytes) (limit : Z) (fuel : nat) (candidate : Z) : result LedgerFailure (Z * bytes) :=
  match fuel with
  | O => ledger_fail LedgerAuthenticationFailed
  | Datatypes.S fuel =>
      sequence ← limit_exceeded_or (checked_sub u64_max candidate);
      context ← key_frame key PurposeDurabilityFrontier sequence;
      match open_frame key context frame limit with
      | Ok p => Ok (candidate, p)
      | Err FrameAuthenticationFailed => open_candidate key frame limit fuel (candidate + 1)
      | Err f => Err (map_frame_failure f)
      end
  end.

(** The contents of an opened frontier. *)
Definition decode_frontier (version frame_sequence : Z) (plaintext : bytes) : result LedgerFailure PublishedFrontier :=
  if negb (zlen plaintext =? frontier_plaintext_bytes version) then ledger_fail LedgerIntegrityCorruption else
  authenticated ← (if version =? 3 then
      v ← exact_bytes plaintext 0 2;
      if negb (be_value v =? version) then ledger_fail LedgerIntegrityCorruption else corrupt_or (get_from plaintext 2)
    else Ok plaintext);
  durable_bytes ← read_u64 authenticated 0;
  next_sequence ← read_u64 authenticated 8;
  if negb (next_sequence =? frame_sequence) then ledger_fail LedgerIntegrityCorruption else
  value ← read_u64 authenticated 16;
  position ← position_from_value value;
  retention ← (if version =? 3 then decode_segment_retention authenticated else Ok RetentionUnavailable);
  if (match retention with RetentionComplete _ => true | _ => false end) && (next_sequence =? 0) then ledger_fail LedgerIntegrityCorruption else
  Ok (mkPublished version durable_bytes next_sequence position retention).

(** [positron-kernel/src/active_segment_ledger/recovery.rs:284-409 read_frontier] *)
Definition read_frontier (p : Place) (id : bytes) (key : ObjectDataKey) : Io LedgerFailure (option PublishedFrontier) :=
  found ← call (fun d => (d, entries (directory d p) !! frontier_name id));
  match found with
  | None => mret None
  | Some file =>
      prefix ← read_exact file 0 FRONTIER_PREFIX_BYTES;
      if negb (bytes_eqb (take 8 prefix) FRONTIER_MAGIC) || negb (bytes_eqb (take 2 (drop 8 prefix)) (be_bytes 2 1)) then io_of (ledger_fail LedgerIntegrityCorruption) else
      let version := be_value (take 2 (drop 10 prefix)) in
      if negb ((1 <=? version) && (version <=? 3)) then io_of (ledger_fail LedgerUnsupportedFormat) else
      let frame_bytes := be_value (take 4 (drop 12 prefix)) in
      if (frame_bytes =? 0) || (MAX_FRONTIER_FRAME_BYTES <? frame_bytes) then io_of (ledger_fail LedgerIntegrityCorruption) else
      frame ← read_exact file FRONTIER_PREFIX_BYTES (Z.to_nat frame_bytes);
      length ← file_length file;
      if negb (length =? Z.of_nat FRONTIER_PREFIX_BYTES + frame_bytes) then io_of (ledger_fail LedgerIntegrityCorruption) else
      limit ← io_of (frame_limit MAX_FRONTIER_FRAME_BYTES);
      '(frame_sequence, plaintext) ← io_of (open_candidate key frame limit (Z.to_nat MAX_RECOVERED_BLOCKS + 1) 0);
      frontier ← io_of (decode_frontier version frame_sequence plaintext);
      mret (Some frontier)
  end.

(** The block in an opened frame; [sequence] blocks came before it. *)
Definition decode_block (version : Z) (base : CommitPosition) (segment : bytes) (key : ObjectDataKey) (header_bytes encoded_bytes consumed plaintext_bytes sequence frame_bytes : Z) (plaintext : bytes)
  : result LedgerFailure (LedgerBlock * Z * Z) :=
  identity ← corrupt_or (get_slice plaintext 0 16);
  identity ← map_err (fun _ => LedgerFailure_new LedgerIntegrityCorruption) (StoreBlockIdentity_new identity);
  retention ← (if version =? 3 then decode_block_retention plaintext else Ok RetentionUnavailable);
  payload ← corrupt_or (get_from plaintext (if version =? 3 then 25 else 16));
  if bool_decide (payload = []) then ledger_fail LedgerIntegrityCorruption else
  plaintext_bytes ← limit_exceeded_or (checked_add usize_max plaintext_bytes (zlen payload));
  if MAX_RETAINED_BLOCK_BYTES <? plaintext_bytes then ledger_fail LedgerLimitExceeded else
  next ← limit_exceeded_or (checked_add u64_max sequence 1);
  position ← map_err (fun _ => LedgerFailure_new LedgerLimitExceeded) (CommitPosition_advance_by base next);
  consumed ← limit_exceeded_or (consumed ← checked_add u64_max consumed 4; checked_add u64_max consumed frame_bytes);
  if encoded_bytes <? consumed then ledger_fail LedgerIntegrityCorruption else
  durable_bytes ← limit_exceeded_or (checked_add u64_max header_bytes consumed);
  authenticator ← receipt_authenticator key durable_bytes next position;
  Ok (mkLedgerBlock identity position payload (sha256 payload) segment authenticator retention, consumed, plaintext_bytes).

(** One turn of [read_blocks]. *)
Definition read_block (file : nat) (version : Z) (base : CommitPosition) (segment : bytes) (key : ObjectDataKey) (header_bytes encoded_bytes : Z)
  (state : list LedgerBlock * Z * Z) : Io LedgerFailure (list LedgerBlock * Z * Z) :=
  let '(blocks, consumed, plaintext_bytes) := state in
  if MAX_RECOVERED_BLOCKS <=? zlen blocks then io_of (ledger_fail LedgerLimitExceeded) else
  let offset := Z.to_nat (header_bytes + consumed) in
  length ← read_exact file offset 4;
  let frame_bytes := be_value length in
  if MAX_ENCODED_FRAME_BYTES <? frame_bytes then io_of (ledger_fail LedgerLimitExceeded) else
  frame ← read_exact file (offset + 4) (Z.to_nat frame_bytes);
  next ← io_of (limit_exceeded_or (checked_add u64_max (zlen blocks) 1));
  context ← io_of (key_frame key PurposeStoreBlock next);
  limit ← io_of (frame_limit MAX_ENCODED_FRAME_BYTES);
  plaintext ← io_of (map_err map_frame_failure (open_frame key context frame limit));
  '(block, consumed, plaintext_bytes) ← io_of (decode_block version base segment key header_bytes encoded_bytes consumed plaintext_bytes (zlen blocks) frame_bytes plaintext);
  mret (blocks ++ [block], consumed, plaintext_bytes).

(** [positron-kernel/src/active_segment_ledger/recovery.rs:169-282 read_blocks] *)
Definition read_blocks (file : nat) (encoded_bytes : Z) (base : CommitPosition) (segment : bytes) (header_bytes : Z) (key : ObjectDataKey) (version : Z) (retention : SegmentRetention)
  : Io LedgerFailure (list LedgerBlock) :=
  blocks ← looped (fun state =>
    let '(blocks, consumed, _) := state in
    if consumed <? encoded_bytes then state ← read_block file version base segment key header_bytes encoded_bytes state; mret (inl state)
    else mret (inr blocks)) ([], 0, 0);
  let recovered := fold_left (fun aggregate block => append_block aggregate (lb_retention block)) blocks RetentionEmpty in
  if (version =? 3) && negb (bool_decide (recovered = retention)) then io_of (ledger_fail LedgerIntegrityCorruption) else mret blocks.

(** [positron-kernel/src/active_segment_ledger/recovery.rs:77-167 recover_with_mode] *)
Definition recover_with_mode (segment_place frontier_place : Place) (metadata : SegmentMetadata) (key : ObjectDataKey) (header_bytes : Z) (mode : RecoveryMode)
  (allow_truncation : bool) : Io LedgerFailure RecoveryState :=
  let may_repair := match mode with Repair => allow_truncation | ObserveOnly => false end in
  file ← open_regular segment_place (segment_name (md_id metadata));
  frontier ← read_frontier frontier_place (md_id metadata) key;
  length ← file_length file;
  let tail bound :=
    if bound <? length then
      match mode with
      | ObserveOnly => mret tt
      | Repair =>
          if negb may_repair then io_of (ledger_fail LedgerIntegrityCorruption) else
          _ ← set_length file bound; synchronize_file file
      end
    else mret tt in
  match frontier with
  | None =>
      if length <? header_bytes then io_of (ledger_fail LedgerIntegrityCorruption) else
      _ ← tail header_bytes;
      mret (mkRecoveryState (md_base metadata) [])
  | Some f =>
      if (pb_durable_bytes f <? header_bytes) || (length <? pb_durable_bytes f) then io_of (ledger_fail LedgerIntegrityCorruption) else
      _ ← tail (pb_durable_bytes f);
      blocks ← read_blocks file (pb_durable_bytes f - header_bytes) (md_base metadata) (md_id metadata) header_bytes key (pb_version f) (pb_retention f);
      if negb (zlen blocks =? pb_next_sequence f) then io_of (ledger_fail LedgerIntegrityCorruption) else
      expected ← io_of (limit_exceeded_or (checked_add u64_max (position_value (md_base metadata)) (pb_next_sequence f)));
      if negb (position_value (pb_position f) =? expected) then io_of (ledger_fail LedgerIntegrityCorruption) else
      mret (mkRecoveryState (pb_position f) blocks)
  end.

(** ** Segments *)

(** [positron-kernel/src/active_segment_ledger/types.rs:180-183 SegmentProtectionKey] *)
Record SegmentProtectionKey := mkProtectionKey { pk_key : bytes; pk_route : SegmentKeyRoute }.

(** [positron-kernel/src/active_segment_ledger/storage.rs:101-162 LedgerStorage::create_active] *)
Definition create_active (metadata : SegmentMetadata) (protection : SegmentProtectionKey) (instance entropy : bytes) : Io LedgerFailure ObjectDataKey :=
  if negb (bool_decide (md_state metadata = SegmentActive)) then io_of (ledger_fail LedgerInvalidInput) else
  object ← io_of (object_context (md_scope metadata) (md_id metadata));
  let key := mkObjectDataKey entropy object in
  wrapped ← io_of (map_err map_frame_failure (wrap_segment_key (pk_key protection) key instance (pk_route protection)));
  context ← io_of (map_err map_frame_failure (segment_frame object PurposeSegmentMetadata 0));
  limit ← io_of (frame_limit MAX_ENCRYPTED_METADATA_BYTES);
  encrypted_metadata ← seal_frame key context (encode_metadata metadata) limit;
  header ← io_of (encode_header (pk_route protection) wrapped encrypted_metadata);
  file ← create_file ActivePlace (segment_name (md_id metadata));
  let mutated {A} := @io_map _ _ A (fun f => post_mutation (ledger_code f)) in
  _ ← mutated (write_all file header);
  _ ← mutated (synchronize_file file);
  _ ← mutated (synchronize_directory ActivePlace);
  mret key.

(** [positron-kernel/src/active_segment_ledger/storage.rs:290-333 LedgerStorage::seal] *)
Definition seal (metadata : SegmentMetadata) : Io LedgerFailure unit :=
  let id := md_id metadata in
  let mutated {A} := @io_map _ _ A (fun f => post_mutation (ledger_code f)) in
  active_exists ← entry_exists ActivePlace (segment_name id);
  sealed_exists ← entry_exists SealedPlace (segment_name id);
  _ ← match active_exists, sealed_exists with
      | true, false => rename ActivePlace (segment_name id) SealedPlace (segment_name id)
      | false, true => mret tt
      | _, _ => io_of (ledger_fail LedgerIntegrityCorruption)
      end;
  active_frontier ← entry_exists ActivePlace (frontier_name id);
  sealed_frontier ← entry_exists SealedPlace (frontier_name id);
  _ ← match active_frontier, sealed_frontier with
      | true, false => mutated (rename ActivePlace (frontier_name id) SealedPlace (frontier_name id))
      | false, _ => mret tt
      | true, true => io_of (ledger_fail LedgerIntegrityCorruption)
      end;
  _ ← mutated (synchronize_directory SealedPlace);
  mutated (synchronize_directory ActivePlace).

(** The key of a segment from its header, after its metadata was authenticated. *)
Definition open_segment (file : nat) (metadata : SegmentMetadata) (protection : SegmentProtectionKey) (instance : bytes)
  : Io LedgerFailure (ObjectDataKey * SegmentMetadata * Z) :=
  content ← file_content file;
  decoded ← io_of (decode_header (take 512 content));
  if negb (bool_decide (sh_route decoded = pk_route protection)) then io_of (ledger_fail LedgerAuthenticationFailed) else
  object ← io_of (object_context (md_scope metadata) (md_id metadata));
  key ← io_of (map_err map_frame_failure (unwrap_segment_key (pk_key protection) (sh_wrapped_key decoded) instance object (sh_route decoded)));
  context ← io_of (map_err map_frame_failure (segment_frame object PurposeSegmentMetadata 0));
  limit ← io_of (frame_limit MAX_ENCRYPTED_METADATA_BYTES);
  plaintext ← io_of (map_err map_frame_failure (open_frame key context (sh_metadata decoded) limit));
  physical ← io_of (decode_metadata plaintext);
  physical ← io_of (ok_or (LedgerFailure_new LedgerAuthenticationFailed) physical);
  if negb (bool_decide (md_state physical = SegmentActive)) || negb (bool_decide (md_scope physical = md_scope metadata)) || negb (bool_decide (md_id physical = md_id metadata))
     || (negb (bool_decide (md_state metadata = SegmentRetired)) && negb (position_value (md_base physical) =? position_value (md_base metadata)))
  then io_of (ledger_fail LedgerAuthenticationFailed) else
  mret (key, physical, sh_encoded_bytes decoded).

(** [positron-kernel/src/active_segment_ledger/storage.rs:174-288 LedgerStorage::recover_segment_with_mode] *)
Definition recover_segment_with_mode (metadata : SegmentMetadata) (protection : SegmentProtectionKey) (instance : bytes) (mode : RecoveryMode)
  : Io LedgerFailure (ObjectDataKey * RecoveryState) :=
  let id := md_id metadata in
  let catalog_active := bool_decide (md_state metadata = SegmentActive) in
  let catalog_sealed := bool_decide (md_state metadata = SegmentSealed) in
  _ ← match catalog_active, mode with
      | true, Repair => removed ← unlink ActivePlace (frontier_temporary_name id); if (removed : bool) then synchronize_directory ActivePlace else mret tt
      | _, _ => mret tt
      end;
  active_exists ← entry_exists ActivePlace (segment_name id);
  sealed_exists ← entry_exists SealedPlace (segment_name id);
  let published_sealed_active := catalog_sealed && active_exists && negb sealed_exists in
  published_sealed_partial ←
    (if catalog_sealed && negb active_exists && sealed_exists then
       active_frontier ← entry_exists ActivePlace (frontier_name id);
       if (active_frontier : bool) then sealed_frontier ← entry_exists SealedPlace (frontier_name id); mret (negb sealed_frontier) else mret false
     else mret false);
  '(place, recoverable_tail) ← io_of (match active_exists, sealed_exists, catalog_active with
    | true, false, true => Ok (ActivePlace, true)
    | false, true, true => Ok (SealedPlace, true)
    | false, true, false => Ok (SealedPlace, false)
    | true, false, false => if published_sealed_active then Ok (ActivePlace, false) else ledger_fail LedgerIntegrityCorruption
    | _, _, _ => ledger_fail LedgerIntegrityCorruption
    end);
  active_frontier ← entry_exists ActivePlace (frontier_name id);
  sealed_frontier ← entry_exists SealedPlace (frontier_name id);
  frontier_place ← io_of (match active_frontier, sealed_frontier, catalog_active with
    | true, false, true => Ok ActivePlace
    | false, true, _ => Ok SealedPlace
    | false, false, _ => Ok place
    | true, false, false => if published_sealed_active || published_sealed_partial then Ok ActivePlace else ledger_fail LedgerIntegrityCorruption
    | _, _, _ => ledger_fail LedgerIntegrityCorruption
    end);
  file ← open_regular place (segment_name id);
  '(key, physical, header_bytes) ← open_segment file metadata protection instance;
  let recovery_metadata :=
    if bool_decide (md_state metadata = SegmentRetired) then mkSegmentMetadata (md_scope metadata) id SegmentSealed (md_base physical) else metadata in
  state ← recover_with_mode place frontier_place recovery_metadata key header_bytes mode recoverable_tail;
  _ ← match mode with
      | Repair => if published_sealed_active || published_sealed_partial then seal metadata else mret tt
      | ObserveOnly => mret tt
      end;
  mret (key, state).

(** ** Removing files *)

(** Entries are removed one after the other; whether one was there. *)
Fixpoint unlink_all (changed : bool) (names : list (Place * Name)) : Io LedgerFailure bool :=
  match names with
  | [] => mret changed
  | (p, name) :: names =>
      removed ← io_map (fun f => if changed then post_mutation (ledger_code f) else f) (unlink p name);
      unlink_all (changed || removed) names
  end.

(** [positron-kernel/src/active_segment_ledger/storage.rs:387-416 LedgerStorage::reclaim_retired] *)
Definition reclaim_retired (metadata : SegmentMetadata) : Io LedgerFailure bool :=
  let id := md_id metadata in
  if negb (bool_decide (md_state metadata = SegmentRetired)) then io_of (ledger_fail LedgerInvalidInput) else
  segment ← entry_exists ActivePlace (segment_name id);
  active ← (if (segment : bool) then mret true else entry_exists ActivePlace (frontier_name id));
  if (active : bool) then io_of (ledger_fail LedgerIntegrityCorruption) else
  changed ← unlink_all false [(SealedPlace, segment_name id); (SealedPlace, frontier_name id)];
  _ ← (if (changed : bool) then io_map (fun f => post_mutation (ledger_code f)) (synchronize_directory SealedPlace) else mret tt);
  mret changed.

(** [positron-kernel/src/active_segment_ledger/storage.rs:421-450 LedgerStorage::discard_unpublished] *)
Definition discard_unpublished (metadata : SegmentMetadata) : Io LedgerFailure unit :=
  let id := md_id metadata in
  changed ← unlink_all false [(ActivePlace, segment_name id); (ActivePlace, frontier_name id); (SealedPlace, segment_name id); (SealedPlace, frontier_name id)];
  if (changed : bool) then
    _ ← io_map (fun f => post_mutation (ledger_code f)) (synchronize_directory ActivePlace);
    io_map (fun f => post_mutation (ledger_code f)) (synchronize_directory SealedPlace)
  else mret tt.

(** ** The segments of the catalog *)

Definition MAX_SEGMENTS : Z := 1024.

(** [Dir::read_from] and its entries. *)
Definition list_directory (p : Place) : Io LedgerFailure (list Name) := call (fun d => (d, (map_to_list (entries (directory d p))).*1)).

(** Whether a catalog with these segments has a file of this name. *)
Definition published (metadata : list SegmentMetadata) (active_namespace : bool) (name : Name) : bool :=
  existsb (fun segment => bool_decide (name = segment_name (md_id segment)) || bool_decide (name = frontier_name (md_id segment))
    || (active_namespace && bool_decide (md_state segment = SegmentActive) && bool_decide (name = frontier_temporary_name (md_id segment)))) metadata.

(** The loop over the entries of one directory. *)
Fixpoint reject_entries (metadata : list SegmentMetadata) (p : Place) (repair : bool) (count : Z) (removed : bool) (names : list Name) : Io LedgerFailure bool :=
  let active_namespace := match p with ActivePlace => true | SealedPlace => false end in
  match names with
  | [] => mret removed
  | name :: names =>
      if MAX_SEGMENTS * 2 <? count + 1 then io_of (ledger_fail LedgerLimitExceeded) else
      if published metadata active_namespace name then reject_entries metadata p repair (count + 1) removed names
      else if negb active_namespace then io_of (ledger_fail LedgerIntegrityCorruption)
      else if repair then _ ← unlink p name; reject_entries metadata p repair (count + 1) true names
      else reject_entries metadata p repair (count + 1) removed names
  end.

Definition reject_directory (metadata : list SegmentMetadata) (repair : bool) (p : Place) : Io LedgerFailure unit :=
  names ← list_directory p;
  removed ← reject_entries metadata p repair 0 false names;
  if (removed : bool) then synchronize_directory p else mret tt.

(** [positron-kernel/src/active_segment_ledger/storage/catalog.rs:69-112 LedgerStorage::reject_unpublished_entries] Every
    name in the directories is one that the ledger writes. *)
Definition reject_unpublished_entries (metadata : list SegmentMetadata) (repair : bool) : Io LedgerFailure unit :=
  _ ← reject_directory metadata repair ActivePlace;
  reject_directory metadata repair SealedPlace.

(** A stable sort by the base position, retired segments first. *)
Definition segment_after (a b : SegmentMetadata) : bool :=
  (position_value (md_base b) <? position_value (md_base a))
  || ((position_value (md_base a) =? position_value (md_base b)) && negb (bool_decide (md_state a = SegmentRetired)) && bool_decide (md_state b = SegmentRetired)).
Fixpoint insert_segment (m : SegmentMetadata) (sorted : list SegmentMetadata) : list SegmentMetadata :=
  match sorted with
  | [] => [m]
  | first :: rest => if segment_after m first then first :: insert_segment m rest else m :: sorted
  end.
Definition sort_segments (segments : list SegmentMetadata) : list SegmentMetadata := fold_right insert_segment [] segments.

(** [positron-kernel/src/active_segment_ledger/storage/catalog.rs:27-67 LedgerStorage::catalog_segments_mode] The
    argument is the plaintext objects of a snapshot. *)
Definition catalog_segments_mode (objects : list bytes) (scope : SegmentScope) (repair : bool) : Io LedgerFailure (list SegmentMetadata) :=
  all_segments ← io_of (try_fold (fun found plaintext => decoded ← decode_metadata plaintext; Ok (match decoded with Some m => found ++ [m] | None => found end)) [] objects);
  _ ← reject_unpublished_entries all_segments repair;
  let segments := filter (fun m => md_scope m = scope) all_segments in
  if 1 <? zlen (filter (fun m => md_state m = SegmentActive) segments) then io_of (ledger_fail LedgerIntegrityCorruption) else
  mret (sort_segments segments).
End storage.
