(* ===== verification/LedgerAppend.v ===== *)
(** Active segment ledger: appending a store block.

    Models [positron-kernel/src/active_segment_ledger/append.rs], [state.rs], [types/prepared.rs],
    [reconstruction.rs] and the claims of [capacity.rs] that these use. The state behind the lock of a
    ledger is [LedgerState]; an append returns or fails with the new state, and a crash loses it. A
    decision of the governor is one response of the environment. The lock is not poisoned, because
    nothing under it panics. *)

From stdpp Require Import gmap.
From S2P Require Import Prelude Outcome Identity Routing SourceTime RetentionTime LogStore GovernorModel GovernorPools GovernorState GovernorAdmission GovernorResize LedgerFrame LedgerFormat LedgerDisk LedgerStorage.

(** ** Claims *)

Abbreviation limit_failure := (LedgerFailure_new LedgerLimitExceeded).

(** [positron-kernel/src/active_segment_ledger/capacity.rs:86-95 append_claim] *)
Definition append_claim (block_bytes : Z) : result LedgerFailure ResourceAmounts :=
  frame ← ok_or limit_failure (checked_add u64_max block_bytes 384);
  Ok (mkAmounts frame 1 1 frame 1 0 1 1 1 4 frame).

(** [positron-kernel/src/active_segment_ledger/capacity.rs:173-181 retained_memory] *)
Definition retained_memory (bytes blocks : Z) : result LedgerFailure Z :=
  ok_or limit_failure (items ← checked_mul u64_max blocks 128; value ← checked_add u64_max bytes items; checked_add u64_max value 1).

(** [positron-kernel/src/active_segment_ledger/capacity.rs:97-109 retained_claim] *)
Definition retained_claim (bytes blocks : Z) : result LedgerFailure ResourceAmounts :=
  memory ← retained_memory bytes blocks;
  items ← ok_or limit_failure (checked_add u64_max blocks 1);
  Ok (mkAmounts memory 0 0 0 items 0 0 0 0 0 0).

(** ** Prepared blocks *)

(** [positron-kernel/src/active_segment_ledger/types/prepared.rs:50-58 PreparedStoreBlock] The digest is a cache of
    the payload's. The flag of the capacity says whether this ledger's governor granted it. *)
Record PreparedStoreBlock := mkPrepared {
  pr_scope : SegmentScope;
  pr_identity : bytes;
  pr_payload : bytes;
  pr_capacity : option (bool * ResourceReservation);
  pr_retention : option IngestTime;
}.

(** [positron-kernel/src/active_segment_ledger/types/prepared.rs:90-108 PreparedStoreBlock::checked] *)
Definition PreparedStoreBlock_checked (scope : SegmentScope) (identity payload : bytes) (capacity : option (bool * ResourceReservation)) (retention : option IngestTime)
  : result LedgerFailure PreparedStoreBlock :=
  if bool_decide (payload = []) || (MAX_STORE_BLOCK_BYTES <? zlen payload) then ledger_fail LedgerLimitExceeded
  else Ok (mkPrepared scope identity payload capacity retention).

(** ** State *)

(** [positron-kernel/src/active_segment_ledger/state.rs:18-34 LedgerState] Without the snapshot leases. *)
Record LedgerState := mkLedgerState {
  ls_capacity : ResourceAmounts;
  ls_frontier : CommitPosition;
  ls_blocks : list LedgerBlock;
  ls_retained_bytes : Z;
  ls_next_sequence : Z;
  ls_poisoned : bool;
}.

(** [positron-kernel/src/active_segment_ledger/state.rs:37-43 LedgerState::require_healthy] *)
Definition require_healthy (st : LedgerState) : result LedgerFailure unit := if ls_poisoned st then ledger_fail LedgerRecoveryRequired else Ok tt.

Definition with_capacity (st : LedgerState) (a : ResourceAmounts) : LedgerState :=
  mkLedgerState a (ls_frontier st) (ls_blocks st) (ls_retained_bytes st) (ls_next_sequence st) (ls_poisoned st).
Definition poison (st : LedgerState) : LedgerState :=
  mkLedgerState (ls_capacity st) (ls_frontier st) (ls_blocks st) (ls_retained_bytes st) (ls_next_sequence st) true.

(** [positron-kernel/src/active_segment_ledger/mod.rs:262-273 ActiveSegmentLedger!] What an append reads of it. *)
Record ActiveSegmentLedger := mkLedgerHandle {
  al_scope : SegmentScope;
  al_retention_time : bool;
  al_current : option SegmentMetadata;
  al_key : ObjectDataKey;
}.

(** ** Appending *)

Definition block_plaintext (identity : bytes) (retention : SegmentRetention) (payload : bytes) : bytes := identity ++ retention_fields retention ++ payload.

Definition segment_retention (segment : bytes) (blocks : list LedgerBlock) : SegmentRetention :=
  fold_left (fun aggregate b => append_block aggregate (lb_retention b)) (filter (fun b => lb_segment b = segment) blocks) RetentionEmpty.

Section appending.
Context {B : CryptoBackend}.

(** The checks before the lock is taken. *)
Definition append_guards (l : ActiveSegmentLedger) (block : PreparedStoreBlock) : result LedgerFailure unit :=
  if negb (bool_decide (pr_scope block = al_scope l)) then ledger_fail LedgerPhysicalScopeMismatch else
  if al_retention_time l && bool_decide (pr_retention block = None) then ledger_fail LedgerUnsupportedFormat else
  match pr_capacity block with
  | Some (own, capacity) =>
      if negb own || negb (authorizes_ingest_preparation capacity (scope_tenant (al_scope l)) (zlen (pr_payload block)))
      then ledger_fail LedgerResourceAdmissionRefused else Ok tt
  | None => Ok tt
  end.

(** What an append computes before it changes anything: the block without its authenticator, the
    retained bytes, the frontier to publish and the frame to write. *)
Record AppendPlan := mkAppendPlan {
  ap_segment : bytes;
  ap_position : CommitPosition;
  ap_retained_bytes : Z;
  ap_block_count : Z;
  ap_block_retention : SegmentRetention;
  ap_segment_retention : SegmentRetention;
  ap_context : FrameContext;
  ap_limit : Z;
  ap_plaintext : bytes;
  ap_frame_bytes : Z;
}.

Definition plan_append (l : ActiveSegmentLedger) (st : LedgerState) (block : PreparedStoreBlock) (amounts : ResourceAmounts) : result LedgerFailure AppendPlan :=
  _ ← map_err (fun _ => limit_failure) (RecoveryWorkClaim_tenant (scope_tenant (al_scope l)) DurabilityCompletion amounts);
  block_count ← limit_exceeded_or (checked_add usize_max (zlen (ls_blocks st)) 1);
  retained_bytes ← limit_exceeded_or (checked_add usize_max (ls_retained_bytes st) (zlen (pr_payload block)));
  if negb ((retained_bytes <=? MAX_RETAINED_BLOCK_BYTES) && (block_count <=? MAX_RETAINED_BLOCKS)) then Err limit_failure else
  position ← map_err (fun _ => limit_failure) (CommitPosition_next (ls_frontier st));
  metadata ← corrupt_or (al_current l);
  let segment := md_id metadata in
  let block_retention := for_block (pr_retention block) in
  next ← limit_exceeded_or (checked_add u64_max (ls_next_sequence st) 1);
  context ← key_frame (al_key l) PurposeStoreBlock next;
  limit ← frame_limit MAX_ENCODED_FRAME_BYTES;
  let plaintext := block_plaintext (pr_identity block) block_retention (pr_payload block) in
  frame_bytes ← map_err map_frame_failure (protected_frame_length (zlen plaintext) limit);
  Ok (mkAppendPlan segment position retained_bytes block_count block_retention
        (append_block (segment_retention segment (ls_blocks st)) block_retention) context limit plaintext frame_bytes).

(** The capacity of the work: what the preparation brought or a new grant, of the claimed amounts. *)
Definition ordinary_work (l : ActiveSegmentLedger) (block : PreparedStoreBlock) (amounts : ResourceAmounts) : Io LedgerFailure unit :=
  claim ← io_of (map_err (fun _ => limit_failure) (WorkClaim_tenant (scope_tenant (al_scope l)) Ingest amounts));
  match pr_capacity block with
  | Some (_, capacity) => if bool_decide (res_amounts capacity = claim_amounts claim) then mret tt else admitted
  | None => admitted
  end.

(** What becomes of the state after the durable part of an append. *)
Definition settle_append (st : LedgerState) (block : PreparedStoreBlock) (plan : AppendPlan) (claim : ResourceAmounts) (durable : Io AppendFailure bytes)
  : Io (LedgerState * LedgerFailure) (LedgerState * CommitReceipt) := fun w =>
  let resized := with_capacity st claim in
  match durable w with
  | (w, Returned authenticator) =>
      let committed := mkLedgerBlock (pr_identity block) (ap_position plan) (pr_payload block) (sha256 (pr_payload block)) (ap_segment plan) authenticator (ap_block_retention plan) in
      let pushed next := mkLedgerState claim (ap_position plan) (ls_blocks st ++ [committed]) (ap_retained_bytes plan) next (ls_poisoned st) in
      match checked_add u64_max (ls_next_sequence st) 1 with
      | Some next => (w, Returned (pushed next, receipt_for committed))
      | None => (w, Failed (pushed (ls_next_sequence st), limit_failure))
      end
  | (w, Failed (AppendRejected f)) =>
      match admitted w with
      | (w, Returned _) => (w, Failed (st, f))
      | (w, Failed _) => (w, Failed (resized, LedgerFailure_new LedgerRecoveryRequired))
      | (w, Crashed) => (w, Crashed)
      end
  | (w, Failed (SegmentMutated f)) => (w, Failed (poison resized, f))
  | (w, Crashed) => (w, Crashed)
  end.

(** The part of an append that holds the retained capacity and writes. *)
Definition commit_append (l : ActiveSegmentLedger) (st : LedgerState) (block : PreparedStoreBlock) (plan : AppendPlan)
  : Io (LedgerState * LedgerFailure) (LedgerState * CommitReceipt) :=
  claim ← io_map (pair st) (io_of (retained_claim (ap_retained_bytes plan) (ap_block_count plan)));
  _ ← io_map (pair st) admitted;
  settle_append st block plan claim
    (append_and_commit (al_current l) (al_key l) (mkNextFrontier (ls_next_sequence st) (ap_position plan) (ap_segment_retention plan)) (ap_frame_bytes plan)
       (seal_frame (al_key l) (ap_context plan) (ap_plaintext plan) (ap_limit plan))).

(** [positron-kernel/src/active_segment_ledger/append.rs:34-208 ActiveSegmentLedger::append_inner] *)
Definition append_inner (l : ActiveSegmentLedger) (st : LedgerState) (block : PreparedStoreBlock) (cancelled : bool)
  : Io (LedgerState * LedgerFailure) (LedgerState * CommitReceipt) :=
  let same {A} := @io_map _ _ A (pair st) in
  _ ← same (io_of (append_guards l block));
  match List.find (fun item => bytes_eqb (lb_identity item) (pr_identity block)) (ls_blocks st) with
  | Some committed =>
      if negb (bytes_eqb (lb_payload committed) (pr_payload block)) then io_fail (st, LedgerFailure_new LedgerIdempotencyConflict)
      else mret (st, receipt_for committed)
  | None =>
      if cancelled then io_fail (st, LedgerFailure_new LedgerCancelled) else
      _ ← same (io_of (require_healthy st));
      amounts ← same (io_of (append_claim (zlen (pr_payload block))));
      _ ← same (ordinary_work l block amounts);
      plan ← same (io_of (plan_append l st block amounts));
      commit_append l st block plan
  end.

(** ** Reconstruction *)

(** [positron-kernel/src/active_segment_ledger/state.rs:54-80 retain_recovered] *)
Definition retain_recovered (recovered : RecoveryState) (blocks : list LedgerBlock) (retained_bytes : Z) : result LedgerFailure (list LedgerBlock * Z * CommitPosition) :=
  block_count ← limit_exceeded_or (checked_add usize_max (zlen blocks) (zlen (rs_blocks recovered)));
  recovered_bytes ← limit_exceeded_or (fold_left (fun total b => t ← total; checked_add usize_max t (zlen (lb_payload b))) (rs_blocks recovered) (Some 0));
  retained ← limit_exceeded_or (checked_add usize_max retained_bytes recovered_bytes);
  if negb ((retained <=? MAX_RETAINED_BLOCK_BYTES) && (block_count <=? MAX_RETAINED_BLOCKS)) then Err limit_failure else
  Ok (blocks ++ rs_blocks recovered, retained, rs_frontier recovered).

(** [positron-kernel/src/active_segment_ledger/reconstruction.rs:13-18 Reconstruction] *)
Record Reconstruction := mkReconstruction {
  rc_blocks : list LedgerBlock;
  rc_retained_bytes : Z;
  rc_frontier : CommitPosition;
  rc_active : option (SegmentMetadata * ObjectDataKey);
}.

(** The segments of one base position: what the empty sealed ones leave, the sealed segment that
    advances and the active one, and the segments that follow. *)
Fixpoint recover_base (protection : SegmentProtectionKey) (instance : bytes) (mode : RecoveryMode) (base : CommitPosition) (segments : list SegmentMetadata)
  (kept : list LedgerBlock * Z * CommitPosition) (advancing : option RecoveryState) (active : option (SegmentMetadata * ObjectDataKey * RecoveryState))
  : Io LedgerFailure (list SegmentMetadata * (list LedgerBlock * Z * CommitPosition) * option RecoveryState * option (SegmentMetadata * ObjectDataKey * RecoveryState)) :=
  match segments with
  | segment :: rest =>
      if negb (position_value (md_base segment) =? position_value base) then mret (segments, kept, advancing, active) else
      '(key, recovered) ← recover_segment_with_mode segment protection instance mode;
      if bool_decide (md_state segment = SegmentActive) then recover_base protection instance mode base rest kept advancing (Some (segment, key, recovered))
      else if position_value (rs_frontier recovered) =? position_value base then
        kept ← io_of (retain_recovered recovered kept.1.1 kept.1.2);
        recover_base protection instance mode base rest kept advancing active
      else match advancing with
           | Some _ => io_of (ledger_fail LedgerIntegrityCorruption)
           | None => recover_base protection instance mode base rest kept (Some recovered) active
           end
  | [] => mret ([], kept, advancing, active)
  end.

(** One turn of the outer loop of [reconstruct]. *)
Definition reconstruct_base (protection : SegmentProtectionKey) (instance : bytes) (mode : RecoveryMode) (segments : list SegmentMetadata) (r : Reconstruction)
  : Io LedgerFailure (list SegmentMetadata * Reconstruction) :=
  match segments with
  | [] => mret ([], r)
  | first :: rest =>
      if bool_decide (md_state first = SegmentRetired) then
        if position_value (md_base first) <? position_value (rc_frontier r) then io_of (ledger_fail LedgerIntegrityCorruption)
        else mret (rest, mkReconstruction (rc_blocks r) (rc_retained_bytes r) (md_base first) (rc_active r))
      else if negb (position_value (md_base first) =? position_value (rc_frontier r)) then io_of (ledger_fail LedgerIntegrityCorruption) else
      '(rest, kept, advancing, active) ← recover_base protection instance mode (md_base first) segments (rc_blocks r, rc_retained_bytes r, rc_frontier r) None None;
      if bool_decide (is_Some advancing) && bool_decide (is_Some active) then io_of (ledger_fail LedgerIntegrityCorruption) else
      kept ← io_of (match advancing with Some recovered => retain_recovered recovered kept.1.1 kept.1.2 | None => Ok kept end);
      match active with
      | None => mret (rest, mkReconstruction kept.1.1 kept.1.2 kept.2 (rc_active r))
      | Some (segment, key, recovered) =>
          if negb (bool_decide (rest = [])) then io_of (ledger_fail LedgerIntegrityCorruption) else
          kept ← io_of (retain_recovered recovered kept.1.1 kept.1.2);
          mret (rest, mkReconstruction kept.1.1 kept.1.2 kept.2 (Some (segment, key)))
      end
  end.

(** Every turn consumes a segment. *)
Fixpoint reconstruct_loop (protection : SegmentProtectionKey) (instance : bytes) (mode : RecoveryMode) (fuel : nat) (segments : list SegmentMetadata) (r : Reconstruction)
  : Io LedgerFailure Reconstruction :=
  match segments, fuel with
  | [], _ | _, O => mret r
  | _, Datatypes.S fuel =>
      '(segments, r) ← reconstruct_base protection instance mode segments r;
      reconstruct_loop protection instance mode fuel segments r
  end.

(** [positron-kernel/src/active_segment_ledger/reconstruction.rs:20-86 reconstruct] *)
Definition reconstruct (protection : SegmentProtectionKey) (instance : bytes) (mode : RecoveryMode) (metadata : list SegmentMetadata) : Io LedgerFailure Reconstruction :=
  reconstruct_loop protection instance mode (length metadata) metadata (mkReconstruction [] 0 CommitPosition_origin None).

(** [positron-kernel/src/active_segment_ledger/mod.rs:495-509 ActiveSegmentLedger::open_at!] The state of a ledger
    that was opened on these blocks. *)
Definition opened_state (capacity : ResourceAmounts) (r : Reconstruction) : LedgerState := mkLedgerState capacity (rc_frontier r) (rc_blocks r) (rc_retained_bytes r) 0 false.
End appending.
