(* ===== verification/LedgerLogic.v ===== *)
(** Active segment ledger: reasoning about programs over files.

    Two judgements. [triple P m Q F C] holds under every list of responses: from a disk with [P], the
    program returns [a] with [Q a], fails with [e] with [F e], or the machine stops with [C].
    [completes m n d a d'] describes an undisturbed run: when the next [n] calls complete, the
    program returns [a] and leaves the disk [d'].

    A [phase] says which bytes of the segment file readers see and which are synchronised, and which
    file the frontier's name leads to now and after a crash. Every system call of an append moves
    between phases; a crash in a phase leaves a disk whose segment file starts with what was
    synchronised and whose frontier is the current or the synchronised one. *)

From stdpp Require Import gmap.
From S2P Require Import Prelude Outcome Identity Routing SourceTime RetentionTime LogStore LedgerFrame LedgerFormat LedgerDisk.

(** ** Under every response *)

(** The assertions are about a part of the world. *)
Definition triple_on {T E A} (view : World -> T) (P : T -> Prop) (m : Io E A) (Q : A -> T -> Prop) (F : E -> T -> Prop) (C : T -> Prop) : Prop :=
  forall w, P (view w) -> match m w with (w', Returned a) => Q a (view w') | (w', Failed e) => F e (view w') | (w', Crashed) => C (view w') end.
Abbreviation triple := (triple_on disk).

Section triples.
Context {T E : Type} (view : World -> T).

Lemma triple_ret {A} (a : A) (P : T -> Prop) (Q : A -> T -> Prop) (F : E -> T -> Prop) C : (forall d, P d -> Q a d) -> triple_on view P (mret a) Q F C.
Proof. intros H w Hw. cbn. auto. Qed.

Lemma triple_fail {A} (e : E) (P : T -> Prop) (Q : A -> T -> Prop) (F : E -> T -> Prop) C : (forall d, P d -> F e d) -> triple_on view P (io_fail e) Q F C.
Proof. intros H w Hw. cbn. auto. Qed.

Lemma triple_of {A} (r : result E A) (P : T -> Prop) (Q : A -> T -> Prop) (F : E -> T -> Prop) C :
  (forall a d, r = Ok a -> P d -> Q a d) -> (forall e d, r = Err e -> P d -> F e d) -> triple_on view P (io_of r) Q F C.
Proof. intros H1 H2 w Hw. cbn. destruct r; auto. Qed.

Lemma triple_bind {A X} (m : Io E A) (k : A -> Io E X) P Q R (F : E -> T -> Prop) C :
  triple_on view P m Q F C -> (forall a, triple_on view (Q a) (k a) R F C) -> triple_on view P (m ≫= k) R F C.
Proof.
  intros Hm Hk w Hw. specialize (Hm w Hw). unfold mbind, Io_bind. destruct (m w) as [w' [a|e|]]; [|done|done]. exact (Hk a w' Hm).
Qed.

Lemma triple_pre {A} (P P' : T -> Prop) (m : Io E A) Q F C : (forall d, P d -> P' d) -> triple_on view P' m Q F C -> triple_on view P m Q F C.
Proof. intros H Hm w Hw. apply Hm, H, Hw. Qed.

Lemma triple_conseq {A} (P P' : T -> Prop) (m : Io E A) Q Q' F F' (C C' : T -> Prop) :
  (forall d, P d -> P' d) -> (forall a d, Q' a d -> Q a d) -> (forall e d, F' e d -> F e d) -> (forall d, C' d -> C d) -> triple_on view P' m Q' F' C' -> triple_on view P m Q F C.
Proof. intros HP HQ HF HC Hm w Hw. specialize (Hm w (HP _ Hw)). destruct (m w) as [w' [a|e|]]; auto. Qed.

(** A fact about the disk that does not depend on it. *)
Lemma triple_pure {A} (phi : Prop) (P : T -> Prop) (m : Io E A) Q F C : (phi -> triple_on view P m Q F C) -> triple_on view (fun d => phi /\ P d) m Q F C.
Proof. intros H w [Hphi Hw]. by apply H. Qed.

Lemma triple_exists {A X} (P : X -> T -> Prop) (m : Io E A) Q F C : (forall x, triple_on view (P x) m Q F C) -> triple_on view (fun d => exists x, P x d) m Q F C.
Proof. intros H w [x Hw]. by apply (H x). Qed.

Lemma triple_map {F' : Type} {A} (f : E -> F') (m : Io E A) P Q (F : F' -> T -> Prop) C : triple_on view P m Q (fun e => F (f e)) C -> triple_on view P (io_map f m) Q F C.
Proof. intros H w Hw. specialize (H w Hw). unfold io_map. by destruct (m w) as [w' [a|e|]]. Qed.

Lemma triple_loop {X R} (body : X -> Io E (X + R)) (Inv : X -> T -> Prop) Q F (C : T -> Prop) :
  (forall x d, Inv x d -> C d) -> (forall x, triple_on view (Inv x) (body x) (fun r d => match r with inl x => Inv x d | inr r => Q r d end) F C) ->
  forall x, triple_on view (Inv x) (looped body x) Q F C.
Proof.
  intros HC Hbody x w. unfold looped. generalize (Datatypes.S (length (responses w))). intros fuel. revert x w.
  enough (H : forall fuel x, triple_on view (Inv x) (io_loop fuel body x) Q F C) by (intros; by apply H).
  clear fuel. induction fuel as [|fuel IH]; intros x; [intros w; apply HC|]. cbn [io_loop]. eapply triple_bind; [apply Hbody|].
  intros [x'|r]; [apply IH|by apply triple_ret].
Qed.
End triples.

(** A part of the world that a response does not change. *)
Definition unaffected {T} (view : World -> T) : Prop := forall w rs, view (mkWorld (disk w) rs (seals w)) = view w.

Lemma triple_next_on {T} (view : World -> T) (P : T -> Prop) Q (F : LedgerFailure -> T -> Prop) (C : T -> Prop) :
  unaffected view -> (forall r d, P d -> Q r d) -> (forall d, P d -> C d) -> triple_on view P next_response Q F C.
Proof. intros Hview HQ HC w Hw. unfold next_response. destruct (responses w); [auto|]. rewrite Hview. auto. Qed.

Lemma triple_next P Q (F : LedgerFailure -> Disk -> Prop) (C : Disk -> Prop) : (forall r d, P d -> Q r d) -> (forall d, P d -> C d) -> triple P next_response Q F C.
Proof. intros HQ HC w Hw. unfold next_response. destruct (responses w); cbn; auto. Qed.

Lemma triple_perform {E A} (effect : Disk -> Disk * A) P Q (F : E -> Disk -> Prop) C : (forall d, P d -> Q (effect d).2 (effect d).1) -> triple P (perform effect) Q F C.
Proof. intros H w Hw. unfold perform. specialize (H (disk w) Hw). destruct (effect (disk w)) as [d a]. exact H. Qed.

Lemma map_errno_rejected r : ledger_completion (map_errno r) = RejectedBeforeMutation.
Proof. by destruct r. Qed.

(** A call that fails leaves the disk as it was. *)
Lemma triple_call {A} (effect : Disk -> Disk * A) P Q (F : LedgerFailure -> Disk -> Prop) (C : Disk -> Prop) :
  (forall d, P d -> Q (effect d).2 (effect d).1) -> (forall f d, ledger_completion f = RejectedBeforeMutation -> P d -> F f d) -> (forall d, P d -> C d) ->
  triple P (call effect) Q F C.
Proof.
  intros HQ HF HC. unfold call. eapply triple_bind; [apply triple_next with (Q := fun _ => P); auto|]. intros r.
  destruct r; try (apply triple_perform; by auto); apply triple_fail; intros; apply HF; try done; apply map_errno_rejected.
Qed.

(** A call that only reads. *)
Lemma triple_read {A} (read : Disk -> A) P Q (F : LedgerFailure -> Disk -> Prop) (C : Disk -> Prop) :
  (forall d, P d -> Q (read d) d) -> (forall f d, ledger_completion f = RejectedBeforeMutation -> P d -> F f d) -> (forall d, P d -> C d) ->
  triple P (call (fun d => (d, read d))) Q F C.
Proof. intros. by apply (triple_call (fun d => (d, read d))). Qed.

(** ** Programs that seal nothing *)

Definition silent {E A} (m : Io E A) : Prop := forall w, seals (m w).1 = seals w.

Lemma silent_ret {E A} (a : A) : silent (E := E) (mret a).
Proof. done. Qed.
Lemma silent_fail {E A} (e : E) : silent (A := A) (io_fail e).
Proof. done. Qed.
Lemma silent_of {E A} (r : result E A) : silent (io_of r).
Proof. done. Qed.
Lemma silent_bind {E A X} (m : Io E A) (k : A -> Io E X) : silent m -> (forall a, silent (k a)) -> silent (m ≫= k).
Proof. intros Hm Hk w. specialize (Hm w). unfold mbind, Io_bind. destruct (m w) as [w' [a|e|]]; cbn in *; [by rewrite Hk|done|done]. Qed.
Lemma silent_map {E F A} (f : E -> F) (m : Io E A) : silent m -> silent (io_map f m).
Proof. intros Hm w. specialize (Hm w). unfold io_map. by destruct (m w) as [w' [a|e|]]. Qed.
Lemma silent_next : silent next_response.
Proof. intros w. unfold next_response. by destruct (responses w). Qed.
Lemma silent_perform {E A} (effect : Disk -> Disk * A) : silent (E := E) (perform effect).
Proof. intros w. unfold perform. by destruct (effect (disk w)). Qed.

Create HintDb silence.
#[export] Hint Resolve silent_ret silent_fail silent_of silent_bind silent_map silent_next silent_perform : silence.

Lemma silent_call {A} (effect : Disk -> Disk * A) : silent (call effect).
Proof. unfold call. apply silent_bind; [auto with silence|]. intros []; auto with silence. Qed.
#[export] Hint Resolve silent_call : silence.

Lemma silent_looped {E X R} (body : X -> Io E (X + R)) x : (forall x, silent (body x)) -> silent (looped body x).
Proof.
  intros Hbody w. unfold looped. generalize (Datatypes.S (length (responses w))). intros fuel. revert x w. enough (H : forall x, silent (io_loop fuel body x)) by done.
  induction fuel as [|fuel IH]; intros x; [done|]. cbn [io_loop]. apply silent_bind; [done|]. intros [x'|r]; auto with silence.
Qed.
#[export] Hint Resolve silent_looped : silence.

Lemma triple_silent {E A} (m : Io E A) P : silent m -> triple_on seals P m (fun _ => P) (fun _ => P) P.
Proof. intros Hm w Hw. specialize (Hm w). destruct (m w) as [w' [a|e|]]; cbn in *; by rewrite Hm. Qed.

(** ** What a program returns *)

Definition returns {E A} (m : Io E A) (Q : A -> Prop) : Prop := forall w w' a, m w = (w', Returned a) -> Q a.

Lemma outcome_ret {E A} (a : A) (Q : A -> Prop) : Q a -> returns (E := E) (mret a) Q.
Proof. by intros H w w' a' [= <- <-]. Qed.
Lemma returns_fail {E A} (e : E) (Q : A -> Prop) : returns (io_fail e) Q.
Proof. by intros w w' a [=]. Qed.
Lemma outcome_of {E A} (r : result E A) (Q : A -> Prop) : (forall a, r = Ok a -> Q a) -> returns (io_of r) Q.
Proof. intros H w w' a Hr. unfold io_of in Hr. destruct r; [|done]. injection Hr as _ <-. by apply H. Qed.
Lemma outcome_bind {E A X} (m : Io E A) (k : A -> Io E X) Q R : returns m Q -> (forall a, Q a -> returns (k a) R) -> returns (m ≫= k) R.
Proof. intros Hm Hk w w' x H. unfold mbind, Io_bind in H. destruct (m w) as [w1 [a|e|]] eqn:Hw; [|done|done]. by apply (Hk a (Hm _ _ _ Hw) w1 w'). Qed.
Lemma outcome_any {E A} (m : Io E A) : returns m (fun _ => True).
Proof. done. Qed.
Lemma outcome_looped {E X R} (body : X -> Io E (X + R)) (Inv : X -> Prop) Q x :
  Inv x -> (forall x, Inv x -> returns (body x) (fun r => match r with inl x => Inv x | inr r => Q r end)) -> returns (looped body x) Q.
Proof.
  intros Hx Hbody w w' r. unfold looped. generalize (Datatypes.S (length (responses w))). intros fuel. revert x Hx w. induction fuel as [|fuel IH]; intros x Hx w H; [done|]. cbn [io_loop] in H.
  unfold mbind, Io_bind in H. destruct (body x w) as [w1 [[x'|r']|e|]] eqn:Hw; [| |done|done]; apply (Hbody x Hx) in Hw; [by apply (IH x' Hw w1)|]. by injection H as _ <-.
Qed.

(** ** Undisturbed runs *)

Definition completes {E A} (m : Io E A) (n : nat) (d : Disk) (a : A) (d' : Disk) : Prop :=
  forall rest s, m (mkWorld d (replicate n Completed ++ rest) s) = (mkWorld d' rest s, Returned a).

Section completing.
Context {E : Type}.

Lemma completes_ret {A} (a : A) d : completes (E := E) (mret a) 0 d a d.
Proof. done. Qed.

Lemma completes_of {A} (a : A) (r : result E A) d : r = Ok a -> completes (io_of r) 0 d a d.
Proof. by intros ->. Qed.

Lemma completes_bind {A X} (m : Io E A) (k : A -> Io E X) n n' d a d' x d'' :
  completes m n d a d' -> completes (k a) n' d' x d'' -> completes (m ≫= k) (n + n') d x d''.
Proof.
  intros Hm Hk rest s. unfold mbind, Io_bind. rewrite replicate_add, <- app_assoc, Hm. apply Hk.
Qed.

Lemma completes_map {F' : Type} {A} (f : E -> F') (m : Io E A) n d a d' : completes m n d a d' -> completes (io_map f m) n d a d'.
Proof. intros Hm rest s. unfold io_map. by rewrite Hm. Qed.
End completing.

Lemma completes_call {A} (effect : Disk -> Disk * A) d d' a : effect d = (d', a) -> completes (call effect) 1 d a d'.
Proof. intros H rest s. unfold call, mbind, Io_bind, next_response, perform. cbn. by rewrite H. Qed.

Lemma completes_content i d file : inodes d !! i = Some file -> completes (file_content i) 1 d (cached file) d.
Proof. intros H. apply completes_call. by rewrite H. Qed.

Lemma completes_length i d file : inodes d !! i = Some file -> completes (file_length i) 1 d (zlen (cached file)) d.
Proof. intros H. apply (completes_bind _ _ 1 0 _ (cached file) d); [by apply completes_content|apply completes_ret]. Qed.

Lemma completes_read_exact i offset n d file b : inodes d !! i = Some file -> get_slice (cached file) offset (offset + n) = Some b -> completes (read_exact i offset n) 1 d b d.
Proof.
  intros H Hb. unfold read_exact. apply completes_map. apply (completes_bind _ _ 1 0 _ (cached file) d); [by apply completes_content|].
  apply completes_of. by rewrite Hb.
Qed.

(** The turns of a loop, and the calls that they make. *)
Inductive reaches {E X R} (body : X -> Io E (X + R)) (d : Disk) : nat -> X -> X -> Prop :=
  | reaches_start x : reaches body d 0 x x
  | reaches_turn x x' x'' n cost : reaches body d n x x' -> completes (body x') (Datatypes.S cost) d (inl x'') d -> reaches body d (n + Datatypes.S cost) x x''.

Lemma reaches_loop {E X R} (body : X -> Io E (X + R)) d n x x' : reaches body d n x x' ->
  forall k r, (forall fuel, (k < fuel)%nat -> completes (io_loop fuel body x') k d r d) -> forall fuel, (n + k < fuel)%nat -> completes (io_loop fuel body x) (n + k) d r d.
Proof.
  induction 1 as [x|x x' x'' n cost Hn IH Hturn]; intros k r Hk fuel Hf; [by apply Hk|].
  rewrite <- Nat.add_assoc in Hf |- *. apply IH; [|done]. clear fuel Hf. intros [|fuel] Hf; [lia|]. cbn [io_loop].
  apply (completes_bind _ _ (Datatypes.S cost) k _ (inl x'') d); [done|]. apply Hk. lia.
Qed.

Lemma completes_looped {E X R} (body : X -> Io E (X + R)) d r n x x' : reaches body d n x x' -> completes (body x') 0 d (inr r) d -> completes (looped body x) n d r d.
Proof.
  intros Hn Hlast rest s. rewrite <- (Nat.add_0_r n). unfold looped. apply (reaches_loop body d n x x' Hn 0%nat r).
  - intros [|fuel] Hf; [lia|]. cbn [io_loop]. apply (completes_bind _ _ 0 0 _ (inr r) d); [done|apply completes_ret].
  - cbn. rewrite length_app, length_replicate. lia.
Qed.

(** A frontier file and its bytes. *)
Abbreviation Frontier := (option (nat * bytes)).

Section phases.
Context (id : bytes) (i : nat).

Definition frontier_stored (d : Disk) (f : Frontier) : Prop :=
  match f with None => True | Some (j, c) => inodes d !! j = Some (mkInode c c) /\ j <> i /\ (j < fresh d)%nat end.

Record phase (now_bytes durable_bytes : bytes) (now durable : Frontier) (d : Disk) : Prop := mkPhase {
  ph_segment : entries (active_directory d) !! segment_name id = Some i;
  ph_segment_durable : synced_entries (active_directory d) !! segment_name id = Some i;
  ph_file : inodes d !! i = Some (mkInode now_bytes durable_bytes);
  ph_fresh : (i < fresh d)%nat;
  ph_frontier : entries (active_directory d) !! frontier_name id = fst <$> now;
  ph_frontier_durable : synced_entries (active_directory d) !! frontier_name id = fst <$> durable;
  ph_now : frontier_stored d now;
  ph_durable : frontier_stored d durable;
  ph_sealed : forall kind, entries (sealed_directory d) !! (id, kind) = None /\ synced_entries (sealed_directory d) !! (id, kind) = None;
}.

Definition not_frontier (k : nat) (f : Frontier) : Prop := match f with None => True | Some (j, _) => j <> k end.

(** A phase with the temporary file [k] of the frontier. *)
Definition phase_temporary (k : nat) (file : Inode) (x y : bytes) (now durable : Frontier) (d : Disk) : Prop :=
  phase x y now durable d /\ entries (active_directory d) !! frontier_temporary_name id = Some k /\ inodes d !! k = Some file /\
  k <> i /\ not_frontier k now /\ not_frontier k durable /\ (k < fresh d)%nat.

(** *** Effects *)

Lemma frontier_other_inode d k file f : not_frontier k f -> frontier_stored d f -> frontier_stored (with_inode d k file) f.
Proof. destruct f as [[j c]|]; [|done]. cbn. intros Hk (? & ? & ?). by rewrite lookup_insert_ne. Qed.

Lemma frontier_segment_inode d file f : frontier_stored d f -> frontier_stored (with_inode d i file) f.
Proof. intros H. apply frontier_other_inode; [|done]. destruct f as [[j c]|]; [|done]. by destruct H as (? & ? & ?). Qed.

Lemma phase_append x y now durable b d : phase x y now durable d -> phase (x ++ b) y now durable (append_inode d i b).
Proof.
  intros []. unfold append_inode. rewrite ph_file0. constructor; cbn; try done; try (by apply frontier_segment_inode). by rewrite lookup_insert_eq.
Qed.

Lemma phase_synchronized x y now durable d : phase x y now durable d -> phase x x now durable (with_inode d i (mkInode x x)).
Proof. intros []. constructor; cbn; try done; try (by apply frontier_segment_inode). by rewrite lookup_insert_eq. Qed.

Lemma phase_truncated x y now durable n d : phase x y now durable d -> phase (take n x) y now durable (with_inode d i (mkInode (take n x) y)).
Proof. intros []. constructor; cbn; try done; try (by apply frontier_segment_inode). by rewrite lookup_insert_eq. Qed.

Lemma phase_other_inode x y now durable d k file :
  k <> i -> not_frontier k now -> not_frontier k durable -> phase x y now durable d -> phase x y now durable (with_inode d k file).
Proof. intros ? ? ? []. constructor; cbn; try done; try (by apply frontier_other_inode). by rewrite lookup_insert_ne. Qed.

Lemma phase_unlinked x y now durable d : phase x y now durable d ->
  phase x y now durable (with_directory d ActivePlace (with_entries (active_directory d) (delete (frontier_temporary_name id) (entries (active_directory d))))).
Proof. intros []. constructor; cbn; try done; by rewrite lookup_delete_ne. Qed.

Lemma temporary_created x y now durable d : phase x y now durable d ->
  phase_temporary (fresh d) (mkInode [] []) x y now durable
    (with_directory (mkDisk (<[fresh d := mkInode [] []]> (inodes d)) (Datatypes.S (fresh d)) (active_directory d) (sealed_directory d)) ActivePlace
       (with_entries (active_directory d) (<[frontier_temporary_name id := fresh d]> (entries (active_directory d))))).
Proof.
  intros []. assert (Hf : forall f, frontier_stored d f -> not_frontier (fresh d) f) by (intros [[j c]|]; cbn; [lia|done]).
  assert (Hs : forall f, frontier_stored d f -> frontier_stored (with_directory (mkDisk (<[fresh d := mkInode [] []]> (inodes d)) (Datatypes.S (fresh d)) (active_directory d) (sealed_directory d)) ActivePlace
       (with_entries (active_directory d) (<[frontier_temporary_name id := fresh d]> (entries (active_directory d))))) f).
  { intros f Hd. pose proof (Hf f Hd). destruct f as [[j c]|]; [|done]. cbn in *. destruct Hd as (? & ? & ?). rewrite lookup_insert_ne by done. split_and!; [done|done|lia]. }
  split_and!; [constructor; cbn| | | | | |]; try (by apply Hs); try (by apply Hf); cbn; rewrite ?lookup_insert_eq; try done; try lia; rewrite ?lookup_insert_ne by (done || lia); done.
Qed.

Lemma temporary_inode k file file' x y now durable d : phase_temporary k file x y now durable d -> phase_temporary k file' x y now durable (with_inode d k file').
Proof. intros (Hp & ? & ? & ? & ? & ? & ?). split_and!; try done; [by apply phase_other_inode|cbn; by rewrite lookup_insert_eq]. Qed.

Lemma temporary_renamed k c x y now durable d : phase_temporary k (mkInode c c) x y now durable d ->
  let d' := with_directory d ActivePlace (with_entries (active_directory d) (delete (frontier_temporary_name id) (entries (active_directory d)))) in
  phase x y (Some (k, c)) durable (with_directory d' ActivePlace (with_entries (active_directory d') (<[frontier_name id := k]> (entries (active_directory d'))))).
Proof.
  intros ([] & ? & ? & ? & ? & ? & ?). constructor; cbn; try done.
  - by rewrite lookup_insert_ne, lookup_delete_ne.
  - by rewrite lookup_insert_eq.
Qed.

Lemma phase_directory_synchronized x y now durable d : phase x y now durable d ->
  phase x y now now (with_directory d ActivePlace (mkDirectory (entries (active_directory d)) (entries (active_directory d)))).
Proof. intros []. by constructor. Qed.

(** *** Crashes *)

Lemma common_prefix_app b x y : exists t, common_prefix (b ++ x) (b ++ y) = b ++ t.
Proof. induction b as [|z b [t IH]]; [by exists (common_prefix x y)|]. exists t. cbn. by rewrite Z.eqb_refl, IH. Qed.

Lemma crashed_frontier d d' f : crashes d d' -> frontier_stored d f -> frontier_stored d' f.
Proof.
  intros Hc. destruct f as [[j c]|]; [|done]. cbn. intros (Hj & ? & ?). pose proof (cr_files _ _ Hc j) as Hf. rewrite Hj in Hf.
  destruct (inodes d' !! j) as [[c' s']|]; [|done]. destruct Hf as [[[_ Hf]|[Hf _]] Hs]; cbn in *; [|done]. rewrite (cr_fresh _ _ Hc). by subst.
Qed.

Lemma crashed_sealed d d' : crashes d d' -> (forall kind, entries (sealed_directory d) !! (id, kind) = None /\ synced_entries (sealed_directory d) !! (id, kind) = None) ->
  forall kind, entries (sealed_directory d') !! (id, kind) = None /\ synced_entries (sealed_directory d') !! (id, kind) = None.
Proof.
  intros Hc Hs kind. destruct (cr_sealed _ _ Hc) as [-> He]. specialize (Hs kind) as [H1 H2]. by destruct (He (id, kind)) as [-> | ->].
Qed.

(** After a crash the segment holds the bytes common to both versions, and one of the frontiers. *)
Lemma crash_settles b x y now durable d d' : phase (b ++ x) (b ++ y) now durable d -> crashes d d' ->
  exists junk f, (f = now \/ f = durable) /\ phase (b ++ junk) (b ++ junk) f f d'.
Proof.
  intros [] Hc. destruct (cr_active _ _ Hc) as [Hsame Hentry].
  assert (Hfile : exists junk, inodes d' !! i = Some (mkInode (b ++ junk) (b ++ junk))).
  { pose proof (cr_files _ _ Hc i) as Hf. rewrite ph_file0 in Hf. destruct (inodes d' !! i) as [[c s]|]; [|done]. destruct Hf as [Hf Hs]. cbn in *. subst s.
    destruct Hf as [[_ Hf]|[_ [t Hf]]]; cbn in Hf; subst c; [by exists x|]. destruct (common_prefix_app b y x) as [t' ->]. exists (t' ++ t). by rewrite app_assoc. }
  destruct Hfile as [junk Hfile].
  assert (Hseg : entries (active_directory d') !! segment_name id = Some i) by (destruct (Hentry (segment_name id)) as [-> | ->]; done).
  assert (Hfr : exists f, (f = now \/ f = durable) /\ entries (active_directory d') !! frontier_name id = fst <$> f).
  { destruct (Hentry (frontier_name id)) as [-> | ->]; [exists now|exists durable]; auto. }
  destruct Hfr as (f & Hf & Hfe). exists junk, f. split; [done|]. assert (frontier_stored d' f) by (destruct Hf; subst f; by apply (crashed_frontier d)).
  constructor; rewrite ?Hsame, ?(cr_fresh _ _ Hc); try done. by apply (crashed_sealed d).
Qed.

(** A disk with nothing pending survives a crash as it is. *)
Lemma crash_of_settled b f d d' : phase b b f f d -> crashes d d' -> phase b b f f d'.
Proof.
  intros [] Hc. destruct (cr_active _ _ Hc) as [Hsame Hentry].
  assert (Hfile : inodes d' !! i = Some (mkInode b b)).
  { pose proof (cr_files _ _ Hc i) as Hf. rewrite ph_file0 in Hf. destruct (inodes d' !! i) as [[c s]|]; [|done]. destruct Hf as [Hf Hs]. cbn in *. subst s.
    destruct Hf as [[_ Hf]|[Hf _]]; cbn in Hf; [by subst|done]. }
  assert (frontier_stored d' f) by by apply (crashed_frontier d).
  constructor; rewrite ?Hsame, ?(cr_fresh _ _ Hc); try done.
  - destruct (Hentry (segment_name id)) as [-> | ->]; done.
  - destruct (Hentry (segment_name id)) as [-> | ->]; done.
  - destruct (Hentry (frontier_name id)) as [-> | ->]; done.
  - destruct (Hentry (frontier_name id)) as [-> | ->]; done.
  - by apply (crashed_sealed d).
Qed.
End phases.

(** Nothing is pending. *)
Abbreviation settled id i b f := (phase id i b b f f).
