(* ===== verification/LedgerDurable.v ===== *)
(** Active segment ledger: what an append leaves on the disk.

    The durable part of an append under every list of responses: which phase it is in when it
    returns, when it fails and when the machine stops. *)

From stdpp Require Import gmap.
From S2P Require Import Prelude Outcome Identity Routing SourceTime RetentionTime LogStore LedgerFrame LedgerFormat LedgerDisk LedgerStorage LedgerLogic.

(** What is known of a failure: nothing of the segment was changed, or recovery is required. *)
Definition write_failure (written : bytes) (e : AppendFailure) : Prop :=
  match e with
  | AppendRejected f => written = [] /\ ledger_completion f = RejectedBeforeMutation
  | SegmentMutated f => ledger_completion f = CompletionRecoveryRequired
  end.

Definition unmutated (f : LedgerFailure) : Prop := ledger_completion f <> CommitAmbiguous.

Lemma mutation_failure_known m written f : (m = NotStarted -> written = []) -> ledger_completion f = RejectedBeforeMutation -> write_failure written (mutation_failure m f).
Proof. intros Hm Hf. destruct m; cbn; [auto|]. by rewrite Hf. Qed.

Lemma unmutated_rejected f : ledger_completion f = RejectedBeforeMutation -> unmutated f.
Proof. unfold unmutated. by intros ->. Qed.

Section durable.
Context {B : CryptoBackend} (id : bytes) (i : nat).

(** *** Writing *)

Lemma triple_file_write (P : bytes -> Disk -> Prop) k b :
  (forall x d, P [] d -> P x (append_inode d k x)) ->
  triple (P []) (file_write k b)
    (fun r d => match r with WriteCount n => P (take n b) d /\ (n <= length b)%nat | WriteInterrupted => P [] d | WriteFailed f => P [] d /\ ledger_completion f = RejectedBeforeMutation end)
    (fun _ _ => False) (P []).
Proof.
  intros HP. unfold file_write. eapply triple_bind; [apply triple_next with (Q := fun _ => P []); auto|]. intros [| n | | |].
  - apply triple_perform. intros d Hd. cbn. rewrite firstn_all. auto.
  - apply triple_perform. intros d Hd. cbn. split; [|lia]. destruct (Nat.min_spec n (length b)) as [[? ->]|[? ->]]; [auto|]. rewrite firstn_all, (take_ge b n) by lia. auto.
  - by apply triple_ret.
  - by apply triple_ret.
  - by apply triple_ret.
Qed.

Lemma write_segment_triple base x y now durable b m :
  (m = NotStarted -> x = []) ->
  triple (phase id i (base ++ x) y now durable) (write_segment_bytes i b m)
    (fun m' d => phase id i (base ++ x ++ b) y now durable d /\ (m' = NotStarted -> x ++ b = []))
    (fun e d => exists x', phase id i (base ++ x') y now durable d /\ write_failure x' e)
    (fun d => exists x', phase id i (base ++ x') y now durable d).
Proof.
  intros Hm. unfold write_segment_bytes. eapply triple_pre; [|apply triple_loop with (Inv := fun '(remaining, m) d => exists x', (x' ++ remaining = x ++ b /\ (m = NotStarted -> x' = [])) /\ phase id i (base ++ x') y now durable d)].
  - intros d Hd. exists x. done.
  - intros [remaining m'] d (x' & _ & Hd). eauto.
  - intros [remaining m']. apply triple_exists. intros x'. apply triple_pure. intros [Hx Hm']. case_bool_decide as Hr.
    { subst remaining. rewrite app_nil_r in Hx. apply triple_ret. intros d Hd. by subst x'. }
    eapply triple_bind.
    { apply triple_map. eapply triple_conseq; [| | | |apply (triple_file_write (fun z => phase id i (base ++ x' ++ z) y now durable) i remaining)].
      - intros d Hd. by rewrite app_nil_r.
      - intros r d Hd. exact Hd.
      - done.
      - intros d Hd. rewrite app_nil_r in Hd. eauto.
      - intros z d Hd. rewrite app_nil_r in Hd. rewrite (app_assoc base). by apply phase_append. }
    assert (Hfail : forall f d, ledger_completion f = RejectedBeforeMutation -> phase id i (base ++ x') y now durable d ->
      exists x'', phase id i (base ++ x'') y now durable d /\ write_failure x'' (mutation_failure m' f)).
    { intros f d Hf Hd. exists x'. split; [done|by apply mutation_failure_known]. }
    intros [[|n]| |f].
    + apply triple_fail. intros d [Hd _]. rewrite take_0, app_nil_r in Hd. by apply Hfail.
    + apply triple_ret. intros d [Hd Hn]. exists (x' ++ take (Datatypes.S n) remaining). split; [|done]. rewrite <- app_assoc, take_drop. split; [done|discriminate].
    + apply triple_ret. intros d Hd. rewrite app_nil_r in Hd. eauto.
    + apply triple_fail. intros d [Hd Hf]. rewrite app_nil_r in Hd. by apply Hfail.
Qed.

Lemma triple_write_all (P : bytes -> Disk -> Prop) k b :
  (forall z x d, P z d -> P (z ++ x) (append_inode d k x)) ->
  triple (P []) (write_all k b) (fun _ => P b) (fun e d => ledger_completion e = RejectedBeforeMutation /\ exists z, P z d) (fun d => exists z, P z d).
Proof.
  intros HP. unfold write_all. eapply triple_pre; [|apply triple_loop with (Inv := fun remaining d => exists z, z ++ remaining = b /\ P z d)].
  - intros d Hd. by exists [].
  - intros remaining d (z & _ & Hd). eauto.
  - intros remaining. apply triple_exists. intros z. apply triple_pure. intros Hz. case_bool_decide as Hr.
    { subst remaining. rewrite app_nil_r in Hz. apply triple_ret. intros d Hd. by subst z. }
    eapply triple_bind.
    { eapply triple_conseq; [| | | |apply (triple_file_write (fun r => P (z ++ r)) k remaining)].
      - intros d Hd. by rewrite app_nil_r.
      - intros r d Hd. exact Hd.
      - done.
      - intros d Hd. eauto.
      - intros x d Hd. rewrite app_nil_r in Hd. by apply HP. }
    intros [[|n]| |e].
    + apply triple_fail. intros d [Hd _]. eauto.
    + apply triple_ret. intros d [Hd Hn]. exists (z ++ take (Datatypes.S n) remaining). by rewrite <- app_assoc, take_drop.
    + apply triple_ret. intros d Hd. rewrite app_nil_r in Hd. eauto.
    + apply triple_fail. intros d [Hd Hf]. eauto.
Qed.

(** *** The temporary file of the frontier *)

Lemma write_all_triple k x y f b :
  triple (phase_temporary id i k (mkInode [] []) x y f f) (write_all k b)
    (fun _ d => phase_temporary id i k (mkInode b []) x y f f d)
    (fun e d => ledger_completion e = RejectedBeforeMutation /\ phase id i x y f f d)
    (phase id i x y f f).
Proof.
  eapply triple_conseq; [| | | |apply (triple_write_all (fun z => phase_temporary id i k (mkInode z []) x y f f) k b)]; eauto.
  - intros e d (He & z & Hd & _). auto.
  - intros d (z & Hd & _). auto.
  - intros z r d Hd. pose proof Hd as (_ & _ & Hk & _). unfold append_inode. rewrite Hk. by apply (temporary_inode id i k (mkInode z [])).
Qed.

Lemma triple_seal key context plaintext max P (C : Disk -> Prop) :
  triple P (seal_frame key context plaintext max)
    (fun frame d => protect_frame key context plaintext max = Ok frame /\ P d) (fun f d => ledger_completion f = RejectedBeforeMutation /\ P d) C.
Proof. intros w Hw. cbn. by destruct (protect_frame key context plaintext max). Qed.

(** *** Publishing a frontier *)

Definition frontier_bytes (key : ObjectDataKey) (durable_bytes next : Z) (position : CommitPosition) (retention : SegmentRetention) (c : bytes) : Prop :=
  exists context frame, key_frame key PurposeDurabilityFrontier (u64_max - next) = Ok context /\
    protect_frame key context (frontier_plaintext durable_bytes next position retention) MAX_FRONTIER_FRAME_BYTES = Ok frame /\ c = frontier_file frame.

Lemma protect_frontier_triple key durable_bytes next position retention P :
  triple P (protect_frontier key durable_bytes next position retention)
    (fun '(c, authenticator) d => (frontier_bytes key durable_bytes next position retention c /\ receipt_authenticator key durable_bytes next position = Ok authenticator) /\ P d)
    (fun e d => unmutated e /\ P d) P.
Proof.
  unfold protect_frontier.
  eapply triple_bind; [apply triple_of with (Q := fun s d => s = u64_max - next /\ P d)|].
  { intros s d Hs Hd. split; [|done]. unfold limit_exceeded_or in Hs. destruct (checked_sub u64_max next) eqn:Hc; [|done]. apply checked_sub_Some in Hc as [-> _]. by injection Hs. }
  { intros e d He Hd. split; [|done]. unfold limit_exceeded_or in He. destruct (checked_sub _ _); [done|]. by injection He as <-. }
  intros s. apply triple_pure. intros ->.
  eapply triple_bind; [apply triple_of with (Q := fun c d => key_frame key PurposeDurabilityFrontier (u64_max - next) = Ok c /\ P d)|].
  { auto. }
  { intros e d He Hd. split; [|done]. unfold key_frame in He. destruct (segment_frame _ _ _); [done|]. by injection He as <-. }
  intros context. apply triple_pure. intros Hcontext.
  eapply triple_bind; [apply triple_of with (Q := fun l d => l = MAX_FRONTIER_FRAME_BYTES /\ P d)|].
  { intros l d Hl Hd. by injection Hl as <-. }
  { done. }
  intros l. apply triple_pure. intros ->.
  eapply triple_bind; [eapply triple_conseq; [| | | |apply (triple_seal key context _ MAX_FRONTIER_FRAME_BYTES P P)]|]; eauto.
  { intros e d [He Hd]. split; [by apply unmutated_rejected|done]. }
  intros frame. apply triple_pure. intros Hframe.
  eapply triple_bind; [apply triple_of with (Q := fun _ d => P d)|].
  { auto. }
  { intros e d He Hd. split; [|done]. destruct (_ <? _); [by injection He as <-|done]. }
  intros ?. eapply triple_bind; [apply triple_of with (Q := fun a d => receipt_authenticator key durable_bytes next position = Ok a /\ P d)|].
  { auto. }
  { intros e d He Hd. split; [|done]. unfold receipt_authenticator in He. destruct (authenticate_object_key _ _); [done|]. by injection He as <-. }
  intros authenticator. apply triple_pure. intros Hauth. apply triple_ret. intros d Hd. split; [|done]. split; [|done]. exists context, frame. done.
Qed.

Lemma create_temporary_triple x f :
  triple (settled id i x f) (create_file ActivePlace (frontier_temporary_name id))
    (fun k d => phase_temporary id i k (mkInode [] []) x x f f d) (fun e d => unmutated e /\ settled id i x f d) (settled id i x f).
Proof.
  unfold create_file. eapply triple_bind; [apply triple_call with (Q := fun r d => match r with Some k => phase_temporary id i k (mkInode [] []) x x f f d | None => settled id i x f d end)|].
  - intros d Hd. cbn. destruct (entries (active_directory d) !! frontier_temporary_name id); cbn; [done|by apply temporary_created].
  - intros e d He Hd. split; [by apply unmutated_rejected|done].
  - auto.
  - intros k. apply triple_of.
    + intros k' d Hk Hd. destruct k; [|done]. injection Hk as <-. done.
    + intros e d He Hd. destruct k; [done|]. injection He as <-. by split.
Qed.

Lemma replace_frontier_triple x f c :
  triple (settled id i x f) (replace_frontier ActivePlace id c)
    (fun _ d => exists k, settled id i x (Some (k, c)) d)
    (fun e d => (unmutated e /\ settled id i x f d) \/ (ledger_completion e = CommitAmbiguous /\ exists k, phase id i x x (Some (k, c)) f d))
    (fun d => settled id i x f d \/ exists k, phase id i x x (Some (k, c)) f d).
Proof.
  assert (Hpost : forall e, unmutated (post_mutation (ledger_code e))) by done. unfold replace_frontier.
  eapply triple_bind; [unfold unlink; apply triple_call with (Q := fun _ => settled id i x f)|].
  { intros d Hd. cbn. by apply phase_unlinked. }
  { intros e d He Hd. left. split; [by apply unmutated_rejected|done]. }
  { auto. }
  intros ?. eapply triple_bind; [eapply triple_conseq; [| | | |apply (create_temporary_triple x f)]|]; eauto.
  intros k. eapply triple_bind; [apply triple_map; eapply triple_conseq; [| | | |apply (write_all_triple k x x f c)]|]; eauto.
  { intros e d [_ Hd]. left. auto. }
  intros ?. eapply triple_bind; [apply triple_map; unfold synchronize_file; apply triple_call with (Q := fun _ => phase_temporary id i k (mkInode c c) x x f f)|].
  { intros d Hd. cbn. pose proof Hd as (_ & _ & Hk & _). rewrite Hk. by apply (temporary_inode id i k (mkInode c [])). }
  { intros e d _ [Hd _]. left. auto. }
  { intros d [Hd _]. auto. }
  intros ?. eapply triple_bind; [apply triple_map; unfold rename; eapply triple_bind; [apply triple_call with (Q := fun ok d => (ok = true /\ phase id i x x (Some (k, c)) f d))|]|].
  { intros d Hd. cbn. pose proof Hd as (_ & Ht & _). rewrite Ht. cbn. split; [done|]. by apply (temporary_renamed id i k c x x f f). }
  { intros e d _ [Hd _]. left. auto. }
  { intros d [Hd _]. auto. }
  { intros ok. apply triple_pure. intros ->. apply triple_ret with (Q := fun _ => phase id i x x (Some (k, c)) f). auto. }
  intros ?. apply triple_map. unfold synchronize_directory. apply triple_call.
  - intros d Hd. cbn. exists k. by apply (phase_directory_synchronized id i x x (Some (k, c)) f).
  - intros e d _ Hd. right. split; [done|]. eauto.
  - intros d Hd. right. eauto.
Qed.

Definition frontier_published (key : ObjectDataKey) (durable_bytes next : Z) (position : CommitPosition) (retention : SegmentRetention) (c authenticator : bytes) : Prop :=
  frontier_bytes key durable_bytes next position retention c /\ receipt_authenticator key durable_bytes next position = Ok authenticator.

Lemma publish_triple x f key durable_bytes next position retention :
  triple (settled id i x f) (publish_frontier ActivePlace id key durable_bytes next position retention)
    (fun authenticator d => exists k c, frontier_published key durable_bytes next position retention c authenticator /\ settled id i x (Some (k, c)) d)
    (fun e d => (unmutated e /\ settled id i x f d) \/
       (ledger_completion e = CommitAmbiguous /\ exists k c a, frontier_published key durable_bytes next position retention c a /\ phase id i x x (Some (k, c)) f d))
    (fun d => settled id i x f d \/ exists k c a, frontier_published key durable_bytes next position retention c a /\ phase id i x x (Some (k, c)) f d).
Proof.
  unfold publish_frontier. eapply triple_bind; [eapply triple_conseq; [| | | |apply (protect_frontier_triple key durable_bytes next position retention (settled id i x f))]|]; eauto.
  intros [c authenticator]. apply triple_pure. intros Hc.
  eapply triple_bind; [eapply triple_conseq; [| | | |apply (replace_frontier_triple x f c)]|]; eauto.
  { intros e d [?|(? & k & ?)]; [by left|]. right. eauto 10. }
  { intros d [?|(k & ?)]; [by left|]. right. eauto 10. }
  intros ?. apply triple_ret. intros d [k Hd]. eauto.
Qed.

(** *** The whole append *)

(** The old blocks remain: some bytes may follow them. *)
Definition tailed (x : bytes) (f : Frontier) (d : Disk) : Prop := exists z y, phase id i (x ++ z) (x ++ y) f f d.

Context (key : ObjectDataKey) (context : FrameContext) (plaintext : bytes) (limit frame_bytes : Z) (next : NextFrontier).

(** The bytes of the segment after the append and the frontier that names them. *)
Definition extended (x x' c authenticator : bytes) : Prop :=
  exists frame, protect_frame key context plaintext limit = Ok frame /\ x' = x ++ be_bytes 4 frame_bytes ++ frame /\
    frontier_published key (zlen x') (nf_sequence next + 1) (nf_position next) (nf_retention next) c authenticator.

(** The new frontier has its name, which a crash may undo. *)
Definition renamed (x : bytes) (f : Frontier) (d : Disk) : Prop := exists x' k c a, extended x x' c a /\ phase id i x' x' (Some (k, c)) f d.

Definition append_failed (x : bytes) (f : Frontier) (e : AppendFailure) (d : Disk) : Prop :=
  match e with
  | AppendRejected g => ledger_completion g = RejectedBeforeMutation /\ settled id i x f d
  | SegmentMutated g => (ledger_completion g = CompletionRecoveryRequired /\ tailed x f d) \/ (ledger_completion g = CommitAmbiguous /\ renamed x f d)
  end.

Lemma settled_tailed x f d : settled id i x f d -> tailed x f d.
Proof. intros H. exists [], []. by rewrite app_nil_r. Qed.

(** The failures that a step after the first byte reports. *)
Lemma mutated_tailed x f g d : unmutated g -> tailed x f d -> append_failed x f (mutation_failure BytesWritten g) d.
Proof. intros Hg Hd. left. split; [|done]. cbn. by destruct g as [? []]. Qed.

(** The frame is in the file and synchronised. *)
Lemma write_frame_triple x f :
  triple (settled id i x f)
    (write_frame i frame_bytes (seal_frame key context plaintext limit))
    (fun mutation d => mutation = BytesWritten /\ exists frame, protect_frame key context plaintext limit = Ok frame /\ settled id i (x ++ be_bytes 4 frame_bytes ++ frame) f d)
    (append_failed x f) (tailed x f).
Proof.
  assert (Htail : forall z d, phase id i (x ++ z) x f f d -> tailed x f d) by (intros z d Hd; exists z, []; by rewrite app_nil_r). unfold write_frame.
  eapply triple_bind; [eapply triple_conseq; [| | | |apply (write_segment_triple x [] x f f (be_bytes 4 frame_bytes) NotStarted)]|].
  { intros d Hd. by rewrite app_nil_r. }
  { intros m d Hd. exact Hd. }
  { intros [g|g] d (z & Hd & Hg); cbn in Hg |- *; [destruct Hg as [-> Hg]; rewrite app_nil_r in Hd; auto|left; eauto]. }
  { intros d (z & Hd). eauto. }
  { done. }
  intros m. cbn [app]. apply triple_pre with (P' := fun d => m = BytesWritten /\ phase id i (x ++ be_bytes 4 frame_bytes) x f f d).
  { intros d [Hd Hm]. split; [|done]. destruct m; [|done]. by specialize (Hm eq_refl). }
  apply triple_pure. intros ->.
  eapply triple_bind; [apply triple_map; eapply triple_conseq; [| | | |apply (triple_seal key context plaintext limit (phase id i (x ++ be_bytes 4 frame_bytes) x f f) (tailed x f))]|]; eauto.
  { intros e d [He Hd]. apply mutated_tailed; [by apply unmutated_rejected|eauto]. }
  intros frame. apply triple_pure. intros Hframe.
  eapply triple_bind; [eapply triple_conseq; [| | | |apply (write_segment_triple x (be_bytes 4 frame_bytes) x f f frame BytesWritten)]|].
  { intros d Hd. exact Hd. }
  { intros m d Hd. exact Hd. }
  { intros [g|g] d (z & Hd & Hg); cbn in Hg |- *; [destruct Hg as [-> Hg]; rewrite app_nil_r in Hd; auto|left; eauto]. }
  { intros d (z & Hd). eauto. }
  { done. }
  intros m. apply triple_pre with (P' := phase id i (x ++ be_bytes 4 frame_bytes ++ frame) x f f); [by intros d [Hd _]|].
  eapply triple_bind; [apply triple_map with (Q := fun _ => phase id i (x ++ be_bytes 4 frame_bytes ++ frame) x f f); unfold admitted; eapply triple_bind;
    [apply triple_next with (Q := fun _ => phase id i (x ++ be_bytes 4 frame_bytes ++ frame) x f f); eauto|]|].
  { intros []; (by apply triple_ret) || (apply triple_fail; intros d Hd; apply mutated_tailed; [done|eauto]). }
  intros ?. eapply triple_bind; [apply triple_map; unfold synchronize_file; apply triple_call with (Q := fun _ => settled id i (x ++ be_bytes 4 frame_bytes ++ frame) f)|].
  { intros d Hd. cbn. rewrite (ph_file _ _ _ _ _ _ _ Hd). by apply (phase_synchronized _ _ _ x). }
  { intros g d Hg Hd. apply mutated_tailed; [by apply unmutated_rejected|eauto]. }
  { eauto. }
  intros ?. apply triple_ret. eauto.
Qed.

Lemma triple_of_unmutated {A} (o : option A) code (P : Disk -> Prop) Q (F : LedgerFailure -> Disk -> Prop) C :
  (forall a d, o = Some a -> P d -> Q a d) -> (forall d, P d -> F (LedgerFailure_new code) d) -> triple P (io_of (ok_or (LedgerFailure_new code) o)) Q F C.
Proof. intros HQ HF. apply triple_of; intros y d H Hd; destruct o; try done; injection H as <-; auto. Qed.

Lemma append_and_commit_triple metadata x f : md_id metadata = id ->
  triple (settled id i x f) (append_and_commit (Some metadata) key next frame_bytes (seal_frame key context plaintext limit))
    (fun authenticator d => exists x' k c, extended x x' c authenticator /\ settled id i x' (Some (k, c)) d)
    (append_failed x f) (fun d => tailed x f d \/ renamed x f d).
Proof.
  intros Hid. unfold append_and_commit.
  eapply triple_bind; [apply triple_map, triple_of_unmutated with (Q := fun m d => m = metadata /\ settled id i x f d)|].
  { intros m d [= <-] Hd. done. }
  { intros d Hd. by split. }
  intros m. apply triple_pure. intros ->. rewrite Hid.
  eapply triple_bind; [apply triple_map; unfold open_regular; eapply triple_bind; [apply triple_read with (Q := fun k d => k = Some i /\ settled id i x f d)|]|].
  { intros d Hd. split; [apply Hd|done]. }
  { intros g d Hg Hd. by split. }
  { intros d Hd. left. by apply settled_tailed. }
  { intros k. apply triple_pure. intros ->. apply triple_of_unmutated with (Q := fun k d => k = i /\ settled id i x f d); [by intros k d [= <-]|]. intros d Hd. by split. }
  intros k. apply triple_pure. intros ->.
  eapply triple_bind; [eapply triple_conseq; [| | | |apply (write_frame_triple x f)]|]; eauto.
  intros m. apply triple_pure. intros ->. apply triple_exists. intros frame. apply triple_pure. intros Hframe. set (x' := x ++ be_bytes 4 frame_bytes ++ frame).
  assert (Ht : forall d, settled id i x' f d -> tailed x f d) by (intros d Hd; by exists (be_bytes 4 frame_bytes ++ frame), (be_bytes 4 frame_bytes ++ frame)).
  eapply triple_bind; [apply triple_map with (Q := fun n d => n = zlen x' /\ settled id i x' f d); unfold file_length, file_content; eapply triple_bind; [apply triple_read with (Q := fun b d => b = x' /\ settled id i x' f d)|]|].
  { intros d Hd. split; [|done]. by rewrite (ph_file _ _ _ _ _ _ _ Hd). }
  { intros g d Hg Hd. apply mutated_tailed; [by apply unmutated_rejected|auto]. }
  { auto. }
  { intros b. apply triple_pure. intros ->. by apply triple_ret. }
  intros n. apply triple_pure. intros ->.
  eapply triple_bind; [apply triple_map, triple_of_unmutated with (Q := fun n d => n = nf_sequence next + 1 /\ settled id i x' f d)|].
  { intros n d Hn Hd. by apply checked_add_Some in Hn as [-> _]. }
  { intros d Hd. apply mutated_tailed; auto. done. }
  intros n. apply triple_pure. intros ->. apply triple_map. eapply triple_conseq; [| | | |apply (publish_triple x' f)]; eauto.
  - intros authenticator d (k & c & Hc & Hd). exists x', k, c. split; [|done]. by exists frame.
  - intros e d [[He Hd]|(He & k & c & a & Hc & Hd)]; [by apply mutated_tailed; auto|]. cbn. rewrite He. right. split; [done|]. exists x', k, c, a. split; [|done]. by exists frame.
  - intros d [Hd|(k & c & a & Hc & Hd)]; [auto|]. right. exists x', k, c, a. split; [|done]. by exists frame.
Qed.
End durable.
