(* ===== verification/LedgerRecovery.v ===== *)
(** Active segment ledger: recovery returns what was committed.

    [chain] relates the committed blocks of a segment to the bytes of their frames, [stored] adds the
    frontier that names them. An undisturbed recovery of such files returns exactly these blocks,
    whatever follows them in the segment, and removes what follows.

    Active segment ledger: the header of a segment.

    The metadata of a segment and its header decode to what was encoded, and a segment that
    [create_active] wrote opens with the key it was created with. *)

From stdpp Require Import gmap.
From S2P Require Import Prelude Outcome Identity Routing SourceTime RetentionTime LogStore LedgerFrame LedgerFormat LedgerDisk LedgerStorage LedgerAppend LedgerLogic LedgerDurable.

(** ** Fields *)

Definition durable_retention (r : SegmentRetention) : Prop :=
  match r with RetentionComplete t => retention_authenticated t = true /\ i64_min <= nanos (instant t) <= i64_max | _ => True end.

Lemma retention_fields_length r : length (retention_fields r) = 9%nat.
Proof. by destruct r. Qed.

Lemma get_slice_head (b c : bytes) n : n = length b -> get_slice (b ++ c) 0 n = Some b.
Proof. intros ->. by apply (get_slice_app []). Qed.

Lemma exact_bytes_app (a b c : bytes) n m : n = length a -> m = length b -> exact_bytes (a ++ b ++ c) n m = Ok b.
Proof. intros -> ->. unfold exact_bytes. by rewrite get_slice_app. Qed.

Lemma read_u64_field (a c : bytes) n v : n = length a -> 0 <= v <= u64_max -> read_u64 (a ++ be_bytes 8 v ++ c) n = Ok v.
Proof.
  intros -> Hv. unfold read_u64. rewrite (exact_bytes_app a (be_bytes 8 v) c) by done. cbn [mbind result_bind]. f_equal. apply be_value_be_bytes.
  change (256 ^ Z.of_nat 8) with 18446744073709551616. unfold u64_max in Hv. lia.
Qed.

Lemma read_u64_head (c : bytes) v : 0 <= v <= u64_max -> read_u64 (be_bytes 8 v ++ c) 0 = Ok v.
Proof. by apply (read_u64_field []). Qed.

Lemma decode_retention_fields (a c : bytes) r n m : durable_retention r -> n = length a -> m = Datatypes.S (length a) -> decode_retention (a ++ retention_fields r ++ c) n m = Ok r.
Proof.
  intros Hr -> ->. unfold decode_retention.
  assert (Hf : exists tag i, retention_fields r = tag :: be_bytes 8 i /\ i64_min <= i <= i64_max /\
    ((tag = 0 /\ i = 0 /\ r = RetentionEmpty) \/ (tag = 1 /\ i = 0 /\ r = RetentionUnavailable) \/ (tag = 2 /\ r = RetentionComplete (from_authenticated_durable (mkUnixNanoseconds i))))).
  { destruct r as [| |[[t] auth]]; cbn [retention_fields]; [exists 0, 0; unfold i64_min, i64_max; split_and!; [done|lia|lia|auto]|exists 1, 0; unfold i64_min, i64_max; split_and!; [done|lia|lia|auto]|].
    destruct Hr as [Ha Hi]. cbn in Ha, Hi. exists 2, t. split_and!; [done|lia|lia|]. right; right. split; [done|]. by rewrite Ha. }
  destruct Hf as (tag & i & -> & Hi & Htag). replace (a ++ (tag :: be_bytes 8 i) ++ c) with ((a ++ [tag]) ++ be_bytes 8 i ++ c) by (by rewrite <- app_assoc).
  rewrite (exact_bytes_app (a ++ [tag]) (be_bytes 8 i) c) by (rewrite ?length_app; cbn [length]; done || lia). cbn [mbind result_bind]. rewrite as_i64_be_bytes by done.
  rewrite <- app_assoc, lookup_app_r, Nat.sub_diag by done. cbn [app lookup list_lookup].
  by destruct Htag as [(-> & -> & ->)|[(-> & -> & ->)|(-> & ->)]].
Qed.

(** ** Frontiers *)

Section recovery.
Context {B : CryptoBackend} {HB : CryptoLaws B} (key : ObjectDataKey).

Lemma key_frame_sequence p n context : key_frame key p n = Ok context -> fc_sequence context = n.
Proof. unfold key_frame, segment_frame. destruct (fo_class _); [|done]. by intros [= <-]. Qed.

Lemma key_frame_defined p n context p' n' : key_frame key p n = Ok context -> exists context', key_frame key p' n' = Ok context'.
Proof. unfold key_frame, segment_frame. destruct (fo_class _); [|done]. eauto. Qed.

(** The candidates before the right one fail. *)
Lemma open_candidate_found context p frame fuel next : key_frame key PurposeDurabilityFrontier (u64_max - next) = Ok context ->
  protect_frame key context p MAX_FRONTIER_FRAME_BYTES = Ok frame -> 0 <= next <= u64_max ->
  forall candidate, 0 <= candidate <= next -> next - candidate < Z.of_nat fuel -> open_candidate key frame MAX_FRONTIER_FRAME_BYTES fuel candidate = Ok (next, p).
Proof.
  intros Hc Hp Hnext. pose proof (key_frame_sequence _ _ _ Hc) as Hs. pose proof (protected_length _ _ _ _ _ Hp) as (_ & Hlen & _).
  induction fuel as [|fuel IH]; intros candidate Hcand Hfuel; [lia|]. cbn [open_candidate]. rewrite checked_sub_ok by lia. cbn [limit_exceeded_or ok_or mbind result_bind].
  destruct (key_frame_defined _ _ _ PurposeDurabilityFrontier (u64_max - candidate) Hc) as [other Ho]. rewrite Ho. cbn [mbind result_bind].
  destruct (decide (candidate = next)) as [->|Hne].
  - rewrite Hc in Ho. injection Ho as <-. by rewrite (open_protected _ _ _ _ _ _ Hp) by (done || lia).
  - rewrite (open_other_sequence _ context other _ _ _ _ Hp); [apply IH; lia| lia|done|]. rewrite (key_frame_sequence _ _ _ Ho). lia.
Qed.

Lemma decode_frontier_plaintext durable_bytes next value retention : 0 <= durable_bytes <= u64_max -> 0 < next <= u64_max -> 0 <= value <= u64_max -> durable_retention retention ->
  decode_frontier 3 next (frontier_plaintext durable_bytes next (mkCommitPosition value) retention) = Ok (mkPublished 3 durable_bytes next (mkCommitPosition value) retention).
Proof.
  intros Hd Hn Hv Hr. unfold decode_frontier, frontier_plaintext. set (rest := be_bytes 8 durable_bytes ++ _).
  assert (Hlen : zlen (be_bytes 2 3 ++ rest) = 35) by (unfold rest; rewrite !zlen_app, !zlen_be_bytes; unfold zlen; rewrite retention_fields_length; done).
  rewrite Hlen. change (negb (35 =? frontier_plaintext_bytes 3)) with false. cbv iota. change (3 =? 3) with true. cbv iota.
  rewrite (exact_bytes_app [] (be_bytes 2 3) rest) by done. cbn [mbind result_bind]. change (be_value (be_bytes 2 3) =? 3) with true. cbn [negb].
  rewrite (get_from_app (be_bytes 2 3) rest) by done. cbn [corrupt_or ok_or mbind result_bind]. subst rest. cbn [position_value].
  set (tail := retention_fields retention). assert (Htail : forall b, b ++ tail = b ++ tail ++ []) by (intros; by rewrite app_nil_r).
  rewrite read_u64_head by done. cbn [mbind result_bind].
  rewrite (read_u64_field (be_bytes 8 durable_bytes) _ 8 next) by (done || lia). cbn [mbind result_bind]. rewrite Z.eqb_refl. cbn [negb].
  rewrite (app_assoc (be_bytes 8 durable_bytes) (be_bytes 8 next)).
  rewrite (read_u64_field (be_bytes 8 durable_bytes ++ be_bytes 8 next) _ 16 value) by done. cbn [mbind result_bind].
  assert (Hpos : position_from_value value = Ok (mkCommitPosition value)).
  { unfold position_from_value. destruct (Z.eqb_spec value 0) as [->|]; [done|]. unfold CommitPosition_advance_by, CommitPosition_origin. cbn [position_value]. by rewrite checked_add_ok by lia. }
  rewrite Hpos. cbn [mbind result_bind]. unfold decode_segment_retention. rewrite app_assoc, Htail.
  rewrite (decode_retention_fields ((be_bytes 8 durable_bytes ++ be_bytes 8 next) ++ be_bytes 8 value) [] retention) by done. cbn [mbind result_bind].
  rewrite (proj2 (Z.eqb_neq next 0)), andb_false_r by lia. done.
Qed.

Definition frontier_prefix (n : Z) : bytes := FRONTIER_MAGIC ++ be_bytes 2 1 ++ be_bytes 2 3 ++ be_bytes 4 n.

Lemma frontier_plaintext_length durable_bytes next position retention : zlen (frontier_plaintext durable_bytes next position retention) = 35.
Proof. unfold frontier_plaintext. rewrite !zlen_app, !zlen_be_bytes. unfold zlen. by rewrite retention_fields_length. Qed.

Lemma completes_read_frontier d p id j durable_bytes next value retention c :
  entries (directory d p) !! frontier_name id = Some j -> inodes d !! j = Some (mkInode c c) -> frontier_bytes key durable_bytes next (mkCommitPosition value) retention c ->
  0 <= durable_bytes <= u64_max -> 0 < next <= MAX_RECOVERED_BLOCKS -> 0 <= value <= u64_max -> durable_retention retention ->
  completes (read_frontier p id key) 4 d (Some (mkPublished 3 durable_bytes next (mkCommitPosition value) retention)) d.
Proof.
  intros He Hj (context & frame & Hcontext & Hframe & Hc) Hd Hn Hv Hr. pose proof (protected_length _ _ _ _ _ Hframe) as (Hlen & _ & _). rewrite frontier_plaintext_length in Hlen.
  unfold MAX_RECOVERED_BLOCKS in Hn. assert (Hc' : c = frontier_prefix 103 ++ frame) by (rewrite Hc; unfold frontier_file, frontier_prefix; rewrite Hlen, <- !app_assoc; done).
  assert (Hflen : length frame = 103%nat) by (unfold zlen in Hlen; lia).
  unfold read_frontier. apply (completes_bind _ _ 1 3 _ (Some j) d); [apply completes_call; by rewrite He|]. cbv beta iota.
  apply (completes_bind _ _ 1 2 _ (frontier_prefix 103) d); [apply (completes_read_exact j _ _ d _ _ Hj); cbn [cached]; rewrite Hc'; apply (get_slice_app [] (frontier_prefix 103) frame); done|].
  change (negb (bytes_eqb (take 8 (frontier_prefix 103)) FRONTIER_MAGIC) || negb (bytes_eqb (take 2 (drop 8 (frontier_prefix 103))) (be_bytes 2 1))) with false. cbv beta iota zeta.
  change (be_value (take 2 (drop 10 (frontier_prefix 103)))) with 3. change (be_value (take 4 (drop 12 (frontier_prefix 103)))) with 103.
  change (negb ((1 <=? 3) && (3 <=? 3))) with false. change ((103 =? 0) || (MAX_FRONTIER_FRAME_BYTES <? 103)) with false. cbv beta iota.
  apply (completes_bind _ _ 1 1 _ frame d).
  { apply (completes_read_exact j _ _ d _ _ Hj). cbn [cached]. pose proof (get_slice_app (frontier_prefix 103) frame [] 16 (16 + 103)) as Hg. rewrite app_nil_r, Hflen in Hg. rewrite Hc'. by apply Hg. }
  apply (completes_bind _ _ 1 0 _ (zlen c) d); [apply (completes_length j d _ Hj)|]. rewrite Hc', zlen_app, Hlen. change (negb (zlen (frontier_prefix 103) + (35 + 68) =? Z.of_nat FRONTIER_PREFIX_BYTES + 103)) with false. cbv beta iota.
  apply (completes_bind _ _ 0 0 _ MAX_FRONTIER_FRAME_BYTES d); [by apply completes_of|].
  apply (completes_bind _ _ 0 0 _ (next, frontier_plaintext durable_bytes next (mkCommitPosition value) retention) d).
  { apply completes_of. apply (open_candidate_found context); [done|done|unfold u64_max; lia|lia|]. change (Z.of_nat (Z.to_nat MAX_RECOVERED_BLOCKS + 1)) with 1025. lia. }
  cbv beta iota. apply (completes_bind _ _ 0 0 _ (mkPublished 3 durable_bytes next (mkCommitPosition value) retention) d); [apply completes_of, decode_frontier_plaintext; try done; unfold u64_max; lia|apply completes_ret].
Qed.

(** ** Blocks *)

Context (id : bytes) (base : CommitPosition) (header : bytes).

(** What makes a block one that recovery accepts, except its position and its receipt. *)
Definition well_formed_block (b : LedgerBlock) : Prop :=
  length (lb_identity b) = 16%nat /\ zeros (lb_identity b) = false /\ lb_payload b <> [] /\ lb_digest b = sha256 (lb_payload b) /\ lb_segment b = id /\
  lb_retention b <> RetentionEmpty /\ durable_retention (lb_retention b).

Definition position_after (n : Z) : CommitPosition := mkCommitPosition (position_value base + n).

Inductive chain : list LedgerBlock -> bytes -> Prop :=
  | chain_start : chain [] []
  | chain_block bs c b context frame : chain bs c -> well_formed_block b ->
      key_frame key PurposeStoreBlock (zlen bs + 1) = Ok context ->
      protect_frame key context (block_plaintext (lb_identity b) (lb_retention b) (lb_payload b)) MAX_ENCODED_FRAME_BYTES = Ok frame ->
      lb_position b = position_after (zlen bs + 1) ->
      receipt_authenticator key (zlen header + zlen (c ++ be_bytes 4 (zlen frame) ++ frame)) (zlen bs + 1) (lb_position b) = Ok (lb_authenticator b) ->
      chain (bs ++ [b]) (c ++ be_bytes 4 (zlen frame) ++ frame).

Definition payload_bytes (bs : list LedgerBlock) : Z := fold_right (fun b n => zlen (lb_payload b) + n) 0 bs.
Definition recovered_retention (bs : list LedgerBlock) : SegmentRetention := fold_left (fun aggregate b => append_block aggregate (lb_retention b)) bs RetentionEmpty.

Lemma payload_bytes_snoc bs b : payload_bytes (bs ++ [b]) = payload_bytes bs + zlen (lb_payload b).
Proof. unfold payload_bytes. induction bs as [|x bs IH]; cbn [app fold_right] in *; [lia|]. rewrite IH. lia. Qed.
Lemma payload_bytes_nonneg bs : 0 <= payload_bytes bs.
Proof. unfold payload_bytes. induction bs as [|x bs IH]; cbn [fold_right]; [lia|]. pose proof (zlen_nonneg (lb_payload x)). lia. Qed.

Lemma chain_length bs c : chain bs c -> zlen c <= 1048964 * zlen bs.
Proof.
  induction 1 as [|bs c b context frame H IH Hb Hk Hp]; [done|]. apply protected_length in Hp as (_ & Hp & _). rewrite !zlen_app, zlen_be_bytes. change (zlen [b]) with 1. unfold MAX_ENCODED_FRAME_BYTES in Hp. lia.
Qed.

Lemma retention_aggregate bs : Forall (fun b => lb_retention b <> RetentionEmpty /\ durable_retention (lb_retention b)) bs ->
  durable_retention (recovered_retention bs) /\ (bs <> [] -> recovered_retention bs <> RetentionEmpty).
Proof.
  unfold recovered_retention. intros H. induction bs as [|b bs IH] using rev_ind; [done|]. apply Forall_app in H as [H [Hb _]%Forall_cons]. specialize (IH H) as [IH _]. destruct Hb as [Hne Hb].
  rewrite fold_left_app. cbn [fold_left]. destruct (fold_left _ bs RetentionEmpty) as [| |t], (lb_retention b) as [| |t']; cbn in *; try done. by destruct (_ <? _).
Qed.

Lemma chain_well_formed bs c : chain bs c -> Forall well_formed_block bs.
Proof. induction 1; [done|]. apply Forall_app. auto. Qed.

Lemma decode_plaintext b header_bytes encoded_bytes consumed total sequence frame_bytes :
  well_formed_block b -> 0 <= position_value base -> 0 <= sequence -> 0 <= consumed -> 0 <= header_bytes -> 0 <= frame_bytes -> 0 <= total -> position_value base + (sequence + 1) <= u64_max ->
  total + zlen (lb_payload b) <= MAX_RETAINED_BLOCK_BYTES -> header_bytes + (consumed + 4 + frame_bytes) <= u64_max -> consumed + 4 + frame_bytes <= encoded_bytes ->
  lb_position b = position_after (sequence + 1) -> receipt_authenticator key (header_bytes + (consumed + 4 + frame_bytes)) (sequence + 1) (lb_position b) = Ok (lb_authenticator b) ->
  decode_block 3 base id key header_bytes encoded_bytes consumed total sequence frame_bytes (block_plaintext (lb_identity b) (lb_retention b) (lb_payload b))
  = Ok (b, consumed + 4 + frame_bytes, total + zlen (lb_payload b)).
Proof.
  intros (Hi & Hz & Hp & Hdigest & Hseg & Hne & Hr) Hbase Hs Hc Hh Hf Ht Hpos Htot Hd He Hposition Hauth. unfold decode_block, block_plaintext.
  rewrite (get_slice_head (lb_identity b)) by done. cbn [corrupt_or ok_or mbind result_bind]. unfold StoreBlockIdentity_new. rewrite Hz. cbn [map_err mbind result_bind].
  change (3 =? 3) with true. cbv iota. unfold decode_block_retention. rewrite (decode_retention_fields (lb_identity b) _ (lb_retention b)) by (done || lia). cbn [mbind result_bind].
  replace (match lb_retention b with RetentionEmpty => Err (LedgerFailure_new LedgerIntegrityCorruption) | _ => Ok (lb_retention b) end) with (Ok (E := LedgerFailure) (lb_retention b)) by (by destruct (lb_retention b)).
  cbn [mbind result_bind]. rewrite app_assoc, get_from_app by (rewrite length_app, Hi, retention_fields_length; done). cbn [corrupt_or ok_or mbind result_bind]. rewrite bool_decide_false by done.
  unfold MAX_RETAINED_BLOCK_BYTES in *. rewrite (checked_add_ok _ total) by (unfold usize_max, u64_max; lia). cbn [limit_exceeded_or ok_or mbind result_bind]. rewrite (proj2 (Z.ltb_ge _ _)) by lia.
  rewrite (checked_add_ok _ sequence) by lia. cbn [limit_exceeded_or ok_or mbind result_bind]. unfold CommitPosition_advance_by. rewrite (checked_add_ok _ (position_value base)) by lia. cbn [map_err mbind result_bind].
  rewrite (checked_add_ok _ consumed) by lia. cbn [mbind option_bind]. rewrite (checked_add_ok _ (consumed + 4)) by lia. cbn [limit_exceeded_or ok_or mbind result_bind]. rewrite (proj2 (Z.ltb_ge _ _)) by lia.
  rewrite checked_add_ok by lia. cbn [limit_exceeded_or ok_or mbind result_bind]. fold (position_after (sequence + 1)). rewrite <- Hposition, Hauth. cbn [mbind result_bind]. rewrite <- Hdigest, <- Hseg. by destruct b.
Qed.

(** One frame is read from the file. *)
Lemma completes_read_block file d bs c b context frame rest encoded_bytes :
  inodes d !! file = Some (mkInode (header ++ (c ++ be_bytes 4 (zlen frame) ++ frame) ++ rest) (header ++ (c ++ be_bytes 4 (zlen frame) ++ frame) ++ rest)) ->
  chain bs c -> well_formed_block b -> key_frame key PurposeStoreBlock (zlen bs + 1) = Ok context ->
  protect_frame key context (block_plaintext (lb_identity b) (lb_retention b) (lb_payload b)) MAX_ENCODED_FRAME_BYTES = Ok frame ->
  lb_position b = position_after (zlen bs + 1) ->
  receipt_authenticator key (zlen header + zlen (c ++ be_bytes 4 (zlen frame) ++ frame)) (zlen bs + 1) (lb_position b) = Ok (lb_authenticator b) ->
  0 <= position_value base -> position_value base + zlen (bs ++ [b]) <= u64_max -> zlen header <= 1024 -> zlen (bs ++ [b]) <= MAX_RETAINED_BLOCKS -> payload_bytes (bs ++ [b]) <= MAX_RETAINED_BLOCK_BYTES ->
  zlen (c ++ be_bytes 4 (zlen frame) ++ frame) <= encoded_bytes ->
  completes (read_block file 3 base id key (zlen header) encoded_bytes (bs, zlen c, payload_bytes bs)) 2 d
    (bs ++ [b], zlen (c ++ be_bytes 4 (zlen frame) ++ frame), payload_bytes (bs ++ [b])) d.
Proof.
  intros Hfile Hchain Hb Hk Hp Hposition Hauth Hbase Hpos Hheader Hcount Hbytes Henc. pose proof (protected_length _ _ _ _ _ Hp) as (Hflen & Hfmax & Hfu). unfold MAX_ENCODED_FRAME_BYTES, MAX_RETAINED_BLOCKS in Hfmax, Hcount.
  pose proof (chain_length _ _ Hchain). pose proof (zlen_nonneg bs). pose proof (zlen_nonneg c). pose proof (zlen_nonneg header). pose proof (zlen_nonneg frame). pose proof (payload_bytes_nonneg bs).
  assert (Hlen : zlen (c ++ be_bytes 4 (zlen frame) ++ frame) = zlen c + 4 + zlen frame) by (rewrite !zlen_app, zlen_be_bytes; lia).
  rewrite payload_bytes_snoc in *. rewrite Hlen in *. assert (Hsnoc : zlen (bs ++ [b]) = zlen bs + 1) by (rewrite zlen_app; done). rewrite Hsnoc in *.
  assert (Hoff : Z.to_nat (zlen header + zlen c) = (length header + length c)%nat) by (unfold zlen; lia).
  unfold read_block. rewrite (proj2 (Z.leb_gt _ _)) by (unfold MAX_RECOVERED_BLOCKS; lia). cbv zeta. rewrite Hoff.
  apply (completes_bind _ _ 1 1 _ (be_bytes 4 (zlen frame)) d).
  { apply (completes_read_exact file _ _ d _ _ Hfile). cbn [cached]. rewrite <- !app_assoc, (app_assoc header c). apply get_slice_app; by rewrite length_app. }
  rewrite be_value_be_bytes by (change (256 ^ Z.of_nat 4) with 4294967296; lia). rewrite (proj2 (Z.ltb_ge _ _)) by (unfold MAX_ENCODED_FRAME_BYTES; lia).
  apply (completes_bind _ _ 1 0 _ frame d).
  { apply (completes_read_exact file _ _ d _ _ Hfile). cbn [cached]. rewrite <- !app_assoc, (app_assoc header c), (app_assoc (header ++ c)). apply get_slice_app; rewrite !length_app; [done|]. unfold zlen. rewrite Nat2Z.id. cbn. lia. }
  apply (completes_bind _ _ 0 0 _ (zlen bs + 1) d); [apply completes_of; by rewrite checked_add_ok by (unfold u64_max; lia)|].
  apply (completes_bind _ _ 0 0 _ context d); [by apply completes_of|].
  apply (completes_bind _ _ 0 0 _ MAX_ENCODED_FRAME_BYTES d); [by apply completes_of|].
  apply (completes_bind _ _ 0 0 _ (block_plaintext (lb_identity b) (lb_retention b) (lb_payload b)) d).
  { apply completes_of. rewrite (open_protected _ _ _ _ _ _ Hp); [done| |unfold MAX_ENCODED_FRAME_BYTES; lia]. rewrite (key_frame_sequence _ _ _ Hk). unfold u64_max. lia. }
  apply (completes_bind _ _ 0 0 _ (b, zlen c + 4 + zlen frame, payload_bytes bs + zlen (lb_payload b)) d); [|apply completes_ret].
  apply completes_of, decode_plaintext; try done; try lia. unfold u64_max. lia.
Qed.

Abbreviation reading file encoded_bytes := (fun state : list LedgerBlock * Z * Z =>
  let '(blocks, consumed, _) := state in
  if consumed <? encoded_bytes then state ← read_block file 3 base id key (zlen header) encoded_bytes state; mret (inl (B := list LedgerBlock) state) else mret (inr blocks)).

Lemma reads_chain file d bs c : chain bs c -> forall rest encoded_bytes,
  inodes d !! file = Some (mkInode (header ++ c ++ rest) (header ++ c ++ rest)) ->
  0 <= position_value base -> position_value base + zlen bs <= u64_max -> zlen header <= 1024 -> zlen bs <= MAX_RETAINED_BLOCKS -> payload_bytes bs <= MAX_RETAINED_BLOCK_BYTES -> zlen c <= encoded_bytes ->
  reaches (E := LedgerFailure) (reading file encoded_bytes) d (2 * length bs) ([], 0, 0) (bs, zlen c, payload_bytes bs).
Proof.
  induction 1 as [|bs c b context frame H IH Hb Hk Hp Hposition Hauth]; intros rest encoded_bytes Hfile Hbase Hpos Hheader Hcount Hbytes Henc; [apply reaches_start|].
  assert (Hsnoc : zlen (bs ++ [b]) = zlen bs + 1) by (rewrite zlen_app; done). pose proof (zlen_nonneg frame).
  assert (Hlen : zlen (c ++ be_bytes 4 (zlen frame) ++ frame) = zlen c + 4 + zlen frame) by (rewrite !zlen_app, zlen_be_bytes; lia).
  pose proof (payload_bytes_snoc bs b). pose proof (zlen_nonneg (lb_payload b)).
  replace (2 * length (bs ++ [b]))%nat with (2 * length bs + 2)%nat by (rewrite length_app; cbn; lia). eapply reaches_turn.
  - apply (IH ((be_bytes 4 (zlen frame) ++ frame) ++ rest)); try lia. by rewrite <- app_assoc in Hfile.
  - cbv beta iota. rewrite (proj2 (Z.ltb_lt _ _)) by lia.
    apply (completes_bind _ _ 2 0 _ (bs ++ [b], zlen (c ++ be_bytes 4 (zlen frame) ++ frame), payload_bytes (bs ++ [b])) d); [|apply completes_ret].
    by apply (completes_read_block file d bs c b context frame rest).
Qed.

(** ** Recovery *)

Record stored (bs : list LedgerBlock) (content : bytes) (f : Frontier) : Prop := {
  so_chain : exists c, content = header ++ c /\ chain bs c;
  so_count : zlen bs <= MAX_RETAINED_BLOCKS;
  so_bytes : payload_bytes bs <= MAX_RETAINED_BLOCK_BYTES;
  so_base : 0 <= position_value base;
  so_position : position_value base + zlen bs <= u64_max;
  so_header : zlen header <= 1024;
  so_frontier : match f with
    | None => bs = []
    | Some (_, c) => bs <> [] /\ frontier_bytes key (zlen content) (zlen bs) (position_after (zlen bs)) (recovered_retention bs) c
    end;
}.

Lemma completes_read_blocks file d bs c rest : chain bs c -> zlen bs <= MAX_RETAINED_BLOCKS -> payload_bytes bs <= MAX_RETAINED_BLOCK_BYTES -> 0 <= position_value base ->
  position_value base + zlen bs <= u64_max -> zlen header <= 1024 -> inodes d !! file = Some (mkInode (header ++ c ++ rest) (header ++ c ++ rest)) ->
  completes (read_blocks file (zlen c) base id (zlen header) key 3 (recovered_retention bs)) (2 * length bs) d bs d.
Proof.
  intros Hchain Hcount Hbytes Hbase Hpos Hheader Hfile. unfold read_blocks. rewrite <- (Nat.add_0_r (2 * length bs)). apply (completes_bind _ _ _ 0 _ bs d).
  - eapply completes_looped; [by apply (reads_chain file d bs c Hchain rest (zlen c))|]. cbv beta iota. rewrite Z.ltb_irrefl. apply completes_ret.
  - cbv zeta. fold (recovered_retention bs). rewrite bool_decide_true by done. apply completes_ret.
Qed.

Lemma stored_retention bs content f : stored bs content f -> durable_retention (recovered_retention bs).
Proof.
  intros Hs. destruct (so_chain _ _ _ Hs) as (c & _ & Hc%chain_well_formed). apply retention_aggregate. eapply Forall_impl; [exact Hc|]. by intros b (_ & _ & _ & _ & _ & ? & ?).
Qed.

(** Only what follows the durable bytes is cut off. *)
Lemma completes_tail i f d content junk : settled id i (content ++ junk) f d ->
  exists n d', (n <= 2)%nat /\ settled id i content f d' /\
    completes (if zlen content <? zlen (content ++ junk) then _ ← set_length i (zlen content); synchronize_file i else mret tt) n d tt d'.
Proof.
  intros Hd. rewrite zlen_app. destruct junk as [|x junk].
  - rewrite app_nil_r in Hd. exists 0%nat, d. split_and!; [lia|done|]. rewrite (proj2 (Z.ltb_ge _ _)) by (change (zlen []) with 0; lia). apply completes_ret.
  - pose proof (phase_truncated _ _ _ _ _ _ (length content) _ Hd) as Hcut. rewrite take_app_length in Hcut. pose proof (phase_synchronized _ _ _ _ _ _ _ Hcut) as Hsync.
    eexists 2%nat, _. split_and!; [lia|exact Hsync|]. rewrite (proj2 (Z.ltb_lt _ _)) by (rewrite zlen_cons; pose proof (zlen_nonneg junk); lia).
    eapply (completes_bind _ _ 1 1); apply completes_call.
    + rewrite (ph_file _ _ _ _ _ _ _ Hd). cbn [cached synced]. unfold zlen. rewrite Nat2Z.id, take_app_length. reflexivity.
    + rewrite (ph_file _ _ _ _ _ _ _ Hcut). reflexivity.
Qed.

Lemma recovers_stored metadata i d bs content f junk : md_id metadata = id -> md_base metadata = base -> stored bs content f -> settled id i (content ++ junk) f d ->
  exists n d', (n <= 8 + 2 * length bs)%nat /\ settled id i content f d' /\
    completes (recover_with_mode ActivePlace ActivePlace metadata key (zlen header) Repair true) n d (mkRecoveryState (position_after (zlen bs)) bs) d'.
Proof.
  intros Hid Hbase Hs Hd. destruct (completes_tail i f d content junk Hd) as (t & d' & Ht & Hd' & Htail). pose proof (stored_retention _ _ _ Hs) as Hret.
  destruct Hs as [(c & Hc & Hchain) Hcount Hbytes Hb Hpos Hheader Hf]. pose proof (zlen_nonneg bs). pose proof (zlen_nonneg header). pose proof (zlen_nonneg c). pose proof (chain_length _ _ Hchain).
  assert (Hlc : zlen content = zlen header + zlen c) by (by rewrite Hc, zlen_app). unfold MAX_RETAINED_BLOCKS in Hcount.
  unfold recover_with_mode. rewrite Hid, Hbase. cbn [negb]. cbv zeta.
  assert (Hopen : completes (open_regular ActivePlace (segment_name id)) 1 d i d).
  { apply (completes_bind _ _ 1 0 _ (Some i) d); [apply completes_call; cbn [directory]; by rewrite (ph_segment _ _ _ _ _ _ _ Hd)|by apply completes_of]. }
  assert (Hlength : completes (file_length i) 1 d (zlen (content ++ junk)) d) by apply (completes_length i d _ (ph_file _ _ _ _ _ _ _ Hd)).
  destruct f as [[j cf]|].
  - destruct Hf as [Hne Hf]. pose proof (ph_now _ _ _ _ _ _ _ Hd) as (Hj & _). assert (Hpositive : 0 < zlen bs) by (destruct bs; [done|]; rewrite zlen_cons; pose proof (zlen_nonneg bs); lia).
    exists (1 + (4 + (1 + (t + (2 * length bs + 0)))))%nat, d'. split_and!; [lia|done|].
    apply (completes_bind _ _ 1 _ _ i d); [done|].
    apply (completes_bind _ _ 4 _ _ (Some (mkPublished 3 (zlen content) (zlen bs) (position_after (zlen bs)) (recovered_retention bs))) d).
    { apply (completes_read_frontier d ActivePlace id j _ _ _ _ cf); [apply (ph_frontier _ _ _ _ _ _ _ Hd)|done|done|unfold u64_max; lia|unfold MAX_RECOVERED_BLOCKS; lia|lia|done]. }
    apply (completes_bind _ _ 1 _ _ (zlen (content ++ junk)) d); [done|]. cbn [pb_durable_bytes pb_next_sequence pb_position pb_version pb_retention].
    rewrite (proj2 (Z.ltb_ge (zlen content) (zlen header))) by lia. rewrite (proj2 (Z.ltb_ge (zlen (content ++ junk)) (zlen content))) by (rewrite zlen_app; pose proof (zlen_nonneg junk); lia). cbn [orb].
    apply (completes_bind _ _ t _ _ tt d'); [done|]. replace (zlen content - zlen header) with (zlen c) by lia.
    apply (completes_bind _ _ (2 * length bs) _ _ bs d').
    { apply (completes_read_blocks i d' bs c []); try done. rewrite app_nil_r, <- Hc. apply (ph_file _ _ _ _ _ _ _ Hd'). }
    rewrite Z.eqb_refl. cbn [negb]. apply (completes_bind _ _ 0 _ _ (position_value base + zlen bs) d'); [apply completes_of; by rewrite checked_add_ok by lia|].
    cbn [position_value position_after]. rewrite Z.eqb_refl. apply completes_ret.
  - subst bs. inversion Hchain as [|? ? ? ? ? ? ? ? ? ? ? Hnil]; [|by destruct bs]. subst c. rewrite app_nil_r in Hc. subst content.
    exists (1 + (1 + (1 + (t + 0))))%nat, d'. split_and!; [lia|done|].
    apply (completes_bind _ _ 1 _ _ i d); [done|].
    apply (completes_bind _ _ 1 _ _ None d). { apply (completes_bind _ _ 1 0 _ None d); [apply completes_call; cbn [directory]; by rewrite (ph_frontier _ _ _ _ _ _ _ Hd)|apply completes_ret]. }
    apply (completes_bind _ _ 1 _ _ (zlen (header ++ junk)) d); [done|]. rewrite (proj2 (Z.ltb_ge (zlen (header ++ junk)) (zlen header))) by (rewrite zlen_app; pose proof (zlen_nonneg junk); lia).
    apply (completes_bind _ _ t _ _ tt d'); [done|]. unfold position_after. change (zlen []) with 0. rewrite Z.add_0_r. destruct base. apply completes_ret.
Qed.
End recovery.

(** ** Metadata *)

Definition well_formed_id (b : bytes) : Prop := length b = 16%nat /\ zeros b = false.

Record well_formed_metadata (m : SegmentMetadata) : Prop := {
  wm_tenant : well_formed_id (tenant_id_bytes (scope_tenant (md_scope m)));
  wm_shard : 0 < shard_value (scope_shard (md_scope m)) <= u32_max;
  wm_id : well_formed_id (md_id m);
  wm_base : 0 <= position_value (md_base m) <= u64_max;
}.

Lemma position_from_value_id v : 0 <= v <= u64_max -> position_from_value v = Ok (mkCommitPosition v).
Proof.
  intros Hv. unfold position_from_value. destruct (Z.eqb_spec v 0) as [->|]; [done|]. unfold CommitPosition_advance_by, CommitPosition_origin. cbn [position_value]. by rewrite checked_add_ok by lia.
Qed.

Lemma metadata_bytes m : well_formed_metadata m -> zlen (encode_metadata m) = METADATA_BYTES.
Proof.
  intros [[Ht _] _ [Hi _] _]. unfold encode_metadata. rewrite !zlen_app, !zlen_be_bytes. unfold zlen. rewrite Ht, Hi. done.
Qed.

(** Fields at their offsets. *)
Lemma slice_at (w a b c : bytes) n m : w = a ++ b ++ c -> n = length a -> m = (n + length b)%nat -> get_slice w n m = Some b.
Proof. intros -> -> ->. by apply get_slice_app. Qed.

Lemma exact_at (w a b c : bytes) n m : w = a ++ b ++ c -> n = length a -> m = length b -> exact_bytes w n m = Ok b.
Proof. intros -> -> ->. by apply exact_bytes_app. Qed.

Lemma byte_at (w a c : bytes) x n : w = a ++ x :: c -> n = length a -> w !! n = Some x.
Proof. intros -> ->. by rewrite lookup_app_r, Nat.sub_diag. Qed.

Lemma metadata_decodes m : well_formed_metadata m -> decode_metadata (encode_metadata m) = Ok (Some m).
Proof.
  intros Hm. pose proof (metadata_bytes m Hm) as Hlen. destruct Hm as [[Ht Htz] Hs [Hi Hiz] Hb]. remember (encode_metadata m) as w eqn:Hw.
  destruct m as [[[t] signal [shard]] id state [base]]. unfold encode_metadata in Hw.
  cbn [md_scope md_id md_state md_base scope_tenant scope_signal scope_shard tenant_id_bytes shard_value position_value] in *.
  set (pre := METADATA_MAGIC ++ be_bytes 2 1 ++ [state_tag state]).
  assert (Hw1 : w = pre ++ t ++ [signal_number signal] ++ be_bytes 4 shard ++ id ++ be_bytes 8 base) by (subst w pre; by rewrite <- !app_assoc).
  unfold decode_metadata, starts_with, bytes_eqb. rewrite Hlen, Z.eqb_refl.
  rewrite (bool_decide_true (take _ w = _)) by (subst w; apply (take_app_length METADATA_MAGIC)).
  rewrite (slice_at w METADATA_MAGIC (be_bytes 2 1) ([state_tag state] ++ t ++ [signal_number signal] ++ be_bytes 4 shard ++ id ++ be_bytes 8 base) 8 10), bool_decide_true by done. cbn [negb orb].
  rewrite (byte_at w (METADATA_MAGIC ++ be_bytes 2 1) (t ++ [signal_number signal] ++ be_bytes 4 shard ++ id ++ be_bytes 8 base) (state_tag state) 10) by (subst w; rewrite <- ?app_assoc; done).
  rewrite (exact_at w pre t ([signal_number signal] ++ be_bytes 4 shard ++ id ++ be_bytes 8 base) 11 16) by done.
  rewrite (byte_at w (pre ++ t) (be_bytes 4 shard ++ id ++ be_bytes 8 base) (signal_number signal) 27) by (by rewrite ?length_app, ?Ht, ?Hw1, <- ?app_assoc).
  rewrite (exact_at w (pre ++ t ++ [signal_number signal]) (be_bytes 4 shard) (id ++ be_bytes 8 base) 28 4) by (by rewrite ?length_app, ?Ht, ?Hw1, <- ?app_assoc).
  rewrite (exact_at w (pre ++ t ++ [signal_number signal] ++ be_bytes 4 shard) id (be_bytes 8 base) 32 16) by (by rewrite ?length_app, ?Ht, ?Hw1, <- ?app_assoc).
  rewrite (exact_at w (pre ++ t ++ [signal_number signal] ++ be_bytes 4 shard ++ id) (be_bytes 8 base) [] 48 8) by (rewrite ?length_app, ?Ht, ?Hi, ?Hw1, ?app_nil_r, <- ?app_assoc; done).
  assert (H1 : match Some (state_tag state) with Some 1 => Ok SegmentActive | Some 2 => Ok SegmentSealed | Some 3 => Ok SegmentRetired | _ => ledger_fail LedgerIntegrityCorruption end = Ok state) by (by destruct state).
  assert (H2 : match Some (signal_number signal) with Some 1 => Ok Logs | Some 2 => Ok Traces | _ => ledger_fail LedgerIntegrityCorruption end = Ok signal) by (by destruct signal).
  rewrite H1, H2. cbn [mbind result_bind]. unfold SegmentId_new. rewrite Hiz. cbn [mbind result_bind]. unfold TenantId_from_bytes. fold (zeros t). rewrite Htz. cbn [map_err mbind result_bind].
  rewrite !be_value_be_bytes by (change (256 ^ Z.of_nat 8) with 18446744073709551616; change (256 ^ Z.of_nat 4) with 4294967296; unfold u64_max, u32_max in *; lia).
  unfold VirtualShardId_new. rewrite (proj2 (Z.eqb_neq shard 0)) by lia. cbn [map_err mbind result_bind]. by rewrite position_from_value_id.
Qed.

(** ** Headers *)

Record well_formed_route (r : SegmentKeyRoute) : Prop := {
  wr_family : 0 < provider_family r <= u16_max;
  wr_reference : well_formed_id (provider_reference r);
  wr_epoch : 0 < provider_key_epoch r <= u64_max;
}.

Lemma encoded_header route wrapped metadata header : encode_header route wrapped metadata = Ok header ->
  (wrapped <> [] /\ zlen wrapped <= MAX_WRAPPED_KEY_BYTES) /\ (metadata <> [] /\ zlen metadata <= MAX_ENCRYPTED_METADATA_BYTES) /\
  header = SEGMENT_MAGIC ++ be_bytes 2 2 ++ be_bytes 2 1 ++ be_bytes 2 1 ++ be_bytes 2 (provider_family route) ++ provider_reference route
      ++ be_bytes 8 (provider_key_epoch route) ++ be_bytes 4 (zlen wrapped) ++ wrapped ++ be_bytes 4 (zlen metadata) ++ metadata.
Proof.
  unfold encode_header. case_bool_decide; [done|]. destruct (Z.ltb_spec MAX_WRAPPED_KEY_BYTES (zlen wrapped)); [done|]. case_bool_decide; [done|].
  destruct (Z.ltb_spec MAX_ENCRYPTED_METADATA_BYTES (zlen metadata)); [done|]. cbn [orb]. intros H'. apply (f_equal (fun r => match r with Ok x => x | Err _ => [] end)) in H'. cbv beta iota in H'. by rewrite <- H'.
Qed.

Lemma positive_length {A} (l : list A) : l <> [] -> 0 < zlen l.
Proof. destruct l; [done|]. intros _. rewrite zlen_cons. pose proof (zlen_nonneg l). lia. Qed.

Lemma header_decodes route wrapped metadata header rest : well_formed_route route -> encode_header route wrapped metadata = Ok header ->
  decode_header (header ++ rest) = Ok (mkSegmentHeader route wrapped metadata (zlen header)).
Proof.
  intros [Hf [Hr Hrz] He] ([Hw0 Hw] & [Hm0 Hm] & Hh)%encoded_header. destruct route as [family reference epoch]. cbn [provider_family provider_reference provider_key_epoch] in *.
  unfold MAX_WRAPPED_KEY_BYTES, MAX_ENCRYPTED_METADATA_BYTES in *. pose proof (positive_length _ Hw0). pose proof (positive_length _ Hm0).
  remember (header ++ rest) as w eqn:Hwe. rewrite Hh in Hwe. rewrite <- !app_assoc in Hwe.
  set (p1 := SEGMENT_MAGIC ++ be_bytes 2 2 ++ be_bytes 2 1 ++ be_bytes 2 1). set (r4 := metadata ++ rest). set (r3 := be_bytes 4 (zlen metadata) ++ r4). set (r2 := be_bytes 4 (zlen wrapped) ++ wrapped ++ r3).
  assert (Hlen : zlen header = 48 + zlen wrapped + zlen metadata) by (rewrite Hh, !zlen_app, !zlen_be_bytes; change (zlen SEGMENT_MAGIC) with 8; unfold zlen at 1; rewrite Hr; lia).
  assert (Hw1 : w = p1 ++ be_bytes 2 family ++ reference ++ be_bytes 8 epoch ++ r2) by (rewrite Hwe; unfold p1, r2, r3, r4; by rewrite <- !app_assoc).
  unfold decode_header.
  rewrite (slice_at w [] SEGMENT_MAGIC (be_bytes 2 2 ++ be_bytes 2 1 ++ be_bytes 2 1 ++ be_bytes 2 family ++ reference ++ be_bytes 8 epoch ++ r2) 0 8) by (done || by rewrite Hw1; unfold p1; rewrite <- !app_assoc).
  rewrite (slice_at w SEGMENT_MAGIC (be_bytes 2 2) (be_bytes 2 1 ++ be_bytes 2 1 ++ be_bytes 2 family ++ reference ++ be_bytes 8 epoch ++ r2) 8 10) by (done || by rewrite Hw1; unfold p1; rewrite <- !app_assoc).
  rewrite (slice_at w (SEGMENT_MAGIC ++ be_bytes 2 2) (be_bytes 2 1) (be_bytes 2 1 ++ be_bytes 2 family ++ reference ++ be_bytes 8 epoch ++ r2) 10 12) by (done || by rewrite Hw1; unfold p1; rewrite <- !app_assoc).
  rewrite (slice_at w (SEGMENT_MAGIC ++ be_bytes 2 2 ++ be_bytes 2 1) (be_bytes 2 1) (be_bytes 2 family ++ reference ++ be_bytes 8 epoch ++ r2) 12 14) by (done || by rewrite Hw1; unfold p1; rewrite <- !app_assoc).
  rewrite !bool_decide_true by done. cbn [negb orb].
  rewrite (exact_at w p1 (be_bytes 2 family) (reference ++ be_bytes 8 epoch ++ r2) 14 2) by done.
  rewrite (exact_at w (p1 ++ be_bytes 2 family) reference (be_bytes 8 epoch ++ r2) 16 16) by (rewrite ?Hw1, <- ?app_assoc; done).
  rewrite (exact_at w (p1 ++ be_bytes 2 family ++ reference) (be_bytes 8 epoch) r2 32 8) by (rewrite ?Hw1, ?length_app, ?Hr, <- ?app_assoc; done).
  rewrite (exact_at w (p1 ++ be_bytes 2 family ++ reference ++ be_bytes 8 epoch) (be_bytes 4 (zlen wrapped)) (wrapped ++ r3) 40 4) by (rewrite ?Hw1, ?length_app, ?Hr, <- ?app_assoc; done).
  cbn [mbind result_bind]. rewrite !be_value_be_bytes by (change (256 ^ Z.of_nat 8) with 18446744073709551616; change (256 ^ Z.of_nat 4) with 4294967296; change (256 ^ Z.of_nat 2) with 65536; unfold u64_max, u16_max in *; lia).
  rewrite !(proj2 (Z.eqb_neq _ 0)), Hrz by lia. cbn [orb]. unfold MAX_WRAPPED_KEY_BYTES, HEADER_PREFIX_BYTES. rewrite (proj2 (Z.ltb_ge _ _)) by lia.
  set (q := p1 ++ be_bytes 2 family ++ reference ++ be_bytes 8 epoch ++ be_bytes 4 (zlen wrapped)).
  assert (Hq : length q = 44%nat) by (unfold q; rewrite !length_app, Hr; done). assert (Hwq : w = q ++ wrapped ++ r3) by (rewrite Hw1; unfold q; by rewrite <- !app_assoc).
  assert (Hoff : Z.to_nat (44 + zlen wrapped) = length (q ++ wrapped)) by (rewrite length_app, Hq; unfold zlen; lia). rewrite Hoff.
  rewrite (exact_at w (q ++ wrapped) (be_bytes 4 (zlen metadata)) r4 (length (q ++ wrapped)) 4) by (rewrite ?Hwq, <- ?app_assoc; done). cbn [mbind result_bind].
  rewrite be_value_be_bytes by (change (256 ^ Z.of_nat 4) with 4294967296; lia). rewrite (proj2 (Z.eqb_neq _ 0)) by lia. unfold MAX_ENCRYPTED_METADATA_BYTES. rewrite (proj2 (Z.ltb_ge _ _)) by lia. cbn [orb].
  rewrite (slice_at w q wrapped r3 (Z.to_nat 44)) by (rewrite ?length_app, ?Hq; done). cbn [ok_or mbind result_bind].
  rewrite (slice_at w ((q ++ wrapped) ++ be_bytes 4 (zlen metadata)) metadata rest) by (rewrite ?Hwq, ?length_app, <- ?app_assoc; unfold zlen; rewrite ?Nat2Z.id; done).
  cbn [ok_or mbind result_bind]. do 2 f_equal. rewrite Hlen, length_app, Hq. unfold zlen. lia.
Qed.

(** ** Segments *)

Section segments.
Context {B : CryptoBackend} {HB : CryptoLaws B} (protection : SegmentProtectionKey) (instance : bytes).

(** The header that [create_active] writes. *)
Record header_for (metadata : SegmentMetadata) (key : ObjectDataKey) (header : bytes) : Prop := {
  hf_metadata : well_formed_metadata metadata;
  hf_active : md_state metadata = SegmentActive;
  hf_route : well_formed_route (pk_route protection);
  hf_key : zlen (odk_key key) = 32;
  hf_object : object_context (md_scope metadata) (md_id metadata) = Ok (odk_object key);
  hf_header : exists wrapped context encrypted,
    wrap_segment_key (pk_key protection) key instance (pk_route protection) = Ok wrapped /\ segment_frame (odk_object key) PurposeSegmentMetadata 0 = Ok context /\
    protect_frame key context (encode_metadata metadata) MAX_ENCRYPTED_METADATA_BYTES = Ok encrypted /\ encode_header (pk_route protection) wrapped encrypted = Ok header;
}.

Lemma header_length metadata key header : header_for metadata key header -> zlen header <= 428.
Proof.
  intros [Hm _ Hr _ _ (wrapped & context & encrypted & _ & _ & Hp & Hh)]. apply protected_length in Hp as (Hp & _ & _). rewrite (metadata_bytes _ Hm) in Hp. unfold METADATA_BYTES in Hp.
  apply encoded_header in Hh as ((_ & Hw) & _ & Hh). unfold MAX_WRAPPED_KEY_BYTES in Hw. destruct Hr as [_ [Href _] _]. rewrite Hh, !zlen_app, !zlen_be_bytes. change (zlen SEGMENT_MAGIC) with 8.
  assert (zlen (provider_reference (pk_route protection)) = 16) by (unfold zlen; by rewrite Href). lia.
Qed.

Lemma completes_open_segment metadata key header i d rest : header_for metadata key header -> inodes d !! i = Some (mkInode (header ++ rest) (header ++ rest)) ->
  completes (open_segment i metadata protection instance) 1 d (key, metadata, zlen header) d.
Proof.
  intros Hh Hfile. pose proof (header_length _ _ _ Hh) as Hlen. destruct Hh as [Hm Hactive Hr Hk Ho (wrapped & context & encrypted & Hwrap & Hcontext & Hp & Hh)].
  pose proof (protected_length _ _ _ _ _ Hp) as (_ & Hplen & _).
  unfold open_segment. apply (completes_bind _ _ 1 0 _ (header ++ rest) d); [apply (completes_content i d _ Hfile)|].
  apply (completes_bind _ _ 0 0 _ (mkSegmentHeader (pk_route protection) wrapped encrypted (zlen header)) d).
  { apply completes_of. rewrite take_app_ge by (unfold zlen in Hlen; lia). by apply header_decodes. }
  cbn [sh_route sh_wrapped_key sh_metadata sh_encoded_bytes]. rewrite bool_decide_true by done. cbn [negb].
  apply (completes_bind _ _ 0 0 _ (odk_object key) d); [by apply completes_of|].
  apply (completes_bind _ _ 0 0 _ key d); [apply completes_of; by rewrite (unwrap_wrapped _ _ _ _ _ Hk Hwrap)|].
  apply (completes_bind _ _ 0 0 _ context d); [apply completes_of; by rewrite Hcontext|].
  apply (completes_bind _ _ 0 0 _ MAX_ENCRYPTED_METADATA_BYTES d); [by apply completes_of|].
  apply (completes_bind _ _ 0 0 _ (encode_metadata metadata) d).
  { apply completes_of. rewrite (open_protected _ _ _ _ _ _ Hp); [done| |done]. unfold segment_frame in Hcontext. destruct (fo_class _); [|done]. by injection Hcontext as <-. }
  apply (completes_bind _ _ 0 0 _ (Some metadata) d); [apply completes_of; by rewrite metadata_decodes|].
  apply (completes_bind _ _ 0 0 _ metadata d); [by apply completes_of|]. rewrite !bool_decide_true by done. rewrite Z.eqb_refl, andb_false_r. apply completes_ret.
Qed.

(** A crashed segment recovers with its key. *)
Lemma segment_recovers metadata key header i d bs content f junk : header_for metadata key header -> stored key (md_id metadata) (md_base metadata) header bs content f ->
  settled (md_id metadata) i (content ++ junk) f d ->
  exists n d', (n <= 17 + 2 * length bs)%nat /\ settled (md_id metadata) i content f d' /\
    completes (recover_segment_with_mode metadata protection instance Repair) n d (key, mkRecoveryState (position_after (md_base metadata) (zlen bs)) bs) d'.
Proof.
  intros Hh Hs Hd. set (id := md_id metadata) in *.
  assert (Hunlink : exists n d1, (n <= 2)%nat /\ settled id i (content ++ junk) f d1 /\
    completes (removed ← unlink ActivePlace (frontier_temporary_name id); if (removed : bool) then synchronize_directory ActivePlace else mret tt) n d tt d1).
  { pose proof (phase_unlinked _ _ _ _ _ _ _ Hd) as Hu. destruct (decide (is_Some (entries (active_directory d) !! frontier_temporary_name id))) as [Hp|Hp].
    - pose proof (phase_directory_synchronized _ _ _ _ _ _ _ Hu) as Hsync. eexists 2%nat, _. split_and!; [lia|exact Hsync|].
      eapply (completes_bind _ _ 1 1); [apply completes_call; cbn [directory]; reflexivity|]. rewrite bool_decide_true by done. apply completes_call. reflexivity.
    - eexists 1%nat, _. split_and!; [lia|exact Hu|]. eapply (completes_bind _ _ 1 0); [apply completes_call; cbn [directory]; reflexivity|]. rewrite bool_decide_false by done. apply completes_ret. }
  destruct Hunlink as (n1 & d1 & Hn1 & Hd1 & Hc1). destruct (recovers_stored key id (md_base metadata) header metadata i d1 bs content f junk) as (n2 & d2 & Hn2 & Hd2 & Hc2); [done..|].
  exists (n1 + (1 + (1 + (0 + (0 + (1 + (1 + (0 + (1 + (1 + (n2 + 0)))))))))))%nat, d2. split_and!; [lia|done|].
  assert (Hsealed : forall kind, bool_decide (is_Some (entries (sealed_directory d1) !! (id, kind))) = false).
  { intros kind. apply bool_decide_false. destruct (ph_sealed _ _ _ _ _ _ _ Hd1 kind) as [-> _]. by intros [? ?]. }
  destruct (so_chain _ _ _ _ _ _ _ Hs) as (c & Hc & _).
  unfold recover_segment_with_mode. fold id. rewrite (hf_active _ _ _ Hh). rewrite (bool_decide_true (SegmentActive = SegmentActive)) by done. rewrite (bool_decide_false (SegmentActive = SegmentSealed)), (bool_decide_false (SegmentActive = SegmentRetired)) by done. cbn [andb orb].
  apply (completes_bind _ _ n1 _ _ tt d1); [done|].
  apply (completes_bind _ _ 1 _ _ true d1); [apply completes_call; cbn [directory]; by rewrite (ph_segment _ _ _ _ _ _ _ Hd1)|].
  apply (completes_bind _ _ 1 _ _ false d1); [apply completes_call; cbn [directory]; f_equal; apply (Hsealed SegmentFile)|].
  apply (completes_bind _ _ 0 _ _ false d1); [apply completes_ret|].
  apply (completes_bind _ _ 0 _ _ (ActivePlace, true) d1); [by apply completes_of|].
  apply (completes_bind _ _ 1 _ _ (bool_decide (is_Some (entries (active_directory d1) !! frontier_name id))) d1); [by apply completes_call|].
  apply (completes_bind _ _ 1 _ _ false d1); [apply completes_call; cbn [directory]; f_equal; apply (Hsealed FrontierFile)|].
  apply (completes_bind _ _ 0 _ _ ActivePlace d1); [apply completes_of; by case_bool_decide|].
  apply (completes_bind _ _ 1 _ _ i d1).
  { apply (completes_bind _ _ 1 0 _ (Some i) d1); [apply completes_call; cbn [directory]; by rewrite (ph_segment _ _ _ _ _ _ _ Hd1)|by apply completes_of]. }
  apply (completes_bind _ _ 1 _ _ (key, metadata, zlen header) d1).
  { apply (completes_open_segment metadata key header i d1 (c ++ junk) Hh). rewrite app_assoc, <- Hc. apply (ph_file _ _ _ _ _ _ _ Hd1). }
  cbv beta iota. apply (completes_bind _ _ n2 _ _ (mkRecoveryState (position_after (md_base metadata) (zlen bs)) bs) d2); [done|apply completes_ret].
Qed.

(** No file has the name of the segment, now or after a crash. *)
Definition absent (id : bytes) (d : Disk) : Prop := forall kind p, entries (directory d p) !! (id, kind) = None /\ synced_entries (directory d p) !! (id, kind) = None.

(** The segment file exists with the bytes [z], its name may not be synchronised. *)
Definition created (id : bytes) (i : nat) (z y : bytes) (d : Disk) : Prop :=
  entries (active_directory d) !! segment_name id = Some i /\ inodes d !! i = Some (mkInode z y) /\ (i < fresh d)%nat /\
  entries (active_directory d) !! frontier_name id = None /\ (forall kind, entries (sealed_directory d) !! (id, kind) = None /\ synced_entries (sealed_directory d) !! (id, kind) = None).

Lemma create_active_triple metadata entropy : well_formed_metadata metadata -> well_formed_route (pk_route protection) -> zlen entropy = 32 ->
  triple (absent (md_id metadata)) (create_active metadata protection instance entropy)
    (fun key d => exists i header, header_for metadata key header /\ settled (md_id metadata) i header None d) (fun _ _ => True) (fun _ => True).
Proof.
  intros Hm Hr Hentropy. unfold create_active. case_bool_decide as Hactive; [|by apply triple_of]. cbn [negb].
  eapply triple_bind; [apply triple_of with (Q := fun o d => object_context (md_scope metadata) (md_id metadata) = Ok o /\ absent (md_id metadata) d); auto|]. intros object. apply triple_pure. intros Hobject. cbv zeta.
  set (key := mkObjectDataKey entropy object).
  eapply triple_bind; [apply triple_of with (Q := fun w d => wrap_segment_key (pk_key protection) key instance (pk_route protection) = Ok w /\ absent (md_id metadata) d); [|done]|].
  { intros w d Hw Hd. split; [|done]. destruct (wrap_segment_key _ _ _ _); [|done]. by injection Hw as ->. }
  intros wrapped. apply triple_pure. intros Hwrapped.
  eapply triple_bind; [apply triple_of with (Q := fun c d => segment_frame object PurposeSegmentMetadata 0 = Ok c /\ absent (md_id metadata) d); [|done]|].
  { intros c d Hc Hd. split; [|done]. destruct (segment_frame _ _ _); [|done]. by injection Hc as ->. }
  intros context. apply triple_pure. intros Hcontext.
  eapply triple_bind; [apply triple_of with (Q := fun l d => l = MAX_ENCRYPTED_METADATA_BYTES /\ absent (md_id metadata) d); [by intros l d [= <-]|done]|]. intros l. apply triple_pure. intros ->.
  eapply triple_bind; [eapply triple_conseq; [| | | |apply (triple_seal key context _ _ (absent (md_id metadata)) (fun _ => True))]; eauto|]. intros encrypted. apply triple_pure. intros Hencrypted.
  eapply triple_bind; [apply triple_of with (Q := fun h d => encode_header (pk_route protection) wrapped encrypted = Ok h /\ absent (md_id metadata) d); auto|]. intros header. apply triple_pure. intros Hheader.
  assert (Hfor : header_for metadata key header) by (constructor; try done; by exists wrapped, context, encrypted).
  eapply triple_bind; [unfold create_file; eapply triple_bind; [apply triple_call with (Q := fun r d => exists i, r = Some i /\ created (md_id metadata) i [] [] d); try done|]|].
  { intros d Hd. cbn [directory]. destruct (Hd SegmentFile ActivePlace) as [Hs _]. cbn [directory] in Hs. unfold segment_name. rewrite Hs. exists (fresh d). split; [done|].
    split_and!; cbn; [by rewrite lookup_insert_eq|by rewrite lookup_insert_eq|lia|rewrite lookup_insert_ne by done; apply (Hd FrontierFile ActivePlace)|]. intros kind. apply (Hd kind SealedPlace). }
  { intros r. apply triple_exists. intros i. apply triple_pure. intros ->. apply triple_of with (Q := fun i d => created (md_id metadata) i [] [] d); [by intros a d [= <-]|done]. }
  intros i. eapply triple_bind; [apply triple_map; eapply triple_conseq; [| | | |apply (triple_write_all (fun z => created (md_id metadata) i z []) i header)]; eauto|].
  { intros z x d (Hs & Hi & Hf & Hfr & Hsealed). unfold append_inode. rewrite Hi. split_and!; cbn; try done. by rewrite lookup_insert_eq. }
  intros ?. eapply triple_bind; [apply triple_map; unfold synchronize_file; apply triple_call with (Q := fun _ => created (md_id metadata) i header header); try done|].
  { intros d (Hs & Hi & Hf & Hfr & Hsealed). cbn. rewrite Hi. split_and!; cbn; try done. by rewrite lookup_insert_eq. }
  intros ?. eapply triple_bind; [apply triple_map; unfold synchronize_directory; apply triple_call with (Q := fun _ => settled (md_id metadata) i header None); try done|].
  { intros d (Hs & Hi & Hf & Hfr & Hsealed). by constructor. }
  intros ?. apply triple_ret. intros d Hd. eauto.
Qed.
End segments.
