(* ===== verification/LedgerCrash.v ===== *)
(** Active segment ledger: acknowledged blocks survive.

    A ledger serves any requests while the environment answers its system calls in any way, then the
    machine stops and recovery runs. The state of a ledger agrees with the files of its segment; an
    append keeps the agreement, or leaves files from which recovery returns the old blocks, or, when
    it reports an ambiguous commit, the old blocks with or without the new one.

    Active segment ledger: a key never seals twice with one nonce.

    The nonce of a frame is its sequence. Whatever the environment answers, a ledger seals the
    metadata of its segment with sequence 0, its blocks with 1, 2, ... and its frontiers with the
    sequences below [u64::MAX]; after a failure that follows a seal it seals nothing more. *)

From stdpp Require Import gmap.
From S2P Require Import Prelude Outcome Identity Routing SourceTime RetentionTime LogStore GovernorModel GovernorPools GovernorState GovernorAdmission GovernorResize LedgerFrame LedgerFormat LedgerDisk LedgerStorage LedgerAppend LedgerLogic LedgerDurable LedgerRecovery.

Lemma filter_none {A} (P : A -> Prop) `{!forall x, Decision (P x)} (xs : list A) : Forall (fun x => ~ P x) xs -> filter P xs = [].
Proof. induction 1 as [|x xs Hx Hxs IH]; [done|]. by rewrite filter_cons_False. Qed.

Lemma filter_all {A} (P : A -> Prop) `{!forall x, Decision (P x)} (xs : list A) : Forall P xs -> filter P xs = xs.
Proof. induction 1 as [|x xs Hx Hxs IH]; [done|]. rewrite filter_cons_True by done. by rewrite IH. Qed.

Lemma payload_bytes_app xs ys : payload_bytes (xs ++ ys) = payload_bytes xs + payload_bytes ys.
Proof. unfold payload_bytes. induction xs as [|x xs IH]; cbn [app fold_right]; [lia|]. rewrite IH. lia. Qed.

(** A client's requests, one after the other, and the answers until the machine stops. *)
Fixpoint serve {B : CryptoBackend} (l : ActiveSegmentLedger) (st : LedgerState) (requests : list (PreparedStoreBlock * bool)) (w : World) : World * list (result LedgerFailure CommitReceipt) :=
  match requests with
  | [] => (w, [])
  | (block, cancelled) :: rest =>
      match append_inner l st block cancelled w with
      | (w, Returned (st, receipt)) => let '(w, answers) := serve l st rest w in (w, Ok receipt :: answers)
      | (w, Failed (st, f)) => let '(w, answers) := serve l st rest w in (w, Err f :: answers)
      | (w, Crashed) => (w, [])
      end
  end.

Section serving.
Context {B : CryptoBackend} {HB : CryptoLaws B} (protection : SegmentProtectionKey) (instance : bytes) (metadata : SegmentMetadata) (key : ObjectDataKey) (header : bytes) (i : nat).
Context (Hheader : header_for protection instance metadata key header).

Abbreviation id := (md_id metadata).
Abbreviation base := (md_base metadata).
Abbreviation holds_blocks := (stored key id base header).

(** ** Disks *)

(** Exactly these blocks are committed. *)
Definition durable (bs : list LedgerBlock) (d : Disk) : Prop := exists content f, holds_blocks bs content f /\ settled id i content f d.

(** These blocks are committed, and the segment has bytes after them. *)
Definition trailing (bs : list LedgerBlock) (d : Disk) : Prop := exists content f, holds_blocks bs content f /\ tailed id i content f d.

(** The frontier of one more block has its name, which is not synchronised. *)
Definition undecided (bs : list LedgerBlock) (b : LedgerBlock) (d : Disk) : Prop :=
  exists content f content' k c, holds_blocks bs content f /\ holds_blocks (bs ++ [b]) content' (Some (k, c)) /\ prefix content content' /\ phase id i content' content' (Some (k, c)) f d.

(** An undisturbed recovery of the segment returns its key and these blocks. *)
Definition recovers_to (bs : list LedgerBlock) (d : Disk) : Prop :=
  exists n d', (n <= 17 + 2 * length bs)%nat /\ durable bs d' /\
    completes (recover_segment_with_mode metadata protection instance Repair) n d (key, mkRecoveryState (position_after base (zlen bs)) bs) d'.

Lemma stored_recovers bs content f junk d : holds_blocks bs content f -> settled id i (content ++ junk) f d -> recovers_to bs d.
Proof.
  intros Hs Hd. destruct (segment_recovers protection instance metadata key header i d bs content f junk Hheader Hs Hd) as (n & d' & Hn & Hd' & Hc).
  exists n, d'. split_and!; [done| |done]. by exists content, f.
Qed.

Lemma durable_recovers bs d d' : durable bs d -> crashes d d' -> recovers_to bs d'.
Proof.
  intros (content & f & Hs & Hd) Hc. apply (stored_recovers bs content f []); [done|]. rewrite app_nil_r. by apply (crash_of_settled _ _ _ _ d).
Qed.

Lemma durable_trailing bs d : durable bs d -> trailing bs d.
Proof. intros (content & f & Hs & Hd). exists content, f. split; [done|by apply settled_tailed]. Qed.

Lemma trailing_recovers bs d d' : trailing bs d -> crashes d d' -> recovers_to bs d'.
Proof.
  intros (content & f & Hs & z & y & Hd) Hc. destruct (crash_settles _ _ _ _ _ _ _ _ _ Hd Hc) as (junk & f' & Hf & Hd').
  apply (stored_recovers bs content f junk); [done|]. by destruct Hf; subst f'.
Qed.

Lemma undecided_recovers bs b d d' : undecided bs b d -> crashes d d' -> recovers_to bs d' \/ recovers_to (bs ++ [b]) d'.
Proof.
  intros (content & f & content' & k & c & Hs & Hs' & [z Hz] & Hd) Hc. rewrite <- (app_nil_r content') in Hd. destruct (crash_settles _ _ _ _ _ _ _ _ _ Hd Hc) as (junk & f' & Hf & Hd').
  destruct Hf; subst f'.
  - right. by apply (stored_recovers (bs ++ [b]) content' (Some (k, c)) junk).
  - left. rewrite Hz, <- app_assoc in Hd'. by apply (stored_recovers bs content f (z ++ junk)).
Qed.

(** ** Ledgers *)

Context (l : ActiveSegmentLedger) (Hcurrent : al_current l = Some metadata) (Hkey : al_key l = key) (prior : list LedgerBlock) (Hprior : Forall (fun b => lb_segment b <> id) prior).

(** The state behind the lock: the blocks of earlier segments and those of this one. *)
Record agrees (st : LedgerState) (bs : list LedgerBlock) : Prop := {
  ag_blocks : ls_blocks st = prior ++ bs;
  ag_frontier : ls_frontier st = position_after base (zlen bs);
  ag_bytes : ls_retained_bytes st = payload_bytes (prior ++ bs);
  ag_sequence : ls_next_sequence st = zlen bs;
}.

Definition well_formed_request (block : PreparedStoreBlock) : Prop :=
  well_formed_id (pr_identity block) /\ pr_payload block <> [] /\ durable_retention (for_block (pr_retention block)).

(** The block that an append commits. *)
Definition committed_block (block : PreparedStoreBlock) (bs : list LedgerBlock) (authenticator : bytes) : LedgerBlock :=
  mkLedgerBlock (pr_identity block) (position_after base (zlen bs + 1)) (pr_payload block) (sha256 (pr_payload block)) id authenticator (for_block (pr_retention block)).

Record planned (block : PreparedStoreBlock) (bs : list LedgerBlock) (plan : AppendPlan) : Prop := {
  pn_segment : ap_segment plan = id;
  pn_position : ap_position plan = position_after base (zlen bs + 1);
  pn_position_bound : position_value base + (zlen bs + 1) <= u64_max;
  pn_bytes : ap_retained_bytes plan = payload_bytes (prior ++ bs) + zlen (pr_payload block);
  pn_bytes_bound : payload_bytes (prior ++ bs) + zlen (pr_payload block) <= MAX_RETAINED_BLOCK_BYTES;
  pn_count : zlen (prior ++ bs) + 1 <= MAX_RETAINED_BLOCKS;
  pn_block_retention : ap_block_retention plan = for_block (pr_retention block);
  pn_retention : ap_segment_retention plan = append_block (recovered_retention bs) (for_block (pr_retention block));
  pn_context : key_frame key PurposeStoreBlock (zlen bs + 1) = Ok (ap_context plan);
  pn_limit : ap_limit plan = MAX_ENCODED_FRAME_BYTES;
  pn_plaintext : ap_plaintext plan = block_plaintext (pr_identity block) (for_block (pr_retention block)) (pr_payload block);
  pn_frame : protected_frame_length (zlen (ap_plaintext plan)) MAX_ENCODED_FRAME_BYTES = Ok (ap_frame_bytes plan);
}.

Lemma own_retention bs content f : holds_blocks bs content f -> segment_retention id (prior ++ bs) = recovered_retention bs.
Proof.
  intros Hs. destruct (so_chain _ _ _ _ _ _ _ Hs) as (c & _ & Hc%chain_well_formed). unfold segment_retention, recovered_retention. rewrite filter_app.
  rewrite (filter_none _ prior) by done. rewrite filter_all; [done|]. eapply Forall_impl; [exact Hc|]. by intros b (_ & _ & _ & _ & ? & _).
Qed.

Lemma plan_facts st bs block amounts plan content f : agrees st bs -> holds_blocks bs content f -> plan_append l st block amounts = Ok plan -> planned block bs plan.
Proof.
  intros [Hblocks Hfrontier Hbytes Hsequence] Hs. unfold plan_append. rewrite Hblocks, Hbytes, Hsequence, Hcurrent, Hkey. intros H.
  apply result_bind_Ok in H as (claim & _ & H). apply result_bind_Ok in H as (count & Hcount%ok_or_Ok%checked_add_Some & H). apply result_bind_Ok in H as (bytes & Hb%ok_or_Ok%checked_add_Some & H).
  destruct ((bytes <=? MAX_RETAINED_BLOCK_BYTES) && (count <=? MAX_RETAINED_BLOCKS)) eqn:Hlimits; [|done]. cbn [negb] in H. apply andb_true_iff in Hlimits as [Hl1%Z.leb_le Hl2%Z.leb_le].
  apply result_bind_Ok in H as (position & Hposition%map_err_Ok & H). cbn [corrupt_or ok_or mbind result_bind] in H.
  apply result_bind_Ok in H as (next & Hnext%ok_or_Ok%checked_add_Some & H). apply result_bind_Ok in H as (context & Hcontext & H). apply result_bind_Ok in H as (limit & Hlimit & H).
  apply result_bind_Ok in H as (frame_bytes & Hframe%map_err_Ok & H). injection H as <-. injection Hlimit as <-.
  unfold CommitPosition_next, CommitPosition_advance_by in Hposition. rewrite Hfrontier in Hposition. cbn [position_value position_after] in Hposition.
  destruct (checked_add u64_max _ 1) as [p|] eqn:Hp; [|done]. injection Hposition as <-. apply checked_add_Some in Hp as [-> Hp]. destruct Hcount as [-> _], Hb as [-> _], Hnext as [-> _].
  constructor; cbn; try done; try lia.
  - unfold position_after. f_equal. lia.
  - by rewrite (own_retention bs content f).
Qed.

Lemma extended_stored block bs plan content f x' k c a : well_formed_request block -> holds_blocks bs content f -> planned block bs plan ->
  extended key (ap_context plan) (ap_plaintext plan) (ap_limit plan) (ap_frame_bytes plan) (mkNextFrontier (zlen bs) (ap_position plan) (ap_segment_retention plan)) content x' c a ->
  holds_blocks (bs ++ [committed_block block bs a]) x' (Some (k, c)) /\ prefix content x'.
Proof.
  intros (Hid & Hpayload & Hr) Hs Hplan (frame & Hframe & -> & Hfrontier & Hauth). destruct Hplan. rewrite pn_limit0 in Hframe. pose proof (protected_length_announced _ _ _ _ _ Hframe) as Hannounced.
  rewrite Hannounced in pn_frame0. injection pn_frame0 as Hfb. rewrite <- Hfb in *. cbn [nf_sequence nf_position nf_retention] in *. destruct Hs as [(chained & -> & Hchain) Hcount Hbytes Hb Hpos Hheader' _].
  assert (Hsnoc : zlen (bs ++ [committed_block block bs a]) = zlen bs + 1) by (rewrite zlen_app; done). split; [|by eexists].
  assert (Hlen : zlen ((header ++ chained) ++ be_bytes 4 (zlen frame) ++ frame) = zlen header + zlen (chained ++ be_bytes 4 (zlen frame) ++ frame)) by (rewrite <- app_assoc; apply zlen_app).
  constructor; rewrite ?Hsnoc, ?payload_bytes_snoc; try done; try lia.
  - exists (chained ++ be_bytes 4 (zlen frame) ++ frame). split; [by rewrite <- !app_assoc|]. apply (chain_block _ _ _ _ _ _ _ (ap_context plan)); try done.
    + destruct Hid as [Hid1 Hid2]. split_and!; try done. cbn. by destruct (pr_retention block).
    + cbn [committed_block lb_identity lb_retention lb_payload]. by rewrite <- pn_plaintext0.
    + cbn [committed_block lb_position lb_authenticator]. by rewrite <- Hlen, <- pn_position0.
  - rewrite zlen_app in pn_count0. pose proof (zlen_nonneg prior). lia.
  - cbn [lb_payload committed_block]. rewrite payload_bytes_app in pn_bytes_bound0.
    pose proof (payload_bytes_nonneg prior). lia.
  - split; [by destruct bs|]. unfold recovered_retention. rewrite fold_left_app. cbn [fold_left lb_retention committed_block]. fold (recovered_retention bs). by rewrite <- pn_retention0, <- pn_position0.
Qed.

(** ** Appends *)

(** What an append that stopped may leave. *)
Definition stopped (block : PreparedStoreBlock) (bs : list LedgerBlock) (d : Disk) : Prop := trailing bs d \/ exists a, undecided bs (committed_block block bs a) d.

Definition append_returned (block : PreparedStoreBlock) (bs : list LedgerBlock) (r : LedgerState * CommitReceipt) (d : Disk) : Prop :=
  exists a, agrees r.1 (bs ++ [committed_block block bs a]) /\ ls_poisoned r.1 = false /\ r.2 = receipt_for (committed_block block bs a) /\ durable (bs ++ [committed_block block bs a]) d.

Definition append_failure (block : PreparedStoreBlock) (bs : list LedgerBlock) (e : LedgerState * LedgerFailure) (d : Disk) : Prop :=
  agrees e.1 bs /\
  match ledger_completion e.2 with
  | RejectedBeforeMutation => ls_poisoned e.1 = false /\ durable bs d
  | CompletionRecoveryRequired => ls_poisoned e.1 = true /\ trailing bs d
  | CommitAmbiguous => ls_poisoned e.1 = true /\ exists a, undecided bs (committed_block block bs a) d
  end.

Lemma settle_triple st bs block plan claim : agrees st bs -> ls_poisoned st = false -> well_formed_request block -> planned block bs plan ->
  triple (durable bs)
    (settle_append st block plan claim
       (append_and_commit (al_current l) (al_key l) (mkNextFrontier (ls_next_sequence st) (ap_position plan) (ap_segment_retention plan)) (ap_frame_bytes plan)
          (seal_frame (al_key l) (ap_context plan) (ap_plaintext plan) (ap_limit plan))))
    (append_returned block bs) (append_failure block bs) (stopped block bs).
Proof.
  intros Ha Hp Hblock Hplan w (content & f & Hs & Hd). rewrite Hcurrent, Hkey, (ag_sequence _ _ Ha). unfold settle_append. rewrite (ag_sequence _ _ Ha).
  pose proof (append_and_commit_triple id i key (ap_context plan) (ap_plaintext plan) (ap_limit plan) (ap_frame_bytes plan) (mkNextFrontier (zlen bs) (ap_position plan) (ap_segment_retention plan)) metadata content f eq_refl w Hd) as H.
  destruct (append_and_commit _ _ _ _ _ w) as [w' [authenticator|[g|g]|]].
  - destruct H as (x' & k & c & Hx & Hd'). destruct (extended_stored block bs plan content f x' k c authenticator Hblock Hs Hplan Hx) as [Hs' _].
    destruct Hplan. unfold MAX_RETAINED_BLOCKS in *. rewrite zlen_app in pn_count0. pose proof (zlen_nonneg prior). rewrite checked_add_ok by (unfold u64_max; lia).
    exists authenticator. cbn [fst snd]. rewrite pn_position0, pn_segment0, pn_block_retention0. fold (committed_block block bs authenticator). split_and!; [|done|done|by exists x', (Some (k, c))].
    assert (Hsnoc : zlen (bs ++ [committed_block block bs authenticator]) = zlen bs + 1) by (rewrite zlen_app; done).
    constructor; cbn [ls_blocks ls_frontier ls_retained_bytes ls_next_sequence]; rewrite ?Hsnoc; try done.
    + by rewrite (ag_blocks _ _ Ha), app_assoc.
    + by rewrite app_assoc, payload_bytes_snoc, pn_bytes0.
  - destruct H as [Hg Hd']. assert (Hdur : durable bs (disk w')) by (by exists content, f). unfold admitted, next_response, mbind, Io_bind.
    assert (Hsame : append_failure block bs (st, g) (disk w')) by (split; [done|]; cbn [fst snd]; by rewrite Hg).
    destruct (responses w') as [|[] rs]; cbn; try done; try (by destruct Ha). left. by apply durable_trailing.
  - destruct H as [[Hg (z & y & Hd')]|[Hg (x' & k & c & a & Hx & Hd')]]; (split; [by destruct Ha|]); cbn [snd fst]; rewrite Hg; (split; [done|]).
    + exists content, f. split; [done|]. by exists z, y.
    + exists a. destruct (extended_stored block bs plan content f x' k c a Hblock Hs Hplan Hx) as [Hs' Hpre]. by exists content, f, x', k, c.
  - destruct H as [Hd'|(x' & k & c & a & Hx & Hd')].
    + left. by exists content, f.
    + right. exists a. destruct (extended_stored block bs plan content f x' k c a Hblock Hs Hplan Hx) as [Hs' Hpre]. by exists content, f, x', k, c.
Qed.

(** A request that was committed before: the same receipt and nothing else. *)
Definition repeated (block : PreparedStoreBlock) (st : LedgerState) (r : LedgerState * CommitReceipt) : Prop :=
  exists b, b ∈ ls_blocks st /\ lb_identity b = pr_identity block /\ lb_payload b = pr_payload block /\ r = (st, receipt_for b).

(** A step that leaves the disk and the state as they are. *)
Definition refused (st : LedgerState) (e : LedgerState * LedgerFailure) : Prop := e.1 = st /\ ledger_completion e.2 = RejectedBeforeMutation.

Definition rejecting {A} (r : result LedgerFailure A) : Prop := forall e, r = Err e -> ledger_completion e = RejectedBeforeMutation.

Lemma rejecting_bind {A X} (r : result LedgerFailure A) (k : A -> result LedgerFailure X) : rejecting r -> (forall a, rejecting (k a)) -> rejecting (r ≫= k).
Proof. intros Hr Hk e. destruct r as [a|e']; cbn; [apply Hk|]. intros [= <-]. by apply Hr. Qed.
Lemma rejecting_ok {A} (a : A) : rejecting (Ok a).
Proof. done. Qed.
Lemma rejecting_new {A} code : rejecting (A := A) (Err (LedgerFailure_new code)).
Proof. by intros e [= <-]. Qed.
Lemma rejecting_or {A} code (o : option A) : rejecting (ok_or (LedgerFailure_new code) o).
Proof. destruct o; [apply rejecting_ok|apply rejecting_new]. Qed.
Lemma rejecting_map {E A} (f : E -> LedgerFailure) (r : result E A) : (forall e, ledger_completion (f e) = RejectedBeforeMutation) -> rejecting (map_err f r).
Proof. intros Hf e. destruct r; [done|]. intros [= <-]. apply Hf. Qed.

Ltac rejects := repeat first [apply rejecting_ok | apply rejecting_new | apply rejecting_or | by apply rejecting_map | apply rejecting_bind; [|intros ?] | case_match].

Lemma triple_rejecting {T A} (view : World -> T) (r : result LedgerFailure A) st (P : T -> Prop) (F : LedgerState * LedgerFailure -> T -> Prop) C :
  rejecting r -> (forall e d, refused st e -> P d -> F e d) -> triple_on view P (io_map (pair st) (io_of r)) (fun a d => r = Ok a /\ P d) F C.
Proof. intros Hr HF. apply triple_map, triple_of; [done|]. intros e d He Hd. apply HF; [|done]. split; [done|]. by apply Hr. Qed.

Lemma triple_admitted {T} (view : World -> T) st (P : T -> Prop) (F : LedgerState * LedgerFailure -> T -> Prop) (C : T -> Prop) :
  unaffected view -> (forall e d, refused st e -> P d -> F e d) -> (forall d, P d -> C d) -> triple_on view P (io_map (pair st) admitted) (fun _ => P) F C.
Proof.
  intros Hview HF HC. apply triple_map. unfold admitted. eapply triple_bind; [apply triple_next_on with (Q := fun _ => P); auto|].
  intros []; (by apply triple_ret) || (apply triple_fail; intros d Hd; by apply HF).
Qed.

Lemma guards_reject block : rejecting (append_guards l block).
Proof. unfold append_guards. rejects. Qed.

Lemma plan_rejects st block amounts : rejecting (plan_append l st block amounts).
Proof. unfold plan_append, limit_exceeded_or, corrupt_or, key_frame, frame_limit. rejects. Qed.

Lemma retained_claim_rejects a b : rejecting (retained_claim a b).
Proof. unfold retained_claim, retained_memory. rejects. Qed.

Lemma work_triple {T} (view : World -> T) st block amounts (P : T -> Prop) (F : LedgerState * LedgerFailure -> T -> Prop) (C : T -> Prop) :
  unaffected view -> (forall e d, refused st e -> P d -> F e d) -> (forall d, P d -> C d) -> triple_on view P (io_map (pair st) (ordinary_work l block amounts)) (fun _ => P) F C.
Proof.
  intros Hview HF HC. unfold ordinary_work. apply triple_map. eapply triple_bind; [apply triple_of with (Q := fun _ => P); [done|]|].
  { intros e d He Hd. apply HF; [|done]. split; [done|]. destruct (WorkClaim_tenant _ _ _); [done|]. by injection He as <-. }
  intros claim. assert (Hadmit : triple_on view P admitted (fun _ => P) (fun e => F (st, e)) C).
  { unfold admitted. eapply triple_bind; [apply triple_next_on with (Q := fun _ => P); auto|]. intros []; (by apply triple_ret) || (apply triple_fail; intros d Hd; by apply HF). }
  destruct (pr_capacity block) as [[own c]|]; [|done]. case_bool_decide; [by apply triple_ret|done].
Qed.

(** The steps that every append starts with. *)
Lemma append_prefix_triple {T} (view : World -> T) st block cancelled (P : T -> Prop) Q F (C : T -> Prop) :
  unaffected view -> (forall e d, refused st e -> P d -> F e d) -> (forall d, P d -> C d) -> (forall r d, repeated block st r -> P d -> Q r d) ->
  (ls_poisoned st = false -> forall amounts plan claim, plan_append l st block amounts = Ok plan ->
     triple_on view P (settle_append st block plan claim
       (append_and_commit (al_current l) (al_key l) (mkNextFrontier (ls_next_sequence st) (ap_position plan) (ap_segment_retention plan)) (ap_frame_bytes plan)
          (seal_frame (al_key l) (ap_context plan) (ap_plaintext plan) (ap_limit plan)))) Q F C) ->
  triple_on view P (append_inner l st block cancelled) Q F C.
Proof.
  intros Hview HF HC HQ Hsettle. unfold append_inner. eapply triple_bind; [apply triple_rejecting; [apply guards_reject|done]|]. intros ?. apply triple_pure. intros _.
  destruct (List.find _ (ls_blocks st)) as [b|] eqn:Hfind.
  { apply find_some in Hfind as [Hin Hb]. unfold bytes_eqb in *. apply bool_decide_eq_true in Hb. case_bool_decide as Hpayload; [apply triple_ret|apply triple_fail; intros d Hd; by apply HF].
    intros d Hd. apply HQ; [|done]. exists b. split_and!; try done. by apply list_elem_of_In. }
  destruct cancelled; [apply triple_fail; intros d Hd; by apply HF|].
  eapply triple_bind; [apply triple_rejecting; [|done]|]. { unfold require_healthy. rejects. }
  intros ?. apply triple_pure. intros Hhealthy. assert (Hp : ls_poisoned st = false) by (unfold require_healthy in Hhealthy; by destruct (ls_poisoned st)).
  eapply triple_bind; [apply triple_rejecting; [|done]|]. { unfold append_claim. rejects. }
  intros amounts. apply triple_pure. intros _. eapply triple_bind; [by apply work_triple|]. intros ?. eapply triple_bind; [apply triple_rejecting; [apply plan_rejects|done]|].
  intros plan. apply triple_pure. intros Hplan. unfold commit_append. eapply triple_bind; [apply triple_rejecting; [apply retained_claim_rejects|done]|].
  intros claim. apply triple_pure. intros _. eapply triple_bind; [by apply triple_admitted|]. intros ?. by eapply Hsettle.
Qed.

Lemma append_live_triple st bs block cancelled : agrees st bs -> ls_poisoned st = false -> well_formed_request block ->
  triple (durable bs) (append_inner l st block cancelled)
    (fun r d => (repeated block st r /\ durable bs d) \/ append_returned block bs r d) (append_failure block bs) (stopped block bs).
Proof.
  intros Ha Hp Hblock. assert (HF : forall e d, refused st e -> durable bs d -> append_failure block bs e d) by (intros [st' g] d [Hst Hg] Hd; cbn in *; subst st'; split; [done|]; cbn; by rewrite Hg).
  assert (HC : forall d, durable bs d -> stopped block bs d) by (intros d Hd; left; by apply durable_trailing).
  apply append_prefix_triple; [done|done|done|auto|]. intros _ amounts plan claim Hplan w Hw. pose proof Hw as (content & f & Hs & Hd). pose proof (plan_facts _ _ _ _ _ _ _ Ha Hs Hplan) as Hplanned.
  pose proof (settle_triple st bs block plan claim Ha Hp Hblock Hplanned w Hw) as H. destruct (settle_append _ _ _ _ _ w) as [w' [r|e|]]; auto.
Qed.

(** A poisoned ledger writes nothing. *)
Lemma append_dead_triple st block cancelled P : ls_poisoned st = true ->
  triple P (append_inner l st block cancelled) (fun r d => repeated block st r /\ P d) (fun e d => refused st e /\ P d) P.
Proof. intros Hp. apply append_prefix_triple; [done|auto|auto|auto|]. by rewrite Hp. Qed.

(** ** Sequences of requests *)

(** What recovery may have to choose from: these blocks, and at most one more. *)
Definition survives (bs : list LedgerBlock) (d : Disk) : Prop := trailing bs d \/ exists b, undecided bs b d.

Definition serving (st : LedgerState) (bs : list LedgerBlock) (d : Disk) : Prop :=
  agrees st bs /\ if ls_poisoned st then survives bs d else durable bs d.

(** The answer [r] is the receipt of the block [b] of the request. *)
Definition acknowledges (request : PreparedStoreBlock * bool) (r : CommitReceipt) (b : LedgerBlock) : Prop :=
  lb_identity b = pr_identity request.1 /\ lb_payload b = pr_payload request.1 /\ r = receipt_for b.

Definition answered (requests : list (PreparedStoreBlock * bool)) (answers : list (result LedgerFailure CommitReceipt)) (known new : list LedgerBlock) : Prop :=
  (forall k request r, requests !! k = Some request -> answers !! k = Some (Ok r) -> exists b, b ∈ known ++ new /\ acknowledges request r b) /\
  (forall b, b ∈ new -> exists k request r, requests !! k = Some request /\ answers !! k = Some (Ok r) /\ acknowledges request r b).

Lemma survives_durable bs d : durable bs d -> survives bs d.
Proof. intros Hd. left. by apply durable_trailing. Qed.

Lemma serving_survives st bs d : serving st bs d -> survives bs d.
Proof. intros [_ H]. destruct (ls_poisoned st); [done|by apply survives_durable]. Qed.

Lemma answered_nil requests known : answered requests [] known [].
Proof. split; [by intros k request r _ [=]|]. intros b Hb. by apply elem_of_nil in Hb. Qed.

(** One more answer that adds the blocks [first]. *)
Lemma answered_cons request requests answer answers known first new : (forall r, answer = Ok r -> exists b, b ∈ known ++ first /\ acknowledges request r b) ->
  (forall b, b ∈ first -> exists r, answer = Ok r /\ acknowledges request r b) -> answered requests answers (known ++ first) new -> answered (request :: requests) (answer :: answers) known (first ++ new).
Proof.
  intros Hr Hf [H1 H2]. split.
  - intros [|k] q r Hq Ha; cbn in Hq, Ha.
    + injection Hq as <-. injection Ha as ->. destruct (Hr r eq_refl) as (b & Hb & Hack). exists b. split; [|done]. rewrite app_assoc. apply elem_of_app. by left.
    + rewrite app_assoc. by apply (H1 k).
  - intros b [Hb|Hb]%elem_of_app.
    + destruct (Hf b Hb) as (r & -> & Hack). by exists 0%nat, request, r.
    + destruct (H2 b Hb) as (k & q & r & ? & ? & ?). by exists (Datatypes.S k), q, r.
Qed.

Lemma repeated_acknowledged block cancelled st bs r : agrees st bs -> repeated block st r -> r.1 = st /\ exists b, b ∈ (prior ++ bs) ++ [] /\ acknowledges (block, cancelled) r.2 b.
Proof. intros Ha (b & Hb & Hid & Hp & ->). split; [done|]. exists b. rewrite app_nil_r, <- (ag_blocks _ _ Ha). done. Qed.

(** What one request does to a serving ledger. *)
Lemma append_serving st bs block cancelled w : well_formed_request block -> serving st bs (disk w) ->
  match append_inner l st block cancelled w with
  | (w', Returned (st', r)) => exists first, serving st' (bs ++ first) (disk w') /\ (exists b, b ∈ (prior ++ bs) ++ first /\ acknowledges (block, cancelled) r b) /\ (forall b, b ∈ first -> acknowledges (block, cancelled) r b)
  | (w', Failed (st', f)) => serving st' bs (disk w')
  | (w', Crashed) => survives bs (disk w')
  end.
Proof.
  intros Hblock [Ha Hd]. assert (Hrepeat : forall st' r w', repeated block st (st', r) -> (if ls_poisoned st then survives bs (disk w') else durable bs (disk w')) ->
    exists first, serving st' (bs ++ first) (disk w') /\ (exists b, b ∈ (prior ++ bs) ++ first /\ acknowledges (block, cancelled) r b) /\ (forall b, b ∈ first -> acknowledges (block, cancelled) r b)).
  { intros st' r w' Hr Hd'. destruct (repeated_acknowledged _ cancelled _ _ _ Ha Hr) as [Hst Hack]. cbn [fst snd] in *. subst st'. exists []. rewrite app_nil_r. split; [done|]. split; [done|]. intros b Hb. by apply elem_of_nil in Hb. }
  destruct (ls_poisoned st) eqn:Hp.
  - pose proof (append_dead_triple st block cancelled (survives bs) Hp w Hd) as H. destruct (append_inner l st block cancelled w) as [w' [[st' r]|[st' f]|]]; [destruct H; by apply Hrepeat| |done].
    destruct H as [[Hst _] Hd']. cbn in Hst. subst st'. split; [done|]. by rewrite Hp.
  - pose proof (append_live_triple st bs block cancelled Ha Hp Hblock w Hd) as H. destruct (append_inner l st block cancelled w) as [w' [[st' r]|[st' f]|]].
    + destruct H as [[Hr Hd']|(a & Ha' & Hp' & Hr & Hd')]; [by apply Hrepeat|]. cbn [fst snd] in *. exists [committed_block block bs a].
      assert (Hack : acknowledges (block, cancelled) r (committed_block block bs a)) by done.
      split_and!; [split; [done|by rewrite Hp']|exists (committed_block block bs a); split; [|done]; apply elem_of_app; right; by apply list_elem_of_singleton|]. intros b ->%list_elem_of_singleton. done.
    + destruct H as [Ha' H]. cbn [fst snd] in *. split; [done|]. destruct (ledger_completion f); destruct H as [-> H]; [done|by left|]. right. destruct H as [a H]. eauto.
    + destruct H as [H|[a H]]; [by left|]. right. eauto.
Qed.

Lemma serve_survives requests : forall st bs w, Forall (fun request => well_formed_request request.1) requests -> serving st bs (disk w) ->
  exists new, survives (bs ++ new) (disk (serve l st requests w).1) /\ answered requests (serve l st requests w).2 (prior ++ bs) new.
Proof.
  induction requests as [|[block cancelled] requests IH]; intros st bs w Hall Hs.
  { exists []. cbn. rewrite app_nil_r. split; [by apply (serving_survives st)|apply answered_nil]. }
  apply Forall_cons in Hall as [Hblock Hall]. pose proof (append_serving st bs block cancelled w Hblock Hs) as H. cbn [serve].
  destruct (append_inner l st block cancelled w) as [w' [[st' r]|[st' f]|]].
  - destruct H as (first & Hs' & Hr & Hf). destruct (IH st' (bs ++ first) w' Hall Hs') as (new & Hnew & Hans). destruct (serve l st' requests w') as [w'' answers]. exists (first ++ new). rewrite app_assoc. split; [done|].
    apply answered_cons; [by intros r' [= <-]|intros b Hb; exists r; auto|]. by rewrite <- app_assoc.
  - destruct (IH st' bs w' Hall H) as (new & Hnew & Hans). destruct (serve l st' requests w') as [w'' answers]. exists new. split; [done|]. apply (answered_cons _ _ _ _ _ []); [done| |by rewrite app_nil_r]. intros b Hb. by apply elem_of_nil in Hb.
  - exists []. rewrite app_nil_r. split; [done|apply answered_nil].
Qed.
End serving.

Section nonces.
Context {B : CryptoBackend}.

Abbreviation Seals := (list (bytes * bytes)).

(** ** Programs that seal nothing *)

Lemma silent_open p name : silent (open_regular p name).
Proof. unfold open_regular. auto with silence. Qed.
Lemma silent_unlink p name : silent (unlink p name).
Proof. unfold unlink. auto with silence. Qed.
Lemma silent_rename p name p' name' : silent (rename p name p' name').
Proof. unfold rename. apply silent_bind; [auto with silence|]. intros []; auto with silence. Qed.
Lemma silent_create p name : silent (create_file p name).
Proof. unfold create_file. apply silent_bind; auto with silence. Qed.
Lemma silent_sync i : silent (synchronize_file i).
Proof. unfold synchronize_file. auto with silence. Qed.
Lemma silent_sync_directory p : silent (synchronize_directory p).
Proof. unfold synchronize_directory. auto with silence. Qed.
Lemma silent_length i : silent (file_length i).
Proof. unfold file_length, file_content. apply silent_bind; auto with silence. Qed.
Lemma silent_write i b : silent (file_write i b).
Proof. unfold file_write. apply silent_bind; [auto with silence|]. intros []; auto with silence. Qed.
Lemma silent_write_all i b : silent (write_all i b).
Proof.
  unfold write_all. apply silent_looped. intros x. case_bool_decide; [auto with silence|]. apply silent_bind; [apply silent_write|]. intros [[|n]| |f]; auto with silence.
Qed.
Lemma silent_admitted : silent admitted.
Proof. unfold admitted. apply silent_bind; [auto with silence|]. intros []; auto with silence. Qed.
Lemma silent_replace p id c : silent (replace_frontier p id c).
Proof.
  unfold replace_frontier. apply silent_bind; [apply silent_unlink|]. intros _. apply silent_bind; [apply silent_create|]. intros k. apply silent_bind; [apply silent_map, silent_write_all|]. intros _.
  apply silent_bind; [apply silent_map, silent_sync|]. intros _. apply silent_bind; [apply silent_map, silent_rename|]. intros _. apply silent_map, silent_sync_directory.
Qed.

Lemma triple_equal_silent {E A} (m : Io E A) (s : Seals) : silent m -> triple_on seals (eq s) m (fun _ => eq s) (fun _ => eq s) (eq s).
Proof. apply triple_silent. Qed.

(** ** An append *)

Definition nonce_of (key : ObjectDataKey) (sequence : Z) : bytes * bytes := (odk_key key, nonce_for sequence).

Lemma seal_frame_seals key context p max (s : Seals) (C : Seals -> Prop) :
  triple_on seals (eq s) (seal_frame key context p max) (fun _ => eq (s ++ [nonce_of key (fc_sequence context)])) (fun _ => eq (s ++ [nonce_of key (fc_sequence context)])) C.
Proof. intros w ->. unfold seal_frame. cbn. by destruct (protect_frame key context p max). Qed.

(** The first byte is written before a frame is sealed. *)
Lemma write_segment_seals i b m (s : Seals) : (b <> [] \/ m = BytesWritten) ->
  triple_on seals (eq s) (write_segment_bytes i b m) (fun m' s' => m' = BytesWritten /\ s = s') (fun e s' => (m = BytesWritten -> exists f, e = SegmentMutated f) /\ s = s') (eq s).
Proof.
  intros Hb. unfold write_segment_bytes.
  eapply triple_pre; [|apply triple_loop with (Inv := fun '(remaining, m') s' => (m' = NotStarted -> remaining <> [] /\ m = NotStarted) /\ s = s')].
  - intros s' <-. split; [|done]. intros ->. split; [|done]. by destruct Hb.
  - by intros [remaining m'] s' [_ ?].
  - intros [remaining m']. apply triple_pure. intros Hm.
    assert (Hmut : forall f, m = BytesWritten -> exists g, mutation_failure m' f = SegmentMutated g) by (intros f ->; destruct m'; [by destruct (Hm eq_refl)|]; eexists; reflexivity).
    case_bool_decide as Hr.
    { apply triple_ret. intros s' <-. split; [|done]. destruct m'; [|done]. by destruct (Hm eq_refl). }
    eapply triple_bind; [apply triple_map; eapply triple_conseq; [| | | |apply (triple_equal_silent _ s), silent_write]|]; [done|intros r s' H; exact H|intros e s' <-; auto|done|].
    intros [[|n]| |f]; [apply triple_fail|apply triple_ret|apply triple_ret|apply triple_fail]; intros s' <-; auto. split; [|done]. discriminate.
Qed.

Lemma publish_seals p id key durable_bytes next position retention (s : Seals) :
  triple_on seals (eq s) (publish_frontier p id key durable_bytes next position retention)
    (fun _ => eq (s ++ [nonce_of key (u64_max - next)])) (fun _ s' => s' = s \/ s' = s ++ [nonce_of key (u64_max - next)]) (fun s' => s' = s \/ s' = s ++ [nonce_of key (u64_max - next)]).
Proof.
  unfold publish_frontier, protect_frontier. set (t := s ++ [nonce_of key (u64_max - next)]).
  eapply triple_bind; [eapply triple_bind; [apply triple_of with (Q := fun n s' => n = u64_max - next /\ s = s')|]|].
  { intros n s' Hn <-. split; [|done]. apply ok_or_Ok, checked_sub_Some in Hn. tauto. }
  { auto. }
  { intros n. apply triple_pure. intros ->.
    eapply triple_bind; [apply triple_of with (Q := fun c s' => fc_sequence c = u64_max - next /\ s = s'); [|auto]|].
    { intros c s' Hc <-. split; [|done]. by apply key_frame_sequence in Hc. }
    intros context. apply triple_pure. intros Hcontext. eapply triple_bind; [apply triple_of with (Q := fun _ => eq s); auto|]. intros limit.
    eapply triple_bind; [eapply triple_conseq; [| | | |apply (seal_frame_seals key context _ _ s (fun s' => s' = s))]; [done|intros f s' H; exact H| |by left]|].
    { intros e s' <-. right. by rewrite Hcontext. }
    intros frame. rewrite Hcontext. fold t. eapply triple_bind; [apply triple_of with (Q := fun _ => eq t); auto|]. intros ?.
    eapply triple_bind; [apply triple_of with (Q := fun _ => eq t); auto|]. intros authenticator. apply triple_ret with (Q := fun _ => eq t). auto. }
  intros [c authenticator]. eapply triple_bind; [eapply triple_conseq; [| | | |apply (triple_equal_silent _ t), silent_replace]; auto; intros x s' H; exact H|]. intros ?. apply triple_ret. auto.
Qed.

Context (key : ObjectDataKey) (context : FrameContext) (plaintext : bytes) (limit frame_bytes : Z) (next : NextFrontier).

(** The nonces of an append, the first of them if it stopped in between. *)
Abbreviation own_nonces := [nonce_of key (fc_sequence context); nonce_of key (u64_max - (nf_sequence next + 1))].
Definition begun (s s' : Seals) : Prop := exists u, s' = s ++ u /\ prefix u own_nonces.

Lemma begun_start s : begun s s.
Proof. exists []. split; [by rewrite app_nil_r|apply prefix_nil]. Qed.
Lemma begun_block s : begun s (s ++ [nonce_of key (fc_sequence context)]).
Proof. eexists. split; [done|]. by exists [nonce_of key (u64_max - (nf_sequence next + 1))]. Qed.
Lemma begun_all s : begun s (s ++ own_nonces).
Proof. by exists own_nonces. Qed.

Lemma append_and_commit_seals current (s : Seals) :
  triple_on seals (eq s) (append_and_commit current key next frame_bytes (seal_frame key context plaintext limit))
    (fun _ => eq (s ++ own_nonces)) (fun e s' => match e with AppendRejected _ => s = s' | SegmentMutated _ => begun s s' end) (begun s).
Proof.
  assert (Hstart : forall s', s = s' -> begun s s') by (intros ? <-; apply begun_start). assert (Hmut : forall f, exists g, mutation_failure BytesWritten f = SegmentMutated g) by (intros f; eexists; reflexivity).
  assert (Hfail : forall f s', begun s s' -> match mutation_failure BytesWritten f with AppendRejected _ => s = s' | SegmentMutated _ => begun s s' end) by (intros f s'; by destruct (Hmut f) as [g ->]).
  unfold append_and_commit. eapply triple_bind; [apply triple_map, triple_of with (Q := fun _ => eq s); auto|]. intros m.
  eapply triple_bind; [apply triple_map; eapply triple_conseq; [| | | |apply (triple_equal_silent _ s), silent_open]; auto; intros i s' H; exact H|]. intros i.
  set (t := s ++ [nonce_of key (fc_sequence context)]). assert (Hblock : forall s', t = s' -> begun s s') by (intros ? <-; apply begun_block).
  eapply triple_bind with (Q := fun m s' => m = BytesWritten /\ t = s').
  { unfold write_frame. eapply triple_bind; [eapply triple_conseq; [| | | |apply (write_segment_seals i (be_bytes 4 frame_bytes) NotStarted s); by left]; auto|].
    { intros m' s' H. exact H. } { intros [f|f] s' [_ <-]; auto. }
    intros m'. apply triple_pure. intros ->.
    eapply triple_bind; [apply triple_map; eapply triple_conseq; [| | | |apply (seal_frame_seals key context plaintext limit s (begun s))]; auto; intros f s' H; exact H|]. intros frame. fold t.
    eapply triple_bind; [eapply triple_conseq; [| | | |apply (write_segment_seals i frame BytesWritten t); by right]; auto|].
    { intros m' s' H. exact H. } { intros e s' [He <-]. destruct (He eq_refl) as [f ->]. auto. }
    intros m'. apply triple_pure. intros _.
    eapply triple_bind; [apply triple_map; eapply triple_conseq; [| | | |apply (triple_equal_silent _ t), silent_admitted]; auto; intros u s' H; exact H|]. intros ?.
    eapply triple_bind; [apply triple_map; eapply triple_conseq; [| | | |apply (triple_equal_silent _ t), silent_sync]; auto; intros u s' H; exact H|]. intros ?. apply triple_ret. auto. }
  intros m'. apply triple_pure. intros ->.
  eapply triple_bind; [apply triple_map; eapply triple_conseq; [| | | |apply (triple_equal_silent _ t), silent_length]; auto; intros u s' H; exact H|]. intros n.
  eapply triple_bind; [apply triple_map, triple_of with (Q := fun n s' => n = nf_sequence next + 1 /\ t = s'); [|intros e s' _ Hs'; apply Hfail; auto]|].
  { intros k s' Hk <-. split; [|done]. apply ok_or_Ok, checked_add_Some in Hk. tauto. }
  intros k. apply triple_pure. intros ->. assert (Ht : t ++ [nonce_of key (u64_max - (nf_sequence next + 1))] = s ++ own_nonces) by (unfold t; by rewrite <- app_assoc).
  apply triple_map. eapply triple_conseq; [| | | |apply (publish_seals ActivePlace (md_id m) key n (nf_sequence next + 1) _ _ t)]; [done| | |]; rewrite Ht.
  - auto.
  - intros e s' [->| ->]; apply Hfail; [by apply Hblock|apply begun_all].
  - intros s' [->| ->]; [by apply Hblock|apply begun_all].
Qed.
End nonces.

(** ** The sequences of a segment *)

(** The metadata, then a block and its frontier for each append. *)
Definition sequences (n : nat) : list Z := 0 :: flat_map (fun k => [Z.of_nat k; u64_max - Z.of_nat k]) (seq 1 n).

Lemma sequences_next n : sequences (Datatypes.S n) = sequences n ++ [Z.of_nat n + 1; u64_max - (Z.of_nat n + 1)].
Proof. unfold sequences. rewrite seq_S, flat_map_app. cbn [flat_map app]. replace (Z.of_nat (1 + n)) with (Z.of_nat n + 1) by lia. done. Qed.

Lemma sequences_range n x : x ∈ sequences n -> 0 <= x <= Z.of_nat n \/ u64_max - Z.of_nat n <= x < u64_max.
Proof.
  induction n as [|n IH]; [intros ->%list_elem_of_singleton; lia|]. rewrite sequences_next. intros [H%IH|H]%elem_of_app; [lia|].
  apply elem_of_cons in H as [->|H]; [lia|]. apply list_elem_of_singleton in H. lia.
Qed.

Lemma sequences_distinct n : Z.of_nat n <= MAX_RETAINED_BLOCKS -> NoDup (sequences n).
Proof.
  unfold MAX_RETAINED_BLOCKS. induction n as [|n IH]; intros Hn; [apply NoDup_singleton|]. rewrite sequences_next. apply NoDup_app. split_and!; [apply IH; lia| |].
  - intros x Hx%sequences_range [->|H]%elem_of_cons; [unfold u64_max in *; lia|]. apply list_elem_of_singleton in H. unfold u64_max in *. lia.
  - apply NoDup_cons. split; [|apply NoDup_singleton]. intros H%list_elem_of_singleton. unfold u64_max in H. lia.
Qed.

Lemma nonce_for_injective a b : 0 <= a <= u64_max -> 0 <= b <= u64_max -> nonce_for a = nonce_for b -> a = b.
Proof.
  intros Ha Hb H%app_inv_head. apply (f_equal be_value) in H. rewrite !be_value_be_bytes in H by (change (256 ^ Z.of_nat 8) with 18446744073709551616; unfold u64_max in *; lia). done.
Qed.

Definition used (key : ObjectDataKey) (n : nat) : list (bytes * bytes) := map (nonce_of key) (sequences n).

Lemma used_distinct key n : Z.of_nat n <= MAX_RETAINED_BLOCKS -> NoDup (used key n).
Proof.
  intros Hn. unfold used. apply NoDup_fmap_2_strong; [|by apply sequences_distinct]. unfold MAX_RETAINED_BLOCKS in Hn.
  intros x y Hx%sequences_range Hy%sequences_range H. apply (f_equal snd) in H. apply nonce_for_injective in H; unfold u64_max in *; lia.
Qed.

Lemma used_next key n : used key (Datatypes.S n) = used key n ++ [nonce_of key (Z.of_nat n + 1); nonce_of key (u64_max - (Z.of_nat n + 1))].
Proof. unfold used. by rewrite sequences_next, map_app. Qed.

(** ** A serving ledger *)

Section serving_nonces.
Context {B : CryptoBackend} (l : ActiveSegmentLedger) (s0 : list (bytes * bytes)).

Definition sealed_prefix (s : list (bytes * bytes)) : Prop := exists m u, Z.of_nat m <= MAX_RETAINED_BLOCKS /\ s = s0 ++ u /\ prefix u (used (al_key l) m).

Definition sealing (st : LedgerState) (s : list (bytes * bytes)) : Prop :=
  exists n, ls_next_sequence st = Z.of_nat n /\ Z.of_nat n <= zlen (ls_blocks st) /\ Z.of_nat n <= MAX_RETAINED_BLOCKS /\
    if ls_poisoned st then sealed_prefix s else s = s0 ++ used (al_key l) n.

Lemma sealing_prefix st s : sealing st s -> sealed_prefix s.
Proof. intros (n & _ & _ & Hn & H). destruct (ls_poisoned st); [done|]. exists n, (used (al_key l) n). done. Qed.

Lemma planned_bounds st block amounts plan : plan_append l st block amounts = Ok plan ->
  zlen (ls_blocks st) + 1 <= MAX_RETAINED_BLOCKS /\ fc_sequence (ap_context plan) = ls_next_sequence st + 1.
Proof.
  unfold plan_append. intros H. apply result_bind_Ok in H as (claim & _ & H). apply result_bind_Ok in H as (count & Hcount%ok_or_Ok%checked_add_Some & H). apply result_bind_Ok in H as (bytes & _ & H).
  destruct ((bytes <=? MAX_RETAINED_BLOCK_BYTES) && (count <=? MAX_RETAINED_BLOCKS)) eqn:Hl; [|done]. apply andb_true_iff in Hl as [_ Hl%Z.leb_le]. cbn [negb] in H. apply result_bind_Ok in H as (position & _ & H).
  apply result_bind_Ok in H as (m & _ & H). apply result_bind_Ok in H as (next & Hnext%ok_or_Ok%checked_add_Some & H). apply result_bind_Ok in H as (context & Hc%key_frame_sequence & H).
  apply result_bind_Ok in H as (limit & _ & H). apply result_bind_Ok in H as (frame & _ & H). injection H as <-. cbn [ap_context]. destruct Hcount as [-> _], Hnext as [-> _]. done.
Qed.

Lemma begun_prefix context next n s s' : fc_sequence context = Z.of_nat n + 1 -> nf_sequence next = Z.of_nat n -> Z.of_nat n + 1 <= MAX_RETAINED_BLOCKS -> s = s0 ++ used (al_key l) n ->
  begun (al_key l) context next s s' -> sealed_prefix s'.
Proof.
  intros Hc Hf Hn -> (u & -> & Hu). exists (Datatypes.S n), (used (al_key l) n ++ u). split_and!; [lia|by rewrite app_assoc|]. rewrite used_next. apply prefix_app. by rewrite Hc, Hf in Hu.
Qed.

Lemma append_seals st block cancelled :
  triple_on seals (sealing st) (append_inner l st block cancelled) (fun r => sealing r.1) (fun e => sealing e.1) sealed_prefix.
Proof.
  apply append_prefix_triple; [done| |apply sealing_prefix| |].
  - by intros [st' f] s [Hst _] Hs; cbn in *; subst st'.
  - by intros r s (b & _ & _ & _ & ->) Hs.
  - intros Hp amounts plan claim Hplan w (n & Hn & Hcount & Hmax & Hs). rewrite Hp in Hs. apply planned_bounds in Hplan as [Hblocks Hsequence]. rewrite Hn in Hsequence.
    assert (Hn1 : Z.of_nat n + 1 <= MAX_RETAINED_BLOCKS) by lia.
    unfold settle_append. rewrite Hn. set (next := mkNextFrontier (Z.of_nat n) (ap_position plan) (ap_segment_retention plan)).
    pose proof (append_and_commit_seals (al_key l) (ap_context plan) (ap_plaintext plan) (ap_limit plan) (ap_frame_bytes plan) next (al_current l) (s0 ++ used (al_key l) n) w (eq_sym Hs)) as H.
    pose proof (begun_prefix (ap_context plan) next n _ (seals (append_and_commit (al_current l) (al_key l) next (ap_frame_bytes plan) (seal_frame (al_key l) (ap_context plan) (ap_plaintext plan) (ap_limit plan)) w).1) Hsequence eq_refl Hn1 eq_refl) as Hbegun.
    destruct (append_and_commit _ _ _ _ _ w) as [w' [authenticator|[g|g]|]]; cbn [fst] in Hbegun.
    + rewrite checked_add_ok by (unfold MAX_RETAINED_BLOCKS, u64_max in *; lia). exists (Datatypes.S n). cbn [fst ls_next_sequence ls_blocks ls_poisoned]. rewrite Hp, zlen_app. change (zlen [_]) with 1. split_and!; [lia|lia|lia|].
      rewrite used_next, <- H, <- app_assoc. cbn [nf_sequence next]. by rewrite Hsequence.
    + pose proof (silent_admitted w') as Hsilent. unfold sealing. destruct (admitted w') as [w'' [?|?|]]; cbn [fst] in Hsilent; rewrite Hsilent, <- H.
      * exists n. cbn [fst]. by rewrite Hp.
      * exists n. cbn [fst with_capacity ls_next_sequence ls_blocks ls_poisoned]. by rewrite Hp.
      * exists n, (used (al_key l) n). done.
    + exists n. cbn [fst poison with_capacity ls_next_sequence ls_blocks ls_poisoned]. split_and!; [done|done|done|by apply Hbegun].
    + by apply Hbegun.
Qed.

Lemma serve_seals requests : forall st w, sealing st (seals w) -> sealed_prefix (seals (serve l st requests w).1).
Proof.
  induction requests as [|[block cancelled] requests IH]; intros st w Hs; [by apply (sealing_prefix st)|]. pose proof (append_seals st block cancelled w Hs) as H. cbn [serve].
  destruct (append_inner l st block cancelled w) as [w' [[st' r]|[st' f]|]]; [| |done].
  - specialize (IH st' w' H). by destruct (serve l st' requests w').
  - specialize (IH st' w' H). by destruct (serve l st' requests w').
Qed.
End serving_nonces.
