(* ===== verification/LedgerSafety.v ===== *)
(** Active segment ledger: crash safety.

    The theorems about whole lives of a segment: it is created, serves any requests under any
    answers of the environment, the machine stops at any point, and recovery runs. *)

From Stdlib Require Import Sorted.
From stdpp Require Import gmap.
From S2P Require Import Prelude Outcome Identity Routing SourceTime RetentionTime LogStore GovernorModel GovernorPools GovernorState GovernorAdmission GovernorResize LedgerFrame LedgerFormat LedgerDisk LedgerStorage LedgerAppend LedgerLogic LedgerDurable LedgerRecovery LedgerCrash.

(** ** Reconstruction *)

Section reconstruction.
Context {B : CryptoBackend}.

(** Blocks at consecutive positions after [base], of one segment. *)
Definition consecutive (base : Z) (segment : bytes) (bs : list LedgerBlock) : Prop :=
  forall k b, bs !! k = Some b -> position_value (lb_position b) = base + Z.of_nat k + 1 /\ lb_segment b = segment.

Lemma consecutive_snoc base segment bs b : consecutive base segment bs -> position_value (lb_position b) = base + zlen bs + 1 -> lb_segment b = segment -> consecutive base segment (bs ++ [b]).
Proof.
  intros H Hb Hs k x Hx. destruct (decide (k < length bs)%nat); [rewrite lookup_app_l in Hx by done; by apply H|]. rewrite lookup_app_r in Hx by lia.
  destruct (k - length bs)%nat eqn:Hk; [|done]. injection Hx as <-. unfold zlen in Hb. split; [lia|done].
Qed.

Lemma decoded_block version base segment key header_bytes encoded_bytes consumed total sequence frame_bytes plaintext b c t :
  decode_block version base segment key header_bytes encoded_bytes consumed total sequence frame_bytes plaintext = Ok (b, c, t) ->
  position_value (lb_position b) = position_value base + sequence + 1 /\ lb_segment b = segment /\ t = total + zlen (lb_payload b).
Proof.
  unfold decode_block. intros H. apply result_bind_Ok in H as (identity & _ & H). apply result_bind_Ok in H as (identity' & _ & H). apply result_bind_Ok in H as (retention & _ & H). apply result_bind_Ok in H as (payload & _ & H).
  case_bool_decide; [done|]. apply result_bind_Ok in H as (bytes & Hbytes%ok_or_Ok%checked_add_Some & H). destruct (_ <? _); [done|]. apply result_bind_Ok in H as (next & Hnext%ok_or_Ok%checked_add_Some & H).
  apply result_bind_Ok in H as (position & Hposition%map_err_Ok & H). apply result_bind_Ok in H as (consumed' & _ & H). destruct (_ <? _); [done|]. apply result_bind_Ok in H as (durable_bytes & _ & H). apply result_bind_Ok in H as (authenticator & _ & H).
  unfold CommitPosition_advance_by in Hposition. destruct (checked_add u64_max _ next) as [p|] eqn:Hp; [|done]. injection Hposition as <-. apply checked_add_Some in Hp as [-> _].
  injection H as <- _ <-. cbn [lb_position lb_segment lb_payload position_value]. destruct Hnext as [-> _], Hbytes as [-> _]. split_and!; [lia|done|done].
Qed.

Lemma read_blocks_returns file encoded_bytes base segment header_bytes key version retention :
  returns (read_blocks file encoded_bytes base segment header_bytes key version retention) (consecutive (position_value base) segment).
Proof.
  unfold read_blocks. eapply outcome_bind with (Q := consecutive (position_value base) segment).
  - apply outcome_looped with (Inv := fun '(blocks, _, _) => consecutive (position_value base) segment blocks); [by intros k b|]. intros [[blocks consumed] total] Hinv.
    destruct (_ <? _); [|by apply outcome_ret]. eapply outcome_bind with (Q := fun '(blocks, _, _) => consecutive (position_value base) segment blocks); [|intros [[blocks' c] t] H; by apply outcome_ret].
    unfold read_block. destruct (_ <=? _); [by apply outcome_of|]. cbv zeta. eapply outcome_bind; [apply outcome_any|]. intros length _. destruct (_ <? _); [by apply outcome_of|]. eapply outcome_bind; [apply outcome_any|]. intros frame _.
    do 4 (eapply outcome_bind; [apply outcome_any|]; intros ? _). eapply outcome_bind; [apply outcome_of; intros x Hx; exact Hx|]. intros [[b c] t] Hb%decoded_block. apply outcome_ret. destruct Hb as (Hp & Hs & _). by apply consecutive_snoc.
  - intros blocks H. cbv zeta. destruct (_ && _); [by apply outcome_of|]. by apply outcome_ret.
Qed.

Lemma recover_returns segment_place frontier_place metadata key header_bytes mode allow :
  returns (recover_with_mode segment_place frontier_place metadata key header_bytes mode allow)
    (fun state => consecutive (position_value (md_base metadata)) (md_id metadata) (rs_blocks state) /\ position_value (rs_frontier state) = position_value (md_base metadata) + zlen (rs_blocks state)).
Proof.
  unfold recover_with_mode. eapply outcome_bind; [apply outcome_any|]. intros file _. eapply outcome_bind; [apply outcome_any|]. intros frontier _. eapply outcome_bind; [apply outcome_any|]. intros length _. cbv zeta. destruct frontier as [f|].
  - destruct (_ || _); [by apply outcome_of|]. eapply outcome_bind; [apply outcome_any|]. intros _ _. eapply outcome_bind; [apply read_blocks_returns|]. intros blocks Hblocks. destruct (Z.eqb_spec (zlen blocks) (pb_next_sequence f)) as [Hn|]; [|by apply outcome_of]. cbn [negb].
    eapply outcome_bind; [apply outcome_of; intros x Hx; exact Hx|]. intros expected He%ok_or_Ok%checked_add_Some. destruct (Z.eqb_spec (position_value (pb_position f)) expected) as [Hp|]; [|by apply outcome_of]. cbn [negb]. apply outcome_ret.
    cbn [rs_blocks rs_frontier]. split; [done|]. rewrite Hp, Hn. tauto.
  - destruct (_ <? _); [by apply outcome_of|]. eapply outcome_bind; [apply outcome_any|]. intros _ _. apply outcome_ret. cbn. split; [by intros k b|]. change (zlen (@nil LedgerBlock)) with 0. lia.
Qed.

Lemma recover_segment_returns metadata protection instance mode : md_state metadata <> SegmentRetired ->
  returns (recover_segment_with_mode metadata protection instance mode)
    (fun '(_, state) => consecutive (position_value (md_base metadata)) (md_id metadata) (rs_blocks state) /\ position_value (rs_frontier state) = position_value (md_base metadata) + zlen (rs_blocks state)).
Proof.
  intros Hstate. unfold recover_segment_with_mode. do 4 (eapply outcome_bind; [apply outcome_any|]; intros ? _). eapply outcome_bind; [apply outcome_any|]. intros [place tail] _. do 4 (eapply outcome_bind; [apply outcome_any|]; intros ? _).
  eapply outcome_bind; [apply outcome_any|]. intros [[key physical] header_bytes] _. cbv zeta. rewrite (bool_decide_false (md_state metadata = SegmentRetired)) by done.
  eapply outcome_bind; [apply recover_returns|]. intros state Hs. eapply outcome_bind; [apply outcome_any|]. intros ? _. by apply outcome_ret.
Qed.

(** ** The books of a reconstruction *)

Definition positions (bs : list LedgerBlock) : list Z := map (fun b => position_value (lb_position b)) bs.

(** The blocks that were kept, their bytes and the frontier they reach. *)
Record books (segments : list SegmentMetadata) (blocks : list LedgerBlock) (bytes frontier : Z) : Prop := {
  bk_bytes : bytes = payload_bytes blocks;
  bk_bytes_bound : bytes <= MAX_RETAINED_BLOCK_BYTES;
  bk_count : zlen blocks <= MAX_RETAINED_BLOCKS;
  bk_increasing : StronglySorted Z.lt (positions blocks);
  bk_frontier : Forall (fun p => p <= frontier) (positions blocks);
  bk_segments : Forall (fun b => exists m, m ∈ segments /\ md_state m <> SegmentRetired /\ lb_segment b = md_id m) blocks;
}.

Lemma books_empty segments frontier : books segments [] 0 frontier.
Proof. by constructor; try constructor. Qed.

Lemma books_advance segments blocks bytes frontier frontier' : books segments blocks bytes frontier -> frontier <= frontier' -> books segments blocks bytes frontier'.
Proof. intros [] H. constructor; try done. eapply Forall_impl; [exact bk_frontier0|]. cbn. intros p. lia. Qed.

Lemma consecutive_positions base segment bs : consecutive base segment bs -> StronglySorted Z.lt (positions bs) /\ Forall (fun p => base < p <= base + zlen bs) (positions bs).
Proof.
  revert base. induction bs as [|b bs IH]; intros base H; [by split; constructor|]. destruct (H 0%nat b eq_refl) as [Hb _]. destruct (IH (base + 1)) as [Hs Hf].
  { intros k x Hx. destruct (H (Datatypes.S k) x Hx). split; [lia|done]. }
  rewrite zlen_cons. pose proof (zlen_nonneg bs). unfold positions. cbn [map]. split; constructor; try done.
  - eapply Forall_impl; [exact Hf|]. cbn. intros p. lia.
  - lia.
  - eapply Forall_impl; [exact Hf|]. cbn. intros p. lia.
Qed.

Lemma sorted_app (xs ys : list Z) bound : StronglySorted Z.lt xs -> StronglySorted Z.lt ys -> Forall (fun p => p <= bound) xs -> Forall (fun p => bound < p) ys -> StronglySorted Z.lt (xs ++ ys).
Proof.
  intros Hx Hy Hb Hys. induction Hx as [|x xs Hx IH Hall]; [done|]. apply Forall_cons in Hb as [Hxb Hb]. cbn. constructor; [by apply IH|]. apply Forall_app. split; [done|]. eapply Forall_impl; [exact Hys|]. cbn. intros p. lia.
Qed.

Lemma total_payload bs n t : fold_left (fun total b => t ← total; checked_add usize_max t (zlen (lb_payload b))) bs (Some n) = Some t -> t = n + payload_bytes bs.
Proof.
  revert n. induction bs as [|b bs IH]; intros n H; [injection H as <-; cbn; lia|]. cbn [fold_left mbind option_bind] in H. destruct (checked_add usize_max n (zlen (lb_payload b))) as [m|] eqn:Hm.
  - apply checked_add_Some in Hm as [-> _]. apply IH in H. unfold payload_bytes in *. cbn [fold_right]. lia.
  - exfalso. clear - H. induction bs as [|b' bs IH]; [done|]. by apply IH.
Qed.

(** Keeping a recovered segment that starts at the frontier. *)
Lemma retain_books segments blocks bytes frontier m state kept : books segments blocks bytes frontier -> m ∈ segments -> md_state m <> SegmentRetired ->
  consecutive frontier (md_id m) (rs_blocks state) -> position_value (rs_frontier state) = frontier + zlen (rs_blocks state) -> retain_recovered state blocks bytes = Ok kept ->
  books segments kept.1.1 kept.1.2 (position_value kept.2) /\ position_value kept.2 = frontier + zlen (rs_blocks state).
Proof.
  intros Hb Hm Hstate Hc Hf H. unfold retain_recovered in H. apply result_bind_Ok in H as (count & Hcount%ok_or_Ok%checked_add_Some & H). apply result_bind_Ok in H as (total & Htotal%ok_or_Ok%total_payload & H).
  apply result_bind_Ok in H as (retained & Hretained%ok_or_Ok%checked_add_Some & H). destruct ((retained <=? MAX_RETAINED_BLOCK_BYTES) && (count <=? MAX_RETAINED_BLOCKS)) eqn:Hl; [|done]. cbn [negb] in H. injection H as <-.
  apply andb_true_iff in Hl as [Hl1%Z.leb_le Hl2%Z.leb_le]. destruct Hcount as [-> _], Hretained as [-> _]. destruct (consecutive_positions _ _ _ Hc) as [Hs Hp]. destruct Hb. cbn [fst snd]. split; [|done].
  constructor; cbn; try done.
  - rewrite payload_bytes_app. lia.
  - by rewrite zlen_app.
  - unfold positions. rewrite map_app. apply (sorted_app _ _ frontier); try done. eapply Forall_impl; [exact Hp|]. cbn. intros p. lia.
  - unfold positions. rewrite map_app, Hf. apply Forall_app. split; [eapply Forall_impl; [exact bk_frontier0|]; cbn; intros p; pose proof (zlen_nonneg (rs_blocks state)); lia|]. eapply Forall_impl; [exact Hp|]. cbn. intros p. lia.
  - apply Forall_app. split; [done|]. apply Forall_lookup. intros k b Hk. exists m. split_and!; [done|done|]. by destruct (Hc k b Hk).
Qed.

(** ** Segments in order *)

Definition ordered (segments : list SegmentMetadata) : Prop := StronglySorted (fun a b => segment_after a b = false) segments.

Lemma segment_after_spec a b : segment_after a b = false <->
  position_value (md_base a) < position_value (md_base b) \/ (position_value (md_base a) = position_value (md_base b) /\ (md_state a = SegmentRetired \/ md_state b <> SegmentRetired)).
Proof.
  unfold segment_after. rewrite orb_false_iff, !andb_false_iff, negb_false_iff, Z.ltb_ge, Z.eqb_neq, bool_decide_eq_true, bool_decide_eq_false.
  destruct (decide (md_state a = SegmentRetired)), (decide (md_state b = SegmentRetired)), (Z.lt_trichotomy (position_value (md_base a)) (position_value (md_base b))) as [|[]]; intuition (lia || congruence).
Qed.

Lemma segment_after_total a b : segment_after a b = true -> segment_after b a = false.
Proof. intros H. destruct (segment_after b a) eqn:Hb; [|done]. unfold segment_after in H, Hb. apply orb_true_iff in H, Hb. rewrite !andb_true_iff, Z.ltb_lt, Z.eqb_eq, negb_true_iff, bool_decide_eq_true, bool_decide_eq_false in H, Hb. intuition (lia || congruence). Qed.

Lemma segment_after_trans a b c : segment_after a b = false -> segment_after b c = false -> segment_after a c = false.
Proof. rewrite !segment_after_spec. intuition (lia || congruence). Qed.

Lemma insert_elements m l x : x ∈ insert_segment m l <-> x = m \/ x ∈ l.
Proof. induction l as [|y l IH]; cbn; [rewrite list_elem_of_singleton, elem_of_nil; tauto|]. destruct (segment_after m y); rewrite !elem_of_cons; [rewrite IH|]; tauto. Qed.

Lemma insert_ordered m l : ordered l -> ordered (insert_segment m l).
Proof.
  unfold ordered. induction 1 as [|y l Hl IH Hy]; cbn; [repeat constructor|]. destruct (segment_after m y) eqn:Hm.
  - constructor; [done|]. apply Forall_forall. intros x [->|Hx]%insert_elements; [by apply segment_after_total|]. rewrite Forall_forall in Hy. by apply Hy.
  - constructor; [by constructor|]. constructor; [done|]. eapply Forall_impl; [exact Hy|]. intros x Hx. by apply (segment_after_trans m y).
Qed.

Lemma sort_ordered l : ordered (sort_segments l).
Proof. unfold sort_segments. induction l as [|m l IH]; [constructor|]. by apply insert_ordered. Qed.

Lemma sort_elements l x : x ∈ sort_segments l <-> x ∈ l.
Proof. unfold sort_segments. induction l as [|m l IH]; [done|]. cbn [fold_right]. by rewrite insert_elements, elem_of_cons, IH. Qed.

Lemma catalog_segments_ordered objects scope repair : returns (catalog_segments_mode objects scope repair) (fun segments => ordered segments /\ forall m, m ∈ segments -> md_scope m = scope).
Proof.
  unfold catalog_segments_mode. eapply outcome_bind; [apply outcome_any|]. intros all _. eapply outcome_bind; [apply outcome_any|]. intros _ _. cbv zeta. destruct (_ <? _); [by apply outcome_of|].
  apply outcome_ret. split; [apply sort_ordered|]. intros m Hm. rewrite sort_elements, list_elem_of_filter in Hm. tauto.
Qed.

(** ** The loops *)

Section loops.
Context (protection : SegmentProtectionKey) (instance : bytes) (mode : RecoveryMode) (all : list SegmentMetadata).

Definition recovered_at (base : Z) (state : RecoveryState) : Prop :=
  exists m, m ∈ all /\ md_state m <> SegmentRetired /\ consecutive base (md_id m) (rs_blocks state) /\ position_value (rs_frontier state) = base + zlen (rs_blocks state).

Definition group_kept (base : Z) (kept : list LedgerBlock * Z * CommitPosition) : Prop := books all kept.1.1 kept.1.2 base /\ position_value kept.2 = base.

Lemma recovered_retained base state kept kept' : group_kept base kept -> recovered_at base state -> retain_recovered state kept.1.1 kept.1.2 = Ok kept' ->
  books all kept'.1.1 kept'.1.2 (position_value kept'.2) /\ position_value kept'.2 = position_value (rs_frontier state).
Proof.
  intros [Hb Hk] (m & Hm & Hs & Hc & Hf) Hr. destruct (retain_books _ _ _ _ _ _ _ Hb Hm Hs Hc Hf Hr) as [H1 H2]. split; [done|]. by rewrite H2, Hf.
Qed.

Lemma recover_base_returns base : forall segments kept advancing active, Forall (fun m => m ∈ all) segments ->
  Forall (fun m => position_value (md_base m) = position_value base -> md_state m <> SegmentRetired) segments -> group_kept (position_value base) kept ->
  (forall state, advancing = Some state -> recovered_at (position_value base) state) -> (forall m key state, active = Some (m, key, state) -> recovered_at (position_value base) state) ->
  returns (recover_base protection instance mode base segments kept advancing active)
    (fun '(rest, kept, advancing, active) => suffix rest segments /\ group_kept (position_value base) kept /\ (forall state, advancing = Some state -> recovered_at (position_value base) state) /\
       (forall m key state, active = Some (m, key, state) -> recovered_at (position_value base) state)).
Proof.
  induction segments as [|m segments IH]; intros kept advancing active Hin Hlive Hkept Hadv Hact; cbn [recover_base]; [by apply outcome_ret|].
  destruct (Z.eqb_spec (position_value (md_base m)) (position_value base)) as [Hbase|]; [|by apply outcome_ret]. cbn [negb].
  apply Forall_cons in Hin as [Hm Hin]. apply Forall_cons in Hlive as [Hstate Hlive]. specialize (Hstate Hbase).
  eapply outcome_bind; [by apply recover_segment_returns|]. intros [key state] [Hc Hf]. rewrite Hbase in Hc, Hf. assert (Hat : recovered_at (position_value base) state) by (exists m; done).
  assert (Hnext : forall kept advancing active, group_kept (position_value base) kept -> (forall state, advancing = Some state -> recovered_at (position_value base) state) ->
    (forall m key state, active = Some (m, key, state) -> recovered_at (position_value base) state) ->
    returns (recover_base protection instance mode base segments kept advancing active)
      (fun '(rest, kept, advancing, active) => suffix rest (m :: segments) /\ group_kept (position_value base) kept /\ (forall state, advancing = Some state -> recovered_at (position_value base) state) /\
        (forall m key state, active = Some (m, key, state) -> recovered_at (position_value base) state))).
  { intros kept' advancing' active' H1 H2 H3 w w' [[[rest k] adv] act] Hr. apply (IH _ _ _ Hin Hlive H1 H2 H3) in Hr as (Hs & ? & ? & ?). split_and!; [by apply suffix_cons_r|done..]. }
  case_bool_decide; [apply Hnext; try done; by intros m' key' state' [= <- <- <-]|]. destruct (Z.eqb_spec (position_value (rs_frontier state)) (position_value base)) as [Hempty|].
  - eapply outcome_bind; [apply outcome_of; intros k Hk; exact Hk|]. intros kept' Hretain. destruct (recovered_retained _ _ _ _ Hkept Hat Hretain) as [Hb Hp]. rewrite Hempty in Hp. apply Hnext; try done. split; [by rewrite <- Hp|done].
  - destruct advancing; [by apply outcome_of|]. apply Hnext; try done. by intros state' [= <-].
Qed.

Lemma reconstruct_base_returns segments r : Forall (fun m => m ∈ all) segments -> ordered segments -> books all (rc_blocks r) (rc_retained_bytes r) (position_value (rc_frontier r)) ->
  returns (reconstruct_base protection instance mode segments r)
    (fun '(rest, r') => suffix rest segments /\ books all (rc_blocks r') (rc_retained_bytes r') (position_value (rc_frontier r'))).
Proof.
  intros Hin Hord Hb. unfold reconstruct_base. destruct segments as [|first segments]; [by apply outcome_ret|]. case_bool_decide as Hretired.
  { destruct (Z.ltb_spec (position_value (md_base first)) (position_value (rc_frontier r))); [by apply outcome_of|]. apply outcome_ret. split; [by apply suffix_cons_r|]. cbn. by apply (books_advance _ _ _ (position_value (rc_frontier r))). }
  destruct (Z.eqb_spec (position_value (md_base first)) (position_value (rc_frontier r))) as [Hbase|]; [|by apply outcome_of]. cbn [negb].
  assert (Hlive : Forall (fun m => position_value (md_base m) = position_value (md_base first) -> md_state m <> SegmentRetired) (first :: segments)).
  { constructor; [done|]. inversion Hord as [|? ? _ Hall]. eapply Forall_impl; [exact Hall|]. intros m Hm%segment_after_spec Heq. intuition (lia || congruence). }
  eapply outcome_bind; [apply (recover_base_returns (md_base first) (first :: segments) _ None None Hin Hlive)|]; try done; [split; [by rewrite Hbase|done]|].
  intros [[[rest kept] advancing] active] (Hrest & Hkept & Hadv & Hact). destruct advancing as [state|]; cbn.
  - destruct active as [[[m key] state']|]; [rewrite !bool_decide_true by (by eexists); by apply outcome_of|]. rewrite (bool_decide_false (is_Some None)) by (by intros [? ?]). cbn [andb].
    eapply outcome_bind; [apply outcome_of; intros k Hk; exact Hk|]. intros kept' Hretain. destruct (recovered_retained _ _ _ _ Hkept (Hadv _ eq_refl) Hretain) as [Hb' _]. by apply outcome_ret.
  - eapply outcome_bind; [apply outcome_of; intros k Hk; exact Hk|]. intros kept' [= <-]. destruct Hkept as [Hkb Hkp]. destruct active as [[[m key] state]|].
    + case_bool_decide; [|by apply outcome_of]. cbn [negb]. eapply outcome_bind; [apply outcome_of; intros k Hk; exact Hk|]. intros kept' Hretain. destruct (recovered_retained _ _ _ _ (conj Hkb Hkp) (Hact _ _ _ eq_refl) Hretain) as [Hb' _]. by apply outcome_ret.
    + apply outcome_ret. cbn. split; [done|]. by rewrite Hkp.
Qed.

Lemma reconstruct_loop_returns fuel : forall segments r, Forall (fun m => m ∈ all) segments -> ordered segments -> books all (rc_blocks r) (rc_retained_bytes r) (position_value (rc_frontier r)) ->
  returns (reconstruct_loop protection instance mode fuel segments r) (fun r' => books all (rc_blocks r') (rc_retained_bytes r') (position_value (rc_frontier r'))).
Proof.
  induction fuel as [|fuel IH]; intros segments r Hin Hord Hb; [destruct segments; by apply outcome_ret|]. destruct segments as [|m segments]; cbn [reconstruct_loop]; [by apply outcome_ret|].
  eapply outcome_bind; [by apply reconstruct_base_returns|]. intros [rest r'] [[pre Hpre] Hb']. apply IH; [| |done]; rewrite Hpre in *.
  - by apply Forall_app in Hin as [_ Hin].
  - clear - Hord. unfold ordered in *. induction pre as [|x pre IH]; [done|]. inversion Hord. by apply IH.
Qed.
End loops.

(** C5 (invariant). What a ledger is opened on is consistent. Whatever the catalog and the files hold and however
    the environment answers, when the segments of a scope are read from the catalog and their
    reconstruction returns, then the bytes it reports are those of the blocks it retained, both are
    within their limits, the positions of the blocks increase strictly and none is beyond the
    frontier at which the ledger continues, and every block is of a segment of that scope which is
    not retired. *)
Theorem reconstruction_is_consistent objects scope repair w w1 segments protection instance mode w2 w' r :
  catalog_segments_mode objects scope repair w = (w1, Returned segments) -> reconstruct protection instance mode segments w2 = (w', Returned r) ->
  books segments (rc_blocks r) (rc_retained_bytes r) (position_value (rc_frontier r)) /\ Forall (fun m => md_scope m = scope) segments.
Proof.
  intros [Hordered Hscope]%catalog_segments_ordered Hr. split; [|by apply Forall_forall].
  eapply reconstruct_loop_returns; [|exact Hordered| |exact Hr]; [by apply Forall_forall|apply books_empty].
Qed.
End reconstruction.


Section safety.
Context {B : CryptoBackend}.

Lemma created_seals metadata protection instance entropy w w1 key : create_active metadata protection instance entropy w = (w1, Returned key) -> seals w1 = seals w ++ used key 0.
Proof.
  intros Hc. assert (H : triple_on seals (eq (seals w)) (create_active metadata protection instance entropy) (fun key s => s = seals w ++ used key 0) (fun _ _ => True) (fun _ => True)).
  { unfold create_active. destruct (negb _); [by apply triple_of|]. eapply triple_bind; [apply triple_of with (Q := fun _ => eq (seals w)); auto|]. intros object. cbv zeta.
    eapply triple_bind; [apply triple_of with (Q := fun _ => eq (seals w)); auto|]. intros wrapped.
    eapply triple_bind; [apply triple_of with (Q := fun c s => fc_sequence c = 0 /\ seals w = s); [|auto]|].
    { intros c s Hcontext Hs. split; [|done]. apply map_err_Ok in Hcontext. unfold segment_frame in Hcontext. destruct (fo_class object); [|done]. by injection Hcontext as <-. }
    intros context. apply triple_pure. intros Hcontext. eapply triple_bind; [apply triple_of with (Q := fun _ => eq (seals w)); auto|]. intros limit.
    eapply triple_bind; [eapply triple_conseq; [| | | |apply (seal_frame_seals (mkObjectDataKey entropy object) context _ _ (seals w) (fun _ => True))]; auto; try (intros f s H; exact H)|]. intros frame. rewrite Hcontext. set (t := seals w ++ [nonce_of (mkObjectDataKey entropy object) 0]).
    eapply triple_bind; [apply triple_of with (Q := fun _ => eq t); auto|]. intros header.
    eapply triple_bind; [eapply triple_conseq; [| | | |apply (triple_equal_silent _ t), silent_create]; auto; try (intros i s H; exact H)|]. intros i.
    eapply triple_bind; [apply triple_map; eapply triple_conseq; [| | | |apply (triple_equal_silent _ t), silent_write_all]; auto; try (intros u s H; exact H)|]. intros ?.
    eapply triple_bind; [apply triple_map; eapply triple_conseq; [| | | |apply (triple_equal_silent _ t), silent_sync]; auto; try (intros u s H; exact H)|]. intros ?.
    eapply triple_bind; [apply triple_map; eapply triple_conseq; [| | | |apply (triple_equal_silent _ t), silent_sync_directory]; auto; try (intros u s H; exact H)|]. intros ?. apply triple_ret. intros s <-. done. }
  specialize (H w eq_refl). by rewrite Hc in H.
Qed.

(** C4 (safety). A key never seals two frames with the same nonce: whatever the environment answers while
    a segment is created and its ledger serves any requests, the frames that are sealed in that time
    are all sealed with the segment's key, and their nonces are pairwise different. *)
Theorem nonces_never_repeat metadata protection instance entropy w w1 key l capacity r requests :
  create_active metadata protection instance entropy w = (w1, Returned key) -> al_key l = key ->
  exists u, seals (serve l (opened_state capacity r) requests w1).1 = seals w ++ u /\ NoDup u /\ Forall (fun sealed => sealed.1 = odk_key key) u.
Proof.
  intros Hc Hk. pose proof (created_seals _ _ _ _ _ _ _ Hc) as Hs. rewrite <- Hk in Hs.
  destruct (serve_seals l (seals w) requests (opened_state capacity r) w1) as (m & u & Hm & Hu & Hp).
  { exists 0%nat. cbn. split_and!; [done|apply zlen_nonneg|done|exact Hs]. }
  exists u. split; [done|]. destruct Hp as [tail Hp]. pose proof (used_distinct (al_key l) m Hm) as Hd. rewrite Hp in Hd. apply NoDup_app in Hd as [Hd _]. split; [done|].
  assert (Hall : Forall (fun sealed => sealed.1 = odk_key key) (used (al_key l) m)) by (unfold used; apply Forall_fmap, Forall_true; intros x; cbn; by rewrite Hk).
  rewrite Hp in Hall. by apply Forall_app in Hall as [Hall _].
Qed.

Context {HB : CryptoLaws B}.

Lemma survives_recovers protection instance metadata key header i bs d d' : header_for protection instance metadata key header -> survives metadata key header i bs d -> crashes d d' ->
  exists last, (length last <= 1)%nat /\ recovers_to protection instance metadata key header i (bs ++ last) d'.
Proof.
  intros Hh [Hs|[b Hs]] Hc.
  - exists []. rewrite app_nil_r. split; [cbn; lia|]. by apply (trailing_recovers _ _ _ _ _ _ Hh _ d).
  - destruct (undecided_recovers _ _ _ _ _ _ Hh _ _ _ _ Hs Hc); [exists []; rewrite app_nil_r|exists [b]]; (split; [cbn; lia|done]).
Qed.

Lemma chain_positions key id base header bs c : chain key id base header bs c -> forall k b, bs !! k = Some b -> lb_position b = position_after base (Z.of_nat k + 1).
Proof.
  induction 1 as [|bs c b context frame H IH Hb Hk Hp Hposition Hauth]; intros k x Hx; [done|]. destruct (decide (k < length bs)%nat).
  - rewrite lookup_app_l in Hx by done. by apply IH.
  - rewrite lookup_app_r in Hx by lia. destruct (k - length bs)%nat eqn:Hk0; [|done]. injection Hx as <-. rewrite Hposition. f_equal. unfold zlen. lia.
Qed.

(** What the life of a segment leaves on the disk. *)
Lemma life_survives protection instance metadata entropy w w1 key l capacity r requests :
  well_formed_metadata metadata -> well_formed_route (pk_route protection) -> zlen entropy = 32 -> absent (md_id metadata) (disk w) ->
  create_active metadata protection instance entropy w = (w1, Returned key) ->
  al_current l = Some metadata -> al_key l = key ->
  rc_frontier r = md_base metadata -> rc_retained_bytes r = payload_bytes (rc_blocks r) -> Forall (fun b => lb_segment b <> md_id metadata) (rc_blocks r) ->
  Forall (fun request => well_formed_request request.1) requests ->
  exists i header new, header_for protection instance metadata key header /\ survives metadata key header i new (disk (serve l (opened_state capacity r) requests w1).1) /\
    answered requests (serve l (opened_state capacity r) requests w1).2 (rc_blocks r) new.
Proof.
  intros Hm Hroute Hentropy Habsent Hc Hcurrent Hkey Hfrontier Hbytes Hprior Hrequests.
  pose proof (create_active_triple protection instance metadata entropy Hm Hroute Hentropy w Habsent) as H. rewrite Hc in H. destruct H as (i & header & Hh & Hd).
  pose proof (header_length _ _ _ _ _ Hh). destruct (wm_base _ Hm).
  assert (Hstart : serving metadata key header i (rc_blocks r) (opened_state capacity r) [] (disk w1)).
  { split; [constructor; cbn; rewrite ?app_nil_r; try done; unfold position_after; rewrite Z.add_0_r; rewrite Hfrontier; by destruct (md_base metadata)|].
    exists header, None. split; [|done]. constructor; change (zlen (@nil LedgerBlock)) with 0; try done; try lia. exists []. split; [by rewrite app_nil_r|apply chain_start]. }
  destruct (serve_survives metadata key header i l Hcurrent Hkey (rc_blocks r) Hprior requests _ _ w1 Hrequests Hstart) as (new & Hs & Hanswered). rewrite app_nil_r in Hanswered. cbn [app] in Hs.
  by exists i, header, new.
Qed.

(** C1 (safety). Acknowledged blocks survive. A segment is created and its ledger serves any requests while
    every system call may fail, write less than asked or be the last before the machine stops; after
    the stop, every file holds what was synchronised and any rest of what was not, every name is the
    old or the new one. The recovery of the segment then returns its key and exactly the blocks of
    the requests that were answered with a receipt, in their order and at consecutive positions,
    followed by at most one block whose request got no receipt; every receipt that was returned names
    one of these blocks or one of an earlier segment, with the identity and the payload of the
    request. *)
Theorem acknowledged_blocks_survive protection instance metadata entropy w w1 key l capacity r requests d' :
  well_formed_metadata metadata -> well_formed_route (pk_route protection) -> zlen entropy = 32 -> absent (md_id metadata) (disk w) ->
  create_active metadata protection instance entropy w = (w1, Returned key) ->
  al_current l = Some metadata -> al_key l = key ->
  rc_frontier r = md_base metadata -> rc_retained_bytes r = payload_bytes (rc_blocks r) -> Forall (fun b => lb_segment b <> md_id metadata) (rc_blocks r) ->
  Forall (fun request => well_formed_request request.1) requests ->
  crashes (disk (serve l (opened_state capacity r) requests w1).1) d' ->
  exists new last, (length last <= 1)%nat /\ answered requests (serve l (opened_state capacity r) requests w1).2 (rc_blocks r) new /\
    (forall k b, (new ++ last) !! k = Some b -> lb_position b = position_after (md_base metadata) (Z.of_nat k + 1)) /\
    exists n d'', (n <= 17 + 2 * length (new ++ last))%nat /\
      completes (recover_segment_with_mode metadata protection instance Repair) n d' (key, mkRecoveryState (position_after (md_base metadata) (zlen (new ++ last))) (new ++ last)) d''.
Proof.
  intros Hm Hroute Hentropy Habsent Hc Hcurrent Hkey Hfrontier Hbytes Hprior Hrequests Hcrash.
  destruct (life_survives _ _ _ _ _ _ _ _ capacity _ _ Hm Hroute Hentropy Habsent Hc Hcurrent Hkey Hfrontier Hbytes Hprior Hrequests) as (i & header & new & Hh & Hs & Hanswered).
  destruct (survives_recovers _ _ _ _ _ _ _ _ _ Hh Hs Hcrash) as (last & Hlast & n & d'' & Hn & (content & f & Hstored & _) & Hrec). exists new, last. split_and!; [done|done| |by exists n, d''].
  destruct (so_chain _ _ _ _ _ _ _ Hstored) as (c & _ & Hchain). by apply (chain_positions _ _ _ _ _ _ Hchain).
Qed.

(** C3 (error). The failure of an append says what recovery will find. A receipt means that the block is
    there after any crash. [RejectedBeforeMutation] means that the blocks are those before the
    request, and the ledger goes on; [RecoveryRequired] means the same blocks, and the ledger refuses
    further work; [CommitAmbiguous] means that the ledger refuses further work and that recovery
    finds the blocks before the request, followed by its block or not. When the machine stops in
    an append, recovery finds one of these two as well. *)
Theorem append_reports_honestly protection instance metadata key header i l prior st bs block cancelled w :
  header_for protection instance metadata key header -> al_current l = Some metadata -> al_key l = key -> Forall (fun b => lb_segment b <> md_id metadata) prior ->
  agrees metadata prior st bs -> ls_poisoned st = false -> well_formed_request block -> durable metadata key header i bs (disk w) ->
  let recovered := recovers_to protection instance metadata key header i in
  let either d := recovered bs d \/ exists b, lb_identity b = pr_identity block /\ lb_payload b = pr_payload block /\ recovered (bs ++ [b]) d in
  match append_inner l st block cancelled w with
  | (w', Returned (st', receipt)) =>
      exists bs' b, (bs' = bs \/ exists b', bs' = bs ++ [b']) /\ b ∈ prior ++ bs' /\ acknowledges (block, cancelled) receipt b /\ (forall d, crashes (disk w') d -> recovered bs' d)
  | (w', Failed (st', f)) => forall d, crashes (disk w') d ->
      match ledger_completion f with
      | RejectedBeforeMutation => ls_poisoned st' = false /\ recovered bs d
      | CompletionRecoveryRequired => ls_poisoned st' = true /\ recovered bs d
      | CommitAmbiguous => ls_poisoned st' = true /\ either d
      end
  | (w', Crashed) => forall d, crashes (disk w') d -> either d
  end.
Proof.
  intros Hh Hcurrent Hkey Hprior Ha Hp Hblock Hd recovered either.
  assert (Hund : forall a d d', undecided metadata key header i bs (committed_block metadata block bs a) d -> crashes d d' -> either d').
  { intros a d d' Hu Hc. destruct (undecided_recovers _ _ _ _ _ _ Hh _ _ _ _ Hu Hc); [by left|]. right. by exists (committed_block metadata block bs a). }
  pose proof (append_live_triple metadata key header i l Hcurrent Hkey prior Hprior st bs block cancelled Ha Hp Hblock w Hd) as H.
  destruct (append_inner l st block cancelled w) as [w' [[st' r]|[st' f]|]].
  - destruct H as [[(b & Hb & Hid & Hpayload & [= -> ->]) Hd']|(a & Ha' & Hp' & Hr & Hd')]; cbn [fst snd] in *.
    + exists bs, b. split_and!; [by left|by rewrite <- (ag_blocks _ _ _ _ Ha)|done|]. intros d. by apply (durable_recovers _ _ _ _ _ _ Hh).
    + exists (bs ++ [committed_block metadata block bs a]), (committed_block metadata block bs a). split_and!; [right; eauto| |done|intros d; by apply (durable_recovers _ _ _ _ _ _ Hh)].
      apply elem_of_app. right. apply elem_of_app. right. by apply list_elem_of_singleton.
  - destruct H as [_ H]. cbn [fst snd] in H. intros d Hc. destruct (ledger_completion f); destruct H as [Hp' H]; (split; [done|]).
    + by apply (durable_recovers _ _ _ _ _ _ Hh _ (disk w')).
    + by apply (trailing_recovers _ _ _ _ _ _ Hh _ (disk w')).
    + destruct H as [a H]. by apply (Hund a (disk w')).
  - intros d Hc. destruct H as [H|[a H]]; [left; by apply (trailing_recovers _ _ _ _ _ _ Hh _ (disk w'))|by apply (Hund a (disk w'))].
Qed.
End safety.

(** ** A scenario *)

Module Scenario.

(** A backend that keeps the laws: the seal appends sixteen bytes and the wrapping is the identity. *)
Definition plain_backend : CryptoBackend := {|
  seal_aes_256_gcm _ _ _ p := Ok (p ++ replicate 16 0);
  open_aes_256_gcm _ _ _ c := Ok (take (length c - 16) c);
  sha256 _ := replicate 32 7;
  hmac_sha256 _ _ := Ok (replicate 32 9);
  wrap_key_aes_256_kwp _ p := Ok p;
  unwrap_key_aes_256_kwp _ c := Ok c;
|}.

Lemma plain_laws : CryptoLaws plain_backend.
Proof.
  constructor; cbn.
  - intros key nonce aad p c [= <-]. f_equal. rewrite length_app. cbn [length]. rewrite Nat.add_sub. apply take_app_length.
  - intros key nonce aad p c [= <-]. by rewrite zlen_app.
  - done.
  - by intros key p c [= <-].
Qed.

Definition scope : SegmentScope := mkSegmentScope (mkTenantId (replicate 15 0 ++ [1])) Logs (mkVirtualShardId 1).
Definition metadata : SegmentMetadata := mkSegmentMetadata scope (replicate 15 0 ++ [2]) SegmentActive (mkCommitPosition 5).
Definition protection : SegmentProtectionKey := mkProtectionKey (replicate 32 3) (mkRoute 1 (replicate 15 0 ++ [4]) 1).
Definition instance : bytes := replicate 16 6.
Definition entropy : bytes := replicate 32 8.
Definition no_files : Directory := mkDirectory ∅ ∅.
Definition empty_disk : Disk := mkDisk ∅ 0 no_files no_files.

(** The file is created; the first block is written in pieces and committed; during the second
    append the directory cannot be synchronised; the third request finds the ledger poisoned and
    the fourth repeats the first. *)
Definition responses_after_creation : list Response :=
  [Completed; Completed; Completed; Wrote 1; Interrupted; Wrote 3; Wrote 50; Completed; Completed; Completed; Completed; Completed; Completed; Completed; Completed; Completed; Completed]
  ++ replicate 13 Completed ++ [Unavailable] ++ replicate 9 Completed.
Definition world : World := mkWorld empty_disk (replicate 4 Completed ++ responses_after_creation) [].

Definition created_world : World := (@create_active plain_backend metadata protection instance entropy world).1.
Definition key : ObjectDataKey := mkObjectDataKey entropy (mkFrameObject (ScopeTenant (scope_tenant scope)) (ClassSegment Logs (mkVirtualShardId 1)) (md_id metadata) 1 1).
Definition ledger : ActiveSegmentLedger := mkLedgerHandle scope false (Some metadata) key.
Definition nothing_before : Reconstruction := mkReconstruction [] 0 (mkCommitPosition 5) None.
Definition request (n : Z) : PreparedStoreBlock * bool := (mkPrepared scope (replicate 15 0 ++ [n]) [n; n] None None, false).
Definition requests : list (PreparedStoreBlock * bool) := [request 1; request 2; request 3; request 1].


#[local] Existing Instance plain_backend.
#[local] Existing Instance plain_laws.

Definition final := serve ledger (opened_state amounts_zero nothing_before) requests created_world.

Definition summary (r : result LedgerFailure CommitReceipt) : result LedgerCompletionState Z := match r with Ok receipt => Ok (position_value (rc_position receipt)) | Err f => Err (ledger_completion f) end.

Example answers : map summary final.2 = [Ok 6; Err CommitAmbiguous; Err RejectedBeforeMutation; Ok 6].
Proof. vm_compute. reflexivity. Qed.

Lemma creation : create_active metadata protection instance entropy world = (created_world, Returned key).
Proof. vm_compute. reflexivity. Qed.

Lemma metadata_ok : well_formed_metadata metadata.
Proof. by constructor; try split. Qed.
Lemma route_ok : well_formed_route (pk_route protection).
Proof. by constructor; try split. Qed.
Lemma nothing_absent : absent (md_id metadata) (disk world).
Proof. by intros kind []. Qed.
Lemma request_ok n : n <> 0 -> well_formed_request (request n).1.
Proof. intros Hn. split_and!; [split; [done|]|done|done]. cbn. by rewrite (proj2 (Z.eqb_neq n 0)). Qed.

(** The machine restarts: a retired segment ended where the active one begins, and the catalog names
    the active one first. *)
Definition retired : SegmentMetadata := mkSegmentMetadata scope (replicate 15 0 ++ [3]) SegmentRetired (mkCommitPosition 5).
Definition restarted : World := mkWorld (lose (disk final.1)) (replicate 60 Completed) [].
Definition listed := catalog_segments_mode [encode_metadata metadata; encode_metadata retired] scope true restarted.
Definition rebuilt := reconstruct protection instance Repair [retired; metadata] listed.1.

Lemma listing : listed.2 = Returned [retired; metadata].
Proof. vm_compute. reflexivity. Qed.
Lemma rebuilding : exists r, rebuilt.2 = Returned r /\ positions (rc_blocks r) = [6].
Proof.
  assert (H : match rebuilt.2 with Returned r => positions (rc_blocks r) | _ => [] end = [6]) by (vm_compute; reflexivity).
  destruct rebuilt.2 as [r| |]; [by exists r|discriminate..].
Qed.

End Scenario.

Section witnesses.
Import Scenario.
#[local] Existing Instance plain_backend.
#[local] Existing Instance plain_laws.

Lemma nonces_never_repeat_witness : exists u, seals final.1 = [] ++ u /\ NoDup u /\ Forall (fun sealed => sealed.1 = entropy) u.
Proof. exact (nonces_never_repeat metadata protection instance entropy world created_world key ledger amounts_zero nothing_before requests creation eq_refl). Defined.

(** After the ambiguous commit the crash loses everything that was not synchronised. *)
Lemma acknowledged_blocks_survive_witness : map summary final.2 = [Ok 6; Err CommitAmbiguous; Err RejectedBeforeMutation; Ok 6] /\
  exists new last, (length last <= 1)%nat /\ answered requests final.2 [] new /\
    (forall k b, (new ++ last) !! k = Some b -> lb_position b = position_after (mkCommitPosition 5) (Z.of_nat k + 1)) /\
    exists n d'', (n <= 17 + 2 * length (new ++ last))%nat /\
      completes (recover_segment_with_mode metadata protection instance Repair) n (lose (disk final.1)) (key, mkRecoveryState (position_after (mkCommitPosition 5) (zlen (new ++ last))) (new ++ last)) d''.
Proof.
  split; [exact answers|]. apply (acknowledged_blocks_survive protection instance metadata entropy world created_world key ledger amounts_zero nothing_before requests).
  - exact metadata_ok.
  - exact route_ok.
  - reflexivity.
  - exact nothing_absent.
  - exact creation.
  - reflexivity.
  - reflexivity.
  - reflexivity.
  - reflexivity.
  - constructor.
  - repeat constructor; apply request_ok; discriminate.
  - apply lose_crashes.
Defined.

(** The first append, from the created segment. *)
Lemma append_reports_honestly_witness : exists header i,
  match append_inner ledger (opened_state amounts_zero nothing_before) (request 1).1 false created_world with
  | (w', Returned (st', receipt)) => exists bs' b, (bs' = [] \/ exists b', bs' = [b']) /\ b ∈ bs' /\ acknowledges (request 1) receipt b /\
      (forall d, crashes (disk w') d -> recovers_to protection instance metadata key header i bs' d)
  | _ => False
  end.
Proof.
  pose proof (create_active_triple protection instance metadata entropy metadata_ok route_ok eq_refl world nothing_absent) as H. rewrite creation in H. destruct H as (i & header & Hh & Hd). exists header, i.
  assert (Hdurable : durable metadata key header i [] (disk created_world)).
  { exists header, None. split; [|exact Hd]. pose proof (header_length _ _ _ _ _ Hh). constructor; try done; [|change (zlen header <= 1024); lia]. exists []. split; [by rewrite app_nil_r|apply chain_start]. }
  pose proof (append_reports_honestly protection instance metadata key header i ledger [] (opened_state amounts_zero nothing_before) [] (request 1).1 false created_world Hh eq_refl eq_refl
    (Forall_nil_2 _) ltac:(by constructor) eq_refl (request_ok 1 ltac:(discriminate)) Hdurable) as Happend.
  assert (Hreturned : exists r, (append_inner ledger (opened_state amounts_zero nothing_before) (request 1).1 false created_world).2 = Returned r) by (vm_compute; eexists; reflexivity).
  destruct (append_inner ledger (opened_state amounts_zero nothing_before) (request 1).1 false created_world) as [w' [[st' receipt]|[st' f]|]]; [exact Happend|by destruct Hreturned|by destruct Hreturned].
Defined.

Lemma reconstruction_is_consistent_witness : exists segments r,
  map md_state segments = [SegmentRetired; SegmentActive] /\ positions (rc_blocks r) = [6] /\
  books segments (rc_blocks r) (rc_retained_bytes r) (position_value (rc_frontier r)) /\ Forall (fun m => md_scope m = scope) segments.
Proof.
  exists [retired; metadata]. destruct rebuilding as (r & Hr & Hp). exists r. split; [reflexivity|]. split; [exact Hp|].
  apply (reconstruction_is_consistent [encode_metadata metadata; encode_metadata retired] scope true restarted listed.1 [retired; metadata] protection instance Repair listed.1 rebuilt.1 r).
  - rewrite <- listing. apply surjective_pairing.
  - rewrite <- Hr. apply surjective_pairing.
Defined.
End witnesses.
