(* ===== verification/LedgerRestart.v ===== *)
(** Active segment ledger: recovery can be interrupted.

    Recovery may fail or the machine may stop in it at any call. What is left recovers to the same
    blocks, so that recovery can be repeated until it succeeds, and when it returns it returns these
    blocks. A program is [steady] when a run that returns is a run in which every call completed;
    such a run is determined by the disk. *)

From stdpp Require Import gmap.
From S2P Require Import Prelude Outcome Identity Routing SourceTime RetentionTime LogStore GovernorModel GovernorPools GovernorState GovernorAdmission GovernorResize LedgerFrame LedgerFormat LedgerDisk LedgerStorage LedgerAppend LedgerLogic LedgerDurable LedgerRecovery LedgerCrash LedgerSafety.

(** ** Steady programs *)

Definition steady {E A} (m : Io E A) : Prop := forall w w' a, m w = (w', Returned a) -> exists n, completes m n (disk w) a (disk w').

Section steadiness.
Context {E : Type}.

Lemma completes_unique {A} (m : Io E A) n n' d a a' d1 d2 : completes m n d a d1 -> completes m n' d a' d2 -> a = a' /\ d1 = d2.
Proof.
  intros H1 H2. specialize (H1 (replicate n' Completed) []). specialize (H2 (replicate n Completed) []). rewrite <- !replicate_add in *. rewrite Nat.add_comm, H2 in H1. by injection H1 as <- _ <-.
Qed.

Lemma steady_ret {A} (a : A) : steady (E := E) (mret a).
Proof. intros w w' a' [= <- <-]. by exists 0%nat. Qed.
Lemma steady_fail {A} (e : E) : steady (A := A) (io_fail e).
Proof. by intros w w' a [=]. Qed.
Lemma steady_of {A} (r : result E A) : steady (io_of r).
Proof. intros w w' a H. unfold io_of in H. destruct r as [x|]; [|done]. injection H as <- <-. by exists 0%nat. Qed.
Lemma steady_bind {A X} (m : Io E A) (k : A -> Io E X) : steady m -> (forall a, steady (k a)) -> steady (m ≫= k).
Proof.
  intros Hm Hk w w' x H. unfold mbind, Io_bind in H. destruct (m w) as [w1 [a|e|]] eqn:Hw; [|done|done]. destruct (Hm _ _ _ Hw) as [n Hn]. destruct (Hk _ _ _ _ H) as [n' Hn']. exists (n + n')%nat. by eapply completes_bind.
Qed.
Lemma steady_map {F A} (f : E -> F) (m : Io E A) : steady m -> steady (io_map f m).
Proof. intros Hm w w' a H. unfold io_map in H. destruct (m w) as [w1 [x|e|]] eqn:Hw; [|done|done]. injection H as <- <-. destruct (Hm _ _ _ Hw) as [n Hn]. exists n. by apply completes_map. Qed.

(** Every turn that goes on makes a call. *)
Lemma steady_looped {X R} (body : X -> Io E (X + R)) x :
  (forall x, steady (body x)) -> (forall x n d x' d', completes (body x) n d (inl x') d' -> (0 < n)%nat) -> steady (looped body x).
Proof.
  intros Hbody Hcalls w w' r. unfold looped. generalize (Datatypes.S (length (responses w))). intros fuel H.
  enough (Hn : exists n, forall fuel', (n < fuel')%nat -> completes (io_loop fuel' body x) n (disk w) r (disk w')).
  { destruct Hn as [n Hn]. exists n. intros rest s. apply Hn. cbn. rewrite length_app, length_replicate. lia. }
  revert x w H. induction fuel as [|fuel IH]; intros x w H; [done|]. cbn [io_loop] in H. unfold mbind, Io_bind in H. destruct (body x w) as [w1 [[x'|r']|e|]] eqn:Hw; [| |done|done].
  - destruct (Hbody _ _ _ _ Hw) as [n Hn]. destruct (IH _ _ H) as [n' Hn']. pose proof (Hcalls _ _ _ _ _ Hn). exists (n + n')%nat. intros [|fuel'] Hf; [lia|]. cbn [io_loop].
    eapply completes_bind; [exact Hn|]. apply Hn'. lia.
  - injection H as <- <-. destruct (Hbody _ _ _ _ Hw) as [n Hn]. exists n. intros [|fuel'] Hf; [lia|]. cbn [io_loop]. rewrite <- (Nat.add_0_r n). eapply completes_bind; [exact Hn|apply completes_ret].
Qed.
End steadiness.

Lemma steady_call {A} (effect : Disk -> Disk * A) : steady (call effect).
Proof.
  intros w w' a H. exists 1%nat. unfold call, mbind, Io_bind, next_response in H. destruct (responses w) as [|[] rs]; try done; cbn in H; unfold perform in H; cbn in H;
    destruct (effect (disk w)) as [d x] eqn:He; injection H as <- <-; by apply completes_call.
Qed.

(** ** Programs that only read *)

Definition reading {E A} (m : Io E A) : Prop := forall w, disk (m w).1 = disk w.

Section readers.
Context {E : Type}.
Lemma reading_ret {A} (a : A) : reading (E := E) (mret a).
Proof. done. Qed.
Lemma reading_of {A} (r : result E A) : reading (io_of r).
Proof. done. Qed.
Lemma reading_bind {A X} (m : Io E A) (k : A -> Io E X) : reading m -> (forall a, reading (k a)) -> reading (m ≫= k).
Proof. intros Hm Hk w. specialize (Hm w). unfold mbind, Io_bind. destruct (m w) as [w' [a|e|]]; cbn in *; [by rewrite Hk|done|done]. Qed.
Lemma reading_map {F A} (f : E -> F) (m : Io E A) : reading m -> reading (io_map f m).
Proof. intros Hm w. specialize (Hm w). unfold io_map. by destruct (m w) as [w' [a|e|]]. Qed.
Lemma reading_looped {X R} (body : X -> Io E (X + R)) x : (forall x, reading (body x)) -> reading (looped body x).
Proof.
  intros Hbody w. unfold looped. generalize (Datatypes.S (length (responses w))). intros fuel. revert x w. enough (H : forall x, reading (io_loop fuel body x)) by done.
  induction fuel as [|fuel IH]; intros x; [done|]. cbn [io_loop]. apply reading_bind; [done|]. intros [x'|r]; [apply IH|apply reading_ret].
Qed.
Lemma triple_reading {A} (m : Io E A) P : reading m -> triple P m (fun _ => P) (fun _ => P) P.
Proof. intros Hm w Hw. specialize (Hm w). destruct (m w) as [w' [a|e|]]; cbn in *; by rewrite Hm. Qed.

(** The result of a reader that would return when every call completes. *)
Lemma triple_known {A} (m : Io E A) a P : reading m -> steady m -> (forall d, P d -> exists n d', completes m n d a d') -> triple P m (fun a' d => a' = a /\ P d) (fun _ => P) P.
Proof.
  intros Hr Hs Hc w Hw. pose proof (Hr w) as Hd. destruct (m w) as [w' [a'|e|]] eqn:Hm; cbn in Hd; rewrite Hd; [|done|done]. split; [|done].
  destruct (Hs _ _ _ Hm) as [n Hn]. destruct (Hc _ Hw) as (n' & d' & Hn'). by destruct (completes_unique _ _ _ _ _ _ _ _ Hn Hn').
Qed.
End readers.

Lemma reading_call {A} (read : Disk -> A) : reading (call (fun d => (d, read d))).
Proof. intros w. unfold call, mbind, Io_bind, next_response. by destruct (responses w) as [|[] rs]. Qed.

Ltac reads := repeat first [apply reading_ret | apply reading_of | apply reading_call | apply reading_map | apply reading_looped; intros ? | apply reading_bind; [|intros ?] | case_match].
Ltac steadily_step := first [apply steady_ret | apply steady_fail | apply steady_of | apply steady_call | apply steady_map | apply steady_bind; [|intros ?] | case_match].
Ltac steadily := repeat steadily_step.

(** ** The parts of recovery *)

Section recovery.
Context {B : CryptoBackend}.

Lemma reading_content i : reading (file_content i).
Proof. unfold file_content. reads. Qed.
Lemma steady_content i : steady (file_content i).
Proof. unfold file_content. steadily. Qed.
Lemma reading_read_exact i o n : reading (read_exact i o n).
Proof. unfold read_exact, file_content. reads. Qed.
Lemma steady_read_exact i o n : steady (read_exact i o n).
Proof. unfold read_exact, file_content. steadily. Qed.
Lemma reading_frontier p id key : reading (read_frontier p id key).
Proof. unfold read_frontier, read_exact, file_length, file_content. reads. Qed.
Lemma steady_frontier p id key : steady (read_frontier p id key).
Proof. unfold read_frontier, read_exact, file_length, file_content. steadily. Qed.
Lemma reading_block file version base segment key header_bytes encoded_bytes state : reading (read_block file version base segment key header_bytes encoded_bytes state).
Proof. unfold read_block, read_exact, file_content. reads. Qed.
Lemma steady_block file version base segment key header_bytes encoded_bytes state : steady (read_block file version base segment key header_bytes encoded_bytes state).
Proof. unfold read_block, read_exact, file_content. steadily. Qed.

Lemma block_calls file version base segment key header_bytes encoded_bytes state s d state' d' :
  read_block file version base segment key header_bytes encoded_bytes state (mkWorld d [] s) <> (mkWorld d' [] s, Returned state').
Proof. destruct state as [[blocks consumed] total]. unfold read_block. by destruct (MAX_RECOVERED_BLOCKS <=? zlen blocks). Qed.

Lemma reading_blocks file encoded_bytes base segment header_bytes key version retention : reading (read_blocks file encoded_bytes base segment header_bytes key version retention).
Proof. unfold read_blocks. apply reading_bind; [|intros blocks; reads]. apply reading_looped. intros [[blocks consumed] total]. case_match; [|reads]. apply reading_bind; [apply reading_block|intros ?; reads]. Qed.

Lemma steady_blocks file encoded_bytes base segment header_bytes key version retention : steady (read_blocks file encoded_bytes base segment header_bytes key version retention).
Proof.
  unfold read_blocks. apply steady_bind; [|intros blocks; steadily]. apply steady_looped.
  - intros [[blocks consumed] total]. case_match; [|steadily]. apply steady_bind; [apply steady_block|intros ?; steadily].
  - intros [[blocks consumed] total] [|n] d state' d' H; [|lia]. specialize (H [] []). cbn [replicate app] in H. destruct (consumed <? encoded_bytes); [|done]. unfold mbind, Io_bind in H.
    destruct (read_block _ _ _ _ _ _ _ _ _) as [w' [x|e|]] eqn:Hb; [|done|done]. injection H as -> _. by apply block_calls in Hb.
Qed.

Lemma reading_open_segment file metadata protection instance : reading (open_segment file metadata protection instance).
Proof. unfold open_segment, file_content. reads. Qed.
Lemma steady_open_segment file metadata protection instance : steady (open_segment file metadata protection instance).
Proof. unfold open_segment, file_content. steadily. Qed.

Lemma steady_recover segment_place frontier_place metadata key header_bytes mode allow : steady (recover_with_mode segment_place frontier_place metadata key header_bytes mode allow).
Proof.
  unfold recover_with_mode. apply steady_bind; [unfold open_regular; steadily|]. intros file. apply steady_bind; [apply steady_frontier|]. intros frontier. apply steady_bind; [unfold file_length; apply steady_bind; [apply steady_content|intros ?; steadily]|].
  intros length. destruct frontier as [f|]; (case_match; [steadily|]); (apply steady_bind; [unfold set_length, synchronize_file; steadily|intros ?]); [|steadily].
  apply steady_bind; [apply steady_blocks|]. intros blocks. steadily.
Qed.

Lemma steady_seal metadata : steady (seal metadata).
Proof. unfold seal, entry_exists, rename, synchronize_directory. steadily. Qed.

Lemma steady_recover_segment metadata protection instance mode : steady (recover_segment_with_mode metadata protection instance mode).
Proof.
  unfold recover_segment_with_mode, entry_exists, unlink, synchronize_directory, open_regular. repeat first [apply steady_open_segment | apply steady_recover | apply steady_seal | progress steadily_step].
Qed.
End recovery.

(** ** Interrupted recovery *)

Ltac triple_if := match goal with |- triple_on _ _ (if ?b then _ else _) _ _ _ => destruct b end.

Section interrupted.
Context {B : CryptoBackend} {HB : CryptoLaws B} (protection : SegmentProtectionKey) (instance : bytes) (metadata : SegmentMetadata) (key : ObjectDataKey) (header : bytes) (i : nat).
Context (Hheader : header_for protection instance metadata key header).

Abbreviation id := (md_id metadata).
Abbreviation holds_blocks := (stored key (md_id metadata) (md_base metadata) header).

(** A crash left these blocks and any bytes after them. *)
Definition crashed (bs : list LedgerBlock) (d : Disk) : Prop := exists content f junk, holds_blocks bs content f /\ settled id i (content ++ junk) f d.

Lemma trailing_crashed bs d d' : trailing metadata key header i bs d -> crashes d d' -> crashed bs d'.
Proof.
  intros (content & f & Hs & z & y & Hd) Hc. destruct (crash_settles _ _ _ _ _ _ _ _ _ Hd Hc) as (junk & f' & Hf & Hd'). exists content, f, junk. split; [done|]. by destruct Hf; subst f'.
Qed.

Lemma survives_crashed bs d d' : survives metadata key header i bs d -> crashes d d' -> exists last, (length last <= 1)%nat /\ crashed (bs ++ last) d'.
Proof.
  intros [Hs|[b (content & f & content' & k & c & Hs & Hs' & [z Hz] & Hd)]] Hc.
  - exists []. rewrite app_nil_r. split; [cbn; lia|]. by apply (trailing_crashed bs d).
  - rewrite <- (app_nil_r content') in Hd. destruct (crash_settles _ _ _ _ _ _ _ _ _ Hd Hc) as (junk & f' & Hf & Hd'). destruct Hf; subst f'.
    + exists [b]. split; [cbn; lia|]. by exists content', (Some (k, c)), junk.
    + exists []. rewrite app_nil_r. split; [cbn; lia|]. exists content, f, (z ++ junk). split; [done|]. by rewrite Hz, <- app_assoc in Hd'.
Qed.

Lemma crashed_recovers bs d : crashed bs d -> recovers_to protection instance metadata key header i bs d.
Proof. intros (content & f & junk & Hs & Hd). by apply (stored_recovers _ _ _ _ _ _ Hheader bs content f junk). Qed.

(** What recovery knows of the frontier. *)
Lemma frontier_known bs content f junk d : holds_blocks bs content f -> settled id i (content ++ junk) f d ->
  exists n, completes (read_frontier ActivePlace id key) n d
    (match f with None => None | Some _ => Some (mkPublished 3 (zlen content) (zlen bs) (position_after (md_base metadata) (zlen bs)) (recovered_retention bs)) end) d.
Proof.
  intros Hs Hd. pose proof (stored_retention _ _ _ _ _ _ _ Hs) as Hret. destruct Hs as [(c & Hc & Hchain) Hcount Hbytes Hb Hpos Hlen Hf]. destruct f as [[j cf]|].
  - destruct Hf as [Hne Hf]. pose proof (ph_now _ _ _ _ _ _ _ Hd) as (Hj & _). pose proof (positive_length _ Hne). pose proof (chain_length _ _ _ _ _ _ Hchain). pose proof (zlen_nonneg header). pose proof (zlen_nonneg c).
    unfold MAX_RETAINED_BLOCKS in Hcount. exists 4%nat. apply (completes_read_frontier key d ActivePlace id j _ _ _ _ cf); [apply (ph_frontier _ _ _ _ _ _ _ Hd)|done|done| |unfold MAX_RECOVERED_BLOCKS; lia|lia|done].
    rewrite Hc, zlen_app. unfold u64_max. lia.
  - exists 1%nat. apply (completes_bind _ _ 1 0 _ None d); [apply completes_call; cbn [directory]; by rewrite (ph_frontier _ _ _ _ _ _ _ Hd)|apply completes_ret].
Qed.

(** Cutting off the tail keeps the blocks. *)
Lemma tail_triple bs content f junk : holds_blocks bs content f ->
  triple (settled id i (content ++ junk) f) (if zlen content <? zlen (content ++ junk) then _ ← set_length i (zlen content); synchronize_file i else mret tt)
    (fun _ => trailing metadata key header i bs) (fun _ => trailing metadata key header i bs) (trailing metadata key header i bs).
Proof.
  intros Hs. assert (Hstart : forall d, settled id i (content ++ junk) f d -> trailing metadata key header i bs d) by (intros d Hd; exists content, f; split; [done|]; by exists junk, junk).
  triple_if; [|by apply triple_ret]. assert (Hcut : forall d, phase id i content (content ++ junk) f f d -> trailing metadata key header i bs d).
  { intros d Hd. exists content, f. split; [done|]. exists [], junk. by rewrite app_nil_r. }
  eapply triple_bind; [unfold set_length; apply triple_call with (Q := fun _ => phase id i content (content ++ junk) f f); auto|].
  { intros d Hd. cbn. rewrite (ph_file _ _ _ _ _ _ _ Hd). cbn. pose proof (phase_truncated _ _ _ _ _ _ (Z.to_nat (zlen content)) _ Hd) as Ht. unfold zlen in *. rewrite Nat2Z.id, take_app_length in Ht. by rewrite Nat2Z.id, take_app_length. }
  intros ?. unfold synchronize_file. apply triple_call; auto. intros d Hd. cbn. rewrite (ph_file _ _ _ _ _ _ _ Hd). cbn. pose proof (phase_synchronized _ _ _ _ _ _ _ Hd) as Hsync. exists content, f. split; [done|]. by apply settled_tailed.
Qed.

Lemma recover_triple bs content f junk : holds_blocks bs content f ->
  triple (settled id i (content ++ junk) f) (recover_with_mode ActivePlace ActivePlace metadata key (zlen header) Repair true)
    (fun _ => trailing metadata key header i bs) (fun _ => trailing metadata key header i bs) (trailing metadata key header i bs).
Proof.
  intros Hs. assert (Hstart : forall d, settled id i (content ++ junk) f d -> trailing metadata key header i bs d) by (intros d Hd; exists content, f; split; [done|]; by exists junk, junk).
  unfold recover_with_mode. cbv zeta. cbn [negb].
  eapply triple_bind; [eapply triple_conseq; [| | | |apply (triple_known (open_regular ActivePlace (segment_name id)) i (settled id i (content ++ junk) f))]; [done|intros a d H; exact H|auto|auto|unfold open_regular; reads|unfold open_regular; steadily|]|].
  { intros d Hd. exists 1%nat, d. apply (completes_bind _ _ 1 0 _ (Some i) d); [apply completes_call; cbn [directory]; by rewrite (ph_segment _ _ _ _ _ _ _ Hd)|by apply completes_of]. }
  intros file. apply triple_pure. intros ->.
  eapply triple_bind; [eapply triple_conseq; [| | | |apply (triple_known (read_frontier ActivePlace id key) (match f with None => None | Some _ => Some (mkPublished 3 (zlen content) (zlen bs) (position_after (md_base metadata) (zlen bs)) (recovered_retention bs)) end) (settled id i (content ++ junk) f))];
    [done|intros a d H; exact H|auto|auto|apply reading_frontier|apply steady_frontier|]|].
  { intros d Hd. destruct (frontier_known bs content f junk d Hs Hd) as [n Hn]. by exists n, d. }
  intros frontier. apply triple_pure. intros ->.
  eapply triple_bind; [eapply triple_conseq; [| | | |apply (triple_known (file_length i) (zlen (content ++ junk)) (settled id i (content ++ junk) f))]; [done|intros a d H; exact H|auto|auto|unfold file_length, file_content; reads|unfold file_length, file_content; steadily|]|].
  { intros d Hd. exists 1%nat, d. apply (completes_length i d _ (ph_file _ _ _ _ _ _ _ Hd)). }
  intros length. apply triple_pure. intros ->. pose proof (tail_triple bs content f junk Hs) as Htail. destruct f as [[j cf]|].
  - cbn [pb_durable_bytes pb_next_sequence pb_position pb_version pb_retention]. triple_if; [apply triple_of; auto|]. eapply triple_bind; [exact Htail|]. intros ?.
    eapply triple_bind; [apply triple_reading, reading_blocks|]. intros blocks. triple_if; [apply triple_of; auto|]. eapply triple_bind; [apply triple_of with (Q := fun _ => trailing metadata key header i bs); auto|]. intros expected.
    triple_if; [apply triple_of; auto|by apply triple_ret].
  - triple_if; [apply triple_of; auto|]. assert (Hheader_bytes : zlen content = zlen header).
    { destruct Hs as [(c & -> & Hchain) _ _ _ _ _ Hf]. subst bs. inversion Hchain as [|? ? ? ? ? ? ? ? ? ? ? Hnil]; [by rewrite app_nil_r|by destruct bs]. }
    rewrite <- Hheader_bytes. eapply triple_bind; [exact Htail|]. intros ?. by apply triple_ret.
Qed.

Lemma entry_known p name b P : (forall d, P d -> bool_decide (is_Some (entries (directory d p) !! name)) = b) -> triple P (entry_exists p name) (fun a d => a = b /\ P d) (fun _ => P) P.
Proof. intros H. unfold entry_exists. apply triple_read; auto. Qed.

Lemma recover_segment_triple bs content f junk : holds_blocks bs content f ->
  triple (settled id i (content ++ junk) f) (recover_segment_with_mode metadata protection instance Repair)
    (fun _ => trailing metadata key header i bs) (fun _ => trailing metadata key header i bs) (trailing metadata key header i bs).
Proof.
  intros Hs. set (P := settled id i (content ++ junk) f). assert (Hstart : forall d, P d -> trailing metadata key header i bs d) by (intros d Hd; exists content, f; split; [done|]; by exists junk, junk).
  assert (Hweak : forall A (m : Io LedgerFailure A) (Q : A -> Disk -> Prop), triple P m Q (fun _ => P) P -> triple P m Q (fun _ => trailing metadata key header i bs) (trailing metadata key header i bs)).
  { intros A m Q H. eapply triple_conseq; [..|exact H]; auto. }
  assert (Hsealed : forall kind d, P d -> bool_decide (is_Some (entries (directory d SealedPlace) !! (id, kind))) = false).
  { intros kind d Hd. apply bool_decide_false. cbn [directory]. destruct (ph_sealed _ _ _ _ _ _ _ Hd kind) as [-> _]. by intros [? ?]. }
  unfold recover_segment_with_mode. rewrite (hf_active _ _ _ _ _ Hheader). rewrite (bool_decide_true (SegmentActive = SegmentActive)), (bool_decide_false (SegmentActive = SegmentSealed)), (bool_decide_false (SegmentActive = SegmentRetired)) by done. cbn [andb orb].
  eapply triple_bind with (Q := fun _ => P).
  { unfold unlink. apply Hweak. eapply triple_bind; [apply triple_call with (Q := fun _ => P); auto; intros d Hd; by apply phase_unlinked|]. intros [|]; [|by apply triple_ret].
    unfold synchronize_directory. apply triple_call; auto. intros d Hd. by apply (phase_directory_synchronized _ _ _ _ f f). }
  intros u. eapply triple_bind; [apply Hweak, (entry_known _ _ true)|]. { intros d Hd. apply bool_decide_true. cbn [directory]. rewrite (ph_segment _ _ _ _ _ _ _ Hd). by eexists. }
  intros a. apply triple_pure. intros ->. eapply triple_bind; [apply Hweak, (entry_known _ _ false), Hsealed|]. intros a. apply triple_pure. intros ->. cbn [negb andb].
  eapply triple_bind; [apply triple_ret with (Q := fun a d => a = false /\ P d); auto|]. intros a. apply triple_pure. intros ->.
  eapply triple_bind; [apply triple_of with (Q := fun a d => a = (ActivePlace, true) /\ P d); [by intros a d [= <-]|done]|]. intros a. apply triple_pure. intros ->. cbv beta iota.
  eapply triple_bind; [apply Hweak, triple_reading; unfold entry_exists; reads|]. intros active. eapply triple_bind; [apply Hweak, (entry_known _ _ false), Hsealed|]. intros a. apply triple_pure. intros ->.
  eapply triple_bind; [apply triple_of with (Q := fun a d => a = ActivePlace /\ P d); [intros a d H Hd; destruct active; by injection H as <-|by destruct active]|]. intros a. apply triple_pure. intros ->.
  eapply triple_bind; [apply Hweak, (triple_known _ i P); [unfold open_regular; reads|unfold open_regular; steadily|]|].
  { intros d Hd. exists 1%nat, d. apply (completes_bind _ _ 1 0 _ (Some i) d); [apply completes_call; cbn [directory]; by rewrite (ph_segment _ _ _ _ _ _ _ Hd)|by apply completes_of]. }
  intros file. apply triple_pure. intros ->.
  eapply triple_bind; [apply Hweak, (triple_known _ (key, metadata, zlen header) P); [apply reading_open_segment|apply steady_open_segment|]|].
  { intros d Hd. destruct (so_chain _ _ _ _ _ _ _ Hs) as (c & Hc & _). exists 1%nat, d. apply (completes_open_segment protection instance metadata key header i d (c ++ junk) Hheader). rewrite app_assoc, <- Hc. apply (ph_file _ _ _ _ _ _ _ Hd). }
  intros opened. apply triple_pure. intros ->. cbv beta iota zeta. eapply triple_bind; [by apply recover_triple|]. intros state. eapply triple_bind; [apply triple_ret with (Q := fun _ => trailing metadata key header i bs); auto|]. intros ?. by apply triple_ret.
Qed.

(** Recovery that did not return, and the crash that followed, any number of times. *)
Inductive attempts (d : Disk) : Disk -> Prop :=
  | attempts_none : attempts d d
  | attempts_more w w' d' : attempts d (disk w) -> (recover_segment_with_mode metadata protection instance Repair w).1 = w' ->
      (forall a, (recover_segment_with_mode metadata protection instance Repair w).2 <> Returned a) -> crashes (disk w') d' -> attempts d d'.

Lemma attempts_crashed bs d d' : crashed bs d -> attempts d d' -> crashed bs d'.
Proof.
  intros Hd. induction 1 as [|w w' d' H IH Hw Hnot Hc]; [done|]. destruct IH as (content & f & junk & Hs & Hd'). pose proof (recover_segment_triple bs content f junk Hs w Hd') as Ht.
  apply (trailing_crashed bs (disk w')); [|done]. rewrite <- Hw. destruct (recover_segment_with_mode metadata protection instance Repair w) as [w1 [a|e|]]; [by destruct (Hnot a)|done|done].
Qed.

(** A recovery that returns, returns what an undisturbed one would. *)
Lemma crashed_returns bs w w' r : crashed bs (disk w) -> recover_segment_with_mode metadata protection instance Repair w = (w', Returned r) ->
  r = (key, mkRecoveryState (position_after (md_base metadata) (zlen bs)) bs) /\ durable metadata key header i bs (disk w').
Proof.
  intros Hd Hr. destruct (crashed_recovers bs _ Hd) as (n & d' & _ & Hdur & Hc). destruct (steady_recover_segment metadata protection instance Repair _ _ _ Hr) as [n' Hn']. by destruct (completes_unique _ _ _ _ _ _ _ _ Hn' Hc) as [-> ->].
Qed.
End interrupted.

Section restarting.
Context {B : CryptoBackend} {HB : CryptoLaws B}.

(** C2 (liveness). Recovery can be restarted. After the life of a segment as in the theorem above and a crash,
    recovery may be attempted any number of times, each attempt failing or stopping at any call and
    followed by a crash. There is one list of blocks, those that were acknowledged and at most one
    more, such that after any such attempts an undisturbed recovery returns these blocks within a
    bounded number of calls, and a disturbed one, if it returns, returns the same. *)
Theorem recovery_is_restartable protection instance metadata entropy w w1 key l capacity r requests d :
  well_formed_metadata metadata -> well_formed_route (pk_route protection) -> zlen entropy = 32 -> absent (md_id metadata) (disk w) ->
  create_active metadata protection instance entropy w = (w1, Returned key) ->
  al_current l = Some metadata -> al_key l = key ->
  rc_frontier r = md_base metadata -> rc_retained_bytes r = payload_bytes (rc_blocks r) -> Forall (fun b => lb_segment b <> md_id metadata) (rc_blocks r) ->
  Forall (fun request => well_formed_request request.1) requests ->
  crashes (disk (serve l (opened_state capacity r) requests w1).1) d ->
  exists new last, (length last <= 1)%nat /\ answered requests (serve l (opened_state capacity r) requests w1).2 (rc_blocks r) new /\
    let result := (key, mkRecoveryState (position_after (md_base metadata) (zlen (new ++ last))) (new ++ last)) in
    forall d', attempts protection instance metadata d d' ->
      (exists n d'', (n <= 17 + 2 * length (new ++ last))%nat /\ completes (recover_segment_with_mode metadata protection instance Repair) n d' result d'') /\
      (forall wr wr' result', disk wr = d' -> recover_segment_with_mode metadata protection instance Repair wr = (wr', Returned result') -> result' = result).
Proof.
  intros Hm Hroute Hentropy Habsent Hc Hcurrent Hkey Hfrontier Hbytes Hprior Hrequests Hcrash.
  destruct (life_survives _ _ _ _ _ _ _ _ capacity _ _ Hm Hroute Hentropy Habsent Hc Hcurrent Hkey Hfrontier Hbytes Hprior Hrequests) as (i & header & new & Hh & Hs & Hanswered).
  destruct (survives_crashed _ _ _ _ _ _ _ Hs Hcrash) as (last & Hlast & Hd). exists new, last. split_and!; [done|done|]. intros result d' Hd'. apply (attempts_crashed _ _ _ _ _ _ Hh _ _ _ Hd) in Hd'. split.
  - destruct (crashed_recovers _ _ _ _ _ _ Hh _ _ Hd') as (n & d'' & Hn & _ & Hcompletes). by exists n, d''.
  - intros wr wr' result' <- Hr. by destruct (crashed_returns _ _ _ _ _ _ Hh _ _ _ _ Hd' Hr).
Qed.
End restarting.

Section witness.
Import Scenario.
#[local] Existing Instance plain_backend.
#[local] Existing Instance plain_laws.

Lemma recovery_is_restartable_witness : exists new last, (length last <= 1)%nat /\ answered requests final.2 [] new /\
  let result := (key, mkRecoveryState (position_after (mkCommitPosition 5) (zlen (new ++ last))) (new ++ last)) in
  forall d', attempts protection instance metadata (lose (disk final.1)) d' ->
    (exists n d'', (n <= 17 + 2 * length (new ++ last))%nat /\ completes (recover_segment_with_mode metadata protection instance Repair) n d' result d'') /\
    (forall wr wr' result', disk wr = d' -> recover_segment_with_mode metadata protection instance Repair wr = (wr', Returned result') -> result' = result).
Proof.
  apply (recovery_is_restartable protection instance metadata entropy world created_world key ledger amounts_zero nothing_before requests).
  - exact metadata_ok.
  - exact route_ok.
  - reflexivity.
  - exact nothing_absent.
  - exact creation.
  - reflexivity.
  - reflexivity.
  - reflexivity.
  - reflexivity.
  - constructor.
  - repeat constructor; apply request_ok; discriminate.
  - apply lose_crashes.
Defined.
End witness.
