(* ===== verification/CatalogCodec.v ===== *)
(** Catalog: data and formats. Their theorems are in [CatalogRecords].

    Models of [positron-kernel/src/catalog] the types ([types.rs], [types]), the records and digests
    ([codec.rs]), the markers ([storage/marker.rs]), prepared commits ([preparation.rs]) and the
    budgets ([budget.rs]).

    Identities are byte strings. The objects of a snapshot are a map ordered by identity; the
    identities of a record increase strictly, so the map is the list in the order of the record.
    Memory for the vectors of a proposal is available. *)

From Stdlib Require Import Ascii String.
From stdpp Require Import gmap.
From S2P Require Import Prelude Outcome Identity Routing GovernorModel LedgerFrame LedgerFormat.

(** ** Failures *)

(** [positron-kernel/src/catalog/types/failure.rs:6-18 CatalogFailureCode] *)
Inductive CatalogFailureCode :=
  | CatInvalidInput | CatLimitExceeded | CatStaleGeneration | CatIdempotencyConflict | CatStorageUnavailable | CatIntegrityCorruption | CatAuthenticationFailed
  | CatConcurrentWriter | CatResourceAdmissionRefused | CatUnsupportedFormat.

#[global] Instance CatalogFailureCode_eq_dec : EqDecision CatalogFailureCode.
Proof. solve_decision. Defined.

(** [positron-kernel/src/catalog/types/failure.rs:20-25 CatalogFailure] *)
Record CatalogFailure := mkCatalogFailure { cf_code : CatalogFailureCode; cf_current : option bytes; cf_admission : option AdmissionFailure }.

(** [positron-kernel/src/catalog/types/failure.rs:28-34 CatalogFailure::new] *)
Definition CatalogFailure_new (code : CatalogFailureCode) : CatalogFailure := mkCatalogFailure code None None.
(** [positron-kernel/src/catalog/types/failure.rs:35-41 CatalogFailure::stale] *)
Definition CatalogFailure_stale (current : bytes) : CatalogFailure := mkCatalogFailure CatStaleGeneration (Some current) None.
(** [positron-kernel/src/catalog/types/failure.rs:42-48 CatalogFailure::admission] *)
Definition CatalogFailure_admission (failure : AdmissionFailure) : CatalogFailure := mkCatalogFailure CatResourceAdmissionRefused None (Some failure).

Abbreviation cat_fail code := (Err (CatalogFailure_new code)).
Abbreviation corruption := (CatalogFailure_new CatIntegrityCorruption).
Abbreviation cat_limit := (CatalogFailure_new CatLimitExceeded).

(** ** Identities *)

(** [positron-kernel/src/catalog/types.rs:19-22 MAX_CATALOG_OBJECTS!] *)
Definition MAX_CATALOG_OBJECTS : Z := 1024.
Definition MAX_CATALOG_OBJECT_BYTES : Z := 1048576.
Definition MAX_CATALOG_TOTAL_BYTES : Z := 16777216.
Definition MAX_AUDIT_INTENT_BYTES : Z := 65536.

(** [positron-kernel/src/catalog/types.rs:24-44 nonzero_id!] [InstanceId::new] and [TransactionId::new]. *)
Definition nonzero_id (b : bytes) : result CatalogFailure bytes := if zeros b then cat_fail CatInvalidInput else Ok b.

(** [positron-kernel/src/catalog/types.rs:62-63 ORIGIN!] *)
Definition ORIGIN : bytes := replicate 32 0.

(** [positron-kernel/src/catalog/types.rs:82-88 FormatEpoch::new] *)
Definition CatalogEpoch_new (value : Z) : result CatalogFailure Z := if value =? 0 then cat_fail CatInvalidInput else Ok value.
(** [positron-kernel/src/catalog/types.rs:95-97 FormatEpoch::is_catalog_readable] *)
Definition is_catalog_readable (epoch : Z) : bool := (epoch =? 1) || (epoch =? 2).
(** [positron-kernel/src/catalog/types.rs:99-101 FormatEpoch::is_catalog_writable] *)
Definition is_catalog_writable (epoch : Z) : bool := is_catalog_readable epoch.

(** [positron-kernel/src/catalog/types.rs:104-108 CatalogWrappingKey] *)
Record CatalogWrappingKey := mkWrappingKey { wk_key : bytes; wk_reference : bytes; wk_epoch : Z }.

(** [positron-kernel/src/catalog/types.rs:111-124 CatalogWrappingKey::from_owned_at_epoch] *)
Definition WrappingKey_from_owned_at_epoch (key reference : bytes) (epoch : Z) : result CatalogFailure CatalogWrappingKey :=
  if zeros reference || (epoch =? 0) then cat_fail CatInvalidInput else Ok (mkWrappingKey key reference epoch).

(** [positron-kernel/src/catalog/types.rs:126-129 CatalogWrappingKey::same_route] *)
Definition same_route (a b : CatalogWrappingKey) : bool := bytes_eqb (wk_reference a) (wk_reference b) && (wk_epoch a =? wk_epoch b).

(** [positron-kernel/src/catalog/types.rs:138-142 CatalogSecret] *)
Record CatalogSecret := mkCatalogSecret { cs_marker_key : bytes; cs_wrapping : CatalogWrappingKey; cs_predecessor : option CatalogWrappingKey }.

(** [positron-kernel/src/catalog/types.rs:147-158 CatalogSecret::from_owned] *)
Definition CatalogSecret_from_owned (marker wrapping : bytes) : CatalogSecret := mkCatalogSecret marker (mkWrappingKey wrapping (replicate 16 1) 1) None.

(** [positron-kernel/src/catalog/types.rs:160-175 CatalogSecret::from_owned_at_epoch] *)
Definition CatalogSecret_from_owned_at_epoch (marker wrapping reference : bytes) (epoch : Z) : result CatalogFailure CatalogSecret :=
  key ← WrappingKey_from_owned_at_epoch wrapping reference epoch;
  Ok (mkCatalogSecret marker key None).

(** [positron-kernel/src/catalog/types.rs:177-188 CatalogSecret::with_predecessor] *)
Definition with_predecessor (secret : CatalogSecret) (predecessor : CatalogWrappingKey) : result CatalogFailure CatalogSecret :=
  if (wk_epoch (cs_wrapping secret) <=? wk_epoch predecessor) || same_route predecessor (cs_wrapping secret) then cat_fail CatInvalidInput
  else Ok (mkCatalogSecret (cs_marker_key secret) (cs_wrapping secret) (Some predecessor)).

(** ** Objects and proposals *)

(** [positron-kernel/src/catalog/types.rs:228-231 CatalogObject] *)
Record CatalogObject := mkCatalogObject { co_identity : bytes; co_plaintext : bytes }.

(** [positron-kernel/src/catalog/types.rs:234-246 CatalogObject::new] *)
Definition CatalogObject_new {B : CryptoBackend} (plaintext : bytes) : result CatalogFailure CatalogObject :=
  if bool_decide (plaintext = []) || (MAX_CATALOG_OBJECT_BYTES <? zlen plaintext) then cat_fail CatLimitExceeded
  else Ok (mkCatalogObject (sha256 plaintext) plaintext).

(** [positron-kernel/src/catalog/types.rs:322-328 AuditIntent::new] *)
Definition AuditIntent_new (encoding : bytes) : result CatalogFailure bytes :=
  if bool_decide (encoding = []) || (MAX_AUDIT_INTENT_BYTES <? zlen encoding) then cat_fail CatLimitExceeded else Ok encoding.

(** [positron-kernel/src/catalog/types.rs:340-344 CatalogProposal] *)
Record CatalogProposal := mkProposal { pp_transaction : bytes; pp_epoch : Z; pp_objects : list CatalogObject }.

(** A stable sort by identity. *)
Fixpoint insert_object (o : CatalogObject) (sorted : list CatalogObject) : list CatalogObject :=
  match sorted with
  | [] => [o]
  | first :: rest => match lex_compare (co_identity o) (co_identity first) with Gt => first :: insert_object o rest | _ => o :: sorted end
  end.
Definition sort_objects (objects : list CatalogObject) : list CatalogObject := fold_right insert_object [] objects.

Fixpoint adjacent {A} (related : A -> A -> bool) (l : list A) : bool :=
  match l with a :: ((b :: _) as rest) => related a b || adjacent related rest | _ => false end.

(** [positron-kernel/src/catalog/types.rs:347-374 CatalogProposal::new] *)
Definition CatalogProposal_new (transaction : bytes) (epoch : Z) (objects : list CatalogObject) : result CatalogFailure CatalogProposal :=
  if bool_decide (objects = []) || (MAX_CATALOG_OBJECTS <? zlen objects) then cat_fail CatLimitExceeded else
  let total := fold_left (fun total o => total + zlen (co_plaintext o)) objects 0 in
  if MAX_CATALOG_TOTAL_BYTES <? total then cat_fail CatLimitExceeded else
  let sorted := sort_objects objects in
  if adjacent (fun a b => bytes_eqb (co_identity a) (co_identity b)) sorted then cat_fail CatInvalidInput else
  Ok (mkProposal transaction epoch sorted).

(** ** Records *)

(** [positron-kernel/src/catalog/types/snapshot.rs:73-77 AuditFrontier] *)
Record AuditFrontier := mkAuditFrontier { fr_position : Z; fr_hash : bytes }.
Definition AUDIT_ORIGIN : AuditFrontier := mkAuditFrontier 0 (replicate 32 0).

#[global] Instance AuditFrontier_eq_dec : EqDecision AuditFrontier.
Proof. solve_decision. Defined.

(** [positron-kernel/src/catalog/types.rs:388-395 GovernanceAuditRecord] *)
Record GovernanceAuditRecord := mkAuditRecord { ar_position : Z; ar_predecessor_hash : bytes; ar_hash : bytes; ar_transaction : bytes; ar_intent : bytes }.

#[global] Instance GovernanceAuditRecord_eq_dec : EqDecision GovernanceAuditRecord.
Proof. solve_decision. Defined.

(** [positron-kernel/src/catalog/codec.rs:22-34 CommitRecord] *)
Record CommitRecord := mkCommitRecord {
  cr_generation : bytes;
  cr_number : Z;
  cr_predecessor : bytes;
  cr_instance : bytes;
  cr_epoch : Z;
  cr_transaction : bytes;
  cr_transaction_digest : bytes;
  cr_object_set_digest : bytes;
  cr_audit : AuditFrontier;
  cr_objects : list bytes;
}.

#[global] Instance CommitRecord_eq_dec : EqDecision CommitRecord.
Proof. solve_decision. Defined.

(** [positron-kernel/src/catalog/types/snapshot.rs:10-16 SnapshotData] *)
Record CatalogSnapshot := mkSnapshot {
  sn_identity : bytes;
  sn_number : Z;
  sn_epoch : option Z;
  sn_objects : list (bytes * bytes);
  sn_audit : AuditFrontier;
}.

(** [positron-kernel/src/catalog/types/snapshot.rs:19-27 CatalogSnapshot::origin] *)
Definition CatalogSnapshot_origin : CatalogSnapshot := mkSnapshot ORIGIN 0 None [] AUDIT_ORIGIN.

(** [positron-kernel/src/catalog/codec.rs:241-252 snapshot_from_record] *)
Definition snapshot_from_record (record : CommitRecord) (objects : list (bytes * bytes)) : CatalogSnapshot :=
  mkSnapshot (cr_generation record) (cr_number record) (Some (cr_epoch record)) objects (cr_audit record).

(** ** Digests *)

Section codec.
Context {B : CryptoBackend}.

(** [positron-kernel/src/catalog/codec.rs:36-44 object_set_digest] *)
Definition object_set_digest (objects : list bytes) : bytes :=
  sha256 (bytes_of_string "positron-catalog-object-set-v1" ++ be_bytes 8 (zlen objects) ++ concat objects).

(** [positron-kernel/src/catalog/codec.rs:46-64 transaction_digest] *)
Definition transaction_digest (epoch : Z) (objects : list bytes) (audit : option bytes) : bytes :=
  sha256 (bytes_of_string "positron-catalog-transaction-v1" ++ be_bytes 4 epoch ++ object_set_digest objects
          ++ match audit with Some intent => 1 :: be_bytes 8 (zlen intent) ++ intent | None => [0] end).

(** [positron-kernel/src/catalog/codec.rs:89-103 audit_hash] *)
Definition audit_hash (position : Z) (predecessor_hash transaction intent : bytes) : bytes :=
  sha256 (bytes_of_string "positron-governance-audit-record-v1" ++ be_bytes 8 position ++ predecessor_hash ++ transaction ++ be_bytes 8 (zlen intent) ++ intent).

(** ** Decoding *)

(** [positron-kernel/src/catalog/codec.rs:263-270 Decoder::take] *)
Definition decoder_take (n : nat) (remaining : bytes) : result CatalogFailure (bytes * bytes) :=
  if (n <=? length remaining)%nat then Ok (take n remaining, drop n remaining) else Err corruption.

(** [positron-kernel/src/catalog/codec.rs:286-288 Decoder::u64] Also [u16] and [u32]. *)
Definition decoder_uint (n : nat) (remaining : bytes) : result CatalogFailure (Z * bytes) :=
  '(b, remaining) ← decoder_take n remaining;
  Ok (be_value b, remaining).

(** [positron-kernel/src/catalog/codec.rs:290-296 Decoder::finish] *)
Definition decoder_finish (remaining : bytes) : result CatalogFailure unit := if bool_decide (remaining = []) then Ok tt else Err corruption.

(** [positron-kernel/src/catalog/codec.rs:12-16 COMMIT_MAGIC!] *)
Definition COMMIT_MAGIC : bytes := bytes_of_string "PCOMV001".
Definition AUDIT_MAGIC : bytes := bytes_of_string "PAUDV001".
Definition CODEC_VERSION : Z := 1.

(** ** Audit records *)

(** [positron-kernel/src/catalog/codec.rs:105-117 encode_audit] *)
Definition encode_audit (record : GovernanceAuditRecord) : bytes :=
  AUDIT_MAGIC ++ be_bytes 2 CODEC_VERSION ++ be_bytes 8 (ar_position record) ++ ar_predecessor_hash record ++ ar_transaction record
  ++ be_bytes 4 (zlen (ar_intent record)) ++ ar_intent record ++ ar_hash record.

(** [positron-kernel/src/catalog/codec.rs:66-87 prepare_audit] *)
Definition prepare_audit (predecessor : AuditFrontier) (transaction intent : bytes) : result CatalogFailure (GovernanceAuditRecord * bytes) :=
  if bool_decide (intent = []) || (MAX_AUDIT_INTENT_BYTES <? zlen intent) then cat_fail CatLimitExceeded else
  position ← ok_or cat_limit (checked_add u64_max (fr_position predecessor) 1);
  let record := mkAuditRecord position (fr_hash predecessor) (audit_hash position (fr_hash predecessor) transaction intent) transaction intent in
  Ok (record, encode_audit record).

(** [positron-kernel/src/catalog/codec.rs:119-148 decode_audit] *)
Definition decode_audit (encoded : bytes) : result CatalogFailure GovernanceAuditRecord :=
  '(magic, rest) ← decoder_take 8 encoded;
  if negb (bytes_eqb magic AUDIT_MAGIC) then Err corruption else
  '(version, rest) ← decoder_uint 2 rest;
  if negb (version =? CODEC_VERSION) then Err corruption else
  '(position, rest) ← decoder_uint 8 rest;
  if position =? 0 then Err corruption else
  '(predecessor_hash, rest) ← decoder_take 32 rest;
  '(id, rest) ← decoder_take 16 rest;
  transaction ← map_err (fun _ => corruption) (nonzero_id id);
  '(intent_length, rest) ← decoder_uint 4 rest;
  if (intent_length =? 0) || (MAX_AUDIT_INTENT_BYTES <? intent_length) then Err cat_limit else
  '(intent, rest) ← decoder_take (Z.to_nat intent_length) rest;
  '(stored_hash, rest) ← decoder_take 32 rest;
  _ ← decoder_finish rest;
  if negb (bytes_eqb stored_hash (audit_hash position predecessor_hash transaction intent)) then Err corruption else
  Ok (mkAuditRecord position predecessor_hash stored_hash transaction intent).

(** ** Commit records *)

(** [positron-kernel/src/catalog/codec.rs:150-169 encode_commit] *)
Definition encode_commit (record : CommitRecord) : bytes :=
  COMMIT_MAGIC ++ be_bytes 2 CODEC_VERSION ++ be_bytes 8 (cr_number record) ++ cr_predecessor record ++ cr_instance record ++ be_bytes 4 (cr_epoch record)
  ++ cr_transaction record ++ cr_transaction_digest record ++ cr_object_set_digest record ++ be_bytes 8 (fr_position (cr_audit record)) ++ fr_hash (cr_audit record)
  ++ be_bytes 4 (zlen (cr_objects record)) ++ concat (cr_objects record).

Fixpoint decode_objects (n : nat) (remaining : bytes) : result CatalogFailure (list bytes * bytes) :=
  match n with
  | O => Ok ([], remaining)
  | Datatypes.S n =>
      '(id, remaining) ← decoder_take 32 remaining;
      '(ids, remaining) ← decode_objects n remaining;
      Ok (id :: ids, remaining)
  end.

(** [positron-kernel/src/catalog/codec.rs:230-234 generation_identity] *)
Definition generation_identity (encoded_commit : bytes) : bytes := sha256 encoded_commit.

(** [positron-kernel/src/catalog/codec.rs:171-228 decode_commit] *)
Definition decode_commit (generation encoded : bytes) : result CatalogFailure CommitRecord :=
  if negb (bytes_eqb (sha256 encoded) generation) then Err corruption else
  '(magic, rest) ← decoder_take 8 encoded;
  if negb (bytes_eqb magic COMMIT_MAGIC) then Err corruption else
  '(version, rest) ← decoder_uint 2 rest;
  if negb (version =? CODEC_VERSION) then Err corruption else
  '(number, rest) ← decoder_uint 8 rest;
  if number =? 0 then Err corruption else
  '(predecessor, rest) ← decoder_take 32 rest;
  '(id, rest) ← decoder_take 16 rest;
  instance ← map_err (fun _ => corruption) (nonzero_id id);
  '(value, rest) ← decoder_uint 4 rest;
  epoch ← map_err (fun _ => corruption) (CatalogEpoch_new value);
  '(id, rest) ← decoder_take 16 rest;
  transaction ← map_err (fun _ => corruption) (nonzero_id id);
  '(digest, rest) ← decoder_take 32 rest;
  '(stored_object_set_digest, rest) ← decoder_take 32 rest;
  '(position, rest) ← decoder_uint 8 rest;
  '(hash, rest) ← decoder_take 32 rest;
  '(object_count, rest) ← decoder_uint 4 rest;
  if (object_count =? 0) || (MAX_CATALOG_OBJECTS <? object_count) then Err cat_limit else
  '(objects, rest) ← decode_objects (Z.to_nat object_count) rest;
  _ ← decoder_finish rest;
  if adjacent (fun first second => match lex_compare first second with Lt => false | _ => true end) objects || negb (bytes_eqb (object_set_digest objects) stored_object_set_digest)
  then Err corruption else
  Ok (mkCommitRecord generation number predecessor instance epoch transaction digest stored_object_set_digest (mkAuditFrontier position hash) objects).

(** ** Markers *)

(** [positron-kernel/src/catalog/storage/marker.rs:5-8 MARKER_MAGIC!] *)
Definition MARKER_MAGIC : bytes := bytes_of_string "PMARK01" ++ [0].
Definition MARKER_VERSION : Z := 1.
Definition MARKER_BYTES : Z := 82.
Definition MARKER_MAC_DOMAIN : bytes := bytes_of_string "positron-catalog-marker-v1".

(** [positron-kernel/src/catalog/storage/marker.rs:71-77 hmac] *)
Definition marker_hmac (secret : CatalogSecret) (payload : bytes) : result CatalogFailure bytes :=
  map_err (fun _ => CatalogFailure_new CatAuthenticationFailed) (hmac_sha256 (cs_marker_key secret) (MARKER_MAC_DOMAIN ++ payload)).

(** [positron-kernel/src/catalog/storage/marker.rs:10-25 encode_marker] *)
Definition encode_marker (secret : CatalogSecret) (number : Z) (generation : bytes) : result CatalogFailure bytes :=
  let marker := MARKER_MAGIC ++ be_bytes 2 MARKER_VERSION ++ be_bytes 8 number ++ generation in
  mac ← marker_hmac secret marker;
  if zlen (marker ++ mac) =? MARKER_BYTES then Ok (marker ++ mac) else Err corruption.

(** [positron-kernel/src/catalog/storage/marker.rs:78-83 MarkerDecode] *)
Inductive MarkerDecode := MarkerPublished (number : Z) (generation : bytes) | MarkerAuthenticationFailed | MarkerCorrupt | MarkerUnsupported.

(** [positron-kernel/src/data_protection/service.rs:85-94 DataProtection::verify_authentication] The comparison is in
    constant time; it accepts equal codes only. *)
Definition verify_authentication (key b expected : bytes) : bool := match hmac_sha256 key b with Ok mac => bytes_eqb mac expected | Err _ => false end.

(** [positron-kernel/src/catalog/storage/marker.rs:27-69 decode_marker] The five chunks and nothing after them are
    the 82 bytes of a marker. *)
Definition decode_marker (secret : CatalogSecret) (encoded : bytes) : MarkerDecode :=
  if negb (zlen encoded =? MARKER_BYTES) || negb (bytes_eqb (take 8 encoded) MARKER_MAGIC) then MarkerCorrupt else
  if negb (bytes_eqb (take 2 (drop 8 encoded)) (be_bytes 2 MARKER_VERSION)) then MarkerUnsupported else
  let number := be_value (take 8 (drop 10 encoded)) in
  let generation := take 32 (drop 18 encoded) in
  if negb (verify_authentication (cs_marker_key secret) (MARKER_MAC_DOMAIN ++ take 50 encoded) (drop 50 encoded)) then MarkerAuthenticationFailed else
  if (number =? 0) || bytes_eqb generation ORIGIN then MarkerCorrupt else
  MarkerPublished number generation.

(** ** Prepared commits *)

(** [positron-kernel/src/catalog/preparation.rs:6-8 PREPARED_MAGIC!] *)
Definition PREPARED_MAGIC : bytes := bytes_of_string "PPRE0001".
Definition PREPARED_VERSION : Z := 1.
Definition MAX_PREPARED_BYTES : Z := 400000.

(** [positron-kernel/src/catalog/preparation.rs:12-19 PreparedCommit] *)
Record PreparedCommit := mkPreparedCommit {
  pc_request_digest : bytes;
  pc_record : CommitRecord;
  pc_encoded_commit : bytes;
  pc_audit : GovernanceAuditRecord;
  pc_encoded_audit : bytes;
}.

(** [positron-kernel/src/catalog/preparation.rs:92-110 PreparedCommit::validate] *)
Definition prepared_validate (p : PreparedCommit) : result CatalogFailure unit :=
  decoded_commit ← decode_commit (cr_generation (pc_record p)) (pc_encoded_commit p);
  decoded_audit ← decode_audit (pc_encoded_audit p);
  if negb (bool_decide (decoded_commit = pc_record p)) || negb (bool_decide (decoded_audit = pc_audit p))
     || negb (bytes_eqb (cr_transaction (pc_record p)) (ar_transaction (pc_audit p)))
     || negb (fr_position (cr_audit (pc_record p)) =? ar_position (pc_audit p)) || negb (bytes_eqb (fr_hash (cr_audit (pc_record p))) (ar_hash (pc_audit p)))
     || negb (bytes_eqb (generation_identity (pc_encoded_commit p)) (cr_generation (pc_record p)))
     || negb (bytes_eqb (transaction_digest (cr_epoch (pc_record p)) (cr_objects (pc_record p)) (Some (ar_intent (pc_audit p)))) (cr_transaction_digest (pc_record p)))
  then Err corruption else Ok tt.

(** [positron-kernel/src/catalog/preparation.rs:22-38 PreparedCommit::new] *)
Definition PreparedCommit_new (request_digest : bytes) (record : CommitRecord) (encoded_commit : bytes) (audit : GovernanceAuditRecord) (encoded_audit : bytes) : result CatalogFailure PreparedCommit :=
  let prepared := mkPreparedCommit request_digest record encoded_commit audit encoded_audit in
  _ ← prepared_validate prepared;
  Ok prepared.

(** [positron-kernel/src/catalog/preparation.rs:40-69 PreparedCommit::encode] *)
Definition prepared_encode (p : PreparedCommit) : result CatalogFailure bytes :=
  _ ← prepared_validate p;
  let capacity := 8 + 2 + 32 + 4 + zlen (pc_encoded_commit p) + 4 + zlen (pc_encoded_audit p) in
  if (usize_max <? capacity) || (MAX_PREPARED_BYTES <? capacity) then Err cat_limit else
  if (u32_max <? zlen (pc_encoded_commit p)) || (u32_max <? zlen (pc_encoded_audit p)) then Err cat_limit else
  Ok (PREPARED_MAGIC ++ be_bytes 2 PREPARED_VERSION ++ pc_request_digest p ++ be_bytes 4 (zlen (pc_encoded_commit p)) ++ pc_encoded_commit p
      ++ be_bytes 4 (zlen (pc_encoded_audit p)) ++ pc_encoded_audit p).

(** [positron-kernel/src/catalog/preparation.rs:148-155 Decoder::length_prefixed] *)
Definition length_prefixed (remaining : bytes) : result CatalogFailure (bytes * bytes) :=
  '(length, remaining) ← decoder_uint 4 remaining;
  if (length =? 0) || (MAX_PREPARED_BYTES <? length) then Err corruption else
  decoder_take (Z.to_nat length) remaining.

(** [positron-kernel/src/catalog/preparation.rs:71-90 PreparedCommit::decode] *)
Definition prepared_decode (encoded : bytes) : result CatalogFailure PreparedCommit :=
  if MAX_PREPARED_BYTES <? zlen encoded then Err cat_limit else
  '(magic, rest) ← decoder_take 8 encoded;
  if negb (bytes_eqb magic PREPARED_MAGIC) then Err corruption else
  '(version, rest) ← decoder_uint 2 rest;
  if negb (version =? PREPARED_VERSION) then cat_fail CatUnsupportedFormat else
  '(request_digest, rest) ← decoder_take 32 rest;
  '(encoded_commit, rest) ← length_prefixed rest;
  '(encoded_audit, rest) ← length_prefixed rest;
  _ ← decoder_finish rest;
  record ← decode_commit (generation_identity encoded_commit) encoded_commit;
  audit ← decode_audit encoded_audit;
  PreparedCommit_new request_digest record encoded_commit audit encoded_audit.
End codec.

(** ** Budgets *)

(** [positron-kernel/src/catalog/mod.rs:89-94 MAX_RECOVERED_AUDIT_BYTES!] *)
Definition MAX_RECOVERED_AUDIT_BYTES : Z := 16777216.
Definition MAX_RETAINED_HISTORY_BYTES : Z := 16777216.
Definition MAX_RECOVERY_MEMORY_BYTES : Z := 70000000.
Definition MAX_RECOVERY_ITEMS : Z := 65540.
(** [positron-kernel/src/catalog/storage/mod.rs:52-61 FRAME_OVERHEAD_BYTES!] *)
Definition FRAME_OVERHEAD_BYTES : Z := 315.
Definition MAX_COMMIT_FRAME_BYTES : Z := 262144.
Definition MAX_AUDIT_FRAME_BYTES : Z := 102 + MAX_AUDIT_INTENT_BYTES + FRAME_OVERHEAD_BYTES.
Definition MAX_AUDIT_CHECKPOINT_FRAME_BYTES : Z := 512 + FRAME_OVERHEAD_BYTES.
Definition PREPARED_IDENTITY_BYTES : Z := 32.
Definition MAX_PREPARED_FRAME_BYTES : Z := PREPARED_IDENTITY_BYTES + MAX_PREPARED_BYTES + FRAME_OVERHEAD_BYTES.
Definition MAX_GENERATIONS : Z := 65536.
Definition MAX_GENERATION_DIRECTORY_NAME_BYTES : Z := MAX_GENERATIONS * 128.

(** [positron-kernel/src/catalog/budget.rs:8-12 retained_artifact_bytes] *)
Definition retained_artifact_bytes (plaintext_bytes : Z) : result CatalogFailure Z := ok_or cat_limit (checked_add usize_max plaintext_bytes FRAME_OVERHEAD_BYTES).

(** [positron-kernel/src/catalog/budget.rs:14-28 reserve_history] *)
Definition reserve_history (retained additional generation_number : Z) : result CatalogFailure Z :=
  if MAX_GENERATIONS <? generation_number then Err cat_limit else
  total ← ok_or cat_limit (checked_add usize_max retained additional);
  if total <=? MAX_RETAINED_HISTORY_BYTES then Ok total else Err cat_limit.

(** [positron-kernel/src/catalog/budget.rs:30-44 recovery_resource_claim] *)
Definition recovery_resource_claim : ResourceAmounts := mkAmounts MAX_RECOVERY_MEMORY_BYTES 1 1 MAX_RECOVERY_MEMORY_BYTES MAX_RECOVERY_ITEMS 0 1 1 1 8 0.

(** [positron-kernel/src/catalog/budget.rs:47-50 audit_checkpoint_resource_claim] *)
Definition audit_checkpoint_resource_claim : ResourceAmounts := maximum (mkAmounts 1048576 1 1 1048576 4 0 1 1 1 4 16384) recovery_resource_claim.

(** [positron-kernel/src/catalog/budget.rs:52-95 commit_resource_claim] *)
Definition commit_resource_claim (proposal : CatalogProposal) (audit : option bytes) : result CatalogFailure ResourceAmounts :=
  object_bytes ← ok_or cat_limit (fold_left (fun total o => t ← total; checked_add usize_max t (zlen (co_plaintext o))) (pp_objects proposal) (Some 0));
  artifact_count ← ok_or cat_limit (count ← checked_add usize_max (zlen (pp_objects proposal)) 2; checked_add usize_max count (match audit with Some _ => 1 | None => 0 end));
  durable_bytes ← ok_or cat_limit (b ← checked_add usize_max object_bytes (match audit with Some intent => zlen intent | None => 0 end);
                                   checked_add usize_max b (saturating_mul usize_max artifact_count 512));
  memory_bytes ← ok_or cat_limit (b ← checked_mul usize_max durable_bytes 2; checked_add usize_max b 1048576);
  Ok (maximum (mkAmounts memory_bytes 1 1 memory_bytes artifact_count 0 1 1 1 8 durable_bytes) recovery_resource_claim).
