(* ===== verification/CatalogRecords.v ===== *)
(** Catalog: theorems on its records.

    Of the formats of [CatalogCodec]: what preparing an audit record, encoding a commit, publishing a
    marker and writing a prepared commit put down is what reading them returns. *)

From Stdlib Require Import Ascii String.
From stdpp Require Import gmap.
From S2P Require Import Prelude Outcome Identity Routing GovernorModel LogBlocks LedgerFrame LedgerFormat Traversal LedgerSafety CatalogCodec.

Section records.
Context {B : CryptoBackend} {laws : CryptoLaws B}.

Lemma sha256_hash b : length (sha256 b) = 32%nat.
Proof. pose proof (sha256_length b) as H. unfold zlen in H. lia. Qed.

Lemma decoder_take_app n (a rest : bytes) : length a = n -> decoder_take n (a ++ rest) = Ok (a, rest).
Proof. intros <-. unfold decoder_take. rewrite (proj2 (Nat.leb_le _ _)) by (rewrite length_app; lia). by rewrite take_app_length, drop_app_length. Qed.

Lemma decoder_uint_app n v rest : 0 <= v < 256 ^ Z.of_nat n -> decoder_uint n (be_bytes n v ++ rest) = Ok (v, rest).
Proof. intros Hv. unfold decoder_uint. rewrite decoder_take_app by apply length_be_bytes. cbn [mbind result_bind]. by rewrite be_value_be_bytes. Qed.

Lemma decoder_take_all n (a : bytes) : length a = n -> decoder_take n a = Ok (a, []).
Proof. intros Hn. rewrite <- (app_nil_r a) at 1. by apply decoder_take_app. Qed.

Lemma finished : decoder_finish [] = Ok tt.
Proof. done. Qed.

(** What the fields of a record hold. *)
Definition hash_ok (b : bytes) : Prop := length b = 32%nat.
Definition identity_ok (b : bytes) : Prop := length b = 16%nat /\ zeros b = false.
Definition u64_ok (v : Z) : Prop := 0 <= v <= u64_max.

Lemma u64_ok_pow v : u64_ok v -> 0 <= v < 256 ^ Z.of_nat 8.
Proof. unfold u64_ok, u64_max. change (256 ^ Z.of_nat 8) with (2 ^ 64). lia. Qed.

Lemma nonzero_id_ok b : identity_ok b -> map_err (fun _ => corruption) (nonzero_id b) = Ok b.
Proof. intros [_ Hz]. unfold nonzero_id. by rewrite Hz. Qed.

Ltac take_field := rewrite decoder_take_app by assumption; cbn [mbind result_bind].
Ltac uint_field := rewrite decoder_uint_app by (try apply u64_ok_pow; first [assumption | unfold CODEC_VERSION; done]); cbn [mbind result_bind].

(** The audit record that a transaction prepares is read back. *)
Lemma prepared_audit_decodes predecessor transaction intent record encoded : hash_ok (fr_hash predecessor) -> 0 <= fr_position predecessor -> identity_ok transaction ->
  prepare_audit predecessor transaction intent = Ok (record, encoded) -> decode_audit encoded = Ok record /\ ar_position record = fr_position predecessor + 1 /\ ar_predecessor_hash record = fr_hash predecessor /\ ar_intent record = intent.
Proof.
  intros Hhash Hposition Htransaction H. unfold prepare_audit in H. destruct (bool_decide_reflect (intent = [])) as [|Hne]; [done|]. cbn [orb] in H. destruct (Z.ltb_spec MAX_AUDIT_INTENT_BYTES (zlen intent)) as [|Hlen]; [done|].
  unfold checked_add in H. destruct (Z.leb_spec (fr_position predecessor + 1) u64_max) as [Hmax|]; [|done]. cbn [ok_or mbind result_bind] in H. injection H as <- <-. split_and!; try done.
  unfold encode_audit, decode_audit. cbn [ar_position ar_predecessor_hash ar_transaction ar_intent ar_hash]. set (hash := audit_hash _ _ _ _). assert (Hout : length hash = 32%nat) by apply sha256_hash. set (position := fr_position predecessor + 1) in *.
  assert (Hp : u64_ok position) by (unfold u64_ok; lia). assert (Hintent : 0 < zlen intent) by (destruct intent; [done|unfold zlen; cbn [length]; lia]). unfold MAX_AUDIT_INTENT_BYTES in *.
  assert (Hl : 0 <= zlen intent < 256 ^ Z.of_nat 4) by (change (256 ^ Z.of_nat 4) with 4294967296; lia). pose proof Htransaction as [Htl _].
  rewrite (decoder_take_app 8) by done. cbn [mbind result_bind]. rewrite bytes_eqb_refl. cbn [negb]. uint_field. rewrite Z.eqb_refl. cbn [negb]. uint_field. rewrite (proj2 (Z.eqb_neq position 0)) by lia. take_field. take_field. rewrite nonzero_id_ok by done. cbn [mbind result_bind]. uint_field.
  rewrite (proj2 (Z.eqb_neq (zlen intent) 0)), (proj2 (Z.ltb_ge _ _)) by lia. cbn [orb]. rewrite (decoder_take_app (Z.to_nat (zlen intent))) by (unfold zlen; lia). cbn [mbind result_bind].
  rewrite decoder_take_all by done. cbn [mbind result_bind]. rewrite finished. cbn [mbind result_bind]. subst hash. by rewrite bytes_eqb_refl.
Qed.
(** A commit record is read back under the identity of its encoding. *)
Record commit_ok (record : CommitRecord) : Prop := {
  ck_number : 0 < cr_number record <= u64_max;
  ck_predecessor : hash_ok (cr_predecessor record);
  ck_instance : identity_ok (cr_instance record);
  ck_epoch : 0 < cr_epoch record <= u32_max;
  ck_transaction : identity_ok (cr_transaction record);
  ck_transaction_digest : hash_ok (cr_transaction_digest record);
  ck_position : u64_ok (fr_position (cr_audit record));
  ck_hash : hash_ok (fr_hash (cr_audit record));
  ck_count : 0 < zlen (cr_objects record) <= MAX_CATALOG_OBJECTS;
  ck_objects : Forall hash_ok (cr_objects record);
  ck_increasing : adjacent (fun first second => match lex_compare first second with Lt => false | _ => true end) (cr_objects record) = false;
  ck_digest : cr_object_set_digest record = object_set_digest (cr_objects record);
}.

Lemma decode_objects_concat objects : Forall hash_ok objects -> decode_objects (length objects) (concat objects) = Ok (objects, []).
Proof. induction 1 as [|o rest Ho _ IH]; [done|]. cbn [length concat decode_objects]. rewrite decoder_take_app by done. cbn [mbind result_bind]. by rewrite IH. Qed.

Lemma commit_decodes record : commit_ok record ->
  decode_commit (generation_identity (encode_commit record)) (encode_commit record)
  = Ok (mkCommitRecord (generation_identity (encode_commit record)) (cr_number record) (cr_predecessor record) (cr_instance record) (cr_epoch record) (cr_transaction record)
          (cr_transaction_digest record) (cr_object_set_digest record) (cr_audit record) (cr_objects record)).
Proof.
  intros []. unfold decode_commit at 1. unfold generation_identity at 1. rewrite bytes_eqb_refl. cbn [negb]. set (generation := generation_identity _). unfold encode_commit.
  destruct ck_instance0 as [Hi Hi'], ck_transaction0 as [Ht Ht']. unfold MAX_CATALOG_OBJECTS, u32_max in *. assert (Hn : u64_ok (cr_number record)) by (unfold u64_ok; lia).
  assert (Hset : hash_ok (cr_object_set_digest record)) by (rewrite ck_digest0; apply sha256_hash). assert (He : 0 <= cr_epoch record < 256 ^ Z.of_nat 4) by (change (256 ^ Z.of_nat 4) with 4294967296; lia).
  assert (Hc : 0 <= zlen (cr_objects record) < 256 ^ Z.of_nat 4) by (change (256 ^ Z.of_nat 4) with 4294967296; lia).
  rewrite (decoder_take_app 8) by done. cbn [mbind result_bind]. rewrite bytes_eqb_refl. cbn [negb]. uint_field. rewrite Z.eqb_refl. cbn [negb]. uint_field. rewrite (proj2 (Z.eqb_neq (cr_number record) 0)) by lia. take_field. take_field. rewrite nonzero_id_ok by done. cbn [mbind result_bind].
  uint_field. unfold CatalogEpoch_new. rewrite (proj2 (Z.eqb_neq (cr_epoch record) 0)) by lia. cbn [map_err mbind result_bind]. take_field. rewrite nonzero_id_ok by done. cbn [mbind result_bind]. take_field. take_field. uint_field. take_field. uint_field.
  rewrite (proj2 (Z.eqb_neq (zlen _) 0)), (proj2 (Z.ltb_ge _ _)) by lia. cbn [orb]. replace (Z.to_nat (zlen (cr_objects record))) with (length (cr_objects record)) by (unfold zlen; lia). rewrite decode_objects_concat by done. cbn [mbind result_bind]. rewrite finished. cbn [mbind result_bind].
  rewrite ck_increasing0, <- ck_digest0, bytes_eqb_refl. cbn [orb negb]. by destruct (cr_audit record).
Qed.

(** A published marker is read back under the same secret. *)
Lemma marker_decodes secret number generation encoded : 0 < number <= u64_max -> hash_ok generation -> generation <> ORIGIN ->
  encode_marker secret number generation = Ok encoded -> decode_marker secret encoded = MarkerPublished number generation.
Proof.
  intros Hn Hg Hne H. unfold encode_marker, marker_hmac in H. set (marker := MARKER_MAGIC ++ be_bytes 2 MARKER_VERSION ++ be_bytes 8 number ++ generation) in *.
  destruct (hmac_sha256 _ _) as [mac|] eqn:Hmac; [|done]. cbn [map_err mbind result_bind] in H. destruct (Z.eqb_spec (zlen (marker ++ mac)) MARKER_BYTES) as [Hlen|]; [|done]. assert (encoded = marker ++ mac) as -> by congruence. clear H.
  assert (Hm : length marker = 50%nat) by (subst marker; rewrite !length_app, !length_be_bytes, Hg; done). unfold decode_marker. rewrite Hlen, Z.eqb_refl. cbn [negb orb].
  rewrite (take_app_length' marker mac 50), (drop_app_length' marker mac 50) by done. unfold verify_authentication. rewrite Hmac, bytes_eqb_refl.
  assert (Hs : marker ++ mac = MARKER_MAGIC ++ be_bytes 2 MARKER_VERSION ++ be_bytes 8 number ++ generation ++ mac) by (subst marker; by rewrite <- !app_assoc). rewrite Hs.
  cbn [negb]. rewrite (bytes_eqb_refl mac). rewrite (drop_app_length' MARKER_MAGIC _ 8) by done. rewrite (take_app_length' (be_bytes 2 MARKER_VERSION) _ 2), bytes_eqb_refl by done. cbn [negb].
  rewrite (app_assoc MARKER_MAGIC), (drop_app_length' (MARKER_MAGIC ++ _) _ 10), (take_app_length' (be_bytes 8 number) _ 8) by (try apply length_be_bytes; done).
  rewrite (app_assoc (MARKER_MAGIC ++ _)), (drop_app_length' (_ ++ be_bytes 8 number) _ 18), (take_app_length' generation _ 32) by (try done; rewrite !length_app, !length_be_bytes; done).
  rewrite be_value_be_bytes by (apply u64_ok_pow; unfold u64_ok; lia). rewrite (proj2 (Z.eqb_neq number 0)) by lia. cbn [orb]. destruct (bytes_eqb generation ORIGIN) eqn:Ho; [by apply bytes_eqb_true in Ho|done].
Qed.

(** A prepared commit that was encoded is read back. *)
Lemma decoded_audit_nonempty a : decode_audit [] = Ok a -> False.
Proof. done. Qed.

Lemma decoded_commit_nonempty generation record : decode_commit generation [] = Ok record -> False.
Proof. unfold decode_commit. by destruct (negb _). Qed.

Lemma decoded_commit_identity generation encoded record : decode_commit generation encoded = Ok record -> generation_identity encoded = generation.
Proof. unfold decode_commit. destruct (bytes_eqb (sha256 encoded) generation) eqn:He; [|done]. intros _. by apply bytes_eqb_true. Qed.

Lemma length_prefixed_app (b rest : bytes) : b <> [] -> zlen b <= MAX_PREPARED_BYTES -> length_prefixed (be_bytes 4 (zlen b) ++ b ++ rest) = Ok (b, rest).
Proof.
  intros Hne Hl. assert (Hpos : 0 < zlen b) by (destruct b; [done|unfold zlen; cbn [length]; lia]). unfold length_prefixed, MAX_PREPARED_BYTES in *. rewrite decoder_uint_app by (change (256 ^ Z.of_nat 4) with 4294967296; lia). cbn [mbind result_bind].
  rewrite (proj2 (Z.eqb_neq _ _)), (proj2 (Z.ltb_ge _ _)) by lia. cbn [orb]. apply decoder_take_app. unfold zlen. lia.
Qed.

Lemma prepared_decodes p encoded : hash_ok (pc_request_digest p) -> prepared_encode p = Ok encoded -> prepared_decode encoded = Ok p.
Proof.
  intros Hr H. unfold prepared_encode in H. destruct (prepared_validate p) as [[]|] eqn:Hvalid; [|done]. cbn [mbind result_bind] in H. cbv zeta in H.
  set (capacity := 8 + 2 + 32 + 4 + zlen (pc_encoded_commit p) + 4 + zlen (pc_encoded_audit p)) in H. destruct (usize_max <? capacity); [done|]. destruct (Z.ltb_spec MAX_PREPARED_BYTES capacity) as [|Hcap]; [done|]. cbn [orb] in H. destruct (_ || _); [done|]. match type of H with Ok ?x = _ => assert (x = encoded) as <- by congruence end. clear H.
  pose proof Hvalid as Hv. unfold prepared_validate in Hv. destruct (decode_commit _ _) as [commit|] eqn:Hcommit; [|done]. destruct (decode_audit _) as [audit|] eqn:Haudit; [|done]. cbn [mbind result_bind] in Hv.
  destruct (bool_decide_reflect (commit = pc_record p)) as [->|]; [|done]. destruct (bool_decide_reflect (audit = pc_audit p)) as [->|]; [|done]. clear Hv. unfold MAX_PREPARED_BYTES in Hcap. subst capacity.
  assert (Hc : pc_encoded_commit p <> []) by (intros Hnil; rewrite Hnil in Hcommit; by apply decoded_commit_nonempty in Hcommit). assert (Ha : pc_encoded_audit p <> []) by (intros Hnil; rewrite Hnil in Haudit; by apply decoded_audit_nonempty in Haudit).
  assert (Hzc : 0 <= zlen (pc_encoded_commit p)) by (unfold zlen; lia). assert (Hza : 0 <= zlen (pc_encoded_audit p)) by (unfold zlen; lia).
  unfold prepared_decode. rewrite (proj2 (Z.ltb_ge _ _)) by (unfold MAX_PREPARED_BYTES, zlen, hash_ok in *; rewrite !length_app, !length_be_bytes, Hr; change (length PREPARED_MAGIC) with 8%nat; lia).
  rewrite (decoder_take_app 8) by done. cbn [mbind result_bind]. rewrite bytes_eqb_refl. cbn [negb]. rewrite decoder_uint_app by done. cbn [mbind result_bind]. rewrite Z.eqb_refl. cbn [negb]. take_field.
  rewrite length_prefixed_app by (unfold MAX_PREPARED_BYTES; done || lia). cbn [mbind result_bind]. rewrite <- (app_nil_r (pc_encoded_audit p)) at 2. rewrite length_prefixed_app by (unfold MAX_PREPARED_BYTES; done || lia). cbn [mbind result_bind]. rewrite finished. cbn [mbind result_bind].
  rewrite (decoded_commit_identity _ _ _ Hcommit), Hcommit, Haudit. cbn [mbind result_bind]. unfold PreparedCommit_new. cbv zeta. assert (Hp : mkPreparedCommit (pc_request_digest p) (pc_record p) (pc_encoded_commit p) (pc_audit p) (pc_encoded_audit p) = p) by (by destruct p). by rewrite Hp, Hvalid.
Qed.
End records.

(** C35 (roundtrip). What the catalog puts down is what it reads back: the audit record that a transaction prepares decodes to itself, one position
    after its predecessor's frontier and chained to its hash; a commit record decodes, under the identity of its encoding, to itself
    with that identity; a marker decodes, under the secret that authenticated it, to the generation it publishes; a prepared commit that was
    encoded decodes to itself, its commit and audit records included. *)
Theorem catalog_records_are_read_back {B : CryptoBackend} {laws : CryptoLaws B} :
  (forall predecessor transaction intent record encoded, hash_ok (fr_hash predecessor) -> 0 <= fr_position predecessor -> identity_ok transaction -> prepare_audit predecessor transaction intent = Ok (record, encoded) ->
     decode_audit encoded = Ok record /\ ar_position record = fr_position predecessor + 1 /\ ar_predecessor_hash record = fr_hash predecessor /\ ar_intent record = intent)
  /\ (forall record, commit_ok record ->
        decode_commit (generation_identity (encode_commit record)) (encode_commit record)
        = Ok (mkCommitRecord (generation_identity (encode_commit record)) (cr_number record) (cr_predecessor record) (cr_instance record) (cr_epoch record) (cr_transaction record)
                (cr_transaction_digest record) (cr_object_set_digest record) (cr_audit record) (cr_objects record)))
  /\ (forall secret number generation encoded, 0 < number <= u64_max -> hash_ok generation -> generation <> ORIGIN ->
        encode_marker secret number generation = Ok encoded -> decode_marker secret encoded = MarkerPublished number generation)
  /\ (forall p encoded, hash_ok (pc_request_digest p) -> prepared_encode p = Ok encoded -> prepared_decode encoded = Ok p).
Proof. split_and!; [apply prepared_audit_decodes|apply commit_decodes|apply marker_decodes|apply prepared_decodes]. Qed.

(** A transaction of one object, prepared after the origin, under a backend that keeps the laws. *)
Module Sample.
#[local] Existing Instance Scenario.plain_backend.
Definition transaction : bytes := replicate 16 4.
Definition audit : GovernanceAuditRecord := mkAuditRecord 1 (replicate 32 0) (replicate 32 7) transaction (bytes_of_string "change").
Definition record : CommitRecord :=
  let objects := [replicate 32 1; replicate 32 2] in
  mkCommitRecord (replicate 32 7) 1 ORIGIN (replicate 16 6) 2 transaction (transaction_digest 2 objects (Some (bytes_of_string "change"))) (object_set_digest objects) (mkAuditFrontier 1 (replicate 32 7)) objects.
Definition prepared : PreparedCommit := mkPreparedCommit (replicate 32 5) record (encode_commit record) audit (encode_audit audit).
End Sample.

Lemma catalog_records_are_read_back_witness :
  decode_commit (B := Scenario.plain_backend) (replicate 32 7) (encode_commit Sample.record) = Ok Sample.record
  /\ exists encoded, prepared_encode (B := Scenario.plain_backend) Sample.prepared = Ok encoded /\ prepared_decode (B := Scenario.plain_backend) encoded = Ok Sample.prepared.
Proof.
  destruct (@catalog_records_are_read_back Scenario.plain_backend Scenario.plain_laws) as (_ & Hcommit & _ & Hprepared). split.
  - apply (Hcommit Sample.record). constructor; cbn; unfold u64_ok, u64_max, u32_max, hash_ok, identity_ok; try done; repeat constructor.
  - eexists. split; [vm_compute; reflexivity|]. apply Hprepared; [done|vm_compute; reflexivity].
Defined.
