(* ===== verification/GovernanceObject.v ===== *)
(** Catalog: the governance object.

    Models [positron-kernel/src/catalog/governance_object.rs] and its [codec.rs]: the versioned record of the
    primary tenant, its decoding, and the successors that administration derives from it by editing
    the encoded bytes. The theorems are in [GovernanceLayout]. *)

From Stdlib Require Import Ascii String.
From stdpp Require Import gmap.
From S2P Require Import Prelude Outcome Identity TenantLifecycle Routing Limits Values Observe Traversal PolicyModel PolicyCodec LedgerFrame LedgerFormat CatalogCodec.

(** ** Records *)

(** [positron-kernel/src/catalog/governance_object.rs:20-30 CatalogGovernanceVersion] *)
Inductive CatalogGovernanceVersion := V1 | V2 | V3 | V4 | V5 | V6 | V7 | V8.

#[global] Instance CatalogGovernanceVersion_eq_dec : EqDecision CatalogGovernanceVersion.
Proof. solve_decision. Defined.

Definition version_number (v : CatalogGovernanceVersion) : Z := match v with V1 => 1 | V2 => 2 | V3 => 3 | V4 => 4 | V5 => 5 | V6 => 6 | V7 => 7 | V8 => 8 end.
(** [matches!] of a version and every later one. *)
Definition since (n : Z) (v : CatalogGovernanceVersion) : bool := n <=? version_number v.

(** [positron-kernel/src/catalog/governance_object.rs:9-18 MAGIC_V1!] *)
Definition governance_magic (v : CatalogGovernanceVersion) : bytes := bytes_of_string "POSGOV0" ++ [48 + version_number v].
Definition MAX_CREDENTIALS : Z := 128.
Definition MAX_RETENTION_SECONDS : Z := i64_max / 1000000000.

(** [positron-kernel/src/catalog/governance_object.rs:32-37 CredentialRecord] *)
Record CredentialRecord := mkCredentialRecord { cd_principal : PrincipalId; cd_salt : bytes; cd_hash : bytes }.

(** [positron-kernel/src/catalog/governance_object.rs:40-48 CatalogCredential] *)
Record CatalogCredential := mkCatalogCredential {
  cc_principal : PrincipalId;
  cc_scope : Z;
  cc_active : bool;
  cc_expires : option Z;
  cc_salt : bytes;
  cc_hash : bytes;
}.

(** [positron-kernel/src/catalog/governance_object.rs:51-73 CatalogCredential::new] *)
Definition CatalogCredential_new (principal : PrincipalId) (scope : Z) (active : bool) (expires : option Z) (salt hash : bytes) : result CatalogFailure CatalogCredential :=
  if negb ((1 <=? scope) && (scope <=? 4)) || zeros salt || zeros hash then Err corruption else Ok (mkCatalogCredential principal scope active expires salt hash).

(** [positron-kernel/src/catalog/governance_object.rs:105-138 CatalogGovernanceObject] *)
Record CatalogGovernanceObject := mkGovernance {
  go_version : CatalogGovernanceVersion;
  go_instance : bytes;
  go_tenant : TenantId;
  go_slug : TenantSlug;
  go_alias : option ExternalTenantAlias;
  go_display_name : bytes;
  go_principal : PrincipalId;
  go_salt : bytes;
  go_hash : bytes;
  go_ingest : option CredentialRecord;
  go_query : option CredentialRecord;
  go_retention_seconds : Z;
  go_retention_offset : nat;
  go_quota_generation : Z;
  go_quota_weight : Z;
  go_quota_resources : list Z;
  go_quota_offset : nat;
  go_public_key : bytes;
  go_fingerprint : bytes;
  go_protected_key : bytes;
  go_key_envelope : bytes;
  go_lifecycle : TenantLifecycleState;
  go_lifecycle_generation : Z;
  go_display_generation : Z;
  go_retention_generation : Z;
  go_alias_generation : Z;
  go_credentials : list CatalogCredential;
  go_credential_generation : Z;
  go_credential_prefix : bytes;
}.

(** ** The cursor *)

Definition Cursor (A : Type) : Type := bytes -> result CatalogFailure (A * bytes).
#[global] Instance Cursor_ret : MRet Cursor := fun A a s => Ok (a, s).
#[global] Instance Cursor_bind : MBind Cursor := fun A X k m s => match m s with Ok (a, s) => k a s | Err e => Err e end.
Definition cursor_of {A} (r : result CatalogFailure A) : Cursor A := fun s => match r with Ok a => Ok (a, s) | Err e => Err e end.
Definition corrupt {A} : Cursor A := fun _ => Err corruption.

(** [positron-kernel/src/catalog/governance_object/codec.rs:504-508 Cursor::take_array] *)
Definition take_array (n : nat) : Cursor bytes := decoder_take n.
(** [positron-kernel/src/catalog/governance_object/codec.rs:522-524 Cursor::take_u64] Also the narrower integers. *)
Definition take_uint (n : nat) : Cursor Z := b ← take_array n; mret (be_value b).

(** [positron-kernel/src/catalog/governance_object/codec.rs:526-537 Cursor::take_text_u8] *)
Definition take_text_u8 (maximum : Z) : Cursor bytes :=
  length ← take_uint 1;
  if maximum <? length then corrupt else
  value ← take_array (Z.to_nat length);
  if utf8_valid value then mret value else corrupt.

(** [positron-kernel/src/catalog/governance_object/codec.rs:483-489 require_nonzero] *)
Definition require_nonzero (b : bytes) : Cursor unit := if zeros b then corrupt else mret tt.

Definition take_principal : Cursor PrincipalId := b ← take_array 16; cursor_of (map_err (fun _ => corruption) (PrincipalId_from_bytes b)).

(** [positron-kernel/src/catalog/governance_object/codec.rs:539-550 Cursor::take_credential] *)
Definition take_credential : Cursor CredentialRecord :=
  principal ← take_principal;
  salt ← take_array 32;
  hash ← take_array 32;
  _ ← require_nonzero salt;
  _ ← require_nonzero hash;
  mret (mkCredentialRecord principal salt hash).

(** [positron-kernel/src/catalog/governance_object/codec.rs:552-563 Cursor::take_u16_bytes] *)
Definition take_u16_bytes : Cursor bytes :=
  length ← take_uint 2;
  if length =? 0 then corrupt else take_array (Z.to_nat length).

(** [positron-kernel/src/catalog/governance_object/codec.rs:412-420 take_optional_credential] *)
Definition take_optional_credential : Cursor (option CredentialRecord) :=
  tag ← take_uint 1;
  if tag =? 0 then mret None else if tag =? 1 then c ← take_credential; mret (Some c) else corrupt.

Definition remaining_length : Cursor nat := fun s => Ok (length s, s).
(** A generation that is present, or one. *)
Definition take_generation (present : bool) : Cursor Z := if present then g ← take_uint 8; if g =? 0 then corrupt else mret g else mret 1.

(** ** Decoding *)

Definition starts_with (prefix b : bytes) : bool := bytes_eqb (take (length prefix) b) prefix.
(** [positron-kernel/src/catalog/governance_object/codec.rs:462-471 is_governance] *)
Definition is_governance (b : bytes) : bool := existsb (fun v => starts_with (governance_magic v) b) [V1; V2; V3; V4; V5; V6; V7; V8].

(** [positron-kernel/src/catalog/governance_object/codec.rs:473-481 lifecycle_code] *)
Definition lifecycle_code (l : TenantLifecycleState) : Z := match l with Active => 1 | ReadOnly => 2 | Suspended => 3 | Purging => 4 | Purged => 5 end.
Definition all_lifecycles : list TenantLifecycleState := [Active; ReadOnly; Suspended; Purging; Purged].

(** [positron-kernel/src/catalog/governance_object/codec.rs:324-357 legacy_credentials] *)
Definition legacy_credentials (principal : PrincipalId) (salt hash : bytes) (ingest query : option CredentialRecord) : result CatalogFailure (list CatalogCredential) :=
  let scoped scope c := CatalogCredential_new (cd_principal c) scope true None (cd_salt c) (cd_hash c) in
  first ← CatalogCredential_new principal 4 true None salt hash;
  second ← match ingest with Some c => c ← scoped 1 c; Ok [c] | None => Ok [] end;
  third ← match query with Some c => c ← scoped 2 c; Ok [c] | None => Ok [] end;
  Ok (first :: second ++ third).

(** [slice::get] of one byte. *)
Definition byte_at (b : bytes) (i : nat) : result CatalogFailure nat := ok_or corruption (Z.to_nat <$> b !! i).
Definition slice_at (b : bytes) (start stop : nat) : result CatalogFailure bytes := if (start <=? stop)%nat then ok_or corruption (get_slice b start stop) else Err corruption.

(** [get_mut] of a range and [copy_from_slice] into it. *)
Definition splice (b : bytes) (at_ : nat) (x : bytes) : result CatalogFailure bytes :=
  if (at_ + length x <=? length b)%nat then Ok (take at_ b ++ x ++ drop (at_ + length x) b) else Err corruption.
Definition checked_sub_nat (a b : nat) : result CatalogFailure nat := if (b <=? a)%nat then Ok (a - b)%nat else Err corruption.

(** [positron-kernel/src/catalog/governance_object/codec.rs:359-410 legacy_v5_prefix] Offsets do not overflow. *)
Definition legacy_v5_prefix (encoded : bytes) (version : CatalogGovernanceVersion) : result CatalogFailure bytes :=
  if bool_decide (version = V4) then splice encoded 0 (governance_magic V5) else
  slug_length ← byte_at encoded 40;
  let common_end := (41 + slug_length)%nat in
  display_length ← byte_at encoded common_end;
  let primary_end := (common_end + 1 + display_length + 80)%nat in
  if (length encoded <? primary_end)%nat then Err corruption else
  common ← slice_at encoded 8 common_end;
  primary ← slice_at encoded common_end primary_end;
  let credential (present : bool) at_ := if present then c ← slice_at encoded at_ (at_ + 80); Ok (1 :: c, (at_ + 80)%nat) else Ok ([0], at_) in
  '(ingest, legacy_offset) ← credential (bool_decide (version = V2) || bool_decide (version = V3)) primary_end;
  '(query, legacy_offset) ← credential (bool_decide (version = V3)) legacy_offset;
  rest ← ok_or corruption (get_from encoded legacy_offset);
  Ok (governance_magic V5 ++ common ++ [0] ++ primary ++ ingest ++ query ++ rest).

(** The version that the magic names. *)
Definition take_version : Cursor CatalogGovernanceVersion :=
  magic ← take_array 8;
  match find (fun v => bytes_eqb magic (governance_magic v)) [V1; V2; V3; V4; V5; V6; V7; V8] with Some v => mret v | None => corrupt end.

(** The alias, and whether the base credentials are optional. *)
Definition take_alias (version : CatalogGovernanceVersion) : Cursor (option ExternalTenantAlias * bool) :=
  let alias := text ← take_text_u8 128; a ← cursor_of (map_err (fun _ => corruption) (ExternalTenantAlias_parse text)); mret (Some a, false) in
  if since 5 version then tag ← take_uint 1; if tag =? 1 then alias else if tag =? 0 then mret (None, true) else corrupt
  else if bool_decide (version = V4) then tag ← take_uint 1; if tag =? 1 then alias else corrupt
  else mret (None, false).

Fixpoint take_resources (n : nat) : Cursor (list Z) :=
  match n with
  | O => mret []
  | Datatypes.S n => r ← take_uint 8; if r =? 0 then corrupt else rest ← take_resources n; mret (r :: rest)
  end.

Definition take_lifecycle : Cursor TenantLifecycleState :=
  code ← take_array 5;
  match find (fun l => bytes_eqb code [lifecycle_code l; 4; 0; 1; 1]) all_lifecycles with Some l => mret l | None => corrupt end.

(** One credential of the set. *)
Definition take_catalog_credential : Cursor CatalogCredential :=
  principal ← take_principal;
  scope ← take_uint 1;
  if negb ((1 <=? scope) && (scope <=? 4)) then corrupt else
  tag ← take_uint 1;
  active ← (if tag =? 0 then mret false else if tag =? 1 then mret true else corrupt);
  value ← take_uint 8;
  let expires := if value =? 0 then None else Some value in
  salt ← take_array 32;
  hash ← take_array 32;
  _ ← require_nonzero salt;
  _ ← require_nonzero hash;
  mret (mkCatalogCredential principal scope active expires salt hash).

Fixpoint take_credentials (n : nat) (found : list CatalogCredential) : Cursor (list CatalogCredential) :=
  match n with
  | O => mret found
  | Datatypes.S n =>
      credential ← take_catalog_credential;
      if existsb (fun c => bool_decide (cc_principal c = cc_principal credential)) found then corrupt else
      take_credentials n (found ++ [credential])
  end.

Definition administrators (credentials : list CatalogCredential) : Z := zlen (filter (fun c => cc_scope c = 4) credentials).

(** The credentials of the versions that store a set of them. *)
Definition take_credential_set : Cursor (list CatalogCredential) :=
  count ← take_uint 2;
  if negb ((1 <=? count) && (count <=? MAX_CREDENTIALS)) then corrupt else
  credentials ← take_credentials (Z.to_nat count) [];
  if administrators credentials =? 1 then mret credentials else corrupt.

(** [positron-kernel/src/catalog/governance_object/codec.rs:5-322 decode] *)
Definition governance_decode_from (encoded : bytes) : Cursor CatalogGovernanceObject :=
  version ← take_version;
  instance ← take_array 16;
  _ ← require_nonzero instance;
  id ← take_array 16;
  tenant ← cursor_of (map_err (fun _ => corruption) (TenantId_from_bytes id));
  text ← take_text_u8 63;
  slug ← cursor_of (map_err (fun _ => corruption) (TenantSlug_parse_canonical text));
  '(alias, optional_base_credentials) ← take_alias version;
  display_name ← take_text_u8 128;
  if bool_decide (display_name = []) then corrupt else
  principal ← take_principal;
  salt ← take_array 32;
  hash ← take_array 32;
  _ ← require_nonzero salt;
  _ ← require_nonzero hash;
  ingest ← (if (optional_base_credentials : bool) then take_optional_credential else if since 2 version then c ← take_credential; mret (Some c) else mret None);
  if match ingest with Some c => bool_decide (cd_principal c = principal) | None => false end then corrupt else
  query ← (if (optional_base_credentials : bool) then take_optional_credential else if since 3 version then c ← take_credential; mret (Some c) else mret None);
  if match query with
     | Some c => bool_decide (cd_principal c = principal) || match ingest with Some i => bool_decide (cd_principal i = cd_principal c) | None => false end
     | None => false
     end then corrupt else
  public_key ← take_array 32;
  fingerprint ← take_array 32;
  _ ← require_nonzero public_key;
  _ ← require_nonzero fingerprint;
  protected_key ← take_u16_bytes;
  key_envelope ← take_u16_bytes;
  left ← remaining_length;
  let retention_offset := (length encoded - left)%nat in
  retention_seconds ← take_uint 8;
  left ← remaining_length;
  let quota_offset := (length encoded - left)%nat in
  quota_generation ← take_uint 8;
  quota_weight ← take_uint 4;
  if (retention_seconds =? 0) || (quota_generation =? 0) || (quota_weight =? 0) then corrupt else
  quota_resources ← take_resources 11;
  lifecycle ← take_lifecycle;
  lifecycle_generation ← take_generation (since 6 version);
  display_generation ← take_generation (since 7 version);
  retention_generation ← take_generation (since 7 version);
  alias_generation ← take_generation (since 8 version);
  left ← remaining_length;
  prefix ← cursor_of (if since 5 version then ok_or corruption (get_slice encoded 0 (length encoded - left)) else legacy_v5_prefix encoded version);
  credential_generation ← take_generation (since 5 version);
  credentials ← (if since 5 version then take_credential_set else cursor_of (legacy_credentials principal salt hash ingest query));
  left ← remaining_length;
  if negb (left =? 0)%nat then corrupt else
  mret (mkGovernance version instance tenant slug alias display_name principal salt hash ingest query retention_seconds retention_offset quota_generation quota_weight
    quota_resources quota_offset public_key fingerprint protected_key key_envelope lifecycle lifecycle_generation display_generation retention_generation alias_generation
    credentials credential_generation prefix).

(** [positron-kernel/src/catalog/governance_object.rs:143-145 CatalogGovernanceObject::decode] *)
Definition governance_decode (encoded : bytes) : result CatalogFailure CatalogGovernanceObject :=
  '(object, _) ← governance_decode_from encoded encoded;
  Ok object.

(** ** Successors *)

Definition encode_credential (c : CatalogCredential) : bytes :=
  principal_id_bytes (cc_principal c) ++ [cc_scope c] ++ [if cc_active c then 1 else 0] ++ be_bytes 8 (match cc_expires c with Some e => e | None => 0 end) ++ cc_salt c ++ cc_hash c.

(** [positron-kernel/src/catalog/governance_object/codec.rs:422-460 encode_credentials] The size does not overflow. *)
Definition encode_credentials (prefix : bytes) (generation : Z) (credentials : list CatalogCredential) : result CatalogFailure bytes :=
  if u16_max <? zlen credentials then Err corruption else
  Ok (prefix ++ be_bytes 8 generation ++ be_bytes 2 (zlen credentials) ++ concat (map encode_credential credentials)).

(** Whether a principal occurs twice. *)
Fixpoint repeated (credentials : list CatalogCredential) : bool :=
  match credentials with
  | [] => false
  | c :: rest => existsb (fun later => bool_decide (cc_principal later = cc_principal c)) rest || repeated rest
  end.

(** [positron-kernel/src/catalog/governance_object.rs:288-358 CatalogGovernanceObject::with_credentials] *)
Definition with_credentials (g : CatalogGovernanceObject) (generation : Z) (credentials : list CatalogCredential) : result CatalogFailure bytes :=
  if (generation =? 0) || negb ((1 <=? zlen credentials) && (zlen credentials <=? MAX_CREDENTIALS)) then Err corruption else
  if negb (administrators credentials =? 1) || repeated credentials then Err corruption else
  prefix ← (if since 6 (go_version g) then Ok (go_credential_prefix g)
            else p ← splice (go_credential_prefix g) 0 (governance_magic V6); Ok (p ++ be_bytes 8 (go_lifecycle_generation g)));
  encode_credentials prefix generation credentials.

(** [positron-kernel/src/catalog/governance_object.rs:361-434 CatalogGovernanceObject::with_lifecycle] *)
Definition with_lifecycle (g : CatalogGovernanceObject) (lifecycle : TenantLifecycleState) (lifecycle_generation : Z) : result CatalogFailure bytes :=
  if lifecycle_generation =? 0 then Err corruption else
  let prefix := go_credential_prefix g in
  let lifecycle_end := length prefix in
  prefix ←
    (if bool_decide (go_version g = V6) || bool_decide (go_version g = V7) then
       generation_start ← checked_sub_nat lifecycle_end (if bool_decide (go_version g = V7) then 24 else 8);
       prefix ← splice prefix generation_start (be_bytes 8 lifecycle_generation);
       state_start ← checked_sub_nat generation_start 5;
       splice prefix state_start [lifecycle_code lifecycle]
     else
       prefix ← splice prefix 0 (governance_magic V6);
       state_start ← checked_sub_nat lifecycle_end 5;
       splice (prefix ++ be_bytes 8 lifecycle_generation) state_start [lifecycle_code lifecycle]);
  encode_credentials prefix (go_credential_generation g) (go_credentials g).

(** [positron-kernel/src/catalog/governance_object.rs:437-469 CatalogGovernanceObject::with_quota] *)
Definition with_quota (g : CatalogGovernanceObject) (quota_generation quota_weight : Z) (quota_resources : list Z) : result CatalogFailure bytes :=
  if (quota_generation =? 0) || (quota_weight =? 0) || (u16_max <? quota_weight) || existsb (fun r => r =? 0) quota_resources then Err corruption else
  prefix ← splice (go_credential_prefix g) (go_quota_offset g) (be_bytes 8 quota_generation);
  prefix ← splice prefix (go_quota_offset g + 8) (be_bytes 4 quota_weight);
  prefix ← splice prefix (go_quota_offset g + 12) (concat (map (be_bytes 8) quota_resources));
  encode_credentials prefix (go_credential_generation g) (go_credentials g).

(** [positron-kernel/src/catalog/governance_object.rs:635-673 append_or_replace_profile_generations] *)
Definition append_or_replace_profile_generations (prefix : bytes) (version : CatalogGovernanceVersion) (display_generation retention_generation : Z) : result CatalogFailure bytes :=
  if (display_generation =? 0) || (retention_generation =? 0) then Err corruption else
  let replace back :=
    display_at ← checked_sub_nat (length prefix) (back + 16);
    prefix ← splice prefix display_at (be_bytes 8 display_generation);
    splice prefix (display_at + 8) (be_bytes 8 retention_generation) in
  match version with
  | V7 => replace 0%nat
  | V8 => replace 8%nat
  | _ => prefix ← splice prefix 0 (governance_magic V7); Ok (prefix ++ be_bytes 8 display_generation ++ be_bytes 8 retention_generation)
  end.

(** [positron-kernel/src/catalog/governance_object.rs:589-632 CatalogGovernanceObject::display_successor_prefix] *)
Definition display_successor_prefix (g : CatalogGovernanceObject) (display_name : bytes) : result CatalogFailure bytes :=
  let prefix := go_credential_prefix g in
  slug_length ← byte_at prefix 40;
  let alias_at := (41 + slug_length)%nat in
  tag ← byte_at prefix alias_at;
  display_length_at ← match tag with
    | 0%nat => Ok (alias_at + 1)%nat
    | 1%nat => alias_length ← byte_at prefix (alias_at + 1); Ok (alias_at + 2 + alias_length)%nat
    | _ => Err corruption
    end;
  display_length ← byte_at prefix display_length_at;
  let display_end := (display_length_at + 1 + display_length)%nat in
  _ ← checked_sub_nat (length prefix) display_length;
  before ← slice_at prefix 8 display_length_at;
  if u8_max <? zlen display_name then Err corruption else
  after ← ok_or corruption (get_from prefix display_end);
  Ok (governance_magic (if bool_decide (go_version g = V8) then V8 else V7) ++ before ++ [zlen display_name] ++ display_name ++ after).

(** [positron-kernel/src/catalog/governance_object.rs:473-489 CatalogGovernanceObject::with_display_name] *)
Definition with_display_name (g : CatalogGovernanceObject) (display_name : bytes) (display_generation : Z) : result CatalogFailure bytes :=
  if bool_decide (display_name = []) || (128 <? zlen display_name) || (display_generation =? 0) then Err corruption else
  prefix ← display_successor_prefix g display_name;
  prefix ← append_or_replace_profile_generations prefix (go_version g) display_generation (go_retention_generation g);
  encode_credentials prefix (go_credential_generation g) (go_credentials g).

(** [positron-kernel/src/catalog/governance_object.rs:493-526 CatalogGovernanceObject::with_retention_seconds] *)
Definition with_retention_seconds (g : CatalogGovernanceObject) (retention_seconds retention_generation : Z) : result CatalogFailure bytes :=
  if (retention_seconds =? 0) || (MAX_RETENTION_SECONDS <? retention_seconds) || (retention_generation =? 0) then Err corruption else
  let retention_offset := (go_retention_offset g + (if since 4 (go_version g) then 0 else 1))%nat in
  prefix ← splice (go_credential_prefix g) retention_offset (be_bytes 8 retention_seconds);
  prefix ← append_or_replace_profile_generations prefix (go_version g) (go_display_generation g) retention_generation;
  encode_credentials prefix (go_credential_generation g) (go_credentials g).

(** [positron-kernel/src/catalog/governance_object.rs:532-587 CatalogGovernanceObject::with_external_tenant_alias] *)
Definition with_external_tenant_alias (g : CatalogGovernanceObject) (alias : ExternalTenantAlias) (alias_generation : Z) : result CatalogFailure bytes :=
  if (alias_generation =? 0) || negb (since 7 (go_version g)) then Err corruption else
  let prefix := go_credential_prefix g in
  slug_length ← byte_at prefix 40;
  let alias_at := (41 + slug_length)%nat in
  tag ← byte_at prefix alias_at;
  old_alias_end ← match tag with
    | 1%nat => length ← byte_at prefix (alias_at + 1); Ok (alias_at + 2 + length)%nat
    | _ => Err corruption
    end;
  suffix_end ← (if bool_decide (go_version g = V8) then checked_sub_nat (length prefix) 8 else Ok (length prefix));
  let text := alias_text alias in
  before ← slice_at prefix 8 alias_at;
  if u8_max <? zlen text then Err corruption else
  after ← slice_at prefix old_alias_end suffix_end;
  encode_credentials (governance_magic V8 ++ before ++ [1; zlen text] ++ text ++ after ++ be_bytes 8 alias_generation) (go_credential_generation g) (go_credentials g).

(** ** Evidence from a snapshot *)

(** [positron-kernel/src/catalog/governance_object.rs:709-723 CatalogSnapshot::governance_object] *)
Definition governance_object (snapshot : CatalogSnapshot) : result CatalogFailure (bytes * CatalogGovernanceObject) :=
  found ← fold_left (fun found '(identity, b) =>
    found ← found;
    if negb (is_governance b) then Ok found else
    if match found with Some _ => true | None => false end then Err corruption else
    object ← governance_decode b;
    Ok (Some (identity, object))) (sn_objects snapshot) (Ok None);
  ok_or (CatalogFailure_new CatStaleGeneration) found.

(** [positron-kernel/src/catalog/governance_object.rs:676-683 CatalogLogRetentionPolicy] *)
Record CatalogLogRetentionPolicy := mkLogRetentionPolicy { rp_instance : bytes; rp_tenant : TenantId; rp_signal : SignalKind; rp_retention_seconds : Z; rp_object : bytes }.

(** [positron-kernel/src/catalog/governance_object.rs:731-760 CatalogSnapshot::retention_policy] Both kinds of signal
    are implemented ones. *)
Definition signal_retention_policy (snapshot : CatalogSnapshot) (signal : SignalKind) : result CatalogFailure CatalogLogRetentionPolicy :=
  '(object, governance) ← governance_object snapshot;
  if negb (since 3 (go_version governance)) then cat_fail CatUnsupportedFormat else
  if (go_retention_seconds governance =? 0) || (MAX_RETENTION_SECONDS <? go_retention_seconds governance) then cat_fail CatInvalidInput else
  instance ← nonzero_id (go_instance governance);
  Ok (mkLogRetentionPolicy instance (go_tenant governance) signal (go_retention_seconds governance) object).
