(* ===== verification/GovernanceLayout.v ===== *)
(** Catalog: the layout of governance objects and of their successors.

    A decoded object of the versions five to eight is exactly its [layout]; every layout of a well
    formed object decodes to it; the successors of the versions six to eight are layouts, except for
    the lifecycle of the eighth. Scenarios show the successors of older versions that do not decode. *)

From Stdlib Require Import Ascii String.
From stdpp Require Import gmap.
From S2P Require Import Prelude Outcome Identity TenantLifecycle Routing Limits Values Observe Traversal PolicyModel PolicyCodec LedgerFrame LedgerFormat CatalogCodec GovernanceObject.

(** ** Reading and writing *)

(** What the cursor reads is what [enc] writes, for the values in [ok] and no others. *)
Record codec {A} (m : Cursor A) (enc : A -> bytes) (ok : A -> Prop) : Prop := {
  cd_reads : forall a rest, ok a -> m (enc a ++ rest) = Ok (a, rest);
  cd_writes : forall s a rest, bytes_ok s -> m s = Ok (a, rest) -> s = enc a ++ rest /\ ok a /\ bytes_ok rest;
}.

Lemma be_bytes_be_value l : bytes_ok l -> be_bytes (length l) (be_value l) = l.
Proof.
  induction 1 as [|b l Hb Hl IH]; [done|]. cbn [length]. change (be_bytes (S (length l)) (be_value (b :: l))) with ((be_value (b :: l) / 256 ^ Z.of_nat (length l)) mod 256 :: be_bytes (length l) (be_value (b :: l))).
  pose proof (be_value_bounds l Hl). assert (0 < 256 ^ Z.of_nat (length l)) by (apply Z.pow_pos_nonneg; lia). rewrite be_value_cons. f_equal.
  - rewrite Z.add_comm, Z.div_add by lia. rewrite Z.div_small by lia. rewrite Z.mod_small; [lia|]. unfold byte_ok in Hb. lia.
  - rewrite <- be_bytes_mod, Z.add_comm, Z.mod_add, Z.mod_small, IH by lia. done.
Qed.

Section codecs.

Lemma cursor_step {A X} (m : Cursor A) (k : A -> Cursor X) s a s' : m s = Ok (a, s') -> (m ≫= k) s = k a s'.
Proof. intros H. unfold mbind, Cursor_bind. by rewrite H. Qed.

Lemma cursor_bind_Ok {A X} (m : Cursor A) (k : A -> Cursor X) s x r : (m ≫= k) s = Ok (x, r) -> exists a s', m s = Ok (a, s') /\ k a s' = Ok (x, r).
Proof. unfold mbind, Cursor_bind. destruct (m s) as [[a s']|]; [|done]. intros H. by exists a, s'. Qed.

Lemma codec_take n : codec (take_array n) (fun b => b) (fun b => length b = n).
Proof.
  unfold take_array, decoder_take. constructor.
  - intros b rest <-. rewrite (proj2 (Nat.leb_le _ _)) by (rewrite length_app; lia). by rewrite take_app_length, drop_app_length.
  - intros s b rest Hs. destruct (Nat.leb_spec n (length s)); [|done]. intros [= <- <-]. rewrite take_drop. split_and!; [done|rewrite length_take; lia|by apply Forall_drop].
Qed.

Lemma codec_uint n : codec (take_uint n) (be_bytes n) (fun v => 0 <= v < 256 ^ Z.of_nat n).
Proof.
  constructor.
  - intros v rest Hv. unfold take_uint. erewrite cursor_step by (apply (cd_reads _ _ _ (codec_take n)), length_be_bytes). unfold mret, Cursor_ret. by rewrite be_value_be_bytes.
  - intros s v rest Hs H. apply cursor_bind_Ok in H as (b & s' & Hb & H). apply (cd_writes _ _ _ (codec_take n)) in Hb as (-> & Hlen & Hs'); [|done]. injection H as <- <-.
    apply Forall_app in Hs as [Hb _]. subst n. pose proof (be_value_bounds b Hb). by rewrite be_bytes_be_value.
Qed.

Lemma be_bytes_byte v : 0 <= v < 256 -> be_bytes 1 v = [v].
Proof. intros H. change (be_bytes 1 v) with [(v / 1) mod 256]. by rewrite Z.div_1_r, Z.mod_small. Qed.

(** A step of a decoder, a test of it, and the end. *)
Lemma codec_bind {A X} (m : Cursor A) (k : A -> Cursor X) enc ok enc' ok' (part : X -> A) :
  codec m enc ok -> (forall x, ok' x -> ok (part x)) -> (forall a, ok a -> codec (k a) enc' (fun x => ok' x /\ part x = a)) -> codec (m ≫= k) (fun x => enc (part x) ++ enc' x) ok'.
Proof.
  intros Hm Hok Hk. constructor.
  - intros x rest Hx. rewrite <- app_assoc. erewrite cursor_step by (apply (cd_reads _ _ _ Hm); auto). apply (cd_reads _ _ _ (Hk (part x) (Hok x Hx))). done.
  - intros s x rest Hs H. apply cursor_bind_Ok in H as (a & s' & Ha & H). apply (cd_writes _ _ _ Hm) in Ha as (-> & Ha & Hs'); [|done]. apply (cd_writes _ _ _ (Hk a Ha)) in H as (-> & [Hx <-] & Hr); [|done].
    rewrite <- app_assoc. done.
Qed.

Lemma codec_if {A} (test : bool) (m : Cursor A) enc (ok : A -> Prop) : (forall a, ok a -> test = false) -> (test = false -> codec m enc ok) -> codec (if test then corrupt else m) enc ok.
Proof. intros Hok Hm. destruct test; [|by apply Hm]. constructor; [intros a rest Ha; by apply Hok in Ha|done]. Qed.

Lemma codec_ret {A} (a : A) (ok : A -> Prop) : (forall x, ok x <-> x = a) -> codec (mret a) (fun _ => []) ok.
Proof. intros Hok. constructor; [intros x rest ->%Hok; done|]. intros s x rest Hs [= <- <-]. split_and!; [done|by apply Hok|done]. Qed.

Lemma codec_conseq {A} (m : Cursor A) enc enc' ok (ok' : A -> Prop) : codec m enc ok -> (forall a, ok a <-> ok' a) -> (forall a, ok a -> enc a = enc' a) -> codec m enc' ok'.
Proof.
  intros Hm Hok Henc. constructor.
  - intros a rest Ha%Hok. rewrite <- Henc by done. by apply (cd_reads _ _ _ Hm).
  - intros s a rest Hs H. apply (cd_writes _ _ _ Hm) in H as (-> & Ha & Hr); [|done]. rewrite <- Henc by done. split_and!; [done|by apply Hok|done].
Qed.

Lemma codec_map {A X} (m : Cursor A) (f : A -> result CatalogFailure X) (back : X -> A) enc ok :
  codec m enc ok -> (forall a x, f a = Ok x -> back x = a) -> codec (m ≫= fun a => cursor_of (f a)) (fun x => enc (back x)) (fun x => ok (back x) /\ f (back x) = Ok x).
Proof.
  intros Hm Hf. constructor.
  - intros x rest [Hx Hfx]. erewrite cursor_step by (by apply (cd_reads _ _ _ Hm)). unfold cursor_of. by rewrite Hfx.
  - intros s x rest Hs H. apply cursor_bind_Ok in H as (a & s' & Ha & H). apply (cd_writes _ _ _ Hm) in Ha as (-> & Ha & Hs'); [|done]. unfold cursor_of in H. destruct (f a) as [x'|] eqn:Hx; [|done].
    injection H as <- <-. by rewrite (Hf _ _ Hx).
Qed.

(** A text with its length in a byte. *)
Definition text_ok (maximum : Z) (t : bytes) : Prop := zlen t <= maximum /\ zlen t < 256 /\ utf8_valid t = true.
Lemma codec_text maximum : codec (take_text_u8 maximum) (fun t => [zlen t] ++ t) (text_ok maximum).
Proof.
  eapply codec_conseq with (ok := text_ok maximum).
  - unfold take_text_u8. eapply codec_bind with (part := zlen) (enc' := fun t => t) (ok' := text_ok maximum); [apply (codec_uint 1)| |].
    + intros t (_ & Ht & _). pose proof (zlen_nonneg t). change (256 ^ Z.of_nat 1) with 256. lia.
    + intros n Hn. cbn beta in Hn. change (256 ^ Z.of_nat 1) with 256 in Hn. apply codec_if; [intros t ((H & _ & _) & <-); by apply Z.ltb_ge|]. intros Hmax%Z.ltb_ge. constructor.
      * intros t rest ((H1 & H2 & H3) & <-). erewrite cursor_step by (apply (cd_reads _ _ _ (codec_take _)); unfold zlen; lia). by rewrite H3.
      * intros s t rest Hs H. apply cursor_bind_Ok in H as (a & s' & Ha & H). apply (cd_writes _ _ _ (codec_take _)) in Ha as (-> & Ha & Hs'); [|done]. destruct (utf8_valid a) eqn:Hu; [|done]. injection H as <- <-.
        assert (zlen a = n) by (unfold zlen; lia). unfold text_ok. split_and!; try done; lia.
  - done.
  - intros t (_ & Ht & _). pose proof (zlen_nonneg t). rewrite be_bytes_byte by lia. done.
Qed.

(** A byte string with its length in two bytes. *)
Definition short_bytes_ok (b : bytes) : Prop := 0 < zlen b < 65536.
Lemma codec_u16_bytes : codec take_u16_bytes (fun b => be_bytes 2 (zlen b) ++ b) short_bytes_ok.
Proof.
  unfold take_u16_bytes. eapply codec_bind with (part := zlen) (enc' := fun b => b) (ok' := short_bytes_ok); [apply (codec_uint 2)| |].
  - intros b Hb. unfold short_bytes_ok in Hb. cbn beta. change (256 ^ Z.of_nat 2) with 65536. lia.
  - intros n Hn. cbn beta in Hn. change (256 ^ Z.of_nat 2) with 65536 in Hn. unfold short_bytes_ok. apply codec_if; [intros b [Hb <-]; apply Z.eqb_neq; lia|]. intros Hz%Z.eqb_neq.
    eapply codec_conseq; [apply codec_take| |done]. intros b. cbn beta. unfold zlen. lia.
Qed.

Definition nonzero (n : nat) (b : bytes) : Prop := length b = n /\ zeros b = false.
Definition principal_ok (p : PrincipalId) : Prop := nonzero 16 (principal_id_bytes p).

Lemma codec_principal : codec take_principal principal_id_bytes principal_ok.
Proof.
  eapply codec_conseq; [eapply (codec_map _ _ principal_id_bytes _ _ (codec_take 16))| |done].
  - intros a x H. apply map_err_Ok in H. unfold PrincipalId_from_bytes in H. destruct (forallb _ _); [done|]. by injection H as <-.
  - intros [b]. unfold principal_ok, nonzero, PrincipalId_from_bytes, zeros. cbn [principal_id_bytes]. destruct (forallb _ b); cbn [map_err]; naive_solver.
Qed.

Lemma cursor_nonzero {X} b (k : unit -> Cursor X) : zeros b = false -> (require_nonzero b ≫= k) = k tt.
Proof. intros H. unfold require_nonzero. by rewrite H. Qed.
Lemma require_nonzero_Ok b s u r : require_nonzero b s = Ok (u, r) -> zeros b = false /\ r = s.
Proof. unfold require_nonzero. destruct (zeros b); [done|]. by intros [= _ <-]. Qed.

Lemma codec_nonzero {X} b (k : unit -> Cursor X) enc (ok : X -> Prop) : (forall x, ok x -> zeros b = false) -> (zeros b = false -> codec (k tt) enc ok) -> codec (require_nonzero b ≫= k) enc ok.
Proof.
  intros Hb Hk. destruct (zeros b) eqn:Hz; [|rewrite cursor_nonzero by done; by apply Hk]. constructor; [intros x rest Hx; by apply Hb in Hx|].
  intros s x rest Hs H. apply cursor_bind_Ok in H as (u & s' & Hu%require_nonzero_Ok & _). destruct Hu. congruence.
Qed.

(** ** Credentials *)

Definition credential_bytes (c : CredentialRecord) : bytes := principal_id_bytes (cd_principal c) ++ cd_salt c ++ cd_hash c.
Definition credential_ok (c : CredentialRecord) : Prop := principal_ok (cd_principal c) /\ nonzero 32 (cd_salt c) /\ nonzero 32 (cd_hash c).

Lemma codec_credential : codec take_credential credential_bytes credential_ok.
Proof.
  eapply codec_conseq with (ok := credential_ok) (enc := fun c => principal_id_bytes (cd_principal c) ++ cd_salt c ++ cd_hash c ++ []); [|done|intros c _; by rewrite app_nil_r].
  unfold take_credential. eapply codec_bind with (part := cd_principal) (enc := principal_id_bytes) (enc' := fun c => cd_salt c ++ cd_hash c ++ []) (ok' := credential_ok); [apply codec_principal|by intros c (? & _)|]. intros p Hp.
  eapply codec_bind with (part := cd_salt) (enc := fun b => b) (enc' := fun c => cd_hash c ++ []); [apply codec_take|by intros c ((_ & (? & _) & _) & _)|]. intros salt Hsalt.
  eapply codec_bind with (part := cd_hash) (enc := fun b => b) (enc' := fun c => []); [apply codec_take|by intros c (((_ & _ & (? & _)) & _) & _)|]. intros hash Hhash.
  apply codec_nonzero; [by intros c ((((_ & (_ & ?) & _) & _) & <-) & _)|]. intros Hz1. apply codec_nonzero; [by intros c ((((_ & _ & (_ & ?)) & _) & _) & <-)|]. intros Hz2.
  apply codec_ret. intros [p' s' h']. unfold credential_ok, nonzero in *. cbn. naive_solver.
Qed.


(** Two tags. *)
Lemma codec_choice {A} (m0 m1 : Cursor A) enc0 enc1 ok0 ok1 (first : A -> bool) : codec m0 enc0 ok0 -> codec m1 enc1 ok1 -> (forall a, ok0 a -> first a = true) -> (forall a, ok1 a -> first a = false) ->
  codec (tag ← take_uint 1; if tag =? 0 then m0 else if tag =? 1 then m1 else corrupt) (fun a => if first a then [0] ++ enc0 a else [1] ++ enc1 a) (fun a => ok0 a \/ ok1 a).
Proof.
  intros H0 H1 Hf0 Hf1. constructor.
  - intros a rest [Ha|Ha]; [rewrite (Hf0 _ Ha), <- (be_bytes_byte 0) by done|rewrite (Hf1 _ Ha), <- (be_bytes_byte 1) by done]; rewrite <- app_assoc; erewrite cursor_step by (by apply (cd_reads _ _ _ (codec_uint 1))); cbn [Z.eqb].
    + by apply (cd_reads _ _ _ H0).
    + by apply (cd_reads _ _ _ H1).
  - intros s a rest Hs H. apply cursor_bind_Ok in H as (tag & s' & Ht & H). apply (cd_writes _ _ _ (codec_uint 1)) in Ht as (-> & Ht & Hs'); [|done]. cbn beta in Ht.
    destruct (Z.eqb_spec tag 0) as [->|]; [|destruct (Z.eqb_spec tag 1) as [->|]; [|done]].
    + apply (cd_writes _ _ _ H0) in H as (-> & Ha & Hr); [|done]. rewrite (Hf0 _ Ha), <- app_assoc. auto.
    + apply (cd_writes _ _ _ H1) in H as (-> & Ha & Hr); [|done]. rewrite (Hf1 _ Ha), <- app_assoc. auto.
Qed.

Definition optional_bytes (o : option CredentialRecord) : bytes := match o with Some c => 1 :: credential_bytes c | None => [0] end.
Definition optional_ok (o : option CredentialRecord) : Prop := match o with Some c => credential_ok c | None => True end.

Lemma codec_some {A} (m : Cursor A) enc ok (enc' : option A -> bytes) : codec m enc ok -> (forall a, enc' (Some a) = enc a) -> codec (a ← m; mret (Some a)) enc' (fun o => exists a, o = Some a /\ ok a).
Proof.
  intros Hm He. constructor.
  - intros o rest (a & -> & Ha). rewrite He. erewrite cursor_step by (by apply (cd_reads _ _ _ Hm)). done.
  - intros s o rest Hs H. apply cursor_bind_Ok in H as (a & s' & Ha & H). apply (cd_writes _ _ _ Hm) in Ha as (-> & Ha & Hs'); [|done]. injection H as <- <-. rewrite He. eauto.
Qed.

Lemma codec_optional : codec take_optional_credential optional_bytes optional_ok.
Proof.
  eapply codec_conseq; [apply (codec_choice (mret None) _ (fun _ => []) (fun o => match o with Some c => credential_bytes c | None => [] end) (fun o => o = None) (fun o => exists c, o = Some c /\ credential_ok c) (fun o => match o with Some _ => false | None => true end))| |].
  - by apply codec_ret.
  - apply (codec_some _ _ _ _ codec_credential). done.
  - by intros a ->.
  - by intros a (c & -> & _).
  - intros [c|]; cbn; naive_solver.
  - intros [c|] _; done.
Qed.

(** The base credentials: with a tag when they are optional. *)
Definition base_bytes (optional : bool) (o : option CredentialRecord) : bytes := if optional then optional_bytes o else match o with Some c => credential_bytes c | None => [] end.
Definition base_ok (optional : bool) (o : option CredentialRecord) : Prop := if optional then optional_ok o else exists c, o = Some c /\ credential_ok c.

Lemma codec_base (optional : bool) : codec (if optional then take_optional_credential else c ← take_credential; mret (Some c)) (base_bytes optional) (base_ok optional).
Proof. destruct optional; [apply codec_optional|]. by apply (codec_some _ _ _ _ codec_credential). Qed.

Definition alias_bytes (a : option ExternalTenantAlias) : bytes := match a with Some a => [1; zlen (alias_text a)] ++ alias_text a | None => [0] end.
Definition alias_ok (a : option ExternalTenantAlias) : Prop := match a with Some a => text_ok 128 (alias_text a) /\ ExternalTenantAlias_parse (alias_text a) = Ok a | None => True end.
Definition no_alias (a : option ExternalTenantAlias) : bool := match a with Some _ => false | None => true end.

Lemma codec_alias version : since 5 version = true -> codec (take_alias version) (fun r => alias_bytes r.1) (fun r => alias_ok r.1 /\ r.2 = no_alias r.1).
Proof.
  intros Hv. unfold take_alias. rewrite Hv. constructor.
  - intros [a f] rest [Ha Hf]. cbn [fst snd] in *. subst f. destruct a as [a|]; cbn [alias_bytes].
    + destruct Ha as [Ht Hp]. change ([1; zlen (alias_text a)] ++ alias_text a) with ([1] ++ [zlen (alias_text a)] ++ alias_text a). rewrite <- app_assoc, <- (be_bytes_byte 1) by done. erewrite cursor_step by (by apply (cd_reads _ _ _ (codec_uint 1))). cbn [Z.eqb Pos.eqb].
      erewrite cursor_step by (by apply (cd_reads _ _ _ (codec_text 128))). unfold cursor_of. rewrite Hp. done.
    + rewrite <- (be_bytes_byte 0) by done. erewrite cursor_step by (by apply (cd_reads _ _ _ (codec_uint 1))). done.
  - intros s [a f] rest Hs H. apply cursor_bind_Ok in H as (tag & s' & Ht & H). apply (cd_writes _ _ _ (codec_uint 1)) in Ht as (-> & Ht & Hs'); [|done]. cbn beta in Ht.
    destruct (Z.eqb_spec tag 1) as [->|]; [|destruct (Z.eqb_spec tag 0) as [->|]; [|done]].
    + apply cursor_bind_Ok in H as (t & s2 & Htext & H). apply (cd_writes _ _ _ (codec_text 128)) in Htext as (-> & Hok & Hs2); [|done]. apply cursor_bind_Ok in H as (a' & s3 & Hp & H). injection H as <- <- <-.
      unfold cursor_of in Hp. destruct (ExternalTenantAlias_parse t) as [a''|] eqn:He; [|done]. injection Hp as -> ->. pose proof He as Ht'. unfold ExternalTenantAlias_parse in Ht'. destruct (_ || _); [done|]. injection Ht' as <-. cbn. done.
    + injection H as <- <- <-. done.
Qed.

Definition resource_ok (r : Z) : Prop := 0 < r <= u64_max.
Lemma pow_u64 v : 0 <= v < 256 ^ Z.of_nat 8 <-> 0 <= v <= u64_max.
Proof. change (256 ^ Z.of_nat 8) with 18446744073709551616. unfold u64_max. lia. Qed.

Lemma codec_resources n : codec (take_resources n) (fun rs => concat (map (be_bytes 8) rs)) (fun rs => length rs = n /\ Forall resource_ok rs).
Proof.
  induction n as [|n IH]; cbn [take_resources].
  - eapply codec_conseq; [apply (codec_ret [] (fun rs => rs = [])); done| |by intros rs ->]. intros rs. split; [by intros ->|]. intros [Hl _]. by destruct rs.
  - constructor.
    + intros [|r rs] rest [Hl Hrs]; [done|]. apply Forall_cons in Hrs as [Hr Hrs]. cbn [map concat]. rewrite <- app_assoc. unfold resource_ok in Hr. erewrite cursor_step by (apply (cd_reads _ _ _ (codec_uint 8)), pow_u64; lia).
      rewrite (proj2 (Z.eqb_neq r 0)) by lia. erewrite cursor_step by (apply (cd_reads _ _ _ IH); split; [by injection Hl|done]). done.
    + intros s rs rest Hs H. apply cursor_bind_Ok in H as (r & s' & Hr & H). apply (cd_writes _ _ _ (codec_uint 8)) in Hr as (-> & Hr%pow_u64 & Hs'); [|done]. destruct (Z.eqb_spec r 0); [done|].
      apply cursor_bind_Ok in H as (rs' & s2 & Hrs & H). apply (cd_writes _ _ _ IH) in Hrs as (-> & [Hl Hrs] & Hs2); [|done]. injection H as <- <-. cbn [map concat length]. rewrite <- app_assoc. split_and!; [done|by rewrite Hl|constructor; [unfold resource_ok; lia|done]|done].
Qed.

Definition lifecycle_bytes (l : TenantLifecycleState) : bytes := [lifecycle_code l; 4; 0; 1; 1].
Lemma codec_lifecycle : codec take_lifecycle lifecycle_bytes (fun _ => True).
Proof.
  constructor.
  - intros l rest _. unfold take_lifecycle. erewrite cursor_step by (by apply (cd_reads _ _ _ (codec_take 5))). by destruct l.
  - intros s l rest Hs H. apply cursor_bind_Ok in H as (code & s' & Hc & H). apply (cd_writes _ _ _ (codec_take 5)) in Hc as (-> & _ & Hs'); [|done]. destruct (find _ _) as [l'|] eqn:Hf; [|done]. injection H as <- <-.
    apply find_some in Hf as [_ Hf]. unfold bytes_eqb in Hf. apply bool_decide_eq_true in Hf as ->. done.
Qed.

Definition generation_bytes (present : bool) (g : Z) : bytes := if present then be_bytes 8 g else [].
Definition generation_ok (present : bool) (g : Z) : Prop := if present then resource_ok g else g = 1.
Lemma codec_generation present : codec (take_generation present) (generation_bytes present) (generation_ok present).
Proof.
  destruct present; cbn [take_generation generation_bytes generation_ok]; [|by apply codec_ret]. unfold resource_ok. constructor.
  - intros g rest Hg. cbn in Hg. unfold resource_ok in Hg. cbn [generation_bytes]. erewrite cursor_step by (apply (cd_reads _ _ _ (codec_uint 8)), pow_u64; lia). by rewrite (proj2 (Z.eqb_neq g 0)) by lia.
  - intros s g rest Hs H. apply cursor_bind_Ok in H as (v & s' & Hv & H). apply (cd_writes _ _ _ (codec_uint 8)) in Hv as (-> & Hv%pow_u64 & Hs'); [|done]. destruct (Z.eqb_spec v 0); [done|]. injection H as <- <-. cbn. unfold resource_ok. split_and!; try done; lia.
Qed.

(** ** The set of credentials *)

Record entry_ok (c : CatalogCredential) : Prop := {
  en_principal : principal_ok (cc_principal c);
  en_scope : 1 <= cc_scope c <= 4;
  en_expires : match cc_expires c with Some e => resource_ok e | None => True end;
  en_salt : nonzero 32 (cc_salt c);
  en_hash : nonzero 32 (cc_hash c);
}.

Lemma codec_entry : codec take_catalog_credential encode_credential entry_ok.
Proof.
  unfold take_catalog_credential, encode_credential. constructor.
  - intros [p scope active expires salt hash] rest [Hp Hs He [Hs1 Hs2] [Hh1 Hh2]]. cbn [cc_principal cc_scope cc_active cc_expires cc_salt cc_hash] in *. rewrite <- !app_assoc. erewrite cursor_step by (by apply (cd_reads _ _ _ codec_principal)).
    rewrite <- (be_bytes_byte scope) by lia. erewrite cursor_step by (apply (cd_reads _ _ _ (codec_uint 1)); change (256 ^ Z.of_nat 1) with 256; lia). rewrite (proj2 (Z.leb_le _ _)), (proj2 (Z.leb_le _ _)) by lia. cbn [andb negb].
    assert (Ha : forall k : bool -> Cursor CatalogCredential, forall r, (tag ← take_uint 1; a ← (if tag =? 0 then mret false else if tag =? 1 then mret true else corrupt); k a) ([if active then 1 else 0] ++ r) = k active r).
    { intros k r. rewrite <- (be_bytes_byte (if active then 1 else 0)) by (destruct active; lia). erewrite cursor_step by (apply (cd_reads _ _ _ (codec_uint 1)); change (256 ^ Z.of_nat 1) with 256; destruct active; lia). by destruct active. }
    rewrite Ha. clear Ha. set (e := match expires with Some e => e | None => 0 end). erewrite cursor_step by (apply (cd_reads _ _ _ (codec_uint 8)), pow_u64; destruct expires; unfold resource_ok, u64_max in *; lia). cbv zeta.
    erewrite cursor_step by (by apply (cd_reads _ _ _ (codec_take 32))). erewrite cursor_step by (by apply (cd_reads _ _ _ (codec_take 32))). rewrite !cursor_nonzero by done. unfold mret, Cursor_ret. do 3 f_equal.
    destruct expires as [v|]; cbn in e; [|done]. unfold resource_ok in He. subst e. by rewrite (proj2 (Z.eqb_neq v 0)) by lia.
  - intros s c rest Hs H. apply cursor_bind_Ok in H as (p & s1 & Hp & H). apply (cd_writes _ _ _ codec_principal) in Hp as (-> & Hp & Hs1); [|done]. apply cursor_bind_Ok in H as (scope & s2 & Hscope & H).
    apply (cd_writes _ _ _ (codec_uint 1)) in Hscope as (-> & Hscope & Hs2); [|done]. cbn beta in Hscope. destruct ((1 <=? scope) && (scope <=? 4)) eqn:Hrange; [|done]. apply andb_true_iff in Hrange as [H1%Z.leb_le H2%Z.leb_le]. cbn [negb] in H.
    apply cursor_bind_Ok in H as (tag & s3 & Htag & H). apply (cd_writes _ _ _ (codec_uint 1)) in Htag as (-> & Htag & Hs3); [|done]. apply cursor_bind_Ok in H as (active & s4 & Hactive & H).
    assert (Hat : s4 = s3 /\ be_bytes 1 tag = [if active then 1 else 0]) by (destruct (Z.eqb_spec tag 0) as [->|]; [by injection Hactive as <- <-|]; destruct (Z.eqb_spec tag 1) as [->|]; [by injection Hactive as <- <-|done]). destruct Hat as [-> ->].
    apply cursor_bind_Ok in H as (value & s5 & Hvalue & H). apply (cd_writes _ _ _ (codec_uint 8)) in Hvalue as (-> & Hvalue%pow_u64 & Hs5); [|done]. apply cursor_bind_Ok in H as (salt & s6 & Hsalt & H).
    apply (cd_writes _ _ _ (codec_take 32)) in Hsalt as (-> & Hsalt & Hs6); [|done]. apply cursor_bind_Ok in H as (hash & s7 & Hhash & H). apply (cd_writes _ _ _ (codec_take 32)) in Hhash as (-> & Hhash & Hs7); [|done].
    apply cursor_bind_Ok in H as (u1 & s8 & [Hz1 ->]%require_nonzero_Ok & H). apply cursor_bind_Ok in H as (u2 & s9 & [Hz2 ->]%require_nonzero_Ok & H). injection H as <- <-. cbn [cc_principal cc_scope cc_active cc_expires cc_salt cc_hash]. rewrite be_bytes_byte by lia. rewrite <- !app_assoc.
    split_and!; [|constructor; cbn; try done; destruct (Z.eqb_spec value 0); [done|unfold resource_ok; lia]|done]. do 3 f_equal. by destruct (Z.eqb_spec value 0) as [->|].
Qed.

Definition principals (cs : list CatalogCredential) : list PrincipalId := map cc_principal cs.

Lemma not_found c found : existsb (fun x => bool_decide (cc_principal x = cc_principal c)) found = false <-> cc_principal c ∉ principals found.
Proof.
  unfold principals. induction found as [|x found IH]; cbn [existsb map]; [split; [intros _; apply not_elem_of_nil|done]|]. rewrite orb_false_iff, IH, bool_decide_eq_false, not_elem_of_cons. naive_solver.
Qed.

Lemma take_credentials_reads cs : forall found rest, Forall entry_ok cs -> NoDup (principals (found ++ cs)) ->
  take_credentials (length cs) found (concat (map encode_credential cs) ++ rest) = Ok (found ++ cs, rest).
Proof.
  induction cs as [|c cs IH]; intros found rest Hok Hd; cbn [length take_credentials map concat]; [by rewrite app_nil_r|]. apply Forall_cons in Hok as [Hc Hok]. rewrite <- app_assoc.
  erewrite cursor_step by (by apply (cd_reads _ _ _ codec_entry)). rewrite (proj2 (not_found c found)).
  - rewrite IH; [by rewrite <- app_assoc|done|by rewrite <- app_assoc].
  - unfold principals in Hd. rewrite map_app in Hd. apply NoDup_app in Hd as (_ & Hd & _). intros Hin. apply (Hd _ Hin). left.
Qed.

Lemma take_credentials_writes n : forall found s all rest, bytes_ok s -> NoDup (principals found) -> take_credentials n found s = Ok (all, rest) ->
  exists cs, all = found ++ cs /\ length cs = n /\ s = concat (map encode_credential cs) ++ rest /\ Forall entry_ok cs /\ NoDup (principals all) /\ bytes_ok rest.
Proof.
  induction n as [|n IH]; intros found s all rest Hs Hd H; cbn [take_credentials] in H; [injection H as <- <-; exists []; by rewrite app_nil_r|].
  apply cursor_bind_Ok in H as (c & s' & Hc & H). apply (cd_writes _ _ _ codec_entry) in Hc as (-> & Hc & Hs'); [|done]. destruct (existsb _ found) eqn:Hf; [done|]. apply not_found in Hf.
  apply IH in H as (cs & -> & Hl & -> & Hok & Hall & Hr); [|done|].
  - exists (c :: cs). cbn [length map concat]. rewrite <- !app_assoc. split_and!; [done|by rewrite Hl|done|by constructor|by rewrite <- app_assoc in Hall|done].
  - unfold principals. rewrite map_app. apply NoDup_app. split_and!; [done| |apply NoDup_singleton]. intros x Hx Hin. cbn in Hin. apply list_elem_of_singleton in Hin as ->. done.
Qed.

Record credentials_ok (cs : list CatalogCredential) : Prop := {
  cs_count : 1 <= zlen cs <= MAX_CREDENTIALS;
  cs_entries : Forall entry_ok cs;
  cs_distinct : NoDup (principals cs);
  cs_administrator : administrators cs = 1;
}.
Definition credentials_bytes (cs : list CatalogCredential) : bytes := be_bytes 2 (zlen cs) ++ concat (map encode_credential cs).

Lemma codec_credentials : codec take_credential_set credentials_bytes credentials_ok.
Proof.
  unfold take_credential_set, credentials_bytes. constructor.
  - intros cs rest [Hn Hok Hd Ha]. unfold MAX_CREDENTIALS in *. rewrite <- app_assoc. erewrite cursor_step by (apply (cd_reads _ _ _ (codec_uint 2)); change (256 ^ Z.of_nat 2) with 65536; lia).
    rewrite (proj2 (Z.leb_le _ _)), (proj2 (Z.leb_le _ _)) by lia. cbn [andb negb]. replace (Z.to_nat (zlen cs)) with (length cs) by (unfold zlen; lia). erewrite cursor_step by (by apply take_credentials_reads). cbn [app]. by rewrite Ha.
  - intros s cs rest Hs H. apply cursor_bind_Ok in H as (n & s' & Hn & H). apply (cd_writes _ _ _ (codec_uint 2)) in Hn as (-> & Hn & Hs'); [|done]. destruct ((1 <=? n) && (n <=? MAX_CREDENTIALS)) eqn:Hr; [|done]. apply andb_true_iff in Hr as [H1%Z.leb_le H2%Z.leb_le]. cbn [negb] in H.
    apply cursor_bind_Ok in H as (all & s2 & Hall & H). apply take_credentials_writes in Hall as (cs' & -> & Hl & -> & Hok & Hd & Hs2); [|done|apply NoDup_nil_2]. cbn [app] in *. destruct (Z.eqb_spec (administrators cs') 1); [|done]. injection H as <- <-.
    assert (zlen cs' = n) by (unfold zlen; lia). rewrite <- app_assoc. split_and!; [by subst n|constructor; try done; lia|done].
Qed.
End codecs.

(** ** The layout of an object *)

Ltac fields := cbn [go_version go_instance go_tenant go_slug go_alias go_display_name go_principal go_salt go_hash go_ingest go_query
    go_retention_seconds go_quota_generation go_quota_weight go_quota_resources go_public_key go_fingerprint go_protected_key go_key_envelope go_lifecycle go_lifecycle_generation go_display_generation go_retention_generation go_alias_generation
    go_credentials go_credential_generation tenant_id_bytes fst].

Section layout.

Definition head_bytes (g : CatalogGovernanceObject) : bytes :=
  governance_magic (go_version g) ++ go_instance g ++ tenant_id_bytes (go_tenant g) ++ ([zlen (slug_text (go_slug g))] ++ slug_text (go_slug g)) ++ alias_bytes (go_alias g)
  ++ ([zlen (go_display_name g)] ++ go_display_name g) ++ principal_id_bytes (go_principal g) ++ go_salt g ++ go_hash g ++ base_bytes (no_alias (go_alias g)) (go_ingest g)
  ++ base_bytes (no_alias (go_alias g)) (go_query g) ++ go_public_key g ++ go_fingerprint g ++ (be_bytes 2 (zlen (go_protected_key g)) ++ go_protected_key g)
  ++ (be_bytes 2 (zlen (go_key_envelope g)) ++ go_key_envelope g).
Definition generations_bytes (g : CatalogGovernanceObject) : bytes :=
  generation_bytes (since 6 (go_version g)) (go_lifecycle_generation g) ++ generation_bytes (since 7 (go_version g)) (go_display_generation g)
  ++ generation_bytes (since 7 (go_version g)) (go_retention_generation g) ++ generation_bytes (since 8 (go_version g)) (go_alias_generation g).
Definition quota_bytes (g : CatalogGovernanceObject) : bytes := be_bytes 8 (go_quota_generation g) ++ be_bytes 4 (go_quota_weight g) ++ concat (map (be_bytes 8) (go_quota_resources g)).
Definition prefix_bytes (g : CatalogGovernanceObject) : bytes :=
  head_bytes g ++ be_bytes 8 (go_retention_seconds g) ++ quota_bytes g ++ lifecycle_bytes (go_lifecycle g) ++ generations_bytes g.
Definition layout (g : CatalogGovernanceObject) : bytes := prefix_bytes g ++ be_bytes 8 (go_credential_generation g) ++ credentials_bytes (go_credentials g).

(** The object with the offsets and the prefix of its layout. *)
Definition laid (g : CatalogGovernanceObject) : CatalogGovernanceObject :=
  mkGovernance (go_version g) (go_instance g) (go_tenant g) (go_slug g) (go_alias g) (go_display_name g) (go_principal g) (go_salt g) (go_hash g) (go_ingest g) (go_query g)
    (go_retention_seconds g) (length (head_bytes g)) (go_quota_generation g) (go_quota_weight g) (go_quota_resources g) (length (head_bytes g) + 8) (go_public_key g) (go_fingerprint g)
    (go_protected_key g) (go_key_envelope g) (go_lifecycle g) (go_lifecycle_generation g) (go_display_generation g) (go_retention_generation g) (go_alias_generation g)
    (go_credentials g) (go_credential_generation g) (prefix_bytes g).

Record governance_ok (g : CatalogGovernanceObject) : Prop := {
  gk_version : since 5 (go_version g) = true;
  gk_instance : nonzero 16 (go_instance g);
  gk_tenant : nonzero 16 (tenant_id_bytes (go_tenant g));
  gk_slug : text_ok 63 (slug_text (go_slug g)) /\ TenantSlug_parse_canonical (slug_text (go_slug g)) = Ok (go_slug g);
  gk_alias : alias_ok (go_alias g);
  gk_display : text_ok 128 (go_display_name g) /\ go_display_name g <> [];
  gk_principal : principal_ok (go_principal g);
  gk_salt : nonzero 32 (go_salt g);
  gk_hash : nonzero 32 (go_hash g);
  gk_ingest : base_ok (no_alias (go_alias g)) (go_ingest g) /\ (forall c, go_ingest g = Some c -> cd_principal c <> go_principal g);
  gk_query : base_ok (no_alias (go_alias g)) (go_query g)
    /\ (forall c, go_query g = Some c -> cd_principal c <> go_principal g /\ forall i, go_ingest g = Some i -> cd_principal i <> cd_principal c);
  gk_public_key : nonzero 32 (go_public_key g);
  gk_fingerprint : nonzero 32 (go_fingerprint g);
  gk_protected_key : short_bytes_ok (go_protected_key g);
  gk_key_envelope : short_bytes_ok (go_key_envelope g);
  gk_retention : resource_ok (go_retention_seconds g);
  gk_quota_generation : resource_ok (go_quota_generation g);
  gk_quota_weight : 0 < go_quota_weight g <= u32_max;
  gk_quota_resources : length (go_quota_resources g) = 11%nat /\ Forall resource_ok (go_quota_resources g);
  gk_lifecycle_generation : generation_ok (since 6 (go_version g)) (go_lifecycle_generation g);
  gk_display_generation : generation_ok (since 7 (go_version g)) (go_display_generation g);
  gk_retention_generation : generation_ok (since 7 (go_version g)) (go_retention_generation g);
  gk_alias_generation : generation_ok (since 8 (go_version g)) (go_alias_generation g);
  gk_credential_generation : resource_ok (go_credential_generation g);
  gk_credentials : credentials_ok (go_credentials g);
}.

Lemma codec_version : codec take_version governance_magic (fun _ => True).
Proof.
  constructor.
  - intros v rest _. unfold take_version. erewrite cursor_step by (apply (cd_reads _ _ _ (codec_take 8)); by destruct v). by destruct v.
  - intros s v rest Hs H. apply cursor_bind_Ok in H as (m & s' & Hm & H). apply (cd_writes _ _ _ (codec_take 8)) in Hm as (-> & _ & Hs'); [|done]. destruct (find _ _) as [v'|] eqn:Hf; [|done]. injection H as <- <-.
    apply find_some in Hf as [_ Hf]. unfold bytes_eqb in Hf. apply bool_decide_eq_true in Hf as ->. done.
Qed.

Lemma cursor_remaining {X} (k : nat -> Cursor X) s : (remaining_length ≫= k) s = k (length s) s.
Proof. done. Qed.
Lemma cursor_of_Ok {A X} (a : A) (k : A -> Cursor X) : (cursor_of (Ok a) ≫= k) = k a.
Proof. done. Qed.

Lemma nonzero_tenant b : zeros (tenant_id_bytes b) = false -> TenantId_from_bytes (tenant_id_bytes b) = Ok b.
Proof. intros H. unfold TenantId_from_bytes. unfold zeros in H. rewrite H. by destruct b. Qed.
Lemma before_length (a b : bytes) : (length (a ++ b) - length b = length a)%nat.
Proof. rewrite length_app. lia. Qed.

Lemma since_earlier n m v : (n <=? m) = true -> since m v = true -> since n v = true.
Proof. unfold since. rewrite !Z.leb_le. lia. Qed.

Ltac read lemma := erewrite cursor_step by (apply (cd_reads _ _ _ lemma); try done); cbv beta iota.

(** What follows the prefix. *)
Definition decode_after_prefix (g : CatalogGovernanceObject) : Cursor CatalogGovernanceObject :=
  credential_generation ← take_generation true;
  credentials ← take_credential_set;
  left ← remaining_length;
  if negb (left =? 0)%nat then corrupt else
  mret (laid (mkGovernance (go_version g) (go_instance g) (go_tenant g) (go_slug g) (go_alias g) (go_display_name g) (go_principal g) (go_salt g) (go_hash g) (go_ingest g) (go_query g)
    (go_retention_seconds g) (go_retention_offset g) (go_quota_generation g) (go_quota_weight g) (go_quota_resources g) (go_quota_offset g) (go_public_key g) (go_fingerprint g)
    (go_protected_key g) (go_key_envelope g) (go_lifecycle g) (go_lifecycle_generation g) (go_display_generation g) (go_retention_generation g) (go_alias_generation g)
    credentials credential_generation (go_credential_prefix g))).

(** The prefix of a well formed object is read, whatever follows it. *)
Lemma prefix_decodes g rest encoded : governance_ok g -> encoded = prefix_bytes g ++ rest -> governance_decode_from encoded (prefix_bytes g ++ rest) = decode_after_prefix g rest.
Proof.
  intros [] Hencoded. destruct gk_slug0 as [Hslug1 Hslug2], gk_display0 as [Hdisplay1 Hdisplay2], gk_ingest0 as [Hingest1 Hingest2], gk_query0 as [Hquery1 Hquery2], gk_instance0 as [Hinstance1 Hinstance2], gk_tenant0 as [Htenant1 Htenant2].
  destruct gk_salt0 as [Hsalt1 Hsalt2], gk_hash0 as [Hhash1 Hhash2], gk_public_key0 as [Hpublic1 Hpublic2], gk_fingerprint0 as [Hfinger1 Hfinger2]. unfold resource_ok, u32_max, u64_max in *.
  unfold prefix_bytes, head_bytes, quota_bytes, generations_bytes. rewrite <- !app_assoc. unfold governance_decode_from.
  read codec_version. read (codec_take 16). rewrite cursor_nonzero by done. read (codec_take 16). rewrite nonzero_tenant by done. cbn [map_err]. rewrite cursor_of_Ok.
  rewrite (app_assoc [zlen (slug_text (go_slug g))]). read (codec_text 63). rewrite Hslug2. cbn [map_err]. rewrite cursor_of_Ok.
  erewrite cursor_step by (apply (cd_reads _ _ _ (codec_alias _ gk_version0) (go_alias g, no_alias (go_alias g))); done). cbv beta iota.
  rewrite (app_assoc [zlen (go_display_name g)]). read (codec_text 128). rewrite (bool_decide_false (go_display_name g = [])) by done.
  read codec_principal. read (codec_take 32). read (codec_take 32). rewrite !cursor_nonzero by done.
  rewrite (since_earlier 2 5), (since_earlier 3 5) by done. read (codec_base (no_alias (go_alias g))).
  replace (match go_ingest g with Some c => bool_decide (cd_principal c = go_principal g) | None => false end) with false by (destruct (go_ingest g) as [c|]; [rewrite bool_decide_false; auto|done]).
  read (codec_base (no_alias (go_alias g))).
  replace (match go_query g with Some c => bool_decide (cd_principal c = go_principal g) || match go_ingest g with Some i => bool_decide (cd_principal i = cd_principal c) | None => false end | None => false end) with false.
  2:{ destruct (go_query g) as [c|]; [|done]. destruct (Hquery2 c eq_refl) as [H1 H2]. rewrite bool_decide_false by done. destruct (go_ingest g) as [i|]; [|done]. rewrite bool_decide_false by auto. done. }
  read (codec_take 32). read (codec_take 32). rewrite !cursor_nonzero by done. rewrite (app_assoc (be_bytes 2 (zlen (go_protected_key g)))). read codec_u16_bytes. rewrite (app_assoc (be_bytes 2 (zlen (go_key_envelope g)))). read codec_u16_bytes.
  assert (Hoff : forall before tail, prefix_bytes g ++ rest = before ++ tail -> (length encoded - length tail)%nat = length before) by (intros before tail Ht; rewrite Hencoded, Ht; apply before_length).
  rewrite !cursor_remaining. cbv zeta. erewrite (Hoff (head_bytes g)) by (unfold prefix_bytes, quota_bytes, generations_bytes; by rewrite <- !app_assoc).
  erewrite cursor_step by (apply (cd_reads _ _ _ (codec_uint 8)), pow_u64; unfold u64_max; lia).
  rewrite !cursor_remaining. erewrite (Hoff (head_bytes g ++ be_bytes 8 (go_retention_seconds g))) by (unfold prefix_bytes, quota_bytes, generations_bytes; by rewrite <- !app_assoc).
  erewrite cursor_step by (apply (cd_reads _ _ _ (codec_uint 8)), pow_u64; unfold u64_max; lia). erewrite cursor_step by (apply (cd_reads _ _ _ (codec_uint 4)); change (256 ^ Z.of_nat 4) with 4294967296; lia).
  rewrite !(proj2 (Z.eqb_neq _ _)) by lia. cbn [orb]. read (codec_resources 11). read codec_lifecycle. read (codec_generation (since 6 (go_version g))). read (codec_generation (since 7 (go_version g))). read (codec_generation (since 7 (go_version g))).
  read (codec_generation (since 8 (go_version g))). rewrite !cursor_remaining. erewrite (Hoff (prefix_bytes g)) by done. rewrite gk_version0.
  assert (Hprefix : get_slice encoded 0 (length (prefix_bytes g)) = Some (prefix_bytes g)) by (rewrite Hencoded; by apply (get_slice_app [] (prefix_bytes g))). rewrite Hprefix. cbn [ok_or]. rewrite cursor_of_Ok.
  rewrite (length_app (head_bytes g)), length_be_bytes. done.
Qed.

(** The layout of a well formed object decodes to it. *)
Lemma layout_decodes_from g encoded : governance_ok g -> encoded = layout g -> governance_decode_from encoded (layout g) = Ok (laid g, []).
Proof.
  intros Hok Hencoded. unfold layout. rewrite prefix_decodes by done. unfold decode_after_prefix. destruct Hok. read (codec_generation true). erewrite cursor_step by (rewrite <- (app_nil_r (credentials_bytes _)); by apply (cd_reads _ _ _ codec_credentials)).
  rewrite !cursor_remaining. done.
Qed.

Lemma decoded_version encoded s g r : governance_decode_from encoded s = Ok (g, r) -> exists s', take_version s = Ok (go_version g, s').
Proof.
  unfold governance_decode_from. intros H. apply cursor_bind_Ok in H as (version & s' & Hv & H). exists s'. rewrite Hv. do 2 f_equal. clear Hv. symmetry.
  repeat first
    [ match type of H with
      | (if ?b then corrupt else _) _ = _ => destruct b; [discriminate H|]
      | (let '(_, _) := ?x in _) _ = _ => destruct x
      | mret _ _ = _ => injection H as <- _; reflexivity
      end
    | apply cursor_bind_Ok in H as (? & ? & _ & H); cbv beta iota zeta in H ].
Qed.

Tactic Notation "wrote" constr(lemma) ident(H) ident(x) ident(Hok) := let s := fresh "s" in let Hx := fresh "Hx" in let Hs := fresh "Hs" in
  apply cursor_bind_Ok in H as (x & s & Hx & H); apply (cd_writes _ _ _ lemma) in Hx as (-> & Hok & Hs); [|assumption]; cbv beta iota in H.
Tactic Notation "wrote_nonzero" ident(H) ident(Hz) := let u := fresh "u" in let s := fresh "s" in apply cursor_bind_Ok in H as (u & s & [Hz ->]%require_nonzero_Ok & H).

Lemma cursor_of_written {A} (r : result CatalogFailure A) a s s' : cursor_of r s = Ok (a, s') -> r = Ok a /\ s' = s.
Proof. unfold cursor_of. destruct r; [|done]. by intros [= <- <-]. Qed.

Lemma cursor_ret_written {A} (a x : A) s r : mret (M := Cursor) a s = Ok (x, r) -> x = a.
Proof. by intros [= <- _]. Qed.

Lemma laid_same g : go_retention_offset g = length (head_bytes g) -> go_quota_offset g = (length (head_bytes g) + 8)%nat -> go_credential_prefix g = prefix_bytes g -> g = laid g.
Proof. intros H1 H2 H3. unfold laid. rewrite <- H1 at 1. rewrite <- H2, <- H3. by destruct g. Qed.

(** What was decoded is the layout of what it was decoded to. *)
Lemma decoded_layout_from encoded s g r : bytes_ok s -> encoded = s -> governance_decode_from encoded s = Ok (g, r) -> since 5 (go_version g) = true ->
  s = layout g /\ g = laid g /\ governance_ok g.
Proof.
  intros Hs Hencoded H Hsince. destruct (decoded_version _ _ _ _ H) as [s0 Hv]. unfold governance_decode_from in H. apply cursor_bind_Ok in H as (version & s1 & Hversion & H). rewrite Hversion in Hv. injection Hv as Hv _. rewrite <- Hv in Hsince. clear Hv s0.
  apply (cd_writes _ _ _ codec_version) in Hversion as (-> & _ & Hs1); [|done]. wrote (codec_take 16) H inst Hinstance. wrote_nonzero H Hinstance'. wrote (codec_take 16) H tid Htid.
  apply cursor_bind_Ok in H as (tenant & s2 & [Htenant%map_err_Ok ->]%cursor_of_written & H). unfold TenantId_from_bytes in Htenant. destruct (forallb _ tid) eqn:Htid'; [done|]. injection Htenant as <-.
  wrote (codec_text 63) H text Htext. apply cursor_bind_Ok in H as (slug & s3 & [Hslug%map_err_Ok ->]%cursor_of_written & H).
  assert (Hslugtext : slug_text slug = text) by (unfold TenantSlug_parse_canonical in Hslug; destruct (_ || _); [done|]; cbv zeta in Hslug; destruct (_ || _); [done|]; by injection Hslug as <-). subst text.
  wrote (codec_alias version Hsince) H alias_flag Halias. destruct alias_flag as [alias flag]. cbn [fst snd] in Halias. destruct Halias as [Halias ->]. cbv beta iota in H.
  wrote (codec_text 128) H display Hdisplay. destruct (bool_decide_reflect (display = [])) as [|Hdisplay']; [done|]. wrote codec_principal H principal Hprincipal. wrote (codec_take 32) H salt Hsalt. wrote (codec_take 32) H hash Hhash. wrote_nonzero H Hsalt'. wrote_nonzero H Hhash'.
  rewrite (since_earlier 2 5), (since_earlier 3 5) in H by done. wrote (codec_base (no_alias alias)) H ingest Hingest. destruct (match ingest with Some c => _ | None => false end) eqn:Hingest'; [done|].
  wrote (codec_base (no_alias alias)) H query Hquery. destruct (match query with Some c => _ | None => false end) eqn:Hquery'; [done|]. wrote (codec_take 32) H public_key Hpublic. wrote (codec_take 32) H fingerprint Hfinger. wrote_nonzero H Hpublic'. wrote_nonzero H Hfinger'.
  wrote codec_u16_bytes H protected_key Hprotected. wrote codec_u16_bytes H key_envelope Henvelope. rewrite !cursor_remaining in H. cbv zeta in H. wrote (codec_uint 8) H retention Hretention. rewrite !cursor_remaining in H. wrote (codec_uint 8) H quota_generation Hqg. wrote (codec_uint 4) H quota_weight Hqw.
  destruct ((retention =? 0) || (quota_generation =? 0) || (quota_weight =? 0)) eqn:Hz; [done|]. apply orb_false_iff in Hz as [[Hz1%Z.eqb_neq Hz2%Z.eqb_neq]%orb_false_iff Hz3%Z.eqb_neq]. wrote (codec_resources 11) H resources Hresources. wrote codec_lifecycle H lifecycle Hlifecycle.
  wrote (codec_generation (since 6 version)) H lifecycle_generation Hlg. wrote (codec_generation (since 7 version)) H display_generation Hdg. wrote (codec_generation (since 7 version)) H retention_generation Hrg. wrote (codec_generation (since 8 version)) H alias_generation Hag.
  rewrite !cursor_remaining in H. rewrite !Hsince in H. apply cursor_bind_Ok in H as (prefix & s4 & [Hprefix ->]%cursor_of_written & H). wrote (codec_generation true) H credential_generation Hcg. wrote codec_credentials H credentials Hcredentials. rewrite !cursor_remaining in H.
  match type of H with (if negb (length ?rest =? 0)%nat then _ else _) _ = _ => destruct (Nat.eqb_spec (length rest) 0) as [Hend|]; [|done]; apply nil_length_inv in Hend as -> end. cbn [negb] in H. apply cursor_ret_written in H as Hg. clear H.
  repeat match goal with Hb : bytes_ok _ |- _ => clear Hb end.
  assert (Hoff : forall before tail, encoded = before ++ tail -> (length encoded - length tail)%nat = length before) by (intros before tail ->; apply before_length).
  assert (Hlayout : encoded = layout g) by (rewrite Hencoded, Hg; unfold layout, prefix_bytes, head_bytes, quota_bytes, generations_bytes; fields; rewrite app_nil_r, <- !app_assoc; done).
  rewrite <- Hencoded. split; [done|].
  assert (Hlaid : g = laid g).
  { apply laid_same; rewrite Hg at 1; cbn [go_retention_offset go_quota_offset go_credential_prefix].
    - apply Hoff. rewrite Hencoded, Hg. unfold head_bytes. fields. by rewrite <- !app_assoc.
    - transitivity (length (head_bytes g ++ be_bytes 8 (go_retention_seconds g))); [|by rewrite length_app, length_be_bytes]. apply Hoff. rewrite Hencoded, Hg. unfold head_bytes. fields. by rewrite <- !app_assoc.
    - apply ok_or_Ok in Hprefix. erewrite (Hoff (prefix_bytes g)) in Hprefix by (rewrite Hencoded, Hg; unfold prefix_bytes, head_bytes, quota_bytes, generations_bytes; fields; by rewrite <- !app_assoc).
      rewrite Hlayout in Hprefix. unfold layout in Hprefix. assert (Hp : get_slice ([] ++ prefix_bytes g ++ be_bytes 8 (go_credential_generation g) ++ credentials_bytes (go_credentials g)) 0 (length (prefix_bytes g)) = Some (prefix_bytes g)) by (by apply get_slice_app).
      cbn [app] in Hp. rewrite Hp in Hprefix. by injection Hprefix as <-. }
  split; [done|]. apply pow_u64 in Hretention, Hqg. cbn beta in Hqw. change (256 ^ Z.of_nat 4) with 4294967296 in Hqw. rewrite Hg. constructor; fields; try done; try (unfold resource_ok, u32_max; lia).
  - split; [done|]. intros c ->. by apply bool_decide_eq_false in Hingest'.
  - split; [done|]. intros c ->. apply orb_false_iff in Hquery' as [H1%bool_decide_eq_false H2]. split; [done|]. intros i ->. by apply bool_decide_eq_false in H2.
Qed.
End layout.

(** ** Successors *)

Section successors.

(** The object with one resource replaced; the version is the one that stores the resource. *)
Definition profile_version (v : CatalogGovernanceVersion) : CatalogGovernanceVersion := if bool_decide (v = V8) then V8 else V7.

Definition replace_credentials (g : CatalogGovernanceObject) (generation : Z) (credentials : list CatalogCredential) : CatalogGovernanceObject :=
  mkGovernance (go_version g) (go_instance g) (go_tenant g) (go_slug g) (go_alias g) (go_display_name g) (go_principal g) (go_salt g) (go_hash g) (go_ingest g) (go_query g)
    (go_retention_seconds g) (go_retention_offset g) (go_quota_generation g) (go_quota_weight g) (go_quota_resources g) (go_quota_offset g) (go_public_key g) (go_fingerprint g)
    (go_protected_key g) (go_key_envelope g) (go_lifecycle g) (go_lifecycle_generation g) (go_display_generation g) (go_retention_generation g) (go_alias_generation g)
    credentials generation (go_credential_prefix g).

Definition replace_lifecycle (g : CatalogGovernanceObject) (lifecycle : TenantLifecycleState) (generation : Z) : CatalogGovernanceObject :=
  mkGovernance (go_version g) (go_instance g) (go_tenant g) (go_slug g) (go_alias g) (go_display_name g) (go_principal g) (go_salt g) (go_hash g) (go_ingest g) (go_query g)
    (go_retention_seconds g) (go_retention_offset g) (go_quota_generation g) (go_quota_weight g) (go_quota_resources g) (go_quota_offset g) (go_public_key g) (go_fingerprint g)
    (go_protected_key g) (go_key_envelope g) lifecycle generation (go_display_generation g) (go_retention_generation g) (go_alias_generation g)
    (go_credentials g) (go_credential_generation g) (go_credential_prefix g).

Definition replace_quota (g : CatalogGovernanceObject) (generation weight : Z) (resources : list Z) : CatalogGovernanceObject :=
  mkGovernance (go_version g) (go_instance g) (go_tenant g) (go_slug g) (go_alias g) (go_display_name g) (go_principal g) (go_salt g) (go_hash g) (go_ingest g) (go_query g)
    (go_retention_seconds g) (go_retention_offset g) generation weight resources (go_quota_offset g) (go_public_key g) (go_fingerprint g)
    (go_protected_key g) (go_key_envelope g) (go_lifecycle g) (go_lifecycle_generation g) (go_display_generation g) (go_retention_generation g) (go_alias_generation g)
    (go_credentials g) (go_credential_generation g) (go_credential_prefix g).

Definition replace_display (g : CatalogGovernanceObject) (display_name : bytes) (generation : Z) : CatalogGovernanceObject :=
  mkGovernance (profile_version (go_version g)) (go_instance g) (go_tenant g) (go_slug g) (go_alias g) display_name (go_principal g) (go_salt g) (go_hash g) (go_ingest g) (go_query g)
    (go_retention_seconds g) (go_retention_offset g) (go_quota_generation g) (go_quota_weight g) (go_quota_resources g) (go_quota_offset g) (go_public_key g) (go_fingerprint g)
    (go_protected_key g) (go_key_envelope g) (go_lifecycle g) (go_lifecycle_generation g) generation (go_retention_generation g) (go_alias_generation g)
    (go_credentials g) (go_credential_generation g) (go_credential_prefix g).

Definition replace_retention (g : CatalogGovernanceObject) (seconds generation : Z) : CatalogGovernanceObject :=
  mkGovernance (profile_version (go_version g)) (go_instance g) (go_tenant g) (go_slug g) (go_alias g) (go_display_name g) (go_principal g) (go_salt g) (go_hash g) (go_ingest g) (go_query g)
    seconds (go_retention_offset g) (go_quota_generation g) (go_quota_weight g) (go_quota_resources g) (go_quota_offset g) (go_public_key g) (go_fingerprint g)
    (go_protected_key g) (go_key_envelope g) (go_lifecycle g) (go_lifecycle_generation g) (go_display_generation g) generation (go_alias_generation g)
    (go_credentials g) (go_credential_generation g) (go_credential_prefix g).

Definition replace_alias (g : CatalogGovernanceObject) (alias : ExternalTenantAlias) (generation : Z) : CatalogGovernanceObject :=
  mkGovernance V8 (go_instance g) (go_tenant g) (go_slug g) (Some alias) (go_display_name g) (go_principal g) (go_salt g) (go_hash g) (go_ingest g) (go_query g)
    (go_retention_seconds g) (go_retention_offset g) (go_quota_generation g) (go_quota_weight g) (go_quota_resources g) (go_quota_offset g) (go_public_key g) (go_fingerprint g)
    (go_protected_key g) (go_key_envelope g) (go_lifecycle g) (go_lifecycle_generation g) (go_display_generation g) (go_retention_generation g) generation
    (go_credentials g) (go_credential_generation g) (go_credential_prefix g).

Lemma splice_app (a x y c : bytes) n : n = length a -> length y = length x -> splice (a ++ x ++ c) n y = Ok (a ++ y ++ c).
Proof.
  intros -> Hl. unfold splice. rewrite (proj2 (Nat.leb_le _ _)) by (rewrite !length_app; lia). rewrite take_app_length. do 3 f_equal. by rewrite app_assoc, drop_app_length' by (rewrite length_app; lia).
Qed.

Lemma checked_sub_nat_ok n k : checked_sub_nat (n + k) k = Ok n.
Proof. unfold checked_sub_nat. rewrite (proj2 (Nat.leb_le _ _)) by lia. by rewrite Nat.add_sub. Qed.

Lemma encoded_credentials_layout prefix generation cs : credentials_ok cs -> encode_credentials prefix generation cs = Ok (prefix ++ be_bytes 8 generation ++ credentials_bytes cs).
Proof. intros [[_ Hn] _ _ _]. unfold encode_credentials, MAX_CREDENTIALS, u16_max in *. rewrite (proj2 (Z.ltb_ge _ _)) by lia. done. Qed.

Context (g : CatalogGovernanceObject) (Hg : g = laid g) (Hok : governance_ok g).

Lemma laid_prefix : go_credential_prefix g = prefix_bytes g.
Proof. by rewrite Hg at 1. Qed.

Lemma with_credentials_layout generation cs : since 6 (go_version g) = true -> resource_ok generation -> credentials_ok cs -> with_credentials g generation cs = Ok (layout (replace_credentials g generation cs)).
Proof.
  intros Hv Hgen Hcs. pose proof Hcs as [Hn _ Hd Ha]. unfold resource_ok in Hgen. unfold with_credentials. rewrite (proj2 (Z.eqb_neq _ _)) by lia. rewrite (proj2 (Z.leb_le 1 _)), (proj2 (Z.leb_le _ MAX_CREDENTIALS)) by lia. cbn [andb negb orb]. rewrite Ha.
  assert (Hr : repeated cs = false). { clear - Hd. induction cs as [|c cs IH]; [done|]. cbn in *. inversion Hd as [|? ? Hc Hd']. rewrite IH by done. rewrite orb_false_r. by apply not_found. }
  rewrite Hr, Hv. cbn [Z.eqb Pos.eqb negb orb mbind result_bind]. rewrite encoded_credentials_layout, laid_prefix by done. done.
Qed.

Lemma with_quota_layout generation weight resources : resource_ok generation -> 0 < weight <= u16_max -> length resources = 11%nat -> Forall resource_ok resources ->
  with_quota g generation weight resources = Ok (layout (replace_quota g generation weight resources)).
Proof.
  intros Hgen Hw Hl Hr. unfold resource_ok in Hgen. unfold with_quota. rewrite !(proj2 (Z.eqb_neq _ _)), (proj2 (Z.ltb_ge _ _)) by lia. cbn [orb].
  assert (Hz : existsb (fun r => r =? 0) resources = false). { clear - Hr. induction Hr as [|r rs H _ IH]; [done|]. cbn. unfold resource_ok in H. rewrite IH, (proj2 (Z.eqb_neq _ _)) by lia. done. }
  rewrite Hz, laid_prefix. replace (go_quota_offset g) with (length (head_bytes g ++ be_bytes 8 (go_retention_seconds g))) by (rewrite Hg, length_app, length_be_bytes; done).
  unfold prefix_bytes, quota_bytes. rewrite <- !app_assoc, (app_assoc (head_bytes g)). set (front := head_bytes g ++ be_bytes 8 (go_retention_seconds g)).
  rewrite (splice_app front) by done. cbn [mbind result_bind]. rewrite (app_assoc front), (splice_app (front ++ be_bytes 8 generation)) by (rewrite ?length_app, ?length_be_bytes; done). cbn [mbind result_bind].
  rewrite (app_assoc (front ++ be_bytes 8 generation)), (splice_app ((front ++ be_bytes 8 generation) ++ be_bytes 4 weight)).
  - cbn [mbind result_bind]. rewrite encoded_credentials_layout by apply (gk_credentials _ Hok). unfold layout, prefix_bytes, quota_bytes. fields. subst front. rewrite <- !app_assoc. done.
  - rewrite !length_app, !length_be_bytes. lia.
  - destruct (gk_quota_resources _ Hok) as [Hl' _]. assert (Hc : forall rs, length (concat (map (be_bytes 8) rs)) = (8 * length rs)%nat) by (induction rs as [|r rs IH]; [done|]; cbn [map concat length]; rewrite length_app, length_be_bytes, IH; lia). by rewrite !Hc, Hl, Hl'.
Qed.

Ltac versions := change (bool_decide (V6 = V7)) with false; change (bool_decide (V7 = V7)) with true; change (since 6 V6) with true; change (since 7 V6) with false; change (since 8 V6) with false;
  change (since 6 V7) with true; change (since 7 V7) with true; change (since 8 V7) with false; cbn [generation_bytes].

Definition body_bytes (g : CatalogGovernanceObject) : bytes := head_bytes g ++ be_bytes 8 (go_retention_seconds g) ++ quota_bytes g.

Lemma prefix_body h : prefix_bytes h = body_bytes h ++ lifecycle_bytes (go_lifecycle h) ++ generations_bytes h.
Proof. unfold prefix_bytes, body_bytes. by rewrite <- !app_assoc. Qed.

Lemma with_lifecycle_layout lifecycle generation : go_version g = V6 \/ go_version g = V7 -> resource_ok generation -> with_lifecycle g lifecycle generation = Ok (layout (replace_lifecycle g lifecycle generation)).
Proof.
  intros Hv Hgen. unfold resource_ok in Hgen. unfold with_lifecycle. rewrite (proj2 (Z.eqb_neq _ _)) by lia. cbv zeta. rewrite laid_prefix, prefix_body.
  set (tail := if bool_decide (go_version g = V7) then be_bytes 8 (go_display_generation g) ++ be_bytes 8 (go_retention_generation g) else []).
  assert (Hgens : generations_bytes g = be_bytes 8 (go_lifecycle_generation g) ++ tail) by (subst tail; unfold generations_bytes; destruct Hv as [-> | ->]; versions; by rewrite ?app_nil_r).
  replace (bool_decide (go_version g = V6) || bool_decide (go_version g = V7)) with true by (by destruct Hv as [-> | ->]).
  set (front := body_bytes g ++ lifecycle_bytes (go_lifecycle g)). assert (Hlen : length (front ++ be_bytes 8 (go_lifecycle_generation g) ++ tail) = (length front + (if bool_decide (go_version g = V7) then 24 else 8))%nat)
    by (rewrite !length_app, length_be_bytes; subst tail; destruct Hv as [-> | ->]; versions; rewrite ?length_app, ?length_be_bytes; cbn [length]; lia).
  rewrite Hgens, app_assoc. fold front. rewrite Hlen, checked_sub_nat_ok. cbn [mbind result_bind]. rewrite (splice_app front) by (rewrite ?length_be_bytes; done). cbn [mbind result_bind].
  assert (Hfront : length front = (length (body_bytes g) + 5)%nat) by (subst front; rewrite length_app; done). rewrite Hfront, checked_sub_nat_ok. cbn [mbind result_bind]. subst front. rewrite <- app_assoc.
  unfold lifecycle_bytes at 1. change ([lifecycle_code (go_lifecycle g); 4; 0; 1; 1] ++ be_bytes 8 generation ++ tail) with ([lifecycle_code (go_lifecycle g)] ++ [4; 0; 1; 1] ++ be_bytes 8 generation ++ tail).
  rewrite (splice_app (body_bytes g)) by (try done; lia). cbn [mbind result_bind]. rewrite encoded_credentials_layout by apply (gk_credentials _ Hok). do 2 f_equal.
  unfold layout. rewrite prefix_body. unfold replace_lifecycle at 3. fields. f_equal. unfold generations_bytes. fields. subst tail. destruct Hv as [-> | ->]; versions; by rewrite ?app_nil_r, <- ?app_assoc.
Qed.

(** The prefix between its magic and its generations, and in it the part up to the alias. *)
Definition generations_of (v : CatalogGovernanceVersion) (lifecycle display retention alias : Z) : bytes :=
  generation_bytes (since 6 v) lifecycle ++ generation_bytes (since 7 v) display ++ generation_bytes (since 7 v) retention ++ generation_bytes (since 8 v) alias.
Definition collar_bytes (h : CatalogGovernanceObject) : bytes := go_instance h ++ tenant_id_bytes (go_tenant h) ++ [zlen (slug_text (go_slug h))] ++ slug_text (go_slug h).
Definition after_display_bytes (h : CatalogGovernanceObject) : bytes :=
  principal_id_bytes (go_principal h) ++ go_salt h ++ go_hash h ++ base_bytes (no_alias (go_alias h)) (go_ingest h)
  ++ base_bytes (no_alias (go_alias h)) (go_query h) ++ go_public_key h ++ go_fingerprint h ++ (be_bytes 2 (zlen (go_protected_key h)) ++ go_protected_key h)
  ++ (be_bytes 2 (zlen (go_key_envelope h)) ++ go_key_envelope h).
Definition neck_bytes (h : CatalogGovernanceObject) : bytes := collar_bytes h ++ alias_bytes (go_alias h) ++ ([zlen (go_display_name h)] ++ go_display_name h) ++ after_display_bytes h.
Definition middle_bytes (h : CatalogGovernanceObject) : bytes := be_bytes 8 (go_retention_seconds h) ++ quota_bytes h ++ lifecycle_bytes (go_lifecycle h).

Lemma head_neck h : head_bytes h = governance_magic (go_version h) ++ neck_bytes h.
Proof. unfold head_bytes, neck_bytes, collar_bytes, after_display_bytes. by rewrite <- !app_assoc. Qed.

Lemma prefix_parts h : prefix_bytes h = governance_magic (go_version h) ++ (neck_bytes h ++ middle_bytes h)
  ++ generations_of (go_version h) (go_lifecycle_generation h) (go_display_generation h) (go_retention_generation h) (go_alias_generation h).
Proof. unfold prefix_bytes. rewrite head_neck. unfold middle_bytes, generations_bytes, generations_of. by rewrite <- !app_assoc. Qed.

Lemma profile_generations v m rest lifecycle display retention alias display' retention' : since 6 v = true -> m = governance_magic v \/ m = governance_magic (profile_version v) -> resource_ok display' -> resource_ok retention' ->
  append_or_replace_profile_generations (m ++ rest ++ generations_of v lifecycle display retention alias) v display' retention' =
  Ok (governance_magic (profile_version v) ++ rest ++ generations_of (profile_version v) lifecycle display' retention' alias).
Proof.
  unfold resource_ok. intros Hv Hm Hd Hr. unfold append_or_replace_profile_generations. rewrite !(proj2 (Z.eqb_neq _ _)) by lia. cbn [orb]. cbv zeta.
  assert (Hreplace : forall back alias_part, length alias_part = back ->
    (display_at ← checked_sub_nat (length (m ++ rest ++ be_bytes 8 lifecycle ++ be_bytes 8 display ++ be_bytes 8 retention ++ alias_part)) (back + 16);
     prefix ← splice (m ++ rest ++ be_bytes 8 lifecycle ++ be_bytes 8 display ++ be_bytes 8 retention ++ alias_part) display_at (be_bytes 8 display');
     splice prefix (display_at + 8) (be_bytes 8 retention')) = Ok (m ++ rest ++ be_bytes 8 lifecycle ++ be_bytes 8 display' ++ be_bytes 8 retention' ++ alias_part)).
  { intros back alias_part Hback. replace (m ++ rest ++ be_bytes 8 lifecycle ++ be_bytes 8 display ++ be_bytes 8 retention ++ alias_part) with ((m ++ rest ++ be_bytes 8 lifecycle) ++ be_bytes 8 display ++ be_bytes 8 retention ++ alias_part) by (by rewrite <- !app_assoc).
    set (front := m ++ rest ++ be_bytes 8 lifecycle). replace (length (front ++ be_bytes 8 display ++ be_bytes 8 retention ++ alias_part)) with (length front + (back + 16))%nat by (rewrite !length_app, !length_be_bytes; lia).
    rewrite checked_sub_nat_ok. cbn [mbind result_bind]. rewrite (splice_app front) by (rewrite ?length_be_bytes; done). cbn [mbind result_bind]. rewrite (app_assoc front), (splice_app (front ++ be_bytes 8 display')) by (rewrite ?length_app, ?length_be_bytes; done).
    subst front. by rewrite <- !app_assoc. }
  destruct v; try discriminate Hv; unfold generations_of.
  - change (profile_version V6) with V7 in *. versions. rewrite !app_nil_r. rewrite (splice_app [] m (governance_magic V7) (rest ++ be_bytes 8 lifecycle)) by (try done; by destruct Hm as [-> | ->]). cbn [mbind result_bind app]. by rewrite <- !app_assoc.
  - change (profile_version V7) with V7 in *. assert (m = governance_magic V7) as -> by (by destruct Hm). versions. apply (Hreplace 0%nat []). done.
  - change (profile_version V8) with V8 in *. assert (m = governance_magic V8) as -> by (by destruct Hm). change (since 6 V8) with true. change (since 7 V8) with true. change (since 8 V8) with true. cbn [generation_bytes]. apply (Hreplace 8%nat (be_bytes 8 alias)). done.
Qed.

(** Reading the parts of a prefix by their offsets. *)
Lemma byte_at_app (a : bytes) x b n : n = length a -> byte_at (a ++ x :: b) n = Ok (Z.to_nat x).
Proof. intros ->. unfold byte_at. rewrite lookup_app_r by lia. by rewrite Nat.sub_diag. Qed.

Lemma slice_at_app (a b c : bytes) start stop : start = length a -> stop = (length a + length b)%nat -> slice_at (a ++ b ++ c) start stop = Ok b.
Proof. intros -> ->. unfold slice_at. rewrite (proj2 (Nat.leb_le _ _)) by lia. by rewrite get_slice_app by done. Qed.

Lemma zlen_nat (t : bytes) : Z.to_nat (zlen t) = length t.
Proof. unfold zlen. lia. Qed.

Lemma collar_length h : nonzero 16 (go_instance h) -> nonzero 16 (tenant_id_bytes (go_tenant h)) -> length (collar_bytes h) = (33 + length (slug_text (go_slug h)))%nat.
Proof. intros [Hi _] [Ht _]. unfold collar_bytes. rewrite !length_app, Hi, Ht. cbn [length]. lia. Qed.

Lemma slug_length_at h rest : nonzero 16 (go_instance h) -> nonzero 16 (tenant_id_bytes (go_tenant h)) ->
  byte_at (governance_magic (go_version h) ++ collar_bytes h ++ rest) 40 = Ok (length (slug_text (go_slug h))).
Proof.
  intros [Hi _] [Ht _]. unfold collar_bytes. rewrite <- !app_assoc. rewrite !(app_assoc (governance_magic _)), (app_assoc (_ ++ go_instance h)). rewrite <- zlen_nat. apply byte_at_app. rewrite !length_app, Hi, Ht. done.
Qed.

Lemma with_retention_layout seconds generation : since 6 (go_version g) = true -> 0 < seconds <= MAX_RETENTION_SECONDS -> resource_ok generation ->
  with_retention_seconds g seconds generation = Ok (layout (replace_retention g seconds generation)).
Proof.
  intros Hv Hs Hgen. unfold with_retention_seconds. rewrite (proj2 (Z.eqb_neq seconds 0)), (proj2 (Z.ltb_ge _ _)), (proj2 (Z.eqb_neq generation 0)) by (unfold resource_ok in *; lia). cbn [orb]. cbv zeta.
  rewrite (since_earlier 4 6) by done. replace (go_retention_offset g + 0)%nat with (length (governance_magic (go_version g) ++ neck_bytes g)) by (rewrite <- head_neck, Nat.add_0_r; by rewrite Hg).
  rewrite laid_prefix, prefix_parts. unfold middle_bytes. rewrite <- !app_assoc, (app_assoc (governance_magic _)). rewrite (splice_app (governance_magic (go_version g) ++ neck_bytes g)) by done. cbn [mbind result_bind].
  pose proof (profile_generations (go_version g) (governance_magic (go_version g)) (neck_bytes g ++ be_bytes 8 seconds ++ quota_bytes g ++ lifecycle_bytes (go_lifecycle g)) (go_lifecycle_generation g) (go_display_generation g) (go_retention_generation g) (go_alias_generation g)
    (go_display_generation g) generation Hv (or_introl eq_refl)) as Hp.
  rewrite <- !app_assoc in Hp. rewrite <- app_assoc, Hp; [|pose proof (gk_display_generation _ Hok) as Hd; unfold generation_ok in Hd; destruct (since 7 (go_version g)); [done|rewrite Hd; unfold resource_ok, u64_max; lia]|done].
  cbn [mbind result_bind]. rewrite encoded_credentials_layout by apply (gk_credentials _ Hok). unfold layout. rewrite prefix_parts. unfold middle_bytes. unfold replace_retention at 2 3 4 5 6 7. fields. rewrite <- !app_assoc. done.
Qed.

(** The prefix before the display name and after it. *)
Definition tail_bytes (h : CatalogGovernanceObject) : bytes := after_display_bytes h ++ middle_bytes h
  ++ generations_of (go_version h) (go_lifecycle_generation h) (go_display_generation h) (go_retention_generation h) (go_alias_generation h).

Lemma prefix_display h : prefix_bytes h = governance_magic (go_version h) ++ collar_bytes h ++ alias_bytes (go_alias h) ++ ([zlen (go_display_name h)] ++ go_display_name h) ++ tail_bytes h.
Proof. rewrite prefix_parts. unfold neck_bytes, tail_bytes. by rewrite <- !app_assoc. Qed.

Lemma magic_collar : length (governance_magic (go_version g) ++ collar_bytes g) = (41 + length (slug_text (go_slug g)))%nat.
Proof. rewrite length_app, collar_length by (apply Hok). change (length (governance_magic (go_version g))) with 8%nat. lia. Qed.

(** Where the display name is found. *)
Lemma display_found : exists tag, byte_at (prefix_bytes g) (41 + length (slug_text (go_slug g))) = Ok tag /\
  match tag with
  | 0%nat => Ok (41 + length (slug_text (go_slug g)) + 1)%nat
  | 1%nat => alias_length ← byte_at (prefix_bytes g) (41 + length (slug_text (go_slug g)) + 1); Ok (41 + length (slug_text (go_slug g)) + 2 + alias_length)%nat
  | _ => Err corruption
  end = Ok (length (governance_magic (go_version g) ++ collar_bytes g ++ alias_bytes (go_alias g))).
Proof.
  rewrite app_assoc, length_app, magic_collar, prefix_display, (app_assoc (governance_magic _)). pose proof magic_collar as Hlen. set (front := governance_magic (go_version g) ++ collar_bytes g) in *. rewrite <- Hlen.
  destruct (go_alias g) as [a|]; unfold alias_bytes; cbn [app].
  - exists 1%nat. split; [by apply byte_at_app|]. cbn iota. rewrite (cons_middle 1 front), app_assoc, (byte_at_app (front ++ [1])) by (rewrite length_app; done). cbn [mbind result_bind]. rewrite zlen_nat. f_equal. cbn [length]. lia.
  - exists 0%nat. split; [by apply byte_at_app|]. done.
Qed.

Lemma display_successor_layout display : text_ok 128 display ->
  display_successor_prefix g display = Ok (governance_magic (profile_version (go_version g)) ++ (collar_bytes g ++ alias_bytes (go_alias g) ++ ([zlen display] ++ display)) ++ tail_bytes g).
Proof.
  intros [_ [Hd _]]. unfold display_successor_prefix. cbv zeta. rewrite laid_prefix. rewrite prefix_display at 1. rewrite slug_length_at by apply Hok. cbn [mbind result_bind].
  destruct display_found as (tag & Htag & Hfound). rewrite Htag. cbn [mbind result_bind]. cbn [mbind result_bind] in Hfound. rewrite Hfound. cbn [mbind result_bind]. clear tag Htag Hfound. rewrite prefix_display.
  set (before := collar_bytes g ++ alias_bytes (go_alias g)). set (magic := governance_magic (go_version g)).
  replace (magic ++ collar_bytes g ++ alias_bytes (go_alias g) ++ ([zlen (go_display_name g)] ++ go_display_name g) ++ tail_bytes g) with ((magic ++ before) ++ zlen (go_display_name g) :: go_display_name g ++ tail_bytes g) by (subst before; by rewrite <- !app_assoc).
  rewrite byte_at_app by done. cbn [mbind result_bind]. rewrite zlen_nat. unfold checked_sub_nat. rewrite (proj2 (Nat.leb_le _ _)) by (rewrite !length_app; cbn [length]; rewrite length_app; lia). cbn [mbind result_bind].
  rewrite <- app_assoc, (slice_at_app magic before) by (try done; by rewrite length_app). cbn [mbind result_bind]. rewrite (proj2 (Z.ltb_ge _ _)) by (unfold u8_max; lia).
  replace (magic ++ before ++ zlen (go_display_name g) :: go_display_name g ++ tail_bytes g) with ((magic ++ before ++ zlen (go_display_name g) :: go_display_name g) ++ tail_bytes g) by (by rewrite <- !app_assoc).
  rewrite get_from_app by (rewrite !length_app; cbn [length]; lia). cbn [ok_or mbind result_bind]. subst before. by rewrite <- !app_assoc.
Qed.

Lemma old_generation present generation : generation_ok present generation -> resource_ok generation.
Proof. unfold generation_ok. destruct present; [done|intros ->; unfold resource_ok, u64_max; lia]. Qed.

Lemma with_display_layout display generation : since 6 (go_version g) = true -> text_ok 128 display -> display <> [] -> resource_ok generation ->
  with_display_name g display generation = Ok (layout (replace_display g display generation)).
Proof.
  intros Hv Hd Hne Hgen. pose proof Hd as [Hlen _]. unfold with_display_name. rewrite bool_decide_false, (proj2 (Z.ltb_ge _ _)), (proj2 (Z.eqb_neq generation 0)) by (unfold resource_ok in *; try done; lia). cbn [orb].
  rewrite display_successor_layout by done. cbn [mbind result_bind]. unfold tail_bytes. rewrite (app_assoc (after_display_bytes g)), (app_assoc (_ ++ _)).
  rewrite profile_generations; [|done|by right|done|apply (old_generation _ _ (gk_retention_generation _ Hok))]. cbn [mbind result_bind]. rewrite encoded_credentials_layout by apply (gk_credentials _ Hok).
  unfold layout. rewrite prefix_parts. unfold neck_bytes, middle_bytes, quota_bytes, collar_bytes, after_display_bytes. unfold replace_display. fields. rewrite <- !app_assoc. done.
Qed.

Lemma with_alias_layout alias generation old : since 7 (go_version g) = true -> go_alias g = Some old -> alias_ok (Some alias) -> resource_ok generation ->
  with_external_tenant_alias g alias generation = Ok (layout (replace_alias g alias generation)).
Proof.
  intros Hv Hold [[_ [Ha _]] _] Hgen. unfold with_external_tenant_alias. rewrite (proj2 (Z.eqb_neq generation 0)) by (unfold resource_ok in *; lia). rewrite Hv. cbn [orb negb]. cbv zeta. rewrite laid_prefix. rewrite prefix_display at 1. rewrite slug_length_at by apply Hok. cbn [mbind result_bind].
  set (rest := ([zlen (go_display_name g)] ++ go_display_name g) ++ after_display_bytes g ++ middle_bytes g ++ generations_of V7 (go_lifecycle_generation g) (go_display_generation g) (go_retention_generation g) 1).
  assert (Hprefix : prefix_bytes g = (governance_magic (go_version g) ++ collar_bytes g) ++ (1 :: zlen (alias_text old) :: alias_text old) ++ rest ++ generation_bytes (since 8 (go_version g)) (go_alias_generation g)).
  { rewrite prefix_display, Hold. unfold tail_bytes, generations_of. subst rest. change (since 6 V7) with true. change (since 7 V7) with true. change (since 8 V7) with false. rewrite Hv, (since_earlier 6 7) by done. cbn [generation_bytes]. unfold generations_of. cbn [generation_bytes]. by rewrite <- !app_assoc. }
  pose proof magic_collar as Hlen. rewrite <- Hlen, Hprefix. set (magic := governance_magic (go_version g)) in *. set (collar := collar_bytes g) in *. set (front := magic ++ collar) in *. set (ending := generation_bytes (since 8 (go_version g)) (go_alias_generation g)) in *.
  cbn [app]. rewrite (byte_at_app front _ _ (length front) eq_refl). cbn [mbind result_bind]. change (Z.to_nat 1) with 1%nat. cbn iota.
  assert (Hbyte : byte_at (front ++ 1 :: zlen (alias_text old) :: alias_text old ++ rest ++ ending) (length front + 1) = Ok (length (alias_text old))).
  { rewrite <- (zlen_nat (alias_text old)). rewrite (cons_middle 1 front), app_assoc. apply byte_at_app. by rewrite length_app. }
  assert (Hbefore : slice_at (front ++ 1 :: zlen (alias_text old) :: alias_text old ++ rest ++ ending) 8 (length front) = Ok collar).
  { subst front. rewrite <- app_assoc. apply slice_at_app; [done|by rewrite length_app]. }
  assert (Hafter : slice_at (front ++ 1 :: zlen (alias_text old) :: alias_text old ++ rest ++ ending) (length front + 2 + length (alias_text old)) (length front + 2 + length (alias_text old) + length rest) = Ok rest).
  { change (1 :: zlen (alias_text old) :: alias_text old ++ rest ++ ending) with ((1 :: zlen (alias_text old) :: alias_text old) ++ rest ++ ending). rewrite app_assoc. apply slice_at_app; rewrite length_app; cbn [length]; lia. }
  assert (Hsuffix : (if bool_decide (go_version g = V8) then checked_sub_nat (length (front ++ 1 :: zlen (alias_text old) :: alias_text old ++ rest ++ ending)) 8 else Ok (length (front ++ 1 :: zlen (alias_text old) :: alias_text old ++ rest ++ ending)))
    = Ok (length front + 2 + length (alias_text old) + length rest)%nat).
  { rewrite length_app. cbn [length]. rewrite !length_app. subst ending. clear Hbyte Hbefore Hafter Hprefix Hlen. clearbody front rest. generalize (length (alias_text old)) as n. intros n. destruct (go_version g); try discriminate Hv.
    - change (bool_decide (V7 = V8)) with false. change (since 8 V7) with false. cbn [generation_bytes length]. f_equal. lia.
    - change (bool_decide (V8 = V8)) with true. change (since 8 V8) with true. cbn [generation_bytes]. rewrite length_be_bytes. rewrite <- (checked_sub_nat_ok (length front + 2 + n + length rest) 8). f_equal. lia. }
  rewrite Hbyte. cbn [mbind result_bind]. rewrite Hsuffix. cbn [mbind result_bind]. rewrite Hbefore. cbn [mbind result_bind]. rewrite (proj2 (Z.ltb_ge _ _)) by (unfold u8_max; lia). rewrite Hafter. cbn [mbind result_bind].
  rewrite encoded_credentials_layout by apply (gk_credentials _ Hok). unfold layout. rewrite prefix_display. unfold tail_bytes, middle_bytes, quota_bytes, collar_bytes, after_display_bytes. unfold replace_alias. fields.
  subst collar rest. unfold collar_bytes, after_display_bytes, middle_bytes, quota_bytes, alias_bytes, generations_of. rewrite Hold. cbn [no_alias]. change (since 6 V8) with true. change (since 7 V8) with true. change (since 8 V8) with true. change (since 6 V7) with true. change (since 7 V7) with true. change (since 8 V7) with false. cbn [generation_bytes].
  repeat first [rewrite app_nil_r | rewrite <- app_assoc | rewrite <- app_comm_cons]. done.
Qed.

(** A resource replaced by a valid one leaves a valid object. *)
Lemma profile_since v : since 6 v = true -> since 5 (profile_version v) = true /\ since 6 (profile_version v) = true /\ since 7 (profile_version v) = true /\ since 8 (profile_version v) = since 8 v.
Proof. by destruct v. Qed.

Lemma replace_credentials_ok generation cs : resource_ok generation -> credentials_ok cs -> governance_ok (replace_credentials g generation cs).
Proof. intros Hgen Hcs. destruct Hok. by constructor. Qed.

Lemma replace_quota_ok generation weight resources : resource_ok generation -> 0 < weight <= u16_max -> length resources = 11%nat -> Forall resource_ok resources -> governance_ok (replace_quota g generation weight resources).
Proof. intros Hgen Hw Hl Hr. destruct Hok. constructor; try done. fields. unfold replace_quota, u16_max, u32_max in *. cbn. lia. Qed.

Lemma replace_lifecycle_ok lifecycle generation : since 6 (go_version g) = true -> resource_ok generation -> governance_ok (replace_lifecycle g lifecycle generation).
Proof. intros Hv Hgen. destruct Hok. constructor; try done. unfold replace_lifecycle. fields. by rewrite Hv. Qed.

Lemma replace_display_ok display generation : since 6 (go_version g) = true -> text_ok 128 display -> display <> [] -> resource_ok generation -> governance_ok (replace_display g display generation).
Proof.
  intros Hv Hd Hne Hgen. destruct (profile_since _ Hv) as (H5 & H6 & H7 & H8). pose proof (old_generation _ _ (gk_retention_generation _ Hok)). destruct Hok. constructor; try done; unfold replace_display; fields; rewrite ?H5, ?H6, ?H7, ?H8; try done. by rewrite Hv in gk_lifecycle_generation0.
Qed.

Lemma replace_retention_ok seconds generation : since 6 (go_version g) = true -> 0 < seconds <= MAX_RETENTION_SECONDS -> resource_ok generation -> governance_ok (replace_retention g seconds generation).
Proof.
  intros Hv Hs Hgen. destruct (profile_since _ Hv) as (H5 & H6 & H7 & H8). pose proof (old_generation _ _ (gk_display_generation _ Hok)). destruct Hok. constructor; try done; unfold replace_retention; fields; rewrite ?H5, ?H6, ?H7, ?H8; try done.
  - unfold resource_ok. assert (MAX_RETENTION_SECONDS <= u64_max) by done. lia.
  - by rewrite Hv in gk_lifecycle_generation0.
Qed.

Lemma replace_alias_ok alias generation old : since 7 (go_version g) = true -> go_alias g = Some old -> alias_ok (Some alias) -> resource_ok generation -> governance_ok (replace_alias g alias generation).
Proof.
  intros Hv Hold Ha Hgen. destruct Hok. rewrite Hold in gk_ingest0, gk_query0. rewrite Hv in gk_display_generation0, gk_retention_generation0. rewrite (since_earlier 6 7) in gk_lifecycle_generation0 by done. by constructor.
Qed.

(** A record of the eighth version whose lifecycle is changed: the magic of the sixth, the prefix of the sixth, and what
    that version does not expect. *)
Definition as_sixth (h : CatalogGovernanceObject) : CatalogGovernanceObject :=
  mkGovernance V6 (go_instance h) (go_tenant h) (go_slug h) (go_alias h) (go_display_name h) (go_principal h) (go_salt h) (go_hash h) (go_ingest h) (go_query h)
    (go_retention_seconds h) (go_retention_offset h) (go_quota_generation h) (go_quota_weight h) (go_quota_resources h) (go_quota_offset h) (go_public_key h) (go_fingerprint h)
    (go_protected_key h) (go_key_envelope h) (go_lifecycle h) (go_lifecycle_generation h) 1 1 1 (go_credentials h) (go_credential_generation h) (go_credential_prefix h).

Lemma as_sixth_ok : go_version g = V8 -> governance_ok (as_sixth g).
Proof. intros Hv. destruct Hok. rewrite Hv in *. by constructor. Qed.

Lemma eighth_prefix : go_version g = V8 ->
  exists front, prefix_bytes g = governance_magic V8 ++ front ++ be_bytes 8 (go_display_generation g) ++ be_bytes 8 (go_retention_generation g) ++ be_bytes 8 (go_alias_generation g)
  /\ prefix_bytes (as_sixth g) = governance_magic V6 ++ front.
Proof.
  intros Hv. exists ((neck_bytes g ++ middle_bytes g) ++ be_bytes 8 (go_lifecycle_generation g)). rewrite !prefix_parts, Hv. unfold generations_of. cbn [as_sixth go_version]. change (since 6 V8) with true. change (since 7 V8) with true. change (since 8 V8) with true.
  change (since 6 V6) with true. change (since 7 V6) with false. change (since 8 V6) with false. cbn [generation_bytes]. rewrite ?app_nil_r, <- ?app_assoc. done.
Qed.

Lemma with_lifecycle_eighth lifecycle generation : go_version g = V8 -> resource_ok generation ->
  exists rest, with_lifecycle g lifecycle generation = Ok (prefix_bytes (as_sixth g) ++ be_bytes 8 (go_display_generation g) ++ be_bytes 8 (go_retention_generation g) ++ rest).
Proof.
  intros Hv Hgen. unfold with_lifecycle. rewrite (proj2 (Z.eqb_neq _ _)) by (unfold resource_ok in *; lia). cbv zeta. rewrite laid_prefix, Hv. change (bool_decide (V8 = V6) || bool_decide (V8 = V7)) with false. cbn iota.
  destruct (eighth_prefix Hv) as (front & -> & ->). rewrite (splice_app [] (governance_magic V8) (governance_magic V6) (front ++ be_bytes 8 (go_display_generation g) ++ be_bytes 8 (go_retention_generation g) ++ be_bytes 8 (go_alias_generation g))) by done. cbn [mbind result_bind app].
  destruct (take 3 (be_bytes 8 (go_alias_generation g))) as [|a0 [|a1 [|a2 [|]]]] eqn:Ha; try (apply (f_equal length) in Ha; rewrite length_take, length_be_bytes in Ha; done).
  set (alias := be_bytes 8 (go_alias_generation g)) in *. assert (Halias : exists x last, alias = [a0; a1; a2] ++ [x] ++ last /\ length last = 4%nat).
  { assert (Hl : length alias = 8%nat) by apply length_be_bytes. rewrite <- (take_drop 3 alias), Ha. destruct (drop 3 alias) as [|x last] eqn:Hd; apply (f_equal length) in Hd; rewrite length_drop, Hl in Hd; cbn in Hd; [lia|]. exists x, last. split; [done|lia]. }
  destruct Halias as (x & last & Halias & Hlast). rewrite Halias. set (body := governance_magic V6 ++ front ++ be_bytes 8 (go_display_generation g) ++ be_bytes 8 (go_retention_generation g) ++ [a0; a1; a2]).
  replace (length (governance_magic V8 ++ front ++ be_bytes 8 (go_display_generation g) ++ be_bytes 8 (go_retention_generation g) ++ [a0; a1; a2] ++ [x] ++ last)) with (length body + 5)%nat by (subst body; rewrite !length_app; change (length (governance_magic V6)) with (length (governance_magic V8)); cbn [length]; lia).
  rewrite checked_sub_nat_ok. cbn [mbind result_bind].
  replace ((governance_magic V6 ++ front ++ be_bytes 8 (go_display_generation g) ++ be_bytes 8 (go_retention_generation g) ++ [a0; a1; a2] ++ [x] ++ last) ++ be_bytes 8 generation) with (body ++ [x] ++ last ++ be_bytes 8 generation) by (subst body; by rewrite <- !app_assoc).
  rewrite (splice_app body) by done. cbn [mbind result_bind]. rewrite encoded_credentials_layout by apply (gk_credentials _ Hok). subst body. eexists. rewrite <- !app_assoc. reflexivity.
Qed.
End successors.

(** ** The theorems *)

(** What a successor's bytes decode to. *)
Definition decodes_to (successor : result CatalogFailure bytes) (g : CatalogGovernanceObject) : Prop :=
  match successor with Ok b => governance_decode b = Ok (laid g) | Err _ => False end.

Lemma layout_decodes g : governance_ok g -> decodes_to (Ok (layout g)) g.
Proof. intros Hok. unfold decodes_to, governance_decode. by rewrite layout_decodes_from. Qed.

Lemma decoded_layout b g : bytes_ok b -> governance_decode b = Ok g -> since 5 (go_version g) = true -> b = layout g /\ g = laid g /\ governance_ok g.
Proof.
  intros Hb H Hv. unfold governance_decode in H. destruct (governance_decode_from b b) as [[g' r]|] eqn:Hd; [|done]. injection H as <-. by apply (decoded_layout_from b b _ r).
Qed.

(** A count of credentials that starts with two zero bytes is refused. *)
Lemma be_bytes_two_zeros v : 0 <= v < 2 ^ 48 -> exists rest, be_bytes 8 v = [0; 0] ++ rest.
Proof.
  intros Hv. exists (be_bytes 6 v). cbn [be_bytes app]. rewrite !(Z.div_small v (256 ^ _)) by (split; [lia|]; apply Z.lt_le_trans with (2 ^ 48); [lia|done]). done.
Qed.

Lemma zero_credentials_refused rest : take_credential_set ([0; 0] ++ rest) = Err corruption.
Proof. done. Qed.

(** C34 (functional). A governance record of the sixth, seventh or eighth version that decodes has, for every valid new value of one
    administered resource, a successor, and the successor decodes to the same record with exactly that resource and its
    generation replaced: the credential set, the quota, the display name, the retention, the lifecycle (sixth and seventh versions)
    and the alias of a record that has one (seventh and eighth). The successor of the display name and of the retention of
    a sixth-version record is a seventh-version record, that of an alias an eighth-version record. *)
Theorem governance_successors_are_exact b g : bytes_ok b -> governance_decode b = Ok g -> since 6 (go_version g) = true ->
  (forall generation credentials, resource_ok generation -> credentials_ok credentials -> decodes_to (with_credentials g generation credentials) (replace_credentials g generation credentials))
  /\ (forall generation weight resources, resource_ok generation -> 0 < weight <= u16_max -> length resources = 11%nat -> Forall resource_ok resources ->
        decodes_to (with_quota g generation weight resources) (replace_quota g generation weight resources))
  /\ (forall display generation, text_ok 128 display -> display <> [] -> resource_ok generation -> decodes_to (with_display_name g display generation) (replace_display g display generation))
  /\ (forall seconds generation, 0 < seconds <= MAX_RETENTION_SECONDS -> resource_ok generation -> decodes_to (with_retention_seconds g seconds generation) (replace_retention g seconds generation))
  /\ (forall lifecycle generation, go_version g <> V8 -> resource_ok generation -> decodes_to (with_lifecycle g lifecycle generation) (replace_lifecycle g lifecycle generation))
  /\ (forall alias old generation, since 7 (go_version g) = true -> go_alias g = Some old -> alias_ok (Some alias) -> resource_ok generation ->
        decodes_to (with_external_tenant_alias g alias generation) (replace_alias g alias generation)).
Proof.
  intros Hb Hd Hv. destruct (decoded_layout b g Hb Hd (since_earlier 5 6 _ eq_refl Hv)) as (_ & Hg & Hok). split_and!; intros.
  - rewrite with_credentials_layout by done. by apply layout_decodes, replace_credentials_ok.
  - rewrite with_quota_layout by done. by apply layout_decodes, replace_quota_ok.
  - rewrite with_display_layout by done. by apply layout_decodes, replace_display_ok.
  - rewrite with_retention_layout by done. by apply layout_decodes, replace_retention_ok.
  - rewrite with_lifecycle_layout; [|done|done|destruct (go_version g); try discriminate Hv; tauto|done]. by apply layout_decodes, replace_lifecycle_ok.
  - erewrite with_alias_layout by done. apply layout_decodes. by eapply replace_alias_ok.
Qed.

(** C40 (error). Every lifecycle change of an eighth-version record, one whose alias was administered, encodes a successor that cannot be
    decoded (as long as the retention generation is below 2^48, which an increment per change does not reach). *)
Theorem lifecycle_change_of_v8_is_unreadable b g lifecycle generation : bytes_ok b -> governance_decode b = Ok g -> go_version g = V8 ->
  go_retention_generation g < 2 ^ 48 -> resource_ok generation -> exists b', with_lifecycle g lifecycle generation = Ok b' /\ governance_decode b' = Err corruption.
Proof.
  intros Hb Hd Hv Hr Hgen. destruct (decoded_layout b g Hb Hd) as (_ & Hg & Hok); [by rewrite Hv|]. destruct (with_lifecycle_eighth g Hg Hok lifecycle generation Hv Hgen) as [rest ->].
  eexists. split; [reflexivity|]. unfold governance_decode. rewrite prefix_decodes by (try done; by apply as_sixth_ok). unfold decode_after_prefix.
  pose proof (old_generation _ _ (gk_display_generation _ Hok)) as Hdisplay. pose proof (old_generation _ _ (gk_retention_generation _ Hok)) as Hretention. unfold resource_ok in Hretention.
  erewrite cursor_step by (by apply (cd_reads _ _ _ (codec_generation true))). destruct (be_bytes_two_zeros (go_retention_generation g)) as [zeros ->]; [lia|]. done.
Qed.

(** ** Scenarios *)

(** A record of each version, as its writers laid it out: the alias from the fourth version on, the base credentials of the second
    and third, the generations of the sixth, seventh and eighth, the credential set of the fifth. *)
Definition sample_record (v : CatalogGovernanceVersion) : bytes :=
  let generation := be_bytes 8 1 in
  governance_magic v ++ replicate 16 1 ++ replicate 16 2 ++ [4] ++ bytes_of_string "acme" ++ (if since 4 v then [1; 5] ++ bytes_of_string "alias" else []) ++ [4] ++ bytes_of_string "Acme"
  ++ replicate 16 3 ++ replicate 32 4 ++ replicate 32 5 ++ (if since 2 v then replicate 16 6 ++ replicate 32 7 ++ replicate 32 8 else []) ++ (if since 3 v then replicate 16 9 ++ replicate 32 10 ++ replicate 32 11 else [])
  ++ replicate 32 12 ++ replicate 32 13 ++ [0; 3; 1; 2; 3] ++ [0; 2; 1; 2] ++ be_bytes 8 3600 ++ generation ++ be_bytes 4 7 ++ concat (replicate 11 (be_bytes 8 100)) ++ [1; 4; 0; 1; 1]
  ++ (if since 6 v then generation else []) ++ (if since 7 v then generation ++ generation else []) ++ (if since 8 v then generation else [])
  ++ (if since 5 v then generation ++ [0; 1] ++ replicate 16 3 ++ [4; 1] ++ be_bytes 8 0 ++ replicate 32 4 ++ replicate 32 5 else []).

Definition byte_okb (b : Z) : bool := (0 <=? b) && (b <? 256).
Lemma byte_okb_all l : forallb byte_okb l = true -> bytes_ok l.
Proof. induction l as [|x l IH]; cbn [forallb]; [constructor|]. intros [Hx Hl]%andb_true_iff. unfold byte_okb in Hx. apply andb_true_iff in Hx as [H1%Z.leb_le H2%Z.ltb_lt]. constructor; [split; lia|by apply IH]. Qed.

Lemma governance_successors_are_exact_witness : exists g, governance_decode (sample_record V7) = Ok g
  /\ decodes_to (with_quota g 2 9 (replicate 11 50)) (replace_quota g 2 9 (replicate 11 50)) /\ decodes_to (with_lifecycle g ReadOnly 2) (replace_lifecycle g ReadOnly 2).
Proof.
  eexists. split; [vm_compute; reflexivity|].
  edestruct (governance_successors_are_exact (sample_record V7)) as (_ & Hquota & _ & _ & Hlifecycle & _); [apply byte_okb_all; vm_compute; reflexivity|vm_compute; reflexivity|reflexivity|].
  split; [apply Hquota; [done|done|done|by apply Forall_replicate]|by apply Hlifecycle].
Defined.

Lemma lifecycle_change_of_v8_is_unreadable_witness : exists g, governance_decode (sample_record V8) = Ok g
  /\ exists b', with_lifecycle g Suspended 2 = Ok b' /\ governance_decode b' = Err corruption.
Proof.
  eexists. split; [vm_compute; reflexivity|].
  apply (lifecycle_change_of_v8_is_unreadable (sample_record V8)); [apply byte_okb_all; vm_compute; reflexivity|vm_compute; reflexivity|reflexivity|done|done].
Defined.

Definition successor_decode (v : CatalogGovernanceVersion) (successor : CatalogGovernanceObject -> result CatalogFailure bytes) : result CatalogFailure CatalogGovernanceObject :=
  g ← governance_decode (sample_record v);
  match successor g with Ok b => governance_decode b | Err _ => Ok g end.

(** Decodable records of the first five versions whose display name or retention is changed, and of the first three whose
    quota is changed, have successors that cannot be decoded: the profile generations are appended without the lifecycle generation
    that the seventh version stores before them, and the offset at which the quota is written is that of the record before its
    prefix was rewritten as a fifth-version one, three bytes too low. *)
Theorem legacy_successors_are_unreadable :
  (forall v, since 6 v = false -> (exists g, governance_decode (sample_record v) = Ok g)
    /\ successor_decode v (fun g => with_display_name g (bytes_of_string "Acme Two") 2) = Err corruption /\ successor_decode v (fun g => with_retention_seconds g 7200 2) = Err corruption)
  /\ (forall v, since 4 v = false -> successor_decode v (fun g => with_quota g 2 9 (replicate 11 50)) = Err corruption).
Proof. split; intros v Hv; destruct v; try discriminate Hv; split_and?; try (vm_compute; reflexivity); eexists; vm_compute; reflexivity. Qed.
